(* ===== verification/_CoqProject ===== *)
-Q . S2P
Prelude.v
Intrusive.v
UintBig.v
Difficulty.v
Merkle.v
MultiProof.v
DistMmr.v
EccData.v
RadixTree.v
UtxoTree.v
Rules.v
SystemState.v
TxBase.v
Ecc.v
ChainWork.v
Kernel.v
Validation.v
Parallel.v
BlockRW.v
UtxoSet.v
BlockApply.v
Retarget.v
BlockHandle.v
BlockTree.v
TxPool.v
Aes.v
Cipher.v
Framing.v
MsgWriter.v
Secure.v
Channel.v
PeerManager.v
CoinSelector.v
WalletCoins.v
WalletTx.v
