(* ===== verification/Prelude.v ===== *)
(** * Verification of the Grimm node core

    Grimm is a MimbleWimble node and wallet in C++.  This library models the
    consensus core ([src/core]), the validation and application of blocks, the tree of
    headers and the transaction pool of the node ([src/node]), the coins of the wallet
    ([src/wallet]) and the transport of the peer-to-peer protocol ([src/p2p],
    [src/core/proto.cpp]) as executable functions, and proves what makes them
    correct.

    ** How the parts interact

    A block body is a set of inputs, outputs and kernels.  Its elements are
    compared, sorted and cut through ([TxBase]), read and merged as streams
    ([BlockRW]), and checked with the elliptic-curve layer ([Ecc], [Kernel],
    [Validation]), in the node by several verifiers at once, each with a batch of
    equations ([Parallel]).  The node keeps the headers that it knows as a tree in its
    database ([BlockTree]), and puts a block on top of the chain or takes it
    back ([BlockApply], [BlockHandle]), with the difficulty that the recent
    headers give ([Retarget]).  The unspent outputs are kept in a radix tree whose root hash ([RadixTree],
    [UtxoTree]) goes, with the Merkle mountain range of the earlier headers
    ([Merkle], in the rows of the database [DistMmr]), into the definition of the
    next header ([SystemState]), whose proof
    of work is tested against a packed difficulty ([Difficulty], on the
    big integers of [UintBig]).  Heights, forks and the emission schedule are the
    consensus rules ([Rules]).  A client that has only the tip is convinced of the
    work below it by a chain-work proof ([ChainWork]): headers at sampled points of
    the work axis, tied together by links and by one Merkle proof for all of
    them ([MultiProof]).  Transactions that are not in a block yet wait in
    the pools of [TxPool].

    Nodes choose their peers by rating ([PeerManager]).  On a connection a message
    is written into shared fragments ([MsgWriter]), authenticated and encrypted
    in place ([Secure], with the stream cipher of [Cipher] over the block
    cipher of [Aes]), and cut out of the stream again by the incremental
    reader of [Framing].  The keys come from the handshake of [Channel], which
    also has the encrypted messages of the bulletin board.

    A wallet keeps its coins in a table that the events of the node change
    ([WalletCoins]), chooses some of them for a payment ([CoinSelector]), and
    takes and gives back the coins of a transaction ([WalletTx]).

    ** Files

    - [Prelude]: machine integers with explicit truncation, counted loops, byte
      strings and their values, generic lemmas on lists, the hint database
      [grimm] and the tactics of the development.
    - [Intrusive]: [boost::intrusive] multisets over a memory of objects, used by
      [TxPool] and [PeerManager], and the invariant of such an index.
    - [UintBig]: [core/uintBig.h] and [.cpp], byte-array arithmetic at every width.
    - [Difficulty]: [core/difficulty.h] and [.cpp].
    - [Merkle]: [core/merkle.h] and [.cpp]: [Mmr] over any storage (a class),
      [FixedMmmr], [CompactMmr], [FlyMmr], proof builders.
    - [MultiProof]: [Merkle::MultiProof], its builder and its verifier.
    - [DistMmr]: [Merkle::DistributedMmr].
    - [EccData]: what the hash processor is fed with, the plain data of points
      and signatures, and the laws of [cmp] functions.
    - [RadixTree], [UtxoTree]: [core/radixtree.h] and [.cpp].
    - [Rules]: [HeightRange], [Rules], emission of [core/block_crypt.h] and [.cpp].
    - [SystemState]: [Block::SystemState], [Block::PoW], history.
    - [TxBase], [Kernel], [Validation]: transaction elements, kernels, and
      [TxBase::Context] of [core/block_crypt.cpp], [core/block_validation.cpp].
    - [Ecc]: scalars, points, oracle, Schnorr signatures, switch commitments,
      public range proofs, batches of equations of [core/ecc.cpp] and
      [core/ecc_native.h].
    - [ChainWork]: [Block::ChainWorkProof] of [core/chainwork.cpp] and
      [Node::Processor::BuildCwp] of [node/node.cpp].
    - [Parallel]: [NodeProcessor::ValidateAndSummarize] and [VerifyBlock] of
      [node/processor.cpp], with the [BatchContext] of every thread.
    - [UtxoSet]: the UTXO tree as a set of stacks, the interface for [BlockApply].
    - [BlockApply]: [HandleBlockElement], [HandleValidatedTx],
      [HandleValidatedBlock] of [node/processor.cpp].
    - [Retarget]: the cache of recent headers, the medians and
      [get_NextDifficulty] of [node/processor.cpp].
    - [BlockHandle]: [NodeProcessor::HandleBlock] with the tables it changes.
    - [BlockTree]: the tables of headers, tips and reachable tips of [node/db.cpp].
    - [BlockRW]: [IReader], [IWriter], [Dump], [Combine] of [core/block_rw.cpp].
    - [TxPool]: [node/txpool.h] and [.cpp].
    - [Aes], [Cipher]: [core/aes.h] and [.cpp].
    - [Framing]: [p2p/protocol_base.*], [p2p/msg_reader.*].
    - [MsgWriter]: [utility/io/fragment_writer.*], [p2p/msg_serializer.*].
    - [Secure], [Channel]: [ProtocolPlus], the handshake and [Bbs] of
      [core/proto.cpp].
    - [PeerManager]: [core/peer_manager.*], and [Node::PeerMan] and
      [Node::Peer::DeleteSelf] of [node/node.cpp].
    - [CoinSelector], [WalletCoins]: [CoinSelector3] and the table of coins of
      [wallet/wallet_db.cpp], with the events of [wallet/wallet.cpp].
    - [WalletTx]: [wallet/base_tx_builder.cpp] as far as it works on coins.

    ** How code becomes definitions

    Definitions have the names of the source.  Unsigned integers are [Z] with the
    truncation of every operation that can leave its width; byte arrays are
    lists of [Z].  What can fail returns an [option]; an [assert] that does not
    hold, and a read or write out of bounds, is [None], so that a theorem
    that gives a result also shows that there is none of them.  Objects that
    the code shares and changes in place (the elements of the pools, the peers,
    the fragments of messages) live in an explicit memory under an address.  The
    virtual functions of a class that others implement are a type class
    ([MmrStorage], [IReader], [IWriter], [IProtocol], [Handlers]); its clients are
    proved against the class and its laws.  Where threads or the two ends of a
    connection interleave there is a step relation ([Parallel.step],
    [Channel.step]) and the theorems hold for every run.

    Code that is not in the repository is a parameter with hypotheses that state
    what it documents: SHA-256 and HMAC, the secp256k1 group ([Curve] with
    [CurveLaws]), the bulletproof verifier, the Equihash solver and verifier.
    Of SHA-256 nothing is assumed but the size of its result.  Collisions exist
    for every such function; so a theorem that needs them not to be met lists the messages
    that are hashed for its data ([kernel_proof_msgs], [kern_msgs],
    [cwp_msgs]), and supposes that no two different
    messages of this list have the same hash ([no_collision]).  In the same way the theorems on
    batches name the event that false equations cancel under the multipliers
    of a batch ([cancels]), instead of supposing that it cannot happen.
    The instances in the modules [Demo] show that the hypotheses can be met.

    ** Fuel

    Loops that are not structural take fuel, and the theorems show that it is
    enough.  [Combine] gets the number of elements of its streams, [XCrypt] the
    number of bytes, [FragmentWriter::write] the number of bytes (every round
    writes one at least), the message reader two rounds for every byte and two
    more (two rounds consume a header), the loops of the big integers the number
    of their words, those of the pools and of the peer manager the number of
    objects, the verifier of a chain-work proof the number of its headers and its
    prover the height of the tip.  Rejection sampling has no bound of its own: the
    number of draws is a parameter, and completeness holds for every number from
    some number on if the draws of the hash come below the threshold at all.

    ** What the theorems show

    - Consensus: a block is accepted exactly if its elements are sorted and valid
      and it balances with its fees and subsidy (up to the first halving), with
      any number of verifiers under every interleaving, unless false equations
      cancel in a batch; transactions likewise; cut-through
      and merging keep the balance; combining streams gives the elements that
      normalizing in memory gives, the kernels as copies.
    - Chain: a block is applied completely or not at all, and undoing it restores
      the UTXO set; [HandleBlock] keeps the tables in agreement with the tree,
      and a refused block leaves no trace; the next difficulty is the work over the
      clamped time between two medians; in the tree of headers the reachable ones and
      their tips are what their names say, and the history root of the database is
      the one of the chain.
    - Commitments: the radix tree finds, adds and deletes exactly the
      searched leaf and keeps its cached hashes; the root hash depends on the
      set of leaves only and is what the streaming computation gives; Merkle
      mountain ranges refine the hash of the list of their leaves, and their
      proofs are complete; a proof that is accepted against a header names an
      element of the chain, and kernel identifiers and header links are binding,
      if no collision is met.
    - Chain work: an accepted proof holds headers of the chain only, which cover every
      point that the sampler draws, if no collision is met; the prover always makes
      a proof that is accepted; a cropped proof is accepted for its bound.
    - Numbers: difficulty adjustment is accurate within a stated bound and
      saturates; big-integer operations are exact; emission of a range is the
      sum over its heights.
    - Pool and peers: every operation keeps all indices consistent; eviction
      keeps the best; [PeerManager::Update] implements a greedy choice that is
      stated on its own, and loses only peers that the node deletes when it
      closes their connection; what is saved is restored.
    - Wallet: the selector returns distinct coins that are enough whenever there
      are enough; the coins of a transaction balance and are given back when it
      fails; a rollback puts the heights of coins back and nothing else.
    - Transport: the block cipher is the one of FIPS 197 and its decoder undoes it;
      the reader never leaves its buffer and does not depend on how the stream is
      cut; messages arrive as they were sent, through writing, authentication,
      encryption, any cut into packets, and back; the handshake of two ends
      comes to the same keys under every interleaving.

    Some theorems prove that the code does not do what it means to: the
    emission at a halving, the order of reloaded UTXO identifiers, the lost flag of a
    copied kernel, the order of the profit set after a merge, messages shorter
    than their authentication code, addresses that are not points, and the change
    of a payment whose preselected coins are not enough.  In [HandleBlock] a
    difficulty that is not the computed one is only logged.

    ** Not modelled

    - The field arithmetic and the multiplication algorithms under [core/ecc.cpp], and
      bulletproofs: they are written on the internals of libsecp256k1.  Key
      derivation and [Output::Create] and [Recover] depend on them.
    - [DistributedMmr::get_Proof], macroblock files and the treasury.
    - The processor without verifier threads, which has no batch.
    - The rest of node, processor and wallet: SQL, event handling and the
      negotiation of transactions.  Of [HandleBlock] the recognition of own outputs
      is left out.
    - Serialization ([yas] templates), logging, HTTP, Stratum, user interface:
      third-party formats and input and output. *)

From stdpp Require Export base list numbers option gmap.
From stdpp Require Import sorting.
From Stdlib Require Export ZArith Lia.

Declare Scope grimm_scope.
Delimit Scope grimm_scope with grimm.
Open Scope Z_scope.

(** ** Machine integers

    A [w]-bit unsigned integer is a [Z]; every arithmetic operation of the
    source that can leave the range is followed by an explicit truncation. *)
Definition wrap (w x : Z) : Z := x mod 2 ^ w.
Abbreviation u8 := (wrap 8).
Abbreviation u16 := (wrap 16).
Abbreviation u32 := (wrap 32).
Abbreviation u64 := (wrap 64).

(** Two's complement reinterpretation of a [w]-bit value as a signed one. *)
Definition swrap (w x : Z) : Z := (x + 2 ^ (w - 1)) mod 2 ^ w - 2 ^ (w - 1).
Abbreviation i32 := (swrap 32).
Abbreviation i64 := (swrap 64).

Definition in_width (w x : Z) : Prop := 0 <= x < 2 ^ w.

Global Instance in_width_dec w x : Decision (in_width w x).
Proof. unfold in_width. apply _. Defined.

Lemma wrap_bound w x : 0 <= w -> 0 <= wrap w x < 2 ^ w.
Proof. intros. apply Z.mod_pos_bound, Z.pow_pos_nonneg; lia. Qed.

Lemma wrap_small w x : in_width w x -> wrap w x = x.
Proof. intros. by apply Z.mod_small. Qed.

Lemma u32_small x : 0 <= x < 2 ^ 32 -> u32 x = x.
Proof. apply (wrap_small 32). Qed.

Lemma swrap_small w x :
  0 < w -> - 2 ^ (w - 1) <= x < 2 ^ (w - 1) -> swrap w x = x.
Proof.
  intros Hw Hx. unfold swrap.
  assert (2 ^ w = 2 * 2 ^ (w - 1)) as E.
  { rewrite <- Z.pow_succ_r by lia. f_equal. lia. }
  rewrite Z.mod_small; lia.
Qed.

Create HintDb grimm discriminated.
Create Rewrite HintDb grimm.
#[export] Hint Resolve wrap_bound wrap_small : grimm.

(** ** Counted loops

    [for_down n body] is the source's [for (uint32_t i = n; i--; ) body(i)];
    [for_up] is [for (i = 0; i < n; i++)]. *)
Section loops.
Context {S : Type}.

Fixpoint for_down (n : nat) (body : nat -> S -> S) (s : S) : S :=
  match n with
  | O => s
  | Datatypes.S k => for_down k body (body k s)
  end.

Fixpoint for_up_from (i n : nat) (body : nat -> S -> S) (s : S) : S :=
  match n with
  | O => s
  | Datatypes.S k => for_up_from (Datatypes.S i) k body (body i s)
  end.

Definition for_up (n : nat) (body : nat -> S -> S) (s : S) : S :=
  for_up_from 0 n body s.

Lemma for_down_ind (P : nat -> S -> Prop) n body s :
  P n s ->
  (forall k s, (k < n)%nat -> P (Datatypes.S k) s -> P k (body k s)) ->
  P 0%nat (for_down n body s).
Proof.
  revert s. induction n as [|n IH]; intros s Hs Hstep; [done|].
  simpl. apply IH; [apply Hstep; [lia|done]|].
  intros k s' Hk. apply Hstep. lia.
Qed.

Lemma for_down_ext n body1 body2 s :
  (forall k s, (k < n)%nat -> body1 k s = body2 k s) ->
  for_down n body1 s = for_down n body2 s.
Proof.
  revert s. induction n as [|n IH]; intros s H; [done|]. simpl.
  rewrite H by lia. apply IH. intros. apply H. lia.
Qed.

Lemma for_up_from_ext i n body1 body2 s :
  (forall k s, (i <= k < i + n)%nat -> body1 k s = body2 k s) ->
  for_up_from i n body1 s = for_up_from i n body2 s.
Proof.
  revert i s. induction n as [|n IH]; intros i s H; [done|]. simpl.
  rewrite H by lia. apply IH. intros. apply H. lia.
Qed.

Lemma for_up_ext n body1 body2 s :
  (forall k s, (k < n)%nat -> body1 k s = body2 k s) ->
  for_up n body1 s = for_up n body2 s.
Proof. intros H. apply for_up_from_ext. intros. apply H. lia. Qed.

Lemma for_up_from_ind (P : nat -> S -> Prop) i n body s :
  P i s ->
  (forall k s, (i <= k < i + n)%nat -> P k s -> P (Datatypes.S k) (body k s)) ->
  P (i + n)%nat (for_up_from i n body s).
Proof.
  revert i s. induction n as [|n IH]; intros i s Hs Hstep; simpl.
  - by rewrite Nat.add_0_r.
  - replace (i + Datatypes.S n)%nat with (Datatypes.S i + n)%nat by lia.
    apply IH; [apply Hstep; [lia|done]|].
    intros k s' Hk. apply Hstep. lia.
Qed.

Lemma for_up_ind (P : nat -> S -> Prop) n body s :
  P 0%nat s ->
  (forall k s, (k < n)%nat -> P k s -> P (Datatypes.S k) (body k s)) ->
  P n (for_up n body s).
Proof.
  intros H0 Hs. apply (for_up_from_ind P 0 n); [done|].
  intros k s' Hk. apply Hs. lia.
Qed.
End loops.

(** ** Byte buffers *)
Definition byte_ok (b : Z) : Prop := 0 <= b < 256.
Abbreviation bytes_ok := (Forall byte_ok).

Global Instance byte_ok_dec b : Decision (byte_ok b).
Proof. unfold byte_ok. apply _. Defined.

Lemma u8_byte x : byte_ok (u8 x).
Proof. unfold byte_ok. pose proof (wrap_bound 8 x). lia. Qed.

Lemma byte_ok_u8 b : byte_ok b -> u8 b = b.
Proof. intros. apply wrap_small. unfold in_width. unfold byte_ok in *. lia. Qed.

#[export] Hint Resolve u8_byte byte_ok_u8 : grimm.

(** The weight of a byte followed by [n] less significant ones. *)
Definition radix (n : nat) : Z := 256 ^ Z.of_nat n.

Lemma radix_0 : radix 0 = 1.
Proof. reflexivity. Qed.

Lemma radix_S n : radix (S n) = 256 * radix n.
Proof. unfold radix. rewrite Nat2Z.inj_succ, Z.pow_succ_r; lia. Qed.

Lemma radix_pos n : 0 < radix n.
Proof. apply Z.pow_pos_nonneg; lia. Qed.

Lemma radix_add n m : radix (n + m) = radix n * radix m.
Proof. unfold radix. rewrite Nat2Z.inj_add, Z.pow_add_r; lia. Qed.

Lemma radix_pow2 n : radix n = 2 ^ (8 * Z.of_nat n).
Proof. unfold radix. rewrite Z.pow_mul_r by lia. done. Qed.

Lemma radix_le n m : (n <= m)%nat -> radix n <= radix m.
Proof. intros. apply Z.pow_le_mono_r; lia. Qed.

#[export] Hint Resolve radix_pos : grimm.

(** The value of a buffer "in Big-Endian representation". *)
Fixpoint be_val (l : list Z) : Z :=
  match l with
  | [] => 0
  | b :: l => b * radix (length l) + be_val l
  end.

(** The [n]-byte big-endian encoding of a number. *)
Fixpoint be_bytes (n : nat) (x : Z) : list Z :=
  match n with
  | O => []
  | S k => u8 (x / radix k) :: be_bytes k x
  end.

Lemma be_val_app l1 l2 :
  be_val (l1 ++ l2) = be_val l1 * radix (length l2) + be_val l2.
Proof.
  induction l1 as [|b l1 IH]; simpl; [lia|].
  rewrite IH, length_app, radix_add. ring.
Qed.

Lemma be_val_bound l : bytes_ok l -> 0 <= be_val l < radix (length l).
Proof.
  induction 1 as [|b l Hb _ IH]; simpl; [rewrite radix_0; lia|].
  unfold byte_ok in Hb. rewrite radix_S. pose proof (radix_pos (length l)). nia.
Qed.

Lemma be_val_nonneg l : bytes_ok l -> 0 <= be_val l.
Proof. intros H. by apply be_val_bound. Qed.

Lemma be_val_zeros n : be_val (replicate n 0) = 0.
Proof. induction n as [|n IH]; simpl; [done|]. rewrite IH. lia. Qed.

Lemma be_val_insert l i b :
  (i < length l)%nat ->
  be_val (<[i:=b]> l) = be_val l + (b - l !!! i) * radix (length l - S i).
Proof.
  revert i. induction l as [|a l IH]; intros [|i] Hi; simpl in *; try lia.
  - rewrite Nat.sub_0_r. ring.
  - rewrite length_insert, IH by lia. ring.
Qed.

Lemma bytes_ok_lookup l i : bytes_ok l -> byte_ok (l !!! i).
Proof.
  intros Hl. destruct (decide (i < length l)%nat) as [Hi|Hi].
  - destruct (lookup_lt_is_Some_2 l i Hi) as [x Hx].
    rewrite (list_lookup_total_correct _ _ _ Hx).
    by eapply Forall_lookup_1.
  - rewrite list_lookup_total_alt, lookup_ge_None_2 by lia. unfold byte_ok. simpl. lia.
Qed.

Lemma bytes_ok_insert l i b : bytes_ok l -> byte_ok b -> bytes_ok (<[i:=b]> l).
Proof. intros. by apply Forall_insert. Qed.

Lemma bytes_ok_zeros n : bytes_ok (replicate n 0).
Proof. apply Forall_replicate. unfold byte_ok. lia. Qed.

Lemma be_val_drop_S l i :
  (i < length l)%nat ->
  be_val (drop i l) = l !!! i * radix (length l - S i) + be_val (drop (S i) l).
Proof.
  intros Hi. destruct (lookup_lt_is_Some_2 l i Hi) as [x Hx].
  rewrite (drop_S l x i Hx). simpl. rewrite length_drop.
  by rewrite (list_lookup_total_correct _ _ _ Hx).
Qed.

Lemma be_val_split l i :
  be_val l = be_val (take i l) * radix (length l - i) + be_val (drop i l).
Proof. rewrite <- (take_drop i l) at 1. by rewrite be_val_app, length_drop. Qed.

(** The [n] least significant bytes of a buffer hold its value modulo [256^n]. *)
Lemma be_val_drop_mod l i :
  bytes_ok l -> be_val (drop i l) = be_val l mod radix (length l - i).
Proof.
  intros Hl. pose proof (be_val_split l i) as E.
  assert (0 <= be_val (drop i l) < radix (length l - i)) as B.
  { rewrite <- length_drop. apply be_val_bound. by apply Forall_drop. }
  apply (Z.mod_unique_pos _ _ (be_val (take i l))); lia.
Qed.

Lemma be_val_take_div l i :
  bytes_ok l -> be_val (take i l) = be_val l / radix (length l - i).
Proof.
  intros Hl. pose proof (be_val_split l i) as E.
  assert (0 <= be_val (drop i l) < radix (length l - i)) as B.
  { rewrite <- length_drop. apply be_val_bound. by apply Forall_drop. }
  apply (Z.div_unique_pos _ _ _ (be_val (drop i l))); lia.
Qed.

Lemma be_val_inj l1 l2 :
  bytes_ok l1 -> bytes_ok l2 -> length l1 = length l2 ->
  be_val l1 = be_val l2 -> l1 = l2.
Proof.
  intros H1. revert l2. induction H1 as [|a l1 Ha Hl1 IH]; intros l2 H2 Hlen E.
  - by destruct l2.
  - destruct l2 as [|b l2]; [done|]. apply Forall_cons in H2 as [Hb Hl2].
    simpl in Hlen, E. injection Hlen as Hlen. rewrite <- Hlen in E.
    pose proof (be_val_bound l1 Hl1). pose proof (be_val_bound l2 Hl2) as B2.
    rewrite <- Hlen in B2. pose proof (radix_pos (length l1)).
    unfold byte_ok in *. assert (a = b) as -> by nia.
    f_equal. apply IH; [done|lia|lia].
Qed.

Lemma length_be_bytes n x : length (be_bytes n x) = n.
Proof. induction n; simpl; auto. Qed.

Lemma bytes_ok_be_bytes n x : bytes_ok (be_bytes n x).
Proof. induction n; simpl; constructor; auto with grimm. Qed.

Lemma be_val_be_bytes n x : be_val (be_bytes n x) = x mod radix n.
Proof.
  induction n as [|n IH]; simpl.
  - rewrite radix_0. by rewrite Z.mod_1_r.
  - rewrite length_be_bytes, IH, radix_S.
    unfold wrap. change (2 ^ 8) with 256. pose proof (radix_pos n).
    rewrite (Z.mul_comm 256), Z.rem_mul_r by lia. ring.
Qed.

Lemma be_bytes_be_val l : bytes_ok l -> be_bytes (length l) (be_val l) = l.
Proof.
  intros Hl. apply be_val_inj; auto using bytes_ok_be_bytes, length_be_bytes.
  rewrite be_val_be_bytes. apply Z.mod_small. by apply be_val_bound.
Qed.

Lemma be_bytes_lookup n x i :
  (i < n)%nat -> be_bytes n x !!! i = u8 (x / radix (n - S i)).
Proof.
  revert i. induction n as [|n IH]; intros [|i] Hi; simpl; try lia.
  - by rewrite Nat.sub_0_r.
  - apply IH. lia.
Qed.

(** A byte of a buffer, read off the number the buffer denotes. *)
Lemma be_val_lookup l i :
  bytes_ok l -> (i < length l)%nat -> l !!! i = u8 (be_val l / radix (length l - S i)).
Proof.
  intros Hl Hi. rewrite <- be_bytes_lookup by done. by rewrite be_bytes_be_val.
Qed.

(** ** Three-way comparison, as [CMP_SIMPLE] and the sign of [memcmp] *)
Definition cmpZ (a b : Z) : Z := if a <? b then -1 else if b <? a then 1 else 0.

Lemma cmpZ_lt a b : cmpZ a b < 0 <-> a < b.
Proof. unfold cmpZ. destruct (Z.ltb_spec a b), (Z.ltb_spec b a); lia. Qed.
Lemma cmpZ_gt a b : 0 < cmpZ a b <-> b < a.
Proof. unfold cmpZ. destruct (Z.ltb_spec a b), (Z.ltb_spec b a); lia. Qed.
Lemma cmpZ_eq a b : cmpZ a b = 0 <-> a = b.
Proof. unfold cmpZ. destruct (Z.ltb_spec a b), (Z.ltb_spec b a); lia. Qed.
Lemma cmpZ_antisym a b : cmpZ b a = - cmpZ a b.
Proof. unfold cmpZ. destruct (Z.ltb_spec a b), (Z.ltb_spec b a); lia. Qed.

(** ** Decision by enumeration of the 256 bytes *)
Lemma byte_forall (P : Z -> bool) :
  forallb P (seqZ 0 256) = true -> forall b, byte_ok b -> P b = true.
Proof.
  intros H b Hb. rewrite forallb_forall in H. apply H.
  apply list_elem_of_In, elem_of_seqZ. unfold byte_ok in Hb. lia.
Qed.

(** ** Bits of concatenated numbers *)
Lemma testbit_high x m k : 0 <= m -> 0 <= x < 2 ^ m -> m <= k -> Z.testbit x k = false.
Proof.
  intros Hm Hx Hk. destruct (decide (x = 0)) as [->|Hne]; [apply Z.bits_0|].
  apply Z.bits_above_log2; [lia|]. apply Z.log2_lt_pow2; [lia|].
  pose proof (Z.pow_le_mono_r 2 m k). lia.
Qed.

Lemma add_shiftl_lor a x m :
  0 <= m -> 0 <= x < 2 ^ m -> a * 2 ^ m + x = Z.lor (Z.shiftl a m) x.
Proof.
  intros Hm Hx. rewrite <- Z.shiftl_mul_pow2 by lia. rewrite <- Z.add_lor_land.
  replace (Z.land (Z.shiftl a m) x) with 0; [lia|].
  symmetry. apply Z.bits_inj_0. intros k. rewrite Z.land_spec.
  destruct (Z.ltb_spec k m).
  - destruct (Z.ltb_spec k 0).
    + by rewrite (Z.testbit_neg_r _ k), andb_false_l by lia.
    + by rewrite Z.shiftl_spec_low by lia.
  - by rewrite (testbit_high x m k), andb_false_r by lia.
Qed.

Lemma testbit_concat a x m i :
  0 <= m -> 0 <= x < 2 ^ m -> 0 <= i ->
  Z.testbit (a * 2 ^ m + x) i = if i <? m then Z.testbit x i else Z.testbit a (i - m).
Proof.
  intros Hm Hx Hi. rewrite add_shiftl_lor, Z.lor_spec by lia.
  destruct (Z.ltb_spec i m).
  - by rewrite Z.shiftl_spec_low by lia.
  - by rewrite Z.shiftl_spec_high, (testbit_high x m i), orb_false_r by lia.
Qed.

Lemma lxor_concat a b x y m :
  0 <= m -> 0 <= x < 2 ^ m -> 0 <= y < 2 ^ m ->
  Z.lxor (a * 2 ^ m + x) (b * 2 ^ m + y) = Z.lxor a b * 2 ^ m + Z.lxor x y.
Proof.
  intros Hm Hx Hy.
  assert (0 <= Z.lxor x y < 2 ^ m) as Hxy.
  { assert (0 <= Z.lxor x y) by (apply Z.lxor_nonneg; lia). split; [lia|].
    destruct (decide (Z.lxor x y = 0)) as [->|]; [lia|].
    apply Z.log2_lt_pow2; [lia|].
    destruct (Z.lt_ge_cases (Z.log2 (Z.lxor x y)) m) as [|Hge]; [done|].
    pose proof (Z.bit_log2 (Z.lxor x y) ltac:(lia)) as Hbit.
    rewrite Z.lxor_spec, (testbit_high x m), (testbit_high y m) in Hbit by lia. done. }
  apply Z.bits_inj'. intros i Hi.
  rewrite Z.lxor_spec, !testbit_concat by lia.
  destruct (i <? m); by rewrite Z.lxor_spec.
Qed.

(** ** Loops that write one cell per iteration *)
Section fill.
Context {A : Type} `{Inhabited A}.

Lemma lookup_total_app_l (l1 l2 : list A) i : (i < length l1)%nat -> (l1 ++ l2) !!! i = l1 !!! i.
Proof. intros. rewrite !list_lookup_total_alt, lookup_app_l; done. Qed.

Lemma lookup_total_app_r (l1 l2 : list A) i : (length l1 <= i)%nat -> (l1 ++ l2) !!! i = l2 !!! (i - length l1)%nat.
Proof. intros. rewrite !list_lookup_total_alt, lookup_app_r; done. Qed.

Lemma lookup_total_drop (l : list A) k i : drop k l !!! i = l !!! (k + i)%nat.
Proof. by rewrite !list_lookup_total_alt, lookup_drop. Qed.

Lemma lookup_total_take (l : list A) k i : (i < k)%nat -> take k l !!! i = l !!! i.
Proof. intros. by rewrite !list_lookup_total_alt, lookup_take_lt. Qed.

Lemma lookup_total_insert (l : list A) i j (x : A) :
  (i < length l)%nat ->
  <[i:=x]> l !!! j = if decide (i = j) then x else l !!! j.
Proof.
  intros Hi. case_decide as E; [subst; by apply list_lookup_total_insert_eq|].
  by apply list_lookup_total_insert_ne.
Qed.

Lemma list_eq_total (l1 l2 : list A) :
  length l1 = length l2 ->
  (forall i, (i < length l1)%nat -> l1 !!! i = l2 !!! i) -> l1 = l2.
Proof.
  intros Hl Hi. apply (list_eq_same_length l1 l2 (length l1)); [done|done|].
  intros i x y Hlt Hx Hy. specialize (Hi i Hlt).
  by rewrite (list_lookup_total_correct _ _ _ Hx), (list_lookup_total_correct _ _ _ Hy) in Hi.
Qed.

Lemma for_down_fill n o (f : nat -> A -> A) (l : list A) :
  (o + n <= length l)%nat ->
  let r := for_down n (fun i p => <[(o + i)%nat := f i (p !!! (o + i)%nat)]> p) l in
  length r = length l /\
  forall k, r !!! k = if decide (o <= k < o + n)%nat then f (k - o)%nat (l !!! k) else l !!! k.
Proof.
  intros Hlen r.
  pose proof (for_down_ind (fun i r =>
    length r = length l /\ forall k, r !!! k =
      if decide (i + o <= k < o + n)%nat then f (k - o)%nat (l !!! k) else l !!! k)
    n (fun i p => <[(o + i)%nat := f i (p !!! (o + i)%nat)]> p) l) as Hind.
  apply Hind; clear Hind.
  - split; [done|]. intros k. rewrite decide_False by lia. done.
  - intros i s Hi [Hl Hk]. split; [by rewrite length_insert|]. intros k.
    rewrite lookup_total_insert by lia. destruct (decide ((o + i)%nat = k)) as [<-|Hne].
    + rewrite decide_True by lia. rewrite Hk, decide_False by lia. f_equal. lia.
    + rewrite Hk. destruct (decide (S i + o <= k < o + n)%nat).
      * by rewrite decide_True by lia.
      * by rewrite decide_False by lia.
Qed.

Lemma for_up_fill n o (f : nat -> A -> A) (l : list A) :
  (o + n <= length l)%nat ->
  let r := for_up n (fun i p => <[(o + i)%nat := f i (p !!! (o + i)%nat)]> p) l in
  length r = length l /\
  forall k, r !!! k = if decide (o <= k < o + n)%nat then f (k - o)%nat (l !!! k) else l !!! k.
Proof.
  intros Hlen r.
  pose proof (for_up_ind (fun i r =>
    length r = length l /\ forall k, r !!! k =
      if decide (o <= k < o + i)%nat then f (k - o)%nat (l !!! k) else l !!! k)
    n (fun i p => <[(o + i)%nat := f i (p !!! (o + i)%nat)]> p) l) as Hind.
  apply Hind; clear Hind.
  - split; [done|]. intros k. rewrite decide_False by lia. done.
  - intros i s Hi [Hl Hk]. split; [by rewrite length_insert|]. intros k.
    rewrite lookup_total_insert by lia. destruct (decide ((o + i)%nat = k)) as [<-|Hne].
    + rewrite decide_True by lia. rewrite Hk, decide_False by lia. f_equal. lia.
    + rewrite Hk. destruct (decide (o <= k < o + i)%nat).
      * by rewrite decide_True by lia.
      * by rewrite decide_False by lia.
Qed.
End fill.

#[export] Hint Resolve bytes_ok_lookup bytes_ok_insert bytes_ok_zeros
  bytes_ok_be_bytes be_val_nonneg Forall_drop Forall_take : grimm.
#[export] Hint Rewrite @length_insert @length_replicate length_be_bytes
  @length_drop @length_app @length_take : grimm.

(** ** Filtering a list by a property all or none of its elements have *)
Lemma list_filter_all {A} (P : A -> Prop) `{forall x, Decision (P x)} (l : list A) :
  (forall x, x ∈ l -> P x) -> filter P l = l.
Proof.
  induction l as [|x l IH]; intros Hl; [done|]. rewrite filter_cons_True by (apply Hl; by left).
  rewrite IH; [done|]. intros. apply Hl. by right.
Qed.

Lemma list_filter_none {A} (P : A -> Prop) `{forall x, Decision (P x)} (l : list A) :
  (forall x, x ∈ l -> ~ P x) -> filter P l = [].
Proof.
  induction l as [|x l IH]; intros Hl; [done|]. rewrite filter_cons_False by (apply Hl; by left).
  apply IH. intros. apply Hl. by right.
Qed.

Lemma list_filter_ext {A} (P Q : A -> Prop) `{forall x, Decision (P x), forall x, Decision (Q x)}
    (l : list A) :
  (forall x, x ∈ l -> P x <-> Q x) -> filter P l = filter Q l.
Proof.
  induction l as [|x l IH]; intros Hl; [done|].
  assert (filter P l = filter Q l) as E by (apply IH; intros; apply Hl; by right).
  pose proof (Hl x ltac:(by left)) as Hx. destruct (decide (P x)).
  - rewrite !filter_cons_True by tauto. by rewrite E.
  - rewrite !filter_cons_False by tauto. done.
Qed.

(** ** Sorted lists *)
Lemma StronglySorted_sublist {A} (R : A -> A -> Prop) l k : sublist l k -> StronglySorted R k -> StronglySorted R l.
Proof.
  induction 1 as [|x l k H IH|x l k H IH]; intros Hs; [done|..]; apply StronglySorted_inv in Hs as [Hs Hx].
  - constructor; [by apply IH|]. apply Forall_forall. intros y Hy. eapply Forall_forall in Hx; [exact Hx|].
    by eapply elem_of_sublist.
  - by apply IH.
Qed.

(** ** Sums *)
Definition zsum (l : list Z) : Z := foldr Z.add 0 l.

Lemma zsum_app l k : zsum (l ++ k) = zsum l + zsum k.
Proof. unfold zsum. induction l as [|x l IH]; cbn; lia. Qed.

#[global] Instance zsum_perm : Proper (Permutation ==> eq) zsum.
Proof. induction 1; unfold zsum in *; cbn; lia. Qed.

Lemma zsum_nonneg l : Forall (Z.le 0) l -> 0 <= zsum l.
Proof. induction 1; unfold zsum in *; cbn; lia. Qed.

Lemma zsum_submseteq l k : Forall (Z.le 0) k -> l ⊆+ k -> zsum l <= zsum k.
Proof.
  intros Hk [m E]%submseteq_Permutation. rewrite E in Hk |- *. rewrite zsum_app.
  apply Forall_app in Hk as [_ Hm]. apply zsum_nonneg in Hm. lia.
Qed.
