(* ===== verification/Intrusive.v ===== *)
(** Intrusive containers: the multisets and lists of [boost::intrusive] that
    several components keep objects in.

    Objects live in a memory and are known by their address; a multiset is the
    list of the addresses of its elements in its order, and the keys are read
    from the memory, so that changing an object in place can break the order
    of a set it is linked in.  Unlinking what is not linked, which the
    library only asserts, is [None].  The second part is about a set that indexes
    exactly the objects of the memory with some property. *)

From stdpp Require Import gmap sorting.
From S2P Require Import Prelude.

(** [insert] puts an element after the ones that are not greater. *)
Fixpoint ms_insert {A} (lt : A -> A -> bool) (x : A) (l : list A) : list A :=
  match l with
  | [] => [x]
  | y :: l => if lt x y then x :: y :: l else y :: ms_insert lt x l
  end.

(** [erase] of a linked element; [None] when it is not linked. *)
Fixpoint ms_erase (x : nat) (l : list nat) : option (list nat) :=
  match l with
  | [] => None
  | y :: l => if decide (x = y) then Some l else (cons y) <$> ms_erase x l
  end.

(** The order of a set by a key of its elements. *)
Definition by_key {E K} (mem : gmap nat E) (key : E -> K) (lt : K -> K -> bool) (a b : nat) : bool :=
  match mem !! a, mem !! b with
  | Some x, Some y => lt (key x) (key y)
  | _, _ => false
  end.

(** [find]: the first element that is neither less nor greater than the key. *)
Fixpoint ms_find {E K} (mem : gmap nat E) (key : E -> K) (lt : K -> K -> bool) (k : K) (l : list nat) : option nat :=
  match l with
  | [] => None
  | p :: l =>
      match mem !! p with
      | Some x => if negb (lt (key x) k) && negb (lt k (key x)) then Some p else ms_find mem key lt k l
      | None => ms_find mem key lt k l
      end
  end.

(** * Facts *)

(** A strict weak order on keys that are well-formed. *)
Record lt_order {K} (ok : K -> Prop) (lt : K -> K -> bool) : Prop := {
  lo_asym a b : ok a -> ok b -> lt a b = true -> lt b a = false;
  lo_trans a b c : ok a -> ok b -> ok c -> lt b a = false -> lt c b = false -> lt c a = false
}.

Lemma lt_order_Z {K} (f : K -> Z) : lt_order (fun _ => True) (fun a b => f a <? f b).
Proof. split; intros *; rewrite ?Z.ltb_lt, ?Z.ltb_ge; lia. Qed.

Definition ms_sorted {A} (lt : A -> A -> bool) (l : list A) : Prop := StronglySorted (fun a b => lt b a = false) l.

Lemma ms_insert_perm {A} (lt : A -> A -> bool) x l : ms_insert lt x l ≡ₚ x :: l.
Proof. induction l as [|y l IH]; [done|]. cbn. destruct (lt x y); [done|]. rewrite IH. constructor. Qed.

Lemma ms_insert_sorted {A} (lt : A -> A -> bool) x l :
  (forall a b, a ∈ x :: l -> b ∈ x :: l -> lt a b = true -> lt b a = false) ->
  (forall a b c, a ∈ x :: l -> b ∈ x :: l -> c ∈ x :: l -> lt b a = false -> lt c b = false -> lt c a = false) ->
  ms_sorted lt l -> ms_sorted lt (ms_insert lt x l).
Proof.
  intros Has Htr Hs. induction Hs as [|y l Hs IH Hy]; cbn; [by repeat constructor|].
  assert (x ∈ x :: y :: l) as Hx by (by left). assert (y ∈ x :: y :: l) as Hy' by (right; by left).
  destruct (lt x y) eqn:E.
  - constructor; [by constructor|]. constructor; [by apply Has|]. apply Forall_forall. intros z Hz.
    apply (Htr x y z); try done; [by do 2 right|by apply Has|by eapply Forall_forall in Hy].
  - constructor.
    + assert (forall a, a ∈ x :: l -> a ∈ x :: y :: l) as Hm.
      { intros a Ha. apply elem_of_cons in Ha as [->|Ha]; [by left|by do 2 right]. }
      apply IH; [intros a b Ha Hb; apply Has; by apply Hm|intros a b c Ha Hb Hc; apply Htr; by apply Hm].
    + rewrite ms_insert_perm. constructor; [done|done].
Qed.

Lemma ms_erase_spec x l : x ∈ l -> exists l', ms_erase x l = Some l' /\ l ≡ₚ x :: l' /\ sublist l' l.
Proof.
  induction l as [|y l IH]; intros Hx; [by apply not_elem_of_nil in Hx|]. cbn. case_decide as E.
  - subst y. exists l. split_and!; [done|done|by apply sublist_cons].
  - apply elem_of_cons in Hx as [->|Hx]; [done|]. destruct (IH Hx) as (l' & -> & HP & Hs). exists (y :: l'). cbn. split_and!; [done| |by apply sublist_skip].
    rewrite HP. constructor.
Qed.

Lemma ms_erase_last p l : NoDup (l ++ [p]) -> ms_erase p (l ++ [p]) = Some l.
Proof.
  induction l as [|q l IH]; intros H; cbn; [by rewrite decide_True|]. apply NoDup_cons in H as [Hq H].
  rewrite decide_False by (intros ->; apply Hq, elem_of_app; right; by left). by rewrite IH.
Qed.

Lemma ms_sorted_mono {A} (lt1 lt2 : A -> A -> bool) l :
  (forall a b, a ∈ l -> b ∈ l -> lt1 b a = false -> lt2 b a = false) -> ms_sorted lt1 l -> ms_sorted lt2 l.
Proof.
  intros H Hs. induction Hs as [|x l Hs IH Hx]; [constructor|]. constructor.
  - apply IH. intros a b Ha Hb. apply H; by right.
  - apply Forall_forall. intros y Hy. apply H; [by left|by right|]. by eapply Forall_forall in Hx.
Qed.

(** The order depends on the keys only. *)
Lemma ms_sorted_ext {A} (lt1 lt2 : A -> A -> bool) l :
  (forall a b, a ∈ l -> b ∈ l -> lt1 a b = lt2 a b) -> ms_sorted lt1 l -> ms_sorted lt2 l.
Proof. intros H. apply ms_sorted_mono. intros a b Ha Hb. by rewrite H. Qed.

(** ** A set that indexes the objects that are [live] *)
Section index.
Context {E K : Type} (live : E -> Prop) (key : E -> K) (ok : K -> Prop) (lt : K -> K -> bool) (Hlt : lt_order ok lt).

Definition linked (mem : gmap nat E) (p : nat) : Prop := exists x, mem !! p = Some x /\ live x.

Record indexed (mem : gmap nat E) (l : list nat) : Prop := {
  ix_dup : NoDup l;
  ix_alive p : p ∈ l <-> linked mem p;
  ix_sorted : ms_sorted (by_key mem key lt) l
}.

Definition keys_ok (mem : gmap nat E) : Prop := forall p x, mem !! p = Some x -> ok (key x).

Lemma by_key_ext mem mem' a b :
  key <$> mem !! a = key <$> mem' !! a -> key <$> mem !! b = key <$> mem' !! b -> by_key mem key lt a b = by_key mem' key lt a b.
Proof.
  unfold by_key. destruct (mem !! a), (mem' !! a), (mem !! b), (mem' !! b); cbn; intros E1 E2; simplify_eq; try done.
  by rewrite E1, E2.
Qed.

Lemma indexed_ext mem mem' l :
  (forall p, linked mem' p <-> linked mem p) -> (forall p, p ∈ l -> key <$> mem !! p = key <$> mem' !! p) ->
  indexed mem l -> indexed mem' l.
Proof.
  intros Ha Hk [H1 H2 H3]. split; [done|intros p; by rewrite Ha|].
  eapply ms_sorted_ext; [|exact H3]. intros a b Ia Ib. apply by_key_ext; by apply Hk.
Qed.

Lemma by_key_order mem (l : list nat) : keys_ok mem -> (forall q, q ∈ l -> is_Some (mem !! q)) ->
  (forall a b, a ∈ l -> b ∈ l -> by_key mem key lt a b = true -> by_key mem key lt b a = false) /\
  (forall a b c, a ∈ l -> b ∈ l -> c ∈ l ->
     by_key mem key lt b a = false -> by_key mem key lt c b = false -> by_key mem key lt c a = false).
Proof.
  intros Hk Hl. unfold by_key. split.
  - intros a b Ha Hb. destruct (Hl a Ha) as [x Ex], (Hl b Hb) as [y Ey]. rewrite Ex, Ey. apply (lo_asym _ _ Hlt); by eapply Hk.
  - intros a b c Ha Hb Hc. destruct (Hl a Ha) as [x Ex], (Hl b Hb) as [y Ey], (Hl c Hc) as [z Ez]. rewrite Ex, Ey, Ez.
    apply (lo_trans _ _ Hlt); by eapply Hk.
Qed.

(** Linking the object at [p], when nothing else changes. *)
Lemma indexed_link mem mem' l p :
  keys_ok mem' -> indexed mem l -> ~ linked mem p -> linked mem' p -> (forall q, q <> p -> mem' !! q = mem !! q) ->
  indexed mem' (ms_insert (by_key mem' key lt) p l).
Proof.
  intros Hk [H1 H2 H3] Hp Hp' Heq. rewrite <- H2 in Hp.
  assert (forall q, q <> p -> linked mem' q <-> linked mem q) as Hl by (intros q Hq; unfold linked; by rewrite Heq).
  assert (forall q, q ∈ p :: l -> linked mem' q) as Hin.
  { intros q Hq. destruct (decide (q = p)) as [->|Hne]; [done|]. apply elem_of_cons in Hq as [?|Hq]; [done|]. by apply Hl, H2. }
  destruct (by_key_order mem' (p :: l) Hk) as [O1 O2]. { intros q Hq. destruct (Hin q Hq) as (x & -> & _). by eexists. }
  split.
  - rewrite ms_insert_perm. by constructor.
  - intros q. rewrite ms_insert_perm. split; [apply Hin|]. intros Hq. destruct (decide (q = p)) as [->|Hne]; [by left|].
    right. by apply H2, Hl.
  - apply ms_insert_sorted; [done|done|]. eapply ms_sorted_ext; [|exact H3]. intros a b Ha Hb.
    apply by_key_ext; by rewrite Heq by (intros ->; done).
Qed.

(** Unlinking it. *)
Lemma indexed_unlink mem mem' l p :
  indexed mem l -> linked mem p -> ~ linked mem' p -> (forall q, q <> p -> mem' !! q = mem !! q) ->
  exists l', ms_erase p l = Some l' /\ l ≡ₚ p :: l' /\ sublist l' l /\ indexed mem' l'.
Proof.
  intros [H1 H2 H3] Hp Hp' Heq. apply H2 in Hp.
  destruct (ms_erase_spec p l Hp) as (l' & Ee & HP & Hs). exists l'. split_and!; [done|done|done|].
  rewrite HP in H1. apply NoDup_cons in H1 as [Hn H1]. split; [done| |].
  - intros q. destruct (decide (q = p)) as [->|Hne]; [done|].
    transitivity (q ∈ l); [rewrite HP, elem_of_cons; tauto|]. rewrite H2. unfold linked. by rewrite Heq.
  - eapply ms_sorted_ext; [|by eapply StronglySorted_sublist]. intros a b Ha Hb.
    apply by_key_ext; by rewrite Heq by (intros ->; done).
Qed.

(** Taking it out, changing it and putting it back. *)
Lemma indexed_relink mem mem' l p :
  keys_ok mem' -> indexed mem l -> linked mem p -> linked mem' p -> (forall q, q <> p -> mem' !! q = mem !! q) ->
  exists l', ms_erase p l = Some l' /\ indexed mem' (ms_insert (by_key mem' key lt) p l').
Proof.
  intros Hk Hi Hp Hp' Heq. assert (~ linked (delete p mem) p) as Hd by (intros (x & Ex & _); by rewrite lookup_delete_eq in Ex).
  destruct (indexed_unlink mem (delete p mem) l p Hi Hp Hd) as (l' & Ee & _ & _ & I).
  { intros q Hq. by rewrite lookup_delete_ne. }
  exists l'. split; [done|]. apply (indexed_link (delete p mem)); try done. intros q Hq. rewrite Heq, lookup_delete_ne by done. done.
Qed.

Lemma indexed_linked mem l p : indexed mem l -> p ∈ l -> linked mem p.
Proof. intros H Hp. by apply H. Qed.

Lemma indexed_lookup mem l p x : indexed mem l -> mem !! p = Some x -> p ∈ l <-> live x.
Proof.
  intros H Hx. rewrite (ix_alive _ _ H). split; [intros (y & Ey & Hy); congruence|by exists x].
Qed.

(** [find] of a key. *)
Lemma ms_find_Some mem k l p : ms_find mem key lt k l = Some p ->
  p ∈ l /\ exists x, mem !! p = Some x /\ lt (key x) k = false /\ lt k (key x) = false.
Proof.
  induction l as [|q l IH]; [done|]. cbn [ms_find]. destruct (mem !! q) as [x|] eqn:Eq.
  - destruct (lt (key x) k) eqn:E1, (lt k (key x)) eqn:E2; cbn [negb andb];
      [intros H; destruct (IH H) as [? ?]; split; [by right|done]..|].
    intros [= <-]. split; [by left|]. by exists x.
  - intros H. destruct (IH H) as [? ?]. split; [by right|done].
Qed.

Lemma ms_find_None mem k l : ms_find mem key lt k l = None ->
  forall p x, p ∈ l -> mem !! p = Some x -> lt (key x) k = true \/ lt k (key x) = true.
Proof.
  induction l as [|q l IH]; intros H p x Hp Hx; [by apply not_elem_of_nil in Hp|]. cbn [ms_find] in H.
  destruct (decide (p = q)) as [->|Hne].
  - rewrite Hx in H. destruct (lt (key x) k), (lt k (key x)); cbn [negb andb] in H; auto. done.
  - apply elem_of_cons in Hp as [?|Hp]; [done|]. destruct (mem !! q) as [y|]; [|by eapply IH].
    destruct (negb _ && _); [done|]. by eapply IH.
Qed.
End index.

(** Two memories that agree on what an index is about. *)
Lemma indexed_ext_fields {E K} (live : E -> Prop) (key : E -> K) lt (mem mem' : gmap nat E) l :
  (forall q, (mem !! q = None <-> mem' !! q = None) /\
     forall x x', mem !! q = Some x -> mem' !! q = Some x' -> (live x <-> live x') /\ key x = key x') ->
  indexed live key lt mem l -> indexed live key lt mem' l.
Proof.
  intros H. apply indexed_ext.
  - intros p. unfold linked. destruct (H p) as [H1 H2]. destruct (mem !! p) as [x|] eqn:E1, (mem' !! p) as [x'|] eqn:E2.
    + destruct (H2 x x' eq_refl eq_refl) as [H3 _]. split; intros (y & [= <-] & Hy); eexists; (split; [done|by apply H3]).
    + by discriminate (proj2 H1 eq_refl).
    + by discriminate (proj1 H1 eq_refl).
    + by split; intros (y & [=] & _).
  - intros p _. destruct (H p) as [H1 H2]. destruct (mem !! p) as [x|] eqn:E1, (mem' !! p) as [x'|] eqn:E2; cbn; try done.
    + f_equal. by apply H2.
    + by discriminate (proj2 H1 eq_refl).
    + by discriminate (proj1 H1 eq_refl).
Qed.

Lemma indexed_fmap {E K} (live : E -> Prop) (key : E -> K) lt (f : E -> E) mem l :
  (forall x, (live x <-> live (f x)) /\ key (f x) = key x) -> indexed live key lt mem l -> indexed live key lt (f <$> mem) l.
Proof.
  intros Hf. apply indexed_ext_fields. intros q. rewrite lookup_fmap. destruct (mem !! q) as [x|]; cbn; [|by split].
  split; [done|]. intros ? ? [= <-] [= <-]. destruct (Hf x) as [? ->]. done.
Qed.

(** ** One object changes *)
Section update.
Context {E K : Type} (live : E -> Prop) (key : E -> K) (ok : K -> Prop) (lt : K -> K -> bool) (Hlt : lt_order ok lt).
Context (mem : gmap nat E) (l : list nat) (p : nat) (x : E) (Hp : mem !! p = Some x) (Hi : indexed live key lt mem l).

Lemma linked_insert x' : linked live (<[p := x']> mem) p <-> live x'.
Proof. unfold linked. rewrite lookup_insert_eq. split; [by intros (y & [= <-] & Hy)|by exists x']. Qed.

Lemma linked_lookup : linked live mem p <-> live x.
Proof. unfold linked. rewrite Hp. split; [by intros (y & [= <-] & Hy)|by exists x]. Qed.

Lemma keys_ok_insert x' : keys_ok key ok mem -> ok (key x') -> keys_ok key ok (<[p := x']> mem).
Proof. intros H Hx q y Hq. apply lookup_insert_Some in Hq as [[_ <-]|[_ Hq]]; [done|by eapply H]. Qed.

Lemma indexed_update x' : (live x <-> live x') -> key x = key x' -> indexed live key lt (<[p := x']> mem) l.
Proof.
  intros Hl Hk. eapply indexed_ext_fields; [|exact Hi]. intros q. destruct (decide (q = p)) as [->|Hne].
  - rewrite lookup_insert_eq, Hp. split; [done|]. by intros ? ? [= <-] [= <-].
  - rewrite lookup_insert_ne by done. split; [done|]. intros ? ? -> [= <-]. done.
Qed.

Lemma indexed_update_relink x' : keys_ok key ok (<[p := x']> mem) -> live x -> live x' ->
  exists l', ms_erase p l = Some l' /\
    indexed live key lt (<[p := x']> mem) (ms_insert (by_key (<[p := x']> mem) key lt) p l').
Proof.
  intros Hk H H'. eapply (indexed_relink _ _ ok); try done; [by apply linked_lookup|by apply linked_insert|].
  intros q Hq. by rewrite lookup_insert_ne.
Qed.

Lemma indexed_update_link x' : keys_ok key ok (<[p := x']> mem) -> ~ live x -> live x' ->
  indexed live key lt (<[p := x']> mem) (ms_insert (by_key (<[p := x']> mem) key lt) p l).
Proof.
  intros Hk H H'. eapply (indexed_link _ _ ok); try done; [by rewrite linked_lookup|by apply linked_insert|].
  intros q Hq. by rewrite lookup_insert_ne.
Qed.

Lemma indexed_update_unlink x' : live x -> ~ live x' ->
  exists l', ms_erase p l = Some l' /\ l ≡ₚ p :: l' /\ indexed live key lt (<[p := x']> mem) l'.
Proof.
  intros H H'. edestruct (indexed_unlink live key lt mem (<[p := x']> mem)) as (l' & E1 & E2 & _ & E3); [exact Hi|by apply linked_lookup|by rewrite linked_insert| |by exists l'].
  intros q Hq. by rewrite lookup_insert_ne.
Qed.

Lemma indexed_delete_unlink : live x ->
  exists l', ms_erase p l = Some l' /\ l ≡ₚ p :: l' /\ indexed live key lt (delete p mem) l'.
Proof.
  intros H. edestruct (indexed_unlink live key lt mem (delete p mem)) as (l' & E1 & E2 & _ & E3);
    [exact Hi|by apply linked_lookup| | |by exists l'].
  - intros (y & Ey & _). by rewrite lookup_delete_eq in Ey.
  - intros q Hq. by rewrite lookup_delete_ne.
Qed.

Lemma indexed_delete : ~ live x -> indexed live key lt (delete p mem) l.
Proof.
  intros H. assert (p ∉ l) as Hn by (rewrite (ix_alive _ _ _ _ _ Hi); by rewrite linked_lookup).
  eapply indexed_ext; [| |exact Hi].
  - intros q. unfold linked. destruct (decide (q = p)) as [->|Hne]; [|by rewrite lookup_delete_ne].
    rewrite lookup_delete_eq, Hp. split; [by intros (y & [=] & _)|]. by intros (y & [= <-] & Hy).
  - intros q Hq. rewrite lookup_delete_ne; [done|]. by intros ->.
Qed.
End update.

(** A new object. *)
Lemma indexed_new {E K} (live : E -> Prop) (key : E -> K) ok lt mem l p x' : lt_order ok lt ->
  indexed live key lt mem l -> mem !! p = None -> keys_ok key ok (<[p := x']> mem) -> live x' ->
  indexed live key lt (<[p := x']> mem) (ms_insert (by_key (<[p := x']> mem) key lt) p l).
Proof.
  intros Ho Hi Hp Hk H. eapply (indexed_link _ _ ok); [done|done|exact Hi| |by apply linked_insert|].
  - intros (y & Ey & _). congruence.
  - intros q Hq. by rewrite lookup_insert_ne.
Qed.

Lemma indexed_new_other {E K} (live : E -> Prop) (key : E -> K) lt mem l p x' :
  indexed live key lt mem l -> mem !! p = None -> ~ live x' -> indexed live key lt (<[p := x']> mem) l.
Proof.
  intros Hi Hp H. eapply indexed_ext; [| |exact Hi].
  - intros q. destruct (decide (q = p)) as [->|Hne]; [|unfold linked; by rewrite lookup_insert_ne].
    rewrite linked_insert. split; [done|]. intros (y & Ey & _). congruence.
  - intros q Hq. rewrite lookup_insert_ne; [done|]. intros <-. apply Hi in Hq as (y & Ey & _). congruence.
Qed.

Lemma indexed_empty {E K} (live : E -> Prop) (key : E -> K) lt : indexed live key lt ∅ [].
Proof.
  split; [constructor| |constructor]. intros p. split; [by intros ?%not_elem_of_nil|]. intros (x & Hx & _). by rewrite lookup_empty in Hx.
Qed.

(** ** Lists, as sets in which nothing is ordered *)
Lemma ms_insert_back {A} (lt : A -> A -> bool) x l : (forall a b, lt a b = false) -> ms_insert lt x l = l ++ [x].
Proof. intros H. induction l as [|y l IH]; [done|]. cbn. by rewrite H, IH. Qed.

Lemma no_order {K} : lt_order (fun _ : K => True) (fun _ _ => false).
Proof. by split. Qed.

Lemma by_key_none {E K} (mem : gmap nat E) (key : E -> K) a b : by_key mem key (fun _ _ => false) a b = false.
Proof. unfold by_key. by destruct (mem !! a), (mem !! b). Qed.
