(* ===== verification/UintBig.v ===== *)
(** Fixed-width big-endian arithmetic: [core/uintBig.h], [core/uintBig.cpp].

    A [uintBig_t<nBytes>] is its buffer [m_pData], a list of [nBytes] bytes,
    most significant first; a [(pointer, size)] pair of [uintBigImpl] is a
    list and its length.  Loops keep the indices, the intermediate [uint16_t]
    carries and the [uint32_t] wrap-around of the source.  Every operation is
    related to the number [be_val] denotes. *)

From S2P Require Import Prelude.

(** A call on the sub-buffer that starts at [pDst + k]. *)
Definition at_offset {A} (k : nat) (f : list A -> list A) (l : list A) : list A :=
  take k l ++ f (drop k l).

(** [memset0], [memis0], and the sign of [memcmp]. *)
Definition memset0 (n : nat) (l : list Z) : list Z := replicate n 0 ++ drop n l.
Definition memis0 (l : list Z) : bool := forallb (fun b => b =? 0) l.

Fixpoint memcmp (p q : list Z) : Z :=
  match p, q with
  | a :: p, b :: q => if a <? b then -1 else if b <? a then 1 else memcmp p q
  | _, _ => 0
  end.

(** ** Printing *)
Definition ChFromHex (v : Z) : Z := u8 (v + (if v <? 10 then 48 else 97 - 10)).

Definition _Print (pDst : list Z) : list Z :=
  pDst ≫= (fun b => [ChFromHex (Z.shiftr b 4); ChFromHex (Z.land b 0xf)]).

(** The stream variant truncates to 32 bytes. *)
Definition _Print_stream (pDst : list Z) : list Z := _Print (take 32 pDst).

(** ** Assignment *)
Definition _Assign (nDst : nat) (pSrc : list Z) : list Z :=
  let nSrc := length pSrc in
  if (nDst <=? nSrc)%nat then drop (nSrc - nDst) pSrc
  else replicate (nDst - nSrc) 0 ++ pSrc.

(** [_AssignRangeAligned<T>], for a [T] of [w] bits. *)
Definition _AssignRangeAligned (pDst : list Z) (x : Z) (nOffsetBytes nBytesX : nat)
  : list Z :=
  let base := (length pDst - (nOffsetBytes + nBytesX))%nat in
  (for_down nBytesX
    (fun i '(pDst, x) => (<[(base + i)%nat := u8 x]> pDst, Z.shiftr x 8))
    (pDst, x)).1.

Definition _AssignRangeAlignedSafe (pDst : list Z) (x : Z) (nOffsetBytes nBytesX : nat)
  : list Z * bool :=
  if (length pDst <? nOffsetBytes)%nat then (pDst, false)
  else
    let n := (length pDst - nOffsetBytes)%nat in
    let b := (nBytesX <=? n)%nat in
    (_AssignRangeAligned pDst x nOffsetBytes (if b then nBytesX else n), b).

(** [_AssignSafe<T>] with [sizeof(T) = szX]; returns [false] if truncated. *)
Definition _AssignSafe (szX : nat) (pDst : list Z) (x : Z) (nOffset : Z)
  : list Z * bool :=
  let nOffsetBytes := Z.to_nat (Z.shiftr nOffset 3) in
  let nOffset := Z.land nOffset 7 in
  let '(pDst, ok) :=
    _AssignRangeAlignedSafe pDst (wrap (8 * Z.of_nat szX) (Z.shiftl x nOffset))
      nOffsetBytes szX in
  if negb ok then (pDst, false)
  else if nOffset =? 0 then (pDst, true)
  else
    let nOffsetBytes := (nOffsetBytes + szX)%nat in
    if u32 (Z.of_nat (length pDst) - 1) <? Z.of_nat nOffsetBytes then (pDst, false)
    else
      let resid := u8 (Z.shiftr x (8 * Z.of_nat szX - nOffset)) in
      (<[(length pDst - 1 - nOffsetBytes)%nat := resid]> pDst, true).

(** [AssignOrdinal<T>]: clear the upper part, then [AssignRange<T, 0>]. *)
Definition AssignOrdinal (szX : nat) (pData : list Z) (x : Z) : list Z :=
  _AssignRangeAligned (memset0 (length pData - szX) pData) x 0 szX.

(** [_ExportAligned<T>] into a [w]-bit integer; the buffer is not empty. *)
Definition _ExportAligned (w : Z) (pDst : list Z) : Z :=
  for_up_from 1 (length pDst - 1)
    (fun i out => Z.lor (wrap w (Z.shiftl out 8)) (pDst !!! i)) (pDst !!! 0%nat).

(** [ExportWord<iWord, T>] with [sizeof(T) = szT]. *)
Definition ExportWord (iWord szT : nat) (pDst : list Z) : Z :=
  _ExportAligned (8 * Z.of_nat szT) (take szT (drop (szT * iWord) pDst)).

(** ** Addition

    [_Inc] in its three variants; the result is the buffer and the carry. *)
Fixpoint _Inc_loop (i : nat) (pDst : list Z) : list Z * Z :=
  match i with
  | O => (pDst, 1)
  | S i =>
      let v := u8 (pDst !!! i + 1) in
      let pDst := <[i:=v]> pDst in
      if negb (v =? 0) then (pDst, 0) else _Inc_loop i pDst
  end.

Definition _Inc (pDst : list Z) : list Z * Z := _Inc_loop (length pDst) pDst.

Definition _Inc_same (pDst pSrc : list Z) : list Z * Z :=
  let '(pDst, carry) :=
    for_down (length pDst)
      (fun i '(pDst, carry) =>
         let carry := u16 (carry + pDst !!! i) in
         let carry := u16 (carry + pSrc !!! i) in
         (<[i:=u8 carry]> pDst, Z.shiftr carry 8))
      (pDst, 0) in
  (pDst, u8 carry).

Definition _Inc_any (pDst pSrc : list Z) : list Z * Z :=
  let nDst := length pDst in
  let nSrc := length pSrc in
  if (nDst <=? nSrc)%nat then _Inc_same pDst (drop (nSrc - nDst) pSrc)
  else
    let hd := take (nDst - nSrc) pDst in
    let '(tl, c) := _Inc_same (drop (nDst - nSrc) pDst) pSrc in
    if c =? 0 then (hd ++ tl, 0)
    else let '(hd, c) := _Inc hd in (hd ++ tl, c).

(** ** Bitwise operations *)
Definition _Inv (pDst : list Z) : list Z :=
  for_down (length pDst) (fun i p => <[i:=Z.lxor (p !!! i) 0xff]> p) pDst.

Definition _Xor_same (pDst pSrc : list Z) : list Z :=
  for_down (length pDst) (fun i p => <[i:=Z.lxor (p !!! i) (pSrc !!! i)]> p) pDst.

Definition _Xor (pDst pSrc : list Z) : list Z :=
  let nDst := length pDst in
  let nSrc := length pSrc in
  if (nDst <=? nSrc)%nat then _Xor_same pDst (drop (nSrc - nDst) pSrc)
  else at_offset (nDst - nSrc) (fun p => _Xor_same p pSrc) pDst.

Definition Inv := _Inv.
Definition Negate (x : list Z) : list Z := (_Inc (_Inv x)).1.

(** ** Multiplication

    [iDst = i0 - nDelta] is computed in [uint32_t] and may wrap ("don't care if
    overflows"): the row then starts left of the buffer, and [i1Min] skips the
    digits that fall outside. *)
Fixpoint _Mul_carry (iDst : nat) (pDst : list Z) (carry : Z) : list Z :=
  if carry =? 0 then pDst
  else match iDst with
       | O => pDst
       | S iDst =>
           let carry := u16 (carry + pDst !!! iDst) in
           _Mul_carry iDst (<[iDst:=u8 carry]> pDst) (Z.shiftr carry 8)
       end.

Definition _Mul_row (pSrc1 : list Z) (x0 iDst : Z) (nDst : nat) (pDst : list Z)
  : list Z :=
  let nSrc1 := length pSrc1 in
  let i1Min := if Z.of_nat nDst <? iDst then Z.to_nat (u32 (- i32 iDst)) else 0%nat in
  let '(pDst, carry) :=
    for_down (nSrc1 - i1Min)
      (fun k '(pDst, carry) =>
         let i1 := (i1Min + k)%nat in
         let d := Z.to_nat (u32 (iDst + Z.of_nat i1)) in
         let x1 := u16 (pSrc1 !!! i1 * x0) in
         let carry := u16 (carry + x1) in
         let carry := u16 (carry + pDst !!! d) in
         (<[d:=u8 carry]> pDst, Z.shiftr carry 8))
      (pDst, 0) in
  if iDst <=? Z.of_nat nDst then _Mul_carry (Z.to_nat iDst) pDst carry else pDst.

Definition _Mul (nDst : nat) (pSrc0 pSrc1 : list Z) : list Z :=
  let pDst := replicate nDst 0 in
  let pSrc0 := if (nDst <? length pSrc0)%nat
               then drop (length pSrc0 - nDst) pSrc0 else pSrc0 in
  let pSrc1 := if (nDst <? length pSrc1)%nat
               then drop (length pSrc1 - nDst) pSrc1 else pSrc1 in
  let nDelta := i32 (Z.of_nat (length pSrc0) + Z.of_nat (length pSrc1)
                     - Z.of_nat nDst - 1) in
  for_down (length pSrc0)
    (fun i0 pDst =>
       _Mul_row pSrc1 (pSrc0 !!! i0) (u32 (Z.of_nat i0 - nDelta)) nDst pDst)
    pDst.

(** [operator *]: the result is wide enough for the full product. *)
Definition mul (x0 x1 : list Z) : list Z := _Mul (length x0 + length x1) x0 x1.

(** ** Comparison and order *)
Definition _Cmp (pSrc0 pSrc1 : list Z) : Z :=
  let nSrc0 := length pSrc0 in
  let nSrc1 := length pSrc1 in
  if (nSrc1 <? nSrc0)%nat then
    let diff := (nSrc0 - nSrc1)%nat in
    if negb (memis0 (take diff pSrc0)) then 1 else memcmp (drop diff pSrc0) pSrc1
  else if (nSrc0 <? nSrc1)%nat then
    let diff := (nSrc1 - nSrc0)%nat in
    if negb (memis0 (take diff pSrc1)) then -1 else memcmp pSrc0 (drop diff pSrc1)
  else memcmp pSrc0 pSrc1.

(** [while (x >>= 1) nOrder++]; eight rounds exhaust a byte. *)
Fixpoint order_bits (fuel : nat) (x nOrder : Z) : Z :=
  match fuel with
  | O => nOrder
  | S fuel =>
      let x := Z.shiftr x 1 in
      if x =? 0 then nOrder else order_bits fuel x (nOrder + 1)
  end.

Fixpoint _GetOrder (pDst : list Z) : Z :=
  match pDst with
  | [] => 0
  | x :: rest =>
      if x =? 0 then _GetOrder rest
      else order_bits 8 x (Z.shiftl (Z.of_nat (length pDst)) 3 - 7)
  end.

(** [_Accept]: mask the top byte of a random number down to the order of the
    threshold and accept it if it falls below. *)
Definition _Accept (pDst pThr : list Z) (nThrOrder : Z) : list Z * bool :=
  if nThrOrder =? 0 then (pDst, false)
  else
    let nThrOrder := nThrOrder - 1 in
    let nOffs := (length pDst - 1 - Z.to_nat (Z.shiftr nThrOrder 3))%nat in
    let msk := u8 (u8 (Z.shiftl 2 (Z.land 7 nThrOrder)) - 1) in
    let pDst := <[nOffs := Z.land (pDst !!! nOffs) msk]> pDst in
    if 0 <=? memcmp (drop nOffs pDst) (drop nOffs pThr) then (pDst, false)
    else (memset0 nOffs pDst, true).

(** [FourCC::Text]: the big-endian bytes of the code, non-printables blanked
    ([char] is signed on the supported targets). *)
Definition FourCC_Text (n : Z) : list Z :=
  (fun c => let sc := swrap 8 c in
            if (sc <? 32) || (126 <? sc) then 32 else c)
    <$> AssignOrdinal 4 (replicate 4 0) n.

(** ** Shifts

    [oDst], [oSrc] are how far the pointers have been advanced; the previous
    content of the destination is an argument, since it is overwritten. *)
Definition memcpy_at (o : nat) (src pDst : list Z) : list Z :=
  take o pDst ++ src ++ drop (o + length src) pDst.

Definition _ShiftRight (pDst pSrc : list Z) (nBits : Z) : list Z :=
  let nDst := length pDst in
  let nSrc := length pSrc in
  let nBytes := Z.to_nat (Z.shiftr nBits 3) in
  let '(nSrc, nBits) :=
    if (nSrc <=? nBytes)%nat then (0%nat, 0)
    else ((nSrc - nBytes)%nat, Z.land nBits 7) in
  let '(oDst, oSrc, nDst) :=
    if (nSrc <? nDst)%nat then ((nDst - nSrc)%nat, 0%nat, nSrc)
    else (0%nat, (nSrc - nDst)%nat, nDst) in
  let pDst :=
    if negb (nBits =? 0) then
      let nLShift := 8 - nBits in
      for_down nDst
        (fun i pDst =>
           let v := Z.shiftr (pSrc !!! (oSrc + i)%nat) nBits in
           let v := if (nDst <? nSrc + i)%nat
                    then u8 (Z.lor v (Z.shiftl (pSrc !!! (oSrc + i - 1)%nat) nLShift))
                    else v in
           <[(oDst + i)%nat := v]> pDst)
        pDst
    else memcpy_at oDst (take nDst (drop oSrc pSrc)) pDst in
  memset0 oDst pDst.

Definition _ShiftLeft (pDst pSrc : list Z) (nBits : Z) : list Z :=
  let nDst := length pDst in
  let nSrc := length pSrc in
  let nBytes := Z.to_nat (Z.shiftr nBits 3) in
  let '(nBytes, nDst, nBits) :=
    if (nDst <=? nBytes)%nat then (nDst, 0%nat, 0)
    else (nBytes, (nDst - nBytes)%nat, Z.land nBits 7) in
  let '(pDst, oDst, oSrc, nSrc) :=
    if (nDst <? nSrc)%nat then (pDst, 0%nat, (nSrc - nDst)%nat, nDst)
    else (memset0 (nDst - nSrc) pDst, (nDst - nSrc)%nat, 0%nat, nSrc) in
  let pDst :=
    if negb (nBits =? 0) then
      if (nSrc =? 0)%nat then pDst
      else
        let nRShift := 8 - nBits in
        let pDst := if (nSrc <? nDst)%nat
                    then <[(oDst - 1)%nat := Z.shiftr (pSrc !!! oSrc) nRShift]> pDst
                    else pDst in
        for_up nSrc
          (fun i pDst =>
             let v := u8 (Z.shiftl (pSrc !!! (oSrc + i)%nat) nBits) in
             let v := if (i + 1 <? nSrc)%nat
                      then Z.lor v (Z.shiftr (pSrc !!! (oSrc + i + 1)%nat) nRShift)
                      else v in
             <[(oDst + i)%nat := v]> pDst)
          pDst
    else memcpy_at oDst (take nSrc (drop oSrc pSrc)) pDst in
  memcpy_at nDst (replicate nBytes 0) pDst.

(** ** Division

    Shift-and-subtract; [pMul] accumulates [pDst * pB].  The result is the
    quotient and [pMul]. *)
Definition _Div_step (pA pB : list Z) (nShift : nat) (st : list Z * list Z)
  : list Z * list Z :=
  let '(pDst, pMul) := st in
  let nA := length pA in
  let nDst := length pDst in
  let pTmp := _ShiftLeft (replicate nA 0) pB (Z.of_nat nShift) in
  let pTmp := (_Inc_any pTmp pMul).1 in
  if 0 <? _Cmp pMul pTmp then (pDst, pMul)
  else if _Cmp pA pTmp <? 0 then (pDst, pMul)
  else
    let i := (nDst - Z.to_nat (Z.shiftr (Z.of_nat nShift) 3) - 1)%nat in
    (<[i := Z.lor (pDst !!! i) (Z.shiftl 1 (Z.land 7 (Z.of_nat nShift)))]> pDst, pTmp).

Definition _Div (nDst : nat) (pA pB : list Z) : list Z * list Z :=
  let nA := length pA in
  let pDst := replicate nDst 0 in
  let pMul := replicate nA 0 in
  let nOrder := _GetOrder pB in
  let bitsA := Z.shiftl (Z.of_nat nA) 3 in
  if bitsA <? nOrder then (pDst, pMul)
  else
    let n := 1 + Z.min (bitsA - nOrder) (u32 (Z.shiftl (Z.of_nat nDst) 3 - 1)) in
    for_down (Z.to_nat n) (_Div_step pA pB) (pDst, pMul).

Definition SetDiv (nDst : nat) (a b : list Z) : list Z := (_Div nDst a b).1.

(** * Facts *)

(** Byte identities used by the loops below. *)
Lemma u8_shiftr_decomp x : 0 <= x -> x = u8 x + Z.shiftr x 8 * 256.
Proof.
  intros. unfold wrap. rewrite Z.shiftr_div_pow2 by lia.
  change (2 ^ 8) with 256. pose proof (Z.div_mod x 256). lia.
Qed.

Lemma shiftr8_bound x n : 0 <= x < 256 * n -> 0 <= Z.shiftr x 8 < n.
Proof.
  intros. rewrite Z.shiftr_div_pow2 by lia. change (2 ^ 8) with 256.
  split; [apply Z.div_pos; lia|apply Z.div_lt_upper_bound; lia].
Qed.

Lemma u16_small x : 0 <= x < 65536 -> u16 x = x.
Proof. intros. by apply wrap_small. Qed.

Ltac byte_facts :=
  repeat match goal with
  | H : bytes_ok ?l |- context [?l !!! ?i] =>
      lazymatch goal with
      | _ : 0 <= l !!! i < 256 |- _ => fail
      | _ => pose proof (bytes_ok_lookup l i H : 0 <= l !!! i < 256)
      end
  | H : bytes_ok ?l, H1 : context [?l !!! ?i] |- _ =>
      lazymatch goal with
      | _ : 0 <= l !!! i < 256 |- _ => fail
      | _ => pose proof (bytes_ok_lookup l i H : 0 <= l !!! i < 256)
      end
  end.

(** ** Addition *)
Lemma _Inc_loop_spec i pDst :
  bytes_ok pDst -> (i <= length pDst)%nat ->
  let '(r, c) := _Inc_loop i pDst in
  bytes_ok r /\ length r = length pDst /\ (c = 0 \/ c = 1) /\
  be_val r + c * radix (length pDst) = be_val pDst + radix (length pDst - i).
Proof.
  revert pDst. induction i as [|i IH]; intros pDst Hb Hi; simpl.
  - rewrite Nat.sub_0_r. repeat split; auto; lia.
  - byte_facts. set (v := u8 (pDst !!! i + 1)).
    assert (radix (length pDst - i) = 256 * radix (length pDst - S i)) as Er.
    { rewrite <- radix_S. f_equal. lia. }
    pose proof (be_val_insert pDst i v ltac:(lia)) as Ev.
    assert (bytes_ok (<[i:=v]> pDst)) as Hb' by (subst v; auto with grimm).
    destruct (Z.eqb_spec v 0) as [Ez|Ez]; simpl.
    + specialize (IH (<[i:=v]> pDst) Hb'). rewrite length_insert in IH.
      destruct (_Inc_loop i (<[i:=v]> pDst)) as [r c].
      destruct IH as (? & ? & ? & E); [lia|]. repeat split; auto.
      assert (pDst !!! i = 255).
      { subst v. unfold wrap in Ez. change (2 ^ 8) with 256 in Ez.
        destruct (decide (pDst !!! i = 255)); [done|].
        rewrite Z.mod_small in Ez; lia. }
      rewrite E, Ev, Er. lia.
    + assert (v = pDst !!! i + 1) as Hv.
      { subst v. unfold wrap in *. change (2 ^ 8) with 256 in *.
        destruct (decide (pDst !!! i = 255)) as [E|]; [rewrite E in Ez; done|].
        apply Z.mod_small. lia. }
      rewrite length_insert. repeat split; auto. rewrite Ev, Hv. lia.
Qed.

Lemma _Inc_spec pDst :
  bytes_ok pDst ->
  let '(r, c) := _Inc pDst in
  bytes_ok r /\ length r = length pDst /\ (c = 0 \/ c = 1) /\
  be_val r + c * radix (length pDst) = be_val pDst + 1.
Proof.
  intros Hb. pose proof (_Inc_loop_spec (length pDst) pDst Hb ltac:(lia)) as H.
  rewrite Nat.sub_diag in H. exact H.
Qed.

(** The loop invariant of the equal-size addition: bytes at and after [i] are
    summed, and the carry has the weight of byte [i - 1]. *)
Lemma _Inc_same_spec pDst pSrc :
  bytes_ok pDst -> bytes_ok pSrc -> length pSrc = length pDst ->
  let '(r, c) := _Inc_same pDst pSrc in
  bytes_ok r /\ length r = length pDst /\ (c = 0 \/ c = 1) /\
  be_val r + c * radix (length pDst) = be_val pDst + be_val pSrc.
Proof.
  intros Hd Hs Hlen. unfold _Inc_same.
  set (n := length pDst) in *.
  pose proof (for_down_ind
    (fun i '(r, c) =>
       bytes_ok r /\ length r = n /\ (c = 0 \/ c = 1) /\
       (forall k, (k < i)%nat -> r !!! k = pDst !!! k) /\
       be_val r + c * radix (n - i) = be_val pDst + be_val (drop i pSrc)) n
    (fun i '(pDst, carry) =>
         let carry := u16 (carry + pDst !!! i) in
         let carry := u16 (carry + pSrc !!! i) in
         (<[i:=u8 carry]> pDst, Z.shiftr carry 8)) (pDst, 0)) as H.
  destruct (for_down _ _ _) as [r' c']. destruct H as (?&?&Hc&_&E).
  - repeat split; auto. rewrite drop_ge by lia. simpl. lia.
  - intros i [r c] Hi (Hr & Hl & Hc & Hk & E). cbv zeta beta. byte_facts.
    rewrite (u16_small (c + r !!! i)) by lia.
    rewrite (u16_small (c + r !!! i + pSrc !!! i)) by lia.
    set (t := c + r !!! i + pSrc !!! i) in *.
    pose proof (u8_shiftr_decomp t ltac:(lia)) as Et.
    pose proof (shiftr8_bound t 2 ltac:(lia)) as Bt.
    repeat split; auto with grimm.
    + by rewrite length_insert.
    + lia.
    + intros k Hki. rewrite list_lookup_total_insert_ne by lia. apply Hk. lia.
    + rewrite be_val_insert, Hl, (be_val_drop_S pSrc i), Hlen by lia.
      replace (n - i)%nat with (S (n - S i)) by lia. rewrite radix_S. nia.
  - rewrite Nat.sub_0_r, drop_0 in E. repeat split; auto.
    + rewrite byte_ok_u8; [done|unfold byte_ok; lia].
    + rewrite byte_ok_u8; [done|unfold byte_ok; lia].
Qed.

(** [_Inc_any] is addition modulo the width of the destination. *)
Lemma _Inc_any_spec pDst pSrc :
  bytes_ok pDst -> bytes_ok pSrc ->
  let '(r, c) := _Inc_any pDst pSrc in
  bytes_ok r /\ length r = length pDst /\ (c = 0 \/ c = 1) /\
  be_val r + c * radix (length pDst)
    = be_val pDst + be_val pSrc mod radix (length pDst).
Proof.
  intros Hd Hs. unfold _Inc_any.
  destruct (Nat.leb_spec (length pDst) (length pSrc)) as [Hle|Hlt].
  - pose proof (_Inc_same_spec pDst (drop (length pSrc - length pDst) pSrc)) as H.
    destruct (_Inc_same _ _) as [r c].
    rewrite be_val_drop_mod in H by done.
    replace (length pSrc - (length pSrc - length pDst))%nat with (length pDst) in H by lia.
    apply H; auto with grimm. rewrite length_drop. lia.
  - set (k := (length pDst - length pSrc)%nat) in *.
    pose proof (_Inc_same_spec (drop k pDst) pSrc) as H.
    destruct (_Inc_same _ _) as [tl c].
    destruct H as (Htl & Hl & Hc & E); auto with grimm; [rewrite length_drop; lia|].
    rewrite length_drop in Hl, E.
    replace (length pDst - k)%nat with (length pSrc) in * by lia.
    assert (length (take k pDst) = k) as Hk by (rewrite length_take; lia).
    assert (be_val pSrc mod radix (length pDst) = be_val pSrc) as ->.
    { apply Z.mod_small. pose proof (be_val_bound pSrc Hs).
      pose proof (radix_le (length pSrc) (length pDst)). lia. }
    assert (radix (length pDst) = radix k * radix (length pSrc)) as Er.
    { rewrite <- radix_add. f_equal. lia. }
    pose proof (be_val_split pDst k) as Es.
    replace (length pDst - k)%nat with (length pSrc) in Es by lia.
    destruct (Z.eqb_spec c 0) as [->|Hc1].
    + rewrite be_val_app, Hl, length_app, Hk. repeat split; auto with grimm; [|lia|lia].
      apply Forall_app; auto with grimm.
    + pose proof (_Inc_spec (take k pDst) ltac:(auto with grimm)) as H.
      destruct (_Inc (take k pDst)) as [hd c'].
      destruct H as (Hh & Hhl & Hc' & E'). rewrite Hk in Hhl, E'.
      rewrite be_val_app, Hl, length_app, Hhl. repeat split; auto; [|lia|].
      * apply Forall_app; auto with grimm.
      * assert (c = 1) as -> by lia. rewrite Er, Es. nia.
Qed.

(** ** Complement, negation, exclusive or *)
Lemma byte_inv b : byte_ok b -> Z.lxor b 255 = 255 - b.
Proof.
  intros Hb. apply Z.eqb_eq. revert b Hb.
  apply (byte_forall (fun b => Z.lxor b 255 =? 255 - b)). vm_compute. done.
Qed.

Lemma lxor_byte a b : byte_ok a -> byte_ok b -> byte_ok (Z.lxor a b).
Proof.
  intros Ha Hb. unfold byte_ok in *. change 256 with (2 ^ 8) in *.
  assert (0 <= Z.lxor a b) by (apply Z.lxor_nonneg; lia). split; [lia|].
  destruct (decide (Z.lxor a b = 0)) as [->|]; [lia|].
  apply Z.log2_lt_pow2; [lia|].
  pose proof (Z.log2_lxor a b ltac:(lia) ltac:(lia)).
  assert (Z.log2 a < 8 /\ Z.log2 b < 8); [|lia].
  split; (destruct (decide (a = 0)) as [->|]; destruct (decide (b = 0)) as [->|];
    try (simpl; lia); apply Z.log2_lt_pow2; lia).
Qed.

Lemma _Inv_map l : _Inv l = (fun b => Z.lxor b 255) <$> l.
Proof.
  destruct (for_down_fill (length l) 0 (fun _ b => Z.lxor b 255) l ltac:(lia)) as [Hl Hk].
  apply list_eq_total.
  - rewrite length_fmap. exact Hl.
  - intros i Hi. change (_Inv l) with
      (for_down (length l) (fun i p => <[(0 + i)%nat := Z.lxor (p !!! (0 + i)%nat) 255]> p) l) in *.
    rewrite Hl in Hi. rewrite Hk, decide_True by lia.
    symmetry. apply (list_lookup_total_fmap (fun b => Z.lxor b 255)). lia.
Qed.

Lemma _Inv_spec l :
  bytes_ok l ->
  bytes_ok (_Inv l) /\ length (_Inv l) = length l /\
  be_val (_Inv l) = radix (length l) - 1 - be_val l.
Proof.
  intros Hl. rewrite _Inv_map. rewrite length_fmap. split; [|split; [done|]].
  - apply Forall_fmap. eapply Forall_impl; [done|]. intros b Hb. simpl.
    rewrite byte_inv by done. unfold byte_ok in *. lia.
  - induction Hl as [|b l Hb Hl IH]; [done|].
    rewrite fmap_cons. cbn [be_val length]. rewrite length_fmap, IH, byte_inv, radix_S by done. ring.
Qed.

(** [Negate] is two's complement negation. *)
Lemma Negate_spec l :
  bytes_ok l ->
  bytes_ok (Negate l) /\ length (Negate l) = length l /\
  be_val (Negate l) = (- be_val l) mod radix (length l).
Proof.
  intros Hl. destruct (_Inv_spec l Hl) as (Hi & Hil & Ei).
  pose proof (_Inc_spec (_Inv l) Hi) as H. unfold Negate.
  destruct (_Inc (_Inv l)) as [r c]. simpl in *.
  destruct H as (Hr & Hrl & Hc & E). rewrite Hil in Hrl, E.
  split; [done|]. split; [done|].
  pose proof (be_val_bound r Hr) as B. rewrite Hrl in B.
  apply (Z.mod_unique_pos _ _ (c - 1)); lia.
Qed.

Lemma _Xor_same_zip d s :
  length s = length d -> _Xor_same d s = zip_with Z.lxor d s.
Proof.
  intros Hlen.
  destruct (for_down_fill (length d) 0 (fun i b => Z.lxor b (s !!! i)) d ltac:(lia)) as [Hl Hk].
  change (_Xor_same d s) with
      (for_down (length d) (fun i p => <[(0 + i)%nat := Z.lxor (p !!! (0 + i)%nat) (s !!! i)]> p) d).
  apply list_eq_total.
  - rewrite length_zip_with. lia.
  - intros i Hi. rewrite Hl in Hi. rewrite Hk, decide_True by lia.
    rewrite Nat.sub_0_r.
    destruct (lookup_lt_is_Some_2 d i Hi) as [x Hx].
    destruct (lookup_lt_is_Some_2 s i ltac:(lia)) as [y Hy].
    rewrite (list_lookup_total_correct _ _ _ Hx), (list_lookup_total_correct _ _ _ Hy).
    symmetry. apply list_lookup_total_correct. rewrite lookup_zip_with, Hx, Hy. done.
Qed.

Lemma be_val_zip_lxor d s :
  bytes_ok d -> bytes_ok s -> length s = length d ->
  bytes_ok (zip_with Z.lxor d s) /\
  be_val (zip_with Z.lxor d s) = Z.lxor (be_val d) (be_val s).
Proof.
  intros Hd. revert s. induction Hd as [|a d Ha Hd IH]; intros [|b s] Hs Hlen; try done.
  apply Forall_cons in Hs as [Hb Hs]. simpl in Hlen. injection Hlen as Hlen.
  destruct (IH s Hs Hlen) as [Hz Ez]. simpl. split.
  - constructor; [by apply lxor_byte|done].
  - rewrite length_zip_with, Ez, Hlen, Nat.min_id, radix_pow2.
    pose proof (be_val_bound d Hd) as B1. pose proof (be_val_bound s Hs) as B2.
    rewrite Hlen in B2. rewrite radix_pow2 in B1, B2.
    rewrite lxor_concat by lia. done.
Qed.

(** [operator ^=] on buffers of the same size. *)
Lemma _Xor_spec d s :
  bytes_ok d -> bytes_ok s -> length s = length d ->
  bytes_ok (_Xor d s) /\ length (_Xor d s) = length d /\
  be_val (_Xor d s) = Z.lxor (be_val d) (be_val s).
Proof.
  intros Hd Hs Hlen. unfold _Xor.
  rewrite Hlen, Nat.leb_refl, Nat.sub_diag, drop_0, _Xor_same_zip by done.
  destruct (be_val_zip_lxor d s Hd Hs Hlen) as [? ?].
  rewrite length_zip_with. repeat split; auto. lia.
Qed.

(** ** Assignment and export *)
Lemma _Assign_spec nDst s :
  bytes_ok s ->
  bytes_ok (_Assign nDst s) /\ length (_Assign nDst s) = nDst /\
  be_val (_Assign nDst s) = be_val s mod radix nDst.
Proof.
  intros Hs. unfold _Assign. destruct (Nat.leb_spec nDst (length s)).
  - rewrite length_drop, be_val_drop_mod by done.
    replace (length s - (length s - nDst))%nat with nDst by lia.
    auto with grimm.
  - rewrite length_app, length_replicate, be_val_app, be_val_zeros.
    split; [apply Forall_app; auto with grimm|]. split; [lia|].
    rewrite Z.mul_0_l, Z.add_0_l, Z.mod_small; [done|].
    pose proof (be_val_bound s Hs). pose proof (radix_le (length s) nDst). lia.
Qed.

Lemma _AssignRangeAligned_eq l x o n :
  (o + n <= length l)%nat ->
  _AssignRangeAligned l x o n =
    take (length l - (o + n)) l ++ be_bytes n x ++ drop (length l - o) l.
Proof.
  intros Hlen. unfold _AssignRangeAligned. set (base := (length l - (o + n))%nat).
  pose proof (for_down_ind
    (fun i '(r, y) => y = x / radix (n - i) /\
       r = take (base + i) l ++ be_bytes (n - i) x ++ drop (base + n) l) n
    (fun i '(pDst, x) => (<[(base + i)%nat := u8 x]> pDst, Z.shiftr x 8)) (l, x)) as H.
  destruct (for_down _ _ _) as [r' y']. destruct H as [_ ->].
  - rewrite Nat.sub_diag. simpl. rewrite radix_0, Z.div_1_r. split; [done|].
    by rewrite take_drop.
  - intros i [r y] Hi [-> ->]. split.
    + rewrite Z.shiftr_div_pow2 by lia. change (2 ^ 8) with 256.
      rewrite Z.div_div by (pose proof (radix_pos (n - S i)); lia).
      f_equal. replace (n - i)%nat with (S (n - S i)) by lia. rewrite radix_S. lia.
    + assert (is_Some (l !! (base + i)%nat)) as [v Hv] by (apply lookup_lt_is_Some_2; lia).
      replace (base + S i)%nat with (S (base + i)) by lia.
      rewrite (take_S_r l (base + i) v Hv), <- app_assoc.
      rewrite insert_app_r_alt; rewrite length_take_le by lia; [|lia].
      rewrite Nat.sub_diag. simpl.
      replace (n - i)%nat with (S (n - S i)) by lia. simpl. done.
  - simpl. rewrite Nat.sub_0_r, Nat.add_0_r.
    replace (base + n)%nat with (length l - o)%nat by lia. done.
Qed.

(** An ordinal is stored as its big-endian digits, whatever the buffer held. *)
Lemma AssignOrdinal_eq szX pData x :
  (szX <= length pData)%nat -> 0 <= x < radix szX ->
  AssignOrdinal szX pData x = be_bytes (length pData) x.
Proof.
  intros Hsz Hx. unfold AssignOrdinal, memset0.
  set (k := (length pData - szX)%nat).
  assert (length (replicate k 0 ++ drop k pData) = length pData) as Hl.
  { rewrite length_app, length_replicate, length_drop. lia. }
  rewrite _AssignRangeAligned_eq, Hl by (rewrite Hl; lia).
  rewrite Nat.sub_0_r, (drop_ge _ (length pData)) by lia. simpl.
  rewrite take_app_length' by (rewrite length_replicate; lia).
  apply be_val_inj; try (rewrite ?length_app, ?length_replicate, ?length_be_bytes; simpl; lia).
  - apply Forall_app. split; [auto with grimm|]. apply Forall_app. auto with grimm.
  - auto with grimm.
  - rewrite be_val_app, app_nil_r, be_val_zeros, !be_val_be_bytes.
    rewrite !Z.mod_small; [lia| |lia].
    pose proof (radix_le szX (length pData)). lia.
Qed.

Lemma _ExportAligned_spec w l :
  bytes_ok l -> (0 < length l)%nat -> 8 * Z.of_nat (length l) <= w ->
  _ExportAligned w l = be_val l.
Proof.
  intros Hl Hpos Hw. unfold _ExportAligned.
  pose proof (for_up_from_ind (fun i out => out = be_val (take i l)) 1 (length l - 1)
    (fun i out => Z.lor (wrap w (Z.shiftl out 8)) (l !!! i)) (l !!! 0%nat)) as H.
  replace (1 + (length l - 1))%nat with (length l) in H by lia.
  rewrite (take_ge l (length l)) in H by lia. apply H; clear H.
  - destruct l as [|b l]; [simpl in Hpos; lia|]. simpl. rewrite radix_0. lia.
  - intros i out Hi ->. byte_facts.
    assert (is_Some (l !! i)) as [v Hv] by (apply lookup_lt_is_Some_2; lia).
    rewrite (take_S_r l i v Hv), be_val_app. simpl. rewrite radix_S, radix_0.
    rewrite (list_lookup_total_correct _ _ _ Hv) in *.
    pose proof (be_val_bound (take i l) ltac:(auto with grimm)) as B.
    rewrite length_take_le in B by lia.
    rewrite wrap_small.
    + rewrite <- add_shiftl_lor by lia. change (2 ^ 8) with 256. lia.
    + unfold in_width. rewrite Z.shiftl_mul_pow2 by lia. split; [lia|].
      assert (radix i * 2 ^ 8 <= 2 ^ w); [|change (2 ^ 8) with 256 in *; lia].
      rewrite radix_pow2, <- Z.pow_add_r by lia. apply Z.pow_le_mono_r; lia.
Qed.

(** ** Comparison and order *)
Lemma memcmp_spec p q :
  bytes_ok p -> bytes_ok q -> length p = length q ->
  memcmp p q = cmpZ (be_val p) (be_val q).
Proof.
  intros Hp. revert q. induction Hp as [|a p Ha Hp IH]; intros [|b q] Hq Hlen; try done.
  apply Forall_cons in Hq as [Hb Hq]. injection Hlen as Hlen. simpl.
  pose proof (be_val_bound p Hp). pose proof (be_val_bound q Hq) as B.
  rewrite <- Hlen in *. pose proof (radix_pos (length p)).
  unfold byte_ok in *. rewrite (IH q Hq Hlen). unfold cmpZ.
  destruct (Z.ltb_spec a b).
  - rewrite (proj2 (Z.ltb_lt _ _)); [done|nia].
  - destruct (Z.ltb_spec b a).
    + rewrite (proj2 (Z.ltb_ge _ _)), (proj2 (Z.ltb_lt _ _)) by nia. done.
    + assert (a = b) as -> by lia.
      destruct (Z.ltb_spec (be_val p) (be_val q)), (Z.ltb_spec (be_val q) (be_val p)),
        (Z.ltb_spec (b * radix (length p) + be_val p) (b * radix (length p) + be_val q)),
        (Z.ltb_spec (b * radix (length p) + be_val q) (b * radix (length p) + be_val p)); lia.
Qed.

Lemma memis0_spec l : bytes_ok l -> memis0 l = true <-> be_val l = 0.
Proof.
  induction 1 as [|b l Hb Hl IH]; simpl; [done|].
  rewrite andb_true_iff, Z.eqb_eq. unfold memis0 in IH. rewrite IH.
  pose proof (be_val_bound l Hl). pose proof (radix_pos (length l)).
  unfold byte_ok in Hb. nia.
Qed.

(** [cmp] orders numbers by value, also across different sizes. *)
Lemma _Cmp_spec p q :
  bytes_ok p -> bytes_ok q -> _Cmp p q = cmpZ (be_val p) (be_val q).
Proof.
  intros Hp Hq. unfold _Cmp.
  assert (forall l k, bytes_ok l -> (k <= length l)%nat ->
    be_val l = be_val (take k l) * radix (length l - k) + be_val (drop k l) /\
    0 <= be_val (take k l) /\ 0 <= be_val (drop k l) < radix (length l - k)) as Hs.
  { intros l k Hl Hk. split; [apply be_val_split|]. split; [auto with grimm|].
    rewrite <- length_drop. apply be_val_bound. auto with grimm. }
  pose proof (be_val_bound p Hp) as Bp. pose proof (be_val_bound q Hq) as Bq.
  destruct (Nat.ltb_spec (length q) (length p)); [|destruct (Nat.ltb_spec (length p) (length q))].
  - destruct (Hs p (length p - length q)%nat Hp ltac:(lia)) as (E & H1 & H2).
    replace (length p - (length p - length q))%nat with (length q) in * by lia.
    destruct (memis0 (take _ p)) eqn:Hm; simpl.
    + apply memis0_spec in Hm; [|auto with grimm]. rewrite Hm in E.
      rewrite memcmp_spec; auto with grimm; [f_equal; lia|rewrite length_drop; lia].
    + assert (be_val (take (length p - length q) p) <> 0).
      { intros H0. apply memis0_spec in H0; [congruence|auto with grimm]. }
      symmetry. unfold cmpZ. rewrite (proj2 (Z.ltb_ge _ _)), (proj2 (Z.ltb_lt _ _)) by nia. done.
  - destruct (Hs q (length q - length p)%nat Hq ltac:(lia)) as (E & H1 & H2).
    replace (length q - (length q - length p))%nat with (length p) in * by lia.
    destruct (memis0 (take _ q)) eqn:Hm; simpl.
    + apply memis0_spec in Hm; [|auto with grimm]. rewrite Hm in E.
      rewrite memcmp_spec; auto with grimm; [f_equal; lia|rewrite length_drop; lia].
    + assert (be_val (take (length q - length p) q) <> 0).
      { intros H0'. apply memis0_spec in H0'; [congruence|auto with grimm]. }
      symmetry. unfold cmpZ. rewrite (proj2 (Z.ltb_lt _ _)) by nia. done.
  - apply memcmp_spec; auto. lia.
Qed.

Lemma order_bits_add fuel x n : order_bits fuel x n = n + order_bits fuel x 0.
Proof.
  revert x n. induction fuel as [|fuel IH]; intros x n; simpl; [lia|].
  destruct (_ =? 0); [lia|]. rewrite IH, (IH _ (0 + 1)). lia.
Qed.

Lemma order_bits_byte b : byte_ok b -> b <> 0 -> order_bits 8 b 0 = Z.log2 b.
Proof.
  intros Hb Hne.
  assert ((b =? 0) || (order_bits 8 b 0 =? Z.log2 b) = true) as H.
  { revert b Hb Hne. intros b Hb _. revert b Hb.
    apply (byte_forall (fun b => (b =? 0) || (order_bits 8 b 0 =? Z.log2 b))).
    vm_compute. done. }
  apply orb_true_iff in H as [H|H]; lia.
Qed.

(** [get_Order]: "how much the number should be shifted to reach zero". *)
Lemma _GetOrder_spec l :
  bytes_ok l ->
  _GetOrder l = if be_val l =? 0 then 0 else Z.log2 (be_val l) + 1.
Proof.
  induction 1 as [|b l Hb Hl IH]; [done|]. cbn [_GetOrder be_val].
  pose proof (be_val_bound l Hl) as B. pose proof (radix_pos (length l)).
  destruct (Z.eqb_spec b 0) as [->|Hne]; [rewrite Z.mul_0_l, Z.add_0_l; exact IH|].
  rewrite order_bits_add, order_bits_byte by done.
  unfold byte_ok in Hb.
  rewrite (proj2 (Z.eqb_neq _ _)) by nia.
  assert (Z.log2 (b * radix (length l) + be_val l) = Z.log2 b + 8 * Z.of_nat (length l)) as ->.
  { pose proof (Z.log2_spec b ltac:(lia)) as [L1 L2].
    apply Z.log2_unique; [pose proof (Z.log2_nonneg b); lia|].
    pose proof (Z.log2_nonneg b).
    rewrite radix_pow2 in *. rewrite Z.pow_succ_r in L2 by lia.
    rewrite Z.pow_succ_r, Z.pow_add_r by lia. nia. }
  rewrite Z.shiftl_mul_pow2 by lia. cbn [length]. lia.
Qed.

(** [get_Order] brackets the number between consecutive powers of two. *)
Lemma _GetOrder_bounds l :
  bytes_ok l ->
  0 <= _GetOrder l <= 8 * Z.of_nat (length l) /\
  be_val l < 2 ^ _GetOrder l /\ (0 < be_val l -> 2 ^ (_GetOrder l - 1) <= be_val l).
Proof.
  intros Hl. rewrite _GetOrder_spec by done. pose proof (be_val_bound l Hl) as B.
  destruct (Z.eqb_spec (be_val l) 0) as [E|E].
  - rewrite E. simpl. lia.
  - pose proof (Z.log2_spec (be_val l) ltac:(lia)) as [L1 L2].
    pose proof (Z.log2_nonneg (be_val l)).
    assert (Z.log2 (be_val l) < 8 * Z.of_nat (length l)).
    { apply Z.log2_lt_pow2; [lia|]. rewrite <- radix_pow2. lia. }
    rewrite <- Z.add_1_r in L2.
    repeat split; try lia. intros _. replace (Z.log2 (be_val l) + 1 - 1) with (Z.log2 (be_val l)) by lia.
    done.
Qed.

(** ** Shifts *)
Lemma shiftr3_land7 x :
  0 <= x -> x = 8 * Z.shiftr x 3 + Z.land x 7 /\ 0 <= Z.shiftr x 3 /\ 0 <= Z.land x 7 < 8.
Proof.
  intros Hx. change 7 with (Z.ones 3).
  rewrite Z.land_ones, Z.shiftr_div_pow2 by lia. change (2 ^ 3) with 8.
  pose proof (Z.div_mod x 8). pose proof (Z.mod_pos_bound x 8).
  pose proof (Z.div_pos x 8). lia.
Qed.

Lemma radix_div x n m : x / radix n / radix m = x / radix (n + m).
Proof.
  pose proof (radix_pos n). pose proof (radix_pos m).
  rewrite Z.div_div, radix_add by lia. done.
Qed.

Lemma radix_succ_div x n : x / radix (S n) = x / radix n / 256.
Proof.
  pose proof (radix_pos n). rewrite radix_S, Z.div_div by lia. f_equal. lia.
Qed.

(** A byte of [y >> b] is built from two neighbouring bytes of [y]. *)
Lemma shr_byte y b :
  0 < b < 8 ->
  u8 (Z.lor (Z.shiftr (u8 y) b) (Z.shiftl (u8 (y / 256)) (8 - b))) = u8 (Z.shiftr y b).
Proof.
  intros Hb. unfold wrap. change 256 with (2 ^ 8). rewrite <- Z.shiftr_div_pow2 by lia.
  rewrite <- !Z.land_ones by lia. apply Z.bits_inj'. intros i Hi.
  rewrite !Z.land_spec, Z.lor_spec, Z.testbit_ones_nonneg, !Z.shiftr_spec by lia.
  destruct (Z.ltb_spec i 8) as [Hi8|]; [|by rewrite !andb_false_r].
  rewrite !andb_true_r, Z.land_spec, Z.testbit_ones_nonneg by lia.
  destruct (Z.ltb_spec (i + b) 8).
  - rewrite andb_true_r, Z.shiftl_spec_low, orb_false_r by lia. done.
  - rewrite andb_false_r, orb_false_l, Z.shiftl_spec_high by lia.
    rewrite Z.land_spec, Z.testbit_ones_nonneg, Z.shiftr_spec by lia.
    rewrite (proj2 (Z.ltb_lt (i - (8 - b)) 8)), andb_true_r by lia. f_equal. lia.
Qed.

Lemma shr_byte_top y b :
  0 < b < 8 -> 0 <= y < 256 -> Z.shiftr (u8 y) b = u8 (Z.shiftr y b).
Proof.
  intros Hb Hy. rewrite !byte_ok_u8; [done| |done].
  unfold byte_ok. rewrite Z.shiftr_div_pow2 by lia.
  assert (0 < 2 ^ b) by (apply Z.pow_pos_nonneg; lia).
  split; [apply Z.div_pos; lia|]. apply Z.div_lt_upper_bound; nia.
Qed.

(** A byte of [y << b], where [z] holds one more byte than [y] on the right. *)
Lemma shl_byte z b :
  0 < b < 8 ->
  Z.lor (u8 (Z.shiftl (u8 (z / 256)) b)) (Z.shiftr (u8 z) (8 - b))
    = u8 (Z.shiftr (Z.shiftl z b) 8).
Proof.
  intros Hb. unfold wrap. change 256 with (2 ^ 8). rewrite <- Z.shiftr_div_pow2 by lia.
  rewrite <- !Z.land_ones by lia. apply Z.bits_inj'. intros i Hi.
  rewrite Z.lor_spec, !Z.land_spec, !Z.shiftr_spec, !Z.land_spec, !Z.testbit_ones_nonneg by lia.
  destruct (Z.ltb_spec i 8); simpl.
  - rewrite !andb_true_r. destruct (Z.ltb_spec i b).
    + rewrite Z.shiftl_spec_low, orb_false_l, Z.shiftl_spec_high by lia.
      rewrite (proj2 (Z.ltb_lt _ _)), andb_true_r by lia. f_equal. lia.
    + rewrite !Z.shiftl_spec_high by lia. rewrite Z.land_spec, Z.shiftr_spec by lia.
      rewrite Z.testbit_ones_nonneg, (proj2 (Z.ltb_lt (i - b) 8)) by lia.
      rewrite (proj2 (Z.ltb_ge _ _)), andb_false_r, orb_false_r, andb_true_r by lia.
      f_equal. lia.
  - rewrite !andb_false_r, orb_false_l. rewrite (proj2 (Z.ltb_ge _ _)) by lia.
    by rewrite andb_false_r.
Qed.

Lemma lookup_total_zeros n i : (i < n)%nat -> replicate n 0 !!! i = 0.
Proof. intros. by rewrite list_lookup_total_alt, lookup_replicate_2. Qed.

Lemma memset0_lookup k l i :
  memset0 k l !!! i = if decide (i < k)%nat then 0 else l !!! i.
Proof.
  unfold memset0. case_decide.
  - rewrite lookup_total_app_l by (rewrite length_replicate; lia).
    by apply lookup_total_zeros.
  - rewrite lookup_total_app_r, lookup_total_drop, length_replicate
      by (rewrite length_replicate; lia). f_equal. lia.
Qed.

Lemma length_memset0 k l : (k <= length l)%nat -> length (memset0 k l) = length l.
Proof. intros. unfold memset0. rewrite length_app, length_replicate, length_drop. lia. Qed.

Lemma memcpy_at_lookup o s l i :
  (o + length s <= length l)%nat ->
  memcpy_at o s l !!! i
    = if decide (o <= i < o + length s)%nat then s !!! (i - o)%nat else l !!! i.
Proof.
  intros Hl. unfold memcpy_at. assert (length (take o l) = o) as Ht by (rewrite length_take; lia).
  destruct (decide (i < o)%nat).
  - rewrite lookup_total_app_l, lookup_total_take, decide_False by lia. done.
  - rewrite lookup_total_app_r, Ht by lia. case_decide.
    + rewrite lookup_total_app_l by lia. done.
    + rewrite lookup_total_app_r, lookup_total_drop by lia. f_equal. lia.
Qed.

Lemma length_memcpy_at o s l :
  (o + length s <= length l)%nat -> length (memcpy_at o s l) = length l.
Proof. intros. unfold memcpy_at. rewrite !length_app, length_take, length_drop. lia. Qed.

Lemma div_radix_0 l k : bytes_ok l -> (length l <= k)%nat -> be_val l / radix k = 0.
Proof.
  intros Hl Hk. apply Z.div_small. pose proof (be_val_bound l Hl).
  pose proof (radix_le (length l) k Hk). lia.
Qed.

Lemma shiftr_radix x q b k :
  0 <= b ->
  Z.shiftr x (8 * Z.of_nat q + b) / radix k = Z.shiftr (x / radix (q + k)) b.
Proof.
  intros Hb. rewrite !Z.shiftr_div_pow2, radix_pow2, (radix_pow2 (q + k)) by lia.
  assert (forall n, 0 <= n -> 0 < 2 ^ n) as Hp by (intros; apply Z.pow_pos_nonneg; lia).
  rewrite !Z.div_div by first [apply Z.neq_sym, Z.lt_neq, Hp; lia | apply Hp; lia].
  rewrite <- !Z.pow_add_r by lia. f_equal. f_equal. lia.
Qed.

(** One byte of the shift-right loop. *)
Lemma shr_cell s p b :
  bytes_ok s -> (p < length s)%nat -> 0 < b < 8 ->
  (if (0 <? p)%nat
   then u8 (Z.lor (Z.shiftr (s !!! p) b) (Z.shiftl (s !!! (p - 1)%nat) (8 - b)))
   else Z.shiftr (s !!! p) b)
  = u8 (Z.shiftr (be_val s / radix (length s - S p)) b).
Proof.
  intros Hs Hp Hb. rewrite (be_val_lookup s p) by done.
  destruct (Nat.ltb_spec 0 p).
  - rewrite (be_val_lookup s (p - 1)) by (done || lia).
    replace (length s - S (p - 1))%nat with (S (length s - S p)) by lia.
    rewrite radix_succ_div. by apply shr_byte.
  - apply shr_byte_top; [done|].
    replace (length s - S p)%nat with (length s - 1)%nat by lia.
    pose proof (be_val_bound s Hs) as B. pose proof (radix_pos (length s - 1)).
    split; [apply Z.div_pos; lia|]. apply Z.div_lt_upper_bound; [lia|].
    assert (length s = S (length s - 1)) as El by lia. rewrite El, radix_S in B. lia.
Qed.

(** The common part of the branches of [_ShiftRight]: [n] cells are written
    from [oDst], reading the source from [oSrc]. *)
Lemma shr_core d s q b oDst oSrc n :
  bytes_ok s -> 0 <= b < 8 -> (oDst + n = length d)%nat ->
  (oSrc + n + q = length s)%nat ->
  (oDst = 0 \/ oSrc = 0)%nat ->
  memset0 oDst
    (if negb (b =? 0)
     then for_down n
       (fun i pDst => <[(oDst + i)%nat :=
          if (0 <? oSrc + i)%nat
          then u8 (Z.lor (Z.shiftr (s !!! (oSrc + i)%nat) b)
                         (Z.shiftl (s !!! (oSrc + i - 1)%nat) (8 - b)))
          else Z.shiftr (s !!! (oSrc + i)%nat) b]> pDst) d
     else memcpy_at oDst (take n (drop oSrc s)) d)
  = be_bytes (length d) (Z.shiftr (be_val s) (8 * Z.of_nat q + b)).
Proof.
  intros Hs Hb Hd Hsrc Hor.
  set (body := if negb (b =? 0) then _ else _).
  assert (length body = length d /\ forall i, (i < n)%nat ->
     body !!! (oDst + i)%nat = u8 (Z.shiftr (be_val s / radix (length s - S (oSrc + i))) b))
    as [Hbl Hbk].
  { unfold body. destruct (Z.eqb_spec b 0) as [->|Hb0]; simpl.
    - assert (length (take n (drop oSrc s)) = n) as Ht by (rewrite length_take, length_drop; lia).
      split; [apply length_memcpy_at; lia|]. intros i Hi.
      rewrite memcpy_at_lookup, decide_True, lookup_total_take, lookup_total_drop by lia.
      rewrite Z.shiftr_0_r. replace (oSrc + (oDst + i - oDst))%nat with (oSrc + i)%nat by lia.
      apply be_val_lookup; [done|lia].
    - destruct (for_down_fill n oDst
        (fun i _ => if (0 <? oSrc + i)%nat
          then u8 (Z.lor (Z.shiftr (s !!! (oSrc + i)%nat) b)
                         (Z.shiftl (s !!! (oSrc + i - 1)%nat) (8 - b)))
          else Z.shiftr (s !!! (oSrc + i)%nat) b) d ltac:(lia)) as [Hl Hk].
      split; [exact Hl|]. intros i Hi. rewrite Hk, decide_True by lia.
      replace (oDst + i - oDst)%nat with i by lia. apply shr_cell; [done|lia|lia]. }
  apply list_eq_total.
  - rewrite length_memset0, length_be_bytes; lia.
  - intros j Hj. rewrite length_memset0, Hbl in Hj by lia.
    rewrite memset0_lookup, be_bytes_lookup, shiftr_radix by lia. case_decide.
    + rewrite div_radix_0, Z.shiftr_0_l by (done || lia). done.
    + replace j with (oDst + (j - oDst))%nat at 1 by lia. rewrite Hbk by lia.
      f_equal. f_equal. f_equal. f_equal. lia.
Qed.

(** [_ShiftRight] divides by a power of two, and truncates to the destination. *)
Lemma _ShiftRight_eq d s nBits :
  bytes_ok s -> 0 <= nBits ->
  _ShiftRight d s nBits = be_bytes (length d) (Z.shiftr (be_val s) nBits).
Proof.
  intros Hs Hn. destruct (shiftr3_land7 nBits Hn) as (En & Hq & Hb).
  unfold _ShiftRight. set (b := Z.land nBits 7) in *.
  set (q := Z.to_nat (Z.shiftr nBits 3)) in *.
  assert (nBits = 8 * Z.of_nat q + b) as Ei by (unfold q; lia).
  clearbody q b. clear En Hq. subst nBits.
  destruct (Nat.leb_spec (length s) q) as [Hle|Hlt].
  - pose proof (shr_core d s (length s) 0 (length d) 0 0 Hs ltac:(lia) ltac:(lia) ltac:(lia)
      ltac:(lia)) as H. cbn in H.
    assert (be_bytes (length d) (Z.shiftr (be_val s) (8 * Z.of_nat q + b))
            = be_bytes (length d) (Z.shiftr (be_val s) (8 * Z.of_nat (length s) + 0))) as ->.
    { f_equal. pose proof (be_val_bound s Hs) as B. rewrite radix_pow2 in B.
      rewrite !Z.shiftr_div_pow2, !Z.div_small by
        (try lia; pose proof (Z.pow_le_mono_r 2 (8 * Z.of_nat (length s)) (8 * Z.of_nat q + b));
         rewrite ?Z.add_0_r; lia). done. }
    rewrite <- H. destruct (Nat.ltb_spec 0 (length d)); cbn.
    + by rewrite Nat.sub_0_r.
    + destruct d; [done|simpl in *; lia].
  - destruct (Nat.ltb_spec (length s - q) (length d)).
    + rewrite <- (shr_core d s q b (length d - (length s - q)) 0 (length s - q)) by (done || lia).
      f_equal. destruct (negb (b =? 0)); [|done]. apply for_down_ext. intros i p Hi.
      f_equal. destruct (Nat.ltb_spec (length s - q) (length s - q + i)),
        (Nat.ltb_spec 0 (0 + i)); (done || lia).
    + rewrite <- (shr_core d s q b 0 (length s - q - length d) (length d)) by (done || lia).
      f_equal. destruct (negb (b =? 0)); [|done]. apply for_down_ext. intros i p Hi.
      f_equal. destruct (Nat.ltb_spec (length d) (length s - q + i)),
        (Nat.ltb_spec 0 (length s - q - length d + i)); (done || lia).
Qed.

Lemma mul_pow2_div x b R :
  0 <= b <= 8 -> 0 < R -> x * 2 ^ b / (256 * R) = x / R * 2 ^ b / 256.
Proof.
  intros Hb HR.
  assert (0 < 2 ^ b) by (apply Z.pow_pos_nonneg; lia).
  assert (0 < 2 ^ (8 - b)) by (apply Z.pow_pos_nonneg; lia).
  assert (256 = 2 ^ (8 - b) * 2 ^ b) as E.
  { rewrite <- Z.pow_add_r by lia. replace (8 - b + b) with 8 by lia. done. }
  rewrite E. replace (2 ^ (8 - b) * 2 ^ b * R) with (R * 2 ^ (8 - b) * 2 ^ b) by ring.
  rewrite !Z.div_mul_cancel_r by nia. rewrite Z.div_div by lia. done.
Qed.

(** One byte of the shift-left loop. *)
Lemma shl_cell s p b :
  bytes_ok s -> (p < length s)%nat -> 0 < b < 8 ->
  (if (p + 1 <? length s)%nat
   then Z.lor (u8 (Z.shiftl (s !!! p) b)) (Z.shiftr (s !!! (p + 1)%nat) (8 - b))
   else u8 (Z.shiftl (s !!! p) b))
  = u8 (be_val s * 2 ^ b / radix (length s - S p)).
Proof.
  intros Hs Hp Hb. rewrite (be_val_lookup s p) by done.
  destruct (Nat.ltb_spec (p + 1) (length s)).
  - rewrite (be_val_lookup s (p + 1)) by (done || lia).
    replace (length s - S p)%nat with (S (length s - S (p + 1))) by lia.
    rewrite radix_succ_div, shl_byte, radix_S by done.
    rewrite Z.shiftl_mul_pow2, Z.shiftr_div_pow2, mul_pow2_div by
      (try lia; apply radix_pos). done.
  - replace (length s - S p)%nat with 0%nat by lia. rewrite radix_0, !Z.div_1_r.
    rewrite Z.shiftl_mul_pow2 by lia. unfold wrap. by rewrite Z.mul_mod_idemp_l by lia.
Qed.

Lemma shl_cell_top s b :
  bytes_ok s -> (0 < length s)%nat -> 0 < b < 8 ->
  Z.shiftr (s !!! 0%nat) (8 - b) = u8 (be_val s * 2 ^ b / radix (length s)).
Proof.
  intros Hs Hp Hb. rewrite (be_val_lookup s 0) by done.
  pose proof (be_val_bound s Hs) as B.
  assert (length s = S (length s - 1)) as El by lia.
  set (y := be_val s / radix (length s - 1)).
  assert (0 <= y < 256) as Hy.
  { rewrite El, radix_S in B. pose proof (radix_pos (length s - 1)). unfold y.
    split; [apply Z.div_pos; lia|apply Z.div_lt_upper_bound; lia]. }
  rewrite El, radix_S, mul_pow2_div by (lia || apply radix_pos). fold y.
  rewrite byte_ok_u8 by exact Hy.
  assert (0 < 2 ^ b) by (apply Z.pow_pos_nonneg; lia).
  assert (0 < 2 ^ (8 - b)) by (apply Z.pow_pos_nonneg; lia).
  assert (256 = 2 ^ (8 - b) * 2 ^ b) as E.
  { rewrite <- Z.pow_add_r by lia. replace (8 - b + b) with 8 by lia. done. }
  rewrite Z.shiftr_div_pow2, E, Z.div_mul_cancel_r by lia.
  rewrite byte_ok_u8; [done|]. unfold byte_ok.
  split; [apply Z.div_pos; lia|apply Z.div_lt_upper_bound; nia].
Qed.

Lemma shiftl_radix_low x q b k :
  0 <= b -> (k < q)%nat -> u8 (x * 2 ^ (8 * Z.of_nat q + b) / radix k) = 0.
Proof.
  intros Hb Hk. rewrite Z.pow_add_r, <- radix_pow2 by lia.
  replace q with (k + S (q - k - 1))%nat by lia. rewrite radix_add, radix_S.
  pose proof (radix_pos k).
  replace (x * (radix k * (256 * radix (q - k - 1)) * 2 ^ b))
    with (x * (radix (q - k - 1) * 2 ^ b) * 256 * radix k) by ring.
  rewrite Z.div_mul by lia. unfold wrap. change (2 ^ 8) with 256. by apply Z.mod_mul.
Qed.

Lemma shiftl_radix_high x q b k :
  0 <= b -> x * 2 ^ (8 * Z.of_nat q + b) / radix (q + k) = x * 2 ^ b / radix k.
Proof.
  intros Hb. rewrite Z.pow_add_r, <- radix_pow2, radix_add by lia.
  pose proof (radix_pos q). pose proof (radix_pos k).
  replace (x * (radix q * 2 ^ b)) with (radix q * (x * 2 ^ b)) by ring.
  by rewrite Z.div_mul_cancel_l by lia.
Qed.

(** The part of [_ShiftLeft] that fills [nDst] cells, the low [q] bytes apart. *)
Lemma shl_fill d s b oDst oSrc n :
  bytes_ok s -> 0 <= b < 8 -> (oDst + n <= length d)%nat -> (oSrc + n = length s)%nat ->
  let body := if negb (b =? 0)
    then for_up n (fun i pDst => <[(oDst + i)%nat :=
       if (i + 1 <? n)%nat
       then Z.lor (u8 (Z.shiftl (s !!! (oSrc + i)%nat) b))
                  (Z.shiftr (s !!! (oSrc + i + 1)%nat) (8 - b))
       else u8 (Z.shiftl (s !!! (oSrc + i)%nat) b)]> pDst) d
    else memcpy_at oDst (take n (drop oSrc s)) d in
  length body = length d /\
  forall k, body !!! k = if decide (oDst <= k < oDst + n)%nat
    then u8 (be_val s * 2 ^ b / radix (oDst + n - S k)) else d !!! k.
Proof.
  intros Hs Hb Hd Hsrc body. unfold body. destruct (Z.eqb_spec b 0) as [->|Hb0]; simpl.
  - assert (length (take n (drop oSrc s)) = n) as Ht by (rewrite length_take, length_drop; lia).
    split; [apply length_memcpy_at; lia|]. intros k.
    rewrite memcpy_at_lookup, Ht by lia. case_decide; [|done].
    rewrite lookup_total_take, lookup_total_drop, Z.pow_0_r, Z.mul_1_r by lia.
    rewrite be_val_lookup by (done || lia). do 3 f_equal. lia.
  - destruct (for_up_fill n oDst (fun i _ =>
       if (i + 1 <? n)%nat
       then Z.lor (u8 (Z.shiftl (s !!! (oSrc + i)%nat) b))
                  (Z.shiftr (s !!! (oSrc + i + 1)%nat) (8 - b))
       else u8 (Z.shiftl (s !!! (oSrc + i)%nat) b)) d ltac:(lia)) as [Hl Hk].
    split; [exact Hl|]. intros k. rewrite Hk. case_decide; [|done].
    replace (oDst + n - S k)%nat with (length s - S (oSrc + (k - oDst)))%nat by lia.
    rewrite <- shl_cell by (done || lia).
    destruct (Nat.ltb_spec (k - oDst + 1) n),
      (Nat.ltb_spec (oSrc + (k - oDst) + 1) (length s)); (done || lia).
Qed.

Lemma mul_pow2_div_0 s b k :
  bytes_ok s -> 0 <= b < 8 -> (length s < k)%nat -> be_val s * 2 ^ b / radix k = 0.
Proof.
  intros Hs Hb Hk. apply Z.div_small. pose proof (be_val_bound s Hs).
  pose proof (radix_le (S (length s)) k Hk) as Hr. rewrite radix_S in Hr.
  assert (2 ^ b < 256) by (change 256 with (2 ^ 8); apply Z.pow_lt_mono_r; lia).
  assert (0 < 2 ^ b) by (apply Z.pow_pos_nonneg; lia). nia.
Qed.

(** [_ShiftLeft] multiplies by a power of two, modulo the destination size. *)
Lemma _ShiftLeft_eq d s nBits :
  bytes_ok s -> 0 <= nBits ->
  _ShiftLeft d s nBits = be_bytes (length d) (be_val s * 2 ^ nBits).
Proof.
  intros Hs Hn. destruct (shiftr3_land7 nBits Hn) as (En & Hq & Hb).
  unfold _ShiftLeft. set (b := Z.land nBits 7) in *.
  set (q := Z.to_nat (Z.shiftr nBits 3)) in *.
  assert (nBits = 8 * Z.of_nat q + b) as Ei by (unfold q; lia).
  clearbody q b. clear En Hq. subst nBits.
  destruct (Nat.leb_spec (length d) q) as [Hle|Hlt].
  - assert (forall p, length p = length d ->
      memcpy_at 0 (replicate (length d) 0) p
        = be_bytes (length d) (be_val s * 2 ^ (8 * Z.of_nat q + b))) as Hz.
    { intros p Hp. apply list_eq_total.
      - rewrite length_memcpy_at, length_be_bytes by (rewrite length_replicate; lia). done.
      - intros i Hi. rewrite length_memcpy_at in Hi by (rewrite length_replicate; lia).
        rewrite memcpy_at_lookup by (rewrite length_replicate; lia).
        rewrite length_replicate, decide_True, lookup_total_zeros by lia.
        rewrite be_bytes_lookup, shiftl_radix_low by lia. done. }
    destruct (Nat.ltb_spec 0 (length s)); cbn; apply Hz.
    + apply length_memcpy_at. simpl. lia.
    + destruct s; [|simpl in *; lia]. apply length_memcpy_at. simpl. lia.
  - set (nD := (length d - q)%nat).
    assert (forall P, length P = length d ->
      (forall k, (k < nD)%nat -> P !!! k = u8 (be_val s * 2 ^ b / radix (nD - S k))) ->
      memcpy_at nD (replicate q 0) P
        = be_bytes (length d) (be_val s * 2 ^ (8 * Z.of_nat q + b))) as Hfin.
    { intros P HP Hk. apply list_eq_total.
      - rewrite length_memcpy_at, length_be_bytes by (rewrite length_replicate; lia). done.
      - intros k Hlen. rewrite length_memcpy_at in Hlen by (rewrite length_replicate; lia).
        rewrite memcpy_at_lookup, length_replicate, be_bytes_lookup by
          (rewrite ?length_replicate; lia). case_decide.
        + rewrite shiftl_radix_low, lookup_total_zeros by lia. done.
        + rewrite Hk by lia.
          replace (length d - S k)%nat with (q + (nD - S k))%nat by lia.
          by rewrite shiftl_radix_high by lia. }
    destruct (Nat.ltb_spec nD (length s)).
    + destruct (Nat.eqb_spec nD 0); [lia|]. rewrite Nat.ltb_irrefl.
      destruct (shl_fill d s b 0 (length s - nD) nD Hs Hb ltac:(lia) ltac:(lia)) as [Hl Hk].
      apply Hfin; [exact Hl|]. intros k Hlk. rewrite Hk, decide_True by lia. done.
    + set (d1 := memset0 (nD - length s) d).
      assert (length d1 = length d) as Hd1 by (apply length_memset0; lia).
      assert (forall d2, length d2 = length d ->
        (forall k, (k < nD - length s)%nat ->
           d2 !!! k = u8 (be_val s * 2 ^ b / radix (nD - S k))) ->
        memcpy_at nD (replicate q 0)
          (if negb (b =? 0)
           then for_up (length s) (fun i pDst => <[(nD - length s + i)%nat :=
             if (i + 1 <? length s)%nat
             then Z.lor (u8 (Z.shiftl (s !!! (0 + i)%nat) b))
                        (Z.shiftr (s !!! (0 + i + 1)%nat) (8 - b))
             else u8 (Z.shiftl (s !!! (0 + i)%nat) b)]> pDst) d2
           else memcpy_at (nD - length s) (take (length s) (drop 0 s)) d2)
        = be_bytes (length d) (be_val s * 2 ^ (8 * Z.of_nat q + b))) as Hgo.
      { intros d2 Hd2 Hlow.
        destruct (shl_fill d2 s b (nD - length s) 0 (length s) Hs Hb ltac:(lia) ltac:(lia))
          as [Hl Hk].
        apply Hfin; [by rewrite Hl|]. intros k Hlk. rewrite Hk. case_decide.
        - repeat f_equal. lia.
        - apply Hlow. lia. }
      assert (forall k, (k < nD - length s)%nat -> (length s < nD - S k)%nat \/ b = 0 \/ s = [] ->
        d1 !!! k = u8 (be_val s * 2 ^ b / radix (nD - S k))) as Hz.
      { intros k Hlk Hor. unfold d1. rewrite memset0_lookup, decide_True by lia.
        destruct Hor as [Hk|[->| ->]].
        - by rewrite mul_pow2_div_0 by (done || lia).
        - by rewrite Z.mul_1_r, div_radix_0 by (done || lia).
        - done. }
      destruct (Z.eqb_spec b 0) as [Hb0|Hb0].
      { apply Hgo; [done|]. intros. apply Hz; auto. }
      destruct (Nat.eqb_spec (length s) 0) as [Hs0|Hs0].
      { destruct s; [|done]. apply (Hgo d1); [done|]. intros. apply Hz; auto. }
      cbn [negb] in Hgo |- *. eapply Hgo; destruct (Nat.ltb_spec (length s) nD).
      * by rewrite length_insert.
      * done.
      * intros k Hlk. rewrite lookup_total_insert by lia. case_decide; [|apply Hz; lia].
        rewrite shl_cell_top by (done || lia). repeat f_equal. lia.
      * intros k Hlk. lia.
Qed.

(** ** Multiplication *)
Lemma _Mul_carry_spec i dst carry :
  bytes_ok dst -> (i <= length dst)%nat -> 0 <= carry < 256 ->
  let r := _Mul_carry i dst carry in
  bytes_ok r /\ length r = length dst /\
  exists c, be_val r + c * radix (length dst)
            = be_val dst + carry * radix (length dst - i).
Proof.
  revert dst carry. induction i as [|i IH]; intros dst carry Hd Hi Hc.
  - simpl. destruct (carry =? 0) eqn:E; repeat split; auto.
    + exists carry. rewrite Nat.sub_0_r. lia.
    + exists carry. rewrite Nat.sub_0_r. lia.
  - cbn [_Mul_carry]. destruct (Z.eqb_spec carry 0) as [->|Hne].
    { repeat split; auto. exists 0. lia. }
    byte_facts. rewrite (u16_small (carry + dst !!! i)) by lia.
    set (t := carry + dst !!! i) in *.
    pose proof (u8_shiftr_decomp t ltac:(lia)) as Et.
    pose proof (shiftr8_bound t 2 ltac:(lia)) as Bt.
    destruct (IH (<[i:=u8 t]> dst) (Z.shiftr t 8)) as (Hr & Hl & c & E);
      [auto with grimm|rewrite length_insert; lia|lia|].
    rewrite length_insert in *. repeat split; auto. exists c. rewrite E.
    rewrite be_val_insert by lia.
    replace (length dst - i)%nat with (S (length dst - S i)) by lia. rewrite radix_S. nia.
Qed.

Section mul_row.
Context (src1 : list Z) (x0 t : Z) (N : nat).
Hypotheses (Hsrc : bytes_ok src1) (Hx0 : byte_ok x0)
  (HN : Z.of_nat N < 2 ^ 30)
  (Hn1 : (length src1 <= N)%nat)
  (Ht : - Z.of_nat N < t <= Z.of_nat N - Z.of_nat (length src1)).

Lemma mul_row_start : u32 t = if t <? 0 then t + 2 ^ 32 else t.
Proof using HN Hn1 Ht.
  unfold wrap. destruct (Z.ltb_spec t 0).
  - symmetry. apply (Z.mod_unique_pos _ _ (-1)); lia.
  - apply Z.mod_small. lia.
Qed.

Lemma mul_row_min :
  (if Z.of_nat N <? u32 t then Z.to_nat (u32 (- i32 (u32 t))) else 0%nat) = Z.to_nat (- t).
Proof using HN Hn1 Ht.
  rewrite mul_row_start. destruct (Z.ltb_spec t 0).
  - rewrite (proj2 (Z.ltb_lt _ _)) by lia.
    assert (i32 (t + 2 ^ 32) = t) as ->.
    { unfold swrap. change (32 - 1) with 31.
      rewrite (Z.mod_eq (t + 2 ^ 32 + 2 ^ 31)) by lia.
      rewrite <- (Z.div_unique_pos (t + 2 ^ 32 + 2 ^ 31) (2 ^ 32) 1 (t + 2 ^ 31)) by lia. lia. }
    rewrite wrap_small; [done|]. unfold in_width. lia.
  - rewrite (proj2 (Z.ltb_ge _ _)) by lia. lia.
Qed.

Lemma mul_row_index i :
  0 <= t + Z.of_nat i < 2 ^ 31 -> Z.to_nat (u32 (u32 t + Z.of_nat i)) = Z.to_nat (t + Z.of_nat i).
Proof.
  intros Hi. f_equal. unfold wrap. rewrite Zplus_mod_idemp_l. apply Z.mod_small. lia.
Qed.

(** One row of the schoolbook multiplication adds [x0 * src1], shifted, modulo
    the width of the destination. *)
Lemma _Mul_row_spec dst :
  bytes_ok dst -> length dst = N ->
  let r := _Mul_row src1 x0 (u32 t) N dst in
  bytes_ok r /\ length r = N /\
  exists c, be_val r + c * radix N
    = be_val dst + x0 * be_val src1 * radix (Z.to_nat (Z.of_nat N - Z.of_nat (length src1) - t)).
Proof using Hsrc Hx0 HN Hn1 Ht.
  intros Hd Hdl. cbv zeta. unfold _Mul_row. rewrite mul_row_min.
  set (e := Z.to_nat (Z.of_nat N - Z.of_nat (length src1) - t)).
  set (m := Z.to_nat (- t)). set (n1 := length src1) in *.
  set (o := Z.to_nat (t + Z.of_nat m)).
  pose proof (for_down_ind
    (fun k '(p, carry) => bytes_ok p /\ length p = N /\ 0 <= carry < 256 /\
       be_val p + carry * radix (N - (o + k))
         = be_val dst + x0 * be_val (drop (m + k) src1) * radix e)
    (n1 - m)
    (fun k '(pDst, carry) =>
         let i1 := (m + k)%nat in
         let d := Z.to_nat (u32 (u32 t + Z.of_nat i1)) in
         let x1 := u16 (src1 !!! i1 * x0) in
         let carry := u16 (carry + x1) in
         let carry := u16 (carry + pDst !!! d) in
         (<[d:=u8 carry]> pDst, Z.shiftr carry 8)) (dst, 0)) as H.
  destruct (for_down _ _ _) as [p' carry']. destruct H as (Hp & Hl & Hc & E).
  { repeat split; auto; try lia. rewrite drop_ge by lia. simpl. lia. }
  { intros k [p carry] Hk (Hp & Hl & Hc & E). cbv zeta.
    rewrite mul_row_index by lia.
    replace (Z.to_nat (t + Z.of_nat (m + k))) with (o + k)%nat by lia.
    byte_facts. unfold byte_ok in Hx0.
    rewrite (u16_small (src1 !!! (m + k)%nat * x0)) by nia.
    rewrite (u16_small (carry + _)) by nia.
    rewrite (u16_small (carry + _ + _)) by nia.
    set (c := carry + src1 !!! (m + k)%nat * x0 + p !!! (o + k)%nat).
    pose proof (u8_shiftr_decomp c ltac:(nia)) as Ec.
    pose proof (shiftr8_bound c 256 ltac:(nia)) as Bc.
    rewrite length_insert. repeat split; auto with grimm; try lia.
    rewrite be_val_insert, Hl by lia.
    rewrite (be_val_drop_S src1 (m + k)) by lia. fold n1.
    replace (N - (o + k))%nat with (S (N - S (o + k))) by lia. rewrite radix_S.
    replace (N - S (o + k))%nat with (N - (o + S k))%nat in * by lia.
    replace (drop (S (m + k)) src1) with (drop (m + S k) src1) by (f_equal; lia).
    assert (radix (N - (o + S k)) = radix (n1 - S (m + k)) * radix e) as Er.
    { rewrite <- radix_add. f_equal. lia. }
    assert (be_val p + carry * radix (N - (o + S k)) + (c - carry - p !!! (o + k)%nat)
              * radix (N - (o + S k)) = be_val dst +
            x0 * (src1 !!! (m + k)%nat * radix (n1 - S (m + k)) + be_val (drop (m + S k) src1))
              * radix e) as E'; [|nia].
    rewrite E, Er. unfold c. ring. }
  rewrite !Nat.add_0_r in E. rewrite mul_row_start. destruct (Z.ltb_spec t 0).
  - rewrite (proj2 (Z.leb_gt _ _)) by lia. repeat split; auto.
    replace o with 0%nat in E by lia. rewrite Nat.sub_0_r in E.
    exists (carry' + x0 * be_val (take m src1)
                     * radix (if decide (m <= n1)%nat then 0%nat else (m - n1)%nat)).
    rewrite (be_val_split src1 m). fold n1.
    destruct (decide (m <= n1)%nat).
    + assert (radix N = radix (n1 - m) * radix e) as Er.
      { rewrite <- radix_add. f_equal. lia. }
      rewrite radix_0. rewrite Er in *. lia.
    + rewrite drop_ge in E |- * by lia. simpl in *.
      assert (radix e = radix N * radix (m - n1)) as Er.
      { rewrite <- radix_add. f_equal. lia. }
      replace (n1 - m)%nat with 0%nat by lia. rewrite radix_0, Er. lia.
  - rewrite (proj2 (Z.leb_le _ _)) by lia.
    destruct (_Mul_carry_spec (Z.to_nat t) p' carry' Hp ltac:(lia) Hc) as (Hr & Hrl & c & Ec).
    rewrite Hl in *. repeat split; auto. exists c. rewrite Ec.
    replace (Z.to_nat t) with o by lia. rewrite E.
    replace m with 0%nat by lia. by rewrite drop_0.
Qed.
End mul_row.

Lemma mod_radix_trunc l n :
  bytes_ok l ->
  let l' := if (n <? length l)%nat then drop (length l - n) l else l in
  bytes_ok l' /\ (length l' <= n)%nat /\ be_val l' mod radix n = be_val l mod radix n.
Proof.
  intros Hl. cbv zeta. destruct (Nat.ltb_spec n (length l)).
  - split; [auto with grimm|]. rewrite length_drop. split; [lia|].
    rewrite be_val_drop_mod by done.
    replace (length l - (length l - n))%nat with n by lia.
    apply Z.mod_mod. pose proof (radix_pos n). lia.
  - auto.
Qed.

(** [_Mul] is multiplication modulo the width of the destination, for operands
    of any sizes; sizes are far below [2^30] in every instantiation. *)
Lemma _Mul_spec nDst s0 s1 :
  bytes_ok s0 -> bytes_ok s1 -> Z.of_nat nDst < 2 ^ 30 ->
  bytes_ok (_Mul nDst s0 s1) /\ length (_Mul nDst s0 s1) = nDst /\
  be_val (_Mul nDst s0 s1) = (be_val s0 * be_val s1) mod radix nDst.
Proof.
  intros H0 H1 HN. unfold _Mul.
  destruct (mod_radix_trunc s0 nDst H0) as (T0 & L0 & M0).
  destruct (mod_radix_trunc s1 nDst H1) as (T1 & L1 & M1).
  set (p0 := if (nDst <? length s0)%nat then _ else _) in *.
  set (p1 := if (nDst <? length s1)%nat then _ else _) in *.
  rewrite (swrap_small 32) by (simpl; lia).
  pose proof (for_down_ind
    (fun i r => bytes_ok r /\ length r = nDst /\
       exists c, be_val r + c * radix nDst = be_val (drop i p0) * be_val p1)
    (length p0)
    (fun i0 pDst => _Mul_row p1 (p0 !!! i0)
       (u32 (Z.of_nat i0 - (Z.of_nat (length p0) + Z.of_nat (length p1) - Z.of_nat nDst - 1)))
       nDst pDst) (replicate nDst 0)) as H.
  destruct H as (Hr & Hl & c & E).
  { rewrite length_replicate. repeat split; auto with grimm. exists 0.
    rewrite be_val_zeros, drop_ge by lia. simpl. lia. }
  { intros i r Hi (Hr & Hl & c & E).
    destruct (_Mul_row_spec p1 (p0 !!! i)
      (Z.of_nat i - (Z.of_nat (length p0) + Z.of_nat (length p1) - Z.of_nat nDst - 1))
      nDst T1 (bytes_ok_lookup p0 i T0) HN L1 ltac:(lia) r Hr Hl) as (Hr' & Hl' & c' & E').
    split; [done|]. split; [done|]. exists (c + c').
    replace (Z.to_nat _) with (length p0 - S i)%nat in E' by lia.
    rewrite (be_val_drop_S p0 i) by lia. lia. }
  rewrite drop_0 in E. split; [done|]. split; [done|].
  pose proof (be_val_bound _ Hr) as B. rewrite Hl in B. pose proof (radix_pos nDst).
  rewrite <- Z.mul_mod_idemp_l, <- M0, Z.mul_mod_idemp_l by lia.
  rewrite <- Z.mul_mod_idemp_r, <- M1, Z.mul_mod_idemp_r by lia.
  apply (Z.mod_unique_pos _ _ c); lia.
Qed.

(** [operator *] computes the full product. *)
Lemma mul_spec a b :
  bytes_ok a -> bytes_ok b -> Z.of_nat (length a + length b) < 2 ^ 30 ->
  bytes_ok (mul a b) /\ length (mul a b) = (length a + length b)%nat /\
  be_val (mul a b) = be_val a * be_val b.
Proof.
  intros Ha Hb HN. unfold mul.
  destruct (_Mul_spec (length a + length b) a b Ha Hb HN) as (? & ? & E).
  split; [done|]. split; [done|]. rewrite E. apply Z.mod_small.
  pose proof (be_val_bound a Ha). pose proof (be_val_bound b Hb).
  rewrite radix_add. nia.
Qed.

(** ** Division *)
Section div.
Context (a b : list Z) (nDst : nat) (T : nat).
Hypotheses (Ha : bytes_ok a) (Hb : bytes_ok b).

(** What holds before bit [s - 1] of the quotient is decided. *)
Definition div_inv (s : nat) (st : list Z * list Z) : Prop :=
  let '(dst, m) := st in
  bytes_ok dst /\ length dst = nDst /\ bytes_ok m /\ length m = length a /\
  be_val dst mod 2 ^ Z.of_nat s = 0 /\
  be_val m = be_val dst * be_val b /\ be_val m <= be_val a /\
  (be_val a < (be_val dst + 2 ^ Z.of_nat s) * be_val b
   \/ be_val dst + 2 ^ Z.of_nat s = 2 ^ Z.of_nat T) /\
  be_val dst + 2 ^ Z.of_nat s <= 2 ^ Z.of_nat T.

(** Setting a clear bit of the quotient adds its weight. *)
Lemma set_bit_spec dst k :
  bytes_ok dst -> (k < 8 * length dst)%nat ->
  be_val dst mod 2 ^ Z.of_nat (S k) = 0 ->
  let i := (length dst - Z.to_nat (Z.shiftr (Z.of_nat k) 3) - 1)%nat in
  let dst' := <[i := Z.lor (dst !!! i) (Z.shiftl 1 (Z.land 7 (Z.of_nat k)))]> dst in
  bytes_ok dst' /\ length dst' = length dst /\ be_val dst' = be_val dst + 2 ^ Z.of_nat k.
Proof.
  intros Hd Hk Hmod. cbv zeta.
  destruct (shiftr3_land7 (Z.of_nat k) ltac:(lia)) as (Ek & Hq & Hc).
  rewrite (Z.land_comm 7).
  set (c := Z.land (Z.of_nat k) 7) in *.
  set (q := Z.to_nat (Z.shiftr (Z.of_nat k) 3)) in *.
  set (i := (length dst - q - 1)%nat).
  assert (Z.of_nat k = 8 * Z.of_nat q + c) as Ek' by lia.
  assert (length dst - S i = q)%nat as Ei by lia.
  assert (byte_ok (dst !!! i)) as Hbi by auto with grimm.
  pose proof (be_val_lookup dst i Hd ltac:(lia)) as Hl. rewrite Ei in Hl.
  assert (Z.testbit (dst !!! i) c = false) as Hbit.
  { rewrite Hl. unfold wrap. rewrite Z.mod_pow2_bits_low by lia.
    rewrite radix_pow2, <- Z.shiftr_div_pow2, Z.shiftr_spec by lia.
    replace (c + 8 * Z.of_nat q) with (Z.of_nat k) by lia.
    rewrite <- (Z.mod_pow2_bits_low _ (Z.of_nat (S k))), Hmod by lia. apply Z.bits_0. }
  assert (Z.lor (dst !!! i) (Z.shiftl 1 c) = dst !!! i + 2 ^ c) as Elor.
  { rewrite Z.shiftl_1_l, <- Z.add_lor_land.
    replace (Z.land (dst !!! i) (2 ^ c)) with 0; [lia|].
    symmetry. apply Z.bits_inj_0. intros j. rewrite Z.land_spec.
    destruct (decide (j = c)) as [->|Hne]; [by rewrite Hbit|].
    rewrite Z.pow2_bits_false by lia. apply andb_false_r. }
  assert (byte_ok (dst !!! i + 2 ^ c)) as Hok.
  { assert ((Z.testbit (dst !!! i) c || (dst !!! i + 2 ^ c <? 256)) = true) as Hx; cycle 1.
    { rewrite Hbit in Hx. simpl in Hx. unfold byte_ok in *.
      assert (0 < 2 ^ c) by (apply Z.pow_pos_nonneg; lia). lia. }
    assert (c = 0 \/ c = 1 \/ c = 2 \/ c = 3 \/ c = 4 \/ c = 5 \/ c = 6 \/ c = 7) as Hcs by lia.
    clear -Hbi Hcs. generalize dependent (dst !!! i). intros x Hx. revert x Hx.
    destruct Hcs as [->|[->|[->|[->|[->|[->|[->| ->]]]]]]];
      apply byte_forall; vm_compute; done. }
  rewrite Elor, length_insert, be_val_insert, Ei by lia.
  split; [auto with grimm|]. split; [done|].
  rewrite Ek', Z.pow_add_r, <- radix_pow2 by lia. lia.
Qed.

Hypotheses (HT : Z.of_nat T = 1 + Z.min (8 * Z.of_nat (length a) - _GetOrder b)
                                        (8 * Z.of_nat nDst - 1)).

Lemma _Div_step_inv k st :
  (k < T)%nat -> div_inv (S k) st -> div_inv k (_Div_step a b k st).
Proof using Ha Hb HT.
  intros Hk. destruct st as [dst m].
  intros (Hd & Hdl & Hm & Hml & Hmod & Em & Hle & Hor & Htop). unfold _Div_step.
  pose proof (_GetOrder_bounds b Hb) as (Ho & Hlt & _).
  rewrite _ShiftLeft_eq, length_replicate by (done || lia).
  set (sh := be_bytes (length a) (be_val b * 2 ^ Z.of_nat k)).
  assert (0 < 2 ^ Z.of_nat k) as Hpk by (apply Z.pow_pos_nonneg; lia).
  assert (be_val sh = be_val b * 2 ^ Z.of_nat k /\ be_val b * 2 ^ Z.of_nat k < radix (length a))
    as [Esh Bsh].
  { assert (be_val b * 2 ^ Z.of_nat k < radix (length a)).
    { rewrite radix_pow2.
      assert (2 ^ _GetOrder b * 2 ^ Z.of_nat k <= 2 ^ (8 * Z.of_nat (length a))).
      { rewrite <- Z.pow_add_r by lia. apply Z.pow_le_mono_r; lia. }
      nia. }
    split; [|done]. unfold sh. rewrite be_val_be_bytes. apply Z.mod_small.
    pose proof (be_val_bound b Hb). nia. }
  pose proof (_Inc_any_spec sh m ltac:(apply bytes_ok_be_bytes) Hm) as Hinc.
  destruct (_Inc_any sh m) as [tmp cy]. destruct Hinc as (Htmp & Htl & Hcy & Etmp).
  unfold sh in Htl, Etmp. rewrite length_be_bytes in Htl, Etmp. fold sh in Etmp.
  pose proof (be_val_bound m Hm) as Bm. rewrite Hml in Bm.
  rewrite Z.mod_small, Esh in Etmp by lia.
  pose proof (be_val_bound tmp Htmp) as Bt. rewrite Htl in Bt.
  pose proof (be_val_bound a Ha) as Ba. pose proof (be_val_bound b Hb) as Bb.
  simpl. rewrite !_Cmp_spec by done.
  assert (0 <= be_val b * 2 ^ Z.of_nat k) by nia.
  assert ((be_val dst + 2 ^ Z.of_nat k) * be_val b = be_val m + be_val b * 2 ^ Z.of_nat k)
    as Eqb by (rewrite Em; ring).
  assert (be_val b * 2 ^ Z.of_nat k + be_val m < radix (length a) -> cy = 0) as Hcy0
    by (destruct Hcy; lia).
  assert (2 ^ Z.of_nat (S k) = 2 * 2 ^ Z.of_nat k) as E2.
  { rewrite Nat2Z.inj_succ, Z.pow_succ_r by lia. done. }
  assert (be_val dst mod 2 ^ Z.of_nat k = 0) as Hmodk.
  { apply Z.mod_divide; [lia|]. apply Z.mod_divide in Hmod; [|lia].
    rewrite E2 in Hmod. destruct Hmod as [z Hz]. exists (2 * z). lia. }
  destruct (0 <? cmpZ (be_val m) (be_val tmp)) eqn:C1;
    [|destruct (cmpZ (be_val a) (be_val tmp) <? 0) eqn:C2].
  - rewrite Z.ltb_lt, cmpZ_gt in C1. repeat split; auto; destruct Hcy; subst cy; lia.
  - rewrite Z.ltb_lt, cmpZ_lt in C2. apply Z.ltb_ge in C1.
    assert (~ 0 < cmpZ (be_val m) (be_val tmp)) as C1' by lia.
    rewrite cmpZ_gt in C1'. repeat split; auto; destruct Hcy; subst cy; lia.
  - apply Z.ltb_ge in C1, C2.
    assert (~ 0 < cmpZ (be_val m) (be_val tmp)) as C1' by lia.
    assert (~ cmpZ (be_val a) (be_val tmp) < 0) as C2' by lia.
    rewrite cmpZ_gt in C1'. rewrite cmpZ_lt in C2'.
    assert (cy = 0) as -> by (destruct Hcy; lia).
    destruct (set_bit_spec dst k Hd ltac:(lia) Hmod) as (Hd' & Hl' & Ev). rewrite Hdl in *.
    set (dst' := <[_ := _]> dst) in *.
    repeat split; auto; try lia.
    rewrite Ev. apply Z.mod_divide; [lia|]. apply Z.mod_divide in Hmodk; [|lia].
    apply Z.divide_add_r; [done|apply Z.divide_refl].
Qed.

Lemma div_loop_final :
  div_inv 0 (for_down T (_Div_step a b) (replicate nDst 0, replicate (length a) 0)).
Proof using Ha Hb HT.
  apply for_down_ind.
  - repeat split; rewrite ?length_replicate, ?be_val_zeros; auto with grimm; lia.
  - intros k st Hk. by apply _Div_step_inv.
Qed.
End div.

Lemma _Div_unfold nDst a b :
  bytes_ok b -> (0 < nDst)%nat -> Z.of_nat nDst < 2 ^ 28 ->
  _GetOrder b <= 8 * Z.of_nat (length a) ->
  exists T, Z.of_nat T = 1 + Z.min (8 * Z.of_nat (length a) - _GetOrder b)
                                   (8 * Z.of_nat nDst - 1) /\
  _Div nDst a b
    = for_down T (_Div_step a b) (replicate nDst 0, replicate (length a) 0).
Proof.
  intros Hb Hpos Hsz Ho. unfold _Div.
  rewrite !Z.shiftl_mul_pow2 by lia. change (2 ^ 3) with 8.
  rewrite (proj2 (Z.ltb_ge _ _)) by lia.
  rewrite (wrap_small 32) by (unfold in_width; lia).
  eexists. split; [|reflexivity]. lia.
Qed.

(** [SetDiv]: "Calculates a/b. Rounding to a smaller side. [...] Same [max
    value] if the type is too small to hold the full result". *)
Lemma _Div_spec nDst a b :
  bytes_ok a -> bytes_ok b -> (0 < nDst)%nat -> Z.of_nat nDst < 2 ^ 28 ->
  0 < be_val b ->
  let '(q, m) := _Div nDst a b in
  bytes_ok q /\ length q = nDst /\ bytes_ok m /\ length m = length a /\
  be_val q = Z.min (be_val a / be_val b) (radix nDst - 1) /\
  be_val m = be_val q * be_val b.
Proof.
  intros Ha Hb Hpos Hsz Hb0.
  pose proof (_GetOrder_bounds b Hb) as (Ho & Hhi & Hlo). specialize (Hlo Hb0).
  pose proof (be_val_bound a Ha) as Ba. pose proof (radix_pos nDst) as Hr.
  destruct (decide (_GetOrder b <= 8 * Z.of_nat (length a))) as [Hle|Hgt].
  - destruct (_Div_unfold nDst a b Hb Hpos Hsz Hle) as (T & HT & ->).
    pose proof (div_loop_final a b nDst T Ha Hb HT) as H.
    destruct (for_down _ _ _) as [q m].
    destruct H as (Hq & Hql & Hm & Hml & _ & Em & Hma & Hor & Htop).
    rewrite Z.pow_0_r in *. repeat split; auto.
    pose proof (be_val_bound q Hq) as Bq. rewrite Hql in Bq.
    assert (be_val a < (be_val q + 1) * be_val b \/ be_val q = radix nDst - 1) as Hor'.
    { destruct Hor as [|Heq]; [by left|].
      destruct (decide (8 * Z.of_nat (length a) - _GetOrder b < 8 * Z.of_nat nDst - 1)).
      - left. rewrite Heq, HT, Z.min_l by lia. rewrite radix_pow2 in Ba.
        assert (2 ^ (8 * Z.of_nat (length a))
                = 2 ^ (_GetOrder b - 1) * 2 ^ (1 + (8 * Z.of_nat (length a) - _GetOrder b))) as E.
        { destruct (decide (_GetOrder b = 0)) as [E0|].
          - rewrite E0 in Hhi. simpl in Hhi. lia.
          - rewrite <- Z.pow_add_r by lia. f_equal. lia. }
        assert (0 < 2 ^ (1 + (8 * Z.of_nat (length a) - _GetOrder b)))
          by (apply Z.pow_pos_nonneg; lia).
        rewrite E in Ba. nia.
      - right. rewrite radix_pow2. rewrite HT, Z.min_r in Heq by lia.
        replace (1 + (8 * Z.of_nat nDst - 1)) with (8 * Z.of_nat nDst) in Heq by lia. lia. }
    assert (be_val q <= be_val a / be_val b) by (apply Z.div_le_lower_bound; lia).
    destruct Hor' as [Hlt|Hmax].
    + assert (be_val a / be_val b < be_val q + 1) by (apply Z.div_lt_upper_bound; lia). lia.
    + lia.
  - unfold _Div. rewrite !Z.shiftl_mul_pow2 by lia. change (2 ^ 3) with 8.
    rewrite (proj2 (Z.ltb_lt _ _)) by lia.
    rewrite !length_replicate, !be_val_zeros. repeat split; auto with grimm.
    rewrite Z.div_small; [lia|]. split; [lia|].
    apply (Z.lt_le_trans _ (2 ^ (_GetOrder b - 1))); [|done].
    rewrite radix_pow2 in Ba.
    pose proof (Z.pow_le_mono_r 2 (8 * Z.of_nat (length a)) (_GetOrder b - 1)). lia.
Qed.

(** Division by zero: all the quotient bits that are tried get set.  That is the
    maximal value only if the dividend is not narrower than the quotient. *)
Lemma _Div_zero nDst a b :
  bytes_ok a -> bytes_ok b -> (0 < nDst)%nat -> Z.of_nat nDst < 2 ^ 28 ->
  be_val b = 0 ->
  be_val (SetDiv nDst a b) = 2 ^ (1 + Z.min (8 * Z.of_nat (length a)) (8 * Z.of_nat nDst - 1)) - 1.
Proof.
  intros Ha Hb Hpos Hsz Hb0. unfold SetDiv.
  assert (_GetOrder b = 0) as Ho by (rewrite _GetOrder_spec, Hb0; done).
  destruct (_Div_unfold nDst a b Hb Hpos Hsz ltac:(lia)) as (T & HT & ->).
  pose proof (div_loop_final a b nDst T Ha Hb HT) as H.
  destruct (for_down _ _ _) as [q m].
  destruct H as (_ & _ & _ & _ & _ & _ & _ & Hor & _). simpl.
  pose proof (be_val_bound a Ha). rewrite Ho, Z.sub_0_r in HT. rewrite <- HT.
  rewrite Hb0, Z.mul_0_r in Hor. rewrite Z.pow_0_r in Hor. lia.
Qed.

(** ** [AssignSafe] *)
Lemma assign_zeros n x o m :
  (o + m <= n)%nat ->
  _AssignRangeAligned (replicate n 0) x o m
    = replicate (n - (o + m)) 0 ++ be_bytes m x ++ replicate o 0.
Proof.
  intros Hn. rewrite _AssignRangeAligned_eq, length_replicate by (rewrite length_replicate; lia).
  rewrite take_replicate, drop_replicate. repeat f_equal; lia.
Qed.

Lemma assign_zeros_val n x o m :
  (o + m <= n)%nat ->
  let r := _AssignRangeAligned (replicate n 0) x o m in
  bytes_ok r /\ length r = n /\ be_val r = (x mod radix m) * radix o.
Proof.
  intros Hn. cbv zeta. rewrite assign_zeros by done.
  rewrite !length_app, !length_replicate, length_be_bytes.
  split; [repeat apply Forall_app_2; auto with grimm|]. split; [lia|].
  rewrite !be_val_app, !be_val_zeros, be_val_be_bytes, length_replicate. lia.
Qed.

Lemma mod_mul_radix x m o : x mod radix m * radix o = (x * radix o) mod radix (m + o).
Proof.
  pose proof (radix_pos m). pose proof (radix_pos o).
  rewrite radix_add, Z.mul_mod_distr_r by lia. done.
Qed.

(** [AssignSafe] stores [x << nOffset] modulo the width; when it reports
    success nothing was truncated. *)
Lemma _AssignSafe_spec szX n x nOffset :
  (0 < n)%nat -> Z.of_nat n < 2 ^ 32 -> 0 <= x < radix szX -> 0 <= nOffset ->
  let '(r, ok) := _AssignSafe szX (replicate n 0) x nOffset in
  bytes_ok r /\ length r = n /\ be_val r = (x * 2 ^ nOffset) mod radix n /\
  (ok = true -> be_val r = x * 2 ^ nOffset).
Proof.
  intros Hpos Hsz Hx Hoff. destruct (shiftr3_land7 nOffset Hoff) as (En & Hq & Hb).
  unfold _AssignSafe, _AssignRangeAlignedSafe. rewrite length_replicate.
  set (b := Z.land nOffset 7) in *. set (q := Z.to_nat (Z.shiftr nOffset 3)) in *.
  assert (nOffset = 8 * Z.of_nat q + b) as Ei by lia. clearbody q b. subst nOffset. clear En Hq.
  assert (x * 2 ^ (8 * Z.of_nat q + b) = x * 2 ^ b * radix q) as Ep.
  { rewrite Z.pow_add_r, <- radix_pow2 by lia. ring. }
  rewrite Ep. assert (0 < 2 ^ b) by (apply Z.pow_pos_nonneg; lia).
  rewrite Z.shiftl_mul_pow2 by lia. unfold wrap at 1. rewrite <- radix_pow2.
  set (y := x * 2 ^ b) in *. assert (0 <= y) by (unfold y; nia).
  destruct (Nat.ltb_spec n q) as [Hnq|Hqn].
  { cbn [negb]. rewrite length_replicate, be_val_zeros. repeat split; auto with grimm; [|done].
    replace q with (q - n + n)%nat by lia. rewrite radix_add, Z.mul_assoc.
    symmetry. apply Z.mod_mul. pose proof (radix_pos n). lia. }
  destruct (Nat.leb_spec szX (n - q)) as [Hfit|Hno].
  - destruct (assign_zeros_val n (y mod radix szX) q szX ltac:(lia)) as (Hr & Hl & Ev).
    rewrite Z.mod_mod in Ev by (pose proof (radix_pos szX); lia).
    set (r := _AssignRangeAligned _ _ _ _) in *. cbn [negb].
    destruct (Z.eqb_spec b 0) as [->|Hb0].
    { assert (y = x) as Ey by (unfold y; lia). rewrite Ey in *.
      rewrite (Z.mod_small x) in Ev by lia. repeat split; auto.
      rewrite Z.mod_small; [lia|]. pose proof (radix_pos q).
      pose proof (radix_le (szX + q) n ltac:(lia)) as Hle. rewrite radix_add in Hle. nia. }
    rewrite Hl, wrap_small by (unfold in_width; lia).
    destruct (Z.ltb_spec (Z.of_nat n - 1) (Z.of_nat (q + szX))) as [Hend|Hroom].
    + repeat split; auto; [|done]. rewrite Ev, mod_mul_radix. repeat f_equal. lia.
    + set (i := (n - 1 - (q + szX))%nat).
      assert (r !!! i = 0) as Hi0.
      { unfold r. rewrite assign_zeros, lookup_total_app_l by (rewrite ?length_replicate; lia).
        apply lookup_total_zeros. lia. }
      assert (Z.shiftr x (8 * Z.of_nat szX - b) = y / radix szX) as Eres.
      { assert (0 < 2 ^ b) by (apply Z.pow_pos_nonneg; lia).
        destruct (decide (szX = 0)%nat) as [->|].
        - rewrite radix_0 in Hx. assert (x = 0) as -> by lia.
          unfold y. rewrite radix_0. simpl. apply Z.shiftr_0_l.
        - rewrite Z.shiftr_div_pow2 by lia. unfold y. rewrite radix_pow2.
          replace (8 * Z.of_nat szX) with (8 * Z.of_nat szX - b + b) at 2 by lia.
          rewrite Z.pow_add_r, Z.div_mul_cancel_r by (try lia; apply Z.pow_nonzero; lia). done. }
      assert (0 <= y / radix szX < 256) as Bres.
      { pose proof (radix_pos szX). split; [apply Z.div_pos; lia|].
        apply Z.div_lt_upper_bound; [lia|].
        assert (2 ^ b < 256) by (change 256 with (2 ^ 8); apply Z.pow_lt_mono_r; lia).
        unfold y. nia. }
      rewrite Eres, byte_ok_u8 by exact Bres. rewrite length_insert.
      assert (be_val (<[i:=y / radix szX]> r) = y * radix q) as Etot.
      { rewrite be_val_insert, Hi0, Ev by lia.
        replace (length r - S i)%nat with (szX + q)%nat by lia. rewrite radix_add.
        pose proof (Z.div_mod y (radix szX) ltac:(pose proof (radix_pos szX); lia)). nia. }
      repeat split; auto with grimm. rewrite Etot. symmetry. apply Z.mod_small.
      split; [pose proof (radix_pos q); nia|].
      pose proof (radix_le (S (szX + q)) n ltac:(lia)) as Hle. rewrite radix_S, radix_add in Hle.
      assert (2 ^ b < 256) by (change 256 with (2 ^ 8); apply Z.pow_lt_mono_r; lia).
      assert (y < 256 * radix szX) by (unfold y; nia).
      pose proof (radix_pos q). nia.
  - destruct (assign_zeros_val n (y mod radix szX) q (n - q) ltac:(lia)) as (Hr & Hl & Ev).
    cbn [negb]. repeat split; auto; [|done]. rewrite Ev.
    assert (y mod radix szX mod radix (n - q) = y mod radix (n - q)) as ->.
    { replace szX with (szX - (n - q) + (n - q))%nat by lia. rewrite radix_add.
      pose proof (radix_pos (n - q)). pose proof (radix_pos (szX - (n - q))).
      rewrite Z.mul_comm. rewrite Z.rem_mul_r by lia.
      rewrite Z.mul_comm, Z.mod_add by lia. apply Z.mod_mod. lia. }
    rewrite mod_mul_radix. repeat f_equal. lia.
Qed.

(** ** [Threshold::Accept] *)
Lemma accept_mask o :
  0 <= o -> u8 (u8 (Z.shiftl 2 (Z.land 7 o)) - 1) = Z.ones (Z.land o 7 + 1).
Proof.
  intros Ho. rewrite Z.land_comm. destruct (shiftr3_land7 o Ho) as (_ & _ & Hc).
  assert (let c := Z.land o 7 in
    c = 0 \/ c = 1 \/ c = 2 \/ c = 3 \/ c = 4 \/ c = 5 \/ c = 6 \/ c = 7) as H by (cbv zeta; lia).
  cbv zeta in H. destruct H as [->|[->|[->|[->|[->|[->|[->| ->]]]]]]]; reflexivity.
Qed.

(** A candidate is reduced modulo the power of two above the threshold and
    accepted exactly when the residue is below the threshold. *)
Lemma _Accept_spec d thr :
  bytes_ok d -> bytes_ok thr -> length d = length thr -> 0 < be_val thr ->
  let m := be_val d mod 2 ^ _GetOrder thr in
  (be_val thr <= m -> (_Accept d thr (_GetOrder thr)).2 = false) /\
  (m < be_val thr -> _Accept d thr (_GetOrder thr) = (be_bytes (length d) m, true)).
Proof.
  intros Hd Ht Hlen Hpos m. destruct (_GetOrder_bounds thr Ht) as (Ho & Hhi & Hlo).
  specialize (Hlo Hpos). unfold _Accept.
  assert (_GetOrder thr <> 0) as Hne by (intros E; rewrite E in Hhi; simpl in Hhi; lia).
  rewrite (proj2 (Z.eqb_neq _ _) Hne). set (o := _GetOrder thr - 1).
  rewrite accept_mask by lia. destruct (shiftr3_land7 o ltac:(lia)) as (Eo & Hq & Hc).
  set (c := Z.land o 7) in *. set (k := Z.to_nat (Z.shiftr o 3)) in *.
  assert (_GetOrder thr = 8 * Z.of_nat k + (c + 1)) as Eord by lia.
  set (n := length d) in *. set (p := (n - 1 - k)%nat).
  assert (n - S p = k)%nat as Ek by lia.
  set (d' := <[p := _]> d).
  assert (bytes_ok d') as Hd'.
  { apply bytes_ok_insert; [done|]. rewrite Z.land_ones by lia.
    pose proof (bytes_ok_lookup d p Hd) as B. unfold byte_ok in *.
    assert (0 < 2 ^ (c + 1)) by (apply Z.pow_pos_nonneg; lia).
    pose proof (Z.mod_pos_bound (d !!! p) (2 ^ (c + 1))).
    pose proof (Z.mod_le (d !!! p) (2 ^ (c + 1))). lia. }
  assert (be_val (drop p d') = m) as Em.
  { rewrite be_val_drop_S by (unfold d'; rewrite length_insert; lia).
    unfold d' at 1. rewrite list_lookup_total_insert_eq by lia.
    unfold d' at 1. rewrite length_insert. fold n. rewrite Ek.
    unfold d'. rewrite drop_insert_lt by lia.
    rewrite be_val_drop_mod by done. fold n. rewrite Ek.
    rewrite Z.land_ones, be_val_lookup by (done || lia). fold n. rewrite Ek.
    unfold m. rewrite Eord, (Z.pow_add_r 2 (8 * Z.of_nat k)), <- radix_pow2 by lia.
    pose proof (radix_pos k). assert (0 < 2 ^ (c + 1)) by (apply Z.pow_pos_nonneg; lia).
    rewrite Z.rem_mul_r by lia.
    assert (u8 (be_val d / radix k) mod 2 ^ (c + 1) = (be_val d / radix k) mod 2 ^ (c + 1)) as ->.
    { unfold wrap. apply Z.mod_mod_divide.
      exists (2 ^ (8 - (c + 1))). rewrite <- Z.pow_add_r by lia. f_equal. lia. }
    ring. }
  assert (be_val (drop p thr) = be_val thr) as Et.
  { rewrite be_val_drop_mod by done. apply Z.mod_small. split; [lia|].
    eapply Z.lt_le_trans; [exact Hhi|]. rewrite radix_pow2. apply Z.pow_le_mono_r; lia. }
  rewrite memcmp_spec; [|auto with grimm|auto with grimm|].
  2: { unfold d'. rewrite !length_drop, length_insert. lia. }
  rewrite Em, Et. split; intros Hm.
  - rewrite (proj2 (Z.leb_le _ _)); [done|].
    assert (~ cmpZ m (be_val thr) < 0); [rewrite cmpZ_lt; lia|lia].
  - rewrite (proj2 (Z.leb_gt _ _)) by (by apply cmpZ_lt). f_equal.
    assert (length d' = n) as Hl by (unfold d'; by rewrite length_insert).
    apply be_val_inj; auto with grimm.
    + apply Forall_app; auto with grimm.
    + rewrite length_memset0, length_be_bytes; lia.
    + unfold memset0. rewrite be_val_app, be_val_zeros, Em, be_val_be_bytes.
      rewrite Z.mod_small; [lia|].
      pose proof (be_val_bound thr Ht) as Bt. rewrite <- Hlen in Bt. fold n in Bt.
      assert (0 <= m); [|lia]. apply Z.mod_pos_bound. apply Z.pow_pos_nonneg; lia.
Qed.

(** * The properties of [uintBig] arithmetic *)

(** [uintBig_t::operator *] is exact: the product of an [n]-byte and an
    [m]-byte number is their mathematical product, on [n + m] bytes, for every
    operand (the 16-bit accumulator and its carries never lose a bit). *)
Theorem uintBig_mul_exact a b :
  bytes_ok a -> bytes_ok b -> Z.of_nat (length a + length b) < 2 ^ 30 ->
  length (mul a b) = (length a + length b)%nat /\ be_val (mul a b) = be_val a * be_val b.
Proof. intros Ha Hb Hl. by destruct (mul_spec a b Ha Hb Hl) as (_ & ? & ?). Qed.

Lemma uintBig_mul_exact_witness :
  be_val (mul [0xff; 0xff] [0xff; 0x01; 0x80]) = 65535 * 0xff0180.
Proof. apply uintBig_mul_exact; [repeat constructor; lia..|done]. Defined.

(** [uintBig_t::SetDiv] is floor division: for a non-zero divisor the
    shift-and-subtract loop terminates with the quotient rounded down, or with
    the largest number of the destination when the quotient does not fit. *)
Theorem uintBig_SetDiv_floor nDst a b :
  bytes_ok a -> bytes_ok b -> (0 < nDst)%nat -> Z.of_nat nDst < 2 ^ 28 -> 0 < be_val b ->
  length (SetDiv nDst a b) = nDst /\
  be_val (SetDiv nDst a b) = Z.min (be_val a / be_val b) (radix nDst - 1).
Proof.
  intros Ha Hb H0 Hs Hp. pose proof (_Div_spec nDst a b Ha Hb H0 Hs Hp) as H. unfold SetDiv.
  destruct (_Div nDst a b) as [q m]. by destruct H as (_ & ? & _ & _ & ? & _).
Qed.

Lemma uintBig_SetDiv_floor_witness :
  be_val (SetDiv 2 [0x01; 0x00; 0x00] [0x07]) = Z.min (65536 / 7) 65535.
Proof. apply (uintBig_SetDiv_floor 2); [repeat constructor; lia..|lia|done|done]. Defined.

(** A zero divisor: the result has all bits set up to one more than the
    width of the dividend; it is the maximum of the destination only when the
    dividend is at least as wide as the destination. *)
Theorem uintBig_SetDiv_by_zero nDst a b :
  bytes_ok a -> bytes_ok b -> (0 < nDst)%nat -> Z.of_nat nDst < 2 ^ 28 -> be_val b = 0 ->
  be_val (SetDiv nDst a b)
    = 2 ^ (1 + Z.min (8 * Z.of_nat (length a)) (8 * Z.of_nat nDst - 1)) - 1.
Proof. apply _Div_zero. Qed.

Lemma uintBig_SetDiv_by_zero_witness : be_val (SetDiv 3 [5] [0]) = 511.
Proof. rewrite (uintBig_SetDiv_by_zero 3 [5] [0]); [done|repeat constructor; lia..|lia|done|done]. Defined.

(** [ShiftRight] and [ShiftLeft] by any number of bits, between buffers of
    any two widths, are division and multiplication by a power of two, reduced to
    the width of the destination. *)
Theorem uintBig_shifts d s nBits :
  bytes_ok s -> 0 <= nBits ->
  be_val (_ShiftRight d s nBits) = be_val s / 2 ^ nBits mod radix (length d) /\
  be_val (_ShiftLeft d s nBits) = be_val s * 2 ^ nBits mod radix (length d).
Proof.
  intros Hs Hn. rewrite _ShiftRight_eq, _ShiftLeft_eq, !be_val_be_bytes by done.
  by rewrite Z.shiftr_div_pow2.
Qed.

Lemma uintBig_shifts_witness :
  be_val (_ShiftRight [9; 9] [0xab; 0xcd; 0xef] 5) = 0xabcdef / 32 mod 65536.
Proof. apply (uintBig_shifts [9; 9] [0xab; 0xcd; 0xef] 5); [repeat constructor; lia|lia]. Defined.

(** [operator +=] between two widths adds modulo the width of the left
    operand, and adding the negation ([Negate]) subtracts; [Negate] is [Inv]
    followed by [Inc], as in two's complement. *)
Theorem uintBig_add_sub a b :
  bytes_ok a -> bytes_ok b -> length b = length a ->
  be_val (_Inc_any a b).1 = (be_val a + be_val b) mod radix (length a) /\
  be_val (_Inc_any a (Negate b)).1 = (be_val a - be_val b) mod radix (length a).
Proof.
  intros Ha Hb Hl. destruct (Negate_spec b Hb) as (Nb & Nl & En). rewrite Hl in *.
  assert (forall s, bytes_ok s -> length s = length a ->
    be_val (_Inc_any a s).1 = (be_val a + be_val s) mod radix (length a)) as Hadd.
  { intros s Hs Hsl. pose proof (_Inc_any_spec a s Ha Hs) as H.
    destruct (_Inc_any a s) as [r c]. destruct H as (Hr & Hrl & Hc & E). cbn [fst].
    pose proof (be_val_bound r Hr) as B. pose proof (be_val_bound s Hs) as Bs.
    rewrite Hrl in B. rewrite Hsl in Bs. rewrite (Z.mod_small (be_val s)) in E by lia.
    apply (Z.mod_unique_pos _ _ c); lia. }
  split; [by apply Hadd|]. rewrite Hadd, En by done.
  rewrite Z.add_mod_idemp_r by (pose proof (radix_pos (length a)); lia). done.
Qed.

Lemma uintBig_add_sub_witness :
  be_val (_Inc_any [1; 0] (Negate [1; 1])).1 = (256 - 257) mod 65536.
Proof. apply (uintBig_add_sub [1; 0] [1; 1]); [repeat constructor; lia..|done]. Defined.

(** [uintBigImpl::_Cmp] orders numbers of different widths by their value:
    negative, zero or positive as the left value is below, equal or above. *)
Theorem uintBig_cmp_order p q :
  bytes_ok p -> bytes_ok q ->
  (_Cmp p q < 0 <-> be_val p < be_val q) /\ (_Cmp p q = 0 <-> be_val p = be_val q) /\
  (0 < _Cmp p q <-> be_val q < be_val p).
Proof.
  intros Hp Hq. rewrite _Cmp_spec by done. by rewrite cmpZ_lt, cmpZ_eq, cmpZ_gt.
Qed.

Lemma uintBig_cmp_order_witness : 0 < _Cmp [1; 0; 0] [255; 255].
Proof. apply uintBig_cmp_order; [repeat constructor; lia..|done]. Defined.

(** [uintBigImpl::_Accept], the rejection step of nonce generation: with
    the threshold's own order the candidate is masked to that many bits, accepted
    exactly when the masked value is below the threshold, and then left masked. *)
Theorem uintBig_accept d thr :
  bytes_ok d -> bytes_ok thr -> length d = length thr -> 0 < be_val thr ->
  let m := be_val d mod 2 ^ _GetOrder thr in
  let '(r, ok) := _Accept d thr (_GetOrder thr) in
  (ok = true <-> m < be_val thr) /\ (ok = true -> r = be_bytes (length d) m).
Proof.
  intros Hd Ht Hl Hp m. destruct (_Accept_spec d thr Hd Ht Hl Hp) as [Hno Hyes]. fold m in Hno, Hyes.
  destruct (Z.lt_ge_cases m (be_val thr)) as [Hlt|Hge].
  - rewrite Hyes by done. done.
  - specialize (Hno Hge). destruct (_Accept _ _ _) as [r ok]. simpl in Hno. subst ok.
    split; [|done]. split; [done|lia].
Qed.

Lemma uintBig_accept_witness :
  let '(r, ok) := _Accept [0x95; 0x07] [0x01; 0x80] (_GetOrder [0x01; 0x80]) in
  ok = true -> r = be_bytes 2 (be_val [0x95; 0x07] mod 2 ^ 9).
Proof.
  pose proof (uintBig_accept [0x95; 0x07] [0x01; 0x80]) as H.
  destruct (_Accept _ _ _). apply H; [repeat constructor; lia..|done|done].
Defined.

(** An integer written into a [uintBig] by [AssignOrdinal] is read back by
    [ExportWord] from the last word, whatever the buffer held before. *)
Theorem uintBig_ordinal_roundtrip szX k pData x :
  (0 < szX)%nat -> length pData = (szX * k + szX)%nat -> 0 <= x < radix szX ->
  ExportWord k szX (AssignOrdinal szX pData x) = x.
Proof.
  intros Hsz Hl Hx. rewrite AssignOrdinal_eq by (try done; lia). unfold ExportWord.
  rewrite take_ge by (rewrite length_drop, length_be_bytes; lia).
  rewrite _ExportAligned_spec by
    (rewrite ?length_drop, ?length_be_bytes; auto with grimm; lia).
  rewrite be_val_drop_mod by auto with grimm.
  rewrite be_val_be_bytes, length_be_bytes, Hl.
  replace (szX * k + szX - szX * k)%nat with szX by lia.
  rewrite (Z.mod_small x), Z.mod_small; [done|done|].
  split; [lia|]. eapply Z.lt_le_trans; [apply Hx|]. apply radix_le. lia.
Qed.

Lemma uintBig_ordinal_roundtrip_witness :
  ExportWord 1 4 (AssignOrdinal 4 [1; 2; 3; 4; 5; 6; 7; 8] 0xdeadbeef) = 0xdeadbeef.
Proof. apply uintBig_ordinal_roundtrip; [lia|done|done]. Defined.
