(* ===== verification/Difficulty.v ===== *)
(** Packed difficulties, targets and accumulated work: [core/difficulty.h],
    [core/difficulty.cpp].

    A [Difficulty] is its [m_Packed] word: an exponent in the upper bits over a
    24-bit mantissa with an implied leading one.  [Raw] is a 32-byte [uintBig].
    [ToFloat] and the decimal part of the printer work on [double] and are not
    modelled. *)

From S2P Require Import Prelude UintBig.

Definition s_MantissaBits : Z := 24.
Definition Raw_nBytes : nat := 32.
Definition s_MaxOrder : Z := 8 * Z.of_nat Raw_nBytes - s_MantissaBits - 1.
Definition s_Inf : Z := Z.shiftl (s_MaxOrder + 1) s_MantissaBits.

Definition Zero : list Z := replicate Raw_nBytes 0.

Definition Pack (order mantissa : Z) : Z :=
  if order <=? s_MaxOrder then
    let mantissa := Z.land mantissa (u32 (Z.shiftl 1 s_MantissaBits) - 1) in
    Z.lor mantissa (u32 (Z.shiftl order s_MantissaBits))
  else s_Inf.

Definition Unpack_parts (m_Packed : Z) : Z * Z :=
  let order := Z.shiftr m_Packed s_MantissaBits in
  let nLeadingBit := Z.shiftl 1 s_MantissaBits in
  (order, Z.lor nLeadingBit (Z.land m_Packed (nLeadingBit - 1))).

Definition Unpack (m_Packed : Z) : list Z :=
  if m_Packed <? s_Inf then
    let '(order, mantissa) := Unpack_parts m_Packed in
    (_AssignSafe 4 Zero mantissa order).1
  else Inv Zero.

Definition IsTargetReached (m_Packed : Z) (hv : list Z) : bool :=
  if s_Inf <? m_Packed then false
  else
    let a := mul hv (Unpack m_Packed) in
    memis0 (take (Raw_nBytes - Z.to_nat (Z.shiftr s_MantissaBits 3)) a).

Definition get_Target (m_Packed : Z) : list Z * bool :=
  if s_Inf <? m_Packed then (Zero, false)
  else
    let rMax := replicate (Raw_nBytes + Z.to_nat (Z.shiftr s_MantissaBits 3)) 0xff in
    (SetDiv Raw_nBytes rMax (Unpack m_Packed), true).

(** [operator +] and [operator +=]: they differ in which operand is updated. *)
Definition raw_add (base : list Z) (d : Z) : list Z := (_Inc_any (Unpack d) base).1.
Definition raw_add_assign (res : list Z) (d : Z) : list Z := (_Inc_any res (Unpack d)).1.
Definition raw_sub (base : list Z) (d : Z) : list Z := (_Inc_any (Negate (Unpack d)) base).1.
Definition raw_sub_assign (res : list Z) (d : Z) : list Z := (_Inc_any res (Negate (Unpack d))).1.

(** ** [BigFloat]: 32 significant bits and a signed exponent *)
Record BigFloat := mkBigFloat { m_Order : Z; m_Value : Z }.

Definition BigFloat_nBits : Z := 32.

Definition BigFloat_of (val : list Z) : BigFloat :=
  let nOrder := _GetOrder val in
  if negb (nOrder =? 0) then
    let m_Order := i32 (nOrder - BigFloat_nBits) in
    let x := if 0 <? m_Order then _ShiftRight (replicate 4 0) val m_Order
             else _ShiftLeft (replicate 4 0) val (- m_Order) in
    mkBigFloat m_Order (_ExportAligned 32 x)
  else mkBigFloat 0 0.

(** From an ordinal of [sz] bytes. *)
Definition BigFloat_ord (sz : nat) (val : Z) : BigFloat :=
  BigFloat_of (AssignOrdinal sz (replicate sz 0) val).

Definition BigFloat_mul (a x : BigFloat) : BigFloat :=
  let val := u64 (m_Value a * m_Value x) in
  let res := BigFloat_ord 8 val in
  mkBigFloat (i32 (m_Order res + (m_Order a + m_Order x))) (m_Value res).

(** Division by a zero [BigFloat] is undefined; [None]. *)
Definition BigFloat_div (a x : BigFloat) : option BigFloat :=
  if m_Value x =? 0 then None
  else
    let val := u64 (Z.shiftl (m_Value a) BigFloat_nBits) / m_Value x in
    let res := BigFloat_ord 8 val in
    Some (mkBigFloat (i32 (m_Order res + (m_Order a - (m_Order x + BigFloat_nBits))))
                     (m_Value res)).

Definition Calculate (ref : list Z) (dh dtTrg_s dtSrc_s : Z) : option Z :=
  let div := u64 (dtSrc_s * dh) in
  x ← BigFloat_div (BigFloat_mul (BigFloat_of ref) (BigFloat_ord 4 dtTrg_s))
        (BigFloat_ord 8 div);
  if m_Value x =? 0 then Some 0
  else
    let order := i32 (m_Order x + (BigFloat_nBits - 1 - s_MantissaBits)) in
    if 0 <=? order
    then Some (Pack order (Z.shiftr (m_Value x) (BigFloat_nBits - 1 - s_MantissaBits)))
    else Some 0.

(** * Facts *)
Definition raw_ok (r : list Z) : Prop := bytes_ok r /\ length r = Raw_nBytes.

(** The number a packed difficulty denotes. *)
Definition raw_val (m_Packed : Z) : Z :=
  if m_Packed <? s_Inf
  then (2 ^ 24 + m_Packed mod 2 ^ 24) * 2 ^ (m_Packed / 2 ^ 24)
  else 2 ^ 256 - 1.

Lemma radix32 : radix Raw_nBytes = 2 ^ 256.
Proof. reflexivity. Qed.

Lemma Unpack_parts_eq p :
  0 <= p -> Unpack_parts p = (p / 2 ^ 24, 2 ^ 24 + p mod 2 ^ 24).
Proof.
  intros Hp. unfold Unpack_parts, s_MantissaBits. rewrite Z.shiftr_div_pow2 by lia.
  f_equal. change (Z.shiftl 1 24) with (Z.shiftl 1 24).
  change (Z.shiftl 1 24 - 1) with (Z.ones 24). rewrite Z.land_ones by lia.
  rewrite <- add_shiftl_lor by (try lia; apply Z.mod_pos_bound; lia). lia.
Qed.

Lemma zeros_raw_ok : raw_ok Zero.
Proof. split; [apply bytes_ok_zeros|done]. Qed.

Lemma Unpack_spec p :
  0 <= p -> raw_ok (Unpack p) /\ be_val (Unpack p) = raw_val p.
Proof.
  intros Hp. unfold Unpack, raw_val. destruct (Z.ltb_spec p s_Inf) as [Hlt|Hge].
  - rewrite Unpack_parts_eq by done.
    assert (0 <= p / 2 ^ 24 <= 231) as Ho.
    { unfold s_Inf, s_MaxOrder, s_MantissaBits, Raw_nBytes in Hlt.
      rewrite Z.shiftl_mul_pow2 in Hlt by lia.
      assert (p / 2 ^ 24 < 232); [apply Z.div_lt_upper_bound; lia|].
      assert (0 <= p / 2 ^ 24) by (apply Z.div_pos; lia). lia. }
    pose proof (Z.mod_pos_bound p (2 ^ 24)) as Hm.
    set (m := 2 ^ 24 + p mod 2 ^ 24) in *. set (o := p / 2 ^ 24) in *.
    assert (2 ^ 24 <= m < 2 ^ 25) as Bm by lia.
    pose proof (_AssignSafe_spec 4 32 m o ltac:(lia) ltac:(lia)
      ltac:(change (radix 4) with (2 ^ 32); lia) ltac:(lia)) as H.
    change (replicate 32 0) with Zero in H. destruct (_AssignSafe 4 Zero m o) as [r ok].
    destruct H as (Hr & Hl & E & _). split; [by split|].
    cbn [fst]. rewrite E. apply Z.mod_small. split; [nia|].
    change (radix 32) with (2 ^ 256). apply Z.lt_le_trans with (2 ^ 25 * 2 ^ 231); [|done].
    assert (0 < 2 ^ o) by (apply Z.pow_pos_nonneg; lia).
    assert (2 ^ o <= 2 ^ 231) by (apply Z.pow_le_mono_r; lia). nia.
  - destruct (_Inv_spec Zero) as (Hb & Hl & E); [apply zeros_raw_ok|].
    split; [by split|]. unfold Inv. rewrite E. reflexivity.
Qed.

Lemma raw_val_bounds p : 0 <= p -> 0 < raw_val p < 2 ^ 256.
Proof.
  intros Hp. destruct (Unpack_spec p Hp) as [[Hb Hl] E].
  pose proof (be_val_bound _ Hb) as B. rewrite Hl, E, radix32 in B. split; [|lia].
  unfold raw_val. destruct (p <? s_Inf); [|lia].
  pose proof (Z.mod_pos_bound p (2 ^ 24)).
  assert (0 < 2 ^ (p / 2 ^ 24)); [|nia]. apply Z.pow_pos_nonneg; [lia|apply Z.div_pos; lia].
Qed.

(** The packed form is ordered like the number it denotes. *)
Lemma raw_val_mono p1 p2 :
  0 <= p1 < p2 -> p1 < s_Inf -> raw_val p1 < raw_val p2.
Proof.
  intros Hp Hlt. destruct (Z.lt_ge_cases p2 s_Inf) as [H2|H2].
  - unfold raw_val. rewrite !(proj2 (Z.ltb_lt _ _)) by done.
    pose proof (Z.mod_pos_bound p1 (2 ^ 24)). pose proof (Z.mod_pos_bound p2 (2 ^ 24)).
    pose proof (Z.div_mod p1 (2 ^ 24)). pose proof (Z.div_mod p2 (2 ^ 24)).
    set (o1 := p1 / 2 ^ 24) in *. set (o2 := p2 / 2 ^ 24) in *.
    assert (0 <= o1) by (apply Z.div_pos; lia).
    assert (0 < 2 ^ o1) by (apply Z.pow_pos_nonneg; lia).
    assert (o1 <= o2) as Ho by nia.
    destruct (decide (o1 = o2)) as [<-|Hne]; [nia|].
    replace o2 with (o1 + 1 + (o2 - o1 - 1)) by lia.
    rewrite !Z.pow_add_r by lia.
    assert (0 < 2 ^ (o2 - o1 - 1)) by (apply Z.pow_pos_nonneg; lia).
    assert (1 <= 2 ^ (o2 - o1 - 1)) by lia. nia.
  - unfold raw_val at 2. rewrite (proj2 (Z.ltb_ge _ _)) by done.
    unfold raw_val. rewrite (proj2 (Z.ltb_lt _ _)) by done.
    assert (p1 / 2 ^ 24 < 232).
    { apply Z.div_lt_upper_bound; [lia|]. change (2 ^ 24 * 232) with s_Inf. done. }
    pose proof (Z.mod_pos_bound p1 (2 ^ 24)).
    assert (0 <= p1 / 2 ^ 24) by (apply Z.div_pos; lia).
    assert (0 < 2 ^ (p1 / 2 ^ 24)) by (apply Z.pow_pos_nonneg; lia).
    assert (2 ^ (p1 / 2 ^ 24) <= 2 ^ 231) by (apply Z.pow_le_mono_r; lia).
    assert ((2 ^ 25 - 1) * 2 ^ 231 < 2 ^ 256 - 1) by reflexivity. nia.
Qed.

Lemma IsTargetReached_spec p hv :
  0 <= p -> raw_ok hv ->
  IsTargetReached p hv = true <-> p <= s_Inf /\ be_val hv * raw_val p < 2 ^ 280.
Proof.
  intros Hp [Hb Hl]. unfold IsTargetReached.
  destruct (Z.ltb_spec s_Inf p); [split; [done|lia]|].
  destruct (Unpack_spec p Hp) as [[Ub Ul] E].
  destruct (mul_spec hv (Unpack p) Hb Ub) as (Mb & Ml & Em); [rewrite Hl, Ul; done|].
  change (Raw_nBytes - _)%nat with 29%nat.
  rewrite memis0_spec by auto with grimm.
  rewrite be_val_take_div, Em, E, Ml, Hl, Ul by done.
  change (radix (Raw_nBytes + Raw_nBytes - 29)) with (2 ^ 280).
  pose proof (be_val_bound hv Hb). pose proof (raw_val_bounds p Hp).
  rewrite Z.div_small_iff by lia. nia.
Qed.

Lemma get_Target_spec p :
  0 <= p <= s_Inf ->
  (get_Target p).2 = true /\ raw_ok (get_Target p).1 /\
  be_val (get_Target p).1 = Z.min ((2 ^ 280 - 1) / raw_val p) (2 ^ 256 - 1).
Proof.
  intros Hp. unfold get_Target. rewrite (proj2 (Z.ltb_ge _ _)) by lia.
  split; [done|]. cbn [fst].
  destruct (Unpack_spec p ltac:(lia)) as [[Ub Ul] E].
  pose proof (raw_val_bounds p ltac:(lia)).
  set (rMax := replicate _ _).
  assert (bytes_ok rMax) as Hm by (apply Forall_replicate; unfold byte_ok; lia).
  pose proof (_Div_spec Raw_nBytes rMax (Unpack p) Hm Ub ltac:(unfold Raw_nBytes; lia)
    ltac:(unfold Raw_nBytes; lia) ltac:(lia)) as H1.
  unfold SetDiv. destruct (_Div Raw_nBytes rMax (Unpack p)) as [q m].
  destruct H1 as (Hq & Hql & _ & _ & Eq & _). split; [by split|].
  cbn [fst]. rewrite Eq, E. reflexivity.
Qed.

Lemma raw_add_assign_spec r p :
  0 <= p -> raw_ok r ->
  raw_ok (raw_add_assign r p) /\
  be_val (raw_add_assign r p) = (be_val r + raw_val p) mod 2 ^ 256.
Proof.
  intros Hp [Hb Hl]. destruct (Unpack_spec p Hp) as [[Ub Ul] E].
  pose proof (_Inc_any_spec r (Unpack p) Hb Ub) as H. unfold raw_add_assign.
  destruct (_Inc_any r (Unpack p)) as [x c]. destruct H as (Hx & Hxl & Hc & Ex).
  cbn [fst]. rewrite Hl in *. split; [by split|].
  pose proof (be_val_bound x Hx) as B. rewrite Hxl in B.
  pose proof (raw_val_bounds p Hp).
  rewrite radix32, E, (Z.mod_small (raw_val p)) in * by lia.
  apply (Z.mod_unique_pos _ _ c); lia.
Qed.

Lemma raw_sub_assign_spec r p :
  0 <= p -> raw_ok r ->
  raw_ok (raw_sub_assign r p) /\
  be_val (raw_sub_assign r p) = (be_val r - raw_val p) mod 2 ^ 256.
Proof.
  intros Hp [Hb Hl]. destruct (Unpack_spec p Hp) as [[Ub Ul] E].
  destruct (Negate_spec (Unpack p) Ub) as (Nb & Nl & En).
  pose proof (_Inc_any_spec r (Negate (Unpack p)) Hb Nb) as H. unfold raw_sub_assign.
  destruct (_Inc_any r _) as [x c]. destruct H as (Hx & Hxl & Hc & Ex).
  cbn [fst]. rewrite Hl, ?Ul in *. split; [by split|].
  pose proof (be_val_bound x Hx) as B. rewrite Hxl in B.
  rewrite radix32, E in *. rewrite En in Ex.
  rewrite Z.mod_mod in Ex by lia.
  rewrite <- Z.add_opp_r, <- Z.add_mod_idemp_r by lia.
  apply (Z.mod_unique_pos _ _ c); lia.
Qed.

(** ** The accuracy of the retarget formula

    A [BigFloat] stands for [m_Value * 2^m_Order].  Orders may be negative, so
    that the statements below scale both sides by [2^K]. *)
Definition bf_scale : Z := 512.

Definition bf_round (value order v : Z) : Prop :=
  value * 2 ^ (order + bf_scale) <= v * 2 ^ bf_scale < (value + 1) * 2 ^ (order + bf_scale).

Definition bf_approx (x : BigFloat) (v : Z) : Prop :=
  2 ^ 31 <= m_Value x < 2 ^ 32 /\ -31 <= m_Order x <= 224 /\
  bf_round (m_Value x) (m_Order x) v.

Lemma pow2_gt0 n : 0 <= n -> 0 < 2 ^ n.
Proof. intros. apply Z.pow_pos_nonneg; lia. Qed.

Lemma BigFloat_of_spec val :
  bytes_ok val -> (length val <= 32)%nat -> 0 < be_val val ->
  let x := BigFloat_of val in
  bf_approx x (be_val val) /\
  (m_Order x = Z.log2 (be_val val) - 31) /\
  (0 <= m_Order x -> m_Value x = be_val val / 2 ^ m_Order x) /\
  (m_Order x <= 0 -> m_Value x = be_val val * 2 ^ (- m_Order x)).
Proof.
  intros Hb Hl Hp. unfold BigFloat_of. rewrite _GetOrder_spec by done.
  rewrite (proj2 (Z.eqb_neq (be_val val) 0)) by lia.
  set (v := be_val val) in *. pose proof (Z.log2_spec v Hp) as [L1 L2].
  pose proof (Z.log2_nonneg v) as L0.
  assert (Z.log2 v < 256) as L3.
  { apply Z.log2_lt_pow2; [done|]. pose proof (be_val_bound val Hb).
    pose proof (radix_le (length val) 32 Hl). change (radix 32) with (2 ^ 256) in *. lia. }
  set (g := Z.log2 v) in *. clearbody g.
  rewrite (proj2 (Z.eqb_neq (g + 1) 0)) by lia. cbn [negb].
  unfold BigFloat_nBits. rewrite (swrap_small 32) by (simpl; lia).
  replace (g + 1 - 32) with (g - 31) by lia.
  rewrite Z.pow_succ_r in L2 by lia.
  assert (forall y, 0 <= y < 2 ^ 32 -> _ExportAligned 32 (be_bytes 4 y) = y) as Hexp.
  { intros y Hy. rewrite _ExportAligned_spec; [|auto with grimm|rewrite length_be_bytes; lia..].
    rewrite be_val_be_bytes. apply Z.mod_small. done. }
  unfold bf_approx, bf_round, bf_scale.
  destruct (Z.ltb_spec 0 (g - 31)) as [Ho|Ho]; cbn [m_Value m_Order].
  - rewrite _ShiftRight_eq by (done || lia). rewrite length_replicate. fold v.
    rewrite Z.shiftr_div_pow2 by lia.
    pose proof (pow2_gt0 (g - 31) ltac:(lia)) as Hq.
    assert (2 ^ g = 2 ^ 31 * 2 ^ (g - 31)) as Eg by (rewrite <- Z.pow_add_r by lia; f_equal; lia).
    assert (2 ^ 31 <= v / 2 ^ (g - 31) < 2 ^ 32) as B.
    { split; [apply Z.div_le_lower_bound; lia|apply Z.div_lt_upper_bound; lia]. }
    rewrite Hexp by lia. split; [|split; [lia|split; [done|lia]]].
    split; [done|]. split; [lia|]. rewrite Z.pow_add_r by lia.
    pose proof (Z.div_mod v (2 ^ (g - 31)) ltac:(lia)) as Ev.
    pose proof (Z.mod_pos_bound v (2 ^ (g - 31)) Hq).
    set (q := v / 2 ^ (g - 31)) in *. set (P := 2 ^ (g - 31)) in *. set (K := 2 ^ 512).
    assert (0 < K) by (by apply pow2_gt0). clearbody K P q. nia.
  - rewrite _ShiftLeft_eq by (done || lia). rewrite length_replicate. fold v.
    pose proof (pow2_gt0 (- (g - 31)) ltac:(lia)) as Hq.
    assert (2 ^ 31 = 2 ^ g * 2 ^ (- (g - 31))) as Eg.
    { rewrite <- Z.pow_add_r by lia. f_equal. lia. }
    assert (2 ^ 31 <= v * 2 ^ (- (g - 31)) < 2 ^ 32) as B.
    { change (2 ^ 32) with (2 * 2 ^ 31). nia. }
    rewrite Hexp by lia. split; [|split; [lia|split; [|done]]].
    + split; [done|]. split; [lia|].
      assert (2 ^ 512 = 2 ^ (- (g - 31)) * 2 ^ (g - 31 + 512)) as E5.
      { rewrite <- Z.pow_add_r by lia. f_equal. lia. }
      pose proof (pow2_gt0 (g - 31 + 512) ltac:(lia)). rewrite E5.
      set (P := 2 ^ (g - 31 + 512)) in *. clearbody P. nia.
    + intros. replace (g - 31) with 0 in * by lia. simpl. rewrite Z.div_1_r. lia.
Qed.

Lemma BigFloat_ord_spec sz v :
  (0 < sz <= 8)%nat -> 0 < v < radix sz ->
  let x := BigFloat_ord sz v in
  bf_approx x v /\ m_Order x = Z.log2 v - 31 /\
  (0 <= m_Order x -> m_Value x = v / 2 ^ m_Order x) /\
  (m_Order x <= 0 -> m_Value x = v * 2 ^ (- m_Order x)).
Proof.
  intros Hs Hv. unfold BigFloat_ord.
  rewrite AssignOrdinal_eq by (rewrite ?length_replicate; lia). rewrite length_replicate.
  assert (be_val (be_bytes sz v) = v) as E by (rewrite be_val_be_bytes; apply Z.mod_small; lia).
  pose proof (BigFloat_of_spec (be_bytes sz v)) as H. rewrite length_be_bytes, E in H.
  apply H; [auto with grimm|lia|lia].
Qed.

(** The rounding steps of [Calculate], chained. *)
Section rounding.
Context (ref dt D va vt vd m val w mant A T Dd SS O J Kk : Z).
Context (Hpos : 0 < A /\ 0 < T /\ 0 < Dd /\ 0 < SS /\ 0 < O /\ 0 < J /\ 0 < Kk /\ 0 < vt /\ 0 < D)
  (Hva : 2 ^ 31 <= va) (Hvd : 2 ^ 31 <= vd) (Hm : 2 ^ 31 <= m) (Hval : 2 ^ 31 <= val)
  (Hw : 2 ^ 31 <= w)
  (Href : va * A <= ref * SS < (va + 1) * A) (Hdt : dt * SS = vt * T)
  (HD : vd * Dd <= D * SS < (vd + 1) * Dd) (Hmul : m * Kk <= va * vt < (m + 1) * Kk)
  (Hdiv : val * vd <= m * 2 ^ 32 < (val + 1) * vd) (Hnorm : w * J <= val < (w + 1) * J)
  (Hmant : mant * 128 <= w < (mant + 1) * 128)
  (Hexp : O * Dd * 2 ^ 25 * SS = J * Kk * (A * T)).

Lemma rounding_mant : 2 ^ 24 <= mant.
Proof. lia. Qed.

Lemma rounding_upper : D * (mant * O) * 2 ^ 31 <= ref * dt * (2 ^ 31 + 1).
Proof.
  pose proof rounding_mant.
  assert (mant * vd * (J * Kk) <= va * vt * 2 ^ 25) as H1.
  { assert (mant * 128 * J <= val) by nia.
    assert (mant * 128 * J * vd <= m * 2 ^ 32) by nia.
    assert (mant * 128 * J * vd * Kk <= va * vt * 2 ^ 32) by nia. lia. }
  assert (D * SS * 2 ^ 31 <= vd * Dd * (2 ^ 31 + 1)) as H2 by nia.
  assert (va * A * (vt * T) <= ref * SS * (dt * SS)) as H3 by (rewrite Hdt; nia).
  assert (D * SS * 2 ^ 31 * (mant * (O * 2 ^ 25 * SS))
          <= vd * Dd * (2 ^ 31 + 1) * (mant * (O * 2 ^ 25 * SS))) as H4.
  { apply Z.mul_le_mono_nonneg_r; [|done]. clear -Hpos H. nia. }
  assert (vd * Dd * (2 ^ 31 + 1) * (mant * (O * 2 ^ 25 * SS))
          = mant * vd * (J * Kk) * (A * T) * (2 ^ 31 + 1)) as H5.
  { transitivity (mant * vd * (2 ^ 31 + 1) * (O * Dd * 2 ^ 25 * SS)); [ring|].
    rewrite Hexp. ring. }
  assert (mant * vd * (J * Kk) * (A * T) <= va * vt * 2 ^ 25 * (A * T)) as H6.
  { apply Z.mul_le_mono_nonneg_r; [clear -Hpos; nia|done]. }
  apply (Z.mul_le_mono_pos_r _ _ (SS * SS * 2 ^ 25)); [clear -Hpos; nia|].
  transitivity (va * vt * 2 ^ 25 * (A * T) * (2 ^ 31 + 1)); [|clear -H3; lia].
  transitivity (D * SS * 2 ^ 31 * (mant * (O * 2 ^ 25 * SS))); [clear; lia|].
  rewrite H5 in H4. lia.
Qed.

Lemma rounding_lower : ref * dt * 2 ^ 23 <= D * (mant * O) * (2 ^ 23 + 1).
Proof.
  pose proof rounding_mant.
  assert (w * 2 ^ 24 <= mant * 128 * (2 ^ 24 + 1)) as H1 by lia.
  assert (val * 2 ^ 31 <= w * J * (2 ^ 31 + 1)) as H2 by nia.
  assert (m * 2 ^ 32 * 2 ^ 31 <= val * vd * (2 ^ 31 + 1)) as H3 by nia.
  assert (va * vt * 2 ^ 31 <= m * Kk * (2 ^ 31 + 1)) as H4 by nia.
  assert (ref * SS * 2 ^ 31 <= va * A * (2 ^ 31 + 1)) as H5 by nia.
  set (e := 2 ^ 31 + 1) in *. set (f := 2 ^ 24 + 1) in *.
  assert (0 < e /\ 0 < f) as [He Hf] by done.
  assert (val * (2 ^ 31 * 2 ^ 24) <= mant * J * (128 * (e * f))) as H12.
  { transitivity (w * 2 ^ 24 * (J * e)); [clear -H2; lia|].
    transitivity (mant * 128 * f * (J * e)); [|clear; lia].
    apply Z.mul_le_mono_nonneg_r; [clear -Hpos He; nia|done]. }
  assert (m * (2 ^ 32 * 2 ^ 31 * (2 ^ 31 * 2 ^ 24)) <= mant * J * vd * (128 * (e * e * f))) as H13.
  { transitivity (val * (2 ^ 31 * 2 ^ 24) * (vd * e)); [clear -H3; lia|].
    transitivity (mant * J * (128 * (e * f)) * (vd * e)); [|clear; lia].
    apply Z.mul_le_mono_nonneg_r; [clear -Hvd He; nia|done]. }
  assert (va * vt * (2 ^ 31 * (2 ^ 32 * 2 ^ 31 * (2 ^ 31 * 2 ^ 24)))
          <= mant * J * vd * Kk * (128 * (e * e * e * f))) as H14.
  { transitivity (m * (2 ^ 32 * 2 ^ 31 * (2 ^ 31 * 2 ^ 24)) * (Kk * e)); [clear -H4; lia|].
    transitivity (mant * J * vd * (128 * (e * e * f)) * (Kk * e)); [|clear; lia].
    apply Z.mul_le_mono_nonneg_r; [clear -Hpos He; nia|done]. }
  assert (ref * SS * (dt * SS) * (2 ^ 31 * (2 ^ 31 * (2 ^ 32 * 2 ^ 31 * (2 ^ 31 * 2 ^ 24))))
          <= mant * vd * (J * Kk * (A * T)) * (128 * (e * e * e * e * f))) as H15.
  { rewrite Hdt.
    transitivity (va * A * e * (vt * T) * (2 ^ 31 * (2 ^ 32 * 2 ^ 31 * (2 ^ 31 * 2 ^ 24)))).
    { transitivity (ref * SS * 2 ^ 31 * (vt * T * (2 ^ 31 * (2 ^ 32 * 2 ^ 31 * (2 ^ 31 * 2 ^ 24)))));
        [clear; lia|].
      transitivity (va * A * e * (vt * T * (2 ^ 31 * (2 ^ 32 * 2 ^ 31 * (2 ^ 31 * 2 ^ 24)))));
        [|clear; lia].
      apply Z.mul_le_mono_nonneg_r; [clear -Hpos; nia|done]. }
    transitivity (mant * J * vd * Kk * (128 * (e * e * e * f)) * (A * T * e)); [|clear; lia].
    transitivity (va * vt * (2 ^ 31 * (2 ^ 32 * 2 ^ 31 * (2 ^ 31 * 2 ^ 24))) * (A * T * e));
      [clear; lia|].
    apply Z.mul_le_mono_nonneg_r; [|done].
    assert (0 < A * T) by (clear -Hpos; nia). clear -He H0. nia. }
  rewrite <- Hexp in H15.
  assert (mant * vd * (O * Dd * 2 ^ 25 * SS) <= D * (mant * O) * (SS * SS * 2 ^ 25)) as H16.
  { transitivity (vd * Dd * (mant * O * 2 ^ 25 * SS)); [clear; lia|].
    transitivity (D * SS * (mant * O * 2 ^ 25 * SS)); [|clear; lia].
    apply Z.mul_le_mono_nonneg_r; [|lia].
    assert (0 < mant * O) by (clear -Hpos H; nia). clear -H0 Hpos. nia. }
  apply (Z.mul_le_mono_pos_r _ _ (SS * SS)); [clear -Hpos; nia|].
  assert (ref * SS * (dt * SS) * (2 ^ 31 * (2 ^ 31 * (2 ^ 32 * 2 ^ 31 * (2 ^ 31 * 2 ^ 24))))
    <= D * (mant * O) * (SS * SS * 2 ^ 25) * (128 * (e * e * e * e * f))) as H17.
  { etransitivity; [exact H15|]. apply Z.mul_le_mono_nonneg_r; [done|exact H16]. }
  assert (0 <= D * (mant * O) * (SS * SS)) as HX.
  { assert (0 < mant * O) by (clear -Hpos H; nia). assert (0 < SS * SS) by (clear -Hpos; nia).
    assert (0 < D) by lia. clear -H0 H6 H7. nia. }
  clear -H17 HX. unfold e, f in H17. lia.
Qed.
End rounding.

Lemma Pack_eq order mantissa :
  0 <= order <= s_MaxOrder -> 0 <= mantissa ->
  Pack order mantissa = order * 2 ^ 24 + mantissa mod 2 ^ 24.
Proof.
  intros Ho Hm. change s_MaxOrder with 231 in Ho. unfold Pack.
  rewrite (proj2 (Z.leb_le _ _)) by (change s_MaxOrder with 231; lia).
  unfold s_MantissaBits. change (u32 (Z.shiftl 1 24) - 1) with (Z.ones 24).
  rewrite Z.land_ones by lia.
  assert (Z.shiftl order 24 = order * 2 ^ 24) as Es by (by rewrite Z.shiftl_mul_pow2).
  rewrite wrap_small by (unfold in_width; lia).
  rewrite Z.lor_comm, <- add_shiftl_lor by (try lia; apply Z.mod_pos_bound; lia). lia.
Qed.

Lemma raw_val_Pack order mantissa :
  0 <= order <= s_MaxOrder -> 2 ^ 24 <= mantissa < 2 ^ 25 ->
  raw_val (Pack order mantissa) = mantissa * 2 ^ order.
Proof.
  intros Ho Hm. rewrite Pack_eq by lia. change s_MaxOrder with 231 in Ho.
  assert (mantissa mod 2 ^ 24 = mantissa - 2 ^ 24) as Em.
  { symmetry. apply (Z.mod_unique_pos _ _ 1); lia. }
  unfold raw_val. rewrite (proj2 (Z.ltb_lt _ _)) by (change s_Inf with (232 * 2 ^ 24); lia).
  rewrite Em.
  rewrite <- (Z.mod_unique_pos (order * 2 ^ 24 + (mantissa - 2 ^ 24)) (2 ^ 24) order (mantissa - 2 ^ 24)) by lia.
  rewrite <- (Z.div_unique_pos (order * 2 ^ 24 + (mantissa - 2 ^ 24)) (2 ^ 24) order (mantissa - 2 ^ 24)) by lia.
  f_equal. lia.
Qed.

(** A 64-bit value with bit [n] or [n + 1] on top. *)
Lemma BigFloat_norm v n :
  31 <= n <= 62 -> 2 ^ n <= v < 2 ^ (n + 2) ->
  exists j, (j = n - 31 \/ j = n - 30) /\
  BigFloat_ord 8 v = mkBigFloat j (v / 2 ^ j) /\ 2 ^ 31 <= v / 2 ^ j < 2 ^ 32.
Proof.
  intros Hn Hv. pose proof (pow2_gt0 n ltac:(lia)).
  assert (2 ^ (n + 2) <= 2 ^ 64) by (apply Z.pow_le_mono_r; lia).
  destruct (BigFloat_ord_spec 8 v ltac:(lia)) as ((Bv & Bo & _) & Eo & Ege & _).
  { change (radix 8) with (2 ^ 64). lia. }
  assert (n <= Z.log2 v) by (apply Z.log2_le_pow2; lia).
  assert (Z.log2 v < n + 2) by (apply Z.log2_lt_pow2; lia).
  destruct (BigFloat_ord 8 v) as [o x]. cbn [m_Order m_Value] in *.
  exists o. specialize (Ege ltac:(lia)). subst x. split; [lia|]. done.
Qed.

Definition round_div (v q d : Z) : Prop := q * d <= v < (q + 1) * d.

Lemma div_round v d : 0 < d -> round_div v (v / d) d.
Proof.
  intros Hd. pose proof (Z.div_mod v d ltac:(lia)). pose proof (Z.mod_pos_bound v d Hd).
  unfold round_div. nia.
Qed.

(** [Calculate] before packing: a 32-bit value and an order, within the rounding
    of the exact ratio. *)
Lemma Calculate_core ref dh dtTrg dtSrc :
  raw_ok ref -> 0 < be_val ref -> 0 < dtTrg < 2 ^ 32 -> 0 < dtSrc < 2 ^ 32 -> 0 < dh < 2 ^ 32 ->
  let N := be_val ref * dtTrg in
  let D := dtSrc * dh in
  exists order mant,
    Calculate ref dh dtTrg dtSrc = Some (if 0 <=? order then Pack order mant else 0) /\
    2 ^ 24 <= mant < 2 ^ 25 /\ -512 <= order /\
    D * (mant * 2 ^ (order + 512)) * 2 ^ 31 <= N * 2 ^ 512 * (2 ^ 31 + 1) /\
    N * 2 ^ 512 * 2 ^ 23 <= D * (mant * 2 ^ (order + 512)) * (2 ^ 23 + 1).
Proof.
  intros [Hb Hl] Href Ht Hs Hh N D. unfold Calculate.
  assert (0 < D < 2 ^ 64) as HD by (unfold D; clear -Hs Hh; nia).
  fold D. rewrite (wrap_small 64) by (unfold in_width; lia).
  destruct (BigFloat_of_spec ref Hb) as (Ra & Roa & _); [rewrite Hl; done|done|].
  destruct (BigFloat_ord_spec 4 dtTrg) as (Rt & Rot & _ & Ret); [lia|by change (radix 4) with (2 ^ 32)|].
  destruct (BigFloat_ord_spec 8 D) as (Rd & Rod & _ & _); [lia|by change (radix 8) with (2 ^ 64)|].
  destruct (BigFloat_of ref) as [oa va], (BigFloat_ord 4 dtTrg) as [ot vt],
    (BigFloat_ord 8 D) as [od vd]. unfold bf_approx in *. cbn [m_Order m_Value] in *.
  destruct Ra as (Bva & Boa & Aa), Rt as (Bvt & Bot & At), Rd as (Bvd & Bod & Ad).
  assert (Z.log2 dtTrg < 32) by (apply Z.log2_lt_pow2; lia).
  assert (Z.log2 D < 64) by (apply Z.log2_lt_pow2; lia).
  specialize (Ret ltac:(lia)).
  unfold BigFloat_mul, BigFloat_div. cbn [m_Order m_Value].
  assert (2 ^ 62 <= va * vt < 2 ^ 64) as Bp.
  { clear -Bva Bvt. split; [change (2 ^ 62) with (2 ^ 31 * 2 ^ 31); apply Z.mul_le_mono_nonneg; lia|].
    change (2 ^ 64) with (2 ^ 32 * 2 ^ 32). apply Z.mul_lt_mono_nonneg; lia. }
  rewrite (wrap_small 64 (va * vt)) by (unfold in_width; clear -Bp; lia).
  destruct (BigFloat_norm (va * vt) 62) as (k & Hk & -> & Bm); [lia|done|].
  cbn [m_Order m_Value].
  assert (round_div (va * vt) (va * vt / 2 ^ k) (2 ^ k)) as Rm
    by (apply div_round, pow2_gt0; clear -Hk; lia).
  set (m := va * vt / 2 ^ k) in *. clearbody m.
  rewrite (swrap_small 32 (k + (oa + ot))) by (clear -Hk Boa Bot; simpl; lia).
  rewrite (proj2 (Z.eqb_neq vd 0)) by (clear -Bvd; lia).
  unfold BigFloat_nBits. rewrite Z.shiftl_mul_pow2 by lia.
  rewrite (wrap_small 64) by (unfold in_width; clear -Bm; lia).
  pose proof (div_round (m * 2 ^ 32) vd ltac:(clear -Bvd; lia)) as Rv.
  set (val := m * 2 ^ 32 / vd) in *. clearbody val.
  assert (2 ^ 31 <= val < 2 ^ 33) as Bval by (clear -Bvd Bm Rv; unfold round_div in Rv; nia).
  destruct (BigFloat_norm val 31) as (j & Hj & -> & Bw); [lia|done|].
  assert (round_div val (val / 2 ^ j) (2 ^ j)) as Rw
    by (apply div_round, pow2_gt0; clear -Hj; lia).
  set (w := val / 2 ^ j) in *. clearbody w. cbn [m_Order m_Value option_bind mbind].
  rewrite (swrap_small 32 (j + _)) by (clear -Hk Hj Boa Bot Bod; simpl; lia).
  rewrite (proj2 (Z.eqb_neq w 0)) by (clear -Bw; lia). unfold s_MantissaBits.
  rewrite (swrap_small 32) by (clear -Hk Hj Boa Bot Bod; simpl; lia).
  change (32 - 1 - 24) with 7. rewrite Z.shiftr_div_pow2 by lia.
  pose proof (div_round w (2 ^ 7) ltac:(lia)) as Rma.
  set (mant := w / 2 ^ 7) in *. clearbody mant.
  set (order := j + (k + (oa + ot) - (od + 32)) + 7).
  exists order, mant. split; [by destruct (0 <=? order)|].
  split; [clear -Rma Bw; unfold round_div in Rma; lia|].
  split; [clear -Hk Hj Boa Bot Bod; unfold order; lia|].
  assert (dtTrg * 2 ^ bf_scale = vt * 2 ^ (ot + bf_scale)) as Et.
  { rewrite Ret. unfold bf_scale. rewrite <- Z.mul_assoc, <- Z.pow_add_r by lia. f_equal. f_equal. lia. }
  assert (2 ^ (order + 512) * 2 ^ (od + bf_scale) * 2 ^ 25 * 2 ^ bf_scale
          = 2 ^ j * 2 ^ k * (2 ^ (oa + bf_scale) * 2 ^ 512 * 2 ^ (ot + bf_scale))) as Ee.
  { unfold bf_scale, order. rewrite <- !Z.pow_add_r by lia. f_equal. lia. }
  assert (0 < 2 ^ (oa + bf_scale) * 2 ^ 512 /\ 0 < 2 ^ (ot + bf_scale) /\ 0 < 2 ^ (od + bf_scale) /\
          0 < 2 ^ bf_scale /\ 0 < 2 ^ (order + 512) /\ 0 < 2 ^ j /\ 0 < 2 ^ k /\ 0 < vt /\ 0 < D) as Hpos.
  { assert (0 < 2 ^ (oa + bf_scale)) by (apply pow2_gt0; unfold bf_scale; lia).
    assert (0 < 2 ^ 512) by (by apply pow2_gt0).
    split; [by apply Z.mul_pos_pos|].
    repeat split; try (apply pow2_gt0; unfold bf_scale; lia); lia. }
  unfold bf_round, round_div in *.
  assert (va * (2 ^ (oa + bf_scale) * 2 ^ 512) <= be_val ref * 2 ^ 512 * 2 ^ bf_scale
          < (va + 1) * (2 ^ (oa + bf_scale) * 2 ^ 512)) as Aa'.
  { assert (0 < 2 ^ 512) by (by apply pow2_gt0).
    set (P := 2 ^ 512) in *. set (X := 2 ^ (oa + bf_scale)) in *. set (Y := 2 ^ bf_scale) in *.
    clearbody P X Y. clear -Aa H1. nia. }
  assert (N * 2 ^ 512 = be_val ref * 2 ^ 512 * dtTrg) as -> by (unfold N; ring).
  clearbody order D. clear N.
  split.
  - eapply (rounding_upper _ _ _ va vt vd m val w mant); try exact Hpos; try exact Ee;
      try exact Aa'; try exact Ad; try done; lia.
  - eapply (rounding_lower _ _ _ va vt vd m val w mant); try exact Hpos; try exact Ee;
      try exact Aa'; try exact Ad; try done; lia.
Qed.

(** * The properties of difficulties *)

Lemma Calculate_accurate ref dh dtTrg dtSrc :
  raw_ok ref -> 0 < be_val ref -> 0 < dtTrg < 2 ^ 32 -> 0 < dtSrc < 2 ^ 32 -> 0 < dh < 2 ^ 32 ->
  let N := be_val ref * dtTrg in
  let D := dtSrc * dh in
  exists p, Calculate ref dh dtTrg dtSrc = Some p /\
    (2 ^ 25 * D <= N < 2 ^ 255 * D ->
       p < s_Inf /\ D * raw_val p * 2 ^ 31 <= N * (2 ^ 31 + 1) /\
       N * 2 ^ 23 <= D * raw_val p * (2 ^ 23 + 1)) /\
    (2 ^ 257 * D <= N -> p = s_Inf) /\ (N < 2 ^ 23 * D -> p = 0).
Proof.
  intros Hr H1 H2 H3 H4 N D.
  destruct (Calculate_core ref dh dtTrg dtSrc Hr H1 H2 H3 H4) as (o & mant & -> & Hm & Ho & Hu & Hl).
  fold N D in Hu, Hl. assert (0 < D) as HD by (unfold D; clear -H3 H4; nia).
  clearbody N D. clear -HD Hm Ho Hu Hl. eexists. split; [reflexivity|].
  destruct (Z.leb_spec 0 o) as [Hpos|Hneg].
  - rewrite Z.pow_add_r in Hu, Hl by lia.
    pose proof (pow2_gt0 o Hpos) as HP. set (P := 2 ^ o) in *.
    assert (D * (mant * P) * 2 ^ 31 <= N * (2 ^ 31 + 1)) as Hu' by (clear -Hu; lia).
    assert (N * 2 ^ 23 <= D * (mant * P) * (2 ^ 23 + 1)) as Hl' by (clear -Hl; lia).
    clear Hu Hl. assert (0 < D * mant) by (clear -HD Hm; nia).
    destruct (Z.le_gt_cases o 231) as [Hle|Hgt].
    + rewrite raw_val_Pack by (change s_MaxOrder with 231; lia). fold P.
      assert (P <= 2 ^ 231) as HP1 by (apply Z.pow_le_mono_r; lia).
      split; [intros _; split; [|done]|split; intros Hb].
      * rewrite Pack_eq by (change s_MaxOrder with 231; lia).
        pose proof (Z.mod_pos_bound mant (2 ^ 24)). change s_Inf with (232 * 2 ^ 24). lia.
      * assert (mant * P < 2 ^ 256) as HmP by (clear -Hm HP HP1; nia).
        assert (D * (mant * P) < D * 2 ^ 256) by (clear -HD HmP; nia). lia.
      * assert (2 ^ 24 <= mant * P) as HmP by (clear -Hm HP; nia).
        assert (D * 2 ^ 24 <= D * (mant * P)) by (clear -HD HmP; nia). lia.
    + assert (Pack o mant = s_Inf) as ->.
      { unfold Pack. rewrite (proj2 (Z.leb_gt _ _)); [done|]. change s_MaxOrder with 231. lia. }
      assert (2 ^ 232 <= P) as HP1 by (apply Z.pow_le_mono_r; lia).
      assert (2 ^ 256 <= mant * P) as HmP.
      { change (2 ^ 256) with (2 ^ 24 * 2 ^ 232). clear -Hm HP1. nia. }
      assert (D * 2 ^ 256 <= D * (mant * P)) by (clear -HD HmP; nia).
      split; [|split]; intros; [exfalso; lia|done|exfalso; lia].
  - assert (2 ^ (o + 512) <= 2 ^ 511) as HP by (apply Z.pow_le_mono_r; lia).
    pose proof (pow2_gt0 (o + 512) ltac:(lia)) as HP0. set (P := 2 ^ (o + 512)) in *.
    assert (mant * P <= 2 ^ 25 * 2 ^ 511) as HmP by (clear -Hm HP HP0; nia).
    assert (D * (mant * P) <= D * (2 ^ 25 * 2 ^ 511)) as HDm by (clear -HD HmP; nia).
    assert (N * 2 ^ 512 * 2 ^ 23 <= D * (2 ^ 25 * 2 ^ 511) * (2 ^ 23 + 1)) as HN by (clear -Hl HDm; lia).
    assert (N < 2 ^ 25 * D) by (clear -HN HD; lia).
    split; [|split]; intros; [exfalso; lia|exfalso; lia|done].
Qed.

(** C35: The retarget formula: for a non-zero chainwork delta and window, the
    new difficulty denotes [ref * dtTrg / (dtSrc * dh)] within one part in [2^23]
    below and one part in [2^31] above, whenever that ratio is between [2^25] and
    [2^255]; a ratio of [2^257] or more saturates to infinity and one below [2^23]
    gives the minimal difficulty. *)
Theorem difficulty_Calculate_accurate ref dh dtTrg dtSrc :
  raw_ok ref -> 0 < be_val ref -> 0 < dtTrg < 2 ^ 32 -> 0 < dtSrc < 2 ^ 32 -> 0 < dh < 2 ^ 32 ->
  let N := be_val ref * dtTrg in
  let D := dtSrc * dh in
  exists p, Calculate ref dh dtTrg dtSrc = Some p /\
    (2 ^ 25 * D <= N < 2 ^ 255 * D ->
       p < s_Inf /\ D * raw_val p * 2 ^ 31 <= N * (2 ^ 31 + 1) /\
       N * 2 ^ 23 <= D * raw_val p * (2 ^ 23 + 1)) /\
    (2 ^ 257 * D <= N -> p = s_Inf) /\ (N < 2 ^ 23 * D -> p = 0).
Proof. exact (Calculate_accurate ref dh dtTrg dtSrc). Qed.

Lemma difficulty_Calculate_accurate_witness :
  exists p, Calculate (be_bytes 32 (2 ^ 40 + 12345)) 60 3600 4000 = Some p /\ p < s_Inf.
Proof.
  destruct (difficulty_Calculate_accurate (be_bytes 32 (2 ^ 40 + 12345)) 60 3600 4000)
    as (p & E & H & _); [split; [auto with grimm|done]|done|lia|lia|lia|].
  exists p. split; [exact E|]. apply H. vm_compute. split; congruence.
Defined.

(** Proof-of-work acceptance agrees with the target handed to miners:
    [IsTargetReached] holds exactly for the hash values not above
    [get_Target], for every packed difficulty up to infinity; above infinity
    both refuse. *)
Theorem IsTargetReached_iff_below_target p hv :
  0 <= p -> raw_ok hv ->
  (p <= s_Inf -> IsTargetReached p hv = true <-> be_val hv <= be_val (get_Target p).1) /\
  (s_Inf < p -> IsTargetReached p hv = false /\ (get_Target p).2 = false).
Proof.
  intros Hp Hr. split; intros Hi.
  - rewrite IsTargetReached_spec by done.
    destruct (get_Target_spec p) as (_ & _ & ->); [lia|].
    pose proof (raw_val_bounds p Hp). destruct Hr as [Hb Hl].
    pose proof (be_val_bound hv Hb) as B. rewrite Hl, radix32 in B.
    split.
    + intros [_ Hlt]. apply Z.min_glb; [|lia]. apply Z.div_le_lower_bound; [lia|]. lia.
    + intros Hle. split; [done|]. apply Z.min_glb_l in Hle.
      pose proof (Z.mul_div_le (2 ^ 280 - 1) (raw_val p) ltac:(lia)). nia.
  - unfold IsTargetReached, get_Target. by rewrite (proj2 (Z.ltb_lt _ _) Hi).
Qed.

Lemma IsTargetReached_iff_below_target_witness :
  IsTargetReached (Pack 3 (2 ^ 24 + 5)) (be_bytes 32 (2 ^ 200)) = true
  <-> be_val (be_bytes 32 (2 ^ 200)) <= be_val (get_Target (Pack 3 (2 ^ 24 + 5))).1.
Proof.
  apply IsTargetReached_iff_below_target; [done|split; [auto with grimm|done]|done].
Defined.

(** Packing: [Pack] inverts [Unpack], the unpacked number is the mantissa
    (with its implied leading one) shifted by the order, and the packed words are
    ordered as the numbers they denote, up to infinity. *)
Theorem difficulty_pack_unpack p1 p2 :
  0 <= p1 < p2 -> p1 < s_Inf ->
  (let '(order, mantissa) := Unpack_parts p1 in
   Pack order mantissa = p1 /\ be_val (Unpack p1) = mantissa * 2 ^ order) /\
  be_val (Unpack p1) < be_val (Unpack p2).
Proof.
  intros Hp Hi. rewrite Unpack_parts_eq by lia.
  assert (0 <= p1 / 2 ^ 24 <= 231).
  { split; [apply Z.div_pos; lia|]. apply Z.lt_succ_r, Z.div_lt_upper_bound; [lia|].
    change s_Inf with (2 ^ 24 * 232) in Hi. lia. }
  pose proof (Z.mod_pos_bound p1 (2 ^ 24)) as Hm. pose proof (Z.div_mod p1 (2 ^ 24)).
  rewrite (proj2 (Unpack_spec p1 ltac:(lia))), (proj2 (Unpack_spec p2 ltac:(lia))). split; [split|by apply raw_val_mono].
  - rewrite Pack_eq by (change s_MaxOrder with 231; lia).
    rewrite <- (Z.mod_unique_pos (2 ^ 24 + p1 mod 2 ^ 24) (2 ^ 24) 1 (p1 mod 2 ^ 24)) by lia. lia.
  - unfold raw_val. by rewrite (proj2 (Z.ltb_lt _ _) Hi).
Qed.

Lemma difficulty_pack_unpack_witness : be_val (Unpack 0x3000005) < be_val (Unpack 0x4000001).
Proof. apply (difficulty_pack_unpack 0x3000005 0x4000001); done. Defined.

(** Chainwork bookkeeping: [operator +=] adds the unpacked difficulty, the
    two addition operators agree, and [operator -=] undoes [operator +=] even when
    the 256-bit total wraps around. *)
Theorem chainwork_add_sub r p :
  0 <= p -> raw_ok r ->
  be_val (raw_add_assign r p) = (be_val r + raw_val p) mod 2 ^ 256 /\
  raw_add r p = raw_add_assign r p /\ raw_sub_assign (raw_add_assign r p) p = r.
Proof.
  intros Hp Hr. destruct (raw_add_assign_spec r p Hp Hr) as [Ho E].
  destruct (raw_sub_assign_spec _ p Hp Ho) as [[Sb Sl] Es].
  destruct (Unpack_spec p Hp) as [[Ub Ul] Eu]. pose proof Hr as [Hb Hl].
  split; [done|]. split.
  - destruct Ho as [Ob Ol]. apply be_val_inj; [|done| |].
    + unfold raw_add. pose proof (_Inc_any_spec (Unpack p) r Ub Hb) as H.
      destruct (_Inc_any _ _). by destruct H.
    + unfold raw_add. pose proof (_Inc_any_spec (Unpack p) r Ub Hb) as H.
      destruct (_Inc_any _ _) as [x c]. cbn [fst]. rewrite Ol, <- Ul. by destruct H as (_ & ? & _).
    + rewrite E. unfold raw_add. pose proof (_Inc_any_spec (Unpack p) r Ub Hb) as H.
      destruct (_Inc_any _ _) as [x c]. destruct H as (Bx & Lx & Hc & Ex). cbn [fst].
      pose proof (be_val_bound x Bx) as B1. pose proof (be_val_bound r Hb) as B2.
      rewrite Lx, Ul, radix32 in B1. rewrite Hl, radix32 in B2.
      rewrite Ul, radix32, Eu, (Z.mod_small (be_val r)) in Ex by lia.
      apply (Z.mod_unique_pos _ _ c); lia.
  - apply be_val_inj; [done|done|congruence|]. rewrite Es, E, Zminus_mod_idemp_l.
    pose proof (be_val_bound r Hb) as B2. rewrite Hl, radix32 in B2.
    rewrite Z.add_simpl_r. by apply Z.mod_small.
Qed.

Lemma chainwork_add_sub_witness :
  raw_sub_assign (raw_add_assign (be_bytes 32 (2 ^ 256 - 3)) 0x5000123) 0x5000123
    = be_bytes 32 (2 ^ 256 - 3).
Proof. apply chainwork_add_sub; [lia|split; [auto with grimm|done]]. Defined.
