(* ===== verification/Merkle.v ===== *)
(** Merkle mountain ranges: [core/merkle.h], [core/merkle.cpp].

    The hash function ([ECC::Hash::Processor], SHA-256 of the concatenation) is
    a parameter [hash2].  [Mmr] is modelled over an interface for its virtual
    [LoadElement] / [SaveElement]; [FixedMmmr] implements it by a flat array,
    [FlyMmr] recomputes elements, [CompactMmr] keeps the peaks only.  The
    specification [range_hash] is the tree hash of a list of leaves: a range is
    split at the largest power of two below its length. *)

From S2P Require Import Prelude.

(** A position in the forest: height and index at this height. *)
Record Position := mkPos { pos_H : nat; pos_X : Z }.

Global Instance Position_eq_dec : EqDecision Position.
Proof. solve_decision. Defined.

(** The virtual functions of [Mmr].  [ok] is the set of positions an
    implementation can hold. *)
Class MmrStorage (Hash S : Type) := {
  LoadElement : S -> Position -> Hash;
  SaveElement : Hash -> Position -> S -> S;
  storage_ok : S -> Position -> Prop
}.

Class MmrStorageLaws (Hash S : Type) `{MmrStorage Hash S} := {
  load_save_eq s h p : storage_ok s p -> LoadElement (SaveElement h p s) p = h;
  load_save_ne s h p q :
    storage_ok s p -> storage_ok s q -> p <> q ->
    LoadElement (SaveElement h p s) q = LoadElement s q;
  storage_ok_save s h p q : storage_ok (SaveElement h p s) q <-> storage_ok s q
}.

(** A 64-bit counter is exhausted after 64 shifts. *)
Definition u64_bits : nat := 64.

Section merkle.
Context {Hash : Type} (hash2 : Hash -> Hash -> Hash) (hzero : Hash).

Definition Node : Type := bool * Hash.
Definition Proof_t := list Node.
Definition HardProof := list Hash.

Definition Interpret_new (hOld hNew : Hash) (bNewOnRight : bool) : Hash :=
  if bNewOnRight then hash2 hOld hNew else hash2 hNew hOld.

Definition Interpret_node (hash : Hash) (n : Node) : Hash :=
  Interpret_new hash n.2 n.1.

Definition Interpret (hash : Hash) (p : Proof_t) : Hash := foldl Interpret_node hash p.

(** ** [Mmr] *)
Section append.
Context {S : Type} `{MmrStorage Hash S}.

Fixpoint Append_loop (fuel : nat) (s : S) (hv1 : Hash) (h : nat) (X : Z) : S :=
  match fuel with
  | O => s
  | Datatypes.S fuel =>
      let s := SaveElement hv1 (mkPos h X) s in
      if negb (Z.odd X) then s
      else
        let X := Z.lxor X 1 in
        let hv0 := LoadElement s (mkPos h X) in
        Append_loop fuel s (Interpret_new hv1 hv0 false) (Datatypes.S h) (Z.shiftr X 1)
  end.

(** The state of an [Mmr] is [m_Count] and its storage. *)
Definition Append (m : Z * S) (hv : Hash) : Z * S :=
  let '(m_Count, s) := m in
  (u64 (m_Count + 1), Append_loop (Datatypes.S u64_bits) s hv 0 m_Count).
End append.

(** Queries only read the storage, through [load]. *)
Section queries.
Context (load : Position -> Hash).

Fixpoint PredictedHash_loop (fuel : nat) (hv : Hash) (h : nat) (X : Z) : Hash :=
  match fuel with
  | O => hv
  | S fuel =>
      if X =? 0 then hv
      else if Z.odd X then
        let X := Z.lxor X 1 in
        PredictedHash_loop fuel (Interpret_new hv (load (mkPos h X)) false) (S h) (Z.shiftr X 1)
      else PredictedHash_loop fuel hv (S h) (Z.shiftr X 1)
  end.

Definition get_PredictedHash (m_Count : Z) (hvAppend : Hash) : Hash :=
  PredictedHash_loop u64_bits hvAppend 0 m_Count.

(** [None] is [bEmpty]. *)
Fixpoint HashForRange_loop (fuel : nat) (hv : option Hash) (h : nat) (n0 n : Z)
  : option Hash :=
  match fuel with
  | O => hv
  | S fuel =>
      if n =? 0 then hv
      else
        let hv :=
          if Z.odd n then
            let hv0 := load (mkPos h (Z.lxor (n0 + n) 1)) in
            match hv with
            | None => Some hv0
            | Some hv => Some (Interpret_new hv hv0 false)
            end
          else hv in
        HashForRange_loop fuel hv (S h) (Z.shiftr n0 1) (Z.shiftr n 1)
  end.

Definition get_HashForRange (n0 n : Z) : option Hash :=
  HashForRange_loop u64_bits None 0 n0 n.

Definition get_Hash (m_Count : Z) : Hash := default hzero (get_HashForRange 0 m_Count).

(** [get_Proof] feeds the nodes to an [IProofBuilder]; [AppendNode] returns
    [false] to stop. *)
Section proof_builder.
Context {B : Type} (AppendNode : B -> Node -> Position -> B * bool).

Fixpoint get_Proof_loop (fuel : nat) (m_Count : Z) (bld : B) (h : nat) (n i : Z)
  : B * bool :=
  match fuel with
  | O => (bld, true)
  | S fuel =>
      if n =? 0 then (bld, true)
      else
        let next := fun bld => get_Proof_loop fuel m_Count bld (S h) (Z.shiftr n 1) (Z.shiftr i 1) in
        let first := negb (Z.odd i) in
        let X := Z.lxor i 1 in
        let n0 := u64 (Z.shiftl X (Z.of_nat h)) in
        if first && (m_Count <=? n0) then next bld (* continue *)
        else
          let nRemaining := m_Count - n0 in
          let second :=
            if first && (Z.shiftr nRemaining (Z.of_nat h) =? 0)
            then default hzero (get_HashForRange n0 nRemaining)
            else load (mkPos h X) in
          let '(bld, ok) := AppendNode bld (first, second) (mkPos h X) in
          if ok then next bld else (bld, false)
  end.

Definition get_Proof (m_Count : Z) (bld : B) (i : Z) : B * bool :=
  get_Proof_loop u64_bits m_Count bld 0 m_Count i.
End proof_builder.
End queries.

(** [ProofBuilderStd] and [ProofBuilderHard]. *)
Definition AppendNode_std (p : Proof_t) (n : Node) (_ : Position) : Proof_t * bool :=
  (p ++ [n], true).
Definition AppendNode_hard (p : HardProof) (n : Node) (_ : Position) : HardProof * bool :=
  (p ++ [n.2], true).

(** The [Verifier] of [Block::SystemState::Full::IsValidProofState]: the proof is
    consumed along the structure that [get_Proof] dictates. *)
Definition InterpretOnce (st : Hash * HardProof) (bOnRight : bool)
  : (Hash * HardProof) * bool :=
  match st.2 with
  | [] => (st, false)
  | x :: rest => ((Interpret_new st.1 x bOnRight, rest), true)
  end.

Definition AppendNode_verify (st : Hash * HardProof) (n : Node) (_ : Position)
  : (Hash * HardProof) * bool := InterpretOnce st n.1.

(** ** [CompactMmr]: the peaks, in top-down order *)
Record CompactMmr := mkCompact { c_Count : Z; c_vNodes : list Hash }.

Definition Compact_get_Hash (c : CompactMmr) : Hash :=
  match rev (c_vNodes c) with
  | [] => hzero
  | hv :: rest => foldl (fun hv n => Interpret_new hv n false) hv rest
  end.

Fixpoint Compact_Predicted_loop (fuel : nat) (nodes : list Hash) (hv : Hash) (n : Z) : Hash :=
  match fuel with
  | O => hv
  | S fuel =>
      if n =? 0 then hv
      else if Z.odd n then
        match nodes with
        | [] => hv
        | x :: nodes =>
            Compact_Predicted_loop fuel nodes (Interpret_new hv x false) (Z.shiftr n 1)
        end
      else Compact_Predicted_loop fuel nodes hv (Z.shiftr n 1)
  end.

Definition Compact_get_PredictedHash (c : CompactMmr) (hvAppend : Hash) : Hash :=
  Compact_Predicted_loop u64_bits (rev (c_vNodes c)) hvAppend (c_Count c).

(** The vector is popped from its end: [nodes] is [m_vNodes] reversed. *)
Fixpoint Compact_Append_loop (fuel : nat) (nodes : list Hash) (hv1 : Hash) (n : Z)
  : list Hash * Hash :=
  match fuel with
  | O => (nodes, hv1)
  | S fuel =>
      if negb (Z.odd n) then (nodes, hv1)
      else match nodes with
           | [] => (nodes, hv1)
           | x :: nodes =>
               Compact_Append_loop fuel nodes (Interpret_new hv1 x false) (Z.shiftr n 1)
           end
  end.

Definition Compact_Append (c : CompactMmr) (hv : Hash) : CompactMmr :=
  let '(nodes, hv1) :=
    Compact_Append_loop (S u64_bits) (rev (c_vNodes c)) hv (c_Count c) in
  mkCompact (u64 (c_Count c + 1)) (rev nodes ++ [hv1]).

(** ** [FlyMmr]: elements recomputed on the fly *)
Fixpoint Calculate (leaf : Z -> Hash) (h : nat) (X : Z) : Hash :=
  match h with
  | O => leaf X
  | S h =>
      let hv := Calculate leaf h (Z.shiftl X 1) in
      let hv2 := Calculate leaf h (Z.shiftl X 1 + 1) in
      Interpret_new hv hv2 true
  end.

Definition Fly_load (leaf : Z -> Hash) (p : Position) : Hash :=
  Calculate leaf (pos_H p) (pos_X p).

Definition Fly_get_Hash (leaf : Z -> Hash) (m_Count : Z) : Hash :=
  get_Hash (Fly_load leaf) m_Count.

Definition Fly_get_Proof {B} (leaf : Z -> Hash) AppendNode (m_Count : Z) (bld : B) (i : Z) :=
  get_Proof (Fly_load leaf) AppendNode m_Count bld i.

(** ** The specification *)
Fixpoint range_hash (leaf : Z -> Hash) (h : nat) (a b : Z) : Hash :=
  match h with
  | O => leaf a
  | S h =>
      let m := a + 2 ^ Z.of_nat h in
      if b <=? m then range_hash leaf h a b
      else hash2 (range_hash leaf h a m) (range_hash leaf h m b)
  end.

Definition root_hash (leaf : Z -> Hash) (n : Z) : Hash :=
  if n =? 0 then hzero else range_hash leaf u64_bits 0 n.

(** ** [FixedMmmr]: a flat array, one row per height *)
Record FixedMmmr := mkFixed { m_vHashes : list Hash; m_Total : Z }.

Fixpoint Reset_size (fuel : nat) (nHashes nTotal : Z) : Z :=
  match fuel with
  | O => nHashes
  | S fuel =>
      let nTotal := Z.shiftr nTotal 1 in
      if nTotal =? 0 then nHashes else Reset_size fuel (nHashes + nTotal) nTotal
  end.

(** [std::vector::resize] keeps the common prefix; new hashes are [hzero]. *)
Definition Reset (f : FixedMmmr) (nTotal : Z) : FixedMmmr :=
  let n := Z.to_nat (Reset_size u64_bits nTotal nTotal) in
  mkFixed (resize n hzero (m_vHashes f)) nTotal.

Definition Pos2Idx (m_Total : Z) (p : Position) : Z :=
  (for_up (pos_H p) (fun _ '(ret, nTotal) => (ret + nTotal, Z.shiftr nTotal 1))
     (pos_X p, m_Total)).1.

#[global] Instance Fixed_storage : MmrStorage Hash FixedMmmr := {
  LoadElement f p := default hzero (m_vHashes f !! Z.to_nat (Pos2Idx (m_Total f) p));
  SaveElement hv p f :=
    mkFixed (<[Z.to_nat (Pos2Idx (m_Total f) p) := hv]> (m_vHashes f)) (m_Total f);
  storage_ok f p :=
    0 <= pos_X p < Z.shiftr (m_Total f) (Z.of_nat (pos_H p)) /\ 0 <= m_Total f < 2 ^ 62 /\
    Z.of_nat (length (m_vHashes f)) = Reset_size u64_bits (m_Total f) (m_Total f)
}.
End merkle.

(** * Facts *)
Lemma odd_decomp x : x = 2 * (x / 2) + (if Z.odd x then 1 else 0).
Proof. rewrite <- Zmod_odd. apply Z.div_mod. lia. Qed.

Lemma lxor1 x : Z.lxor x 1 = 2 * (x / 2) + (if Z.odd x then 0 else 1).
Proof.
  rewrite (odd_decomp x) at 1.
  pose proof (lxor_concat (x / 2) 0 (if Z.odd x then 1 else 0) 1 1 ltac:(lia)
    ltac:(destruct (Z.odd x); lia) ltac:(lia)) as E.
  rewrite Z.lxor_0_r, Z.mul_0_l, Z.add_0_l, Z.pow_1_r in E.
  rewrite (Z.mul_comm 2 (x / 2)), E. by destruct (Z.odd x).
Qed.

Lemma lxor1_odd x : Z.odd x = true -> Z.lxor x 1 = x - 1.
Proof. intros Ho. rewrite lxor1. pose proof (odd_decomp x). rewrite Ho in *. lia. Qed.

Lemma lxor1_even x : Z.odd x = false -> Z.lxor x 1 = x + 1.
Proof. intros Ho. rewrite lxor1. pose proof (odd_decomp x). rewrite Ho in *. lia. Qed.

Lemma shiftr1 x : Z.shiftr x 1 = x / 2.
Proof. by rewrite Z.shiftr_div_pow2. Qed.

Lemma div_pow2_S n h : n / 2 ^ Z.of_nat (S h) = n / 2 ^ Z.of_nat h / 2.
Proof.
  rewrite Nat2Z.inj_succ, Z.pow_succ_r by lia.
  rewrite Z.div_div by (try apply Z.pow_pos_nonneg; lia). f_equal. lia.
Qed.

Lemma pow2_S h : 2 ^ Z.of_nat (S h) = 2 * 2 ^ Z.of_nat h.
Proof. rewrite Nat2Z.inj_succ, Z.pow_succ_r; lia. Qed.

Lemma pow2_pos h : 0 < 2 ^ Z.of_nat h.
Proof. apply Z.pow_pos_nonneg; lia. Qed.

Lemma lxor1_shiftr1 x : Z.shiftr (Z.lxor x 1) 1 = x / 2.
Proof.
  rewrite shiftr1. pose proof (odd_decomp x) as E. destruct (Z.odd x) eqn:Ho.
  - rewrite lxor1_odd by done. symmetry. apply (Z.div_unique_pos _ _ _ 0); lia.
  - rewrite lxor1_even by done. symmetry. apply (Z.div_unique_pos _ _ _ 1); lia.
Qed.

Section facts.
Context {Hash : Type} (hash2 : Hash -> Hash -> Hash) (hzero : Hash).
Implicit Types (leaf : Z -> Hash) (load : Position -> Hash).

Lemma range_hash_ext leaf1 leaf2 h a b :
  a < b -> (forall i, a <= i < b -> leaf1 i = leaf2 i) ->
  range_hash hash2 leaf1 h a b = range_hash hash2 leaf2 h a b.
Proof.
  revert a b. induction h as [|h IH]; intros a b Hab Hl; simpl; [apply Hl; lia|].
  pose proof (pow2_pos h). destruct (Z.leb_spec b (a + 2 ^ Z.of_nat h)).
  - apply IH; auto.
  - f_equal; apply IH; try lia; intros; apply Hl; lia.
Qed.

Lemma range_hash_up leaf h k a b :
  b - a <= 2 ^ Z.of_nat h -> (h <= k)%nat ->
  range_hash hash2 leaf k a b = range_hash hash2 leaf h a b.
Proof.
  intros Hb Hk. induction Hk as [|k Hk IH]; [done|]. simpl.
  rewrite (proj2 (Z.leb_le _ _)); [done|].
  pose proof (Z.pow_le_mono_r 2 (Z.of_nat h) (Z.of_nat k)). lia.
Qed.

Lemma range_hash_split leaf h a b :
  a + 2 ^ Z.of_nat h < b ->
  range_hash hash2 leaf (S h) a b
    = hash2 (range_hash hash2 leaf h a (a + 2 ^ Z.of_nat h))
            (range_hash hash2 leaf h (a + 2 ^ Z.of_nat h) b).
Proof. intros. simpl. by rewrite (proj2 (Z.leb_gt _ _)) by lia. Qed.

(** A complete subtree. *)
Lemma Calculate_range leaf h X :
  Calculate hash2 leaf h X
    = range_hash hash2 leaf h (X * 2 ^ Z.of_nat h) ((X + 1) * 2 ^ Z.of_nat h).
Proof.
  revert X. induction h as [|h IH]; intros X; cbn [Calculate]; [simpl; f_equal; lia|].
  pose proof (pow2_pos h). rewrite !IH, Z.shiftl_mul_pow2 by lia. rewrite pow2_S.
  rewrite range_hash_split by lia. unfold Interpret_new. f_equal; f_equal; lia.
Qed.

(** What an implementation's [LoadElement] must return. *)
Definition complete load leaf (n : Z) : Prop :=
  forall h X, 0 <= X -> (X + 1) * 2 ^ Z.of_nat h <= n ->
  load (mkPos h X) = Calculate hash2 leaf h X.

Lemma Fly_complete leaf n : complete (Fly_load hash2 leaf) leaf n.
Proof. done. Qed.

Lemma HashForRange_loop_spec load leaf c K n0 n fuel h :
  complete load leaf c -> 0 <= n0 -> 0 <= n < 2 ^ Z.of_nat K -> n0 + n <= c ->
  (2 ^ Z.of_nat K | n0) -> (h <= K)%nat -> (K <= h + fuel)%nat ->
  HashForRange_loop hash2 load fuel
    (if n mod 2 ^ Z.of_nat h =? 0 then None
     else Some (range_hash hash2 leaf h (n0 + n / 2 ^ Z.of_nat h * 2 ^ Z.of_nat h) (n0 + n)))
    h (n0 / 2 ^ Z.of_nat h) (n / 2 ^ Z.of_nat h)
  = if n =? 0 then None else Some (range_hash hash2 leaf K n0 (n0 + n)).
Proof.
  intros Hload Hn0 Hn Hc Hdiv. revert h. induction fuel as [|fuel IH]; intros h Hh Hf.
  - assert (h = K) as -> by lia. simpl.
    rewrite Z.mod_small, Z.div_small by lia. rewrite Z.mul_0_l, Z.add_0_r. done.
  - cbn [HashForRange_loop]. pose proof (pow2_pos h) as Hp.
    destruct (Z.eqb_spec (n / 2 ^ Z.of_nat h) 0) as [E|E].
    + rewrite E. apply Z.div_small_iff in E; [|lia].
      assert (n < 2 ^ Z.of_nat h) by lia. rewrite Z.mod_small by lia.
      destruct (n =? 0); [done|]. f_equal. rewrite Z.mul_0_l, Z.add_0_r.
      symmetry. apply range_hash_up; lia.
    + assert (h < K)%nat as HhK.
      { destruct (decide (h < K)%nat); [done|]. assert (h = K) as -> by lia.
        rewrite Z.div_small in E; lia. }
      rewrite !shiftr1, <- !div_pow2_S. rewrite <- (IH (S h)) by lia. f_equal.
      set (nh := n / 2 ^ Z.of_nat h) in *.
      assert (0 <= nh) by (apply Z.div_pos; lia).
      pose proof (odd_decomp nh) as Eo. pose proof (Z.div_mod n (2 ^ Z.of_nat h) ltac:(lia)) as En.
      pose proof (Z.mod_pos_bound n (2 ^ Z.of_nat h) Hp) as Bm. fold nh in En.
      set (r := n mod 2 ^ Z.of_nat h) in *.
      assert (n / 2 ^ Z.of_nat (S h) = nh / 2) as En' by apply div_pow2_S.
      assert (n mod 2 ^ Z.of_nat (S h) = (if Z.odd nh then 2 ^ Z.of_nat h else 0) + r) as Er.
      { pose proof (Z.div_mod n (2 ^ Z.of_nat (S h)) ltac:(pose proof (pow2_pos (S h)); lia)) as E2.
        rewrite En', pow2_S in *. destruct (Z.odd nh); nia. }
      rewrite Er, En', pow2_S.
      destruct (Z.odd nh) eqn:Ho.
      * destruct Hdiv as [z Hz].
        assert (n0 / 2 ^ Z.of_nat h = 2 * (z * 2 ^ Z.of_nat (K - S h))
                /\ n0 = n0 / 2 ^ Z.of_nat h * 2 ^ Z.of_nat h) as [E0 E0'].
        { assert (2 ^ Z.of_nat K = 2 * 2 ^ Z.of_nat (K - S h) * 2 ^ Z.of_nat h) as Ek.
          { rewrite <- pow2_S, <- Z.pow_add_r by lia. f_equal. lia. }
          rewrite Hz, Ek.
          replace (z * (2 * 2 ^ Z.of_nat (K - S h) * 2 ^ Z.of_nat h))
            with (2 * (z * 2 ^ Z.of_nat (K - S h)) * 2 ^ Z.of_nat h) by ring.
          rewrite Z.div_mul by lia. done. }
        set (m0 := n0 / 2 ^ Z.of_nat h) in *.
        rewrite lxor1_odd.
        2: { rewrite Z.odd_add, Ho, E0, Z.odd_mul. done. }
        rewrite Hload by nia. rewrite Calculate_range.
        rewrite (proj2 (Z.eqb_neq (2 ^ Z.of_nat h + r) 0)) by lia.
        destruct (Z.eqb_spec r 0) as [Hr0|Hr0].
        -- f_equal. symmetry. rewrite (range_hash_up leaf h (S h)) by nia. f_equal; nia.
        -- f_equal. unfold Interpret_new. rewrite range_hash_split by nia.
           f_equal; f_equal; nia.
      * rewrite Z.add_0_l. destruct (Z.eqb_spec r 0); [done|]. f_equal. symmetry.
        rewrite (range_hash_up leaf h (S h)) by nia. f_equal. nia.
Qed.

Lemma get_HashForRange_spec load leaf c K n0 n :
  complete load leaf c -> 0 <= n0 -> 0 <= n < 2 ^ Z.of_nat K -> n0 + n <= c ->
  (2 ^ Z.of_nat K | n0) -> (K <= 64)%nat ->
  get_HashForRange hash2 load n0 n
    = if n =? 0 then None else Some (range_hash hash2 leaf K n0 (n0 + n)).
Proof.
  intros Hl Hn0 Hn Hc Hd HK.
  rewrite <- (HashForRange_loop_spec load leaf c K n0 n u64_bits 0) by (done || (unfold u64_bits; lia)).
  unfold get_HashForRange. change (2 ^ Z.of_nat 0) with 1. rewrite Z.mod_1_r, !Z.div_1_r. done.
Qed.

(** [Mmr::get_Hash] is the tree hash of the leaves. *)
Lemma get_Hash_spec load leaf n :
  complete load leaf n -> 0 <= n < 2 ^ 64 ->
  get_Hash hash2 hzero load n = root_hash hash2 hzero leaf n.
Proof.
  intros Hl Hn. unfold get_Hash, root_hash.
  rewrite (get_HashForRange_spec load leaf n 64) by (try done; try lia; apply Z.divide_0_r).
  rewrite Z.add_0_l. by destruct (n =? 0).
Qed.

Lemma Calculate_ext leaf1 leaf2 h X :
  (forall i, X * 2 ^ Z.of_nat h <= i < (X + 1) * 2 ^ Z.of_nat h -> leaf1 i = leaf2 i) ->
  Calculate hash2 leaf1 h X = Calculate hash2 leaf2 h X.
Proof.
  intros Hl. rewrite !Calculate_range. apply range_hash_ext; [|done].
  pose proof (pow2_pos h). nia.
Qed.

(** The parent of a node. *)
Lemma Calculate_parent leaf h X :
  Z.odd X = true ->
  hash2 (Calculate hash2 leaf h (X - 1)) (Calculate hash2 leaf h X)
    = Calculate hash2 leaf (S h) (X / 2).
Proof.
  intros Ho. pose proof (odd_decomp X) as E. rewrite Ho in E. cbn [Calculate].
  rewrite Z.shiftl_mul_pow2 by lia. unfold Interpret_new. f_equal; f_equal; lia.
Qed.

(** ** Appending *)
Section append_facts.
Context {S : Type} `{MmrStorageLaws Hash S}.

Lemma Append_loop_ok fuel s hv h X q :
  storage_ok (Append_loop hash2 fuel s hv h X) q <-> storage_ok s q.
Proof.
  revert s hv h X. induction fuel as [|fuel IH]; intros s hv h X; [done|].
  cbn [Append_loop]. destruct (negb (Z.odd X)); [apply storage_ok_save|].
  rewrite IH. apply storage_ok_save.
Qed.

Lemma Append_loop_spec leaf n fuel s h X :
  0 <= n -> n < 2 ^ (Z.of_nat h + Z.of_nat fuel - 1) -> 0 <= X ->
  n + 1 = (X + 1) * 2 ^ Z.of_nat h ->
  (forall h X, 0 <= X -> (X + 1) * 2 ^ Z.of_nat h <= n + 1 -> storage_ok s (mkPos h X)) ->
  (forall h' X', 0 <= X' -> (X' + 1) * 2 ^ Z.of_nat h' <= n + 1 ->
     (X' + 1) * 2 ^ Z.of_nat h' <= n \/ (h' < h)%nat ->
     LoadElement s (mkPos h' X') = Calculate hash2 leaf h' X') ->
  complete (LoadElement (Append_loop hash2 fuel s (Calculate hash2 leaf h X) h X)) leaf (n + 1).
Proof.
  intros Hn. revert s h X.
  induction fuel as [|fuel IH]; intros s h X Hlt HX Eq Hok Hs.
  { pose proof (pow2_pos h).
    assert (2 ^ (Z.of_nat h + Z.of_nat 0 - 1) < 2 ^ Z.of_nat h) by (apply Z.pow_lt_mono_r; lia).
    nia. }
  cbn [Append_loop]. pose proof (pow2_pos h) as Hp.
  set (s1 := SaveElement _ _ s).
  assert (forall h' X', 0 <= X' -> (X' + 1) * 2 ^ Z.of_nat h' <= n + 1 ->
     (X' + 1) * 2 ^ Z.of_nat h' <= n \/ (h' < Datatypes.S h)%nat ->
     LoadElement s1 (mkPos h' X') = Calculate hash2 leaf h' X') as Hs1.
  { intros h' X' HX' Hle Hor. unfold s1.
    destruct (decide (mkPos h' X' = mkPos h X)) as [E|Hne].
    - injection E as -> ->. apply load_save_eq. apply Hok; lia.
    - rewrite load_save_ne by (try apply Hok; try lia; congruence).
      apply Hs; [done|done|]. destruct Hor as [|Hlt']; [by left|].
      destruct (decide (h' = h)) as [->|]; [|right; lia].
      left. assert (X' <> X) by congruence. assert (X' <= X) by nia. nia. }
  destruct (Z.odd X) eqn:Ho; cbn [negb].
  - rewrite lxor1_odd by done. rewrite (Hs1 h (X - 1)) by (pose proof (odd_decomp X); rewrite Ho in *; nia).
    assert (Z.shiftr (X - 1) 1 = X / 2) as -> by (rewrite <- lxor1_odd by done; apply lxor1_shiftr1).
    unfold Interpret_new. rewrite Calculate_parent by done.
    pose proof (odd_decomp X) as EX. rewrite Ho in EX.
    apply IH; try done.
    + eapply Z.lt_le_trans; [exact Hlt|]. apply Z.pow_le_mono_r; lia.
    + apply Z.div_pos; lia.
    + rewrite pow2_S. nia.
    + intros. unfold s1. apply storage_ok_save. by apply Hok.
  - intros h' X' HX' Hle. apply Hs1; [done|done|].
    destruct (decide ((X' + 1) * 2 ^ Z.of_nat h' <= n)) as [|Hgt]; [by left|]. right.
    destruct (decide (h' < Datatypes.S h)%nat) as [|Hge]; [done|]. exfalso.
    assert ((X' + 1) * 2 ^ Z.of_nat h' = (X + 1) * 2 ^ Z.of_nat h) as E by lia.
    replace h' with (Datatypes.S (h' - Datatypes.S h) + h)%nat in E by lia.
    rewrite Nat2Z.inj_add, Z.pow_add_r, pow2_S in E by lia.
    assert (X + 1 = 2 * ((X' + 1) * 2 ^ Z.of_nat (h' - Datatypes.S h))) as E2 by nia.
    pose proof (odd_decomp X) as EX. rewrite Ho in EX. lia.
Qed.

(** The representation invariant of an [Mmr] with room for one more leaf. *)
Definition mmr_inv (m : Z * S) leaf : Prop :=
  0 <= m.1 < 2 ^ 64 /\ complete (LoadElement m.2) leaf m.1.

Definition mmr_room (m : Z * S) : Prop :=
  m.1 + 1 < 2 ^ 64 /\
  forall h X, 0 <= X -> (X + 1) * 2 ^ Z.of_nat h <= m.1 + 1 -> storage_ok m.2 (mkPos h X).

Definition leaf_snoc leaf (n : Z) (hv : Hash) : Z -> Hash :=
  fun i => if i =? n then hv else leaf i.

Lemma Calculate_snoc leaf n hv h X :
  0 <= X -> (X + 1) * 2 ^ Z.of_nat h <= n ->
  Calculate hash2 (leaf_snoc leaf n hv) h X = Calculate hash2 leaf h X.
Proof.
  intros HX Hle. apply Calculate_ext. intros i Hi. unfold leaf_snoc.
  rewrite (proj2 (Z.eqb_neq _ _)) by lia. done.
Qed.

Lemma Append_inv m leaf hv :
  mmr_inv m leaf -> mmr_room m ->
  mmr_inv (Append hash2 m hv) (leaf_snoc leaf m.1 hv) /\
  (Append hash2 m hv).1 = m.1 + 1.
Proof.
  destruct m as [n s]. intros [Hn Hc] [Hr Hok]. cbn [fst snd] in *. unfold Append.
  rewrite wrap_small by (unfold in_width; lia). split; [|done]. split; [simpl; lia|].
  cbn [fst snd].
  assert (hv = Calculate hash2 (leaf_snoc leaf n hv) 0 n) as E.
  { simpl. unfold leaf_snoc. by rewrite Z.eqb_refl. }
  rewrite E at 1. apply Append_loop_spec; try lia.
  - eapply Z.lt_le_trans with (2 ^ 64); [lia|]. apply Z.pow_le_mono_r; unfold u64_bits; lia.
  - done.
  - intros h' X' HX' Hle [Hlt|]; [|lia]. rewrite Hc by done. by rewrite Calculate_snoc by done.
Qed.
End append_facts.

Lemma leaf_snoc_n leaf n hv : leaf_snoc leaf n hv n = hv.
Proof. unfold leaf_snoc. by rewrite Z.eqb_refl. Qed.

Lemma leaf_snoc_lt leaf n hv i : i < n -> leaf_snoc leaf n hv i = leaf i.
Proof. intros. unfold leaf_snoc. by rewrite (proj2 (Z.eqb_neq _ _)) by lia. Qed.

(** ** Prediction *)
Lemma PredictedHash_loop_spec load leaf n fuel h :
  complete load leaf n -> 0 <= n < 2 ^ 64 -> (h + fuel = 64)%nat ->
  PredictedHash_loop hash2 load fuel
    (range_hash hash2 leaf h (n / 2 ^ Z.of_nat h * 2 ^ Z.of_nat h) (n + 1)) h (n / 2 ^ Z.of_nat h)
  = range_hash hash2 leaf 64 0 (n + 1).
Proof.
  intros Hl. revert h. induction fuel as [|fuel IH]; intros h Hn Hf.
  - cbn [PredictedHash_loop]. replace h with 64%nat in * by lia.
    rewrite Z.div_small by (change (Z.of_nat 64) with 64; lia). done.
  - cbn [PredictedHash_loop]. pose proof (pow2_pos h) as Hp.
    pose proof (Z.div_mod n (2 ^ Z.of_nat h) ltac:(lia)) as En.
    pose proof (Z.mod_pos_bound n (2 ^ Z.of_nat h) Hp) as Bm.
    destruct (Z.eqb_spec (n / 2 ^ Z.of_nat h) 0) as [E|E].
    + rewrite E, Z.mul_0_l. symmetry. apply range_hash_up; [|lia]. rewrite E in En. lia.
    + assert (0 <= n / 2 ^ Z.of_nat h) by (apply Z.div_pos; lia).
      set (X := n / 2 ^ Z.of_nat h) in *. pose proof (odd_decomp X) as EX.
      rewrite <- (IH (S h)) by lia. rewrite div_pow2_S. fold X. rewrite pow2_S.
      destruct (Z.odd X) eqn:Ho.
      * rewrite lxor1_shiftr1, lxor1_odd by done. rewrite Hl by nia.
        rewrite Calculate_range. unfold Interpret_new. f_equal.
        rewrite range_hash_split by nia. f_equal; f_equal; nia.
      * rewrite shiftr1. f_equal. rewrite (range_hash_up leaf h (S h)) by nia. f_equal. nia.
Qed.

(** [get_PredictedHash] is the root after appending, without appending. *)
Lemma get_PredictedHash_spec load leaf n hv :
  complete load leaf n -> 0 <= n < 2 ^ 64 ->
  get_PredictedHash hash2 load n hv = root_hash hash2 hzero (leaf_snoc leaf n hv) (n + 1).
Proof.
  intros Hl Hn. unfold get_PredictedHash, root_hash.
  rewrite (proj2 (Z.eqb_neq _ _)) by lia. unfold u64_bits.
  rewrite <- (PredictedHash_loop_spec load (leaf_snoc leaf n hv) n 64 0) by
    (try lia; intros h X HX Hle; rewrite Hl by done;
     by rewrite Calculate_snoc by done).
  change (2 ^ Z.of_nat 0) with 1. rewrite Z.div_1_r, Z.mul_1_r.
  change (range_hash hash2 (leaf_snoc leaf n hv) 0 n (n + 1)) with (leaf_snoc leaf n hv n).
  by rewrite leaf_snoc_n.
Qed.

(** ** [CompactMmr] *)

(** The peaks of the forest, lowest first, from height [h] up; [X] is the
    number of complete subtrees of that height. *)
Fixpoint peaks leaf (fuel h : nat) (X : Z) : list Hash :=
  match fuel with
  | O => []
  | S fuel =>
      if Z.odd X then Calculate hash2 leaf h (X - 1) :: peaks leaf fuel (S h) (X / 2)
      else peaks leaf fuel (S h) (X / 2)
  end.

Definition compact_inv (c : CompactMmr (Hash := Hash)) leaf : Prop :=
  0 <= c_Count c < 2 ^ 64 /\ rev (c_vNodes c) = peaks leaf u64_bits 0 (c_Count c).

Lemma peaks_0 leaf fuel h : peaks leaf fuel h 0 = [].
Proof. revert h. induction fuel as [|fuel IH]; intros h; simpl; [done|]. apply IH. Qed.

Lemma peaks_ext leaf1 leaf2 fuel h X :
  0 <= X -> (forall i, 0 <= i < X * 2 ^ Z.of_nat h -> leaf1 i = leaf2 i) ->
  peaks leaf1 fuel h X = peaks leaf2 fuel h X.
Proof.
  revert h X. induction fuel as [|fuel IH]; intros h X HX Hl; [done|]. simpl.
  pose proof (odd_decomp X) as EX. pose proof (pow2_pos h).
  assert (peaks leaf1 fuel (S h) (X / 2) = peaks leaf2 fuel (S h) (X / 2)) as ->.
  { apply IH; [apply Z.div_pos; lia|]. intros i Hi. apply Hl.
    rewrite pow2_S in Hi. destruct (Z.odd X); nia. }
  destruct (Z.odd X); [|done]. f_equal. apply Calculate_ext. intros i Hi. apply Hl.
  assert (0 < X) by lia. nia.
Qed.

(** The tree hash, from the peaks. *)
Lemma HashForRange_peaks leaf fuel acc h n :
  0 <= n ->
  HashForRange_loop hash2 (Fly_load hash2 leaf) fuel acc h 0 n
    = foldl (fun acc p => match acc with
                          | None => Some p
                          | Some hv => Some (Interpret_new hash2 hv p false)
                          end) acc (peaks leaf fuel h n).
Proof.
  revert acc h n. induction fuel as [|fuel IH]; intros acc h n Hn; [done|].
  cbn [HashForRange_loop peaks]. destruct (Z.eqb_spec n 0) as [->|Hne].
  { simpl. by rewrite peaks_0. }
  rewrite Z.shiftr_0_l, shiftr1, Z.add_0_l, IH by (apply Z.div_pos; lia).
  destruct (Z.odd n) eqn:Ho; [|done]. rewrite lxor1_odd by done.
  unfold Fly_load. cbn [pos_H pos_X foldl]. by destruct acc.
Qed.

Lemma foldl_some_peaks hv l :
  foldl (fun acc p => match acc with
                      | None => Some p
                      | Some hv => Some (Interpret_new hash2 hv p false)
                      end) (Some hv) l
  = Some (foldl (fun hv n => Interpret_new hash2 hv n false) hv l).
Proof. revert hv. induction l as [|x l IH]; intros hv; [done|]. simpl. apply IH. Qed.

Lemma Compact_get_Hash_spec c leaf :
  compact_inv c leaf -> Compact_get_Hash hash2 hzero c = root_hash hash2 hzero leaf (c_Count c).
Proof.
  intros [Hn Hp]. rewrite <- (get_Hash_spec (Fly_load hash2 leaf) leaf) by
    (done || apply Fly_complete).
  unfold get_Hash, get_HashForRange, Compact_get_Hash. rewrite Hp.
  rewrite HashForRange_peaks by lia.
  destruct (peaks leaf u64_bits 0 (c_Count c)) as [|hv l]; [done|]. cbn [foldl].
  by rewrite foldl_some_peaks.
Qed.

Lemma Compact_Predicted_peaks leaf fuel hv h n :
  0 <= n ->
  Compact_Predicted_loop hash2 fuel (peaks leaf fuel h n) hv n
    = PredictedHash_loop hash2 (Fly_load hash2 leaf) fuel hv h n.
Proof.
  revert hv h n. induction fuel as [|fuel IH]; intros hv h n Hn; [done|].
  cbn [Compact_Predicted_loop PredictedHash_loop peaks].
  destruct (Z.eqb_spec n 0); [done|]. destruct (Z.odd n) eqn:Ho.
  - rewrite lxor1_shiftr1, lxor1_odd, shiftr1 by done. rewrite IH by (apply Z.div_pos; lia). done.
  - rewrite shiftr1. apply IH. apply Z.div_pos; lia.
Qed.

Lemma Compact_get_PredictedHash_spec c leaf hv :
  compact_inv c leaf ->
  Compact_get_PredictedHash hash2 c hv
    = root_hash hash2 hzero (leaf_snoc leaf (c_Count c) hv) (c_Count c + 1).
Proof.
  intros [Hn Hp].
  rewrite <- (get_PredictedHash_spec (Fly_load hash2 leaf) leaf) by (done || apply Fly_complete).
  unfold Compact_get_PredictedHash, get_PredictedHash. rewrite Hp.
  apply Compact_Predicted_peaks. lia.
Qed.

(** Carrying through the trailing ones of the count. *)
Lemma Compact_Append_loop_spec leaf leaf' fuel pf h X :
  0 <= X -> X + 1 < 2 ^ Z.of_nat pf -> (pf <= fuel)%nat ->
  (forall i, 0 <= i < X * 2 ^ Z.of_nat h -> leaf i = leaf' i) ->
  let '(nodes, hv) :=
    Compact_Append_loop hash2 fuel (peaks leaf pf h X) (Calculate hash2 leaf' h X) X in
  hv :: nodes = peaks leaf' pf h (X + 1).
Proof.
  revert pf h X. induction fuel as [|fuel IH]; intros pf h X HX Hlt Hf Hl.
  { assert (pf = 0%nat) as -> by lia. change (2 ^ Z.of_nat 0) with 1 in Hlt. lia. }
  destruct pf as [|pf]; [change (2 ^ Z.of_nat 0) with 1 in Hlt; lia|].
  cbn [Compact_Append_loop]. pose proof (odd_decomp X) as EX. pose proof (pow2_pos h).
  rewrite pow2_S in Hlt. cbn [peaks].
  assert (0 <= X / 2) by (apply Z.div_pos; lia).
  destruct (Z.odd X) eqn:Ho; cbn [negb].
  - assert (Calculate hash2 leaf h (X - 1) = Calculate hash2 leaf' h (X - 1)) as ->.
    { apply Calculate_ext. intros i Hi. apply Hl. nia. }
    unfold Interpret_new. rewrite Calculate_parent, shiftr1 by done.
    rewrite Z.odd_add, Ho. cbn [xorb Z.odd].
    assert ((X + 1) / 2 = X / 2 + 1) as -> by (symmetry; apply (Z.div_unique_pos _ _ _ 0); lia).
    apply IH; [done|lia|lia|]. intros i Hi. apply Hl. rewrite pow2_S in Hi. nia.
  - rewrite Z.odd_add, Ho. cbn [xorb Z.odd]. rewrite Z.add_simpl_r.
    assert ((X + 1) / 2 = X / 2) as -> by (symmetry; apply (Z.div_unique_pos _ _ _ 1); lia).
    f_equal. apply peaks_ext; [done|]. intros i Hi. apply Hl. rewrite pow2_S in Hi. nia.
Qed.

Lemma Compact_Append_inv c leaf hv :
  compact_inv c leaf -> c_Count c + 1 < 2 ^ 64 ->
  compact_inv (Compact_Append hash2 c hv) (leaf_snoc leaf (c_Count c) hv) /\
  c_Count (Compact_Append hash2 c hv) = c_Count c + 1.
Proof.
  intros [Hn Hp] Hr. unfold Compact_Append. rewrite Hp.
  pose proof (Compact_Append_loop_spec leaf (leaf_snoc leaf (c_Count c) hv) (S u64_bits) u64_bits
    0 (c_Count c) ltac:(lia) ltac:(done) ltac:(lia)) as Hspec.
  change (Calculate hash2 (leaf_snoc leaf (c_Count c) hv) 0 (c_Count c))
    with (leaf_snoc leaf (c_Count c) hv (c_Count c)) in Hspec.
  rewrite leaf_snoc_n in Hspec. destruct (Compact_Append_loop _ _ _ _ _) as [nodes hv1].
  rewrite wrap_small by (unfold in_width; lia). split; [|done]. split; [simpl; lia|].
  cbn [c_Count c_vNodes]. rewrite rev_app_distr, rev_involutive. apply Hspec.
  intros i Hi. rewrite leaf_snoc_lt; [done|]. change (2 ^ Z.of_nat 0) with 1 in Hi. lia.
Qed.

(** ** Proofs *)

(** The nodes [get_Proof] produces, as a list. *)
Fixpoint proof_nodes load (fuel : nat) (m : Z) (h : nat) (n i : Z)
  : list (Node (Hash := Hash) * Position) :=
  match fuel with
  | O => []
  | S fuel =>
      if n =? 0 then []
      else
        let rest := proof_nodes load fuel m (S h) (Z.shiftr n 1) (Z.shiftr i 1) in
        let first := negb (Z.odd i) in
        let X := Z.lxor i 1 in
        let n0 := u64 (Z.shiftl X (Z.of_nat h)) in
        if first && (m <=? n0) then rest
        else
          let second :=
            if first && (Z.shiftr (m - n0) (Z.of_nat h) =? 0)
            then default hzero (get_HashForRange hash2 load n0 (m - n0))
            else load (mkPos h X) in
          ((first, second), mkPos h X) :: rest
  end.

Fixpoint run_builder {B} (A : B -> Node -> Position -> B * bool) (bld : B)
    (l : list (Node (Hash := Hash) * Position)) : B * bool :=
  match l with
  | [] => (bld, true)
  | (n, p) :: l =>
      let '(bld, ok) := A bld n p in
      if ok then run_builder A bld l else (bld, false)
  end.

Lemma get_Proof_run {B} (A : B -> Node -> Position -> B * bool) load fuel m bld h n i :
  get_Proof_loop hash2 hzero load A fuel m bld h n i
    = run_builder A bld (proof_nodes load fuel m h n i).
Proof.
  revert bld h n i. induction fuel as [|fuel IH]; intros bld h n i; [done|].
  cbn [get_Proof_loop proof_nodes]. destruct (n =? 0); [done|].
  destruct (negb (Z.odd i) && _); [apply IH|]. cbn [run_builder].
  destruct (A _ _ _) as [bld' [|]]; [apply IH|done].
Qed.

Lemma run_std p l :
  run_builder AppendNode_std p l = (p ++ (fst <$> l), true).
Proof.
  revert p. induction l as [|[n q] l IH]; intros p; [by rewrite app_nil_r|].
  simpl. rewrite IH, <- app_assoc. done.
Qed.

Lemma run_hard p l :
  run_builder AppendNode_hard p l = (p ++ ((fun x => x.1.2) <$> l), true).
Proof.
  revert p. induction l as [|[n q] l IH]; intros p; [by rewrite app_nil_r|].
  simpl. rewrite IH, <- app_assoc. done.
Qed.

(** The hash of the subtree with index [i] at height [h], cut at the end. *)
Definition own leaf (m : Z) (h : nat) (i : Z) : Hash :=
  range_hash hash2 leaf h (i * 2 ^ Z.of_nat h) (Z.min ((i + 1) * 2 ^ Z.of_nat h) m).

(** One round of [get_Proof]: at the top there is nothing left to do, a round
    without a sibling keeps the hash, and a sibling leads to the parent. *)
Lemma proof_nodes_step load leaf m fuel h i :
  complete load leaf m -> 0 < m <= 2 ^ 63 -> (h + S fuel = 64)%nat ->
  0 <= i -> i * 2 ^ Z.of_nat h < m ->
  let rest := proof_nodes load fuel m (S h) (m / 2 ^ Z.of_nat (S h)) (i / 2) in
  0 <= i / 2 /\ i / 2 * 2 ^ Z.of_nat (S h) < m /\
  ((m / 2 ^ Z.of_nat h = 0 /\ own leaf m h i = range_hash hash2 leaf 64 0 m) \/
   (m / 2 ^ Z.of_nat h <> 0 /\ negb (Z.odd i) && (m <=? u64 (Z.shiftl (Z.lxor i 1) (Z.of_nat h))) = true /\
    own leaf m h i = own leaf m (S h) (i / 2)) \/
   (m / 2 ^ Z.of_nat h <> 0 /\ negb (Z.odd i) && (m <=? u64 (Z.shiftl (Z.lxor i 1) (Z.of_nat h))) = false /\
    exists hv, proof_nodes load (S fuel) m h (m / 2 ^ Z.of_nat h) i = ((negb (Z.odd i), hv), mkPos h (Z.lxor i 1)) :: rest /\
      Interpret_new hash2 (own leaf m h i) hv (negb (Z.odd i)) = own leaf m (S h) (i / 2))).
Proof.
  intros Hl Hm Hf Hi Him rest. pose proof (pow2_pos h) as Hp. pose proof (odd_decomp i) as Ei.
  assert (i / 2 * 2 ^ Z.of_nat (S h) < m /\ 0 <= i / 2) as [Hi2 Hi2'].
  { split; [|apply Z.div_pos; lia]. rewrite pow2_S. destruct (Z.odd i); nia. }
  split_and!; [done..|]. subst rest. unfold own. cbn [proof_nodes].
  destruct (Z.eqb_spec (m / 2 ^ Z.of_nat h) 0) as [E|E].
  { left. split; [done|]. apply Z.div_small_iff in E; [|lia]. assert (i = 0) as -> by nia.
    symmetry. rewrite Z.min_r, Z.mul_0_l by lia. apply range_hash_up; lia. }
  right. assert (2 ^ Z.of_nat h <= m) as Hhm.
  { destruct (Z.le_gt_cases (2 ^ Z.of_nat h) m); [done|]. rewrite Z.div_small in E; lia. }
  rewrite !shiftr1, <- div_pow2_S, !pow2_S.
  destruct (Z.odd i) eqn:Ho; cbn [negb andb].
  - right. split_and!; [done..|]. eexists. split; [reflexivity|]. rewrite lxor1_odd by done.
    rewrite Hl by nia. rewrite Calculate_range. unfold Interpret_new.
    rewrite range_hash_split by nia. f_equal; f_equal; nia.
  - rewrite lxor1_even by done. rewrite Z.shiftl_mul_pow2 by lia.
    rewrite wrap_small by (unfold in_width; nia).
    destruct (Z.leb_spec m ((i + 1) * 2 ^ Z.of_nat h)) as [Hle|Hlt].
    + left. split_and!; [done..|]. rewrite (range_hash_up leaf h (S h)) by nia. f_equal; nia.
    + right. split_and!; [done..|]. eexists. split; [reflexivity|]. unfold Interpret_new.
      set (n0 := (i + 1) * 2 ^ Z.of_nat h) in *. set (nR := m - n0). rewrite Z.shiftr_div_pow2 by lia.
      rewrite range_hash_split by nia. f_equal; [f_equal; nia|].
      destruct (Z.eqb_spec (nR / 2 ^ Z.of_nat h) 0) as [Er|Er].
      * apply Z.div_small_iff in Er; [|lia].
        rewrite (get_HashForRange_spec load leaf m h n0 nR)
          by (try done; try lia; try nia; exists (i + 1); reflexivity).
        rewrite (proj2 (Z.eqb_neq _ _)) by lia. cbn [default id from_option]. f_equal; nia.
      * assert (2 ^ Z.of_nat h <= nR).
        { destruct (Z.le_gt_cases (2 ^ Z.of_nat h) nR); [done|]. rewrite Z.div_small in Er; lia. }
        rewrite Hl by nia. rewrite Calculate_range. f_equal; nia.
Qed.

Lemma own_top leaf m i : 0 < m <= 2 ^ 63 -> 0 <= i -> i * 2 ^ Z.of_nat 64 < m -> own leaf m 64 i = range_hash hash2 leaf 64 0 m.
Proof.
  intros Hm Hi Him. unfold own. change (Z.of_nat 64) with 64 in *. assert (i = 0) as -> by nia. f_equal; lia.
Qed.

Lemma own_leaf leaf m i : 0 <= i < m -> own leaf m 0 i = leaf i.
Proof. intros Hi. unfold own. change (2 ^ Z.of_nat 0) with 1. by rewrite Z.mul_1_r. Qed.

Lemma proof_nodes_interpret load leaf m fuel h i :
  complete load leaf m -> 0 < m <= 2 ^ 63 -> (h + fuel = 64)%nat ->
  0 <= i -> i * 2 ^ Z.of_nat h < m ->
  foldl (Interpret_node hash2) (own leaf m h i) (fst <$> proof_nodes load fuel m h (m / 2 ^ Z.of_nat h) i)
  = range_hash hash2 leaf 64 0 m.
Proof.
  intros Hl Hm. revert h i. induction fuel as [|fuel IH]; intros h i Hf Hi Him.
  - replace h with 64%nat in * by lia. by apply own_top.
  - destruct (proof_nodes_step load leaf m fuel h i) as (Hi2 & Hi2' & [[E H]|[(E & Hb & H)|(E & Hb & hv & En & H)]]); try done.
    + cbn [proof_nodes]. by rewrite (proj2 (Z.eqb_eq _ _) E).
    + cbn [proof_nodes]. rewrite (proj2 (Z.eqb_neq _ _) E), Hb, H, !shiftr1, <- div_pow2_S. apply IH; [lia|done..].
    + rewrite En, fmap_cons. cbn [foldl fst]. unfold Interpret_node at 2. cbn [fst snd]. rewrite H. apply IH; [lia|done..].
Qed.

(** A proof for a leaf leads from the leaf to the root. *)
Lemma get_Proof_correct load leaf m i :
  complete load leaf m -> 0 < m <= 2 ^ 63 -> 0 <= i < m ->
  let '(p, ok) := get_Proof hash2 hzero load AppendNode_std m [] i in
  ok = true /\ Interpret hash2 (leaf i) p = root_hash hash2 hzero leaf m.
Proof.
  intros Hl Hm Hi. unfold get_Proof. rewrite get_Proof_run, run_std. split; [done|].
  unfold Interpret, root_hash. rewrite (proj2 (Z.eqb_neq _ _)) by lia. unfold u64_bits.
  rewrite <- (proof_nodes_interpret load leaf m 64 0 i) by (try done; lia).
  rewrite own_leaf by done. by rewrite Z.div_1_r.
Qed.

(** The sides of the siblings depend on the position only. *)
Lemma proof_nodes_dirs load1 load2 fuel m h n i :
  (fun x => (x.1.1, x.2)) <$> proof_nodes load1 fuel m h n i
    = (fun x => (x.1.1, x.2)) <$> proof_nodes load2 fuel m h n i.
Proof.
  revert h n i. induction fuel as [|fuel IH]; intros h n i; [done|].
  cbn [proof_nodes]. destruct (n =? 0); [done|].
  destruct (negb (Z.odd i) && _); [apply IH|]. rewrite !fmap_cons. f_equal. apply IH.
Qed.

(** Folding a hard proof along given sides. *)
Fixpoint fold_dirs (hv : Hash) (dirs : list bool) (p : list Hash) : option (Hash * list Hash) :=
  match dirs, p with
  | [], _ => Some (hv, p)
  | d :: dirs, x :: p => fold_dirs (Interpret_new hash2 hv x d) dirs p
  | _ :: _, [] => None
  end.

Lemma run_verify hv p (l : list (Node (Hash := Hash) * Position)) :
  match fold_dirs hv ((fun x => x.1.1) <$> l) p with
  | Some r => run_builder (AppendNode_verify hash2) (hv, p) l = (r, true)
  | None => (run_builder (AppendNode_verify hash2) (hv, p) l).2 = false
  end.
Proof.
  revert hv p. induction l as [|[n q] l IH]; intros hv p; [done|].
  destruct p as [|x p]; [done|]. cbn. apply IH.
Qed.

Lemma fold_dirs_hard hv (l : list (Node (Hash := Hash) * Position)) rest :
  fold_dirs hv ((fun x => x.1.1) <$> l) (((fun x => x.1.2) <$> l) ++ rest)
    = Some (foldl (Interpret_node hash2) hv (fst <$> l), rest).
Proof. revert hv. induction l as [|[n q] l IH]; intros hv; [done|]. cbn. apply IH. Qed.

(** The pairs that are hashed on the way. *)
Definition node_pair (hOld hNew : Hash) (bNewOnRight : bool) : Hash * Hash := if bNewOnRight then (hOld, hNew) else (hNew, hOld).

Fixpoint fold_hashed (hv : Hash) (dirs : list bool) (p : list Hash) : list (Hash * Hash) :=
  match dirs, p with
  | d :: dirs, x :: p => node_pair hv x d :: fold_hashed (Interpret_new hash2 hv x d) dirs p
  | _, _ => []
  end.

Lemma Interpret_pair hv x d : Interpret_new hash2 hv x d = hash2 (node_pair hv x d).1 (node_pair hv x d).2.
Proof. by destruct d. Qed.

Lemma fold_hashed_ok (ok : Hash -> Prop) dirs hv p : (forall a b, ok (hash2 a b)) -> ok hv -> Forall ok p -> Forall (fun x => ok x.1 /\ ok x.2) (fold_hashed hv dirs p).
Proof.
  intros Hok. revert hv p. induction dirs as [|d dirs IH]; intros hv [|x p] Hv Hp; cbn [fold_hashed]; try constructor.
  - apply Forall_cons in Hp as [Hx _]. by destruct d.
  - apply Forall_cons in Hp as [_ Hp]. apply IH; [rewrite Interpret_pair; apply Hok|done].
Qed.

(** Two different pairs of two lists with the same hash. *)
Definition collision_in (l1 l2 : list (Hash * Hash)) : Prop :=
  exists x y, x ∈ l1 /\ y ∈ l2 /\ x <> y /\ hash2 x.1 x.2 = hash2 y.1 y.2.

(** Two hard proofs of the same shape that reach the same hash are equal, or
    there is a collision among the pairs that are hashed for them. *)
Lemma fold_dirs_inj (EqH : EqDecision Hash) dirs h1 p1 h2 p2 r :
  fold_dirs h1 dirs p1 = Some (r, []) -> fold_dirs h2 dirs p2 = Some (r, []) ->
  (h1 = h2 /\ p1 = p2) \/ collision_in (fold_hashed h1 dirs p1) (fold_hashed h2 dirs p2).
Proof.
  revert h1 p1 h2 p2. induction dirs as [|d dirs IH]; intros h1 p1 h2 p2 H1 H2.
  - simpl in *. simplify_eq. by left.
  - destruct p1 as [|x1 p1], p2 as [|x2 p2]; try done. simpl in H1, H2. cbn [fold_hashed].
    destruct (IH _ _ _ _ H1 H2) as [[E ->]|(x & y & Hx & Hy & Hne & Eh)]; [|right; exists x, y; split_and!; try done; by right].
    destruct (decide (node_pair h1 x1 d = node_pair h2 x2 d)) as [Ep|Hne]; [left; destruct d; by injection Ep as -> ->|right].
    exists (node_pair h1 x1 d), (node_pair h2 x2 d). split_and!; [left|left|done|]. by rewrite <- !Interpret_pair.
Qed.

Lemma fold_dirs_more hv dirs p x rest more :
  fold_dirs hv dirs p = Some (x, rest) -> fold_dirs hv dirs (p ++ more) = Some (x, rest ++ more).
Proof.
  revert hv p. induction dirs as [|d dirs IH]; intros hv p E; [simpl in *; by simplify_eq|].
  destruct p as [|y p]; [done|]. simpl in *. by apply IH.
Qed.

(** What is left of a proof is its tail. *)
Lemma fold_dirs_rest hv dirs p x rest :
  fold_dirs hv dirs p = Some (x, rest) ->
  exists p1, p = p1 ++ rest /\ fold_dirs hv dirs p1 = Some (x, []).
Proof.
  revert hv p. induction dirs as [|d dirs IH]; intros hv p E.
  - simpl in E. simplify_eq. by exists [].
  - destruct p as [|y p]; [done|]. simpl in E. destruct (IH _ _ E) as (p1 & -> & E').
    exists (y :: p1). done.
Qed.

(** ** [FixedMmmr] implements the storage interface *)

(** Where the row of height [h] starts in the flat array. *)
Fixpoint row_start (t : Z) (h : nat) : Z :=
  match h with
  | O => 0
  | S h => row_start t h + Z.shiftr t (Z.of_nat h)
  end.

Lemma Pos2Idx_row t p : Pos2Idx t p = pos_X p + row_start t (pos_H p).
Proof.
  unfold Pos2Idx. pose proof (for_up_ind
    (fun k '(ret, n) => ret = pos_X p + row_start t k /\ n = Z.shiftr t (Z.of_nat k)) (pos_H p)
    (fun _ '(ret, nTotal) => (ret + nTotal, Z.shiftr nTotal 1)) (pos_X p, t)) as H.
  destruct (for_up _ _ _) as [ret n]. apply H.
  - simpl. rewrite Z.shiftr_0_r. lia.
  - intros k [ret' n'] Hk [-> ->]. simpl. rewrite Z.shiftr_shiftr by lia.
    split; [lia|]. f_equal. lia.
Qed.

Lemma Reset_size_row t fuel k :
  0 <= t ->
  Reset_size fuel (row_start t (S k)) (Z.shiftr t (Z.of_nat k)) = row_start t (S k + fuel).
Proof.
  intros Ht. revert k. induction fuel as [|fuel IH]; intros k; [by rewrite Nat.add_0_r|].
  cbn [Reset_size]. rewrite Z.shiftr_shiftr by lia.
  replace (Z.of_nat k + 1) with (Z.of_nat (S k)) by lia.
  destruct (Z.eqb_spec (Z.shiftr t (Z.of_nat (S k))) 0) as [E|E].
  - assert (forall j, (S k <= j)%nat -> Z.shiftr t (Z.of_nat j) = 0) as Hz.
    { intros j Hj. replace (Z.of_nat j) with (Z.of_nat (S k) + Z.of_nat (j - S k)) by lia.
      rewrite <- Z.shiftr_shiftr, E by lia. apply Z.shiftr_0_l. }
    clear IH. induction (S fuel) as [|f IHf]; [by rewrite Nat.add_0_r|].
    rewrite IHf, Nat.add_succ_r. cbn [row_start]. rewrite (Hz (S k + f)%nat) by lia. lia.
  - change (row_start t (S k) + Z.shiftr t (Z.of_nat (S k))) with (row_start t (S (S k))).
    rewrite IH. f_equal. lia.
Qed.

Lemma Reset_size_total t : 0 <= t -> Reset_size u64_bits t t = row_start t 65.
Proof.
  intros Ht. pose proof (Reset_size_row t 64 0 Ht) as E. cbn [Nat.add] in E. rewrite <- E.
  change (Z.of_nat 0) with 0. rewrite Z.shiftr_0_r. unfold u64_bits. f_equal.
Qed.

Lemma row_start_mono t h k : 0 <= t -> (h <= k)%nat -> row_start t h <= row_start t k.
Proof.
  intros Ht Hk. induction Hk as [|k Hk IH]; [lia|]. cbn [row_start].
  assert (0 <= Z.shiftr t (Z.of_nat k)) by (apply Z.shiftr_nonneg; lia). lia.
Qed.

Lemma Fixed_index_bound (f : FixedMmmr (Hash := Hash)) p :
  storage_ok (MmrStorage := Fixed_storage hzero) f p ->
  0 <= Pos2Idx (m_Total f) p /\ row_start (m_Total f) (pos_H p) <= Pos2Idx (m_Total f) p /\
  Pos2Idx (m_Total f) p < row_start (m_Total f) (S (pos_H p)) /\
  (Z.to_nat (Pos2Idx (m_Total f) p) < length (m_vHashes f))%nat.
Proof.
  intros (HX & Ht & Hlen). rewrite Pos2Idx_row.
  assert (pos_H p <= 64)%nat as Hh.
  { destruct (decide (pos_H p <= 64)%nat) as [|Hgt]; [done|].
    rewrite Z.shiftr_div_pow2, Z.div_small in HX; [lia| |lia]. split; [lia|].
    eapply Z.lt_le_trans with (2 ^ 62); [lia|]. apply Z.pow_le_mono_r; lia. }
  pose proof (row_start_mono (m_Total f) 0 (pos_H p) ltac:(lia) ltac:(lia)) as H0.
  pose proof (row_start_mono (m_Total f) (S (pos_H p)) 65 ltac:(lia) ltac:(lia)) as H1.
  rewrite Reset_size_total in Hlen by lia. set (R := row_start (m_Total f) 65) in *.
  cbn [row_start] in *. lia.
Qed.

Lemma Fixed_index_inj (f : FixedMmmr (Hash := Hash)) p q :
  storage_ok (MmrStorage := Fixed_storage hzero) f p ->
  storage_ok (MmrStorage := Fixed_storage hzero) f q ->
  Pos2Idx (m_Total f) p = Pos2Idx (m_Total f) q -> p = q.
Proof.
  intros Hp Hq E. destruct (Fixed_index_bound f p Hp) as (_ & Lp & Up & _).
  destruct (Fixed_index_bound f q Hq) as (_ & Lq & Uq & _).
  destruct Hp as (_ & Ht & _).
  assert (pos_H p = pos_H q) as EH.
  { destruct (Nat.lt_trichotomy (pos_H p) (pos_H q)) as [Hlt|[|Hlt]]; [|done|].
    - pose proof (row_start_mono (m_Total f) (S (pos_H p)) (pos_H q) ltac:(lia) Hlt). lia.
    - pose proof (row_start_mono (m_Total f) (S (pos_H q)) (pos_H p) ltac:(lia) Hlt). lia. }
  rewrite !Pos2Idx_row, EH in E. clear -E EH. destruct p, q; cbn [pos_H pos_X] in *.
  f_equal; [done|lia].
Qed.

#[global] Instance Fixed_laws : @MmrStorageLaws Hash FixedMmmr (Fixed_storage hzero).
Proof.
  split.
  - intros f h p Hok. destruct (Fixed_index_bound f p Hok) as (_ & _ & _ & Hlt).
    cbn [LoadElement SaveElement Fixed_storage m_vHashes m_Total].
    by rewrite list_lookup_insert_eq.
  - intros f h p q Hp Hq Hne. cbn [LoadElement SaveElement Fixed_storage m_vHashes m_Total].
    rewrite list_lookup_insert_ne; [done|].
    intros E. apply Hne. apply (Fixed_index_inj f); [done|done|].
    destruct (Fixed_index_bound f p Hp) as (? & _). destruct (Fixed_index_bound f q Hq) as (? & _).
    lia.
  - intros f h p q. cbn [storage_ok SaveElement Fixed_storage m_vHashes m_Total].
    by rewrite length_insert.
Qed.

(** A [Reset] array has room for [nTotal] leaves. *)
Lemma Fixed_room (f : FixedMmmr (Hash := Hash)) (n t : Z) :
  0 <= n < t -> t < 2 ^ 62 -> m_Total f = t ->
  Z.of_nat (length (m_vHashes f)) = Reset_size u64_bits t t ->
  mmr_room (H := Fixed_storage hzero) (n, f).
Proof.
  intros Hn Ht <- Hlen. split; [cbn [fst]; lia|]. intros h X HX Hle. cbn [fst snd pos_X pos_H] in *.
  split; [|split; [lia|done]]. cbn [pos_X pos_H].
  rewrite Z.shiftr_div_pow2 by lia. split; [done|].
  pose proof (pow2_pos h). assert (X + 1 <= m_Total f / 2 ^ Z.of_nat h); [|lia].
  apply Z.div_le_lower_bound; lia.
Qed.

Lemma Reset_length (f : FixedMmmr (Hash := Hash)) t :
  0 <= t -> Z.of_nat (length (m_vHashes (Reset hzero f t))) = Reset_size u64_bits t t.
Proof.
  intros Ht. unfold Reset. cbn [m_vHashes]. rewrite length_resize, Z2Nat.id; [done|].
  rewrite Reset_size_total by done. apply (row_start_mono t 0 65); [done|lia].
Qed.
End facts.

(** * The properties of the Merkle mountain ranges *)
Section list_leaves.
Context {Hash : Type} (hash2 : Hash -> Hash -> Hash) (hzero : Hash).

(** The leaves of a tree built from a list. *)
Definition list_leaf (hs : list Hash) (i : Z) : Hash := default hzero (hs !! Z.to_nat i).

Lemma list_leaf_snoc hs hv i :
  0 <= i <= Z.of_nat (length hs) ->
  list_leaf (hs ++ [hv]) i = leaf_snoc (list_leaf hs) (Z.of_nat (length hs)) hv i.
Proof.
  intros Hi. unfold list_leaf, leaf_snoc. destruct (Z.eqb_spec i (Z.of_nat (length hs))) as [->|Hne].
  - rewrite Nat2Z.id, lookup_app_r, Nat.sub_diag by lia. done.
  - rewrite lookup_app_l by lia. done.
Qed.

Lemma root_hash_ext leaf1 leaf2 n :
  0 <= n -> (forall i, 0 <= i < n -> leaf1 i = leaf2 i) ->
  root_hash hash2 hzero leaf1 n = root_hash hash2 hzero leaf2 n.
Proof.
  intros Hn Hl. unfold root_hash. destruct (Z.eqb_spec n 0); [done|]. apply range_hash_ext; [lia|done].
Qed.

Lemma complete_ext load leaf1 leaf2 n :
  (forall i, 0 <= i < n -> leaf1 i = leaf2 i) ->
  complete hash2 load leaf1 n -> complete hash2 load leaf2 n.
Proof.
  intros Hl Hc h X HX Hle. rewrite Hc by done. apply Calculate_ext. intros i Hi. apply Hl.
  pose proof (pow2_pos h). nia.
Qed.

(** Appending a list to any implementation of the storage interface. *)
Lemma Append_list {S} `{MmrStorageLaws Hash S} (s : S) hs :
  Z.of_nat (length hs) < 2 ^ 64 ->
  (forall h X, 0 <= X -> (X + 1) * 2 ^ Z.of_nat h <= Z.of_nat (length hs) -> storage_ok s (mkPos h X)) ->
  let m := foldl (Append hash2) (0, s) hs in
  m.1 = Z.of_nat (length hs) /\ mmr_inv hash2 m (list_leaf hs) /\
  (forall q, storage_ok m.2 q <-> storage_ok s q).
Proof.
  intros Hlen Hroom. induction hs as [|hv hs IH] using rev_ind.
  - split; [done|]. split; [|done]. split; [done|]. intros h X HX Hle.
    pose proof (pow2_pos h). cbn [fst foldl] in Hle. nia.
  - rewrite length_app in *. cbn [length] in *.
    destruct IH as (E & Hi & Hok); [lia| |].
    { intros. apply Hroom; [done|lia]. }
    rewrite foldl_app. cbn [foldl]. set (m := foldl _ _ hs) in *.
    assert (mmr_room m) as Hr.
    { split; [lia|]. intros. apply Hok, Hroom; [done|lia]. }
    destruct (Append_inv hash2 m (list_leaf hs) hv Hi Hr) as [[Hb Hc] E'].
    split; [lia|]. split; [split; [done|]|].
    + rewrite E', E in *. eapply complete_ext; [|exact Hc].
      intros i Hii. symmetry. apply list_leaf_snoc. lia.
    + intros q. rewrite <- Hok. destruct m as [n s']. by apply Append_loop_ok.
Qed.

Lemma Compact_list hs :
  Z.of_nat (length hs) < 2 ^ 64 ->
  let c := foldl (Compact_Append hash2) (mkCompact 0 []) hs in
  c_Count c = Z.of_nat (length hs) /\ compact_inv hash2 c (list_leaf hs).
Proof.
  intros Hlen. induction hs as [|hv hs IH] using rev_ind.
  - split; [done|]. split; [done|]. cbn [c_Count c_vNodes foldl rev]. by rewrite peaks_0.
  - rewrite length_app in *. cbn [length] in *. destruct IH as (E & Hi); [lia|].
    rewrite foldl_app. cbn [foldl]. set (c := foldl _ _ hs) in *.
    destruct (Compact_Append_inv hash2 c (list_leaf hs) hv Hi) as [[Hb Hp] E']; [lia|].
    split; [lia|]. split; [done|]. rewrite Hp. apply peaks_ext; [lia|]. intros i Hii.
    rewrite E', E in Hii. rewrite E. change (2 ^ Z.of_nat 0) with 1 in Hii.
    symmetry. apply list_leaf_snoc. lia.
Qed.
End list_leaves.

(** C36: Building a tree: after [Reset] to a capacity [t], appending any list of
    at most [t] hashes to a [FixedMmmr] leaves [m_Count] equal to the number of
    hashes and [get_Hash] equal to the specified tree hash of the list. *)
Theorem fixed_mmr_root {Hash : Type} (hash2 : Hash -> Hash -> Hash) (hzero : Hash)
    (f : FixedMmmr (Hash := Hash)) (t : Z) (hs : list Hash) :
  Z.of_nat (length hs) <= t < 2 ^ 62 ->
  let _ := Fixed_storage hzero in
  let m := foldl (Append hash2) (0, Reset hzero f t) hs in
  m.1 = Z.of_nat (length hs) /\
  get_Hash hash2 hzero (LoadElement m.2) m.1
    = root_hash hash2 hzero (list_leaf hzero hs) (Z.of_nat (length hs)).
Proof.
  intros Ht I. pose proof (Append_list hash2 hzero (H := I) (Reset hzero f t) hs) as H.
  destruct H as (E & [Hb Hc] & _); [lia| |].
  - intros h X HX Hle. pose proof (pow2_pos h).
    assert (0 < Z.of_nat (length hs)) by nia.
    destruct (Fixed_room hzero (Reset hzero f t) (Z.of_nat (length hs) - 1) t) as [_ Hr];
      [lia|lia|done|apply Reset_length; lia|].
    apply Hr; [done|]. cbn [fst]. lia.
  - intros m. split; [done|]. rewrite <- E. by apply get_Hash_spec.
Qed.

Lemma fixed_mmr_root_witness :
  (foldl (Append (H := Fixed_storage 0) (fun a b => 3 * a + 5 * b)) (0, Reset 0 (mkFixed [] 0) 4) [7; 8; 9]).1 = 3.
Proof. apply (fixed_mmr_root (fun a b => 3 * a + 5 * b) 0 (mkFixed [] 0) 4 [7; 8; 9]). simpl. lia. Defined.

(** The compact form: [CompactMmr], which keeps only the peaks, has the same
    root as the full tree after every append, and its [get_PredictedHash] is the
    root it will have after the next append. *)
Theorem compact_mmr_equiv {Hash : Type} (hash2 : Hash -> Hash -> Hash) (hzero : Hash)
    (hs : list Hash) (hv : Hash) :
  Z.of_nat (length hs) + 1 < 2 ^ 64 ->
  let c := foldl (Compact_Append hash2) (mkCompact 0 []) hs in
  c_Count c = Z.of_nat (length hs) /\
  Compact_get_Hash hash2 hzero c
    = root_hash hash2 hzero (list_leaf hzero hs) (Z.of_nat (length hs)) /\
  Compact_get_PredictedHash hash2 c hv
    = Compact_get_Hash hash2 hzero (Compact_Append hash2 c hv).
Proof.
  intros Hl c. destruct (Compact_list hash2 hzero hs) as [E Hi]; [lia|]. fold c in E, Hi.
  destruct (Compact_Append_inv hash2 c _ hv Hi) as [Hi' E']; [lia|].
  rewrite (Compact_get_Hash_spec hash2 hzero c _ Hi), (Compact_get_Hash_spec hash2 hzero _ _ Hi').
  rewrite (Compact_get_PredictedHash_spec hash2 hzero c _ hv Hi), E', E. done.
Qed.

Lemma compact_mmr_equiv_witness :
  Compact_get_Hash (fun a b => 3 * a + 5 * b) 0
    (foldl (Compact_Append (fun a b => 3 * a + 5 * b)) (mkCompact 0 []) [7; 8; 9])
  = root_hash (fun a b => 3 * a + 5 * b) 0 (list_leaf 0 [7; 8; 9]) 3.
Proof. apply (compact_mmr_equiv (fun a b => 3 * a + 5 * b) 0 [7; 8; 9] 0). simpl. lia. Defined.

(** [Mmr::get_PredictedHash] on any complete storage is the root after
    appending that element, computed without changing the tree. *)
Theorem mmr_predicted_root {Hash : Type} (hash2 : Hash -> Hash -> Hash) (hzero : Hash)
    {S : Type} `{MmrStorageLaws Hash S} (m : Z * S) leaf hv :
  mmr_inv hash2 m leaf -> mmr_room m ->
  get_PredictedHash hash2 (LoadElement m.2) m.1 hv
    = get_Hash hash2 hzero (LoadElement (Append hash2 m hv).2) (Append hash2 m hv).1.
Proof.
  intros Hi Hr. destruct (Append_inv hash2 m leaf hv Hi Hr) as [[Hb Hc] E].
  rewrite (get_Hash_spec _ _ _ _ _ Hc Hb), E. destruct Hi as [Hb' Hc'].
  by rewrite (get_PredictedHash_spec hash2 hzero _ leaf).
Qed.

Lemma mmr_predicted_root_witness :
  let _ := Fixed_storage (Hash := Z) 0 in
  let m := foldl (Append Z.add) (0, Reset 0 (mkFixed [] 0) 4) [7; 8; 9] in
  get_PredictedHash Z.add (LoadElement m.2) m.1 10
    = get_Hash Z.add 0 (LoadElement (Append Z.add m 10).2) (Append Z.add m 10).1.
Proof.
  intros I m. apply (mmr_predicted_root (H0 := Fixed_laws 0) Z.add 0 m (list_leaf 0 [7; 8; 9])).
  - apply (Append_list Z.add 0 (H0 := Fixed_laws 0) (Reset 0 (mkFixed [] 0) 4) [7; 8; 9]); [done|].
    destruct (Fixed_room 0 (Reset 0 (mkFixed [] 0) 4) 2 4) as [_ Hr]; [lia|done|done|done|]. exact Hr.
  - apply (Fixed_room 0 m.2 3 4); [lia|done|vm_compute; reflexivity|vm_compute; reflexivity].
Defined.

(** Every leaf of the tree has a proof: [get_Proof] on a complete storage
    succeeds and interpreting the proof from the leaf's hash gives the root, also
    when the tree is not balanced and siblings are ranges. *)
Theorem mmr_proof_complete {Hash : Type} (hash2 : Hash -> Hash -> Hash) (hzero : Hash)
    load leaf m i :
  complete hash2 load leaf m -> 0 < m <= 2 ^ 63 -> 0 <= i < m ->
  let '(p, ok) := get_Proof hash2 hzero load AppendNode_std m [] i in
  ok = true /\ Interpret hash2 (leaf i) p = get_Hash hash2 hzero load m.
Proof.
  intros Hl Hm Hi. rewrite (get_Hash_spec hash2 hzero load leaf m Hl) by lia.
  by apply get_Proof_correct.
Qed.

Lemma mmr_proof_complete_witness :
  let leaf := list_leaf 0 [7; 8; 9; 4; 11] in
  let h2 := fun a b => 3 * a + 5 * b in
  let '(p, ok) := Fly_get_Proof h2 0 leaf AppendNode_std 5 [] 3 in
  ok = true /\ Interpret h2 (leaf 3) p = Fly_get_Hash h2 0 leaf 5.
Proof.
  intros leaf h2. apply (mmr_proof_complete h2 0 (Fly_load h2 leaf) leaf 5 3);
    [apply Fly_complete|lia|lia].
Defined.
