(* ===== verification/MultiProof.v ===== *)
(** Proofs for several leaves at once: [Merkle::MultiProof] of [core/merkle.h]
    and [core/merkle.cpp].

    [Builder] and [Verifier] go through the same sequence of leaves.  Both keep
    the positions of the last paths, and a path ends where it meets one of them.
    The vectors of the code are lists with their back at the head.  What the
    verifier accepts is compared with one hard proof for every leaf. *)

From S2P Require Import Prelude Merkle.

Section multiproof.
Context {Hash : Type} (hash2 : Hash -> Hash -> Hash) (hzero : Hash) `{EqDecision Hash}.

(** The loop at the beginning of both [AppendNode]: what is left of the last path,
    and the entry with the same position if there is one. *)
Fixpoint Pop_last {A} (at_pos : A -> Position) (vLast : list A) (pos : Position) : list A * option A :=
  match vLast with
  | [] => ([], None)
  | x :: vLast' =>
      if (pos_H pos <? pos_H (at_pos x))%nat then (vLast, None)
      else if (pos_H (at_pos x) =? pos_H pos)%nat && (pos_X (at_pos x) =? pos_X pos) then (vLast, Some x)
      else Pop_last at_pos vLast' pos
  end.

(** ** [MultiProof::Builder] *)
Record Builder := mkBuilder {
  b_vData : list Hash;
  b_vLast : list Position;
  b_vLastRev : list Position;
  b_bSkipSibling : bool
}.

Definition Builder_new (vData : list Hash) : Builder := mkBuilder vData [] [] false.

Definition Builder_AppendNode (b : Builder) (n : Node (Hash := Hash)) (pos : Position) : Builder * bool :=
  let '(vLast, found) := Pop_last id (b_vLast b) pos in
  match found with
  | Some _ => (mkBuilder (b_vData b) vLast (b_vLastRev b) (b_bSkipSibling b), false)
  | None =>
      let h0 := (pos_H pos =? 0)%nat in
      (mkBuilder (if negb h0 || negb (b_bSkipSibling b) then b_vData b ++ [n.2] else b_vData b) vLast
         (if h0 then b_vLastRev b else pos :: b_vLastRev b) (b_bSkipSibling b), true)
  end.

(** [Add], with the [get_Proof] of a tree of [m_Count] leaves. *)
Definition Builder_Add (load : Position -> Hash) (m_Count : Z) (b : Builder) (i : Z) : Builder :=
  let b := (get_Proof hash2 hzero load Builder_AppendNode m_Count b i).1 in
  mkBuilder (b_vData b) (rev_append (b_vLastRev b) (b_vLast b)) [] false.

(** ** [MultiProof::Verifier] *)

(** [MyNode]: the value at a position, and the position of its sibling. *)
Definition MyNode : Type := Hash * Position.

Record Verifier := mkVerifier {
  v_it : list Hash;
  v_vLast : list MyNode;
  v_vLastRev : list MyNode;
  v_hvPos : Hash;
  v_phvSibling : option Hash;
  v_bVerify : bool
}.

Definition Verifier_new (vData : list Hash) : Verifier := mkVerifier vData [] [] hzero None true.

Definition Verifier_AppendNode (ov : option Verifier) (n : Node (Hash := Hash)) (pos : Position) : option Verifier * bool :=
  match ov with
  | None => (None, false)
  | Some v =>
      let '(vLast, found) := Pop_last snd (v_vLast v) pos in
      match found with
      | Some mn =>
          (Some (mkVerifier (v_it v) vLast (v_vLastRev v) (v_hvPos v) (v_phvSibling v)
             (v_bVerify v && bool_decide (mn.1 = v_hvPos v))), false)
      | None =>
          let h0 := (pos_H pos =? 0)%nat in
          let vLastRev := if h0 then v_vLastRev v else (v_hvPos v, pos) :: v_vLastRev v in
          let finish sibling it :=
            (Some (mkVerifier it vLast vLastRev
               (if v_bVerify v then Interpret_new hash2 (v_hvPos v) sibling n.1 else v_hvPos v) None (v_bVerify v)), true) in
          match v_phvSibling v, v_it v with
          | Some x, it => if h0 then finish x it else (None, false)
          | None, x :: it => finish x it
          | None, [] => (Some (mkVerifier [] vLast vLastRev (v_hvPos v) None false), false)
          end
      end
  end.

Context (IsRootValid : Hash -> bool).

(** [Process] for the leaf whose hash is in [m_hvPos]. *)
Definition Process (m_Count : Z) (v : Verifier) (i : Z) : option Verifier :=
  if m_Count <=? i then Some (mkVerifier (v_it v) (v_vLast v) (v_vLastRev v) (v_hvPos v) (v_phvSibling v) false)
  else
    let '(v, all) := get_Proof hash2 hzero (fun _ => hzero) Verifier_AppendNode m_Count (Some v) i in
    v ← v;
    Some (mkVerifier (v_it v) (rev_append (v_vLastRev v) (v_vLast v)) [] (v_hvPos v) (v_phvSibling v)
      (if all then v_bVerify v && IsRootValid (v_hvPos v) else v_bVerify v)).

Definition set_hvPos (v : Verifier) (hv : Hash) : Verifier :=
  mkVerifier (v_it v) (v_vLast v) (v_vLastRev v) hv (v_phvSibling v) (v_bVerify v).

(** The leaves of a sequence, one after another. *)
Definition Build (load : Position -> Hash) (m_Count : Z) (b : Builder) (l : list Z) : Builder :=
  foldl (Builder_Add load m_Count) b l.

Fixpoint Verify (m_Count : Z) (v : Verifier) (l : list (Z * Hash)) : option Verifier :=
  match l with
  | [] => Some v
  | (i, hv) :: l => v ← Process m_Count (set_hvPos v hv) i; Verify m_Count v l
  end.
End multiproof.
Arguments mkBuilder {Hash}.
Arguments mkVerifier {Hash}.
Arguments b_vData {Hash}.
Arguments b_vLast {Hash}.
Arguments b_vLastRev {Hash}.
Arguments b_bSkipSibling {Hash}.
Arguments v_it {Hash}.
Arguments v_vLast {Hash}.
Arguments v_vLastRev {Hash}.
Arguments v_hvPos {Hash}.
Arguments v_phvSibling {Hash}.
Arguments v_bVerify {Hash}.

(** * Facts *)
Lemma Pop_last_spec {A} (at_pos : A -> Position) vLast pos rest found :
  Pop_last at_pos vLast pos = (rest, found) ->
  rest `suffix_of` vLast /\ match found with Some x => x ∈ vLast /\ at_pos x = pos | None => True end.
Proof.
  induction vLast as [|x l IH]; intros E; simpl in E; [simplify_eq; split; [by exists []|done]|].
  destruct (Nat.ltb_spec (pos_H pos) (pos_H (at_pos x))) as [Hlt|Hle]; [simplify_eq; split; [by exists []|done]|].
  destruct ((pos_H (at_pos x) =? pos_H pos)%nat && (pos_X (at_pos x) =? pos_X pos)) eqn:Eb.
  - simplify_eq. split; [by exists []|]. split; [left|]. destruct (at_pos x), pos. simpl in *.
    apply andb_true_iff in Eb as [?%Nat.eqb_eq ?%Z.eqb_eq]. by subst.
  - destruct (IH E) as [Hs Hf]. split; [by apply suffix_cons_r|]. destruct found; [|done]. destruct Hf. split; [by right|done].
Qed.

Lemma Pop_last_fmap {A B} (f : A -> B) (at_pos : B -> Position) l pos :
  Pop_last at_pos (f <$> l) pos = (f <$> (Pop_last (at_pos ∘ f) l pos).1, f <$> (Pop_last (at_pos ∘ f) l pos).2).
Proof.
  induction l as [|x l IH]; [done|]. rewrite fmap_cons. cbn [Pop_last]. unfold compose at 1 3.
  destruct (_ <? _)%nat; [done|]. destruct (_ && _); [done|]. apply IH.
Qed.

Lemma Forall_suffix {A} (P : A -> Prop) l k : l `suffix_of` k -> Forall P k -> Forall P l.
Proof. intros [j ->] [_ H]%Forall_app. done. Qed.

Lemma rev_append_Forall {A} (P : A -> Prop) l k : Forall P l -> Forall P k -> Forall P (rev_append l k).
Proof. intros Hl Hk. rewrite rev_append_rev, Forall_app. split; [by apply Forall_rev|done]. Qed.

Section facts.
Context {Hash : Type} (hash2 : Hash -> Hash -> Hash) (hzero : Hash) `{EqDecision Hash}.
Abbreviation nodes := (proof_nodes hash2 hzero).

(** ** Paths *)

(** The sides and positions of the siblings from the subtree [X] of height [h] up. *)
Definition steps (m : Z) (h : nat) (X : Z) : list (bool * Position) :=
  (fun x => (x.1.1, x.2)) <$> nodes (fun _ => hzero) (64 - h) m h (m / 2 ^ Z.of_nat h) X.

Definition steps_at (m : Z) (pos : Position) : list (bool * Position) := steps m (pos_H pos) (Z.lxor (pos_X pos) 1).

Lemma steps_unfold m h X : (h < 64)%nat ->
  steps m h X =
    if m / 2 ^ Z.of_nat h =? 0 then []
    else if negb (Z.odd X) && (m <=? u64 (Z.shiftl (Z.lxor X 1) (Z.of_nat h))) then steps m (S h) (X / 2)
    else (negb (Z.odd X), mkPos h (Z.lxor X 1)) :: steps m (S h) (X / 2).
Proof.
  intros Hh. unfold steps. replace (64 - h)%nat with (S (64 - S h)) by lia. cbn [proof_nodes].
  rewrite !shiftr1, <- div_pow2_S. destruct (_ =? 0); [done|]. destruct (_ && _); done.
Qed.

Lemma steps_cons m h X d pos l : (h <= 64)%nat -> steps m h X = (d, pos) :: l ->
  steps_at m pos = (d, pos) :: l /\ exists h' X', (h' <= 64)%nat /\ l = steps m h' X'.
Proof.
  remember (64 - h)%nat as k eqn:Ek. revert h X Ek. induction k as [|k IH]; intros h X Ek Hh E.
  { unfold steps in E. by rewrite <- Ek in E. }
  pose proof E as E0. rewrite steps_unfold in E by lia. destruct (_ =? 0); [done|]. destruct (_ && _).
  - by apply (IH (S h) (X / 2)); [lia..|].
  - simplify_eq. split; [|by exists (S h), (X / 2); split; [lia|]]. unfold steps_at. cbn [pos_H pos_X].
    by rewrite Z.lxor_assoc, Z.lxor_nilpotent, Z.lxor_0_r.
Qed.

(** ** What is accepted *)
(** The pairs that the verifier hashes. *)
Definition node_hashed (v : Verifier (Hash := Hash)) (n : Node (Hash := Hash)) (pos : Position) : list (Hash * Hash) :=
  match Pop_last snd (v_vLast v) pos, v_phvSibling v, v_it v with
  | (_, None), None, x :: _ => if v_bVerify v then [node_pair (v_hvPos v) x n.1] else []
  | (_, None), Some x, _ => if v_bVerify v && (pos_H pos =? 0)%nat then [node_pair (v_hvPos v) x n.1] else []
  | _, _, _ => []
  end.

Fixpoint run_hashed (v : Verifier (Hash := Hash)) (l : list (Node (Hash := Hash) * Position)) : list (Hash * Hash) :=
  match l with
  | [] => []
  | (n, pos) :: l =>
      node_hashed v n pos ++ match Verifier_AppendNode hash2 (Some v) n pos with (Some v, true) => run_hashed v l | _ => [] end
  end.

Definition Process_hashed (m_Count : Z) (v : Verifier) (i : Z) : list (Hash * Hash) :=
  if m_Count <=? i then [] else run_hashed v (nodes (fun _ => hzero) u64_bits m_Count 0 m_Count i).

(** The root that [Process] asks about at last. *)
Definition Process_root (m_Count : Z) (v : Verifier) (i : Z) : option Hash :=
  if m_Count <=? i then None
  else match run_builder (Verifier_AppendNode hash2) (Some v) (nodes (fun _ => hzero) u64_bits m_Count 0 m_Count i) with
       | (Some v, true) => Some (v_hvPos v)
       | _ => None
       end.

Context (IsRootValid : Hash -> bool) (okh : Hash -> Prop) (okp : Hash * Hash -> Prop) (okr : Hash -> Prop) (m : Z).

(** A hard proof leads along the path to a root that is accepted; what is hashed for it has [okp], and the root [okr]. *)
Definition auth (l : list (bool * Position)) (hv : Hash) : Prop :=
  exists p root, Forall okh p /\ fold_dirs hash2 hv (fst <$> l) p = Some (root, []) /\ IsRootValid root = true /\
    Forall okp (fold_hashed hash2 hv (fst <$> l) p) /\ okr root.

Definition authed (mn : Hash * Position) : Prop := auth (steps_at m mn.2) mn.1.

Lemma auth_cons d pos l hv x : okh x -> okp (node_pair hv x d) -> auth l (Interpret_new hash2 hv x d) -> auth ((d, pos) :: l) hv.
Proof. intros Hx Hq (p & root & Hp & E & Hr & Hpp & Hrr). exists (x :: p), root. split; [by constructor|]. split; [done|]. split; [done|]. split; [by constructor|done]. Qed.

Record v_sound (v : Verifier (Hash := Hash)) : Prop := {
  vs_it : Forall okh (v_it v);
  vs_sibling : v_phvSibling v = None;
  vs_last : v_bVerify v = true -> Forall authed (v_vLast v)
}.

(** Along a path: if nothing is found wrong until its end, all that was met on
    it is authentic. *)
Lemma run_sound (l : list (Node (Hash := Hash) * Position)) h X v ov all :
  (h <= 64)%nat -> (fun x => (x.1.1, x.2)) <$> l = steps m h X -> v_sound v ->
  run_builder (Verifier_AppendNode hash2) (Some v) l = (ov, all) -> Forall okp (run_hashed v l) ->
  exists v', ov = Some v' /\
    (v_bVerify v' = true -> (all = true -> IsRootValid (v_hvPos v') = true /\ okr (v_hvPos v')) ->
     v_bVerify v = true /\ auth (steps m h X) (v_hvPos v) /\
     exists r, v_vLastRev v' = r ++ v_vLastRev v /\ Forall authed r) /\ v_sound v'.
Proof.
  revert h X v. induction l as [|[[d nv] pos] l IH]; intros h X v Hh El Hv E Hlog.
  { simpl in E. simplify_eq. exists v. split; [done|]. split; [|done]. intros Hb Hr. split; [done|]. destruct (Hr eq_refl). split.
    - exists [], (v_hvPos v). rewrite <- El. split; [done|]. split; [done|]. split; [done|]. split; [constructor|done].
    - by exists []. }
  rewrite fmap_cons in El. symmetry in El. cbn [fst snd] in El.
  destruct (steps_cons _ _ _ _ _ _ Hh El) as (Hat & h' & X' & Hh' & Hl). destruct Hv as [Hit Hsib Hlast].
  cbn [run_builder run_hashed Verifier_AppendNode] in E, Hlog. unfold node_hashed in Hlog. rewrite Hsib in E, Hlog.
  destruct (Pop_last snd (v_vLast v) pos) as [vLast found] eqn:Ep. apply Pop_last_spec in Ep as [Hsuf Hf].
  assert (v_bVerify v = true -> Forall authed vLast) as Hlast' by (intros Hb; by apply (Forall_suffix _ _ _ Hsuf), Hlast).
  destruct found as [mn|].
  { simplify_eq. eexists. split; [done|]. split.
    2: { constructor; [done..|]. cbn [v_bVerify]. by intros [Hb _]%andb_true_iff; apply Hlast'. }
    cbn [v_bVerify v_vLastRev v_hvPos].
    intros [Hb ?%bool_decide_eq_true]%andb_true_iff _. destruct Hf as [Hin <-].
    specialize (Hlast Hb). rewrite Forall_forall in Hlast. pose proof (Hlast _ Hin) as Ha. unfold authed in Ha. rewrite Hat in Ha.
    rewrite El. split; [done|]. split; [congruence|]. by exists []. }
  destruct (v_it v) as [|x it] eqn:Ei.
  { simplify_eq. eexists. split; [done|]. split; [done|]. by constructor. }
  apply Forall_cons in Hit as [Hx Hit]. rewrite El. apply Forall_app in Hlog as [Hpair Hlog].
  eapply IH in E as (v' & -> & Hs & Hv'); [|exact Hh'|exact Hl|by constructor|exact Hlog].
  exists v'. split; [done|]. split; [|done]. intros Hb Hr. destruct (Hs Hb Hr) as (Hb0 & Ha & r & Er & Hr').
  cbn [v_bVerify v_hvPos v_vLastRev fst] in *. rewrite Hb0 in Hpair. apply Forall_cons in Hpair as [Hpair _]. rewrite Hb0, <- Hl in Ha. split; [done|].
  assert (auth ((d, pos) :: ((fun x => (x.1.1, x.2)) <$> l)) (v_hvPos v)) as Ha' by (by apply (auth_cons _ _ _ _ x)).
  split; [done|]. destruct (pos_H pos =? 0)%nat; [by exists r|].
  exists (r ++ [(v_hvPos v, pos)]). rewrite <- app_assoc. split; [done|]. rewrite Forall_app. split; [done|].
  constructor; [|done]. unfold authed. cbn [fst snd]. by rewrite Hat.
Qed.

Lemma steps_0 i : (fun x => (x.1.1, x.2)) <$> nodes (fun _ => hzero) u64_bits m 0 m i = steps m 0 i.
Proof. unfold steps. change (2 ^ Z.of_nat 0) with 1. rewrite Z.div_1_r. reflexivity. Qed.

Lemma Process_sound v i : 0 <= i -> v_sound v -> v_vLastRev v = [] -> Forall okp (Process_hashed m v i) -> (forall root, Process_root m v i = Some root -> okr root) ->
  exists v', Process hash2 hzero IsRootValid m v i = Some v' /\ v_vLastRev v' = [] /\ v_sound v' /\
    (v_bVerify v' = true -> v_bVerify v = true /\ i < m /\ auth (steps m 0 i) (v_hvPos v)).
Proof.
  intros Hi Hv Hrev. unfold Process, Process_hashed, Process_root. destruct (Z.leb_spec m i) as [Hle|Hlt].
  { intros _ _. eexists. split; [done|]. destruct Hv. by repeat split. }
  intros Hlog Hroot. unfold get_Proof. rewrite get_Proof_run.
  destruct (run_builder _ _ _) as [ov' all] eqn:Er.
  eapply (run_sound _ 0 i) in Er as (v' & -> & Hs & [H1 H2 H3]); [|lia|apply steps_0|done|exact Hlog].
  cbn [mbind option_bind]. eexists. split; [done|]. split; [done|].
  set (ok := if all then _ else _).
  assert (ok = true -> v_bVerify v' = true /\ (all = true -> IsRootValid (v_hvPos v') = true /\ okr (v_hvPos v'))) as Hok.
  { subst ok. destruct all; [|done]. intros [? ?]%andb_true_iff. split; [done|]. intros _. split; [done|]. by apply Hroot. }
  split.
  - constructor; [done..|]. cbn [v_bVerify v_vLast]. intros [Hb Hr]%Hok. destruct (Hs Hb Hr) as (_ & _ & r & Er & Hr').
    apply rev_append_Forall; [|by apply H3]. by rewrite Er, Hrev, app_nil_r.
  - cbn [v_bVerify]. intros [Hb Hr]%Hok. by destruct (Hs Hb Hr) as (? & ? & _).
Qed.

End facts.

(** ** What is built is accepted *)
Section complete.
Context {Hash : Type} (hash2 : Hash -> Hash -> Hash) (hzero : Hash) `{EqDecision Hash}.
Context (load : Position -> Hash) (leaf : Z -> Hash) (m : Z) (Hload : complete hash2 load leaf m) (Hm : 0 < m <= 2 ^ 63).
Abbreviation nodes := (proof_nodes hash2 hzero).

Definition honest (mn : Hash * Position) : Prop := mn.1 = own hash2 leaf m (pos_H mn.2) (Z.lxor (pos_X mn.2) 1).

(** The builder is where the verifier is with [last] and [rev]. *)
Record lockstep (b : Builder (Hash := Hash)) (last rev : list (Hash * Position)) : Prop := {
  lk_last : b_vLast b = snd <$> last;
  lk_rev : b_vLastRev b = snd <$> rev;
  lk_skip : b_bSkipSibling b = false;
  lk_honest : Forall honest last /\ Forall honest rev
}.

Lemma run_complete fuel h i b last rev b' ok :
  (h + fuel = 64)%nat -> 0 <= i -> i * 2 ^ Z.of_nat h < m -> lockstep b last rev ->
  run_builder Builder_AppendNode b (nodes load fuel m h (m / 2 ^ Z.of_nat h) i) = (b', ok) ->
  exists D last' rev' hv, b_vData b' = b_vData b ++ D /\ lockstep b' last' rev' /\
    (forall it, run_builder (Verifier_AppendNode hash2) (Some (mkVerifier (D ++ it) last rev (own hash2 leaf m h i) None true))
        (nodes (fun _ => hzero) fuel m h (m / 2 ^ Z.of_nat h) i) = (Some (mkVerifier it last' rev' hv None true), ok)) /\
    (ok = true -> hv = range_hash hash2 leaf 64 0 m).
Proof.
  revert h i b last rev. induction fuel as [|fuel IH]; intros h i b last rev Hf Hi Him Hb E.
  { simpl in E. simplify_eq. exists [], last, rev, (own hash2 leaf m h i). rewrite app_nil_r. split_and!; [done..|].
    intros _. replace h with 64%nat in * by lia. by apply own_top. }
  destruct (proof_nodes_step hash2 hzero load leaf m fuel h i Hload Hm Hf Hi Him)
    as (Hi2 & Hi2' & [[Ez Ho]|[(Ez & Hskip & Ho)|(Ez & Hskip & nv & En & Ho)]]).
  - cbn [proof_nodes] in *. rewrite (proj2 (Z.eqb_eq _ _) Ez) in *. simpl in E. simplify_eq.
    exists [], last, rev, (own hash2 leaf m h i). rewrite app_nil_r. by split_and!.
  - cbn [proof_nodes] in *. rewrite (proj2 (Z.eqb_neq _ _) Ez), Hskip in *. rewrite !shiftr1, <- !div_pow2_S in *.
    rewrite Ho. eapply IH; [lia|done..].
  - rewrite En in E. cbn [run_builder] in E. unfold Builder_AppendNode at 1 in E. destruct Hb as [Hl Hr Hs [Hol Hor]].
    set (pos := mkPos h (Z.lxor i 1)) in *.
    assert (nodes (fun _ => hzero) (S fuel) m h (m / 2 ^ Z.of_nat h) i
      = (negb (Z.odd i), (if negb (Z.odd i) && (Z.shiftr (m - u64 (Z.shiftl (Z.lxor i 1) (Z.of_nat h))) (Z.of_nat h) =? 0)
            then default hzero (get_HashForRange hash2 (fun _ => hzero) (u64 (Z.shiftl (Z.lxor i 1) (Z.of_nat h))) (m - u64 (Z.shiftl (Z.lxor i 1) (Z.of_nat h))))
            else hzero), pos) :: nodes (fun _ => hzero) fuel m (S h) (m / 2 ^ Z.of_nat (S h)) (i / 2)) as Ev.
    { cbn [proof_nodes]. by rewrite (proj2 (Z.eqb_neq _ _) Ez), Hskip, !shiftr1, <- !div_pow2_S. }
    rewrite Ev. cbn [run_builder Verifier_AppendNode v_vLast v_vLastRev v_hvPos v_bVerify v_phvSibling].
    rewrite Hl, Pop_last_fmap, Hr, Hs in E. change (id ∘ snd) with (snd (A := Hash) (B := Position)) in E.
    destruct (Pop_last snd last pos) as [last1 found] eqn:Ep. pose proof (Pop_last_spec _ _ _ _ _ Ep) as [Hsuf Hfound].
    pose proof (Forall_suffix _ _ _ Hsuf Hol) as Hol1. destruct found as [mn|]; cbn [fst snd fmap option_fmap option_map] in E.
    + simplify_eq. exists [], last1, rev, (own hash2 leaf m h i). rewrite app_nil_r.
      destruct Hfound as [Hin Hpos]. rewrite Forall_forall in Hol. pose proof (Hol _ Hin) as Hmn. unfold honest in Hmn.
      rewrite Hpos in Hmn. subst pos. cbn [pos_H pos_X] in Hmn. rewrite Z.lxor_assoc, Z.lxor_nilpotent, Z.lxor_0_r in Hmn.
      split_and!; [done|by constructor|intros it|done]. cbn [app v_it]. by rewrite bool_decide_true.
    + apply (IH (S h) (i / 2) _ last1 (if (pos_H pos =? 0)%nat then rev else (own hash2 leaf m h i, pos) :: rev)) in E
        as (D & last' & rev' & hv & ED & Hlk & Hrun & Hroot); [|lia|done|done|].
      * exists (nv :: D), last', rev', hv. split_and!; [|done| |done].
        -- rewrite ED. cbn [b_vData snd]. rewrite orb_true_r, <- app_assoc. done.
        -- intros it. cbn [app v_it fst]. rewrite Ho. rewrite <- Hrun. done.
      * constructor; cbn [b_vLast b_vLastRev b_bSkipSibling]; [done| |done|].
        -- by destruct (pos_H pos =? 0)%nat.
        -- split; [done|]. destruct (pos_H pos =? 0)%nat; [done|]. constructor; [|done]. unfold honest. cbn [fst snd pos_H pos_X].
           subst pos. cbn [pos_H pos_X]. by rewrite Z.lxor_assoc, Z.lxor_nilpotent, Z.lxor_0_r.
Qed.

Context (IsRootValid : Hash -> bool) (Hroot : IsRootValid (root_hash hash2 hzero leaf m) = true).

Lemma Add_complete b last i : 0 <= i < m -> lockstep b last [] ->
  exists D last', b_vData (Builder_Add hash2 hzero load m b i) = b_vData b ++ D /\ lockstep (Builder_Add hash2 hzero load m b i) last' [] /\
    forall it, exists hv, Process hash2 hzero IsRootValid m (mkVerifier (D ++ it) last [] (leaf i) None true) i
      = Some (mkVerifier it last' [] hv None true).
Proof.
  intros Hi Hb. unfold Builder_Add, Process, get_Proof. rewrite (proj2 (Z.leb_gt _ _)) by lia. rewrite get_Proof_run.
  destruct (run_builder Builder_AppendNode b _) as [b' ok] eqn:E. cbn [fst].
  rewrite <- (Z.div_1_r m) in E at 2. change 1 with (2 ^ Z.of_nat 0) in E. unfold u64_bits in E.
  eapply run_complete in E as (D & last' & rev' & hv & ED & [H1 H2 H3 [H4 H5]] & Hrun & Htop); [|lia|lia|lia|done].
  exists D, (rev_append rev' last'). split; [done|]. split.
  - constructor; cbn [b_vLast b_vLastRev b_bSkipSibling]; [|done|done|].
    + rewrite H1, H2, !rev_append_rev. rewrite fmap_app. f_equal. symmetry. apply map_rev.
    + split; [by apply rev_append_Forall|done].
  - intros it. exists hv. specialize (Hrun it). rewrite own_leaf in Hrun by done.
    rewrite get_Proof_run. change (2 ^ Z.of_nat 0) with 1 in Hrun. rewrite Z.div_1_r in Hrun. unfold u64_bits.
    match goal with |- context [run_builder ?A ?x ?l] => replace (run_builder A x l) with (Some (mkVerifier it last' rev' hv None true), ok) by (symmetry; exact Hrun) end.
    cbn [mbind option_bind v_it v_vLast v_vLastRev v_hvPos v_phvSibling v_bVerify andb]. do 2 f_equal. destruct ok; [|done].
    rewrite (Htop eq_refl). unfold root_hash in Hroot. by rewrite (proj2 (Z.eqb_neq _ _)) in Hroot by lia.
Qed.

Lemma Build_complete l b last : Forall (fun i => 0 <= i < m) l -> lockstep b last [] ->
  exists D, b_vData (Build hash2 hzero load m b l) = b_vData b ++ D /\
    forall it hv, exists v, Verify hash2 hzero IsRootValid m (mkVerifier (D ++ it) last [] hv None true) ((fun i => (i, leaf i)) <$> l) = Some v /\
      v_bVerify v = true /\ v_it v = it.
Proof.
  revert b last. induction l as [|i l IH]; intros b last Hl Hb.
  { exists []. rewrite app_nil_r. split; [done|]. intros it hv. eexists. split; [done|]. done. }
  apply Forall_cons in Hl as [Hi Hl]. destruct (Add_complete b last i Hi Hb) as (D & last' & ED & Hb' & Hp).
  destruct (IH _ _ Hl Hb') as (D' & ED' & Hv). exists (D ++ D'). unfold Build in *. cbn [foldl]. rewrite ED', ED, <- app_assoc.
  split; [done|]. intros it hv. rewrite fmap_cons. cbn [Verify]. unfold set_hvPos. cbn [v_it v_vLast v_vLastRev v_phvSibling v_bVerify].
  rewrite <- app_assoc. destruct (Hp (D' ++ it)) as (hv' & ->). cbn [mbind option_bind]. apply Hv.
Qed.

(** The proof that is built for a sequence of leaves is accepted for it, to its
    last hash. *)
Lemma multi_proof_complete l : Forall (fun i => 0 <= i < m) l ->
  exists v, Verify hash2 hzero IsRootValid m (Verifier_new hzero (b_vData (Build hash2 hzero load m (Builder_new []) l)))
      ((fun i => (i, leaf i)) <$> l) = Some v /\ v_bVerify v = true /\ v_it v = [].
Proof.
  intros Hl. destruct (Build_complete l (Builder_new []) [] Hl) as (D & ED & Hv); [by constructor|].
  rewrite ED. cbn [b_vData Builder_new app]. rewrite <- (app_nil_r D). apply Hv.
Qed.
End complete.

(** ** The part of the proof that is not looked at *)
Section rest.
Context {Hash : Type} (hash2 : Hash -> Hash -> Hash) (hzero : Hash) `{EqDecision Hash}.

Definition with_it (v : Verifier (Hash := Hash)) (it : list Hash) : Verifier :=
  mkVerifier it (v_vLast v) (v_vLastRev v) (v_hvPos v) (v_phvSibling v) (v_bVerify v).

Lemma AppendNode_rest v n pos v' ok w X :
  Verifier_AppendNode hash2 (Some v) n pos = (Some v', ok) -> v_it v' = w ++ X ->
  exists u, v_it v = u ++ X /\ Verifier_AppendNode hash2 (Some (with_it v u)) n pos = (Some (with_it v' w), ok).
Proof.
  intros E Ew. cbn [Verifier_AppendNode with_it v_it v_vLast v_vLastRev v_hvPos v_phvSibling v_bVerify] in *.
  destruct (Pop_last _ _ _) as [vLast [mn|]].
  { simplify_eq. cbn in Ew. exists w. by split. }
  destruct (v_phvSibling v) as [x|].
  { destruct (pos_H pos =? 0)%nat; simplify_eq. cbn in Ew. exists w. by split. }
  destruct (v_it v) as [|x it]; simplify_eq; cbn in Ew.
  - symmetry in Ew. apply app_nil in Ew as [-> ->]. exists []. by split.
  - exists (x :: w). subst it. by split.
Qed.

Lemma run_rest (l : list (Node (Hash := Hash) * Position)) v v' all w X :
  run_builder (Verifier_AppendNode hash2) (Some v) l = (Some v', all) -> v_it v' = w ++ X ->
  exists u, v_it v = u ++ X /\ run_builder (Verifier_AppendNode hash2) (Some (with_it v u)) l = (Some (with_it v' w), all).
Proof.
  revert v. induction l as [|[n pos] l IH]; intros v E Ew; [simpl in E; simplify_eq; by exists w|].
  cbn [run_builder] in *. destruct (Verifier_AppendNode hash2 (Some v) n pos) as [[v1|] ok] eqn:E1.
  - destruct ok.
    + destruct (IH v1 E Ew) as (u1 & Eu1 & Er). destruct (AppendNode_rest _ _ _ _ _ _ _ E1 Eu1) as (u & Eu & E2). exists u. by rewrite E2.
    + simplify_eq. destruct (AppendNode_rest _ _ _ _ _ _ _ E1 Ew) as (u & Eu & E2). exists u. by rewrite E2.
  - destruct ok; [|done]. exfalso. clear - E. induction l as [|[n pos] l IH]; [done|]. by apply IH.
Qed.

Lemma Process_rest IsRootValid m v i v' w X :
  Process hash2 hzero IsRootValid m v i = Some v' -> v_it v' = w ++ X ->
  exists u, v_it v = u ++ X /\ Process hash2 hzero IsRootValid m (with_it v u) i = Some (with_it v' w).
Proof.
  unfold Process. destruct (m <=? i); [intros E Ew; simplify_eq; by exists w|]. unfold get_Proof. rewrite !get_Proof_run.
  destruct (run_builder _ (Some v) _) as [[v1|] all] eqn:Er; cbn [mbind option_bind]; [|done]. intros E Ew. simplify_eq. cbn in Ew.
  destruct (run_rest _ _ _ _ _ _ Er Ew) as (u & Eu & Er'). exists u. split; [done|]. rewrite get_Proof_run.
  match goal with |- context [run_builder ?A ?x ?l] => replace (run_builder A x l) with (Some (with_it v1 w), all) by (symmetry; exact Er') end.
  done.
Qed.
End rest.
