(* ===== verification/DistMmr.v ===== *)
(** [Merkle::DistributedMmr] of [core/merkle.h] and [core/merkle.cpp]: a Merkle mountain
    range whose hashes and references are spread over its elements.

    An element has a key and a buffer: the hashes of the trees that end with it, from
    the height 1 up, a key for each of them, and the key of the next mountain on the
    left.  [Impl] finds an element by its index on a path of references that it keeps
    ([m_pNodes] up to [m_nDepth], here a list with the top first).  The virtual
    functions [get_NodeData] and [get_NodeHash] are parameters.  An assertion that does not
    hold, or an access outside of a buffer, is [None]. *)

From S2P Require Import Prelude Merkle.

Section model.
Context {Hash : Type} (hash2 : Hash -> Hash -> Hash) (hzero : Hash).

(** The buffer of an element: an array of hashes, then one of keys. *)
Record NodeData := mkNodeData { nd_Hashes : list Hash; nd_Keys : list Z }.

Definition nDepthMax : nat := 128.

Fixpoint get_Height (fuel : nat) (n : Z) : nat :=
  match fuel with
  | O => 0
  | S fuel => if Z.odd n then S (get_Height fuel (Z.shiftr n 1)) else 0
  end.

(** The height, and the new value of [n0]. *)
Definition get_NextPeak (n0 : Z) : nat * Z :=
  let h := get_Height u64_bits n0 in (h, u64 (n0 - (Z.shiftl 1 (Z.of_nat h) - 1))).

(** The number of hashes and of keys of a buffer. *)
Definition get_NodeSize (n : Z) : nat * nat :=
  let '(h, n) := get_NextPeak n in (h, if negb (n =? 0) then (h + 1)%nat else h).

Section impl.
Context (get_NodeData : Z -> option NodeData) (get_NodeHash : Z -> option Hash).

(** The path: keys and indices. *)
Abbreviation Path := (list (Z * Z)).

Fixpoint Descend (h : nat) (nIdx nPos dn : Z) (pK : list Z) : option (Z * Z) :=
  let dn := Z.shiftr dn 1 in
  match h with
  | O => None
  | S h =>
      if nIdx <? u64 (nPos + dn) then k ← pK !! h; Some (k, u64 (nPos + dn - 1))
      else Descend h nIdx (u64 (nPos + dn)) dn pK
  end.

Fixpoint FindElement_loop (fuel : nat) (path : Path) (nIdx : Z) : option (Path * Z) :=
  match fuel, path with
  | S fuel, (k, nPos) :: rest =>
      if nPos =? nIdx then Some (path, k)
      else if nPos <? nIdx then
        match rest with [] => None | _ :: _ => FindElement_loop fuel rest nIdx end
      else if negb (length path <? nDepthMax)%nat then None
      else
        let '(h, nPos1) := get_NextPeak nPos in
        d ← get_NodeData k;
        if negb (length (nd_Hashes d) =? h)%nat then None
        else
          n2 ← (if nPos1 <=? nIdx then Descend h nIdx nPos1 (u64 (nPos - nPos1 + 1)) (nd_Keys d)
                else k ← nd_Keys d !! h; Some (k, u64 (nPos1 - 1)));
          FindElement_loop fuel (n2 :: path) nIdx
  | _, _ => None
  end.

(** The path only gets shorter until its top is not before the element, and only longer then. *)
Definition FindElement (path : Path) (nIdx : Z) : option (Path * Z) := FindElement_loop (2 * nDepthMax + 1) path nIdx.

Definition Impl_new (m_Count m_kLast : Z) : Path := [(m_kLast, u64 (m_Count - 1))].

(** [Impl::LoadElement]. *)
Definition Dist_LoadElement (path : Path) (pos : Position) : option (Path * Hash) :=
  let nIdx := u64 (Z.shiftl (pos_X pos + 1) (Z.of_nat (pos_H pos)) - 1) in
  '(path, k) ← FindElement path nIdx;
  match pos_H pos with
  | O => hv ← get_NodeHash k; Some (path, hv)
  | S h => d ← get_NodeData k; hv ← nd_Hashes d !! h; Some (path, hv)
  end.

(** [Impl::SaveElement] to [m_pTrgHash] and [m_pTrgKey]. *)
Definition Dist_SaveElement (m_Count : Z) (path : Path) (trg : NodeData) (hv : Hash) (pos : Position) : option NodeData :=
  match pos_H pos with
  | O => Some trg
  | S h =>
      top ← head path;
      if negb (top.2 =? u64 (m_Count - Z.shiftl 1 (Z.of_nat h))) || negb (h <? length (nd_Hashes trg))%nat || negb (h <? length (nd_Keys trg))%nat then None
      else Some (mkNodeData (<[h := hv]> (nd_Hashes trg)) (<[h := top.1]> (nd_Keys trg)))
  end.

(** [Mmr::Append] with these functions. *)
Fixpoint Dist_Append_loop (fuel : nat) (m_Count : Z) (path : Path) (trg : NodeData) (hv1 : Hash) (h : nat) (X : Z) : option (Path * NodeData) :=
  match fuel with
  | O => None
  | S fuel =>
      trg ← Dist_SaveElement m_Count path trg hv1 (mkPos h X);
      if negb (Z.odd X) then Some (path, trg)
      else
        let X := Z.lxor X 1 in
        '(path, hv0) ← Dist_LoadElement path (mkPos h X);
        Dist_Append_loop fuel m_Count path trg (Interpret_new hash2 hv1 hv0 false) (S h) (Z.shiftr X 1)
  end.

(** [Append]: the buffer of the new element. *)
Definition Dist_Append (m_Count m_kLast : Z) (hv : Hash) : option NodeData :=
  let '(h, n) := get_NextPeak m_Count in
  let '(nH, nK) := get_NodeSize m_Count in
  '(path, trg) ← Dist_Append_loop (S u64_bits) m_Count (Impl_new m_Count m_kLast) (mkNodeData (replicate nH hzero) (replicate nK 0)) hv 0 m_Count;
  if negb (n =? 0) then
    '(_, k) ← FindElement path (u64 (n - 1));
    if negb (h <? length (nd_Keys trg))%nat then None else Some (mkNodeData (nd_Hashes trg) (<[h := k]> (nd_Keys trg)))
  else Some trg.

Fixpoint Dist_Predicted_loop (fuel : nat) (path : Path) (hv : Hash) (h : nat) (X : Z) : option Hash :=
  match fuel with
  | O => if X =? 0 then Some hv else None
  | S fuel =>
      if X =? 0 then Some hv
      else if Z.odd X then
        let X := Z.lxor X 1 in
        '(path, hv0) ← Dist_LoadElement path (mkPos h X);
        Dist_Predicted_loop fuel path (Interpret_new hash2 hv hv0 false) (S h) (Z.shiftr X 1)
      else Dist_Predicted_loop fuel path hv (S h) (Z.shiftr X 1)
  end.

Definition Dist_get_PredictedHash (m_Count m_kLast : Z) (hvAppend : Hash) : option Hash :=
  Dist_Predicted_loop u64_bits (Impl_new m_Count m_kLast) hvAppend 0 m_Count.

(** [get_HashForRange] from 0. *)
Fixpoint Dist_Hash_loop (fuel : nat) (path : Path) (hv : option Hash) (h : nat) (n : Z) : option (option Hash) :=
  match fuel with
  | O => if n =? 0 then Some hv else None
  | S fuel =>
      if n =? 0 then Some hv
      else if Z.odd n then
        '(path, hv0) ← Dist_LoadElement path (mkPos h (Z.lxor n 1));
        Dist_Hash_loop fuel path (Some (match hv with None => hv0 | Some hv => Interpret_new hash2 hv hv0 false end)) (S h) (Z.shiftr n 1)
      else Dist_Hash_loop fuel path hv (S h) (Z.shiftr n 1)
  end.

Definition Dist_get_Hash (m_Count m_kLast : Z) : option Hash :=
  hv ← Dist_Hash_loop u64_bits (Impl_new m_Count m_kLast) None 0 m_Count; Some (default hzero hv).
End impl.
End model.

(** ** Heights *)
Lemma get_Height_eq h : forall fuel q, (h < fuel)%nat -> 0 <= q -> get_Height fuel ((2 * q + 1) * 2 ^ Z.of_nat h - 1) = h.
Proof.
  induction h as [|h IH]; intros [|fuel] q Hf Hq; try lia; cbn [get_Height].
  - change (2 ^ Z.of_nat 0) with 1. replace ((2 * q + 1) * 1 - 1) with (2 * q) by lia. by rewrite Z.odd_mul.
  - rewrite pow2_S. replace ((2 * q + 1) * (2 * 2 ^ Z.of_nat h) - 1) with (2 * ((2 * q + 1) * 2 ^ Z.of_nat h - 1) + 1) by lia.
    rewrite Z.odd_add, Z.odd_mul. cbn [Z.odd xorb andb]. rewrite shiftr1, Z.add_comm, Z.mul_comm, Z_div_plus by lia. change (1 / 2) with 0. by rewrite Z.add_0_l, IH by lia.
Qed.

(** The trailing ones of an index. *)
Lemma height_ex (p : Z) : 0 <= p -> p < 2 ^ 63 -> exists (h : nat) X, p + 1 = X * 2 ^ Z.of_nat h /\ Z.odd X = true /\ 0 < X /\ (h < 64)%nat.
Proof.
  intros H0 Hlt. assert (forall f : nat, forall x, 0 < x <= 2 ^ Z.of_nat f -> exists (h : nat) X, x = X * 2 ^ Z.of_nat h /\ Z.odd X = true /\ 0 < X /\ (h <= f)%nat) as H.
  { induction f as [|f IH]; intros x Hx.
    - exists 0%nat, x. change (2 ^ Z.of_nat 0) with 1 in *. assert (x = 1) as -> by lia. done.
    - destruct (Z.odd x) eqn:Eo; [exists 0%nat, x; change (2 ^ Z.of_nat 0) with 1; split_and!; [lia|done|lia|lia]|].
      pose proof (odd_decomp x) as Ex. rewrite Eo in Ex. rewrite pow2_S in Hx. destruct (IH (x / 2)) as (h & X & E & Ho & HX & Hh); [lia|].
      exists (S h), X. rewrite pow2_S. split_and!; [lia|done|lia|lia]. }
  destruct (H 63%nat (p + 1)) as (h & X & ?); [change (2 ^ Z.of_nat 63) with (2 ^ 63); lia|]. exists h, X. intuition lia.
Qed.

Lemma pow_lt_64 h : (h < 64)%nat -> 2 ^ Z.of_nat h < 2 ^ 64.
Proof. intros. apply Z.pow_lt_mono_r; lia. Qed.

Lemma NextPeak_eq X h : Z.odd X = true -> 0 < X -> X * 2 ^ Z.of_nat h <= 2 ^ 63 -> get_NextPeak (X * 2 ^ Z.of_nat h - 1) = (h, (X - 1) * 2 ^ Z.of_nat h).
Proof.
  intros Ho HX Hb. pose proof (odd_decomp X) as EX. rewrite Ho in EX. pose proof (pow2_pos h).
  assert (h < 64)%nat. { destruct (decide (h < 64)%nat); [done|]. assert (2 ^ 64 <= 2 ^ Z.of_nat h) by (apply Z.pow_le_mono_r; lia). nia. }
  unfold get_NextPeak. assert (get_Height u64_bits (X * 2 ^ Z.of_nat h - 1) = h) as ->.
  { rewrite EX at 1. apply get_Height_eq; [done|]. apply Z.div_pos; lia. }
  f_equal. rewrite Z.shiftl_mul_pow2 by lia. rewrite wrap_small; [lia|]. unfold in_width. nia.
Qed.

(** ** What the elements hold *)
Section spec.
Context {Hash : Type} (hash2 : Hash -> Hash -> Hash) (hzero : Hash).
Context (get_NodeData : Z -> option (NodeData (Hash := Hash))) (get_NodeHash : Z -> option Hash).
Context (leaf : Z -> Hash) (keyOf : Z -> Z).

(** The buffer of the element [p] with [p + 1 = X * 2 ^ h] for an odd [X]. *)
Definition spec_data (p X : Z) (h : nat) : NodeData :=
  mkNodeData ((fun j => Calculate hash2 leaf (S j) (p / 2 ^ Z.of_nat (S j))) <$> seq 0 h)
    ((fun j => keyOf (p - 2 ^ Z.of_nat j)) <$> seq 0 (if X =? 1 then h else S h)).

Definition elem_ok (p : Z) : Prop :=
  get_NodeHash (keyOf p) = Some (leaf p) /\ forall X h, Z.odd X = true -> 0 < X -> p + 1 = X * 2 ^ Z.of_nat h -> get_NodeData (keyOf p) = Some (spec_data p X h).

Context (c : Z) (Hc : 0 <= c < 2 ^ 63) (Hok : forall p, 0 <= p < c -> elem_ok p).

(** The part of the leaves that is in trees of height [h] at least. *)
Definition above (h : nat) : Z := c / 2 ^ Z.of_nat h * 2 ^ Z.of_nat h.

Lemma above_le h : 0 <= above h <= c.
Proof. unfold above. pose proof (pow2_pos h). pose proof (Z.div_mod c (2 ^ Z.of_nat h) ltac:(lia)). pose proof (Z.mod_pos_bound c (2 ^ Z.of_nat h) ltac:(lia)). split; [apply Z.mul_nonneg_nonneg; [apply Z.div_pos; lia|lia]|lia]. Qed.

Lemma above_S h : above (S h) = if Z.odd (c / 2 ^ Z.of_nat h) then (c / 2 ^ Z.of_nat h - 1) * 2 ^ Z.of_nat h else above h.
Proof.
  unfold above. rewrite div_pow2_S, pow2_S. pose proof (odd_decomp (c / 2 ^ Z.of_nat h)). destruct (Z.odd (c / 2 ^ Z.of_nat h)); [|nia].
  assert (c / 2 ^ Z.of_nat h / 2 * 2 = c / 2 ^ Z.of_nat h - 1) by lia. nia.
Qed.

(** A path whose top is at the end of this part, or is the mountain on the right of it. *)
Definition at_level (path : list (Z * Z)) (h : nat) : Prop :=
  exists p rest, path = (keyOf p, p) :: rest /\ 0 <= p < c /\ (length path <= S h)%nat /\
    (p + 1 = above h \/ exists X g, Z.odd X = true /\ 0 < X /\ p + 1 = X * 2 ^ Z.of_nat g /\ (X - 1) * 2 ^ Z.of_nat g = above h).

Lemma find_level path h : (h <= 64)%nat -> at_level path h -> 0 < above h ->
  exists path', FindElement get_NodeData path (above h - 1) = Some (path', keyOf (above h - 1)) /\ head path' = Some (keyOf (above h - 1), above h - 1) /\ (length path' <= S (S h))%nat.
Proof.
  intros Hh (p & rest & -> & Hp & Hlen & Hcase) Ha. unfold FindElement. assert (exists f, 2 * nDepthMax + 1 = S (S f))%nat as [f ->] by (by exists 255%nat). destruct Hcase as [E|(X & g & Ho & HX & E & E')].
  - cbn [FindElement_loop]. rewrite (proj2 (Z.eqb_eq _ _)) by lia. replace p with (above h - 1) by lia. eexists. split; [done|]. split; [done|]. cbn [length] in *. lia.
  - pose proof (pow2_pos g). assert (X <> 1) as HX1 by (intros ->; lia). cbn [FindElement_loop]. rewrite (proj2 (Z.eqb_neq p _)) by nia. rewrite (proj2 (Z.ltb_ge p _)) by nia.
    rewrite (proj2 (Nat.ltb_lt _ _)) by (unfold nDepthMax; lia). cbn [negb]. assert (get_NextPeak p = (g, above h)) as ->.
    { replace p with (X * 2 ^ Z.of_nat g - 1) by lia. rewrite NextPeak_eq by first [done|lia]. by rewrite E'. }
    destruct (Hok p Hp) as [_ Hd]. rewrite (Hd X g Ho HX E). cbn [mbind option_bind nd_Hashes nd_Keys spec_data]. rewrite length_fmap, length_seq, Nat.eqb_refl. cbn [negb].
    rewrite (proj2 (Z.leb_gt (above h) _)) by lia. rewrite (proj2 (Z.eqb_neq X 1)) by done. rewrite list_lookup_fmap, lookup_seq_lt by lia. cbn [fmap option_fmap option_map mbind option_bind].
    rewrite Nat.add_0_l. rewrite wrap_small by (unfold in_width; pose proof (above_le h); lia). replace (p - 2 ^ Z.of_nat g) with (above h - 1) by lia.
    rewrite Z.eqb_refl. eexists. split; [done|]. split; [done|]. cbn [length] in *. lia.
Qed.

Lemma find_next path h : at_level path h -> Z.odd (c / 2 ^ Z.of_nat h) = true -> forall path', head path' = Some (keyOf (above h - 1), above h - 1) -> (length path' <= S (S h))%nat -> at_level path' (S h).
Proof.
  intros _ Ho path' Hhd Hlen. destruct path' as [|x rest]; [done|]. injection Hhd as ->. pose proof (pow2_pos h). assert (0 < c / 2 ^ Z.of_nat h) as HX.
  { assert (0 <= c / 2 ^ Z.of_nat h) by (apply Z.div_pos; lia). destruct (decide (c / 2 ^ Z.of_nat h = 0)) as [E|]; [by rewrite E in Ho|lia]. }
  assert (0 < above h) by (unfold above; nia). exists (above h - 1), rest. split; [done|]. pose proof (above_le h). split; [lia|]. split; [done|]. right. exists (c / 2 ^ Z.of_nat h), h.
  split; [done|]. split; [done|]. split; [unfold above; lia|]. rewrite above_S, Ho. done.
Qed.

(** Loading the tree of height [h] that ends there. *)
Lemma load_level path h : (h <= 63)%nat -> at_level path h -> Z.odd (c / 2 ^ Z.of_nat h) = true ->
  exists path', Dist_LoadElement get_NodeData get_NodeHash path (mkPos h (c / 2 ^ Z.of_nat h - 1)) = Some (path', Calculate hash2 leaf h (c / 2 ^ Z.of_nat h - 1)) /\
    at_level path' (S h) /\ head path' = Some (keyOf (above h - 1), above h - 1).
Proof.
  intros Hh Hl Ho. pose proof (pow2_pos h) as Hp. set (X := c / 2 ^ Z.of_nat h) in *. assert (0 < X) as HX.
  { assert (0 <= X) by (apply Z.div_pos; lia). destruct (decide (X = 0)) as [E|]; [by rewrite E in Ho|lia]. }
  assert (0 < above h) as Ha by (unfold above; fold X; nia). pose proof (above_le h) as Hle.
  destruct (find_level path h ltac:(lia) Hl Ha) as (path' & E & Hhd & Hlen). exists path'. split; [|split; [by apply (find_next path)|done]].
  unfold Dist_LoadElement. cbn [pos_X pos_H]. replace (X - 1 + 1) with X by lia. rewrite Z.shiftl_mul_pow2 by lia. fold (above h). unfold above in *. fold X in E, Ha, Hle |- *.
  rewrite wrap_small by (unfold in_width; lia). rewrite E. cbn [mbind option_bind]. destruct (Hok (X * 2 ^ Z.of_nat h - 1) ltac:(lia)) as [Hn Hd]. destruct h as [|h].
  - change (2 ^ Z.of_nat 0) with 1 in *. rewrite Z.mul_1_r in *. by rewrite Hn.
  - rewrite (Hd X (S h)) by first [done|lia]. cbn [mbind option_bind nd_Hashes spec_data]. rewrite list_lookup_fmap, lookup_seq_lt by lia. cbn [fmap option_fmap option_map mbind option_bind].
    rewrite Nat.add_0_l. do 3 f_equal. symmetry. apply Z.div_unique with (2 ^ Z.of_nat (S h) - 1); lia.
Qed.

Lemma skip_level path h : at_level path h -> Z.odd (c / 2 ^ Z.of_nat h) = false -> at_level path (S h).
Proof. intros (p & rest & E & Hp & Hlen & Hcase) Ho. exists p, rest. split; [done|]. split; [done|]. split; [lia|]. by rewrite above_S, Ho. Qed.

Lemma level_0 : 0 < c -> at_level (Impl_new c (keyOf (c - 1))) 0.
Proof.
  intros H0. unfold Impl_new. rewrite wrap_small by (unfold in_width; lia). exists (c - 1), []. split; [done|]. split; [lia|]. split; [done|]. left. unfold above. change (2 ^ Z.of_nat 0) with 1. rewrite Z.div_1_r. lia.
Qed.

(** ** Queries *)
Lemma Predicted_loop_eq fuel : forall path hv h, (h + fuel = 64)%nat -> (0 < c -> at_level path h) ->
  Dist_Predicted_loop hash2 get_NodeData get_NodeHash fuel path hv h (c / 2 ^ Z.of_nat h) = Some (PredictedHash_loop hash2 (Fly_load hash2 leaf) fuel hv h (c / 2 ^ Z.of_nat h)).
Proof.
  induction fuel as [|fuel IH]; intros path hv h Hf Hl; cbn [Dist_Predicted_loop PredictedHash_loop].
  { replace h with 64%nat by lia. by rewrite Z.div_small by (change (Z.of_nat 64) with 64; lia). }
  destruct (Z.eqb_spec (c / 2 ^ Z.of_nat h) 0) as [|Hne]; [done|]. assert (0 < c) as H0 by (destruct (decide (c = 0)) as [E|]; [by rewrite E, Z.div_0_l in Hne by (pose proof (pow2_pos h); lia)|lia]). specialize (Hl H0).
  destruct (Z.odd (c / 2 ^ Z.of_nat h)) eqn:Ho.
  - destruct (load_level path h ltac:(lia) Hl Ho) as (path' & E & Hl' & _). rewrite lxor1_odd by done. rewrite E. cbn [mbind option_bind].
    rewrite <- lxor1_odd by done. rewrite lxor1_shiftr1, <- div_pow2_S. rewrite IH by (try lia; done). by rewrite lxor1_odd by done.
  - rewrite shiftr1, <- div_pow2_S. apply IH; [lia|]. intros _. by apply skip_level.
Qed.

Lemma Dist_PredictedHash_ok kLast hv : (0 < c -> kLast = keyOf (c - 1)) -> Dist_get_PredictedHash hash2 get_NodeData get_NodeHash c kLast hv = Some (root_hash hash2 hzero (leaf_snoc leaf c hv) (c + 1)).
Proof.
  intros Hk. unfold Dist_get_PredictedHash. rewrite <- (get_PredictedHash_spec hash2 hzero (Fly_load hash2 leaf) leaf c hv) by (try apply Fly_complete; lia). unfold get_PredictedHash.
  pose proof (Predicted_loop_eq u64_bits (Impl_new c kLast) hv 0 ltac:(done)) as H. change (2 ^ Z.of_nat 0) with 1 in H. rewrite Z.div_1_r in H. apply H. intros H0. rewrite Hk by done. by apply level_0.
Qed.

Lemma Hash_loop_eq fuel : forall path hv h, (h + fuel = 64)%nat -> (0 < c -> at_level path h) ->
  Dist_Hash_loop hash2 get_NodeData get_NodeHash fuel path hv h (c / 2 ^ Z.of_nat h) = Some (HashForRange_loop hash2 (Fly_load hash2 leaf) fuel hv h 0 (c / 2 ^ Z.of_nat h)).
Proof.
  induction fuel as [|fuel IH]; intros path hv h Hf Hl; cbn [Dist_Hash_loop HashForRange_loop].
  { replace h with 64%nat by lia. by rewrite Z.div_small by (change (Z.of_nat 64) with 64; lia). }
  destruct (Z.eqb_spec (c / 2 ^ Z.of_nat h) 0) as [|Hne]; [done|]. assert (0 < c) as H0 by (destruct (decide (c = 0)) as [E|]; [by rewrite E, Z.div_0_l in Hne by (pose proof (pow2_pos h); lia)|lia]). specialize (Hl H0).
  rewrite Z.shiftr_0_l, !shiftr1, <- !div_pow2_S. destruct (Z.odd (c / 2 ^ Z.of_nat h)) eqn:Ho.
  - destruct (load_level path h ltac:(lia) Hl Ho) as (path' & E & Hl' & _). rewrite Z.add_0_l, lxor1_odd by done. rewrite E. cbn [mbind option_bind]. rewrite IH by (try lia; done).
    by destruct hv.
  - apply IH; [lia|]. intros _. by apply skip_level.
Qed.

Lemma Dist_Hash_ok kLast : (0 < c -> kLast = keyOf (c - 1)) -> Dist_get_Hash hash2 hzero get_NodeData get_NodeHash c kLast = Some (root_hash hash2 hzero leaf c).
Proof.
  intros Hk. unfold Dist_get_Hash. rewrite <- (get_Hash_spec hash2 hzero (Fly_load hash2 leaf) leaf c) by (try apply Fly_complete; lia). unfold get_Hash, get_HashForRange.
  pose proof (Hash_loop_eq u64_bits (Impl_new c kLast) None 0 ltac:(done)) as H. change (2 ^ Z.of_nat 0) with 1 in H. rewrite Z.div_1_r in H. rewrite H; [done|]. intros H0. rewrite Hk by done. by apply level_0.
Qed.
End spec.

(** ** Appending *)
Section append.
Context {Hash : Type} (hash2 : Hash -> Hash -> Hash) (hzero : Hash).
Context (get_NodeData : Z -> option (NodeData (Hash := Hash))) (get_NodeHash : Z -> option Hash).
Context (leaf : Z -> Hash) (keyOf : Z -> Z) (c : Z) (Hc : 0 <= c < 2 ^ 63 - 1).
Context (Hok : forall p, 0 <= p < c -> elem_ok hash2 get_NodeData get_NodeHash leaf keyOf p) (hv : Hash).
Context (X1 : Z) (h1 : nat) (Ho1 : Z.odd X1 = true) (Hpos : 0 < X1) (E1 : c + 1 = X1 * 2 ^ Z.of_nat h1).

Lemma h1_small : (h1 <= 62)%nat.
Proof. destruct (decide (h1 <= 62)%nat); [done|]. assert (2 ^ 63 <= 2 ^ Z.of_nat h1) by (apply Z.pow_le_mono_r; lia). nia. Qed.

Lemma ones_div h X : (h <= h1)%nat -> X = c / 2 ^ Z.of_nat h -> c + 1 = (X + 1) * 2 ^ Z.of_nat h /\ 0 <= X.
Proof.
  intros Hh ->. pose proof (pow2_pos h). set (q := X1 * 2 ^ Z.of_nat (h1 - h)). assert (c + 1 = q * 2 ^ Z.of_nat h) as E.
  { unfold q. rewrite E1, <- Z.mul_assoc, <- Z.pow_add_r by lia. do 2 f_equal. lia. }
  assert (c / 2 ^ Z.of_nat h = q - 1) as ->; [|split; [lia|]; enough (0 < q) by lia; apply Z.mul_pos_pos; [done|apply pow2_pos]].
  symmetry. apply Z.div_unique with (2 ^ Z.of_nat h - 1); lia.
Qed.

Lemma level_parity h : (h <= h1)%nat -> Z.odd (c / 2 ^ Z.of_nat h) = negb (h =? h1)%nat.
Proof.
  intros Hh. destruct (ones_div h _ Hh eq_refl) as [E H0]. set (X := c / 2 ^ Z.of_nat h) in *. pose proof (pow2_pos h). destruct (Nat.eqb_spec h h1) as [->|Hne]; cbn [negb].
  - assert (X + 1 = X1) as E' by nia. rewrite <- E', Z.odd_add in Ho1. by destruct (Z.odd X).
  - assert (X + 1 = 2 * (X1 * 2 ^ Z.of_nat (h1 - S h))) as E'.
    { apply (Z.mul_reg_r _ _ (2 ^ Z.of_nat h)); [lia|]. rewrite <- E, E1. replace h1 with (S (h1 - S h) + h)%nat at 1 by lia. rewrite Nat2Z.inj_add, Z.pow_add_r, pow2_S by lia. lia. }
    replace X with (2 * (X1 * 2 ^ Z.of_nat (h1 - S h)) - 1) by lia. by rewrite Z.odd_sub, Z.odd_mul.
Qed.

(** The entries below [h] are written. *)
Definition written (trg : NodeData) (h : nat) : Prop :=
  length (nd_Hashes trg) = h1 /\ length (nd_Keys trg) = (if X1 =? 1 then h1 else S h1) /\
  forall j, (j < h)%nat -> nd_Hashes trg !! j = Some (Calculate hash2 (leaf_snoc leaf c hv) (S j) (c / 2 ^ Z.of_nat (S j))) /\ nd_Keys trg !! j = Some (keyOf (c - 2 ^ Z.of_nat j)).

Definition top_at (path : list (Z * Z)) (h : nat) : Prop := match h with O => True | S g => head path = Some (keyOf (c - 2 ^ Z.of_nat g), c - 2 ^ Z.of_nat g) end.

Lemma save_level path trg h : (h <= h1)%nat -> top_at path h -> written trg (pred h) ->
  exists trg', Dist_SaveElement c path trg (Calculate hash2 (leaf_snoc leaf c hv) h (c / 2 ^ Z.of_nat h)) (mkPos h (c / 2 ^ Z.of_nat h)) = Some trg' /\ written trg' h.
Proof.
  intros Hh Ht (H1 & H2 & H3). unfold Dist_SaveElement. cbn [pos_H]. destruct h as [|g]; [by exists trg|]. cbn [top_at pred] in *. rewrite Ht. cbn [mbind option_bind fst snd].
  assert (h1 <= length (nd_Keys trg))%nat as Hk by (rewrite H2; destruct (X1 =? 1); lia). destruct (ones_div (S g) _ Hh eq_refl) as [E H0]. pose proof (pow2_pos g). assert (2 ^ Z.of_nat g <= c) as Hg by (set (Y := c / 2 ^ Z.of_nat (S g)) in *; rewrite pow2_S in E; nia).
  rewrite Z.shiftl_mul_pow2, Z.mul_1_l by lia. rewrite wrap_small by (unfold in_width; lia). rewrite Z.eqb_refl, (proj2 (Nat.ltb_lt g _)), (proj2 (Nat.ltb_lt g _)) by lia. cbn [negb orb].
  eexists. split; [done|]. unfold written. cbn [nd_Hashes nd_Keys]. rewrite !length_insert. split; [done|]. split; [done|]. intros j Hj. destruct (decide (j = g)) as [->|Hne].
  - by rewrite !list_lookup_insert_eq by lia.
  - rewrite !list_lookup_insert_ne by done. apply H3. lia.
Qed.

Lemma Dist_Append_loop_ok fuel : forall path trg h, (h <= h1)%nat -> (h1 < h + fuel)%nat -> (0 < c -> at_level keyOf c path h) -> top_at path h -> written trg (pred h) ->
  exists path' trg', Dist_Append_loop hash2 get_NodeData get_NodeHash fuel c path trg (Calculate hash2 (leaf_snoc leaf c hv) h (c / 2 ^ Z.of_nat h)) h (c / 2 ^ Z.of_nat h) = Some (path', trg') /\
    written trg' h1 /\ (0 < c -> at_level keyOf c path' h1).
Proof.
  induction fuel as [|fuel IH]; intros path trg h Hh Hf Hl Ht Hw; [lia|]. cbn [Dist_Append_loop]. destruct (save_level path trg h Hh Ht Hw) as (trg1 & -> & Hw1). cbn [mbind option_bind].
  rewrite level_parity by done. destruct (Nat.eqb_spec h h1) as [->|Hne]; cbn [negb]; [by exists path, trg1|]. pose proof (level_parity h Hh) as Ho. rewrite (proj2 (Nat.eqb_neq _ _)) in Ho by done.
  destruct (ones_div h _ Hh eq_refl) as [E H0]. set (X := c / 2 ^ Z.of_nat h) in *. pose proof (pow2_pos h) as Hp. pose proof h1_small.
  assert (0 < X) as HX by (destruct (decide (X = 0)) as [E0|]; [by rewrite E0 in Ho|lia]). assert (0 < c) as Hc0 by nia.
  destruct (load_level hash2 get_NodeData get_NodeHash leaf keyOf c ltac:(lia) Hok path h ltac:(lia) (Hl Hc0) Ho) as (path' & El & Hl' & Hhd). fold X in El.
  pose proof (lxor1_shiftr1 X) as Es. rewrite lxor1_odd in Es |- * by done. rewrite El. cbn [mbind option_bind]. rewrite Es. unfold Interpret_new.
  rewrite <- (Calculate_snoc hash2 leaf c hv h (X - 1)) by nia. rewrite Calculate_parent by done. unfold X. rewrite <- div_pow2_S. apply IH; [lia|lia|done| |done].
  unfold top_at. rewrite Hhd. assert (above c h - 1 = c - 2 ^ Z.of_nat h) as -> by (unfold above; fold X; lia). done.
Qed.

Lemma Dist_Append_ok kLast : (0 < c -> kLast = keyOf (c - 1)) ->
  Dist_Append hash2 hzero get_NodeData get_NodeHash c kLast hv = Some (spec_data hash2 (leaf_snoc leaf c hv) keyOf c X1 h1).
Proof.
  intros Hk. pose proof h1_small. pose proof (pow2_pos h1). unfold Dist_Append, get_NodeSize. assert (get_NextPeak c = (h1, (X1 - 1) * 2 ^ Z.of_nat h1)) as ->.
  { replace c with (X1 * 2 ^ Z.of_nat h1 - 1) by lia. apply NextPeak_eq; [done|done|lia]. }
  assert (((X1 - 1) * 2 ^ Z.of_nat h1 =? 0) = (X1 =? 1)) as -> by (destruct (Z.eqb_spec X1 1) as [->|]; [by rewrite Z.mul_0_l|apply Z.eqb_neq; nia]).
  destruct (Dist_Append_loop_ok (S u64_bits) (Impl_new c kLast) (mkNodeData (replicate h1 hzero) (replicate (if negb (X1 =? 1) then h1 + 1 else h1) 0)) 0) as (path & trg & E & (H1 & H2 & H3) & Hl).
  - lia.
  - unfold u64_bits. lia.
  - intros Hc0. rewrite Hk by done. apply level_0; lia.
  - done.
  - unfold written. cbn [nd_Hashes nd_Keys]. rewrite !length_replicate. split; [done|]. split; [destruct (X1 =? 1); cbn; lia|]. intros j Hj. cbn in Hj. lia.
  - change (2 ^ Z.of_nat 0) with 1 in E. rewrite Z.div_1_r in E. cbn [Calculate] in E. rewrite leaf_snoc_n in E. rewrite E. cbn [mbind option_bind].
    assert (above c h1 = (X1 - 1) * 2 ^ Z.of_nat h1) as Ea by (unfold above; destruct (ones_div h1 _ ltac:(lia) eq_refl); nia).
    assert (forall L, length L = h1 -> (forall j, (j < h1)%nat -> L !! j = Some (Calculate hash2 (leaf_snoc leaf c hv) (S j) (c / 2 ^ Z.of_nat (S j)))) -> L = (fun j => Calculate hash2 (leaf_snoc leaf c hv) (S j) (c / 2 ^ Z.of_nat (S j))) <$> seq 0 h1) as Hhs.
    { intros L HL Hj. apply list_eq_same_length with h1; [by rewrite length_fmap, length_seq|done|]. intros j x y Hlt Hx Hy. rewrite Hj in Hx by done. rewrite list_lookup_fmap, lookup_seq_lt in Hy by done. cbn in Hx, Hy. congruence. }
    assert (forall n L, length L = n -> (forall j, (j < n)%nat -> L !! j = Some (keyOf (c - 2 ^ Z.of_nat j))) -> L = (fun j => keyOf (c - 2 ^ Z.of_nat j)) <$> seq 0 n) as Hks.
    { intros n L HL Hj. apply list_eq_same_length with n; [by rewrite length_fmap, length_seq|done|]. intros j x y Hlt Hx Hy. rewrite Hj in Hx by done. rewrite list_lookup_fmap, lookup_seq_lt in Hy by done. cbn in Hx, Hy. congruence. }
    unfold spec_data. destruct (Z.eqb_spec X1 1) as [HX|HX]; cbn [negb].
    + destruct trg as [hs ks]. cbn [nd_Hashes nd_Keys] in *. do 2 f_equal; [apply Hhs; [done|]; intros; by apply H3|apply Hks; [done|]; intros; by apply H3].
    + assert (0 < (X1 - 1) * 2 ^ Z.of_nat h1) as Hgt by nia. assert (0 < c) as Hc0 by lia.
      destruct (find_level hash2 get_NodeData get_NodeHash leaf keyOf c ltac:(lia) Hok path h1 ltac:(lia) (Hl Hc0) ltac:(lia)) as (path' & Ef & _). rewrite Ea in Ef.
      rewrite wrap_small by (unfold in_width; nia). rewrite Ef. cbn [mbind option_bind]. rewrite (proj2 (Nat.ltb_lt _ _)) by lia. cbn [negb]. do 2 f_equal; [apply Hhs; [done|]; intros; by apply H3|].
      apply Hks; [by rewrite length_insert|]. intros j Hj. destruct (decide (j = h1)) as [->|Hne]; [rewrite list_lookup_insert_eq by lia; do 2 f_equal; lia|].
      rewrite list_lookup_insert_ne by done. apply H3. lia.
Qed.
End append.
