(* ===== verification/EccData.v ===== *)
(** What the chain objects use of [core/ecc.h], [core/ecc_native.h] and
    [core/ecc.cpp]: the encodings fed to [Hash::Processor], the plain data of
    points, scalars and signatures with their [cmp], and the laws of [cmp]
    functions built with the [CMP_MEMBER] macros of [core/block_crypt.cpp].

    SHA-256 (secp256k1) is a parameter of the clients; [Hash::Processor] only
    concatenates what is written, so that a preimage is a byte list. *)

From S2P Require Import Prelude UintBig.

(** ** [Hash::Processor::Write] *)

(** Unsigned integers: seven bits at a time, the low ones first, independent of
    the width of the type; 64-bit values take at most ten bytes. *)
Fixpoint Write_uint_loop (fuel : nat) (v : Z) : list Z :=
  match fuel with
  | O => [u8 v]
  | S fuel =>
      if 0x80 <=? v then Z.lor (u8 v) 0x80 :: Write_uint_loop fuel (Z.shiftr v 7)
      else [u8 v]
  end.

Definition Write_uint (v : Z) : list Z := Write_uint_loop 10 v.
Definition Write_u8 (n : Z) : list Z := [n].
Definition Write_bool (b : bool) : list Z := Write_u8 (if b then 1 else 0).
Definition Write_big (x : list Z) : list Z := x.

(** ** Points, scalars, signatures *)
Record Point := mkPoint { m_X : list Z; m_Y : Z }.

Definition Write_Point (p : Point) : list Z := Write_big (m_X p) ++ Write_u8 (m_Y p).

(** The [CMP_*] macros: a comparison that falls through to the rest when equal. *)
Definition CMP_SIMPLE (a b rest : Z) : Z := if a <? b then -1 else if b <? a then 1 else rest.
Definition CMP_EX (n rest : Z) : Z := if n =? 0 then rest else n.
Definition CMP_PTRS {A} (cmp : A -> A -> Z) (a b : option A) (rest : Z) : Z :=
  match a, b with
  | Some a, Some b => CMP_EX (cmp a b) rest
  | Some _, None => 1
  | None, Some _ => -1
  | None, None => rest
  end.

Definition Point_cmp (a v : Point) : Z :=
  CMP_EX (_Cmp (m_X a) (m_X v)) (CMP_SIMPLE (m_Y a) (m_Y v) 0).

Record Signature := mkSig { m_NoncePub : Point; m_k : list Z }.

Definition Signature_cmp (a x : Signature) : Z :=
  CMP_EX (Point_cmp (m_NoncePub a) (m_NoncePub x)) (_Cmp (m_k a) (m_k x)).

(** * Facts *)

(** ** Unambiguous encodings

    An encoder is prefix-free on a set of values when the encoding can be split
    off any stream that starts with it. *)
Definition prefix_free {A} (ok : A -> Prop) (enc : A -> list Z) : Prop :=
  forall a b r s, ok a -> ok b -> enc a ++ r = enc b ++ s -> a = b /\ r = s.

Lemma prefix_free_seq {A B} okA okB (encA : A -> list Z) (encB : B -> list Z) :
  prefix_free okA encA -> prefix_free okB encB ->
  prefix_free (fun p => okA p.1 /\ okB p.2) (fun p => encA p.1 ++ encB p.2).
Proof.
  intros HA HB [a b] [a' b'] r s [Ha Hb] [Ha' Hb'] E. simpl in *.
  rewrite <- !app_assoc in E. destruct (HA _ _ _ _ Ha Ha' E) as [-> E'].
  destruct (HB _ _ _ _ Hb Hb' E') as [-> ->]. done.
Qed.

Lemma prefix_free_inj {A B} ok (f : A -> B) okB encB (enc : A -> list Z) :
  prefix_free okB encB -> (forall a, ok a -> okB (f a)) ->
  (forall a b, ok a -> ok b -> f a = f b -> a = b) -> (forall a, enc a = encB (f a)) ->
  prefix_free ok enc.
Proof.
  intros HB Hok Hinj He a b r s Ha Hb E. rewrite !He in E.
  destruct (HB _ _ _ _ (Hok _ Ha) (Hok _ Hb) E) as [Ef ->]. auto.
Qed.

Definition bytes_n (n : nat) (l : list Z) : Prop := bytes_ok l /\ length l = n.

Lemma prefix_free_bytes n : prefix_free (bytes_n n) Write_big.
Proof.
  intros a b r s [_ Ha] [_ Hb] E. unfold Write_big in E. apply app_inj_1 in E; [done|congruence].
Qed.

Lemma prefix_free_u8 : prefix_free byte_ok Write_u8.
Proof. intros a b r s _ _ E. unfold Write_u8 in E. simplify_eq/=. done. Qed.

Lemma prefix_free_bool : prefix_free (fun _ => True) Write_bool.
Proof. intros [] [] r s _ _ E; unfold Write_bool, Write_u8 in E; simplify_eq/=; done. Qed.

Lemma lor_80 v : Z.lor (u8 v) 0x80 = 128 + v mod 128.
Proof.
  assert (v mod 128 = u8 v mod 128) as ->.
  { unfold wrap. change (2 ^ 8) with (128 * 2).
    rewrite Z.rem_mul_r by lia. rewrite Z.mul_comm, Z.mod_add, Z.mod_mod by lia. done. }
  revert v. assert (forall b, byte_ok b -> Z.lor b 128 = 128 + b mod 128) as H.
  { intros b Hb. apply Z.eqb_eq. revert b Hb. apply byte_forall. vm_compute. reflexivity. }
  intros v. apply H, u8_byte.
Qed.

Lemma Write_uint_loop_inj fuel a b r s :
  0 <= a < 2 ^ (7 * (Z.of_nat fuel + 1)) -> 0 <= b < 2 ^ (7 * (Z.of_nat fuel + 1)) ->
  Write_uint_loop fuel a ++ r = Write_uint_loop fuel b ++ s -> a = b /\ r = s.
Proof.
  revert a b r s. induction fuel as [|fuel IH]; intros a b r s Ha Hb E.
  - change (2 ^ (7 * (Z.of_nat 0 + 1))) with 128 in *. cbn in E.
    rewrite !byte_ok_u8 in E by (unfold byte_ok; lia). by simplify_eq.
  - cbn [Write_uint_loop] in E.
    destruct (Z.leb_spec 0x80 a) as [La|La], (Z.leb_spec 0x80 b) as [Lb|Lb];
      cbn [app] in E; injection E as E1 E2; rewrite ?lor_80, ?byte_ok_u8 in E1 by (unfold byte_ok; lia);
      pose proof (Z.mod_pos_bound a 128 ltac:(lia)); pose proof (Z.mod_pos_bound b 128 ltac:(lia));
      try lia; [|done].
    rewrite !Z.shiftr_div_pow2 in E2 by lia. change (2 ^ 7) with 128 in E2.
    assert (2 ^ (7 * (Z.of_nat (S fuel) + 1)) = 128 * 2 ^ (7 * (Z.of_nat fuel + 1))) as Ep.
    { change 128 with (2 ^ 7). rewrite <- Z.pow_add_r by lia. f_equal. lia. }
    rewrite Ep in Ha, Hb. apply IH in E2 as [Ed ->];
      try (split; [apply Z.div_pos; lia|apply Z.div_lt_upper_bound; lia]).
    split; [|done]. rewrite (Z.div_mod a 128), (Z.div_mod b 128) by lia. lia.
Qed.

Lemma prefix_free_uint : prefix_free (in_width 64) Write_uint.
Proof.
  intros a b r s Ha Hb E. unfold in_width in *. apply (Write_uint_loop_inj 10); try done;
    change (2 ^ (7 * (Z.of_nat 10 + 1))) with (2 ^ 77); lia.
Qed.

Definition point_ok (p : Point) : Prop := bytes_n 32 (m_X p) /\ byte_ok (m_Y p).

Lemma prefix_free_Point : prefix_free point_ok Write_Point.
Proof.
  apply (prefix_free_inj point_ok (fun p => (m_X p, m_Y p)) _ _ _
           (prefix_free_seq _ _ _ _ (prefix_free_bytes 32) prefix_free_u8)); [done| |done].
  intros [] [] _ _ E. simpl in E. by simplify_eq.
Qed.

(** ** [cmp] functions are total orders

    A three-way comparison that is zero only for equal values, changes sign when
    its arguments are swapped and is transitive. *)
Record cmp_order {A} (ok : A -> Prop) (cmp : A -> A -> Z) : Prop := {
  co_eq a b : ok a -> ok b -> cmp a b = 0 <-> a = b;
  co_anti a b : ok a -> ok b -> cmp a b < 0 <-> 0 < cmp b a;
  co_trans a b c : ok a -> ok b -> ok c -> cmp a b < 0 -> cmp b c < 0 -> cmp a c < 0
}.

Lemma CMP_SIMPLE_EX a b rest : CMP_SIMPLE a b rest = CMP_EX (CMP_SIMPLE a b 0) rest.
Proof. unfold CMP_SIMPLE, CMP_EX. by destruct (a <? b), (b <? a). Qed.

Lemma cmp_order_Z : cmp_order (fun _ => True) (fun a b => CMP_SIMPLE a b 0).
Proof.
  unfold CMP_SIMPLE. split; intros; repeat case_match; try lia;
    rewrite ?Z.ltb_lt, ?Z.ltb_ge in *; lia.
Qed.

Lemma cmp_order_bytes n : cmp_order (bytes_n n) _Cmp.
Proof.
  split.
  - intros a b [Ha La] [Hb Lb]. rewrite _Cmp_spec, cmpZ_eq by done. split; [|by intros ->].
    apply be_val_inj; [done|done|congruence].
  - intros a b [Ha _] [Hb _]. rewrite !_Cmp_spec by done. by rewrite cmpZ_lt, cmpZ_gt.
  - intros a b c [Ha _] [Hb _] [Hc _]. rewrite !_Cmp_spec, !cmpZ_lt by done. lia.
Qed.

(** Member after member. *)
Lemma cmp_order_pair {A B} okA okB (cA : A -> A -> Z) (cB : B -> B -> Z) :
  cmp_order okA cA -> cmp_order okB cB ->
  cmp_order (fun p => okA p.1 /\ okB p.2) (fun p q => CMP_EX (cA p.1 q.1) (cB p.2 q.2)).
Proof.
  intros [EA SA TA] [EB SB TB]. unfold CMP_EX. split.
  - intros [a b] [a' b'] [Ha Hb] [Ha' Hb']. simpl in *.
    destruct (Z.eqb_spec (cA a a') 0) as [E|E].
    + apply EA in E as ->; [|done..]. rewrite EB by done. split; [by intros ->|by intros [= ->]].
    + split; [done|]. intros [= -> ->]. by destruct (EA a' a' Ha' Ha') as [_ ?]; auto.
  - intros [a b] [a' b'] [Ha Hb] [Ha' Hb']. simpl in *.
    pose proof (EA a a' Ha Ha') as E1. pose proof (EA a' a Ha' Ha) as E2.
    destruct (Z.eqb_spec (cA a a') 0) as [E|E], (Z.eqb_spec (cA a' a) 0) as [E'|E'].
    + by apply SB.
    + exfalso. apply E', E2. symmetry. by apply E1.
    + exfalso. apply E, E1. symmetry. by apply E2.
    + by apply SA.
  - intros [a b] [a' b'] [a'' b''] [Ha Hb] [Ha' Hb'] [Ha'' Hb'']. simpl in *.
    destruct (Z.eqb_spec (cA a a') 0) as [E|E].
    + apply EA in E as ->; [|done..]. destruct (Z.eqb_spec (cA a' a'') 0); [by eauto|done].
    + destruct (Z.eqb_spec (cA a' a'') 0) as [E'|E'].
      * apply EA in E' as ->; [|done..]. by rewrite (proj2 (Z.eqb_neq _ _) E).
      * intros H1 H2. pose proof (TA a a' a'' Ha Ha' Ha'' H1 H2) as H3.
        rewrite (proj2 (Z.eqb_neq (cA a a'') 0)) by lia. done.
Qed.

(** Through an injective view of a record. *)
Lemma cmp_order_inj {A B} (f : A -> B) ok okB cB (cmp : A -> A -> Z) :
  cmp_order okB cB -> (forall a, ok a -> okB (f a)) ->
  (forall a b, f a = f b -> a = b) ->
  (forall a b, ok a -> ok b -> cmp a b = cB (f a) (f b)) ->
  cmp_order ok cmp.
Proof.
  intros [E S T] Hok Hinj Hc. split.
  - intros a b Ha Hb. rewrite Hc, E by auto. split; [apply Hinj|by intros ->].
  - intros a b Ha Hb. rewrite !Hc by done. apply S; auto.
  - intros a b c Ha Hb Hd. rewrite !Hc by done. apply T; auto.
Qed.

(** Optional members. *)
Lemma cmp_order_option {A} ok (cmp : A -> A -> Z) :
  cmp_order ok cmp ->
  cmp_order (fun o => forall a, o = Some a -> ok a) (fun a b => CMP_PTRS cmp a b 0).
Proof.
  intros [E S T]. unfold CMP_PTRS, CMP_EX. split.
  - intros [a|] [b|] Ha Hb; [|done..]. specialize (Ha a eq_refl). specialize (Hb b eq_refl).
    pose proof (E a b Ha Hb) as Eab. destruct (Z.eqb_spec (cmp a b) 0) as [E0|E0].
    + split; [|done]. intros _. f_equal. by apply Eab.
    + split; [done|]. intros [= ->]. exfalso. apply E0. by apply E.
  - intros [a|] [b|] Ha Hb; [|simpl; lia..]. specialize (Ha a eq_refl). specialize (Hb b eq_refl).
    pose proof (S a b Ha Hb). repeat case_match; rewrite ?Z.eqb_eq, ?Z.eqb_neq in *; try lia.
    all: pose proof (E a b Ha Hb); pose proof (E b a Hb Ha); intuition congruence.
  - intros [a|] [b|] [c|] Ha Hb Hc; try (simpl; lia).
    specialize (Ha a eq_refl). specialize (Hb b eq_refl). specialize (Hc c eq_refl).
    intros H1 H2. repeat case_match; rewrite ?Z.eqb_eq, ?Z.eqb_neq in *; try lia.
    + assert (cmp a c < 0) by eauto. lia.
    + eauto.
Qed.

Lemma cmp_order_Point : cmp_order point_ok Point_cmp.
Proof.
  apply (cmp_order_inj (fun p => (m_X p, m_Y p)) _ (fun p => bytes_n 32 p.1 /\ True)
    _ _ (cmp_order_pair _ _ _ _ (cmp_order_bytes 32) cmp_order_Z)).
  - intros a [Ha _]. done.
  - intros [] [] E. simpl in E. by simplify_eq.
  - done.
Qed.

Definition sig_ok (s : Signature) : Prop := point_ok (m_NoncePub s) /\ bytes_n 32 (m_k s).

Lemma cmp_order_Signature : cmp_order sig_ok Signature_cmp.
Proof.
  apply (cmp_order_inj (fun p => (m_NoncePub p, m_k p)) _ _
    _ _ (cmp_order_pair _ _ _ _ cmp_order_Point (cmp_order_bytes 32))); [done| |done].
  intros [] [] E. simpl in E. by simplify_eq.
Qed.
