(* ===== verification/RadixTree.v ===== *)
(** The radix tree behind the UTXO set: [RadixTree] and [RadixHashTree] of
    [core/radixtree.h], [core/radixtree.cpp].

    Nodes are values instead of heap cells.  A [Joint]'s [m_pKeyPtr] points into
    the key buffer of one of its leaves; it is modelled by that key (leaf keys
    differ from each other, so that comparing the pointers is comparing the
    keys).  [m_Bits] packs the number of key bits of the edge and the flags; the
    two are separate fields here.  A cursor's [m_pp] array of node pointers is the
    list of branches taken from the root. *)

From stdpp Require Import sorting.
From S2P Require Import Prelude Merkle.

(** [CursorBase::get_BitRawStat] and [get_Bit]: bit [0] is the most significant. *)
Definition get_BitRawStat (p0 : list Z) (nBit : nat) : Z :=
  Z.shiftr (p0 !!! Nat.div nBit 8) (Z.lxor 7 (Z.land 7 (Z.of_nat nBit))).
Definition get_Bit (p0 : list Z) (nBit : nat) : bool := Z.odd (get_BitRawStat p0 nBit).

(** [Cmp]: the first different bit of [dn] bits from [n0] decides; [Cmp1]. *)
Fixpoint Cmp (pKey pThreshold : list Z) (n0 dn : nat) : Z :=
  match dn with
  | O => 0
  | S dn =>
      let a := get_Bit pKey n0 in
      let b := get_Bit pThreshold n0 in
      if negb a && b then -1 else if a && negb b then 1
      else Cmp pKey pThreshold (S n0) dn
  end.

Definition Cmp1 (n : bool) (pThreshold : list Z) (n0 : nat) : Z :=
  let nBit := get_Bit pThreshold n0 in
  if negb n && nBit then -1 else if n && negb nBit then 1 else 0.

(** The matching loop of [Goto]: the offset of the first different bit. *)
Fixpoint match_bits (pKey pKeyNode : list Z) (n0 dn : nat) : option nat :=
  match dn with
  | O => None
  | S dn =>
      if xorb (get_Bit pKey n0) (get_Bit pKeyNode n0) then Some O
      else S <$> match_bits pKey pKeyNode (S n0) dn
  end.

Section radix.
Context {L Hash : Type} (hash2 : Hash -> Hash -> Hash) (hzero : Hash).

Inductive node :=
| Leaf (m_Bits : nat) (clean : bool) (key : list Z) (data : L)
| Joint (m_Bits : nat) (clean : bool) (m_Hash : Hash) (m_pKeyPtr : list Z) (c0 c1 : node).

Definition get_Bits (n : node) : nat :=
  match n with Leaf b _ _ _ => b | Joint b _ _ _ _ _ => b end.
Definition IsClean (n : node) : bool :=
  match n with Leaf _ c _ _ => c | Joint _ c _ _ _ _ => c end.
Definition set_Clean (c : bool) (n : node) : node :=
  match n with
  | Leaf b _ k d => Leaf b c k d
  | Joint b _ h k c0 c1 => Joint b c h k c0 c1
  end.
Definition set_Bits (b : nat) (n : node) : node :=
  match n with
  | Leaf _ c k d => Leaf b c k d
  | Joint _ c h k c0 c1 => Joint b c h k c0 c1
  end.
Definition get_NodeKey (n : node) : list Z :=
  match n with Leaf _ _ k _ => k | Joint _ _ _ k _ _ => k end.

(** A tree is its root pointer. *)
Definition tree := option node.

Record Cursor := mkCursor {
  m_nBits : nat;
  m_nPtrs : nat;
  m_nPosInLastNode : nat;
  m_pp : list bool
}.

(** [Goto] below a node; [None] when the code would use a leaf as a joint. *)
Fixpoint Goto_node (p : node) (pKey : list Z) (nBits cur : nat) : option (bool * Cursor) :=
  if (nBits <=? cur)%nat then Some (true, mkCursor cur 1 0 [])
  else
    let nThreshold := Nat.min (cur + get_Bits p) nBits in
    match match_bits pKey (get_NodeKey p) cur (nThreshold - cur) with
    | Some d => Some (false, mkCursor (cur + d) 1 d [])
    | None =>
        if (nThreshold =? nBits)%nat then Some (true, mkCursor nThreshold 1 (nThreshold - cur) [])
        else
          match p with
          | Leaf _ _ _ _ => None
          | Joint _ _ _ _ c0 c1 =>
              let b := get_Bit pKey nThreshold in
              '(res, cu) ← (if b then Goto_node c1 pKey nBits (S nThreshold)
                            else Goto_node c0 pKey nBits (S nThreshold));
              Some (res, mkCursor (m_nBits cu) (S (m_nPtrs cu)) (m_nPosInLastNode cu)
                           (b :: m_pp cu))
          end
    end.

Definition Goto (t : tree) (pKey : list Z) (nBits : nat) : option (bool * Cursor) :=
  match t with
  | None => Some ((nBits <=? 0)%nat, mkCursor 0 0 0 [])
  | Some p => Goto_node p pKey nBits 0
  end.

(** [InvalidateElement]: from the tip towards the root, until a node that is
    not clean; the flag says whether to go on. *)
Fixpoint Invalidate_node (path : list bool) (n : node) : node * bool :=
  let mark (n : node) := if IsClean n then (set_Clean false n, true) else (n, false) in
  match path, n with
  | b :: path, Joint bits c h k c0 c1 =>
      if b then
        let '(c1, go) := Invalidate_node path c1 in
        if go then mark (Joint bits c h k c0 c1) else (Joint bits c h k c0 c1, false)
      else
        let '(c0, go) := Invalidate_node path c0 in
        if go then mark (Joint bits c h k c0 c1) else (Joint bits c h k c0 c1, false)
  | _, _ => mark n
  end.

Definition InvalidateElement (cu : Cursor) (t : tree) : tree :=
  (fun n => (Invalidate_node (m_pp cu) n).1) <$> t.

(** The node at the tip of a cursor, and [ReplaceTip]. *)
Fixpoint tip_node (path : list bool) (n : node) : option node :=
  match path, n with
  | [], _ => Some n
  | b :: path, Joint _ _ _ _ c0 c1 => tip_node path (if b then c1 else c0)
  | _ :: _, Leaf _ _ _ _ => None
  end.

Fixpoint ReplaceTip_node (path : list bool) (pNew n : node) : node :=
  match path, n with
  | b :: path, Joint bits c h k c0 c1 =>
      if b then Joint bits c h k c0 (ReplaceTip_node path pNew c1)
      else Joint bits c h k (ReplaceTip_node path pNew c0) c1
  | _, _ => pNew
  end.

(** [Find].  [data] is what [CreateLeaf] puts into a new leaf.  The result is
    the tree, the cursor, [bCreate] and whether a leaf is returned. *)
Record FindResult := mkFind {
  fr_tree : tree; fr_cursor : Cursor; fr_bCreate : bool; fr_leaf : bool
}.

Definition Find_split (cu : Cursor) (pKey : list Z) (nBits : nat) (data : L) (p : node) : node :=
  let iC := get_Bit pKey (m_nBits cu) in
  let pN := Leaf (nBits - (m_nBits cu + 1)) false pKey data in
  let p' := set_Bits (get_Bits p - (m_nPosInLastNode cu + 1)) p in
  Joint (m_nPosInLastNode cu) false hzero (get_NodeKey p)
    (if iC then p' else pN) (if iC then pN else p').

Definition Find (t : tree) (pKey : list Z) (nBits : nat) (bCreate : bool) (data : L)
  : option FindResult :=
  Goto t pKey nBits ≫= fun rc =>
  let '(res, cu) := rc in
  if (res : bool) then Some (mkFind t cu false true)
  else if negb bCreate then Some (mkFind t cu bCreate false)
  else
    match InvalidateElement cu t with
    | Some root =>
        p ← tip_node (m_pp cu) root;
        let pJ := Find_split cu pKey nBits data p in
        let iC := get_Bit pKey (m_nBits cu) in
        Some (mkFind (Some (ReplaceTip_node (m_pp cu) pJ root))
                (mkCursor nBits (S (m_nPtrs cu)) (nBits - (m_nBits cu + 1)) (m_pp cu ++ [iC]))
                true true)
    | None =>
        Some (mkFind (Some (Leaf nBits false pKey data)) (mkCursor nBits 1 nBits []) true true)
    end.

(** [Delete].  Below the root the dead leaf's parent is replaced by the other
    child; the key pointers that pointed into the dead leaf move to that child's
    key, from the parent upwards until one does not point there (the flag). *)
Fixpoint Delete_node (path : list bool) (pKeyDead : list Z) (n : node)
  : option (node * (list Z * bool)) :=
  match path, n with
  | [b], Joint bits c h k c0 c1 =>
      let pN := if b then c0 else c1 in
      Some (set_Bits (get_Bits pN + (bits + 1)) pN,
            (get_NodeKey pN, bool_decide (k = pKeyDead)))
  | b :: path, Joint bits c h k c0 c1 =>
      '(ch, (key1, go)) ← Delete_node path pKeyDead (if b then c1 else c0);
      let go := go && bool_decide (k = pKeyDead) in
      let k := if go then key1 else k in
      Some (if b then Joint bits c h k c0 ch else Joint bits c h k ch c1, (key1, go))
  | _, _ => None
  end.

Definition Delete (cu : Cursor) (t : tree) : option tree :=
  match InvalidateElement cu t with
  | None => None
  | Some root =>
      match m_pp cu, root with
      | [], Leaf _ _ _ _ => Some None
      | [], Joint _ _ _ _ _ _ => None
      | path, _ =>
          p ← tip_node path root;
          '(n, _) ← Delete_node path (get_NodeKey p) root;
          Some (Some n)
      end
  end.

(** [Traverse]: the leaves between the optional bounds, in order, until
    [OnLeaf] returns [false]. *)
Section traverse.
Context {T : Type} (OnLeaf : T -> list bool -> list Z -> L -> T * bool).

(** One bound against one comparison: skip, or keep / drop the bound. *)
Definition check_bound (iBound : bool) (pB : option (list Z)) (cmp : list Z -> Z)
  : option (option (list Z)) :=
  match pB with
  | None => Some None
  | Some B =>
      let nCmp := cmp B in
      if nCmp =? 0 then Some pB
      else if Bool.eqb (nCmp <? 0) (negb iBound) then None
      else Some None
  end.

Definition check_bounds (bnd : option (list Z) * option (list Z)) (cmp : list Z -> Z)
  : option (option (list Z) * option (list Z)) :=
  b0 ← check_bound false bnd.1 cmp;
  b1 ← check_bound true bnd.2 cmp;
  Some (b0, b1).

Fixpoint Traverse_node (n : node) (path : list bool) (nBits : nat)
    (bnd : option (list Z) * option (list Z)) (t : T) : T * bool :=
  match check_bounds bnd (fun B => Cmp (get_NodeKey n) B nBits (get_Bits n)) with
  | None => (t, true)
  | Some bnd =>
      let nBits := (nBits + get_Bits n)%nat in
      match n with
      | Leaf _ _ k d => OnLeaf t path k d
      | Joint _ _ _ _ c0 c1 =>
          let '(t, go) :=
            match check_bounds bnd (fun B => Cmp1 false B nBits) with
            | None => (t, true)
            | Some bnd => Traverse_node c0 (path ++ [false]) (S nBits) bnd t
            end in
          if negb go then (t, false)
          else
            match check_bounds bnd (fun B => Cmp1 true B nBits) with
            | None => (t, true)
            | Some bnd => Traverse_node c1 (path ++ [true]) (S nBits) bnd t
            end
      end
  end.

Definition Traverse (tr : tree) (bnd : option (list Z) * option (list Z)) (t : T) : T * bool :=
  match tr with
  | None => (t, true)
  | Some n => Traverse_node n [] 0 bnd t
  end.
End traverse.

Definition Count (tr : tree) : Z :=
  (Traverse (fun n _ _ _ => (n + 1, true)) tr (None, None) 0).1.

(** ** [RadixHashTree] *)
Context (get_LeafHash : list Z -> L -> Hash).

Fixpoint get_Hash_node (n : node) : node * Hash :=
  match n with
  | Leaf b _ k d => (Leaf b true k d, get_LeafHash k d)
  | Joint b c h k c0 c1 =>
      if c then (n, h)
      else
        let '(c0, h0) := get_Hash_node c0 in
        let '(c1, h1) := get_Hash_node c1 in
        let h := hash2 h0 h1 in
        (Joint b true h k c0 c1, h)
  end.

Definition Radix_get_Hash (t : tree) : tree * Hash :=
  match t with
  | Some n => let '(n, h) := get_Hash_node n in (Some n, h)
  | None => (None, hzero)
  end.

(** [get_Proof]: from the tip to the root, the other child of every joint;
    computing a sibling's hash caches it in the tree. *)
Fixpoint Radix_get_Proof_node (path : list bool) (n : node) : node * list (bool * Hash) :=
  match path, n with
  | b :: path, Joint bits c h k c0 c1 =>
      if b then
        let '(c1, pr) := Radix_get_Proof_node path c1 in
        let '(c0, hv) := get_Hash_node c0 in
        (Joint bits c h k c0 c1, pr ++ [(false, hv)])
      else
        let '(c0, pr) := Radix_get_Proof_node path c0 in
        let '(c1, hv) := get_Hash_node c1 in
        (Joint bits c h k c0 c1, pr ++ [(true, hv)])
  | _, _ => (n, [])
  end.

Definition Radix_get_Proof (proof : list (bool * Hash)) (cu : Cursor) (t : tree)
  : tree * list (bool * Hash) :=
  match t with
  | Some n => let '(n, pr) := Radix_get_Proof_node (m_pp cu) n in (Some n, proof ++ pr)
  | None => (None, proof)
  end.
End radix.

(** * Facts *)
Lemma match_bits_None a b n0 dn :
  match_bits a b n0 dn = None ->
  forall i, (n0 <= i < n0 + dn)%nat -> get_Bit a i = get_Bit b i.
Proof.
  revert n0. induction dn as [|dn IH]; intros n0; simpl; [lia|].
  destruct (xorb _ _) eqn:E; [done|]. intros H i Hi. apply xorb_eq in E.
  destruct (decide (i = n0)) as [->|]; [done|].
  apply (IH (S n0)); [|lia]. by destruct (match_bits _ _ _ _).
Qed.

Lemma match_bits_Some a b n0 dn d :
  match_bits a b n0 dn = Some d ->
  (d < dn)%nat /\ get_Bit a (n0 + d) <> get_Bit b (n0 + d) /\
  forall i, (n0 <= i < n0 + d)%nat -> get_Bit a i = get_Bit b i.
Proof.
  revert n0 d. induction dn as [|dn IH]; intros n0 d; simpl; [done|].
  destruct (xorb _ _) eqn:E.
  - intros [= <-]. rewrite Nat.add_0_r. split; [lia|]. split; [|lia].
    intros E'. rewrite E', xorb_nilpotent in E. done.
  - destruct (match_bits a b (S n0) dn) as [d'|] eqn:Em; [|done]. intros [= <-].
    destruct (IH _ _ Em) as (H1 & H2 & H3). rewrite <- plus_n_Sm. split; [lia|]. split; [done|].
    intros i Hi. apply xorb_eq in E. destruct (decide (i = n0)) as [->|]; [done|]. apply H3. lia.
Qed.

(** Keys agree on their first [m] bits; the order of keys by their first
    different bit. *)
Definition keq (m : nat) (k1 k2 : list Z) : Prop :=
  forall i, (i < m)%nat -> get_Bit k1 i = get_Bit k2 i.

Definition klt (N : nat) (k1 k2 : list Z) : Prop :=
  exists m, (m < N)%nat /\ keq m k1 k2 /\ get_Bit k1 m = false /\ get_Bit k2 m = true.

Lemma keq_refl m k : keq m k k. Proof. done. Qed.
Lemma keq_0 k1 k2 : keq 0 k1 k2. Proof. intros i Hi. lia. Qed.
Lemma keq_sym m k1 k2 : keq m k1 k2 -> keq m k2 k1.
Proof. intros H i Hi. symmetry. auto. Qed.
Lemma keq_trans m k1 k2 k3 : keq m k1 k2 -> keq m k2 k3 -> keq m k1 k3.
Proof. intros H1 H2 i Hi. rewrite H1 by done. auto. Qed.
Lemma keq_le m m' k1 k2 : (m' <= m)%nat -> keq m k1 k2 -> keq m' k1 k2.
Proof. intros Hm H i Hi. apply H. lia. Qed.

#[export] Hint Resolve keq_refl keq_sym keq_trans : grimm.

Lemma klt_irrefl N k : ~ klt N k k.
Proof. intros (m & _ & _ & H1 & H2). congruence. Qed.

Lemma klt_trans N k1 k2 k3 : klt N k1 k2 -> klt N k2 k3 -> klt N k1 k3.
Proof.
  intros (m & Hm & E & F & G) (m' & Hm' & E' & F' & G').
  destruct (Nat.lt_trichotomy m m') as [Hlt|[->|Hlt]]; [|congruence|].
  - exists m. split; [done|]. split; [|split; [done|]].
    + apply (keq_trans _ _ k2); [done|]. apply (keq_le m'); [lia|done].
    + rewrite <- E'; done.
  - exists m'. split; [done|]. split; [|split; [|done]].
    + apply (keq_trans _ _ k2); [|done]. apply (keq_le m); [lia|done].
    + rewrite E; done.
Qed.

Lemma klt_not_keq N k1 k2 : klt N k1 k2 -> ~ keq N k1 k2.
Proof. intros (m & Hm & _ & F & G) H. rewrite H in F by done. congruence. Qed.

Section facts.
Context {L Hash : Type} (hash2 : Hash -> Hash -> Hash) (hzero : Hash).
Abbreviation node := (node (L := L) (Hash := Hash)).
Implicit Types (n p : node) (k : list Z).

Fixpoint leaves n : list (list Z * L) :=
  match n with
  | Leaf _ _ k d => [(k, d)]
  | Joint _ _ _ _ c0 c1 => leaves c0 ++ leaves c1
  end.

Definition tree_leaves (t : tree (L := L) (Hash := Hash)) : list (list Z * L) :=
  match t with Some n => leaves n | None => [] end.

(** The shape invariant of a subtree at depth [d] of a tree with [N]-bit keys. *)
Fixpoint wf (N d : nat) n : Prop :=
  match n with
  | Leaf b _ _ _ => (d + b = N)%nat
  | Joint b _ _ kp c0 c1 =>
      (d + b < N)%nat /\ (kp = get_NodeKey c0 \/ kp = get_NodeKey c1) /\
      (forall x, x ∈ leaves c0 -> keq (d + b) x.1 kp /\ get_Bit x.1 (d + b) = false) /\
      (forall x, x ∈ leaves c1 -> keq (d + b) x.1 kp /\ get_Bit x.1 (d + b) = true) /\
      wf N (S (d + b)) c0 /\ wf N (S (d + b)) c1
  end.

Definition tree_wf (N : nat) (t : tree (L := L) (Hash := Hash)) : Prop :=
  match t with Some n => wf N 0 n | None => True end.

Lemma node_key_leaf N d n : wf N d n -> exists x, (get_NodeKey n, x) ∈ leaves n.
Proof.
  revert d. induction n as [b c k x|b c h k c0 IH0 c1 IH1]; intros d; simpl.
  - intros _. exists x. by apply list_elem_of_singleton.
  - intros (_ & [->| ->] & _ & _ & W0 & W1).
    + destruct (IH0 _ W0) as [x ?]. exists x. apply elem_of_app. by left.
    + destruct (IH1 _ W1) as [x ?]. exists x. apply elem_of_app. by right.
Qed.

Lemma wf_le N d n : wf N d n -> (d + get_Bits n <= N)%nat.
Proof. destruct n; simpl; lia. Qed.

(** All keys of a subtree agree up to the end of its edge. *)
Lemma wf_keq N d n x : wf N d n -> x ∈ leaves n -> keq (d + get_Bits n) x.1 (get_NodeKey n).
Proof.
  destruct n as [b c k v|b c h k c0 c1]; simpl.
  - intros _ ->%list_elem_of_singleton. done.
  - intros (_ & _ & H0 & H1 & _) [Hx|Hx]%elem_of_app; [by apply H0|by apply H1].
Qed.

(** ** Flags and cached hashes do not matter for the shape *)
Fixpoint strip n : node :=
  match n with
  | Leaf b _ k d => Leaf b false k d
  | Joint b _ _ k c0 c1 => Joint b false hzero k (strip c0) (strip c1)
  end.

Lemma strip_leaves n : leaves (strip n) = leaves n.
Proof. induction n; simpl; congruence. Qed.
Lemma strip_key n : get_NodeKey (strip n) = get_NodeKey n.
Proof. by destruct n. Qed.
Lemma strip_bits n : get_Bits (strip n) = get_Bits n.
Proof. by destruct n. Qed.

Lemma strip_wf N d n : wf N d (strip n) <-> wf N d n.
Proof.
  revert d. induction n as [|b c h k c0 IH0 c1 IH1]; intros d; simpl; [done|].
  rewrite IH0, IH1, !strip_leaves, !strip_key. done.
Qed.

Lemma strip_set_Clean b n : strip (set_Clean b n) = strip n.
Proof. by destruct n. Qed.

Lemma strip_Invalidate path n : strip (Invalidate_node path n).1 = strip n.
Proof.
  revert path. induction n as [b c k d|b c h k c0 IH0 c1 IH1]; intros path.
  - destruct path; cbn; by destruct c.
  - destruct path as [|[] path]; cbn; [by destruct c| |].
    + specialize (IH1 path). destruct (Invalidate_node path c1) as [c1' []]; cbn in *.
      * destruct c; cbn; congruence.
      * congruence.
    + specialize (IH0 path). destruct (Invalidate_node path c0) as [c0' []]; cbn in *.
      * destruct c; cbn; congruence.
      * congruence.
Qed.

Lemma strip_Goto n k N d : Goto_node (strip n) k N d = Goto_node n k N d.
Proof.
  revert d. induction n as [|b c h kp c0 IH0 c1 IH1]; intros d; cbn; [done|].
  repeat case_match; rewrite ?IH0, ?IH1 in *; congruence.
Qed.

Lemma same_strip n n' :
  strip n = strip n' ->
  leaves n = leaves n' /\ get_NodeKey n = get_NodeKey n' /\ get_Bits n = get_Bits n' /\
  (forall N d, wf N d n <-> wf N d n') /\
  (forall k N d, Goto_node n k N d = Goto_node n' k N d).
Proof.
  intros E. rewrite <- (strip_leaves n), <- (strip_key n), <- (strip_bits n), E.
  rewrite strip_leaves, strip_key, strip_bits. repeat split; try done.
  - intros. apply strip_wf. rewrite <- E. by apply strip_wf.
  - intros. apply strip_wf. rewrite E. by apply strip_wf.
  - intros. rewrite <- strip_Goto, E. apply strip_Goto.
Qed.

(** ** Search and insertion *)

(** Going down one branch of a joint. *)
Definition child (b : bool) (c0 c1 : node) : node := if b then c1 else c0.

Lemma wf_child N d b c h kp c0 c1 (i : bool) x :
  wf N d (Joint b c h kp c0 c1) -> x ∈ leaves (child i c0 c1) ->
  keq (d + b) x.1 kp /\ get_Bit x.1 (d + b) = i.
Proof. intros (_ & _ & H0 & H1 & _) Hx. destruct i; [by apply H1|by apply H0]. Qed.

Lemma wf_child_wf N d b c h kp c0 c1 (i : bool) :
  wf N d (Joint b c h kp c0 c1) -> wf N (S (d + b)) (child i c0 c1).
Proof. intros (_ & _ & _ & _ & H0 & H1). by destruct i. Qed.

(** Leaves in the other branch differ from the key. *)
Lemma other_branch N d b c h kp c0 c1 k x :
  wf N d (Joint b c h kp c0 c1) -> x ∈ leaves (child (negb (get_Bit k (d + b))) c0 c1) ->
  ~ keq N k x.1.
Proof.
  intros W Hx H. destruct (wf_child _ _ _ _ _ _ _ _ _ _ W Hx) as [_ Hb].
  destruct W as (Hlt & _). rewrite <- (H (d + b)%nat) in Hb by done. by destruct (get_Bit k (d + b)).
Qed.

Lemma leaves_joint_split b c h kp c0 c1 (i : bool) x :
  x ∈ leaves (Joint b c h kp c0 c1) ->
  x ∈ leaves (child i c0 c1) \/ x ∈ leaves (child (negb i) c0 c1).
Proof. intros [Hx|Hx]%elem_of_app; destruct i; auto. Qed.

(** What an insertion promises: the shape invariant, one more leaf, the same
    node key, and a cursor that leads to the new leaf. *)
Definition ins_ok N d n k v (cu : Cursor) n' : Prop :=
  wf N d n' /\ leaves n' ≡ₚ (k, v) :: leaves n /\ get_NodeKey n' = get_NodeKey n /\
  exists b, tip_node (m_pp cu ++ [get_Bit k (m_nBits cu)]) n' = Some (Leaf b false k v).

Lemma wf_set_Bits N d d' b p :
  wf N d p -> (d' + b = d + get_Bits p)%nat -> wf N d' (set_Bits b p).
Proof.
  destruct p as [b0 c k x|b0 c h k c0 c1]; simpl; [lia|].
  intros W E. by rewrite E.
Qed.

Lemma leaves_set_Bits b p : leaves (set_Bits b p) = leaves p.
Proof. by destruct p. Qed.
Lemma key_set_Bits b p : get_NodeKey (set_Bits b p) = get_NodeKey p.
Proof. by destruct p. Qed.

(** Splitting an edge at the first different bit. *)
Lemma Find_split_ok N d p k v m pos np :
  wf N d p -> m = (d + pos)%nat -> (pos < get_Bits p)%nat -> keq m k (get_NodeKey p) ->
  get_Bit k m <> get_Bit (get_NodeKey p) m ->
  ins_ok N d p k v (mkCursor m np pos []) (Find_split hzero (mkCursor m np pos []) k N v p).
Proof.
  intros W -> Hpos Hk Hb. set (m := (d + pos)%nat) in *.
  pose proof (wf_le _ _ _ W) as Hle.
  set (p' := set_Bits (get_Bits p - (pos + 1)) p).
  set (pN := Leaf (N - (m + 1)) false k v : node).
  assert (wf N (S m) p') as Wp by (eapply wf_set_Bits; [exact W|unfold m; lia]).
  assert (wf N (S m) pN) as WN by (simpl; lia).
  assert (forall x, x ∈ leaves p' -> keq m x.1 (get_NodeKey p) /\ get_Bit x.1 m = negb (get_Bit k m)) as Hp'.
  { intros x Hx. unfold p' in Hx. rewrite leaves_set_Bits in Hx.
    pose proof (wf_keq _ _ _ _ W Hx) as H. split; [apply (keq_le (d + get_Bits p)); [unfold m; lia|done]|].
    rewrite (H m) by (unfold m; lia). by destruct (get_Bit k m), (get_Bit (get_NodeKey p) m). }
  assert (forall x, x ∈ leaves pN -> keq m x.1 (get_NodeKey p) /\ get_Bit x.1 m = get_Bit k m) as HN.
  { intros x ->%list_elem_of_singleton. done. }
  unfold ins_ok, Find_split. cbn [m_nBits m_nPosInLastNode m_pp get_NodeKey]. fold p' pN.
  destruct (get_Bit k m) eqn:Ek.
  - split; [|split; [|split; [done|]]].
    + cbn [wf]. fold m. split_and!; try done; [lia|].
      left. unfold p'. by rewrite key_set_Bits.
    + cbn [leaves]. unfold p'. rewrite leaves_set_Bits. cbn [leaves pN]. by rewrite Permutation_app_comm.
    + eexists. done.
  - split; [|split; [|split; [done|]]].
    + cbn [wf]. fold m. split_and!; try done; [lia|].
      right. unfold p'. by rewrite key_set_Bits.
    + cbn [leaves]. unfold p'. by rewrite leaves_set_Bits.
    + eexists. done.
Qed.

(** An insertion below one branch of a joint. *)
Lemma ins_ok_child N d b c h kp c0 c1 k v cu ch' :
  let i := get_Bit k (d + b) in
  let n := Joint b c h kp c0 c1 in
  wf N d n -> keq (d + b) k kp ->
  ins_ok N (S (d + b)) (child i c0 c1) k v cu ch' ->
  ins_ok N d n k v (mkCursor (m_nBits cu) (S (m_nPtrs cu)) (m_nPosInLastNode cu) (i :: m_pp cu))
    (if i then Joint b c h kp c0 ch' else Joint b c h kp ch' c1).
Proof.
  intros i n W Hk (W' & Hl & Hkey & bb & Ht). pose proof W as (Hlt & Hkp & H0 & H1 & W0 & W1).
  assert (forall x, x ∈ leaves ch' -> keq (d + b) x.1 kp /\ get_Bit x.1 (d + b) = i) as Hch.
  { intros x Hx. rewrite Hl in Hx. apply elem_of_cons in Hx as [->|Hx]; [done|].
    by apply (wf_child _ _ _ _ _ _ _ _ i _ W). }
  unfold ins_ok. cbn [m_pp m_nBits]. unfold n. destruct i; cbn [child] in *.
  - split; [|split; [|split; [done|]]].
    + cbn [wf]. rewrite Hkey. done.
    + cbn [leaves]. rewrite Hl. by rewrite Permutation_middle.
    + exists bb. exact Ht.
  - split; [|split; [|split; [done|]]].
    + cbn [wf]. rewrite Hkey. done.
    + cbn [leaves]. by rewrite Hl.
    + exists bb. exact Ht.
Qed.

(** The outcome of [Goto] on a well-formed subtree. *)
Definition goto_hit n k N (cu : Cursor) : Prop :=
  exists b c k' v, tip_node (m_pp cu) n = Some (Leaf b c k' v) /\ (k', v) ∈ leaves n /\ keq N k k'.

Definition goto_miss n k N d (cu : Cursor) : Prop :=
  exists p, tip_node (m_pp cu) n = Some p /\ (m_nBits cu < N)%nat /\
    (forall x, x ∈ leaves n -> ~ keq N k x.1) /\
    forall v, ins_ok N d n k v cu (ReplaceTip_node (m_pp cu) (Find_split hzero cu k N v p) n).

Lemma goto_miss_here N d p k e :
  wf N d p -> (e < get_Bits p)%nat -> keq (d + e) k (get_NodeKey p) ->
  get_Bit k (d + e) <> get_Bit (get_NodeKey p) (d + e) ->
  goto_miss p k N d (mkCursor (d + e) 1 e []).
Proof.
  intros W He Hk Hb. pose proof (wf_le _ _ _ W). exists p. split; [by destruct p|]. cbn [m_nBits m_pp].
  split; [lia|]. split.
  - intros x Hx H'. apply Hb. rewrite (H' (d + e)%nat) by lia.
    apply (wf_keq _ _ _ _ W Hx). lia.
  - intros v. replace (ReplaceTip_node [] _ p) with (Find_split hzero (mkCursor (d + e) 1 e []) k N v p)
      by (by destruct p). by apply Find_split_ok.
Qed.

Lemma Goto_node_spec n k N d :
  wf N d n -> (d <= N)%nat -> keq d k (get_NodeKey n) ->
  exists res cu, Goto_node n k N d = Some (res, cu) /\
    m_nPtrs cu = S (length (m_pp cu)) /\
    if res then goto_hit n k N cu else goto_miss n k N d cu.
Proof.
  revert d. induction n as [b c kk v|b c h kp c0 IH0 c1 IH1]; intros d W Hd Hk.
  - cbn [Goto_node get_Bits get_NodeKey wf] in *.
    destruct (Nat.leb_spec N d) as [Hle|Hlt].
    { eexists true, _. split; [done|]. split; [done|]. exists b, c, kk, v.
      split; [done|]. split; [by apply list_elem_of_singleton|]. by replace N with d by lia. }
    replace (Nat.min (d + b) N) with N by lia.
    destruct (match_bits k kk d (N - d)) as [e|] eqn:Em.
    + apply match_bits_Some in Em as (He & Hne & Hag).
      eexists false, _. split; [done|]. split; [done|].
      apply goto_miss_here; [done|cbn [get_Bits]; lia| |done].
      intros i Hi. destruct (decide (i < d)%nat); [auto|]. apply Hag. lia.
    + rewrite Nat.eqb_refl. eexists true, _. split; [done|]. split; [done|].
      exists b, c, kk, v. split; [done|]. split; [by apply list_elem_of_singleton|].
      intros i Hi. destruct (decide (i < d)%nat); [auto|].
      eapply match_bits_None; [exact Em|lia].
  - cbn [Goto_node get_Bits get_NodeKey] in *. pose proof W as (Hlt & Hkp & _).
    rewrite (proj2 (Nat.leb_gt N d)) by lia.
    replace (Nat.min (d + b) N) with (d + b)%nat by lia.
    replace (d + b - d)%nat with b by lia.
    destruct (match_bits k kp d b) as [e|] eqn:Em.
    + apply match_bits_Some in Em as (He & Hne & Hag).
      eexists false, _. split; [done|]. split; [done|].
      apply goto_miss_here; [done|cbn [get_Bits]; lia| |done].
      intros i Hi. destruct (decide (i < d)%nat); [auto|]. apply Hag. lia.
    + rewrite (proj2 (Nat.eqb_neq (d + b) N)) by lia.
      assert (keq (d + b) k kp) as Hke.
      { intros i Hi. destruct (decide (i < d)%nat); [auto|].
        eapply match_bits_None; [exact Em|lia]. }
      set (i := get_Bit k (d + b)).
      pose proof (wf_child_wf _ _ _ _ _ _ _ _ i W) as Wc.
      assert (keq (S (d + b)) k (get_NodeKey (child i c0 c1))) as Hkc.
      { destruct (node_key_leaf _ _ _ Wc) as [x Hx].
        destruct (wf_child _ _ _ _ _ _ _ _ i _ W Hx) as [E1 E2]. simpl in E1, E2.
        intros j Hj. destruct (decide (j = d + b)%nat) as [->|]; [by rewrite E2|].
        rewrite (Hke j) by lia. symmetry. apply E1. lia. }
      assert (exists res cu, Goto_node (child i c0 c1) k N (S (d + b)) = Some (res, cu) /\
        m_nPtrs cu = S (length (m_pp cu)) /\
        if res then goto_hit (child i c0 c1) k N cu else goto_miss (child i c0 c1) k N (S (d + b)) cu)
        as (res & cu & Eg & Hp & Hres).
      { destruct i; [apply IH1|apply IH0]; try done; lia. }
      assert ((if i then Goto_node c1 k N (S (d + b)) else Goto_node c0 k N (S (d + b)))
              = Some (res, cu)) as -> by (by destruct i).
      cbn [mbind option_bind]. eexists res, _. split; [done|].
      cbn [m_pp m_nPtrs length]. split; [by rewrite Hp|].
      assert (forall x, x ∈ leaves (child i c0 c1) -> x ∈ leaves (Joint b c h kp c0 c1)) as Hsub.
      { intros x Hx. cbn [leaves]. rewrite elem_of_app. destruct i; auto. }
      destruct res.
      * destruct Hres as (b' & c' & k' & v & Ht & Hin & Hkk). exists b', c', k', v.
        cbn [m_pp tip_node]. split; [exact Ht|]. auto.
      * destruct Hres as (p & Ht & Hlt' & Hno & Hins). exists p.
        cbn [m_pp m_nBits tip_node]. split; [exact Ht|]. split; [done|]. split.
        -- intros x Hx. destruct (leaves_joint_split _ _ _ _ _ _ i _ Hx) as [Hx'|Hx'];
             [by apply Hno|]. eapply other_branch; [exact W|exact Hx'].
        -- intros v. pose proof (ins_ok_child _ _ _ c h _ _ _ _ v cu _ W Hke (Hins v)) as Hi.
           fold i in Hi. by destruct i.
Qed.

(** [Find] on a tree: total, and on every branch as documented. *)
Lemma Find_spec N (t : tree) k bCreate v :
  tree_wf N t -> (0 < N)%nat ->
  exists r, Find hzero t k N bCreate v = Some r /\ tree_wf N (fr_tree r) /\
    ((exists x, x ∈ tree_leaves t /\ keq N k x.1) ->
       fr_tree r = t /\ fr_bCreate r = false /\ fr_leaf r = true) /\
    ((forall x, x ∈ tree_leaves t -> ~ keq N k x.1) ->
       fr_leaf r = bCreate /\ fr_bCreate r = bCreate /\
       if bCreate then tree_leaves (fr_tree r) ≡ₚ (k, v) :: tree_leaves t else fr_tree r = t) /\
    (fr_leaf r = true ->
       exists n b c k' v', fr_tree r = Some n /\ tip_node (m_pp (fr_cursor r)) n = Some (Leaf b c k' v') /\
         keq N k k' /\ (k', v') ∈ leaves n).
Proof.
  intros W HN. unfold Find, Goto. destruct t as [n|].
  - destruct (Goto_node_spec n k N 0 W ltac:(lia)) as (res & cu & Eg & Hp & Hres); [apply keq_0|].
    rewrite Eg. cbn [mbind option_bind]. destruct res.
    + destruct Hres as (b & c & k' & v' & Ht & Hin & Hk). eexists. split; [done|]. split; [done|].
      split; [done|]. split; [|].
      * intros Hno. exfalso. by apply (Hno _ Hin).
      * intros _. by exists n, b, c, k', v'.
    + destruct Hres as (p & Ht & Hlt & Hno & Hins). destruct bCreate; cbn [negb].
      * cbn [InvalidateElement fmap option_fmap option_map].
        set (n1 := (Invalidate_node (m_pp cu) n).1).
        destruct (same_strip n1 n) as (El & Ek & _ & Ew & Eg'); [apply strip_Invalidate|].
        destruct (Goto_node_spec n1 k N 0) as (res & cu' & Eg1 & _ & Hres1);
          [by apply Ew|lia|apply keq_0|].
        rewrite Eg', Eg in Eg1. simplify_eq.
        destruct Hres1 as (p1 & Ht1 & _ & _ & Hins1). rewrite Ht1. cbn [mbind option_bind].
        eexists. split; [done|]. cbn [fr_tree fr_bCreate fr_leaf fr_cursor tree_leaves tree_wf m_pp].
        destruct (Hins1 v) as (W' & Hl & _ & b & Htip). split; [done|]. split; [|split].
        -- intros (x & Hx & Hk). exfalso. by apply (Hno x).
        -- intros _. split; [done|]. split; [done|]. by rewrite Hl, El.
        -- intros _. eexists _, b, false, k, v. split; [done|]. split; [exact Htip|]. split; [done|].
           rewrite Hl. by left.
      * eexists. split; [done|]. cbn [fr_tree fr_bCreate fr_leaf]. split; [done|]. split; [|split; [intros _; by split_and!|discriminate]].
        intros (x & Hx & Hk). exfalso. by apply (Hno x).
  - rewrite (proj2 (Nat.leb_gt _ _)) by done. cbn [mbind option_bind].
    destruct bCreate; cbn [negb InvalidateElement fmap option_fmap option_map];
      (eexists; split; [done|]; cbn [fr_tree fr_bCreate fr_leaf tree_leaves tree_wf wf leaves];
       split; [done|]; split; [intros (x & Hx & _); by apply elem_of_nil in Hx|]).
    + split; [done|]. intros _. eexists _, N, false, k, v. split; [done|].
      split; [done|]. split; [done|]. by left.
    + split; [intros _; by split_and!|discriminate].
Qed.

(** ** Deletion *)
Lemma Delete_node_spec N d n path b0 cc k v :
  wf N d n -> tip_node path n = Some (Leaf b0 cc k v) -> path <> [] ->
  exists n' key1 go, Delete_node path k n = Some (n', (key1, go)) /\
    wf N d n' /\ leaves n ≡ₚ (k, v) :: leaves n' /\
    (if go then get_NodeKey n = k /\ get_NodeKey n' = key1 else get_NodeKey n' = get_NodeKey n).
Proof.
  revert d path. induction n as [b c kk w|b c h kp c0 IH0 c1 IH1]; intros d path W Ht Hp.
  { destruct path; [done|]. done. }
  destruct path as [|i path]; [done|]. clear Hp. cbn [tip_node] in Ht.
  pose proof W as (Hlt & Hkp & H0 & H1 & W0 & W1).
  destruct path as [|j path].
  - cbn [Delete_node]. set (pN := if i then c0 else c1).
    assert (wf N (S (d + b)) pN) as WN by (by destruct i).
    eexists _, _, _. split; [done|]. split; [|split].
    + eapply wf_set_Bits; [exact WN|]. lia.
    + rewrite leaves_set_Bits. cbn [leaves].
      destruct i; cbn [tip_node] in Ht; [destruct c1|destruct c0]; simplify_eq; cbn [leaves];
        [by rewrite Permutation_app_comm|done].
    + rewrite key_set_Bits. case_bool_decide as Ed; [done|]. cbn [get_NodeKey].
      destruct i; cbn [tip_node] in Ht; [destruct c1|destruct c0]; simplify_eq; cbn [get_NodeKey] in *;
        by destruct Hkp.
  - set (ch := if i then c1 else c0) in Ht.
    assert (exists n' key1 go, Delete_node (j :: path) k ch = Some (n', (key1, go)) /\
      wf N (S (d + b)) n' /\ leaves ch ≡ₚ (k, v) :: leaves n' /\
      (if go then get_NodeKey ch = k /\ get_NodeKey n' = key1 else get_NodeKey n' = get_NodeKey ch))
      as (n' & key1 & go & Ed & W' & Hl & Hkey).
    { destruct i; [by eapply IH1|by eapply IH0]. }
    change (Delete_node (i :: j :: path) k (Joint b c h kp c0 c1)) with
      ('(ch, (key1, go)) ← Delete_node (j :: path) k (if i then c1 else c0);
       let go := go && bool_decide (kp = k) in
       let k' := if go then key1 else kp in
       Some (if i then Joint b c h k' c0 ch else Joint b c h k' ch c1, (key1, go))).
    fold ch. rewrite Ed. cbn [mbind option_bind]. eexists _, _, _. split; [done|].
    set (k' := if go && bool_decide (kp = k) then key1 else kp).
    destruct (node_key_leaf _ _ _ W') as [x' Hx'].
    assert (forall x, x ∈ leaves n' -> keq (d + b) x.1 kp /\ get_Bit x.1 (d + b) = i) as Hn'.
    { intros x Hx. apply (wf_child _ _ _ _ _ _ _ _ i _ W). unfold child. fold ch. rewrite Hl. by right. }
    assert (keq (d + b) kp k') as Hk'.
    { unfold k'. destruct (go && bool_decide (kp = k)) eqn:Eg; [|done].
      apply andb_true_iff in Eg as [-> _]. destruct Hkey as [_ <-]. apply keq_sym, (Hn' _ Hx'). }
    assert (k' = get_NodeKey (if i then c0 else c1) \/ k' = get_NodeKey n') as Hkk.
    { unfold k'. case_bool_decide as Edk; destruct go; cbn [andb].
      - right. by destruct Hkey.
      - rewrite Hkey. destruct i, Hkp; subst ch; auto.
      - assert (kp <> get_NodeKey ch) by (destruct Hkey; congruence).
        left. destruct i, Hkp; subst ch; congruence.
      - rewrite Hkey. destruct i, Hkp; subst ch; auto. }
    split; [|split].
    + destruct i; cbn [wf]; subst ch.
      * split_and!; try done.
        -- intros x Hx. destruct (H0 x Hx). split; [eauto with grimm|done].
        -- intros x Hx. destruct (Hn' x Hx). split; [eauto with grimm|done].
      * split_and!; try done; [tauto| |].
        -- intros x Hx. destruct (Hn' x Hx). split; [eauto with grimm|done].
        -- intros x Hx. destruct (H1 x Hx). split; [eauto with grimm|done].
    + destruct i; cbn [leaves]; subst ch; rewrite Hl; [|done].
      by rewrite Permutation_middle.
    + destruct (go && bool_decide (kp = k)) eqn:Eg.
      * apply andb_true_iff in Eg as [-> E2]. apply bool_decide_eq_true in E2.
        split; [done|]. by destruct i.
      * by destruct i.
Qed.

Lemma tip_node_strip path n n' b c k v :
  strip n = strip n' -> tip_node path n = Some (Leaf b c k v) ->
  exists c', tip_node path n' = Some (Leaf b c' k v).
Proof.
  revert n n'. induction path as [|i path IH]; intros n n' E Ht.
  - cbn in Ht. assert (n = Leaf b c k v) as -> by (destruct n; congruence).
    destruct n'; cbn in E; simplify_eq. by eexists.
  - destruct n as [|b1 c1 h1 k1 l1 r1], n' as [|b2 c2 h2 k2 l2 r2]; try done.
    cbn [strip] in E. injection E as _ _ El Er. cbn [tip_node] in *. destruct i; eauto.
Qed.

(** [Delete] at a cursor that leads to a leaf. *)
Lemma Delete_spec N n cu b c k v :
  wf N 0 n -> tip_node (m_pp cu) n = Some (Leaf b c k v) ->
  exists t', Delete cu (Some n) = Some t' /\ tree_wf N t' /\ leaves n ≡ₚ (k, v) :: tree_leaves t'.
Proof.
  intros W Ht. unfold Delete. cbn [InvalidateElement fmap option_fmap option_map].
  set (n1 := (Invalidate_node (m_pp cu) n).1).
  destruct (same_strip n1 n) as (El & Ek & _ & Ew & _); [apply strip_Invalidate|].
  destruct (tip_node_strip (m_pp cu) n n1 b c k v) as [c' Ht1];
    [symmetry; apply strip_Invalidate|done|].
  apply Ew in W. destruct (m_pp cu) as [|i path] eqn:Ep.
  - cbn [tip_node] in Ht1. assert (n1 = Leaf b c' k v) as E1 by (destruct n1; congruence).
    rewrite E1 in *. exists None. split; [done|]. split; [done|]. by rewrite <- El.
  - destruct (Delete_node_spec N 0 n1 (i :: path) b c' k v W Ht1) as (n' & key1 & go & Ed & W' & Hl & _);
      [done|].
    rewrite Ht1. cbn [mbind option_bind get_NodeKey]. rewrite Ed.
    exists (Some n'). split; [by destruct n1|]. split; [done|]. cbn [tree_leaves]. by rewrite <- El.
Qed.

(** ** The leaves are in the order of their keys *)
Lemma leaves_sorted N d n : wf N d n -> StronglySorted (fun x y => klt N x.1 y.1) (leaves n).
Proof.
  revert d. induction n as [b c k v|b c h kp c0 IH0 c1 IH1]; intros d W.
  - repeat constructor.
  - pose proof W as (Hlt & _ & H0 & H1 & W0 & W1). cbn [leaves].
    specialize (IH0 _ W0). specialize (IH1 _ W1).
    assert (forall x y, x ∈ leaves c0 -> y ∈ leaves c1 -> klt N x.1 y.1) as Hx.
    { intros x y Hx Hy. destruct (H0 x Hx) as [E F], (H1 y Hy) as [E' F'].
      exists (d + b)%nat. split; [done|]. split; [eauto with grimm|done]. }
    clear -IH0 IH1 Hx. induction IH0 as [|x l Hs IH Hf]; [done|]. cbn [app]. constructor.
    + apply IH. intros. apply Hx; [by right|done].
    + apply Forall_app. split; [done|]. apply Forall_forall. intros y Hy. apply Hx; [by left|done].
Qed.

(** ** The hash of a tree depends on its leaves only *)
Context (get_LeafHash : list Z -> L -> Hash).

Fixpoint pure_hash n : Hash :=
  match n with
  | Leaf _ _ k d => get_LeafHash k d
  | Joint _ _ _ _ c0 c1 => hash2 (pure_hash c0) (pure_hash c1)
  end.

Lemma strip_pure n : pure_hash (strip n) = pure_hash n.
Proof. induction n; cbn; congruence. Qed.

Lemma leaves_nonempty n : leaves n <> [].
Proof. induction n as [|b c h kp c0 IH0 c1 _]; cbn; [done|]. by destruct (leaves c0). Qed.

Lemma some_leaf n : exists x, x ∈ leaves n.
Proof. pose proof (leaves_nonempty n). destruct (leaves n) as [|x l]; [done|]. exists x. by left. Qed.

(** What a root hash commits to: the keys with the hashes of their leaves. *)
Definition leaf_sum (x : list Z * L) : list Z * Hash := (x.1, get_LeafHash x.1 x.2).
Definition summary n : list (list Z * Hash) := leaf_sum <$> leaves n.

Lemma summary_joint b c h kp c0 c1 :
  summary (Joint b c h kp c0 c1) = summary c0 ++ summary c1.
Proof. apply fmap_app. Qed.

Lemma summary_nonempty n : summary n <> [].
Proof. unfold summary. pose proof (leaves_nonempty n). by destruct (leaves n). Qed.

Lemma summary_child N d b c h kp c0 c1 (i : bool) x :
  wf N d (Joint b c h kp c0 c1) -> x ∈ summary (child i c0 c1) ->
  keq (d + b) x.1 kp /\ get_Bit x.1 (d + b) = i.
Proof.
  intros W (y & -> & Hy)%list_elem_of_fmap. by apply (wf_child _ _ _ _ _ _ _ _ i y W).
Qed.

Lemma summary_keq N d n x :
  wf N d n -> x ∈ summary n -> keq (d + get_Bits n) x.1 (get_NodeKey n).
Proof. intros W (y & -> & Hy)%list_elem_of_fmap. by apply (wf_keq N d n y). Qed.

Lemma filter_branch N d b c h kp c0 c1 (i : bool) :
  wf N d (Joint b c h kp c0 c1) ->
  filter (fun x => get_Bit x.1 (d + b) = i) (summary (Joint b c h kp c0 c1))
    = summary (child i c0 c1).
Proof.
  intros W. rewrite summary_joint, filter_app.
  assert (forall j x, x ∈ summary (child j c0 c1) -> get_Bit x.1 (d + b) = j) as H.
  { intros j x Hx. by destruct (summary_child _ _ _ _ _ _ _ _ _ _ W Hx). }
  pose proof (H false) as H0. pose proof (H true) as H1. cbn [child] in H0, H1.
  destruct i; cbn [child].
  - rewrite (list_filter_none _ (summary c0)), list_filter_all; [done|done|].
    intros x Hx. by rewrite H0.
  - rewrite list_filter_all, (list_filter_none _ (summary c1)); [by rewrite app_nil_r| |done].
    intros x Hx. by rewrite H1.
Qed.

Lemma tree_leaves_unique N (t1 t2 : tree) :
  tree_wf N t1 -> tree_wf N t2 -> tree_leaves t1 ≡ₚ tree_leaves t2 ->
  tree_leaves t1 = tree_leaves t2.
Proof.
  intros W1 W2 Hp.
  assert (forall t, tree_wf N t -> StronglySorted (fun x y => klt N x.1 y.1) (tree_leaves t)) as Hs.
  { intros [n|] W; [by eapply leaves_sorted|constructor]. }
  apply (StronglySorted_unique_strong (fun x y => klt N x.1 y.1)); auto.
  intros x y _ _ H1 H2. exfalso. eapply klt_irrefl, klt_trans; eassumption.
Qed.

(** ** Cached hashes

    A clean joint holds the hash of its subtree and has clean children; so that
    what is above a dirty node is dirty. *)
Fixpoint coherent n : Prop :=
  match n with
  | Leaf _ _ _ _ => True
  | Joint _ c h _ c0 c1 =>
      (c = true -> h = hash2 (pure_hash c0) (pure_hash c1) /\ IsClean c0 = true /\ IsClean c1 = true) /\
      coherent c0 /\ coherent c1
  end.

Lemma get_Hash_node_spec n :
  coherent n ->
  let '(n', h) := get_Hash_node hash2 get_LeafHash n in
  h = pure_hash n /\ coherent n' /\ strip n' = strip n /\ IsClean n' = true.
Proof.
  induction n as [b c k v|b c h kp c0 IH0 c1 IH1]; cbn [get_Hash_node coherent]; [done|].
  intros (Hc & H0 & H1). destruct c.
  - cbn [pure_hash]. destruct (Hc eq_refl) as (-> & ? & ?). done.
  - specialize (IH0 H0). specialize (IH1 H1).
    destruct (get_Hash_node hash2 get_LeafHash c0) as [c0' x0],
      (get_Hash_node hash2 get_LeafHash c1) as [c1' x1].
    destruct IH0 as (-> & C0 & S0 & K0), IH1 as (-> & C1 & S1 & K1). cbn [pure_hash coherent strip].
    split; [done|]. split; [|split; [congruence|done]].
    split; [|done]. intros _.
    by rewrite <- (strip_pure c0'), <- (strip_pure c1'), S0, S1, !strip_pure.
Qed.

(** Every node on the path to the tip is dirty. *)
Fixpoint path_dirty (path : list bool) n : Prop :=
  IsClean n = false /\
  match path, n with
  | b :: path, Joint _ _ _ _ c0 c1 => path_dirty path (if b then c1 else c0)
  | _, _ => True
  end.

Lemma coherent_set_Clean n : coherent n -> coherent (set_Clean false n).
Proof. destruct n; cbn; [done|]. intros (_ & ? & ?). done. Qed.

Lemma Invalidate_spec path n :
  coherent n ->
  let '(n', go) := Invalidate_node path n in
  coherent n' /\ path_dirty path n' /\ go = IsClean n.
Proof.
  revert n. induction path as [|i path IH]; intros n Hc.
  - assert (Invalidate_node [] n = if IsClean n then (set_Clean false n, true) else (n, false)) as ->
      by (by destruct n).
    destruct (IsClean n) eqn:E; (split; [|split; [|done]]); try done.
    + by apply coherent_set_Clean.
    + by destruct n.
  - destruct n as [b c k v|b c h kp c0 c1].
    { cbn [Invalidate_node IsClean]. destruct c; cbn; done. }
    destruct Hc as (Hcl & H0 & H1). cbn [Invalidate_node].
    set (ch := if i then c1 else c0).
    assert (coherent ch) as Hch by (by destruct i).
    specialize (IH ch Hch). subst ch. destruct i.
    + destruct (Invalidate_node path c1) as [c1' go]. destruct IH as (C1 & P1 & ->).
      destruct (IsClean c1) eqn:E1.
      * cbn [IsClean]. destruct c; cbn; repeat split; try done.
      * destruct c; [exfalso; by destruct (Hcl eq_refl) as (_ & _ & ?)|]. cbn. repeat split; try done.
    + destruct (Invalidate_node path c0) as [c0' go]. destruct IH as (C0 & P0 & ->).
      destruct (IsClean c0) eqn:E0.
      * cbn [IsClean]. destruct c; cbn; repeat split; try done.
      * destruct c; [exfalso; by destruct (Hcl eq_refl) as (_ & ? & _)|]. cbn. repeat split; try done.
Qed.

Lemma ReplaceTip_coherent path pNew n :
  coherent n -> path_dirty path n -> coherent pNew -> coherent (ReplaceTip_node path pNew n).
Proof.
  revert n. induction path as [|i path IH]; intros n Hc Hd Hn; [by destruct n|].
  destruct n as [|b c h kp c0 c1]; [done|]. destruct Hc as (_ & H0 & H1), Hd as [Hd Hr].
  cbn [IsClean] in Hd. subst c. cbn [ReplaceTip_node]. destruct i; cbn [coherent]; (split; [done|]); split; auto.
Qed.

Lemma coherent_set_Bits b n : coherent n -> coherent (set_Bits b n).
Proof. by destruct n. Qed.

Lemma tip_coherent path n p : coherent n -> tip_node path n = Some p -> coherent p.
Proof.
  revert n. induction path as [|i path IH]; intros n Hc Ht.
  - assert (n = p) as -> by (destruct n; cbn in Ht; congruence). done.
  - destruct n as [|b c h kp c0 c1]; [done|]. destruct Hc as (_ & H0 & H1).
    apply (IH (if i then c1 else c0)); [by destruct i|done].
Qed.

Lemma Delete_coherent path k n n' r :
  coherent n -> path_dirty path n -> Delete_node path k n = Some (n', r) -> coherent n'.
Proof.
  revert n n' r. induction path as [|i path IH]; intros n n' r Hc Hd Ed; [by destruct n|].
  destruct n as [|b c h kp c0 c1]; [by destruct path|]. destruct Hc as (_ & H0 & H1), Hd as [Hd Hr].
  cbn [IsClean] in Hd. subst c. destruct path as [|j path].
  - cbn [Delete_node] in Ed. simplify_eq. apply coherent_set_Bits. by destruct i.
  - change (Delete_node (i :: j :: path) k (Joint b false h kp c0 c1)) with
      ('(ch, (key1, go)) ← Delete_node (j :: path) k (if i then c1 else c0);
       let go := go && bool_decide (kp = k) in
       let k' := if go then key1 else kp in
       Some (if i then Joint b false h k' c0 ch else Joint b false h k' ch c1, (key1, go))) in Ed.
    destruct (Delete_node (j :: path) k (if i then c1 else c0)) as [[ch [key1 go]]|] eqn:E; [|done].
    cbn [mbind option_bind] in Ed. simplify_eq.
    assert (coherent ch) by (eapply IH; [|exact Hr|exact E]; by destruct i).
    destruct i; cbn [coherent]; done.
Qed.

Definition tree_coherent (t : tree (L := L) (Hash := Hash)) : Prop :=
  match t with Some n => coherent n | None => True end.

Lemma Find_coherent (t : tree) k N bCreate v r :
  tree_coherent t -> Find hzero t k N bCreate v = Some r -> tree_coherent (fr_tree r).
Proof.
  intros Hc. unfold Find. destruct (Goto t k N) as [[res cu]|]; [|done]. cbn [mbind option_bind].
  destruct res; [intros [= <-]; done|]. destruct bCreate; cbn [negb]; [|intros [= <-]; done].
  destruct t as [n|]; cbn [InvalidateElement fmap option_fmap option_map]; [|intros [= <-]; done].
  pose proof (Invalidate_spec (m_pp cu) n Hc) as Hi.
  destruct (Invalidate_node (m_pp cu) n) as [n1 go]. destruct Hi as (C1 & D1 & _). cbn [fst].
  destruct (tip_node (m_pp cu) n1) as [p|] eqn:Et; [|done]. intros [= <-].
  cbn [fr_tree tree_coherent]. apply ReplaceTip_coherent; [done|done|].
  pose proof (coherent_set_Bits (get_Bits p - (m_nPosInLastNode cu + 1)) p (tip_coherent _ _ _ C1 Et)).
  unfold Find_split. cbn [coherent]. split; [done|]. by destruct (get_Bit k (m_nBits cu)).
Qed.

Lemma Delete_tree_coherent cu (t t' : tree) :
  tree_coherent t -> Delete cu t = Some t' -> tree_coherent t'.
Proof.
  intros Hc. unfold Delete. destruct t as [n|]; [|done].
  cbn [InvalidateElement fmap option_fmap option_map].
  pose proof (Invalidate_spec (m_pp cu) n Hc) as Hi.
  destruct (Invalidate_node (m_pp cu) n) as [n1 go]. destruct Hi as (C1 & D1 & _). cbn [fst].
  destruct (m_pp cu) as [|i path] eqn:Ep; [destruct n1; [by intros [= <-]|done]|].
  intros E'.
  destruct (tip_node (i :: path) n1) as [p|]; [|done]. cbn [mbind option_bind] in E'.
  destruct (Delete_node (i :: path) (get_NodeKey p) n1) as [[n' r]|] eqn:Ed; [|done].
  cbn [mbind option_bind] in E'. simplify_eq. cbn [tree_coherent]. by eapply Delete_coherent.
Qed.

(** ** Proofs *)
Lemma Radix_get_Proof_node_spec path n b c k v :
  coherent n -> tip_node path n = Some (Leaf b c k v) ->
  let '(n', pr) := Radix_get_Proof_node hash2 get_LeafHash path n in
  Interpret hash2 (get_LeafHash k v) pr = pure_hash n /\ length pr = length path /\
  coherent n' /\ strip n' = strip n /\ (IsClean n = true -> IsClean n' = true).
Proof.
  revert n. induction path as [|i path IH]; intros n Hc Ht.
  - assert (n = Leaf b c k v) as -> by (destruct n; cbn in Ht; congruence). done.
  - destruct n as [|bb cl h kp c0 c1]; [done|]. destruct Hc as (Hcl & H0 & H1).
    cbn [Radix_get_Proof_node tip_node] in *. destruct i.
    + specialize (IH c1 H1 Ht). pose proof (get_Hash_node_spec c0 H0) as Hh.
      destruct (Radix_get_Proof_node hash2 get_LeafHash path c1) as [c1' pr].
      destruct (get_Hash_node hash2 get_LeafHash c0) as [c0' hv].
      destruct IH as (E & El & C1 & S1 & K1), Hh as (-> & C0 & S0 & K0).
      split; [|split; [|split; [|split; [|done]]]].
      * unfold Interpret in *. by rewrite foldl_app, E.
      * rewrite length_app, El. cbn. lia.
      * cbn [coherent]. split; [|done]. intros ->. destruct (Hcl eq_refl) as (-> & ? & ?).
        rewrite <- (strip_pure c0'), <- (strip_pure c1'), S0, S1, !strip_pure. auto.
      * cbn [strip]. congruence.
    + specialize (IH c0 H0 Ht). pose proof (get_Hash_node_spec c1 H1) as Hh.
      destruct (Radix_get_Proof_node hash2 get_LeafHash path c0) as [c0' pr].
      destruct (get_Hash_node hash2 get_LeafHash c1) as [c1' hv].
      destruct IH as (E & El & C0 & S0 & K0), Hh as (-> & C1 & S1 & K1).
      split; [|split; [|split; [|split; [|done]]]].
      * unfold Interpret in *. by rewrite foldl_app, E.
      * rewrite length_app, El. cbn. lia.
      * cbn [coherent]. split; [|done]. intros ->. destruct (Hcl eq_refl) as (-> & ? & ?).
        rewrite <- (strip_pure c0'), <- (strip_pure c1'), S0, S1, !strip_pure. auto.
      * cbn [strip]. congruence.
Qed.

(** ** Traversal *)
Lemma Cmp_keq k B (n0 dn : nat) :
  Cmp k B n0 dn = 0 <-> (forall i, (n0 <= i < n0 + dn)%nat -> get_Bit k i = get_Bit B i).
Proof.
  revert n0. induction dn as [|dn IH]; intros n0; cbn [Cmp]; [split; [lia|done]|].
  destruct (get_Bit k n0) eqn:Ek, (get_Bit B n0) eqn:Eb; cbn [negb andb].
  - rewrite IH. split; intros H i Hi; [destruct (decide (i = n0)) as [->|]; [congruence|]|]; apply H; lia.
  - split; [done|]. intros H. rewrite H in Ek by lia. congruence.
  - split; [done|]. intros H. rewrite H in Ek by lia. congruence.
  - rewrite IH. split; intros H i Hi; [destruct (decide (i = n0)) as [->|]; [congruence|]|]; apply H; lia.
Qed.

Lemma Cmp_ext k k' B (n0 dn : nat) :
  (forall i, (n0 <= i < n0 + dn)%nat -> get_Bit k i = get_Bit k' i) -> Cmp k B n0 dn = Cmp k' B n0 dn.
Proof.
  revert n0. induction dn as [|dn IH]; intros n0 H; cbn [Cmp]; [done|].
  rewrite (H n0) by lia. rewrite (IH (S n0)); [done|]. intros. apply H. lia.
Qed.

Lemma Cmp_app k B (n0 d1 d2 : nat) :
  Cmp k B n0 (d1 + d2) = if Cmp k B n0 d1 =? 0 then Cmp k B (n0 + d1) d2 else Cmp k B n0 d1.
Proof.
  revert n0. induction d1 as [|d1 IH]; intros n0; cbn [Cmp Nat.add]; [by rewrite Nat.add_0_r|].
  destruct (negb _ && _); [done|]. destruct (_ && negb _); [done|]. rewrite IH.
  by rewrite Nat.add_succ_comm.
Qed.

(** The whole-key comparison when the keys agree below [d]. *)
Lemma Cmp_from N d k B : (d <= N)%nat -> keq d k B -> Cmp k B 0 N = Cmp k B d (N - d).
Proof.
  intros Hd Hk. replace N with (d + (N - d))%nat at 1 by lia. rewrite Cmp_app.
  rewrite (proj2 (Cmp_keq k B 0 d)); [done|]. intros. apply Hk. lia.
Qed.

Definition in_bound N (iBound : bool) (pB : option (list Z)) k : bool :=
  match pB with
  | None => true
  | Some B => if iBound then Cmp k B 0 N <=? 0 else 0 <=? Cmp k B 0 N
  end.

Definition in_bounds N (bnd : option (list Z) * option (list Z)) k : bool :=
  in_bound N false bnd.1 k && in_bound N true bnd.2 k.

(** The bounds still to be compared agree with the keys so far. *)
Definition bnd_pre (m : nat) (bnd : option (list Z) * option (list Z)) (ks : list (list Z)) : Prop :=
  forall B k, bnd.1 = Some B \/ bnd.2 = Some B -> k ∈ ks -> keq m k B.

Lemma check_bound_spec N (iBound : bool) pB cmp (ks : list (list Z)) :
  (forall B k, pB = Some B -> k ∈ ks -> cmp B <> 0 -> Cmp k B 0 N = cmp B) ->
  match check_bound iBound pB cmp with
  | None => forall k, k ∈ ks -> in_bound N iBound pB k = false
  | Some pB' =>
      (forall k, k ∈ ks -> in_bound N iBound pB' k = in_bound N iBound pB k) /\
      (forall B, pB' = Some B -> pB = Some B /\ cmp B = 0)
  end.
Proof.
  intros Hc. destruct pB as [B|]; cbn [check_bound in_bound]; [|done].
  destruct (Z.eqb_spec (cmp B) 0) as [E|E].
  - split; [done|]. intros B' [= <-]. done.
  - assert (forall k, k ∈ ks -> Cmp k B 0 N = cmp B) as Hk by (intros; by apply Hc).
    destruct iBound, (Z.ltb_spec (cmp B) 0); cbn [negb Bool.eqb].
    + split; [|done]. intros k Hin. rewrite Hk by done. cbn. symmetry. apply Z.leb_le. lia.
    + intros k Hin. rewrite Hk by done. apply Z.leb_gt. lia.
    + intros k Hin. rewrite Hk by done. apply Z.leb_gt. lia.
    + split; [|done]. intros k Hin. rewrite Hk by done. cbn. symmetry. apply Z.leb_le. lia.
Qed.

Lemma check_bounds_spec N bnd cmp (ks : list (list Z)) :
  (forall B k, bnd.1 = Some B \/ bnd.2 = Some B -> k ∈ ks -> cmp B <> 0 -> Cmp k B 0 N = cmp B) ->
  match check_bounds bnd cmp with
  | None => forall k, k ∈ ks -> in_bounds N bnd k = false
  | Some bnd' =>
      (forall k, k ∈ ks -> in_bounds N bnd' k = in_bounds N bnd k) /\
      (forall B, bnd'.1 = Some B \/ bnd'.2 = Some B -> (bnd.1 = Some B \/ bnd.2 = Some B) /\ cmp B = 0)
  end.
Proof.
  intros Hc. unfold check_bounds, in_bounds. destruct bnd as [p0 p1]. cbn [fst snd] in *.
  pose proof (check_bound_spec N false p0 cmp ks ltac:(intros; apply Hc; auto)) as H0.
  pose proof (check_bound_spec N true p1 cmp ks ltac:(intros; apply Hc; auto)) as H1.
  destruct (check_bound false p0 cmp) as [q0|]; cbn [mbind option_bind].
  - destruct (check_bound true p1 cmp) as [q1|]; cbn [mbind option_bind].
    + destruct H0 as [A0 B0], H1 as [A1 B1]. cbn [fst snd]. split.
      * intros k Hk. by rewrite A0, A1.
      * intros B [E|E]; [destruct (B0 _ E)|destruct (B1 _ E)]; auto.
    + intros k Hk. rewrite (H1 k Hk). by rewrite andb_false_r.
  - intros k Hk. by rewrite (H0 k Hk).
Qed.

(** Visiting a list of leaves until told to stop. *)
Fixpoint leaves_path (path : list bool) n : list (list bool * (list Z * L)) :=
  match n with
  | Leaf _ _ k d => [(path, (k, d))]
  | Joint _ _ _ _ c0 c1 => leaves_path (path ++ [false]) c0 ++ leaves_path (path ++ [true]) c1
  end.

Section visit.
Context {T : Type} (OnLeaf : T -> list bool -> list Z -> L -> T * bool).

Fixpoint visit (t : T) (l : list (list bool * (list Z * L))) : T * bool :=
  match l with
  | [] => (t, true)
  | (path, (k, d)) :: l =>
      let '(t, go) := OnLeaf t path k d in
      if go then visit t l else (t, false)
  end.

Lemma visit_app t l1 l2 :
  visit t (l1 ++ l2) = let '(t, go) := visit t l1 in if go then visit t l2 else (t, false).
Proof.
  revert t. induction l1 as [|[path [k d]] l1 IH]; intros t; cbn; [by destruct (visit t l2)|].
  destruct (OnLeaf t path k d) as [t' []]; [apply IH|done].
Qed.

Lemma leaves_path_leaves path n : snd <$> leaves_path path n = leaves n.
Proof.
  revert path. induction n as [|b c h kp c0 IH0 c1 IH1]; intros path; cbn; [done|].
  by rewrite fmap_app, IH0, IH1.
Qed.

Lemma leaves_path_elem path n x : x ∈ leaves_path path n -> x.2 ∈ leaves n.
Proof. intros Hx. rewrite <- (leaves_path_leaves path n). by apply list_elem_of_fmap_2. Qed.

Abbreviation sel N bnd := (filter (fun x : list bool * (list Z * L) => in_bounds N bnd x.2.1 = true)).

Lemma sel_none N bnd path n :
  (forall k, k ∈ (fst <$> leaves n) -> in_bounds N bnd k = false) -> sel N bnd (leaves_path path n) = [].
Proof.
  intros H. apply list_filter_none. intros x Hx. rewrite H; [done|].
  apply list_elem_of_fmap. exists x.2. split; [done|]. by eapply leaves_path_elem.
Qed.

Lemma sel_ext N bnd bnd' path n :
  (forall k, k ∈ (fst <$> leaves n) -> in_bounds N bnd' k = in_bounds N bnd k) ->
  sel N bnd (leaves_path path n) = sel N bnd' (leaves_path path n).
Proof.
  intros H. apply list_filter_ext. intros x Hx. rewrite H; [done|].
  apply list_elem_of_fmap. exists x.2. split; [done|]. by eapply leaves_path_elem.
Qed.

(** One child of a joint: skipped, or visited with what is left of the bounds. *)
Lemma Traverse_child N d b c h kp c0 c1 (i : bool) bnd path t :
  let n := Joint b c h kp c0 c1 in
  wf N d n -> bnd_pre (d + b) bnd (fst <$> leaves n) ->
  (forall bnd, bnd_pre (S (d + b)) bnd (fst <$> leaves (child i c0 c1)) ->
     Traverse_node OnLeaf (child i c0 c1) path (S (d + b)) bnd t
     = visit t (sel N bnd (leaves_path path (child i c0 c1)))) ->
  match check_bounds bnd (fun B => Cmp1 i B (d + b)) with
  | None => (t, true)
  | Some bnd => Traverse_node OnLeaf (child i c0 c1) path (S (d + b)) bnd t
  end = visit t (sel N bnd (leaves_path path (child i c0 c1))).
Proof.
  intros n W Hpre IH. pose proof W as (Hlt & _).
  assert (forall k, k ∈ (fst <$> leaves (child i c0 c1)) ->
            k ∈ (fst <$> leaves n) /\ get_Bit k (d + b) = i) as Hk.
  { intros k (x & -> & Hx)%list_elem_of_fmap. split.
    - apply list_elem_of_fmap_2. cbn [leaves n]. rewrite elem_of_app. destruct i; auto.
    - by apply (wf_child _ _ _ _ _ _ _ _ i _ W). }
  assert (forall B k, k ∈ (fst <$> leaves (child i c0 c1)) -> Cmp1 i B (d + b) = Cmp k B (d + b) 1) as Hc1.
  { intros B k Hin. destruct (Hk k Hin) as [_ Hb]. unfold Cmp1. cbn [Cmp]. by rewrite Hb. }
  pose proof (check_bounds_spec N bnd (fun B => Cmp1 i B (d + b))
    (fst <$> leaves (child i c0 c1))) as Hs. cbn beta in Hs.
  lapply Hs; clear Hs.
  2: { intros B k HB Hin Hne. rewrite (Hc1 B k Hin) in Hne |- *.
       rewrite (Cmp_from N (d + b)) by first [lia|apply Hpre; [done|by apply Hk]].
       replace (N - (d + b))%nat with (1 + (N - (d + b) - 1))%nat by lia. rewrite Cmp_app.
       by rewrite (proj2 (Z.eqb_neq _ _) Hne). }
  destruct (check_bounds bnd _) as [bnd'|]; intros Hs.
  - destruct Hs as [Hin Hkeep]. rewrite IH; [by rewrite (sel_ext N bnd bnd')|].
    intros B k HB Hk'. destruct (Hkeep B HB) as [HB' HC]. rewrite (Hc1 B k Hk'), Cmp_keq in HC.
    intros j Hj. destruct (decide (j = d + b)%nat) as [->|]; [apply HC; lia|].
    apply (Hpre B k HB' (proj1 (Hk k Hk'))). lia.
  - by rewrite sel_none.
Qed.

(** The edge of a node. *)
Lemma Traverse_edge N n d bnd :
  wf N d n -> bnd_pre d bnd (fst <$> leaves n) ->
  match check_bounds bnd (fun B => Cmp (get_NodeKey n) B d (get_Bits n)) with
  | None => forall k, k ∈ (fst <$> leaves n) -> in_bounds N bnd k = false
  | Some bnd' =>
      (forall k, k ∈ (fst <$> leaves n) -> in_bounds N bnd' k = in_bounds N bnd k) /\
      bnd_pre (d + get_Bits n) bnd' (fst <$> leaves n)
  end.
Proof.
  intros W Hpre. pose proof (wf_le _ _ _ W) as Hle.
  assert (forall k, k ∈ (fst <$> leaves n) -> keq (d + get_Bits n) k (get_NodeKey n)) as Hk.
  { intros k (x & -> & Hx)%list_elem_of_fmap. by eapply wf_keq. }
  assert (forall B k, k ∈ (fst <$> leaves n) ->
            Cmp (get_NodeKey n) B d (get_Bits n) = Cmp k B d (get_Bits n)) as Hc.
  { intros B k Hin. apply Cmp_ext. intros i Hi. symmetry. apply Hk; [done|lia]. }
  pose proof (check_bounds_spec N bnd (fun B => Cmp (get_NodeKey n) B d (get_Bits n))
    (fst <$> leaves n)) as Hs. cbn beta in Hs. lapply Hs; clear Hs.
  2: { intros B k HB Hin Hne. rewrite (Hc B k Hin) in Hne |- *.
       rewrite (Cmp_from N d) by first [lia|by apply Hpre].
       replace (N - d)%nat with (get_Bits n + (N - d - get_Bits n))%nat by lia.
       rewrite Cmp_app. by rewrite (proj2 (Z.eqb_neq _ _) Hne). }
  destruct (check_bounds bnd _) as [bnd'|]; intros Hs; [|done].
  destruct Hs as [Hin Hkeep]. split; [done|]. intros B k HB Hk'.
  destruct (Hkeep B HB) as [HB' HC]. rewrite (Hc B k Hk'), Cmp_keq in HC.
  intros j Hj. destruct (decide (j < d)%nat); [by apply (Hpre B k)|]. apply HC. lia.
Qed.

Lemma Traverse_node_spec N n path d bnd t :
  wf N d n -> bnd_pre d bnd (fst <$> leaves n) ->
  Traverse_node OnLeaf n path d bnd t = visit t (sel N bnd (leaves_path path n)).
Proof.
  revert path d bnd t. induction n as [b c k v|b c h kp c0 IH0 c1 IH1]; intros path d bnd t W Hpre;
    pose proof (Traverse_edge _ _ _ _ W Hpre) as He; cbn [Traverse_node get_NodeKey get_Bits] in *;
    (destruct (check_bounds bnd _) as [bnd'|]; [destruct He as [Hin Hpre']|by rewrite sel_none]);
    rewrite (sel_ext N bnd bnd') by done.
  - cbn [leaves_path leaves wf] in *. rewrite filter_cons_True.
    { cbn. by destruct (OnLeaf t path k v) as [t' []]. }
    cbn [snd fst]. rewrite W in Hpre'.
    assert (forall B, bnd'.1 = Some B \/ bnd'.2 = Some B -> Cmp k B 0 N = 0) as H0.
    { intros B HB. apply Cmp_keq. intros i Hi. apply (Hpre' B k HB); [|lia]. by left. }
    unfold in_bounds, in_bound. destruct bnd' as [[B0|] [B1|]]; cbn [fst snd] in *;
      rewrite ?(H0 B0), ?(H0 B1) by auto; done.
  - cbn [leaves_path]. rewrite filter_app, visit_app.
    pose proof (Traverse_child N d b c h kp c0 c1 false bnd' (path ++ [false]) t W Hpre') as H0.
    cbn [child] in H0. rewrite H0 by (intros; apply IH0; [by apply W|done]).
    destruct (visit t _) as [t' []]; cbn [negb]; [|done].
    pose proof (Traverse_child N d b c h kp c0 c1 true bnd' (path ++ [true]) t' W Hpre') as H1.
    cbn [child] in H1. by rewrite H1 by (intros; apply IH1; [by apply W|done]).
Qed.
End visit.

(** The invariant of a tree with [N]-bit keys. *)
Definition tree_inv N (t : tree (L := L) (Hash := Hash)) : Prop := tree_wf N t /\ tree_coherent t.

Lemma Radix_get_Hash_spec (t : tree) :
  tree_coherent t ->
  let '(t', h) := Radix_get_Hash hash2 hzero get_LeafHash t in
  h = match t with Some n => pure_hash n | None => hzero end /\
  tree_coherent t' /\ (forall N, tree_wf N t -> tree_wf N t') /\ tree_leaves t' = tree_leaves t.
Proof.
  intros Hc. destruct t as [n|]; [|done]. cbn [Radix_get_Hash].
  pose proof (get_Hash_node_spec n Hc) as H. destruct (get_Hash_node hash2 get_LeafHash n) as [n' h].
  destruct H as (-> & C & S & _). destruct (same_strip n' n S) as (El & _ & _ & Ew & _).
  split; [done|]. split; [done|]. split; [|done]. intros N. apply Ew.
Qed.
End facts.

(** ** Two trees with the same keys and leaf hashes have the same root hash

    The leaves may carry different data. *)
Section canonical.
Context {L1 L2 Hash : Type} (hash2 : Hash -> Hash -> Hash).
Context (lh1 : list Z -> L1 -> Hash) (lh2 : list Z -> L2 -> Hash).

(** The branching bit is the first on which two leaves differ. *)
Lemma branch_le {La Lb} (la : list Z -> La -> Hash) (lb : list Z -> Lb -> Hash)
    N d b1 e1 (h1 : Hash) k1 l1 r1 b2 e2 (h2 : Hash) k2 l2 r2 :
  let n1 := Joint (L := La) b1 e1 h1 k1 l1 r1 in
  let n2 := Joint (L := Lb) b2 e2 h2 k2 l2 r2 in
  wf N d n1 -> wf N d n2 -> summary la n1 = summary lb n2 -> (b2 <= b1)%nat.
Proof.
  intros n1 n2 W1 W2 E. pose proof (summary_nonempty la l1). pose proof (summary_nonempty la r1).
  destruct (decide (b2 <= b1)%nat) as [|Hgt]; [done|]. exfalso.
  assert (exists x, x ∈ summary la l1) as [x Hx].
  { destruct (summary la l1) as [|x ?]; [done|]. exists x. by left. }
  assert (exists y, y ∈ summary la r1) as [y Hy].
  { destruct (summary la r1) as [|y ?]; [done|]. exists y. by left. }
  assert (x ∈ summary lb n2 /\ y ∈ summary lb n2) as [Hx2 Hy2].
  { rewrite <- E. unfold n1. rewrite summary_joint, !elem_of_app. auto. }
  destruct (summary_child la N d b1 e1 h1 k1 l1 r1 false x W1 Hx) as [_ Fx].
  destruct (summary_child la N d b1 e1 h1 k1 l1 r1 true y W1 Hy) as [_ Fy].
  pose proof (summary_keq lb _ _ _ _ W2 Hx2 (d + b1)%nat ltac:(cbn [get_Bits n2]; lia)) as Ex.
  pose proof (summary_keq lb _ _ _ _ W2 Hy2 (d + b1)%nat ltac:(cbn [get_Bits n2]; lia)) as Ey.
  congruence.
Qed.

Lemma summary_length2 {La} (la : list Z -> La -> Hash) b e (h : Hash) k l r :
  (2 <= length (summary la (Joint b e h k l r)))%nat.
Proof.
  rewrite summary_joint, length_app. pose proof (summary_nonempty la l). pose proof (summary_nonempty la r).
  destruct (summary la l), (summary la r); simpl; try done; lia.
Qed.

Lemma canonical N d (n1 : node (L := L1) (Hash := Hash)) (n2 : node (L := L2) (Hash := Hash)) :
  wf N d n1 -> wf N d n2 -> summary lh1 n1 = summary lh2 n2 ->
  pure_hash hash2 lh1 n1 = pure_hash hash2 lh2 n2.
Proof.
  revert d n2. induction n1 as [b1 e1 k1 v1|b1 e1 h1 k1 l1 IHl r1 IHr]; intros d n2 W1 W2 E.
  - destruct n2 as [b2 e2 k2 v2|b2 e2 h2 k2 l2 r2].
    + unfold summary, leaf_sum in E. cbn in E. by simplify_eq.
    + pose proof (summary_length2 lh2 b2 e2 h2 k2 l2 r2) as Hl. rewrite <- E in Hl. simpl in Hl. lia.
  - destruct n2 as [b2 e2 k2 v2|b2 e2 h2 k2 l2 r2].
    + pose proof (summary_length2 lh1 b1 e1 h1 k1 l1 r1) as Hl. rewrite E in Hl. simpl in Hl. lia.
    + assert (b1 = b2) as <-.
      { pose proof (branch_le lh1 lh2 _ _ _ _ _ _ _ _ _ _ _ _ _ _ W1 W2 E).
        pose proof (branch_le lh2 lh1 _ _ _ _ _ _ _ _ _ _ _ _ _ _ W2 W1 (eq_sym E)). lia. }
      cbn [pure_hash].
      pose proof (filter_branch lh1 _ _ _ _ _ _ _ _ false W1) as F1.
      pose proof (filter_branch lh2 _ _ _ _ _ _ _ _ false W2) as F2.
      pose proof (filter_branch lh1 _ _ _ _ _ _ _ _ true W1) as T1.
      pose proof (filter_branch lh2 _ _ _ _ _ _ _ _ true W2) as T2.
      rewrite E in F1, T1. cbn [child] in *.
      destruct W1 as (_ & _ & _ & _ & ? & ?), W2 as (_ & _ & _ & _ & ? & ?).
      f_equal; [apply (IHl (S (d + b1)))|apply (IHr (S (d + b1)))]; congruence.
Qed.
End canonical.

(** A small tree for the examples: two 8-bit keys that differ in the first bit. *)
Definition ex_tree : tree (L := Z) (Hash := Z) :=
  Some (Joint 0 false 0 [0x25] (Leaf 7 false [0x25] 10) (Leaf 7 false [0xa7] 20)).

Lemma ex_tree_inv hash2 get_LeafHash : tree_inv hash2 get_LeafHash 8 ex_tree.
Proof.
  split; [|done]. cbn [tree_wf ex_tree wf leaves get_NodeKey]. split_and!; try lia; [by left| |].
  - intros x ->%list_elem_of_singleton. split; [apply keq_0|done].
  - intros x ->%list_elem_of_singleton. split; [apply keq_0|done].
Qed.

(** * The properties of the radix tree *)

(** C23: [RadixTree::Find] on any tree that satisfies the invariant returns
    (it never uses a leaf as a joint), finds the leaf exactly when some leaf has
    the searched bits, otherwise returns no leaf or, with [bCreate], adds exactly
    one leaf; the invariant, including the coherence of the cached hashes, is kept
    and the cursor leads to the returned leaf. *)
Theorem radix_find {L Hash} (hash2 : Hash -> Hash -> Hash) (hzero : Hash)
    (get_LeafHash : list Z -> L -> Hash) N (t : tree (L := L) (Hash := Hash)) k bCreate v :
  tree_inv hash2 get_LeafHash N t -> (0 < N)%nat ->
  exists r, Find hzero t k N bCreate v = Some r /\ tree_inv hash2 get_LeafHash N (fr_tree r) /\
    ((exists x, x ∈ tree_leaves t /\ keq N k x.1) ->
       fr_tree r = t /\ fr_bCreate r = false /\ fr_leaf r = true) /\
    ((forall x, x ∈ tree_leaves t -> ~ keq N k x.1) ->
       fr_leaf r = bCreate /\ fr_bCreate r = bCreate /\
       if bCreate then tree_leaves (fr_tree r) ≡ₚ (k, v) :: tree_leaves t else fr_tree r = t) /\
    (fr_leaf r = true ->
       exists n b c k' v', fr_tree r = Some n /\
         tip_node (m_pp (fr_cursor r)) n = Some (Leaf b c k' v') /\ keq N k k' /\ (k', v') ∈ leaves n).
Proof.
  intros [W C] HN. destruct (Find_spec hzero N t k bCreate v W HN) as (r & E & W' & H).
  exists r. split; [done|]. split; [|done]. split; [done|]. by eapply Find_coherent.
Qed.

Lemma radix_find_witness :
  exists r, Find 0 ex_tree [0xa0] 8 true 30 = Some r /\ tree_inv Z.add (fun _ v => v) 8 (fr_tree r).
Proof.
  destruct (radix_find Z.add 0 (fun _ v => v) 8 ex_tree [0xa0] true 30) as (r & E & I & _);
    [apply ex_tree_inv|lia|]. by exists r.
Defined.

(** C24: [RadixTree::Delete] at a cursor that leads to a leaf removes exactly
    that leaf: its parent joint disappears, the sibling's edge grows, the key
    pointers into the dead leaf are retargeted, and the invariant (shape, key
    pointers, cached hashes) is kept. *)
Theorem radix_delete {L Hash} (hash2 : Hash -> Hash -> Hash)
    (get_LeafHash : list Z -> L -> Hash) N (n : node (L := L) (Hash := Hash)) cu b c k v :
  tree_inv hash2 get_LeafHash N (Some n) -> tip_node (m_pp cu) n = Some (Leaf b c k v) ->
  exists t', Delete cu (Some n) = Some t' /\ tree_inv hash2 get_LeafHash N t' /\
    leaves n ≡ₚ (k, v) :: tree_leaves t'.
Proof.
  intros [W C] Ht.
  destruct (Delete_spec hash2 (pure_hash hash2 get_LeafHash n) N n cu b c k v W Ht)
    as (t' & E & W' & Hl).
  exists t'. split; [done|]. split; [|done]. split; [done|]. by eapply Delete_tree_coherent.
Qed.

Lemma radix_delete_witness :
  exists n t', ex_tree = Some n /\ Delete (mkCursor 8 2 7 [false]) (Some n) = Some t' /\
    leaves n ≡ₚ ([0x25], 10) :: tree_leaves t'.
Proof.
  eexists. destruct (radix_delete (Hash := Z) Z.add (fun _ v => v) 8
    (Joint 0 false 0 [0x25] (Leaf 7 false [0x25] 10) (Leaf 7 false [0xa7] 20))
    (mkCursor 8 2 7 [false]) 7 false [0x25] 10) as (t' & E & _ & Hl); [apply ex_tree_inv|done|].
  exists t'. split; [reflexivity|]. split; [exact E|exact Hl].
Defined.

(** C25: The root hash is a commitment to the set of leaves: two trees that
    satisfy the invariant and hold the same leaves, whatever the insertions,
    deletions and hash computations that led to them, return the same hash, and
    computing it keeps the tree. *)
Theorem radix_hash_canonical {L Hash} (hash2 : Hash -> Hash -> Hash) (hzero : Hash)
    (get_LeafHash : list Z -> L -> Hash) N (t1 t2 : tree (L := L) (Hash := Hash)) :
  tree_inv hash2 get_LeafHash N t1 -> tree_inv hash2 get_LeafHash N t2 ->
  tree_leaves t1 ≡ₚ tree_leaves t2 ->
  (Radix_get_Hash hash2 hzero get_LeafHash t1).2 = (Radix_get_Hash hash2 hzero get_LeafHash t2).2 /\
  tree_inv hash2 get_LeafHash N (Radix_get_Hash hash2 hzero get_LeafHash t1).1 /\
  tree_leaves (Radix_get_Hash hash2 hzero get_LeafHash t1).1 = tree_leaves t1.
Proof.
  intros [W1 C1] [W2 C2] Hp. pose proof (tree_leaves_unique N t1 t2 W1 W2 Hp) as E.
  pose proof (Radix_get_Hash_spec hash2 hzero get_LeafHash t1 C1) as H1.
  pose proof (Radix_get_Hash_spec hash2 hzero get_LeafHash t2 C2) as H2.
  destruct (Radix_get_Hash hash2 hzero get_LeafHash t1) as [t1' x1],
    (Radix_get_Hash hash2 hzero get_LeafHash t2) as [t2' x2].
  destruct H1 as (-> & C1' & W1' & L1), H2 as (-> & _). cbn [fst snd].
  split; [|split; [split; auto|done]].
  destruct t1 as [n1|], t2 as [n2|]; cbn [tree_leaves] in E;
    [eapply canonical; [done|done|unfold summary; by rewrite E]| | |done].
  - by destruct (leaves_nonempty n1).
  - by destruct (leaves_nonempty n2).
Qed.

Lemma radix_hash_canonical_witness :
  (Radix_get_Hash Z.sub 0 (fun _ v => v) ex_tree).2
    = (Radix_get_Hash Z.sub 0 (fun _ v => v) (Radix_get_Hash Z.sub 0 (fun _ v => v) ex_tree).1).2.
Proof.
  apply (radix_hash_canonical Z.sub 0 (fun _ v => v) 8); [apply ex_tree_inv| |done].
  pose proof (ex_tree_inv Z.sub (fun _ v => v)) as [[] _]. vm_compute.
  split_and!; try lia; try done; try (by left).
  all: intros x Hx; apply list_elem_of_singleton in Hx; subst x; split; [intros i Hi; lia|done].
Defined.

(** [RadixHashTree::get_Proof] for the leaf at a cursor yields a proof that
    leads from the leaf's hash to the tree's root hash, one node per joint on the
    path, appended to what the caller already had; the hashes it caches on the way
    keep the invariant. *)
Theorem radix_proof {L Hash} (hash2 : Hash -> Hash -> Hash) (hzero : Hash)
    (get_LeafHash : list Z -> L -> Hash) N (n : node (L := L) (Hash := Hash)) cu b c k v proof :
  tree_inv hash2 get_LeafHash N (Some n) -> tip_node (m_pp cu) n = Some (Leaf b c k v) ->
  exists t' pr, Radix_get_Proof hash2 get_LeafHash proof cu (Some n) = (t', proof ++ pr) /\
    Interpret hash2 (get_LeafHash k v) pr = (Radix_get_Hash hash2 hzero get_LeafHash (Some n)).2 /\
    length pr = length (m_pp cu) /\ tree_inv hash2 get_LeafHash N t'.
Proof.
  intros [W C] Ht. cbn [Radix_get_Proof].
  pose proof (Radix_get_Proof_node_spec hash2 hzero get_LeafHash (m_pp cu) n b c k v C Ht) as H.
  pose proof (Radix_get_Hash_spec hash2 hzero get_LeafHash (Some n) C) as Hh.
  destruct (Radix_get_Proof_node hash2 get_LeafHash (m_pp cu) n) as [n' pr].
  destruct (Radix_get_Hash hash2 hzero get_LeafHash (Some n)) as [t1 h1].
  destruct H as (E & El & C' & S & _), Hh as (-> & _).
  eexists _, pr. split; [done|]. split; [done|]. split; [done|]. split; [|done].
  destruct (same_strip hzero n' n S) as (_ & _ & _ & Ew & _). by apply Ew.
Qed.

Lemma radix_proof_witness :
  exists t' pr, Radix_get_Proof Z.sub (fun _ v => v) [] (mkCursor 8 2 7 [true]) ex_tree = (t', [] ++ pr) /\
    Interpret Z.sub 20 pr = (Radix_get_Hash Z.sub 0 (fun _ v => v) ex_tree).2.
Proof.
  destruct (radix_proof Z.sub 0 (fun _ v => v) 8
    (Joint 0 false 0 [0x25] (Leaf 7 false [0x25] 10) (Leaf 7 false [0xa7] 20))
    (mkCursor 8 2 7 [true]) 7 false [0xa7] 20 []) as (t' & pr & E & Hi & _);
    [apply ex_tree_inv|reflexivity|].
  exists t', pr. split; [exact E|exact Hi].
Defined.

(** [RadixTree::Traverse] with optional lower and upper bounds visits
    exactly the leaves whose keys are not below the lower and not above the upper
    bound, each once, in the order of their keys, stopping when [OnLeaf] returns
    [false]; pruning whole subtrees never skips one. *)
Theorem radix_traverse {L Hash T} (OnLeaf : T -> list bool -> list Z -> L -> T * bool)
    N (t : tree (L := L) (Hash := Hash)) bnd s :
  tree_wf N t ->
  Traverse OnLeaf t bnd s
    = visit OnLeaf s
        (filter (fun x => in_bounds N bnd x.2.1 = true)
           (match t with Some n => leaves_path [] n | None => [] end)) /\
  StronglySorted (fun x y => klt N x.1 y.1) (tree_leaves t).
Proof.
  intros W. destruct t as [n|]; [|split; [done|constructor]]. split; [|by eapply leaves_sorted].
  cbn [Traverse]. apply Traverse_node_spec; [done|]. intros B k _ _. apply keq_0.
Qed.

Lemma radix_traverse_witness :
  Traverse (fun acc _ k _ => (acc ++ [k], true)) ex_tree (Some [0x30], None) [] = ([[0xa7]], true).
Proof.
  destruct (radix_traverse (fun acc _ k _ => (acc ++ [k], true)) 8 ex_tree (Some [0x30], None) [])
    as [E _]; [apply (ex_tree_inv Z.add (fun _ v => v))|].
  rewrite E. vm_compute. reflexivity.
Defined.
