(* ===== verification/UtxoTree.v ===== *)
(** The UTXO set: [UtxoTree] of [core/radixtree.h], [core/radixtree.cpp].

    Keys ([UtxoTree::Key]), leaves with their stack of [TxoID]s, the archive
    format ([SaveIntenral] / [LoadIntenral], as the sequence of values handed to
    the serializer) and the streaming root computation ([UtxoTree::Compact]).
    SHA-256 is the parameter [sha256]. *)

From stdpp Require Import sorting.
From S2P Require Import Prelude UintBig EccData Merkle RadixTree.

(** ** Keys *)
Definition s_BitsCommitment : nat := 257.
Definition s_Bits : nat := (s_BitsCommitment + 64)%nat.
Definition s_Bytes : nat := Nat.div (s_Bits + 7) 8.

Record Data := mkData { m_Commitment : Point; m_Maturity : Z }.

(** [Key::operator = (const Data&)]: 256 bits of [X], one bit of [Y], 64 bits of
    maturity, zero padding. *)
Definition Key_of_Data (d : Data) : list Z :=
  let pKey := replicate (s_Bytes - 32) 0 in
  let pKey := if negb (m_Y (m_Commitment d) =? 0)
              then <[0%nat := Z.lor (pKey !!! 0%nat) (Z.shiftl 1 7)]> pKey else pKey in
  let pKey :=
    for_up 8
      (fun i pKey =>
         let val := u8 (Z.shiftr (m_Maturity d) (Z.shiftl (8 - Z.of_nat i - 1) 3)) in
         let pKey := <[i := Z.lor (pKey !!! i) (Z.shiftr val 1)]> pKey in
         <[(i + 1)%nat := Z.lor (pKey !!! (i + 1)%nat) (u8 (Z.shiftl val 7))]> pKey)
      pKey in
  m_X (m_Commitment d) ++ pKey.

(** [Key::Data::operator = (const Key&)]. *)
Definition Data_of_Key (key : list Z) : Data :=
  let pKey := drop 32 key in
  let m_Y := Z.land 1 (Z.shiftr (pKey !!! 0%nat) 7) in
  let m_Maturity :=
    for_up 8
      (fun i m => Z.lor (Z.lor (u64 (Z.shiftl m 8)) (Z.shiftl (pKey !!! i) 1))
                        (Z.shiftr (pKey !!! (i + 1)%nat) 7)) 0 in
  mkData (mkPoint (take 32 key) m_Y) m_Maturity.

(** ** Leaves *)

(** The union of a single [TxoID] and a queue, told apart by [s_User]. *)
Inductive IDs :=
| Single (m_ID : Z)
| Queue (m_Count : Z) (top : list Z).

Definition IsExt (x : IDs) : bool := match x with Single _ => false | Queue _ _ => true end.
Definition get_Count (x : IDs) : Z := match x with Single _ => 1 | Queue n _ => n end.

Definition PushIDRaw (id : Z) (q : Z * list Z) : Z * list Z := (u32 (q.1 + 1), id :: q.2).

Definition PushID (id : Z) (x : IDs) : IDs :=
  let q := match x with
           | Single val => PushIDRaw val (0, [])
           | Queue n top => (n, top)
           end in
  let q := PushIDRaw id q in
  Queue q.1 q.2.

(** Popping from an empty queue is undefined; [None]. *)
Definition PopIDRaw (q : Z * list Z) : option (Z * (Z * list Z)) :=
  match q.2 with
  | [] => None
  | id :: rest => Some (id, (u32 (q.1 - 1), rest))
  end.

Definition PopID (x : IDs) : option (Z * IDs) :=
  match x with
  | Single _ => None
  | Queue n top =>
      '(ret, q) ← PopIDRaw (n, top);
      if q.1 =? 1 then
        '(val, _) ← PopIDRaw q;
        Some (ret, Single val)
      else Some (ret, Queue q.1 q.2)
  end.

(** [DeleteLeaf] first pops down to a single element. *)
Fixpoint DeleteLeaf_loop (fuel : nat) (x : IDs) : option IDs :=
  match fuel with
  | O => None
  | S fuel => if IsExt x then '(_, x) ← PopID x; DeleteLeaf_loop fuel x else Some x
  end.

(** The elements of a queue, the top first. *)
Definition ids (x : IDs) : list Z := match x with Single id => [id] | Queue _ top => top end.

Definition IsCommitmentDuplicated {Hash} (n : node (L := IDs) (Hash := Hash)) : bool :=
  (get_Bits n <=? s_Bits - s_BitsCommitment)%nat.

Section utxo.
Context (sha256 : list Z -> list Z).

(** [MyLeaf::get_Hash] and [Input::State::get_ID]. *)
Definition Leaf_get_Hash (key : list Z) (nCount : Z) : list Z :=
  sha256 (Write_big key ++ Write_uint nCount).

Definition get_LeafHash (key : list Z) (x : IDs) : list Z := Leaf_get_Hash key (get_Count x).

Definition Input_State_get_ID (m_Maturity m_Count : Z) (comm : Point) : list Z :=
  Leaf_get_Hash (Key_of_Data (mkData comm m_Maturity)) m_Count.

Definition hash2 (l r : list Z) : list Z := sha256 (Write_big l ++ Write_big r).

Definition utree := tree (L := IDs) (Hash := list Z).

Definition Utxo_Find (t : utree) (key : list Z) (bCreate : bool) : option FindResult :=
  Find (replicate 32 0) t key s_Bits bCreate (Single 0).

(** Writing through the leaf pointer that [Find] returned. *)
Fixpoint modify_tip (path : list bool) (f : IDs -> IDs) (n : node (L := IDs) (Hash := list Z))
  : node (L := IDs) (Hash := list Z) :=
  match path, n with
  | b :: path, Joint bits c h k c0 c1 =>
      if b then Joint bits c h k c0 (modify_tip path f c1)
      else Joint bits c h k (modify_tip path f c0) c1
  | _, Leaf bits c k d => Leaf bits c k (f d)
  | [], Joint _ _ _ _ _ _ => n
  end.

(** ** The archive *)
Inductive token := T32 (n : Z) | T64 (n : Z) | TKey (k : list Z).

Definition Save_leaf (out : list token) (k : list Z) (x : IDs) : list token :=
  let out := out ++ [TKey k; T32 (get_Count x)] in
  out ++ (T64 <$> ids x).

Definition SaveIntenral (t : utree) : list token :=
  let n := u32 (Count t) in
  (Traverse (fun out _ k x => (Save_leaf out k x, true)) t (None, None) [T32 n]).1.

(** Reading: [None] is an exception (the stream ends, or a value of another
    type is read). *)
Fixpoint Load_ids (s : list token) (n : Z) (x : IDs) : option (IDs * list token) :=
  if n =? 0 then Some (x, s)
  else match s with
       | T64 val :: s => Load_ids s (n - 1) (PushID val x)
       | _ => None
       end.

Fixpoint Load_loop (n : nat) (s : list token) (prev : option (list Z)) (t : utree)
  : option (utree * list token) :=
  match n with
  | O => Some (t, s)
  | S n =>
      match s with
      | TKey key :: s =>
          if match prev with Some kp => 0 <=? _Cmp kp key | None => false end then None
          else
            r ← Utxo_Find t key true;
            match s with
            | T32 n2 :: T64 id :: s =>
                '(x, s) ← Load_ids s (u32 (n2 - 1)) (Single id);
                Load_loop n s (Some key)
                  (option_map (modify_tip (m_pp (fr_cursor r)) (fun _ => x)) (fr_tree r))
            | _ => None
            end
      | _ => None
      end
  end.

Definition LoadIntenral (s : list token) : option (utree * list token) :=
  match s with
  | T32 n :: s => Load_loop (Z.to_nat n) s None None
  | _ => None
  end.

(** ** [Compact]: the root hash of sorted keys in one pass *)
Record CNode := mkCNode { cn_Hash : list Z; m_nBitsCommon : Z }.

(** [m_vNodes] is kept reversed: its last element first. *)
Record Compact := mkCompactT { m_vNodes : list CNode; m_LastKey : list Z; m_LastCount : Z }.

Fixpoint Flush_fold (n1 : CNode) (rest : list CNode) (nBitsCommonNext : Z) : list CNode :=
  match rest with
  | [] => [n1]
  | n0 :: rest' =>
      if m_nBitsCommon n1 <? nBitsCommonNext then n1 :: rest
      else Flush_fold (mkCNode (hash2 (cn_Hash n0) (cn_Hash n1)) (m_nBitsCommon n0))
             rest' nBitsCommonNext
  end.

Definition FlushInternal (c : Compact) (nBitsCommonNext : Z) : Compact :=
  match m_vNodes c with
  | [] => c
  | n :: rest =>
      let n := if negb (m_LastCount c =? 0)
               then mkCNode (Leaf_get_Hash (m_LastKey c) (m_LastCount c)) (m_nBitsCommon n)
               else n in
      mkCompactT (Flush_fold n rest nBitsCommonNext) (m_LastKey c) 0
  end.

(** The hash of a new node is not set until it is flushed. *)
Definition Compact_Add (c : Compact) (key : list Z) : Compact * bool :=
  let push (c : Compact) (nBitsCommon : Z) :=
    (mkCompactT (mkCNode [] nBitsCommon :: m_vNodes c) key 1, true) in
  match m_vNodes c with
  | [] => push c 0
  | _ :: _ =>
      let nCmp := _Cmp (m_LastKey c) key in
      if 0 <? nCmp then (c, false)
      else if nCmp =? 0 then
        let n := u32 (m_LastCount c + 1) in
        (mkCompactT (m_vNodes c) (m_LastKey c) n, negb (n =? 0))
      else
        let k1 := _Xor (m_LastKey c) key in
        let nOrder := u16 (_GetOrder k1) in
        let nBitsCommon := u16 (8 * Z.of_nat s_Bytes - nOrder) in
        push (FlushInternal c nBitsCommon) nBitsCommon
  end.

Definition Compact_Flush (c : Compact) : Compact * list Z :=
  match m_vNodes c with
  | [] => (c, replicate 32 0)
  | _ :: _ =>
      let c := FlushInternal c 0 in
      (c, match last (m_vNodes c) with Some n => cn_Hash n | None => [] end)
  end.
End utxo.

(** * Facts *)

(** ** Keys *)
Definition data_ok (d : Data) : Prop :=
  bytes_n 32 (m_X (m_Commitment d)) /\ 0 <= m_Y (m_Commitment d) <= 1 /\ in_width 64 (m_Maturity d).

(** The number a key stands for. *)
Definition data_val (d : Data) : Z :=
  be_val (m_X (m_Commitment d)) * 2 ^ 72 + m_Y (m_Commitment d) * 2 ^ 71 + m_Maturity d * 2 ^ 7.

Lemma enc_byte a b :
  byte_ok a -> byte_ok b ->
  Z.lor (Z.lor 0 (u8 (Z.shiftl a 7))) (Z.shiftr b 1) = a mod 2 * 128 + b / 2.
Proof.
  intros Ha Hb. rewrite Z.lor_0_l. assert (u8 (Z.shiftl a 7) = Z.shiftl (a mod 2) 7) as ->.
  { rewrite !Z.shiftl_mul_pow2 by lia. unfold wrap. change (2 ^ 8) with (2 * 2 ^ 7).
    by rewrite Z.mul_mod_distr_r by lia. }
  assert (Z.shiftr b 1 = b / 2) as -> by (by rewrite Z.shiftr_div_pow2).
  rewrite <- add_shiftl_lor; [lia|lia|]. change (2 ^ 7) with 128. unfold byte_ok in Hb.
  split; [apply Z.div_pos; lia|apply Z.div_lt_upper_bound; lia].
Qed.

Lemma enc_loop (val : nat -> Z) y :
  for_up 8
    (fun i pKey =>
       let pKey := <[i := Z.lor (pKey !!! i) (Z.shiftr (val i) 1)]> pKey in
       <[(i + 1)%nat := Z.lor (pKey !!! (i + 1)%nat) (u8 (Z.shiftl (val i) 7))]> pKey)
    [y; 0; 0; 0; 0; 0; 0; 0; 0]
  = [Z.lor y (Z.shiftr (val 0%nat) 1);
     Z.lor (Z.lor 0 (u8 (Z.shiftl (val 0%nat) 7))) (Z.shiftr (val 1%nat) 1);
     Z.lor (Z.lor 0 (u8 (Z.shiftl (val 1%nat) 7))) (Z.shiftr (val 2%nat) 1);
     Z.lor (Z.lor 0 (u8 (Z.shiftl (val 2%nat) 7))) (Z.shiftr (val 3%nat) 1);
     Z.lor (Z.lor 0 (u8 (Z.shiftl (val 3%nat) 7))) (Z.shiftr (val 4%nat) 1);
     Z.lor (Z.lor 0 (u8 (Z.shiftl (val 4%nat) 7))) (Z.shiftr (val 5%nat) 1);
     Z.lor (Z.lor 0 (u8 (Z.shiftl (val 5%nat) 7))) (Z.shiftr (val 6%nat) 1);
     Z.lor (Z.lor 0 (u8 (Z.shiftl (val 6%nat) 7))) (Z.shiftr (val 7%nat) 1);
     Z.lor 0 (u8 (Z.shiftl (val 7%nat) 7))].
Proof. reflexivity. Qed.

Lemma Key_of_Data_spec d :
  data_ok d -> bytes_n s_Bytes (Key_of_Data d) /\ be_val (Key_of_Data d) = data_val d.
Proof.
  intros ([Hx Hl] & Hy & Hm). unfold Key_of_Data, data_val.
  set (M := m_Maturity d) in *. set (Y := m_Y (m_Commitment d)) in *.
  set (X := m_X (m_Commitment d)) in *. unfold in_width in Hm.
  set (val := fun i : nat => u8 (Z.shiftr M (Z.shiftl (8 - Z.of_nat i - 1) 3))).
  set (p0 := if negb (Y =? 0) then _ else _).
  assert (p0 = [Y * 128; 0; 0; 0; 0; 0; 0; 0; 0]) as Ep.
  { unfold p0. assert (Y = 0 \/ Y = 1) as [->| ->] by lia; reflexivity. }
  rewrite Ep. clear Ep p0.
  pose proof (enc_loop val (Y * 128)) as El. cbn beta zeta in El.
  match goal with |- context [for_up 8 ?f ?l] => set (tail := for_up 8 f l) end.
  change (tail = [Z.lor (Y * 128) (Z.shiftr (val 0%nat) 1);
     Z.lor (Z.lor 0 (u8 (Z.shiftl (val 0%nat) 7))) (Z.shiftr (val 1%nat) 1);
     Z.lor (Z.lor 0 (u8 (Z.shiftl (val 1%nat) 7))) (Z.shiftr (val 2%nat) 1);
     Z.lor (Z.lor 0 (u8 (Z.shiftl (val 2%nat) 7))) (Z.shiftr (val 3%nat) 1);
     Z.lor (Z.lor 0 (u8 (Z.shiftl (val 3%nat) 7))) (Z.shiftr (val 4%nat) 1);
     Z.lor (Z.lor 0 (u8 (Z.shiftl (val 4%nat) 7))) (Z.shiftr (val 5%nat) 1);
     Z.lor (Z.lor 0 (u8 (Z.shiftl (val 5%nat) 7))) (Z.shiftr (val 6%nat) 1);
     Z.lor (Z.lor 0 (u8 (Z.shiftl (val 6%nat) 7))) (Z.shiftr (val 7%nat) 1);
     Z.lor 0 (u8 (Z.shiftl (val 7%nat) 7))]) in El.
  assert (forall i, byte_ok (val i)) as Hb by (intros; apply u8_byte).
  assert (forall i, (i < 8)%nat -> val i = u8 (M / radix (7 - i))) as Hv.
  { intros i Hi. unfold val. f_equal. rewrite radix_pow2, Z.shiftr_div_pow2, Z.shiftl_mul_pow2 by
      (try lia; rewrite Z.shiftl_mul_pow2 by lia; lia). f_equal. f_equal. lia. }
  rewrite !enc_byte in El by done.
  rewrite <- (Z.lor_0_r (Z.lor 0 (u8 (Z.shiftl (val 7%nat) 7)))) in El.
  change (Z.lor (Z.lor 0 (u8 (Z.shiftl (val 7%nat) 7))) 0)
    with (Z.lor (Z.lor 0 (u8 (Z.shiftl (val 7%nat) 7))) (Z.shiftr 0 1)) in El.
  rewrite enc_byte in El by (try done; unfold byte_ok; lia).
  assert (Z.lor (Y * 128) (Z.shiftr (val 0%nat) 1) = Y * 128 + val 0%nat / 2) as E0.
  { pose proof (enc_byte Y (val 0%nat) ltac:(unfold byte_ok; lia) (Hb 0%nat)) as E.
    rewrite Z.lor_0_l in E. assert (u8 (Z.shiftl Y 7) = Y * 128) as Ey.
    { assert (Y = 0 \/ Y = 1) as [->| ->] by lia; reflexivity. }
    rewrite Ey in E. rewrite E. f_equal. f_equal. apply Z.mod_small. lia. }
  rewrite E0 in El. rewrite El. clear El E0 tail.
  assert (forall i, val i = 2 * (val i / 2) + val i mod 2 /\ 0 <= val i mod 2 <= 1 /\
            0 <= val i / 2 < 128) as Hb'.
  { intros i. specialize (Hb i). unfold byte_ok in Hb. pose proof (Z.div_mod (val i) 2 ltac:(lia)).
    pose proof (Z.mod_pos_bound (val i) 2 ltac:(lia)). lia. }
  pose proof (Hb' 0%nat). pose proof (Hb' 1%nat). pose proof (Hb' 2%nat). pose proof (Hb' 3%nat).
  pose proof (Hb' 4%nat). pose proof (Hb' 5%nat). pose proof (Hb' 6%nat). pose proof (Hb' 7%nat).
  assert (M = val 0%nat * 2 ^ 56 + val 1%nat * 2 ^ 48 + val 2%nat * 2 ^ 40 + val 3%nat * 2 ^ 32
            + val 4%nat * 2 ^ 24 + val 5%nat * 2 ^ 16 + val 6%nat * 2 ^ 8 + val 7%nat) as EM.
  { rewrite !Hv by lia. transitivity (be_val (be_bytes 8 M)).
    - rewrite be_val_be_bytes. symmetry. by apply Z.mod_small.
    - cbn [be_val be_bytes length Nat.sub].
      change (radix 7) with (2 ^ 56). change (radix 6) with (2 ^ 48).
      change (radix 5) with (2 ^ 40). change (radix 4) with (2 ^ 32). change (radix 3) with (2 ^ 24).
      change (radix 2) with (2 ^ 16). change (radix 1) with (2 ^ 8). change (radix 0) with 1.
      ring. }
  clear Hv. clearbody val M. split.
  - split; [|rewrite length_app, Hl; reflexivity].
    apply Forall_app. split; [done|].
    change (0 / 2) with 0. do 9 (apply Forall_cons_2; [unfold byte_ok; lia|]). apply Forall_nil_2.
  - rewrite be_val_app. change (radix (length _)) with (2 ^ 72). cbn [be_val length].
    change (radix 8) with (2 ^ 64). change (radix 7) with (2 ^ 56). change (radix 6) with (2 ^ 48).
    change (radix 5) with (2 ^ 40). change (radix 4) with (2 ^ 32). change (radix 3) with (2 ^ 24).
    change (radix 2) with (2 ^ 16). change (radix 1) with (2 ^ 8). change (radix 0) with 1.
    change (0 / 2) with 0. set (bx := be_val X). clearbody bx. rewrite EM. lia.
Qed.

(** One step of the decoding loop.  The bit of the previous byte that
    [pKey\[0\] << 1] brings in is already there, or falls off the top. *)
Lemma dec_step V q :
  0 <= V -> byte_ok q ->
  Z.lor (Z.lor (u64 (Z.shiftl (V / 128 mod 2 ^ 64) 8)) (Z.shiftl (V mod 256) 1)) (Z.shiftr q 7)
    = (256 * V + q) / 128 mod 2 ^ 64.
Proof.
  intros HV Hq. set (p := V mod 256).
  assert (byte_ok p) as Hp by (apply Z.mod_pos_bound; lia).
  assert (0 <= Z.shiftr q 7 <= 1) as Hs.
  { rewrite Z.shiftr_div_pow2 by lia. unfold byte_ok in Hq. change (2 ^ 7) with 128.
    split; [apply Z.div_pos; lia|]. apply Z.lt_succ_r, Z.div_lt_upper_bound; lia. }
  assert ((256 * V + q) / 128 = 2 * V + Z.shiftr q 7) as ->.
  { rewrite Z.shiftr_div_pow2 by lia. change (2 ^ 7) with 128.
    replace (256 * V + q) with (q + (2 * V) * 128) by lia. rewrite Z.div_add by lia. lia. }
  set (s := Z.shiftr q 7) in *. clearbody s.
  set (A := V / 128). assert (0 <= A) as HA by (apply Z.div_pos; lia).
  pose proof (Z.div_mod V 128 ltac:(lia)) as EV. fold A in EV.
  pose proof (Z.mod_pos_bound V 128 ltac:(lia)) as Bx.
  assert (p / 128 = A mod 2) as Et.
  { unfold p, A. change 256 with (128 * 2). rewrite Z.rem_mul_r by lia.
    rewrite Z.mul_comm, Z.div_add by lia. rewrite Z.div_small by lia. lia. }
  assert (p = 128 * (A mod 2) + V mod 128) as Ep.
  { rewrite <- Et. pose proof (Z.div_mod p 128 ltac:(lia)). unfold p in *.
    assert (V mod 256 mod 128 = V mod 128).
    { change 256 with (128 * 2). rewrite Z.rem_mul_r by lia.
      by rewrite Z.mul_comm, Z.mod_add, Z.mod_mod by lia. }
    lia. }
  assert (u64 (Z.shiftl (A mod 2 ^ 64) 8) = Z.shiftl (A mod 2 ^ 56 / 2) 9 + 256 * (p / 128)) as ->.
  { rewrite !Z.shiftl_mul_pow2 by lia. unfold wrap. rewrite Z.mul_mod_idemp_l by lia.
    change (2 ^ 64) with (2 ^ 56 * 2 ^ 8) at 1. rewrite Z.mul_mod_distr_r by lia. rewrite Et.
    assert (A mod 2 = A mod 2 ^ 56 mod 2) as ->.
    { change (2 ^ 56) with (2 * 2 ^ 55). rewrite Z.rem_mul_r by lia.
      by rewrite Z.mul_comm, Z.mod_add, Z.mod_mod by lia. }
    pose proof (Z.div_mod (A mod 2 ^ 56) 2 ltac:(lia)). lia. }
  set (c := A mod 2 ^ 56 / 2).
  assert (0 <= p / 128 <= 1) as Bt by (rewrite Et; pose proof (Z.mod_pos_bound A 2); lia).
  rewrite Z.shiftl_mul_pow2, add_shiftl_lor, <- !Z.lor_assoc by lia.
  assert (Z.lor (256 * (p / 128)) (Z.lor (Z.shiftl p 1) s) = 2 * p + s) as ->.
  { clear -Hp Hs. clearbody p. assert (s = 0 \/ s = 1) as [->| ->] by lia.
    - apply Z.eqb_eq. revert p Hp. apply byte_forall. vm_compute. reflexivity.
    - apply Z.eqb_eq. revert p Hp. apply byte_forall. vm_compute. reflexivity. }
  rewrite <- add_shiftl_lor by (unfold byte_ok in Hp; lia).
  apply (Z.mod_unique_pos _ _ (A / 2 ^ 56)).
  - pose proof (Z.mod_pos_bound A (2 ^ 56) ltac:(lia)). unfold c.
    assert (A mod 2 ^ 56 / 2 < 2 ^ 55) by (apply Z.div_lt_upper_bound; lia).
    assert (0 <= A mod 2 ^ 56 / 2) by (apply Z.div_pos; lia). unfold byte_ok in Hp. lia.
  - pose proof (Z.div_mod A (2 ^ 56) ltac:(lia)) as EA.
    assert (A mod 2 ^ 56 = 2 * c + A mod 2) as Ec.
    { unfold c. assert (A mod 2 = A mod 2 ^ 56 mod 2) as ->.
      { change (2 ^ 56) with (2 * 2 ^ 55). rewrite Z.rem_mul_r by lia.
        by rewrite Z.mul_comm, Z.mod_add, Z.mod_mod by lia. }
      pose proof (Z.div_mod (A mod 2 ^ 56) 2 ltac:(lia)). lia. }
    lia.
Qed.

Lemma dec_loop (p : list Z) :
  bytes_ok p -> length p = 9%nat ->
  for_up 8
    (fun i m => Z.lor (Z.lor (u64 (Z.shiftl m 8)) (Z.shiftl (p !!! i) 1))
                      (Z.shiftr (p !!! (i + 1)%nat) 7)) 0
  = be_val p / 128 mod 2 ^ 64.
Proof.
  intros Hp Hl.
  pose proof (for_up_ind
    (fun k m => k = 0%nat /\ m = 0 \/ (0 < k)%nat /\ m = be_val (take (k + 1) p) / 128 mod 2 ^ 64) 8
    (fun i m => Z.lor (Z.lor (u64 (Z.shiftl m 8)) (Z.shiftl (p !!! i) 1))
                      (Z.shiftr (p !!! (i + 1)%nat) 7)) 0) as H.
  lapply H; [clear H; intros H|by left].
  lapply H; [clear H; intros [[? _]|[_ ->]]; [lia|]|].
  { by rewrite take_ge by lia. }
  clear H. intros k m Hk Hm. right. split; [lia|].
  assert (forall j, (j < 9)%nat ->
    be_val (take (j + 1) p) = 256 * be_val (take j p) + p !!! j /\ byte_ok (p !!! j)) as Ht.
  { intros j Hj. destruct (lookup_lt_is_Some_2 p j ltac:(lia)) as [b Eb].
    rewrite Nat.add_1_r, (take_S_r _ _ b Eb), be_val_app. cbn [length be_val].
    change (radix 1) with 256. change (radix 0) with 1.
    rewrite list_lookup_total_alt, Eb. cbn. split; [lia|].
    eapply Forall_lookup_1; [exact Hp|exact Eb]. }
  replace (k + 1 + 1)%nat with (S k + 1)%nat by lia.
  rewrite Nat.add_1_r.
  destruct (Ht (S k) ltac:(lia)) as [E1 B1]. destruct (Ht k ltac:(lia)) as [E0 B0].
  rewrite Nat.add_1_r in E0. rewrite E1. set (V := be_val (take (S k) p)) in *.
  assert (0 <= V) as HV by (unfold V; apply be_val_nonneg; by apply Forall_take).
  assert (p !!! k = V mod 256) as ->.
  { rewrite E0. symmetry. rewrite Z.mul_comm, Z.add_comm, Z.mod_add by lia.
    apply Z.mod_small. exact B0. }
  destruct Hm as [[-> ->]|[_ ->]].
  - rewrite <- (dec_step V (p !!! 1%nat)) by done.
    cbn [take be_val] in *. assert (V < 256) as Hlt.
    { rewrite E0. rewrite take_0. cbn [be_val]. unfold byte_ok in B0. lia. }
    f_equal. rewrite (Z.mod_small V) by lia.
    assert (0 <= V / 128 <= 1) as Bv.
    { split; [apply Z.div_pos; lia|]. apply Z.lt_succ_r, Z.div_lt_upper_bound; lia. }
    rewrite (Z.mod_small (V / 128)) by lia. clearbody V. clear -HV Hlt.
    assert (byte_ok V) as Hb by (unfold byte_ok; lia).
    apply Z.eqb_eq. revert V Hb HV Hlt.
    assert (forall V, byte_ok V -> (Z.lor (u64 (Z.shiftl 0 8)) (Z.shiftl V 1)
      =? Z.lor (u64 (Z.shiftl (V / 128) 8)) (Z.shiftl V 1)) = true) as H.
    { apply byte_forall. vm_compute. reflexivity. }
    auto.
  - rewrite Nat.add_1_r. fold V. by apply dec_step.
Qed.

Lemma be_val_split_at l k :
  bytes_ok l -> (k <= length l)%nat ->
  be_val l = be_val (take k l) * radix (length l - k) + be_val (drop k l).
Proof.
  intros Hl Hk. rewrite <- (take_drop k l) at 1. rewrite be_val_app, length_drop. done.
Qed.

Lemma Data_of_Key_of_Data d : data_ok d -> Data_of_Key (Key_of_Data d) = d.
Proof.
  intros Hd. destruct (Key_of_Data_spec d Hd) as [[Hb Hl] Ev]. pose proof Hd as ([Hx Hlx] & Hy & Hm).
  assert (take 32 (Key_of_Data d) = m_X (m_Commitment d)) as Et.
  { unfold Key_of_Data. rewrite <- Hlx. apply take_app_length. }
  assert (length (drop 32 (Key_of_Data d)) = 9%nat) as Hdl by (rewrite length_drop, Hl; reflexivity).
  assert (bytes_ok (drop 32 (Key_of_Data d))) as Hdb by (by apply Forall_drop).
  assert (be_val (drop 32 (Key_of_Data d))
          = m_Y (m_Commitment d) * 2 ^ 71 + m_Maturity d * 2 ^ 7) as Ed.
  { pose proof (be_val_split_at (Key_of_Data d) 32 Hb) as E. rewrite Hl in E.
    specialize (E ltac:(vm_compute; lia)). change (radix (s_Bytes - 32)) with (2 ^ 72) in E.
    rewrite Et, Ev in E. unfold data_val in E. lia. }
  unfold Data_of_Key. rewrite dec_loop, Et by done. unfold in_width in Hm.
  rewrite (be_val_lookup (drop 32 (Key_of_Data d)) 0) by (try done; lia).
  rewrite Hdl, Ed. change (9 - 1)%nat with 8%nat.
  destruct d as [[X Y] M]. cbn [m_Commitment m_X m_Y m_Maturity] in *.
  f_equal; [f_equal|].
  - change (radix 8) with (2 ^ 64).
    replace (Y * 2 ^ 71 + M * 2 ^ 7) with (M * 2 ^ 7 + Y * 2 ^ 7 * 2 ^ 64) by lia.
    rewrite Z.div_add by lia. assert (0 <= M * 2 ^ 7 / 2 ^ 64 < 128) as B.
    { split; [apply Z.div_pos; lia|apply Z.div_lt_upper_bound; lia]. }
    unfold wrap. rewrite Z.mod_small by lia. rewrite Z.shiftr_div_pow2 by lia.
    rewrite Z.div_add by lia. rewrite Z.div_small by lia.
    assert (Y = 0 \/ Y = 1) as [->| ->] by lia; reflexivity.
  - replace (Y * 2 ^ 71 + M * 2 ^ 7) with ((Y * 2 ^ 64 + M) * 128) by lia.
    rewrite Z.div_mul by lia. rewrite Z.add_comm, Z.mod_add by lia. by apply Z.mod_small.
Qed.

(** ** Bits of a key and the number it denotes *)
Lemma get_Bit_testbit k i :
  bytes_ok k -> (i < 8 * length k)%nat ->
  get_Bit k i = Z.testbit (be_val k) (8 * Z.of_nat (length k) - 1 - Z.of_nat i).
Proof.
  intros Hk Hi. unfold get_Bit, get_BitRawStat.
  pose proof (Nat.div_mod_eq i 8) as Ei. pose proof (Nat.mod_upper_bound i 8 ltac:(lia)) as Hm.
  set (j := Nat.div i 8) in *. set (r := Nat.modulo i 8) in *.
  assert (Z.lxor 7 (Z.land 7 (Z.of_nat i)) = 7 - Z.of_nat r) as ->.
  { rewrite Z.land_comm. change 7 with (Z.ones 3) at 2. rewrite Z.land_ones by lia.
    change (2 ^ 3) with 8. assert (Z.of_nat i mod 8 = Z.of_nat r) as ->.
    { symmetry. apply (Z.mod_unique_pos _ _ (Z.of_nat j)); lia. }
    clearbody r. do 8 (destruct r as [|r]; [reflexivity|]). lia. }
  rewrite <- Z.bit0_odd, Z.shiftr_spec, Z.add_0_l by lia.
  rewrite be_val_lookup by (try done; lia). unfold wrap.
  rewrite Z.mod_pow2_bits_low by lia. rewrite radix_pow2, <- Z.shiftr_div_pow2 by lia.
  rewrite Z.shiftr_spec by lia. f_equal. lia.
Qed.

Lemma bits_lt a b k :
  0 <= k -> (forall i, k < i -> Z.testbit a i = Z.testbit b i) ->
  Z.testbit a k = false -> Z.testbit b k = true -> a < b.
Proof.
  intros Hk Hag Ha Hb.
  assert (Z.shiftr a (k + 1) = Z.shiftr b (k + 1)) as E.
  { apply Z.bits_inj'. intros i Hi. rewrite !Z.shiftr_spec by lia. apply Hag. lia. }
  assert (forall x, Z.shiftr x k = 2 * Z.shiftr x (k + 1) + Z.b2z (Z.testbit x k)) as Hsp.
  { intros x. rewrite <- (Z.shiftr_shiftr x k 1) by lia. rewrite <- Z.div2_spec.
    rewrite (Z.div2_odd (Z.shiftr x k)) at 1. f_equal. f_equal.
    rewrite <- Z.bit0_odd, Z.shiftr_spec by lia. by rewrite Z.add_0_l. }
  assert (Z.shiftr a k < Z.shiftr b k) as Hlt.
  { rewrite (Hsp a), (Hsp b), E, Ha, Hb. simpl. lia. }
  rewrite !Z.shiftr_div_pow2 in Hlt by lia.
  destruct (Z.lt_ge_cases a b) as [|Hge]; [done|].
  pose proof (Z.div_le_mono b a (2 ^ k) ltac:(apply Z.pow_pos_nonneg; lia) Hge). lia.
Qed.

(** A key in the tree's format: the seven padding bits are zero. *)
Definition key_ok (k : list Z) : Prop := bytes_n s_Bytes k.

Lemma bits_above k i :
  key_ok k -> 328 <= i -> Z.testbit (be_val k) i = false.
Proof.
  intros [Hb Hl] Hi. apply (testbit_high _ 328); [lia| |done].
  pose proof (be_val_bound k Hb) as B. rewrite Hl in B. exact B.
Qed.

Lemma klt_be_val a b : key_ok a -> key_ok b -> klt s_Bits a b -> be_val a < be_val b.
Proof.
  intros Ha Hb (m & Hm & Hk & Fa & Fb). pose proof Ha as [Ba La]. pose proof Hb as [Bb Lb].
  change s_Bits with 321%nat in Hm. change s_Bytes with 41%nat in *.
  rewrite get_Bit_testbit, La in Fa by (try done; lia).
  rewrite get_Bit_testbit, Lb in Fb by (try done; lia).
  apply (bits_lt _ _ (8 * Z.of_nat 41 - 1 - Z.of_nat m)); [lia| |done|done].
  intros i Hi. destruct (Z.le_gt_cases 328 i); [by rewrite !bits_above|].
  specialize (Hk (Z.to_nat (327 - i)) ltac:(lia)).
  rewrite !get_Bit_testbit, La, Lb in Hk by (try done; lia).
  replace (8 * Z.of_nat 41 - 1 - Z.of_nat (Z.to_nat (327 - i))) with i in Hk by lia. done.
Qed.

(** ** The stack of identifiers *)
Definition ids_ok (x : IDs) : Prop :=
  match x with
  | Single _ => True
  | Queue n top => n = Z.of_nat (length top) /\ (2 <= length top)%nat /\ n < 2 ^ 32
  end.

Lemma get_Count_ids x : ids_ok x -> get_Count x = Z.of_nat (length (ids x)).
Proof. destruct x; simpl; [done|]. by intros [-> _]. Qed.

Lemma ids_nonempty x : ids_ok x -> (0 < length (ids x))%nat.
Proof. destruct x; simpl; [lia|]. lia. Qed.

Lemma PushID_spec id x :
  ids_ok x -> get_Count x + 1 < 2 ^ 32 ->
  ids_ok (PushID id x) /\ ids (PushID id x) = id :: ids x.
Proof.
  intros Hx Hc. destruct x as [v|n top]; simpl in *; [done|].
  destruct Hx as (-> & Hl & _). rewrite wrap_small by (unfold in_width; lia).
  split; [|done]. split; [lia|]. split; [lia|]. lia.
Qed.

Lemma PopID_PushID id x :
  ids_ok x -> get_Count x + 1 < 2 ^ 32 -> PopID (PushID id x) = Some (id, x).
Proof.
  intros Hx Hc. destruct x as [v|n top]; simpl in *; [done|].
  destruct Hx as (-> & Hl & _). rewrite (wrap_small 32 (Z.of_nat (length top) + 1)) by (unfold in_width; lia).
  rewrite Z.add_simpl_r, wrap_small by (unfold in_width; lia).
  rewrite (proj2 (Z.eqb_neq _ 1)) by lia. done.
Qed.

Lemma PopID_spec x :
  ids_ok x -> IsExt x = true ->
  exists id x', PopID x = Some (id, x') /\ ids_ok x' /\ ids x = id :: ids x'.
Proof.
  destruct x as [v|n top]; [done|]. intros (-> & Hl & Hn) _.
  destruct top as [|a [|b top]]; simpl in Hl; try lia.
  cbn [PopID PopIDRaw snd fst mbind option_bind].
  rewrite wrap_small by (unfold in_width; simpl length in *; lia).
  destruct (Z.eqb_spec (Z.of_nat (length (a :: b :: top)) - 1) 1) as [E|E].
  - destruct top; [|simpl in E; lia]. by exists a, (Single b).
  - exists a, (Queue (Z.of_nat (length (b :: top))) (b :: top)).
    split; [|split; [|done]].
    + do 3 f_equal. simpl. lia.
    + simpl length in *. split; [done|]. split; [destruct top; simpl in *; lia|lia].
Qed.

(** [DeleteLeaf] always reaches a leaf without a queue. *)
Lemma DeleteLeaf_loop_spec fuel x :
  ids_ok x -> (length (ids x) <= fuel)%nat ->
  exists id, DeleteLeaf_loop fuel x = Some (Single id) /\ last (ids x) = Some id.
Proof.
  revert x. induction fuel as [|fuel IH]; intros x Hx Hf.
  { pose proof (ids_nonempty x Hx). lia. }
  cbn [DeleteLeaf_loop]. destruct (IsExt x) eqn:E.
  - destruct (PopID_spec x Hx E) as (id & x' & -> & Hx' & Ei). cbn [mbind option_bind].
    rewrite Ei in Hf. destruct (IH x' Hx') as (id' & Hd & Hl); [simpl in Hf; lia|].
    exists id'. split; [done|]. rewrite Ei. pose proof (ids_nonempty x' Hx').
    destruct (ids x'); [simpl in *; lia|]. done.
  - destruct x as [id|]; [|done]. by exists id.
Qed.

(** ** Writing through a leaf pointer *)
Abbreviation unode := (node (L := IDs) (Hash := list Z)).

Lemma modify_tip_spec N d path (f : IDs -> IDs) (n : unode) b c k v :
  wf N d n -> tip_node path n = Some (Leaf b c k v) ->
  wf N d (modify_tip path f n) /\ get_NodeKey (modify_tip path f n) = get_NodeKey n /\
  exists l1 l2, leaves n = l1 ++ (k, v) :: l2 /\ leaves (modify_tip path f n) = l1 ++ (k, f v) :: l2.
Proof.
  revert d n. induction path as [|i path IH]; intros d n W Ht.
  - assert (n = Leaf b c k v) as -> by (destruct n; cbn in Ht; congruence).
    split; [done|]. split; [done|]. by exists [], [].
  - destruct n as [|bb cl h kp c0 c1]; [done|]. cbn [tip_node] in Ht.
    pose proof W as (Hlt & Hkp & H0 & H1 & W0 & W1).
    assert (forall l1 l2 (P : list Z * IDs -> Prop) y, (forall x, x ∈ l1 ++ (k, v) :: l2 -> P x) ->
              (P (k, v) -> P (k, y)) -> forall x, x ∈ l1 ++ (k, y) :: l2 -> P x) as Hrep.
    { intros l1 l2 P y HP Hy x Hx. rewrite elem_of_app, elem_of_cons in Hx.
      destruct Hx as [Hx|[->|Hx]]; [apply HP|apply Hy, HP|apply HP];
        rewrite elem_of_app, elem_of_cons; auto. }
    destruct i; cbn [modify_tip].
    + destruct (IH _ c1 W1 Ht) as (W' & K' & l1 & l2 & E1 & E2). split; [|split; [done|]].
      * cbn [wf]. rewrite K', E2. split_and!; try done. rewrite E1 in H1. by eapply Hrep.
      * exists (leaves c0 ++ l1), l2. cbn [leaves]. rewrite E1, E2, <- !app_assoc. done.
    + destruct (IH _ c0 W0 Ht) as (W' & K' & l1 & l2 & E1 & E2). split; [|split; [done|]].
      * cbn [wf]. rewrite K', E2. split_and!; try done. rewrite E1 in H0. by eapply Hrep.
      * exists l1, (l2 ++ leaves c1). cbn [leaves]. rewrite E1, E2, <- !app_assoc. done.
Qed.

(** ** The archive *)
Definition Save_tokens (x : list Z * IDs) : list token :=
  [TKey x.1; T32 (get_Count x.2)] ++ (T64 <$> ids x.2).

Lemma Count_spec N (t : utree) :
  tree_wf N t -> Count t = Z.of_nat (length (tree_leaves t)).
Proof.
  intros W. destruct t as [n|]; [|done]. unfold Count, Traverse.
  rewrite (Traverse_node_spec _ N) by (try done; intros B k _ _; apply keq_0).
  rewrite list_filter_all by done. cbn [tree_leaves].
  rewrite <- (leaves_path_leaves [] n), length_fmap.
  generalize (leaves_path [] n). intros l.
  assert (forall z, (visit (fun n _ (_ : list Z) (_ : IDs) => (n + 1, true)) z l).1
                    = z + Z.of_nat (length l)) as H.
  { induction l as [|[path [k d]] l IH]; intros z; cbn; [lia|]. rewrite IH. lia. }
  by rewrite H.
Qed.

Lemma SaveIntenral_spec N (t : utree) :
  tree_wf N t -> Z.of_nat (length (tree_leaves t)) < 2 ^ 32 ->
  SaveIntenral t
    = T32 (Z.of_nat (length (tree_leaves t))) :: (tree_leaves t ≫= Save_tokens).
Proof.
  intros W Hlen. unfold SaveIntenral. rewrite (Count_spec N) by done.
  rewrite wrap_small by (unfold in_width; lia). destruct t as [n|]; [|done]. cbn [Traverse tree_leaves].
  rewrite (Traverse_node_spec _ N) by (try done; intros B k _ _; apply keq_0).
  rewrite list_filter_all by done. rewrite <- (leaves_path_leaves [] n).
  generalize (length (snd <$> leaves_path [] n)). intros m. generalize (leaves_path [] n). intros l.
  assert (forall out, (visit (fun out _ k x => (Save_leaf out k x, true)) out l).1
                      = out ++ ((snd <$> l) ≫= Save_tokens)) as H.
  { induction l as [|[path [k x]] l IH]; intros out; cbn; [by rewrite app_nil_r|].
    rewrite IH. unfold Save_leaf. cbn. by rewrite <- !app_assoc. }
  by rewrite H.
Qed.

(** Reading pushes what was written from the top of the stack down. *)
Definition rev_IDs (x : IDs) : IDs :=
  match x with Single id => Single id | Queue n top => Queue n (rev top) end.

Lemma Load_ids_spec l s x :
  ids_ok x -> get_Count x + Z.of_nat (length l) < 2 ^ 32 ->
  exists x', Load_ids ((T64 <$> l) ++ s) (Z.of_nat (length l)) x = Some (x', s) /\
    ids_ok x' /\ ids x' = rev l ++ ids x.
Proof.
  revert x. induction l as [|a l IH]; intros x Hx Hc.
  - exists x. split; [|done]. by destruct s.
  - cbn [fmap list_fmap app Load_ids length].
    rewrite (proj2 (Z.eqb_neq _ _)) by lia.
    replace (Z.of_nat (S (length l)) - 1) with (Z.of_nat (length l)) by lia.
    cbn [length] in Hc. destruct (PushID_spec a x Hx) as [Hp Hi]; [lia|].
    destruct (IH (PushID a x) Hp) as (x' & E & Ho & Ei).
    { rewrite (get_Count_ids _ Hp), Hi. cbn [length]. rewrite (get_Count_ids _ Hx) in Hc. lia. }
    exists x'. split; [done|]. split; [done|]. rewrite Ei, Hi. cbn [rev]. by rewrite <- app_assoc.
Qed.

Lemma ids_inj x y : ids_ok x -> ids_ok y -> ids x = ids y -> x = y.
Proof.
  destruct x as [a|n t], y as [b|m u]; simpl.
  - by intros _ _ [= ->].
  - intros _ (_ & Hl & _) <-. simpl in Hl. lia.
  - intros (_ & Hl & _) _ ->. simpl in Hl. lia.
  - by intros (-> & _) (-> & _) ->.
Qed.

Lemma rev_IDs_ok x : ids_ok x -> ids_ok (rev_IDs x) /\ ids (rev_IDs x) = rev (ids x) /\
  get_Count (rev_IDs x) = get_Count x.
Proof. destruct x; simpl; [done|]. rewrite length_rev. done. Qed.

(** Loading one leaf: a new key is added with its stack reversed. *)
Lemma Utxo_Find_new (t : utree) key x :
  tree_wf s_Bits t -> (forall y, y ∈ tree_leaves t -> ~ keq s_Bits key y.1) ->
  exists r, Utxo_Find t key true = Some r /\
    let t' := option_map (modify_tip (m_pp (fr_cursor r)) (fun _ => x)) (fr_tree r) in
    tree_wf s_Bits t' /\ tree_leaves t' ≡ₚ (key, x) :: tree_leaves t.
Proof.
  intros W Hno.
  destruct (Find_spec (replicate 32 0) s_Bits t key true (Single 0) W ltac:(vm_compute; lia))
    as (r & E & W' & _ & Hnew & Htip).
  destruct (Hnew Hno) as (Hleaf & _ & Hl). exists r. split; [done|].
  destruct (Htip Hleaf) as (n & b & c & k' & v' & En & Et & Hk & Hin).
  rewrite En in *. cbn [option_map tree_wf tree_leaves] in *.
  destruct (modify_tip_spec s_Bits 0 _ (fun _ => x) n b c k' v' W' Et)
    as (Wm & _ & l1 & l2 & E1 & E2).
  split; [done|].
  assert ((k', v') = (key, Single 0)) as [= -> ->].
  { rewrite Hl in Hin. apply elem_of_cons in Hin as [|Hin]; [done|]. by destruct (Hno _ Hin). }
  rewrite E2, <- Permutation_middle. constructor.
  rewrite E1, <- Permutation_middle in Hl. by apply (Permutation.Permutation_cons_inv (a := (key, Single 0))).
Qed.

Definition leaf_ok (x : list Z * IDs) : Prop := key_ok x.1 /\ ids_ok x.2 /\ get_Count x.2 < 2 ^ 32.

Lemma Load_loop_spec l s prev (t : utree) :
  tree_wf s_Bits t -> Forall leaf_ok l ->
  StronglySorted (fun x y => klt s_Bits x.1 y.1) l ->
  (forall x y, x ∈ tree_leaves t -> y ∈ l -> klt s_Bits x.1 y.1) ->
  (forall kp y, prev = Some kp -> y ∈ l -> key_ok kp /\ klt s_Bits kp y.1) ->
  exists t', Load_loop (length l) ((l ≫= Save_tokens) ++ s) prev t = Some (t', s) /\
    tree_wf s_Bits t' /\
    tree_leaves t' ≡ₚ tree_leaves t ++ ((fun x => (x.1, rev_IDs x.2)) <$> l).
Proof.
  revert prev t. induction l as [|[key x] l IH]; intros prev t W Hok Hs Ht Hp.
  - exists t. split; [done|]. split; [done|]. by rewrite app_nil_r.
  - inversion Hok as [|? ? [Hkey [Hx Hc]] Hok']; subst.
    inversion Hs as [|? ? Hs' Hf]; subst. cbn [fst snd] in *.
    destruct (rev_IDs_ok x Hx) as (Rok & Rids & Rc).
    destruct (Utxo_Find_new t key (rev_IDs x) W) as (r & Er & Wr & Lr).
    { intros y Hy. pose proof (Ht y (key, x) Hy ltac:(by left)) as H. simpl in H.
      intros Hk. eapply klt_not_keq; [exact H|]. by apply keq_sym. }
    assert (exists id rest, ids x = id :: rest) as (id & rest & Ei).
    { pose proof (ids_nonempty x Hx). destruct (ids x) as [|id rest]; [simpl in *; lia|]. by eexists _, _. }
    assert (get_Count x = Z.of_nat (length rest) + 1) as Ec.
    { rewrite get_Count_ids, Ei by done. simpl. lia. }
    assert (forall tail, exists x', Load_ids ((T64 <$> rest) ++ tail) (Z.of_nat (length rest)) (Single id)
              = Some (x', tail) /\ x' = rev_IDs x) as Hload.
    { intros tail. destruct (Load_ids_spec rest tail (Single id)) as (x' & E & Ho & Ei');
        [done|simpl; lia|].
      exists x'. split; [done|]. apply ids_inj; [done|done|]. rewrite Ei', Rids, Ei. done. }
    assert (Save_tokens (key, x) = TKey key :: T32 (get_Count x) :: T64 id :: (T64 <$> rest)) as Et.
    { unfold Save_tokens. cbn [fst snd]. by rewrite Ei. }
    rewrite bind_cons, Et. cbn [length Load_loop app]. rewrite <- app_assoc.
    assert (match prev with Some kp => 0 <=? _Cmp kp key | None => false end = false) as ->.
    { destruct prev as [kp|]; [|done]. destruct (Hp kp (key, x) eq_refl ltac:(by left)) as [Hkp Hlt].
      apply Z.leb_gt. destruct Hkp as [Bk Lk] eqn:?, Hkey as [Bb Lb] eqn:?.
      rewrite _Cmp_spec, cmpZ_lt by done. by apply klt_be_val. }
    rewrite Er. cbn [mbind option_bind].
    replace (u32 (get_Count x - 1)) with (Z.of_nat (length rest))
      by (rewrite wrap_small by (unfold in_width; lia); lia).
    match goal with |- context [Load_ids ((T64 <$> rest) ++ ?tl) _ _] =>
      destruct (Hload tl) as (x' & El & ->) end.
    rewrite El. cbn [mbind option_bind].
    set (t1 := option_map _ (fr_tree r)) in *.
    destruct (IH (Some key) t1 Wr Hok' Hs') as (t' & E & W' & Hl).
    + intros a y Ha Hy. rewrite Lr in Ha. apply elem_of_cons in Ha as [->|Ha].
      * rewrite Forall_forall in Hf. by apply Hf.
      * apply Ht; [done|]. by right.
    + intros kp y [= <-] Hy. split; [done|]. rewrite Forall_forall in Hf. by apply (Hf y).
    + exists t'. split; [done|]. split; [done|]. rewrite Hl, Lr. cbn [fmap list_fmap fst snd].
      by rewrite <- Permutation_middle.
Qed.

(** ** The streaming root computation *)
Section compact.
Context (sha256 : list Z -> list Z).
Abbreviation cnode := (node (L := Z) (Hash := list Z)).
Abbreviation lh := (Leaf_get_Hash sha256).
Abbreviation pure := (pure_hash (hash2 sha256) lh).
Abbreviation ffold := (Flush_fold sha256).

(** The right spine of a tree, from the rightmost leaf up: the hashes of the
    left siblings, each with the bits it has in common with its predecessor. *)
Fixpoint spine (d : nat) (cm : Z) (n : cnode) (acc : list CNode) : list CNode :=
  match n with
  | Leaf _ _ k v => mkCNode (lh k v) cm :: acc
  | Joint b _ _ _ c0 c1 => spine (S (d + b)) (Z.of_nat (d + b)) c1 (mkCNode (pure c0) cm :: acc)
  end.

Definition fold_spine (l : list CNode) (m : Z) : list CNode :=
  match l with [] => [] | n1 :: rest => ffold n1 rest m end.

Lemma fold_all d cm (n : cnode) acc m :
  m <= Z.of_nat d -> fold_spine (spine d cm n acc) m = ffold (mkCNode (pure n) cm) acc m.
Proof.
  revert d cm acc. induction n as [|b c h kp c0 _ c1 IH1]; intros d cm acc Hm; [done|].
  cbn [spine]. rewrite IH1 by lia. cbn [Flush_fold m_nBitsCommon cn_Hash].
  rewrite (proj2 (Z.ltb_ge _ _)) by lia. done.
Qed.

(** Adding a key above all others, which has [m] bits in common with the last. *)
Fixpoint insert_max (m d : nat) (pN n : cnode) : cnode :=
  match n with
  | Joint b c h kp c0 c1 =>
      if (d + b <? m)%nat then Joint b c h kp c0 (insert_max m (S (d + b)) pN c1)
      else Joint (m - d) false [] kp (set_Bits (b - (m - d) - 1) n) pN
  | Leaf b _ k _ => Joint (m - d) false [] k (set_Bits (b - (m - d) - 1) n) pN
  end.

Fixpoint last_leaf (n : cnode) : list Z * Z :=
  match n with Leaf _ _ k v => (k, v) | Joint _ _ _ _ _ c1 => last_leaf c1 end.

Lemma last_leaf_in (n : cnode) : last_leaf n ∈ leaves n.
Proof.
  induction n as [|b c h kp c0 _ c1 IH1]; [by apply list_elem_of_singleton|].
  cbn. apply elem_of_app. by right.
Qed.

Lemma pure_set_Bits b (n : cnode) : pure (set_Bits b n) = pure n.
Proof. by destruct n. Qed.

Lemma fold_stop n1 acc m :
  (acc = [] \/ m_nBitsCommon n1 < m) -> ffold n1 acc m = n1 :: acc.
Proof.
  intros [->|H]; [done|]. destruct acc; [done|]. cbn [Flush_fold].
  by rewrite (proj2 (Z.ltb_lt _ _) H).
Qed.

Lemma spine_insert_max m d cm b c k v (n : cnode) acc :
  (d <= m)%nat -> (acc = [] \/ cm < Z.of_nat m) ->
  spine d cm (insert_max m d (Leaf b c k v) n) acc
    = mkCNode (lh k v) (Z.of_nat m) :: fold_spine (spine d cm n acc) (Z.of_nat m).
Proof.
  revert d cm acc. induction n as [b0 c0 k0 v0|b0 c0 h0 kp l IHl r IHr]; intros d cm acc Hd Hacc.
  - cbn [insert_max spine set_Bits fold_spine pure_hash].
    replace (d + (m - d))%nat with m by lia. by rewrite fold_stop.
  - cbn [insert_max]. destruct (Nat.ltb_spec (d + b0) m) as [Hlt|Hge].
    + cbn [spine]. apply IHr; [lia|]. right. lia.
    + cbn [spine]. rewrite pure_set_Bits. replace (d + (m - d))%nat with m by lia.
      f_equal. rewrite fold_all by lia. cbn [Flush_fold m_nBitsCommon cn_Hash].
      rewrite (proj2 (Z.ltb_ge _ _)) by lia. by rewrite fold_stop.
Qed.

Lemma insert_max_key m d pN (n : cnode) : get_NodeKey (insert_max m d pN n) = get_NodeKey n.
Proof. destruct n as [|b c h kp c0 c1]; [done|]. cbn [insert_max]. by destruct (d + b <? m)%nat. Qed.

Lemma insert_max_wf N m d k v (n : cnode) :
  let lk := (last_leaf n).1 in
  let pN := Leaf (N - m - 1) false k v in
  wf N d n -> (d <= m < N)%nat -> keq m lk k -> get_Bit lk m = false -> get_Bit k m = true ->
  wf N d (insert_max m d pN n) /\ leaves (insert_max m d pN n) = leaves n ++ [(k, v)].
Proof.
  intros lk pN. revert d lk. induction n as [b c kk vv|b c h kp c0 _ c1 IH1]; intros d lk W Hm Hk F T.
  - cbn [insert_max leaves set_Bits wf last_leaf fst] in *. split; [|done]. subst lk pN.
    cbn [wf leaves get_NodeKey].
    replace (d + (m - d))%nat with m by lia. cbn [last_leaf fst] in *.
    split_and!; try lia; [by left| |].
    + intros x ->%list_elem_of_singleton. done.
    + intros x ->%list_elem_of_singleton. split; [by apply keq_sym|done].
  - cbn [insert_max]. pose proof W as (Hlt & Hkp & H0 & H1 & W0 & W1).
    destruct (H1 (last_leaf c1) (last_leaf_in c1)) as [Ek Eb]. cbn [last_leaf] in lk.
    fold lk in Ek, Eb.
    destruct (Nat.ltb_spec (d + b) m) as [Hl|Hge].
    + destruct (IH1 (S (d + b)) W1 ltac:(lia) Hk F T) as [W' L']. cbn [leaves].
      rewrite L', app_assoc. split; [|done]. cbn [wf]. rewrite insert_max_key, L'.
      split_and!; try done. intros x [Hx| ->%list_elem_of_singleton]%elem_of_app; [by apply H1|].
      cbn [fst]. split.
      * apply (keq_trans _ _ lk); [|done]. apply keq_sym, (keq_le m); [lia|done].
      * rewrite <- Hk by lia. done.
    + assert (m <> d + b)%nat as Hne by (intros ->; congruence).
      split; [|subst pN; cbn [leaves]; by rewrite leaves_set_Bits].
      assert (wf N (S m) (set_Bits (b - (m - d) - 1) (Joint b c h kp c0 c1))) as Ws.
      { eapply wf_set_Bits; [exact W|]. cbn [get_Bits]. lia. }
      cbn [wf]. replace (d + (m - d))%nat with m by lia.
      split_and!; try done; [lia|by left| | |subst pN; cbn [wf]; lia].
      * intros x Hx. rewrite leaves_set_Bits in Hx. pose proof (wf_keq _ _ _ _ W Hx) as Hxx.
        cbn [get_Bits get_NodeKey] in Hxx. split; [apply (keq_le (d + b)); [lia|done]|].
        rewrite Hxx by lia. rewrite <- Ek by lia. done.
      * subst pN. intros x ->%list_elem_of_singleton. cbn [fst]. split; [|done].
        apply (keq_trans _ _ lk); [by apply keq_sym|]. apply (keq_le (d + b)); [lia|done].
Qed.

(** Counting one more of the last key. *)
Fixpoint set_last (v : Z) (n : cnode) : cnode :=
  match n with
  | Leaf b c k _ => Leaf b c k v
  | Joint b c h kp c0 c1 => Joint b c h kp c0 (set_last v c1)
  end.

Lemma set_last_spec N d v (n : cnode) :
  wf N d n ->
  wf N d (set_last v n) /\ get_NodeKey (set_last v n) = get_NodeKey n /\
  last_leaf (set_last v n) = ((last_leaf n).1, v) /\
  exists l, leaves n = l ++ [last_leaf n] /\ leaves (set_last v n) = l ++ [((last_leaf n).1, v)].
Proof.
  revert d. induction n as [b c k v0|b c h kp c0 _ c1 IH1]; intros d W.
  - split; [done|]. split; [done|]. split; [done|]. by exists [].
  - pose proof W as (Hlt & Hkp & H0 & H1 & W0 & W1).
    destruct (IH1 _ W1) as (W' & K' & Ll & l & E1 & E2). split; [|split; [done|split; [done|]]].
    + cbn [set_last wf]. rewrite K', E2. rewrite E1 in H1. split_and!; try done.
      intros x [Hx| ->%list_elem_of_singleton]%elem_of_app.
      * apply H1, elem_of_app. by left.
      * apply (H1 (last_leaf c1)), elem_of_app. right. by apply list_elem_of_singleton.
    + exists (leaves c0 ++ l). cbn [set_last leaves last_leaf]. rewrite E1, E2, !app_assoc. done.
Qed.

Lemma spine_top d cm (n : cnode) acc :
  exists cc rest, spine d cm n acc = mkCNode (lh (last_leaf n).1 (last_leaf n).2) cc :: rest /\
    forall v, spine d cm (set_last v n) acc = mkCNode (lh (last_leaf n).1 v) cc :: rest.
Proof.
  revert d cm acc. induction n as [|b c h kp c0 _ c1 IH1]; intros d cm acc.
  - by exists cm, acc.
  - cbn [spine set_last last_leaf]. apply IH1.
Qed.

(** The builder represents a tree: its nodes are the right spine, the hash of
    the topmost one (the last leaf) still to be computed. *)
Definition compact_rep (c : Compact) (n : cnode) : Prop :=
  wf s_Bits 0 n /\ (m_LastKey c, m_LastCount c) = last_leaf n /\ 0 < m_LastCount c < 2 ^ 32 /\
  key_ok (m_LastKey c) /\
  exists h cc rest, m_vNodes c = mkCNode h cc :: rest /\
    spine 0 0 n [] = mkCNode (lh (m_LastKey c) (m_LastCount c)) cc :: rest.

Lemma FlushInternal_spec c n m :
  compact_rep c n ->
  FlushInternal sha256 c m = mkCompactT (fold_spine (spine 0 0 n []) m) (m_LastKey c) 0.
Proof.
  intros (_ & _ & Hc & _ & h & cc & rest & En & Es). unfold FlushInternal. rewrite En, Es.
  cbn [m_nBitsCommon]. rewrite (proj2 (Z.eqb_neq _ 0)) by lia. done.
Qed.

Lemma Compact_Flush_spec c n :
  compact_rep c n -> (Compact_Flush sha256 c).2 = pure n.
Proof.
  intros Hr. unfold Compact_Flush. pose proof (FlushInternal_spec c n 0 Hr) as E.
  destruct Hr as (_ & _ & _ & _ & h & cc & rest & En & _). rewrite En, E.
  rewrite fold_all by lia. done.
Qed.

(** The number of common bits, from the order of the exclusive or. *)
Lemma common_bits a b m :
  key_ok a -> key_ok b -> (m < s_Bits)%nat -> keq m a b ->
  get_Bit a m = false -> get_Bit b m = true ->
  u16 (8 * Z.of_nat s_Bytes - u16 (_GetOrder (_Xor a b))) = Z.of_nat m.
Proof.
  intros Ha Hb Hm Hk Fa Fb. pose proof Ha as [Ba La]. pose proof Hb as [Bb Lb].
  change s_Bits with 321%nat in Hm. change s_Bytes with 41%nat in *.
  destruct (_Xor_spec a b Ba Bb ltac:(congruence)) as (Bx & Lx & Ex).
  rewrite _GetOrder_spec by done. rewrite Ex.
  assert (0 <= Z.lxor (be_val a) (be_val b)) as Hnn.
  { apply Z.lxor_nonneg. pose proof (be_val_nonneg a Ba). pose proof (be_val_nonneg b Bb). lia. }
  rewrite get_Bit_testbit, La in Fa by (try done; lia).
  rewrite get_Bit_testbit, Lb in Fb by (try done; lia).
  set (p := 8 * Z.of_nat 41 - 1 - Z.of_nat m) in *.
  assert (Z.log2 (Z.lxor (be_val a) (be_val b)) = p) as Elog.
  { apply Z.log2_bits_unique.
    - by rewrite Z.lxor_spec, Fa, Fb.
    - intros i Hi. rewrite Z.lxor_spec. destruct (Z.le_gt_cases 328 i).
      + by rewrite !bits_above.
      + specialize (Hk (Z.to_nat (327 - i)) ltac:(lia)).
        rewrite !get_Bit_testbit, La, Lb in Hk by (try done; lia).
        replace (8 * Z.of_nat 41 - 1 - Z.of_nat (Z.to_nat (327 - i))) with i in Hk by lia.
        rewrite Hk. apply xorb_nilpotent. }
  assert (Z.lxor (be_val a) (be_val b) <> 0) as Hne.
  { intros E0. apply (f_equal (fun x => Z.testbit x p)) in E0.
    rewrite Z.lxor_spec, Fa, Fb, Z.bits_0 in E0. done. }
  rewrite (proj2 (Z.eqb_neq _ _) Hne), Elog.
  rewrite (wrap_small 16 (p + 1)) by (unfold in_width; lia).
  rewrite wrap_small by (unfold in_width; lia). lia.
Qed.

(** A first key; the same key again; a larger key. *)
Lemma Compact_Add_first key :
  key_ok key -> forall k0 c0,
  let '(c, ok) := Compact_Add sha256 (mkCompactT [] k0 c0) key in
  ok = true /\ compact_rep c (Leaf s_Bits false key 1).
Proof.
  intros Hk k0 c0. cbn. split; [done|]. split; [done|]. cbn [m_LastKey m_LastCount m_vNodes].
  split; [done|]. split; [lia|]. split; [done|]. by eexists _, _, _.
Qed.

Lemma Compact_Add_again c n :
  compact_rep c n -> m_LastCount c + 1 < 2 ^ 32 ->
  let '(c', ok) := Compact_Add sha256 c (m_LastKey c) in
  ok = true /\ m_LastKey c' = m_LastKey c /\ m_LastCount c' = m_LastCount c + 1 /\
  compact_rep c' (set_last (m_LastCount c + 1) n).
Proof.
  intros (W & El & Hc & Hk & h & cc & rest & En & Es) Hlt. unfold Compact_Add. rewrite En.
  rewrite _Cmp_spec by apply Hk.
  assert (cmpZ (be_val (m_LastKey c)) (be_val (m_LastKey c)) = 0) as -> by (by apply cmpZ_eq).
  change (0 <? 0) with false. change (0 =? 0) with true. cbn iota.
  rewrite wrap_small by (unfold in_width; lia). rewrite (proj2 (Z.eqb_neq _ 0)) by lia.
  split; [done|]. split; [done|]. split; [done|].
  destruct (set_last_spec _ _ (m_LastCount c + 1) n W) as (W' & _ & Ll & _).
  destruct (spine_top 0 0 n []) as (cc' & rest' & Es1 & Es2).
  unfold compact_rep. cbn [m_LastKey m_LastCount m_vNodes]. rewrite Ll.
  split; [done|]. rewrite <- El in *. cbn [fst snd] in *. split; [done|]. split; [lia|]. split; [done|].
  rewrite Es1 in Es. injection Es as -> ->. exists h, cc, rest. by rewrite Es2.
Qed.

Lemma Compact_Add_next c n key :
  compact_rep c n -> key_ok key -> klt s_Bits (m_LastKey c) key ->
  let '(c', ok) := Compact_Add sha256 c key in
  ok = true /\ m_LastKey c' = key /\ m_LastCount c' = 1 /\
  exists n', compact_rep c' n' /\ leaves n' = leaves n ++ [(key, 1)].
Proof.
  intros Hr Hkey Hlt. pose proof Hr as (W & El & Hc & Hk & h & cc & rest & En & Es).
  pose proof (klt_be_val _ _ Hk Hkey Hlt) as Hval.
  destruct Hlt as (m & Hm & Hkq & Fa & Fb).
  unfold Compact_Add. rewrite En. rewrite _Cmp_spec by (apply Hk || apply Hkey).
  rewrite (proj2 (Z.ltb_ge _ _)) by (apply Z.lt_le_incl, cmpZ_lt; done).
  rewrite (proj2 (Z.eqb_neq _ 0)) by (rewrite cmpZ_eq; lia).
  rewrite (common_bits _ _ m) by done. rewrite (FlushInternal_spec c n) by done.
  cbn [m_vNodes]. split; [done|]. split; [done|]. split; [done|].
  set (pN := Leaf (s_Bits - m - 1) false key 1 : cnode).
  destruct (insert_max_wf s_Bits m 0 key 1 n W) as [W' L'].
  - split; [lia|done].
  - by rewrite <- El.
  - by rewrite <- El.
  - done.
  - exists (insert_max m 0 pN n). split; [|done].
    split; [done|]. cbn [m_LastKey m_LastCount m_vNodes].
    split; [|split; [lia|split; [done|]]].
    + assert (last_leaf (insert_max m 0 pN n) = (key, 1)) as ->; [|done].
      clear. generalize 0%nat. induction n as [|b c h kp c0 _ c1 IH1]; intros d; [done|].
      cbn [insert_max]. destruct (d + b <? m)%nat; [apply IH1|done].
    + exists [], (Z.of_nat m), (fold_spine (spine 0 0 n []) (Z.of_nat m)). split; [done|].
      apply spine_insert_max; [lia|by left].
Qed.

(** Feeding every key as often as it is counted. *)
Definition Compact_Adds (c : Compact) (ks : list (list Z)) : Compact * bool :=
  foldl (fun r k => let '(c, ok) := Compact_Add sha256 r.1 k in (c, r.2 && ok)) (c, true) ks.

Lemma Compact_Adds_app c l1 l2 c1 :
  Compact_Adds c l1 = (c1, true) -> Compact_Adds c (l1 ++ l2) = Compact_Adds c1 l2.
Proof. intros E. unfold Compact_Adds in *. by rewrite foldl_app, E. Qed.

Lemma Compact_Adds_again c n j :
  compact_rep c n -> m_LastCount c + Z.of_nat j < 2 ^ 32 ->
  exists c', Compact_Adds c (replicate j (m_LastKey c)) = (c', true) /\
    compact_rep c' (set_last (m_LastCount c + Z.of_nat j) n).
Proof.
  revert c n. induction j as [|j IH]; intros c n Hr Hj.
  - exists c. split; [done|]. pose proof Hr as (W & El & _).
    replace (m_LastCount c + Z.of_nat 0) with (m_LastCount c) by lia.
    assert (set_last (m_LastCount c) n = n) as ->; [|done].
    assert (m_LastCount c = (last_leaf n).2) as -> by (by rewrite <- El).
    clear. induction n as [|b c h kp c0 _ c1 IH1]; [done|]. cbn [last_leaf set_last]. congruence.
  - cbn [replicate]. pose proof (Compact_Add_again c n Hr ltac:(lia)) as Ha.
    destruct (Compact_Add sha256 c (m_LastKey c)) as [c1 ok] eqn:Ea.
    destruct Ha as (-> & Ek & Ec & Hr1).
    destruct (IH c1 _ Hr1 ltac:(lia)) as (c' & E & Hr'). exists c'. split.
    + change (m_LastKey c :: replicate j (m_LastKey c)) with ([m_LastKey c] ++ replicate j (m_LastKey c)).
      rewrite (Compact_Adds_app _ _ _ c1); [by rewrite <- Ek|].
      unfold Compact_Adds. cbn [foldl fst snd]. by rewrite Ea.
    + assert (set_last (m_LastCount c1 + Z.of_nat j) (set_last (m_LastCount c + 1) n)
              = set_last (m_LastCount c + Z.of_nat (S j)) n) as <-; [|done].
      replace (m_LastCount c1 + Z.of_nat j) with (m_LastCount c + Z.of_nat (S j)) by lia.
      clear. induction n as [|b cc h kp c0 _ c1 IH1]; [done|]. cbn [set_last]. by rewrite IH1.
Qed.

Definition expand (l : list (list Z * Z)) : list (list Z) :=
  l ≫= fun x => replicate (Z.to_nat x.2) x.1.

Lemma Compact_group c0 key j l :
  0 < j < 2 ^ 32 ->
  (let '(c, ok) := Compact_Add sha256 c0 key in
   ok = true /\ m_LastKey c = key /\ m_LastCount c = 1 /\
   exists n, compact_rep c n /\ leaves n = l ++ [(key, 1)]) ->
  exists c n, Compact_Adds c0 (replicate (Z.to_nat j) key) = (c, true) /\
    compact_rep c n /\ leaves n = l ++ [(key, j)].
Proof.
  intros Hj Hadd. destruct (Compact_Add sha256 c0 key) as [c1 ok] eqn:Ea.
  destruct Hadd as (-> & Ek & Ec & n & Hr & El).
  assert (Z.to_nat j = S (Z.to_nat (j - 1))) as -> by lia. cbn [replicate].
  destruct (Compact_Adds_again c1 n (Z.to_nat (j - 1)) Hr ltac:(lia)) as (c' & E & Hr').
  exists c', (set_last (m_LastCount c1 + Z.of_nat (Z.to_nat (j - 1))) n). split; [|split; [done|]].
  - change (key :: replicate (Z.to_nat (j - 1)) key) with ([key] ++ replicate (Z.to_nat (j - 1)) key).
    rewrite (Compact_Adds_app _ _ _ c1); [by rewrite <- Ek|].
    unfold Compact_Adds. cbn [foldl fst snd]. by rewrite Ea.
  - pose proof Hr as (W & Ell & _). rewrite Ek, Ec in Ell.
    destruct (set_last_spec _ _ (m_LastCount c1 + Z.of_nat (Z.to_nat (j - 1))) n W)
      as (_ & _ & _ & l' & E1 & E2).
    rewrite El, <- Ell in E1. apply app_inj_2 in E1 as [<- _]; [|done].
    rewrite E2, <- Ell. cbn [fst]. do 3 f_equal. lia.
Qed.

Lemma Compact_build l :
  l <> [] -> Forall (fun x => key_ok x.1 /\ 0 < x.2 < 2 ^ 32) l ->
  StronglySorted (fun x y => klt s_Bits x.1 y.1) l ->
  exists c n, Compact_Adds (mkCompactT [] [] 0) (expand l) = (c, true) /\
    compact_rep c n /\ leaves n = l.
Proof.
  induction l as [|[key j] l IH] using rev_ind; intros Hne Hok Hs; [done|]. clear Hne.
  apply Forall_app in Hok as [Hok Hlast]. inversion Hlast as [|? ? [Hkey Hj] _]; subst.
  cbn [fst snd] in *. unfold expand. rewrite bind_app. cbn [mbind list_bind fst snd]. rewrite app_nil_r.
  destruct (decide (l = [])) as [->|Hne].
  - cbn [mbind list_bind app].
    apply (Compact_group _ key j [] Hj). pose proof (Compact_Add_first key Hkey [] 0) as [_ Hr].
    split; [done|]. split; [done|]. split; [done|]. by eexists.
  - apply StronglySorted_app in Hs as (Hx & Hs & _).
    destruct (IH Hne Hok Hs) as (c & n & E & Hr & El).
    fold (expand l). rewrite (Compact_Adds_app _ _ _ c) by done.
    assert (klt s_Bits (m_LastKey c) key) as Hlt.
    { destruct Hr as (_ & Ell & _). specialize (Hx (last_leaf n) (key, j)).
      rewrite <- Ell in Hx. cbn [fst] in Hx. apply Hx; [|by left].
      rewrite Ell, <- El. apply last_leaf_in. }
    apply (Compact_group _ key j l Hj). rewrite <- El.
    exact (Compact_Add_next c n key Hr Hkey Hlt).
Qed.
End compact.

(** Two UTXOs for the examples, the second with two identifiers. *)
Definition ex_key (y : Z) : list Z := Key_of_Data (mkData (mkPoint (replicate 32 y) 0) 5).
Definition ex_utxos : utree :=
  Some (Joint 0 false [] (ex_key 0x11) (Leaf 320 false (ex_key 0x11) (Single 4))
          (Leaf 320 false (ex_key 0x91) (Queue 2 [8; 6]))).

Lemma ex_utxos_wf : tree_wf s_Bits ex_utxos.
Proof.
  cbn [tree_wf ex_utxos wf leaves get_NodeKey]. split_and!; try done; [vm_compute; lia|by left| |].
  - intros x ->%list_elem_of_singleton. split; [apply keq_0|done].
  - intros x ->%list_elem_of_singleton. split; [apply keq_0|done].
Qed.

Lemma ex_utxos_ok : Forall leaf_ok (tree_leaves ex_utxos).
Proof.
  assert (forall y, byte_ok y -> key_ok (ex_key y)) as Hk.
  { intros y Hy. apply Key_of_Data_spec. split; [split; [by apply Forall_replicate|done]|].
    split; vm_compute; split; congruence. }
  apply Forall_cons_2; [|apply Forall_cons_2; [|apply Forall_nil_2]];
    (split; [apply Hk; unfold byte_ok; lia|]); split; vm_compute; repeat split; lia.
Qed.

(** * The properties of the UTXO set *)

Lemma tree_summary_leaves {L Hash} N (t : tree (L := L) (Hash := Hash)) :
  tree_wf N t -> StronglySorted (fun x y => klt N x.1 y.1) (tree_leaves t).
Proof. destruct t as [n|]; [apply leaves_sorted|constructor]. Qed.

(** The key codec: decoding the 41-byte key of an UTXO gives back its
    commitment and maturity, although the decoder's shifts overlap, and the keys
    are ordered by commitment first and maturity second. *)
Theorem utxo_key_roundtrip d1 d2 :
  data_ok d1 -> data_ok d2 ->
  Data_of_Key (Key_of_Data d1) = d1 /\ length (Key_of_Data d1) = s_Bytes /\
  (_Cmp (Key_of_Data d1) (Key_of_Data d2) < 0 <-> data_val d1 < data_val d2).
Proof.
  intros H1 H2. destruct (Key_of_Data_spec d1 H1) as [[B1 L1] E1].
  destruct (Key_of_Data_spec d2 H2) as [[B2 L2] E2].
  split; [by apply Data_of_Key_of_Data|]. split; [done|].
  rewrite _Cmp_spec, cmpZ_lt, E1, E2 by done. done.
Qed.

Lemma utxo_key_roundtrip_witness :
  let d := mkData (mkPoint (replicate 32 0xc3) 1) 0xfedcba9876543210 in
  Data_of_Key (Key_of_Data d) = d.
Proof.
  intros d. assert (data_ok d) as H.
  { split; [split; [by apply Forall_replicate|done]|]. split; vm_compute; split; congruence. }
  apply (utxo_key_roundtrip d d H H).
Defined.

(** The identifiers of duplicate UTXOs form a stack: [PopID] returns what
    the last [PushID] stored and restores the leaf, [get_Count] is the number of
    identifiers, and popping (as [DeleteLeaf] does) reaches the single element. *)
Theorem utxo_id_stack id x :
  ids_ok x -> get_Count x + 1 < 2 ^ 32 ->
  PopID (PushID id x) = Some (id, x) /\ ids (PushID id x) = id :: ids x /\
  get_Count (PushID id x) = get_Count x + 1 /\
  exists id0, DeleteLeaf_loop (length (ids x)) x = Some (Single id0) /\ last (ids x) = Some id0.
Proof.
  intros Hx Hc. destruct (PushID_spec id x Hx Hc) as [Ho Hi].
  split; [by apply PopID_PushID|]. split; [done|]. split.
  - rewrite !get_Count_ids, Hi by done. simpl. lia.
  - by apply DeleteLeaf_loop_spec.
Qed.

Lemma utxo_id_stack_witness : PopID (PushID 9 (PushID 8 (Single 7))) = Some (9, Queue 2 [8; 7]).
Proof. apply (utxo_id_stack 9 (PushID 8 (Single 7))); [vm_compute; repeat split; lia|done]. Defined.

(** Saving and loading the UTXO set: [LoadIntenral] accepts what
    [SaveIntenral] wrote and rebuilds a tree with the same keys and counts, in which
    the identifiers of every key are in the reverse order. *)
Theorem utxo_save_load (t : utree) s :
  tree_wf s_Bits t -> Forall leaf_ok (tree_leaves t) -> Z.of_nat (length (tree_leaves t)) < 2 ^ 32 ->
  exists t', LoadIntenral (SaveIntenral t ++ s) = Some (t', s) /\ tree_wf s_Bits t' /\
    tree_leaves t' = (fun x => (x.1, rev_IDs x.2)) <$> tree_leaves t.
Proof.
  intros W Hok Hlen. rewrite (SaveIntenral_spec s_Bits) by done. cbn [app LoadIntenral].
  rewrite Nat2Z.id. pose proof (tree_summary_leaves _ t W) as Hs.
  destruct (Load_loop_spec (tree_leaves t) s None None) as (t' & E & W' & Hl); try done.
  { intros x y Hx. by apply elem_of_nil in Hx. }
  exists t'. split; [done|]. split; [done|]. cbn [tree_leaves app] in Hl.
  apply (StronglySorted_unique_strong (fun x y => klt s_Bits x.1 y.1)); [| | |exact Hl].
  - intros x y _ _ H1 H2. exfalso. eapply klt_irrefl, klt_trans; eassumption.
  - by apply tree_summary_leaves.
  - by apply (StronglySorted_fmap _ (fun x y => klt s_Bits x.1 y.1)).
Qed.

Lemma utxo_save_load_witness :
  exists t', LoadIntenral (SaveIntenral ex_utxos ++ [T32 77]) = Some (t', [T32 77]) /\
    tree_leaves t' = [(ex_key 0x11, Single 4); (ex_key 0x91, Queue 2 [6; 8])].
Proof.
  destruct (utxo_save_load ex_utxos [T32 77] ex_utxos_wf ex_utxos_ok) as (t' & E & _ & El); [done|].
  exists t'. split; [exact E|exact El].
Defined.

(** C21: The streaming computation agrees with the tree: feeding the sorted keys
    of an UTXO tree, each as often as it is counted, to [UtxoTree::Compact] is
    accepted key by key and [Flush] returns the root hash of the tree. *)
Theorem utxo_compact_root (sha256 : list Z -> list Z) (t : utree) :
  tree_inv (hash2 sha256) (get_LeafHash sha256) s_Bits t -> Forall leaf_ok (tree_leaves t) ->
  let ks := expand ((fun x => (x.1, get_Count x.2)) <$> tree_leaves t) in
  exists c, Compact_Adds sha256 (mkCompactT [] [] 0) ks = (c, true) /\
    (Compact_Flush sha256 c).2
      = (Radix_get_Hash (hash2 sha256) (replicate 32 0) (get_LeafHash sha256) t).2.
Proof.
  intros [W C] Hok ks. pose proof (Radix_get_Hash_spec (hash2 sha256) (replicate 32 0)
    (get_LeafHash sha256) t C) as Hh.
  destruct (Radix_get_Hash _ _ _ t) as [t1 h1]. destruct Hh as (-> & _). cbn [snd].
  destruct t as [n|]; [|by exists (mkCompactT [] [] 0)]. cbn [tree_leaves] in *.
  destruct (Compact_build sha256 ((fun x => (x.1, get_Count x.2)) <$> leaves n))
    as (c & n' & E & Hr & El).
  - pose proof (leaves_nonempty n). by destruct (leaves n).
  - apply Forall_fmap. eapply Forall_impl; [exact Hok|]. intros [k x] (Hk & Hi & Hc). cbn in *.
    split; [done|]. split; [|done]. rewrite get_Count_ids by done. pose proof (ids_nonempty x Hi). lia.
  - apply (StronglySorted_fmap _ (fun x y => klt s_Bits x.1 y.1)); [intros x y Hxy; exact Hxy|].
    by apply (leaves_sorted s_Bits 0).
  - exists c. split; [done|]. rewrite (Compact_Flush_spec _ c n') by done.
    apply (canonical _ _ _ s_Bits 0); [apply Hr|done|].
    unfold summary. rewrite El, <- list_fmap_compose. done.
Qed.

Lemma utxo_compact_root_witness :
  exists c, Compact_Adds (fun l => l) (mkCompactT [] [] 0) [ex_key 0x11; ex_key 0x91; ex_key 0x91] = (c, true) /\
    (Compact_Flush (fun l => l) c).2
      = (Radix_get_Hash (hash2 (fun l => l)) (replicate 32 0) (get_LeafHash (fun l => l)) ex_utxos).2.
Proof.
  apply (utxo_compact_root (fun l => l) ex_utxos); [split; [apply ex_utxos_wf|done]|apply ex_utxos_ok].
Defined.
