(* ===== verification/Rules.v ===== *)
(** Heights, amounts, consensus parameters and the emission schedule: the
    [HeightRange], [AmountBig], [HeightHash] and [Rules] parts of
    [core/block_crypt.h], [core/block_crypt.cpp].

    Heights and amounts are [uint64_t]; every sum and difference of the source
    is reduced modulo [2^64], also where the source says "may overflow, but it's
    ok".  [Rules::UpdateChecksum] only feeds the parameters to the hash oracle
    and is not modelled. *)

From S2P Require Import Prelude UintBig.

Definition MaxHeight : Z := 2 ^ 64 - 1.
Definition HeightGenesis : Z := 1.
Definition Coin : Z := 100000000.

(** ** [HeightRange] *)
Record HeightRange := mkHR { m_Min : Z; m_Max : Z }.

Global Instance HeightRange_eq_dec : EqDecision HeightRange.
Proof. solve_decision. Defined.

Module HR.
Definition Reset : HeightRange := mkHR 0 MaxHeight.

Definition Intersect (r x : HeightRange) : HeightRange :=
  mkHR (Z.max (m_Min r) (m_Min x)) (Z.min (m_Max r) (m_Max x)).

Definition IsEmpty (r : HeightRange) : bool := m_Max r <? m_Min r.

Definition IsInRangeRelative (r : HeightRange) (dh : Z) : bool :=
  dh <=? u64 (m_Max r - m_Min r).

Definition IsInRange (r : HeightRange) (h : Z) : bool :=
  IsInRangeRelative r (u64 (h - m_Min r)).
End HR.

(** [HeightAdd]: saturating addition. *)
Definition HeightAdd (trg val : Z) : Z :=
  let trg := u64 (trg + val) in
  if trg <? val then MaxHeight else trg.

(** ** [HeightHash] and the forks *)
Record HeightHash := mkHH { hh_Hash : list Z; hh_Height : Z }.

Definition HeightHash_cmp (a v : HeightHash) : Z :=
  if hh_Height a <? hh_Height v then -1
  else if hh_Height v <? hh_Height a then 1
  else _Cmp (hh_Hash a) (hh_Hash v).

Record EmissionParams := mkEmission {
  Premine : Z; Frew : Z; Fundgen : Z; Fundinvest : Z;
  Value0 : Z; Drop0 : Z; Drop1 : Z; Drop2 : Z
}.

Record Rules := mkRules {
  Emission : EmissionParams;
  Maturity_Coinbase : Z;
  Maturity_Std : Z;
  CA_Enabled : bool;
  CA_Deposit : bool;
  AllowPublicUtxos : bool;
  FakePoW : bool;
  Prehistoric : list Z;
  pForks : list HeightHash
}.

Definition zero_hash : list Z := replicate 32 0.

(** The default constructor. *)
Definition default_Rules : Rules := {|
  Emission := {|
    Premine := Coin * 100; Frew := Coin * 13140000; Fundgen := Coin * 39420000;
    Fundinvest := Coin * 34164000; Value0 := Coin * 100;
    Drop0 := 1440 * 365; Drop1 := 1440 * 365 * 4; Drop2 := 1440 * 2 * 365 * 4 |};
  Maturity_Coinbase := 90;
  Maturity_Std := 0;
  CA_Enabled := false;
  CA_Deposit := true;
  AllowPublicUtxos := false;
  FakePoW := false;
  Prehistoric := [
    0x00; 0x00; 0x00; 0x00; 0x00; 0x00; 0x00; 0x00;
    0x00; 0x22; 0xfa; 0x38; 0x04; 0xb5; 0x8a; 0xdb;
    0x90; 0x05; 0x11; 0xdd; 0x1a; 0x8a; 0x75; 0xb5;
    0xd7; 0x93; 0xa7; 0xd3; 0x72; 0xac; 0x93; 0xb2];
  pForks := [mkHH zero_hash 0; mkHH zero_hash 444400; mkHH zero_hash MaxHeight]
|}.

Definition fork_height (r : Rules) (i : nat) : Z := default 0 (hh_Height <$> pForks r !! i).

Definition IsForkHeightsConsistent (r : Rules) : bool :=
  if negb (fork_height r 0 =? HeightGenesis - 1) then false
  else forallb (fun i => negb (fork_height r i <? fork_height r (i - 1)))
         (seq 1 (length (pForks r) - 1)).

(** [FindFork]: the index of the last fork with this hash that is scheduled. *)
Fixpoint FindFork_loop (forks : list HeightHash) (i : nat) (hv : list Z) : option nat :=
  match i with
  | O => None
  | S i =>
      match forks !! i with
      | Some x =>
          if negb (MaxHeight =? hh_Height x) && bool_decide (hh_Hash x = hv) then Some i
          else FindFork_loop forks i hv
      | None => None
      end
  end.

Definition FindFork (r : Rules) (hv : list Z) : option nat :=
  FindFork_loop (pForks r) (length (pForks r)) hv.

(** [while (--i) if (MaxHeight != pForks[i].m_Height) break;] *)
Fixpoint get_LastFork_loop (forks : list HeightHash) (i : nat) : nat :=
  match i with
  | O => O
  | S O => O
  | S ((S _) as j) =>
      if negb (MaxHeight =? default 0 (hh_Height <$> forks !! j)) then j
      else get_LastFork_loop forks j
  end.

Definition get_LastFork (r : Rules) : nat :=
  get_LastFork_loop (pForks r) (length (pForks r)).

(** ** [AmountBig]: 128-bit amounts *)
Definition AmountBig_nBytes : nat := 16.
Definition AmountBig_zero : list Z := replicate AmountBig_nBytes 0.
Definition get_Lo (x : list Z) : Z := ExportWord 1 8 x.
Definition get_Hi (x : list Z) : Z := ExportWord 0 8 x.

(** [uintBigFrom] for 64-bit integers, and [operator +=]. *)
Definition uintBigFrom64 (x : Z) : list Z := AssignOrdinal 8 (replicate 8 0) x.
Definition AmountBig_add (x y : list Z) : list Z := (_Inc_any x y).1.

(** ** Emission

    [get_EmissionEx] returns the reward and [hEnd]. *)
Definition get_EmissionEx (r : Rules) (h base : Z) : Z * Z :=
  let fork1 := fork_height r 1 in
  let h := u64 (h - HeightGenesis) in
  if h =? 0 then (Premine (Emission r), HeightGenesis + 1)
  else if h <? u64 (fork1 - 1) then (base, fork1)
  else if (u64 (fork1 - 1) <=? h) && (h <? u64 (fork1 + 62)) then
    (base / 5, u64 (fork1 + 63))
  else if h =? u64 (fork1 + 62) then
    let Reward := u64 (Frew (Emission r) + Fundgen (Emission r) + Fundinvest (Emission r)) in
    (Reward, u64 (64 + fork1))
  else
    let n := u64 (1 + u64 (h - u64 (fork1 + 63)) / Drop2 (Emission r)) in
    let nBitsMax := 64 in
    if nBitsMax <=? n then (0, MaxHeight)
    else
      let hEnd := u64 (fork1 + 65 + n * Drop2 (Emission r)) in
      (Z.shiftr (u64 (base * 2) / 5) n, hEnd).

Definition get_Emission (r : Rules) (h : Z) : Z :=
  (get_EmissionEx r h (Value0 (Emission r))).1.

(** The range variant accumulates whole segments; [None] when out of fuel. *)
Fixpoint get_Emission_loop (fuel : nat) (r : Rules) (hr : HeightRange) (base : Z)
    (res : list Z) (hPos : Z) : option (list Z) :=
  match fuel with
  | O => None
  | S fuel =>
      let '(nCurrent, hEnd) := get_EmissionEx r hPos base in
      if nCurrent =? 0 then Some res
      else if m_Max hr <? hEnd then
        Some (AmountBig_add res
                (mul (uintBigFrom64 nCurrent) (uintBigFrom64 (u64 (m_Max hr - hPos + 1)))))
      else
        get_Emission_loop fuel r hr base
          (AmountBig_add res (mul (uintBigFrom64 nCurrent) (uintBigFrom64 (u64 (hEnd - hPos)))))
          hEnd
  end.

(** Four fixed segments, 63 halvings and the empty tail. *)
Definition emission_fuel : nat := 69.

Definition get_Emission_range (r : Rules) (hr : HeightRange) (base : Z) : option (list Z) :=
  if HR.IsEmpty hr then Some AmountBig_zero
  else get_Emission_loop emission_fuel r hr base AmountBig_zero (m_Min hr).

(** * Facts *)

Lemma HeightAdd_saturates a b :
  in_width 64 a -> in_width 64 b -> HeightAdd a b = Z.min (a + b) MaxHeight.
Proof.
  unfold in_width, HeightAdd, MaxHeight. intros Ha Hb. unfold wrap.
  destruct (Z.le_gt_cases (2 ^ 64) (a + b)).
  - rewrite <- (Z.mod_unique_pos (a + b) (2 ^ 64) 1 (a + b - 2 ^ 64)) by lia.
    rewrite (proj2 (Z.ltb_lt _ _)) by lia. lia.
  - rewrite Z.mod_small by lia. rewrite (proj2 (Z.ltb_ge _ _)) by lia. lia.
Qed.

Definition hr_ok (r : HeightRange) : Prop := in_width 64 (m_Min r) /\ in_width 64 (m_Max r).

(** A range stands for the heights between its ends, both included. *)
Lemma IsInRange_spec r h :
  hr_ok r -> in_width 64 h -> HR.IsEmpty r = false ->
  HR.IsInRange r h = true <-> m_Min r <= h <= m_Max r.
Proof.
  intros [H1 H2] Hh He. unfold HR.IsEmpty in He. apply Z.ltb_ge in He. unfold in_width in *.
  unfold HR.IsInRange, HR.IsInRangeRelative. rewrite Z.leb_le.
  rewrite (wrap_small 64 (m_Max r - m_Min r)) by (unfold in_width; lia).
  destruct (Z.le_gt_cases (m_Min r) h).
  - rewrite wrap_small by (unfold in_width; lia). lia.
  - unfold wrap.
    rewrite <- (Z.mod_unique_pos (h - m_Min r) (2 ^ 64) (-1) (h - m_Min r + 2 ^ 64)) by lia. lia.
Qed.

Lemma Intersect_spec r x h :
  m_Min (HR.Intersect r x) <= h <= m_Max (HR.Intersect r x)
  <-> m_Min r <= h <= m_Max r /\ m_Min x <= h <= m_Max x.
Proof. simpl. lia. Qed.

Lemma Intersect_ok r x : hr_ok r -> hr_ok x -> hr_ok (HR.Intersect r x).
Proof. unfold hr_ok, in_width. simpl. lia. Qed.

(** ** The emission of a range of blocks *)
Definition emission_sum (r : Rules) (base h : Z) (n : nat) : Z :=
  foldr (fun h acc => (get_EmissionEx r h base).1 + acc) 0 (seqZ h (Z.of_nat n)).

Record rules_ok (r : Rules) (base : Z) : Prop := {
  ro_fork1 : 2 <= fork_height r 1;
  ro_end : fork_height r 1 + 65 + Drop2 (Emission r) < 2 ^ 63;
  ro_drop : 0 < Drop2 (Emission r);
  ro_premine : 0 < Premine (Emission r) < 2 ^ 64;
  ro_base : 5 <= base < 2 ^ 63;
  ro_reward : 0 < Frew (Emission r) + Fundgen (Emission r) + Fundinvest (Emission r) < 2 ^ 64
}.

(** The last height before the first halving after fork 1. *)
Definition first_drop (r : Rules) : Z := fork_height r 1 + 64 + Drop2 (Emission r).

(** The schedule, spelled out up to the first halving. *)
Lemma get_EmissionEx_cases r base h :
  rules_ok r base -> 1 <= h < first_drop r ->
  get_EmissionEx r h base =
    if h =? 1 then (Premine (Emission r), 2)
    else if h <? fork_height r 1 then (base, fork_height r 1)
    else if h <? fork_height r 1 + 63 then (base / 5, fork_height r 1 + 63)
    else if h =? fork_height r 1 + 63
    then (Frew (Emission r) + Fundgen (Emission r) + Fundinvest (Emission r),
          fork_height r 1 + 64)
    else (base * 2 / 5 / 2, fork_height r 1 + 65 + Drop2 (Emission r)).
Proof.
  intros [H1 H2 H3 H4 H5 H6] Hh. unfold first_drop in Hh.
  unfold get_EmissionEx, HeightGenesis. set (F := fork_height r 1) in *.
  set (D := Drop2 (Emission r)) in *.
  assert (forall x, 0 <= x < 2 ^ 64 -> u64 x = x) as Hw by (intros; by apply wrap_small).
  rewrite (Hw (h - 1)), (Hw (F - 1)), (Hw (F + 62)), (Hw (F + 63)), (Hw (64 + F)) by lia.
  destruct (Z.eqb_spec (h - 1) 0), (Z.eqb_spec h 1); try lia; [done|].
  destruct (Z.ltb_spec (h - 1) (F - 1)), (Z.ltb_spec h F); try lia; [done|].
  rewrite (proj2 (Z.leb_le (F - 1) (h - 1))) by lia. cbn [andb].
  destruct (Z.ltb_spec (h - 1) (F + 62)), (Z.ltb_spec h (F + 63)); try lia; [done|].
  destruct (Z.eqb_spec (h - 1) (F + 62)), (Z.eqb_spec h (F + 63)); try lia.
  { rewrite Hw by lia. f_equal. lia. }
  rewrite (Hw (h - 1 - (F + 63))) by lia. rewrite Z.div_small by lia.
  rewrite (Hw (1 + 0)) by lia. change (64 <=? 1 + 0) with false. cbn iota.
  rewrite (Hw (base * 2)), (Hw (F + 65 + _)) by lia.
  rewrite Z.shiftr_div_pow2 by lia. f_equal. lia.
Qed.

(** Which of the five segments a height is in. *)
Definition segment (r : Rules) (h : Z) : nat :=
  if h =? 1 then 0
  else if h <? fork_height r 1 then 1
  else if h <? fork_height r 1 + 63 then 2
  else if h =? fork_height r 1 + 63 then 3 else 4.

Lemma segment_step r base h hmax :
  rules_ok r base -> 1 <= h <= hmax -> hmax < first_drop r ->
  let '(cur, hEnd) := get_EmissionEx r h base in
  0 < cur < 2 ^ 64 /\ h < hEnd < 2 ^ 64 /\
  (hEnd <= hmax -> (segment r h < segment r hEnd)%nat) /\
  (forall h', h <= h' < hEnd -> h' <= hmax -> (get_EmissionEx r h' base).1 = cur).
Proof.
  intros Hok Hh Hmax. pose proof Hok as [H1 H2 H3 H4 H5 H6].
  assert (1 <= base / 5 < 2 ^ 63).
  { split; [apply Z.div_le_lower_bound; lia|apply Z.div_lt_upper_bound; lia]. }
  assert (1 <= base * 2 / 5 / 2 < 2 ^ 63).
  { assert (2 <= base * 2 / 5) by (apply Z.div_le_lower_bound; lia).
    assert (base * 2 / 5 < 2 ^ 63) by (apply Z.div_lt_upper_bound; lia).
    split; [apply Z.div_le_lower_bound; lia|apply Z.div_lt_upper_bound; lia]. }
  rewrite (get_EmissionEx_cases r base h Hok) by lia. unfold first_drop in *.
  destruct (Z.eqb_spec h 1); [|destruct (Z.ltb_spec h (fork_height r 1));
    [|destruct (Z.ltb_spec h (fork_height r 1 + 63));
      [|destruct (Z.eqb_spec h (fork_height r 1 + 63))]]];
    (split; [lia|]); (split; [lia|]); (split;
     [unfold segment; intros; repeat case_match; lia
     |intros h' Hh' Hm'; rewrite (get_EmissionEx_cases r base h' Hok) by (unfold first_drop; lia);
      repeat case_match; simpl; lia]).
Qed.

Lemma emission_sum_app r base h n m :
  emission_sum r base h (n + m)
    = emission_sum r base h n + emission_sum r base (h + Z.of_nat n) m.
Proof.
  unfold emission_sum. rewrite Nat2Z.inj_add, seqZ_app by lia. rewrite foldr_app.
  generalize (seqZ h (Z.of_nat n)).
  generalize (foldr (fun h acc => (get_EmissionEx r h base).1 + acc) 0
                (seqZ (h + Z.of_nat n) (Z.of_nat m))).
  intros z l. induction l as [|x l IH]; simpl; lia.
Qed.

Lemma emission_sum_const r base h n cur :
  (forall h', h <= h' < h + Z.of_nat n -> (get_EmissionEx r h' base).1 = cur) ->
  emission_sum r base h n = Z.of_nat n * cur.
Proof.
  intros Hc. unfold emission_sum. revert h Hc. induction n as [|n IH]; intros h Hc; [done|].
  rewrite seqZ_cons by lia. simpl. replace (Z.pred (Z.of_nat (S n))) with (Z.of_nat n) by lia.
  rewrite Hc by lia. rewrite IH; [lia|]. intros. apply Hc. lia.
Qed.

Lemma uintBigFrom64_spec x :
  0 <= x < 2 ^ 64 ->
  bytes_ok (uintBigFrom64 x) /\ length (uintBigFrom64 x) = 8%nat /\ be_val (uintBigFrom64 x) = x.
Proof.
  intros Hx. unfold uintBigFrom64. rewrite AssignOrdinal_eq; [|rewrite length_replicate; lia|done].
  rewrite length_replicate, length_be_bytes, be_val_be_bytes. split; [auto with grimm|].
  split; [done|]. by apply Z.mod_small.
Qed.

Definition amount_ok (x : list Z) : Prop := bytes_ok x /\ length x = AmountBig_nBytes.

Lemma AmountBig_add_spec x y :
  amount_ok x -> bytes_ok y ->
  amount_ok (AmountBig_add x y) /\ be_val (AmountBig_add x y) = (be_val x + be_val y) mod 2 ^ 128.
Proof.
  intros [Hx Hl] Hy. pose proof (_Inc_any_spec x y Hx Hy) as H. unfold AmountBig_add.
  destruct (_Inc_any x y) as [z c]. destruct H as (Hz & Hzl & Hc & E). cbn [fst].
  rewrite Hl in *. split; [by split|]. pose proof (be_val_bound z Hz) as B. rewrite Hzl in B.
  change (radix AmountBig_nBytes) with (2 ^ 128) in *.
  rewrite <- Z.add_mod_idemp_r by lia. apply (Z.mod_unique_pos _ _ c); lia.
Qed.

Lemma emission_add_spec res cur k :
  amount_ok res -> 0 <= cur < 2 ^ 64 -> 0 <= k < 2 ^ 64 ->
  let res' := AmountBig_add res (mul (uintBigFrom64 cur) (uintBigFrom64 k)) in
  amount_ok res' /\ be_val res' = (be_val res + cur * k) mod 2 ^ 128.
Proof.
  intros Hr Hc Hk. destruct (uintBigFrom64_spec cur Hc) as (B1 & L1 & E1).
  destruct (uintBigFrom64_spec k Hk) as (B2 & L2 & E2).
  destruct (mul_spec (uintBigFrom64 cur) (uintBigFrom64 k) B1 B2) as (Bm & _ & Em);
    [rewrite L1, L2; done|].
  destruct (AmountBig_add_spec res _ Hr Bm) as [Ho E]. split; [done|]. by rewrite E, Em, E1, E2.
Qed.

Lemma get_Emission_loop_sum fuel r base hr res hPos :
  rules_ok r base -> 1 <= hPos <= m_Max hr -> m_Max hr < first_drop r ->
  (5 <= fuel + segment r hPos)%nat -> amount_ok res ->
  exists res', get_Emission_loop fuel r hr base res hPos = Some res' /\ amount_ok res' /\
    be_val res' = (be_val res + emission_sum r base hPos (Z.to_nat (m_Max hr - hPos + 1)))
                    mod 2 ^ 128.
Proof.
  intros Hok. revert hPos res. induction fuel as [|fuel IH]; intros hPos res Hh Hmax Hf Hr.
  { unfold segment in Hf. repeat case_match; lia. }
  cbn [get_Emission_loop]. pose proof (segment_step r base hPos (m_Max hr) Hok Hh Hmax) as Hs.
  destruct (get_EmissionEx r hPos base) as [cur hEnd]. destruct Hs as (Bc & Be & Hseg & Hconst).
  rewrite (proj2 (Z.eqb_neq _ _)) by lia.
  destruct (Z.ltb_spec (m_Max hr) hEnd).
  - rewrite wrap_small by (unfold in_width; lia).
    destruct (emission_add_spec res cur (m_Max hr - hPos + 1) Hr) as [Ho E]; [lia|lia|].
    eexists. split; [done|]. split; [done|]. rewrite E. f_equal. f_equal.
    rewrite (emission_sum_const r base hPos _ cur); [lia|]. intros. apply Hconst; lia.
  - rewrite wrap_small by (unfold in_width; lia).
    destruct (emission_add_spec res cur (hEnd - hPos) Hr) as [Ho E]; [lia|lia|].
    specialize (Hseg ltac:(lia)).
    destruct (IH hEnd _ ltac:(lia) Hmax ltac:(lia) Ho) as (res' & Hrun & Ho' & E').
    exists res'. split; [done|]. split; [done|]. rewrite E', E, Z.add_mod_idemp_l by lia.
    f_equal. replace (Z.to_nat (m_Max hr - hPos + 1))
      with (Z.to_nat (hEnd - hPos) + Z.to_nat (m_Max hr - hEnd + 1))%nat by lia.
    rewrite emission_sum_app.
    rewrite (emission_sum_const r base hPos _ cur) by (intros; apply Hconst; lia).
    rewrite !Z2Nat.id by lia. replace (hPos + (hEnd - hPos)) with hEnd by lia. lia.
Qed.

(** * The properties of heights and emission *)

Lemma get_Emission_range_sum r base hr :
  rules_ok r base -> 1 <= m_Min hr <= m_Max hr -> m_Max hr < first_drop r ->
  exists res, get_Emission_range r hr base = Some res /\ amount_ok res /\
    be_val res
      = emission_sum r base (m_Min hr) (Z.to_nat (m_Max hr - m_Min hr + 1)) mod 2 ^ 128.
Proof.
  intros Hok Hh Hm. unfold get_Emission_range, HR.IsEmpty.
  rewrite (proj2 (Z.ltb_ge _ _)) by lia.
  destruct (get_Emission_loop_sum emission_fuel r base hr AmountBig_zero (m_Min hr) Hok Hh Hm)
    as (res & E & Ho & Es).
  - unfold emission_fuel. lia.
  - split; [apply bytes_ok_zeros|done].
  - exists res. split; [done|]. split; [done|]. exact Es.
Qed.

(** The emission of a range of blocks that ends before the first halving:
    the segment-wise accumulation of [Rules::get_Emission] terminates within its
    segments and equals the sum of the emissions of the single heights, modulo the
    128 bits of [AmountBig]. *)
Theorem emission_range_is_sum r base hr :
  rules_ok r base -> 1 <= m_Min hr <= m_Max hr -> m_Max hr < first_drop r ->
  exists res, get_Emission_range r hr base = Some res /\ amount_ok res /\
    be_val res
      = emission_sum r base (m_Min hr) (Z.to_nat (m_Max hr - m_Min hr + 1)) mod 2 ^ 128.
Proof. apply get_Emission_range_sum. Qed.

Lemma emission_range_is_sum_witness :
  exists res, get_Emission_range default_Rules (mkHR 444390 444480) (Coin * 100) = Some res /\
    be_val res = emission_sum default_Rules (Coin * 100) 444390 91 mod 2 ^ 128.
Proof.
  destruct (emission_range_is_sum default_Rules (Coin * 100) (mkHR 444390 444480))
    as (res & E & _ & Es); [split; vm_compute; try split; congruence|vm_compute; split; congruence|done|].
  exists res. split; [exact E|exact Es].
Defined.

(** At a halving the segment end that [get_EmissionEx] reports is one block
    too far: with the default rules the emission of the seven blocks around the
    first halving is counted one block at the old rate too many. *)
Theorem emission_range_at_halving :
  be_val <$> get_Emission_range default_Rules (mkHR 4649260 4649266) (Coin * 100)
    = Some (emission_sum default_Rules (Coin * 100) 4649260 7 + 10 * Coin).
Proof. vm_compute. reflexivity. Qed.

(** [HeightRange] and [HeightAdd] on 64-bit heights: the wrapping
    subtraction of [IsInRange] decides membership of the closed interval,
    [Intersect] is intersection of the intervals, and [HeightAdd] saturates at
    [MaxHeight] instead of wrapping. *)
Theorem height_range_arith r x h d :
  hr_ok r -> hr_ok x -> in_width 64 h -> in_width 64 d ->
  HR.IsEmpty (HR.Intersect r x) = false ->
  (HR.IsInRange (HR.Intersect r x) h = true
     <-> m_Min r <= h <= m_Max r /\ m_Min x <= h <= m_Max x) /\
  HeightAdd h d = Z.min (h + d) MaxHeight.
Proof.
  intros Hr Hx Hh Hd He. rewrite IsInRange_spec by (try done; by apply Intersect_ok).
  rewrite HeightAdd_saturates by done. split; [apply Intersect_spec|done].
Qed.

Lemma height_range_arith_witness : HeightAdd (2 ^ 64 - 5) 7 = MaxHeight.
Proof.
  transitivity (Z.min (2 ^ 64 - 5 + 7) MaxHeight); [|done].
  apply (height_range_arith (mkHR 3 9) (mkHR 5 MaxHeight)); try done; repeat split; vm_compute; congruence.
Defined.
