(* ===== verification/SystemState.v ===== *)
(** Block headers: [Block::SystemState] and [Block::PoW] of
    [core/block_crypt.h], [core/block_crypt.cpp], [pow/equihash.cpp].

    SHA-256 is the parameter [sha256].  The Equihash verifier and solver
    (third-party code) are the parameters [IsValidSolution] and
    [OptimisedSolve]. *)

From stdpp Require Import sorting.
From S2P Require Import Prelude UintBig EccData Difficulty Merkle UtxoTree Rules.


Record PoW := mkPoW { m_Indices : list Z; m_Nonce : list Z; m_Difficulty : Z }.

Definition nSolutionBytes : nat := 104.

(** [Sequence::Prefix] and [Sequence::Element], which [Full] inherits. *)
Record Full := mkFull {
  s_Height : Z;
  s_Prev : list Z;
  s_ChainWork : list Z;
  s_Kernels : list Z;
  s_Definition : list Z;
  s_TimeStamp : Z;
  s_PoW : PoW
}.

(** [CMP_MEMBER] on a [std::array] compares lexicographically. *)
Definition CMP_array (a b : list Z) (rest : Z) : Z :=
  if memcmp a b <? 0 then -1 else if 0 <? memcmp a b then 1 else rest.

Definition Full_cmp (a v : Full) : Z :=
  CMP_SIMPLE (s_Height a) (s_Height v) (
  CMP_EX (_Cmp (s_Kernels a) (s_Kernels v)) (
  CMP_EX (_Cmp (s_Definition a) (s_Definition v)) (
  CMP_EX (_Cmp (s_Prev a) (s_Prev v)) (
  CMP_EX (_Cmp (s_ChainWork a) (s_ChainWork v)) (
  CMP_SIMPLE (s_TimeStamp a) (s_TimeStamp v) (
  CMP_SIMPLE (m_Difficulty (s_PoW a)) (m_Difficulty (s_PoW v)) (
  CMP_EX (_Cmp (m_Nonce (s_PoW a)) (m_Nonce (s_PoW v))) (
  CMP_array (m_Indices (s_PoW a)) (m_Indices (s_PoW v)) 0)))))))).

(** What [get_HashInternal] feeds to the hash. *)
Definition header_bytes (s : Full) (bTotal : bool) : list Z :=
  Write_uint (s_Height s) ++ Write_big (s_Prev s) ++ Write_big (s_ChainWork s) ++
  Write_big (s_Kernels s) ++ Write_big (s_Definition s) ++ Write_uint (s_TimeStamp s) ++
  Write_uint (m_Difficulty (s_PoW s)) ++
  if bTotal then Write_big (m_Indices (s_PoW s)) ++ Write_big (m_Nonce (s_PoW s)) else [].

Section state.
Context (sha256 : list Z -> list Z) (r : Rules).
Context (IsValidSolution : list Z -> list Z -> list Z -> bool).

Definition get_HashInternal (s : Full) (bTotal : bool) : list Z := sha256 (header_bytes s bTotal).

Definition get_HashForPoW (s : Full) : list Z := get_HashInternal s false.

Definition get_Hash (s : Full) : list Z :=
  if HeightGenesis <=? s_Height s then get_HashInternal s true else Prehistoric r.

Definition get_ID (s : Full) : HeightHash := mkHH (get_Hash s) (s_Height s).

Definition IsNext (s sNext : Full) : bool :=
  if negb (u64 (s_Height s + 1) =? s_Height sNext) then false
  else _Cmp (s_Prev sNext) (get_Hash s) =? 0.

Definition NextPrefix (s : Full) : Full :=
  mkFull (u64 (s_Height s + 1)) (get_Hash s) (s_ChainWork s) (s_Kernels s) (s_Definition s)
    (s_TimeStamp s) (s_PoW s).

Definition IsSane (s : Full) : bool :=
  if s_Height s <? HeightGenesis then false
  else if (s_Height s =? HeightGenesis) && negb (_Cmp (s_Prev s) (Prehistoric r) =? 0) then false
  else true.

(** ** Proof of work *)
Definition TestDifficulty (pSol : list Z) (d : Z) : bool :=
  IsTargetReached d (sha256 (Write_big pSol)).

Definition PoW_IsValid (p : PoW) (pInput : list Z) : bool :=
  IsValidSolution pInput (m_Nonce p) (m_Indices p) && TestDifficulty (m_Indices p) (m_Difficulty p).

Definition IsValidPoW (s : Full) : bool :=
  if FakePoW r then true else PoW_IsValid (s_PoW s) (get_HashForPoW s).

Definition IsValid (s : Full) : bool := IsSane s && IsValidPoW s.

(** In its round [i] the solver reports the solutions of the input and the
    nonce one by one ([None]: it was cancelled before one was accepted); the
    first one that meets the difficulty is taken. *)
Context (OptimisedSolve : nat -> list Z -> list Z -> option (list (list Z))).
Context (fnCancel : nat -> bool).

(** [Some (p, false)] when cancelled, [None] when out of fuel. *)
Fixpoint Solve (fuel : nat) (i : nat) (p : PoW) (pInput : list Z) : option (PoW * bool) :=
  match fuel with
  | O => None
  | S fuel =>
      match OptimisedSolve i pInput (m_Nonce p) with
      | None => Some (p, false)
      | Some sols =>
          match List.find (fun sol => TestDifficulty sol (m_Difficulty p)) sols with
          | Some sol => Some (mkPoW sol (m_Nonce p) (m_Difficulty p), true)
          | None =>
              if fnCancel i then Some (p, false)
              else Solve fuel (S i) (mkPoW (m_Indices p) (_Inc (m_Nonce p)).1 (m_Difficulty p)) pInput
          end
      end
  end.

Definition GeneratePoW (fuel : nat) (s : Full) : option (Full * bool) :=
  '(p, ok) ← Solve fuel 0 (s_PoW s) (get_HashForPoW s);
  Some (mkFull (s_Height s) (s_Prev s) (s_ChainWork s) (s_Kernels s) (s_Definition s)
          (s_TimeStamp s) p, ok).

(** ** Proofs against a header *)
Abbreviation h2 := (hash2 sha256).
Definition zhash : list Z := replicate 32 0.

Definition IsValidProofUtxo (s : Full) (comm : Point) (m_Maturity m_Count : Z)
    (p : Proof_t (Hash := list Z)) : bool :=
  match last p with
  | None => false
  | Some n =>
      if n.1 then false
      else
        let hv := Input_State_get_ID sha256 m_Maturity m_Count comm in
        _Cmp (Interpret h2 hv p) (s_Definition s) =? 0
  end.

Definition IsValidProofState (s : Full) (id : HeightHash) (proof : HardProof (Hash := list Z)) : bool :=
  if (hh_Height id <? HeightGenesis) || (s_Height s <=? hh_Height id) then false
  else
    let '(v, ok) :=
      get_Proof h2 zhash (fun _ => zhash) (AppendNode_verify h2)
        (s_Height s - HeightGenesis) (hh_Hash id, proof) (hh_Height id - HeightGenesis) in
    if negb ok then false
    else
      let '(v, ok) := InterpretOnce h2 v true in
      if negb ok then false
      else match v.2 with
           | [] => _Cmp v.1 (s_Definition s) =? 0
           | _ :: _ => false
           end.

Record LongProof := mkLong {
  m_Inner : Proof_t (Hash := list Z); m_State : Full; m_Outer : HardProof (Hash := list Z)
}.

Definition IsValidProofKernel (s : Full) (hvID : list Z) (proof : LongProof) : bool :=
  if negb (IsValid (m_State proof)) then false
  else if negb (_Cmp (Interpret h2 hvID (m_Inner proof)) (s_Kernels (m_State proof)) =? 0) then false
  else if Full_cmp (m_State proof) s =? 0 then true
  else if s_Height s <? s_Height (m_State proof) then false
  else IsValidProofState s (get_ID (m_State proof)) (m_Outer proof).
End state.

(** ** [HistoryMap]: a [std::map] from heights to states

    The map is the list of its entries in ascending order of the heights. *)
Abbreviation HistoryMap := (list (Z * Full)).

Fixpoint map_set (h : Z) (s : Full) (m : HistoryMap) : HistoryMap :=
  match m with
  | [] => [(h, s)]
  | (k, x) :: m' =>
      if h <? k then (h, s) :: m
      else if k <? h then (k, x) :: map_set h s m'
      else (h, s) :: m'
  end.

Definition AddStates (m : HistoryMap) (pS : list Full) : HistoryMap :=
  foldl (fun m s => map_set (s_Height s) s m) m pS.

Fixpoint get_At (m : HistoryMap) (h : Z) : option Full :=
  match m with
  | [] => None
  | (k, x) :: m => if k =? h then Some x else get_At m h
  end.

(** The entries before [m_Map.lower_bound(h)]. *)
Fixpoint before_lower_bound (m : HistoryMap) (h : Z) : HistoryMap :=
  match m with
  | [] => []
  | (k, x) :: m => if k <? h then (k, x) :: before_lower_bound m h else []
  end.

(** Iterating backwards from [lower_bound] or from the end. *)
Section enum.
Context {W : Type} (OnState : W -> Full -> W * bool).

Fixpoint Enum_loop (w : W) (l : list (Z * Full)) : W * bool :=
  match l with
  | [] => (w, true)
  | (_, s) :: l => let '(w, go) := OnState w s in if go then Enum_loop w l else (w, false)
  end.

Definition Enum (m : HistoryMap) (pBelow : option Z) (w : W) : W * bool :=
  let upto := match pBelow with
              | None => m
              | Some h => before_lower_bound m h
              end in
  Enum_loop w (rev upto).
End enum.

(** The walker stops at the first state: the tip. *)
Definition get_Tip (m : HistoryMap) : option Full :=
  (Enum (fun _ s => (Some s, false)) m None None).1.

(** [m] reversed: erase from the end while the height is not below [h]. *)
Fixpoint DeleteFrom_loop (m : HistoryMap) (h : Z) : HistoryMap :=
  match m with
  | [] => []
  | (k, x) :: m' => if k <? h then m else DeleteFrom_loop m' h
  end.

Definition DeleteFrom (m : HistoryMap) (h : Z) : HistoryMap := rev (DeleteFrom_loop (rev m) h).

(** The loop does not test for the end; [None] when it runs past it. *)
Fixpoint Shrink_loop (m : HistoryMap) (h0 : Z) : option HistoryMap :=
  match m with
  | [] => None
  | (k, x) :: m' => if h0 <? k then Some m else Shrink_loop m' h0
  end.

Definition ShrinkToWindow (m : HistoryMap) (dh : Z) : option HistoryMap :=
  match last m with
  | None => Some m
  | Some (h, _) => if h <=? dh then Some m else Shrink_loop m (h - dh)
  end.

(** * Facts *)
Definition pow_ok (p : PoW) : Prop :=
  bytes_n nSolutionBytes (m_Indices p) /\ bytes_n 8 (m_Nonce p) /\ in_width 32 (m_Difficulty p).

Definition full_ok (s : Full) : Prop :=
  in_width 64 (s_Height s) /\ bytes_n 32 (s_Prev s) /\ bytes_n 32 (s_ChainWork s) /\
  bytes_n 32 (s_Kernels s) /\ bytes_n 32 (s_Definition s) /\ in_width 64 (s_TimeStamp s) /\
  pow_ok (s_PoW s).

(** Everything that is hashed, as one tuple. *)
Definition header_tuple (s : Full) :=
  (s_Height s, (s_Prev s, (s_ChainWork s, (s_Kernels s, (s_Definition s, (s_TimeStamp s,
  (m_Difficulty (s_PoW s), (m_Indices (s_PoW s), m_Nonce (s_PoW s))))))))).

Lemma header_tuple_inj a b : header_tuple a = header_tuple b -> a = b.
Proof. destruct a as [? ? ? ? ? ? []], b as [? ? ? ? ? ? []]. unfold header_tuple. cbn. intros. by simplify_eq. Qed.

Lemma prefix_free_header : prefix_free full_ok (fun s => header_bytes s true).
Proof.
  apply (prefix_free_inj full_ok header_tuple _ _ _
    (prefix_free_seq _ _ _ _ prefix_free_uint
    (prefix_free_seq _ _ _ _ (prefix_free_bytes 32)
    (prefix_free_seq _ _ _ _ (prefix_free_bytes 32)
    (prefix_free_seq _ _ _ _ (prefix_free_bytes 32)
    (prefix_free_seq _ _ _ _ (prefix_free_bytes 32)
    (prefix_free_seq _ _ _ _ prefix_free_uint
    (prefix_free_seq _ _ _ _ prefix_free_uint
    (prefix_free_seq _ _ _ _ (prefix_free_bytes nSolutionBytes) (prefix_free_bytes 8)))))))))).
  - intros s (H1 & H2 & H3 & H4 & H5 & H6 & H7 & H8 & H9). unfold in_width in *.
    cbn. split_and!; try done; lia.
  - intros a b _ _. apply header_tuple_inj.
  - done.
Qed.

Lemma header_bytes_inj a b :
  full_ok a -> full_ok b -> header_bytes a true = header_bytes b true -> a = b.
Proof.
  intros Ha Hb E. apply (prefix_free_header a b [] [] Ha Hb). by rewrite !app_nil_r.
Qed.

(** [Full::cmp] is a total order of the headers. *)
Lemma cmp_order_Full : cmp_order full_ok Full_cmp.
Proof.
  pose proof (cmp_order_pair _ _ _ _ cmp_order_Z
    (cmp_order_pair _ _ _ _ (cmp_order_bytes 32)
    (cmp_order_pair _ _ _ _ (cmp_order_bytes 32)
    (cmp_order_pair _ _ _ _ (cmp_order_bytes 32)
    (cmp_order_pair _ _ _ _ (cmp_order_bytes 32)
    (cmp_order_pair _ _ _ _ cmp_order_Z
    (cmp_order_pair _ _ _ _ cmp_order_Z
    (cmp_order_pair _ _ _ _ (cmp_order_bytes 8) (cmp_order_bytes nSolutionBytes))))))))) as H.
  refine (cmp_order_inj (fun s => (s_Height s, (s_Kernels s, (s_Definition s, (s_Prev s, (s_ChainWork s,
    (s_TimeStamp s, (m_Difficulty (s_PoW s), (m_Nonce (s_PoW s), m_Indices (s_PoW s))))))))))
    _ _ _ _ H _ _ _).
  - intros s (H1 & H2 & H3 & H4 & H5 & H6 & H7 & H8 & H9). cbn. split_and!; done.
  - intros [? ? ? ? ? ? []] [? ? ? ? ? ? []] E. cbn in E. by simplify_eq.
  - intros a b (_ & _ & _ & _ & _ & _ & [Ba La] & _) (_ & _ & _ & _ & _ & _ & [Bb Lb] & _). cbn [fst snd].
    unfold Full_cmp. rewrite !(CMP_SIMPLE_EX _ _ (CMP_EX _ _)).
    do 8 f_equal. unfold CMP_array.
    rewrite _Cmp_spec, memcmp_spec by (try done; congruence).
    generalize (be_val (m_Indices (s_PoW a))), (be_val (m_Indices (s_PoW b))). intros x y.
    unfold cmpZ. destruct (x <? y); [done|]. by destruct (y <? x).
Qed.

Lemma Cmp0_eq n a b : bytes_n n a -> bytes_n n b -> (_Cmp a b =? 0) = true <-> a = b.
Proof. intros Ha Hb. rewrite Z.eqb_eq. by apply (co_eq _ _ (cmp_order_bytes n)). Qed.

(** ** Proofs against a header *)
Section proofs.
#[local] Opaque u64_bits.
Context (sha256 : list Z -> list Z).
Context (sha256_size : forall l, bytes_n 32 (sha256 l)).
Abbreviation h2 := (hash2 sha256).

(** Two different messages of a list with the same hash. *)
Definition sha_collision (M : list (list Z)) : Prop := exists x y, x ∈ M /\ y ∈ M /\ x <> y /\ sha256 x = sha256 y.

(** There are none: what a theorem on hashes assumes of the messages that it is about. *)
Definition no_collision (M : list (list Z)) : Prop := forall x y, x ∈ M -> y ∈ M -> sha256 x = sha256 y -> x = y.

Lemma no_collision_false M : no_collision M -> sha_collision M -> False.
Proof. intros H (x & y & Hx & Hy & Hne & E). apply Hne. by apply H. Qed.

Lemma sha_collision_mono M M' : M ⊆ M' -> sha_collision M -> sha_collision M'.
Proof. intros Hs (x & y & Hx & Hy & H). exists x, y. split; [by apply Hs|]. split; [by apply Hs|done]. Qed.

(** As a computation, for concrete messages. *)
Definition no_collision_b (M : list (list Z)) : bool := forallb (fun x => forallb (fun y => negb (bool_decide (sha256 x = sha256 y)) || bool_decide (x = y)) M) M.

Lemma no_collision_dec M : no_collision_b M = true -> no_collision M.
Proof.
  unfold no_collision_b. rewrite forallb_forall. intros H x y Hx%list_elem_of_In Hy%list_elem_of_In E. specialize (H x Hx). rewrite forallb_forall in H. specialize (H y Hy).
  rewrite bool_decide_eq_true_2 in H by done. by apply bool_decide_eq_true_1 in H.
Qed.

(** The message of a pair of hashes. *)
Definition pair_msg (x : list Z * list Z) : list Z := Write_big x.1 ++ Write_big x.2.

Lemma collision_sha l1 l2 : Forall (fun x => bytes_n 32 x.1 /\ bytes_n 32 x.2) l1 -> Forall (fun x => bytes_n 32 x.1 /\ bytes_n 32 x.2) l2 ->
  collision_in h2 l1 l2 -> sha_collision ((pair_msg <$> l1) ++ (pair_msg <$> l2)).
Proof.
  rewrite !Forall_forall. intros H1 H2 ([a b] & [c d] & Hx & Hy & Hne & E). destruct (H1 _ Hx) as [[_ La] _], (H2 _ Hy) as [[_ Lc] _]. cbn [fst snd] in *.
  exists (pair_msg (a, b)), (pair_msg (c, d)). split; [apply elem_of_app; left; by apply list_elem_of_fmap_2|]. split; [apply elem_of_app; right; by apply list_elem_of_fmap_2|]. split; [|exact E].
  intros E'. apply Hne. unfold pair_msg, Write_big in E'. cbn [fst snd] in E'. apply app_inj_1 in E' as [-> ->]; [done|congruence].
Qed.

(** The sides of the nodes on the way from leaf [i] of [m]. *)
Definition dirs (m i : Z) : list bool :=
  (fun x => x.1.1) <$> proof_nodes h2 zhash (fun _ => zhash) u64_bits m 0 m i.

Lemma dirs_load load m i :
  (fun x => x.1.1) <$> proof_nodes h2 zhash load u64_bits m 0 m i = dirs m i.
Proof.
  unfold dirs. pose proof (proof_nodes_dirs h2 zhash load (fun _ => zhash) u64_bits m 0 m i) as E.
  apply (f_equal (fmap fst)) in E. by rewrite <- !list_fmap_compose in E.
Qed.

(** What [IsValidProofState] checks. *)
Lemma IsValidProofState_spec s id proof :
  full_ok s ->
  IsValidProofState sha256 s id proof = true <->
  HeightGenesis <= hh_Height id < s_Height s /\
  exists x live, fold_dirs h2 (hh_Hash id) (dirs (s_Height s - 1) (hh_Height id - 1)) proof
                   = Some (x, [live]) /\ h2 x live = s_Definition s.
Proof.
  intros (_ & _ & _ & _ & Hdef & _). unfold IsValidProofState, HeightGenesis.
  destruct (Z.ltb_spec (hh_Height id) 1), (Z.leb_spec (s_Height s) (hh_Height id)); cbn [orb];
    try (split; [done|]; intros [? _]; lia).
  unfold get_Proof. rewrite get_Proof_run.
  pose proof (run_verify h2 (hh_Hash id) proof (proof_nodes h2 zhash (fun _ => zhash) u64_bits
    (s_Height s - 1) 0 (s_Height s - 1) (hh_Height id - 1))) as Hv.
  rewrite dirs_load in Hv. revert Hv.
  generalize (proof_nodes h2 zhash (fun _ => zhash) u64_bits (s_Height s - 1) 0 (s_Height s - 1) (hh_Height id - 1)).
  generalize (dirs (s_Height s - 1) (hh_Height id - 1)). intros ds l Hv.
  destruct (fold_dirs h2 (hh_Hash id) ds proof) as [[x rest]|].
  - match goal with |- context [run_builder ?A ?b ?k] =>
      replace (run_builder A b k) with ((x, rest), true) by (symmetry; exact Hv) end.
    destruct rest as [|live [|y rest]]; cbn [negb fst snd InterpretOnce].
    + split; [done|]. intros (_ & ? & ? & E & _). done.
    + rewrite (Cmp0_eq 32) by (done || apply sha256_size). unfold Interpret_new. split.
      * intros E. split; [lia|]. by exists x, live.
      * intros (_ & ? & ? & [= -> ->] & E). done.
    + split; [done|]. intros (_ & ? & ? & E & _). done.
  - match type of Hv with (?e).2 = _ => destruct e as [st ok] eqn:E end. cbn [snd] in Hv. subst ok.
    match goal with |- context [run_builder ?A ?b ?k] =>
      replace (run_builder A b k) with (st, false) by (symmetry; exact E) end.
    cbn [negb]. split; [done|].
    intros (_ & ? & ? & E2 & _). done.
Qed.

(** All the hashes an honest proof is made of have the size of a hash. *)
Section sizes.
Context (leaf : Z -> list Z).
Context (Hleaf : forall j, bytes_n 32 (leaf j)).

Lemma zhash_ok : bytes_n 32 zhash.
Proof. split; [apply bytes_ok_zeros|done]. Qed.

Lemma calc_ok h X : bytes_n 32 (Calculate h2 leaf h X).
Proof. destruct h; [apply Hleaf|apply sha256_size]. Qed.

Lemma default_ok acc : (forall x, acc = Some x -> bytes_n 32 x) -> bytes_n 32 (default zhash acc).
Proof. destruct acc; intros H; [by apply H|apply zhash_ok]. Qed.

Lemma range_ok n0 n : bytes_n 32 (default zhash (get_HashForRange h2 (Fly_load h2 leaf) n0 n)).
Proof.
  unfold get_HashForRange.
  assert (forall fuel acc h a b, (forall x, acc = Some x -> bytes_n 32 x) ->
    bytes_n 32 (default zhash (HashForRange_loop h2 (Fly_load h2 leaf) fuel acc h a b))) as H.
  { induction fuel as [|fuel IH]; intros acc h a b Hacc; cbn [HashForRange_loop].
    - by apply default_ok.
    - destruct (b =? 0); [by apply default_ok|].
      apply IH. intros x Hx. destruct (Z.odd b); [|by apply Hacc].
      destruct acc; injection Hx as <-; [apply sha256_size|apply calc_ok]. }
  by apply H.
Qed.

Lemma nodes_ok fuel m h n i :
  Forall (bytes_n 32) ((fun x => x.1.2) <$> proof_nodes h2 zhash (Fly_load h2 leaf) fuel m h n i).
Proof.
  revert h n i. induction fuel as [|fuel IH]; intros h n i; cbn [proof_nodes]; [constructor|].
  destruct (n =? 0); [constructor|]. destruct (negb (Z.odd i) && _); [apply IH|].
  rewrite fmap_cons. constructor; [|apply IH]. cbn [fst snd].
  destruct (negb (Z.odd i) && _); [apply range_ok|apply calc_ok].
Qed.
End sizes.

(** The honest proof folds to the root of the history. *)
Lemma honest_fold leaf m i rest :
  0 < m <= 2 ^ 63 -> 0 <= i < m -> (forall j, bytes_n 32 (leaf j)) ->
  exists p, (get_Proof h2 zhash (Fly_load h2 leaf) AppendNode_hard m [] i) = (p, true) /\
    fold_dirs h2 (leaf i) (dirs m i) (p ++ rest) = Some (root_hash h2 zhash leaf m, rest) /\
    Forall (bytes_n 32) p.
Proof.
  intros Hm Hi Hleaf. unfold get_Proof. rewrite get_Proof_run, run_hard. eexists. split; [done|].
  split; [|apply nodes_ok, Hleaf].
  rewrite <- (dirs_load (Fly_load h2 leaf)). cbn [app].
  pose proof (get_Proof_correct h2 zhash (Fly_load h2 leaf) leaf m i ltac:(apply Fly_complete) Hm Hi) as Hc.
  unfold get_Proof in Hc. rewrite get_Proof_run, run_std in Hc. revert Hc.
  generalize (proof_nodes h2 zhash (Fly_load h2 leaf) u64_bits m 0 m i). intros l Hc.
  rewrite fold_dirs_hard. do 2 f_equal. apply Hc.
Qed.

(** [IsValidProofState] accepts what the full node proves. *)
Lemma proof_state_accepts leaf live s i :
  full_ok s -> 1 <= i < s_Height s -> s_Height s - 1 <= 2 ^ 63 -> (forall j, bytes_n 32 (leaf j)) ->
  s_Definition s = h2 (root_hash h2 zhash leaf (s_Height s - 1)) live ->
  exists p, get_Proof h2 zhash (Fly_load h2 leaf) AppendNode_hard (s_Height s - 1) [] (i - 1) = (p, true) /\
    IsValidProofState sha256 s (mkHH (leaf (i - 1)) i) (p ++ [live]) = true.
Proof.
  intros Hs Hi Hm Hleaf Hdef.
  destruct (honest_fold leaf (s_Height s - 1) (i - 1) [live]) as (p & Hp & Hf & _); [lia..|done|].
  exists p. split; [exact Hp|]. apply IsValidProofState_spec; [done|]. cbn [hh_Height hh_Hash].
  unfold HeightGenesis. split; [lia|]. eexists _, live. split; [exact Hf|done].
Qed.

(** The messages that are hashed to check a proof for leaf [i] of [m], the hash of the UTXO set included,
    and the proof of a full node. *)
Definition state_msgs (m i : Z) (hv : list Z) (proof : list (list Z)) : list (list Z) := pair_msg <$> fold_hashed h2 hv (dirs m i ++ [true]) proof.
Definition full_proof (leaf : Z -> list Z) (live : list Z) (m i : Z) : list (list Z) :=
  (get_Proof h2 zhash (Fly_load h2 leaf) AppendNode_hard m [] i).1 ++ [live].

Lemma fold_dirs_snoc hv ds p x live : fold_dirs h2 hv ds p = Some (x, [live]) -> fold_dirs h2 hv (ds ++ [true]) p = Some (h2 x live, []).
Proof.
  revert hv p. induction ds as [|d ds IH]; intros hv p E; simpl in E |- *; [by simplify_eq|]. destruct p as [|y p]; [done|]. by apply IH.
Qed.

Lemma fold_hashed_snoc hv ds p x live : fold_dirs h2 hv ds p = Some (x, []) -> fold_hashed h2 hv (ds ++ [true]) (p ++ [live]) = fold_hashed h2 hv ds p ++ [(x, live)].
Proof.
  revert hv p. induction ds as [|d ds IH]; intros hv p E; simpl in E; [by simplify_eq|]. destruct p as [|y p]; [done|]. cbn [app fold_hashed]. by rewrite IH.
Qed.

(** ... and nothing else, short of a collision between what is hashed for it and for the proof of a full node. *)
Lemma proof_state_binds leaf live s id proof :
  full_ok s -> s_Height s - 1 <= 2 ^ 63 -> (forall j, bytes_n 32 (leaf j)) -> bytes_n 32 live ->
  s_Definition s = h2 (root_hash h2 zhash leaf (s_Height s - 1)) live ->
  bytes_n 32 (hh_Hash id) -> Forall (bytes_n 32) proof ->
  IsValidProofState sha256 s id proof = true ->
  let m := s_Height s - 1 in let i := hh_Height id - 1 in
  HeightGenesis <= hh_Height id < s_Height s /\
  (hh_Hash id = leaf i \/ sha_collision (state_msgs m i (hh_Hash id) proof ++ state_msgs m i (leaf i) (full_proof leaf live m i))).
Proof.
  intros Hs Hm Hleaf Hlive Hdef Hid Hproof Hv m i. apply IsValidProofState_spec in Hv as (Hh & x & live' & Hf & Hx); [|done].
  split; [done|]. unfold HeightGenesis in Hh.
  destruct (honest_fold leaf (s_Height s - 1) (hh_Height id - 1) [live]) as (p & Ep & Hg & Hp); [lia..|done|].
  assert (full_proof leaf live m i = p ++ [live]) as -> by (unfold full_proof, m, i; by rewrite Ep).
  apply fold_dirs_snoc in Hf, Hg. rewrite Hx in Hf. rewrite <- Hdef in Hg.
  destruct (fold_dirs_inj h2 _ _ _ _ _ _ _ Hf Hg) as [[E _]|Hc]; [by left|right].
  apply collision_sha in Hc; [done|apply fold_hashed_ok; [intros; apply sha256_size|done|done]|apply fold_hashed_ok; [intros; apply sha256_size|apply Hleaf|]].
  apply Forall_app. split; [done|]. by constructor.
Qed.
End proofs.

(** ** The chain of headers *)
Section chain.
Context (sha256 : list Z -> list Z) (r : Rules) (IsValidSolution : list Z -> list Z -> list Z -> bool).
Context (sha256_size : forall l, bytes_n 32 (sha256 l)).

Abbreviation h2 := (hash2 sha256).

Lemma Interpret_ok hv p : bytes_n 32 hv -> bytes_n 32 (Interpret h2 hv p).
Proof.
  unfold Interpret. revert hv. induction p as [|[[|] x] p IH]; intros hv Hv; [done|apply IH, sha256_size..].
Qed.

Lemma get_Hash_ok s : bytes_n 32 (Prehistoric r) -> bytes_n 32 (get_Hash sha256 r s).
Proof. intros H. unfold get_Hash, get_HashInternal. destruct (HeightGenesis <=? s_Height s); [apply sha256_size|done]. Qed.

(** From the genesis on the hash determines the header. *)
Lemma get_Hash_binds a b :
  full_ok a -> full_ok b -> HeightGenesis <= s_Height a -> HeightGenesis <= s_Height b ->
  get_Hash sha256 r a = get_Hash sha256 r b -> a = b \/ sha_collision sha256 [header_bytes a true; header_bytes b true].
Proof.
  intros Ha Hb Ga Gb E. unfold get_Hash, get_HashInternal in E.
  rewrite !(proj2 (Z.leb_le HeightGenesis _)) in E by lia.
  destruct (decide (header_bytes a true = header_bytes b true)) as [E'|Hne].
  - left. by apply header_bytes_inj.
  - right. exists (header_bytes a true), (header_bytes b true). split_and!; [left|right; left|done|done].
Qed.

Lemma IsNext_spec s sNext :
  bytes_n 32 (Prehistoric r) -> bytes_n 32 (s_Prev sNext) ->
  IsNext sha256 r s sNext = true <->
  u64 (s_Height s + 1) = s_Height sNext /\ s_Prev sNext = get_Hash sha256 r s.
Proof.
  intros Hr Hn. unfold IsNext. rewrite <- Z.eqb_eq.
  destruct (u64 (s_Height s + 1) =? s_Height sNext); cbn [negb]; [|split; [done|intros [? _]; done]].
  rewrite (Cmp0_eq 32) by (done || by apply get_Hash_ok). split; [done|intros [_ ?]; done].
Qed.

(** What is hashed to check a kernel proof against the tip of a chain, and the same for the header of the chain at its height. *)
Definition kernel_proof_msgs (st : Z -> Full) (H : Z) (live : list Z) (proof : LongProof) : list (list Z) :=
  let h := s_Height (m_State proof) in let leaf j := get_Hash sha256 r (st (j + 1)) in
  [header_bytes (m_State proof) true; header_bytes (st h) true] ++
  state_msgs sha256 (H - 1) (h - 1) (get_Hash sha256 r (m_State proof)) (m_Outer proof) ++
  state_msgs sha256 (H - 1) (h - 1) (leaf (h - 1)) (full_proof sha256 leaf live (H - 1) (h - 1)).

(** The kernel proof names a state of the chain, and the kernel is under its
    kernel root. *)
Lemma kernel_proof_binds (st : Z -> Full) H live hvID proof :
  bytes_n 32 (Prehistoric r) ->
  (forall h, HeightGenesis <= h <= H -> full_ok (st h) /\ s_Height (st h) = h) ->
  HeightGenesis <= H <= 2 ^ 63 -> bytes_n 32 live ->
  s_Definition (st H)
    = h2 (root_hash h2 zhash (fun j => get_Hash sha256 r (st (j + 1))) (H - 1)) live ->
  full_ok (m_State proof) -> Forall (bytes_n 32) (m_Outer proof) ->
  bytes_n 32 hvID ->
  IsValidProofKernel sha256 r IsValidSolution (st H) hvID proof = true ->
  let h := s_Height (m_State proof) in
  HeightGenesis <= h <= H /\
  ((m_State proof = st h /\ Interpret h2 hvID (m_Inner proof) = s_Kernels (st h))
   \/ sha_collision sha256 (kernel_proof_msgs st H live proof)).
Proof.
  intros Hr Hst HH Hlive Hdef Hs Hout Hid Hv h. destruct (Hst H ltac:(lia)) as [Hok Hh].
  unfold IsValidProofKernel in Hv.
  destruct (IsValid _ _ _ _) eqn:Hvalid; [|done]. cbn [negb] in Hv.
  apply andb_true_iff in Hvalid as [Hsane _]. unfold IsSane in Hsane.
  destruct (Z.ltb_spec (s_Height (m_State proof)) HeightGenesis) as [|Hgen]; [done|].
  destruct (_Cmp (Interpret _ _ _) _ =? 0) eqn:Hk; [|done]. cbn [negb] in Hv.
  apply (Cmp0_eq 32) in Hk; [|by apply Interpret_ok|apply Hs].
  destruct (Full_cmp (m_State proof) (st H) =? 0) eqn:Hc.
  - apply Z.eqb_eq, (co_eq _ _ cmp_order_Full) in Hc; [|done..].
    subst h. rewrite Hc, Hh in *. split; [lia|]. left. split; [done|]. exact Hk.
  - destruct (Z.ltb_spec (s_Height (st H)) (s_Height (m_State proof))); [done|].
    destruct (proof_state_binds sha256 sha256_size (fun j => get_Hash sha256 r (st (j + 1))) live (st H) (get_ID sha256 r (m_State proof)) (m_Outer proof)
      Hok ltac:(lia) (fun j => get_Hash_ok _ Hr) Hlive ltac:(by rewrite Hh) (get_Hash_ok _ Hr) Hout Hv) as [Hr' Hb].
    cbn [hh_Height get_ID] in Hr', Hb. fold h in Hr', Hb, Hgen. split; [lia|]. rewrite Hh in Hb.
    destruct Hb as [E|Hb]; [|right; eapply sha_collision_mono; [|exact Hb]; unfold kernel_proof_msgs; by apply list_subseteq_app_r].
    cbn [hh_Hash get_ID] in E. rewrite Z.sub_add in E. destruct (Hst h ltac:(lia)) as [Hoh Hhh].
    destruct (get_Hash_binds (m_State proof) (st h)) as [E'|Hb]; [done|done|done|lia|done| |right; eapply sha_collision_mono; [|exact Hb]; by apply list_subseteq_app_l].
    left. split; [exact E'|]. by rewrite Hk, E'.
Qed.
End chain.

(** ** Claims on headers *)

(** A header with the given height, previous hash and definition, and a
    stand-in for the hash (its input as a number, cut to 32 bytes). *)
Definition demo_hash (l : list Z) : list Z := be_bytes 32 (be_val l).
Definition demo_state (h : Z) (prev def : list Z) : Full :=
  mkFull h prev zhash zhash def 0 (mkPoW (replicate nSolutionBytes 0) (replicate 8 0) 0).

Lemma demo_hash_size l : bytes_n 32 (demo_hash l).
Proof. split; [apply bytes_ok_be_bytes|apply length_be_bytes]. Qed.

Lemma prehistoric_ok : bytes_n 32 (Prehistoric default_Rules).
Proof. split; [|done]. cbn. repeat (constructor; [unfold byte_ok; lia|]). constructor. Qed.

Lemma demo_state_ok h prev def : 0 <= h < 2 ^ 64 -> bytes_n 32 prev -> bytes_n 32 def -> full_ok (demo_state h prev def).
Proof.
  intros Hh Hp Hd. unfold full_ok, pow_ok, in_width, demo_state.
  cbn [s_Height s_Prev s_ChainWork s_Kernels s_Definition s_TimeStamp s_PoW m_Indices m_Nonce m_Difficulty].
  split_and!; try apply zhash_ok; try (split; [apply bytes_ok_zeros|done]); done || lia.
Qed.

(** A header determines the whole header before it. If two well-formed
    headers [a] and [a'] (at the genesis height or above) both are followed by
    the header [b] in the sense of [Full::IsNext], then they are the same
    header, if the hash function has no collision between the two. *)
Theorem header_link_binding (sha256 : list Z -> list Z) r a a' b :
  (forall l, bytes_n 32 (sha256 l)) -> bytes_n 32 (Prehistoric r) -> no_collision sha256 [header_bytes a true; header_bytes a' true] ->
  full_ok a -> full_ok a' -> full_ok b ->
  HeightGenesis <= s_Height a -> HeightGenesis <= s_Height a' ->
  IsNext sha256 r a b = true -> IsNext sha256 r a' b = true ->
  a = a'.
Proof.
  intros Hsz Hr Hnc Ha Ha' Hb Ga Ga' H1 H2.
  apply IsNext_spec in H1 as [_ E1]; [|done..|apply Hb]. apply IsNext_spec in H2 as [_ E2]; [|done..|apply Hb].
  destruct (get_Hash_binds sha256 r a a') as [|Hc]; [done|done|done|done|congruence|done|]. by destruct (no_collision_false _ _ Hnc Hc).
Qed.

Lemma header_link_binding_witness :
  let a := demo_state 1 (Prehistoric default_Rules) zhash in
  let b := demo_state 2 (get_Hash demo_hash default_Rules a) zhash in
  IsNext demo_hash default_Rules a b = true /\ a = a.
Proof.
  cbv zeta. split; [vm_compute; reflexivity|].
  apply (header_link_binding demo_hash default_Rules _ _
    (demo_state 2 (get_Hash demo_hash default_Rules (demo_state 1 (Prehistoric default_Rules) zhash)) zhash));
    [apply demo_hash_size|apply prehistoric_ok|intros x y [->|[->|[]%elem_of_nil]%elem_of_cons]%elem_of_cons [->|[->|[]%elem_of_nil]%elem_of_cons]%elem_of_cons _; done
    |apply demo_state_ok; [lia|apply prehistoric_ok|apply zhash_ok]..| |vm_compute; discriminate|vm_compute; discriminate|vm_compute; reflexivity|vm_compute; reflexivity].
  apply demo_state_ok; [lia|apply demo_hash_size|apply zhash_ok].
Defined.

(** A chain of two headers; the second commits to the history of the first. *)
Definition demo_live : list Z := be_bytes 32 7.
Definition demo_1 : Full := demo_state 1 (Prehistoric default_Rules) zhash.
Definition demo_2 : Full :=
  demo_state 2 (get_Hash demo_hash default_Rules demo_1)
    (hash2 demo_hash (get_Hash demo_hash default_Rules demo_1) demo_live).
Definition demo_chain (h : Z) : Full := if h =? 1 then demo_1 else demo_2.

Lemma demo_live_ok : bytes_n 32 demo_live.
Proof. split; [apply bytes_ok_be_bytes|done]. Qed.

Lemma demo_chain_ok h : 1 <= h <= 2 -> full_ok (demo_chain h) /\ s_Height (demo_chain h) = h.
Proof.
  intros Hh. unfold demo_chain. destruct (Z.eqb_spec h 1) as [->|].
  - split; [|done]. apply demo_state_ok; [lia|apply prehistoric_ok|apply zhash_ok].
  - assert (h = 2) as -> by lia. split; [|done]. apply demo_state_ok; [lia| |].
    + apply get_Hash_ok; [apply demo_hash_size|apply prehistoric_ok].
    + unfold hash2. apply demo_hash_size.
Qed.

(** The light client accepts every honest history proof. When the
    [Definition] of a header [s] is the hash of the MMR root over the hashes of
    all earlier headers ([leaf j] is the hash of the header at height [j+1])
    and of the hash of the UTXO set, then [Mmr::get_Proof] succeeds for every
    height [i] below [s] and [Full::IsValidProofState] accepts its hard proof
    followed by the UTXO hash. *)
Theorem proof_state_complete (sha256 : list Z -> list Z) leaf live s i :
  (forall l, bytes_n 32 (sha256 l)) -> full_ok s -> 1 <= i < s_Height s -> s_Height s - 1 <= 2 ^ 63 ->
  (forall j, bytes_n 32 (leaf j)) ->
  s_Definition s = hash2 sha256 (root_hash (hash2 sha256) zhash leaf (s_Height s - 1)) live ->
  exists p, get_Proof (hash2 sha256) zhash (Fly_load (hash2 sha256) leaf) AppendNode_hard
              (s_Height s - 1) [] (i - 1) = (p, true) /\
    IsValidProofState sha256 s (mkHH (leaf (i - 1)) i) (p ++ [live]) = true.
Proof. intros Hsz. by apply proof_state_accepts. Qed.

Lemma proof_state_complete_witness :
  exists p, get_Proof (hash2 demo_hash) zhash
      (Fly_load (hash2 demo_hash) (fun _ => get_Hash demo_hash default_Rules demo_1)) AppendNode_hard 1 [] 0
    = (p, true) /\
    IsValidProofState demo_hash demo_2 (mkHH (get_Hash demo_hash default_Rules demo_1) 1) (p ++ [demo_live]) = true.
Proof.
  apply (proof_state_complete demo_hash (fun _ => get_Hash demo_hash default_Rules demo_1) demo_live demo_2 1).
  - apply demo_hash_size.
  - apply (demo_chain_ok 2). lia.
  - cbn. lia.
  - cbn. lia.
  - intros _. apply demo_hash_size.
  - vm_compute. reflexivity.
Defined.

(** The light client accepts no dishonest history proof. If
    [Full::IsValidProofState] accepts any proof for an id against such a
    header, then the id's height is that of an earlier header and its hash is
    the one of the chain at that height, if the hash has no collision among
    what is hashed to check this proof and the one of a full node. *)
Theorem proof_state_sound (sha256 : list Z -> list Z) leaf live s id proof :
  (forall l, bytes_n 32 (sha256 l)) -> full_ok s -> s_Height s - 1 <= 2 ^ 63 ->
  (forall j, bytes_n 32 (leaf j)) -> bytes_n 32 live ->
  s_Definition s = hash2 sha256 (root_hash (hash2 sha256) zhash leaf (s_Height s - 1)) live ->
  bytes_n 32 (hh_Hash id) -> Forall (bytes_n 32) proof ->
  let m := s_Height s - 1 in let i := hh_Height id - 1 in
  no_collision sha256 (state_msgs sha256 m i (hh_Hash id) proof ++ state_msgs sha256 m i (leaf i) (full_proof sha256 leaf live m i)) ->
  IsValidProofState sha256 s id proof = true ->
  HeightGenesis <= hh_Height id < s_Height s /\ hh_Hash id = leaf i.
Proof.
  intros Hsz Hs Hm Hl Hlv Hd Hid Hp m i Hnc Hv. destruct (proof_state_binds sha256 Hsz leaf live s id proof Hs Hm Hl Hlv Hd Hid Hp Hv) as [H [|Hc]]; [done|]. by destruct (no_collision_false _ _ Hnc Hc).
Qed.

Lemma proof_state_sound_witness :
  IsValidProofState demo_hash demo_2 (get_ID demo_hash default_Rules demo_1) [demo_live] = true /\
  HeightGenesis <= 1 < 2 /\ get_Hash demo_hash default_Rules demo_1 = get_Hash demo_hash default_Rules demo_1.
Proof.
  assert (IsValidProofState demo_hash demo_2 (get_ID demo_hash default_Rules demo_1) [demo_live] = true) as Hv
    by (vm_compute; reflexivity).
  split; [exact Hv|].
  apply (proof_state_sound demo_hash (fun _ => get_Hash demo_hash default_Rules demo_1) demo_live demo_2
           (get_ID demo_hash default_Rules demo_1) [demo_live]).
  - apply demo_hash_size.
  - apply (demo_chain_ok 2). lia.
  - cbn. lia.
  - intros _. apply demo_hash_size.
  - apply demo_live_ok.
  - vm_compute. reflexivity.
  - apply demo_hash_size.
  - constructor; [apply demo_live_ok|constructor].
  - apply no_collision_dec. vm_compute. reflexivity.
  - exact Hv.
Defined.

(** C20: Kernel proofs are sound end to end. Let [st] be a chain of headers up
    to the tip [st H], whose [Definition] commits to the hashes of the earlier
    ones. If [Full::IsValidProofKernel] of the tip accepts a [LongProof] for a
    kernel id, then the state inside the proof is the header of the chain at
    its height and the kernel id is under that header's kernel root. What is assumed of SHA-256 is
    that it has no collision among the messages of [kernel_proof_msgs]: the two headers, and what is
    hashed to check the outer proof and that of a full node for this height. *)
Theorem kernel_proof_sound (sha256 : list Z -> list Z) r IsValidSolution (st : Z -> Full) H live hvID proof :
  (forall l, bytes_n 32 (sha256 l)) -> bytes_n 32 (Prehistoric r) ->
  (forall h, HeightGenesis <= h <= H -> full_ok (st h) /\ s_Height (st h) = h) ->
  HeightGenesis <= H <= 2 ^ 63 -> bytes_n 32 live ->
  s_Definition (st H) = hash2 sha256
    (root_hash (hash2 sha256) zhash (fun j => get_Hash sha256 r (st (j + 1))) (H - 1)) live ->
  full_ok (m_State proof) -> Forall (bytes_n 32) (m_Outer proof) -> bytes_n 32 hvID ->
  no_collision sha256 (kernel_proof_msgs sha256 r st H live proof) ->
  IsValidProofKernel sha256 r IsValidSolution (st H) hvID proof = true ->
  let h := s_Height (m_State proof) in
  HeightGenesis <= h <= H /\ m_State proof = st h /\ Interpret (hash2 sha256) hvID (m_Inner proof) = s_Kernels (st h).
Proof.
  intros Hsz Hr Hst HH Hlv Hd Hs Ho Hid Hnc Hv h. destruct (kernel_proof_binds sha256 r IsValidSolution Hsz st H live hvID proof Hr Hst HH Hlv Hd Hs Ho Hid Hv) as [Hh [|Hc]]; [done|]. by destruct (no_collision_false _ _ Hnc Hc).
Qed.

(** A kernel with a sibling in the block at height 1, in a chain of three headers. *)
Definition demo_kernel : list Z := be_bytes 32 11.
Definition demo_sibling : list Z := be_bytes 32 12.
Definition sum_hash (l : list Z) : list Z := be_bytes 32 (foldl (fun a b => (a * 257 + b + 1) mod (2 ^ 61 - 1)) 7 l).
Definition demo_header (h : Z) (prev kernels def : list Z) : Full :=
  mkFull h prev zhash kernels def 0 (mkPoW (replicate nSolutionBytes 0) (replicate 8 0) 0).
Abbreviation sum_id := (get_Hash sum_hash default_Rules).
Definition chain_1 : Full := Eval vm_compute in demo_header 1 (Prehistoric default_Rules) (hash2 sum_hash demo_kernel demo_sibling) zhash.
Definition chain_2 : Full := Eval vm_compute in demo_header 2 (sum_id chain_1) zhash (hash2 sum_hash (sum_id chain_1) demo_live).
Definition chain_3 : Full := Eval vm_compute in demo_header 3 (sum_id chain_2) zhash (hash2 sum_hash (hash2 sum_hash (sum_id chain_1) (sum_id chain_2)) demo_live).
Definition chain_st (h : Z) : Full := if h =? 1 then chain_1 else if h =? 2 then chain_2 else chain_3.
Definition demo_long : LongProof := mkLong [(true, demo_sibling)] chain_1 [sum_id chain_2; demo_live].

Lemma bytes_n_dec n l : forallb (fun b => (0 <=? b) && (b <? 256)) l && (length l =? n)%nat = true -> bytes_n n l.
Proof.
  intros [Hb Hl%Nat.eqb_eq]%andb_true_iff. split; [|done]. apply Forall_forall. intros x Hx.
  rewrite forallb_forall in Hb. apply list_elem_of_In in Hx. apply Hb in Hx. unfold byte_ok. lia.
Qed.

Lemma sum_hash_size l : bytes_n 32 (sum_hash l).
Proof. split; [apply bytes_ok_be_bytes|apply length_be_bytes]. Qed.

Lemma chain_st_ok h : HeightGenesis <= h <= 3 -> full_ok (chain_st h) /\ s_Height (chain_st h) = h.
Proof.
  unfold HeightGenesis. intros Hh. assert (h = 1 \/ h = 2 \/ h = 3) as [->|[->| ->]] by lia; (split; [|reflexivity]); unfold full_ok, pow_ok, in_width;
    split_and!; try (apply bytes_n_dec; vm_compute; reflexivity); vm_compute; congruence.
Qed.

Lemma kernel_proof_sound_witness :
  IsValidProofKernel sum_hash default_Rules (fun _ _ _ => true) chain_3 demo_kernel demo_long = true /\
  HeightGenesis <= 1 <= 3 /\ chain_1 = chain_st 1 /\ Interpret (hash2 sum_hash) demo_kernel [(true, demo_sibling)] = s_Kernels chain_1.
Proof.
  assert (IsValidProofKernel sum_hash default_Rules (fun _ _ _ => true) chain_3 demo_kernel demo_long = true) as Hv by (vm_compute; reflexivity).
  split; [exact Hv|]. apply (kernel_proof_sound sum_hash default_Rules (fun _ _ _ => true) chain_st 3 demo_live demo_kernel demo_long).
  - apply sum_hash_size.
  - apply prehistoric_ok.
  - apply chain_st_ok.
  - unfold HeightGenesis. lia.
  - apply demo_live_ok.
  - vm_compute. reflexivity.
  - apply (chain_st_ok 1). unfold HeightGenesis. lia.
  - constructor; [|constructor; [|constructor]]; apply bytes_n_dec; vm_compute; reflexivity.
  - apply bytes_n_dec. vm_compute. reflexivity.
  - apply no_collision_dec. vm_compute. reflexivity.
  - exact Hv.
Defined.

(** [Full::cmp] is a total order on well-formed headers: antisymmetric and
    transitive, and it answers 0 exactly on equal headers, so no field is left
    out of the comparison. *)
Theorem header_cmp_order : cmp_order full_ok Full_cmp.
Proof. exact cmp_order_Full. Qed.

(** ** [HistoryMap] as a finite map *)
Definition habs (m : HistoryMap) : gmap Z Full := list_to_map m.

(** Ascending heights, each entry under its own height. *)
Definition history_ok (m : HistoryMap) : Prop :=
  StronglySorted Z.lt (fst <$> m) /\ Forall (fun e => e.1 = s_Height e.2) m.

Lemma get_At_lookup m h : get_At m h = habs m !! h.
Proof.
  induction m as [|[k x] m IH]; [done|]. cbn [get_At habs list_to_map foldr fst snd uncurry].
  destruct (Z.eqb_spec k h) as [->|]; [by rewrite lookup_insert_eq|by rewrite lookup_insert_ne].
Qed.

Lemma map_set_keys h s m k : k ∈ fst <$> map_set h s m -> k = h \/ k ∈ fst <$> m.
Proof.
  induction m as [|[j x] m IH]; cbn [map_set].
  - intros Hk. apply list_elem_of_singleton in Hk. by left.
  - destruct (h <? j); [|destruct (j <? h)]; rewrite !fmap_cons, !elem_of_cons; cbn [fst]; tauto.
Qed.

Lemma map_set_ok s m : history_ok m -> history_ok (map_set (s_Height s) s m).
Proof.
  intros [Hs Hf]. split.
  - clear Hf. induction m as [|[j x] m IH]; cbn [map_set]; [repeat constructor|].
    rewrite fmap_cons in Hs. apply StronglySorted_inv in Hs as [Hs Hj].
    destruct (Z.ltb_spec (s_Height s) j); [|destruct (Z.ltb_spec j (s_Height s))]; cbn [fmap list_fmap fst] in *.
    + constructor; [by constructor|]. constructor; [done|]. eapply Forall_impl; [exact Hj|]. intros; lia.
    + constructor; [by apply IH|]. apply Forall_forall. intros k Hk. apply map_set_keys in Hk as [->|Hk]; [done|].
      by eapply Forall_forall in Hj.
    + assert (j = s_Height s) as -> by lia. by constructor.
  - clear Hs. induction m as [|[j x] m IH]; cbn [map_set]; [by repeat constructor|].
    apply Forall_cons in Hf as [Hx Hf].
    destruct (s_Height s <? j); [|destruct (j <? s_Height s)]; repeat (constructor; try done); auto.
Qed.

Lemma map_set_insert h s m : StronglySorted Z.lt (fst <$> m) -> habs (map_set h s m) = <[h := s]> (habs m).
Proof.
  induction m as [|[j x] m IH]; intros Hs; cbn [map_set]; [done|].
  apply StronglySorted_inv in Hs as [Hs Hj].
  destruct (Z.ltb_spec h j); [done|]. destruct (Z.ltb_spec j h).
  - cbn. fold (habs (map_set h s m)). rewrite IH by done. rewrite insert_insert_ne by lia. done.
  - assert (j = h) as -> by lia. cbn. by rewrite insert_insert_eq.
Qed.

Lemma AddStates_ok pS m : history_ok m -> history_ok (AddStates m pS).
Proof. unfold AddStates. revert m. induction pS as [|s pS IH]; intros m Hm; [done|]. cbn. by apply IH, map_set_ok. Qed.

Lemma AddStates_insert pS m :
  history_ok m -> habs (AddStates m pS) = foldl (fun g s => <[s_Height s := s]> g) (habs m) pS.
Proof.
  unfold AddStates. revert m. induction pS as [|s pS IH]; intros m Hm; [done|]. cbn.
  rewrite IH by (by apply map_set_ok). by rewrite map_set_insert by apply Hm.
Qed.

(** *** Cutting a sorted list *)
Lemma filter_sorted (P : Z * Full -> Prop) `{!forall x, Decision (P x)} m : history_ok m -> history_ok (filter P m).
Proof.
  intros [Hs Hf]. split.
  - induction m as [|e m IH]; [done|]. rewrite filter_cons. apply StronglySorted_inv in Hs as [Hs Hj].
    apply Forall_cons in Hf as [_ Hf]. case_decide; [|by apply IH]. rewrite fmap_cons. constructor; [by apply IH|].
    apply Forall_forall. intros k Hk. apply list_elem_of_fmap in Hk as (e' & -> & He'). apply list_elem_of_filter in He' as [_ He'].
    eapply Forall_forall in Hj; [exact Hj|]. by apply list_elem_of_fmap_2.
  - apply Forall_forall. intros e He. apply list_elem_of_filter in He as [_ He].
    by eapply Forall_forall in Hf.
Qed.

Lemma before_lower_bound_filter m h :
  StronglySorted Z.lt (fst <$> m) -> before_lower_bound m h = filter (fun e => e.1 < h) m.
Proof.
  induction m as [|[k x] m IH]; intros Hs; [done|]. apply StronglySorted_inv in Hs as [Hs Hj].
  cbn [before_lower_bound]. rewrite filter_cons. cbn [fst]. case_decide as Hd.
  - rewrite (proj2 (Z.ltb_lt _ _)) by done. by rewrite IH.
  - rewrite (proj2 (Z.ltb_ge _ _)) by lia. symmetry. apply list_filter_none. intros e He.
    eapply Forall_forall in Hj; [|by apply list_elem_of_fmap_2]. cbn in Hj. lia.
Qed.

Lemma DeleteFrom_filter m h :
  StronglySorted Z.lt (fst <$> m) -> DeleteFrom m h = filter (fun e => e.1 < h) m.
Proof.
  unfold DeleteFrom. induction m as [|e m IH] using rev_ind; intros Hs; [done|].
  rewrite fmap_app in Hs. pose proof (StronglySorted_app_1_l _ _ _ Hs) as Hs1.
  rewrite rev_app_distr. cbn [rev app]. destruct e as [k x]. cbn [DeleteFrom_loop].
  rewrite filter_app, filter_cons, filter_nil. cbn [fst].
  destruct (Z.ltb_spec k h).
  - rewrite decide_True by done. cbn [rev]. rewrite rev_involutive. f_equal. symmetry. apply list_filter_all.
    intros e He.
    pose proof (StronglySorted_app_1_elem_of _ _ _ e.1 k Hs (list_elem_of_fmap_2 _ _ _ He) ltac:(by left)). lia.
  - rewrite decide_False by lia. rewrite app_nil_r. by apply IH.
Qed.

Lemma Shrink_loop_filter m h0 :
  StronglySorted Z.lt (fst <$> m) -> (exists e, e ∈ m /\ h0 < e.1) ->
  Shrink_loop m h0 = Some (filter (fun e => h0 < e.1) m).
Proof.
  induction m as [|[k x] m IH]; intros Hs (e & He & Hlt); [by apply not_elem_of_nil in He|].
  apply StronglySorted_inv in Hs as [Hs Hj]. cbn [Shrink_loop]. rewrite filter_cons. cbn [fst].
  destruct (Z.ltb_spec h0 k).
  - rewrite decide_True by done. do 2 f_equal. symmetry. apply list_filter_all. intros y Hy.
    eapply Forall_forall in Hj; [|by apply list_elem_of_fmap_2]. cbn in Hj. lia.
  - rewrite decide_False by lia. apply IH; [done|]. exists e. split; [|done].
    apply elem_of_cons in He as [->|He]; [cbn in Hlt; lia|done].
Qed.

Lemma get_At_filter (P : Z -> Prop) `{!forall k, Decision (P k)} m k :
  get_At (filter (fun e => P e.1) m) k = if decide (P k) then get_At m k else None.
Proof.
  induction m as [|[j x] m IH]; [by case_decide|]. rewrite filter_cons. cbn [fst get_At].
  destruct (decide (P j)) as [Hj|Hj]; cbn [get_At]; destruct (Z.eqb_spec j k) as [->|]; try exact IH.
  - by rewrite decide_True.
  - rewrite IH. by rewrite !decide_False.
Qed.

Lemma get_At_elem m k s : history_ok m -> get_At m k = Some s <-> (k, s) ∈ m.
Proof.
  intros [Hs _]. rewrite get_At_lookup. unfold habs. symmetry. apply elem_of_list_to_map.
  clear -Hs. induction m as [|e m IH]; [constructor|]. apply StronglySorted_inv in Hs as [Hs Hj].
  rewrite fmap_cons. constructor; [|by apply IH]. intros Hin. eapply Forall_forall in Hj; [|exact Hin]. lia.
Qed.

Lemma Enum_collect l acc :
  Enum_loop (fun w s => (w ++ [s], true)) acc l = (acc ++ (snd <$> l), true).
Proof.
  revert acc. induction l as [|[k s] l IH]; intros acc; cbn [Enum_loop]; [by rewrite app_nil_r|].
  rewrite IH, fmap_cons. by rewrite <- app_assoc.
Qed.

Lemma rev_descending m : history_ok m -> StronglySorted Z.gt (s_Height <$> (snd <$> rev m)).
Proof.
  intros [Hs Hf]. induction m as [|e m IH]; [constructor|]. apply StronglySorted_inv in Hs as [Hs Hj].
  apply Forall_cons in Hf as [He Hf]. cbn [rev]. rewrite !fmap_app. apply StronglySorted_app_2.
  - intros x1 x2 Hx1 Hx2. apply list_elem_of_singleton in Hx2 as ->.
    apply list_elem_of_fmap in Hx1 as (s & -> & Hx1). apply list_elem_of_fmap in Hx1 as (e' & -> & Hx1).
    apply list_elem_of_In, in_rev, list_elem_of_In in Hx1.
    pose proof (proj1 (Forall_forall _ _) Hf e' Hx1) as He'. cbn in He'.
    pose proof (proj1 (Forall_forall _ _) Hj e'.1 (list_elem_of_fmap_2 _ _ _ Hx1)). lia.
  - by apply IH.
  - repeat constructor.
Qed.

(** [HistoryMap] is a map from heights to headers. From a history in
    which each entry is under its header's height, [AddStates] inserts the
    given headers one after the other (a later one replaces an earlier one of
    the same height), [DeleteFrom h] removes exactly the heights from [h] on,
    [get_At] reads the result, and the entries stay in ascending order under
    their own heights. *)
Theorem history_map_ops m pS h :
  history_ok m ->
  history_ok (AddStates m pS) /\ history_ok (DeleteFrom m h) /\
  (forall k, get_At (AddStates m pS) k
     = foldl (fun g s => <[s_Height s := s]> g) (habs m) pS !! k) /\
  (forall k, get_At (DeleteFrom m h) k = if k <? h then get_At m k else None).
Proof.
  intros Hm. split_and!.
  - by apply AddStates_ok.
  - rewrite DeleteFrom_filter by apply Hm. by apply filter_sorted.
  - intros k. by rewrite get_At_lookup, AddStates_insert.
  - intros k. rewrite DeleteFrom_filter by apply Hm. etransitivity; [apply (@get_At_filter (fun j => j < h) (fun j => decide_rel Z.lt j h))|].
    destruct (Z.ltb_spec k h); [by rewrite decide_True|by rewrite decide_False by lia].
Qed.

Lemma history_map_ops_witness :
  let m := [(1, demo_1)] in
  history_ok (AddStates m [demo_2]) /\ history_ok (DeleteFrom m 1) /\
  (forall k, get_At (AddStates m [demo_2]) k
     = foldl (fun g s => <[s_Height s := s]> g) (habs m) [demo_2] !! k) /\
  (forall k, get_At (DeleteFrom m 1) k = if k <? 1 then get_At m k else None).
Proof. cbv zeta. apply (history_map_ops [(1, demo_1)] [demo_2] 1). by repeat constructor. Defined.

(** [HistoryMap::ShrinkToWindow dh], for a window of at least one height,
    keeps exactly the headers of the last [dh] heights below and including the
    tip's. With an empty window and a tip above height 0 its loop erases every
    entry and runs past the end of the map. *)
Theorem history_window m h s :
  history_ok m -> last m = Some (h, s) ->
  (forall dh, 0 < dh -> exists m', ShrinkToWindow m dh = Some m' /\ history_ok m' /\
     forall k, get_At m' k = if k <=? h - dh then (if h <=? dh then get_At m k else None) else get_At m k) /\
  (0 < h -> ShrinkToWindow m 0 = None).
Proof.
  intros Hm Hl. unfold ShrinkToWindow. rewrite Hl. apply last_Some in Hl as [m0 ->]. split.
  - intros dh Hdh. destruct (Z.leb_spec h dh).
    + eexists. split_and!; [done|done|]. intros k. by destruct (k <=? h - dh).
    + rewrite Shrink_loop_filter.
      * eexists. split_and!; [done|by apply filter_sorted|]. intros k.
        etransitivity; [apply (@get_At_filter (fun j => h - dh < j) (fun j => decide_rel Z.lt (h - dh) j))|].
        destruct (Z.leb_spec k (h - dh)); [by rewrite decide_False by lia|by rewrite decide_True].
      * apply Hm.
      * exists (h, s). split; [|cbn; lia]. apply elem_of_app. right. by left.
  - intros Hh. rewrite (proj2 (Z.leb_gt _ _)) by done. rewrite Z.sub_0_r. destruct Hm as [Hs _].
    rewrite fmap_app in Hs. induction m0 as [|[k x] m0 IH]; cbn [app Shrink_loop].
    + by rewrite (proj2 (Z.ltb_ge h h)) by lia.
    + apply StronglySorted_inv in Hs as [Hs Hj]. rewrite (proj2 (Z.ltb_ge h k)); [by apply IH|].
      eapply Forall_forall in Hj; [|apply elem_of_app; right; by left]. cbn in Hj. lia.
Qed.

Lemma history_window_witness :
  let m := [(1, demo_1); (2, demo_2)] in
  (forall dh, 0 < dh -> exists m', ShrinkToWindow m dh = Some m' /\ history_ok m' /\
     forall k, get_At m' k = if k <=? 2 - dh then (if 2 <=? dh then get_At m k else None) else get_At m k) /\
  (0 < 2 -> ShrinkToWindow m 0 = None).
Proof. cbv zeta. apply (history_window _ 2 demo_2); [|reflexivity]. by repeat constructor. Defined.

(** [HistoryMap::Enum] with a bound visits exactly the stored headers
    below it, from the highest down, and [get_Tip] answers the header of the
    greatest height (nothing for an empty history). *)
Theorem history_enum m h :
  history_ok m ->
  (exists l, Enum (fun w s => (w ++ [s], true)) m (Some h) [] = (l, true) /\
     StronglySorted Z.gt (s_Height <$> l) /\
     forall s, s ∈ l <-> get_At m (s_Height s) = Some s /\ s_Height s < h) /\
  get_Tip m = snd <$> last m.
Proof.
  intros Hm. split.
  - unfold Enum. rewrite before_lower_bound_filter by apply Hm. rewrite Enum_collect. eexists. split_and!; [done|..].
    + cbn [app]. by apply rev_descending, filter_sorted.
    + intros s. cbn [app]. rewrite list_elem_of_fmap, (get_At_elem m) by done. split.
      * intros ([k s'] & -> & Hin). apply list_elem_of_In, in_rev, list_elem_of_In in Hin.
        apply list_elem_of_filter in Hin as [Hk Hin]. cbn in *.
        pose proof (proj1 (Forall_forall _ _) (proj2 Hm) _ Hin) as E. cbn in E. by subst.
      * intros [Hin Hh]. exists (s_Height s, s). split; [done|].
        apply list_elem_of_In. apply -> in_rev. apply list_elem_of_In, list_elem_of_filter. done.
  - unfold get_Tip, Enum. destruct (last m) as [[k s]|] eqn:Hl.
    + apply last_Some in Hl as [m0 ->]. rewrite rev_app_distr. done.
    + by apply last_None in Hl as ->.
Qed.

Lemma history_enum_witness :
  let m := [(1, demo_1); (2, demo_2)] in
  (exists l, Enum (fun w s => (w ++ [s], true)) m (Some 2) [] = (l, true) /\
     StronglySorted Z.gt (s_Height <$> l) /\
     forall s, s ∈ l <-> get_At m (s_Height s) = Some s /\ s_Height s < 2) /\
  get_Tip m = snd <$> last m.
Proof. cbv zeta. apply (history_enum [(1, demo_1); (2, demo_2)] 2). by repeat constructor. Defined.

(** ** Mining *)
Section mining.
Context (sha256 : list Z -> list Z) (r : Rules) (IsValidSolution : list Z -> list Z -> list Z -> bool).
Context (OptimisedSolve : nat -> list Z -> list Z -> option (list (list Z))) (fnCancel : nat -> bool).

Definition nonce_at (nonce : list Z) (i : nat) : list Z := Nat.iter i (fun x => (_Inc x).1) nonce.

(** Round [i] finds nothing and is not cancelled. *)
Definition round_fails (inp : list Z) (p : PoW) (i : nat) : Prop :=
  exists sols, OptimisedSolve i inp (nonce_at (m_Nonce p) i) = Some sols /\
    Forall (fun sol => TestDifficulty sha256 sol (m_Difficulty p) = false) sols /\ fnCancel i = false.

Lemma find_none_iff {A} (f : A -> bool) l : List.find f l = None <-> Forall (fun x => f x = false) l.
Proof.
  induction l as [|x l IH]; cbn; [done|]. rewrite Forall_cons. destruct (f x); [|tauto].
  split; [done|intros [? _]; done].
Qed.

Lemma Solve_rounds inp p k j :
  (forall i, (j <= i < j + k)%nat -> round_fails inp (mkPoW (m_Indices p) (m_Nonce p) (m_Difficulty p)) i) ->
  forall fuel,
  Solve sha256 OptimisedSolve fnCancel (k + fuel) j
      (mkPoW (m_Indices p) (nonce_at (m_Nonce p) j) (m_Difficulty p)) inp
    = Solve sha256 OptimisedSolve fnCancel fuel (j + k)
        (mkPoW (m_Indices p) (nonce_at (m_Nonce p) (j + k)) (m_Difficulty p)) inp.
Proof.
  revert j. induction k as [|k IH]; intros j Hr fuel; [by rewrite Nat.add_0_r|].
  destruct (Hr j ltac:(lia)) as (sols & E & Hf & Hc). cbn [Nat.add Solve m_Nonce m_Difficulty m_Indices] in *.
  rewrite E, (proj2 (find_none_iff _ _)), Hc by done.
  rewrite <- Nat.add_succ_comm. apply (IH (S j)). intros i Hi. apply Hr. lia.
Qed.

Lemma nonce_at_val nonce i : bytes_ok nonce ->
  bytes_ok (nonce_at nonce i) /\ length (nonce_at nonce i) = length nonce /\
  be_val (nonce_at nonce i) = (be_val nonce + Z.of_nat i) mod radix (length nonce).
Proof.
  intros Hb. induction i as [|i (IH1 & IH2 & IH3)].
  - split_and!; [done|done|]. cbn. rewrite Z.add_0_r, Z.mod_small; [done|by apply be_val_bound].
  - change (nonce_at nonce (S i)) with (_Inc (nonce_at nonce i)).1.
    pose proof (_Inc_spec _ IH1) as H. destruct (_Inc _) as [x c]. destruct H as (Hx & Hl & Hc & Hv). cbn [fst].
    rewrite IH2 in *. split_and!; [done|done|].
    pose proof (be_val_bound x Hx) as Hbx. rewrite Hl in Hbx.
    rewrite Nat2Z.inj_succ, <- Z.add_1_r, Z.add_assoc, <- Z.add_mod_idemp_l, <- IH3, <- Hv by lia.
    rewrite Z.mod_add by lia. by rewrite Z.mod_small.
Qed.

Lemma find_some_spec {A} (f : A -> bool) l x : List.find f l = Some x -> x ∈ l /\ f x = true.
Proof. intros H. apply find_some in H as [H1 H2]. split; [by apply list_elem_of_In|done]. Qed.

(** Mining finds the first good nonce, and the header it returns is valid.
    If the rounds before [k] report no solution that meets the difficulty and
    are not cancelled, and round [k] reports [sols], of which [sol] is the
    first one to meet it, then [GeneratePoW] returns (with fuel for [k + 1]
    rounds or more) the header with only the proof of work changed: its nonce
    is the initial one plus [k] modulo 2^64, its solution is [sol], and, when
    the solver reports only valid Equihash solutions, [IsValidPoW] accepts it.
    The fields that enter the hash for the proof of work are untouched. *)
Theorem pow_generate s k sols sol fuel :
  (forall i inp nonce l x, OptimisedSolve i inp nonce = Some l -> x ∈ l -> IsValidSolution inp nonce x = true) ->
  bytes_n 8 (m_Nonce (s_PoW s)) ->
  (forall i, (i < k)%nat -> round_fails (get_HashForPoW sha256 s) (s_PoW s) i) ->
  OptimisedSolve k (get_HashForPoW sha256 s) (nonce_at (m_Nonce (s_PoW s)) k) = Some sols ->
  List.find (fun x => TestDifficulty sha256 x (m_Difficulty (s_PoW s))) sols = Some sol ->
  (k < fuel)%nat ->
  exists nonce,
    let s' := mkFull (s_Height s) (s_Prev s) (s_ChainWork s) (s_Kernels s) (s_Definition s) (s_TimeStamp s)
                (mkPoW sol nonce (m_Difficulty (s_PoW s))) in
    GeneratePoW sha256 OptimisedSolve fnCancel fuel s = Some (s', true) /\
    bytes_n 8 nonce /\ be_val nonce = u64 (be_val (m_Nonce (s_PoW s)) + Z.of_nat k) /\
    get_HashForPoW sha256 s' = get_HashForPoW sha256 s /\
    IsValidPoW sha256 r IsValidSolution s' = true.
Proof.
  intros Hsolver [Hb Hl] Hfail Hk Hfind Hfuel. destruct (nonce_at_val (m_Nonce (s_PoW s)) k Hb) as (H1 & H2 & H3).
  exists (nonce_at (m_Nonce (s_PoW s)) k). cbv zeta. destruct (find_some_spec _ _ _ Hfind) as [Hin Ht]. split_and!.
  - unfold GeneratePoW. destruct (s_PoW s) as [ind non diff] eqn:Ep. replace fuel with (k + (S (fuel - k - 1)))%nat by lia.
    pose proof (Solve_rounds (get_HashForPoW sha256 s) (mkPoW ind non diff) k 0 ltac:(intros i Hi; apply Hfail; lia)) as E.
    cbn [m_Indices m_Nonce m_Difficulty nonce_at Nat.iter Nat.add] in *. rewrite E.
    cbn [Solve m_Nonce m_Difficulty m_Indices]. rewrite Hk, Hfind. done.
  - split; [done|congruence].
  - rewrite H3, Hl. done.
  - done.
  - unfold IsValidPoW, PoW_IsValid. destruct (FakePoW r); [done|]. cbn [s_PoW m_Nonce m_Indices m_Difficulty].
    rewrite Ht, andb_true_r. by eapply Hsolver.
Qed.
End mining.

Lemma pow_generate_witness :
  exists nonce,
    let s' := mkFull 1 (s_Prev demo_1) (s_ChainWork demo_1) (s_Kernels demo_1) (s_Definition demo_1) 0
                (mkPoW (replicate nSolutionBytes 5) nonce 0) in
    GeneratePoW demo_hash (fun i _ _ => Some (if (i <? 2)%nat then [] else [replicate nSolutionBytes 5])) (fun _ => false)
      7 demo_1 = Some (s', true) /\
    bytes_n 8 nonce /\ be_val nonce = u64 (be_val (m_Nonce (s_PoW demo_1)) + Z.of_nat 2) /\
    get_HashForPoW demo_hash s' = get_HashForPoW demo_hash demo_1 /\
    IsValidPoW demo_hash default_Rules (fun _ _ x => bool_decide (x = replicate nSolutionBytes 5)) s' = true.
Proof.
  apply (pow_generate demo_hash default_Rules (fun _ _ x => bool_decide (x = replicate nSolutionBytes 5))
    (fun i _ _ => Some (if (i <? 2)%nat then [] else [replicate nSolutionBytes 5])) (fun _ => false) demo_1 2
    [replicate nSolutionBytes 5] (replicate nSolutionBytes 5) 7).
  - intros i _ _ l x [= <-] Hx. destruct (i <? 2)%nat; [by apply not_elem_of_nil in Hx|].
    apply list_elem_of_singleton in Hx as ->. by apply bool_decide_eq_true.
  - split; [apply bytes_ok_zeros|done].
  - intros i Hi. exists []. rewrite (proj2 (Nat.ltb_lt i 2)) by done. done.
  - done.
  - vm_compute. reflexivity.
  - lia.
Defined.
