(* ===== verification/TxBase.v ===== *)
(** Transaction elements: [TxElement], [Input], [Output], [TxKernel],
    [TxVectors] and [TxBase] of [core/block_crypt.h] and
    [core/block_crypt.cpp].

    [TxElement::s_IgnoreMaturity], a thread-local switch, is the parameter
    [s_IgnoreMaturity].  A [std::vector] of pointers is a list; a reader is the
    streams of the elements it has not passed yet. *)

From stdpp Require Import sorting.
From S2P Require Import Prelude UintBig EccData Difficulty Merkle UtxoTree Rules.

(** ** Data *)
Record TxElement := mkElement { e_Commitment : Point; e_Maturity : Z }.

Record Input := mkInput { i_Element : TxElement; i_ID : Z }.

(** [RangeProof::Public]; [p_Recovery] is the packed [m_Recovery]. *)
Record PublicProof := mkPublic { p_Signature : Signature; p_Value : Z; p_Recovery : list Z }.

(** [o_pConfidential] is the memory image of the bulletproof. *)
Record Output := mkOutput {
  o_Element : TxElement;
  o_Coinbase : bool;
  o_RecoveryOnly : bool;
  o_Incubation : Z;
  o_AssetID : list Z;
  o_pConfidential : option (list Z);
  o_pPublic : option PublicProof
}.

Record RelativeLock := mkRelative { rl_ID : list Z; rl_LockHeight : Z }.

Set Warnings "-register-all".

(** [k_pHashLock] is the preimage. *)
Inductive TxKernel := mkKernel {
  k_Element : TxElement;
  k_Signature : Signature;
  k_Fee : Z;
  k_Height : HeightRange;
  k_AssetEmission : Z;
  k_CanEmbed : bool;
  k_pHashLock : option (list Z);
  k_pRelativeLock : option RelativeLock;
  k_vNested : list TxKernel
}.

Record TxVectors := mkVectors {
  m_vInputs : list Input; m_vOutputs : list Output; m_vKernels : list TxKernel
}.

Record Transaction := mkTransaction { t_Offset : list Z; t_Vectors : TxVectors }.

(** ** Comparisons *)
Definition RangeProof_Public_cmp (a x : PublicProof) : Z :=
  CMP_EX (Signature_cmp (p_Signature a) (p_Signature x)) (
  CMP_EX (memcmp (p_Recovery a) (p_Recovery x)) (
  CMP_SIMPLE (p_Value a) (p_Value x) 0)).

Definition HashLock_cmp (a v : list Z) : Z := CMP_EX (_Cmp a v) 0.

Definition RelativeLock_cmp (a v : RelativeLock) : Z :=
  CMP_EX (_Cmp (rl_ID a) (rl_ID v)) (CMP_SIMPLE (rl_LockHeight a) (rl_LockHeight v) 0).

(** The loop over the nested kernels: element by element, a longer list is
    greater than its prefix. *)
Section nested.
Context {A : Type} (cmp : A -> A -> Z).

Fixpoint nested_cmp (l0 l1 : list A) : Z :=
  match l0, l1 with
  | [], [] => 0
  | [], _ :: _ => -1
  | _ :: _, [] => 1
  | x :: l0, y :: l1 => CMP_EX (cmp x y) (nested_cmp l0 l1)
  end.
End nested.

Section cmp.
Context (s_IgnoreMaturity : bool).

Definition TxElement_cmp (a v : TxElement) : Z :=
  let rest := CMP_EX (Point_cmp (e_Commitment a) (e_Commitment v)) 0 in
  if negb s_IgnoreMaturity then CMP_SIMPLE (e_Maturity a) (e_Maturity v) rest else rest.

Definition Input_cmp (a v : Input) : Z := TxElement_cmp (i_Element a) (i_Element v).

Definition Output_cmp (a v : Output) : Z :=
  CMP_EX (TxElement_cmp (o_Element a) (o_Element v)) (
  CMP_SIMPLE (Z.b2z (o_Coinbase a)) (Z.b2z (o_Coinbase v)) (
  CMP_SIMPLE (Z.b2z (o_RecoveryOnly a)) (Z.b2z (o_RecoveryOnly v)) (
  CMP_SIMPLE (o_Incubation a) (o_Incubation v) (
  CMP_EX (_Cmp (o_AssetID a) (o_AssetID v)) (
  CMP_PTRS memcmp (o_pConfidential a) (o_pConfidential v) (
  CMP_PTRS RangeProof_Public_cmp (o_pPublic a) (o_pPublic v) 0)))))).

Fixpoint TxKernel_cmp (a v : TxKernel) : Z :=
  CMP_EX (TxElement_cmp (k_Element a) (k_Element v)) (
  CMP_EX (Signature_cmp (k_Signature a) (k_Signature v)) (
  CMP_SIMPLE (k_Fee a) (k_Fee v) (
  CMP_SIMPLE (m_Min (k_Height a)) (m_Min (k_Height v)) (
  CMP_SIMPLE (m_Max (k_Height a)) (m_Max (k_Height v)) (
  CMP_SIMPLE (k_AssetEmission a) (k_AssetEmission v) (
  CMP_EX (nested_cmp TxKernel_cmp (k_vNested a) (k_vNested v)) (
  CMP_PTRS HashLock_cmp (k_pHashLock a) (k_pHashLock v) (
  CMP_PTRS RelativeLock_cmp (k_pRelativeLock a) (k_pRelativeLock v) 0)))))))).

(** An input against an output: is it the output the input spends? *)
Definition CmpInOut (i : Input) (o : Output) : Z :=
  if negb (e_Maturity (i_Element i) =? 0) && negb s_IgnoreMaturity
  then TxElement_cmp (i_Element i) (o_Element o)
  else
    let n := Point_cmp (e_Commitment (i_Element i)) (e_Commitment (o_Element o)) in
    if negb (n =? 0) then n else if o_Coinbase o then 1 else 0.

(** ** [TxVectors] *)

(** [std::sort] with the [operator <] of the elements (which leaves the order
    of equal elements open; here it is kept). *)
Fixpoint sort_insert {A} (cmp : A -> A -> Z) (x : A) (l : list A) : list A :=
  match l with
  | [] => [x]
  | y :: l' => if cmp y x <? 0 then y :: sort_insert cmp x l' else x :: l
  end.

Definition std_sort {A} (cmp : A -> A -> Z) (l : list A) : list A := foldr (sort_insert cmp) [] l.

(** The inner loop of [NormalizeP]: the outputs it passes (the deleted one is
    a null pointer), whether it deletes, and the outputs left. *)
Fixpoint NormalizeP_scan (pInp : Input) (outs : list Output)
  : list (option Output) * bool * list Output :=
  match outs with
  | [] => ([], false, [])
  | pOut :: outs' =>
      let n := CmpInOut pInp pOut in
      if n <=? 0 then
        if n =? 0 then ([None], true, outs') else ([], false, outs)
      else
        let '(pre, del, rest) := NormalizeP_scan pInp outs' in (Some pOut :: pre, del, rest)
  end.

Fixpoint NormalizeP_loop (ins : list Input) (outs : list Output)
  : list (option Input) * list (option Output) * Z :=
  match ins with
  | [] => ([], Some <$> outs, 0)
  | pInp :: ins =>
      let '(pre, del, rest) := NormalizeP_scan pInp outs in
      let '(vi, vo, nDel) := NormalizeP_loop ins rest in
      ((if del then None else Some pInp) :: vi, pre ++ vo, Z.b2z del + nDel)
  end.

Definition RebuildVectorWithoutNulls {A} (v : list (option A)) : list A := omap id v.

Definition NormalizeP (vi : list Input) (vo : list Output) : list Input * list Output * Z :=
  let vi := std_sort Input_cmp vi in
  let vo := std_sort Output_cmp vo in
  let '(vi', vo', nDel) := NormalizeP_loop vi vo in
  if negb (nDel =? 0) then (RebuildVectorWithoutNulls vi', RebuildVectorWithoutNulls vo', nDel)
  else (vi, vo, nDel).

Definition NormalizeE (vk : list TxKernel) : list TxKernel := std_sort TxKernel_cmp vk.

Definition Normalize (v : TxVectors) : TxVectors * Z :=
  let vk := NormalizeE (m_vKernels v) in
  let '(vi, vo, nDel) := NormalizeP (m_vInputs v) (m_vOutputs v) in
  (mkVectors vi vo vk, nDel).

(** [MoveIntoVec] gives the new target and the emptied source. *)
Definition MoveIntoVec {A} (trg src : list A) : list A * list A :=
  match trg with
  | [] => (src, [])
  | _ :: _ => (trg ++ src, [])
  end.

Definition MoveInto (v trg : TxVectors) : TxVectors * TxVectors :=
  let '(ti, si) := MoveIntoVec (m_vInputs trg) (m_vInputs v) in
  let '(to, so) := MoveIntoVec (m_vOutputs trg) (m_vOutputs v) in
  let '(tk, sk) := MoveIntoVec (m_vKernels trg) (m_vKernels v) in
  (mkVectors ti to tk, mkVectors si so sk).

(** The [COMPARE_TYPE] loop of [IReader::Compare] on the two streams: do I
    cover the other one, does the other one cover me.  The other stream is
    consumed together with mine. *)
Section compare.
Context {A : Type} (cmp : A -> A -> Z).

Fixpoint COMPARE_TYPE_fuel (fuel : nat) (l0 l1 : list A) (bICover bOtherCovers : bool) : bool * bool :=
  match fuel with
  | O => (bICover, bOtherCovers)
  | S fuel =>
      match l0, l1 with
      | [], [] => (bICover, bOtherCovers)
      | [], _ :: _ => (false, bOtherCovers)
      | _ :: _, [] => (bICover, false)
      | x :: l0', y :: l1' =>
          let n := cmp x y in
          COMPARE_TYPE_fuel fuel (if n <=? 0 then l0' else l0) (if 0 <=? n then l1' else l1)
            (if 0 <? n then false else bICover) (if n <? 0 then false else bOtherCovers)
      end
  end.

(** Each round passes an element of one of the streams. *)
Definition COMPARE_TYPE (l0 l1 : list A) (b : bool * bool) : bool * bool :=
  COMPARE_TYPE_fuel (length l0 + length l1 + 1) l0 l1 b.1 b.2.
End compare.

Definition Compare (r rOther : TxVectors) : bool * bool :=
  COMPARE_TYPE TxKernel_cmp (m_vKernels r) (m_vKernels rOther) (
  COMPARE_TYPE Output_cmp (m_vOutputs r) (m_vOutputs rOther) (
  COMPARE_TYPE Input_cmp (m_vInputs r) (m_vInputs rOther) (true, true))).
End cmp.

(** ** Copies *)
Definition Output_assign (v : Output) : Output :=
  mkOutput (o_Element v) (o_Coinbase v) (o_RecoveryOnly v) (o_Incubation v) (o_AssetID v)
    (o_pConfidential v) (o_pPublic v).

(** The default constructor ([m_Height] is left to its own). *)
Definition TxKernel_new : TxKernel :=
  mkKernel (mkElement (mkPoint zero_hash 0) 0) (mkSig (mkPoint zero_hash 0) zero_hash) 0 HR.Reset 0 false
    None None [].

(** [operator =]: the assigned members of [v], the others as they were in the
    target; the nested kernels are new objects. *)
Fixpoint TxKernel_assign (trg v : TxKernel) : TxKernel :=
  mkKernel (k_Element v) (k_Signature v) (k_Fee v) (k_Height v) (k_AssetEmission v) (k_CanEmbed trg)
    (k_pHashLock v) (k_pRelativeLock v) (TxKernel_assign TxKernel_new <$> k_vNested v).

(** [TxVectors::Writer]: [PushVectorPtr] of a copy. *)
Definition PushVectorPtr {A} (vec : list A) (val : A) : list A := vec ++ [val].

Definition Write_Input (v : TxVectors) (x : Input) : TxVectors :=
  mkVectors (PushVectorPtr (m_vInputs v) x) (m_vOutputs v) (m_vKernels v).
Definition Write_Output (v : TxVectors) (x : Output) : TxVectors :=
  mkVectors (m_vInputs v) (PushVectorPtr (m_vOutputs v) (Output_assign x)) (m_vKernels v).
Definition Write_TxKernel (v : TxVectors) (x : TxKernel) : TxVectors :=
  mkVectors (m_vInputs v) (m_vOutputs v) (PushVectorPtr (m_vKernels v) (TxKernel_assign TxKernel_new x)).

(** ** Fees, keys, maturity *)
Fixpoint get_TotalCount (k : TxKernel) : Z :=
  foldl (fun ret n => u64 (ret + n)) 1 (get_TotalCount <$> k_vNested k).

Record FeeSettings := mkFees { f_Output : Z; f_Kernel : Z }.
Definition default_FeeSettings : FeeSettings := mkFees 10 10.

Definition FeeSettings_Calculate (f : FeeSettings) (t : TxVectors) : Z :=
  let nKernels := foldl (fun n k => u64 (n + get_TotalCount k)) 0 (m_vKernels t) in
  u64 (f_Output f * Z.of_nat (length (m_vOutputs t)) + f_Kernel f * nKernels).

Definition get_Key (t : Transaction) : list Z :=
  if _Cmp (t_Offset t) zero_hash =? 0 then
    let v := t_Vectors t in
    let key := foldl (fun key i => _Xor key (m_X (e_Commitment (i_Element i)))) zero_hash (m_vInputs v) in
    let key := foldl (fun key o => _Xor key (m_X (e_Commitment (o_Element o)))) key (m_vOutputs v) in
    foldl (fun key k => _Xor key (m_X (e_Commitment (k_Element k)))) key (m_vKernels v)
  else t_Offset t.

Definition get_MinMaturity (r : Rules) (o : Output) (h : Z) : Z :=
  HeightAdd (HeightAdd h (if o_Coinbase o then Maturity_Coinbase r else Maturity_Std r)) (o_Incubation o).

(** ** [TxVectors::Reader] *)
Record Reader := mkReader {
  rd_V : TxVectors; rd_Idx0 : nat; rd_Idx1 : nat; rd_Idx2 : nat;
  rd_pUtxoIn : option Input; rd_pUtxoOut : option Output; rd_pKernel : option TxKernel
}.

Definition get_FromVector {A} (v : list A) (idx : nat) : option A :=
  if (length v <=? idx)%nat then None else v !! idx.

Definition Reader_Reset (v : TxVectors) : Reader :=
  mkReader v 0 0 0 (get_FromVector (m_vInputs v) 0) (get_FromVector (m_vOutputs v) 0)
    (get_FromVector (m_vKernels v) 0).
Definition NextUtxoIn (r : Reader) : Reader :=
  mkReader (rd_V r) (S (rd_Idx0 r)) (rd_Idx1 r) (rd_Idx2 r)
    (get_FromVector (m_vInputs (rd_V r)) (S (rd_Idx0 r))) (rd_pUtxoOut r) (rd_pKernel r).
Definition NextUtxoOut (r : Reader) : Reader :=
  mkReader (rd_V r) (rd_Idx0 r) (S (rd_Idx1 r)) (rd_Idx2 r)
    (rd_pUtxoIn r) (get_FromVector (m_vOutputs (rd_V r)) (S (rd_Idx1 r))) (rd_pKernel r).
Definition NextKernel (r : Reader) : Reader :=
  mkReader (rd_V r) (rd_Idx0 r) (rd_Idx1 r) (S (rd_Idx2 r))
    (rd_pUtxoIn r) (rd_pUtxoOut r) (get_FromVector (m_vKernels (rd_V r)) (S (rd_Idx2 r))).

(** * Facts *)

(** Induction through the nested kernels. *)
Lemma TxKernel_nested_ind (P : TxKernel -> Prop) :
  (forall k, Forall P (k_vNested k) -> P k) -> forall k, P k.
Proof.
  intros H. fix IH 1. intros k. apply H. destruct k as [? ? ? ? ? ? ? ? l]. cbn.
  induction l as [|x l IHl]; constructor; [apply IH|exact IHl].
Qed.

(** ** Orders of the elements

    What the comparisons look at: the maturity only when it is not ignored,
    never an input's [m_ID], never a kernel's [m_CanEmbed]. *)
Section keys.
Context (ig : bool).

Definition el_key (e : TxElement) : TxElement :=
  mkElement (e_Commitment e) (if ig then 0 else e_Maturity e).
Definition out_key (o : Output) : Output :=
  mkOutput (el_key (o_Element o)) (o_Coinbase o) (o_RecoveryOnly o) (o_Incubation o) (o_AssetID o)
    (o_pConfidential o) (o_pPublic o).
Fixpoint kern_key (k : TxKernel) : TxKernel :=
  mkKernel (el_key (k_Element k)) (k_Signature k) (k_Fee k) (k_Height k) (k_AssetEmission k) false
    (k_pHashLock k) (k_pRelativeLock k) (kern_key <$> k_vNested k).

Lemma el_key_idem e : el_key (el_key e) = el_key e.
Proof. unfold el_key. by destruct ig. Qed.

Lemma TxElement_cmp_key a b : TxElement_cmp ig a b = TxElement_cmp ig (el_key a) (el_key b).
Proof. unfold TxElement_cmp, el_key. by destruct ig. Qed.

Lemma Input_cmp_key a b : Input_cmp ig a b = TxElement_cmp ig (el_key (i_Element a)) (el_key (i_Element b)).
Proof. apply TxElement_cmp_key. Qed.

Lemma Output_cmp_key a b : Output_cmp ig a b = Output_cmp ig (out_key a) (out_key b).
Proof. unfold Output_cmp. by rewrite (TxElement_cmp_key (o_Element a)). Qed.

Lemma nested_cmp_map {A} (cmp : A -> A -> Z) (f : A -> A) l0 l1 :
  Forall (fun x => forall y, cmp x y = cmp (f x) (f y)) l0 ->
  nested_cmp cmp l0 l1 = nested_cmp cmp (f <$> l0) (f <$> l1).
Proof.
  revert l1. induction l0 as [|x l0 IH]; intros [|y l1] H; try done.
  apply Forall_cons in H as [Hx H]. cbn. by rewrite Hx, IH.
Qed.

Lemma TxKernel_cmp_key a b : TxKernel_cmp ig a b = TxKernel_cmp ig (kern_key a) (kern_key b).
Proof.
  revert b. induction a as [k IH] using TxKernel_nested_ind. intros b. destruct k, b. cbn in *.
  by rewrite (TxElement_cmp_key k_Element0), (nested_cmp_map _ kern_key).
Qed.
End keys.

(** Comparing lists as [TxKernel::cmp] does is an order when comparing the
    elements is. *)
Lemma cmp_order_nested {A} ok (cmp : A -> A -> Z) :
  cmp_order ok cmp -> cmp_order (Forall ok) (nested_cmp cmp).
Proof.
  intros [E S T]. assert (forall a, ok a -> cmp a a = 0) as R by (intros; by apply E). split.
  - induction a as [|x a IH]; intros [|y b] Ha Hb; try done. cbn. unfold CMP_EX.
    apply Forall_cons in Ha as [Hx Ha]. apply Forall_cons in Hb as [Hy Hb].
    destruct (Z.eqb_spec (cmp x y) 0) as [E0|E0].
    + apply E in E0 as ->; [|done..]. rewrite IH by done. split; [by intros ->|by intros [= ->]].
    + split; [done|]. intros [= -> ->]. exfalso. by apply E0, R.
  - induction a as [|x a IH]; intros [|y b] Ha Hb; cbn; try lia. unfold CMP_EX.
    apply Forall_cons in Ha as [Hx Ha]. apply Forall_cons in Hb as [Hy Hb].
    pose proof (S x y Hx Hy). pose proof (S y x Hy Hx).
    destruct (Z.eqb_spec (cmp x y) 0), (Z.eqb_spec (cmp y x) 0); first [exact (IH _ Ha Hb)|lia].
  - induction a as [|x a IH]; intros [|y b] [|z c] Ha Hb Hc; cbn; try lia. unfold CMP_EX.
    apply Forall_cons in Ha as [Hx Ha]. apply Forall_cons in Hb as [Hy Hb]. apply Forall_cons in Hc as [Hz Hc].
    destruct (Z.eqb_spec (cmp x y) 0) as [E0|E0], (Z.eqb_spec (cmp y z) 0) as [E1|E1].
    + apply E in E0 as ->; [|done..]. rewrite (proj2 (Z.eqb_eq _ _)) by done. by apply IH.
    + apply E in E0 as ->; [|done..]. by rewrite (proj2 (Z.eqb_neq _ _)).
    + apply E in E1 as ->; [|done..]. by rewrite (proj2 (Z.eqb_neq _ _)).
    + intros H1 H2. pose proof (T x y z Hx Hy Hz H1 H2). by rewrite (proj2 (Z.eqb_neq _ _)) by lia.
Qed.

(** Well-formed elements.  A bulletproof is [4 * 33 + 3 * 32] bytes and an
    inner product proof of [12 * 33 + 2 * 32]. *)
Definition el_ok (ig : bool) (e : TxElement) : Prop :=
  point_ok (e_Commitment e) /\ (ig = true -> e_Maturity e = 0).
Definition public_ok (p : PublicProof) : Prop := sig_ok (p_Signature p) /\ bytes_n 48 (p_Recovery p).
Definition out_ok (ig : bool) (o : Output) : Prop :=
  el_ok ig (o_Element o) /\ bytes_n 32 (o_AssetID o) /\
  (forall c, o_pConfidential o = Some c -> bytes_n 688 c) /\ (forall p, o_pPublic o = Some p -> public_ok p).
Definition rl_ok (l : RelativeLock) : Prop := bytes_n 32 (rl_ID l).

(** Kernels nested less than [n] deep, without what [cmp] does not look at. *)
Fixpoint kern_ok (ig : bool) (n : nat) (k : TxKernel) : Prop :=
  match n with
  | O => False
  | S n =>
      el_ok ig (k_Element k) /\ sig_ok (k_Signature k) /\ k_CanEmbed k = false /\
      (forall p, k_pHashLock k = Some p -> bytes_n 32 p) /\
      (forall l, k_pRelativeLock k = Some l -> rl_ok l) /\ Forall (kern_ok ig n) (k_vNested k)
  end.

Lemma cmp_order_element ig : cmp_order (el_ok ig) (TxElement_cmp ig).
Proof.
  apply (cmp_order_inj (fun e => (e_Maturity e, e_Commitment e)) _ _ _ _
    (cmp_order_pair _ _ _ _ cmp_order_Z cmp_order_Point)).
  - intros e [He _]. done.
  - intros [] [] E. cbn in E. by simplify_eq.
  - intros a b [_ Ha] [_ Hb]. unfold TxElement_cmp. cbn [fst snd].
    assert (forall x, CMP_EX x 0 = x) as Hx by (intros x; unfold CMP_EX; destruct (Z.eqb_spec x 0); done).
    rewrite Hx. destruct ig; cbn [negb]; [|apply CMP_SIMPLE_EX]. by rewrite Ha, Hb.
Qed.

Lemma cmp_order_memcmp n : cmp_order (bytes_n n) memcmp.
Proof.
  apply (cmp_order_inj id _ _ _ _ (cmp_order_bytes n)); [done|done|].
  intros a b [Ha La] [Hb Lb]. rewrite _Cmp_spec, memcmp_spec by (done || congruence). done.
Qed.

Lemma cmp_order_public : cmp_order public_ok RangeProof_Public_cmp.
Proof.
  apply (cmp_order_inj (fun p => (p_Signature p, (p_Recovery p, p_Value p))) _ _ _ _
    (cmp_order_pair _ _ _ _ cmp_order_Signature
    (cmp_order_pair _ _ _ _ (cmp_order_memcmp 48) cmp_order_Z))).
  - intros p [H1 H2]. done.
  - intros [] [] E. cbn in E. by simplify_eq.
  - done.
Qed.

Lemma CMP_PTRS_EX {A} (cmp : A -> A -> Z) a b rest : CMP_PTRS cmp a b rest = CMP_EX (CMP_PTRS cmp a b 0) rest.
Proof. unfold CMP_PTRS, CMP_EX. destruct a, b; try done. by destruct (cmp _ _ =? 0) eqn:E; rewrite ?E. Qed.

Lemma b2z_inj a b : Z.b2z a = Z.b2z b -> a = b.
Proof. by destruct a, b. Qed.

Lemma cmp_order_output ig : cmp_order (out_ok ig) (Output_cmp ig).
Proof.
  apply (cmp_order_inj (fun o => (o_Element o, (Z.b2z (o_Coinbase o), (Z.b2z (o_RecoveryOnly o), (o_Incubation o,
      (o_AssetID o, (o_pConfidential o, o_pPublic o))))))) _ _ _ _
    (cmp_order_pair _ _ _ _ (cmp_order_element ig) (cmp_order_pair _ _ _ _ cmp_order_Z
    (cmp_order_pair _ _ _ _ cmp_order_Z (cmp_order_pair _ _ _ _ cmp_order_Z
    (cmp_order_pair _ _ _ _ (cmp_order_bytes 32) (cmp_order_pair _ _ _ _
      (cmp_order_option _ _ (cmp_order_memcmp 688)) (cmp_order_option _ _ cmp_order_public)))))))).
  - intros o (H1 & H2 & H3 & H4). cbn. tauto.
  - intros [] [] E. cbn in E. apply (f_equal fst) in E as E1. simplify_eq. f_equal; by apply b2z_inj.
  - intros a b _ _. unfold Output_cmp. cbn [fst snd].
    by rewrite !(CMP_SIMPLE_EX _ _ (CMP_EX _ _)), (CMP_PTRS_EX memcmp).
Qed.

Lemma cmp_order_RelativeLock : cmp_order rl_ok RelativeLock_cmp.
Proof.
  apply (cmp_order_inj (fun l => (rl_ID l, rl_LockHeight l)) _ _ _ _
    (cmp_order_pair _ _ _ _ (cmp_order_bytes 32) cmp_order_Z)); [done| |done].
  intros [] [] E. cbn in E. by simplify_eq.
Qed.

Lemma cmp_order_HashLock : cmp_order (bytes_n 32) HashLock_cmp.
Proof.
  apply (cmp_order_inj id _ _ _ _ (cmp_order_bytes 32)); [done|done|].
  intros a b _ _. unfold HashLock_cmp, CMP_EX, id. by destruct (Z.eqb_spec (_Cmp a b) 0).
Qed.

(** The members of a kernel in the order of their comparison. *)
Definition kern_view (k : TxKernel) :=
  (k_Element k, (k_Signature k, (k_Fee k, (m_Min (k_Height k), (m_Max (k_Height k), (k_AssetEmission k,
    (k_vNested k, (k_pHashLock k, k_pRelativeLock k)))))))).

Lemma cmp_order_inj_ok {A B} (f : A -> B) (ok : A -> Prop) okB cB (cmp : A -> A -> Z) :
  cmp_order okB cB -> (forall a, ok a -> okB (f a)) ->
  (forall a b, ok a -> ok b -> f a = f b -> a = b) ->
  (forall a b, ok a -> ok b -> cmp a b = cB (f a) (f b)) ->
  cmp_order ok cmp.
Proof.
  intros [E S T] Hok Hinj Hc. split.
  - intros a b Ha Hb. rewrite Hc, E by auto. split; [by apply Hinj|by intros ->].
  - intros a b Ha Hb. rewrite !Hc by done. apply S; auto.
  - intros a b c Ha Hb Hd. rewrite !Hc by done. apply T; auto.
Qed.

Lemma cmp_order_kernel ig n : cmp_order (kern_ok ig n) (TxKernel_cmp ig).
Proof.
  induction n as [|n IH]; [by split|].
  apply (cmp_order_inj_ok kern_view _ _ _ _
    (cmp_order_pair _ _ _ _ (cmp_order_element ig) (cmp_order_pair _ _ _ _ cmp_order_Signature
    (cmp_order_pair _ _ _ _ cmp_order_Z (cmp_order_pair _ _ _ _ cmp_order_Z (cmp_order_pair _ _ _ _ cmp_order_Z
    (cmp_order_pair _ _ _ _ cmp_order_Z (cmp_order_pair _ _ _ _ (cmp_order_nested _ _ IH)
    (cmp_order_pair _ _ _ _ (cmp_order_option _ _ cmp_order_HashLock)
      (cmp_order_option _ _ cmp_order_RelativeLock)))))))))).
  - intros k (H1 & H2 & H3 & H4 & H5 & H6). unfold kern_view. cbn. tauto.
  - intros [? ? ? [] ? ? ? ? ?] [? ? ? [] ? ? ? ? ?] (_ & _ & Ca & _) (_ & _ & Cb & _) Ev.
    unfold kern_view in Ev. cbn in Ca, Cb, Ev. by simplify_eq.
  - intros [] [] _ _. cbn [TxKernel_cmp kern_view fst snd k_Element k_Signature k_Fee k_Height k_AssetEmission k_vNested
      k_pHashLock k_pRelativeLock].
    by rewrite !(CMP_SIMPLE_EX _ _ (CMP_EX _ _)), (CMP_PTRS_EX HashLock_cmp).
Qed.

(** ** [IReader::Compare] decides inclusion of multisets *)
Section compare_spec.
Context {A : Type} (ok : A -> Prop) (cmp : A -> A -> Z) (Hcmp : cmp_order ok cmp).

Definition ascending (l : list A) : Prop := StronglySorted (fun a b => cmp a b <= 0) l.

Lemma cmp_lt_notin x y l :
  ok x -> Forall ok (y :: l) -> ascending (y :: l) -> cmp x y < 0 -> x ∉ y :: l.
Proof.
  destruct Hcmp as [E S T]. intros Hx Hl Hs Hlt Hin. apply StronglySorted_inv in Hs as [_ Hy].
  pose proof (proj1 (Forall_forall _ _) Hl x Hin) as _. apply Forall_cons in Hl as [Hoy _].
  assert (cmp x x = 0) as Hxx by (by apply E).
  apply elem_of_cons in Hin as [->|Hin]; [lia|].
  pose proof (proj1 (Forall_forall _ _) Hy x Hin) as Hyx. cbn in Hyx.
  assert (0 < cmp y x) by (by apply S). lia.
Qed.

Lemma submseteq_notin_r x (l k : list A) : x ∉ l -> l ⊆+ x :: k <-> l ⊆+ k.
Proof.
  intros Hx. split; [|by apply submseteq_cons]. intros H. apply submseteq_cons_r in H as [H|(l' & Hp & _)]; [done|].
  exfalso. apply Hx. rewrite Hp. by left.
Qed.

Lemma submseteq_notin_l x (l k : list A) : x ∉ k -> ~ (x :: l ⊆+ k).
Proof. intros Hx H. apply Hx. eapply elem_of_submseteq; [|exact H]. by left. Qed.

Lemma submseteq_cons_cancel x (l k : list A) : x :: l ⊆+ x :: k <-> l ⊆+ k.
Proof. split; [apply (submseteq_app_inv_l l k [x])|by apply submseteq_skip]. Qed.

Lemma COMPARE_TYPE_spec fuel l0 l1 bI bO :
  (length l0 + length l1 < fuel)%nat -> Forall ok l0 -> Forall ok l1 -> ascending l0 -> ascending l1 ->
  let r := COMPARE_TYPE_fuel cmp fuel l0 l1 bI bO in
  (r.1 = true <-> bI = true /\ l1 ⊆+ l0) /\ (r.2 = true <-> bO = true /\ l0 ⊆+ l1).
Proof.
  revert l0 l1 bI bO. induction fuel as [|fuel IH]; intros l0 l1 bI bO Hf H0 H1 S0 S1; [lia|].
  cbn [COMPARE_TYPE_fuel]. destruct l0 as [|x l0], l1 as [|y l1]; cbn [length] in Hf.
  - cbn. pose proof (submseteq_nil_l (@nil A)). tauto.
  - cbn. pose proof (submseteq_nil_l (y :: l1)). split; [|tauto].
    split; [done|]. intros [_ H']. by apply submseteq_nil_r in H'.
  - cbn. pose proof (submseteq_nil_l (x :: l0)). split; [tauto|].
    split; [done|]. intros [_ H']. by apply submseteq_nil_r in H'.
  - apply Forall_cons in H0 as Hx. apply Forall_cons in H1 as Hy. destruct Hx as [Hx H0'], Hy as [Hy H1'].
    pose proof (proj1 (StronglySorted_inv S0)) as S0'. pose proof (proj1 (StronglySorted_inv S1)) as S1'.
    destruct (Z.leb_spec (cmp x y) 0), (Z.leb_spec 0 (cmp x y)), (Z.ltb_spec 0 (cmp x y)), (Z.ltb_spec (cmp x y) 0);
      try lia; cbv zeta.
    + assert (cmp x y = 0) as Exy by lia. apply (co_eq _ _ Hcmp) in Exy as <-; [|done..].
      rewrite !submseteq_cons_cancel. apply IH; (lia || done).
    + assert (x ∉ y :: l1) as Hn by (by apply cmp_lt_notin).
      destruct (IH l0 (y :: l1) bI false ltac:(cbn; lia) H0' H1 S0' S1) as [I1 I2].
      rewrite I1, I2, submseteq_notin_r by done. split; [tauto|].
      split; [by intros [? _]|]. intros [_ H']. by apply submseteq_notin_l in H'.
    + assert (y ∉ x :: l0) as Hn by (apply cmp_lt_notin; [done..|]; by apply (co_anti _ _ Hcmp)).
      destruct (IH (x :: l0) l1 false bO ltac:(cbn; lia) H0 H1' S0 S1') as [I1 I2].
      rewrite I1, I2, (submseteq_notin_r y (x :: l0)) by done. split; [|tauto].
      split; [by intros [? _]|]. intros [_ H']. by apply submseteq_notin_l in H'.
Qed.
End compare_spec.

Lemma COMPARE_TYPE_map {A B} (f : A -> B) (cA : A -> A -> Z) (cB : B -> B -> Z) fuel l0 l1 bI bO :
  (forall a b, cA a b = cB (f a) (f b)) ->
  COMPARE_TYPE_fuel cA fuel l0 l1 bI bO = COMPARE_TYPE_fuel cB fuel (f <$> l0) (f <$> l1) bI bO.
Proof.
  intros H. revert l0 l1 bI bO. induction fuel as [|fuel IH]; intros l0 l1 bI bO; [done|].
  destruct l0 as [|x l0], l1 as [|y l1]; try done. cbn [COMPARE_TYPE_fuel]. rewrite !fmap_cons. cbn [COMPARE_TYPE_fuel].
  rewrite H. rewrite IH. by destruct (cB (f x) (f y) <=? 0), (0 <=? cB (f x) (f y)); rewrite ?fmap_cons.
Qed.

Lemma ascending_map {A B} (f : A -> B) (cA : A -> A -> Z) (cB : B -> B -> Z) l :
  (forall a b, cA a b = cB (f a) (f b)) -> ascending cA l -> ascending cB (f <$> l).
Proof.
  intros H Hs. induction Hs as [|x l Hs IH Hx]; [constructor|]. rewrite fmap_cons. constructor; [done|].
  apply Forall_fmap. eapply Forall_impl; [exact Hx|]. intros y Hy. cbn. by rewrite <- H.
Qed.

(** Comparing through keys. *)
Lemma COMPARE_TYPE_keys {A B} (f : A -> B) (cA : A -> A -> Z) ok (cB : B -> B -> Z) l0 l1 b :
  cmp_order ok cB -> (forall a b, cA a b = cB (f a) (f b)) ->
  Forall (fun x => ok (f x)) l0 -> Forall (fun x => ok (f x)) l1 -> ascending cA l0 -> ascending cA l1 ->
  ((COMPARE_TYPE cA l0 l1 b).1 = true <-> b.1 = true /\ f <$> l1 ⊆+ f <$> l0) /\
  ((COMPARE_TYPE cA l0 l1 b).2 = true <-> b.2 = true /\ f <$> l0 ⊆+ f <$> l1).
Proof.
  intros Ho Hk H0 H1 S0 S1. unfold COMPARE_TYPE. rewrite (COMPARE_TYPE_map f cA cB) by done.
  apply (COMPARE_TYPE_spec ok); [done| |by apply Forall_fmap..|by eapply ascending_map|by eapply ascending_map].
  rewrite !length_fmap. lia.
Qed.

(** Well-formed vectors in ascending order, as [Normalize] leaves them. *)
Record vectors_ok (ig : bool) (n : nat) (v : TxVectors) : Prop := {
  vo_in : Forall (fun i => point_ok (e_Commitment (i_Element i))) (m_vInputs v);
  vo_out : Forall (fun o => out_ok ig (out_key ig o)) (m_vOutputs v);
  vo_kern : Forall (fun k => kern_ok ig n (kern_key ig k)) (m_vKernels v)
}.

Record vectors_sorted (ig : bool) (v : TxVectors) : Prop := {
  vs_in : ascending (Input_cmp ig) (m_vInputs v);
  vs_out : ascending (Output_cmp ig) (m_vOutputs v);
  vs_kern : ascending (TxKernel_cmp ig) (m_vKernels v)
}.

Definition in_key (ig : bool) (i : Input) : TxElement := el_key ig (i_Element i).

(** The elements of [a] are among those of [b], with multiplicities. *)
Definition vectors_incl (ig : bool) (a b : TxVectors) : Prop :=
  in_key ig <$> m_vInputs a ⊆+ in_key ig <$> m_vInputs b /\
  out_key ig <$> m_vOutputs a ⊆+ out_key ig <$> m_vOutputs b /\
  kern_key ig <$> m_vKernels a ⊆+ kern_key ig <$> m_vKernels b.

Lemma vo_in_key ig n v : vectors_ok ig n v -> Forall (fun i => el_ok ig (in_key ig i)) (m_vInputs v).
Proof.
  intros [H _ _]. eapply Forall_impl; [exact H|]. intros i Hi. split; [done|]. cbn. by intros ->.
Qed.

(** ** Sorting *)
Section sorting.
Context {A : Type} (cmp : A -> A -> Z) (ok : A -> Prop).
(** A total preorder on the elements that are well-formed. *)
Record cmp_pre : Prop := {
  cp_anti a b : ok a -> ok b -> cmp a b < 0 <-> 0 < cmp b a;
  cp_trans a b c : ok a -> ok b -> ok c -> cmp a b <= 0 -> cmp b c <= 0 -> cmp a c <= 0
}.

Lemma std_sort_perm l : std_sort cmp l ≡ₚ l.
Proof.
  induction l as [|x l IH]; [done|]. cbn. fold (std_sort cmp l). rewrite <- IH at 2.
  generalize (std_sort cmp l). clear. induction l as [|y l IH]; [done|]. cbn.
  destruct (cmp y x <? 0); [|done]. rewrite IH. constructor.
Qed.

Lemma std_sort_ok l : Forall ok l -> Forall ok (std_sort cmp l).
Proof. by rewrite std_sort_perm. Qed.

Lemma std_sort_sorted l : cmp_pre -> Forall ok l -> ascending cmp (std_sort cmp l).
Proof.
  intros [S T] H. induction H as [|x l Hx H IH]; [constructor|]. cbn. fold (std_sort cmp l).
  apply std_sort_ok in H. revert H IH. generalize (std_sort cmp l). clear l.
  induction l as [|y l IH]; intros Hl Hs; cbn.
  - repeat constructor.
  - apply Forall_cons in Hl as [Hy Hl]. pose proof Hs as Hs'. apply StronglySorted_inv in Hs' as [Hs' Hyl].
    destruct (Z.ltb_spec (cmp y x) 0) as [Hlt|Hge].
    + constructor; [by apply IH|]. apply Forall_forall. intros z Hz.
      assert (z = x \/ z ∈ l) as [->|Hz'].
      { clear -Hz. induction l as [|w l IH]; cbn in Hz; [by apply list_elem_of_singleton in Hz; left|].
        destruct (cmp w x <? 0); apply elem_of_cons in Hz as [->|Hz]; [right; by left| |by left|by right].
        destruct (IH Hz); [by left|right; by right]. }
      * lia.
      * by eapply Forall_forall in Hyl.
    + assert (cmp x y <= 0) as Hxy by (pose proof (S y x Hy Hx); pose proof (S x y Hx Hy); lia).
      constructor; [done|]. constructor; [done|]. apply Forall_forall. intros z Hz.
      apply (T x y z); [done|done| |done|].
      * by eapply Forall_forall in Hl.
      * by eapply Forall_forall in Hyl.
Qed.
End sorting.

Lemma cmp_pre_order {A B} (f : A -> B) (cA : A -> A -> Z) okB cB :
  cmp_order okB cB -> (forall a b, cA a b = cB (f a) (f b)) -> cmp_pre cA (fun a => okB (f a)).
Proof.
  intros [E S T] H. split.
  - intros a b Ha Hb. rewrite !H. by apply S.
  - intros a b c Ha Hb Hc. rewrite !H. intros H1 H2.
    destruct (Z.eq_dec (cB (f a) (f b)) 0) as [E1|E1]; [apply E in E1 as ->; done|].
    destruct (Z.eq_dec (cB (f b) (f c)) 0) as [E2|E2]; [apply E in E2 as <-; done|].
    assert (cB (f a) (f c) < 0); [|lia]. eapply T; [exact Ha|exact Hb|exact Hc|lia|lia].
Qed.

(** ** Cut-through

    What matters of the two orders for the single pass over both lists: an
    output passed for one input matches no later input, and no output after the
    one that stops the search matches. *)
Record cut_mode (ig : bool) (oki : Input -> Prop) (oko : Output -> Prop) : Prop := {
  cm_passed i i' o : oki i -> oki i' -> oko o -> Input_cmp ig i i' <= 0 -> 0 < CmpInOut ig i o -> CmpInOut ig i' o <> 0;
  cm_stop i o o' : oki i -> oko o -> oko o' -> Output_cmp ig o o' <= 0 -> CmpInOut ig i o < 0 -> CmpInOut ig i o' <> 0
}.

Section normalize.
Context (ig : bool).

Lemma NormalizeP_scan_spec i outs pre del rest :
  NormalizeP_scan ig i outs = (pre, del, rest) ->
  exists P d, pre = (Some <$> P) ++ match d with Some _ => [None] | None => [] end /\
    del = (match d with Some _ => true | None => false end) /\
    outs = P ++ match d with Some o => o :: rest | None => rest end /\
    Forall (fun o => 0 < CmpInOut ig i o) P /\
    match d with
    | Some o => CmpInOut ig i o = 0
    | None => match rest with [] => True | o :: _ => CmpInOut ig i o < 0 end
    end.
Proof.
  revert pre del rest. induction outs as [|o outs IH]; intros pre del rest E; cbn in E.
  - simplify_eq. by exists [], None.
  - destruct (Z.leb_spec (CmpInOut ig i o) 0); [destruct (Z.eqb_spec (CmpInOut ig i o) 0)|].
    + simplify_eq. by exists [], (Some o).
    + simplify_eq. exists [], None. split_and!; try done. lia.
    + destruct (NormalizeP_scan ig i outs) as [[pre' del'] rest'] eqn:E'. simplify_eq.
      destruct (IH _ _ _ eq_refl) as (P & d & -> & -> & -> & HP & Hd).
      exists (o :: P), d. split_and!; try done. by constructor.
Qed.

Lemma omap_id_Some {A} (l : list A) : omap id (Some <$> l) = l.
Proof. induction l as [|x l IH]; [done|]. cbn. by f_equal. Qed.

Lemma NormalizeP_loop_spec ins outs vi vo nDel :
  NormalizeP_loop ig ins outs = (vi, vo, nDel) ->
  exists R : list (Input * Output),
    nDel = Z.of_nat (length R) /\ Forall (fun p => CmpInOut ig p.1 p.2 = 0) R /\
    ins ≡ₚ omap id vi ++ R.*1 /\ outs ≡ₚ omap id vo ++ R.*2 /\
    sublist (omap id vi) ins /\ sublist (omap id vo) outs.
Proof.
  revert outs vi vo nDel. induction ins as [|i ins IH]; intros outs vi vo nDel E; cbn in E.
  - simplify_eq. exists []. rewrite omap_id_Some. cbn. by rewrite !app_nil_r.
  - destruct (NormalizeP_scan ig i outs) as [[pre del] rest] eqn:Es.
    destruct (NormalizeP_loop ig ins rest) as [[vi' vo'] n'] eqn:El. simplify_eq.
    destruct (IH _ _ _ _ El) as (R & -> & HR & P1 & P2 & S1 & S2).
    destruct (NormalizeP_scan_spec _ _ _ _ _ Es) as (P & d & -> & -> & -> & _ & Hd).
    destruct d as [o|].
    + exists ((i, o) :: R). rewrite !omap_app, omap_id_Some. cbn. rewrite app_nil_r. split_and!.
      * lia.
      * by constructor.
      * rewrite P1. by rewrite Permutation_middle.
      * rewrite P2 at 1. rewrite <- app_assoc. f_equiv. by rewrite Permutation_middle.
      * by apply sublist_cons.
      * apply sublist_app; [done|]. by apply sublist_cons.
    + exists R. rewrite !omap_app, omap_id_Some. cbn. rewrite app_nil_r. split_and!; try done.
      * by rewrite P1.
      * rewrite P2 at 1. by rewrite <- app_assoc.
      * by apply sublist_skip.
      * by apply sublist_app.
Qed.

(** What is left has no spent output. *)
Lemma NormalizeP_loop_complete oki oko ins outs vi vo nDel :
  cut_mode ig oki oko -> Forall oki ins -> Forall oko outs ->
  ascending (Input_cmp ig) ins -> ascending (Output_cmp ig) outs ->
  NormalizeP_loop ig ins outs = (vi, vo, nDel) ->
  forall i o, i ∈ omap id vi -> o ∈ omap id vo -> CmpInOut ig i o <> 0.
Proof.
  intros [M1 M2]. revert outs vi vo nDel. induction ins as [|i0 ins IH]; intros outs vi vo nDel Hi Ho Si So E i o; cbn in E.
  - simplify_eq. intros Hin. by apply not_elem_of_nil in Hin.
  - destruct (NormalizeP_scan ig i0 outs) as [[pre del] rest] eqn:Es.
    destruct (NormalizeP_loop ig ins rest) as [[vi' vo'] n'] eqn:El. simplify_eq.
    destruct (NormalizeP_loop_spec _ _ _ _ _ El) as (R & _ & _ & _ & _ & S1 & S2).
    destruct (NormalizeP_scan_spec _ _ _ _ _ Es) as (P & d & -> & -> & -> & HP & Hd).
    apply Forall_cons in Hi as [Hi0 Hi]. apply StronglySorted_inv in Si as [Si Hle].
    apply Forall_app in Ho as [HoP Hor]. assert (Forall oko rest) as Hrest by (destruct d; [by apply Forall_cons in Hor as [_ ?]|done]).
    apply StronglySorted_app in So as (_ & _ & Sr).
    assert (ascending (Output_cmp ig) rest) as Srest by (destruct d; [by apply StronglySorted_inv in Sr as [? _]|done]).
    specialize (IH _ _ _ _ Hi Hrest Si Srest El).
    rewrite omap_app. intros Hin Hout. apply elem_of_app in Hout.
    assert (o ∈ P \/ o ∈ omap id vo') as [HoP'|Hov].
    { destruct Hout as [Hout|]; [left|by right]. rewrite omap_app, omap_id_Some in Hout.
      apply elem_of_app in Hout as [?|Hn]; [done|]. destruct d; by apply not_elem_of_nil in Hn. }
    + pose proof (proj1 (Forall_forall _ _) HP o HoP') as Hpos. cbn in Hpos.
      assert (i = i0 \/ i ∈ omap id vi') as [->|Hiv].
      { destruct d; cbn in Hin; [by right|]. by apply elem_of_cons in Hin. }
      * lia.
      * pose proof (elem_of_sublist _ _ _ Hiv S1) as Hii.
        apply (M1 i0 i o); [done|by eapply Forall_forall in Hi|by eapply Forall_forall in HoP| |done].
        by eapply Forall_forall in Hle.
    + destruct d as [o'|]; cbn in Hin; [by apply IH|].
      apply elem_of_cons in Hin as [->|Hin]; [|by apply IH].
      pose proof (elem_of_sublist _ _ _ Hov S2) as Hor'. destruct rest as [|o1 rest]; [by apply not_elem_of_nil in Hor'|].
      apply elem_of_cons in Hor' as [->|Hor']; [lia|].
      apply StronglySorted_inv in Srest as [_ Hle1]. apply Forall_cons in Hrest as [Ho1 Hrest].
      apply (M2 i0 o1 o); [done|done|by eapply Forall_forall in Hrest| |done].
      by eapply Forall_forall in Hle1.
Qed.
End normalize.

(** Standard transactions and blocks: no explicit maturity (or it is ignored). *)
Definition std_in (ig : bool) (i : Input) : Prop :=
  point_ok (e_Commitment (i_Element i)) /\ (ig = true \/ e_Maturity (i_Element i) = 0).
Definition std_out (ig : bool) (o : Output) : Prop :=
  out_ok ig (out_key ig o) /\ (ig = true \/ e_Maturity (o_Element o) = 0).
(** Macroblocks: every input has an explicit maturity. *)
Definition mac_in (i : Input) : Prop :=
  point_ok (e_Commitment (i_Element i)) /\ e_Maturity (i_Element i) <> 0.

Lemma CMP_EX_le n rest : CMP_EX n rest <= 0 -> n <= 0.
Proof. unfold CMP_EX. destruct (Z.eqb_spec n 0); lia. Qed.

Lemma CMP_EX_0 n : CMP_EX n 0 = n.
Proof. unfold CMP_EX. by destruct (Z.eqb_spec n 0). Qed.

Lemma Point_cmp_le_trans a b c : point_ok a -> point_ok b -> point_ok c ->
  Point_cmp a b <= 0 -> Point_cmp b c <= 0 -> Point_cmp a c <= 0.
Proof. intros. by eapply (cp_trans _ _ (cmp_pre_order id Point_cmp _ _ cmp_order_Point ltac:(done)) a b c). Qed.

Lemma std_el_cmp ig a b :
  ig = true \/ e_Maturity a = 0 -> ig = true \/ e_Maturity b = 0 ->
  TxElement_cmp ig a b = Point_cmp (e_Commitment a) (e_Commitment b).
Proof.
  intros Ha Hb. unfold TxElement_cmp. rewrite CMP_EX_0. destruct ig; [done|].
  destruct Ha as [?|Ha], Hb as [?|Hb]; [done..|]. by rewrite Ha, Hb.
Qed.

Lemma CmpInOut_std ig i o : std_in ig i ->
  CmpInOut ig i o =
    let n := Point_cmp (e_Commitment (i_Element i)) (e_Commitment (o_Element o)) in
    if n =? 0 then if o_Coinbase o then 1 else 0 else n.
Proof.
  intros [_ H]. unfold CmpInOut. cbv zeta.
  assert (negb (e_Maturity (i_Element i) =? 0) && negb ig = false) as ->.
  { destruct H as [->| ->]; [by rewrite andb_false_r|done]. }
  by destruct (Point_cmp _ _ =? 0).
Qed.

Lemma cut_mode_std ig : cut_mode ig (std_in ig) (std_out ig).
Proof.
  pose proof cmp_order_Point as [E S T]. split.
  - intros i i' o Hi Hi' Ho Hle. rewrite !CmpInOut_std by done. cbv zeta.
    unfold Input_cmp in Hle. rewrite std_el_cmp in Hle by (apply Hi || apply Hi').
    destruct Hi as [Hi _], Hi' as [Hi' _], Ho as [[[Ho _] _] _]. cbn in Ho. revert Hi Hi' Ho Hle.
    generalize (e_Commitment (i_Element i)), (e_Commitment (i_Element i')), (e_Commitment (o_Element o)).
    intros p p' q Hp Hp' Hq Hle.
    destruct (Z.eqb_spec (Point_cmp p' q) 0) as [E'|]; [|done].
    apply E in E' as ->; [|done..]. destruct (o_Coinbase o); [done|].
    destruct (Z.eqb_spec (Point_cmp p q) 0); lia.
  - intros i o o' Hi Ho Ho' Hle. rewrite !CmpInOut_std by done. cbv zeta.
    unfold Output_cmp in Hle. apply CMP_EX_le in Hle. rewrite std_el_cmp in Hle by (apply Ho || apply Ho').
    destruct Hi as [Hi _], Ho as [[[Ho _] _] _], Ho' as [[[Ho' _] _] _]. cbn in Ho, Ho'. revert Hi Ho Ho' Hle.
    generalize (e_Commitment (i_Element i)), (e_Commitment (o_Element o)), (e_Commitment (o_Element o')).
    intros p q q' Hp Hq Hq' Hle H.
    assert (Point_cmp p q < 0) as Hlt by (destruct (Z.eqb_spec (Point_cmp p q) 0), (o_Coinbase o); lia).
    assert (Point_cmp p q' <> 0) as Hn; [|by rewrite (proj2 (Z.eqb_neq _ _))].
    intros E'. apply E in E' as ->; [|done..]. apply S in Hlt; [|done..]. lia.
Qed.

Lemma cut_mode_macro : cut_mode false mac_in (fun o => out_ok false (out_key false o)).
Proof.
  assert (forall i o, mac_in i -> CmpInOut false i o = TxElement_cmp false (i_Element i) (o_Element o)) as HC.
  { intros i o [_ H]. unfold CmpInOut. by rewrite (proj2 (Z.eqb_neq _ _)). }
  pose proof (cmp_order_element false) as [E S T].
  assert (forall i, mac_in i -> el_ok false (i_Element i)) as Hki by (intros i [H _]; done).
  assert (forall o, out_ok false (out_key false o) -> el_ok false (o_Element o)) as Hko by (intros o [[H _] _]; done).
  split.
  - intros i i' o Hi Hi' Ho Hle. rewrite !HC by done. intros Hpos E'.
    apply E in E'; [|by apply Hki|by apply Hko]. unfold Input_cmp in Hle. rewrite E' in Hle. lia.
  - intros i o o' Hi Ho Ho' Hle. rewrite !HC by done. intros Hneg E'.
    unfold Output_cmp in Hle. apply CMP_EX_le in Hle.
    apply E in E'; [|by apply Hki|by apply Hko]. rewrite E' in Hneg.
    apply S in Hneg; [|by apply Hko..]. lia.
Qed.

(** ** Claims on transaction elements *)

Lemma input_pre ig : cmp_pre (Input_cmp ig) (fun i => el_ok ig (in_key ig i)).
Proof. apply (cmp_pre_order (in_key ig) _ _ _ (cmp_order_element ig)). apply Input_cmp_key. Qed.

Lemma output_pre ig : cmp_pre (Output_cmp ig) (fun o => out_ok ig (out_key ig o)).
Proof. apply (cmp_pre_order (out_key ig) _ _ _ (cmp_order_output ig)). apply Output_cmp_key. Qed.

Lemma kernel_pre ig n : cmp_pre (TxKernel_cmp ig) (fun k => kern_ok ig n (kern_key ig k)).
Proof. apply (cmp_pre_order (kern_key ig) _ _ _ (cmp_order_kernel ig n)). apply TxKernel_cmp_key. Qed.

Lemma sublist_full {A} (l k : list A) : sublist l k -> length k = length l -> l = k.
Proof.
  induction 1 as [|x l k H IH|x l k H IH]; intros E; [done| |].
  - cbn in E. by rewrite IH by lia.
  - apply sublist_length in H. cbn in E. lia.
Qed.

(** [NormalizeP] with and without deletions gives the same vectors. *)
Lemma NormalizeP_spec ig vi vo vi' vo' nDel :
  NormalizeP ig vi vo = (vi', vo', nDel) ->
  exists wi wo, NormalizeP_loop ig (std_sort (Input_cmp ig) vi) (std_sort (Output_cmp ig) vo) = (wi, wo, nDel) /\
    vi' = omap id wi /\ vo' = omap id wo.
Proof.
  unfold NormalizeP. destruct (NormalizeP_loop _ _ _) as [[wi wo] n] eqn:El.
  destruct (Z.eqb_spec n 0) as [->|]; cbn [negb]; intros [= <- <- <-]; [|by exists wi, wo].
  exists wi, wo. split; [done|]. destruct (NormalizeP_loop_spec _ _ _ _ _ _ El) as (R & HR & _ & P1 & P2 & S1 & S2).
  destruct R as [|]; [|cbn in HR; lia]. cbn in P1, P2. rewrite app_nil_r in P1, P2.
  by rewrite (sublist_full _ _ S1), (sublist_full _ _ S2) by (by rewrite <- P1 || by rewrite <- P2).
Qed.

(** C29: Cut-through. [TxVectors::Full::Normalize], on the elements of standard
    transactions and blocks (no explicit maturities) as well as of macroblocks
    (every input has one), leaves all three vectors sorted, removes exactly
    [nDel] inputs together with [nDel] outputs which match pairwise, keeps
    everything else, and leaves no input that still matches an output. *)
Theorem normalize_cut_through ig n v v' nDel :
  vectors_ok ig n v ->
  (Forall (std_in ig) (m_vInputs v) /\ Forall (std_out ig) (m_vOutputs v)) \/
  (ig = false /\ Forall mac_in (m_vInputs v)) ->
  Normalize ig v = (v', nDel) ->
  vectors_sorted ig v' /\ m_vKernels v' ≡ₚ m_vKernels v /\
  (exists R : list (Input * Output), nDel = Z.of_nat (length R) /\
     Forall (fun p => CmpInOut ig p.1 p.2 = 0) R /\
     m_vInputs v ≡ₚ m_vInputs v' ++ R.*1 /\ m_vOutputs v ≡ₚ m_vOutputs v' ++ R.*2) /\
  (forall i o, i ∈ m_vInputs v' -> o ∈ m_vOutputs v' -> CmpInOut ig i o <> 0).
Proof.
  intros Hok Hmode HN. unfold Normalize in HN.
  destruct (NormalizeP ig _ _) as [[vi vo] nd] eqn:EP. injection HN as <- <-.
  destruct (NormalizeP_spec _ _ _ _ _ _ EP) as (wi & wo & El & -> & ->).
  destruct (NormalizeP_loop_spec _ _ _ _ _ _ El) as (R & HR & HRe & P1 & P2 & S1 & S2).
  pose proof (std_sort_sorted _ _ _ (input_pre ig) (vo_in_key _ _ _ Hok)) as Si.
  pose proof (std_sort_sorted _ _ _ (output_pre ig) (vo_out _ _ _ Hok)) as So.
  pose proof (std_sort_sorted _ _ _ (kernel_pre ig n) (vo_kern _ _ _ Hok)) as Sk.
  split_and!; cbn.
  - split; [by eapply StronglySorted_sublist|by eapply StronglySorted_sublist|done].
  - apply std_sort_perm.
  - exists R. split_and!; [done|done|by rewrite <- P1, std_sort_perm|by rewrite <- P2, std_sort_perm].
  - intros i o. destruct Hmode as [[Hi Ho]|[-> Hi]].
    + by apply (NormalizeP_loop_complete _ _ _ _ _ _ _ _ (cut_mode_std ig)
        (std_sort_ok _ _ _ Hi) (std_sort_ok _ _ _ Ho) Si So El).
    + by apply (NormalizeP_loop_complete _ _ _ _ _ _ _ _ cut_mode_macro
        (std_sort_ok _ _ _ Hi) (std_sort_ok _ _ _ (vo_out _ _ _ Hok)) Si So El).
Qed.

(** Small elements for the examples. *)
Definition demo_point (x : Z) : Point := mkPoint (be_bytes 32 x) 0.
Definition demo_input (x : Z) : Input := mkInput (mkElement (demo_point x) 0) 0.
Definition demo_output (x : Z) (coinbase : bool) : Output :=
  mkOutput (mkElement (demo_point x) 0) coinbase false 0 zero_hash None None.
Definition demo_kernel (x fee : Z) : TxKernel :=
  mkKernel (mkElement (demo_point x) 0) (mkSig (demo_point 0) zero_hash) fee HR.Reset 0 false None None [].

Lemma demo_point_ok x : point_ok (demo_point x).
Proof. split; [split; [apply bytes_ok_be_bytes|apply length_be_bytes]|unfold byte_ok; cbn; lia]. Qed.

Lemma zero_hash_ok : bytes_n 32 zero_hash.
Proof. split; [apply bytes_ok_zeros|done]. Qed.

Lemma demo_output_ok ig x cb : out_ok ig (out_key ig (demo_output x cb)).
Proof.
  split_and!; try done; [|apply zero_hash_ok]. split; [apply demo_point_ok|]. cbn. by intros ->.
Qed.

Lemma demo_kernel_ok ig x fee : kern_ok ig 1 (kern_key ig (demo_kernel x fee)).
Proof.
  cbn. split_and!; try done; [split; [apply demo_point_ok|by intros ->]|].
  split; [apply demo_point_ok|apply zero_hash_ok].
Qed.

Definition demo_vectors : TxVectors :=
  mkVectors [demo_input 5; demo_input 3] [demo_output 4 false; demo_output 5 true; demo_output 3 false]
    [demo_kernel 2 10; demo_kernel 1 20].

Lemma demo_vectors_ok ig : vectors_ok ig 1 demo_vectors.
Proof.
  split; repeat (constructor; [first [apply demo_point_ok|apply demo_output_ok|apply demo_kernel_ok]|]); constructor.
Qed.

Lemma demo_vectors_std : Forall (std_in false) (m_vInputs demo_vectors) /\ Forall (std_out false) (m_vOutputs demo_vectors).
Proof.
  split; (repeat (constructor; [split; [first [apply demo_point_ok|apply demo_output_ok]|by right]|])); constructor.
Qed.

Lemma normalize_cut_through_witness :
  let v' := (Normalize false demo_vectors).1 in
  vectors_sorted false v' /\ m_vKernels v' ≡ₚ m_vKernels demo_vectors /\
  (exists R : list (Input * Output), 1 = Z.of_nat (length R) /\
     Forall (fun p => CmpInOut false p.1 p.2 = 0) R /\
     m_vInputs demo_vectors ≡ₚ m_vInputs v' ++ R.*1 /\ m_vOutputs demo_vectors ≡ₚ m_vOutputs v' ++ R.*2) /\
  (forall i o, i ∈ m_vInputs v' -> o ∈ m_vOutputs v' -> CmpInOut false i o <> 0).
Proof.
  apply (normalize_cut_through false 1 demo_vectors _ 1 (demo_vectors_ok false) (or_introl demo_vectors_std)).
  vm_compute. reflexivity.
Defined.

(** [IReader::Compare] on two sorted element streams answers whether each
    one covers the other: the first flag says that every element of the other
    stream, with its multiplicity, is among mine, the second one the converse
    (elements that [cmp] does not tell apart count as the same). *)
Theorem reader_compare_inclusion ig n r r' :
  vectors_ok ig n r -> vectors_ok ig n r' -> vectors_sorted ig r -> vectors_sorted ig r' ->
  ((Compare ig r r').1 = true <-> vectors_incl ig r' r) /\
  ((Compare ig r r').2 = true <-> vectors_incl ig r r').
Proof.
  intros H H' S S'. unfold Compare, vectors_incl.
  destruct (COMPARE_TYPE_keys (in_key ig) (Input_cmp ig) _ _ (m_vInputs r) (m_vInputs r') (true, true)
    (cmp_order_element ig) (Input_cmp_key ig) (vo_in_key _ _ _ H) (vo_in_key _ _ _ H') (vs_in _ _ S) (vs_in _ _ S')) as [I1 I2].
  destruct (COMPARE_TYPE_keys (out_key ig) (Output_cmp ig) _ _ (m_vOutputs r) (m_vOutputs r')
    (COMPARE_TYPE (Input_cmp ig) (m_vInputs r) (m_vInputs r') (true, true))
    (cmp_order_output ig) (Output_cmp_key ig) (vo_out _ _ _ H) (vo_out _ _ _ H') (vs_out _ _ S) (vs_out _ _ S')) as [O1 O2].
  destruct (COMPARE_TYPE_keys (kern_key ig) (TxKernel_cmp ig) _ _ (m_vKernels r) (m_vKernels r')
    (COMPARE_TYPE (Output_cmp ig) (m_vOutputs r) (m_vOutputs r')
      (COMPARE_TYPE (Input_cmp ig) (m_vInputs r) (m_vInputs r') (true, true)))
    (cmp_order_kernel ig n) (TxKernel_cmp_key ig) (vo_kern _ _ _ H) (vo_kern _ _ _ H') (vs_kern _ _ S) (vs_kern _ _ S')) as [K1 K2].
  rewrite K1, K2, O1, O2, I1, I2. cbn [fst snd]. tauto.
Qed.

Lemma reader_compare_inclusion_witness :
  let r := mkVectors [demo_input 3; demo_input 5] [demo_output 4 false] [demo_kernel 1 20] in
  let r' := mkVectors [demo_input 3] [demo_output 4 false] [demo_kernel 1 20] in
  Compare false r r' = (true, false) /\
  ((Compare false r r').1 = true <-> vectors_incl false r' r) /\
  ((Compare false r r').2 = true <-> vectors_incl false r r').
Proof.
  cbv zeta. split; [vm_compute; reflexivity|].
  apply (reader_compare_inclusion false 1 (mkVectors [demo_input 3; demo_input 5] [demo_output 4 false] [demo_kernel 1 20])
           (mkVectors [demo_input 3] [demo_output 4 false] [demo_kernel 1 20])).
  1-2: split; repeat (constructor; [first [apply demo_point_ok|apply demo_output_ok|apply demo_kernel_ok]|]); constructor.
  all: split; repeat constructor; vm_compute; discriminate.
Defined.

(** The comparisons of inputs, outputs and kernels (nested kernels
    included) are total preorders on well-formed elements, and they answer 0
    exactly for elements that agree on everything but the ignored members:
    the maturity when it is to be ignored, the identifier of an input, and
    [m_CanEmbed] of a kernel and its nested kernels. *)
Theorem tx_elements_order ig n :
  cmp_pre (Input_cmp ig) (fun i => el_ok ig (in_key ig i)) /\
  cmp_pre (Output_cmp ig) (fun o => out_ok ig (out_key ig o)) /\
  cmp_pre (TxKernel_cmp ig) (fun k => kern_ok ig n (kern_key ig k)) /\
  (forall i i', el_ok ig (in_key ig i) -> el_ok ig (in_key ig i') ->
     Input_cmp ig i i' = 0 <-> in_key ig i = in_key ig i') /\
  (forall o o', out_ok ig (out_key ig o) -> out_ok ig (out_key ig o') ->
     Output_cmp ig o o' = 0 <-> out_key ig o = out_key ig o') /\
  (forall k k', kern_ok ig n (kern_key ig k) -> kern_ok ig n (kern_key ig k') ->
     TxKernel_cmp ig k k' = 0 <-> kern_key ig k = kern_key ig k').
Proof.
  split_and!; [apply input_pre|apply output_pre|apply kernel_pre|..].
  - intros i i' Hi Hi'. rewrite Input_cmp_key. by apply (co_eq _ _ (cmp_order_element ig)).
  - intros o o' Ho Ho'. rewrite Output_cmp_key. by apply (co_eq _ _ (cmp_order_output ig)).
  - intros k k' Hk Hk'. rewrite TxKernel_cmp_key. by apply (co_eq _ _ (cmp_order_kernel ig n)).
Qed.

(** ** The reader runs through the vectors *)
Lemma get_FromVector_lookup {A} (v : list A) i : get_FromVector v i = v !! i.
Proof.
  unfold get_FromVector. destruct (Nat.leb_spec (length v) i); [|done]. symmetry. by apply lookup_ge_None_2.
Qed.

(** The stream in front of a reader. *)
Definition stream_in (r : Reader) : list Input := drop (rd_Idx0 r) (m_vInputs (rd_V r)).
Definition stream_out (r : Reader) : list Output := drop (rd_Idx1 r) (m_vOutputs (rd_V r)).
Definition stream_krn (r : Reader) : list TxKernel := drop (rd_Idx2 r) (m_vKernels (rd_V r)).

Definition reader_ok (r : Reader) : Prop :=
  rd_pUtxoIn r = head (stream_in r) /\ rd_pUtxoOut r = head (stream_out r) /\ rd_pKernel r = head (stream_krn r).

Lemma head_drop {A} (l : list A) i : head (drop i l) = l !! i.
Proof. revert i. induction l as [|x l IH]; intros [|i]; cbn; try done. Qed.

Lemma tail_drop {A} (l : list A) i : tail (drop i l) = drop (S i) l.
Proof. revert i. induction l as [|x l IH]; intros [|i]; cbn; try done. Qed.

(** [TxVectors::Reader] presents the three vectors as streams: after
    [Reset] each pointer is at the first element, and every [Next] operation
    moves its own stream by one element (to the null pointer after the last one)
    and leaves the other two alone. *)
Theorem reader_streams v r :
  reader_ok r ->
  (let r0 := Reader_Reset v in
   reader_ok r0 /\ stream_in r0 = m_vInputs v /\ stream_out r0 = m_vOutputs v /\ stream_krn r0 = m_vKernels v) /\
  (let r1 := NextUtxoIn r in
   reader_ok r1 /\ stream_in r1 = tail (stream_in r) /\ stream_out r1 = stream_out r /\ stream_krn r1 = stream_krn r) /\
  (let r2 := NextUtxoOut r in
   reader_ok r2 /\ stream_in r2 = stream_in r /\ stream_out r2 = tail (stream_out r) /\ stream_krn r2 = stream_krn r) /\
  (let r3 := NextKernel r in
   reader_ok r3 /\ stream_in r3 = stream_in r /\ stream_out r3 = stream_out r /\ stream_krn r3 = tail (stream_krn r)).
Proof.
  intros (Hi & Ho & Hk). cbv zeta. unfold reader_ok, stream_in, stream_out, stream_krn in *.
  cbn [Reader_Reset NextUtxoIn NextUtxoOut NextKernel rd_V rd_Idx0 rd_Idx1 rd_Idx2 rd_pUtxoIn rd_pUtxoOut rd_pKernel].
  rewrite !get_FromVector_lookup, !tail_drop, !head_drop in *. split_and!; done.
Qed.

Lemma reader_streams_witness :
  reader_ok (Reader_Reset demo_vectors) /\
  stream_in (NextUtxoIn (Reader_Reset demo_vectors)) = [demo_input 3].
Proof.
  destruct (reader_streams demo_vectors (Reader_Reset demo_vectors) ltac:(by repeat split)) as ((H1 & _) & (_ & H2 & _) & _).
  split; [exact H1|]. rewrite H2. reflexivity.
Defined.
