(* ===== verification/Ecc.v ===== *)
(** Scalars, curve points, the oracle, Schnorr signatures, switch commitments
    and public range proofs: the parts of [core/ecc.cpp], [core/ecc_native.h]
    and [core/block_crypt.cpp] that are written on top of libsecp256k1.

    The curve itself is third-party code.  It enters as the class [Curve] of
    its operations; [CurveLaws] is what is documented about them: an abelian
    group of order [s_Order] with its encoding of the points.  SHA-256 is the
    parameter [sha256].  The loops that draw from an oracle until the result is
    acceptable are the definitions [Oracle_scalar] and [Oracle_asset]; the class
    [OracleDraws] names their results, [OracleLaws] says that the loops stop
    with them. *)

From S2P Require Import Prelude UintBig EccData Difficulty Merkle UtxoTree Rules TxBase.

(** ** Scalars *)
Definition s_Order : list Z := [
  0xFF;0xFF;0xFF;0xFF;0xFF;0xFF;0xFF;0xFF;0xFF;0xFF;0xFF;0xFF;0xFF;0xFF;0xFF;0xFE;
  0xBA;0xAE;0xDC;0xE6;0xAF;0x48;0xA0;0x3B;0xBF;0xD2;0x5E;0x8C;0xD0;0x36;0x41;0x41].

Definition order : Z := be_val s_Order.

Definition Scalar_IsValid (m_Value : list Z) : bool := _Cmp m_Value s_Order <? 0.

(** [Scalar::Native] is a number below the order; [Import] reduces and reports
    an overflow, as [secp256k1_scalar_set_b32] does. *)
Definition Scalar_Import (v : list Z) : Z * bool := (be_val v mod order, order <=? be_val v).

Definition Scalar_ImportNnz (v : list Z) : option Z :=
  let '(k, overflow) := Scalar_Import v in
  if negb overflow && negb (k =? 0) then Some k else None.

Definition Scalar_Export (k : Z) : list Z := be_bytes 32 k.

Definition scalar_neg (k : Z) : Z := (- k) mod order.
Definition scalar_add (a b : Z) : Z := (a + b) mod order.
Definition scalar_mul (a b : Z) : Z := (a * b) mod order.

(** ** Points *)

(** libsecp256k1: [ge_set] is [secp256k1_fe_set_b32] followed by
    [secp256k1_ge_set_xo_var], [ge_get] the affine coordinates that
    [ExportEx] writes. *)
Class Curve (G : Type) := {
  g_zero : G;
  g_add : G -> G -> G;
  g_neg : G -> G;
  g_mul : Z -> G -> G;
  g_eq_dec :: EqDecision G;
  ge_set : list Z -> Z -> option G;
  ge_get : G -> Point;
  G_raw : G;
  H_raw : G;
  J_raw : G
}.

Class CurveLaws (G : Type) `{!Curve G} : Prop := {
  g_add_comm x y : g_add x y = g_add y x;
  g_add_assoc x y z : g_add x (g_add y z) = g_add (g_add x y) z;
  g_add_0_l x : g_add g_zero x = x;
  g_add_neg x : g_add x (g_neg x) = g_zero;
  g_mul_add a b x : g_mul (a + b) x = g_add (g_mul a x) (g_mul b x);
  g_mul_distr a x y : g_mul a (g_add x y) = g_add (g_mul a x) (g_mul a y);
  g_mul_mul a b x : g_mul a (g_mul b x) = g_mul (a * b) x;
  g_mul_1 x : g_mul 1 x = x;
  g_mul_order x : g_mul order x = g_zero;
  ge_set_get x : x <> g_zero -> ge_set (m_X (ge_get x)) (m_Y (ge_get x)) = Some x;
  ge_set_zero : ge_set zero_hash 0 = None;
  ge_get_ok x : bytes_n 32 (m_X (ge_get x)) /\ 0 <= m_Y (ge_get x) <= 1
}.

Section point.
Context {G : Type} `{!Curve G}.

Definition Point_ImportNnz (v : Point) : option G :=
  if 1 <? m_Y v then None else ge_set (m_X v) (m_Y v).

Definition Point_Import (v : Point) : option G :=
  match Point_ImportNnz v with
  | Some x => Some x
  | None => if memis0 (m_X v) && memis0 [m_Y v] then Some g_zero else None
  end.

Definition Point_Export (x : G) : Point :=
  if decide (x = g_zero) then mkPoint zero_hash 0 else ge_get x.

(** [Tag]: a custom asset has its own value generator. *)
Definition IsCustom (hGen : G) : bool := negb (bool_decide (hGen = g_zero)).

Definition Tag_AddValue (out hGen : G) (v : Z) : G :=
  if IsCustom hGen then g_add out (g_mul v hGen) else g_add out (g_mul v H_raw).

(** [AmountBig::AddTo]: both generators that are used are [H_raw]. *)
Definition AmountBig_AddTo (res : G) (x : list Z) : G :=
  if negb (get_Hi x =? 0) then g_add res (g_mul (Scalar_Import (replicate 16 0 ++ x)).1 H_raw)
  else
    let lo := get_Lo x in
    if negb (lo =? 0) then g_add res (g_mul lo H_raw) else res.
End point.

(** ** The oracle: a hash that is fed and drawn from alternately *)
Section oracle.
Context (sha256 : list Z -> list Z).

(** The state of an oracle is what it was fed with. *)
Definition Oracle_hash (o : list Z) : list Z * list Z :=
  let out := sha256 o in (out, o ++ Write_big out).

Fixpoint Oracle_scalar (fuel : nat) (o : list Z) : option (Z * list Z) :=
  match fuel with
  | O => None
  | S fuel =>
      let '(v, o) := Oracle_hash o in
      match Scalar_ImportNnz v with
      | Some k => Some (k, o)
      | None => Oracle_scalar fuel o
      end
  end.

(** The characters of a literal with the terminating zero. *)
Definition str_a_id : list Z := [97; 45; 105; 100; 0].
Definition str_a_gen : list Z := [97; 45; 103; 101; 110; 0].

Context {G : Type} `{!Curve G}.

(** The loop of the constructor of [SwitchCommitment]. *)
Fixpoint Oracle_asset (fuel : nat) (o : list Z) : option G :=
  match fuel with
  | O => None
  | S fuel =>
      let '(x, o) := Oracle_hash (o ++ str_a_gen) in
      match Point_ImportNnz (mkPoint x 0) with
      | Some g => Some g
      | None => Oracle_asset fuel o
      end
  end.

Class OracleDraws := {
  draw_scalar : list Z -> Z;
  draw_asset : list Z -> G
}.

Class OracleLaws `{!OracleDraws} : Prop := {
  draw_scalar_loop o : exists fuel o', Oracle_scalar fuel o = Some (draw_scalar o, o');
  draw_asset_loop o : exists fuel, Oracle_asset fuel o = Some (draw_asset o)
}.
End oracle.
Arguments OracleDraws G : clear implicits.

(** ** Equations

    A signature or a range proof is valid if some sum of multiples of points is zero.  This is
    decided at once, or, in a thread that has a [BatchContext], later for many equations
    together: then [check_eq] has nothing to say. *)
Class EquationCheck (G : Type) := { check_eq : G -> bool }.

#[export] Instance check_now {G : Type} `{!Curve G} : EquationCheck G := {| check_eq pt := bool_decide (pt = g_zero) |}.
Definition check_later {G : Type} : EquationCheck G := {| check_eq _ := true |}.

(** ** [InnerProduct::BatchContext]

    The sum of the equations so far, each times a multiplier of its own.  The code keeps what it has
    not added up yet in two buffers; here it is added at once. *)
Section batch.
Context {G : Type} `{!Curve G, !OracleDraws G}.

Record BatchContext := mkBatch { bc_bDirty : bool; bc_Multiplier : Z; bc_Sum : G }.

(** [rnd] is the random scalar of the first equation. *)
Definition EquationBegin (rnd : Z) (bc : BatchContext) : BatchContext :=
  mkBatch true
    (if bc_Multiplier bc =? 0 then rnd else draw_scalar (Write_big (Scalar_Export (bc_Multiplier bc))))
    (if negb (bc_bDirty bc) then g_zero else bc_Sum bc).

(** [AddCasual] and [AddPrepared]. *)
Definition bc_Add (bc : BatchContext) (pt : G) (k : Z) : BatchContext :=
  mkBatch (bc_bDirty bc) (bc_Multiplier bc) (g_add (bc_Sum bc) (g_mul (scalar_mul k (bc_Multiplier bc)) pt)).

Definition bc_Reset (bc : BatchContext) : BatchContext := mkBatch false (bc_Multiplier bc) (bc_Sum bc).

Definition bc_Flush (bc : BatchContext) : bool * BatchContext :=
  if negb (bc_bDirty bc) then (true, bc)
  else (bool_decide (bc_Sum bc = g_zero), mkBatch false (bc_Multiplier bc) (bc_Sum bc)).

(** An equation whose terms have the sum [E]. *)
Definition bc_Equation (rnd : Z) (bc : BatchContext) (E : G) : BatchContext := bc_Add (EquationBegin rnd bc) E 1.
End batch.
Arguments BatchContext G : clear implicits.

(** ** Signatures *)
Section signature.
Context (sha256 : list Z -> list Z) {G : Type} `{!Curve G, !OracleDraws G, !EquationCheck G}.

Definition get_Challenge (pt : Point) (msg : list Z) : Z := draw_scalar (Write_Point pt ++ Write_big msg).

(** [MultiSig]: the own nonce and the sum of all public nonces. *)
Record MultiSig := mkMultiSig { ms_Nonce : Z; ms_NoncePub : G }.

Definition SignPartial (m : MultiSig) (msg : list Z) (sk : Z) : Z :=
  let k := get_Challenge (Point_Export (ms_NoncePub m)) msg in
  let k := scalar_mul k sk in
  let k := scalar_add k (ms_Nonce m) in
  scalar_neg k.

(** The nonce comes from the nonce generator. *)
Definition Sign (msg : list Z) (sk nonce : Z) : Signature :=
  let msig := mkMultiSig nonce (g_mul nonce G_raw) in
  let k := SignPartial msig msg sk in
  mkSig (Point_Export (ms_NoncePub msig)) (Scalar_Export k).

(** The equation of a signature. *)
Definition Signature_equation (s : Signature) (msg : list Z) (pubNonce pk : G) : G :=
  let e := get_Challenge (m_NoncePub s) msg in
  let pt := g_mul (Scalar_Import (m_k s)).1 G_raw in
  let pt := g_add pt (g_mul e pk) in
  g_add pt pubNonce.

Definition IsValidPartial (s : Signature) (msg : list Z) (pubNonce pk : G) : bool := check_eq (Signature_equation s msg pubNonce pk).

(** What it does to the batch, when there is one; its result is [true] then. *)
Definition IsValidPartial_batch (rnd : Z) (bc : BatchContext G) (s : Signature) (msg : list Z) (pubNonce pk : G) : BatchContext G :=
  let e := get_Challenge (m_NoncePub s) msg in
  let bc := EquationBegin rnd bc in
  let bc := bc_Add bc G_raw (Scalar_Import (m_k s)).1 in
  let bc := bc_Add bc pk e in
  bc_Add bc pubNonce 1.

Definition Signature_IsValid (s : Signature) (msg : list Z) (pk : G) : bool :=
  match Point_Import (m_NoncePub s) with
  | None => false
  | Some pubNonce => IsValidPartial s msg pubNonce pk
  end.

(** ** Public range proofs *)
Definition s_MinimumValue : Z := 1.

Definition get_PtMinusVal (comm : G) (val : Z) (hGen : G) : G :=
  let ptAmount := Tag_AddValue g_zero hGen val in
  g_add comm (g_neg ptAmount).

Definition Public_get_Msg (p : PublicProof) (o : list Z) : list Z :=
  (Oracle_hash sha256 (o ++ Write_uint (p_Value p) ++ Write_big (p_Recovery p))).1.

Definition Public_IsValid (p : PublicProof) (comm : G) (o : list Z) (hGen : G) : bool :=
  if p_Value p <? s_MinimumValue then false
  else
    let pk := get_PtMinusVal comm (p_Value p) hGen in
    let hv := Public_get_Msg p o in
    Signature_IsValid (p_Signature p) hv pk.

(** [recovery] is the encrypted key id and its checksum. *)
Definition Public_Create (sk nonce v : Z) (recovery o : list Z) : PublicProof :=
  let p := mkPublic (mkSig (mkPoint zero_hash 0) zero_hash) v recovery in
  let hv := Public_get_Msg p o in
  mkPublic (Sign hv sk nonce) v recovery.

(** ** Switch commitments *)
Definition SwitchCommitment (aid : list Z) : G :=
  if negb (_Cmp aid zero_hash =? 0) then draw_asset (str_a_id ++ Write_big aid) else g_zero.

Definition get_sk1 (comm0 sk0_J : G) : Z :=
  draw_scalar (Write_Point (Point_Export comm0) ++ Write_Point (Point_Export sk0_J)).

(** [sk] is the key derived from the key id; the result is the final key and
    the commitment. *)
Definition SwitchCommitment_Create (hGen : G) (sk v : Z) : Z * G :=
  let comm := g_mul sk G_raw in
  let comm := Tag_AddValue comm hGen v in
  let sk0_J := g_mul sk J_raw in
  let sk1 := get_sk1 comm sk0_J in
  (scalar_add sk sk1, g_add comm (g_mul sk1 G_raw)).

(** [pkG] and [pkJ] are the public keys derived from the key id. *)
Definition SwitchCommitment_Recover (hGen pkG pkJ : G) (v : Z) : G :=
  let res := Tag_AddValue pkG hGen v in
  let sk1 := get_sk1 res pkJ in
  g_add res (g_mul sk1 G_raw).
End signature.

(** * Facts *)
Lemma order_bounds : 1 < order < 2 ^ 256.
Proof. vm_compute. done. Qed.

Section group.
Context {G : Type} `{!Curve G, !CurveLaws G}.

Lemma g_add_0_r x : g_add x g_zero = x.
Proof. by rewrite g_add_comm, g_add_0_l. Qed.

Lemma g_add_cancel x y z : g_add x y = g_add x z -> y = z.
Proof.
  intros E. rewrite <- (g_add_0_l y), <- (g_add_0_l z), <- (g_add_neg x), (g_add_comm x), <- !g_add_assoc. by rewrite E.
Qed.

Lemma g_neg_unique x y : g_add x y = g_zero -> y = g_neg x.
Proof. intros E. apply (g_add_cancel x). by rewrite E, g_add_neg. Qed.

Lemma g_neg_0 : g_neg g_zero = g_zero.
Proof. symmetry. apply g_neg_unique, g_add_0_l. Qed.

Lemma g_neg_neg x : g_neg (g_neg x) = x.
Proof. symmetry. apply g_neg_unique. by rewrite g_add_comm, g_add_neg. Qed.

Lemma g_add_swap x y z : g_add x (g_add y z) = g_add y (g_add x z).
Proof. by rewrite !g_add_assoc, (g_add_comm x). Qed.

Lemma g_neg_add x y : g_neg (g_add x y) = g_add (g_neg x) (g_neg y).
Proof.
  symmetry. apply g_neg_unique.
  by rewrite <- !g_add_assoc, (g_add_swap y), (g_add_assoc x), !g_add_neg, g_add_0_l.
Qed.

Lemma g_mul_0 x : g_mul 0 x = g_zero.
Proof. apply (g_add_cancel (g_mul 0 x)). by rewrite <- g_mul_add, g_add_0_r. Qed.

Lemma g_mul_neg a x : g_mul (- a) x = g_neg (g_mul a x).
Proof. apply g_neg_unique. rewrite <- g_mul_add. replace (a + - a) with 0 by lia. apply g_mul_0. Qed.

Lemma g_mul_zero a : g_mul a g_zero = g_zero.
Proof. rewrite <- (g_mul_0 g_zero) at 1. by rewrite g_mul_mul, Z.mul_0_r, g_mul_0. Qed.

Lemma g_mul_mod a x : g_mul (a mod order) x = g_mul a x.
Proof.
  pose proof order_bounds. rewrite (Z.div_mod a order) at 2 by lia.
  by rewrite g_mul_add, Z.mul_comm, <- g_mul_mul, g_mul_order, g_mul_zero, g_add_0_l.
Qed.

Lemma g_mul_scalar_add a b x : g_mul (scalar_add a b) x = g_add (g_mul a x) (g_mul b x).
Proof. unfold scalar_add. by rewrite g_mul_mod, g_mul_add. Qed.

Lemma Point_Import_Export x : Point_Import (Point_Export x) = Some x.
Proof.
  unfold Point_Export. case_decide as E.
  - subst x. unfold Point_Import, Point_ImportNnz. cbn [m_X m_Y]. change (1 <? 0) with false. cbv iota.
    by rewrite ge_set_zero.
  - unfold Point_Import, Point_ImportNnz. pose proof (ge_get_ok x) as [_ Hy].
    rewrite (proj2 (Z.ltb_ge _ _)) by lia. by rewrite ge_set_get.
Qed.

(** Both branches of [AddTo] add the amount times [H]. *)
Lemma AmountBig_AddTo_spec res x : bytes_n 16 x -> AmountBig_AddTo res x = g_add res (g_mul (be_val x) H_raw).
Proof.
  intros [Hx Lx]. pose proof (be_val_bound x Hx) as Hb. rewrite Lx in Hb. rewrite radix_pow2 in Hb. change (8 * Z.of_nat 16) with 128 in Hb.
  assert (forall k, (k <= 1)%nat -> ExportWord k 8 x = be_val (take 8 (drop (8 * k) x))) as Hw.
  { intros k Hk. apply _ExportAligned_spec; [by apply Forall_take, Forall_drop|..]; rewrite length_take, length_drop; lia. }
  unfold AmountBig_AddTo, get_Hi, get_Lo. rewrite !Hw by lia. change (8 * 0)%nat with 0%nat. change (8 * 1)%nat with 8%nat.
  pose proof (be_val_split x 8) as E. rewrite (take_ge (drop 8 x) 8) by (rewrite length_drop; lia).
  destruct (Z.eqb_spec (be_val (take 8 (drop 0 x))) 0) as [E0|_]; cbn [negb].
  - rewrite drop_0 in E0. rewrite E0, Z.mul_0_l, Z.add_0_l in E. rewrite <- E.
    destruct (Z.eqb_spec (be_val x) 0) as [->|]; cbn [negb]; [|done]. by rewrite g_mul_0, g_add_0_r.
  - unfold Scalar_Import. rewrite be_val_app, be_val_zeros, Z.mul_0_l, Z.add_0_l. cbn [fst]. by rewrite g_mul_mod.
Qed.

Definition g_sum (l : list G) : G := foldr g_add g_zero l.

Lemma g_sum_app l k : g_sum (l ++ k) = g_add (g_sum l) (g_sum k).
Proof. induction l as [|x l IH]; cbn; [by rewrite g_add_0_l|]. fold (g_sum (l ++ k)). by rewrite IH, g_add_assoc. Qed.

Lemma g_sum_perm l k : l ≡ₚ k -> g_sum l = g_sum k.
Proof.
  induction 1 as [|x l k _ IH|x y l|l k m _ IH1 _ IH2]; cbn; [done|by f_equal| |congruence].
  apply g_add_swap.
Qed.
End group.

Lemma Scalar_Import_Export k : 0 <= k < order -> Scalar_Import (Scalar_Export k) = (k, false).
Proof.
  intros Hk. pose proof order_bounds as Ho. unfold Scalar_Import, Scalar_Export.
  assert (be_val (be_bytes 32 k) = k) as ->.
  { rewrite be_val_be_bytes. apply Z.mod_small. rewrite radix_pow2. change (8 * Z.of_nat 32) with 256. lia. }
  rewrite Z.mod_small by lia. by rewrite (proj2 (Z.leb_gt order k)) by lia.
Qed.

Lemma scalar_add_range a b : 0 <= scalar_add a b < order.
Proof. apply Z.mod_pos_bound. apply order_bounds. Qed.

Lemma scalar_neg_range a : 0 <= scalar_neg a < order.
Proof. apply Z.mod_pos_bound. apply order_bounds. Qed.

Section schnorr.
Context (sha256 : list Z -> list Z) {G : Type} `{!Curve G, !CurveLaws G, !OracleDraws G}.

Definition s_sum (l : list Z) : Z := foldr scalar_add 0 l.

Lemma s_sum_range l : 0 <= s_sum l < order.
Proof. destruct l; [pose proof order_bounds; change (s_sum []) with 0; lia|apply scalar_add_range]. Qed.

(** What one co-signer contributes. *)
Lemma SignPartial_mul m msg sk :
  g_mul (SignPartial m msg sk) G_raw
    = g_neg (g_add (g_mul (get_Challenge (Point_Export (ms_NoncePub m)) msg) (g_mul sk G_raw)) (g_mul (ms_Nonce m) G_raw)).
Proof.
  unfold SignPartial, scalar_neg. rewrite g_mul_mod, g_mul_neg, g_mul_scalar_add. f_equal. f_equal.
  unfold scalar_mul. by rewrite g_mul_mod, g_mul_mul.
Qed.

(** The equation the verifier checks. *)
Lemma signature_equation nonces sks noncePub msg :
  length nonces = length sks ->
  let e := get_Challenge (Point_Export noncePub) msg in
  let ks := zip_with (fun nonce sk => SignPartial (mkMultiSig nonce noncePub) msg sk) nonces sks in
  g_mul (s_sum ks) G_raw
    = g_neg (g_add (g_mul e (g_sum ((fun sk => g_mul sk G_raw) <$> sks))) (g_sum ((fun n => g_mul n G_raw) <$> nonces))).
Proof.
  cbv zeta. revert sks. induction nonces as [|n nonces IH]; intros [|sk sks] Hl; try done.
  - cbn. by rewrite g_mul_0, g_mul_zero, g_add_0_l, g_neg_0.
  - cbn [zip_with s_sum foldr fmap list_fmap g_sum]. fold (s_sum (zip_with (fun nonce sk =>
      SignPartial (mkMultiSig nonce noncePub) msg sk) nonces sks)).
    rewrite g_mul_scalar_add, SignPartial_mul, IH by (cbn in Hl; lia). cbn [ms_Nonce ms_NoncePub].
    rewrite <- g_neg_add, g_mul_distr. f_equal. rewrite <- !g_add_assoc. f_equal.
    rewrite !g_add_assoc. f_equal. apply g_add_comm.
Qed.

Lemma Signature_IsValid_spec noncePub k msg pk :
  0 <= k < order ->
  g_mul k G_raw = g_neg (g_add (g_mul (get_Challenge (Point_Export noncePub) msg) pk) noncePub) ->
  Signature_IsValid (mkSig (Point_Export noncePub) (Scalar_Export k)) msg pk = true.
Proof.
  intros Hk E. unfold Signature_IsValid, IsValidPartial, Signature_equation. cbn [m_NoncePub m_k check_eq check_now].
  rewrite Point_Import_Export, Scalar_Import_Export by done. cbn [fst]. apply bool_decide_eq_true.
  by rewrite <- g_add_assoc, g_add_comm, E, g_add_neg.
Qed.

(** In a batch, the same equation is added. *)
Lemma IsValidPartial_batch_equation rnd bc s msg pubNonce pk :
  IsValidPartial_batch rnd bc s msg pubNonce pk = bc_Equation rnd bc (Signature_equation s msg pubNonce pk).
Proof.
  unfold IsValidPartial_batch, bc_Equation, bc_Add, Signature_equation. cbn [bc_bDirty bc_Multiplier bc_Sum]. f_equal. set (m := bc_Multiplier _).
  assert (forall k x, g_mul (scalar_mul k m) x = g_mul m (g_mul k x)) as E by (intros k x; unfold scalar_mul; by rewrite g_mul_mod, Z.mul_comm, g_mul_mul).
  rewrite !E, !g_mul_1, !g_mul_distr, !g_add_assoc. done.
Qed.

(** A signature of a single signer is valid. *)
Lemma Sign_valid msg sk nonce : Signature_IsValid (Sign msg sk nonce) msg (g_mul sk G_raw) = true.
Proof.
  apply Signature_IsValid_spec; [apply scalar_neg_range|]. by rewrite SignPartial_mul.
Qed.

(** Schnorr multi-signatures. When any number of co-signers agree on the
    sum of their public nonces and each one signs partially with its own nonce
    and key, then the sum of the partial signatures, with that nonce, is a
    valid signature of the message for the sum of the public keys. *)
Theorem multisig_valid nonces sks msg :
  length nonces = length sks ->
  let noncePub := g_sum ((fun n => g_mul n G_raw) <$> nonces) in
  let ks := zip_with (fun nonce sk => SignPartial (mkMultiSig nonce noncePub) msg sk) nonces sks in
  Signature_IsValid (mkSig (Point_Export noncePub) (Scalar_Export (s_sum ks))) msg
    (g_sum ((fun sk => g_mul sk G_raw) <$> sks)) = true.
Proof.
  intros Hl. cbv zeta. apply Signature_IsValid_spec; [apply s_sum_range|]. by apply signature_equation.
Qed.
End schnorr.

(** ** What the loops of the oracle yield *)
Section draws.
Context (sha256 : list Z -> list Z) {G : Type} `{!Curve G}.

Lemma Oracle_scalar_more fuel fuel' o r :
  (fuel <= fuel')%nat -> Oracle_scalar sha256 fuel o = Some r -> Oracle_scalar sha256 fuel' o = Some r.
Proof.
  revert fuel' o. induction fuel as [|fuel IH]; intros [|fuel'] o Hf E; try done; [lia|].
  cbn [Oracle_scalar] in *. unfold Oracle_hash in *. destruct (Scalar_ImportNnz _); [done|]. apply IH; [lia|done].
Qed.

Lemma Oracle_scalar_range fuel o k o' : Oracle_scalar sha256 fuel o = Some (k, o') -> 0 < k < order.
Proof.
  revert o. induction fuel as [|fuel IH]; intros o E; [done|]. cbn [Oracle_scalar] in E. unfold Oracle_hash in E.
  destruct (Scalar_ImportNnz (sha256 o)) as [k'|] eqn:Ei; [|by apply IH in E].
  injection E as -> <-. unfold Scalar_ImportNnz, Scalar_Import in Ei.
  pose proof (Z.mod_pos_bound (be_val (sha256 o)) order ltac:(pose proof order_bounds; lia)) as Hm.
  destruct (order <=? _); [done|]. destruct (Z.eqb_spec (be_val (sha256 o) mod order) 0); [done|].
  cbn [negb andb] in Ei. injection Ei as <-. lia.
Qed.

Context `{!OracleDraws G, !OracleLaws sha256}.

(** The loop, given rounds enough, returns the named result, a non-zero
    scalar. *)
Lemma draw_scalar_spec o :
  0 < draw_scalar (G := G) o < order /\
  forall fuel k o', Oracle_scalar sha256 fuel o = Some (k, o') -> k = draw_scalar (G := G) o.
Proof.
  destruct (draw_scalar_loop sha256 (G := G) o) as (f & o1 & E1). split; [by apply Oracle_scalar_range in E1|].
  intros fuel k o' E. apply (Oracle_scalar_more f (f + fuel)) in E1; [|lia].
  apply (Oracle_scalar_more fuel (f + fuel)) in E; [|lia]. congruence.
Qed.
End draws.

(** ** Coins *)
Section coins.
Context (sha256 : list Z -> list Z) {G : Type} `{!Curve G, !CurveLaws G, !OracleDraws G, !OracleLaws sha256}.

Lemma Tag_AddValue_add x y hGen v : Tag_AddValue (g_add x y) hGen v = g_add (Tag_AddValue x hGen v) y.
Proof. unfold Tag_AddValue. destruct (IsCustom hGen); by rewrite <- !g_add_assoc, (g_add_comm y). Qed.

Lemma Tag_AddValue_zero x hGen v : Tag_AddValue x hGen v = g_add x (Tag_AddValue g_zero hGen v).
Proof. unfold Tag_AddValue. destruct (IsCustom hGen); by rewrite g_add_0_l. Qed.

(** Coins with a visible value. For the key of a coin and an amount of at
    least one, [SwitchCommitment::Create] yields a commitment that opens to
    the amount under the returned key, [SwitchCommitment::Recover] finds the
    same commitment from the two public keys of the coin alone, and the public
    range proof created with the returned key is valid for the commitment. *)
Theorem coin_public_roundtrip hGen sk v nonce recovery o :
  s_MinimumValue <= v ->
  let '(sk', comm) := SwitchCommitment_Create hGen sk v in
  0 <= sk' < order /\ comm = Tag_AddValue (g_mul sk' G_raw) hGen v /\
  SwitchCommitment_Recover hGen (g_mul sk G_raw) (g_mul sk J_raw) v = comm /\
  Public_IsValid sha256 (Public_Create sha256 sk' nonce v recovery o) comm o hGen = true.
Proof.
  intros Hv. unfold SwitchCommitment_Create. cbv zeta.
  set (sk1 := get_sk1 _ _). assert (0 < sk1 < order) as Hsk1 by apply (proj1 (draw_scalar_spec sha256 _)).
  assert (Tag_AddValue (g_mul (scalar_add sk sk1) G_raw) hGen v
            = g_add (Tag_AddValue (g_mul sk G_raw) hGen v) (g_mul sk1 G_raw)) as Ho.
  { by rewrite g_mul_scalar_add, Tag_AddValue_add. }
  split_and!; [apply scalar_add_range..|done|done|].
  unfold Public_IsValid, Public_Create. cbn [p_Value p_Signature p_Recovery].
  rewrite (proj2 (Z.ltb_ge _ _)) by done. cbv zeta.
  rewrite <- Ho. unfold get_PtMinusVal. rewrite Tag_AddValue_zero, <- g_add_assoc, g_add_neg, g_add_0_r.
  apply Sign_valid.
Qed.
End coins.

(** ** A small instance

    The numbers below the order under addition, encoded as themselves. *)
Module Demo.
Definition zn : Type := { z : Z | bool_decide (0 <= z < order) }.

Lemma zn_mod_ok (z : Z) : bool_decide (0 <= z mod order < order).
Proof. apply bool_decide_pack, Z.mod_pos_bound. apply order_bounds. Qed.

Definition zn_of (z : Z) : zn := (z mod order) ↾ zn_mod_ok z.

Lemma zn_eq (x y : zn) : `x = `y -> x = y.
Proof. apply dsig_eq. Qed.

Lemma zn_range (x : zn) : 0 <= `x < order.
Proof. exact (bool_decide_unpack _ (proj2_sig x)). Qed.

#[export] Instance zn_curve : Curve zn := {|
  g_zero := zn_of 0;
  g_add x y := zn_of (`x + `y);
  g_neg x := zn_of (- `x);
  g_mul a x := zn_of (a * `x);
  g_eq_dec := _;
  ge_set X y := if bool_decide (0 < be_val X < order /\ y = 0) then Some (zn_of (be_val X)) else None;
  ge_get x := mkPoint (be_bytes 32 (`x)) 0;
  G_raw := zn_of 1;
  H_raw := zn_of 1000003;
  J_raw := zn_of 5
|}.

Lemma zn_mod (x : zn) : `x mod order = `x.
Proof. apply Z.mod_small, zn_range. Qed.

Lemma be_bytes_small z : 0 <= z < order -> be_val (be_bytes 32 z) = z.
Proof.
  intros Hz. pose proof order_bounds as Ho. rewrite be_val_be_bytes. apply Z.mod_small.
  rewrite radix_pow2. change (8 * Z.of_nat 32) with 256. lia.
Qed.

#[export] Instance zn_laws : CurveLaws zn.
Proof.
  pose proof order_bounds as Ho.
  split; intros; try (apply zn_eq; cbn [proj1_sig g_zero g_add g_neg g_mul zn_curve zn_of]).
  - by rewrite Z.add_comm.
  - rewrite Z.add_mod_idemp_r, Z.add_mod_idemp_l by lia. by rewrite Z.add_assoc.
  - rewrite Z.mod_0_l by lia. rewrite Z.add_0_l. apply zn_mod.
  - rewrite Z.add_mod_idemp_r by lia. by rewrite Z.add_opp_diag_r.
  - rewrite Z.mul_add_distr_r, Z.add_mod by lia. done.
  - rewrite Z.mul_mod_idemp_r, Z.mul_add_distr_l, Z.add_mod by lia. done.
  - rewrite Z.mul_mod_idemp_r by lia. by rewrite Z.mul_assoc.
  - rewrite Z.mul_1_l. apply zn_mod.
  - rewrite Z.mul_comm, Z.mod_mul by lia. done.
  - cbn [ge_get ge_set zn_curve m_X m_Y]. pose proof (zn_range x) as Hr. rewrite be_bytes_small by done.
    rewrite bool_decide_eq_true_2.
    + f_equal. apply zn_eq, zn_mod.
    + split; [|done]. split; [|lia]. assert (`x <> 0); [|lia]. intros E. apply H. apply zn_eq. rewrite E. symmetry. apply Z.mod_0_l. lia.
  - cbn [ge_set zn_curve]. rewrite bool_decide_eq_false_2; [done|].
    assert (be_val zero_hash = 0) as -> by (vm_compute; done). lia.
  - cbn [ge_get zn_curve m_X m_Y]. split; [|lia]. split; [apply bytes_ok_be_bytes|apply length_be_bytes].
Qed.

(** A hash whose value is always acceptable. *)
Definition demo_sha (l : list Z) : list Z := be_bytes 32 (1 + be_val l mod 1000).

#[export] Instance zn_draws : OracleDraws zn := {|
  draw_scalar o := 1 + be_val o mod 1000;
  draw_asset o := zn_of (1 + be_val (o ++ str_a_gen) mod 1000)
|}.

Lemma demo_small o : 0 < 1 + be_val o mod 1000 < order.
Proof. pose proof (Z.mod_pos_bound (be_val o) 1000 ltac:(lia)). assert (2000 < order) by (vm_compute; done). lia. Qed.

#[export] Instance zn_oracle : OracleLaws demo_sha.
Proof.
  split.
  - intros o. exists 1%nat. eexists. cbn [Oracle_scalar Oracle_hash].
    pose proof (demo_small o) as Hs. unfold Scalar_ImportNnz, Scalar_Import, demo_sha.
    rewrite be_bytes_small, (Z.mod_small _ order) by lia. rewrite (proj2 (Z.leb_gt _ _)), (proj2 (Z.eqb_neq _ _)) by lia. done.
  - intros o. exists 1%nat. cbn [Oracle_asset Oracle_hash].
    pose proof (demo_small (o ++ str_a_gen)) as Hs. unfold Point_ImportNnz, demo_sha. cbn [m_X m_Y ge_set zn_curve].
    change (1 <? 0) with false. cbv iota. rewrite be_bytes_small by lia. by rewrite bool_decide_eq_true_2.
Qed.
End Demo.
Import Demo.

Lemma multisig_valid_witness :
  let noncePub := g_sum ((fun n => g_mul n G_raw) <$> [5; 6]) in
  let ks := zip_with (fun nonce sk => SignPartial (mkMultiSig nonce noncePub) [1; 2] sk) [5; 6] [11; 12] in
  Signature_IsValid (G := zn) (mkSig (Point_Export noncePub) (Scalar_Export (s_sum ks))) [1; 2]
    (g_sum ((fun sk => g_mul sk G_raw) <$> [11; 12])) = true.
Proof. apply (multisig_valid (G := zn) [5; 6] [11; 12] [1; 2]). reflexivity. Defined.

Lemma coin_public_roundtrip_witness :
  let '(sk', comm) := SwitchCommitment_Create (G := zn) g_zero 77 3 in
  0 <= sk' < order /\ comm = Tag_AddValue (g_mul sk' G_raw) g_zero 3 /\
  SwitchCommitment_Recover g_zero (g_mul 77 G_raw) (g_mul 77 J_raw) 3 = comm /\
  Public_IsValid demo_sha (Public_Create (G := zn) demo_sha sk' 9 3 (replicate 48 0) []) comm [] g_zero = true.
Proof. apply (coin_public_roundtrip (G := zn) demo_sha g_zero 77 3 9 (replicate 48 0) []). vm_compute. discriminate. Defined.
