(* ===== verification/ChainWork.v ===== *)
(** Chain-work proofs: [Block::ChainWorkProof] of [core/chainwork.cpp].

    A prover convinces a light client of the work behind a header: points of the
    work axis are sampled, from the header down, by an oracle that is fed with the
    hash of the header, and for every point the proof holds the header whose work
    covers it, with its place in the history of the tip.  Consecutive headers at the
    end are compressed into a heading, the Merkle proofs of the others are
    one [MultiProof].

    The rejection loop of [UniformRandom] runs as long as the hash function makes
    it; [draws] is the number of its rounds, and [None] says that this was not
    enough.  The source of the prover, which in the node is the database, is
    [get_StateAt] and a tree of hashes. *)

From S2P Require Import Prelude UintBig EccData Difficulty Merkle MultiProof UtxoTree Rules SystemState Ecc.

(** ** Data *)

(** [SystemState::Sequence]. *)
Record Prefix := mkPrefix { p_Height : Z; p_Prev : list Z; p_ChainWork : list Z }.
Record Element := mkElement { e_Kernels : list Z; e_Definition : list Z; e_TimeStamp : Z; e_PoW : PoW }.

Definition prefix_of (s : Full) : Prefix := mkPrefix (s_Height s) (s_Prev s) (s_ChainWork s).
Definition element_of (s : Full) : Element := mkElement (s_Kernels s) (s_Definition s) (s_TimeStamp s) (s_PoW s).
Definition full_of (p : Prefix) (e : Element) : Full :=
  mkFull (p_Height p) (p_Prev p) (p_ChainWork p) (e_Kernels e) (e_Definition e) (e_TimeStamp e) (e_PoW e).

Record ChainWorkProof := mkCwp {
  cw_Prefix : Prefix;
  cw_vElements : list Element;
  cw_vArbitraryStates : list Full;
  cw_vData : list (list Z);
  cw_hvRootLive : list Z;
  cw_LowerBound : list Z
}.

Definition raw_zero : list Z := replicate Raw_nBytes 0.

Definition ZeroInit (p : ChainWorkProof) : ChainWorkProof :=
  mkCwp (mkPrefix 0 zhash raw_zero) (cw_vElements p) (cw_vArbitraryStates p) (cw_vData p) zhash raw_zero.
Definition Reset (p : ChainWorkProof) : ChainWorkProof :=
  let p := ZeroInit p in mkCwp (cw_Prefix p) [] [] [] (cw_hvRootLive p) (cw_LowerBound p).

(** ** [Sampler] *)
Record Sampler := mkSampler { sm_Oracle : list Z; sm_Begin : list Z; sm_End : list Z }.

Definition uintBigFrom16 (x : Z) : list Z := AssignOrdinal 2 (replicate 2 0) x.

(** The upper part of the product with 635, which is 1/103 of 65536. *)
Definition TakeFraction (v : list Z) : list Z := take (length v) (mul v (uintBigFrom16 635)).

Definition lt_raw (a b : list Z) : bool := _Cmp a b <? 0.
Definition add_raw (a b : list Z) : list Z := (_Inc_any a b).1.

Definition chain_lo (s : Full) : list Z := raw_sub (s_ChainWork s) (m_Difficulty (s_PoW s)).

Section chainwork.
Context (sha256 : list Z -> list Z) (r : Rules).
Context (IsValidSolution : list Z -> list Z -> list Z -> bool).
Context (draws : nat).
Abbreviation h2 := (hash2 sha256).

Definition Sampler_new (sTip : Full) : Sampler :=
  mkSampler (Write_big (get_Hash sha256 r sTip)) (chain_lo sTip) (s_ChainWork sTip).

(** The value and the oracle after it. *)
Fixpoint UniformRandom_loop (fuel : nat) (o threshold : list Z) : option (list Z * list Z) :=
  match fuel with
  | O => None
  | S fuel =>
      let '(out, o) := Oracle_hash sha256 o in
      let '(out, ok) := _Accept out threshold (_GetOrder threshold) in
      if ok then Some (out, o) else UniformRandom_loop fuel o threshold
  end.

(** [Some None] is [false]. *)
Definition UniformRandom (o threshold : list Z) : option (option (list Z * list Z)) :=
  if _GetOrder threshold =? 0 then Some None else Some <$> UniformRandom_loop draws o threshold.

(** [SamplePoint]: the sampler and the point, if there is another one. *)
Definition SamplePoint (lowerBound : list Z) (sm : Sampler) : option (Sampler * option (list Z)) :=
  let range := TakeFraction (add_raw (Negate (sm_Begin sm)) (sm_End sm)) in
  let range := if memis0 range then AssignOrdinal 4 range 1 else range in
  let bAllCovered := negb (lt_raw range (sm_Begin sm)) in
  res ← UniformRandom (sm_Oracle sm) range;
  '(out, o) ← res;
  let range := Negate range in
  let out := add_raw (add_raw out (sm_Begin sm)) range in
  if lt_raw out lowerBound || negb (lt_raw out (sm_Begin sm)) then Some (mkSampler o (sm_Begin sm) (sm_End sm), None)
  else Some (mkSampler o (if bAllCovered then raw_zero else add_raw (sm_Begin sm) range) (sm_End sm), Some out).

(** [if (samp.m_Begin > dLo) samp.m_Begin = dLo]. *)
Definition Cut (sm : Sampler) (dLo : list Z) : Sampler :=
  mkSampler (sm_Oracle sm) (if lt_raw dLo (sm_Begin sm) then dLo else sm_Begin sm) (sm_End sm).

(** ** Enumeration of the states *)
Section walker.
Context {W : Type} (OnState : W -> Full -> bool -> W * bool).

(** The elements from the last one, which is the lowest, to the tip; [prev] is
    the state before. *)
Fixpoint Heading_loop (w : W) (prev : option Full) (prefix : Prefix) (l : list Element) : W * bool :=
  match l with
  | [] => (w, true)
  | e :: l =>
      let bTip := match l with [] => true | _ => false end in
      let s :=
        match prev with
        | None => full_of prefix e
        | Some s =>
            let s := full_of (prefix_of (NextPrefix sha256 r s)) e in
            full_of (mkPrefix (s_Height s) (s_Prev s) (raw_add_assign (s_ChainWork s) (m_Difficulty (s_PoW s)))) e
        end in
      let '(w, ok) := OnState w s bTip in
      if negb ok then (w, false)
      else if bTip then (w, true)
      else Heading_loop w (Some s) prefix l
  end.

Definition EnumStatesHeadingOnly (p : ChainWorkProof) (w : W) : W * bool :=
  match cw_vElements p with
  | [] => (w, false)
  | _ => Heading_loop w None (cw_Prefix p) (reverse (cw_vElements p))
  end.

Fixpoint Arbitrary_loop (w : W) (l : list Full) : W * bool :=
  match l with
  | [] => (w, true)
  | s :: l => let '(w, ok) := OnState w s false in if negb ok then (w, false) else Arbitrary_loop w l
  end.

Definition EnumStates (p : ChainWorkProof) (w : W) : W * bool :=
  let '(w, ok) := Arbitrary_loop w (reverse (cw_vArbitraryStates p)) in
  if negb ok then (w, false) else EnumStatesHeadingOnly p w.
End walker.

Definition UnpackStates (p : ChainWorkProof) (v : list Full) : list Full :=
  (EnumStates (fun v s _ => (v ++ [s], true)) p v).1.

(** ** [IsValid] *)

(** [StateVerifier]: the tip when it was met. *)
Definition StateVerifier (w : option Full) (s : Full) (bIsTip : bool) : option Full * bool :=
  if negb (IsValid sha256 r IsValidSolution s) then (w, false) else (if bIsTip then Some s else w, true).

(** [MyVerifier::IsRootValid]. *)
Definition IsRootValid (p : ChainWorkProof) (hvRootDefinition hv : list Z) : bool :=
  _Cmp (h2 hv (cw_hvRootLive p)) hvRootDefinition =? 0.

(** A state that is not in the heading: how it is tied to the one above it. *)
Definition Check_link (p : ChainWorkProof) (def : list Z) (m_Count : Z) (ver : Verifier) (s s0 : Full) (dLoPrev : list Z) : option (option (Verifier (Hash := list Z))) :=
  let ver := set_hvPos ver (get_Hash sha256 r s) in
  if u64 (s_Height s + 1) =? s_Height s0 then
    if negb (_Cmp (s_Prev s0) (v_hvPos ver) =? 0) then Some None
    else if negb (_Cmp (s_ChainWork s) dLoPrev =? 0) then Some None
    else Some (Some ver)
  else if s_Height s0 <=? s_Height s then Some None
  else if negb (lt_raw (s_ChainWork s) dLoPrev) then Some None
  else
    ver ← Process h2 zhash (IsRootValid p def) m_Count ver (u64 (s_Height s - HeightGenesis));
    if negb (v_bVerify ver) then Some None else Some (Some ver).

(** The loop of [IsValidInternal]; the result is [iState] and the verifier.
    Every round looks at another state, so that there are no more rounds
    than states. *)
Fixpoint Verify_loop (fuel : nat) (p : ChainWorkProof) (lowerBound def : list Z) (m_Count : Z)
    (iState : nat) (samp : Sampler) (ver : Verifier) (s : Full) (dLoPrev : list Z) : option (option (nat * Verifier)) :=
  match fuel with
  | O => None
  | S fuel =>
      '(samp, point) ← SamplePoint lowerBound samp;
      match point with
      | None => Some (Some (iState, ver))
      | Some dSamp =>
          let nHeading := length (cw_vElements p) in
          let bContiguousRange := (iState <? nHeading)%nat in
          let next :=
            if bContiguousRange then
              (fun e => mkFull (u64 (s_Height s - 1)) (s_Prev s) dLoPrev (s_Kernels s) (s_Definition s) (s_TimeStamp s)
                (mkPoW (m_Indices (s_PoW s)) (m_Nonce (s_PoW s)) (m_Difficulty (e_PoW e)))) <$> cw_vElements p !! iState
            else cw_vArbitraryStates p !! (iState - nHeading)%nat in
          match next with
          | None => Some None
          | Some s' =>
              if negb (lt_raw dSamp (s_ChainWork s')) then Some None
              else
                let dLo := chain_lo s' in
                if lt_raw dSamp dLo then Some None
                else
                  ver ← (if bContiguousRange then Some (Some ver) else Check_link p def m_Count ver s' s dLoPrev);
                  match ver with
                  | None => Some None
                  | Some ver => Verify_loop fuel p lowerBound def m_Count (S iState) (Cut samp dLo) ver s' dLo
                  end
          end
      end
  end.

(** [Some None] is [false]; otherwise the tip, [iState] and [iHash]. *)
Definition IsValidInternal (p : ChainWorkProof) (lowerBound : list Z) : option (option (Full * nat * nat)) :=
  match cw_vElements p with
  | [] => Some None
  | _ =>
      match EnumStates StateVerifier p None with
      | (Some s, true) =>
          let samp := Sampler_new s in
          if negb (lt_raw (sm_Begin samp) (sm_End samp)) then Some None
          else
            res ← Verify_loop (length (cw_vElements p) + length (cw_vArbitraryStates p) + 1) p lowerBound (s_Definition s)
              (u64 (s_Height s - HeightGenesis)) 1 samp (Verifier_new zhash (cw_vData p)) s (chain_lo s);
            Some ('(iState, ver) ← res; Some (s, iState, length (cw_vData p) - length (v_it ver))%nat)
      | _ => Some None
      end
  end.

(** The tip, if the proof is valid. *)
Definition Cwp_IsValid (p : ChainWorkProof) : option (option Full) :=
  res ← IsValidInternal p (cw_LowerBound p);
  Some ('(s, iState, iHash) ← res;
    if (length (cw_vArbitraryStates p) + length (cw_vElements p) =? iState)%nat && (length (cw_vData p) =? iHash)%nat then Some s else None).

(** ** [Crop] *)

(** [Cropper]: the count, and the prefix when it was met. *)
Definition Cropper (w : nat * option Prefix) (s : Full) (_ : bool) : (nat * option Prefix) * bool :=
  match w.1 with
  | S n => ((n, w.2), true)
  | O => ((O, Some (prefix_of s)), false)
  end.

(** The proof [this] with its lower bound becomes a part of [src]. *)
Definition Crop (this src : ChainWorkProof) : option (option ChainWorkProof) :=
  res ← IsValidInternal src (cw_LowerBound this);
  match res with
  | None => Some None
  | Some (_, iState, iHash) =>
      let n := length (cw_vElements src) in
      let data := take iHash (cw_vData src) in
      Some (Some
        (if (n <=? iState)%nat then
           mkCwp (cw_Prefix src) (cw_vElements src) (take (iState - n) (cw_vArbitraryStates src)) data (cw_hvRootLive src) (cw_LowerBound this)
         else
           let w := (EnumStatesHeadingOnly Cropper src ((n - iState)%nat, None)).1 in
           mkCwp (default (cw_Prefix this) w.2) (take iState (cw_vElements src)) [] data (cw_hvRootLive src) (cw_LowerBound this)))
  end.

(** ** [Create] *)

(** [ISource]: the state that covers a point, and the tree of all the states
    below the tip. *)
Record ISource := mkSource { get_StateAt : list Z -> Full; src_load : Position -> list Z; src_Count : Z }.

Definition push_heading (p : ChainWorkProof) (s : Full) : ChainWorkProof :=
  match cw_vArbitraryStates p with
  | [] => mkCwp (prefix_of s) (cw_vElements p ++ [element_of s]) [] (cw_vData p) (cw_hvRootLive p) (cw_LowerBound p)
  | _ => p
  end.

(** The loop; the height goes down in every round. *)
Fixpoint Create_loop (fuel : nat) (src : ISource) (p : ChainWorkProof) (bld : Builder (Hash := list Z)) (samp : Sampler) (s : Full)
    : option ChainWorkProof :=
  match fuel with
  | O => None
  | S fuel =>
      let p := push_heading p s in
      '(samp, point) ← SamplePoint (cw_LowerBound p) samp;
      match point with
      | None => Some (mkCwp (cw_Prefix p) (cw_vElements p) (cw_vArbitraryStates p) (b_vData bld) (cw_hvRootLive p) (cw_LowerBound p))
      | Some d =>
          let s' := get_StateAt src d in
          if negb (s_Height s' <? s_Height s) then None
          else
            let bJump := negb (u64 (s_Height s' + 1) =? s_Height s) in
            let bld := if bJump then Builder_Add h2 zhash (src_load src) (src_Count src) bld (u64 (s_Height s' - HeightGenesis)) else bld in
            let empty := match cw_vArbitraryStates p with [] => true | _ => false end in
            let p :=
              if bJump || negb empty
              then mkCwp (cw_Prefix p) (cw_vElements p) (cw_vArbitraryStates p ++ [s']) (cw_vData p) (cw_hvRootLive p) (cw_LowerBound p)
              else p in
            Create_loop fuel src p bld (Cut samp (chain_lo s')) s'
      end
  end.

Definition Create (fuel : nat) (src : ISource) (sRoot : Full) (p : ChainWorkProof) : option ChainWorkProof :=
  Create_loop fuel src p (Builder_new (cw_vData p)) (Sampler_new sRoot) sRoot.

(** [Node::Processor::BuildCwp]: the cached proof, and whether there is one;
    [hvUtxos] is the hash of the UTXO tree. *)
Definition BuildCwp (fuel : nat) (src : ISource) (cursor : Full) (hvUtxos : list Z) (m_Cwp : ChainWorkProof) : option (ChainWorkProof * bool) :=
  match cw_vElements m_Cwp with
  | _ :: _ => Some (m_Cwp, true)
  | [] =>
      if s_Height cursor <? HeightGenesis then Some (m_Cwp, false)
      else
        p ← Create fuel src cursor m_Cwp;
        Some (mkCwp (cw_Prefix p) (cw_vElements p) (cw_vArbitraryStates p) (cw_vData p) hvUtxos (cw_LowerBound p), true)
  end.
End chainwork.

(** * Facts *)

(** ** The states of a proof *)
Section states.
Context (sha256 : list Z -> list Z) (r : Rules).

(** The state after [s] with the element [e]. *)
Definition next_state (s : Full) (e : Element) : Full :=
  full_of (mkPrefix (u64 (s_Height s + 1)) (get_Hash sha256 r s) (raw_add_assign (s_ChainWork s) (m_Difficulty (e_PoW e)))) e.

Fixpoint heading_from (s : Full) (l : list Element) : list Full :=
  match l with [] => [] | e :: l => next_state s e :: heading_from (next_state s e) l end.

(** The states of the heading, up to the tip. *)
Definition heading_states (prefix : Prefix) (l : list Element) : list Full :=
  match l with [] => [] | e :: l => full_of prefix e :: heading_from (full_of prefix e) l end.

(** All the states, in the order of [EnumStates]. *)
Definition states (p : ChainWorkProof) : list Full :=
  reverse (cw_vArbitraryStates p) ++ heading_states (cw_Prefix p) (reverse (cw_vElements p)).

Fixpoint mark (l : list Full) : list (Full * bool) :=
  match l with [] => [] | [s] => [(s, true)] | s :: l => (s, false) :: mark l end.

Section walk.
Context {W : Type} (OnState : W -> Full -> bool -> W * bool).

Fixpoint walk (w : W) (l : list (Full * bool)) : W * bool :=
  match l with
  | [] => (w, true)
  | (s, b) :: l => let '(w, ok) := OnState w s b in if negb ok then (w, false) else walk w l
  end.

Lemma Heading_loop_walk w prev prefix l :
  Heading_loop sha256 r OnState w prev prefix l
  = walk w (mark (match prev with None => heading_states prefix l | Some s => heading_from s l end)).
Proof.
  revert w prev. induction l as [|e l IH]; intros w prev; [by destruct prev|]. cbn [Heading_loop].
  assert (forall s, (let '(w, ok) := OnState w s match l with [] => true | _ => false end in
      if negb ok then (w, false) else if match l with [] => true | _ => false end then (w, true)
      else Heading_loop sha256 r OnState w (Some s) prefix l) = walk w (mark (s :: heading_from s l))) as Hs.
  { intros s. destruct l as [|e' l]; cbn [heading_from mark walk].
    - destruct (OnState w s true) as [w' []]; done.
    - destruct (OnState w s false) as [w' []]; cbn [negb]; [|done]. by rewrite IH. }
  destruct prev as [s|]; cbn [heading_states heading_from]; apply Hs.
Qed.

Lemma EnumStatesHeadingOnly_walk p w : cw_vElements p <> [] ->
  EnumStatesHeadingOnly sha256 r OnState p w = walk w (mark (heading_states (cw_Prefix p) (reverse (cw_vElements p)))).
Proof. intros Hne. unfold EnumStatesHeadingOnly. destruct (cw_vElements p) as [|e l] eqn:E; [done|]. apply Heading_loop_walk. Qed.

Lemma Arbitrary_loop_walk w l : Arbitrary_loop OnState w l = walk w ((fun s => (s, false)) <$> l).
Proof.
  revert w. induction l as [|s l IH]; intros w; [done|]. rewrite fmap_cons. cbn [Arbitrary_loop walk].
  destruct (OnState w s false) as [w' []]; [apply IH|done].
Qed.

Lemma walk_app w l k : walk w (l ++ k) = let '(w, ok) := walk w l in if negb ok then (w, false) else walk w k.
Proof.
  revert w. induction l as [|[s b] l IH]; intros w; [done|]. cbn [app walk].
  destruct (OnState w s b) as [w' []]; [apply IH|done].
Qed.

Lemma mark_app l k : k <> [] -> mark (l ++ k) = ((fun s => (s, false)) <$> l) ++ mark k.
Proof.
  intros Hk. induction l as [|s l IH]; [done|]. rewrite fmap_cons. cbn [app]. rewrite <- IH.
  destruct (l ++ k) as [|s' l'] eqn:E; [|done]. by apply app_nil in E as [_ ?].
Qed.

Lemma heading_states_nil prefix l : heading_states prefix l = [] -> l = [].
Proof. by destruct l. Qed.

Lemma EnumStates_walk p w : cw_vElements p <> [] -> EnumStates sha256 r OnState p w = walk w (mark (states p)).
Proof.
  intros Hne. unfold EnumStates, states. rewrite mark_app, walk_app, Arbitrary_loop_walk.
  { destruct (walk _ _) as [w' []]; [|done]. cbn [negb]. by apply EnumStatesHeadingOnly_walk. }
  intros ?%heading_states_nil%(f_equal reverse). by rewrite reverse_involutive in *.
Qed.
End walk.

Lemma UnpackStates_states p v : cw_vElements p <> [] -> UnpackStates sha256 r p v = v ++ states p.
Proof.
  intros Hne. unfold UnpackStates. rewrite EnumStates_walk by done. generalize (states p). clear. intros l.
  revert v. induction l as [|s l IH]; intros v; [by rewrite app_nil_r|].
  assert (forall b, (walk (fun v (s : Full) (_ : bool) => (v ++ [s], true)) v ((s, b) :: mark l)).1 = v ++ s :: l) as H.
  { intros b. cbn [walk negb]. rewrite IH, <- app_assoc. done. }
  destruct l as [|s' l]; [apply (H true)|apply (H false)].
Qed.

Lemma StateVerifier_walk IsValidSolution l w s :
  walk (StateVerifier sha256 r IsValidSolution) w (mark l) = (s, true) ->
  Forall (fun s => IsValid sha256 r IsValidSolution s = true) l /\ s = match last l with Some t => Some t | None => w end.
Proof.
  revert w. induction l as [|t l IH]; intros w E; [simpl in E; by simplify_eq|].
  assert (exists b, mark (t :: l) = (t, b) :: mark l /\ b = match l with [] => true | _ => false end) as (b & Eb & Hb) by (destruct l; eauto).
  rewrite Eb in E. cbn [walk] in E. unfold StateVerifier at 1 in E.
  destruct (IsValid sha256 r IsValidSolution t) eqn:Ev; cbn [negb] in E; [|done].
  apply IH in E as [HF ->]. split; [by constructor|]. subst b. destruct l as [|t' l]; [done|]. rewrite last_cons_cons.
  destruct (last (t' :: l)) eqn:El; [done|]. by apply last_None in El.
Qed.

Lemma StateVerifier_walk_ok IsValidSolution l w :
  Forall (fun s => IsValid sha256 r IsValidSolution s = true) l ->
  walk (StateVerifier sha256 r IsValidSolution) w (mark l) = (match last l with Some t => Some t | None => w end, true).
Proof.
  revert w. induction l as [|t l IH]; intros w HF; [done|]. apply Forall_cons in HF as [Ht HF].
  assert (exists b, mark (t :: l) = (t, b) :: mark l /\ b = match l with [] => true | _ => false end) as (b & -> & ->) by (destruct l; eauto).
  cbn [walk]. unfold StateVerifier at 1. rewrite Ht. cbn [negb]. rewrite IH by done. destruct l as [|t' l]; [done|].
  rewrite last_cons_cons. destruct (last (t' :: l)) eqn:El; [done|]. by apply last_None in El.
Qed.
End states.

(** ** Arithmetic on the work axis *)
Lemma radix_32 : radix 32 = 2 ^ 256.
Proof. exact radix32. Qed.

Lemma lt_raw_spec a b : bytes_n 32 a -> bytes_n 32 b -> lt_raw a b = (be_val a <? be_val b).
Proof.
  intros [Ha La] [Hb Lb]. unfold lt_raw. rewrite _Cmp_spec by done.
  destruct (Z.ltb_spec (be_val a) (be_val b)) as [H|H].
  - apply Z.ltb_lt. by apply cmpZ_lt.
  - apply Z.ltb_ge. apply Z.nlt_ge. rewrite cmpZ_lt. lia.
Qed.

Lemma add_raw_spec a b : bytes_n 32 a -> bytes_n 32 b ->
  bytes_n 32 (add_raw a b) /\ be_val (add_raw a b) = (be_val a + be_val b) mod 2 ^ 256.
Proof.
  intros [Ha La] [Hb Lb]. unfold add_raw. pose proof (_Inc_any_spec a b Ha Hb) as H. destruct (_Inc_any a b) as [x c]. cbn [fst].
  destruct H as (H1 & H2 & H3 & H4). rewrite La in *. split; [done|]. rewrite radix_32 in H4.
  pose proof (be_val_bound x H1) as B. rewrite H2, radix_32 in B. pose proof (be_val_bound b Hb) as B'. rewrite Lb, radix_32 in B'.
  rewrite (Z.mod_small (be_val b)) in H4 by done. apply (Z.mod_unique_pos _ _ c); lia.
Qed.

Lemma Negate_raw a : bytes_n 32 a -> bytes_n 32 (Negate a) /\ be_val (Negate a) = (- be_val a) mod 2 ^ 256.
Proof.
  intros [Ha La]. destruct (Negate_spec a Ha) as (H1 & H2 & H3). rewrite La in *. by rewrite radix_32 in H3.
Qed.

Lemma chain_lo_raw s : bytes_n 32 (s_ChainWork s) -> in_width 32 (m_Difficulty (s_PoW s)) ->
  bytes_n 32 (chain_lo s) /\ be_val (chain_lo s) = (be_val (s_ChainWork s) - raw_val (m_Difficulty (s_PoW s))) mod 2 ^ 256.
Proof.
  intros Hc Hd. destruct (Unpack_spec (m_Difficulty (s_PoW s))) as [[Hu Lu] Eu]; [unfold in_width in Hd; lia|].
  destruct (Negate_raw (Unpack (m_Difficulty (s_PoW s)))) as [Hn En]; [done|].
  destruct (add_raw_spec (Negate (Unpack (m_Difficulty (s_PoW s)))) (s_ChainWork s) Hn Hc) as [H1 H2]. split; [done|].
  unfold chain_lo, raw_sub. unfold add_raw in H2. rewrite H2, En, Eu, Zplus_mod_idemp_l. f_equal. lia.
Qed.

Lemma chain_lo_spec s : full_ok s ->
  bytes_n 32 (chain_lo s) /\ be_val (chain_lo s) = (be_val (s_ChainWork s) - raw_val (m_Difficulty (s_PoW s))) mod 2 ^ 256.
Proof. intros (_ & _ & Hc & _ & _ & _ & _ & _ & Hd). by apply chain_lo_raw. Qed.

Lemma raw_inj a b : bytes_n 32 a -> bytes_n 32 b -> be_val a = be_val b -> a = b.
Proof. intros [Ha La] [Hb Lb] E. apply be_val_inj; [done|done|congruence|done]. Qed.

(** ** What the verifier accepts *)
Section sound.
#[local] Opaque u64_bits.
Context (sha256 : list Z -> list Z) (r : Rules) (IsValidSolution : list Z -> list Z -> list Z -> bool) (draws : nat).
Context (sha256_size : forall l, bytes_n 32 (sha256 l)) (Hpre : bytes_n 32 (Prehistoric r)).
Abbreviation h2 := (hash2 sha256).
Abbreviation hash := (get_Hash sha256 r).

Lemma next_state_lo s e : full_ok s -> full_ok (next_state sha256 r s e) -> chain_lo (next_state sha256 r s e) = s_ChainWork s.
Proof.
  intros Hs Hn. destruct (chain_lo_spec _ Hn) as [H1 E1]. pose proof Hs as (_ & _ & Hc & _).
  destruct Hn as (_ & _ & _ & _ & _ & _ & _ & _ & Hd). cbn [next_state full_of s_PoW s_ChainWork p_ChainWork] in *.
  destruct (raw_add_assign_spec (s_ChainWork s) (m_Difficulty (e_PoW e))) as [H2 E2]; [unfold in_width in Hd; lia|done|].
  apply raw_inj; [done|done|]. rewrite E1, E2, Zminus_mod_idemp_l. rewrite Z.add_simpl_r. apply Z.mod_small.
  destruct Hc as [Hb Hl]. pose proof (be_val_bound _ Hb) as B. by rewrite Hl, radix_32 in B.
Qed.

(** What a sampler asks for is in the ranges of work [l], one after another. *)
Inductive sampled (lb : list Z) : Sampler -> list (list Z * list Z) -> Prop :=
| sampled_end sm sm' : SamplePoint sha256 draws lb sm = Some (sm', None) -> sampled lb sm []
| sampled_point sm sm' d lo hi l :
    SamplePoint sha256 draws lb sm = Some (sm', Some d) -> lt_raw d lo = false -> lt_raw d hi = true ->
    sampled lb (Cut sm' lo) l -> sampled lb sm ((lo, hi) :: l).

Definition work_range (s : Full) : list Z * list Z := (chain_lo s, s_ChainWork s).

(** A chain of headers that commit to the ones before. *)
Context (st : Z -> Full) (H : Z) (live : list Z).

Definition leaves (j : Z) : list Z := hash (st (j + 1)).

Record chain_ok : Prop := {
  ch_H : HeightGenesis <= H <= 2 ^ 63;
  ch_state h : HeightGenesis <= h <= H -> full_ok (st h) /\ s_Height (st h) = h;
  ch_link h : HeightGenesis <= h < H -> s_Prev (st (h + 1)) = hash (st h);
  ch_live : bytes_n 32 live;
  ch_def : s_Definition (st H) = h2 (root_hash h2 zhash leaves (H - 1)) live
}.

Definition in_chain (s : Full) : Prop := HeightGenesis <= s_Height s <= H /\ s = st (s_Height s).

(** What is hashed for this chain: its headers, and the proofs of a full node for all of them below the tip. *)
Definition chain_msgs : list (list Z) :=
  ((fun h => header_bytes (st h) true) <$> seqZ 1 H) ++
  mjoin ((fun i => state_msgs sha256 (H - 1) i (leaves i) (full_proof sha256 leaves live (H - 1) i)) <$> seqZ 0 (H - 1)).

Context (Hch : chain_ok).

(** The messages among which a collision is looked for. *)
Context (M : list (list Z)) (HM : chain_msgs ⊆ M).

Lemma header_msg h : HeightGenesis <= h <= H -> header_bytes (st h) true ∈ M.
Proof. unfold HeightGenesis. intros Hh. apply HM, elem_of_app. left. apply list_elem_of_fmap. exists h. split; [done|]. apply elem_of_seqZ. lia. Qed.

Lemma proof_msg i x : 0 <= i < H - 1 -> x ∈ state_msgs sha256 (H - 1) i (leaves i) (full_proof sha256 leaves live (H - 1) i) -> x ∈ M.
Proof. intros Hi Hx. apply HM, elem_of_app. right. apply list_elem_of_join. eexists. split; [exact Hx|]. apply list_elem_of_fmap. exists i. split; [done|]. apply elem_of_seqZ. lia. Qed.

Lemma two_msgs (a b : list Z) : a ∈ M -> b ∈ M -> [a; b] ⊆ M.
Proof. intros Ha Hb x [->|[->|Hx%elem_of_nil]%elem_of_cons]%elem_of_cons; done. Qed.

(** A state that a header of the chain refers to is in the chain. *)
Lemma linked_in_chain s s0 : full_ok s -> HeightGenesis <= s_Height s -> in_chain s0 -> u64 (s_Height s + 1) = s_Height s0 ->
  s_Prev s0 = hash s -> header_bytes s true ∈ M -> in_chain s \/ sha_collision sha256 M.
Proof.
  intros Hs Hg [H0 E0] Eh Ep HsM. destruct Hch as [HH Hst Hlink _ _]. unfold HeightGenesis in *.
  pose proof Hs as (Hw & _). unfold in_width in Hw.
  assert (s_Height s0 = s_Height s + 1) as Eh'.
  { rewrite <- Eh. unfold wrap. destruct (Z.eq_dec (s_Height s + 1) (2 ^ 64)) as [E|]; [|apply Z.mod_small; lia].
    rewrite <- Eh in H0. unfold wrap in H0. rewrite E, Z_mod_same_full in H0. lia. }
  destruct (Hst (s_Height s) ltac:(lia)) as [Ho Eho].
  destruct (get_Hash_binds sha256 r s (st (s_Height s))) as [E|Hc]; [done|done|unfold HeightGenesis; lia|unfold HeightGenesis; lia| |left|right; eapply sha_collision_mono; [|exact Hc]; apply two_msgs; [done|apply header_msg; unfold HeightGenesis; lia]].
  - rewrite <- Ep, E0, Eh'. apply Hlink. lia.
  - unfold in_chain, HeightGenesis. split; [lia|done].
Qed.

(** So is a state with a Merkle proof. *)
Lemma proved_in_chain s pl i : full_ok s -> HeightGenesis <= s_Height s -> s_Height s - 1 = i -> i < H - 1 ->
  bytes_n 32 pl -> header_bytes s true ∈ M ->
  auth h2 (fun hv => _Cmp (h2 hv pl) (s_Definition (st H)) =? 0) (bytes_n 32) (fun x => pair_msg x ∈ M) (fun root => pair_msg (root, pl) ∈ M) (steps h2 zhash (H - 1) 0 i) (hash s) ->
  in_chain s \/ sha_collision sha256 M.
Proof.
  intros Hs Hg Ei Hi Hpl HsM (p & root & Hp & Hf & Hroot & Hpairs & Hlast). destruct Hch as [HH Hst Hlink Hlive Hdef]. unfold HeightGenesis in *.
  destruct (Hst H ltac:(lia)) as [HoH EH]. pose proof HoH as (_ & _ & _ & _ & HD & _).
  apply (Cmp0_eq 32) in Hroot; [|apply sha256_size|done].
  assert (fst <$> steps h2 zhash (H - 1) 0 i = dirs sha256 (H - 1) i) as Ed.
  { rewrite <- steps_0, <- list_fmap_compose. apply list_fmap_ext. done. }
  rewrite Ed in Hf, Hpairs. pose proof (fold_dirs_more _ _ _ _ _ _ [pl] Hf) as Hf'.
  assert (IsValidProofState sha256 (st H) (mkHH (hash s) (s_Height s)) (p ++ [pl]) = true) as Hv.
  { apply IsValidProofState_spec; [done|done|]. cbn [hh_Height hh_Hash]. unfold HeightGenesis. rewrite EH, Ei. split; [lia|]. exists root, pl. by split. }
  assert (state_msgs sha256 (H - 1) i (hash s) (p ++ [pl]) ⊆ M) as HM1.
  { unfold state_msgs. intros x (y & -> & Hy)%list_elem_of_fmap. rewrite (fold_hashed_snoc sha256 _ _ _ root pl Hf) in Hy. apply elem_of_app in Hy as [Hy| ->%list_elem_of_singleton]; [|done]. rewrite Forall_forall in Hpairs. by apply Hpairs. }
  destruct (proof_state_binds sha256 sha256_size leaves live (st H) (mkHH (hash s) (s_Height s)) (p ++ [pl])) as [_ [E|Hc]]; try done.
  - rewrite EH. lia.
  - intros j. by apply get_Hash_ok.
  - by rewrite EH.
  - by apply get_Hash_ok.
  - apply Forall_app. split; [done|]. by constructor.
  - cbn [hh_Hash hh_Height] in E. unfold leaves in E. rewrite Z.sub_add in E.
    destruct (Hst (s_Height s) ltac:(lia)) as [Ho Eho].
    destruct (get_Hash_binds sha256 r s (st (s_Height s))) as [E'|Hc]; [done|done|unfold HeightGenesis; lia|unfold HeightGenesis; lia|done|left|right; eapply sha_collision_mono; [|exact Hc]; apply two_msgs; [done|apply header_msg; unfold HeightGenesis; lia]].
    unfold in_chain, HeightGenesis. split; [lia|done].
  - right. eapply sha_collision_mono; [|exact Hc]. cbn [hh_Height hh_Hash]. rewrite EH, Ei. intros x [Hx|Hx]%elem_of_app; [by apply HM1|]. apply (proof_msg i); [lia|done].
Qed.

(** *** The heading *)
Lemma heading_elements prefix l : element_of <$> heading_states sha256 r prefix l = l.
Proof.
  assert (forall s l, element_of <$> heading_from sha256 r s l = l) as Hf.
  { intros s l'. revert s. induction l' as [|[] l' IH]; intros s; [done|]. cbn [heading_from]. rewrite fmap_cons. f_equal. apply IH. }
  destruct l as [|[] l]; [done|]. cbn [heading_states]. rewrite fmap_cons. f_equal. apply Hf.
Qed.

Lemma heading_adj prefix l i a b : heading_states sha256 r prefix l !! i = Some a -> heading_states sha256 r prefix l !! S i = Some b ->
  b = next_state sha256 r a (element_of b).
Proof.
  assert (forall l s i a b, (s :: heading_from sha256 r s l) !! i = Some a -> heading_from sha256 r s l !! i = Some b ->
    b = next_state sha256 r a (element_of b)) as Hf.
  { clear i a b. induction l0 as [|e l0 IH]; intros s i a b Ea Eb; [done|]. destruct i as [|i]; cbn [heading_from lookup list_lookup] in *.
    - simplify_eq. by destruct e.
    - by apply (IH (next_state sha256 r s e) i). }
  destruct l as [|e l]; [done|]. cbn [heading_states]. intros Ea Eb. by apply (Hf l (full_of prefix e) i).
Qed.

Lemma heading_in_chain prefix l :
  Forall full_ok (heading_states sha256 r prefix l) -> Forall (fun s => HeightGenesis <= s_Height s) (heading_states sha256 r prefix l) ->
  last (heading_states sha256 r prefix l) = Some (st H) -> Forall (fun s => header_bytes s true ∈ M) (heading_states sha256 r prefix l) ->
  Forall in_chain (heading_states sha256 r prefix l) \/ sha_collision sha256 M.
Proof.
  assert (forall l s, Forall full_ok (s :: heading_from sha256 r s l) -> Forall (fun s => HeightGenesis <= s_Height s) (s :: heading_from sha256 r s l) ->
    last (s :: heading_from sha256 r s l) = Some (st H) -> Forall (fun s => header_bytes s true ∈ M) (s :: heading_from sha256 r s l) ->
    Forall in_chain (s :: heading_from sha256 r s l) \/ sha_collision sha256 M) as Hf.
  { induction l0 as [|e l0 IH]; intros s Ho Hg Hl HsM.
    - cbn in Hl. simplify_eq. left. constructor; [|done]. destruct Hch as [HH Hst _ _ _]. destruct (Hst H ltac:(lia)) as [_ E].
      unfold in_chain. rewrite E. split; [lia|done].
    - cbn [heading_from] in *. apply Forall_cons in Ho as [Hs Ho]. apply Forall_cons in Hg as [Hgs Hg]. rewrite last_cons_cons in Hl. apply Forall_cons in HsM as [HsM HlM].
      destruct (IH _ Ho Hg Hl HlM) as [HF|?]; [|by right]. pose proof HF as [Hn _]%Forall_cons.
      destruct (linked_in_chain s (next_state sha256 r s e)) as [Hi|?]; try done; [|by right]. left. by constructor. }
  destruct l as [|e l]; [by left|]. apply Hf.
Qed.

(** *** The loop *)
Context (p : ChainWorkProof) (lb : list Z).
Abbreviation hs := (heading_states sha256 r (cw_Prefix p) (reverse (cw_vElements p))).
Abbreviation desc := (reverse hs ++ cw_vArbitraryStates p).
Abbreviation nE := (length (cw_vElements p)).

Record proof_ok : Prop := {
  po_full : Forall full_ok desc;
  po_gen : Forall (fun s => HeightGenesis <= s_Height s) desc;
  po_data : Forall (bytes_n 32) (cw_vData p);
  po_live : bytes_n 32 (cw_hvRootLive p);
  po_hs : Forall in_chain hs;
  po_tip : desc !! 0%nat = Some (st H);
  po_msgs : Forall (fun s => header_bytes s true ∈ M) desc
}.

Context (Hp : proof_ok).

Lemma length_hs : length hs = nE.
Proof. rewrite <- (length_fmap element_of), heading_elements. apply length_reverse. Qed.

Lemma desc_hs k t : (k < nE)%nat -> desc !! k = Some t -> in_chain t /\ (element_of <$> desc !! k) = cw_vElements p !! k.
Proof.
  intros Hk E. rewrite lookup_app_l in * by (rewrite length_reverse, length_hs; lia). split.
  - destruct Hp as [_ _ _ _ HF _ _]. apply list_elem_of_lookup_2 in E. rewrite elem_of_reverse in E. exact (proj1 (Forall_forall _ _) HF t E).
  - rewrite <- list_lookup_fmap, fmap_reverse, heading_elements. by rewrite reverse_involutive.
Qed.

Lemma desc_adj k b : (S k < nE)%nat -> desc !! k = Some b ->
  exists a e, desc !! S k = Some a /\ cw_vElements p !! S k = Some e /\ element_of a = e /\ b = next_state sha256 r a (element_of b) /\
    s_Height b = s_Height a + 1 /\ chain_lo b = s_ChainWork a.
Proof.
  intros Hk Eb. destruct (lookup_lt_is_Some_2 desc (S k)) as [a Ea]; [rewrite length_app, length_reverse, length_hs; lia|].
  destruct (desc_hs (S k) a Hk Ea) as [[Ha _] He]. destruct (desc_hs k b ltac:(lia) Eb) as [[Hb _] _].
  exists a, (element_of a). split; [done|]. rewrite <- He, Ea. split; [done|]. split; [done|].
  assert (b = next_state sha256 r a (element_of b)) as E.
  { rewrite lookup_app_l in Ea, Eb by (rewrite length_reverse, length_hs; lia).
    rewrite reverse_lookup in Ea, Eb by (rewrite length_hs; lia). rewrite length_hs in Ea, Eb.
    apply (heading_adj _ _ _ _ _ Ea). replace (S (nE - S (S k))) with (nE - S k)%nat by lia. done. }
  split; [done|]. pose proof Hp as [Hfull _ _ _ _ _ _].
  pose proof (Forall_lookup_1 _ _ _ _ Hfull Ea) as Hfa. pose proof (Forall_lookup_1 _ _ _ _ Hfull Eb) as Hfb. split.
  - rewrite E. cbn. apply wrap_small. destruct Hch as [HH _ _ _ _]. unfold in_width, HeightGenesis in *. lia.
  - rewrite E at 1. apply next_state_lo; [done|]. by rewrite <- E.
Qed.

Lemma desc_height k t : (k < nE)%nat -> desc !! k = Some t -> s_Height t = H - Z.of_nat k.
Proof.
  revert t. induction k as [|k IH]; intros t Hk E.
  - destruct Hp as [_ _ _ _ _ Ht _]. rewrite Ht in E. simplify_eq. destruct Hch as [HH Hst _ _ _]. destruct (Hst H ltac:(lia)) as [_ ->]. lia.
  - destruct (lookup_lt_is_Some_2 desc k) as [b Eb]; [apply lookup_lt_Some in E; lia|].
    destruct (desc_adj k b ltac:(lia) Eb) as (a & e & Ea & _ & _ & _ & Hh & _). rewrite Ea in E. simplify_eq.
    specialize (IH b ltac:(lia) Eb). lia.
Qed.

(** The state that the loop holds for the header number [k] from the tip. *)
Record cur (k : nat) (s t : Full) : Prop := {
  cur_t : desc !! k = Some t;
  cur_h : s_Height s = s_Height t;
  cur_eq : k = 0%nat \/ (nE <= k)%nat -> s = t;
  cur_prev : (k < nE)%nat -> s_Prev s = s_Prev (st H)
}.

(** What is hashed for the states below the heading, one after another: for each that is not
    right below the last one, its Merkle proof and the root with the hash of the UTXO set. *)
Fixpoint links_hashed (m_Count : Z) (ver : Verifier (Hash := list Z)) (h0 : Z) (l : list Full) : list (list Z * list Z) :=
  match l with
  | [] => []
  | s :: l =>
      let ver := set_hvPos ver (hash s) in
      if u64 (s_Height s + 1) =? h0 then links_hashed m_Count ver (s_Height s) l
      else
        let i := u64 (s_Height s - HeightGenesis) in
        Process_hashed h2 zhash m_Count ver i ++ from_option (fun root => [(root, cw_hvRootLive p)]) [] (Process_root h2 zhash m_Count ver i) ++
        match Process h2 zhash (IsRootValid sha256 p (s_Definition (st H))) m_Count ver i with
        | Some ver => links_hashed m_Count ver (s_Height s) l
        | None => []
        end
  end.

Abbreviation valid_root := (fun hv => _Cmp (h2 hv (cw_hvRootLive p)) (s_Definition (st H)) =? 0).

Record ver_ok (ver : Verifier (Hash := list Z)) : Prop := {
  vo_sound : v_sound h2 zhash valid_root (bytes_n 32) (fun x => pair_msg x ∈ M) (fun root => pair_msg (root, cw_hvRootLive p) ∈ M) (H - 1) ver;
  vo_rev : v_vLastRev ver = [];
  vo_verify : v_bVerify ver = true
}.

Lemma set_hvPos_ok ver hv : ver_ok ver -> ver_ok (set_hvPos ver hv).
Proof. intros [[H1 H2 H3] H4 H5]. repeat constructor; done. Qed.

(** A state below the heading. *)
Lemma Check_link_sound k ver s t t' dLoPrev ver' l : cur k s t -> (nE <= S k)%nat -> desc !! S k = Some t' -> ver_ok ver ->
  Check_link sha256 r p (s_Definition (st H)) (H - 1) ver t' s dLoPrev = Some (Some ver') -> Forall (fun x => pair_msg x ∈ M) (links_hashed (H - 1) ver (s_Height s) (t' :: l)) ->
  ver_ok ver' /\ (in_chain t -> in_chain t' \/ sha_collision sha256 M) /\ Forall (fun x => pair_msg x ∈ M) (links_hashed (H - 1) ver' (s_Height t') l).
Proof.
  intros [Et Eh Eeq Eprev] Hk Et' Hv E Hlog. pose proof Hp as [Hfull Hgen _ Hlive _ Htip Hmsgs].
  pose proof (Forall_lookup_1 _ _ _ _ Hfull Et') as Hf. pose proof (Forall_lookup_1 _ _ _ _ Hgen Et') as Hg.
  pose proof (Forall_lookup_1 _ _ _ _ Hfull Et) as Hft. pose proof (Forall_lookup_1 _ _ _ _ Hfull Htip) as HfH.
  pose proof (Forall_lookup_1 _ _ _ _ Hmsgs Et') as HtM.
  pose proof (set_hvPos_ok ver (hash t') Hv) as Hv1. unfold Check_link in E. cbn [links_hashed] in Hlog.
  destruct (u64 (s_Height t' + 1) =? s_Height s) eqn:Elink.
  - apply Z.eqb_eq in Elink. cbn [set_hvPos v_hvPos] in E.
    destruct (_Cmp (s_Prev s) (hash t') =? 0) eqn:Ep; cbn [negb] in E; [|done].
    destruct (_Cmp _ dLoPrev =? 0); cbn [negb] in E; [|done]. simplify_eq. split; [done|]. split; [|exact Hlog]. intros Hin.
    assert (bytes_n 32 (s_Prev s)) as Hps.
    { destruct (Nat.lt_ge_cases k nE) as [Hlt|Hge]; [rewrite Eprev by done; apply HfH|rewrite Eeq by (by right); apply Hft]. }
    apply (Cmp0_eq 32) in Ep; [|done|by apply get_Hash_ok]. rewrite Eh in Elink.
    destruct (decide (k = 0%nat \/ (nE <= k)%nat)) as [Hd|Hd].
    { rewrite (Eeq Hd) in Ep. by apply (linked_in_chain t' t). }
    (* the previous hash that is compared is the one of the tip *)
    right. rewrite Eprev in Ep by lia.
    destruct (desc_adj 0 (st H) ltac:(lia) Htip) as (a & e & Ea & _ & _ & En & Eha & _).
    assert (s_Prev (st H) = hash a) as Epa by (rewrite En; done).
    pose proof (Forall_lookup_1 _ _ _ _ Hfull Ea) as Hfa. pose proof (Forall_lookup_1 _ _ _ _ Hgen Ea) as Hga.
    pose proof (Forall_lookup_1 _ _ _ _ Hmsgs Ea) as HaM.
    destruct (get_Hash_binds sha256 r t' a) as [E'|Hc]; [done|done|done|done|congruence| |eapply sha_collision_mono; [|exact Hc]; by apply two_msgs]. exfalso. subst t'.
    pose proof (desc_height k t ltac:(lia) Et) as Hht. pose proof (desc_height 1 a ltac:(lia) Ea) as Hha.
    rewrite wrap_small in Elink; [lia|]. destruct Hch as [HH _ _ _ _]. unfold in_width, HeightGenesis in *. lia.
  - destruct (Z.leb_spec (s_Height s) (s_Height t')) as [|Hlt]; [done|].
    destruct (negb (lt_raw _ dLoPrev)); [done|].
    assert (u64 (s_Height t' - HeightGenesis) = s_Height t' - 1) as Ei.
    { apply wrap_small. destruct Hf as [Hw _]. unfold in_width, HeightGenesis in *. lia. }
    rewrite Ei in E. destruct Hv1 as [Hs Hrev Hb].
    rewrite Ei in Hlog. apply Forall_app in Hlog as [Hlog1 Hlog]. apply Forall_app in Hlog as [Hlog2 Hlog].
    destruct (Process_sound h2 zhash valid_root (bytes_n 32) (fun x => pair_msg x ∈ M) (fun root => pair_msg (root, cw_hvRootLive p) ∈ M) (H - 1) (set_hvPos ver (hash t')) (s_Height t' - 1)) as (v' & Ev & Hrev' & Hs' & Hb');
      [unfold HeightGenesis in Hg; lia|done|done|exact Hlog1|intros root Er; rewrite Er in Hlog2; cbn [from_option] in Hlog2; by apply Forall_cons in Hlog2 as [? _]|]. fold (IsRootValid sha256 p (s_Definition (st H))) in Ev.
    change (Process h2 zhash (IsRootValid sha256 p (s_Definition (st H))) (H - 1) (set_hvPos ver (hash t')) (s_Height t' - 1) = Some v') in Ev.
    rewrite Ev in E, Hlog. cbn [mbind option_bind] in E. destruct (v_bVerify v') eqn:Eb; cbn [negb] in E; [|done]. simplify_eq.
    destruct (Hb' eq_refl) as (_ & Hi & Ha). split; [by constructor|]. split; [|exact Hlog]. intros _.
    by apply (proved_in_chain t' (cw_hvRootLive p) (s_Height t' - 1)).
Qed.

(** A state of the heading. *)
Lemma cur_next k s t e : cur k s t -> (S k < nE)%nat -> cw_vElements p !! S k = Some e ->
  let s' := mkFull (u64 (s_Height s - 1)) (s_Prev s) (chain_lo t) (s_Kernels s) (s_Definition s) (s_TimeStamp s)
              (mkPoW (m_Indices (s_PoW s)) (m_Nonce (s_PoW s)) (m_Difficulty (e_PoW e))) in
  exists t', cur (S k) s' t' /\ work_range s' = work_range t'.
Proof.
  intros [Et Eh _ Eprev] Hk Ee s'. destruct (desc_adj k t Hk Et) as (a & e' & Ea & Ee' & Hea & _ & Hh & Hlo).
  rewrite Ee in Ee'. simplify_eq. exists a. split.
  - constructor; [done| |intros [?|?]; lia|intros _; cbn; apply Eprev; lia]. cbn. rewrite Eh, Hh, Z.add_simpl_r.
    apply wrap_small. pose proof Hp as [Hfull _ _ _ _ _ _]. destruct (Forall_lookup_1 _ _ _ _ Hfull Ea) as [Hw _]. exact Hw.
  - unfold work_range. subst s'. cbn [s_ChainWork]. rewrite Hlo. f_equal.
Qed.

(** The height below which the states follow that are not in the heading. *)
Definition s_low (k : nat) (s : Full) : Z := if (k <? nE)%nat then p_Height (cw_Prefix p) else s_Height s.

Lemma low_height k t : S k = nE -> desc !! k = Some t -> s_Height t = p_Height (cw_Prefix p).
Proof.
  intros Hk Et. rewrite lookup_app_l in Et by (rewrite length_reverse, length_hs; lia). rewrite reverse_lookup in Et by (rewrite length_hs; lia). rewrite length_hs, Hk, Nat.sub_diag in Et.
  destruct (reverse (cw_vElements p)) as [|e l]; [done|]. cbn [heading_states lookup list_lookup] in Et. by injection Et as <-.
Qed.

Lemma Verify_loop_sound fuel k samp ver s t n ver' :
  cur k s t -> (k < length desc)%nat -> ver_ok ver -> Forall (fun x => pair_msg x ∈ M) (links_hashed (H - 1) ver (s_low k s) (drop (S k - nE) (cw_vArbitraryStates p))) ->
  Verify_loop sha256 r draws fuel p lb (s_Definition (st H)) (H - 1) (S k) samp ver s (chain_lo t) = Some (Some (n, ver')) ->
  (S k <= n <= length desc)%nat /\ sampled lb samp (work_range <$> take (n - S k) (drop (S k) desc)) /\
  (Forall in_chain (take (S k) desc) -> Forall in_chain (take n desc) \/ sha_collision sha256 M).
Proof.
  revert k samp ver s t. induction fuel as [|fuel IH]; intros k samp ver s t Hc Hk Hv Hlog E; [done|]. cbn [Verify_loop] in E.
  destruct (SamplePoint sha256 draws lb samp) as [[samp' [d|]]|] eqn:Es; cbn [mbind option_bind] in E; [| |done].
  2: { simplify_eq. split; [lia|]. rewrite Nat.sub_diag. split; [by eapply sampled_end|]. intros ?. by left. }
  set (next := if (S k <? nE)%nat then _ else _) in E.
  assert (forall s', next = Some s' -> exists t', desc !! S k = Some t' /\ cur (S k) s' t' /\ work_range s' = work_range t' /\
      (if (S k <? nE)%nat then in_chain t' else s' = t')) as Hnext.
  { intros s' En. subst next. destruct (Nat.ltb_spec (S k) nE) as [Hlt|Hge].
    - destruct (cw_vElements p !! S k) as [e|] eqn:Ee; cbn in En; [|done]. injection En as <-.
      destruct (cur_next k s t e Hc Hlt Ee) as (t' & Hc' & Hw). exists t'. pose proof (cur_t _ _ _ Hc') as Et'.
      split; [done|]. split; [done|]. split; [done|]. by apply (desc_hs (S k)).
    - exists s'. assert (desc !! S k = Some s') as Et'.
      { rewrite lookup_app_r by (rewrite length_reverse, length_hs; lia). by rewrite length_reverse, length_hs. }
      split; [done|]. split; [|done]. constructor; [done|done|done|lia]. }
  destruct next as [s'|]; [|done]. destruct (Hnext s' eq_refl) as (t' & Et' & Hc' & Hw & Ht'). unfold work_range in Hw. injection Hw as Hlo Hcw.
  rewrite Hcw, Hlo in E. destruct (lt_raw d (s_ChainWork t')) eqn:Ed1; cbn [negb] in E; [|done].
  destruct (lt_raw d (chain_lo t')) eqn:Ed2; [done|].
  destruct (if (S k <? nE)%nat then _ else _) as [[ver1|]|] eqn:El in E; cbn [mbind option_bind] in E; [|done|done].
  assert (ver_ok ver1 /\ (in_chain t -> in_chain t' \/ sha_collision sha256 M) /\ Forall (fun x => pair_msg x ∈ M) (links_hashed (H - 1) ver1 (s_low (S k) s') (drop (S (S k) - nE) (cw_vArbitraryStates p)))) as (Hv1 & Hin & Hlog1).
  { unfold s_low in *. destruct (Nat.ltb_spec (S k) nE) as [Hlt|Hge].
    - simplify_eq. split; [done|]. split; [by left|]. rewrite (proj2 (Nat.ltb_lt k nE)) in Hlog by lia. by replace (S (S k) - nE)%nat with (S k - nE)%nat by lia.
    - subst s'. assert ((if (k <? nE)%nat then p_Height (cw_Prefix p) else s_Height s) = s_Height s) as Elow.
      { destruct (Nat.ltb_spec k nE); [|done]. rewrite (cur_h _ _ _ Hc). symmetry. apply (low_height k); [lia|apply Hc]. }
      rewrite Elow in Hlog. rewrite (drop_S _ t' (S k - nE)) in Hlog by (pose proof Et' as Ea; rewrite lookup_app_r in Ea by (rewrite length_reverse, length_hs; lia); by rewrite length_reverse, length_hs in Ea).
      replace (S (S k) - nE)%nat with (S (S k - nE)) by lia. by apply (Check_link_sound k ver s t t' (chain_lo t) ver1). }
  pose proof (lookup_lt_Some _ _ _ Et') as Hk'.
  apply (IH (S k) _ _ _ t') in E as (Hn & Hsam & Hin'); [|done|done|done|done]. split; [lia|]. split.
  - rewrite (drop_S _ t' (S k)) by done. replace (n - S k)%nat with (S (n - S (S k))) by lia. cbn [take]. rewrite fmap_cons.
    by eapply sampled_point.
  - intros HF. assert (in_chain t) as Hint.
    { apply (Forall_lookup_1 _ _ k t HF). rewrite lookup_take_lt by lia. apply Hc. }
    destruct (Hin Hint) as [Hint'|?]; [|by right]. apply Hin'. rewrite (take_S_r _ _ t') by done. apply Forall_app. split; [done|]. by constructor.
Qed.
End sound.

(** ** Types *)
Definition prefix_ok (p : Prefix) : Prop := in_width 64 (p_Height p) /\ bytes_n 32 (p_Prev p) /\ bytes_n 32 (p_ChainWork p).
Definition element_ok (e : Element) : Prop :=
  bytes_n 32 (e_Kernels e) /\ bytes_n 32 (e_Definition e) /\ in_width 64 (e_TimeStamp e) /\ pow_ok (e_PoW e).

(** What a proof consists of has the sizes of its types. *)
Record cwp_ok (p : ChainWorkProof) : Prop := {
  ck_prefix : prefix_ok (cw_Prefix p);
  ck_elements : Forall element_ok (cw_vElements p);
  ck_states : Forall full_ok (cw_vArbitraryStates p);
  ck_data : Forall (bytes_n 32) (cw_vData p);
  ck_live : bytes_n 32 (cw_hvRootLive p);
  ck_bound : bytes_n 32 (cw_LowerBound p)
}.

Lemma full_of_ok p e : prefix_ok p -> element_ok e -> full_ok (full_of p e).
Proof. intros (H1 & H2 & H3) (H4 & H5 & H6 & H7). unfold full_ok. by split_and!. Qed.

Section sound_theorems.
Context (sha256 : list Z -> list Z) (r : Rules) (IsValidSolution : list Z -> list Z -> list Z -> bool) (draws : nat).
Context (sha256_size : forall l, bytes_n 32 (sha256 l)) (Hpre : bytes_n 32 (Prehistoric r)).
Context (st : Z -> Full) (H : Z) (live : list Z).

Lemma heading_ok prefix l : prefix_ok prefix -> Forall element_ok l -> Forall full_ok (heading_states sha256 r prefix l).
Proof.
  assert (forall l s, full_ok s -> Forall element_ok l -> Forall full_ok (heading_from sha256 r s l)) as Hf.
  { induction l0 as [|e l0 IH]; intros s Hs Hl; [constructor|]. apply Forall_cons in Hl as [He Hl]. cbn [heading_from].
    assert (full_ok (next_state sha256 r s e)) as Hn.
    { apply full_of_ok; [|done]. split; [|split]; cbn [p_Height p_Prev p_ChainWork].
      - unfold in_width. apply wrap_bound. lia.
      - by apply get_Hash_ok.
      - destruct Hs as (_ & _ & Hc & _). destruct He as (_ & _ & _ & _ & _ & Hd). unfold in_width in Hd.
        destruct (raw_add_assign_spec (s_ChainWork s) (m_Difficulty (e_PoW e))) as [Hr _]; [lia|done|exact Hr]. }
    constructor; [done|]. by apply IH. }
  intros Hp Hl. destruct l as [|e l]; [constructor|]. apply Forall_cons in Hl as [He Hl]. cbn [heading_states].
  constructor; [|apply Hf; [|done]]; by apply full_of_ok.
Qed.

Lemma IsValid_genesis s : IsValid sha256 r IsValidSolution s = true -> HeightGenesis <= s_Height s.
Proof. intros [Hs _]%andb_true_iff. unfold IsSane in Hs. destruct (Z.ltb_spec (s_Height s) HeightGenesis); [done|lia]. Qed.

Lemma IsValidInternal_spec p lb s iState iHash : IsValidInternal sha256 r IsValidSolution draws p lb = Some (Some (s, iState, iHash)) ->
  cw_vElements p <> [] /\ Forall (fun s => IsValid sha256 r IsValidSolution s = true) (states sha256 r p) /\ last (states sha256 r p) = Some s /\
  lt_raw (chain_lo s) (s_ChainWork s) = true /\
  exists ver, Verify_loop sha256 r draws (length (cw_vElements p) + length (cw_vArbitraryStates p) + 1) p lb (s_Definition s)
      (u64 (s_Height s - HeightGenesis)) 1 (Sampler_new sha256 r s) (Verifier_new zhash (cw_vData p)) s (chain_lo s) = Some (Some (iState, ver)) /\
    iHash = (length (cw_vData p) - length (v_it ver))%nat.
Proof.
  unfold IsValidInternal. destruct (cw_vElements p) as [|e l] eqn:Ee; [done|]. rewrite <- Ee. assert (cw_vElements p <> []) as Hne by (by rewrite Ee).
  rewrite EnumStates_walk by done. destruct (walk _ _ _) as [[s0|] []] eqn:Ew; try done.
  apply StateVerifier_walk in Ew as [HF El].
  assert (last (states sha256 r p) = Some s0) as Hlast by (destruct (last (states sha256 r p)); congruence).
  cbn [Sampler_new sm_Begin sm_End]. destruct (lt_raw (chain_lo s0) (s_ChainWork s0)) eqn:Elt; cbn [negb]; [|done].
  destruct (Verify_loop _ _ _ _ _ _ _ _ _ _ _ _ _) as [[[i ver]|]|] eqn:Ev; cbn [mbind option_bind]; intros E; simplify_eq.
  split_and!; [done..|]. exists ver. split; [exact Ev|done].
Qed.

Lemma IsValid_proof_ok M p : chain_ok sha256 r st H live -> chain_msgs sha256 r st H live ⊆ M -> Forall (fun s => header_bytes s true ∈ M) (states sha256 r p) ->
  cwp_ok p -> cw_vElements p <> [] ->
  Forall (fun s => IsValid sha256 r IsValidSolution s = true) (states sha256 r p) -> last (states sha256 r p) = Some (st H) ->
  proof_ok sha256 r st H M p \/ sha_collision sha256 M.
Proof.
  intros Hch HM Hmsg [Hpf Hel Hst Hd Hl Hb] Hne HF Hlast.
  set (hs := heading_states sha256 r (cw_Prefix p) (reverse (cw_vElements p))).
  assert (Forall (fun s => HeightGenesis <= s_Height s) (states sha256 r p)) as Hgen
    by (eapply Forall_impl; [exact HF|]; intros ?; apply IsValid_genesis).
  assert (Forall full_ok hs) as Hfh by (apply heading_ok; try done; by apply Forall_reverse).
  assert (last hs = Some (st H)) as Hlh.
  { unfold states in Hlast. fold hs in Hlast. rewrite last_app in Hlast. destruct (last hs) as [t|] eqn:Elh; [done|].
    apply last_None, heading_states_nil in Elh. apply (f_equal reverse) in Elh. by rewrite reverse_involutive in Elh. }
  unfold states in Hgen, Hmsg. fold hs in Hgen, Hmsg. apply Forall_app in Hgen as [Hga Hgh]. apply Forall_app in Hmsg as [Hma Hmh].
  destruct (heading_in_chain sha256 r st H live Hch M HM (cw_Prefix p) (reverse (cw_vElements p))) as [Hin|?]; [done..| |by right].
  left. constructor; try done; fold hs.
  - apply Forall_app. split; [by apply Forall_reverse|done].
  - apply Forall_app. split; [by apply Forall_reverse|]. apply Forall_reverse in Hga. by rewrite reverse_involutive in Hga.
  - rewrite lookup_app_l; [|rewrite length_reverse; destruct hs; [done|cbn; lia]].
    rewrite reverse_lookup by (destruct hs; [done|cbn; lia]). rewrite <- Hlh. rewrite last_lookup. f_equal. lia.
  - apply Forall_app. split; [by apply Forall_reverse|]. apply Forall_reverse in Hma. by rewrite reverse_involutive in Hma.
Qed.
End sound_theorems.

(** What is hashed to check a proof against the tip of a chain (the headers of the proof, and the Merkle proofs
    of those below the heading), and for the chain. *)
Definition cwp_msgs (sha256 : list Z -> list Z) (r : Rules) (st : Z -> Full) (H : Z) (live : list Z) (p : ChainWorkProof) : list (list Z) :=
  ((fun s => header_bytes s true) <$> UnpackStates sha256 r p []) ++
  (pair_msg <$> links_hashed sha256 r st H p (H - 1) (Verifier_new zhash (cw_vData p)) (p_Height (cw_Prefix p)) (cw_vArbitraryStates p)) ++
  chain_msgs sha256 r st H live.

(** C11: No proof of work for headers that are not in the chain.  If a chain-work
    proof is valid ([ChainWorkProof::IsValid]) and its tip is the last header of a
    chain whose headers are linked and whose tip commits to the history, then
    every header of the proof, consecutive or not, is the header of this chain at
    its height; and the headers below the tip
    cover, one after another, all the points that the sampler asks for down
    to the lower bound.  What is assumed of SHA-256 is that it has no collision among the messages of [cwp_msgs]:
    those that are hashed to check this proof, the headers of the chain and the
    proofs of a full node for them. *)
Theorem chainwork_sound (sha256 : list Z -> list Z) r IsValidSolution draws st H live p :
  (forall l, bytes_n 32 (sha256 l)) -> bytes_n 32 (Prehistoric r) ->
  chain_ok sha256 r st H live -> cwp_ok p -> no_collision sha256 (cwp_msgs sha256 r st H live p) ->
  Cwp_IsValid sha256 r IsValidSolution draws p = Some (Some (st H)) ->
  let v := UnpackStates sha256 r p [] in
  Forall (fun s => IsValid sha256 r IsValidSolution s = true) v /\ Forall (in_chain st H) v /\
  sampled sha256 draws (cw_LowerBound p) (Sampler_new sha256 r (st H)) (work_range <$> drop 1 (reverse v)).
Proof.
  intros Hsz Hpre Hch Hok Hnc E v. unfold Cwp_IsValid in E.
  destruct (IsValidInternal _ _ _ _ _ _) as [[[[s iState] iHash]|]|] eqn:Ei; cbn [mbind option_bind] in E; try done.
  destruct (Nat.eqb_spec (length (cw_vArbitraryStates p) + length (cw_vElements p)) iState) as [En|]; cbn [andb] in E; [|done].
  destruct (length (cw_vData p) =? iHash)%nat; [|done]. simplify_eq.
  apply IsValidInternal_spec in Ei as (Hne & HF & Hlast & _ & ver & Ev & _). unfold cwp_msgs in Hnc. subst v. rewrite UnpackStates_states in * by done. cbn [app] in *.
  set (M := _ ++ _) in Hnc. assert (chain_msgs sha256 r st H live ⊆ M) as HM by (unfold M; intros x Hx; rewrite !elem_of_app; by right; right).
  assert (Forall (fun s => header_bytes s true ∈ M) (states sha256 r p)) as Hmsg by (apply Forall_forall; intros s Hs; apply elem_of_app; left; by apply (list_elem_of_fmap_2 (fun s => header_bytes s true))).
  assert (Forall (fun x => pair_msg x ∈ M) (links_hashed sha256 r st H p (H - 1) (Verifier_new zhash (cw_vData p)) (p_Height (cw_Prefix p)) (cw_vArbitraryStates p))) as Hlog
    by (apply Forall_forall; intros x Hx; unfold M; rewrite !elem_of_app; right; left; by apply list_elem_of_fmap_2).
  split; [done|]. pose proof Hch as [HH Hchst _ _ _]. destruct (Hchst H ltac:(lia)) as [HoH EH].
  destruct (IsValid_proof_ok sha256 r IsValidSolution Hsz Hpre st H live M p Hch HM Hmsg Hok Hne HF Hlast) as [Hp|Hc]; [|by destruct (no_collision_false _ _ Hnc Hc)].
  assert (reverse (states sha256 r p) = reverse (heading_states sha256 r (cw_Prefix p) (reverse (cw_vElements p))) ++ cw_vArbitraryStates p) as Er
    by (unfold states; by rewrite reverse_app, reverse_involutive).
  assert (u64 (s_Height (st H) - HeightGenesis) = H - 1) as Em by (rewrite EH; apply wrap_small; unfold in_width, HeightGenesis in *; lia).
  rewrite Em in Ev. apply (Verify_loop_sound sha256 r draws Hsz Hpre st H live Hch M HM p (cw_LowerBound p) Hp _ 0 _ _ (st H) (st H)) in Ev as (Hn & Hs & Hin).
  - assert (length (states sha256 r p) = length (cw_vArbitraryStates p) + length (cw_vElements p))%nat as Hlen.
    { rewrite <- (length_reverse (states sha256 r p)), Er, length_app, length_reverse, length_hs. lia. }
    rewrite <- Er in *. rewrite (take_ge (drop 1 _)) in Hs by (rewrite length_drop, length_reverse, Hlen; lia).
    rewrite (take_ge _ (length (cw_vArbitraryStates p) + length (cw_vElements p))) in Hin by (rewrite length_reverse, Hlen; lia).
    destruct Hin as [Hin|Hc]; [| |by destruct (no_collision_false _ _ Hnc Hc)].
    + destruct Hp as [_ _ _ _ Hhs Ht _]. rewrite <- Er in Ht. rewrite (take_S_r _ 0 (st H)) by done. constructor; [|constructor].
      split; [lia|]. by rewrite EH.
    + split; [|done]. apply Forall_reverse in Hin. by rewrite reverse_involutive in Hin.
  - constructor; [apply Hp|done|done|done].
  - destruct Hp as [_ _ _ _ _ Ht _]. by apply lookup_lt_Some in Ht.
  - destruct Hok as [_ _ _ Hd _ _]. constructor; [constructor|done|done]; [done|done|]. intros _. constructor.
  - unfold s_low. destruct (cw_vElements p) as [|e l]; [done|]. cbn [length Nat.ltb Nat.leb Nat.sub]. exact Hlog.
Qed.

(** ** Sampling *)
Section sampling.
Context (sha256 : list Z -> list Z) (sha256_size : forall l, bytes_n 32 (sha256 l)).

Record samp_ok (sm : Sampler) : Prop := {
  so_begin : bytes_n 32 (sm_Begin sm);
  so_end : bytes_n 32 (sm_End sm);
  so_le : be_val (sm_Begin sm) <= be_val (sm_End sm)
}.

Lemma raw_bound a : bytes_n 32 a -> 0 <= be_val a < 2 ^ 256.
Proof. intros [Ha La]. pose proof (be_val_bound a Ha) as B. by rewrite La, radix_32 in B. Qed.

Lemma TakeFraction_spec v : bytes_n 32 v -> bytes_n 32 (TakeFraction v) /\ be_val (TakeFraction v) = be_val v * 635 / 2 ^ 16.
Proof.
  intros Hv. pose proof Hv as [Hb Hl]. unfold TakeFraction. assert (bytes_ok (uintBigFrom16 635) /\ length (uintBigFrom16 635) = 2%nat /\ be_val (uintBigFrom16 635) = 635) as (H1 & H2 & H3).
  { split; [|done]. repeat (constructor; [unfold byte_ok; vm_compute; split; congruence|]). constructor. }
  destruct (mul_spec v (uintBigFrom16 635) Hb H1) as (H4 & H5 & H6); [rewrite H2, Hl; done|]. rewrite H2, Hl in H5. split.
  - split; [by apply Forall_take|]. rewrite length_take, H5, Hl. done.
  - rewrite Hl, be_val_take_div by (done || lia). rewrite H6, H3, H5. reflexivity.
Qed.

(** The part below the suffix that the next point is in. *)
Definition sample_range (sm : Sampler) : list Z :=
  let range := TakeFraction (add_raw (Negate (sm_Begin sm)) (sm_End sm)) in
  if memis0 range then AssignOrdinal 4 range 1 else range.

Lemma sample_range_spec sm : samp_ok sm ->
  bytes_n 32 (sample_range sm) /\ 0 < be_val (sample_range sm) <= Z.max 1 (be_val (sm_End sm)).
Proof.
  intros [Hb He Hle]. unfold sample_range. destruct (Negate_raw _ Hb) as [H1 E1]. destruct (add_raw_spec _ _ H1 He) as [H2 E2].
  destruct (TakeFraction_spec _ H2) as [H3 E3]. pose proof (raw_bound _ Hb). pose proof (raw_bound _ He).
  rewrite E1, Zplus_mod_idemp_l, Z.mod_small in E2 by lia.
  destruct (memis0 _) eqn:Ez.
  - destruct H3 as [_ L]. rewrite (AssignOrdinal_eq 4), L; [|lia|by vm_compute].
    split; [split; [apply bytes_ok_be_bytes|apply length_be_bytes]|]. rewrite be_val_be_bytes, radix_32. rewrite Z.mod_small by lia. lia.
  - split; [done|]. assert (be_val (TakeFraction (add_raw (Negate (sm_Begin sm)) (sm_End sm))) <> 0) as Hne.
    { intros E0. apply memis0_spec in E0; [|apply H3]. congruence. }
    pose proof (raw_bound _ H3). split; [lia|]. rewrite E3, E2. etransitivity; [|apply Z.le_max_r].
    apply Z.div_le_upper_bound; lia.
Qed.

Lemma Oracle_size o : bytes_n 32 (Oracle_hash sha256 o).1.
Proof. apply sha256_size. Qed.

Lemma UniformRandom_loop_ok fuel o thr out o' : bytes_n 32 thr -> 0 < be_val thr ->
  UniformRandom_loop sha256 fuel o thr = Some (out, o') -> bytes_n 32 out /\ be_val out < be_val thr.
Proof.
  intros [Ht Lt] Hpos. revert o. induction fuel as [|fuel IH]; intros o E; [done|]. cbn [UniformRandom_loop] in E.
  pose proof (Oracle_size o) as [Hh Lh]. destruct (Oracle_hash sha256 o) as [x o1] eqn:Eo. cbn [fst] in Hh, Lh.
  destruct (_Accept_spec x thr Hh Ht ltac:(congruence) Hpos) as [Hno Hyes].
  destruct (Z.lt_ge_cases (be_val x mod 2 ^ _GetOrder thr) (be_val thr)) as [Hlt|Hge].
  - rewrite (Hyes Hlt) in E. simplify_eq. split; [split; [apply bytes_ok_be_bytes|by rewrite length_be_bytes]|].
    rewrite be_val_be_bytes, Lh, radix_32. pose proof (be_val_bound thr Ht) as B. rewrite Lt, radix_32 in B.
    assert (0 <= be_val x mod 2 ^ _GetOrder thr). { apply Z.mod_pos_bound, Z.pow_pos_nonneg; [lia|apply _GetOrder_bounds; done]. }
    rewrite Z.mod_small; lia.
  - specialize (Hno Hge). destruct (_Accept x thr _) as [y ok]. cbn in Hno. subst ok. by apply IH in E.
Qed.

Lemma SamplePoint_spec draws lb sm sm' pt : samp_ok sm -> SamplePoint sha256 draws lb sm = Some (sm', pt) ->
  samp_ok sm' /\ sm_End sm' = sm_End sm /\ match pt with Some d => bytes_n 32 d /\ be_val d < be_val (sm_Begin sm) | None => True end.
Proof.
  intros Hs E. destruct (sample_range_spec sm Hs) as [Hr Hpos]. unfold SamplePoint in E. fold (sample_range sm) in E.
  destruct (UniformRandom _ _ _ _) as [[[out o]|]|] eqn:Eu; cbn [mbind option_bind] in E; try done.
  unfold UniformRandom in Eu. destruct (_ =? 0); [done|]. destruct (UniformRandom_loop _ _ _ _) as [[out' o']|] eqn:El; [|done]. cbn in Eu. simplify_eq.
  apply UniformRandom_loop_ok in El as [Ho Hlt]; [|done|lia]. pose proof Hs as [Hb He Hle].
  destruct (Negate_raw _ Hr) as [Hn En]. destruct (add_raw_spec _ _ Ho Hb) as [H1 E1]. destruct (add_raw_spec _ _ H1 Hn) as [H2 E2].
  destruct (add_raw_spec _ _ Hb Hn) as [H3 E3]. pose proof (raw_bound _ Hb). pose proof (raw_bound _ Hr).
  set (x := add_raw (add_raw out (sm_Begin sm)) _) in *. destruct (_ || _) eqn:Eo; simplify_eq.
  - split; [by constructor|done].
  - apply orb_false_iff in Eo as [_ Ex]. apply negb_false_iff in Ex. rewrite lt_raw_spec in Ex by done. apply Z.ltb_lt in Ex.
    split; [|done]. constructor; cbn [sm_Begin sm_End]; [|done|]; destruct (lt_raw (sample_range sm) (sm_Begin sm)) eqn:Er; cbn [negb].
    + done.
    + split; [apply bytes_ok_zeros|done].
    + rewrite lt_raw_spec in Er by done. apply Z.ltb_lt in Er. rewrite E3, En, Zplus_mod_idemp_r, Z.mod_small by lia. lia.
    + unfold raw_zero. rewrite be_val_zeros. lia.
Qed.

Lemma Cut_ok sm dLo : samp_ok sm -> bytes_n 32 dLo -> samp_ok (Cut sm dLo) /\ be_val (sm_Begin (Cut sm dLo)) <= be_val dLo.
Proof.
  intros [Hb He Hle] Hd. unfold Cut. rewrite lt_raw_spec by done. destruct (Z.ltb_spec (be_val dLo) (be_val (sm_Begin sm))).
  - split; [constructor; cbn; try done; lia|cbn; lia].
  - split; [by constructor|done].
Qed.

(** More rounds do not change a result. *)
Lemma UniformRandom_loop_mono f f' o thr x : (f <= f')%nat -> UniformRandom_loop sha256 f o thr = Some x -> UniformRandom_loop sha256 f' o thr = Some x.
Proof.
  revert f' o. induction f as [|f IH]; intros f' o Hf E; [done|]. destruct f' as [|f']; [lia|]. cbn [UniformRandom_loop] in *.
  destruct (Oracle_hash sha256 o) as [y o1]. destruct (_Accept _ _ _) as [z []]; [done|]. apply IH; [lia|done].
Qed.

(** The rejection loop stops for thresholds up to [bound]. *)
Definition draws_stop (bound : Z) : Prop :=
  forall o thr, bytes_n 32 thr -> 0 < be_val thr <= bound -> exists fuel, UniformRandom_loop sha256 fuel o thr <> None.

Lemma SamplePoint_mono d d' lb sm x : (d <= d')%nat -> SamplePoint sha256 d lb sm = Some x -> SamplePoint sha256 d' lb sm = Some x.
Proof.
  intros Hd. unfold SamplePoint, UniformRandom. fold (sample_range sm). destruct (_ =? 0); [done|].
  destruct (UniformRandom_loop sha256 d _ _) as [y|] eqn:E; [|done]. by rewrite (UniformRandom_loop_mono d d' _ _ _ Hd E).
Qed.

Lemma SamplePoint_total lb sm bound : samp_ok sm -> draws_stop bound -> Z.max 1 (be_val (sm_End sm)) <= bound ->
  exists d0 x, forall draws, (d0 <= draws)%nat -> SamplePoint sha256 draws lb sm = Some x.
Proof.
  intros Hs Hd Hb. destruct (sample_range_spec sm Hs) as [Hr Hpos].
  destruct (Hd (sm_Oracle sm) (sample_range sm) Hr ltac:(lia)) as [f Hf].
  assert (_GetOrder (sample_range sm) <> 0) as Ho.
  { intros E0. destruct (_GetOrder_bounds _ (proj1 Hr)) as (_ & Hhi & _). rewrite E0 in Hhi. cbn in Hhi. lia. }
  destruct (SamplePoint sha256 f lb sm) as [x|] eqn:E.
  - exists f, x. intros draws Hle. by apply (SamplePoint_mono f).
  - exfalso. unfold SamplePoint, UniformRandom in E. fold (sample_range sm) in E. rewrite (proj2 (Z.eqb_neq _ _) Ho) in E.
    destruct (UniformRandom_loop sha256 f _ _) as [[out o]|]; [|done]. cbn in E. by destruct (_ || _).
Qed.
End sampling.

(** ** What the prover makes is accepted *)
Section complete.
Context (sha256 : list Z -> list Z) (r : Rules) (IsValidSolution : list Z -> list Z -> list Z -> bool).
Context (sha256_size : forall l, bytes_n 32 (sha256 l)) (Hpre : bytes_n 32 (Prehistoric r)).
Abbreviation h2 := (hash2 sha256).
Abbreviation hash := (get_Hash sha256 r).
Context (st : Z -> Full) (H : Z) (live : list Z) (Hch : chain_ok sha256 r st H live).

Abbreviation work h := (be_val (s_ChainWork (st h))).
Abbreviation diff h := (raw_val (m_Difficulty (s_PoW (st h)))).

(** The headers are valid and the work adds up. *)
Record chain_valid : Prop := {
  cv_valid h : HeightGenesis <= h <= H -> IsValid sha256 r IsValidSolution (st h) = true;
  cv_first : work HeightGenesis = diff HeightGenesis;
  cv_next h : HeightGenesis <= h < H -> work (h + 1) = work h + diff (h + 1)
}.

Context (Hcv : chain_valid).

Lemma diff_pos h : HeightGenesis <= h <= H -> 0 < diff h.
Proof. intros Hh. destruct Hch as [_ Hst _ _ _]. destruct (Hst h Hh) as [(_ & _ & _ & _ & _ & _ & _ & _ & Hd) _]. unfold in_width in Hd. apply raw_val_bounds. lia. Qed.

Lemma lo_val h : HeightGenesis <= h <= H -> bytes_n 32 (chain_lo (st h)) /\ be_val (chain_lo (st h)) = work h - diff h /\ 0 <= work h - diff h.
Proof.
  intros Hh. pose proof Hch as [_ Hst _ _ _]. destruct (Hst h Hh) as [Hf _]. destruct (chain_lo_spec _ Hf) as [H1 E1]. split; [done|].
  pose proof (diff_pos h Hh). pose proof Hf as (_ & _ & Hc & _). pose proof (raw_bound _ Hc).
  assert (0 <= work h - diff h).
  { destruct (Z.eq_dec h HeightGenesis) as [->|Hne]; [rewrite (cv_first Hcv); lia|].
    pose proof (cv_next Hcv (h - 1) ltac:(lia)) as E. rewrite Z.sub_add in E. destruct (Hst (h - 1) ltac:(lia)) as [(_ & _ & Hc' & _) _].
    pose proof (raw_bound _ Hc'). lia. }
  split; [|done]. rewrite E1. apply Z.mod_small. lia.
Qed.

Lemma lo_next h : HeightGenesis <= h < H -> chain_lo (st (h + 1)) = s_ChainWork (st h).
Proof.
  intros Hh. pose proof Hch as [_ Hst _ _ _]. destruct (Hst h ltac:(lia)) as [(_ & _ & Hc & _) _].
  destruct (lo_val (h + 1) ltac:(lia)) as (H1 & E1 & _). apply raw_inj; [done|done|]. rewrite E1, (cv_next Hcv h Hh). lia.
Qed.

Lemma work_mono h h' : HeightGenesis <= h < h' -> h' <= H -> work h <= be_val (chain_lo (st h')).
Proof.
  intros Hh Hh'. remember (Z.to_nat (h' - h - 1)) as n eqn:En. revert h' Hh Hh' En. induction n as [|n IH]; intros h' Hh Hh' En.
  - replace h' with (h + 1) by lia. by rewrite lo_next by lia.
  - specialize (IH (h' - 1) ltac:(lia) ltac:(lia) ltac:(lia)).
    pose proof (lo_next (h' - 1) ltac:(lia)) as E. rewrite Z.sub_add in E. rewrite E.
    destruct (lo_val (h' - 1) ltac:(lia)) as (_ & E1 & _). pose proof (diff_pos (h' - 1) ltac:(lia)). lia.
Qed.

Lemma next_in_chain h : HeightGenesis <= h < H -> next_state sha256 r (st h) (element_of (st (h + 1))) = st (h + 1).
Proof.
  intros Hh. pose proof Hch as [HH Hst Hlink _ _]. destruct (Hst h ltac:(lia)) as [Hf Eh]. destruct (Hst (h + 1) ltac:(lia)) as [Hf' Eh'].
  unfold next_state. rewrite Eh, <- (Hlink h Hh). unfold element_of. cbn [e_PoW].
  assert (u64 (h + 1) = s_Height (st (h + 1))) as ->. { rewrite Eh'. apply wrap_small. unfold in_width, HeightGenesis in *. lia. }
  assert (raw_add_assign (s_ChainWork (st h)) (m_Difficulty (s_PoW (st (h + 1)))) = s_ChainWork (st (h + 1))) as ->; [|by destruct (st (h + 1)) as [? ? ? ? ? ? []]].
  pose proof Hf as (_ & _ & Hc & _). pose proof Hf' as (_ & _ & Hc' & _ & _ & _ & _ & _ & Hd). unfold in_width in Hd.
  destruct (raw_add_assign_spec (s_ChainWork (st h)) (m_Difficulty (s_PoW (st (h + 1))))) as [H1 E1]; [lia|done|].
  apply raw_inj; [done|done|]. rewrite E1, <- (cv_next Hcv h Hh). apply Z.mod_small. by apply raw_bound.
Qed.

(** The source finds the header that covers a point, and has the tree of
    the headers below the tip. *)
Record source_ok (src : ISource) : Prop := {
  sk_state d : bytes_n 32 d -> be_val d < work H -> exists h, HeightGenesis <= h <= H /\ get_StateAt src d = st h /\
    be_val (chain_lo (st h)) <= be_val d < work h;
  sk_load : complete h2 (src_load src) (leaves sha256 r st) (H - 1);
  sk_count : src_Count src = H - 1
}.

Context (src : ISource) (Hsrc : source_ok src).

Definition adjacent (t s : Full) : bool := u64 (s_Height t + 1) =? s_Height s.

(** The headers that follow [s] without a gap, and the others. *)
Fixpoint split_run (s : Full) (ts : list Full) : list Full * list Full :=
  match ts with
  | [] => ([], [])
  | t :: ts' => if adjacent t s then let '(a, b) := split_run t ts' in (t :: a, b) else ([], ts)
  end.

(** The leaves that need a proof. *)
Fixpoint jumps (s : Full) (ts : list Full) : list Z :=
  match ts with
  | [] => []
  | t :: ts => if adjacent t s then jumps t ts else (s_Height t - HeightGenesis) :: jumps t ts
  end.

(** Headers of the chain from [s] down. *)
Fixpoint down (s : Full) (ts : list Full) : Prop :=
  match ts with [] => True | t :: ts => in_chain st H t /\ s_Height t < s_Height s /\ down t ts end.

Lemma in_chain_st h : HeightGenesis <= h <= H -> in_chain st H (st h).
Proof. intros Hh. destruct Hch as [_ Hst _ _ _]. destruct (Hst h Hh) as [_ E]. unfold in_chain. by rewrite E. Qed.

Lemma adjacent_spec t s : in_chain st H t -> adjacent t s = (s_Height t + 1 =? s_Height s).
Proof. intros [Ht _]. unfold adjacent. rewrite wrap_small; [done|]. destruct Hch as [HH _ _ _ _]. unfold in_width, HeightGenesis in *. lia. Qed.

(** Where the sampler is when the header [s] has been dealt with. *)
Record samp_at (sm : Sampler) (s : Full) : Prop := {
  sa_ok : samp_ok sm;
  sa_end : sm_End sm = s_ChainWork (st H);
  sa_begin : be_val (sm_Begin sm) <= be_val (chain_lo s)
}.

Lemma Sampler_new_at : samp_at (Sampler_new sha256 r (st H)) (st H).
Proof.
  pose proof Hch as [HH Hst _ _ _]. destruct (Hst H ltac:(lia)) as [(_ & _ & Hc & _) _]. destruct (lo_val H ltac:(lia)) as (H1 & E1 & _).
  pose proof (diff_pos H ltac:(lia)). constructor; [constructor|done|done]; cbn; [done|done|lia].
Qed.

(** The next header that is asked for. *)
Lemma sample_step draws lb sm s sm' d : samp_at sm s -> in_chain st H s -> SamplePoint sha256 draws lb sm = Some (sm', Some d) ->
  let t := get_StateAt src d in
  in_chain st H t /\ s_Height t < s_Height s /\ lt_raw d (chain_lo t) = false /\ lt_raw d (s_ChainWork t) = true /\ samp_at (Cut sm' (chain_lo t)) t.
Proof.
  intros [Hok Hend Hb] [Hs Es] E. destruct (SamplePoint_spec sha256 sha256_size draws lb sm sm' (Some d) Hok E) as (Hok' & Hend' & Hd & Hlt).
  pose proof Hch as [HH Hst _ _ _]. rewrite Es in Hb.
  assert (be_val (chain_lo (st (s_Height s))) < work H) as HloH.
  { destruct (lo_val _ Hs) as (_ & E1 & _). pose proof (diff_pos _ Hs). destruct (Z.eq_dec (s_Height s) H) as [Eq|Hne]; [rewrite <- Eq; lia|].
    pose proof (work_mono (s_Height s) H ltac:(lia) ltac:(lia)). destruct (lo_val H ltac:(lia)) as (_ & E2 & _). pose proof (diff_pos H ltac:(lia)). lia. }
  destruct (sk_state src Hsrc d Hd ltac:(lia)) as (h & Hh & Eh & Hr). intros t. subst t. rewrite Eh.
  destruct (Hst h Hh) as [Hfh Ehh]. pose proof Hfh as (_ & _ & Hc & _). destruct (lo_val h Hh) as (H1 & _ & _).
  split; [by apply in_chain_st|]. rewrite Ehh. split.
  { destruct (Z.lt_ge_cases h (s_Height s)) as [|Hge]; [done|]. exfalso.
    destruct (Z.eq_dec h (s_Height s)) as [->|Hne]; [lia|].
    pose proof (work_mono (s_Height s) h ltac:(lia) ltac:(lia)). destruct (lo_val _ Hs) as (_ & E1 & _). pose proof (diff_pos _ Hs). lia. }
  rewrite !lt_raw_spec by done. split; [apply Z.ltb_ge; lia|]. split; [apply Z.ltb_lt; lia|].
  destruct (Cut_ok sm' (chain_lo (st h)) Hok' H1) as [H2 H3]. constructor; [done| |done]. cbn. congruence.
Qed.

Lemma Create_total fuel p bld sm s bound : samp_at sm s -> in_chain st H s -> s_Height s <= Z.of_nat fuel ->
  draws_stop sha256 bound -> work H <= bound ->
  exists d0 p', forall draws, (d0 <= draws)%nat -> Create_loop sha256 draws fuel src p bld sm s = Some p'.
Proof.
  intros Hsm Hs Hf Hd Hbound. revert p bld sm s Hsm Hs Hf. induction fuel as [|fuel IH]; intros p bld sm s Hsm Hs Hf.
  { destruct Hs as [Hs _]. unfold HeightGenesis in Hs. lia. }
  assert (Z.max 1 (be_val (sm_End sm)) <= bound) as Hb.
  { destruct Hsm as [_ -> _]. destruct Hch as [HH _ _ _ _]. destruct (lo_val H ltac:(lia)) as (_ & _ & ?). pose proof (diff_pos H ltac:(lia)). lia. }
  destruct (SamplePoint_total sha256 (cw_LowerBound (push_heading p s)) sm bound ltac:(apply Hsm) Hd Hb) as (d1 & [sm' [d|]] & Hd1).
  - destruct (sample_step d1 _ sm s sm' d Hsm Hs (Hd1 d1 ltac:(lia))) as (Ht & Hlt & _ & _ & Hsm').
    destruct (IH (if negb (u64 (s_Height (get_StateAt src d) + 1) =? s_Height s) || negb match cw_vArbitraryStates (push_heading p s) with [] => true | _ => false end
        then mkCwp (cw_Prefix (push_heading p s)) (cw_vElements (push_heading p s)) (cw_vArbitraryStates (push_heading p s) ++ [get_StateAt src d])
               (cw_vData (push_heading p s)) (cw_hvRootLive (push_heading p s)) (cw_LowerBound (push_heading p s))
        else push_heading p s)
      (if negb (u64 (s_Height (get_StateAt src d) + 1) =? s_Height s)
       then Builder_Add h2 zhash (src_load src) (src_Count src) bld (u64 (s_Height (get_StateAt src d) - HeightGenesis)) else bld)
      (Cut sm' (chain_lo (get_StateAt src d))) (get_StateAt src d) Hsm' Ht ltac:(lia)) as (d2 & p' & Hd2).
    exists (Nat.max d1 d2), p'. intros draws Hdr. cbn [Create_loop]. rewrite Hd1 by lia. cbn [mbind option_bind].
    rewrite (proj2 (Z.ltb_lt _ _) Hlt). cbn [negb]. apply Hd2. lia.
  - eexists d1, _. intros draws Hdr. cbn [Create_loop]. rewrite Hd1 by lia. reflexivity.
Qed.

Lemma split_run_app s ts : (split_run s ts).1 ++ (split_run s ts).2 = ts.
Proof.
  revert s. induction ts as [|t ts IH]; intros s; [done|]. cbn [split_run]. destruct (adjacent t s); [|done].
  specialize (IH t). destruct (split_run t ts) as [a b]. cbn in *. by rewrite IH.
Qed.

Lemma last_default {A} (x : list A) s t : List.last (t :: x) s = List.last x t.
Proof. revert s t. induction x as [|z x IH]; intros s t; [done|]. change (List.last (z :: x) s = List.last (z :: x) t). by rewrite !IH. Qed.

Lemma lookup_last {A} (l : list A) s a : (s :: l) !! length l = Some a -> a = List.last l s.
Proof.
  revert s. induction l as [|x l IH]; intros s E; [cbn in *; congruence|]. rewrite last_default. by apply IH.
Qed.

(** What is built, from the headers that were asked for. *)
Lemma Create_loop_spec draws fuel p bld sm s p' : samp_at sm s -> in_chain st H s ->
  Create_loop sha256 draws fuel src p bld sm s = Some p' ->
  exists ts, down s ts /\ sampled sha256 draws (cw_LowerBound p) sm (work_range <$> ts) /\
    cw_vData p' = b_vData (Build h2 zhash (src_load src) (H - 1) bld (jumps s ts)) /\
    cw_LowerBound p' = cw_LowerBound p /\
    match cw_vArbitraryStates p with
    | [] => cw_vElements p' = cw_vElements p ++ (element_of <$> s :: (split_run s ts).1) /\ cw_vArbitraryStates p' = (split_run s ts).2 /\
            cw_Prefix p' = prefix_of (List.last (split_run s ts).1 s)
    | _ => cw_vElements p' = cw_vElements p /\ cw_vArbitraryStates p' = cw_vArbitraryStates p ++ ts /\ cw_Prefix p' = cw_Prefix p
    end.
Proof.
  revert p bld sm s. induction fuel as [|fuel IH]; intros p bld sm s Hsm Hs E; [done|]. cbn [Create_loop] in E.
  assert (cw_LowerBound (push_heading p s) = cw_LowerBound p) as Elb by (unfold push_heading; by destruct (cw_vArbitraryStates p)).
  destruct (SamplePoint _ _ _ _) as [[sm' [d|]]|] eqn:Es; cbn [mbind option_bind] in E; [| |done]; rewrite Elb in Es.
  2: { simplify_eq. exists []. cbn. split_and!; [done|by eapply sampled_end|done|done|].
       unfold push_heading. destruct (cw_vArbitraryStates p) eqn:Ea; cbn; [done|]. rewrite Ea, app_nil_r. done. }
  destruct (sample_step draws _ sm s sm' d Hsm Hs Es) as (Ht & Hlt & Hlo & Hhi & Hsm').
  set (t := get_StateAt src d) in *. rewrite (proj2 (Z.ltb_lt _ _) Hlt) in E. cbn [negb] in E.
  assert (u64 (s_Height t - HeightGenesis) = s_Height t - HeightGenesis) as Eu.
  { apply wrap_small. destruct Ht as [Ht _]. destruct Hch as [HH _ _ _ _]. unfold in_width, HeightGenesis in *. lia. }
  rewrite Eu, (sk_count src Hsrc) in E. fold (adjacent t s) in E.
  apply IH in E as (ts & Hdown & Hsam & Hdata & Hlb & Hlists); [|done|done].
  exists (t :: ts). split; [done|]. cbn [jumps split_run].
  assert (sampled sha256 draws (cw_LowerBound p) sm (work_range <$> t :: ts)) as Hsam'.
  { rewrite fmap_cons. eapply sampled_point; [exact Es|done|done|]. revert Hsam. destruct (_ || _); cbn [cw_LowerBound]; by rewrite ?Elb. }
  split; [done|]. split; [by destruct (adjacent t s)|]. split; [rewrite Hlb; by destruct (_ || _)|].
  unfold push_heading in Hlists. destruct (cw_vArbitraryStates p) as [|a l] eqn:Ea; cbn in Hlists.
  - destruct (adjacent t s) eqn:Eadj; cbn in Hlists.
    + destruct Hlists as (-> & -> & ->). destruct (split_run t ts) as [x y]. cbn. rewrite <- app_assoc. split; [done|]. split; [done|].
      f_equal. symmetry. exact (last_default x s t).
    + destruct Hlists as (-> & -> & ->). done.
  - rewrite Ea in Hlists. cbn in Hlists. rewrite orb_true_r in Hlists. cbn in Hlists. destruct Hlists as (-> & -> & ->).
    split; [done|]. split; [|done]. cbn. by rewrite <- app_assoc.
Qed.

(** *** Back through the heading *)
Fixpoint contig (s : Full) (run : list Full) : Prop :=
  match run with [] => True | t :: run => in_chain st H t /\ s_Height s = s_Height t + 1 /\ contig t run end.

Lemma split_run_spec s ts : down s ts ->
  contig s (split_run s ts).1 /\ match (split_run s ts).2 with t :: _ => adjacent t (List.last (split_run s ts).1 s) = false | [] => True end.
Proof.
  revert s. induction ts as [|t ts IH]; intros s Hd; [done|]. cbn [down split_run] in *. destruct Hd as (Ht & Hlt & Hd).
  destruct (adjacent t s) eqn:Ea; [|done]. specialize (IH t Hd). destruct (split_run t ts) as [a b]. cbn [fst snd] in *.
  rewrite adjacent_spec in Ea by done. apply Z.eqb_eq in Ea. destruct IH as [IH1 IH2]. split; [by cbn [contig]|].
  by rewrite last_default.
Qed.

Lemma heading_snoc pre l e t : last (heading_states sha256 r pre l) = Some t ->
  heading_states sha256 r pre (l ++ [e]) = heading_states sha256 r pre l ++ [next_state sha256 r t e].
Proof.
  assert (forall l s, last (s :: heading_from sha256 r s l) = Some t -> heading_from sha256 r s (l ++ [e]) = heading_from sha256 r s l ++ [next_state sha256 r t e]) as Hf.
  { induction l0 as [|x l0 IH]; intros s E; cbn [app heading_from] in *; [cbn in E; by simplify_eq|]. rewrite last_cons_cons in E. by rewrite IH. }
  destruct l as [|x l]; [done|]. cbn [app heading_states]. intros E. by rewrite (Hf l _ E).
Qed.

Lemma run_heading run s : in_chain st H s -> contig s run ->
  heading_states sha256 r (prefix_of (List.last run s)) (reverse (element_of <$> s :: run)) = reverse (s :: run).
Proof.
  revert s. induction run as [|t run IH]; intros s Hs Hc; [by destruct s|]. destruct Hc as (Ht & Hh & Hc).
  rewrite fmap_cons, !reverse_cons, last_default, (heading_snoc _ _ _ t); rewrite IH by done.
  - rewrite reverse_cons. do 2 f_equal. destruct Hs as [Hs Es]. destruct Ht as [Ht Et].
    rewrite Hh in Es, Hs. rewrite Es. rewrite Et at 1. apply next_in_chain. lia.
  - by rewrite reverse_cons, last_snoc.
Qed.

Lemma contig_lookup s run k a b : contig s run -> (s :: run) !! k = Some a -> (s :: run) !! S k = Some b -> s_Height a = s_Height b + 1.
Proof.
  revert s k. induction run as [|t run IH]; intros s k Hc Ea Eb; [done|]. destruct Hc as (_ & Hh & Hc). destruct k as [|k].
  - cbn in Ea, Eb. by simplify_eq.
  - by apply (IH t k).
Qed.

Lemma down_lookup s ts k a b : down s ts -> (s :: ts) !! k = Some a -> (s :: ts) !! S k = Some b -> in_chain st H b /\ s_Height b < s_Height a.
Proof.
  revert s k. induction ts as [|t ts IH]; intros s k Hd Ea Eb; [done|]. destruct Hd as (Ht & Hlt & Hd). destruct k as [|k].
  - cbn in Ea, Eb. by simplify_eq.
  - by apply (IH t k).
Qed.

Lemma down_in_chain s ts : down s ts -> Forall (in_chain st H) ts.
Proof. revert s. induction ts as [|t ts IH]; intros s Hd; constructor; [apply Hd|]. apply (IH t), Hd. Qed.

Lemma down_drop s ts k t : down s ts -> (s :: ts) !! k = Some t -> down t (drop (S k) (s :: ts)).
Proof.
  revert s ts. induction k as [|k IH]; intros s ts Hd E; [cbn in *; by simplify_eq|].
  destruct ts as [|x ts]; [done|]. apply (IH x ts); [apply Hd|done].
Qed.

Lemma jumps_bound s ts : s_Height s <= H -> down s ts -> Forall (fun i => 0 <= i < H - 1) (jumps s ts).
Proof.
  revert s. induction ts as [|t ts IH]; intros s Hs Hd; [constructor|]. destruct Hd as ([Ht _] & Hlt & Hd). cbn [jumps].
  destruct (adjacent t s); [apply IH; [lia|done]|]. constructor; [unfold HeightGenesis in *; lia|apply IH; [lia|done]].
Qed.

(** *** The verifier on what was built *)
Context (ts : list Full) (Hdown : down (st H) ts).
Abbreviation D := (st H :: ts).
Abbreviation run := (split_run (st H) ts).1.
Abbreviation rest := (split_run (st H) ts).2.

Record built (p : ChainWorkProof) : Prop := {
  bt_elements : cw_vElements p = element_of <$> st H :: run;
  bt_states : cw_vArbitraryStates p = rest;
  bt_prefix : cw_Prefix p = prefix_of (List.last run (st H));
  bt_data : cw_vData p = b_vData (Build h2 zhash (src_load src) (H - 1) (Builder_new []) (jumps (st H) ts));
  bt_live : cw_hvRootLive p = live
}.

Context (p : ChainWorkProof) (Hbt : built p).
Abbreviation nE := (length (cw_vElements p)).

Lemma nE_run : nE = S (length run).
Proof. rewrite (bt_elements p Hbt), length_fmap. done. Qed.

Lemma D_split : D = (st H :: run) ++ rest.
Proof. cbn [app]. by rewrite split_run_app. Qed.

Lemma built_states : states sha256 r p = reverse D.
Proof.
  unfold states. rewrite (bt_states p Hbt), (bt_elements p Hbt), (bt_prefix p Hbt), run_heading.
  - by rewrite D_split, reverse_app.
  - apply in_chain_st. destruct Hch as [HH _ _ _ _]. lia.
  - by apply split_run_spec.
Qed.

(** A header in the heading, or not. *)
Lemma D_lookup k t : D !! S k = Some t ->
  ((S k < nE)%nat /\ cw_vElements p !! S k = Some (element_of t) /\ forall s, D !! k = Some s -> adjacent t s = true) \/
  ((nE <= S k)%nat /\ cw_vArbitraryStates p !! (S k - nE)%nat = Some t /\ (S k = nE -> forall s, D !! k = Some s -> adjacent t s = false)).
Proof.
  intros E. pose proof nE_run as En. destruct (split_run_spec (st H) ts Hdown) as [Hc Hr].
  destruct (Nat.lt_ge_cases (S k) nE) as [Hlt|Hge]; [left|right]; split; try lia.
  - pose proof E as E'. rewrite D_split, lookup_app_l in E' by (cbn [length]; lia). split.
    + rewrite (bt_elements p Hbt), list_lookup_fmap, E'. done.
    + intros s Es. rewrite D_split, lookup_app_l in Es by (cbn [length]; lia).
      pose proof (contig_lookup _ _ _ _ _ Hc Es E') as Hh. rewrite adjacent_spec; [by apply Z.eqb_eq|].
      apply (down_lookup _ _ k s t Hdown); [|done]. by rewrite D_split, lookup_app_l by (cbn [length]; lia).
  - pose proof E as E'. rewrite D_split, lookup_app_r in E' by (cbn [length]; lia). cbn [length] in E'. split.
    + rewrite (bt_states p Hbt), En. done.
    + intros Ek s Es. assert (k = length run) as -> by lia. replace (S (length run) - S (length run))%nat with 0%nat in E' by lia.
      rewrite D_split, lookup_app_l in Es by (cbn [length]; lia).
      destruct rest as [|t0 l]; [done|]. cbn in E'. simplify_eq. rewrite <- Hr. f_equal.
      by apply lookup_last.
Qed.

Context (draws : nat) (lb : list Z).

Lemma valid_root_ok : IsRootValid sha256 p (s_Definition (st H)) (root_hash h2 zhash (leaves sha256 r st) (H - 1)) = true.
Proof.
  unfold IsRootValid. rewrite (bt_live p Hbt). destruct Hch as [HH Hst _ _ Hdef]. destruct (Hst H ltac:(lia)) as [(_ & _ & _ & _ & HD & _) _].
  apply (Cmp0_eq 32); [apply sha256_size|done|]. by rewrite Hdef.
Qed.

(** A header below the heading is linked or proved. *)
Lemma Check_link_complete k s t t' b vlast hv it :
  D !! k = Some t -> in_chain st H t -> D !! S k = Some t' -> s_Height s = s_Height t -> (adjacent t' t = true -> s = t) ->
  lockstep h2 (leaves sha256 r st) (H - 1) b vlast [] ->
  b_vData (Build h2 zhash (src_load src) (H - 1) b (jumps t (drop (S k) D))) = b_vData b ++ it ->
  exists b' vlast' hv' it', Check_link sha256 r p (s_Definition (st H)) (H - 1) (mkVerifier it vlast [] hv None true) t' s (chain_lo t)
      = Some (Some (mkVerifier it' vlast' [] hv' None true)) /\
    lockstep h2 (leaves sha256 r st) (H - 1) b' vlast' [] /\
    b_vData (Build h2 zhash (src_load src) (H - 1) b' (jumps t' (drop (S (S k)) D))) = b_vData b' ++ it'.
Proof.
  intros Et Ht Et' Eh Es Hlk Hdata. destruct (down_lookup _ _ _ _ _ Hdown Et Et') as [Ht' Hlt].
  rewrite (drop_S _ t' (S k)) in Hdata by done. cbn [jumps] in Hdata. pose proof Hch as [HH Hst Hlink _ _].
  pose proof Ht as [Hht Est]. pose proof Ht' as [Hht' Est']. destruct (Hst _ Hht) as [Hft _]. destruct (Hst _ Hht') as [Hft' _].
  destruct (lo_val _ Hht) as (Hlo & _ & _). rewrite <- Est in Hlo, Hft. rewrite <- Est' in Hft'.
  unfold Check_link. rewrite Eh. fold (adjacent t' t). destruct (adjacent t' t) eqn:Ea.
  - rewrite (Es eq_refl). cbn [set_hvPos v_hvPos]. rewrite adjacent_spec in Ea by done. apply Z.eqb_eq in Ea.
    assert (s_Prev t = hash t') as Ep. { pose proof (Hlink (s_Height t') ltac:(lia)) as E. by rewrite Ea, <- Est, <- Est' in E. }
    assert (s_ChainWork t' = chain_lo t) as Ec. { pose proof (lo_next (s_Height t') ltac:(lia)) as E. by rewrite Ea, <- Est, <- Est' in E. }
    assert ((_Cmp (s_Prev t) (hash t') =? 0) = true) as -> by (apply (Cmp0_eq 32); [apply Hft|by apply get_Hash_ok|done]). cbn [negb].
    assert ((_Cmp (s_ChainWork t') (chain_lo t) =? 0) = true) as -> by (apply (Cmp0_eq 32); [apply Hft'|done|done]). cbn [negb]. eexists b, vlast, _, it. split; [reflexivity|done].
  - rewrite (proj2 (Z.leb_gt _ _)) by done. rewrite adjacent_spec in Ea by done. apply Z.eqb_neq in Ea.
    assert (lt_raw (s_ChainWork t') (chain_lo t) = true) as ->.
    { rewrite lt_raw_spec by (done || apply Hft'). apply Z.ltb_lt.
      pose proof (work_mono (s_Height t' + 1) (s_Height t) ltac:(lia) ltac:(lia)) as E1. rewrite <- Est in E1.
      pose proof (cv_next Hcv (s_Height t') ltac:(lia)) as E2. rewrite <- Est' in E2. pose proof (diff_pos (s_Height t' + 1) ltac:(lia)). lia. }
    cbn [negb]. assert (0 < H - 1 <= 2 ^ 63 /\ 0 <= s_Height t' - HeightGenesis < H - 1) as [Hm Hi] by (unfold HeightGenesis in *; lia).
    rewrite wrap_small by (unfold in_width; lia).
    destruct (Add_complete h2 zhash (src_load src) (leaves sha256 r st) (H - 1) (sk_load src Hsrc) Hm _ valid_root_ok
      b vlast (s_Height t' - HeightGenesis) Hi Hlk) as (X & vlast' & EX & Hlk' & Hpr).
    destruct (Build_complete h2 zhash (src_load src) (leaves sha256 r st) (H - 1) (sk_load src Hsrc) Hm
      _ valid_root_ok (jumps t' (drop (S (S k)) D)) _ vlast' (jumps_bound t' _ ltac:(lia) (down_drop _ _ _ _ Hdown Et')) Hlk') as (X' & EX' & _).
    unfold Build in Hdata, EX'. cbn [foldl] in Hdata. rewrite EX', EX, <- app_assoc in Hdata. apply app_inv_head in Hdata.
    destruct (Hpr X') as (hv' & Eproc). unfold set_hvPos. cbn [v_it v_vLast v_vLastRev v_phvSibling v_bVerify].
    assert (leaves sha256 r st (s_Height t' - HeightGenesis) = hash t') as El.
    { unfold leaves, HeightGenesis. rewrite Z.sub_add. by rewrite <- Est'. }
    rewrite El, Hdata in Eproc. rewrite Eproc. cbn [mbind option_bind v_bVerify negb]. eexists _, _, _, _. split; [reflexivity|]. split; [exact Hlk'|].
    exact EX'.
Qed.

Lemma Verify_loop_complete fuel k samp s t b vlast hv it :
  D !! k = Some t -> in_chain st H t -> s_Height s = s_Height t -> (k = 0%nat \/ (nE <= k)%nat -> s = t) ->
  (length D <= fuel + k)%nat -> sampled sha256 draws lb samp (work_range <$> drop (S k) D) ->
  lockstep h2 (leaves sha256 r st) (H - 1) b vlast [] ->
  b_vData (Build h2 zhash (src_load src) (H - 1) b (jumps t (drop (S k) D))) = b_vData b ++ it ->
  exists vlast' hv', Verify_loop sha256 r draws fuel p lb (s_Definition (st H)) (H - 1) (S k) samp (mkVerifier it vlast [] hv None true) s (chain_lo t)
    = Some (Some (length D, mkVerifier [] vlast' [] hv' None true)).
Proof.
  revert k samp s t b vlast hv it. induction fuel as [|fuel IH]; intros k samp s t b vlast hv it Et Ht Eh Es Hf Hsam Hlk Hdata.
  { apply lookup_lt_Some in Et. lia. }
  cbn [Verify_loop]. destruct (D !! S k) as [t'|] eqn:Et'.
  - rewrite (drop_S _ t' (S k)) in Hsam by done. rewrite fmap_cons in Hsam. inversion Hsam as [|? sm' d lo hi l Esp Hlo Hhi Hsam']; subst.
    rewrite Esp. cbn [mbind option_bind]. destruct (down_lookup _ _ _ _ _ Hdown Et Et') as [Ht' Hlt].
    destruct (D_lookup k t' Et') as [(HkE & Ee & Hadj)|(HkE & Ea & Hadj)].
    + rewrite (proj2 (Nat.ltb_lt _ _) HkE), Ee. cbn [fmap option_fmap option_map].
      set (s' := mkFull _ _ _ _ _ _ _). specialize (Hadj t Et). rewrite adjacent_spec in Hadj by done. apply Z.eqb_eq in Hadj.
      assert (s_ChainWork t' = chain_lo t) as Ec.
      { destruct Ht as [Hht Est]. destruct Ht' as [Hht' Est']. pose proof (lo_next (s_Height t') ltac:(lia)) as E. by rewrite Hadj, <- Est, <- Est' in E. }
      assert (s_ChainWork s' = s_ChainWork t') as Ecw by (by rewrite Ec).
      assert (chain_lo s' = chain_lo t') as Elo by (unfold chain_lo; by rewrite Ecw).
      rewrite Ecw, Elo, Hhi, Hlo. cbn [negb mbind option_bind].
      apply (IH (S k) _ s' t' b); try done.
      * subst s'. cbn [s_Height]. rewrite Eh, <- Hadj, Z.add_simpl_r. apply wrap_small. destruct Ht' as [Hht' _]. destruct Hch as [HH _ _ _ _]. unfold in_width, HeightGenesis in *. lia.
      * lia.
      * lia.
      * rewrite <- Hdata. rewrite (drop_S _ t' (S k)) by done. cbn [jumps]. rewrite adjacent_spec by done. by rewrite (proj2 (Z.eqb_eq _ _) Hadj).
    + rewrite (proj2 (Nat.ltb_ge _ _) HkE), Ea, Hhi, Hlo. cbn [negb].
      destruct (Check_link_complete k s t t' b vlast hv it Et Ht Et' Eh) as (b' & vlast' & hv' & it' & -> & Hlk' & Hdata'); [|done|done|].
      { intros Hadj'. apply Es. destruct (Nat.eq_dec (S k) nE) as [E|]; [|lia]. rewrite (Hadj E t Et) in Hadj'. done. }
      cbn [mbind option_bind]. apply (IH (S k) _ t' t' b'); try done. lia.
  - apply lookup_ge_None in Et'. apply lookup_lt_Some in Et. rewrite drop_ge in Hsam, Hdata by lia. cbn in Hdata.
    assert (it = []) as -> by (apply (app_inv_head (b_vData b)); by rewrite app_nil_r).
    inversion Hsam as [? sm' Esp|]; subst. rewrite Esp. cbn [mbind option_bind]. exists vlast, hv. do 4 f_equal. lia.
Qed.

Lemma built_valid : sampled sha256 draws (cw_LowerBound p) (Sampler_new sha256 r (st H)) (work_range <$> ts) ->
  lb = cw_LowerBound p -> Cwp_IsValid sha256 r IsValidSolution draws p = Some (Some (st H)).
Proof.
  intros Hsam Elb. pose proof Hch as [HH Hst _ _ _]. destruct (Hst H ltac:(lia)) as [HfH EH].
  assert (cw_vElements p <> []) as Hne by (rewrite (bt_elements p Hbt); done).
  unfold Cwp_IsValid, IsValidInternal. destruct (cw_vElements p) as [|e l] eqn:Ee; [done|]. rewrite <- Ee in *.
  assert (Forall (fun s => IsValid sha256 r IsValidSolution s = true) (states sha256 r p)) as HF.
  { rewrite built_states. apply Forall_reverse. constructor; [apply (cv_valid Hcv); lia|].
    eapply Forall_impl; [exact (down_in_chain _ _ Hdown)|]. intros x [Hx ->]. by apply (cv_valid Hcv). }
  rewrite EnumStates_walk by done. rewrite StateVerifier_walk_ok by done. rewrite built_states, reverse_cons, last_snoc.
  cbn [Sampler_new sm_Begin sm_End]. destruct (lo_val H ltac:(lia)) as (Hlo & Elo & _). pose proof (diff_pos H ltac:(lia)).
  assert (lt_raw (chain_lo (st H)) (s_ChainWork (st H)) = true) as ->
    by (rewrite lt_raw_spec; [apply Z.ltb_lt; lia|done|apply HfH]). cbn [negb].
  rewrite EH, wrap_small by (unfold in_width, HeightGenesis in *; lia).
  destruct (Verify_loop_complete (nE + length (cw_vArbitraryStates p) + 1) 0 (Sampler_new sha256 r (st H)) (st H) (st H) (Builder_new []) [] zhash (cw_vData p))
    as (vlast' & hv' & Ev); try done.
  - apply in_chain_st. lia.
  - rewrite D_split, length_app, <- (bt_states p Hbt), nE_run. cbn [length]. lia.
  - by rewrite Elb.
  - symmetry. apply (bt_data p Hbt).
  - rewrite <- Elb. unfold Verifier_new, HeightGenesis.
    match goal with |- context [Verify_loop ?a ?b ?c ?d ?e ?f ?g ?h ?i ?j ?k ?l ?m] =>
      replace (Verify_loop a b c d e f g h i j k l m) with (Some (Some (length D, mkVerifier (Hash := list Z) [] vlast' [] hv' None true))) by (symmetry; exact Ev) end.
    cbn [mbind option_bind v_it length]. rewrite Nat.sub_0_r, Nat.eqb_refl, andb_true_r.
    assert (length (cw_vArbitraryStates p) + nE = length D)%nat as ->; [|by rewrite Nat.eqb_refl].
    rewrite D_split, length_app, <- (bt_states p Hbt), nE_run. cbn [length]. lia.
Qed.
End complete.

(** C12: The prover convinces the verifier.  For every chain of valid, linked headers
    whose work adds up and whose tip commits to its history, the proof that
    [BuildCwp] and [ChainWorkProof::Create] make from a source that finds the
    headers of the chain is accepted by [ChainWorkProof::IsValid] with the tip of the
    chain, as soon as the rejection sampling is given enough rounds. *)
Theorem chainwork_complete (sha256 : list Z -> list Z) r IsValidSolution st H live src m_Cwp :
  (forall l, bytes_n 32 (sha256 l)) -> bytes_n 32 (Prehistoric r) ->
  chain_ok sha256 r st H live -> chain_valid sha256 r IsValidSolution st H -> source_ok sha256 r st H src ->
  draws_stop sha256 (be_val (s_ChainWork (st H))) ->
  cw_vElements m_Cwp = [] -> cw_vArbitraryStates m_Cwp = [] -> cw_vData m_Cwp = [] ->
  exists d0 p, forall draws, (d0 <= draws)%nat ->
    BuildCwp sha256 r draws (Z.to_nat H) src (st H) live m_Cwp = Some (p, true) /\
    Cwp_IsValid sha256 r IsValidSolution draws p = Some (Some (st H)) /\ cw_LowerBound p = cw_LowerBound m_Cwp.
Proof.
  intros Hsz Hpre Hch Hcv Hsrc Hd He Ha Hv. pose proof Hch as [HH Hst _ _ _]. destruct (Hst H ltac:(lia)) as [_ EH].
  pose proof (in_chain_st _ _ _ _ _ Hch H ltac:(lia)) as Hin. pose proof (Sampler_new_at _ _ _ st H live Hch Hcv) as Hsm.
  destruct (Create_total sha256 r IsValidSolution Hsz st H live Hch Hcv src Hsrc (Z.to_nat H) m_Cwp (Builder_new (cw_vData m_Cwp))
    (Sampler_new sha256 r (st H)) (st H) (be_val (s_ChainWork (st H)))) as (d0 & p0 & Hp0); [done|done|rewrite EH; lia|done|done|].
  eexists d0, _. intros draws Hdr. specialize (Hp0 draws Hdr). unfold BuildCwp, Create. rewrite He, EH, Hp0.
  rewrite (proj2 (Z.ltb_ge _ _)) by lia. cbn [mbind option_bind]. split; [reflexivity|].
  eapply Create_loop_spec in Hp0 as (ts & Hdown & Hsam & Hdata & Hlb & Hlists); try done. rewrite Ha, He, Hv in *.
  destruct Hlists as (E1 & E2 & E3). split; [|done].
  eapply (built_valid sha256 r IsValidSolution Hsz Hpre st H live Hch Hcv src Hsrc ts Hdown); [|cbn [cw_LowerBound]; by rewrite Hlb|reflexivity].
  by constructor.
Qed.

(** ** Cropping *)
Section crop.
Context (sha256 : list Z -> list Z) (r : Rules) (IsValidSolution : list Z -> list Z -> list Z -> bool) (draws : nat).
Context (sha256_size : forall l, bytes_n 32 (sha256 l)) (Hpre : bytes_n 32 (Prehistoric r)).
Abbreviation h2 := (hash2 sha256).

Lemma Check_link_rest p p' def m ver s s0 d ver' w X : cw_hvRootLive p' = cw_hvRootLive p ->
  Check_link sha256 r p def m ver s s0 d = Some (Some ver') -> v_it ver' = w ++ X ->
  exists u, v_it ver = u ++ X /\ Check_link sha256 r p' def m (with_it ver u) s s0 d = Some (Some (with_it ver' w)).
Proof.
  intros El E Ew. unfold Check_link in *. cbn [set_hvPos with_it v_hvPos v_it v_vLast v_vLastRev v_phvSibling v_bVerify] in *.
  destruct (_ =? s_Height s0).
  - destruct (negb _); [done|]. destruct (negb _); [done|]. simplify_eq. cbn in Ew. by exists w.
  - destruct (s_Height s0 <=? s_Height s); [done|]. destruct (negb _); [done|].
    destruct (Process _ _ _ _ _ _) as [v1|] eqn:Ep; cbn [mbind option_bind] in E; [|done].
    destruct (v_bVerify v1) eqn:Eb; cbn [negb] in E; [|done]. simplify_eq.
    destruct (Process_rest _ _ _ _ _ _ _ _ _ Ep Ew) as (u & Eu & Ep'). exists u. split; [exact Eu|].
    unfold IsRootValid in *. rewrite El.
    match goal with |- context [Process ?a ?b ?c ?d ?e ?f] => replace (Process a b c d e f) with (Some (with_it ver' w)) by (symmetry; exact Ep') end.
    cbn [mbind option_bind with_it v_bVerify]. by rewrite Eb.
Qed.

(** The first [n] states are the same. *)
Record agree (p p' : ChainWorkProof) (n : nat) : Prop := {
  ag_live : cw_hvRootLive p' = cw_hvRootLive p;
  ag_heading i : (i < n)%nat -> (i <? length (cw_vElements p'))%nat = (i <? length (cw_vElements p))%nat;
  ag_element i : (i < n)%nat -> (i < length (cw_vElements p))%nat -> cw_vElements p' !! i = cw_vElements p !! i;
  ag_state i : (i < n)%nat -> (length (cw_vElements p) <= i)%nat ->
    cw_vArbitraryStates p' !! (i - length (cw_vElements p'))%nat = cw_vArbitraryStates p !! (i - length (cw_vElements p))%nat
}.

Lemma Verify_loop_le f p lb def m k samp ver s d n ver' :
  Verify_loop sha256 r draws f p lb def m k samp ver s d = Some (Some (n, ver')) -> (k <= n)%nat.
Proof.
  revert k samp ver s d. induction f as [|f IH]; intros k samp ver s d E; [done|]. cbn [Verify_loop] in E.
  destruct (SamplePoint _ _ _ _) as [[samp' [x|]]|]; cbn [mbind option_bind] in E; [|by simplify_eq|done].
  destruct (if (k <? length (cw_vElements p))%nat then _ else _) as [s'|] in E; [|done].
  destruct (negb _); [done|]. destruct (lt_raw x (chain_lo s')); [done|].
  destruct (if (k <? length (cw_vElements p))%nat then _ else _) as [[ver1|]|] in E; cbn [mbind option_bind] in E; [|done|done].
  apply IH in E. lia.
Qed.

Lemma Verify_loop_crop f p p' lb def m k samp ver s d n ver' : agree p p' n ->
  Verify_loop sha256 r draws f p lb def m k samp ver s d = Some (Some (n, ver')) ->
  exists u, v_it ver = u ++ v_it ver' /\ forall f', (n - k < f')%nat ->
    Verify_loop sha256 r draws f' p' lb def m k samp (with_it ver u) s d = Some (Some (n, with_it ver' [])).
Proof.
  intros Hag. revert k samp ver s d. induction f as [|f IH]; intros k samp ver s d E; [done|]. pose proof (Verify_loop_le _ _ _ _ _ _ _ _ _ _ _ _ E) as Hk.
  cbn [Verify_loop] in E. destruct (SamplePoint sha256 draws lb samp) as [[samp' [x|]]|] eqn:Es; cbn [mbind option_bind] in E; [| |done].
  2: { simplify_eq. exists []. split; [done|]. intros f' Hf. destruct f' as [|f']; [lia|]. cbn [Verify_loop]. by rewrite Es. }
  set (next := if (k <? length (cw_vElements p))%nat then _ else _) in E. destruct next as [s'|] eqn:En; [|done].
  destruct (negb (lt_raw x (s_ChainWork s'))) eqn:E1; [done|]. destruct (lt_raw x (chain_lo s')) eqn:E2; [done|].
  destruct (if (k <? length (cw_vElements p))%nat then _ else _) as [[ver1|]|] eqn:Ev in E; cbn [mbind option_bind] in E; [|done|done].
  pose proof (Verify_loop_le _ _ _ _ _ _ _ _ _ _ _ _ E) as Hk'. destruct (IH _ _ _ _ _ E) as (u1 & Eu1 & Hrun). subst next.
  assert (exists u, v_it ver = u ++ v_it ver' /\
    (if (k <? length (cw_vElements p'))%nat then Some (Some (with_it ver u)) else Check_link sha256 r p' def m (with_it ver u) s' s d) = Some (Some (with_it ver1 u1)))
    as (u & Eu & Ec).
  { rewrite (ag_heading _ _ _ Hag) by lia. destruct (Nat.ltb_spec k (length (cw_vElements p))).
    - simplify_eq. by exists u1.
    - apply (Check_link_rest p p' def m ver s' s d ver1 u1 (v_it ver')); [apply Hag|exact Ev|exact Eu1]. }
  exists u. split; [done|]. intros f' Hf. destruct f' as [|f']; [lia|]. cbn [Verify_loop]. rewrite Es. cbn [mbind option_bind].
  assert ((if (k <? length (cw_vElements p'))%nat then
      (fun e => mkFull (u64 (s_Height s - 1)) (s_Prev s) d (s_Kernels s) (s_Definition s) (s_TimeStamp s)
                (mkPoW (m_Indices (s_PoW s)) (m_Nonce (s_PoW s)) (m_Difficulty (e_PoW e)))) <$> cw_vElements p' !! k
      else cw_vArbitraryStates p' !! (k - length (cw_vElements p'))%nat) = Some s') as ->.
  { rewrite <- En, (ag_heading _ _ _ Hag) by lia. destruct (Nat.ltb_spec k (length (cw_vElements p))).
    - by rewrite (ag_element _ _ _ Hag) by lia.
    - by rewrite (ag_state _ _ _ Hag) by lia. }
  rewrite E1, E2, Ec. cbn [mbind option_bind]. apply Hrun. lia.
Qed.

(** A higher bound only stops earlier. *)
Lemma SamplePoint_raise lb lb' sm sm' pt : samp_ok sm -> bytes_n 32 lb -> bytes_n 32 lb' -> be_val lb <= be_val lb' ->
  SamplePoint sha256 draws lb sm = Some (sm', pt) ->
  SamplePoint sha256 draws lb' sm = Some (sm', pt) \/ exists sm'', SamplePoint sha256 draws lb' sm = Some (sm'', None).
Proof.
  intros Hs Hl Hl' Hle. unfold SamplePoint. fold (sample_range sm). destruct (sample_range_spec sm Hs) as [Hr Hpos].
  destruct (UniformRandom _ _ _ _) as [[[out o]|]|] eqn:Eu; cbn [mbind option_bind]; try done.
  unfold UniformRandom in Eu. destruct (_ =? 0); [done|]. destruct (UniformRandom_loop _ _ _ _) as [[out' o']|] eqn:El; [|done]. cbn in Eu. simplify_eq.
  apply UniformRandom_loop_ok in El as [Ho _]; [|done|done|lia]. destruct Hs as [Hb _ _]. destruct (Negate_raw _ Hr) as [Hn _].
  destruct (add_raw_spec _ _ Ho Hb) as [H1 _]. destruct (add_raw_spec _ _ H1 Hn) as [H2 _]. set (x := add_raw (add_raw out (sm_Begin sm)) _) in *.
  rewrite (lt_raw_spec x lb), (lt_raw_spec x lb') by done.
  destruct (lt_raw x (sm_Begin sm)); cbn [negb]; rewrite ?orb_true_r, ?orb_false_r; [|intros E; right; eauto].
  destruct (Z.ltb_spec (be_val x) (be_val lb')); [intros E; right; eauto|]. rewrite (proj2 (Z.ltb_ge _ _)) by lia. by left.
Qed.

Lemma Verify_loop_raise f p lb lb' def m k samp ver s d n ver' : bytes_n 32 lb -> bytes_n 32 lb' -> be_val lb <= be_val lb' ->
  cwp_ok p -> samp_ok samp -> bytes_n 32 d ->
  Verify_loop sha256 r draws f p lb def m k samp ver s d = Some (Some (n, ver')) ->
  exists n' ver'', Verify_loop sha256 r draws f p lb' def m k samp ver s d = Some (Some (n', ver'')) /\ (n' <= n)%nat.
Proof.
  intros Hl Hl' Hle Hp. revert k samp ver s d. induction f as [|f IH]; intros k samp ver s d Hs Hd E; [done|].
  pose proof (Verify_loop_le _ _ _ _ _ _ _ _ _ _ _ _ E) as Hk. cbn [Verify_loop] in *.
  destruct (SamplePoint sha256 draws lb samp) as [[samp' pt]|] eqn:Es; cbn [mbind option_bind] in E; [|done].
  destruct (SamplePoint_raise lb lb' samp samp' pt Hs Hl Hl' Hle Es) as [->|(sm'' & ->)]; cbn [mbind option_bind]; [|by exists k, ver].
  destruct pt as [x|]; [|simplify_eq; by exists n, ver'].
  set (next := if (k <? length (cw_vElements p))%nat then _ else _) in *.
  assert (forall s', next = Some s' -> bytes_n 32 (chain_lo s')) as Hn.
  { intros s'. subst next. destruct Hp as [_ He Ha _ _ _]. destruct (k <? length (cw_vElements p))%nat.
    - destruct (cw_vElements p !! k) as [e|] eqn:Ee; [|done]. intros [= <-]. destruct (Forall_lookup_1 _ _ _ _ He Ee) as (_ & _ & _ & _ & _ & Hw). by apply chain_lo_raw.
    - intros Ea. by apply chain_lo_spec, (Forall_lookup_1 _ _ _ _ Ha Ea). }
  destruct next as [s'|]; [|done]. specialize (Hn s' eq_refl). destruct (negb _); [done|]. destruct (lt_raw x (chain_lo s')); [done|].
  destruct (if (k <? length (cw_vElements p))%nat then _ else _) as [[ver1|]|]; cbn [mbind option_bind] in *; [|done|done].
  apply (IH (S k)) in E; [done| |done]. destruct (SamplePoint_spec sha256 sha256_size draws lb samp samp' _ Hs Es) as (Hs' & _). by apply Cut_ok.
Qed.

(** *** The heading *)
Lemma heading_drop pre l j s : heading_states sha256 r pre l !! j = Some s ->
  heading_states sha256 r (prefix_of s) (drop j l) = drop j (heading_states sha256 r pre l).
Proof.
  assert (forall l a j s, (a :: heading_from sha256 r a l) !! j = Some s ->
    heading_states sha256 r (prefix_of s) (drop j (element_of a :: l)) = drop j (a :: heading_from sha256 r a l)) as Hf.
  { clear. induction l as [|e l IH]; intros a j s E.
    - destruct j as [|[|j]]; cbn in *; simplify_eq. by destruct s.
    - destruct j as [|j]; cbn [lookup list_lookup drop] in *; [simplify_eq; by destruct s|].
      cbn [heading_from] in *. rewrite <- (IH _ _ _ E). by destruct e. }
  destruct l as [|e l]; [done|]. cbn [heading_states]. intros E. rewrite <- (Hf _ _ _ _ E). by destruct e.
Qed.

Lemma Cropper_walk l n pre : (n < length l)%nat ->
  walk Cropper (n, pre) (mark l) = ((0%nat, prefix_of <$> l !! n), false).
Proof.
  revert n. induction l as [|s l IH]; intros n Hn; [cbn in Hn; lia|].
  assert (exists b, mark (s :: l) = (s, b) :: mark l) as [b ->] by (destruct l; eauto).
  destruct n as [|n]; [done|]. cbn [walk Cropper fst snd negb]. rewrite IH by (cbn in Hn; lia). done.
Qed.

Lemma IsValidInternal_intro p lb s n ver : cw_vElements p <> [] ->
  Forall (fun s => IsValid sha256 r IsValidSolution s = true) (states sha256 r p) -> last (states sha256 r p) = Some s ->
  lt_raw (chain_lo s) (s_ChainWork s) = true ->
  Verify_loop sha256 r draws (length (cw_vElements p) + length (cw_vArbitraryStates p) + 1) p lb (s_Definition s)
    (u64 (s_Height s - HeightGenesis)) 1 (Sampler_new sha256 r s) (Verifier_new zhash (cw_vData p)) s (chain_lo s) = Some (Some (n, ver)) ->
  IsValidInternal sha256 r IsValidSolution draws p lb = Some (Some (s, n, length (cw_vData p) - length (v_it ver))%nat).
Proof.
  intros Hne HF Hlast Hlt Ev. unfold IsValidInternal. destruct (cw_vElements p) as [|e l] eqn:Ee; [done|]. rewrite <- Ee in *.
  rewrite EnumStates_walk by done. rewrite StateVerifier_walk_ok by done. rewrite Hlast. cbn [Sampler_new sm_Begin sm_End]. rewrite Hlt. cbn [negb].
  match goal with |- context [Verify_loop ?a ?b ?c ?d ?e ?f ?g ?h ?i ?j ?k ?l ?m] =>
    replace (Verify_loop a b c d e f g h i j k l m) with (Some (Some (n, ver))) by (symmetry; exact Ev) end.
  done.
Qed.

(** The proof that [Crop] makes of the first [n] states. *)
Definition cropped (this src : ChainWorkProof) (n : nat) (data : list (list Z)) : ChainWorkProof :=
  let nE := length (cw_vElements src) in
  if (nE <=? n)%nat then
    mkCwp (cw_Prefix src) (cw_vElements src) (take (n - nE) (cw_vArbitraryStates src)) data (cw_hvRootLive src) (cw_LowerBound this)
  else
    mkCwp (default (cw_Prefix this) (EnumStatesHeadingOnly sha256 r Cropper src ((nE - n)%nat, None)).1.2)
      (take n (cw_vElements src)) [] data (cw_hvRootLive src) (cw_LowerBound this).

Lemma cropped_agree this src n data : agree src (cropped this src n data) n.
Proof.
  unfold cropped. destruct (Nat.leb_spec (length (cw_vElements src)) n) as [Hle|Hlt]; constructor; cbn [cw_hvRootLive cw_vElements cw_vArbitraryStates]; try done.
  - intros i Hi Hge. apply lookup_take_lt. lia.
  - intros i Hi. rewrite length_take. destruct (Nat.ltb_spec i (length (cw_vElements src))), (Nat.ltb_spec i (n `min` length (cw_vElements src))); lia || done.
  - intros i Hi _. by apply lookup_take_lt.
  - intros i Hi Hge. lia.
Qed.

Lemma cropped_states this src n data : cw_vElements src <> [] -> (1 <= n <= length (cw_vElements src) + length (cw_vArbitraryStates src))%nat ->
  let p := cropped this src n data in
  states sha256 r p `suffix_of` states sha256 r src /\ cw_vElements p <> [] /\ last (states sha256 r p) = last (states sha256 r src) /\
  (length (cw_vArbitraryStates p) + length (cw_vElements p) = n)%nat.
Proof.
  intros Hne Hn p. subst p. unfold cropped. set (nE := length (cw_vElements src)) in *.
  assert (length (heading_states sha256 r (cw_Prefix src) (reverse (cw_vElements src))) = nE) as Hlen.
  { rewrite <- (length_fmap element_of), heading_elements. apply length_reverse. }
  set (hs := heading_states sha256 r (cw_Prefix src) (reverse (cw_vElements src))) in *.
  assert (1 <= nE)%nat as HnE by (unfold nE; destruct (cw_vElements src); [done|cbn; lia]).
  destruct (Nat.leb_spec nE n) as [Hle|Hlt]; unfold states; cbn [cw_vElements cw_vArbitraryStates cw_Prefix]; fold hs.
  - split_and!.
    + rewrite <- (take_drop (n - nE) (cw_vArbitraryStates src)) at 2. rewrite reverse_app, <- app_assoc. by apply suffix_app_r.
    + done.
    + rewrite !last_app. destruct (last hs) eqn:El; [done|]. apply last_None in El. rewrite El in Hlen. cbn in Hlen. lia.
    + rewrite length_take. fold nE. lia.
  - rewrite EnumStatesHeadingOnly_walk by done. fold hs. rewrite Cropper_walk by lia.
    destruct (lookup_lt_is_Some_2 hs (nE - n)) as [s Es]; [lia|]. rewrite Es. cbn [fst snd fmap option_fmap option_map default id from_option].
    assert (reverse (take n (cw_vElements src)) = drop (nE - n) (reverse (cw_vElements src))) as -> by (rewrite drop_reverse; do 2 f_equal; fold nE; lia).
    rewrite (heading_drop (cw_Prefix src) _ _ s Es). fold hs. cbn [reverse app]. rewrite reverse_nil. cbn [app]. split_and!.
    + exists (reverse (cw_vArbitraryStates src) ++ take (nE - n) hs). by rewrite <- app_assoc, take_drop.
    + intros E. apply (f_equal length) in E. rewrite length_take in E. fold nE in E. cbn in E. lia.
    + assert (last (drop (nE - n) hs) = last hs) as -> by (rewrite !last_lookup, lookup_drop, length_drop; f_equal; lia).
      rewrite last_app. destruct (last hs) eqn:El; [done|]. apply last_None in El. rewrite El in Hlen. cbn in Hlen. lia.
    + rewrite length_take. fold nE. cbn. lia.
Qed.
End crop.

(** A cropped proof is as good.  If a chain-work proof is valid, then [Crop] with
    any higher lower bound succeeds, and what it makes is a valid proof of the same tip
    for this bound; its headers are the last ones of the original proof. *)
Theorem chainwork_crop (sha256 : list Z -> list Z) r IsValidSolution draws this src tip :
  (forall l, bytes_n 32 (sha256 l)) -> bytes_n 32 (Prehistoric r) -> cwp_ok src -> bytes_n 32 (cw_LowerBound this) ->
  be_val (cw_LowerBound src) <= be_val (cw_LowerBound this) ->
  Cwp_IsValid sha256 r IsValidSolution draws src = Some (Some tip) ->
  exists p, Crop sha256 r IsValidSolution draws this src = Some (Some p) /\
    Cwp_IsValid sha256 r IsValidSolution draws p = Some (Some tip) /\ cw_LowerBound p = cw_LowerBound this /\
    UnpackStates sha256 r p [] `suffix_of` UnpackStates sha256 r src [].
Proof.
  intros Hsz Hpre Hok Hl' Hle E. unfold Cwp_IsValid in E.
  destruct (IsValidInternal _ _ _ _ _ _) as [[[[s n] iHash]|]|] eqn:Ei; cbn [mbind option_bind] in E; try done.
  destruct (Nat.eqb_spec (length (cw_vArbitraryStates src) + length (cw_vElements src)) n) as [En|]; cbn [andb] in E; [|done].
  destruct (_ =? iHash)%nat; [|done]. simplify_eq. apply IsValidInternal_spec in Ei as (Hne & HF & Hlast & Hlt & ver & Ev & _).
  pose proof Hok as [Hpf Hel Hst _ _ Hlb].
  assert (full_ok tip) as Hft.
  { rewrite last_lookup in Hlast. eapply Forall_lookup_1; [|exact Hlast]. unfold states. apply Forall_app. split; [by apply Forall_reverse|].
    apply heading_ok; [done..|by apply Forall_reverse]. }
  destruct (chain_lo_spec tip Hft) as [Hlo _]. assert (samp_ok (Sampler_new sha256 r tip)) as Hs.
  { constructor; [exact Hlo|apply Hft|]. rewrite lt_raw_spec in Hlt by (done || apply Hft). apply Z.ltb_lt in Hlt. cbn [Sampler_new sm_Begin sm_End]. lia. }
  destruct (Verify_loop_raise sha256 r draws Hsz _ src _ _ _ _ _ _ _ _ _ _ _ Hlb Hl' Hle Hok Hs Hlo Ev) as (n' & ver' & Ev' & Hn').
  pose proof (Verify_loop_le _ _ _ _ _ _ _ _ _ _ _ _ _ _ _ Ev') as H1.
  assert (Crop sha256 r IsValidSolution draws this src
    = Some (Some (cropped sha256 r this src n' (take (length (cw_vData src) - length (v_it ver')) (cw_vData src))))) as Ec.
  { unfold Crop. rewrite (IsValidInternal_intro sha256 r IsValidSolution draws src _ tip n' ver') by done. cbn [mbind option_bind]. unfold cropped.
    by destruct (_ <=? n')%nat. }
  set (p := cropped _ _ _ _ _ _) in Ec. exists p. split; [done|].
  destruct (cropped_states sha256 r this src n' (take (length (cw_vData src) - length (v_it ver')) (cw_vData src)) Hne ltac:(lia)) as (Hsuf & Hne' & Hlast' & Hlen').
  fold p in Hsuf, Hne', Hlast', Hlen'. rewrite !UnpackStates_states by done. split; [|split; [unfold p, cropped; by destruct (_ <=? n')%nat|done]].
  destruct (Verify_loop_crop sha256 r draws _ src p _ _ _ _ _ _ _ _ _ _ (cropped_agree _ _ _ _ _ _) Ev') as (u & Eu & Hrun).
  cbn [Verifier_new v_it] in Eu.
  assert (cw_vData p = u) as Ed.
  { trans (take (length (cw_vData src) - length (v_it ver')) (cw_vData src)); [unfold p, cropped; by destruct (_ <=? n')%nat|].
    by rewrite Eu, length_app, Nat.add_sub, take_app_length. }
  unfold Cwp_IsValid.
  rewrite (IsValidInternal_intro sha256 r IsValidSolution draws p _ tip n' (with_it ver' [])).
  - cbn [mbind option_bind with_it v_it length]. rewrite Nat.sub_0_r, Hlen', !Nat.eqb_refl. done.
  - done.
  - by apply (Forall_suffix _ _ _ Hsuf).
  - by rewrite Hlast'.
  - done.
  - rewrite Ed. specialize (Hrun (length (cw_vElements p) + length (cw_vArbitraryStates p) + 1)%nat ltac:(lia)).
    replace (cw_LowerBound p) with (cw_LowerBound this) by (unfold p, cropped; by destruct (_ <=? n')%nat). exact Hrun.
Qed.

(** ** A chain of five headers

    The last one has most of the work, so that the next point below it jumps over
    two headers. *)
Module Demo.
Definition demo_sha (l : list Z) : list Z := be_bytes 32 (foldl (fun a b => (a * 257 + b + 1) mod (2 ^ 61 - 1)) 7 l * 2 ^ 64).
Definition demo_Rules : Rules :=
  mkRules (Emission default_Rules) 90 0 false true false true (Prehistoric default_Rules) (pForks default_Rules).
Definition demo_valid (_ _ _ : list Z) : bool := false.
Abbreviation demo_h2 := (hash2 demo_sha).

Definition hdr (h : Z) (prev def : list Z) (work diff : Z) : Full :=
  mkFull h prev (be_bytes 32 work) zhash def 0 (mkPoW (replicate nSolutionBytes 0) (replicate 8 0) diff).
Definition hv (s : Full) : list Z := get_Hash demo_sha demo_Rules s.

Definition d1 : Full := Eval vm_compute in hdr 1 (Prehistoric default_Rules) zhash (2 ^ 24) 0.
Definition d2 : Full := Eval vm_compute in hdr 2 (hv d1) zhash (2 * 2 ^ 24) 0.
Definition d3 : Full := Eval vm_compute in hdr 3 (hv d2) zhash (3 * 2 ^ 24) 0.
Definition d4 : Full := Eval vm_compute in hdr 4 (hv d3) zhash (4 * 2 ^ 24) 0.
Definition demo_live : list Z := be_bytes 32 55.
Definition old (j : Z) : list Z := hv (nth (Z.to_nat j) [d1; d2; d3] d4).
Definition d5 : Full := Eval vm_compute in hdr 5 (hv d4) (demo_h2 (root_hash demo_h2 zhash old 4) demo_live) (4 * 2 ^ 24 + 2 ^ 32) (8 * 2 ^ 24).

Definition demo_st (h : Z) : Full := nth (Z.to_nat (h - 1)) [d1; d2; d3; d4] d5.
Definition demo_src : ISource := mkSource
  (fun d => if lt_raw d (s_ChainWork d1) then d1 else if lt_raw d (s_ChainWork d2) then d2 else if lt_raw d (s_ChainWork d3) then d3
            else if lt_raw d (s_ChainWork d4) then d4 else d5)
  (Fly_load demo_h2 (leaves demo_sha demo_Rules demo_st)) 4.

Lemma demo_size l : bytes_n 32 (demo_sha l).
Proof. split; [apply bytes_ok_be_bytes|apply length_be_bytes]. Qed.

Lemma demo_cases h : HeightGenesis <= h <= 5 -> h = 1 \/ h = 2 \/ h = 3 \/ h = 4 \/ h = 5.
Proof. unfold HeightGenesis. lia. Qed.

Lemma demo_full h : HeightGenesis <= h <= 5 -> full_ok (demo_st h) /\ s_Height (demo_st h) = h.
Proof.
  intros [->|[->|[->|[->| ->]]]]%demo_cases; (split; [|reflexivity]); unfold full_ok, pow_ok, in_width;
    split_and!; try (apply bytes_n_dec; vm_compute; reflexivity); vm_compute; congruence.
Qed.

Lemma demo_chain : chain_ok demo_sha demo_Rules demo_st 5 demo_live.
Proof.
  constructor; [vm_compute; split; congruence|exact demo_full| |apply bytes_n_dec; reflexivity|vm_compute; reflexivity].
  intros h Hh. destruct (demo_cases h ltac:(lia)) as [->|[->|[->|[->| ->]]]]; [vm_compute; reflexivity..|lia].
Qed.

Lemma demo_chain_valid : chain_valid demo_sha demo_Rules demo_valid demo_st 5.
Proof.
  constructor; [|vm_compute; reflexivity|].
  - intros h [->|[->|[->|[->| ->]]]]%demo_cases; vm_compute; reflexivity.
  - intros h Hh. destruct (demo_cases h ltac:(lia)) as [->|[->|[->|[->| ->]]]]; [vm_compute; reflexivity..|lia].
Qed.

Lemma demo_source : source_ok demo_sha demo_Rules demo_st 5 demo_src.
Proof.
  constructor; [|apply Fly_complete|reflexivity]. intros d Hd Hlt.
  assert (forall h, HeightGenesis <= h <= 5 -> bytes_n 32 (s_ChainWork (demo_st h))) as Hw by (intros h Hh; apply demo_full; done).
  cbn [get_StateAt demo_src]. change d1 with (demo_st 1). change d2 with (demo_st 2). change d3 with (demo_st 3). change d4 with (demo_st 4). change d5 with (demo_st 5).
  rewrite !lt_raw_spec by (done || (apply Hw; unfold HeightGenesis; lia)).
  pose proof (raw_bound _ Hd) as Hb.
  assert (be_val (s_ChainWork (demo_st 1)) = 16777216 /\ be_val (s_ChainWork (demo_st 2)) = 33554432 /\ be_val (s_ChainWork (demo_st 3)) = 50331648 /\
    be_val (s_ChainWork (demo_st 4)) = 67108864 /\ be_val (chain_lo (demo_st 1)) = 0 /\ be_val (chain_lo (demo_st 2)) = 16777216 /\
    be_val (chain_lo (demo_st 3)) = 33554432 /\ be_val (chain_lo (demo_st 4)) = 50331648 /\ be_val (chain_lo (demo_st 5)) = 67108864)
    as (E1 & E2 & E3 & E4 & E5 & E6 & E7 & E8 & E9) by (vm_compute; done).
  rewrite E1, E2, E3, E4.
  destruct (Z.ltb_spec (be_val d) 16777216); [exists 1; unfold HeightGenesis; split; [lia|]; split; [done|lia]|].
  destruct (Z.ltb_spec (be_val d) 33554432); [exists 2; unfold HeightGenesis; split; [lia|]; split; [done|lia]|].
  destruct (Z.ltb_spec (be_val d) 50331648); [exists 3; unfold HeightGenesis; split; [lia|]; split; [done|lia]|].
  destruct (Z.ltb_spec (be_val d) 67108864); [exists 4; unfold HeightGenesis; split; [lia|]; split; [done|lia]|].
  exists 5. unfold HeightGenesis. split; [lia|]. split; [done|lia].
Qed.

Lemma demo_draws : draws_stop demo_sha (be_val (s_ChainWork (demo_st 5))).
Proof.
  intros o thr [Ht Lt] Hthr. exists 1%nat. cbn [UniformRandom_loop Oracle_hash].
  destruct (_Accept_spec (demo_sha o) thr ltac:(apply demo_size) Ht ltac:(by rewrite Lt; apply demo_size) ltac:(lia)) as [_ Hyes].
  rewrite Hyes; [done|]. unfold demo_sha. rewrite be_val_be_bytes, radix_32.
  destruct (_GetOrder_bounds thr Ht) as (Ho & _ & Hlo). specialize (Hlo ltac:(lia)).
  assert (be_val (s_ChainWork (demo_st 5)) < 2 ^ 33) by (vm_compute; done).
  assert (_GetOrder thr <= 34).
  { destruct (Z.le_gt_cases (_GetOrder thr) 34) as [|Hgt]; [done|]. pose proof (Z.pow_le_mono_r 2 34 (_GetOrder thr - 1)). lia. }
  set (o' := _GetOrder thr) in *. assert (0 < 2 ^ o') by (apply Z.pow_pos_nonneg; lia).
  rewrite Z.mod_mod_divide by (exists (2 ^ (256 - o')); rewrite <- Z.pow_add_r by lia; f_equal; lia).
  replace (2 ^ 64) with (2 ^ (64 - o') * 2 ^ o') by (rewrite <- Z.pow_add_r by lia; f_equal; lia).
  rewrite Z.mul_assoc, Z.mod_mul by lia. lia.
Qed.

Definition demo_empty : ChainWorkProof := mkCwp (mkPrefix 0 zhash raw_zero) [] [] [] zhash raw_zero.
Definition demo_proof : ChainWorkProof := Eval vm_compute in
  match BuildCwp demo_sha demo_Rules 2 5 demo_src (demo_st 5) demo_live demo_empty with Some (p, _) => p | None => demo_empty end.

Example demo_proof_jumps : length (cw_vElements demo_proof) = 1%nat /\ s_Height <$> cw_vArbitraryStates demo_proof = [2] /\ length (cw_vData demo_proof) = 2%nat.
Proof. by vm_compute. Qed.

Lemma demo_proof_ok : cwp_ok demo_proof.
Proof.
  constructor; repeat (constructor; try (unfold element_ok, full_ok, pow_ok, prefix_ok, in_width;
    split_and!; try (apply bytes_n_dec; vm_compute; reflexivity); vm_compute; congruence));
    try (apply bytes_n_dec; vm_compute; reflexivity); vm_compute; congruence.
Qed.
End Demo.

Lemma chainwork_sound_witness :
  Cwp_IsValid Demo.demo_sha Demo.demo_Rules Demo.demo_valid 2 Demo.demo_proof = Some (Some (Demo.demo_st 5)) /\
  let v := UnpackStates Demo.demo_sha Demo.demo_Rules Demo.demo_proof [] in
  Forall (fun s => IsValid Demo.demo_sha Demo.demo_Rules Demo.demo_valid s = true) v /\ Forall (in_chain Demo.demo_st 5) v /\
  sampled Demo.demo_sha 2 (cw_LowerBound Demo.demo_proof) (Sampler_new Demo.demo_sha Demo.demo_Rules (Demo.demo_st 5)) (work_range <$> drop 1 (reverse v)).
Proof.
  assert (Cwp_IsValid Demo.demo_sha Demo.demo_Rules Demo.demo_valid 2 Demo.demo_proof = Some (Some (Demo.demo_st 5))) as Hv by (vm_compute; reflexivity).
  split; [exact Hv|].
  refine (chainwork_sound Demo.demo_sha Demo.demo_Rules Demo.demo_valid 2 Demo.demo_st 5 Demo.demo_live Demo.demo_proof
    Demo.demo_size prehistoric_ok Demo.demo_chain Demo.demo_proof_ok _ Hv). apply no_collision_dec. vm_compute. reflexivity.
Defined.

Lemma chainwork_complete_witness :
  exists d0 p, forall draws, (d0 <= draws)%nat ->
    BuildCwp Demo.demo_sha Demo.demo_Rules draws (Z.to_nat 5) Demo.demo_src (Demo.demo_st 5) Demo.demo_live Demo.demo_empty = Some (p, true) /\
    Cwp_IsValid Demo.demo_sha Demo.demo_Rules Demo.demo_valid draws p = Some (Some (Demo.demo_st 5)) /\ cw_LowerBound p = raw_zero.
Proof.
  exact (chainwork_complete Demo.demo_sha Demo.demo_Rules Demo.demo_valid Demo.demo_st 5 Demo.demo_live Demo.demo_src Demo.demo_empty
    Demo.demo_size prehistoric_ok Demo.demo_chain Demo.demo_chain_valid Demo.demo_source Demo.demo_draws eq_refl eq_refl eq_refl).
Defined.

(** The proof of the demonstration chain, cropped to a bound above the second header. *)
Definition demo_higher : ChainWorkProof := mkCwp (mkPrefix 0 zhash raw_zero) [] [] [] zhash (be_bytes 32 (3 * 2 ^ 24)).

Lemma chainwork_crop_witness :
  be_val (cw_LowerBound Demo.demo_proof) <= be_val (cw_LowerBound demo_higher) /\
  exists p, Crop Demo.demo_sha Demo.demo_Rules Demo.demo_valid 2 demo_higher Demo.demo_proof = Some (Some p) /\
    Cwp_IsValid Demo.demo_sha Demo.demo_Rules Demo.demo_valid 2 p = Some (Some (Demo.demo_st 5)) /\ cw_LowerBound p = cw_LowerBound demo_higher /\
    UnpackStates Demo.demo_sha Demo.demo_Rules p [] `suffix_of` UnpackStates Demo.demo_sha Demo.demo_Rules Demo.demo_proof [].
Proof.
  assert (be_val (cw_LowerBound Demo.demo_proof) <= be_val (cw_LowerBound demo_higher)) as Hle by (vm_compute; congruence).
  split; [exact Hle|].
  refine (chainwork_crop Demo.demo_sha Demo.demo_Rules Demo.demo_valid 2 demo_higher Demo.demo_proof (Demo.demo_st 5)
    Demo.demo_size prehistoric_ok Demo.demo_proof_ok _ Hle _); [apply bytes_n_dec; reflexivity|vm_compute; reflexivity].
Defined.
