(* ===== verification/Kernel.v ===== *)
(** Kernels and outputs under validation: [TxKernel::Traverse] with
    [get_Hash], [get_ID], [IsValid], [Sign], and [Output::IsValid]
    ([core/block_crypt.cpp]).

    Where the code takes an optional pointer to a result, the result is an
    [option]; the hash that [Traverse] leaves in its output argument is threaded
    through it, also when it returns [false].  The verifier of confidential
    range proofs (bulletproofs) is the parameter [Confidential_IsValid]. *)

From stdpp Require Import sorting.
From S2P Require Import Prelude UintBig EccData Difficulty Merkle UtxoTree Rules SystemState TxBase Ecc.

Definition isSome {A} (o : option A) : bool := match o with Some _ => true | None => false end.

(** The state of a traversal: [hv], [*pFee], [*pExcess]. *)
Definition TState (G : Type) : Type := list Z * option (list Z) * option G.

Section nested_loop.
Context (s_IgnoreMaturity : bool) {G : Type}.
Context (rec : TxKernel -> TState G -> TState G * bool).

(** The loop over the nested kernels: the hash is fed with [hp], [p0Krn] is
    the kernel before. *)
Fixpoint Nested_loop (l : list TxKernel) (hp : list Z) (p0Krn : option TxKernel) (st : TState G)
  : (list Z * TState G) * bool :=
  match l with
  | [] => ((hp ++ Write_bool true, st), true)
  | v :: l =>
      let hp := hp ++ Write_bool false in
      if match p0Krn with Some p0 => 0 <? TxKernel_cmp s_IgnoreMaturity p0 v | None => false end
      then ((hp, st), false)
      else
        let '(st, ok) := rec v st in
        if ok then Nested_loop l (hp ++ Write_big st.1.1) (Some v) st else ((hp, st), false)
  end.
End nested_loop.

Section kernel.
Context (sha256 : list Z -> list Z) (r : Rules) (s_IgnoreMaturity : bool).
Context {G : Type} `{!Curve G, !OracleDraws G, !EquationCheck G}.

(** What enters the hash of a kernel before its nested kernels. *)
Definition kernel_flags (k : TxKernel) (pLockImage : option (list Z)) : Z :=
  Z.lor (Z.lor (if isSome (k_pHashLock k) || isSome pLockImage then 1 else 0)
               (if isSome (k_pRelativeLock k) then 2 else 0))
        (if k_CanEmbed k then 4 else 0).

Definition kernel_prefix (k : TxKernel) (pLockImage : option (list Z)) : list Z :=
  Write_uint (k_Fee k) ++ Write_uint (m_Min (k_Height k)) ++ Write_uint (m_Max (k_Height k)) ++
  Write_Point (e_Commitment (k_Element k)) ++ Write_uint (u64 (k_AssetEmission k)) ++
  Write_u8 (kernel_flags k pLockImage).

(** The emission part, on a kernel that is known to be simple. *)
Definition Emission_excess (k : TxKernel) (exc : G) : option G :=
  let aid := m_X (e_Commitment (k_Element k)) in
  if _Cmp aid zero_hash =? 0 then None
  else
    let hGen := g_neg (SwitchCommitment aid) in
    let hGen := if CA_Deposit r then g_add hGen H_raw else hGen in
    if 0 <? k_AssetEmission k then Some (Tag_AddValue exc hGen (u64 (k_AssetEmission k)))
    else Some (Tag_AddValue exc (g_neg hGen) (u64 (- k_AssetEmission k))).

Fixpoint Traverse (k : TxKernel) (pParent : option HeightRange) (pLockImage : option (list Z))
    (pScheme : option Z) (st : TState G) : TState G * bool :=
  let '(hv, pFee, pExcess) := st in
  if match pScheme with
     | Some h => (h <? fork_height r 1) && (k_CanEmbed k || isSome (k_pRelativeLock k))
     | None => false
     end
  then (st, false)
  else if match pParent with
     | Some par =>
         (negb (k_CanEmbed k) && match pScheme with Some h => fork_height r 1 <=? h | None => false end) ||
         ((m_Min par <? m_Min (k_Height k)) || (m_Max (k_Height k) <? m_Max par))
     | None => false
     end
  then (st, false)
  else
    let hp := kernel_prefix k pLockImage in
    let '(hv, hp) :=
      match pLockImage, k_pHashLock k with
      | Some img, _ => (hv, hp ++ Write_big img)
      | None, Some pre => let hv := sha256 (Write_big pre) in (hv, hp ++ Write_big hv)
      | None, None => (hv, hp)
      end in
    let hp := match k_pRelativeLock k with
              | Some l => hp ++ Write_big (rl_ID l) ++ Write_uint (rl_LockHeight l)
              | None => hp
              end in
    let '((hp, (hv, pFee, ptExcNested)), ok) :=
      Nested_loop s_IgnoreMaturity
        (fun v st => Traverse v (Some (k_Height k)) None pScheme st)
        (k_vNested k) hp None (hv, pFee, match pExcess with Some _ => Some g_zero | None => None end) in
    if negb ok then ((hv, pFee, pExcess), false)
    else
      let hv := sha256 hp in
      let addFee (pFee : option (list Z)) :=
        match pFee with Some fee => Some (AmountBig_add fee (uintBigFrom64 (k_Fee k))) | None => None end in
      match pExcess, ptExcNested with
      | Some exc, Some nested =>
          match Point_ImportNnz (e_Commitment (k_Element k)) with
          | None => ((hv, pFee, pExcess), false)
          | Some pt =>
              if negb (Signature_IsValid (k_Signature k) hv (g_add (g_neg nested) pt))
              then ((hv, pFee, pExcess), false)
              else
                let exc := g_add exc pt in
                if negb (k_AssetEmission k =? 0) then
                  if negb (CA_Enabled r) then ((hv, pFee, Some exc), false)
                  else if isSome pParent || negb (length (k_vNested k) =? 0)%nat
                  then ((hv, pFee, Some exc), false)
                  else match Emission_excess k exc with
                       | None => ((hv, pFee, Some exc), false)
                       | Some exc => ((hv, addFee pFee, Some exc), true)
                       end
                else ((hv, addFee pFee, Some exc), true)
          end
      | _, _ => ((hv, addFee pFee, pExcess), true)
      end.

(** [out] is what the output argument held before. *)
Definition TxKernel_get_Hash (k : TxKernel) (pLockImage : option (list Z)) (out : list Z) : list Z :=
  (Traverse k None pLockImage None (out, None, None)).1.1.1.

Definition TxKernel_get_ID (k : TxKernel) (pLockImage : option (list Z)) (out : list Z) : list Z :=
  TxKernel_get_Hash k pLockImage out.

Definition TxKernel_IsValid (k : TxKernel) (hScheme : Z) (fee : list Z) (exc : G) : option (list Z * G) :=
  match Traverse k None None (Some hScheme) ([], Some fee, Some exc) with
  | ((_, Some fee, Some exc), true) => Some (fee, exc)
  | _ => None
  end.

(** [Sign]: the key, the nonce of the signature; the hash leaves nothing of
    its previous content on a kernel without bad nested kernels. *)
Definition TxKernel_Sign (k : TxKernel) (sk nonce : Z) : TxKernel :=
  let el := mkElement (Point_Export (g_mul sk G_raw)) (e_Maturity (k_Element k)) in
  let k := mkKernel el (k_Signature k) (k_Fee k) (k_Height k) (k_AssetEmission k) (k_CanEmbed k)
             (k_pHashLock k) (k_pRelativeLock k) (k_vNested k) in
  let hv := TxKernel_get_Hash k None [] in
  mkKernel el (Sign hv sk nonce) (k_Fee k) (k_Height k) (k_AssetEmission k) (k_CanEmbed k)
    (k_pHashLock k) (k_pRelativeLock k) (k_vNested k).

(** ** Outputs *)
Context (Confidential_IsValid : list Z -> G -> list Z -> G -> bool).

(** What [Prepare] feeds the oracle of a range proof with. *)
Definition Output_Prepare (o : Output) (hScheme : Z) : list Z :=
  Write_uint (o_Incubation o) ++
  if fork_height r 1 <=? hScheme then Write_Point (e_Commitment (o_Element o)) else [].

Definition Output_IsValid (o : Output) (hScheme : Z) : option G :=
  match Point_Import (e_Commitment (o_Element o)) with
  | None => None
  | Some comm =>
      let hGen := SwitchCommitment (o_AssetID o) in
      let oracle := Output_Prepare o hScheme in
      match o_pConfidential o with
      | Some c =>
          if o_Coinbase o then None
          else match o_pPublic o with
               | Some _ => None
               | None => if Confidential_IsValid c comm oracle hGen then Some comm else None
               end
      | None =>
          match o_pPublic o with
          | None => None
          | Some p =>
              if negb (AllowPublicUtxos r || o_Coinbase o) then None
              else if Public_IsValid sha256 p comm oracle hGen then Some comm else None
          end
      end
  end.
End kernel.

(** * Facts *)

(** ** What a traversal computes *)
Section spec.
Context (sha256 : list Z -> list Z) (r : Rules) (ig : bool).
Context {G : Type} `{!Curve G, !CurveLaws G, !OracleDraws G, !EquationCheck G}.

(** The hash input of a kernel, given the hashes of its nested kernels. *)
Definition nested_bytes (ids : list (list Z)) : list Z :=
  concat ((fun id => Write_bool false ++ Write_big id) <$> ids) ++ Write_bool true.

Definition lock_bytes (k : TxKernel) : list Z :=
  match k_pHashLock k with Some pre => Write_big (sha256 (Write_big pre)) | None => [] end ++
  match k_pRelativeLock k with Some l => Write_big (rl_ID l) ++ Write_uint (rl_LockHeight l) | None => [] end.

Definition kernel_bytes (k : TxKernel) (ids : list (list Z)) : list Z :=
  kernel_prefix k None ++ lock_bytes k ++ nested_bytes ids.

Fixpoint kern_id (k : TxKernel) : list Z := sha256 (kernel_bytes k (kern_id <$> k_vNested k)).

(** Total fee, nested kernels included. *)
Fixpoint kern_fee (k : TxKernel) : Z := foldr Z.add (k_Fee k) (kern_fee <$> k_vNested k).

Definition kern_pt (k : TxKernel) : G := default g_zero (Point_ImportNnz (e_Commitment (k_Element k))).
Definition kern_exc (k : TxKernel) : G :=
  if k_AssetEmission k =? 0 then kern_pt k else default (kern_pt k) (Emission_excess r k (kern_pt k)).

(** Consecutive nested kernels are in order. *)
Fixpoint nested_sorted (p0 : option TxKernel) (l : list TxKernel) : bool :=
  match l with
  | [] => true
  | v :: l =>
      negb match p0 with Some p0 => 0 <? TxKernel_cmp ig p0 v | None => false end &&
      nested_sorted (Some v) l
  end.

(** The scheme of the height allows the members that are used, and a nested
    kernel may be embedded into its parent. *)
Definition kern_guard (pScheme : option Z) (pParent : option HeightRange) (k : TxKernel) : bool :=
  negb match pScheme with
       | Some h => (h <? fork_height r 1) && (k_CanEmbed k || isSome (k_pRelativeLock k))
       | None => false
       end &&
  negb match pParent with
       | Some par =>
           (negb (k_CanEmbed k) && match pScheme with Some h => fork_height r 1 <=? h | None => false end) ||
           ((m_Min par <? m_Min (k_Height k)) || (m_Max (k_Height k) <? m_Max par))
       | None => false
       end.

(** The signature is for the own excess without that of the nested kernels;
    asset emission is allowed only in simple kernels. *)
Definition kern_node (pParent : option HeightRange) (k : TxKernel) : bool :=
  match Point_ImportNnz (e_Commitment (k_Element k)) with
  | None => false
  | Some pt =>
      Signature_IsValid (k_Signature k) (kern_id k) (g_add (g_neg (g_sum (kern_exc <$> k_vNested k))) pt) &&
      ((k_AssetEmission k =? 0) ||
       (CA_Enabled r && negb (isSome pParent || negb (length (k_vNested k) =? 0)%nat) &&
        negb (_Cmp (m_X (e_Commitment (k_Element k))) zero_hash =? 0)))
  end.

Fixpoint kern_valid (full : bool) (pScheme : option Z) (pParent : option HeightRange) (k : TxKernel) : bool :=
  kern_guard pScheme pParent k &&
  (nested_sorted None (k_vNested k) && forallb (kern_valid full pScheme (Some (k_Height k))) (k_vNested k)) &&
  (negb full || kern_node pParent k).

(** Fees are 64-bit amounts, in nested kernels too. *)
Fixpoint fees_ok (k : TxKernel) : Prop :=
  in_width 64 (k_Fee k) /\ foldr (fun x p => x /\ p) True (fees_ok <$> k_vNested k).

Lemma fees_ok_nested k : fees_ok k -> Forall fees_ok (k_vNested k).
Proof.
  destruct k as [? ? ? ? ? ? ? ? l]. cbn. intros [_ H]. induction l as [|x l IH]; [constructor|].
  destruct H. constructor; auto.
Qed.

(** [fee'] is [fee] plus [d], as 128-bit amounts. *)
Definition fee_plus (fee fee' : option (list Z)) (d : Z) : Prop :=
  match fee, fee' with
  | Some f, Some f' => bytes_n 16 f' /\ be_val f' = (be_val f + d) mod 2 ^ 128
  | None, None => True
  | _, _ => False
  end.

Definition fee_ok (fee : option (list Z)) : Prop := forall f, fee = Some f -> bytes_n 16 f.

Lemma fee_plus_ok fee fee' d : fee_plus fee fee' d -> fee_ok fee'.
Proof. intros H f ->. destruct fee; [by destruct H|done]. Qed.

Lemma fee_plus_0 fee : fee_ok fee -> fee_plus fee fee 0.
Proof.
  destruct fee as [f|]; [|done]. intros H. specialize (H f eq_refl). split; [done|].
  rewrite Z.add_0_r, Z.mod_small; [done|]. destruct H as [Hb Hl]. pose proof (be_val_bound f Hb) as B.
  rewrite Hl, radix_pow2 in B. exact B.
Qed.

Lemma fee_plus_trans a b c d e : fee_plus a b d -> fee_plus b c e -> fee_plus a c (d + e).
Proof.
  destruct a, b, c; try done. cbn. intros [_ E1] [H2 E2]. split; [done|].
  rewrite E2, E1, Z.add_mod_idemp_l by lia. f_equal. lia.
Qed.

Lemma fee_plus_one f x : bytes_n 16 f -> in_width 64 x -> fee_plus (Some f) (Some (AmountBig_add f (uintBigFrom64 x))) x.
Proof.
  intros Hf Hx. destruct (uintBigFrom64_spec x Hx) as (Hb' & Hl' & Hv). cbn.
  destruct (AmountBig_add_spec f (uintBigFrom64 x) Hf Hb') as [H1 H2]. by rewrite Hv in H2.
Qed.

(** What one kernel does to the state of a traversal. *)
Definition traverse_ok (sch : option Z) (par : option HeightRange) (k : TxKernel) (st : TState G)
    (res : TState G * bool) : Prop :=
  res.2 = kern_valid (isSome st.2) sch par k /\
     (res.2 = true -> res.1.1.1 = kern_id k /\ fee_plus st.1.2 res.1.1.2 (kern_fee k) /\
     res.1.2 = (match st.2 with Some e => Some (g_add e (kern_exc k)) | None => None end)).

Definition kern_fees (l : list TxKernel) : Z := foldr Z.add 0 (kern_fee <$> l).

Lemma Nested_loop_spec rec sch par l hp p0 st :
  fee_ok st.1.2 ->
  Forall (fun k => forall st, fee_ok st.1.2 -> traverse_ok sch par k st (rec k st)) l ->
  let '((hp', st'), ok) := Nested_loop ig rec l hp p0 st in
  ok = nested_sorted p0 l && forallb (kern_valid (isSome st.2) sch par) l /\
  (ok = true -> hp' = hp ++ nested_bytes (kern_id <$> l) /\ fee_plus st.1.2 st'.1.2 (kern_fees l) /\
     st'.2 = (match st.2 with Some e => Some (g_add e (g_sum (kern_exc <$> l))) | None => None end)).
Proof.
  intros Hf H. revert hp p0 st Hf. induction H as [|k l Hk H IH]; intros hp p0 st Hf; cbn [Nested_loop].
  - split; [done|]. intros _. split_and!; [done|by apply fee_plus_0|].
    destruct st.2; [|done]. cbn. by rewrite g_add_0_r.
  - cbn [nested_sorted forallb]. destruct (match p0 with Some p1 => _ | None => _ end); [by split|]. cbn [negb andb].
    destruct (Hk st Hf) as [E1 E2]. destruct (rec k st) as [st1 ok1]. cbn [fst snd] in *. rewrite <- E1.
    destruct ok1; [|rewrite andb_false_r; by split]. destruct (E2 eq_refl) as (Hid & Hfee & Hexc). cbn [andb].
    specialize (IH ((hp ++ Write_bool false) ++ Write_big st1.1.1) (Some k) st1 (fee_plus_ok _ _ _ Hfee)).
    destruct (Nested_loop _ _ _ _ _ _) as [[hp' st'] ok]. destruct IH as [IH1 IH2].
    assert (isSome st1.2 = isSome st.2) as Es by (rewrite Hexc; by destruct st.2). rewrite Es in IH1.
    split; [exact IH1|]. intros Ht. destruct (IH2 Ht) as (-> & Hfee' & ->). split_and!.
    + unfold nested_bytes. rewrite !fmap_cons. cbn [concat]. rewrite Hid, <- !app_assoc. done.
    + unfold kern_fees. rewrite fmap_cons. cbn [foldr]. by eapply fee_plus_trans.
    + rewrite Hexc. destruct st.2; [|done]. rewrite fmap_cons. cbn. by rewrite g_add_assoc.
Qed.

Lemma foldr_add_base x l : foldr Z.add x l = foldr Z.add 0 l + x.
Proof. induction l as [|y l IH]; cbn; lia. Qed.

Lemma Emission_excess_add k x y :
  Emission_excess r k (g_add x y) = (fun z => g_add x z) <$> Emission_excess r k y.
Proof.
  unfold Emission_excess. destruct (_ =? 0); [done|].
  destruct (0 <? k_AssetEmission k); cbn; f_equal;
    rewrite (Tag_AddValue_zero (g_add x y)), (Tag_AddValue_zero y); by rewrite g_add_assoc.
Qed.

Lemma Traverse_spec k sch par st :
  fees_ok k -> fee_ok st.1.2 -> traverse_ok sch par k st (Traverse sha256 r ig k par None sch st).
Proof.
  revert par st. induction k as [k IH] using TxKernel_nested_ind. intros par [[hv fee] exc] Hk Hf.
  pose proof (fees_ok_nested _ Hk) as Hn. assert (in_width 64 (k_Fee k)) as Hfee by (destruct k; apply Hk). clear Hk.
  assert (Forall (fun x => forall st, fee_ok st.1.2 ->
    traverse_ok sch (Some (k_Height k)) x st (Traverse sha256 r ig x (Some (k_Height k)) None sch st)) (k_vNested k)) as Hrec.
  { apply Forall_forall. intros x Hx st Hst. apply (proj1 (Forall_forall _ _) IH x Hx); [|done].
    by eapply Forall_forall in Hn. }
  clear IH Hn. destruct k as [el sg kf kh ae ce hl rl nst]. cbn in Hrec, Hfee.
  unfold traverse_ok. cbn [fst snd].
  cbn [Traverse kern_valid k_Element k_Signature k_Fee k_Height k_AssetEmission k_CanEmbed k_pHashLock k_pRelativeLock k_vNested].
  unfold kern_guard at 1. cbn [k_Height k_CanEmbed k_pRelativeLock].
  destruct (match sch with Some h => _ | None => _ end); [by split|].
  destruct (match par with Some par => _ | None => _ end); [by split|]. cbn [negb andb].
  set (k := mkKernel el sg kf kh ae ce hl rl nst) in *.
  set (p := match hl with Some _ => _ | None => _ end). destruct p as [hv0 hp] eqn:Ep. subst p.
  set (hp0 := match rl with Some _ => _ | None => _ end).
  assert (hp0 = kernel_prefix k None ++ lock_bytes k) as Ehp.
  { subst hp0. unfold lock_bytes. cbn [k_pHashLock k_pRelativeLock k].
    destruct hl; injection Ep as <- <-; destruct rl; by rewrite <- ?app_assoc, ?app_nil_r. }
  clearbody hp0. clear Ep. subst hp0.
  set (exc0 := match exc with Some _ => Some g_zero | None => None end).
  pose proof (Nested_loop_spec _ sch (Some kh) nst (kernel_prefix k None ++ lock_bytes k) None (hv0, fee, exc0) Hf Hrec) as HN.
  destruct (Nested_loop _ _ _ _ _ _) as [[hp1 [[hv1 fee1] exc1]] ok]. cbn [fst snd] in HN.
  assert (isSome exc0 = isSome exc) as Es by (subst exc0; by destruct exc). rewrite Es in HN.
  destruct HN as [HN1 HN2]. rewrite <- HN1. destruct ok; cbn [negb andb]; [|by split]. destruct (HN2 eq_refl) as (-> & Hfees & ->).
  assert (sha256 ((kernel_prefix k None ++ lock_bytes k) ++ nested_bytes (kern_id <$> nst)) = kern_id k) as ->.
  { rewrite <- app_assoc. done. }
  assert (forall f, fee1 = Some f -> fee_plus fee (Some (AmountBig_add f (uintBigFrom64 kf))) (kern_fee k)) as Hown.
  { intros f ->. cbn [kern_fee k]. rewrite foldr_add_base. eapply fee_plus_trans; [exact Hfees|].
    apply fee_plus_one; [by apply (fee_plus_ok _ _ _ Hfees)|done]. }
  assert (fee_plus fee (match fee1 with Some f => Some (AmountBig_add f (uintBigFrom64 kf)) | None => None end) (kern_fee k)) as Hfee'.
  { destruct fee1; [by apply Hown|]. by destruct fee. }
  clear HN1 HN2 Hown Hrec Hfees. destruct exc as [e|]; cbn [isSome negb orb exc0]; [|by split].
  unfold kern_node. cbn [k_Element k_Signature k_AssetEmission k_vNested k].
  assert (forall pt, Point_ImportNnz (e_Commitment el) = Some pt -> kern_pt k = pt) as Hpt.
  { intros pt E. unfold kern_pt. cbn [k_Element k]. by rewrite E. }
  destruct (Point_ImportNnz (e_Commitment el)) as [pt|]; [|by split]. specialize (Hpt pt eq_refl).
  rewrite g_add_0_l. destruct (Signature_IsValid sg (kern_id k) _); cbn [negb andb]; [|by split].
  assert (kern_exc k = if ae =? 0 then pt else default pt (Emission_excess r k pt)) as Hexc.
  { unfold kern_exc. by rewrite Hpt. }
  destruct (Z.eqb_spec ae 0) as [->|Hae]; cbn [negb orb].
  - split; [done|]. intros _. cbn [fst snd]. split_and!; [done|done|by rewrite Hexc].
  - destruct (CA_Enabled r); cbn [negb andb]; [|by split].
    destruct (isSome par || _); cbn [negb andb]; [by split|].
    rewrite Emission_excess_add. unfold Emission_excess in Hexc |- *. cbn [k_Element k_AssetEmission k] in *.
    destruct (_Cmp (m_X (e_Commitment el)) zero_hash =? 0); [by split|].
    destruct (0 <? ae); (split; [done|]; intros _; cbn [fst snd]; split_and!; [done|done|by rewrite Hexc]).
Qed.
End spec.

(** ** The kernel ID binds the kernel *)
Section binding.
Context (sha256 : list Z -> list Z) (r : Rules) (ig : bool).
Context (sha256_size : forall l, bytes_n 32 (sha256 l)).

(** What the ID is about: everything but the signature and the maturity. *)
Fixpoint kern_core (k : TxKernel) : TxKernel :=
  mkKernel (mkElement (e_Commitment (k_Element k)) 0) (mkSig (mkPoint [] 0) []) (k_Fee k) (k_Height k)
    (k_AssetEmission k) (k_CanEmbed k) (k_pHashLock k) (k_pRelativeLock k) (kern_core <$> k_vNested k).

(** Members within their types. *)
Definition members_ok (k : TxKernel) : Prop :=
  in_width 64 (k_Fee k) /\ in_width 64 (m_Min (k_Height k)) /\ in_width 64 (m_Max (k_Height k)) /\
  point_ok (e_Commitment (k_Element k)) /\ - 2 ^ 63 <= k_AssetEmission k < 2 ^ 63 /\
  (forall p, k_pHashLock k = Some p -> bytes_n 32 p) /\
  (forall l, k_pRelativeLock k = Some l -> rl_ok l /\ in_width 64 (rl_LockHeight l)).

Fixpoint enc_ok (k : TxKernel) : Prop :=
  members_ok k /\ foldr (fun x p => x /\ p) True (enc_ok <$> k_vNested k).

Lemma enc_ok_inv k : enc_ok k -> members_ok k /\ Forall enc_ok (k_vNested k).
Proof.
  destruct k as [? ? ? ? ? ? ? ? l]. cbn. intros [Hm H]. split; [done|]. clear Hm. induction l as [|x l IH]; [constructor|].
  destruct H. constructor; auto.
Qed.

Lemma enc_ok_fees k : enc_ok k -> fees_ok k.
Proof.
  induction k as [k IH] using TxKernel_nested_ind. intros H. apply enc_ok_inv in H as [Hm Hn].
  destruct k as [? ? ? ? ? ? ? ? l]. cbn in *. split; [apply Hm|]. clear Hm.
  induction l as [|x l IHl]; [done|]. apply Forall_cons in IH as [Hx IH]. apply Forall_cons in Hn as [Hx' Hn].
  split; [by apply Hx|by apply IHl].
Qed.

Lemma kern_id_ok k : bytes_n 32 (kern_id sha256 k).
Proof. destruct k. apply sha256_size. Qed.

Lemma nested_bytes_inj l1 l2 :
  Forall (bytes_n 32) l1 -> Forall (bytes_n 32) l2 -> nested_bytes l1 = nested_bytes l2 -> l1 = l2.
Proof.
  unfold nested_bytes. intros H1. revert l2. induction H1 as [|x l1 Hx H1 IH]; intros l2 H2 E; destruct H2 as [|y l2 Hy H2];
    try done; cbn [fmap list_fmap concat] in E.
  rewrite <- !app_assoc in E. apply (prefix_free_bool false false) in E as [_ E]; [|done..].
  apply (prefix_free_bytes 32) in E as [-> E]; [|done..]. f_equal. by apply IH.
Qed.

Lemma u64_signed_inj a b : - 2 ^ 63 <= a < 2 ^ 63 -> - 2 ^ 63 <= b < 2 ^ 63 -> u64 a = u64 b -> a = b.
Proof.
  intros Ha Hb E. unfold wrap in E.
  pose proof (Z.div_mod a (2 ^ 64) ltac:(lia)). pose proof (Z.div_mod b (2 ^ 64) ltac:(lia)).
  assert (-1 <= a / 2 ^ 64 <= 0) by (split; [apply Z.div_le_lower_bound|apply Z.lt_succ_r, Z.div_lt_upper_bound]; lia).
  assert (-1 <= b / 2 ^ 64 <= 0) by (split; [apply Z.div_le_lower_bound|apply Z.lt_succ_r, Z.div_lt_upper_bound]; lia).
  nia.
Qed.

Lemma kernel_flags_inj a b : kernel_flags a None = kernel_flags b None ->
  isSome (k_pHashLock a) = isSome (k_pHashLock b) /\ isSome (k_pRelativeLock a) = isSome (k_pRelativeLock b) /\
  k_CanEmbed a = k_CanEmbed b.
Proof.
  unfold kernel_flags. cbn [isSome]. rewrite !orb_false_r.
  destruct (isSome (k_pHashLock a)), (isSome (k_pRelativeLock a)), (k_CanEmbed a),
    (isSome (k_pHashLock b)), (isSome (k_pRelativeLock b)), (k_CanEmbed b); vm_compute; done.
Qed.

Lemma kernel_flags_ok a l : byte_ok (kernel_flags a l).
Proof.
  unfold kernel_flags. destruct (_ || _), (isSome (k_pRelativeLock a)), (k_CanEmbed a); unfold byte_ok; vm_compute;
    (split; [discriminate|reflexivity]).
Qed.

(** The messages that are hashed for the ID of a kernel: its own bytes, the preimage of its
    hash lock, and those of its nested kernels. *)
Definition lock_msgs (k : TxKernel) : list (list Z) := match k_pHashLock k with Some pre => [Write_big pre] | None => [] end.

Fixpoint kern_msgs (k : TxKernel) : list (list Z) :=
  kernel_bytes sha256 k (kern_id sha256 <$> k_vNested k) :: lock_msgs k ++ mjoin (kern_msgs <$> k_vNested k).

Lemma kern_msgs_unfold k : kern_msgs k = kernel_bytes sha256 k (kern_id sha256 <$> k_vNested k) :: lock_msgs k ++ mjoin (kern_msgs <$> k_vNested k).
Proof. by destruct k. Qed.

(** The bytes of two kernels determine all the hashed members. *)
Lemma kernel_bytes_inj M a b ia ib : lock_msgs a ⊆ M -> lock_msgs b ⊆ M ->
  members_ok a -> members_ok b -> Forall (bytes_n 32) ia -> Forall (bytes_n 32) ib ->
  kernel_bytes sha256 a ia = kernel_bytes sha256 b ib ->
  (k_Fee a = k_Fee b /\ k_Height a = k_Height b /\ e_Commitment (k_Element a) = e_Commitment (k_Element b) /\
   k_AssetEmission a = k_AssetEmission b /\ k_CanEmbed a = k_CanEmbed b /\ k_pHashLock a = k_pHashLock b /\
   k_pRelativeLock a = k_pRelativeLock b /\ ia = ib) \/ sha_collision sha256 M.
Proof.
  intros HMa HMb (F & Hmin & Hmax & P & A & L & R) (F' & Hmin' & Hmax' & P' & A' & L' & R') Hia Hib E.
  unfold kernel_bytes, kernel_prefix in E. rewrite <- !app_assoc in E.
  apply prefix_free_uint in E as [E1 E]; [|done..]. apply prefix_free_uint in E as [E2 E]; [|done..].
  apply prefix_free_uint in E as [E3 E]; [|done..]. apply prefix_free_Point in E as [E4 E]; [|done..].
  apply prefix_free_uint in E as [E5 E]; [|apply Z.mod_pos_bound; lia..].
  apply u64_signed_inj in E5; [|done..].
  apply prefix_free_u8 in E as [E6 E]; [|apply kernel_flags_ok..].
  apply kernel_flags_inj in E6 as (Eh & Er & Ec).
  assert (k_Height a = k_Height b) as EH by (destruct (k_Height a), (k_Height b); cbn in *; congruence).
  unfold lock_bytes in E. rewrite <- !app_assoc in E.
  assert (exists x y, (match k_pRelativeLock a with Some l => Write_big (rl_ID l) ++ Write_uint (rl_LockHeight l) | None => [] end) ++ nested_bytes ia
     = x /\ (match k_pRelativeLock b with Some l => Write_big (rl_ID l) ++ Write_uint (rl_LockHeight l) | None => [] end) ++ nested_bytes ib = y
     /\ x = y /\ (k_pHashLock a = k_pHashLock b \/ sha_collision sha256 M)) as (? & ? & <- & <- & E7 & Hlock).
  { do 2 eexists. split; [done|]. split; [done|]. unfold lock_msgs in HMa, HMb. destruct (k_pHashLock a) as [pa|], (k_pHashLock b) as [pb|]; try done.
    - apply (prefix_free_bytes 32) in E as [Ep E]; [|apply sha256_size..]. split; [done|].
      destruct (decide (pa = pb)) as [->|]; [by left|right]. exists pa, pb. split_and!; [apply HMa; left|apply HMb; left|done|done].
    - split; [done|by left]. }
  destruct Hlock as [Hlock|]; [|by right]. left. clear E.
  assert (k_pRelativeLock a = k_pRelativeLock b /\ nested_bytes ia = nested_bytes ib) as [EL EN].
  { destruct (k_pRelativeLock a) as [[ia' ha]|] eqn:Ea, (k_pRelativeLock b) as [[ib' hb]|] eqn:Eb; try done.
    destruct (R _ eq_refl) as [R1 R2], (R' _ eq_refl) as [R1' R2']. cbn in *. rewrite <- !app_assoc in E7.
    apply (prefix_free_bytes 32) in E7 as [-> E7]; [|done..]. apply prefix_free_uint in E7 as [-> E7]; [|done..]. done. }
  apply nested_bytes_inj in EN; [|done..]. done.
Qed.

Lemma msgs_cons (x : list Z) l M : x :: l ⊆ M -> x ∈ M /\ l ⊆ M.
Proof. intros H. split; [apply H; left|intros y Hy; apply H; by right]. Qed.

Lemma kern_id_binds M a b : kern_msgs a ⊆ M -> kern_msgs b ⊆ M ->
  enc_ok a -> enc_ok b -> kern_id sha256 a = kern_id sha256 b -> kern_core a = kern_core b \/ sha_collision sha256 M.
Proof.
  revert b. induction a as [a IH] using TxKernel_nested_ind. intros b HMa HMb Ha Hb E. rewrite kern_msgs_unfold in HMa, HMb.
  apply msgs_cons in HMa as [HMa1 [HMa2 HMa3]%list_subseteq_app_iff_l]. apply msgs_cons in HMb as [HMb1 [HMb2 HMb3]%list_subseteq_app_iff_l].
  apply enc_ok_inv in Ha as [Ma Na]. apply enc_ok_inv in Hb as [Mb Nb].
  assert (sha256 (kernel_bytes sha256 a (kern_id sha256 <$> k_vNested a))
        = sha256 (kernel_bytes sha256 b (kern_id sha256 <$> k_vNested b))) as E' by (by destruct a, b). clear E.
  destruct (decide (kernel_bytes sha256 a (kern_id sha256 <$> k_vNested a)
        = kernel_bytes sha256 b (kern_id sha256 <$> k_vNested b))) as [Eb|Hne]; [|right; eexists _, _; split; [exact HMa1|split; [exact HMb1|done]]].
  clear E'. assert (forall l, Forall (bytes_n 32) (kern_id sha256 <$> l)) as Hids.
  { intros l. apply Forall_fmap, Forall_forall. intros x _. apply kern_id_ok. }
  destruct (kernel_bytes_inj M _ _ _ _ HMa2 HMb2 Ma Mb (Hids _) (Hids _) Eb) as [(E1 & E2 & E3 & E4 & E5 & E6 & E7 & E8)|]; [|by right].
  assert (kern_core <$> k_vNested a = kern_core <$> k_vNested b \/ sha_collision sha256 M) as [En|]; [|left|by right].
  { clear Eb E1 E2 E3 E4 E5 E6 E7 Ma Mb Hids HMa1 HMa2 HMb1 HMb2. revert HMa3 HMb3 Na Nb IH E8. generalize (k_vNested a), (k_vNested b). clear a b.
    induction l as [|x l IHl]; intros [|y l'] Ka Kb Na Nb IH E8; try done; [by left|].
    rewrite fmap_cons in Ka, Kb. apply list_subseteq_app_iff_l in Ka as [Ka1 Ka2], Kb as [Kb1 Kb2].
    rewrite !fmap_cons in E8. injection E8 as Ex El. apply Forall_cons in Na as [Nx Na]. apply Forall_cons in Nb as [Ny Nb].
    apply Forall_cons in IH as [IHx IH]. destruct (IHx y Ka1 Kb1 Nx Ny Ex) as [Ecx|]; [|by right].
    destruct (IHl l' Ka2 Kb2 Na Nb IH El) as [Ecl|]; [|by right]. left. rewrite !fmap_cons. congruence. }
  destruct a, b. cbn in *. congruence.
Qed.
End binding.

Section traversals.
Context (sha256 : list Z -> list Z) (r : Rules) (ig : bool).
Context {G : Type} `{!Curve G, !CurveLaws G, !OracleDraws G, !EquationCheck G}.

Lemma get_ID_kern_id k out :
  fees_ok k -> kern_valid sha256 r ig (G := G) false None None k = true ->
  TxKernel_get_ID sha256 r ig (G := G) k None out = kern_id sha256 k.
Proof.
  intros Hf Hv. unfold TxKernel_get_ID, TxKernel_get_Hash.
  destruct (Traverse_spec sha256 r ig k None None (out, None, @None G) Hf) as [E1 E2]; [by intros ? [=]|].
  cbn [isSome snd] in E1. rewrite Hv in E1. by apply E2.
Qed.

Lemma TxKernel_IsValid_spec k h fee exc :
  fees_ok k -> bytes_n 16 fee ->
  isSome (TxKernel_IsValid sha256 r ig k h fee exc) = kern_valid sha256 r ig true (Some h) None k /\
  forall fee' exc', TxKernel_IsValid sha256 r ig k h fee exc = Some (fee', exc') ->
    bytes_n 16 fee' /\ be_val fee' = (be_val fee + kern_fee k) mod 2 ^ 128 /\ exc' = g_add exc (kern_exc r k).
Proof.
  intros Hk Hf. unfold TxKernel_IsValid.
  destruct (Traverse_spec sha256 r ig k (Some h) None ([], Some fee, Some exc) Hk) as [E1 E2]; [by intros ? [= <-]|].
  destruct (Traverse _ _ _ _ _ _ _ _) as [[[hv f] e] ok]. cbn [fst snd isSome] in *. rewrite <- E1.
  destruct ok; [|by destruct f, e]. destruct (E2 eq_refl) as (_ & Hfee & ->). destruct f as [f|]; [|done].
  split; [done|]. intros fee' exc' [= <- <-]. destruct Hfee. done.
Qed.
End traversals.

Section claims.
Context (sha256 : list Z -> list Z) (r : Rules) (ig : bool).
Context {G : Type} `{!Curve G, !CurveLaws G, !OracleDraws G}.

(** C32: The kernel ID identifies a kernel. For two kernels whose members are in
    the range of their types and whose nested kernels are in order and cover
    the heights of their parents, equal results of [TxKernel::get_ID] mean
    equal fee, heights, commitment, asset emission, embedding flag, locks and
    nested kernels, at every depth (everything but signatures and maturities).
    What is assumed of SHA-256 is that it has no collision among the messages that are
    hashed for these two IDs ([kern_msgs]). *)
Theorem kernel_id_binding a b out :
  (forall l, bytes_n 32 (sha256 l)) -> no_collision sha256 (kern_msgs sha256 a ++ kern_msgs sha256 b) -> enc_ok a -> enc_ok b ->
  kern_valid sha256 r ig (G := G) false None None a = true ->
  kern_valid sha256 r ig (G := G) false None None b = true ->
  TxKernel_get_ID sha256 r ig (G := G) a None out = TxKernel_get_ID sha256 r ig (G := G) b None out ->
  kern_core a = kern_core b.
Proof.
  intros Hsz Hnc Ha Hb Va Vb E. rewrite !get_ID_kern_id in E by (done || by apply enc_ok_fees).
  destruct (kern_id_binds sha256 Hsz _ a b (list_subseteq_app_l _ _ _ (reflexivity _)) (list_subseteq_app_r _ _ _ (reflexivity _)) Ha Hb E) as [|Hc]; [done|]. by destruct (no_collision_false _ _ Hnc Hc).
Qed.

(** Kernel validation. [TxKernel::IsValid] accepts a kernel exactly when,
    at every depth, the scheme of the height allows its members, nested kernels
    are in order, allow being embedded and cover their parent's heights, and
    each signature verifies the kernel ID against the own excess less that of
    the nested kernels, asset emission appearing in simple kernels only. It then
    adds the fees of the kernel and all nested kernels to the 128-bit total and
    the kernel's own excess to the sum. *)
Theorem kernel_validation k h fee exc :
  fees_ok k -> bytes_n 16 fee ->
  isSome (TxKernel_IsValid sha256 r ig k h fee exc) = kern_valid sha256 r ig true (Some h) None k /\
  forall fee' exc', TxKernel_IsValid sha256 r ig k h fee exc = Some (fee', exc') ->
    bytes_n 16 fee' /\ be_val fee' = (be_val fee + kern_fee k) mod 2 ^ 128 /\ exc' = g_add exc (kern_exc r k).
Proof. intros. by apply TxKernel_IsValid_spec. Qed.

(** What [TxKernel::Sign] signs is valid. A kernel without nested kernels,
    asset emission or members its height does not allow, signed with a key of a
    non-zero public key, passes [TxKernel::IsValid], adds its fee, and its
    excess is the public key. *)
Theorem kernel_sign_valid k sk nonce h fee exc :
  in_width 64 (k_Fee k) -> bytes_n 16 fee -> k_vNested k = [] -> k_AssetEmission k = 0 ->
  kern_guard r (Some h) None k = true -> g_mul sk G_raw <> g_zero ->
  exists fee', TxKernel_IsValid sha256 r ig (TxKernel_Sign sha256 r ig k sk nonce) h fee exc
      = Some (fee', g_add exc (g_mul sk G_raw)) /\
    be_val fee' = (be_val fee + k_Fee k) mod 2 ^ 128.
Proof.
  intros Hfee Hf Hn Hae Hg Hnz. destruct k as [el sg kf kh ae ce hl rl nst]. cbn in Hfee, Hn, Hae. subst nst ae.
  set (k' := TxKernel_Sign _ _ _ _ _ _).
  assert (Point_ImportNnz (e_Commitment (k_Element k')) = Some (g_mul sk G_raw)) as Hpt.
  { cbn [k' TxKernel_Sign k_Element e_Commitment]. unfold Point_ImportNnz, Point_Export. rewrite decide_False by done.
    pose proof (ge_get_ok (g_mul sk G_raw)) as [_ Hy]. rewrite (proj2 (Z.ltb_ge _ _)) by lia. by apply ge_set_get. }
  assert (fees_ok k') as Hfk by done.
  assert (kern_valid sha256 r ig true (Some h) None k' = true) as Hv.
  { cbn [kern_valid k' TxKernel_Sign k_vNested nested_sorted forallb].
    change (kern_guard r (Some h) None k' && true && (negb true || kern_node sha256 r None k') = true).
    assert (kern_guard r (Some h) None k' = true) as -> by exact Hg. cbn [andb negb orb].
    unfold kern_node. rewrite Hpt. cbn [k' TxKernel_Sign k_AssetEmission k_vNested].
    change (g_sum (kern_exc r <$> [])) with (@g_zero G _).
    rewrite g_neg_0, g_add_0_l, orb_true_l, andb_true_r. cbn [k_Signature].
    set (k0 := mkKernel (mkElement (Point_Export (g_mul sk G_raw)) (e_Maturity el)) sg kf kh 0 ce hl rl []).
    assert (TxKernel_get_Hash sha256 r ig (G := G) k0 None [] = kern_id sha256 k0) as EID.
    { apply (get_ID_kern_id sha256 r ig k0 []); [done|]. done. }
    assert (kern_id sha256 k' = kern_id sha256 k0) as -> by done.
    change (Signature_IsValid (Sign (TxKernel_get_Hash sha256 r ig (G := G) k0 None []) sk nonce) (kern_id sha256 k0) (g_mul sk G_raw) = true).
    rewrite EID. apply Sign_valid. }
  destruct (TxKernel_IsValid_spec sha256 r ig k' h fee exc Hfk Hf) as [E1 E2]. rewrite Hv in E1.
  destruct (TxKernel_IsValid sha256 r ig k' h fee exc) as [[fee' exc']|]; [|done].
  destruct (E2 _ _ eq_refl) as (_ & Hfe & ->). exists fee'. split; [|exact Hfe].
  unfold kern_exc, kern_pt. by rewrite Hpt.
Qed.

(** Copying a kernel loses [m_CanEmbed]. [TxKernel::operator =] into a new
    kernel (which is how [TxVectors::Writer] stores kernels) copies every other
    member, so the copy of an embeddable kernel is not embeddable and its ID,
    which the signature is about, is another one, if SHA-256 has no collision
    between the two. *)
Theorem kernel_copy_loses_CanEmbed k out :
  (forall l, bytes_n 32 (sha256 l)) -> enc_ok k -> k_CanEmbed k = true -> k_vNested k = [] ->
  let k' := TxKernel_assign TxKernel_new k in
  no_collision sha256 (kern_msgs sha256 k ++ kern_msgs sha256 k') ->
  k_CanEmbed k' = false /\
  TxKernel_get_ID sha256 r ig (G := G) k None out <> TxKernel_get_ID sha256 r ig (G := G) k' None out.
Proof.
  intros Hsz Hk Hce Hn. cbv zeta. intros Hnc. destruct k as [el sg kf kh ae ce hl rl nst]. cbn in Hce, Hn. subst ce nst.
  split; [done|].
  set (k := mkKernel _ _ _ _ _ _ _ _ _) in *. set (k' := TxKernel_assign _ _) in *.
  assert (enc_ok k') as Hk' by (destruct Hk as [Hm _]; by split).
  rewrite !get_ID_kern_id by (done || by apply enc_ok_fees).
  intros E. destruct (kern_id_binds sha256 Hsz _ k k' (list_subseteq_app_l _ _ _ (reflexivity _)) (list_subseteq_app_r _ _ _ (reflexivity _)) Hk Hk' E) as [E'|Hc]; [|by destruct (no_collision_false _ _ Hnc Hc)].
  cbn in E'. by simplify_eq.
Qed.
End claims.

(** ** Examples *)
Import Ecc.Demo.
Lemma demo_sha_size l : bytes_n 32 (demo_sha l).
Proof. split; [apply bytes_ok_be_bytes|apply length_be_bytes]. Qed.

(** A kernel with fee 7 for all heights, and its signed form. *)
Definition ex_kernel (embed : bool) : TxKernel :=
  mkKernel (mkElement (demo_point 3) 0) (mkSig (demo_point 0) zero_hash) 7 HR.Reset 0 embed None None [].
Definition ex_signed : TxKernel := TxKernel_Sign (G := zn) demo_sha default_Rules false (ex_kernel false) 12345 77.

Lemma ex_kernel_enc b : enc_ok (ex_kernel b).
Proof.
  split; [|done]. unfold members_ok, in_width, ex_kernel.
  cbn [k_Fee k_Height k_Element e_Commitment k_AssetEmission k_pHashLock k_pRelativeLock m_Min m_Max HR.Reset].
  unfold MaxHeight. split; [lia|]. split; [lia|]. split; [lia|]. split; [apply demo_point_ok|]. split; [lia|].
  by split; intros ? [=].
Qed.

Lemma zero16_ok : bytes_n 16 (replicate 16 0).
Proof. split; [apply bytes_ok_zeros|done]. Qed.

(** A kernel with a hash lock and a nested kernel, with two signatures. *)
Definition ex_nested (sig : Signature) : TxKernel :=
  mkKernel (mkElement (demo_point 5) 0) sig 9 HR.Reset 0 false (Some (replicate 32 1)) None [ex_kernel true].
Definition ex_sig : Signature := mkSig (demo_point 4) zero_hash.
Definition sum_sha (l : list Z) : list Z := be_bytes 32 (foldl (fun a b => (a * 257 + b + 1) mod (2 ^ 61 - 1)) 7 l).

Lemma sum_sha_size l : bytes_n 32 (sum_sha l).
Proof. split; [apply bytes_ok_be_bytes|apply length_be_bytes]. Qed.

Lemma ex_nested_enc sig : enc_ok (ex_nested sig).
Proof.
  split; [|split; [apply ex_kernel_enc|done]]. unfold members_ok, in_width, ex_nested.
  cbn [k_Fee k_Height k_Element e_Commitment k_AssetEmission k_pHashLock k_pRelativeLock m_Min m_Max HR.Reset].
  unfold MaxHeight. split; [lia|]. split; [lia|]. split; [lia|]. split; [apply demo_point_ok|]. split; [lia|].
  split; [|by intros ? [=]]. intros ? [= <-]. apply bytes_n_dec. reflexivity.
Qed.

Lemma kernel_id_binding_witness :
  ex_nested ex_sig <> ex_nested (k_Signature (ex_kernel true)) /\ kern_core (ex_nested ex_sig) = kern_core (ex_nested (k_Signature (ex_kernel true))).
Proof.
  split; [intros E; apply (f_equal (fun k => m_X (m_NoncePub (k_Signature k)))) in E; vm_compute in E; discriminate|].
  apply (kernel_id_binding sum_sha default_Rules false (G := zn) (ex_nested ex_sig) (ex_nested (k_Signature (ex_kernel true))) []);
    [apply sum_sha_size|apply no_collision_dec; vm_compute; reflexivity|apply ex_nested_enc|apply ex_nested_enc|vm_compute; reflexivity..].
Defined.

Lemma kernel_validation_witness :
  isSome (TxKernel_IsValid (G := zn) demo_sha default_Rules false (ex_kernel true) 5 (replicate 16 0) g_zero)
    = kern_valid (G := zn) demo_sha default_Rules false true (Some 5) None (ex_kernel true) /\
  forall fee' exc', TxKernel_IsValid (G := zn) demo_sha default_Rules false (ex_kernel true) 5 (replicate 16 0) g_zero = Some (fee', exc') ->
    bytes_n 16 fee' /\ be_val fee' = (be_val (replicate 16 0) + kern_fee (ex_kernel true)) mod 2 ^ 128 /\
    exc' = g_add g_zero (kern_exc default_Rules (ex_kernel true)).
Proof.
  apply (kernel_validation (G := zn) demo_sha default_Rules false (ex_kernel true) 5 (replicate 16 0) g_zero).
  - apply enc_ok_fees, ex_kernel_enc.
  - apply zero16_ok.
Defined.

Lemma kernel_sign_valid_witness :
  exists fee', TxKernel_IsValid demo_sha default_Rules false ex_signed 5 (replicate 16 0) (g_zero : zn)
      = Some (fee', g_add g_zero (g_mul 12345 G_raw)) /\
    be_val fee' = (be_val (replicate 16 0) + 7) mod 2 ^ 128.
Proof.
  apply (kernel_sign_valid (G := zn) demo_sha default_Rules false (ex_kernel false) 12345 77 5 (replicate 16 0) g_zero).
  - vm_compute. done.
  - apply zero16_ok.
  - reflexivity.
  - reflexivity.
  - vm_compute. reflexivity.
  - intros E. apply (f_equal proj1_sig) in E. vm_compute in E. discriminate.
Defined.

Lemma kernel_copy_loses_CanEmbed_witness :
  k_CanEmbed (TxKernel_assign TxKernel_new (ex_kernel true)) = false /\
  TxKernel_get_ID sum_sha default_Rules false (G := zn) (ex_kernel true) None []
     <> TxKernel_get_ID sum_sha default_Rules false (G := zn) (TxKernel_assign TxKernel_new (ex_kernel true)) None [].
Proof.
  apply (kernel_copy_loses_CanEmbed sum_sha default_Rules false (G := zn) (ex_kernel true) []);
    [apply sum_sha_size|apply ex_kernel_enc|reflexivity|reflexivity|]. apply no_collision_dec. vm_compute. reflexivity.
Defined.
