(* ===== verification/Validation.v ===== *)
(** Validation of transactions and blocks: [TxBase::Context] of
    [core/block_crypt.h] and [core/block_validation.cpp], and the distribution
    of the work over several verifiers in [node/processor.cpp].

    A method that returns [false] gives [None]: what it leaves in the context
    is not used.  [ShouldAbort] reads a flag that another thread may set at any
    time: [abort n] is what its [n]-th reading gives. *)

From stdpp Require Import sorting.
From S2P Require Import Prelude UintBig EccData Difficulty Merkle UtxoTree Rules SystemState TxBase Ecc Kernel.

Record Params := mkParams {
  m_bBlockMode : bool;
  m_bVerifyOrder : bool;
  m_bAllowUnsignedOutputs : bool;
  m_nVerifiers : Z
}.

Definition default_Params : Params := mkParams false true false 1.

(** [ShouldVerify]: whether this element is for this verifier, and the new
    [iV]. *)
Definition ShouldVerify (p : Params) (iV : Z) : bool * Z :=
  if negb (iV =? 0) then (false, u32 (iV - 1)) else (true, u32 (m_nVerifiers p - 1)).

(** The frame of the three loops of [ValidateAndSummarize]: [pPrev] is the
    element before, [n] counts the readings of the abort flag. *)
Section walk.
Context (p : Params) (abort : nat -> bool) {A S : Type}.
Context (body : S -> option A -> A -> option S).

Fixpoint Verify_loop (l : list A) (pPrev : option A) (iV : Z) (n : nat) (st : S) : option (S * Z * nat) :=
  match l with
  | [] => Some (st, iV, n)
  | x :: l =>
      if abort n then None
      else
        let '(v, iV) := ShouldVerify p iV in
        if v then
          match body st pPrev x with
          | None => None
          | Some st => Verify_loop l (Some x) iV (Datatypes.S n) st
          end
        else Verify_loop l (Some x) iV (Datatypes.S n) st
  end.
End walk.

(** The search for a redundant output: the outputs left, [None] when an output
    matches. *)
Fixpoint NoRedundant (ig : bool) (i : Input) (outs : list Output) : option (list Output) :=
  match outs with
  | [] => Some []
  | o :: outs' =>
      let n := CmpInOut ig i o in
      if n <? 0 then Some outs
      else if n =? 0 then None
      else NoRedundant ig i outs'
  end.

Definition out_of_order {A} (cmp : A -> A -> Z) (pPrev : option A) (x : A) : bool :=
  match pPrev with Some y => 0 <? cmp y x | None => false end.

Section context.
Context (sha256 : list Z -> list Z) (r : Rules) (ig : bool) (abort : nat -> bool).
Context {G : Type} `{!Curve G, !OracleDraws G, !EquationCheck G}.
Context (Confidential_IsValid : list Z -> G -> list Z -> G -> bool).

Record Context_t := mkContext {
  c_Sigma : G;
  c_Fee : list Z;
  c_Coinbase : list Z;
  c_Height : HeightRange;
  c_iVerifier : Z
}.

Definition Context_Reset : Context_t := mkContext g_zero AmountBig_zero AmountBig_zero HR.Reset 0.

Definition HandleElementHeight (p : Params) (h hr : HeightRange) : option HeightRange :=
  let x := HR.Intersect h hr in
  if HR.IsEmpty x then None else Some (if negb (m_bBlockMode p) then x else h).

Definition Merge (p : Params) (c x : Context_t) : option Context_t :=
  match HandleElementHeight p (c_Height c) (c_Height x) with
  | None => None
  | Some h =>
      Some (mkContext (g_add (c_Sigma c) (c_Sigma x)) (AmountBig_add (c_Fee c) (c_Fee x))
              (AmountBig_add (c_Coinbase c) (c_Coinbase x)) h (c_iVerifier c))
  end.

(** The bodies of the loops. The state of the first one is the reader's
    position among the outputs and the sum. *)
Definition Input_body (p : Params) (st : list Output * G) (pPrev : option Input) (i : Input)
  : option (list Output * G) :=
  let '(outs, sigma) := st in
  match
    (if m_bVerifyOrder p then
       if out_of_order (Input_cmp ig) pPrev i then None else NoRedundant ig i outs
     else Some outs)
  with
  | None => None
  | Some outs =>
      match Point_Import (e_Commitment (i_Element i)) with
      | None => None
      | Some pt => Some (outs, g_add sigma pt)
      end
  end.

Definition Output_body (p : Params) (hMin : Z) (st : G * list Z) (pPrev : option Output) (o : Output)
  : option (G * list Z) :=
  let '(sigma, coinbase) := st in
  if m_bVerifyOrder p && out_of_order (Output_cmp ig) pPrev o then None
  else
    let bSigned := isSome (o_pConfidential o) || isSome (o_pPublic o) in
    match
      (if bSigned then Output_IsValid sha256 r Confidential_IsValid o hMin
       else if negb (m_bAllowUnsignedOutputs p) then None
       else Point_Import (e_Commitment (o_Element o)))
    with
    | None => None
    | Some pt =>
        let sigma := g_add sigma pt in
        if o_Coinbase o then
          if negb (m_bBlockMode p) then None
          else if bSigned then
            match o_pPublic o with
            | Some pub => Some (sigma, AmountBig_add coinbase (uintBigFrom64 (p_Value pub)))
            | None => None (* excluded by [Output_IsValid] *)
            end
          else Some (sigma, coinbase)
        else Some (sigma, coinbase)
    end.

Definition Kernel_body (p : Params) (st : list Z * G * HeightRange) (pPrev : option TxKernel) (k : TxKernel)
  : option (list Z * G * HeightRange) :=
  let '(fee, sigma, h) := st in
  if m_bVerifyOrder p && out_of_order (TxKernel_cmp ig) pPrev k then None
  else
    match TxKernel_IsValid sha256 r ig k (m_Min h) fee sigma with
    | None => None
    | Some (fee, sigma) =>
        match HandleElementHeight p h (k_Height k) with
        | None => None
        | Some h => Some (fee, sigma, h)
        end
    end.

(** The height range is cut at the fork. *)
Definition ForkHeight (p : Params) (h : HeightRange) : option HeightRange :=
  if HR.IsEmpty h then None
  else if (m_Min h <? fork_height r 1) && (fork_height r 1 <=? m_Max h) then
    if m_bBlockMode p then None else Some (mkHR (m_Min h) (u64 (fork_height r 1 - 1)))
  else Some h.

Definition ValidateAndSummarize (p : Params) (c : Context_t) (offset : list Z) (v : TxVectors) : option Context_t :=
  match ForkHeight p (c_Height c) with
  | None => None
  | Some h =>
      let sigma := g_neg (c_Sigma c) in
      match Verify_loop p abort (Input_body p) (m_vInputs v) None (c_iVerifier c) 0 (m_vOutputs v, sigma) with
      | None => None
      | Some ((_, sigma), iV, n) =>
          let sigma := g_neg sigma in
          match Verify_loop p abort (Output_body p (m_Min h)) (m_vOutputs v) None iV n (sigma, c_Coinbase c) with
          | None => None
          | Some ((sigma, coinbase), iV, n) =>
              match Verify_loop p abort (Kernel_body p) (m_vKernels v) None iV n (c_Fee c, sigma, h) with
              | None => None
              | Some ((fee, sigma, h), iV, n) =>
                  let sigma :=
                    if (ShouldVerify p iV).1 && negb (_Cmp offset zero_hash =? 0)
                    then g_add sigma (g_mul (Scalar_Import offset).1 G_raw) else sigma in
                  Some (mkContext sigma fee coinbase h (c_iVerifier c))
              end
          end
      end
  end.

Definition IsValidTransaction (c : Context_t) : bool :=
  bool_decide (AmountBig_AddTo (c_Sigma c) (c_Fee c) = g_zero).

(** [None] when the emission loop does not finish. *)
Definition IsValidBlock (p : Params) (c : Context_t) : option bool :=
  let base := Value0 (Emission r) in
  match get_Emission_range r (c_Height c) base with
  | None => None
  | Some subsTotal =>
      let sigma := AmountBig_AddTo (g_neg (c_Sigma c)) subsTotal in
      if negb (bool_decide (sigma = g_zero)) then Some false
      else if negb (m_bAllowUnsignedOutputs p) then
        match
          (if u64 (m_Max (c_Height c) - m_Min (c_Height c)) <? Maturity_Coinbase r then Some subsTotal
           else get_Emission_range r
                  (mkHR (u64 (m_Max (c_Height c) - Maturity_Coinbase r)) (m_Max (c_Height c))) base)
        with
        | None => None
        | Some subsLocked => if _Cmp (c_Coinbase c) subsLocked <? 0 then Some false else Some true
        end
      else Some true
  end.

Definition Transaction_IsValid (p : Params) (c : Context_t) (t : Transaction) : bool :=
  match ValidateAndSummarize p c (t_Offset t) (t_Vectors t) with
  | None => false
  | Some c => IsValidTransaction c
  end.
End context.
Arguments Context_t G : clear implicits.

(** * Facts *)

(** ** Which elements a verifier looks at

    Verifier [j] of [N] takes the positions that are [j] modulo [N], counted
    over inputs, outputs, kernels and the offset. *)
Definition mine (j N : Z) (pos : nat) : bool := Z.of_nat pos mod N =? j.

Section select.
Context {B : Type} (j N : Z).

Fixpoint sel_list (pos : nat) (l : list B) : list B :=
  match l with
  | [] => []
  | x :: l => if mine j N pos then x :: sel_list (S pos) l else sel_list (S pos) l
  end.
End select.

(** Each element with the one before it. *)
Fixpoint pairs {A} (prev : option A) (l : list A) : list (option A * A) :=
  match l with
  | [] => []
  | x :: l => (prev, x) :: pairs (Some x) l
  end.

Fixpoint mfold {A S} (body : S -> option A -> A -> option S) (st : S) (l : list (option A * A)) : option S :=
  match l with
  | [] => Some st
  | (prev, x) :: l => match body st prev x with Some st => mfold body st l | None => None end
  end.

Lemma mine_iV j N pos : 0 <= j < N -> ((j - Z.of_nat pos) mod N =? 0) = mine j N pos.
Proof.
  intros Hj. unfold mine. apply eq_true_iff_eq. rewrite !Z.eqb_eq. split; intros E.
  - apply Z.mod_divide in E; [|lia]. destruct E as [q E]. replace (Z.of_nat pos) with (j + (- q) * N) by lia.
    rewrite Z.mod_add by lia. by apply Z.mod_small.
  - rewrite <- E at 1. rewrite Zminus_mod_idemp_l, Z.sub_diag. apply Z.mod_0_l. lia.
Qed.

Lemma iV_next j N pos : 0 <= j < N ->
  (j - Z.of_nat (S pos)) mod N
    = if mine j N pos then N - 1 else (j - Z.of_nat pos) mod N - 1.
Proof.
  intros Hj. rewrite <- mine_iV by done. rewrite Nat2Z.inj_succ.
  replace (j - Z.succ (Z.of_nat pos)) with (j - Z.of_nat pos - 1) by lia.
  rewrite <- Zminus_mod_idemp_l. pose proof (Z.mod_pos_bound (j - Z.of_nat pos) N ltac:(lia)) as Hb.
  destruct (Z.eqb_spec ((j - Z.of_nat pos) mod N) 0) as [->|Hne].
  - symmetry. apply (Z.mod_unique_pos _ _ (-1)); lia.
  - apply Z.mod_small. lia.
Qed.

Section walk_spec.
Context (p : Params) (abort : nat -> bool) {A S : Type} (body : S -> option A -> A -> option S).
Context (Hab : forall n, abort n = false) (HN : 0 < m_nVerifiers p < 2 ^ 32).

Lemma Verify_loop_spec j pos l prev n st :
  0 <= j < m_nVerifiers p ->
  Verify_loop p abort body l prev ((j - Z.of_nat pos) mod m_nVerifiers p) n st
    = match mfold body st (sel_list j (m_nVerifiers p) pos (pairs prev l)) with
      | Some st' => Some (st', (j - Z.of_nat (pos + length l)) mod m_nVerifiers p, (n + length l)%nat)
      | None => None
      end.
Proof.
  intros Hj. revert pos prev n st. induction l as [|x l IH]; intros pos prev n st; cbn [Verify_loop pairs sel_list mfold length].
  - by rewrite !Nat.add_0_r.
  - rewrite Hab. unfold ShouldVerify. rewrite mine_iV by done.
    pose proof (iV_next j (m_nVerifiers p) pos Hj) as Hnext.
    pose proof (Z.mod_pos_bound (j - Z.of_nat pos) (m_nVerifiers p) ltac:(lia)) as Hb.
    destruct (mine j (m_nVerifiers p) pos) eqn:Em; cbn [negb].
    + replace (u32 (m_nVerifiers p - 1)) with ((j - Z.of_nat (Datatypes.S pos)) mod m_nVerifiers p)
        by (rewrite Hnext; symmetry; apply Z.mod_small; lia).
      cbn [mfold]. destruct (body st prev x) as [st'|]; [|done]. rewrite IH.
      by rewrite !Nat.add_succ_r, !Nat.add_succ_l.
    + rewrite <- mine_iV in Em by done. apply Z.eqb_neq in Em.
      replace (u32 ((j - Z.of_nat pos) mod m_nVerifiers p - 1)) with ((j - Z.of_nat (Datatypes.S pos)) mod m_nVerifiers p)
        by (rewrite Hnext; symmetry; apply Z.mod_small; lia).
      rewrite IH. by rewrite !Nat.add_succ_r, !Nat.add_succ_l.
Qed.
End walk_spec.

(** ** The elements of all verifiers together *)
Lemma mine_exists N pos : 0 < N -> exists j, 0 <= j < N /\ mine j N pos = true.
Proof.
  intros HN. exists (Z.of_nat pos mod N). split; [by apply Z.mod_pos_bound|]. apply Z.eqb_refl.
Qed.

Lemma sel_list_Forall {B} (P : B -> Prop) N pos l :
  0 < N -> (forall j, 0 <= j < N -> Forall P (sel_list j N pos l)) <-> Forall P l.
Proof.
  intros HN. revert pos. induction l as [|x l IH]; intros pos; [done|]. split.
  - intros H. constructor.
    + destruct (mine_exists N pos HN) as (j & Hj & Hm). specialize (H j Hj). cbn in H. rewrite Hm in H.
      by apply Forall_cons in H as [? _].
    + apply (IH (S pos)). intros j Hj. specialize (H j Hj). cbn in H.
      destruct (mine j N pos); [by apply Forall_cons in H as [_ ?]|done].
  - intros H j Hj. apply Forall_cons in H as [Hx H]. cbn. pose proof (proj2 (IH (S pos)) H j Hj).
    destruct (mine j N pos); [by constructor|done].
Qed.

(** Summing over the verifiers [0 .. N-1]. *)
Definition verifiers (N : nat) : list Z := Z.of_nat <$> seq 0 N.

Section sums.
Context {M : Type} (op : M -> M -> M) (e : M).
Context (op_comm : forall x y, op x y = op y x) (op_assoc : forall x y z, op x (op y z) = op (op x y) z).
Context (op_e : forall x, op e x = x).
Abbreviation msum := (foldr op e).

Lemma op_swap x y z : op x (op y z) = op y (op x z).
Proof. by rewrite !op_assoc, (op_comm x). Qed.

Lemma msum_zeros {C} (l : list C) : msum ((fun _ => e) <$> l) = e.
Proof. induction l as [|x l IH]; [done|]. rewrite fmap_cons. cbn [foldr]. by rewrite IH, op_e. Qed.

Lemma msum_add {C} (h1 h2 : C -> M) l :
  msum ((fun c => op (h1 c) (h2 c)) <$> l) = op (msum (h1 <$> l)) (msum (h2 <$> l)).
Proof.
  induction l as [|x l IH]; [cbn; by rewrite op_e|]. rewrite !fmap_cons. cbn [foldr]. rewrite IH.
  rewrite <- !op_assoc. f_equal. apply op_swap.
Qed.

Lemma sum_one_verifier (N : nat) pos x :
  (0 < N)%nat -> msum ((fun j => if mine j (Z.of_nat N) pos then x else e) <$> verifiers N) = x.
Proof.
  intros HN. unfold verifiers. rewrite <- list_fmap_compose. unfold compose.
  assert (exists k, (k < N)%nat /\ forall i, (i < N)%nat -> mine (Z.of_nat i) (Z.of_nat N) pos = (i =? k)%nat) as (k & Hk & Hm).
  { pose proof (Z.mod_pos_bound (Z.of_nat pos) (Z.of_nat N) ltac:(lia)) as Hb.
    exists (Z.to_nat (Z.of_nat pos mod Z.of_nat N)). split; [lia|]. intros i Hi. unfold mine.
    apply eq_true_iff_eq. rewrite Z.eqb_eq, Nat.eqb_eq. lia. }
  assert (forall K s, (s + K = N)%nat ->
    msum ((fun i => if mine (Z.of_nat i) (Z.of_nat N) pos then x else e) <$> seq s K)
      = if (s <=? k)%nat && (k <? s + K)%nat then x else e) as H.
  { induction K as [|K IH]; intros s Hs.
    - destruct (Nat.leb_spec s k), (Nat.ltb_spec k (s + 0)); try lia; done.
    - rewrite <- cons_seq, fmap_cons. cbn [foldr].
      rewrite IH, Hm by (done || lia). destruct (Nat.eqb_spec s k) as [->|].
      + destruct (Nat.leb_spec (S k) k), (Nat.leb_spec k k), (Nat.ltb_spec k (k + S K)); try lia. rewrite op_comm; apply op_e.
      + rewrite op_e. destruct (Nat.leb_spec (S s) k), (Nat.leb_spec s k), (Nat.ltb_spec k (S s + K)), (Nat.ltb_spec k (s + S K));
          try lia; done. }
  rewrite (H N 0%nat) by lia. by rewrite (proj2 (Nat.leb_le _ _)), (proj2 (Nat.ltb_lt _ _)) by lia.
Qed.

Lemma sel_list_sum {B} (f : B -> M) (N : nat) pos l :
  (0 < N)%nat -> msum ((fun j => msum (f <$> sel_list j (Z.of_nat N) pos l)) <$> verifiers N) = msum (f <$> l).
Proof.
  intros HN. revert pos. induction l as [|x l IH]; intros pos.
  - cbn [sel_list]. apply msum_zeros.
  - transitivity (msum ((fun j => op (if mine j (Z.of_nat N) pos then f x else e)
                                         (msum (f <$> sel_list j (Z.of_nat N) (S pos) l))) <$> verifiers N)).
    { f_equal. apply list_fmap_ext. intros _ j _. cbn [sel_list].
      destruct (mine j (Z.of_nat N) pos); by rewrite ?op_e. }
    rewrite msum_add, IH, sum_one_verifier by done. done.
Qed.
End sums.

(** ** What the loops do *)
Section loops.
Context (sha256 : list Z -> list Z) (r : Rules) (ig : bool).
Context {G : Type} `{!Curve G, !CurveLaws G, !OracleDraws G, !EquationCheck G}.
Context (Confidential_IsValid : list Z -> G -> list Z -> G -> bool) (p : Params).

(** [z] is the sum of [x] and [d], as 128-bit amounts. *)
Definition amount_plus (x z : list Z) (d : Z) : Prop := bytes_n 16 z /\ be_val z = (be_val x + d) mod 2 ^ 128.

Lemma amount_plus_trans x y z d e : amount_plus x y d -> amount_plus y z e -> amount_plus x z (d + e).
Proof.
  intros [_ E1] [H2 E2]. split; [done|]. rewrite E2, E1, Z.add_mod_idemp_l by lia. f_equal. lia.
Qed.

Lemma amount_plus_0 x : bytes_n 16 x -> amount_plus x x 0.
Proof. intros H. apply (fee_plus_0 (Some x)). by intros ? [= <-]. Qed.

Lemma amount_plus_one x d : bytes_n 16 x -> in_width 64 d -> amount_plus x (AmountBig_add x (uintBigFrom64 d)) d.
Proof. apply fee_plus_one. Qed.

Lemma amount_plus_unique x z z' d d' :
  amount_plus x z d -> amount_plus x z' d' -> d mod 2 ^ 128 = d' mod 2 ^ 128 -> z = z'.
Proof.
  intros [[Hz Lz] E] [[Hz' Lz'] E'] Hd. apply be_val_inj; [done|done|congruence|].
  rewrite E, E', <- Z.add_mod_idemp_r, Hd, Z.add_mod_idemp_r by lia. done.
Qed.

(** *** Inputs *)
Definition in_pt (i : Input) : G := default g_zero (Point_Import (e_Commitment (i_Element i))).
Definition in_good (i : Input) : Prop := isSome (Point_Import (G := G) (e_Commitment (i_Element i))) = true.
Definition ordered {A} (cmp : A -> A -> Z) (q : option A * A) : Prop := out_of_order cmp q.1 q.2 = false.

(** The search for redundant outputs over several inputs. *)
Fixpoint scan (ins : list Input) (outs : list Output) : option (list Output) :=
  match ins with
  | [] => Some outs
  | i :: ins => match NoRedundant ig i outs with Some outs => scan ins outs | None => None end
  end.

Definition inputs_good (L : list (option Input * Input)) (outs : list Output) : Prop :=
  Forall in_good (L.*2) /\
  (m_bVerifyOrder p = true -> Forall (ordered (Input_cmp ig)) L /\ isSome (scan (L.*2) outs) = true).

Lemma inputs_good_cons prev i L outs :
  inputs_good ((prev, i) :: L) outs <->
  in_good i /\
  (if m_bVerifyOrder p then ordered (Input_cmp ig) (prev, i) /\
     match NoRedundant ig i outs with Some outs' => inputs_good L outs' | None => False end
   else inputs_good L outs).
Proof.
  unfold inputs_good. rewrite fmap_cons, Forall_cons, (Forall_cons (ordered _)). cbn [snd scan].
  destruct (m_bVerifyOrder p).
  - destruct (NoRedundant ig i outs) as [outs'|]; [tauto|]. split; [|tauto].
    intros [_ H]. by destruct (H eq_refl) as [_ ?].
  - split; [intros [[H1 H2] _]; by split_and!|]. intros (H1 & H2 & _). by split_and!.
Qed.

Lemma inputs_fold L outs sigma :
  match mfold (Input_body ig p) (outs, sigma) L with
  | Some (_, sigma') => inputs_good L outs /\ sigma' = g_add sigma (g_sum (in_pt <$> L.*2))
  | None => ~ inputs_good L outs
  end.
Proof.
  revert outs sigma. induction L as [|[prev i] L IH]; intros outs sigma; cbn [mfold].
  - cbn. rewrite g_add_0_r. by repeat split.
  - pose proof (inputs_good_cons prev i L outs) as Hc. unfold ordered, in_good in Hc. cbn [fst snd] in Hc.
    unfold Input_body at 1.
    assert (forall outs' pt, Point_Import (e_Commitment (i_Element i)) = Some pt ->
      (inputs_good ((prev, i) :: L) outs <-> inputs_good L outs') ->
      match mfold (Input_body ig p) (outs', g_add sigma pt) L with
      | Some (_, sigma') => inputs_good ((prev, i) :: L) outs /\ sigma' = g_add sigma (g_sum (in_pt <$> ((prev, i) :: L).*2))
      | None => ~ inputs_good ((prev, i) :: L) outs
      end) as Hstep.
    { intros outs' pt Ept Hiff. specialize (IH outs' (g_add sigma pt)).
      destruct (mfold _ _ L) as [[o s]|]; [|by rewrite Hiff]. destruct IH as [I1 ->]. split; [by apply Hiff|].
      rewrite !fmap_cons. cbn [snd g_sum foldr]. unfold in_pt at 2. rewrite Ept. by rewrite <- g_add_assoc. }
    destruct (m_bVerifyOrder p).
    + destruct (out_of_order _ _ _); [rewrite Hc; by intros (_ & ? & _)|].
      destruct (NoRedundant ig i outs) as [outs'|]; [|rewrite Hc; by intros (_ & _ & ?)].
      destruct (Point_Import (e_Commitment (i_Element i))) as [pt|]; [|rewrite Hc; by intros (? & _)].
      apply Hstep; [done|]. rewrite Hc. cbn. tauto.
    + destruct (Point_Import (e_Commitment (i_Element i))) as [pt|]; [|rewrite Hc; by intros (? & _)].
      apply Hstep; [done|]. rewrite Hc. cbn. tauto.
Qed.

(** *** Outputs: the point and the coinbase value of a valid output *)
Definition out_check (hMin : Z) (o : Output) : option (G * Z) :=
  let bSigned := isSome (o_pConfidential o) || isSome (o_pPublic o) in
  match
    (if bSigned then Output_IsValid sha256 r Confidential_IsValid o hMin
     else if negb (m_bAllowUnsignedOutputs p) then None
     else Point_Import (e_Commitment (o_Element o)))
  with
  | None => None
  | Some pt =>
      if o_Coinbase o then
        if negb (m_bBlockMode p) then None
        else if bSigned then
          match o_pPublic o with Some pub => Some (pt, p_Value pub) | None => None end
        else Some (pt, 0)
      else Some (pt, 0)
  end.
Definition out_pt (hMin : Z) (o : Output) : G := default g_zero (fst <$> out_check hMin o).
Definition out_coinbase (hMin : Z) (o : Output) : Z := default 0 (snd <$> out_check hMin o).

Definition values_ok (o : Output) : Prop := forall pub, o_pPublic o = Some pub -> in_width 64 (p_Value pub).

Definition outputs_good (hMin : Z) (L : list (option Output * Output)) : Prop :=
  (m_bVerifyOrder p = true -> Forall (ordered (Output_cmp ig)) L) /\
  Forall (fun o => isSome (out_check hMin o) = true) (L.*2).

Lemma Output_body_check hMin sigma cb prev o :
  values_ok o -> bytes_n 16 cb ->
  match Output_body sha256 r ig Confidential_IsValid p hMin (sigma, cb) prev o with
  | Some (sigma', cb') =>
      (m_bVerifyOrder p = true -> ordered (Output_cmp ig) (prev, o)) /\ isSome (out_check hMin o) = true /\
      sigma' = g_add sigma (out_pt hMin o) /\ amount_plus cb cb' (out_coinbase hMin o)
  | None => (m_bVerifyOrder p = true /\ ~ ordered (Output_cmp ig) (prev, o)) \/ isSome (out_check hMin o) = false
  end.
Proof.
  intros Hv Hcb. unfold Output_body, out_pt, out_coinbase, out_check, ordered. cbn [fst snd].
  destruct (m_bVerifyOrder p && _) eqn:Eo; [left; apply andb_true_iff in Eo as [-> ->]; by split|].
  assert (m_bVerifyOrder p = true -> out_of_order (Output_cmp ig) prev o = false) as Ho by (intros E; by rewrite E in Eo).
  pose proof (amount_plus_0 cb Hcb). destruct (if isSome _ || _ then _ else _) as [pt|]; [|by right].
  destruct (o_Coinbase o); [|done]. destruct (m_bBlockMode p); [|by right]. cbn [negb].
  destruct (isSome _ || isSome _); [|done]. destruct (o_pPublic o) as [pub|] eqn:Ep; [|by right].
  split_and!; try done. apply amount_plus_one; [done|by apply Hv].
Qed.

Lemma outputs_fold hMin L sigma cb :
  Forall values_ok (L.*2) -> bytes_n 16 cb ->
  match mfold (Output_body sha256 r ig Confidential_IsValid p hMin) (sigma, cb) L with
  | Some (sigma', cb') =>
      outputs_good hMin L /\ sigma' = g_add sigma (g_sum (out_pt hMin <$> L.*2)) /\
      amount_plus cb cb' (zsum (out_coinbase hMin <$> L.*2))
  | None => ~ outputs_good hMin L
  end.
Proof.
  revert sigma cb. induction L as [|[prev o] L IH]; intros sigma cb Hv Hcb; cbn [mfold].
  - cbn. rewrite g_add_0_r. split_and!; [by split|done|by apply amount_plus_0].
  - rewrite !fmap_cons in *. cbn [snd] in *. apply Forall_cons in Hv as [Ho Hv].
    pose proof (Output_body_check hMin sigma cb prev o Ho Hcb) as Hb. unfold outputs_good in *.
    destruct (Output_body _ _ _ _ _ _ _ _ _) as [[s1 cb1]|].
    + destruct Hb as (H1 & H2 & -> & H4). specialize (IH (g_add sigma (out_pt hMin o)) cb1 Hv (proj1 H4)).
      destruct (mfold _ _ L) as [[s2 cb2]|].
      * destruct IH as ([I1 I2] & -> & I4). rewrite !fmap_cons. cbn [snd g_sum foldr zsum].
        split; [|split; [by rewrite <- g_add_assoc|by eapply amount_plus_trans]].
        split; [|by constructor]. intros E. constructor; [by apply H1|by apply I1].
      * intros [J1 J2]. apply Forall_cons in J2 as [_ J2]. apply IH. split; [|done]. intros E.
        specialize (J1 E). by apply Forall_cons in J1 as [_ ?].
    + intros [J1 J2]. apply Forall_cons in J2 as [J2 _].
      destruct Hb as [[E Hb]|Hb]; [|cbn in J2; by rewrite Hb in J2]. specialize (J1 E). apply Forall_cons in J1 as [J1 _]. done.
Qed.

(** *** Kernels *)

(** A range of heights on one side of the fork. *)
Definition one_side (h : HeightRange) : Prop :=
  m_Min h <= m_Max h /\ (m_Max h < fork_height r 1 \/ fork_height r 1 <= m_Min h).

Lemma kern_valid_side full h h' par k :
  (h <? fork_height r 1) = (h' <? fork_height r 1) ->
  kern_valid sha256 r ig full (Some h) par k = kern_valid (G := G) sha256 r ig full (Some h') par k.
Proof.
  intros Hs. revert par. induction k as [k IH] using TxKernel_nested_ind. intros par.
  assert (kern_guard r (Some h) par k = kern_guard r (Some h') par k) as Hg.
  { unfold kern_guard. rewrite !Z.leb_antisym, Hs. done. }
  destruct k as [el sg kf kh ae ce hl rl nst]. cbn [kern_valid k_vNested k_Height] in *. rewrite Hg.
  f_equal. f_equal. f_equal. clear Hg. induction IH as [|x l Hx _ IHl]; [done|]. cbn [forallb]. by rewrite Hx, IHl.
Qed.

Fixpoint hfold (h : HeightRange) (l : list HeightRange) : option HeightRange :=
  match l with
  | [] => Some h
  | x :: l => match HandleElementHeight p h x with Some h => hfold h l | None => None end
  end.

Lemma HandleElementHeight_side h x h' :
  one_side h -> HandleElementHeight p h x = Some h' ->
  one_side h' /\ (m_Min h' <? fork_height r 1) = (m_Min h <? fork_height r 1).
Proof.
  unfold HandleElementHeight, HR.IsEmpty, HR.Intersect, one_side. intros [Hne Hs]. cbn [m_Min m_Max].
  destruct (Z.ltb_spec (Z.min (m_Max h) (m_Max x)) (Z.max (m_Min h) (m_Min x))); [done|].
  destruct (m_bBlockMode p); intros [= <-]; cbn [m_Min m_Max]; [done|]. split; [lia|].
  destruct (Z.ltb_spec (Z.max (m_Min h) (m_Min x)) (fork_height r 1)), (Z.ltb_spec (m_Min h) (fork_height r 1)); lia || done.
Qed.

Definition kernels_good (h : HeightRange) (L : list (option TxKernel * TxKernel)) : Prop :=
  (m_bVerifyOrder p = true -> Forall (ordered (TxKernel_cmp ig)) L) /\
  Forall (fun k => kern_valid (G := G) sha256 r ig true (Some (m_Min h)) None k = true) (L.*2) /\
  isSome (hfold h (k_Height <$> L.*2)) = true.

Lemma kernels_good_cons h prev k L :
  one_side h ->
  kernels_good h ((prev, k) :: L) <->
  (m_bVerifyOrder p = true -> ordered (TxKernel_cmp ig) (prev, k)) /\
  kern_valid (G := G) sha256 r ig true (Some (m_Min h)) None k = true /\
  match HandleElementHeight p h (k_Height k) with Some h' => kernels_good h' L | None => False end.
Proof.
  intros Hs. unfold kernels_good. rewrite !fmap_cons, !Forall_cons. cbn [snd hfold].
  destruct (HandleElementHeight p h (k_Height k)) as [h'|] eqn:Eh.
  - destruct (HandleElementHeight_side _ _ _ Hs Eh) as [_ Hside].
    assert (Forall (fun k => kern_valid (G := G) sha256 r ig true (Some (m_Min h)) None k = true) L.*2
        <-> Forall (fun k => kern_valid (G := G) sha256 r ig true (Some (m_Min h')) None k = true) L.*2) as ->.
    { split; intros H; (eapply Forall_impl; [exact H|]); intros x Hx; cbn in *;
        [by rewrite (kern_valid_side _ (m_Min h') (m_Min h))|by rewrite (kern_valid_side _ (m_Min h) (m_Min h'))]. }
    tauto.
  - split; [intros (_ & _ & ?); done|tauto].
Qed.

Lemma kernels_fold L fee sigma h :
  one_side h -> Forall fees_ok (L.*2) -> bytes_n 16 fee ->
  match mfold (Kernel_body sha256 r ig p) (fee, sigma, h) L with
  | Some (fee', sigma', h') =>
      kernels_good h L /\ sigma' = g_add sigma (g_sum (kern_exc r <$> L.*2)) /\
      amount_plus fee fee' (zsum (kern_fee <$> L.*2)) /\ hfold h (k_Height <$> L.*2) = Some h'
  | None => ~ kernels_good h L
  end.
Proof.
  revert fee sigma h. induction L as [|[prev k] L IH]; intros fee sigma h Hs Hf Hfee; cbn [mfold].
  - cbn. rewrite g_add_0_r. split_and!; [by repeat split|done|by apply amount_plus_0|done].
  - pose proof (kernels_good_cons h prev k L Hs) as Hc. unfold ordered in Hc. cbn [fst snd] in Hc.
    rewrite fmap_cons in Hf. apply Forall_cons in Hf as [Hfk Hf]. cbn [snd] in Hfk.
    unfold Kernel_body at 1. destruct (m_bVerifyOrder p && _) eqn:Eo.
    { apply andb_true_iff in Eo as [E1 E2]. rewrite Hc, E2. intros (H & _). by specialize (H E1). }
    assert (m_bVerifyOrder p = true -> out_of_order (TxKernel_cmp ig) prev k = false) as Ho by (intros E; by rewrite E in Eo).
    destruct (TxKernel_IsValid_spec sha256 r ig k (m_Min h) fee sigma Hfk Hfee) as [Ev Er].
    destruct (TxKernel_IsValid sha256 r ig k (m_Min h) fee sigma) as [[fee1 sigma1]|]; cbn [isSome] in Ev.
    2: { rewrite Hc, <- Ev. by intros (_ & ? & _). }
    destruct (Er _ _ eq_refl) as (Hf1 & Hv1 & ->). destruct (HandleElementHeight p h (k_Height k)) as [h1|] eqn:Eh.
    2: { rewrite Hc. by intros (_ & _ & ?). }
    destruct (HandleElementHeight_side _ _ _ Hs Eh) as [Hs1 _].
    specialize (IH fee1 (g_add sigma (kern_exc r k)) h1 Hs1 Hf Hf1).
    destruct (mfold _ _ L) as [[[fee2 sigma2] h2]|].
    + destruct IH as (I1 & -> & I3 & I4). rewrite !fmap_cons. cbn [snd g_sum foldr zsum hfold]. rewrite Eh.
      split_and!; [by apply Hc|by rewrite <- g_add_assoc| |done]. eapply amount_plus_trans; [|exact I3]. by split.
    + rewrite Hc. tauto.
Qed.
End loops.

(** ** One verifier *)
Section verifier.
Context (sha256 : list Z -> list Z) (r : Rules) (ig : bool) (abort : nat -> bool).
Context {G : Type} `{!Curve G, !CurveLaws G, !OracleDraws G, !EquationCheck G}.
Context (Confidential_IsValid : list Z -> G -> list Z -> G -> bool) (p : Params).
Context (Hab : forall n, abort n = false) (HN : 0 < m_nVerifiers p < 2 ^ 32).
Abbreviation N := (m_nVerifiers p).

(** The elements of verifier [j]. *)
Definition my_in (j : Z) (v : TxVectors) := sel_list j N 0 (pairs None (m_vInputs v)).
Definition my_out (j : Z) (v : TxVectors) := sel_list j N (length (m_vInputs v)) (pairs None (m_vOutputs v)).
Definition my_krn (j : Z) (v : TxVectors) :=
  sel_list j N (length (m_vInputs v) + length (m_vOutputs v)) (pairs None (m_vKernels v)).
Definition offset_pt (offset : list Z) : G :=
  if _Cmp offset zero_hash =? 0 then g_zero else g_mul (Scalar_Import offset).1 G_raw.
Definition my_offset (j : Z) (offset : list Z) (v : TxVectors) : G :=
  if mine j N (length (m_vInputs v) + length (m_vOutputs v) + length (m_vKernels v)) then offset_pt offset else g_zero.

(** Outputs less inputs, plus kernels and offset. *)
Definition balance (hMin : Z) (ins : list Input) (outs : list Output) (krns : list TxKernel) (off : G) : G :=
  g_add (g_neg (g_sum (in_pt <$> ins)))
    (g_add (g_sum (out_pt sha256 r Confidential_IsValid p hMin <$> outs))
       (g_add (g_sum (kern_exc r <$> krns)) off)).

Definition elements_good (h : HeightRange) (Li : list (option Input * Input)) (Lo : list (option Output * Output))
    (Lk : list (option TxKernel * TxKernel)) (outs : list Output) : Prop :=
  inputs_good ig (G := G) p Li outs /\
  outputs_good sha256 r ig Confidential_IsValid p (m_Min h) Lo /\
  kernels_good sha256 r ig (G := G) p h Lk.

(** Members within their types. *)
Record vectors_typed (v : TxVectors) : Prop := {
  vt_out : Forall values_ok (m_vOutputs v);
  vt_krn : Forall fees_ok (m_vKernels v)
}.

Record context_ok (c : Context_t G) : Prop := {
  co_fee : bytes_n 16 (c_Fee c);
  co_coinbase : bytes_n 16 (c_Coinbase c);
  co_height : 0 <= m_Min (c_Height c) /\ m_Max (c_Height c) < 2 ^ 64
}.

Lemma sel_list_sub {A} (P : A -> Prop) j pos prev l : Forall P l -> Forall P ((sel_list j N pos (pairs prev l)).*2).
Proof.
  revert pos prev. induction l as [|x l IH]; intros pos prev H; [constructor|]. apply Forall_cons in H as [Hx H].
  cbn. destruct (mine j N pos); [constructor; [done|]|]; by apply IH.
Qed.

Lemma ForkHeight_side h h' :
  0 <= m_Min h -> m_Max h < 2 ^ 64 -> ForkHeight r p h = Some h' ->
  one_side r h' /\ 0 <= m_Min h' /\ m_Max h' < 2 ^ 64 /\ m_Min h' = m_Min h /\ m_Max h' <= m_Max h.
Proof.
  unfold ForkHeight, HR.IsEmpty, one_side. intros H0 H1.
  destruct (Z.ltb_spec (m_Max h) (m_Min h)); [done|].
  destruct (Z.ltb_spec (m_Min h) (fork_height r 1)), (Z.leb_spec (fork_height r 1) (m_Max h)); cbn [andb];
    try (intros [= <-]; lia).
  destruct (m_bBlockMode p); [done|]. intros [= <-]. cbn [m_Min m_Max].
  unfold wrap. rewrite Z.mod_small by lia. lia.
Qed.

Lemma ValidateAndSummarize_verifier c offset v :
  0 <= c_iVerifier c < N -> context_ok c -> vectors_typed v ->
  let j := c_iVerifier c in
  match ValidateAndSummarize sha256 r ig abort Confidential_IsValid p c offset v with
  | Some c' =>
      exists h, ForkHeight r p (c_Height c) = Some h /\
        elements_good h (my_in j v) (my_out j v) (my_krn j v) (m_vOutputs v) /\
        c_Sigma c' = g_add (c_Sigma c)
          (balance (m_Min h) (my_in j v).*2 (my_out j v).*2 (my_krn j v).*2 (my_offset j offset v)) /\
        amount_plus (c_Fee c) (c_Fee c') (zsum (kern_fee <$> (my_krn j v).*2)) /\
        amount_plus (c_Coinbase c) (c_Coinbase c')
          (zsum (out_coinbase sha256 r Confidential_IsValid p (m_Min h) <$> (my_out j v).*2)) /\
        hfold p h (k_Height <$> (my_krn j v).*2) = Some (c_Height c') /\ c_iVerifier c' = j
  | None =>
      match ForkHeight r p (c_Height c) with
      | None => True
      | Some h => ~ elements_good h (my_in j v) (my_out j v) (my_krn j v) (m_vOutputs v)
      end
  end.
Proof.
  intros Hj [Hfee Hcb [H0 H1]] [Hvo Hvk] j. unfold ValidateAndSummarize.
  destruct (ForkHeight r p (c_Height c)) as [h|] eqn:Efork; [|done].
  destruct (ForkHeight_side _ _ H0 H1 Efork) as (Hside & _).
  pose proof (Verify_loop_spec p abort (Input_body ig p) Hab HN j 0 (m_vInputs v) None 0 (m_vOutputs v, g_neg (c_Sigma c)) Hj) as E0.
  cbn [Z.of_nat] in E0. rewrite Z.sub_0_r, (Z.mod_small j) in E0 by done. fold (my_in j v) in E0.
  change (c_iVerifier c) with j. rewrite E0. clear E0.
  pose proof (inputs_fold ig (G := G) p (my_in j v) (m_vOutputs v) (g_neg (c_Sigma c))) as Hi.
  destruct (mfold (Input_body ig p) _ _) as [[o1 s1]|]; [|intros (H & _); by apply Hi]. destruct Hi as [Hi ->].
  rewrite (Verify_loop_spec p abort _ Hab HN) by done. cbn [Nat.add]. fold (my_out j v).
  set (s1 := g_neg (g_add _ _)).
  pose proof (outputs_fold sha256 r ig Confidential_IsValid p (m_Min h) (my_out j v) s1 (c_Coinbase c)
    (sel_list_sub _ _ _ _ _ Hvo) Hcb) as Ho.
  destruct (mfold (Output_body _ _ _ _ _ _) _ _) as [[s2 cb2]|]; [|intros (_ & H & _); by apply Ho].
  destruct Ho as (Ho & -> & Hcb'). rewrite (Verify_loop_spec p abort _ Hab HN) by done. fold (my_krn j v).
  set (s2 := g_add s1 _).
  pose proof (kernels_fold sha256 r ig Confidential_IsValid p (my_krn j v) (c_Fee c) s2 h Hside (sel_list_sub _ _ _ _ _ Hvk) Hfee) as Hk.
  destruct (mfold (Kernel_body _ _ _ _) _ _) as [[[fee3 s3] h3]|]; [|intros (_ & _ & H); by apply Hk].
  destruct Hk as (Hk & -> & Hfee' & Hh). exists h. cbn [c_Sigma c_Fee c_Coinbase c_Height c_iVerifier].
  split_and!; try done. unfold balance, my_offset, offset_pt, ShouldVerify. rewrite mine_iV by done.
  assert (s1 = g_add (c_Sigma c) (g_neg (g_sum (in_pt <$> (my_in j v).*2)))) as E1.
  { subst s1. by rewrite g_neg_add, g_neg_neg. }
  subst s2. clearbody s1. subst s1. destruct (mine j N _); cbn [negb fst andb];
    [destruct (_Cmp offset zero_hash =? 0); cbn [negb]|]; rewrite ?g_add_0_r; by rewrite <- !g_add_assoc.
Qed.
End verifier.

(** ** Order and redundancy, declaratively *)
Lemma pairs_ordered {A} (ok : A -> Prop) (cmp : A -> A -> Z) l :
  cmp_pre cmp ok -> Forall ok l -> Forall (ordered cmp) (pairs None l) <-> ascending cmp l.
Proof.
  intros Hpre. assert (forall x l, Forall ok (x :: l) -> Forall (ordered cmp) (pairs (Some x) l) <-> ascending cmp (x :: l)) as H.
  { intros x k. revert x. induction k as [|y k IH]; intros x Hok.
    - split; [|constructor]. intros _. by repeat constructor.
    - apply Forall_cons in Hok as [Hx Hok]. cbn [pairs]. rewrite Forall_cons, IH by done.
      unfold ordered. cbn [fst snd out_of_order]. rewrite Z.ltb_ge. split.
      + intros [Hxy Hs]. pose proof Hs as Hs'. apply StronglySorted_inv in Hs' as [_ Hy]. constructor; [done|]. constructor; [done|].
        apply Forall_cons in Hok as [Hoy Hok]. apply Forall_forall. intros z Hz.
        apply (cp_trans _ _ Hpre x y z); [done|done| |done|].
        * by eapply Forall_forall in Hok.
        * by eapply Forall_forall in Hy.
      + intros Hs. apply StronglySorted_inv in Hs as [Hs Hx']. split; [|done]. by apply Forall_cons in Hx' as [? _]. }
  destruct l as [|x l]; intros Hok; [split; [constructor|constructor]|]. cbn [pairs]. rewrite Forall_cons, H by done.
  split; [tauto|]. intros. split; [done|done].
Qed.

Section redundancy.
Context (ig : bool) (oki : Input -> Prop) (oko : Output -> Prop) (Hcut : cut_mode ig oki oko).

Lemma NoRedundant_spec i outs :
  match NoRedundant ig i outs with
  | Some outs' => exists P, outs = P ++ outs' /\ Forall (fun o => 0 < CmpInOut ig i o) P /\
      match outs' with [] => True | o :: _ => CmpInOut ig i o < 0 end
  | None => exists o, o ∈ outs /\ CmpInOut ig i o = 0
  end.
Proof.
  induction outs as [|o outs IH]; cbn; [by exists []|].
  destruct (Z.ltb_spec (CmpInOut ig i o) 0); [by exists []|].
  destruct (Z.eqb_spec (CmpInOut ig i o) 0); [exists o; split; [by left|done]|].
  destruct (NoRedundant ig i outs) as [outs'|].
  - destruct IH as (P & -> & HP & Hr). exists (o :: P). split_and!; [done| |done]. constructor; [lia|done].
  - destruct IH as (o' & Ho & E). exists o'. split; [by right|done].
Qed.

Lemma scan_none ins outs :
  (forall i o, i ∈ ins -> o ∈ outs -> CmpInOut ig i o <> 0) -> isSome (scan ig ins outs) = true.
Proof.
  revert outs. induction ins as [|i ins IH]; intros outs H; [done|]. cbn.
  pose proof (NoRedundant_spec i outs) as Hn. destruct (NoRedundant ig i outs) as [outs'|].
  - destruct Hn as (P & -> & _). apply IH. intros i' o Hi Ho. apply H; [by right|]. apply elem_of_app. by right.
  - destruct Hn as (o & Ho & E). exfalso. by apply (H i o); [left| |].
Qed.

Lemma scan_some ins outs :
  Forall oki ins -> Forall oko outs -> ascending (Input_cmp ig) ins -> ascending (Output_cmp ig) outs ->
  isSome (scan ig ins outs) = true -> forall i o, i ∈ ins -> o ∈ outs -> CmpInOut ig i o <> 0.
Proof.
  destruct Hcut as [M1 M2]. revert outs. induction ins as [|i0 ins IH]; intros outs Hi Ho Si So Hs i o Hin Hout;
    [by apply not_elem_of_nil in Hin|].
  cbn in Hs. pose proof (NoRedundant_spec i0 outs) as Hn. destruct (NoRedundant ig i0 outs) as [outs'|]; [|done].
  destruct Hn as (P & -> & HP & Hr). apply Forall_cons in Hi as [Hi0 Hi]. apply StronglySorted_inv in Si as [Si Hle].
  apply Forall_app in Ho as [HoP Ho]. apply StronglySorted_app in So as (_ & _ & So).
  apply elem_of_app in Hout as [Hout|Hout].
  - pose proof (proj1 (Forall_forall _ _) HP o Hout) as Hpos. cbn in Hpos. apply elem_of_cons in Hin as [->|Hin]; [lia|].
    apply (M1 i0 i o); [done|by eapply Forall_forall in Hi|by eapply Forall_forall in HoP| |done].
    by eapply Forall_forall in Hle.
  - apply elem_of_cons in Hin as [->|Hin]; [|by apply (IH outs')].
    destruct outs' as [|o1 outs']; [by apply not_elem_of_nil in Hout|].
    apply elem_of_cons in Hout as [->|Hout]; [lia|]. apply StronglySorted_inv in So as [_ Hle1]. apply Forall_cons in Ho as [Ho1 Ho].
    apply (M2 i0 o1 o); [done|done|by eapply Forall_forall in Ho| |done]. by eapply Forall_forall in Hle1.
Qed.
End redundancy.

Lemma sel_list_single {B} pos (l : list B) : sel_list 0 1 pos l = l.
Proof. revert pos. induction l as [|x l IH]; intros pos; [done|]. cbn [sel_list]. unfold mine. rewrite Z.mod_1_r. cbn. by rewrite IH. Qed.

Lemma pairs_snd {A} prev (l : list A) : (pairs prev l).*2 = l.
Proof. revert prev. induction l as [|x l IH]; intros prev; [done|]. cbn. by rewrite IH. Qed.

(** ** Heights *)
Section heights.
Context (r : Rules) (p : Params).

Definition in_range (h : HeightRange) (x : Z) : Prop := m_Min h <= x <= m_Max h.

Lemma IsEmpty_range h : HR.IsEmpty h = false <-> exists x, in_range h x.
Proof. unfold HR.IsEmpty, in_range. rewrite Z.ltb_ge. split; [exists (m_Min h); lia|intros [x ?]; lia]. Qed.

Lemma Intersect_range h h' x : in_range (HR.Intersect h h') x <-> in_range h x /\ in_range h' x.
Proof. unfold HR.Intersect, in_range. cbn [m_Min m_Max]. lia. Qed.

(** Ranges that are not empty are determined by their heights. *)
Lemma range_ext h h' : (exists x, in_range h x) -> (forall x, in_range h x <-> in_range h' x) -> h = h'.
Proof.
  destruct h as [a b], h' as [a' b']. unfold in_range. cbn [m_Min m_Max]. intros [x Hx] E.
  pose proof (proj1 (E a)). pose proof (proj1 (E b)). pose proof (proj2 (E a')). pose proof (proj2 (E b')). f_equal; lia.
Qed.

(** What is left of [h] for elements with the height ranges [l]: in a block the
    range is fixed. *)
Definition left_range (h : HeightRange) (l : list HeightRange) (h' : HeightRange) : Prop :=
  if m_bBlockMode p then h' = h /\ Forall (fun y => HR.IsEmpty (HR.Intersect h y) = false) l
  else (exists x, in_range h' x) /\ forall x, in_range h' x <-> in_range h x /\ Forall (fun y => in_range y x) l.

Lemma left_range_nonempty h l h' : (exists x, in_range h x) -> left_range h l h' -> exists x, in_range h' x.
Proof. unfold left_range. destruct (m_bBlockMode p); [by intros ? [-> _]|by intros _ [? _]]. Qed.

Lemma left_range_unique h l h1 h2 : left_range h l h1 -> left_range h l h2 -> h1 = h2.
Proof.
  unfold left_range. destruct (m_bBlockMode p); [by intros [-> _] [-> _]|]. intros [N1 H1] [N2 H2].
  apply range_ext; [done|]. intros x. by rewrite H1, H2.
Qed.

Lemma hfold_range h l : (exists x, in_range h x) ->
  match hfold p h l with
  | Some h' => left_range h l h'
  | None => ~ exists h', left_range h l h'
  end.
Proof.
  revert h. induction l as [|y l IH]; intros h Hh; cbn [hfold].
  - unfold left_range. destruct (m_bBlockMode p); [by split|]. split; [done|]. intros x. split; [by split|by intros [? _]].
  - unfold HandleElementHeight. destruct (HR.IsEmpty (HR.Intersect h y)) eqn:Ee.
    + unfold left_range. destruct (m_bBlockMode p).
      * intros (h' & _ & H). apply Forall_cons in H as [H _]. by rewrite Ee in H.
      * intros (h' & [x Hx] & H). apply H in Hx as [Hx Hl]. apply Forall_cons in Hl as [Hy _].
        apply (not_false_iff_true _) in Ee. apply Ee. apply IsEmpty_range. exists x. by apply Intersect_range.
    + pose proof Ee as Hne. apply IsEmpty_range in Hne. destruct (m_bBlockMode p) eqn:Em; cbn [negb].
      * specialize (IH h Hh). unfold left_range in *. rewrite Em in *. destruct (hfold p h l) as [h'|].
        -- destruct IH as [-> IH]. split; [done|]. by constructor.
        -- intros (h' & -> & H). apply IH. exists h. apply Forall_cons in H as [_ H]. by split.
      * specialize (IH (HR.Intersect h y) Hne). unfold left_range in *. rewrite Em in *.
        assert (forall x, (in_range (HR.Intersect h y) x /\ Forall (fun y => in_range y x) l)
          <-> (in_range h x /\ Forall (fun y => in_range y x) (y :: l))) as E.
        { intros x. rewrite Intersect_range, Forall_cons. tauto. }
        destruct (hfold p (HR.Intersect h y) l) as [h'|].
        -- destruct IH as [I1 I2]. split; [done|]. intros x. by rewrite I2, E.
        -- intros (h' & N' & H'). apply IH. exists h'. split; [done|]. intros x. by rewrite H', E.
Qed.
End heights.

(** ** What is valid, declaratively *)
Section validity.
Context (sha256 : list Z -> list Z) (r : Rules) (ig : bool).
Context {G : Type} `{!Curve G, !CurveLaws G, !OracleDraws G, !EquationCheck G}.
Context (Confidential_IsValid : list Z -> G -> list Z -> G -> bool) (p : Params).

(** Standard elements with kernels nested less than [n] deep. *)
Record vectors_std (n : nat) (v : TxVectors) : Prop := {
  sd_in : Forall (std_in ig) (m_vInputs v);
  sd_out : Forall (std_out ig) (m_vOutputs v);
  sd_krn : Forall (fun k => kern_ok ig n (kern_key ig k)) (m_vKernels v)
}.

(** From the range [hc], which the fork cuts to [h]; [h'] is the range left. *)
Record valid_vectors (hc h h' : HeightRange) (v : TxVectors) : Prop := {
  va_fork : ForkHeight r p hc = Some h;
  va_in : Forall (in_good (G := G)) (m_vInputs v);
  va_order : m_bVerifyOrder p = true ->
    vectors_sorted ig v /\ forall i o, i ∈ m_vInputs v -> o ∈ m_vOutputs v -> CmpInOut ig i o <> 0;
  va_out : Forall (fun o => isSome (out_check sha256 r Confidential_IsValid p (m_Min h) o) = true) (m_vOutputs v);
  va_krn : Forall (fun k => kern_valid (G := G) sha256 r ig true (Some (m_Min h)) None k = true) (m_vKernels v);
  va_heights : left_range p h (k_Height <$> m_vKernels v) h'
}.

Lemma std_in_pre n v : vectors_std n v -> Forall (fun i => el_ok ig (in_key ig i)) (m_vInputs v).
Proof.
  intros [H _ _]. eapply Forall_impl; [exact H|]. intros i [Hi _]. split; [done|]. cbn. by intros ->.
Qed.

Lemma std_out_pre n v : vectors_std n v -> Forall (fun o => out_ok ig (out_key ig o)) (m_vOutputs v).
Proof. intros [_ H _]. eapply Forall_impl; [exact H|]. by intros o [Ho _]. Qed.

Lemma sorted_pairs n v :
  vectors_std n v ->
  (Forall (ordered (Input_cmp ig)) (pairs None (m_vInputs v)) /\
   Forall (ordered (Output_cmp ig)) (pairs None (m_vOutputs v)) /\
   Forall (ordered (TxKernel_cmp ig)) (pairs None (m_vKernels v))) <-> vectors_sorted ig v.
Proof.
  intros Hs. rewrite (pairs_ordered _ _ _ (input_pre ig) (std_in_pre n v Hs)),
    (pairs_ordered _ _ _ (output_pre ig) (std_out_pre n v Hs)), (pairs_ordered _ _ _ (kernel_pre ig n) (sd_krn _ _ Hs)).
  split; [by intros (? & ? & ?)|by intros []].
Qed.

(** The elements a single verifier has to accept. *)
Lemma elements_good_all n hc h v :
  vectors_std n v -> ForkHeight r p hc = Some h -> (exists x, in_range h x) ->
  elements_good sha256 r ig (G := G) Confidential_IsValid p h
    (pairs None (m_vInputs v)) (pairs None (m_vOutputs v)) (pairs None (m_vKernels v)) (m_vOutputs v)
  <-> exists h', valid_vectors hc h h' v.
Proof.
  intros Hs Hf Hh. unfold elements_good, inputs_good, outputs_good, kernels_good. rewrite !pairs_snd.
  pose proof (sorted_pairs n v Hs) as Hsort. pose proof (hfold_range p h (k_Height <$> m_vKernels v) Hh) as Hr.
  split.
  - intros ((Hi & Ho) & (Ho2 & Hout) & (Ho3 & Hk & Hhf)).
    destruct (hfold p h (k_Height <$> m_vKernels v)) as [h'|]; [|done]. exists h'. split; try done.
    intros E. destruct (Ho E) as [S1 Hscan]. specialize (Ho2 E). specialize (Ho3 E).
    assert (vectors_sorted ig v) as Sv by (apply Hsort; done). split; [done|].
    apply (scan_some ig _ _ (cut_mode_std ig)); [apply Hs|apply Hs|apply Sv|apply Sv|done].
  - intros (h' & [_ V2 V3 V4 V5 V6]).
    assert (m_bVerifyOrder p = true -> vectors_sorted ig v) as Sv by (intros E; by destruct (V3 E)).
    split_and!; try done.
    + intros E. split; [by apply Hsort, Sv|]. apply scan_none. by apply V3.
    + intros E. by apply Hsort, Sv.
    + intros E. by apply Hsort, Sv.
    + destruct (hfold _ _ _); [done|]. exfalso. apply Hr. by exists h'.
Qed.
End validity.

(** ** Claims on validation *)
Section claims.
Context (sha256 : list Z -> list Z) (r : Rules) (ig : bool) (abort : nat -> bool).
Context {G : Type} `{!Curve G, !CurveLaws G, !OracleDraws G}.
Context (Confidential_IsValid : list Z -> G -> list Z -> G -> bool) (p : Params).

(** With one verifier all elements are its own. *)
Lemma single_verifier c offset v n :
  (forall n, abort n = false) -> m_nVerifiers p = 1 -> c_iVerifier c = 0 ->
  context_ok c -> vectors_typed v -> vectors_std ig n v ->
  match ValidateAndSummarize sha256 r ig abort Confidential_IsValid p c offset v with
  | Some c' =>
      exists h, valid_vectors sha256 r ig Confidential_IsValid p (c_Height c) h (c_Height c') v /\
        c_Sigma c' = g_add (c_Sigma c) (balance sha256 r Confidential_IsValid p (m_Min h)
          (m_vInputs v) (m_vOutputs v) (m_vKernels v) (offset_pt offset)) /\
        amount_plus (c_Fee c) (c_Fee c') (zsum (kern_fee <$> m_vKernels v)) /\
        amount_plus (c_Coinbase c) (c_Coinbase c')
          (zsum (out_coinbase sha256 r Confidential_IsValid p (m_Min h) <$> m_vOutputs v)) /\
        c_iVerifier c' = 0
  | None => ~ exists h h', valid_vectors sha256 r ig Confidential_IsValid p (c_Height c) h h' v
  end.
Proof.
  intros Hab HN Hj Hc Ht Hs.
  pose proof (ValidateAndSummarize_verifier sha256 r ig abort Confidential_IsValid p Hab ltac:(lia) c offset v ltac:(lia) Hc Ht) as H.
  assert (forall h, ForkHeight r p (c_Height c) = Some h -> exists x, in_range h x) as Hne.
  { intros h Hf. destruct (ForkHeight_side r p (c_Height c) h ltac:(apply Hc) ltac:(apply Hc) Hf) as [[Hle _] _].
    exists (m_Min h). unfold in_range. lia. }
  unfold my_in, my_out, my_krn, my_offset, mine in H. rewrite Hj, HN in H. rewrite !sel_list_single, !pairs_snd, Z.mod_1_r in H.
  cbn [Z.eqb] in H. destruct (ValidateAndSummarize _ _ _ _ _ _ _ _) as [c'|].
  - destruct H as (h & Hf & Hg & H1 & H2 & H3 & H4 & H5). exists h. split_and!; try done.
    apply (elements_good_all _ _ _ _ _ n (c_Height c)) in Hg as [h' V]; [|done|done|by apply Hne].
    pose proof (hfold_range p h (k_Height <$> m_vKernels v) (Hne _ Hf)) as Hr. rewrite H4 in Hr.
    by rewrite (left_range_unique _ _ _ _ _ Hr (va_heights _ _ _ _ _ _ _ _ _ V)).
  - intros (h & h' & V). pose proof (va_fork _ _ _ _ _ _ _ _ _ V) as Hf. rewrite Hf in H. apply H.
    apply (elements_good_all _ _ _ _ _ n (c_Height c)); [done|done|by apply Hne|]. by exists h'.
Qed.

(** C2: Which transactions are valid. [Transaction::IsValid], from a fresh context
    with the heights [hc] and one verifier, accepts exactly when the elements
    are sorted and none of the outputs is spent by an input, every commitment,
    range proof and kernel signature is valid, the kernels have a height of
    [hc] on one side of the fork in common, and the outputs less the inputs
    plus kernel excesses, offset and the total fee times [H] sum up to zero: no
    value is created. *)
Theorem transaction_valid hc t n :
  (forall n, abort n = false) -> m_nVerifiers p = 1 -> 0 <= m_Min hc -> m_Max hc < 2 ^ 64 ->
  vectors_typed (t_Vectors t) -> vectors_std ig n (t_Vectors t) ->
  let v := t_Vectors t in
  Transaction_IsValid sha256 r ig abort Confidential_IsValid p (mkContext g_zero AmountBig_zero AmountBig_zero hc 0) t = true
  <-> exists h h', valid_vectors sha256 r ig Confidential_IsValid p hc h h' v /\
        g_add (balance sha256 r Confidential_IsValid p (m_Min h) (m_vInputs v) (m_vOutputs v) (m_vKernels v)
                 (offset_pt (t_Offset t)))
              (g_mul (zsum (kern_fee <$> m_vKernels v) mod 2 ^ 128) H_raw) = g_zero.
Proof.
  intros Hab HN Hlo Hhi Ht Hs v. unfold Transaction_IsValid. set (c := mkContext _ _ _ _ _).
  assert (context_ok c) as Hc by (split; [apply zero16_ok|apply zero16_ok|done]).
  pose proof (single_verifier c (t_Offset t) (t_Vectors t) n Hab HN eq_refl Hc Ht Hs) as H.
  destruct (ValidateAndSummarize _ _ _ _ _ _ _ _) as [c'|]; cbn [c c_Height c_Sigma c_Fee] in H.
  - destruct H as (h & V & E1 & [E2 E3] & _). unfold IsValidTransaction. rewrite AmountBig_AddTo_spec, E1, E3, g_add_0_l by done.
    change (be_val AmountBig_zero) with (be_val (replicate 16 0)). rewrite be_val_zeros, Z.add_0_l, bool_decide_eq_true. split.
    + intros E. by exists h, (c_Height c').
    + intros (h1 & h1' & V1 & E). pose proof (va_fork _ _ _ _ _ _ _ _ _ V). pose proof (va_fork _ _ _ _ _ _ _ _ _ V1). by simplify_eq.
  - split; [done|]. intros (h & h' & V & _). exfalso. apply H. by exists h, h'.
Qed.

(** An output and an input that cut-through removes have one commitment. *)
Lemma cut_pair_pt hMin i o :
  std_in ig i -> std_out ig o -> CmpInOut ig i o = 0 -> isSome (out_check sha256 r Confidential_IsValid p hMin o) = true ->
  out_pt sha256 r Confidential_IsValid p hMin o = in_pt i.
Proof.
  intros Hi Ho E Hc. rewrite CmpInOut_std in E by done. cbv zeta in E.
  assert (e_Commitment (i_Element i) = e_Commitment (o_Element o)) as Ec.
  { destruct (Z.eqb_spec (Point_cmp (e_Commitment (i_Element i)) (e_Commitment (o_Element o))) 0) as [E0|]; [|done].
    apply (co_eq _ _ cmp_order_Point) in E0; [done|apply Hi|]. destruct Ho as [[[Ho _] _] _]. exact Ho. }
  unfold in_pt. rewrite Ec. revert Hc. unfold out_pt, out_check, Output_IsValid.
  destruct (Point_Import (e_Commitment (o_Element o))) as [pt|]; cbn [default];
    repeat case_match; intros; simplify_eq; try done.
Qed.

Lemma cut_pairs_balance hMin (R : list (Input * Output)) :
  Forall (std_in ig) (R.*1) -> Forall (std_out ig) (R.*2) -> Forall (fun q => CmpInOut ig q.1 q.2 = 0) R ->
  Forall (fun o => isSome (out_check sha256 r Confidential_IsValid p hMin o) = true) (R.*2) ->
  g_sum (out_pt sha256 r Confidential_IsValid p hMin <$> R.*2) = g_sum (in_pt <$> R.*1).
Proof.
  induction R as [|[i o] R IH]; [done|]. rewrite !fmap_cons, !Forall_cons. intros [Hi HI] [Ho HO] [E HE] [C HC].
  cbn [g_sum foldr fst snd] in *. rewrite (cut_pair_pt hMin i o) by done. f_equal. by apply IH.
Qed.

(** Cut-through does not change the balance. For standard elements with
    valid outputs, what [TxVectors::Full::Normalize] removes cancels: outputs
    less inputs plus kernels and offset are the same group element before and
    after, and the outputs that are left are still valid, whatever the order of
    the elements was. *)
Theorem normalize_keeps_balance hMin off v n :
  vectors_std ig n v ->
  Forall (fun o => isSome (out_check sha256 r Confidential_IsValid p hMin o) = true) (m_vOutputs v) ->
  let '(v', nDel) := Normalize ig v in
  balance sha256 r Confidential_IsValid p hMin (m_vInputs v') (m_vOutputs v') (m_vKernels v') off
    = balance sha256 r Confidential_IsValid p hMin (m_vInputs v) (m_vOutputs v) (m_vKernels v) off /\
  Forall (fun o => isSome (out_check sha256 r Confidential_IsValid p hMin o) = true) (m_vOutputs v').
Proof.
  intros [Si So _] Hv. unfold Normalize. destruct (NormalizeP ig _ _) as [[vi vo] nDel] eqn:En.
  destruct (NormalizeP_spec _ _ _ _ _ _ En) as (wi & wo & El & -> & ->).
  destruct (NormalizeP_loop_spec _ _ _ _ _ _ El) as (R & _ & HR & P1 & P2 & _). cbn [m_vInputs m_vOutputs m_vKernels].
  rewrite (std_sort_perm _ (m_vInputs v)) in P1. rewrite (std_sort_perm _ (m_vOutputs v)) in P2.
  rewrite P1 in Si. rewrite P2 in So, Hv. apply Forall_app in Si as [_ Si]. apply Forall_app in So as [_ So].
  apply Forall_app in Hv as [Hv HvR]. split; [|done]. unfold balance, NormalizeE.
  rewrite (g_sum_perm (in_pt <$> m_vInputs v) (in_pt <$> omap id wi ++ R.*1)) by (by rewrite P1).
  rewrite (g_sum_perm (_ <$> m_vOutputs v) (out_pt sha256 r Confidential_IsValid p hMin <$> omap id wo ++ R.*2)) by (by rewrite P2).
  rewrite (g_sum_perm (kern_exc r <$> std_sort _ _) (kern_exc r <$> m_vKernels v)) by (by rewrite std_sort_perm).
  rewrite !fmap_app, !g_sum_app, (cut_pairs_balance hMin R) by done. rewrite g_neg_add.
  set (a := g_neg (g_sum (in_pt <$> omap id wi))). set (b := g_sum (in_pt <$> R.*1)). set (o := g_sum (_ <$> omap id wo)).
  set (k := g_add _ off). rewrite <- !g_add_assoc. f_equal. rewrite (g_add_swap (g_neg b)). f_equal.
  by rewrite g_add_assoc, (g_add_comm (g_neg b)), g_add_neg, g_add_0_l.
Qed.
End claims.

(** ** A transaction

    One input, one output, the kernel [ex_signed] with fee 7 and an offset of 5,
    over the demonstration group. *)
Module DemoTx.
Import Ecc.Demo.
Definition demo_bulletproof (c : list Z) (_ : zn) (_ : list Z) (_ : zn) : bool := (length c =? 688)%nat.
Definition zero_proof : list Z := replicate 688 0.
Definition demo_signed_output (x : Z) (coinbase : bool) : Output :=
  mkOutput (mkElement (demo_point x) 0) coinbase false 0 zero_hash (Some zero_proof) None.

Definition demo_tx : Transaction :=
  mkTransaction (be_bytes 32 5)
    (mkVectors [demo_input (100 + 12345 + 5 + 7 * 1000003)] [demo_signed_output 100 false] [ex_signed]).

Lemma demo_signed_output_std x : std_out false (demo_signed_output x false).
Proof.
  split; [|by right]. split_and!; [by split; [apply demo_point_ok|]|apply zero_hash_ok| |done].
  intros c E. change (Some zero_proof = Some c) in E. injection E as <-. split; [apply bytes_ok_zeros|apply length_replicate].
Qed.

Lemma point_ok_Export (x : zn) : point_ok (Point_Export x).
Proof.
  unfold Point_Export. case_decide; [split; [apply zero_hash_ok|unfold byte_ok; cbn; lia]|].
  destruct (ge_get_ok x) as [H1 H2]. split; [done|]. unfold byte_ok. lia.
Qed.

Lemma ex_signed_key : kern_ok false 1 (kern_key false ex_signed).
Proof.
  unfold ex_signed, TxKernel_Sign. generalize (TxKernel_get_Hash (G := zn) demo_sha default_Rules false). intros hash.
  cbn [kern_key k_Element k_Signature k_CanEmbed k_pHashLock k_pRelativeLock k_vNested ex_kernel kern_ok].
  split_and!; try done.
  - split; [apply point_ok_Export|done].
  - unfold Sign, SignPartial. split; [apply point_ok_Export|]. split; [apply bytes_ok_be_bytes|apply length_be_bytes].
Qed.

Lemma demo_tx_std : vectors_std false 1 (t_Vectors demo_tx).
Proof.
  split; (constructor; [|constructor]); [split; [apply demo_point_ok|by right]|apply demo_signed_output_std|apply ex_signed_key].
Qed.

Lemma demo_tx_typed : vectors_typed (t_Vectors demo_tx).
Proof.
  split; (constructor; [|constructor]); [done|]. unfold ex_signed, TxKernel_Sign.
  generalize (TxKernel_get_Hash (G := zn) demo_sha default_Rules false). intros hash.
  cbn [fees_ok k_Fee k_vNested ex_kernel]. split; [unfold in_width; lia|done].
Qed.

Lemma demo_tx_valid :
  Transaction_IsValid demo_sha default_Rules false (fun _ => false) demo_bulletproof default_Params
    (mkContext g_zero AmountBig_zero AmountBig_zero (mkHR 100 MaxHeight) 0) demo_tx = true.
Proof. vm_compute. reflexivity. Qed.
End DemoTx.

Import Ecc.Demo DemoTx.
Lemma transaction_valid_witness :
  let v := t_Vectors demo_tx in
  exists h h', valid_vectors demo_sha default_Rules false demo_bulletproof default_Params (mkHR 100 MaxHeight) h h' v /\
    g_add (balance demo_sha default_Rules demo_bulletproof default_Params (m_Min h)
             (m_vInputs v) (m_vOutputs v) (m_vKernels v) (offset_pt (t_Offset demo_tx)))
          (g_mul (zsum (kern_fee <$> m_vKernels v) mod 2 ^ 128) H_raw) = g_zero.
Proof.
  apply (transaction_valid demo_sha default_Rules false (fun _ => false) demo_bulletproof default_Params
    (mkHR 100 MaxHeight) demo_tx 1).
  - intros n. reflexivity.
  - reflexivity.
  - cbn. lia.
  - reflexivity.
  - apply demo_tx_typed.
  - apply demo_tx_std.
  - apply demo_tx_valid.
Defined.

(** An input that spends one of the outputs. *)
Definition demo_uncut : TxVectors :=
  mkVectors [demo_input 300; demo_input 100] [demo_signed_output 200 false; demo_signed_output 100 false] [ex_signed].

Lemma normalize_keeps_balance_witness :
  let '(v', nDel) := Normalize false demo_uncut in
  balance demo_sha default_Rules demo_bulletproof default_Params 100 (m_vInputs v') (m_vOutputs v') (m_vKernels v') g_zero
    = balance demo_sha default_Rules demo_bulletproof default_Params 100
        (m_vInputs demo_uncut) (m_vOutputs demo_uncut) (m_vKernels demo_uncut) g_zero /\
  Forall (fun o => isSome (out_check demo_sha default_Rules demo_bulletproof default_Params 100 o) = true) (m_vOutputs v').
Proof.
  apply (normalize_keeps_balance demo_sha default_Rules false demo_bulletproof default_Params 100 g_zero demo_uncut 1).
  - split; repeat (constructor; [first [split; [apply demo_point_ok|by right]|apply demo_signed_output_std|apply ex_signed_key]|]); constructor.
  - repeat (constructor; [vm_compute; reflexivity|]). constructor.
Defined.
