(* ===== verification/Parallel.v ===== *)
(** Validation by several verifiers: [NodeProcessor::ValidateAndSummarize],
    [NodeProcessor::VerifyBlock] and the part of [MultiblockContext] they use, of
    [node/processor.cpp].

    Every task of [PushTasks] reads the height range of the shared context,
    validates its share of the elements in a context of its own, and then, with
    the mutex locked, merges what it has into the shared context or sets the
    failure flag, which is also the abort flag of the other tasks.  A state
    holds the shared context, the flag and how far each task is; a step is one
    task starting (it reads the range) or finishing (the mutex section).  Between
    the two a task reads the flag any number of times: since the flag is only
    ever set, a reading that gave [true] means that it is set when the task
    finishes.

    A verifier thread of the node has a [BatchContext] ([Node::Processor::TaskProcessor::Thread]): the equations of
    signatures and range proofs that a task meets are added to it, and decided together by [Flush] when the task
    has found nothing else wrong; [Reset] leaves nothing of them to the next task of the thread.  (The processor
    without threads, which has no batch, is not modelled.)  [sh_Fooled] is not in the code: it records whether a task met equations that do
    not all hold although they cancel each other when each is taken times its multiplier ([cancels]). *)

From stdpp Require Import sorting relations.
From S2P Require Import Prelude UintBig EccData Difficulty Merkle UtxoTree Rules SystemState TxBase Ecc Kernel Validation.

Section parallel.
Context (sha256 : list Z -> list Z) (r : Rules) (ig : bool).
Context {G : Type} `{!Curve G, !OracleDraws G}.
Context (Confidential : list Z -> G -> list Z -> G -> option (list G)).

(** [Confidential]: the equations of a bulletproof, [None] if it is rejected before. *)
Definition Confidential_check {chk : EquationCheck G} (c : list Z) (comm : G) (oracle : list Z) (hGen : G) : bool :=
  match Confidential c comm oracle hGen with Some l => forallb check_eq l | None => false end.

(** *** The equations that are met, in their order *)
Definition Signature_equations (s : Signature) (msg : list Z) (pk : G) : list G :=
  match Point_Import (m_NoncePub s) with Some pubNonce => [Signature_equation s msg pubNonce pk] | None => [] end.

Fixpoint Kernel_equations (k : TxKernel) : list G :=
  mjoin (Kernel_equations <$> k_vNested k) ++
  match Point_ImportNnz (e_Commitment (k_Element k)) with
  | Some pt => Signature_equations (k_Signature k) (kern_id sha256 k) (g_add (g_neg (g_sum (kern_exc r <$> k_vNested k))) pt)
  | None => []
  end.

Definition Public_equations (p : PublicProof) (comm : G) (o : list Z) (hGen : G) : list G :=
  if p_Value p <? s_MinimumValue then []
  else Signature_equations (p_Signature p) (Public_get_Msg sha256 p o) (get_PtMinusVal comm (p_Value p) hGen).

Definition Output_equations (o : Output) (hScheme : Z) : list G :=
  match Point_Import (e_Commitment (o_Element o)) with
  | None => []
  | Some comm =>
      let hGen := SwitchCommitment (o_AssetID o) in
      let oracle := Output_Prepare r o hScheme in
      match o_pConfidential o, o_pPublic o with
      | Some c, None => if o_Coinbase o then [] else default [] (Confidential c comm oracle hGen)
      | None, Some p => if negb (AllowPublicUtxos r || o_Coinbase o) then [] else Public_equations p comm oracle hGen
      | _, _ => []
      end
  end.

(** Some of the equations do not hold, but their sum, each times the multiplier it gets, is zero. *)
Fixpoint weighted (rnd m : Z) (l : list G) : list G :=
  match l with
  | [] => []
  | E :: l =>
      let m := if m =? 0 then rnd else draw_scalar (Write_big (Scalar_Export m)) in
      g_mul m E :: weighted rnd m l
  end.

Definition all_hold (l : list G) : bool := forallb (fun E => bool_decide (E = g_zero)) l.

Definition cancels (pBc : BatchContext G) (rnd : Z) (l : list G) : bool :=
  negb (all_hold l) && bool_decide (g_sum (weighted rnd (bc_Multiplier pBc) l) = g_zero).

Context (p : Params) (offset : list Z) (v : TxVectors).

(** Those of the share of verifier [j] for the heights [h]. *)
Definition Task_equations (h : HeightRange) (j : Z) : list G :=
  match ForkHeight r p h with
  | None => []
  | Some h =>
      mjoin ((fun o => Output_equations o (m_Min h)) <$> (my_out p j v).*2) ++ mjoin (Kernel_equations <$> (my_krn p j v).*2)
  end.

(** A task: not started, started with the range it read, finished. *)
Inductive TaskState := Pending | Running (h : HeightRange) | Finished.

Record MyShared := mkShared {
  sh_Ctx : Context_t G;
  sh_bFail : bool;
  sh_Tasks : list TaskState;
  sh_Batches : list (BatchContext G);
  sh_Fooled : bool
}.

(** [MyShared::Exec]: the context of the task, and its result. *)
Definition Exec_local {chk : EquationCheck G} (abort : nat -> bool) (h : HeightRange) (iThread : Z) : option (Context_t G) :=
  ValidateAndSummarize sha256 r ig abort Confidential_check p
    (mkContext g_zero AmountBig_zero AmountBig_zero h iThread) offset v.

(** The part of [Exec] before the mutex, in a thread with the batch [pBc]: the result and the batch.  What a
    task that fails has added before is anything ([other]); [rnd] are the random numbers. *)
Definition Exec_batch (abort : nat -> bool) (h : HeightRange) (iThread : Z) (pBc : BatchContext G) (other : list G) (rnd : Z)
    : option (Context_t G) * BatchContext G :=
  let res := Exec_local (chk := check_later) abort h iThread in
  let pBc := foldl (bc_Equation rnd) pBc (match res with Some _ => Task_equations h iThread | None => other end) in
  let '(res, pBc) := match res with
                     | Some x => let '(bValid, pBc) := bc_Flush pBc in (if bValid then Some x else None, pBc)
                     | None => (None, pBc)
                     end in
  (res, bc_Reset pBc).

(** The part of [Exec] with the mutex locked. *)
Definition Exec_locked (ctx : Context_t G) (bFail : bool) (res : option (Context_t G)) : Context_t G * bool :=
  match res with
  | Some x =>
      if negb bFail then
        match Merge p ctx x with
        | Some ctx => (ctx, bFail)
        | None => (ctx, true)
        end
      else (ctx, bFail)
  | None => (ctx, true)
  end.

(** Task [i] in thread [t]. *)
Inductive step : MyShared -> MyShared -> Prop :=
| step_start i s :
    sh_Tasks s !! i = Some Pending ->
    step s (mkShared (sh_Ctx s) (sh_bFail s) (<[i := Running (c_Height (sh_Ctx s))]> (sh_Tasks s)) (sh_Batches s) (sh_Fooled s))
| step_finish i t h abort pBc other rnd s :
    sh_Tasks s !! i = Some (Running h) -> sh_Batches s !! t = Some pBc ->
    ((exists n, abort n = true) -> sh_bFail s = true) ->
    step s (let '(res, pBc') := Exec_batch abort h (Z.of_nat i) pBc other rnd in
            let '(ctx, bFail) := Exec_locked (sh_Ctx s) (sh_bFail s) res in
            mkShared ctx bFail (<[i := Finished]> (sh_Tasks s)) (<[t := pBc']> (sh_Batches s))
              (sh_Fooled s || cancels pBc rnd (Task_equations h (Z.of_nat i)))).

(** [PushTasks], with [nThreads] verifiers that have the given batches. *)
Definition PushTasks (ctx : Context_t G) (nThreads : nat) (batches : list (BatchContext G)) : MyShared :=
  mkShared ctx false (replicate nThreads Pending) batches false.

(** [Flush] waits for all tasks, and then flushes what is left in the batches of the threads. *)
Definition flushed (s : MyShared) : Prop := Forall (fun t => t = Finished) (sh_Tasks s).
Definition Flush (s : MyShared) : bool := negb (sh_bFail s) && forallb (fun bc => (bc_Flush bc).1) (sh_Batches s).

(** [VerifyBlock] with [nThreads] verifiers ([m_nVerifiers p] is their number): the result, and whether a batch was fooled. *)
Inductive VerifyBlock (nThreads : nat) (batches : list (BatchContext G)) (hr : HeightRange) : bool -> bool -> Prop :=
| VerifyBlock_range :
    (m_Min hr <? HeightGenesis) || HR.IsEmpty hr = true -> VerifyBlock nThreads batches hr false false
| VerifyBlock_fail s :
    (m_Min hr <? HeightGenesis) || HR.IsEmpty hr = false ->
    rtc step (PushTasks (mkContext g_zero AmountBig_zero AmountBig_zero hr 0) nThreads batches) s -> flushed s ->
    Flush s = false -> VerifyBlock nThreads batches hr false (sh_Fooled s)
| VerifyBlock_done s b :
    (m_Min hr <? HeightGenesis) || HR.IsEmpty hr = false ->
    rtc step (PushTasks (mkContext g_zero AmountBig_zero AmountBig_zero hr 0) nThreads batches) s -> flushed s ->
    Flush s = true -> IsValidBlock r p (sh_Ctx s) = Some b -> VerifyBlock nThreads batches hr b (sh_Fooled s).
End parallel.

Arguments MyShared G : clear implicits.

(** * Facts *)

Definition with_verifiers (p : Params) (n : Z) : Params :=
  mkParams (m_bBlockMode p) (m_bVerifyOrder p) (m_bAllowUnsignedOutputs p) n.

(** ** What is on one side of the fork *)
Section side.
Context (sha256 : list Z -> list Z) (r : Rules).
Context {G : Type} `{!Curve G, !OracleDraws G, !EquationCheck G}.
Context (Confidential_IsValid : list Z -> G -> list Z -> G -> bool) (p : Params).

Definition same_side (h h' : HeightRange) : Prop := (m_Min h <? fork_height r 1) = (m_Min h' <? fork_height r 1).

Lemma out_check_side h h' o : same_side h h' ->
  out_check sha256 r Confidential_IsValid p (m_Min h) o = out_check sha256 r Confidential_IsValid p (m_Min h') o.
Proof.
  unfold same_side. intros E. unfold out_check, Output_IsValid, Output_Prepare. by rewrite !(Z.leb_antisym _ (fork_height r 1)), E.
Qed.

(** A range within one side is not cut. *)
Lemma ForkHeight_within h h' :
  one_side r h -> (exists x, in_range h' x) -> (forall x, in_range h' x -> in_range h x) ->
  ForkHeight r p h' = Some h' /\ one_side r h' /\ same_side h' h.
Proof.
  unfold one_side, in_range, ForkHeight, HR.IsEmpty, same_side. intros [Hle Hs] [x Hx] Hsub.
  pose proof (Hsub (m_Min h') ltac:(lia)). pose proof (Hsub (m_Max h') ltac:(lia)).
  rewrite (proj2 (Z.ltb_ge _ _)) by lia.
  destruct (Z.ltb_spec (m_Min h') (fork_height r 1)), (Z.leb_spec (fork_height r 1) (m_Max h')), (Z.ltb_spec (m_Min h) (fork_height r 1));
    cbn [andb]; split_and!; lia || done.
Qed.
End side.

(** ** All verifiers together *)
Section together.
Context (sha256 : list Z -> list Z) (r : Rules) (ig : bool).
Context {G : Type} `{!Curve G, !CurveLaws G, !OracleDraws G, !EquationCheck G}.
Context (Confidential_IsValid : list Z -> G -> list Z -> G -> bool) (p : Params) (v : TxVectors).
Abbreviation N := (m_nVerifiers p).
Context (HN : 0 < N).

(** What verifier [j] checks, heights apart. *)
Definition share_good (h : HeightRange) (j : Z) : Prop :=
  inputs_good ig (G := G) p (my_in p j v) (m_vOutputs v) /\
  outputs_good sha256 r ig Confidential_IsValid p (m_Min h) (my_out p j v) /\
  (m_bVerifyOrder p = true -> Forall (ordered (TxKernel_cmp ig)) (my_krn p j v)) /\
  Forall (fun k => kern_valid (G := G) sha256 r ig true (Some (m_Min h)) None k = true) (my_krn p j v).*2.

Definition share_heights (j : Z) : list HeightRange := k_Height <$> (my_krn p j v).*2.

Lemma elements_good_share h j :
  elements_good sha256 r ig (G := G) Confidential_IsValid p h (my_in p j v) (my_out p j v) (my_krn p j v) (m_vOutputs v)
  <-> share_good h j /\ isSome (hfold p h (share_heights j)) = true.
Proof. unfold elements_good, share_good, kernels_good. tauto. Qed.

Lemma share_good_side h h' j : same_side r h h' -> share_good h j -> share_good h' j.
Proof.
  intros Hs (H1 & (H2 & H3) & H4 & H5). split_and!; try done.
  - split; [done|]. eapply Forall_impl; [exact H3|]. intros o Ho. cbn in *. by rewrite <- (out_check_side _ _ _ _ h h').
  - eapply Forall_impl; [exact H5|]. intros k Hk. cbn in *. by rewrite <- (kern_valid_side _ _ _ _ (m_Min h) (m_Min h')).
Qed.

Lemma sel_list_Forall_snd {A} (P : A -> Prop) pos prev (l : list A) :
  (forall j, 0 <= j < N -> Forall P (sel_list j N pos (pairs prev l)).*2) <-> Forall P l.
Proof.
  assert (Forall P l <-> Forall (P ∘ snd) (pairs prev l)) as -> by (by rewrite <- Forall_fmap, pairs_snd).
  rewrite <- (sel_list_Forall _ N pos) by done. split; intros H j Hj; apply Forall_fmap; by apply H.
Qed.

Lemma sel_list_sublist {B} j pos (l : list B) : sublist (sel_list j N pos l) l.
Proof.
  revert pos. induction l as [|x l IH]; intros pos; [constructor|]. cbn [sel_list].
  destruct (mine j N pos); [by apply sublist_skip|by apply sublist_cons].
Qed.

Lemma sel_list_elem {A} pos prev (l : list A) x :
  x ∈ l -> exists j, 0 <= j < N /\ x ∈ (sel_list j N pos (pairs prev l)).*2.
Proof.
  revert pos prev. induction l as [|y l IH]; intros pos prev Hx; [by apply not_elem_of_nil in Hx|].
  apply elem_of_cons in Hx as [->|Hx].
  - destruct (mine_exists N pos HN) as (j & Hj & Hm). exists j. split; [done|]. cbn [pairs sel_list]. rewrite Hm. by left.
  - destruct (IH (S pos) (Some y) Hx) as (j & Hj & Hin). exists j. split; [done|]. cbn [pairs sel_list].
    destruct (mine j N pos); [by right|done].
Qed.

(** The verifiers accept their shares exactly when the whole is valid. *)
Lemma share_good_all n h :
  vectors_std ig n v ->
  (forall j, 0 <= j < N -> share_good h j) <->
  Forall (in_good (G := G)) (m_vInputs v) /\
  (m_bVerifyOrder p = true ->
    vectors_sorted ig v /\ forall i o, i ∈ m_vInputs v -> o ∈ m_vOutputs v -> CmpInOut ig i o <> 0) /\
  Forall (fun o => isSome (out_check sha256 r Confidential_IsValid p (m_Min h) o) = true) (m_vOutputs v) /\
  Forall (fun k => kern_valid (G := G) sha256 r ig true (Some (m_Min h)) None k = true) (m_vKernels v).
Proof.
  intros Hs. pose proof (sorted_pairs ig n v Hs) as Hsort. split.
  - intros H. split_and!.
    + apply (sel_list_Forall_snd _ 0 None). intros j Hj. apply (H j Hj).
    + intros E. assert (vectors_sorted ig v) as Sv.
      { apply Hsort. split_and!.
        - apply (sel_list_Forall _ N 0); [done|]. intros j Hj. apply (H j Hj), E.
        - apply (sel_list_Forall _ N (length (m_vInputs v))); [done|]. intros j Hj. apply (H j Hj), E.
        - apply (sel_list_Forall _ N (length (m_vInputs v) + length (m_vOutputs v))); [done|]. intros j Hj. apply (H j Hj), E. }
      split; [done|]. intros i o Hi Ho. destruct (sel_list_elem 0 None _ i Hi) as (j & Hj & Hin).
      destruct (H j Hj) as ((_ & Hin') & _). destruct (Hin' E) as [_ Hscan].
      assert (sublist (my_in p j v).*2 (m_vInputs v)) as Hsub.
      { rewrite <- (pairs_snd None (m_vInputs v)). apply fmap_sublist, sel_list_sublist. }
      apply (scan_some ig _ _ (cut_mode_std ig) (my_in p j v).*2 (m_vOutputs v)); try done.
      * apply Forall_forall. intros x Hx. eapply Forall_forall; [apply Hs|]. by eapply elem_of_sublist.
      * apply Hs.
      * eapply StronglySorted_sublist; [exact Hsub|apply Sv].
      * apply Sv.
    + apply (sel_list_Forall_snd _ (length (m_vInputs v)) None). intros j Hj. apply (H j Hj).
    + apply (sel_list_Forall_snd _ (length (m_vInputs v) + length (m_vOutputs v)) None). intros j Hj. apply (H j Hj).
  - intros (H1 & H2 & H3 & H4) j Hj.
    pose proof (fun E => proj2 Hsort (proj1 (H2 E))) as Hord.
    split_and!.
    + split; [by apply sel_list_sub|]. intros E. split.
      * refine (proj2 (sel_list_Forall _ N 0 _ HN) _ j Hj). by apply Hord.
      * apply scan_none. intros i o Hi Ho. apply (H2 E); [|done]. rewrite <- (pairs_snd None (m_vInputs v)).
        eapply elem_of_sublist; [exact Hi|]. apply fmap_sublist, sel_list_sublist.
    + split; [|by apply sel_list_sub]. intros E. refine (proj2 (sel_list_Forall _ N (length (m_vInputs v)) _ HN) _ j Hj). by apply Hord.
    + intros E. refine (proj2 (sel_list_Forall _ N (length (m_vInputs v) + length (m_vOutputs v)) _ HN) _ j Hj). by apply Hord.
    + by apply sel_list_sub.
Qed.
End together.

Lemma amount_plus_merge a b y d e :
  amount_plus a b d -> amount_plus AmountBig_zero y e -> amount_plus a (AmountBig_add b y) (e + d).
Proof.
  intros [Hb Eb] [Hy Ey]. destruct (AmountBig_add_spec b y Hb (proj1 Hy)) as [H1 H2]. split; [done|].
  rewrite H2, Eb, Ey. change (be_val AmountBig_zero) with (be_val (replicate 16 0)).
  rewrite be_val_zeros, Z.add_0_l, <- Z.add_mod by lia. f_equal. lia.
Qed.

Lemma insert_done (l : list TaskState) i t k t0 :
  l !! i = Some t0 -> t0 <> Finished -> <[i := t]> l !! k = Some Finished <-> (k = i /\ t = Finished) \/ l !! k = Some Finished.
Proof.
  intros Hi Hn. pose proof (lookup_lt_Some _ _ _ Hi) as Hlt. destruct (decide (i = k)) as [->|Hne].
  - rewrite list_lookup_insert_eq by done. split; [intros [= ->]; by left|]. intros [[_ ->]|E]; [done|congruence].
  - rewrite list_lookup_insert_ne by done. split; [by right|]. by intros [[-> _]|?].
Qed.

(** ** What one task computes *)
Section task.
Context (sha256 : list Z -> list Z) (r : Rules) (ig : bool).
Context {G : Type} `{!Curve G, !CurveLaws G, !OracleDraws G, chk : !EquationCheck G}.
Context (Confidential : list Z -> G -> list Z -> G -> option (list G)) (p : Params) (offset : list Z) (v : TxVectors).
Abbreviation Confidential_IsValid := (Confidential_check Confidential).

Definition share_balance (h : HeightRange) (j : Z) : G :=
  balance sha256 r Confidential_IsValid p (m_Min h) (my_in p j v).*2 (my_out p j v).*2 (my_krn p j v).*2 (my_offset p j offset v).
Definition share_fee (j : Z) : Z := zsum (kern_fee <$> (my_krn p j v).*2).
Definition share_coinbase (h : HeightRange) (j : Z) : Z :=
  zsum (out_coinbase sha256 r Confidential_IsValid p (m_Min h) <$> (my_out p j v).*2).

(** The result of the task of verifier [j] for the heights [h]. *)
Definition task_result (h : HeightRange) (j : Z) (res : option (Context_t G)) : Prop :=
  match res with
  | Some x =>
      share_good sha256 r ig Confidential_IsValid p v h j /\ left_range p h (share_heights p v j) (c_Height x) /\
      c_Sigma x = share_balance h j /\
      amount_plus AmountBig_zero (c_Fee x) (share_fee j) /\ amount_plus AmountBig_zero (c_Coinbase x) (share_coinbase h j)
  | None => ~ (share_good sha256 r ig Confidential_IsValid p v h j /\ exists h', left_range p h (share_heights p v j) h')
  end.

Lemma Exec_local_result H h j abort :
  (forall n, abort n = false) -> 0 <= j < m_nVerifiers p -> m_nVerifiers p < 2 ^ 32 -> vectors_typed v ->
  0 <= m_Min H -> m_Max H < 2 ^ 64 -> ForkHeight r p H = Some h -> one_side r h ->
  task_result h j (Exec_local sha256 r ig Confidential p offset v abort H j).
Proof.
  intros Hab Hj HN Ht Hlo Hhi Hf [Hone _]. unfold Exec_local. set (c := mkContext _ _ _ _ _).
  assert (context_ok c) as Hcc by (split; [apply zero16_ok|apply zero16_ok|done]).
  pose proof (ValidateAndSummarize_verifier sha256 r ig abort Confidential_IsValid p Hab ltac:(lia) c offset v Hj Hcc Ht) as Hv.
  cbv zeta in Hv. cbn [c_iVerifier c_Height c_Sigma c_Fee c_Coinbase c] in Hv.
  pose proof (hfold_range p h (share_heights p v j) ltac:(exists (m_Min h); unfold in_range; lia)) as Hr.
  unfold task_result. destruct (ValidateAndSummarize _ _ _ _ _ _ _ _) as [x|].
  - destruct Hv as (h1 & Hf1 & Hg & H1 & H2 & H3 & H4 & _). rewrite Hf in Hf1. injection Hf1 as <-.
    apply elements_good_share in Hg as [Hg _]. unfold share_heights in Hr. rewrite H4 in Hr.
    split_and!; try done. by rewrite H1, g_add_0_l.
  - rewrite Hf in Hv. intros [Hg Hh]. apply Hv, elements_good_share. split; [done|].
    destruct (hfold _ _ _); [done|]. by destruct (Hr Hh).
Qed.
End task.

(** ** Equations that are decided later *)
Section deferred.
Context (sha256 : list Z -> list Z) (r : Rules) (ig : bool).
Context {G : Type} `{!Curve G, !CurveLaws G, !OracleDraws G}.
Context (Confidential : list Z -> G -> list Z -> G -> option (list G)) (p : Params) (offset : list Z) (v : TxVectors).

Lemma all_hold_app l k : all_hold (G := G) (l ++ k) = all_hold l && all_hold k.
Proof. apply forallb_app. Qed.

Lemma all_hold_join {A} (f : A -> list G) l : all_hold (mjoin (f <$> l)) = forallb (fun x => all_hold (f x)) l.
Proof.
  induction l as [|x l IH]; [done|]. rewrite fmap_cons.
  change (all_hold (f x ++ mjoin (f <$> l)) = all_hold (f x) && forallb (fun x => all_hold (f x)) l). by rewrite all_hold_app, IH.
Qed.

Lemma Signature_defer s msg pk :
  Signature_IsValid (EquationCheck0 := check_now) s msg pk
    = Signature_IsValid (EquationCheck0 := check_later) s msg pk && all_hold (G := G) (Signature_equations s msg pk).
Proof.
  unfold Signature_IsValid, Signature_equations, IsValidPartial. destruct (Point_Import (m_NoncePub s)); [|done].
  cbn. by rewrite andb_true_r.
Qed.

Lemma kern_valid_defer sch par k :
  kern_valid (EquationCheck0 := check_now) sha256 r ig true sch par k
    = kern_valid (EquationCheck0 := check_later) sha256 r ig true sch par k && all_hold (G := G) (Kernel_equations sha256 r k).
Proof.
  revert par. induction k as [k IH] using TxKernel_nested_ind. intros par.
  assert (forall q, forallb (kern_valid (EquationCheck0 := check_now) sha256 r ig true sch q) (k_vNested k)
    = forallb (kern_valid (EquationCheck0 := check_later) sha256 r ig true sch q) (k_vNested k) &&
      all_hold (G := G) (mjoin (Kernel_equations sha256 r <$> k_vNested k))) as Hn.
  { intros q. rewrite all_hold_join. induction IH as [|x l Hx _ IHl]; [done|]. cbn [forallb]. rewrite Hx, IHl.
    destruct (kern_valid (EquationCheck0 := check_later) _ _ _ _ _ _ x), (all_hold (Kernel_equations sha256 r x)),
      (forallb (kern_valid (EquationCheck0 := check_later) _ _ _ _ _ _) l); done. }
  assert (kern_node (EquationCheck0 := check_now) sha256 r par k
    = kern_node (EquationCheck0 := check_later) sha256 r par k &&
      all_hold (G := G) match Point_ImportNnz (e_Commitment (k_Element k)) with
        | Some pt => Signature_equations (k_Signature k) (kern_id sha256 k) (g_add (g_neg (g_sum (kern_exc r <$> k_vNested k))) pt)
        | None => [] end) as Hk.
  { unfold kern_node. destruct (Point_ImportNnz _) as [pt|]; [|done]. rewrite Signature_defer.
    rewrite <- !andb_assoc. f_equal. apply andb_comm. }
  destruct k as [el sg kf kh ae ce hl rl nst]. cbn [kern_valid Kernel_equations]. cbn [k_vNested k_Element k_Height k_Signature] in *.
  rewrite all_hold_app, Hn, Hk. cbn [negb orb]. destruct (kern_guard _ _ _ _); [|done]. cbn [andb].
  destruct (nested_sorted _ _ _); [|done]. cbn [andb]. destruct (forallb _ nst); [|done]. cbn [andb].
  destruct (all_hold (mjoin _)); [|by rewrite ?andb_false_r]. by cbn [andb].
Qed.

Lemma Output_defer h o :
  out_check (EquationCheck0 := check_now) sha256 r (Confidential_check Confidential (chk := check_now)) p h o
    = if all_hold (G := G) (Output_equations sha256 r Confidential o h)
      then out_check (EquationCheck0 := check_later) sha256 r (Confidential_check Confidential (chk := check_later)) p h o else None.
Proof.
  unfold out_check, Output_IsValid, Output_equations, Public_IsValid, Public_equations, Confidential_check.
  destruct (Point_Import _) as [comm|]; [|by repeat case_match].
  destruct (o_pConfidential o) as [c|], (o_pPublic o) as [q|]; cbn [isSome orb]; try done.
  - destruct (o_Coinbase o); [done|]. destruct (Confidential _ _ _ _) as [l|]; [|done]. cbn [default].
    assert (forallb (check_eq (EquationCheck := check_later)) l = true) as -> by (clear; by induction l).
    by destruct (all_hold l) eqn:E; unfold all_hold in E; cbn in *; rewrite ?E.
  - destruct (negb _); [done|]. destruct (_ <? _); [done|]. cbv zeta. rewrite Signature_defer.
    destruct (all_hold _); [by rewrite andb_true_r|by rewrite andb_false_r].
Qed.

Lemma all_hold_Forall {A} (f : A -> list G) l : all_hold (mjoin (f <$> l)) = true <-> Forall (fun x => all_hold (f x) = true) l.
Proof.
  rewrite all_hold_join. induction l as [|x l IH]; [done|]. cbn [forallb]. by rewrite andb_true_iff, Forall_cons, IH.
Qed.

(** A share is good exactly when it is up to the equations and all of these hold. *)
Lemma share_good_defer H h j :
  ForkHeight r p H = Some h ->
  share_good (EquationCheck0 := check_now) sha256 r ig (Confidential_check Confidential (chk := check_now)) p v h j <->
  share_good (EquationCheck0 := check_later) sha256 r ig (Confidential_check Confidential (chk := check_later)) p v h j /\
  all_hold (Task_equations sha256 r Confidential p v H j) = true.
Proof.
  intros Hf. unfold share_good, outputs_good, Task_equations. rewrite Hf, all_hold_app, andb_true_iff, !all_hold_Forall.
  set (outs := (my_out p j v).*2). set (krns := (my_krn p j v).*2).
  assert (Forall (fun o => isSome (out_check (EquationCheck0 := check_now) sha256 r (Confidential_check Confidential (chk := check_now)) p (m_Min h) o) = true) outs
    <-> Forall (fun o => isSome (out_check (EquationCheck0 := check_later) sha256 r (Confidential_check Confidential (chk := check_later)) p (m_Min h) o) = true) outs
      /\ Forall (fun o => all_hold (Output_equations sha256 r Confidential o (m_Min h)) = true) outs) as ->.
  { rewrite <- Forall_and. apply Forall_iff. intros o. rewrite Output_defer. destruct (all_hold _); cbn; intuition congruence. }
  assert (Forall (fun k => kern_valid (EquationCheck0 := check_now) sha256 r ig true (Some (m_Min h)) None k = true) krns
    <-> Forall (fun k => kern_valid (EquationCheck0 := check_later) sha256 r ig true (Some (m_Min h)) None k = true) krns
      /\ Forall (fun k => all_hold (G := G) (Kernel_equations sha256 r k) = true) krns) as ->.
  { rewrite <- Forall_and. apply Forall_iff. intros k. by rewrite kern_valid_defer, andb_true_iff. }
  tauto.
Qed.

Lemma out_sums_defer H h j :
  ForkHeight r p H = Some h -> all_hold (Task_equations sha256 r Confidential p v H j) = true ->
  share_balance (chk := check_later) sha256 r Confidential p offset v h j = share_balance (chk := check_now) sha256 r Confidential p offset v h j /\
  share_coinbase (chk := check_later) sha256 r Confidential p v h j = share_coinbase (chk := check_now) sha256 r Confidential p v h j.
Proof.
  intros Hf. unfold Task_equations. rewrite Hf, all_hold_app, andb_true_iff, all_hold_Forall. intros [Ho _].
  assert (Forall (fun o => out_check (EquationCheck0 := check_later) sha256 r (Confidential_check Confidential (chk := check_later)) p (m_Min h) o
      = out_check (EquationCheck0 := check_now) sha256 r (Confidential_check Confidential (chk := check_now)) p (m_Min h) o) (my_out p j v).*2) as He.
  { eapply Forall_impl; [exact Ho|]. intros o E. cbn in E. by rewrite (Output_defer (m_Min h) o), E. }
  unfold share_balance, share_coinbase, balance. split.
  - do 3 f_equal. apply Forall_fmap_ext_1. eapply Forall_impl; [exact He|]. intros o E. unfold out_pt. by rewrite E.
  - f_equal. apply Forall_fmap_ext_1. eapply Forall_impl; [exact He|]. intros o E. unfold out_coinbase. by rewrite E.
Qed.

(** *** Batches *)
Definition clean (bc : BatchContext G) : Prop := bc_bDirty bc = false.

Lemma batch_fold rnd l bc :
  let base := if bc_bDirty bc then bc_Sum bc else g_zero in
  let bc' := foldl (bc_Equation rnd) bc l in
  (if bc_bDirty bc' then bc_Sum bc' else g_zero) = g_add base (g_sum (weighted rnd (bc_Multiplier bc) l)).
Proof.
  cbv zeta. revert bc. induction l as [|E l IH]; intros bc; cbn [foldl weighted g_sum foldr]; [by rewrite g_add_0_r|].
  rewrite IH. unfold bc_Equation, bc_Add, EquationBegin at 1 2. cbn [bc_bDirty bc_Multiplier bc_Sum EquationBegin].
  set (m := if bc_Multiplier bc =? 0 then _ else _). unfold scalar_mul. rewrite g_mul_mod, Z.mul_1_l, <- g_add_assoc. by destruct (bc_bDirty bc).
Qed.

(** [Flush] decides the equations added to a clean batch. *)
Lemma Flush_batch rnd l bc :
  bc_bDirty bc = false ->
  (bc_Flush (foldl (bc_Equation rnd) bc l)).1 = bool_decide (g_sum (weighted rnd (bc_Multiplier bc) l) = g_zero).
Proof.
  intros Hd. pose proof (batch_fold rnd l bc) as E. cbv zeta in E. rewrite Hd, g_add_0_l in E. unfold bc_Flush.
  rewrite <- E. destruct (bc_bDirty (foldl _ _ _)); cbn [negb fst]; [done|]. symmetry. by apply bool_decide_eq_true.
Qed.

Lemma weighted_zero rnd m l : all_hold l = true -> g_sum (weighted rnd m l) = g_zero.
Proof.
  revert m. induction l as [|E l IH]; intros m; [done|]. unfold all_hold. cbn [forallb weighted g_sum foldr].
  rewrite andb_true_iff, bool_decide_eq_true. intros [-> Hl]. rewrite g_mul_zero, g_add_0_l. by apply IH.
Qed.

(** A task whose equations do not cancel has the same result with a clean batch as without one. *)
Lemma Exec_batch_result H h j abort pBc other rnd :
  (forall n, abort n = false) -> 0 <= j < m_nVerifiers p -> m_nVerifiers p < 2 ^ 32 -> vectors_typed v ->
  0 <= m_Min H -> m_Max H < 2 ^ 64 -> ForkHeight r p H = Some h -> one_side r h -> clean pBc ->
  if cancels pBc rnd (Task_equations sha256 r Confidential p v H j)
  then ~ share_good sha256 r ig (Confidential_check Confidential) p v h j
  else task_result sha256 r ig Confidential p offset v h j
         (Exec_batch sha256 r ig Confidential p offset v abort H j pBc other rnd).1.
Proof.
  intros Hab Hj HN Ht Hlo Hhi Hf Hone Hcl. pose proof (share_good_defer H h j Hf) as Hd.
  unfold cancels.
  pose proof (Exec_local_result (chk := check_later) sha256 r ig Confidential p offset v H h j abort Hab Hj HN Ht Hlo Hhi Hf Hone) as Hl.
  unfold Exec_batch. set (res := Exec_local (chk := check_later) _ _ _ _ _ _ _ _ _ _) in *.
  set (eqs := Task_equations _ _ _ _ _ _ _) in *. pose proof (Flush_batch rnd eqs pBc Hcl) as Hfl.
  destruct (all_hold eqs) eqn:Ea; cbn [negb andb].
  - destruct (out_sums_defer H h j Hf Ea) as [E1 E2]. destruct res as [x|]; unfold task_result in *.
    + destruct (bc_Flush _) as [b bc']. cbn [fst] in *. rewrite Hfl, (weighted_zero _ _ _ Ea), bool_decide_eq_true_2 by done.
      cbn [fst]. rewrite <- E1, <- E2. destruct Hl as (? & ? & ? & ? & ?). split_and!; try done. by apply Hd.
    + cbn [fst]. intros [Hg Hh]. apply Hl. split; [by apply Hd|done].
  - case_bool_decide as Ez; [by intros [_ ?]%Hd|].
    assert (task_result sha256 r ig Confidential p offset v h j None) as Hn by (intros [[_ ?]%Hd _]; congruence).
    destruct res as [x|]; [|done]. destruct (bc_Flush _) as [b bc']. cbn [fst] in *. by rewrite Hfl.
Qed.
End deferred.

(** ** Runs of the verifiers *)
Section run.
Context (sha256 : list Z -> list Z) (r : Rules) (ig : bool).
Context {G : Type} `{!Curve G, !CurveLaws G, !OracleDraws G}.
Context (Confidential : list Z -> G -> list Z -> G -> option (list G)) (p : Params) (offset : list Z) (v : TxVectors).
Abbreviation Confidential_IsValid := (Confidential_check Confidential).
Abbreviation stepping := (step sha256 r ig Confidential p offset v).
Context (c0 : Context_t G) (n K : nat) (h : HeightRange).
Context (HN : m_nVerifiers p = Z.of_nat K) (HK : (0 < K)%nat) (HK32 : Z.of_nat K < 2 ^ 32).
Context (Hc : context_ok c0) (Ht : vectors_typed v) (Hs : vectors_std ig n v).
Context (Hfork : ForkHeight r p (c_Height c0) = Some h).
Abbreviation good := (share_good sha256 r ig (G := G) Confidential_IsValid p v h).
Abbreviation heights := (share_heights p v).
Abbreviation whole := (exists h', valid_vectors sha256 r ig (G := G) Confidential_IsValid p (c_Height c0) h h' v).
Abbreviation my_balance := (share_balance sha256 r Confidential p offset v h).
Abbreviation my_fee := (share_fee p v).
Abbreviation my_coinbase := (share_coinbase sha256 r Confidential p v h).
Definition heights_of (D : list Z) : list HeightRange := concat (heights <$> D).

(** A range a task may have read while [D] have finished. *)
Record start_ok (D : list Z) (H h1 : HeightRange) : Prop := {
  so_lo : 0 <= m_Min H;
  so_hi : m_Max H < 2 ^ 64;
  so_fork : ForkHeight r p H = Some h1;
  so_one : one_side r h1;
  so_side : same_side r h1 h;
  so_sup x : in_range h x -> Forall (fun y => in_range y x) (heights_of D) -> in_range h1 x;
  so_sub x : in_range h1 x -> in_range h x;
  so_block : m_bBlockMode p = true -> h1 = h
}.

Lemma one_side_nonempty h1 : one_side r h1 -> exists x, in_range h1 x.
Proof. intros [H _]. exists (m_Min h1). unfold in_range. lia. Qed.

Lemma h_side : one_side r h /\ 0 <= m_Min h /\ m_Max h < 2 ^ 64.
Proof. destruct (ForkHeight_side r p (c_Height c0) h ltac:(apply Hc) ltac:(apply Hc) Hfork) as (? & ? & ? & _). done. Qed.

Lemma start_ok_mono D j H h1 : start_ok D H h1 -> start_ok (j :: D) H h1.
Proof.
  intros []. split; try done. intros x Hx Hl. apply so_sup0; [done|]. unfold heights_of in Hl. rewrite fmap_cons in Hl.
  cbn [concat] in Hl. by apply Forall_app in Hl as [_ ?].
Qed.

Lemma start_ok_init : start_ok [] (c_Height c0) h.
Proof. pose proof h_side as (? & ? & ?). split; try done; apply Hc. Qed.

Lemma out_pt_side h1 : same_side r h1 h -> forall o,
  out_pt sha256 r Confidential_IsValid p (m_Min h1) o = out_pt sha256 r Confidential_IsValid p (m_Min h) o /\
  out_coinbase sha256 r Confidential_IsValid p (m_Min h1) o = out_coinbase sha256 r Confidential_IsValid p (m_Min h) o.
Proof. intros E o. unfold out_pt, out_coinbase. by rewrite (out_check_side _ _ _ _ h1 h). Qed.

(** What a task that read [H] computes, in terms of [h]. *)
Lemma task_result_side D H h1 j res :
  start_ok D H h1 -> task_result sha256 r ig Confidential p offset v h1 j res ->
  match res with
  | Some x =>
      good j /\ left_range p h1 (heights j) (c_Height x) /\ c_Sigma x = my_balance j /\
      amount_plus AmountBig_zero (c_Fee x) (my_fee j) /\ amount_plus AmountBig_zero (c_Coinbase x) (my_coinbase j)
  | None => ~ (good j /\ exists h', left_range p h1 (heights j) h')
  end.
Proof.
  intros Hst. pose proof (so_side _ _ _ Hst) as Hside. unfold task_result. destruct res as [x|].
  - intros (H1 & H2 & H3 & H4 & H5). split_and!; try done.
    + by eapply share_good_side.
    + rewrite H3. unfold share_balance, balance. do 3 f_equal. apply list_fmap_ext. intros. by apply out_pt_side.
    + unfold share_coinbase. replace (out_coinbase _ _ _ _ (m_Min h) <$> _) with (out_coinbase sha256 r Confidential_IsValid p (m_Min h1) <$> (my_out p j v).*2); [done|].
      apply list_fmap_ext. intros. by apply out_pt_side.
  - intros Hn [Hg Hh]. apply Hn. split; [eapply share_good_side; [|exact Hg]; by symmetry|done].
Qed.

(** *** Heights *)
Definition heights_fit (l : list HeightRange) (h1 : HeightRange) : Prop :=
  if m_bBlockMode p then Forall (fun y => HR.IsEmpty (HR.Intersect h1 y) = false) l
  else exists x, in_range h1 x /\ Forall (fun y => in_range y x) l.

Lemma left_range_some h1 l : (exists x, in_range h1 x) -> heights_fit l h1 <-> exists h', left_range p h1 l h'.
Proof.
  unfold left_range, heights_fit. destruct (m_bBlockMode p).
  { intros _. split; [by exists h1|by intros (h' & _ & ?)]. }
  intros _. split.
  - intros [x Hx]. cut (exists h', forall x, in_range h' x <-> in_range h1 x /\ Forall (fun y => in_range y x) l).
    { intros [h' Hh']. exists h'. split; [exists x; by apply Hh'|done]. }
    clear. induction l as [|y l [h' IH]].
    + exists h1. intros x. split; [by split|by intros [? _]].
    + exists (HR.Intersect h' y). intros x. rewrite Intersect_range, IH. split.
      * intros [[? ?] ?]. split; [done|by constructor].
      * intros [? Hl]. apply Forall_cons in Hl as [? ?]. done.
  - intros (h' & [x Hx] & E). exists x. by apply E.
Qed.

Lemma heights_sub (P : HeightRange -> Prop) j : Forall P (k_Height <$> m_vKernels v) -> Forall P (heights j).
Proof. rewrite Forall_fmap. intros H. apply Forall_fmap. by apply sel_list_sub. Qed.

Lemma heights_all (P : HeightRange -> Prop) :
  (forall j, 0 <= j < m_nVerifiers p -> Forall P (heights j)) -> Forall P (k_Height <$> m_vKernels v).
Proof.
  intros H. rewrite Forall_fmap. apply (sel_list_Forall_snd p ltac:(lia) _ (length (m_vInputs v) + length (m_vOutputs v)) None).
  intros j Hj. exact (proj1 (Forall_fmap _ _ _) (H j Hj)).
Qed.

Lemma heights_of_Forall (P : HeightRange -> Prop) D : Forall P (heights_of D) <-> Forall (fun j => Forall P (heights j)) D.
Proof. unfold heights_of. by rewrite Forall_concat, Forall_fmap. Qed.

Definition ctx_range (D : list Z) (hc : HeightRange) : Prop :=
  match D with [] => hc = c_Height c0 | _ => left_range p h (heights_of D) hc end.

Lemma ctx_range_block D hc : m_bBlockMode p = true -> ctx_range D hc ->
  hc = h /\ Forall (fun y => HR.IsEmpty (HR.Intersect h y) = false) (heights_of D).
Proof.
  intros Hb. unfold ctx_range, left_range. rewrite Hb. destruct D; [|tauto]. intros ->. split; [|constructor].
  unfold ForkHeight in Hfork. rewrite Hb in Hfork. by repeat case_match; simplify_eq.
Qed.

Lemma h_sub x : in_range h x -> in_range (c_Height c0) x.
Proof.
  destruct (ForkHeight_side r p (c_Height c0) h ltac:(apply Hc) ltac:(apply Hc) Hfork) as (_ & _ & _ & E & Hle).
  unfold in_range. lia.
Qed.

Lemma ctx_range_tx D hc x : m_bBlockMode p = false -> ctx_range D hc ->
  in_range h x -> in_range hc x <-> Forall (fun y => in_range y x) (heights_of D).
Proof.
  intros Hb. unfold ctx_range, left_range. rewrite Hb. destruct D.
  - intros -> Hx. split; [constructor|]. intros _. by apply h_sub.
  - intros [_ E] Hx. rewrite E. tauto.
Qed.

Lemma merge_heights D j H h1 hc hx :
  ctx_range D hc -> start_ok D H h1 -> left_range p h1 (heights j) hx ->
  match HandleElementHeight p hc hx with
  | Some h' => left_range p h (heights_of (j :: D)) h'
  | None => ~ heights_fit (heights_of (j :: D)) h
  end.
Proof.
  intros Hctx Hst Hx. unfold HandleElementHeight. change (heights_of (j :: D)) with (heights j ++ heights_of D).
  pose proof (one_side_nonempty _ (proj1 h_side)) as Hne. unfold left_range, heights_fit in *. destruct (m_bBlockMode p) eqn:Hb; cbn [negb].
  - destruct (ctx_range_block D hc Hb Hctx) as [-> HD]. destruct Hx as [-> Hx]. rewrite (so_block _ _ _ Hst Hb) in *.
    assert (HR.IsEmpty (HR.Intersect h h) = false) as ->.
    { apply IsEmpty_range. destruct Hne as [x ?]. exists x. by apply Intersect_range. }
    split; [done|]. by apply Forall_app.
  - destruct Hx as [_ Hx].
    assert (forall x, in_range (HR.Intersect hc hx) x <-> in_range h x /\ Forall (fun y => in_range y x) (heights j ++ heights_of D)) as E.
    { intros x. rewrite Intersect_range, Hx, Forall_app. pose proof (so_sub _ _ _ Hst x). pose proof (so_sup _ _ _ Hst x).
      pose proof (ctx_range_tx D hc x Hb Hctx). tauto. }
    destruct (HR.IsEmpty (HR.Intersect hc hx)) eqn:Ee.
    + intros [x Hx']. apply E in Hx'. apply not_false_iff_true in Ee. apply Ee, IsEmpty_range. by exists x.
    + apply IsEmpty_range in Ee. done.
Qed.

Lemma left_start_ok D hc : D <> [] -> left_range p h (heights_of D) hc -> start_ok D hc hc.
Proof.
  intros _ Hl. pose proof h_side as (Hone & Hlo & Hhi). pose proof (one_side_nonempty _ Hone) as Hne.
  assert (forall x, in_range hc x -> in_range h x) as Hsub.
  { unfold left_range in Hl. destruct (m_bBlockMode p); [by destruct Hl as [-> _]|]. intros x Hx. by apply Hl in Hx as [? _]. }
  pose proof (left_range_nonempty _ _ _ _ Hne Hl) as Hne'.
  destruct (ForkHeight_within r p h hc Hone Hne' Hsub) as (F1 & F2 & F3).
  pose proof (Hsub (m_Min hc)) as Hmin. pose proof (Hsub (m_Max hc)) as Hmax.
  destruct Hne' as [x Hx]. unfold in_range in Hmin, Hmax, Hx. split; try done; [lia|lia| |].
  - intros y Hy Hf. unfold left_range in Hl. destruct (m_bBlockMode p); [by destruct Hl as [-> _]|]. by apply Hl.
  - intros Hb. unfold left_range in Hl. rewrite Hb in Hl. by destruct Hl.
Qed.

(** A valid whole makes every share good and leaves heights for it. *)
Lemma whole_good j : whole -> 0 <= j < Z.of_nat K -> good j.
Proof.
  intros (h' & V) Hj. apply (share_good_all sha256 r ig Confidential_IsValid p v ltac:(lia) n h Hs); [|lia]. by destruct V.
Qed.

Lemma whole_heights : whole -> heights_fit (k_Height <$> m_vKernels v) h.
Proof.
  intros (h' & V). apply left_range_some; [apply one_side_nonempty, h_side|]. exists h'. apply V.
Qed.

Lemma heights_fit_incl l k h1 :
  (forall P : HeightRange -> Prop, Forall P l -> Forall P k) -> heights_fit l h1 -> heights_fit k h1.
Proof.
  intros Hi. unfold heights_fit. destruct (m_bBlockMode p); [apply Hi|]. intros (x & Hx & Hl). exists x. split; [done|by apply Hi].
Qed.

Lemma heights_of_sub (P : HeightRange -> Prop) D : Forall P (k_Height <$> m_vKernels v) -> Forall P (heights_of D).
Proof. intros H. apply heights_of_Forall. apply Forall_forall. intros j _. by apply heights_sub. Qed.

Lemma whole_start D H h1 j : whole -> start_ok D H h1 -> heights_fit (heights j) h1.
Proof.
  intros Hw Hst. pose proof (whole_heights Hw) as Hf. unfold heights_fit in *. destruct (m_bBlockMode p) eqn:Hb.
  - rewrite (so_block _ _ _ Hst Hb). by apply heights_sub.
  - destruct Hf as (x & Hx & Hl). exists x. split; [|by apply heights_sub].
    apply (so_sup _ _ _ Hst); [done|]. by apply heights_of_sub.
Qed.

(** *** The invariant: [D] are the tasks that have finished *)
Record run_inv (D : list Z) (s : MyShared G) : Prop := {
  ri_len : length (sh_Tasks s) = K;
  ri_done i : sh_Tasks s !! i = Some Finished <-> Z.of_nat i ∈ D;
  ri_dup : NoDup D;
  ri_range : Forall (fun j => 0 <= j < Z.of_nat K) D;
  ri_batch : Forall clean (sh_Batches s);
  ri_fail : sh_bFail s || sh_Fooled s = true -> ~ whole;
  ri_ok : sh_bFail s || sh_Fooled s = false ->
    Forall good D /\ ctx_range D (c_Height (sh_Ctx s)) /\ (exists h1, start_ok D (c_Height (sh_Ctx s)) h1) /\
    (forall i H, sh_Tasks s !! i = Some (Running H) -> exists h1, start_ok D H h1) /\
    c_Sigma (sh_Ctx s) = g_add (c_Sigma c0) (g_sum (my_balance <$> D)) /\
    amount_plus (c_Fee c0) (c_Fee (sh_Ctx s)) (zsum (my_fee <$> D)) /\
    amount_plus (c_Coinbase c0) (c_Coinbase (sh_Ctx s)) (zsum (my_coinbase <$> D)) /\
    c_iVerifier (sh_Ctx s) = c_iVerifier c0
}.

Lemma run_inv_init batches : Forall clean batches -> run_inv [] (PushTasks c0 K batches).
Proof.
  intros Hb. split; unfold PushTasks; cbn [sh_Tasks sh_bFail sh_Ctx sh_Batches sh_Fooled orb]; try done.
  - apply length_replicate.
  - intros i. split; intros H; [apply lookup_replicate in H as [? _]; done|by apply not_elem_of_nil in H].
  - constructor.
  - intros _. split_and!; try done.
    + exists h. apply start_ok_init.
    + intros i H Hl. by apply lookup_replicate in Hl as [? _].
    + cbn. by rewrite g_add_0_r.
    + apply amount_plus_0, Hc.
    + apply amount_plus_0, Hc.
Qed.

Lemma run_inv_start D i s :
  run_inv D s -> sh_Tasks s !! i = Some Pending ->
  run_inv D (mkShared (sh_Ctx s) (sh_bFail s) (<[i := Running (c_Height (sh_Ctx s))]> (sh_Tasks s)) (sh_Batches s) (sh_Fooled s)).
Proof.
  intros [] Hi. split; cbn [sh_Tasks sh_bFail sh_Ctx sh_Batches sh_Fooled]; try done.
  - by rewrite length_insert.
  - intros k. rewrite <- ri_done0, (insert_done _ i _ k Pending) by done. split; [by intros [[_ ?]|?]|by right].
  - intros Hf. destruct (ri_ok0 Hf) as (? & ? & Hst & Hrun & Hrest). split_and!; try done; [|tauto..].
    intros k h2. rewrite list_lookup_insert_Some. intros [(-> & [= <-] & _)|[_ Hk]]; [done|by apply (Hrun k)].
Qed.

(** The tasks after one more has finished. *)
Lemma done_more D i H s :
  run_inv D s -> sh_Tasks s !! i = Some (Running H) ->
  length (<[i := Finished]> (sh_Tasks s)) = K /\
  (forall k, <[i := Finished]> (sh_Tasks s) !! k = Some Finished <-> Z.of_nat k ∈ Z.of_nat i :: D) /\
  NoDup (Z.of_nat i :: D) /\ Forall (fun j => 0 <= j < Z.of_nat K) (Z.of_nat i :: D) /\ (i < K)%nat.
Proof.
  intros [] Hi. pose proof (lookup_lt_Some _ _ _ Hi) as Hlt. split_and!.
  - by rewrite length_insert.
  - intros k. rewrite (insert_done _ i _ k (Running H)) by done. rewrite ri_done0, elem_of_cons, Nat2Z.inj_iff. tauto.
  - constructor; [|done]. rewrite <- ri_done0, Hi. done.
  - constructor; [lia|done].
  - lia.
Qed.

Lemma Exec_batch_clean abort H j pBc other rnd :
  clean (Exec_batch sha256 r ig Confidential p offset v abort H j pBc other rnd).2.
Proof.
  unfold Exec_batch. destruct (Exec_local (chk := check_later) _ _ _ _ _ _ _ _ _ _); [by destruct (bc_Flush _)|done].
Qed.

(** A task that finishes in a state that is still good: [f] tells whether its equations cancelled. *)
Lemma run_inv_merge D i H h1 res s batches (f : bool) :
  run_inv D s -> sh_Tasks s !! i = Some (Running H) -> sh_bFail s || sh_Fooled s = false -> Forall clean batches ->
  start_ok D H h1 ->
  (if f then ~ share_good sha256 r ig Confidential_IsValid p v h1 (Z.of_nat i)
   else task_result sha256 r ig Confidential p offset v h1 (Z.of_nat i) res) ->
  run_inv (Z.of_nat i :: D)
    (let '(ctx, bFail) := Exec_locked p (sh_Ctx s) (sh_bFail s) res in
     mkShared ctx bFail (<[i := Finished]> (sh_Tasks s)) batches (sh_Fooled s || f)).
Proof.
  intros Hinv Hi Ef Hb Hst Hres. destruct (done_more _ _ _ _ Hinv Hi) as (L1 & L2 & L3 & L4 & Hlt). destruct Hinv.
  destruct (ri_ok0 Ef) as (Hgood & Hctx & _ & Hrun & HS & HF & HC & HV). apply orb_false_iff in Ef as [E1 E2]. rewrite E1, E2. cbn [orb].
  destruct f.
  { assert (~ whole) as Hw.
    { intros Hw. apply Hres. eapply share_good_side; [|apply (whole_good (Z.of_nat i) Hw); lia]. symmetry. apply Hst. }
    destruct (Exec_locked _ _ _ _) as [ctx b]. split; try done. cbn [sh_bFail sh_Fooled]. by rewrite orb_true_r. }
  pose proof (task_result_side D H h1 _ res Hst Hres) as Hl.
  destruct res as [x|]; cbn [Exec_locked negb].
  2: { split; try done. intros _ Hw. apply Hl. split; [apply whole_good; [done|lia]|].
       apply left_range_some; [apply one_side_nonempty, Hst|]. by eapply whole_start. }
  destruct Hl as (G1 & G2 & G3 & G4 & G5). unfold Merge.
  pose proof (merge_heights D (Z.of_nat i) H h1 (c_Height (sh_Ctx s)) (c_Height x) Hctx Hst G2) as Hm.
  destruct (HandleElementHeight p _ _) as [h'|].
  2: { split; try done. intros _ Hw. apply Hm. eapply heights_fit_incl; [|by apply whole_heights]. intros P. apply heights_of_sub. }
  split; try done. intros _. cbn [sh_Ctx sh_Tasks c_Height c_Sigma c_Fee c_Coinbase c_iVerifier]. split_and!; try done.
  - by constructor.
  - exists h'. by apply left_start_ok.
  - intros k Hk. rewrite list_lookup_insert_Some. intros [(_ & ? & _)|[_ E]]; [done|].
    destruct (Hrun k Hk E) as [h2 H2]. exists h2. by apply start_ok_mono.
  - rewrite HS, G3, fmap_cons. cbn [g_sum foldr]. rewrite <- g_add_assoc. f_equal. apply g_add_comm.
  - rewrite fmap_cons. by apply amount_plus_merge.
  - rewrite fmap_cons. by apply amount_plus_merge.
Qed.

(** Once it is bad, a state stays so. *)
Lemma run_inv_bad D i H res s batches (f : bool) :
  run_inv D s -> sh_Tasks s !! i = Some (Running H) -> sh_bFail s || sh_Fooled s = true -> Forall clean batches ->
  run_inv (Z.of_nat i :: D)
    (let '(ctx, bFail) := Exec_locked p (sh_Ctx s) (sh_bFail s) res in
     mkShared ctx bFail (<[i := Finished]> (sh_Tasks s)) batches (sh_Fooled s || f)).
Proof.
  intros Hinv Hi Ef Hb. destruct (done_more _ _ _ _ Hinv Hi) as (L1 & L2 & L3 & L4 & _). destruct Hinv.
  assert (forall ctx bFail, Exec_locked p (sh_Ctx s) (sh_bFail s) res = (ctx, bFail) -> bFail || (sh_Fooled s || f) = true) as Hbad.
  { intros ctx bF. unfold Exec_locked. destruct (sh_Fooled s); [intros _; apply orb_true_r|]. rewrite orb_false_r in Ef. rewrite Ef.
    cbn [negb]. by destruct res; intros [= _ <-]. }
  destruct (Exec_locked _ _ _ _) as [ctx bF]. specialize (Hbad _ _ eq_refl).
  split; try done; cbn [sh_bFail sh_Fooled]; [intros _; by apply ri_fail0|congruence].
Qed.

Lemma run_inv_finish D i t H abort pBc other rnd s :
  run_inv D s -> sh_Tasks s !! i = Some (Running H) -> sh_Batches s !! t = Some pBc ->
  ((exists n, abort n = true) -> sh_bFail s = true) ->
  run_inv (Z.of_nat i :: D)
    (let '(res, pBc') := Exec_batch sha256 r ig Confidential p offset v abort H (Z.of_nat i) pBc other rnd in
     let '(ctx, bFail) := Exec_locked p (sh_Ctx s) (sh_bFail s) res in
     mkShared ctx bFail (<[i := Finished]> (sh_Tasks s)) (<[t := pBc']> (sh_Batches s))
       (sh_Fooled s || cancels pBc rnd (Task_equations sha256 r Confidential p v H (Z.of_nat i)))).
Proof.
  intros Hinv Hi Ht' Hab. destruct (done_more _ _ _ _ Hinv Hi) as (_ & _ & _ & _ & Hlt).
  pose proof (Exec_batch_clean abort H (Z.of_nat i) pBc other rnd) as Hcl.
  destruct (Exec_batch _ _ _ _ _ _ _ _ _ _ _ _ _) as [res pBc'] eqn:Ee. cbn [snd] in Hcl.
  assert (Forall clean (<[t := pBc']> (sh_Batches s))) as Hb by (apply Forall_insert; [apply Hinv|done]).
  destruct (sh_bFail s || sh_Fooled s) eqn:Ef; [by eapply run_inv_bad|].
  destruct (ri_ok _ _ Hinv Ef) as (_ & _ & _ & Hrun & _). destruct (Hrun i H Hi) as [h1 Hst].
  eapply run_inv_merge; try done. apply orb_false_iff in Ef as [Ef _]. rewrite Ef in Hab.
  pose proof (Exec_batch_result sha256 r ig Confidential p offset v H h1 (Z.of_nat i) abort pBc other rnd) as R. rewrite Ee in R.
  apply R; try done; try apply Hst; try lia.
  - intros m. destruct (abort m) eqn:E; [|done]. discriminate Hab. by exists m.
  - eapply Forall_lookup_1; [apply Hinv|done].
Qed.

Lemma run_inv_reachable batches s :
  Forall clean batches -> rtc stepping (PushTasks c0 K batches) s -> exists D, run_inv D s.
Proof.
  intros Hb H. cut (forall s0 D, run_inv D s0 -> rtc stepping s0 s -> exists D, run_inv D s).
  { intros Hg. eapply Hg; [by apply run_inv_init|done]. }
  clear H. intros s0 D Hinv H. revert D Hinv. induction H as [s|s0 s1 s2 Hstep _ IH]; intros D Hinv; [by exists D|].
  destruct Hstep as [i s0 Hi|i t H abort pBc other rnd s0 Hi Hb' Hab].
  - eapply IH. by apply run_inv_start.
  - eapply IH. by eapply run_inv_finish.
Qed.

(** *** When all have finished *)
Lemma flushed_perm D s : run_inv D s -> flushed s -> D ≡ₚ verifiers K.
Proof.
  intros [] Hf. apply NoDup_Permutation; [done| |].
  - apply NoDup_fmap_2; [intros ? ? ?; lia|]. apply NoDup_seq.
  - intros j. unfold verifiers. rewrite list_elem_of_fmap. split.
    + intros Hj. pose proof (proj1 (Forall_forall _ _) ri_range0 j Hj) as Hr. cbn in Hr.
      exists (Z.to_nat j). rewrite elem_of_seq. lia.
    + intros (i & -> & Hi). apply ri_done0. apply elem_of_seq in Hi.
      destruct (lookup_lt_is_Some_2 (sh_Tasks s) i ltac:(lia)) as [t E]. rewrite E. f_equal.
      unfold flushed in Hf. by eapply Forall_lookup_1 in Hf.
Qed.

Lemma share_sum {M A} (op : M -> M -> M) (e : M) (f : A -> M) pos (l : list A) :
  (forall x y, op x y = op y x) -> (forall x y z, op x (op y z) = op (op x y) z) -> (forall x, op e x = x) ->
  foldr op e ((fun j => foldr op e (f <$> (sel_list j (m_nVerifiers p) pos (pairs None l)).*2)) <$> verifiers K)
    = foldr op e (f <$> l).
Proof.
  intros H1 H2 H3. transitivity (foldr op e ((f ∘ snd) <$> pairs None l)); [|by rewrite list_fmap_compose, pairs_snd].
  rewrite HN.
  rewrite <- (sel_list_sum op e H1 H2 H3 (f ∘ snd) K pos) by done.
  f_equal. apply list_fmap_ext. intros _ j _. by rewrite <- list_fmap_compose.
Qed.

Lemma g_neg_sum {A} (f : A -> G) l : g_neg (g_sum (f <$> l)) = foldr g_add g_zero ((g_neg ∘ f) <$> l).
Proof.
  induction l as [|x l IH]; [apply g_neg_0|]. rewrite !fmap_cons. cbn [g_sum foldr]. fold (g_sum (f <$> l)).
  by rewrite g_neg_add, IH.
Qed.

Lemma balance_sum : g_sum (my_balance <$> verifiers K)
  = balance sha256 r Confidential_IsValid p (m_Min h) (m_vInputs v) (m_vOutputs v) (m_vKernels v) (offset_pt offset).
Proof.
  pose proof (g_add_comm (G := G)) as Hcm. pose proof (g_add_assoc (G := G)) as Has. pose proof (g_add_0_l (G := G)) as H0.
  unfold share_balance, balance, my_out, my_krn, g_sum. rewrite !(msum_add g_add g_zero Hcm Has H0).
  rewrite (share_sum g_add g_zero (out_pt sha256 r Confidential_IsValid p (m_Min h)) _ _ Hcm Has H0).
  rewrite (share_sum g_add g_zero (kern_exc r) _ _ Hcm Has H0). f_equal; [|do 2 f_equal].
  - transitivity (foldr g_add g_zero ((fun j => foldr g_add g_zero ((g_neg ∘ in_pt) <$> (my_in p j v).*2)) <$> verifiers K)).
    { f_equal. apply list_fmap_ext. intros _ j _. apply g_neg_sum. }
    unfold my_in. rewrite (share_sum g_add g_zero (g_neg ∘ in_pt) _ _ Hcm Has H0). symmetry. apply g_neg_sum.
  - unfold my_offset. rewrite HN. by apply (sum_one_verifier g_add g_zero Hcm H0).
Qed.

Lemma fee_sum : zsum (my_fee <$> verifiers K) = zsum (kern_fee <$> m_vKernels v).
Proof. apply share_sum; intros; lia. Qed.

Lemma coinbase_sum : zsum (my_coinbase <$> verifiers K)
  = zsum (out_coinbase sha256 r Confidential_IsValid p (m_Min h) <$> m_vOutputs v).
Proof. apply share_sum; intros; lia. Qed.

Lemma foldr_perm {M} (op : M -> M -> M) e (l k : list M) :
  (forall x y z, op x (op y z) = op y (op x z)) -> l ≡ₚ k -> foldr op e l = foldr op e k.
Proof. intros Hsw. induction 1; cbn; congruence. Qed.

Lemma Flush_clean (s : MyShared G) : Forall clean (sh_Batches s) -> Flush s = negb (sh_bFail s).
Proof.
  intros H. unfold Flush. replace (forallb _ _) with true; [apply andb_true_r|]. symmetry.
  induction H as [|bc l Hc' _ IH]; [done|]. cbn [forallb]. rewrite IH, andb_true_r. unfold clean in Hc'. unfold bc_Flush. by rewrite Hc'.
Qed.

(** The outcome of a run. *)
Lemma run_outcome batches s :
  Forall clean batches -> rtc stepping (PushTasks c0 K batches) s -> flushed s ->
  Flush s = negb (sh_bFail s) /\
  (sh_bFail s || sh_Fooled s = true -> ~ whole) /\
  (sh_bFail s || sh_Fooled s = false ->
    valid_vectors sha256 r ig Confidential_IsValid p (c_Height c0) h (c_Height (sh_Ctx s)) v /\
    c_Sigma (sh_Ctx s) = g_add (c_Sigma c0) (balance sha256 r Confidential_IsValid p (m_Min h)
      (m_vInputs v) (m_vOutputs v) (m_vKernels v) (offset_pt offset)) /\
    amount_plus (c_Fee c0) (c_Fee (sh_Ctx s)) (zsum (kern_fee <$> m_vKernels v)) /\
    amount_plus (c_Coinbase c0) (c_Coinbase (sh_Ctx s))
      (zsum (out_coinbase sha256 r Confidential_IsValid p (m_Min h) <$> m_vOutputs v)) /\
    c_iVerifier (sh_Ctx s) = c_iVerifier c0).
Proof.
  intros Hb Hrtc Hfl. destruct (run_inv_reachable batches s Hb Hrtc) as [D Hinv]. pose proof (flushed_perm D s Hinv Hfl) as HD.
  split; [by apply Flush_clean, Hinv|]. destruct Hinv. split; [done|]. intros Hf. destruct (ri_ok0 Hf) as (Hgood & Hctx & _ & _ & HS & HF & HC & HV).
  assert (forall j, j ∈ D <-> 0 <= j < m_nVerifiers p) as Hall.
  { intros j. rewrite HD, HN. unfold verifiers. rewrite list_elem_of_fmap. setoid_rewrite elem_of_seq. split; [intros (i & -> & ?); lia|].
    intros Hj. exists (Z.to_nat j). lia. }
  pose proof (proj1 (share_good_all sha256 r ig Confidential_IsValid p v ltac:(lia) n h Hs)) as Hw.
  destruct Hw as (W1 & W2 & W3 & W4). { intros j Hj. eapply Forall_forall in Hgood; [exact Hgood|]. by apply Hall. }
  split_and!; try done.
  - split; try done. destruct D as [|j D]; [exfalso; apply (not_elem_of_nil 0), Hall; lia|].
    unfold ctx_range in Hctx. unfold left_range in *.
    assert (forall P : HeightRange -> Prop, Forall P (heights_of (j :: D)) <-> Forall P (k_Height <$> m_vKernels v)) as HP.
    { intros P. split; [|apply heights_of_sub]. intros HP. apply heights_all. intros k Hk. apply heights_of_Forall in HP.
      eapply Forall_forall in HP; [exact HP|]. by apply Hall. }
    destruct (m_bBlockMode p); [by rewrite <- HP|]. destruct Hctx as [C1 C2]. split; [done|]. intros x. by rewrite C2, HP.
  - rewrite HS, <- balance_sum. f_equal. apply g_sum_perm. by rewrite HD.
  - rewrite <- fee_sum. erewrite (foldr_perm Z.add 0 _ (my_fee <$> D)); [exact HF|intros; lia|by rewrite HD].
  - rewrite <- coinbase_sum. erewrite (foldr_perm Z.add 0 _ (my_coinbase <$> D)); [exact HC|intros; lia|by rewrite HD].
Qed.
End run.

(** ** Claims on parallel validation *)
Section claims.
Context (sha256 : list Z -> list Z) (r : Rules) (ig : bool).
Context {G : Type} `{!Curve G, !CurveLaws G, !OracleDraws G}.
Context (Confidential : list Z -> G -> list Z -> G -> option (list G)) (p : Params) (offset : list Z) (v : TxVectors).
Abbreviation Confidential_IsValid := (Confidential_check Confidential).
Abbreviation stepping := (step sha256 r ig Confidential p offset v).
Abbreviation steps := (rtc stepping).

Lemma valid_vectors_params q hc h h' : m_bBlockMode q = m_bBlockMode p -> m_bVerifyOrder q = m_bVerifyOrder p ->
  m_bAllowUnsignedOutputs q = m_bAllowUnsignedOutputs p ->
  valid_vectors sha256 r ig (G := G) Confidential_IsValid p hc h h' v <-> valid_vectors sha256 r ig Confidential_IsValid q hc h h' v.
Proof.
  destruct p, q. cbn. intros -> -> ->. by split; intros [? ? ? ? ? ?]; split.
Qed.

(** When the fork forbids the range every task fails. *)
Lemma no_fork_run c0 K batches s :
  ForkHeight r p (c_Height c0) = None -> steps (PushTasks c0 K batches) s ->
  c_Height (sh_Ctx s) = c_Height c0 /\ (forall i H, sh_Tasks s !! i = Some (Running H) -> H = c_Height c0) /\
  (sh_bFail s = false -> forall i, sh_Tasks s !! i <> Some Finished) /\ length (sh_Tasks s) = K.
Proof.
  intros Hf Hsteps. pattern s. eapply rtc_ind_r; [| |exact Hsteps].
  - cbn [PushTasks sh_Ctx sh_Tasks sh_bFail]. rewrite length_replicate.
    split_and!; [done|intros i H Hl|intros _ i Hl|done]; by apply lookup_replicate in Hl as [? _].
  - intros s1 s2 _ Hstep (I1 & I2 & I3 & I4). destruct Hstep as [i s1 Hi|i t H abort pBc other rnd s1 Hi _ Hab]; cbn [sh_Ctx sh_Tasks sh_bFail].
    + split_and!; [done| | |by rewrite length_insert].
      * intros k h2. rewrite list_lookup_insert_Some. intros [(_ & [= <-] & _)|[_ Hk]]; [done|by apply (I2 k)].
      * intros E k. rewrite list_lookup_insert_Some. intros [(_ & ? & _)|[_ Hk]]; [done|by apply (I3 E k)].
    + assert (forall chk : EquationCheck G, Exec_local sha256 r ig Confidential p offset v abort H (Z.of_nat i) = None) as En.
      { intros chk. unfold Exec_local, ValidateAndSummarize. cbn [c_Height]. by rewrite (I2 i H Hi), Hf. }
      assert ((Exec_batch sha256 r ig Confidential p offset v abort H (Z.of_nat i) pBc other rnd).1 = None) as Eb.
      { unfold Exec_batch. by rewrite !En. }
      destruct (Exec_batch _ _ _ _ _ _ _ _ _ _ _ _ _) as [res pBc']. cbn [fst] in Eb. subst res. cbn [Exec_locked sh_Ctx sh_Tasks sh_bFail]. split_and!; [done| |done|by rewrite length_insert].
      intros k h2. rewrite list_lookup_insert_Some. intros [(_ & ? & _)|[_ Hk]]; [done|by apply (I2 k)].
Qed.

Lemma no_fork_fails c0 K batches s :
  (0 < K)%nat -> ForkHeight r p (c_Height c0) = None -> steps (PushTasks c0 K batches) s -> flushed s -> sh_bFail s = true.
Proof.
  intros HK Hf Hsteps Hfl. destruct (no_fork_run c0 K batches s Hf Hsteps) as (_ & _ & I & Hl). destruct (sh_bFail s); [done|].
  exfalso. destruct (lookup_lt_is_Some_2 (sh_Tasks s) 0 ltac:(lia)) as [t Et]. apply (I eq_refl 0%nat). rewrite Et. f_equal.
  unfold flushed in Hfl. by eapply Forall_lookup_1 in Hfl.
Qed.

(** C7: Several verifiers are as good as one. [K] tasks of [NodeProcessor::ValidateAndSummarize] run in
    threads, whatever the batch of each holds from its last task as long as it was reset, and in
    whatever order they start, read the shared height range and the abort flag, flush and reset their
    batch and merge their results.  When all have finished the outcome is the one of
    a single verifier that decides every signature and range proof at once: if
    [TxBase::Context::ValidateAndSummarize] with one verifier accepts the elements, the failure flag is not
    set and the shared context - sum, fees, coinbase and height range - is the very
    context it returns; if it rejects them the flag is set, unless equations that do not hold cancelled each
    other under the multipliers they got in a batch. *)
Theorem parallel_validation c0 K batches n s :
  m_nVerifiers p = Z.of_nat K -> (0 < K)%nat -> Z.of_nat K < 2 ^ 32 -> Forall clean batches -> c_iVerifier c0 = 0 ->
  context_ok c0 -> vectors_typed v -> vectors_std ig n v ->
  steps (PushTasks c0 K batches) s -> flushed s ->
  match ValidateAndSummarize sha256 r ig (fun _ => false) Confidential_IsValid (with_verifiers p 1) c0 offset v with
  | Some c => Flush s = true /\ sh_Ctx s = c
  | None => Flush s = false \/ sh_Fooled s = true
  end.
Proof.
  intros HN HK HK32 Hb Hj Hc Ht Hs Hsteps Hfl.
  pose proof (single_verifier sha256 r ig (fun _ => false) Confidential_IsValid (with_verifiers p 1) c0 offset v n
    ltac:(done) eq_refl Hj Hc Ht Hs) as H1.
  assert (forall hc h h', valid_vectors sha256 r ig Confidential_IsValid p hc h h' v
    <-> valid_vectors sha256 r ig Confidential_IsValid (with_verifiers p 1) hc h h' v) as Hv by (intros; by apply valid_vectors_params).
  destruct (ForkHeight r p (c_Height c0)) as [h|] eqn:Hf.
  - destruct (run_outcome sha256 r ig Confidential p offset v c0 n K h HN HK HK32 Hc Ht Hs Hf batches s Hb Hsteps Hfl) as (R0 & R1 & R2).
    rewrite R0. destruct (ValidateAndSummarize _ _ _ _ _ _ _ _) as [c|].
    + destruct H1 as (h1 & V & E1 & E2 & E3 & E4). pose proof (va_fork _ _ _ _ _ _ _ _ _ V) as Hf1.
      change (ForkHeight r p (c_Height c0) = Some h1) in Hf1. rewrite Hf in Hf1. injection Hf1 as <-.
      destruct (sh_bFail s || sh_Fooled s) eqn:Eb; [exfalso; apply (R1 eq_refl); exists (c_Height c); by apply Hv|].
      apply orb_false_iff in Eb as [-> _]. split; [done|].
      destruct (R2 eq_refl) as (W & F1 & F2 & F3 & F4). destruct (sh_Ctx s) as [s1 s2 s3 s4 s5], c as [a1 a2 a3 a4 a5].
      cbn [c_Sigma c_Fee c_Coinbase c_Height c_iVerifier] in *. f_equal; [by rewrite F1, E1| | | |congruence].
      * by eapply amount_plus_unique.
      * by eapply amount_plus_unique.
      * apply Hv in V. eapply left_range_unique; [apply W|apply V].
    + destruct (sh_bFail s); [by left|]. destruct (sh_Fooled s); [by right|]. destruct (R2 eq_refl) as (W & _). exfalso. apply H1. exists h, (c_Height (sh_Ctx s)). by apply Hv.
  - destruct (ValidateAndSummarize _ _ _ _ _ _ _ _) as [c|].
    + destruct H1 as (h1 & V & _). apply Hv in V. pose proof (va_fork _ _ _ _ _ _ _ _ _ V). congruence.
    + left. unfold Flush. by rewrite (no_fork_fails c0 K batches s HK Hf Hsteps Hfl).
Qed.

(** What a task has left to do. *)
Definition task_work (t : TaskState) : nat := match t with Pending => 2 | Running _ => 1 | Finished => 0 end.
Definition work (l : list TaskState) : nat := sum_list_with task_work l.

Lemma work_insert l i t t' :
  l !! i = Some t -> task_work t = S (task_work t') -> work l = S (work (<[i := t']> l)).
Proof.
  revert i. induction l as [|x l IH]; intros [|i] Hi Hw; [done|done| |].
  - cbn in Hi. simplify_eq. change (task_work t + work l = S (task_work t' + work l))%nat. lia.
  - specialize (IH i Hi Hw). change (task_work x + work l = S (task_work x + work (<[i:=t']> l)))%nat. lia.
Qed.

Lemma step_work s s' : stepping s s' -> work (sh_Tasks s) = S (work (sh_Tasks s')).
Proof.
  destruct 1 as [i s Hi|i t H abort pBc other rnd s Hi _ _]; cbn [sh_Tasks].
  - by eapply work_insert.
  - destruct (Exec_batch _ _ _ _ _ _ _ _ _ _ _ _ _) as [res pBc']. destruct (Exec_locked _ _ _ _) as [ctx f]. cbn [sh_Tasks]. by eapply work_insert.
Qed.

Lemma work_0 l : work l = 0%nat <-> Forall (fun t => t = Finished) l.
Proof.
  unfold work. induction l as [|t l IH]; [done|]. rewrite Forall_cons, <- IH. cbn.
  destruct t; cbn; (split; [intros; split; [done || lia|lia]|by intros [? ?]]).
Qed.

Lemma step_batches s s' : stepping s s' -> length (sh_Batches s') = length (sh_Batches s).
Proof.
  destruct 1 as [i s Hi|i t H abort pBc other rnd s Hi _ _]; cbn [sh_Batches]; [done|].
  destruct (Exec_batch _ _ _ _ _ _ _ _ _ _ _ _ _) as [res pBc']. destruct (Exec_locked _ _ _ _) as [ctx f]. apply length_insert.
Qed.

(** As long as a task has work left some task can take a step, and a run can be completed. *)
Lemma step_progress s : sh_Batches s <> [] -> flushed s \/ exists s', stepping s s'.
Proof.
  intros Hb. unfold flushed. destruct (decide (work (sh_Tasks s) = 0%nat)) as [E1|E1]; [left; by apply work_0|right].
  assert (exists i t, sh_Tasks s !! i = Some t /\ t <> Finished) as (i & t & Hi & Ht).
  { revert E1. clear. induction (sh_Tasks s) as [|t l IH]; [done|]. intros Hw. destruct t; [by exists 0%nat, Pending|by exists 0%nat, (Running h)|].
    destruct (IH Hw) as (i & t & Hi & Ht). by exists (S i), t. }
  destruct t as [|h|]; [| |done].
  - eexists. by apply (step_start _ _ _ _ _ _ _ i).
  - destruct (sh_Batches s) as [|pBc bs] eqn:Eb; [done|].
    eexists. apply (step_finish _ _ _ _ _ _ _ i 0 h (fun _ => false) pBc [] 0); [done|by rewrite Eb|]. by intros [? ?].
Qed.

Lemma run_exists s : sh_Batches s <> [] -> exists s', steps s s' /\ flushed s'.
Proof.
  remember (work (sh_Tasks s)) as w eqn:Ew. revert s Ew. induction w as [w IH] using lt_wf_ind. intros s -> Hb.
  destruct (step_progress s Hb) as [Hf|[s1 Hs]]; [by exists s|]. pose proof (step_work _ _ Hs) as Hw.
  destruct (IH (work (sh_Tasks s1)) ltac:(lia) s1 eq_refl) as (s' & H1 & H2); [|exists s'; split; [by eapply rtc_l|done]].
  pose proof (step_batches _ _ Hs) as El. by destruct (sh_Batches s), (sh_Batches s1).
Qed.

(** In block mode the heights of the shared context are the ones it had; its amounts stay amounts. *)
Lemma run_block c0 K batches s :
  m_bBlockMode p = true -> m_nVerifiers p = Z.of_nat K -> Z.of_nat K < 2 ^ 32 -> context_ok c0 -> vectors_typed v ->
  steps (PushTasks c0 K batches) s ->
  c_Height (sh_Ctx s) = c_Height c0 /\ bytes_n 16 (c_Coinbase (sh_Ctx s)) /\ length (sh_Tasks s) = K /\
  (forall i H, sh_Tasks s !! i = Some (Running H) -> H = c_Height c0).
Proof.
  intros Hbm HN HK32 Hc Ht Hsteps. pattern s. eapply rtc_ind_r; [| |exact Hsteps].
  { cbn [PushTasks sh_Ctx sh_Tasks]. rewrite length_replicate. split_and!; [done|apply Hc|done|].
    intros i H Hl. by apply lookup_replicate in Hl as [? _]. }
  intros s1 s2 _ Hstep (I1 & I2 & I3 & I4). destruct Hstep as [i s1 Hi|i t H abort pBc other rnd s1 Hi _ Hab].
  { cbn [sh_Ctx sh_Tasks]. rewrite length_insert. split_and!; try done.
    intros k h2. rewrite list_lookup_insert_Some. intros [(_ & [= <-] & _)|[_ Hk]]; [done|by apply (I4 k)]. }
  pose proof (lookup_lt_Some _ _ _ Hi) as Hlt. pose proof (I4 i H Hi) as ->.
  destruct (Exec_batch _ _ _ _ _ _ _ _ _ _ _ _ _) as [res pBc'] eqn:Ee.
  assert (sh_bFail s1 = false -> forall x, res = Some x -> bytes_n 16 (c_Coinbase x)) as Hx.
  { intros Ef x ->. rewrite Ef in Hab.
    assert (exists chk : EquationCheck G, Exec_local sha256 r ig Confidential p offset v abort (c_Height c0) (Z.of_nat i) = Some x) as [chk El].
    { exists check_later. unfold Exec_batch in Ee. destruct (Exec_local (chk := check_later) _ _ _ _ _ _ _ _ _ _); [|done]. destruct (bc_Flush _) as [[] ?]; [by injection Ee as -> _|done]. }
    destruct (ForkHeight r p (c_Height c0)) as [h|] eqn:Hf; [|unfold Exec_local, ValidateAndSummarize in El; cbn [c_Height] in El; by rewrite Hf in El].
    pose proof (Exec_local_result sha256 r ig Confidential p offset v (c_Height c0) h (Z.of_nat i) abort) as R. rewrite El in R.
    apply R; try done; try apply Hc; try lia.
    - intros m. destruct (abort m) eqn:E; [|done]. discriminate Hab. by exists m.
    - by destruct (ForkHeight_side r p (c_Height c0) h ltac:(apply Hc) ltac:(apply Hc) Hf) as (? & _). }
  assert (forall k h2, <[i := Finished]> (sh_Tasks s1) !! k = Some (Running h2) -> h2 = c_Height c0) as Hrun.
  { intros k h2. rewrite list_lookup_insert_Some. intros [(_ & ? & _)|[_ Hk]]; [done|by apply (I4 k)]. }
  unfold Exec_locked. destruct res as [x|]; [|cbn [sh_Ctx sh_Tasks]; by rewrite length_insert].
  destruct (sh_bFail s1); [cbn [negb sh_Ctx sh_Tasks]; by rewrite length_insert|]. cbn [negb]. unfold Merge, HandleElementHeight. rewrite Hbm. cbn [negb].
  destruct (HR.IsEmpty _); cbn [sh_Ctx sh_Tasks c_Height c_Coinbase]; rewrite length_insert; [done|].
  split_and!; try done. by apply AmountBig_add_spec, (Hx eq_refl x).
Qed.
End claims.

(** ** Blocks *)
Section block.
Context (sha256 : list Z -> list Z) (r : Rules) (ig : bool).
Context {G : Type} `{!Curve G, !CurveLaws G, !OracleDraws G}.
Context (Confidential : list Z -> G -> list Z -> G -> option (list G)) (offset : list Z) (v : TxVectors).
Abbreviation Confidential_IsValid := (Confidential_check Confidential).

(** The emission of the heights from [lo] to [hi]. *)
Definition subsidy (lo hi : Z) : Z :=
  emission_sum r (Value0 (Emission r)) lo (Z.to_nat (hi - lo + 1)) mod 2 ^ 128.

(** The first height whose coinbase is not mature at [hi]. *)
Definition locked_from (lo hi : Z) : Z := if hi - lo <? Maturity_Coinbase r then lo else hi - Maturity_Coinbase r.

Lemma IsValidBlock_spec p c :
  rules_ok r (Value0 (Emission r)) -> 0 <= Maturity_Coinbase r -> m_bAllowUnsignedOutputs p = false ->
  1 <= m_Min (c_Height c) <= m_Max (c_Height c) -> m_Max (c_Height c) < 2 ^ 64 -> m_Max (c_Height c) < first_drop r ->
  bytes_n 16 (c_Coinbase c) ->
  let lo := m_Min (c_Height c) in let hi := m_Max (c_Height c) in
  exists b, IsValidBlock r p c = Some b /\
    (b = true <-> c_Sigma c = g_mul (subsidy lo hi) H_raw (G := G) /\ subsidy (locked_from lo hi) hi <= be_val (c_Coinbase c)).
Proof.
  intros Hr Hm Hu Hlo Hhi Hd [Hcb Lcb] lo hi. unfold IsValidBlock.
  destruct (get_Emission_range_sum r _ (c_Height c) Hr Hlo Hd) as (tot & Et & Ht & Vt). rewrite Et, Hu. cbn [negb].
  rewrite AmountBig_AddTo_spec, Vt by done. fold (subsidy lo hi).
  assert (g_add (g_neg (c_Sigma c)) (g_mul (subsidy lo hi) H_raw) = g_zero <-> c_Sigma c = g_mul (subsidy lo hi) H_raw) as Hs.
  { split; [|intros ->; rewrite g_add_comm; apply g_add_neg]. intros E. apply g_neg_unique in E. by rewrite E, g_neg_neg. }
  case_bool_decide as Eb; cbn [negb]; [|exists false; split; [done|]; split; [done|intros [E _]; by apply Hs in E]].
  apply Hs in Eb. unfold wrap. rewrite (Z.mod_small (m_Max _ - m_Min _)) by lia.
  assert (forall l, amount_ok l -> be_val l = subsidy (locked_from lo hi) hi ->
    exists b, (if _Cmp (c_Coinbase c) l <? 0 then Some false else Some true) = Some b /\
      (b = true <-> c_Sigma c = g_mul (subsidy lo hi) H_raw /\ subsidy (locked_from lo hi) hi <= be_val (c_Coinbase c))) as Hcmp.
  { intros l [Hl Ll] El. unfold AmountBig_nBytes in Ll. rewrite _Cmp_spec, <- El by (done || congruence). unfold cmpZ.
    destruct (Z.ltb_spec (be_val (c_Coinbase c)) (be_val l)); [exists false; split; [done|]; split; [done|lia]|].
    exists true. split; [by repeat case_match|]. split; [|done]. intros _. split; [done|lia]. }
  change (m_Max (c_Height c)) with hi. change (m_Min (c_Height c)) with lo. unfold locked_from in *. destruct (Z.ltb_spec (hi - lo) (Maturity_Coinbase r)); [by apply Hcmp|].
  rewrite (Z.mod_small (hi - Maturity_Coinbase r)) by lia.
  destruct (get_Emission_range_sum r _ (mkHR (hi - Maturity_Coinbase r) hi) Hr) as (lk & El & Hl & Vl); [cbn; lia|done|].
  rewrite El. by apply Hcmp.
Qed.

Definition block_params (K : nat) : Params := mkParams true true false (Z.of_nat K).

Lemma block_fork K hr h : ForkHeight r (block_params K) hr = Some h -> h = hr.
Proof. unfold ForkHeight. cbn [block_params m_bBlockMode]. by repeat case_match; intros [= <-]. Qed.

(** A valid block body for the heights [hr]: the range is proper and does not straddle the fork, the
    elements are sorted and no output is spent within the body, every commitment, range proof and kernel
    signature is valid and every kernel is allowed at these heights, the outputs less the inputs plus the
    kernel excesses and the offset are the emission of these heights times [H], and the coinbase outputs cover
    the emission that is not mature yet. *)
Record block_ok (K : nat) (hr : HeightRange) : Prop := {
  bo_range : 1 <= m_Min hr <= m_Max hr;
  bo_vectors : valid_vectors sha256 r ig Confidential_IsValid (block_params K) hr hr hr v;
  bo_balance :
    balance sha256 r Confidential_IsValid (block_params K) (m_Min hr) (m_vInputs v) (m_vOutputs v) (m_vKernels v) (offset_pt offset)
      = g_mul (subsidy (m_Min hr) (m_Max hr)) H_raw;
  bo_coinbase :
    subsidy (locked_from (m_Min hr) (m_Max hr)) (m_Max hr)
      <= zsum (out_coinbase sha256 r Confidential_IsValid (block_params K) (m_Min hr) <$> m_vOutputs v) mod 2 ^ 128
}.

Lemma range_guard hr x : (m_Min hr <? HeightGenesis) || HR.IsEmpty hr = x ->
  if x then ~ 1 <= m_Min hr <= m_Max hr else 1 <= m_Min hr <= m_Max hr.
Proof.
  intros <-. unfold HeightGenesis, HR.IsEmpty. destruct (Z.ltb_spec (m_Min hr) 1), (Z.ltb_spec (m_Max hr) (m_Min hr)); cbn; lia.
Qed.

Section verify.
Context (K : nat) (batches : list (BatchContext G)) (hr : HeightRange) (n : nat).
Context (HK : (0 < K)%nat) (HK32 : Z.of_nat K < 2 ^ 32) (Hb : Forall clean batches).
Context (Hr : rules_ok r (Value0 (Emission r))) (Hm : 0 <= Maturity_Coinbase r).
Context (Hlo : 0 <= m_Min hr) (Hhi : m_Max hr < 2 ^ 64) (Hd : m_Max hr < first_drop r).
Context (Ht : vectors_typed v) (Hs : vectors_std ig n v).
Abbreviation c0 := (mkContext (G := G) g_zero AmountBig_zero AmountBig_zero hr 0).
Abbreviation stepping := (step sha256 r ig Confidential (block_params K) offset v).

Lemma block_context_ok : context_ok c0.
Proof. split; [apply zero16_ok|apply zero16_ok|done]. Qed.

(** [VerifyBlock] comes to a result. *)
Lemma VerifyBlock_result : batches <> [] ->
  exists b fooled, VerifyBlock sha256 r ig Confidential (block_params K) offset v K batches hr b fooled.
Proof.
  intros Hne. destruct ((m_Min hr <? HeightGenesis) || HR.IsEmpty hr) eqn:Eg; [exists false, false; by apply VerifyBlock_range|].
  destruct (run_exists sha256 r ig Confidential (block_params K) offset v (PushTasks c0 K batches) Hne) as (s & H1 & H2).
  destruct (Flush s) eqn:Ef; [|exists false, (sh_Fooled s); by eapply VerifyBlock_fail].
  destruct (run_block sha256 r ig Confidential (block_params K) offset v c0 K batches s eq_refl eq_refl HK32 block_context_ok Ht H1) as (Eh & Ec & _).
  pose proof (range_guard hr false Eg) as Hg. cbn [c_Height] in Eh.
  destruct (IsValidBlock_spec (block_params K) (sh_Ctx s) Hr Hm eq_refl) as (b & Eb & _); rewrite ?Eh; try done.
  exists b, (sh_Fooled s). by eapply VerifyBlock_done.
Qed.

(** The outcome of the tasks of a block. *)
Lemma block_run s : rtc stepping (PushTasks c0 K batches) s -> flushed s -> 1 <= m_Min hr <= m_Max hr ->
  (Flush s = true /\ exists b, IsValidBlock r (block_params K) (sh_Ctx s) = Some b /\
    (block_ok K hr -> b = true /\ sh_Fooled s = false) /\ (b = true -> sh_Fooled s = false -> block_ok K hr)) \/
  (Flush s = false /\ ~ block_ok K hr).
Proof.
  intros H1 H2 Hrng.
  destruct (run_block sha256 r ig Confidential (block_params K) offset v c0 K batches s eq_refl eq_refl HK32 block_context_ok Ht H1) as (Eh & Ec & _).
  cbn [c_Height] in Eh.
  destruct (IsValidBlock_spec (block_params K) (sh_Ctx s) Hr Hm eq_refl) as (b & Eb & Hiff); rewrite ?Eh; try done. rewrite Eh in Hiff.
  destruct (ForkHeight r (block_params K) hr) as [h|] eqn:Hf.
  2: { right. unfold Flush. rewrite (no_fork_fails sha256 r ig Confidential (block_params K) offset v c0 K batches s HK Hf H1 H2). split; [done|].
       intros [_ V _ _]. pose proof (va_fork _ _ _ _ _ _ _ _ _ V). congruence. }
  pose proof (block_fork K hr h Hf) as ->.
  destruct (run_outcome sha256 r ig Confidential (block_params K) offset v c0 n K hr eq_refl HK HK32 block_context_ok Ht Hs Hf batches s Hb H1 H2) as (R0 & R1 & R2). rewrite R0.
  assert (sh_bFail s || sh_Fooled s = true -> ~ block_ok K hr) as Hbad by (intros E [_ V _ _]; apply (R1 E); by exists hr).
  destruct (sh_bFail s); [right; split; [done|by apply Hbad]|left]. split; [done|]. exists b. split; [done|]. cbn [orb] in *.
  destruct (sh_Fooled s); [split; [by intros ?%Hbad|done]|]. destruct (R2 eq_refl) as (V & E1 & _ & [_ E3] & _).
  cbn [c_Height c_Sigma c_Coinbase] in *. rewrite Eh in V. rewrite E1, g_add_0_l in Hiff.
  change (be_val AmountBig_zero) with (be_val (replicate 16 0)) in E3. rewrite be_val_zeros, Z.add_0_l in E3. rewrite E3 in Hiff.
  split; [|intros Hbt _; by apply Hiff in Hbt as [? ?]]. intros [_ _ B1 B2]. split; [by apply Hiff|done].
Qed.
End verify.

(** C1: Which blocks a node accepts. For heights [lo .. hi] before the first halving of the emission, and rules whose
    emission schedule is proper, [NodeProcessor::VerifyBlock] comes to a result, with any number of verifiers, any batches that
    were reset and any schedule of the tasks.  It accepts every valid block
    body ([block_ok]), and a body that it accepts is valid, unless equations of signatures or range proofs
    that do not hold cancelled each other under the multipliers of a batch. *)
Theorem verify_block K batches hr n :
  (0 < K)%nat -> Z.of_nat K < 2 ^ 32 -> batches <> [] -> Forall clean batches ->
  rules_ok r (Value0 (Emission r)) -> 0 <= Maturity_Coinbase r ->
  0 <= m_Min hr -> m_Max hr < 2 ^ 64 -> m_Max hr < first_drop r -> vectors_typed v -> vectors_std ig n v ->
  (exists b fooled, VerifyBlock sha256 r ig Confidential (block_params K) offset v K batches hr b fooled) /\
  forall b fooled, VerifyBlock sha256 r ig Confidential (block_params K) offset v K batches hr b fooled ->
    (block_ok K hr -> b = true /\ fooled = false) /\ (b = true -> fooled = false -> block_ok K hr).
Proof.
  intros HK HK32 Hne Hb Hr Hm Hlo Hhi Hd Ht Hs. split; [by apply VerifyBlock_result|].
  intros b fooled Hv. destruct Hv as [Hg|s Hg H1 H2 H3|s b Hg H1 H2 H3 H4]; pose proof (range_guard hr _ Hg) as Hrng; cbn iota in Hrng.
  - split; [by intros [? _ _ _]|done].
  - destruct (block_run K batches hr n HK HK32 Hb Hr Hm Hlo Hhi Hd Ht Hs s H1 H2 Hrng) as [[E _]|[_ Hn]]; [congruence|by split].
  - destruct (block_run K batches hr n HK HK32 Hb Hr Hm Hlo Hhi Hd Ht Hs s H1 H2 Hrng) as [(_ & b' & Eb & Hiff)|[E _]]; [|congruence].
    rewrite Eb in H4. by injection H4 as ->.
Qed.
End block.

(** ** Examples *)
Import Ecc.Demo Validation.DemoTx.
Definition two_verifiers : Params := mkParams false true false 2.
Definition demo_context : Context_t zn := mkContext g_zero AmountBig_zero AmountBig_zero (mkHR 100 MaxHeight) 0.

(** The bulletproof of [Validation] with the equation [0 = 0]. *)
Definition demo_equations (c : list Z) (comm : zn) (o : list Z) (hGen : zn) : option (list zn) :=
  if demo_bulletproof c comm o hGen then Some [g_zero] else None.
(** A thread whose batch has seen other equations, and one with a new batch. *)
Definition demo_batches : list (BatchContext zn) := [mkBatch false 77 (g_mul 5 G_raw); mkBatch false 0 g_zero].
Abbreviation demo_steps :=
  (rtc (step demo_sha default_Rules false demo_equations two_verifiers (t_Offset demo_tx) (t_Vectors demo_tx))).

Lemma demo_batches_clean : Forall clean demo_batches.
Proof. by repeat constructor. Qed.

(** Two verifiers on the transaction of [Validation]. *)
Lemma parallel_validation_witness :
  exists s, demo_steps (PushTasks demo_context 2 demo_batches) s /\ flushed s /\
    match ValidateAndSummarize demo_sha default_Rules false (fun _ => false) (Confidential_check demo_equations) (with_verifiers two_verifiers 1)
            demo_context (t_Offset demo_tx) (t_Vectors demo_tx) with
    | Some c => Flush s = true /\ sh_Ctx s = c
    | None => Flush s = false \/ sh_Fooled s = true
    end.
Proof.
  destruct (run_exists demo_sha default_Rules false demo_equations two_verifiers (t_Offset demo_tx) (t_Vectors demo_tx)
    (PushTasks demo_context 2 demo_batches)) as (s & H1 & H2); [discriminate|].
  exists s. split; [exact H1|]. split; [exact H2|].
  apply (parallel_validation demo_sha default_Rules false demo_equations two_verifiers (t_Offset demo_tx) (t_Vectors demo_tx)
    demo_context 2 demo_batches 1 s); [reflexivity|lia|lia|exact demo_batches_clean|reflexivity
    |split; [apply zero16_ok|apply zero16_ok|cbn; unfold MaxHeight; lia]|apply demo_tx_typed|apply demo_tx_std|exact H1|exact H2].
Defined.

(** A block at height 5 with one coinbase output, whose key cancels the one of
    the kernel. *)
Definition block_value : Z := get_Emission default_Rules 5.
Definition block_key : Z := (order - 12345) mod order.
Definition block_output : Output :=
  let o := mkOutput (mkElement (Point_Export (G := zn) (Tag_AddValue (g_mul block_key G_raw) g_zero block_value)) 0)
             true false 0 zero_hash None None in
  mkOutput (o_Element o) true false 0 zero_hash None
    (Some (Public_Create (G := zn) demo_sha block_key 9 block_value (replicate 48 0) (Output_Prepare default_Rules o 5))).
Definition block_vectors : TxVectors := mkVectors [] [block_output] [ex_signed].

Lemma demo_block_accepted :
  VerifyBlock demo_sha default_Rules false demo_equations (block_params 1) zero_hash block_vectors 1 demo_batches (mkHR 5 5) true false.
Proof.
  assert (forall s, Forall (fun t => t = Finished) (sh_Tasks s) -> Flush s = true ->
    IsValidBlock (G := zn) default_Rules (block_params 1) (sh_Ctx s) = Some true -> sh_Fooled s = false ->
    rtc (step demo_sha default_Rules false demo_equations (block_params 1) zero_hash block_vectors)
      (PushTasks (mkContext g_zero AmountBig_zero AmountBig_zero (mkHR 5 5) 0) 1 demo_batches) s ->
    VerifyBlock demo_sha default_Rules false demo_equations (block_params 1) zero_hash block_vectors 1 demo_batches (mkHR 5 5) true false) as H.
  { intros s H1 H2 H3 <- H4. by apply VerifyBlock_done. }
  eapply H; [| | | |].
  5: { eapply rtc_l; [by apply (step_start _ _ _ _ _ _ _ 0)|]. apply rtc_once.
       apply (step_finish _ _ _ _ _ _ _ 0 0 (mkHR 5 5) (fun _ => false) (mkBatch false 77 (g_mul 5 G_raw)) [] 0); [reflexivity|reflexivity|].
       by intros [? ?]. }
  - destruct (Exec_batch _ _ _ _ _ _ _ _ _ _ _ _ _). destruct (Exec_locked _ _ _ _). by repeat constructor.
  - vm_compute. reflexivity.
  - vm_compute. reflexivity.
  - vm_compute. reflexivity.
Qed.

Lemma Public_Create_ok sk nonce v o : public_ok (Public_Create (G := zn) demo_sha sk nonce v (replicate 48 0) o).
Proof.
  unfold Public_Create, Sign. generalize (@SignPartial zn). intros f. split.
  - split; [apply point_ok_Export|]. split; [apply bytes_ok_be_bytes|apply length_be_bytes].
  - split; [apply bytes_ok_zeros|apply length_replicate].
Qed.

Lemma block_vectors_std : vectors_std false 1 block_vectors.
Proof.
  split; [constructor| |]; (constructor; [|constructor]); [|apply ex_signed_key].
  split; [|by right]. unfold block_output. cbv zeta.
  split_and!; [split; [apply point_ok_Export|done]|apply zero_hash_ok|done|].
  intros pub E. apply (inj Some) in E as <-. apply Public_Create_ok.
Qed.

Lemma block_vectors_typed : vectors_typed block_vectors.
Proof.
  split; [|apply demo_tx_typed]. constructor; [|constructor]. intros pub E. apply (inj Some) in E as <-.
  change (in_width 64 block_value). unfold in_width. split; vm_compute; congruence.
Qed.

Lemma verify_block_witness :
  block_ok demo_sha default_Rules false demo_equations zero_hash block_vectors 1 (mkHR 5 5).
Proof.
  destruct (verify_block demo_sha default_Rules false demo_equations zero_hash block_vectors 1 demo_batches (mkHR 5 5) 1) as [_ H];
    [lia|lia|discriminate|exact demo_batches_clean|split; vm_compute; try split; congruence|vm_compute; congruence|vm_compute; congruence
    |vm_compute; congruence|vm_compute; congruence|apply block_vectors_typed|apply block_vectors_std|].
  destruct (H true false demo_block_accepted) as [_ H']. exact (H' eq_refl eq_refl).
Defined.
