(* ===== verification/BlockRW.v ===== *)
(** Streams of transaction elements: [TxBase::IReader] and [TxBase::IWriter]
    with [Dump] and [Combine] of [core/block_rw.cpp], and the block bodies that
    are put together with them.

    The two interfaces are type classes.  What [Combine] does is proved for
    every reader that keeps the contract of [IReader] (three streams, each with
    its own position) and every writer; [TxVectors::Reader] and
    [TxVectors::Writer] are instances. *)

From stdpp Require Import sorting.
From S2P Require Import Prelude UintBig EccData Difficulty Merkle UtxoTree Rules SystemState TxBase Ecc Kernel Validation.

Class IReader (R : Type) := {
  m_pUtxoIn : R -> option Input;
  m_pUtxoOut : R -> option Output;
  m_pKernel : R -> option TxKernel;
  rd_Reset : R -> R;
  rd_NextUtxoIn : R -> R;
  rd_NextUtxoOut : R -> R;
  rd_NextKernel : R -> R
}.

Class IWriter (W : Type) := {
  wr_Input : W -> Input -> W;
  wr_Output : W -> Output -> W;
  wr_Kernel : W -> TxKernel -> W
}.

(** [TxVectors::Reader] and [TxVectors::Writer]. *)
#[export] Instance Reader_IReader : IReader Reader := {|
  m_pUtxoIn := rd_pUtxoIn;
  m_pUtxoOut := rd_pUtxoOut;
  m_pKernel := rd_pKernel;
  rd_Reset r := Reader_Reset (rd_V r);
  rd_NextUtxoIn := NextUtxoIn;
  rd_NextUtxoOut := NextUtxoOut;
  rd_NextKernel := NextKernel
|}.

#[export] Instance Writer_IWriter : IWriter TxVectors := {|
  wr_Input := Write_Input;
  wr_Output := Write_Output;
  wr_Kernel := Write_TxKernel
|}.

(** [get_Reader]. *)
Definition get_Reader (v : TxVectors) : Reader := Reader_Reset v.

Section rw.
Context (ig : bool) {R W : Type} `{!IReader R, !IWriter W}.

(** ** [Dump]: every loop ends with the stream; [None] when out of fuel *)
Section drain.
Context {A : Type} (cur : R -> option A) (next : R -> R) (write : W -> A -> W).

Fixpoint Dump_loop (fuel : nat) (r : R) (w : W) : option (R * W) :=
  match fuel with
  | O => None
  | S fuel =>
      match cur r with
      | Some x => Dump_loop fuel (next r) (write w x)
      | None => Some (r, w)
      end
  end.
End drain.

Definition Dump (fuel : nat) (w : W) (r : R) : option W :=
  match Dump_loop m_pUtxoIn rd_NextUtxoIn wr_Input fuel (rd_Reset r) w with
  | None => None
  | Some (r, w) =>
      match Dump_loop m_pUtxoOut rd_NextUtxoOut wr_Output fuel r w with
      | None => None
      | Some (r, w) =>
          match Dump_loop m_pKernel rd_NextKernel wr_Kernel fuel r w with
          | None => None
          | Some (_, w) => Some w
          end
      end
  end.

(** ** [Combine] *)

(** The choice of the least current element: [best] is the element and the
    reader it is from. *)
Definition better {A} (cmp : A -> A -> Z) (best : option (A * nat)) (p : option A) (i : nat) : option (A * nat) :=
  match p with
  | None => best
  | Some x =>
      match best with
      | None => Some (x, i)
      | Some (y, _) => if 0 <? cmp y x then Some (x, i) else best
      end
  end.

Fixpoint Utxo_select (i : nat) (rs : list R) (pInp : option (Input * nat)) (pOut : option (Output * nat))
  : option (Input * nat) * option (Output * nat) :=
  match rs with
  | [] => (pInp, pOut)
  | r :: rs =>
      Utxo_select (S i) rs (better (Input_cmp ig) pInp (m_pUtxoIn r) i) (better (Output_cmp ig) pOut (m_pUtxoOut r) i)
  end.

Fixpoint Kernel_select (i : nat) (rs : list R) (pKrn : option (TxKernel * nat)) : option (TxKernel * nat) :=
  match rs with
  | [] => pKrn
  | r :: rs => Kernel_select (S i) rs (better (TxKernel_cmp ig) pKrn (m_pKernel r) i)
  end.

(** [bStop n] is the [n]-th reading of the stop flag. A loop gives whether it was
    not stopped, the readers, what was written and the readings so far; [None]
    when out of fuel. *)
Context (bStop : nat -> bool).
Abbreviation result := (option (bool * list R * W * nat)).

Fixpoint Utxo_loop (fuel : nat) (rs : list R) (w : W) (n : nat) : result :=
  match fuel with
  | O => None
  | S fuel =>
      if bStop n then Some (false, rs, w, S n)
      else
        match Utxo_select 0 rs None None with
        | (None, None) => Some (true, rs, w, S n)
        | (Some (i, iInp), None) => Utxo_loop fuel (alter rd_NextUtxoIn iInp rs) (wr_Input w i) (S n)
        | (None, Some (o, iOut)) => Utxo_loop fuel (alter rd_NextUtxoOut iOut rs) (wr_Output w o) (S n)
        | (Some (i, iInp), Some (o, iOut)) =>
            let c := CmpInOut ig i o in
            if 0 <? c then Utxo_loop fuel (alter rd_NextUtxoOut iOut rs) (wr_Output w o) (S n)
            else if c =? 0 then
              Utxo_loop fuel (alter rd_NextUtxoOut iOut (alter rd_NextUtxoIn iInp rs)) w (S n)
            else Utxo_loop fuel (alter rd_NextUtxoIn iInp rs) (wr_Input w i) (S n)
        end
  end.

Fixpoint Kernel_loop (fuel : nat) (rs : list R) (w : W) (n : nat) : result :=
  match fuel with
  | O => None
  | S fuel =>
      if bStop n then Some (false, rs, w, S n)
      else
        match Kernel_select 0 rs None with
        | None => Some (true, rs, w, S n)
        | Some (k, iSrc) => Kernel_loop fuel (alter rd_NextKernel iSrc rs) (wr_Kernel w k) (S n)
        end
  end.

Definition Combine (fuel : nat) (rs : list R) (w : W) : option (bool * W) :=
  match Utxo_loop fuel (rd_Reset <$> rs) w 0 with
  | None => None
  | Some (false, _, w, _) => Some (false, w)
  | Some (true, rs, w, n) =>
      match Kernel_loop fuel rs w n with
      | None => None
      | Some (b, _, w, _) => Some (b, w)
      end
  end.
End rw.

(** ** Block bodies *)

(** [Block::BodyBase::Merge], on offsets. *)
Definition BodyBase_Merge (offset next : list Z) : list Z :=
  Scalar_Export (scalar_add (Scalar_Import offset).1 (Scalar_Import next).1).

Section body.
Context (sha256 : list Z -> list Z) (r : Rules) (ig : bool) {G : Type} `{!Curve G, !OracleDraws G}.
Context (Confidential_IsValid : list Z -> G -> list Z -> G -> bool).

(** [Block::BodyBase::IsValid]; [None] when the emission loop does not finish. *)
Definition BodyBase_IsValid (offset : list Z) (v : TxVectors) (hr : HeightRange) : option bool :=
  if (m_Min hr <? HeightGenesis) || HR.IsEmpty hr then Some false
  else
    let p := mkParams true true false 1 in
    match ValidateAndSummarize sha256 r ig (fun _ => false) Confidential_IsValid p
            (mkContext g_zero AmountBig_zero AmountBig_zero hr 0) offset v with
    | None => Some false
    | Some c => IsValidBlock r p c
    end.
End body.

(** * Facts *)

(** ** Merging several sorted lists *)
Section kmerge.
Context {A : Type} (cmp : A -> A -> Z) (ok : A -> Prop) (Hpre : cmp_pre cmp ok).

Fixpoint kpick (i : nat) (ls : list (list A)) (best : option (A * nat)) : option (A * nat) :=
  match ls with
  | [] => best
  | l :: ls => kpick (S i) ls (better cmp best (head l) i)
  end.

Fixpoint kmerge_fuel (n : nat) (ls : list (list A)) : list A :=
  match n with
  | O => []
  | S n => match kpick 0 ls None with None => [] | Some (x, i) => x :: kmerge_fuel n (alter tail i ls) end
  end.
Definition kmerge (ls : list (list A)) : list A := kmerge_fuel (length (concat ls)) ls.

Definition below (x : A) (l : list A) : Prop := match head l with Some y => cmp x y <= 0 | None => True end.

(** The choice among what was seen before ([seen], at [0 .. i-1]) and the rest. *)
Lemma kpick_from i ls best seen :
  length seen = i -> Forall (Forall ok) (seen ++ ls) ->
  match best with
  | None => Forall (fun l => l = []) seen
  | Some (x, k) => (exists l, seen !! k = Some (x :: l)) /\ Forall (below x) seen
  end ->
  match kpick i ls best with
  | None => Forall (fun l => l = []) (seen ++ ls)
  | Some (x, k) => (exists l, (seen ++ ls) !! k = Some (x :: l)) /\ Forall (below x) (seen ++ ls)
  end.
Proof.
  destruct Hpre as [S T]. revert i best seen. induction ls as [|l ls IH]; intros i best seen Hi Hok Hb; cbn [kpick].
  { by rewrite app_nil_r. }
  rewrite cons_middle, app_assoc in *. apply IH; [rewrite length_app; cbn; lia|done|].
  apply Forall_app in Hok as [Hok _]. apply Forall_app in Hok as [Hseen Hl]. apply Forall_cons in Hl as [Hl _].
  destruct l as [|y l]; cbn [head better].
  - destruct best as [[x k]|]; [|apply Forall_app; split; [done|by repeat constructor]].
    destruct Hb as [[l' Hk] Hb]. split; [exists l'; by apply lookup_app_l_Some|]. apply Forall_app. split; [done|by repeat constructor].
  - apply Forall_cons in Hl as [Hy Hl]. assert (cmp y y <= 0) as Hyy by (pose proof (S y y Hy Hy); lia).
    assert (exists l', (seen ++ [y :: l]) !! i = Some (y :: l')) as Hhere.
    { exists l. rewrite lookup_app_r by lia. by rewrite Hi, Nat.sub_diag. }
    destruct best as [[x k]|].
    + destruct Hb as [[l' Hk] Hb]. assert (ok x) as Hx.
      { eapply Forall_lookup_1 in Hseen; [|exact Hk]. by apply Forall_cons in Hseen as [? _]. }
      destruct (Z.ltb_spec 0 (cmp x y)) as [Hlt|Hge].
      * split; [done|]. apply Forall_app. split; [|by repeat constructor].
        apply Forall_forall. intros s Hs. unfold below. destruct (head s) as [z|] eqn:Ez; [|done].
        assert (ok z) as Hz. { eapply Forall_forall in Hseen; [|exact Hs]. destruct s; [done|]. cbn in Ez. simplify_eq. by apply Forall_cons in Hseen as [? _]. }
        eapply Forall_forall in Hb; [|exact Hs]. unfold below in Hb. rewrite Ez in Hb.
        apply (T y x z); try done. apply S in Hlt; [lia|done|done].
      * split; [exists l'; by apply lookup_app_l_Some|]. apply Forall_app. split; [done|]. by repeat constructor.
    + split; [done|]. apply Forall_app. split; [|by repeat constructor].
      eapply Forall_impl; [exact Hb|]. by intros s ->.
Qed.

Lemma kpick_spec ls : Forall (Forall ok) ls ->
  match kpick 0 ls None with
  | None => Forall (fun l => l = []) ls
  | Some (x, i) => (exists l, ls !! i = Some (x :: l)) /\ Forall (below x) ls
  end.
Proof. intros H. by apply (kpick_from 0 ls None []). Qed.

Lemma concat_pop (ls : list (list A)) i x l : ls !! i = Some (x :: l) -> concat ls ≡ₚ x :: concat (alter tail i ls).
Proof.
  revert i. induction ls as [|k ls IH]; intros [|i] H; cbn in H; simplify_eq; try done.
  cbn. fold (concat ls). rewrite (IH i H). by rewrite Permutation_middle.
Qed.

Lemma pop_Forall (P : list A -> Prop) i (ls : list (list A)) :
  (forall l, P l -> P (tail l)) -> Forall P ls -> Forall P (alter tail i ls).
Proof. intros HP H. apply Forall_alter; [done|]. intros l _. apply HP. Qed.

Lemma concat_all_nil (ls : list (list A)) : Forall (fun l => l = []) ls -> concat ls = [].
Proof. induction 1 as [|l ls -> _ IH]; done. Qed.

Lemma kmerge_unfold ls : Forall (Forall ok) ls ->
  kmerge ls = match kpick 0 ls None with None => [] | Some (x, i) => x :: kmerge (alter tail i ls) end.
Proof.
  intros Hok. pose proof (kpick_spec ls Hok) as Hp. unfold kmerge. destruct (kpick 0 ls None) as [[x i]|] eqn:Ek.
  - destruct Hp as [[l Hi] _]. rewrite (Permutation_length (concat_pop ls i x l Hi)). cbn [length kmerge_fuel]. by rewrite Ek.
  - by rewrite concat_all_nil.
Qed.

Lemma tail_ok (l : list A) : Forall ok l -> Forall ok (tail l).
Proof. destruct 1; [constructor|done]. Qed.

(** Induction over the steps of the merge. *)
Lemma kmerge_ind (P : list (list A) -> Prop) :
  (forall ls, Forall (Forall ok) ls -> Forall (fun l => l = []) ls -> P ls) ->
  (forall ls x i l, Forall (Forall ok) ls -> kpick 0 ls None = Some (x, i) -> ls !! i = Some (x :: l) ->
     Forall (below x) ls -> P (alter tail i ls) -> P ls) ->
  forall ls, Forall (Forall ok) ls -> P ls.
Proof.
  intros H0 H1 ls. remember (length (concat ls)) as m eqn:Em. revert ls Em.
  induction m as [m IH] using lt_wf_ind. intros ls -> Hok. pose proof (kpick_spec ls Hok) as Hp.
  destruct (kpick 0 ls None) as [[x i]|] eqn:Ek; [|by apply H0]. destruct Hp as [[l Hi] Hb].
  apply (H1 ls x i l Hok Ek Hi Hb). eapply IH; [|done|apply pop_Forall; [apply tail_ok|done]].
  rewrite (Permutation_length (concat_pop ls i x l Hi)). cbn. lia.
Qed.

Lemma kpick_none ls : Forall (fun l => l = []) ls -> kpick 0 ls None = None.
Proof.
  generalize 0%nat. induction ls as [|l ls IH]; intros i H; [done|]. apply Forall_cons in H as [-> H]. by apply IH.
Qed.

Lemma kmerge_perm ls : Forall (Forall ok) ls -> kmerge ls ≡ₚ concat ls.
Proof.
  revert ls. apply kmerge_ind.
  - intros ls Hok H. by rewrite kmerge_unfold, kpick_none, concat_all_nil by done.
  - intros ls x i l Hok Ek Hi _ IH. by rewrite kmerge_unfold, Ek, IH, <- (concat_pop ls i x l Hi) by done.
Qed.

Lemma kmerge_sorted ls : Forall (Forall ok) ls -> Forall (ascending cmp) ls -> ascending cmp (kmerge ls).
Proof.
  revert ls. apply (kmerge_ind (fun ls => Forall (ascending cmp) ls -> ascending cmp (kmerge ls))).
  - intros ls Hok H _. rewrite kmerge_unfold, kpick_none by done. constructor.
  - intros ls x i l Hok Ek Hi Hb IH Hs. rewrite kmerge_unfold, Ek by done.
    assert (Forall (ascending cmp) (alter tail i ls)) as Hs'.
    { apply pop_Forall; [|done]. intros k Hk. destruct Hk as [|y k Hk _]; [constructor|done]. }
    constructor; [by apply IH|]. rewrite kmerge_perm by (apply pop_Forall; [apply tail_ok|done]).
    assert (ok x) as Hx. { eapply Forall_lookup_1 in Hok; [|exact Hi]. by apply Forall_cons in Hok as [? _]. }
    assert (Forall (Forall (fun y => cmp x y <= 0)) ls) as Hall.
    { apply Forall_forall. intros k Hk. pose proof (proj1 (Forall_forall _ _) Hs k Hk) as Sk. pose proof (proj1 (Forall_forall _ _) Hb k Hk) as Bk.
      pose proof (proj1 (Forall_forall _ _) Hok k Hk) as Ok. destruct k as [|y k]; [constructor|]. cbn in Sk, Bk, Ok.
      apply StronglySorted_inv in Sk as [_ Sk]. apply Forall_cons in Ok as [Hy Ok]. constructor; [done|].
      apply Forall_forall. intros z Hz. apply (cp_trans _ _ Hpre x y z); [done|done|by eapply Forall_forall in Ok|done|by eapply Forall_forall in Sk]. }
    apply Forall_concat, pop_Forall; [|done]. intros k Hk. destruct Hk; [constructor|done].
Qed.
End kmerge.

(** ** The two streams of UTXOs against each other *)
Section cut.
Context (ig : bool).

Fixpoint cut_events (fuel : nat) (ins : list Input) (outs : list Output) : list (Input + Output) :=
  match fuel with
  | O => []
  | S fuel =>
      match ins, outs with
      | [], [] => []
      | i :: ins', [] => inl i :: cut_events fuel ins' outs
      | [], o :: outs' => inr o :: cut_events fuel ins outs'
      | i :: ins', o :: outs' =>
          if 0 <? CmpInOut ig i o then inr o :: cut_events fuel ins outs'
          else if CmpInOut ig i o =? 0 then cut_events fuel ins' outs'
          else inl i :: cut_events fuel ins' outs
      end
  end.

Definition lefts {A B} (l : list (A + B)) : list A := omap (fun e => match e with inl x => Some x | inr _ => None end) l.
Definition rights {A B} (l : list (A + B)) : list B := omap (fun e => match e with inr x => Some x | inl _ => None end) l.

(** It is the pass of [NormalizeP]. *)
Lemma cut_events_normalize fuel ins outs vi vo nDel :
  (length ins + length outs <= fuel)%nat -> NormalizeP_loop ig ins outs = (vi, vo, nDel) ->
  lefts (cut_events fuel ins outs) = omap id vi /\ rights (cut_events fuel ins outs) = omap id vo.
Proof.
  revert ins outs vi vo nDel. induction fuel as [|fuel IH]; intros ins outs vi vo nDel Hf E.
  { destruct ins, outs; cbn in Hf; try lia. cbn in E. by simplify_eq. }
  destruct ins as [|i ins].
  - cbn in E. simplify_eq. destruct outs as [|o outs]; [done|]. cbn in Hf.
    destruct (IH [] outs [] (Some <$> outs) 0 ltac:(cbn; lia) eq_refl) as [I1 I2].
    cbn [cut_events]. unfold lefts, rights in *. cbn. rewrite I1, I2. done.
  - destruct outs as [|o outs].
    + cbn in E, Hf. destruct (NormalizeP_loop ig ins []) as [[vi' vo'] n'] eqn:E'. injection E as <- <- <-.
      destruct (IH ins [] vi' vo' n' ltac:(cbn; lia) E') as [I1 I2]. cbn [cut_events]. unfold lefts, rights in *. cbn. by rewrite I1, I2.
    + cbn [cut_events]. cbn [NormalizeP_loop NormalizeP_scan] in E. cbn [length] in Hf.
      destruct (Z.ltb_spec 0 (CmpInOut ig i o)) as [Hgt|Hle].
      * rewrite (proj2 (Z.leb_gt _ _)) in E by lia. destruct (NormalizeP_scan ig i outs) as [[pre del] rest] eqn:Es.
        destruct (NormalizeP_loop ig ins rest) as [[vi' vo'] n'] eqn:E'. injection E as <- <- <-.
        destruct (IH (i :: ins) outs ((if del then None else Some i) :: vi') (pre ++ vo') (Z.b2z del + n') ltac:(cbn; lia)) as [I1 I2].
        { cbn [NormalizeP_loop]. by rewrite Es, E'. }
        unfold lefts, rights in *. cbn. by rewrite I1, I2.
      * rewrite (proj2 (Z.leb_le _ _)) in E by lia. destruct (Z.eqb_spec (CmpInOut ig i o) 0).
        -- destruct (NormalizeP_loop ig ins outs) as [[vi' vo'] n'] eqn:E'. injection E as <- <- <-.
           destruct (IH ins outs vi' vo' n' ltac:(lia) E') as [I1 I2]. unfold lefts, rights in *. cbn. by rewrite I1, I2.
        -- destruct (NormalizeP_loop ig ins (o :: outs)) as [[vi' vo'] n'] eqn:E'. injection E as <- <- <-.
           destruct (IH ins (o :: outs) vi' vo' n' ltac:(cbn; lia) E') as [I1 I2]. unfold lefts, rights in *. cbn. by rewrite I1, I2.
Qed.
End cut.

(** ** The contract of a reader

    Each stream has what is left ([s_]) and what it is after [Reset] ([a_]). *)
Class ReaderContract (R : Type) `{!IReader R} := {
  rd_ok : R -> Prop;
  s_in : R -> list Input; s_out : R -> list Output; s_krn : R -> list TxKernel;
  a_in : R -> list Input; a_out : R -> list Output; a_krn : R -> list TxKernel;
  reset_ok r : rd_ok (rd_Reset r);
  reset_in r : s_in (rd_Reset r) = a_in r;
  reset_out r : s_out (rd_Reset r) = a_out r;
  reset_krn r : s_krn (rd_Reset r) = a_krn r;
  cur_in r : rd_ok r -> m_pUtxoIn r = head (s_in r);
  cur_out r : rd_ok r -> m_pUtxoOut r = head (s_out r);
  cur_krn r : rd_ok r -> m_pKernel r = head (s_krn r);
  next_in r : rd_ok r -> rd_ok (rd_NextUtxoIn r) /\ s_in (rd_NextUtxoIn r) = tail (s_in r) /\
    s_out (rd_NextUtxoIn r) = s_out r /\ s_krn (rd_NextUtxoIn r) = s_krn r;
  next_out r : rd_ok r -> rd_ok (rd_NextUtxoOut r) /\ s_in (rd_NextUtxoOut r) = s_in r /\
    s_out (rd_NextUtxoOut r) = tail (s_out r) /\ s_krn (rd_NextUtxoOut r) = s_krn r;
  next_krn r : rd_ok r -> rd_ok (rd_NextKernel r) /\ s_in (rd_NextKernel r) = s_in r /\
    s_out (rd_NextKernel r) = s_out r /\ s_krn (rd_NextKernel r) = tail (s_krn r)
}.

(** [TxVectors::Reader] keeps it. *)
#[export] Program Instance Reader_contract : ReaderContract Reader := {|
  rd_ok := reader_ok;
  s_in := stream_in; s_out := stream_out; s_krn := stream_krn;
  a_in r := m_vInputs (rd_V r); a_out r := m_vOutputs (rd_V r); a_krn r := m_vKernels (rd_V r)
|}.
Next Obligation. intros r. unfold reader_ok, stream_in, stream_out, stream_krn. cbn. by rewrite !get_FromVector_lookup, !drop_0, <- !head_drop, !drop_0. Qed.
Next Obligation. intros r. apply drop_0. Qed.
Next Obligation. intros r. apply drop_0. Qed.
Next Obligation. intros r. apply drop_0. Qed.
Next Obligation. by intros r (H & _ & _). Qed.
Next Obligation. by intros r (_ & H & _). Qed.
Next Obligation. by intros r (_ & _ & H). Qed.
Next Obligation.
  intros r (Hi & Ho & Hk). unfold reader_ok, stream_in, stream_out, stream_krn in *. cbn.
  by rewrite !get_FromVector_lookup, !tail_drop, !head_drop in *.
Qed.
Next Obligation.
  intros r (Hi & Ho & Hk). unfold reader_ok, stream_in, stream_out, stream_krn in *. cbn.
  by rewrite !get_FromVector_lookup, !tail_drop, !head_drop in *.
Qed.
Next Obligation.
  intros r (Hi & Ho & Hk). unfold reader_ok, stream_in, stream_out, stream_krn in *. cbn.
  by rewrite !get_FromVector_lookup, !tail_drop, !head_drop in *.
Qed.

(** ** What [Combine] writes *)
Section combine.
Context (ig : bool) {R W : Type} `{!IReader R, !ReaderContract R, !IWriter W} (bStop : nat -> bool).
Context (Hstop : forall n, bStop n = false).
Context (oki : Input -> Prop) (oko : Output -> Prop) (okk : TxKernel -> Prop).
Context (Hi : cmp_pre (Input_cmp ig) oki) (Ho : cmp_pre (Output_cmp ig) oko) (Hk : cmp_pre (TxKernel_cmp ig) okk).

Definition write_utxo (w : W) (e : Input + Output) : W :=
  match e with inl i => wr_Input w i | inr o => wr_Output w o end.

Lemma Utxo_select_kpick i rs bi bo :
  Forall rd_ok rs ->
  Utxo_select ig i rs bi bo = (kpick (Input_cmp ig) i (s_in <$> rs) bi, kpick (Output_cmp ig) i (s_out <$> rs) bo).
Proof.
  intros H. revert i bi bo. induction H as [|r rs Hr _ IH]; intros i bi bo; [done|]. cbn [Utxo_select]. rewrite !fmap_cons.
  cbn [kpick]. by rewrite IH, cur_in, cur_out.
Qed.

Lemma Kernel_select_kpick i rs b :
  Forall rd_ok rs -> Kernel_select ig i rs b = kpick (TxKernel_cmp ig) i (s_krn <$> rs) b.
Proof.
  intros H. revert i b. induction H as [|r rs Hr _ IH]; intros i b; [done|]. cbn [Kernel_select]. rewrite fmap_cons.
  cbn [kpick]. by rewrite IH, cur_krn.
Qed.

Lemma fmap_alter_same {A} (f : R -> A) (g : R -> R) (i : nat) (rs : list R) :
  (forall r, r ∈ rs -> f (g r) = f r) -> f <$> alter g i rs = f <$> rs.
Proof.
  intros H. revert i. induction rs as [|r rs IH]; intros [|i]; [done..| |]; cbn.
  - f_equal. apply H. by left.
  - f_equal. apply IH. intros x Hx. apply H. by right.
Qed.

Lemma fmap_alter_tail {A} (f : R -> list A) (g : R -> R) (i : nat) (rs : list R) :
  (forall r, r ∈ rs -> f (g r) = tail (f r)) -> f <$> alter g i rs = alter tail i (f <$> rs).
Proof.
  intros H. revert i. induction rs as [|r rs IH]; intros [|i]; [done..| |]; cbn.
  - f_equal. apply H. by left.
  - f_equal. apply IH. intros x Hx. apply H. by right.
Qed.

(** A reader moved on one of its streams. *)
Lemma moved_in i rs : Forall rd_ok rs ->
  Forall rd_ok (alter rd_NextUtxoIn i rs) /\ s_in <$> alter rd_NextUtxoIn i rs = alter tail i (s_in <$> rs) /\
  s_out <$> alter rd_NextUtxoIn i rs = s_out <$> rs /\ s_krn <$> alter rd_NextUtxoIn i rs = s_krn <$> rs.
Proof.
  intros H. pose proof (proj1 (Forall_forall _ _) H) as H'. split_and!.
  - apply Forall_alter; [done|]. intros r _ Hr. by apply next_in.
  - apply fmap_alter_tail. intros r Hr. by apply next_in, H'.
  - apply fmap_alter_same. intros r Hr. by apply next_in, H'.
  - apply fmap_alter_same. intros r Hr. by apply next_in, H'.
Qed.

Lemma moved_out i rs : Forall rd_ok rs ->
  Forall rd_ok (alter rd_NextUtxoOut i rs) /\ s_in <$> alter rd_NextUtxoOut i rs = s_in <$> rs /\
  s_out <$> alter rd_NextUtxoOut i rs = alter tail i (s_out <$> rs) /\ s_krn <$> alter rd_NextUtxoOut i rs = s_krn <$> rs.
Proof.
  intros H. pose proof (proj1 (Forall_forall _ _) H) as H'. split_and!.
  - apply Forall_alter; [done|]. intros r _ Hr. by apply next_out.
  - apply fmap_alter_same. intros r Hr. by apply next_out, H'.
  - apply fmap_alter_tail. intros r Hr. by apply next_out, H'.
  - apply fmap_alter_same. intros r Hr. by apply next_out, H'.
Qed.

Lemma moved_krn i rs : Forall rd_ok rs ->
  Forall rd_ok (alter rd_NextKernel i rs) /\ s_krn <$> alter rd_NextKernel i rs = alter tail i (s_krn <$> rs).
Proof.
  intros H. pose proof (proj1 (Forall_forall _ _) H) as H'. split.
  - apply Forall_alter; [done|]. intros r _ Hr. by apply next_krn.
  - apply fmap_alter_tail. intros r Hr. by apply next_krn, H'.
Qed.

Lemma Utxo_loop_spec fuel rs w n :
  Forall rd_ok rs -> Forall (Forall oki) (s_in <$> rs) -> Forall (Forall oko) (s_out <$> rs) ->
  (length (concat (s_in <$> rs)) + length (concat (s_out <$> rs)) < fuel)%nat ->
  exists rs' n',
    Utxo_loop ig bStop fuel rs w n
      = Some (true, rs', foldl write_utxo w (cut_events ig fuel (kmerge (Input_cmp ig) (s_in <$> rs)) (kmerge (Output_cmp ig) (s_out <$> rs))), n') /\
    Forall rd_ok rs' /\ s_krn <$> rs' = s_krn <$> rs.
Proof.
  revert rs w n. induction fuel as [|fuel IH]; intros rs w n Hrs Hoi Hoo Hf; [lia|].
  cbn [Utxo_loop cut_events]. rewrite Hstop, Utxo_select_kpick by done.
  rewrite (kmerge_unfold _ _ Hi (s_in <$> rs)), (kmerge_unfold _ _ Ho (s_out <$> rs)) by done.
  pose proof (kpick_spec _ _ Hi _ Hoi) as Pi. pose proof (kpick_spec _ _ Ho _ Hoo) as Po.
  assert (forall l, Forall oki l -> Forall oki (tail l)) as Ti by (intros l; apply tail_ok).
  assert (forall l, Forall oko l -> Forall oko (tail l)) as To by (intros l; apply tail_ok).
  destruct (kpick _ 0 (s_in <$> rs) None) as [[i ii]|] eqn:Ei, (kpick _ 0 (s_out <$> rs) None) as [[o io]|] eqn:Eo.
  - destruct Pi as [[li Li] _], Po as [[lo Lo] _].
    pose proof (Permutation_length (concat_pop _ _ _ _ Li)) as Hli. pose proof (Permutation_length (concat_pop _ _ _ _ Lo)) as Hlo.
    cbn [length] in Hli, Hlo. destruct (moved_in ii rs Hrs) as (I1 & I2 & I3 & I4). destruct (moved_out io rs Hrs) as (O1 & O2 & O3 & O4).
    destruct (Z.ltb_spec 0 (CmpInOut ig i o)); [|destruct (Z.eqb_spec (CmpInOut ig i o) 0)].
    + destruct (IH (alter rd_NextUtxoOut io rs) (wr_Output w o) (S n)) as (rs' & n' & E & E1 & E2);
        rewrite ?O2, ?O3; [done|done|by apply pop_Forall|lia|].
      exists rs', n'. rewrite E, O2, O3, E2, O4. rewrite (kmerge_unfold _ _ Hi (s_in <$> rs)), Ei by done. done.
    + destruct (moved_out io (alter rd_NextUtxoIn ii rs) I1) as (M1 & M2 & M3 & M4). rewrite I2 in M2. rewrite I3 in M3. rewrite I4 in M4.
      destruct (IH (alter rd_NextUtxoOut io (alter rd_NextUtxoIn ii rs)) w (S n)) as (rs' & n' & E & E1 & E2);
        rewrite ?M2, ?M3; [done|by apply pop_Forall|by apply pop_Forall|lia|].
      exists rs', n'. by rewrite E, M2, M3, E2, M4.
    + destruct (IH (alter rd_NextUtxoIn ii rs) (wr_Input w i) (S n)) as (rs' & n' & E & E1 & E2);
        rewrite ?I2, ?I3; [done|by apply pop_Forall|done|lia|].
      exists rs', n'. rewrite E, I2, I3, E2, I4. rewrite (kmerge_unfold _ _ Ho (s_out <$> rs)), Eo by done. done.
  - destruct Pi as [[li Li] _]. pose proof (Permutation_length (concat_pop _ _ _ _ Li)) as Hli. cbn [length] in Hli.
    destruct (moved_in ii rs Hrs) as (I1 & I2 & I3 & I4).
    destruct (IH (alter rd_NextUtxoIn ii rs) (wr_Input w i) (S n)) as (rs' & n' & E & E1 & E2);
      rewrite ?I2, ?I3; [done|by apply pop_Forall|done|lia|].
    exists rs', n'. rewrite E, I2, I3, E2, I4. rewrite (kmerge_unfold _ _ Ho (s_out <$> rs)), Eo by done. done.
  - destruct Po as [[lo Lo] _]. pose proof (Permutation_length (concat_pop _ _ _ _ Lo)) as Hlo. cbn [length] in Hlo.
    destruct (moved_out io rs Hrs) as (O1 & O2 & O3 & O4).
    destruct (IH (alter rd_NextUtxoOut io rs) (wr_Output w o) (S n)) as (rs' & n' & E & E1 & E2);
      rewrite ?O2, ?O3; [done|done|by apply pop_Forall|lia|].
    exists rs', n'. rewrite E, O2, O3, E2, O4. rewrite (kmerge_unfold _ _ Hi (s_in <$> rs)), Ei by done. done.
  - by exists rs, (S n).
Qed.

Lemma Kernel_loop_spec fuel rs w n :
  Forall rd_ok rs -> Forall (Forall okk) (s_krn <$> rs) -> (length (concat (s_krn <$> rs)) < fuel)%nat ->
  exists rs' n', Kernel_loop ig bStop fuel rs w n = Some (true, rs', foldl wr_Kernel w (kmerge (TxKernel_cmp ig) (s_krn <$> rs)), n').
Proof.
  revert rs w n. induction fuel as [|fuel IH]; intros rs w n Hrs Hok Hf; [lia|].
  cbn [Kernel_loop]. rewrite Hstop, Kernel_select_kpick by done. rewrite (kmerge_unfold _ _ Hk (s_krn <$> rs)) by done.
  pose proof (kpick_spec _ _ Hk _ Hok) as Pk. destruct (kpick _ 0 (s_krn <$> rs) None) as [[k ik]|] eqn:Ek; [|by exists rs, (S n)].
  destruct Pk as [[l Lk] _]. pose proof (Permutation_length (concat_pop _ _ _ _ Lk)) as Hl. cbn [length] in Hl.
  destruct (moved_krn ik rs Hrs) as [M1 M2].
  destruct (IH (alter rd_NextKernel ik rs) (wr_Kernel w k) (S n)) as (rs' & n' & E); rewrite ?M2; [done| |lia|].
  { apply pop_Forall; [|done]. intros l'. apply tail_ok. }
  exists rs', n'. by rewrite E, M2.
Qed.

(** More than the elements of the longest phase is enough fuel. *)
Definition combine_size (rs : list R) : nat :=
  length (concat (a_in <$> rs)) + length (concat (a_out <$> rs)) + length (concat (a_krn <$> rs)).

Lemma Combine_spec fuel rs w :
  Forall (Forall oki) (a_in <$> rs) -> Forall (Forall oko) (a_out <$> rs) -> Forall (Forall okk) (a_krn <$> rs) ->
  (combine_size rs < fuel)%nat ->
  Combine ig bStop fuel rs w
    = Some (true, foldl wr_Kernel
        (foldl write_utxo w (cut_events ig fuel (kmerge (Input_cmp ig) (a_in <$> rs)) (kmerge (Output_cmp ig) (a_out <$> rs))))
        (kmerge (TxKernel_cmp ig) (a_krn <$> rs))).
Proof.
  intros H1 H2 H3 Hf. unfold combine_size in Hf. unfold Combine.
  assert (Forall rd_ok (rd_Reset <$> rs)) as Hok by (apply Forall_fmap, Forall_true; intros r; apply reset_ok).
  assert (s_in <$> (rd_Reset <$> rs) = a_in <$> rs) as E1 by (rewrite <- list_fmap_compose; apply list_fmap_ext; intros; apply reset_in).
  assert (s_out <$> (rd_Reset <$> rs) = a_out <$> rs) as E2 by (rewrite <- list_fmap_compose; apply list_fmap_ext; intros; apply reset_out).
  assert (s_krn <$> (rd_Reset <$> rs) = a_krn <$> rs) as E3 by (rewrite <- list_fmap_compose; apply list_fmap_ext; intros; apply reset_krn).
  destruct (Utxo_loop_spec fuel (rd_Reset <$> rs) w 0) as (rs1 & n1 & E & K1 & K2); rewrite ?E1, ?E2; [done|done|done|lia|].
  rewrite E, E1, E2. rewrite E3 in K2.
  destruct (Kernel_loop_spec fuel rs1 (foldl write_utxo w (cut_events ig fuel (kmerge (Input_cmp ig) (a_in <$> rs)) (kmerge (Output_cmp ig) (a_out <$> rs)))) n1 K1)
    as (rs2 & n2 & E'); rewrite ?K2; [done|lia|]. by rewrite E', K2.
Qed.
End combine.

(** ** [Dump] writes every stream to its end *)
Section dump.
Context {R W : Type} `{!IReader R, !ReaderContract R, !IWriter W}.

Lemma Dump_loop_spec {A} (cur : R -> option A) (next : R -> R) (write : W -> A -> W) (s : R -> list A) fuel rd w :
  (forall rd, rd_ok rd -> cur rd = head (s rd)) -> (forall rd, rd_ok rd -> rd_ok (next rd) /\ s (next rd) = tail (s rd)) ->
  rd_ok rd -> (length (s rd) < fuel)%nat ->
  exists k, Dump_loop cur next write fuel rd w = Some (Nat.iter k next rd, foldl write w (s rd)).
Proof.
  intros Hc Hn. revert rd w. induction fuel as [|fuel IH]; intros rd w Hok Hf; [lia|]. cbn [Dump_loop]. rewrite Hc by done.
  destruct (Hn rd Hok) as [H1 H2]. destruct (s rd) as [|x l] eqn:Es; cbn [head]; [by exists 0%nat|].
  destruct (IH (next rd) (write w x) H1) as [k E]; [rewrite H2; cbn in *; lia|]. exists (S k). by rewrite E, H2, Nat.iter_succ_r.
Qed.

Lemma iter_next {A} (f : R -> A) (next : R -> R) k rd :
  (forall rd, rd_ok rd -> rd_ok (next rd) /\ f (next rd) = f rd) -> rd_ok rd ->
  rd_ok (Nat.iter k next rd) /\ f (Nat.iter k next rd) = f rd.
Proof. intros H Hok. induction k as [|k [I1 I2]]; [done|].
  change (Nat.iter (S k) next rd) with (next (Nat.iter k next rd)). destruct (H _ I1) as [H1 H2]. split; [done|by rewrite H2, I2].
Qed.

Lemma Dump_spec fuel w rd :
  (length (a_in rd) < fuel)%nat -> (length (a_out rd) < fuel)%nat -> (length (a_krn rd) < fuel)%nat ->
  Dump fuel w rd = Some (foldl wr_Kernel (foldl wr_Output (foldl wr_Input w (a_in rd)) (a_out rd)) (a_krn rd)).
Proof.
  intros F1 F2 F3. unfold Dump. pose proof (reset_ok rd) as Hok.
  destruct (Dump_loop_spec m_pUtxoIn rd_NextUtxoIn wr_Input s_in fuel (rd_Reset rd) w) as [k1 E1];
    [apply cur_in|intros x Hx; by destruct (next_in x Hx) as (? & ? & _)|done|by rewrite reset_in|]. rewrite E1, reset_in.
  destruct (iter_next s_out rd_NextUtxoIn k1 (rd_Reset rd)) as [O1 S1]; [intros x Hx; by destruct (next_in x Hx) as (? & _ & ? & _)|done|].
  destruct (iter_next s_krn rd_NextUtxoIn k1 (rd_Reset rd)) as [_ T1]; [intros x Hx; by destruct (next_in x Hx) as (? & _ & _ & ?)|done|].
  set (rd1 := Nat.iter k1 rd_NextUtxoIn (rd_Reset rd)) in *. rewrite reset_out in S1. rewrite reset_krn in T1.
  destruct (Dump_loop_spec m_pUtxoOut rd_NextUtxoOut wr_Output s_out fuel rd1 (foldl wr_Input w (a_in rd))) as [k2 E2];
    [apply cur_out|intros x Hx; by destruct (next_out x Hx) as (? & _ & ? & _)|done|by rewrite S1|]. rewrite E2, S1.
  destruct (iter_next s_krn rd_NextUtxoOut k2 rd1) as [O2 T2]; [intros x Hx; by destruct (next_out x Hx) as (? & _ & _ & ?)|done|].
  set (rd2 := Nat.iter k2 rd_NextUtxoOut rd1) in *. rewrite T1 in T2.
  destruct (Dump_loop_spec m_pKernel rd_NextKernel wr_Kernel s_krn fuel rd2 (foldl wr_Output (foldl wr_Input w (a_in rd)) (a_out rd))) as [k3 E3];
    [apply cur_krn|intros x Hx; by destruct (next_krn x Hx) as (? & _ & _ & ?)|done|by rewrite T2|]. by rewrite E3, T2.
Qed.
End dump.

(** ** Writing into vectors *)
Lemma foldl_write_utxo ev v :
  foldl write_utxo v ev = mkVectors (m_vInputs v ++ lefts ev) (m_vOutputs v ++ rights ev) (m_vKernels v).
Proof.
  revert v. induction ev as [|e ev IH]; intros v; [cbn; rewrite !app_nil_r; by destruct v|].
  cbn [foldl]. rewrite IH. destruct e as [i|o]; unfold lefts, rights; cbn; unfold PushVectorPtr; rewrite <- app_assoc; cbn.
  - done.
  - by destruct o.
Qed.

Lemma foldl_write_kernel ks v :
  foldl wr_Kernel v ks = mkVectors (m_vInputs v) (m_vOutputs v) (m_vKernels v ++ (TxKernel_assign TxKernel_new <$> ks)).
Proof.
  revert v. induction ks as [|k ks IH]; intros v; [cbn; rewrite app_nil_r; by destruct v|].
  cbn [foldl]. rewrite IH. cbn. unfold PushVectorPtr. by rewrite <- app_assoc.
Qed.

(** Standard transactions and blocks, or macroblocks. *)
Definition in_mode (ig : bool) (ins : list Input) (outs : list Output) : Prop :=
  (Forall (std_in ig) ins /\ Forall (std_out ig) outs) \/ (ig = false /\ Forall mac_in ins).

Section combine_vectors.
Context (ig : bool) {R : Type} `{!IReader R, !ReaderContract R} (bStop : nat -> bool) (n : nat).

Record readers_ok (rs : list R) : Prop := {
  ro_in : Forall (Forall (fun i => point_ok (e_Commitment (i_Element i)))) (a_in <$> rs);
  ro_out : Forall (Forall (fun o => out_ok ig (out_key ig o))) (a_out <$> rs);
  ro_krn : Forall (Forall (fun k => kern_ok ig n (kern_key ig k))) (a_krn <$> rs);
  ro_sin : Forall (ascending (Input_cmp ig)) (a_in <$> rs);
  ro_sout : Forall (ascending (Output_cmp ig)) (a_out <$> rs);
  ro_skrn : Forall (ascending (TxKernel_cmp ig)) (a_krn <$> rs);
  ro_mode : in_mode ig (concat (a_in <$> rs)) (concat (a_out <$> rs))
}.

Lemma ro_in_key rs : readers_ok rs -> Forall (Forall (fun i => el_ok ig (in_key ig i))) (a_in <$> rs).
Proof.
  intros [H _ _ _ _ _ _]. eapply Forall_impl; [exact H|]. intros l Hl. eapply Forall_impl; [exact Hl|].
  intros i Hi. split; [done|]. cbn. by intros ->.
Qed.

Lemma Combine_vectors fuel rs :
  (forall n, bStop n = false) -> readers_ok rs -> (combine_size rs < fuel)%nat ->
  exists v' ks,
    Combine ig bStop fuel rs (mkVectors [] [] []) = Some (true, v') /\
    ascending (Input_cmp ig) (m_vInputs v') /\ ascending (Output_cmp ig) (m_vOutputs v') /\
    m_vKernels v' = TxKernel_assign TxKernel_new <$> ks /\ ks ≡ₚ concat (a_krn <$> rs) /\ ascending (TxKernel_cmp ig) ks /\
    (exists P : list (Input * Output), Forall (fun q => CmpInOut ig q.1 q.2 = 0) P /\
      concat (a_in <$> rs) ≡ₚ m_vInputs v' ++ P.*1 /\ concat (a_out <$> rs) ≡ₚ m_vOutputs v' ++ P.*2) /\
    (forall i o, i ∈ m_vInputs v' -> o ∈ m_vOutputs v' -> CmpInOut ig i o <> 0).
Proof.
  intros Hstop Hok Hf. pose proof (ro_in_key rs Hok) as H1'. destruct Hok as [_ H2 H3 S1 S2 S3 Hm].
  rewrite (Combine_spec ig bStop Hstop _ _ _ (input_pre ig) (output_pre ig) (kernel_pre ig n)) by done.
  rewrite foldl_write_kernel, foldl_write_utxo. cbn [m_vInputs m_vOutputs m_vKernels app].
  set (ins := kmerge (Input_cmp ig) (a_in <$> rs)). set (outs := kmerge (Output_cmp ig) (a_out <$> rs)).
  set (ks := kmerge (TxKernel_cmp ig) (a_krn <$> rs)).
  pose proof (kmerge_perm _ _ (input_pre ig) _ H1') as Pi. pose proof (kmerge_perm _ _ (output_pre ig) _ H2) as Po.
  pose proof (kmerge_perm _ _ (kernel_pre ig n) _ H3) as Pk.
  pose proof (kmerge_sorted _ _ (input_pre ig) _ H1' S1) as Si. pose proof (kmerge_sorted _ _ (output_pre ig) _ H2 S2) as So.
  pose proof (kmerge_sorted _ _ (kernel_pre ig n) _ H3 S3) as Sk. fold ins in Pi, Si. fold outs in Po, So. fold ks in Pk, Sk.
  destruct (NormalizeP_loop ig ins outs) as [[vi vo] nDel] eqn:El.
  destruct (cut_events_normalize ig fuel ins outs vi vo nDel) as [Ei Eo]; [|done|].
  { rewrite Pi, Po. unfold combine_size in Hf. lia. }
  destruct (NormalizeP_loop_spec _ _ _ _ _ _ El) as (P & _ & HP & P1 & P2 & L1 & L2).
  eexists _, ks. split; [done|]. cbn [m_vInputs m_vOutputs m_vKernels]. rewrite Ei, Eo. split_and!; try done.
  - by eapply StronglySorted_sublist.
  - by eapply StronglySorted_sublist.
  - exists P. split_and!; [done|by rewrite <- Pi|by rewrite <- Po].
  - destruct Hm as [[M1 M2]|[-> M1]].
    + apply (NormalizeP_loop_complete ig _ _ ins outs vi vo nDel (cut_mode_std ig)); [by rewrite Pi|by rewrite Po|done..].
    + apply (NormalizeP_loop_complete false _ _ ins outs vi vo nDel cut_mode_macro); [by rewrite Pi| |done..].
      rewrite Po. by apply Forall_concat.
Qed.
End combine_vectors.

(** ** Two sorted arrangements of the same elements have the same keys *)
Lemma sorted_keys_unique {B} (ok : B -> Prop) (cmp : B -> B -> Z) (l k : list B) :
  cmp_order ok cmp -> Forall ok l -> l ≡ₚ k -> ascending cmp l -> ascending cmp k -> l = k.
Proof.
  intros [E S T] Hok HP Sl Sk. assert (Forall ok k) as Hok' by (by rewrite <- HP).
  assert (forall x y, ok x -> ok y -> cmp x y <= 0 -> cmp y x <= 0 -> x = y) as Hanti.
  { intros x y Hx Hy H1 H2. apply E; [done..|]. pose proof (S x y Hx Hy). pose proof (S y x Hy Hx). lia. }
  revert k HP Sk Hok'. induction Hok as [|x l Hx Hok IH]; intros k HP Sk Hok'; [by apply Permutation_nil_l|].
  destruct k as [|y k]; [by apply Permutation_nil_r in HP|].
  apply StronglySorted_inv in Sl as [Sl Lx]. apply StronglySorted_inv in Sk as [Sk Ly]. apply Forall_cons in Hok' as [Hy Hok'].
  assert (x = y) as ->.
  { apply Hanti; [done..| |].
    - assert (y ∈ x :: l) as Hin by (rewrite HP; by left). apply elem_of_cons in Hin as [->|Hin]; [|by eapply Forall_forall in Lx].
      pose proof (S x x Hx Hx). lia.
    - assert (x ∈ y :: k) as Hin by (rewrite <- HP; by left). apply elem_of_cons in Hin as [->|Hin]; [|by eapply Forall_forall in Ly].
      pose proof (S y y Hy Hy). lia. }
  f_equal. apply IH; [done| |done|done]. by eapply Permutation_cons_inv.
Qed.

Lemma same_keys {A B} (f : A -> B) (cA : A -> A -> Z) (ok : B -> Prop) (cB : B -> B -> Z) (l k : list A) :
  cmp_order ok cB -> (forall a b, cA a b = cB (f a) (f b)) -> Forall (fun a => ok (f a)) l -> l ≡ₚ k ->
  ascending cA l -> ascending cA k -> f <$> l = f <$> k.
Proof.
  intros Ho Hf Hok HP Sl Sk. apply (sorted_keys_unique ok cB); [done|by apply Forall_fmap|by rewrite HP|by eapply ascending_map..].
Qed.

(** Merging sorted lists or sorting all of their elements. *)
Lemma merge_sort_keys {A B} (f : A -> B) (cA : A -> A -> Z) (ok : B -> Prop) (cB : B -> B -> Z) (ls : list (list A)) :
  cmp_order ok cB -> (forall a b, cA a b = cB (f a) (f b)) -> Forall (Forall (fun a => ok (f a))) ls ->
  Forall (ascending cA) ls -> f <$> kmerge cA ls = f <$> std_sort cA (concat ls).
Proof.
  intros Ho Hf Hok Hs. pose proof (cmp_pre_order f cA ok cB Ho Hf) as Hpre. pose proof (kmerge_perm _ _ Hpre _ Hok) as HP.
  apply Forall_concat in Hok as Hok'. apply (same_keys f cA ok cB); [done|done|by rewrite HP| |by apply (kmerge_sorted _ _ Hpre)|].
  - by rewrite HP, std_sort_perm.
  - by apply (std_sort_sorted _ _ _ Hpre).
Qed.

(** The pass over both lists looks at keys only. *)
Section keyed.
Context (ig : bool).

Lemma CmpInOut_keys i i' o o' :
  in_key ig i = in_key ig i' -> out_key ig o = out_key ig o' -> CmpInOut ig i o = CmpInOut ig i' o'.
Proof.
  destruct i as [[c m] id], i' as [[c' m'] id'], o as [[d q] cb ro inc aid pc pp], o' as [[d' q'] cb' ro' inc' aid' pc' pp'].
  unfold in_key, out_key, el_key, CmpInOut, TxElement_cmp. cbn. intros E1 E2. destruct ig; injection E1; injection E2; intros; subst; by rewrite ?andb_false_r.
Qed.

Lemma NormalizeP_scan_keys i i' outs outs' :
  in_key ig i = in_key ig i' -> out_key ig <$> outs = out_key ig <$> outs' ->
  let '(pre, del, rest) := NormalizeP_scan ig i outs in
  let '(pre', del', rest') := NormalizeP_scan ig i' outs' in
  out_key ig <$> omap id pre = out_key ig <$> omap id pre' /\ del = del' /\ out_key ig <$> rest = out_key ig <$> rest'.
Proof.
  intros Hi. revert outs'. induction outs as [|o outs IH]; intros [|o' outs'] Ho; try done.
  rewrite !fmap_cons in Ho. apply (inj2 cons) in Ho as [Eo Ho]. cbn [NormalizeP_scan].
  rewrite (CmpInOut_keys i i' o o') by (done || unfold out_key; congruence).
  destruct (CmpInOut ig i' o' <=? 0); [destruct (CmpInOut ig i' o' =? 0)|].
  - done.
  - cbn. rewrite Eo, Ho. done.
  - specialize (IH outs' Ho). destruct (NormalizeP_scan ig i outs) as [[pre del] rest], (NormalizeP_scan ig i' outs') as [[pre' del'] rest'].
    destruct IH as (I1 & I2 & I3). cbn. rewrite I1, Eo. done.
Qed.

Lemma NormalizeP_loop_keys ins ins' outs outs' :
  in_key ig <$> ins = in_key ig <$> ins' -> out_key ig <$> outs = out_key ig <$> outs' ->
  let '(vi, vo, n) := NormalizeP_loop ig ins outs in
  let '(vi', vo', n') := NormalizeP_loop ig ins' outs' in
  in_key ig <$> omap id vi = in_key ig <$> omap id vi' /\ out_key ig <$> omap id vo = out_key ig <$> omap id vo' /\ n = n'.
Proof.
  revert ins' outs outs'. induction ins as [|i ins IH]; intros [|i' ins'] outs outs' Hi Ho; try done.
  - cbn. by rewrite !omap_id_Some.
  - rewrite !fmap_cons in Hi. apply (inj2 cons) in Hi as [Ei Hi]. cbn [NormalizeP_loop].
    pose proof (NormalizeP_scan_keys i i' outs outs' Ei Ho) as Hs.
    destruct (NormalizeP_scan ig i outs) as [[pre del] rest], (NormalizeP_scan ig i' outs') as [[pre' del'] rest'].
    destruct Hs as (S1 & <- & S3). specialize (IH ins' rest rest' Hi S3).
    destruct (NormalizeP_loop ig ins rest) as [[vi vo] n], (NormalizeP_loop ig ins' rest') as [[vi' vo'] n'].
    destruct IH as (I1 & I2 & ->). rewrite !omap_app, !fmap_app, S1, I2. split_and!; [|done|done].
    destruct del; cbn; [done|]. by rewrite Ei, I1.
Qed.

Lemma kern_key_assign k : kern_key ig (TxKernel_assign TxKernel_new k) = kern_key ig k.
Proof.
  induction k as [k IH] using TxKernel_nested_ind. destruct k as [el sg kf kh ae ce hl rl nst]. cbn in *.
  f_equal. rewrite <- list_fmap_compose. by apply Forall_fmap_ext_1.
Qed.

(** A copy differs from the kernel in [m_CanEmbed] only, which is lost in nested kernels too. *)
Fixpoint embeds (k : TxKernel) : bool := k_CanEmbed k || existsb embeds (k_vNested k).

Lemma embeds_assign k : embeds (TxKernel_assign TxKernel_new k) = false.
Proof.
  induction k as [k IH] using TxKernel_nested_ind. destruct k as [el sg kf kh ae ce hl rl nst]. cbn [embeds TxKernel_assign k_CanEmbed k_vNested orb TxKernel_new] in *.
  induction IH as [|x l Hx _ IHl]; [done|]. rewrite fmap_cons. cbn [existsb]. by rewrite Hx, IHl.
Qed.
End keyed.

(** With the maturity compared the keys are the elements, up to what a copy loses. *)
Lemma kern_key_copy k : kern_key false k = TxKernel_assign TxKernel_new k.
Proof.
  induction k as [k IH] using TxKernel_nested_ind. destruct k as [el sg kf kh ae ce hl rl nst]. cbn in *.
  f_equal; [by destruct el|]. by apply Forall_fmap_ext_1.
Qed.

Lemma assign_idem k : TxKernel_assign TxKernel_new (TxKernel_assign TxKernel_new k) = TxKernel_assign TxKernel_new k.
Proof. by rewrite <- (kern_key_copy (TxKernel_assign _ _)), kern_key_assign, kern_key_copy. Qed.

Lemma out_key_same o : out_key false o = o.
Proof. by destruct o as [[] ? ? ? ? ? ?]. Qed.

Lemma in_key_same i : in_key false i = i_Element i.
Proof. by destruct i as [[] ?]. Qed.

(** What [Combine] writes, compared with what [Normalize] leaves: the elements in the same order, the kernels as copies. *)
Definition same_elements (ig : bool) (v w : TxVectors) : Prop :=
  in_key ig <$> m_vInputs v = in_key ig <$> m_vInputs w /\ out_key ig <$> m_vOutputs v = out_key ig <$> m_vOutputs w /\
  kern_key ig <$> m_vKernels v = kern_key ig <$> (TxKernel_assign TxKernel_new <$> m_vKernels w).

Lemma same_elements_exact v w :
  same_elements false v w -> Forall (fun k => TxKernel_assign TxKernel_new k = k) (m_vKernels v) ->
  i_Element <$> m_vInputs v = i_Element <$> m_vInputs w /\ m_vOutputs v = m_vOutputs w /\
  m_vKernels v = TxKernel_assign TxKernel_new <$> m_vKernels w.
Proof.
  intros (E1 & E2 & E3) Hk. split_and!.
  - rewrite (list_fmap_ext _ i_Element (m_vInputs v)), (list_fmap_ext _ i_Element (m_vInputs w)) in E1 by (intros; apply in_key_same). done.
  - rewrite (list_fmap_ext _ id (m_vOutputs v)), (list_fmap_ext _ id (m_vOutputs w)), !list_fmap_id in E2 by (intros; apply out_key_same). done.
  - rewrite (list_fmap_ext _ (TxKernel_assign TxKernel_new) (m_vKernels v)) in E3 by (intros; apply kern_key_copy).
    rewrite <- list_fmap_compose, (list_fmap_ext _ (TxKernel_assign TxKernel_new) (m_vKernels w)) in E3
      by (intros; cbn; by rewrite kern_key_copy, assign_idem).
    rewrite <- E3. symmetry. etransitivity; [|apply list_fmap_id]. by apply Forall_fmap_ext_1.
Qed.

Section combine_claims.
Context (ig : bool) {R : Type} `{!IReader R, !ReaderContract R} (bStop : nat -> bool).

Definition all_vectors (rs : list R) : TxVectors := mkVectors (concat (a_in <$> rs)) (concat (a_out <$> rs)) (concat (a_krn <$> rs)).

Lemma ascending_copies ks : ascending (TxKernel_cmp ig) ks -> ascending (TxKernel_cmp ig) (TxKernel_assign TxKernel_new <$> ks).
Proof.
  induction 1 as [|k ks _ IH Hk]; [constructor|]. rewrite fmap_cons. constructor; [done|]. apply Forall_fmap.
  eapply Forall_impl; [exact Hk|]. intros x Hx. cbn in *. by rewrite TxKernel_cmp_key, !kern_key_assign, <- TxKernel_cmp_key.
Qed.

(** C8: Combining streams. For readers that keep their contract and whose
    streams are sorted, of standard elements or of macroblocks,
    [IWriter::Combine] into fresh vectors finishes after as many rounds as there
    are elements; inputs, outputs and kernels are written in ascending order, every
    pair that was left out matches, no output that was written is spent by an
    input that was written.  The elements are those, in this order, that [TxVectors::Full::Normalize] computes in memory
    from all of them together, except that every kernel is a copy by [TxKernel::operator =], which has lost
    [m_CanEmbed], in its nested kernels too: no kernel that is written can be embedded.  If maturities are
    compared ([s_IgnoreMaturity] is [false]) this means: equal outputs, inputs equal in all members but [m_ID], which no
    comparison looks at, and kernels that are the copies of those of [Normalize]. *)
Theorem combine_normalizes n fuel rs :
  (forall n, bStop n = false) -> readers_ok ig n rs -> (combine_size rs < fuel)%nat ->
  exists v', Combine ig bStop fuel rs (mkVectors [] [] []) = Some (true, v') /\
    let w := (Normalize ig (all_vectors rs)).1 in
    same_elements ig v' w /\
    (ig = false -> i_Element <$> m_vInputs v' = i_Element <$> m_vInputs w /\ m_vOutputs v' = m_vOutputs w /\
       m_vKernels v' = TxKernel_assign TxKernel_new <$> m_vKernels w) /\
    m_vKernels v' ≡ₚ TxKernel_assign TxKernel_new <$> concat (a_krn <$> rs) /\ Forall (fun k => embeds k = false) (m_vKernels v') /\
    vectors_sorted ig v' /\
    (exists P : list (Input * Output), Forall (fun q => CmpInOut ig q.1 q.2 = 0) P /\
      concat (a_in <$> rs) ≡ₚ m_vInputs v' ++ P.*1 /\ concat (a_out <$> rs) ≡ₚ m_vOutputs v' ++ P.*2) /\
    (forall i o, i ∈ m_vInputs v' -> o ∈ m_vOutputs v' -> CmpInOut ig i o <> 0).
Proof.
  intros Hstop Hok Hf. destruct (Combine_vectors ig bStop n fuel rs Hstop Hok Hf) as (v' & ks & E & H1 & H2 & H3 & H4 & H5 & H6 & H7).
  exists v'. split; [done|]. cbv zeta. cut (same_elements ig v' (Normalize ig (all_vectors rs)).1).
  { intros Hsame. split_and!; try done.
    - intros ->. apply same_elements_exact; [done|]. rewrite H3. apply Forall_fmap, Forall_true. intros k. apply assign_idem.
    - rewrite H3. by apply fmap_Permutation.
    - rewrite H3. apply Forall_fmap, Forall_true. intros k. apply embeds_assign.
    - split; [done|done|]. rewrite H3. by apply ascending_copies. }
  clear H1 H2 H3 H4 H5 H6 H7. pose proof (ro_in_key _ _ _ Hok) as K1. destruct Hok as [_ K2 K3 S1 S2 S3 _].
  pose proof (kmerge_perm _ _ (input_pre ig) _ K1) as Pi. pose proof (kmerge_perm _ _ (output_pre ig) _ K2) as Po.
  unfold Normalize. destruct (NormalizeP ig _ _) as [[wi wo] nd] eqn:En. destruct (NormalizeP_spec _ _ _ _ _ _ En) as (ui & uo & El & -> & ->).
  cbn [fst all_vectors m_vInputs m_vOutputs m_vKernels] in *. unfold same_elements. cbn [m_vInputs m_vOutputs m_vKernels].
  pose proof (NormalizeP_loop_keys ig _ _ _ _ (merge_sort_keys (in_key ig) _ _ _ _ (cmp_order_element ig) (Input_cmp_key ig) K1 S1)
    (merge_sort_keys (out_key ig) _ _ _ _ (cmp_order_output ig) (Output_cmp_key ig) K2 S2)) as HL.
  rewrite El in HL. destruct (NormalizeP_loop ig (kmerge _ _) _) as [[vi vo] n'] eqn:Ek. destruct HL as (L1 & L2 & _).
  rewrite (Combine_spec ig bStop Hstop _ _ _ (input_pre ig) (output_pre ig) (kernel_pre ig n)) in E by done.
  rewrite foldl_write_kernel, foldl_write_utxo in E. cbn [m_vInputs m_vOutputs m_vKernels app] in E.
  destruct (cut_events_normalize ig fuel (kmerge (Input_cmp ig) (a_in <$> rs)) (kmerge (Output_cmp ig) (a_out <$> rs)) vi vo n'
    ltac:(rewrite Pi, Po; unfold combine_size in Hf; lia) Ek) as [Ei Eo].
  rewrite Ei, Eo in E. injection E as <-. cbn [m_vInputs m_vOutputs m_vKernels] in *. rewrite <- L1, <- L2. split_and!; [done|done|].
  rewrite <- !list_fmap_compose, !(list_fmap_ext (kern_key ig ∘ _) (kern_key ig)) by (intros; apply kern_key_assign). unfold NormalizeE.
  rewrite <- (merge_sort_keys (kern_key ig) _ _ _ _ (cmp_order_kernel ig n) (TxKernel_cmp_key ig) K3 S3). done.
Qed.
End combine_claims.

(** ** Sums over combined streams *)
Section combine_balance.
Context (sha256 : list Z -> list Z) (r : Rules) (ig : bool) (bStop : nat -> bool).
Context {G : Type} `{!Curve G, !CurveLaws G, !OracleDraws G}.
Context (Confidential_IsValid : list Z -> G -> list Z -> G -> bool) (p : Params) (hMin : Z).
Context {R : Type} `{!IReader R, !ReaderContract R}.
Abbreviation out_good := (fun o => isSome (out_check sha256 r Confidential_IsValid p hMin o) = true).
Abbreviation out_point := (out_pt sha256 r Confidential_IsValid p hMin).

Lemma out_good_pt o : out_good o -> out_point o = default g_zero (Point_Import (e_Commitment (o_Element o))).
Proof.
  unfold out_pt, out_check, Output_IsValid. destruct (Point_Import (e_Commitment (o_Element o))) as [pt|]; cbn [default];
    repeat case_match; intros; simplify_eq; done.
Qed.

(** A pair that cut-through removes has one commitment, in both modes. *)
Lemma cut_commitment i o :
  point_ok (e_Commitment (i_Element i)) -> out_ok ig (out_key ig o) -> CmpInOut ig i o = 0 ->
  e_Commitment (i_Element i) = e_Commitment (o_Element o).
Proof.
  intros Hi [[Ho _] _] E. cbn in Ho. unfold CmpInOut in E. pose proof (co_eq _ _ cmp_order_Point _ _ Hi Ho) as Hc.
  destruct (negb _ && _).
  - unfold TxElement_cmp in E. apply Hc. destruct ig; cbn [negb] in E; [by rewrite CMP_EX_0 in E|].
    unfold CMP_SIMPLE in E. rewrite CMP_EX_0 in E. by repeat case_match.
  - destruct (Z.eqb_spec (Point_cmp (e_Commitment (i_Element i)) (e_Commitment (o_Element o))) 0); [by apply Hc|done].
Qed.

Lemma cut_sums (P : list (Input * Output)) :
  Forall (fun i => point_ok (e_Commitment (i_Element i))) P.*1 -> Forall (fun o => out_ok ig (out_key ig o)) P.*2 ->
  Forall (fun q => CmpInOut ig q.1 q.2 = 0) P -> Forall out_good P.*2 ->
  g_sum (out_point <$> P.*2) = g_sum (in_pt <$> P.*1).
Proof.
  induction P as [|[i o] P IH]; [done|]. rewrite !fmap_cons, !Forall_cons. intros [Hi HI] [Ho HO] [E HE] [C HC].
  cbn [g_sum foldr fst snd] in *. rewrite out_good_pt by done. unfold in_pt at 1. rewrite (cut_commitment i o) by done.
  f_equal. by apply IH.
Qed.

Lemma offset_pt_val offset : length offset = 32%nat -> bytes_ok offset -> offset_pt (G := G) offset = g_mul (be_val offset) G_raw.
Proof.
  intros Hl Hb. unfold offset_pt. rewrite _Cmp_spec by (done || apply bytes_ok_zeros).
  assert (be_val zero_hash = 0) as -> by apply be_val_zeros. pose proof (be_val_nonneg _ Hb). unfold cmpZ.
  destruct (Z.ltb_spec (be_val offset) 0); [lia|]. destruct (Z.ltb_spec 0 (be_val offset)).
  - cbn [Scalar_Import fst]. change (1 =? 0) with false. cbv iota. apply g_mul_mod.
  - replace (be_val offset) with 0 by lia. change (0 =? 0) with true. cbv iota. by rewrite g_mul_0.
Qed.

(** Merged offsets add up. *)
Lemma BodyBase_Merge_pt a b : bytes_n 32 a -> bytes_n 32 b ->
  bytes_n 32 (BodyBase_Merge a b) /\ offset_pt (G := G) (BodyBase_Merge a b) = g_add (offset_pt a) (offset_pt b).
Proof.
  intros [Ha La] [Hb Lb]. unfold BodyBase_Merge, Scalar_Export. assert (forall z, bytes_n 32 (be_bytes 32 z)) as Hz
    by (intros z; split; [apply bytes_ok_be_bytes|apply length_be_bytes]). split; [done|].
  rewrite !offset_pt_val by (done || apply Hz). cbn [Scalar_Import fst].
  set (s := scalar_add _ _). assert (0 <= s < order) as Hs by apply scalar_add_range.
  pose proof order_bounds. rewrite be_val_be_bytes, Z.mod_small by (rewrite radix_pow2; change (8 * Z.of_nat 32) with 256; lia).
  subst s. by rewrite g_mul_scalar_add, !g_mul_mod.
Qed.

Lemma kern_exc_assign k : kern_exc r (TxKernel_assign TxKernel_new k) = kern_exc r k (G := G).
Proof. by destruct k. Qed.

Lemma balance_app ins0 ins1 outs0 outs1 ks0 ks1 (o0 o1 : G) :
  balance sha256 r Confidential_IsValid p hMin (ins0 ++ ins1) (outs0 ++ outs1) (ks0 ++ ks1) (g_add o0 o1)
    = g_add (balance sha256 r Confidential_IsValid p hMin ins0 outs0 ks0 o0)
            (balance sha256 r Confidential_IsValid p hMin ins1 outs1 ks1 o1).
Proof.
  unfold balance. rewrite !fmap_app, !g_sum_app, g_neg_add.
  assert (forall a b c d : G, g_add (g_add a b) (g_add c d) = g_add (g_add a c) (g_add b d)) as Hx.
  { intros a b c d. rewrite <- !g_add_assoc. f_equal. apply g_add_swap. }
  rewrite (Hx _ _ o0 o1). rewrite (Hx (g_sum (out_point <$> outs0))). by rewrite Hx.
Qed.

(** What is cut cancels. *)
Lemma balance_cut ins outs ks off ins' outs' (P : list (Input * Output)) :
  ins ≡ₚ ins' ++ P.*1 -> outs ≡ₚ outs' ++ P.*2 -> g_sum (out_point <$> P.*2) = g_sum (in_pt <$> P.*1) ->
  balance sha256 r Confidential_IsValid p hMin ins outs ks off = balance sha256 r Confidential_IsValid p hMin ins' outs' ks off.
Proof.
  intros P1 P2 E. unfold balance.
  rewrite (g_sum_perm (in_pt <$> ins) (in_pt <$> ins' ++ P.*1)), (g_sum_perm (out_point <$> outs) (out_point <$> outs' ++ P.*2))
    by (by rewrite ?P1, ?P2).
  rewrite !fmap_app, !g_sum_app, E, g_neg_add.
  set (b := g_sum (in_pt <$> P.*1)). rewrite <- !g_add_assoc. f_equal. rewrite (g_add_swap (g_neg b)). f_equal.
  by rewrite g_add_assoc, (g_add_comm (g_neg b)), g_add_neg, g_add_0_l.
Qed.

(** Combining keeps the balance. When [IWriter::Combine] puts the elements of
    two blocks or transactions together (both with valid outputs), and
    [BodyBase::Merge] their offsets, then outputs less inputs plus kernels
    and offset of the result is the sum of the same of the two parts: what is cut cancels,
    what is copied contributes as before. *)
Theorem combine_keeps_balance n fuel (r0 r1 : R) off0 off1 :
  (forall n, bStop n = false) -> readers_ok ig n [r0; r1] -> (combine_size [r0; r1] < fuel)%nat ->
  Forall out_good (a_out r0) -> Forall out_good (a_out r1) -> bytes_n 32 off0 -> bytes_n 32 off1 ->
  exists v', Combine ig bStop fuel [r0; r1] (mkVectors [] [] []) = Some (true, v') /\
    Forall out_good (m_vOutputs v') /\
    balance sha256 r Confidential_IsValid p hMin (m_vInputs v') (m_vOutputs v') (m_vKernels v') (offset_pt (BodyBase_Merge off0 off1))
      = g_add (balance sha256 r Confidential_IsValid p hMin (a_in r0) (a_out r0) (a_krn r0) (offset_pt off0))
              (balance sha256 r Confidential_IsValid p hMin (a_in r1) (a_out r1) (a_krn r1) (offset_pt off1)).
Proof.
  intros Hstop Hok Hf G0 G1 B0 B1.
  destruct (Combine_vectors ig bStop n fuel [r0; r1] Hstop Hok Hf) as (v' & ks & E & _ & _ & K1 & K2 & _ & (P & HP & P1 & P2) & _).
  cbn [fmap list_fmap concat] in *. rewrite !app_nil_r in *.
  pose proof (ro_in _ _ _ Hok) as Ki. pose proof (ro_out _ _ _ Hok) as Ko. apply Forall_concat in Ki, Ko. cbn in Ki, Ko. rewrite !app_nil_r in *.
  rewrite P1 in Ki. rewrite P2 in Ko. apply Forall_app in Ki as [_ Ki]. apply Forall_app in Ko as [_ Ko].
  assert (Forall out_good (m_vOutputs v' ++ P.*2)) as Hg by (rewrite <- P2; by apply Forall_app). apply Forall_app in Hg as [Hg HgP].
  exists v'. split_and!; [done|done|]. rewrite (proj2 (BodyBase_Merge_pt off0 off1 B0 B1)), <- balance_app.
  rewrite (balance_cut (a_in r0 ++ a_in r1) (a_out r0 ++ a_out r1) _ _ (m_vInputs v') (m_vOutputs v') P) by (done || by apply cut_sums).
  unfold balance. do 3 f_equal. apply g_sum_perm. rewrite K1, <- list_fmap_compose, <- K2.
  by rewrite (list_fmap_ext (kern_exc r ∘ TxKernel_assign TxKernel_new) (kern_exc r) ks) by (intros _ k _; apply kern_exc_assign).
Qed.
End combine_balance.

(** ** Examples *)
Definition demo_v0 : TxVectors := mkVectors [demo_input 5] [demo_output 3 false] [demo_kernel 1 20].
Definition demo_v1 : TxVectors := mkVectors [demo_input 3] [demo_output 4 false; demo_output 6 false] [demo_kernel 2 10].

Lemma demo_readers_ok : readers_ok false 1 [get_Reader demo_v0; get_Reader demo_v1].
Proof.
  split; cbn [fmap list_fmap a_in a_out a_krn Reader_contract get_Reader Reader_Reset rd_V demo_v0 demo_v1 m_vInputs m_vOutputs m_vKernels].
  - repeat (constructor; [repeat (constructor; [apply demo_point_ok|]); constructor|]). constructor.
  - repeat (constructor; [repeat (constructor; [apply demo_output_ok|]); constructor|]). constructor.
  - repeat (constructor; [repeat (constructor; [apply demo_kernel_ok|]); constructor|]). constructor.
  - repeat (constructor; [repeat (constructor; [|repeat (constructor; [vm_compute; congruence|])]); constructor|]). constructor.
  - repeat (constructor; [repeat (constructor; [|repeat (constructor; [vm_compute; congruence|])]); constructor|]). constructor.
  - repeat (constructor; [repeat (constructor; [|repeat (constructor; [vm_compute; congruence|])]); constructor|]). constructor.
  - left. cbn. split; repeat (constructor; [split; [first [apply demo_point_ok|apply demo_output_ok]|by right]|]); constructor.
Qed.

Lemma combine_normalizes_witness :
  exists v', Combine false (fun _ => false) 20 [get_Reader demo_v0; get_Reader demo_v1] (mkVectors [] [] []) = Some (true, v') /\
    m_vInputs v' = [demo_input 5] /\ m_vOutputs v' = [demo_output 4 false; demo_output 6 false] /\
    m_vKernels v' = TxKernel_assign TxKernel_new <$> m_vKernels (Normalize false (all_vectors [get_Reader demo_v0; get_Reader demo_v1])).1.
Proof.
  destruct (combine_normalizes false (fun _ => false) 1 20 [get_Reader demo_v0; get_Reader demo_v1] ltac:(reflexivity)
    demo_readers_ok ltac:(vm_compute; lia)) as (v' & E & _ & K & _).
  exists v'. split; [exact E|]. vm_compute in E. injection E as <-. split; [reflexivity|]. split; [reflexivity|apply (K eq_refl)].
Defined.

Import Ecc.Demo Validation.DemoTx.
Definition signed_v0 : TxVectors := mkVectors [demo_input 5] [demo_signed_output 3 false] [demo_kernel 1 20].
Definition signed_v1 : TxVectors := mkVectors [demo_input 3] [demo_signed_output 4 false] [demo_kernel 2 10].

Lemma signed_readers_ok : readers_ok false 1 [get_Reader signed_v0; get_Reader signed_v1].
Proof.
  split; cbn [fmap list_fmap a_in a_out a_krn Reader_contract get_Reader Reader_Reset rd_V signed_v0 signed_v1 m_vInputs m_vOutputs m_vKernels].
  - repeat (constructor; [repeat (constructor; [apply demo_point_ok|]); constructor|]). constructor.
  - repeat (constructor; [repeat (constructor; [apply demo_signed_output_std|]); constructor|]). constructor.
  - repeat (constructor; [repeat (constructor; [apply demo_kernel_ok|]); constructor|]). constructor.
  - repeat (constructor; [repeat constructor|]). constructor.
  - repeat (constructor; [repeat constructor|]). constructor.
  - repeat (constructor; [repeat constructor|]). constructor.
  - left. cbn [concat app]. split; repeat (constructor; [first [split; [apply demo_point_ok|by right]|apply demo_signed_output_std]|]); constructor.
Qed.

Lemma combine_keeps_balance_witness :
  exists v', Combine false (fun _ => false) 20 [get_Reader signed_v0; get_Reader signed_v1] (mkVectors [] [] []) = Some (true, v') /\
    Forall (fun o => isSome (out_check demo_sha default_Rules demo_bulletproof default_Params 100 o) = true) (m_vOutputs v') /\
    balance demo_sha default_Rules demo_bulletproof default_Params 100 (m_vInputs v') (m_vOutputs v') (m_vKernels v')
        (offset_pt (BodyBase_Merge (be_bytes 32 5) (be_bytes 32 9)))
      = g_add (balance demo_sha default_Rules demo_bulletproof default_Params 100
                 (a_in (get_Reader signed_v0)) (a_out (get_Reader signed_v0)) (a_krn (get_Reader signed_v0)) (offset_pt (be_bytes 32 5)))
              (balance demo_sha default_Rules demo_bulletproof default_Params 100
                 (a_in (get_Reader signed_v1)) (a_out (get_Reader signed_v1)) (a_krn (get_Reader signed_v1)) (offset_pt (be_bytes 32 9))).
Proof.
  apply (combine_keeps_balance demo_sha default_Rules false (fun _ => false) demo_bulletproof default_Params 100
    1 20 (get_Reader signed_v0) (get_Reader signed_v1) (be_bytes 32 5) (be_bytes 32 9)).
  - intros n. reflexivity.
  - apply signed_readers_ok.
  - vm_compute. lia.
  - constructor; [vm_compute; reflexivity|constructor].
  - constructor; [vm_compute; reflexivity|constructor].
  - split; [apply bytes_ok_be_bytes|apply length_be_bytes].
  - split; [apply bytes_ok_be_bytes|apply length_be_bytes].
Defined.
