(* ===== verification/UtxoSet.v ===== *)
(** The UTXO tree as a set of stacks: what the block processor relies on.

    [content] gives the stack of [TxoID]s of a key.  The lemmas state what looking up,
    adding, removing and the bounded traversal do to it, and that they keep
    the invariant of the tree with its cached hashes; clients use only them. *)

From stdpp Require Import sorting.
From S2P Require Import Prelude UintBig EccData Merkle RadixTree UtxoTree.

(** The cursor at the leaf where a traversal has stopped. *)
Definition leaf_cursor (path : list bool) : Cursor := mkCursor s_Bits (S (length path)) 0 path.

(** The first leaf between two keys: [Traverse] with a traveler that stops. *)
Definition FindFirst (t : utree) (kMin kMax : list Z) : option (list bool * (list Z * IDs)) :=
  match Traverse (fun _ path k x => (Some (path, (k, x)), false)) t (Some kMin, Some kMax) None with
  | (_, true) => None
  | (res, false) => res
  end.

Definition set_leaf (t : utree) (cu : Cursor) (x : IDs) : utree := modify_tip (m_pp cu) (fun _ => x) <$> t.

Definition leaf_at (t : utree) (cu : Cursor) : option IDs :=
  n ← t; p ← tip_node (m_pp cu) n; match p with Leaf _ _ _ x => Some x | Joint _ _ _ _ _ _ => None end.


(** ** Contents *)
Definition stack_of (l : list (list Z * IDs)) (k : list Z) : list Z :=
  match list_find (fun x => x.1 = k) l with Some (_, x) => ids x.2 | None => [] end.

Definition content (t : utree) (k : list Z) : list Z := stack_of (tree_leaves t) k.

Lemma stack_of_elem l k x : NoDup l.*1 -> (k, x) ∈ l -> stack_of l k = ids x.
Proof.
  intros Hd Hx. unfold stack_of. destruct (list_find _ l) as [[i y]|] eqn:E.
  - apply list_find_Some in E as (Ei & Ey & _). apply list_elem_of_lookup in Hx as [j Ej].
    assert (i = j) as ->. 2: { rewrite Ei in Ej. injection Ej as ->. done. }
    eapply NoDup_lookup; [exact Hd|by rewrite list_lookup_fmap, Ei|by rewrite list_lookup_fmap, Ej, <- Ey].
  - apply list_find_None in E. rewrite Forall_forall in E. by destruct (E _ Hx).
Qed.

Lemma stack_of_none l k : (forall x, (k, x) ∉ l) -> stack_of l k = [].
Proof.
  intros H. unfold stack_of. destruct (list_find _ l) as [[i [k' y]]|] eqn:E; [|done].
  apply list_find_Some in E as (Ei & Ey & _). cbn in Ey. subst. apply list_elem_of_lookup_2 in Ei. by destruct (H y).
Qed.

Lemma stack_of_cons l k x k' : NoDup ((k, x) :: l).*1 -> stack_of ((k, x) :: l) k' = if decide (k' = k) then ids x else stack_of l k'.
Proof.
  intros Hd. destruct (decide (k' = k)) as [->|Hne]; [apply stack_of_elem; [done|by left]|].
  unfold stack_of. cbn [list_find]. rewrite decide_False by (cbn; congruence). by destruct (list_find _ l) as [[]|].
Qed.

Lemma stack_of_perm l l' k : NoDup l.*1 -> l ≡ₚ l' -> stack_of l k = stack_of l' k.
Proof.
  intros Hd Hp. assert (NoDup l'.*1) as Hd' by (by rewrite <- Hp). destruct (list_find (fun x => x.1 = k) l) as [[i [k' x]]|] eqn:E.
  - apply list_find_Some in E as (Ei & Ek & _). cbn in Ek. subst k'. apply list_elem_of_lookup_2 in Ei.
    rewrite (stack_of_elem l k x), (stack_of_elem l' k x); try done. by rewrite <- Hp.
  - apply list_find_None in E. rewrite Forall_forall in E.
    rewrite !stack_of_none; [done|..]; intros x Hx; [rewrite <- Hp in Hx|]; by destruct (E _ Hx).
Qed.

(** A leaf with a key in the format of the tree. *)
Definition leaf_good (x : list Z * IDs) : Prop := (exists d, data_ok d /\ x.1 = Key_of_Data d) /\ ids_ok x.2.

Section set.
Context (sha256 : list Z -> list Z).
Abbreviation inv := (tree_inv (hash2 sha256) (get_LeafHash sha256) s_Bits).

Record utxo_ok (t : utree) : Prop := { uo_inv : inv t; uo_leaves : Forall leaf_good (tree_leaves t) }.

Lemma key_bits d d' : data_ok d -> data_ok d' -> keq s_Bits (Key_of_Data d) (Key_of_Data d') -> d = d'.
Proof.
  intros Hd Hd' Hk. destruct (Key_of_Data_spec d Hd) as [[B1 L1] E1], (Key_of_Data_spec d' Hd') as [[B2 L2] E2].
  rewrite <- (Data_of_Key_of_Data d Hd), <- (Data_of_Key_of_Data d' Hd'). f_equal.
  apply be_val_inj; [done|done|by rewrite L1, L2|]. apply Z.bits_inj'. intros i Hi.
  change s_Bytes with 41%nat in L1, L2. change s_Bits with 321%nat in Hk.
  destruct (Z.le_gt_cases 328 i).
  { rewrite !bits_above by (done || (split; done)). done. }
  destruct (Z.le_gt_cases 7 i).
  - specialize (Hk (Z.to_nat (327 - i)) ltac:(lia)). rewrite !get_Bit_testbit, L1, L2 in Hk by (try done; lia).
    replace (8 * Z.of_nat 41 - 1 - Z.of_nat (Z.to_nat (327 - i))) with i in Hk by lia. done.
  - rewrite E1, E2. unfold data_val.
    assert (forall x y z, Z.testbit (x * 2 ^ 72 + y * 2 ^ 71 + z * 2 ^ 7) i = false) as Hz; [|by rewrite !Hz].
    intros x y z. replace (x * 2 ^ 72 + y * 2 ^ 71 + z * 2 ^ 7) with ((x * 2 ^ 65 + y * 2 ^ 64 + z) * 2 ^ 7) by lia.
    rewrite <- Z.shiftl_mul_pow2 by lia. apply Z.shiftl_spec_low. lia.
Qed.

Lemma utxo_nodup t : utxo_ok t -> NoDup (tree_leaves t).*1.
Proof.
  intros [[W _] _]. destruct t as [n|]; [|constructor]. pose proof (leaves_sorted _ _ _ W) as Hs. cbn [tree_leaves].
  induction Hs as [|x l Hs IH Hx]; [constructor|]. rewrite fmap_cons. constructor; [|done]. intros (y & E & Hy)%list_elem_of_fmap.
  rewrite Forall_forall in Hx. specialize (Hx y Hy). rewrite <- E in Hx. by apply klt_irrefl in Hx.
Qed.

Lemma content_elem t k x : utxo_ok t -> (k, x) ∈ tree_leaves t -> content t k = ids x.
Proof. intros Hok Hx. apply stack_of_elem; [by apply utxo_nodup|done]. Qed.

Lemma content_none t d : utxo_ok t -> data_ok d -> (forall x, x ∈ tree_leaves t -> ~ keq s_Bits (Key_of_Data d) x.1) <-> content t (Key_of_Data d) = [].
Proof.
  intros Hok Hd. split.
  - intros H. apply stack_of_none. intros x Hx. by destruct (H _ Hx).
  - intros E [k x] Hx Hk. pose proof (uo_leaves _ Hok) as Hl. rewrite Forall_forall in Hl. destruct (Hl _ Hx) as [(d' & Hd' & Ek) Hi]. cbn in *. subst k.
    apply key_bits in Hk; [|done|done]. subst d'. rewrite (content_elem t _ x) in E by done. pose proof (ids_nonempty _ Hi) as Hn. rewrite E in Hn. cbn in Hn. lia.
Qed.

Lemma content_bound t k : utxo_ok t -> Z.of_nat (length (content t k)) < 2 ^ 32.
Proof.
  intros [_ Hl]. unfold content, stack_of. destruct (list_find _ _) as [[i [k' x]]|] eqn:El; [|done].
  apply list_find_Some in El as (El & _ & _). rewrite Forall_forall in Hl. destruct (Hl _ (list_elem_of_lookup_2 _ _ _ El)) as [_ Hi].
  cbn in *. destruct x; cbn in *; lia.
Qed.

(** ** Writing to a leaf *)
Lemma modify_coherent path f (n : node (L := IDs) (Hash := list Z)) :
  coherent (hash2 sha256) (get_LeafHash sha256) n -> path_dirty path n -> coherent (hash2 sha256) (get_LeafHash sha256) (modify_tip path f n).
Proof.
  revert n. induction path as [|b path IH]; intros n Hc Hp; destruct n as [bits c k x|bits c h k c0 c1]; try done.
  cbn [modify_tip path_dirty IsClean] in *. destruct Hp as [-> Hp]. destruct Hc as (_ & H0 & H1).
  destruct b; cbn [coherent]; (split; [done|]); split; auto.
Qed.

Lemma modify_Invalidate path f (n : node (L := IDs) (Hash := list Z)) :
  Invalidate_node path (modify_tip path f n) = (modify_tip path f (Invalidate_node path n).1, (Invalidate_node path n).2).
Proof.
  revert n. induction path as [|b path IH]; intros n; destruct n as [bits c k x|bits c h k c0 c1]; cbn [modify_tip Invalidate_node].
  - by destruct c.
  - by destruct c.
  - by destruct c.
  - destruct b.
    + rewrite IH. destruct (Invalidate_node path c1) as [c1' []]; cbn [fst snd]; [|done]. by destruct c.
    + rewrite IH. destruct (Invalidate_node path c0) as [c0' []]; cbn [fst snd]; [|done]. by destruct c.
Qed.

Lemma set_Invalidate cu t x : InvalidateElement cu (set_leaf t cu x) = set_leaf (InvalidateElement cu t) cu x.
Proof. destruct t as [n|]; [|done]. cbn. by rewrite modify_Invalidate. Qed.

Lemma tip_leaf N d path (n : node (L := IDs) (Hash := list Z)) b c k x : wf N d n -> tip_node path n = Some (Leaf b c k x) -> (k, x) ∈ leaves n.
Proof.
  intros W Ht. destruct (modify_tip_spec N d path id n b c k x W Ht) as (_ & _ & l1 & l2 & -> & _). apply elem_of_app. right. by left.
Qed.

(** What a changed list of leaves means for the stacks. *)
Lemma content_leaves t t' k y (l : list (list Z * IDs)) : NoDup (k :: l.*1) ->
  tree_leaves t ≡ₚ l \/ (exists x, tree_leaves t ≡ₚ (k, x) :: l) -> tree_leaves t' ≡ₚ (k, y) :: l ->
  forall k', content t' k' = if decide (k' = k) then ids y else content t k'.
Proof.
  intros Hd Ht Ht' k'. unfold content. rewrite (stack_of_perm (tree_leaves t') ((k, y) :: l) k'); [|by rewrite Ht'|done]. rewrite stack_of_cons by done.
  destruct (decide (k' = k)) as [|Hne]; [done|]. apply NoDup_cons in Hd as Hd'. destruct Hd' as [_ Hl].
  destruct Ht as [Ht|[x Ht]].
  - symmetry. apply stack_of_perm; [by rewrite Ht|done].
  - rewrite (stack_of_perm (tree_leaves t) ((k, x) :: l) k'); [|by rewrite Ht|done]. rewrite stack_of_cons by done. by rewrite decide_False.
Qed.

Lemma set_dirty_ok cu n b c k x y : utxo_ok (Some n) -> path_dirty (m_pp cu) n -> tip_node (m_pp cu) n = Some (Leaf b c k x) -> ids_ok y ->
  let t' := set_leaf (Some n) cu y in
  utxo_ok t' /\ forall k', content t' k' = if decide (k' = k) then ids y else content (Some n) k'.
Proof.
  intros Hok Hp Ht Hy t'. pose proof Hok as [[W C] Hl]. destruct (modify_tip_spec s_Bits 0 (m_pp cu) (fun _ => y) n b c k x W Ht) as (W' & _ & l1 & l2 & E1 & E2).
  pose proof (utxo_nodup _ Hok) as Hd. cbn [tree_leaves] in Hd, Hl. rewrite E1 in Hl.
  assert (leaves n ≡ₚ (k, x) :: l1 ++ l2) as P1 by (rewrite E1; symmetry; apply Permutation_middle).
  assert (leaves (modify_tip (m_pp cu) (fun _ => y) n) ≡ₚ (k, y) :: l1 ++ l2) as P2 by (rewrite E2; symmetry; apply Permutation_middle).
  rewrite P1 in Hd. split.
  - constructor; [split; [done|by apply modify_coherent]|]. cbn [t' set_leaf fmap option_fmap option_map tree_leaves]. rewrite E2.
    apply Forall_app in Hl as [H1 H2]. apply Forall_cons in H2 as [[Hk _] H2]. apply Forall_app. split; [done|]. constructor; [by split|done].
  - apply (content_leaves (Some n) t' k y (l1 ++ l2)); [done|right; by exists x|done].
Qed.

Lemma Invalidate_ok cu n b c k x : utxo_ok (Some n) -> tip_node (m_pp cu) n = Some (Leaf b c k x) ->
  exists n' c', InvalidateElement cu (Some n) = Some n' /\ utxo_ok (Some n') /\ path_dirty (m_pp cu) n' /\ tip_node (m_pp cu) n' = Some (Leaf b c' k x) /\
    forall k', content (Some n') k' = content (Some n) k'.
Proof.
  intros [[W C] Hl] Ht. cbn [InvalidateElement fmap option_fmap option_map]. pose proof (strip_Invalidate (@nil Z) (m_pp cu) n) as Es.
  pose proof (Invalidate_spec _ _ (m_pp cu) n C) as Hi. destruct (Invalidate_node (m_pp cu) n) as [n' go]. destruct Hi as (C' & D & _). cbn [fst] in *.
  destruct (same_strip (@nil Z) n' n Es) as (El & _ & _ & Ew & _). destruct (tip_node_strip (@nil Z) (m_pp cu) n n' b c k x (eq_sym Es) Ht) as [c' Ht'].
  exists n', c'. split_and!; [done| |done|done|].
  - constructor; [split; [by apply Ew|done]|]. cbn. by rewrite El.
  - intros k'. unfold content. cbn. by rewrite El.
Qed.

(** A leaf is changed after the path to it was invalidated. *)
Lemma set_ok cu t n b c k x y : utxo_ok t -> t = Some n -> tip_node (m_pp cu) n = Some (Leaf b c k x) -> ids_ok y ->
  let t' := set_leaf (InvalidateElement cu t) cu y in
  utxo_ok t' /\ forall k', content t' k' = if decide (k' = k) then ids y else content t k'.
Proof.
  intros Hok -> Ht Hy. destruct (Invalidate_ok cu n b c k x Hok Ht) as (n' & c' & -> & Hok' & Hd & Ht' & Hc).
  destruct (set_dirty_ok cu n' b c' k x y Hok' Hd Ht' Hy) as [H1 H2]. split; [done|]. intros k'. by rewrite H2, Hc.
Qed.

Lemma delete_ok cu n b c k x : utxo_ok (Some n) -> tip_node (m_pp cu) n = Some (Leaf b c k x) ->
  exists t', Delete cu (Some n) = Some t' /\ utxo_ok t' /\ forall k', content t' k' = if decide (k' = k) then [] else content (Some n) k'.
Proof.
  intros Hok Ht. pose proof Hok as [[W C] Hl]. destruct (Delete_spec (hash2 sha256) [] s_Bits n cu b c k x W Ht) as (t' & E & W' & Hp).
  pose proof (utxo_nodup _ Hok) as Hd. cbn [tree_leaves] in Hd, Hl. rewrite Hp in Hd, Hl. apply Forall_cons in Hl as [_ Hl].
  assert (utxo_ok t') as Hok' by (constructor; [split; [done|by eapply Delete_tree_coherent]|done]).
  exists t'. split; [done|]. split; [done|]. intros k'. destruct (decide (k' = k)) as [->|Hne].
  - rewrite fmap_cons in Hd. apply NoDup_cons in Hd as [Hn _]. apply stack_of_none. intros y Hy. apply Hn, list_elem_of_fmap. by exists (k, y).
  - unfold content. cbn [tree_leaves]. rewrite (stack_of_perm (leaves n) ((k, x) :: tree_leaves t') k'); [|by rewrite Hp|done]. rewrite stack_of_cons by done. by rewrite decide_False.
Qed.

(** ** Looking up a key *)
Lemma ReplaceTip_dirty path q (pNew n p : node (L := IDs) (Hash := list Z)) :
  path_dirty path n -> tip_node path n = Some p -> path_dirty q pNew -> path_dirty (path ++ q) (ReplaceTip_node path pNew n).
Proof.
  revert n. induction path as [|b path IH]; intros n Hp Ht Hq; [by destruct n|].
  destruct n as [|bits c h k c0 c1]; [done|]. cbn [app ReplaceTip_node path_dirty tip_node] in *. destruct Hp as [Hc Hp].
  destruct b; cbn [path_dirty IsClean] in *; (split; [done|]); by apply IH.
Qed.

Lemma Find_dirty t k f : tree_coherent (hash2 sha256) (get_LeafHash sha256) t -> Utxo_Find t k true = Some f -> fr_bCreate f = true ->
  match fr_tree f with Some n => path_dirty (m_pp (fr_cursor f)) n | None => True end.
Proof.
  intros Hc. unfold Utxo_Find, Find. destruct (Goto t k s_Bits) as [[res cu]|]; [|done]. cbn [mbind option_bind].
  destruct res; [by intros [= <-]|]. cbn [negb]. destruct t as [n|]; cbn [InvalidateElement fmap option_fmap option_map]; [|by intros [= <-]].
  pose proof (Invalidate_spec _ _ (m_pp cu) n Hc) as Hi. destruct (Invalidate_node (m_pp cu) n) as [n1 go]. destruct Hi as (_ & D & _). cbn [fst].
  destruct (tip_node (m_pp cu) n1) as [p|] eqn:Et; [|done]. intros [= <-] _. cbn [fr_tree fr_cursor m_pp].
  eapply ReplaceTip_dirty; [done|done|]. unfold Find_split. cbn. by destruct (get_Bit k (m_nBits cu)).
Qed.

Lemma find_ok t d : utxo_ok t -> data_ok d ->
  exists f n b c x, Utxo_Find t (Key_of_Data d) true = Some f /\ fr_tree f = Some n /\ tip_node (m_pp (fr_cursor f)) n = Some (Leaf b c (Key_of_Data d) x) /\
    utxo_ok (Some n) /\ ids_ok x /\
    if fr_bCreate f then content t (Key_of_Data d) = [] /\ path_dirty (m_pp (fr_cursor f)) n /\
        (forall k, k <> Key_of_Data d -> content (Some n) k = content t k)
    else t = Some n /\ content t (Key_of_Data d) = ids x.
Proof.
  intros Hok Hd. pose proof Hok as [[W C] Hl].
  destruct (Find_spec (replicate 32 0) s_Bits t (Key_of_Data d) true (Single 0) W ltac:(vm_compute; lia)) as (f & E & W' & Hold & Hnew & Htip).
  change (Find (replicate 32 0) t (Key_of_Data d) s_Bits true (Single 0)) with (Utxo_Find t (Key_of_Data d) true) in E.
  destruct (decide (content t (Key_of_Data d) = [])) as [Ec|Ec].
  - pose proof (proj2 (content_none t d Hok Hd) Ec) as Hno. destruct (Hnew Hno) as (Hleaf & Hcr & Hp).
    destruct (Htip Hleaf) as (n & b & c & k' & x & En & Et & Hk & Hin).
    assert ((k', x) = (Key_of_Data d, Single 0)) as [= -> ->].
    { rewrite En in Hp. cbn in Hp. rewrite Hp in Hin. apply elem_of_cons in Hin as [|Hin]; [done|]. by destruct (Hno _ Hin). }
    pose proof (Find_coherent (hash2 sha256) (replicate 32 0) (get_LeafHash sha256) t (Key_of_Data d) s_Bits true (Single 0) f C E) as C'. pose proof (Find_dirty _ _ _ C E Hcr) as Hdirty. rewrite En in *.
    assert (utxo_ok (Some n)) as Hok'.
    { constructor; [by split|]. cbn in *. rewrite Hp. constructor; [split; [by exists d|done]|done]. }
    exists f, n, b, c, (Single 0). rewrite Hcr. split_and!; try done. intros k Hne. pose proof (utxo_nodup _ Hok') as Hnd. cbn in Hp, Hnd. rewrite Hp in Hnd.
    pose proof (content_leaves t (Some n) (Key_of_Data d) (Single 0) (tree_leaves t) Hnd ltac:(by left) Hp k) as Hcl. by rewrite decide_False in Hcl.
  - assert (exists x, x ∈ tree_leaves t /\ keq s_Bits (Key_of_Data d) x.1) as Hex.
    { unfold content, stack_of in Ec. destruct (list_find _ _) as [[i [k x]]|] eqn:El; [|done]. apply list_find_Some in El as (El & Ek & _). cbn in Ek. subst k.
      exists (Key_of_Data d, x). split; [by eapply list_elem_of_lookup_2|apply keq_refl]. }
    destruct (Hold Hex) as (Et & Hcr & Hleaf). destruct (Htip Hleaf) as (n & b & c & k' & x & En & Ht & Hk & Hin).
    rewrite En in Et. subst t. cbn in Hl. rewrite Forall_forall in Hl. destruct (Hl _ Hin) as [(d' & Hd' & Ek) Hi]. cbn in Ek, Hi. subst k'.
    apply key_bits in Hk; [|done|done]. subst d'. exists f, n, b, c, x. rewrite Hcr. split_and!; try done. by apply content_elem.
Qed.

(** ** The first key between two bounds *)
Lemma Cmp_cases k B N :
  (Cmp k B 0 N = 0 /\ keq N k B) \/ (Cmp k B 0 N = -1 /\ klt N k B) \/ (Cmp k B 0 N = 1 /\ klt N B k).
Proof.
  assert (forall dn n0, keq n0 k B -> (n0 + dn = N)%nat ->
    (Cmp k B n0 dn = 0 /\ keq N k B) \/ (Cmp k B n0 dn = -1 /\ klt N k B) \/ (Cmp k B n0 dn = 1 /\ klt N B k)) as H; [|by apply H; [apply keq_0|]].
  induction dn as [|dn IH]; intros n0 Hk HN; cbn [Cmp].
  - left. split; [done|]. by replace N with n0 by lia.
  - destruct (get_Bit k n0) eqn:E1, (get_Bit B n0) eqn:E2; cbn [negb andb].
    1, 4: apply IH; [|lia]; intros i Hi; destruct (decide (i = n0)) as [->|]; [congruence|apply Hk; lia].
    + right; right. split; [done|]. exists n0. split_and!; [lia|by apply keq_sym|done|done].
    + right; left. split; [done|]. exists n0. by split_and!; [lia|..].
Qed.

Lemma Cmp_val d d' : data_ok d -> data_ok d' ->
  (Cmp (Key_of_Data d) (Key_of_Data d') 0 s_Bits <= 0 <-> data_val d <= data_val d') /\
  (0 <= Cmp (Key_of_Data d) (Key_of_Data d') 0 s_Bits <-> data_val d' <= data_val d).
Proof.
  intros Hd Hd'. destruct (Key_of_Data_spec d Hd) as [K1 E1], (Key_of_Data_spec d' Hd') as [K2 E2].
  destruct (Cmp_cases (Key_of_Data d) (Key_of_Data d') s_Bits) as [[-> Hk]|[[-> Hk]|[-> Hk]]].
  - apply key_bits in Hk; [|done|done]. subst. lia.
  - apply klt_be_val in Hk; [|done|done]. lia.
  - apply klt_be_val in Hk; [|done|done]. lia.
Qed.

(** Keys of one commitment are ordered by their maturities, with no other between. *)
Lemma data_between C lo hi d : data_ok (mkData C lo) -> data_ok (mkData C hi) -> data_ok d ->
  data_val (mkData C lo) <= data_val d <= data_val (mkData C hi) -> d = mkData C (m_Maturity d) /\ lo <= m_Maturity d <= hi.
Proof.
  intros ([Hx Hxl] & Hy & Hlo) (_ & _ & Hhi) Hd. destruct d as [[X Y] m]. destruct Hd as ([Hx' Hxl'] & Hy' & Hm). destruct C as [X0 Y0].
  unfold data_val, in_width in *. cbn [m_Commitment m_X m_Y m_Maturity] in *. intros Hb.
  pose proof (be_val_inj X X0 Hx' Hx ltac:(by rewrite Hxl, Hxl')) as Hinj.
  assert (be_val X = be_val X0 /\ Y = Y0) as [E ->] by lia. rewrite (Hinj E) in *. split; [done|lia].
Qed.

Lemma leaves_path_tip path (n : node (L := IDs) (Hash := list Z)) q k x : (q, (k, x)) ∈ leaves_path path n ->
  exists q' b c, q = path ++ q' /\ tip_node q' n = Some (Leaf b c k x).
Proof.
  revert path. induction n as [b c k' x'|b c h kp c0 IH0 c1 IH1]; intros path; cbn [leaves_path].
  - intros [= -> -> ->]%list_elem_of_singleton. exists [], b, c. by rewrite app_nil_r.
  - intros [Hin|Hin]%elem_of_app; [destruct (IH0 _ Hin) as (q' & b' & c' & -> & Ht); exists (false :: q'), b', c'
      |destruct (IH1 _ Hin) as (q' & b' & c' & -> & Ht); exists (true :: q'), b', c']; by rewrite <- app_assoc.
Qed.

Definition comm_ok (C : Point) : Prop := bytes_n 32 (m_X C) /\ 0 <= m_Y C <= 1.

Lemma first_ok t C lo hi : utxo_ok t -> comm_ok C -> in_width 64 lo -> in_width 64 hi ->
  match FindFirst t (Key_of_Data (mkData C lo)) (Key_of_Data (mkData C hi)) with
  | None => forall m, lo <= m <= hi -> content t (Key_of_Data (mkData C m)) = []
  | Some (path, (k, x)) => exists n b c m, t = Some n /\ lo <= m <= hi /\ k = Key_of_Data (mkData C m) /\ ids_ok x /\
      tip_node path n = Some (Leaf b c k x) /\ content t k = ids x /\ forall m', lo <= m' < m -> content t (Key_of_Data (mkData C m')) = []
  end.
Proof.
  intros Hok [HX HY] Hlo Hhi. unfold FindFirst. destruct t as [n|]; [|done]. pose proof Hok as [[W _] Hl]. cbn [Traverse tree_leaves] in *.
  rewrite (Traverse_node_spec _ s_Bits) by (done || (intros B k _ _; apply keq_0)). set (bnd := (Some _, Some _)).
  assert (forall m, in_width 64 m -> data_ok (mkData C m)) as Hdm by (intros m Hm; done).
  set (P := fun x : list bool * (list Z * IDs) => in_bounds s_Bits bnd x.2.1 = true).
  assert (forall d, data_ok d -> in_bounds s_Bits bnd (Key_of_Data d) = true <-> data_val (mkData C lo) <= data_val d <= data_val (mkData C hi)) as Hbnd.
  { intros d Hd. unfold in_bounds, in_bound, bnd. cbn [fst snd]. rewrite andb_true_iff, !Z.leb_le.
    rewrite (proj1 (Cmp_val d _ Hd (Hdm hi Hhi))), (proj2 (Cmp_val d _ Hd (Hdm lo Hlo))). done. }
  (* a leaf of the commitment within the bounds is among those visited *)
  assert (forall m, lo <= m <= hi -> content (Some n) (Key_of_Data (mkData C m)) <> [] -> exists q x, (q, (Key_of_Data (mkData C m), x)) ∈ filter P (leaves_path [] n)) as Hin.
  { intros m Hm Hne. unfold in_width in Hlo, Hhi. assert (data_ok (mkData C m)) as Hd by (apply Hdm; unfold in_width; lia).
    unfold content, stack_of in Hne. destruct (list_find _ _) as [[i [k x]]|] eqn:El; [|done]. apply list_find_Some in El as (El & Ek & _). cbn in Ek, El. subst k.
    rewrite <- (leaves_path_leaves [] n), list_lookup_fmap in El. destruct (leaves_path [] n !! i) as [[q y]|] eqn:Eq; [|done]. cbn in El. simplify_eq.
    exists q, x. apply list_elem_of_filter. split; [|by eapply list_elem_of_lookup_2]. apply (Hbnd (mkData C m) Hd). unfold data_val. cbn. lia. }
  destruct (filter P (leaves_path [] n)) as [|[path [k x]] rest] eqn:Ef; cbn [visit].
  { intros m Hm. destruct (decide (content (Some n) (Key_of_Data (mkData C m)) = [])) as [|Hne]; [done|]. destruct (Hin m Hm Hne) as (q & x & Hq). by apply elem_of_nil in Hq. }
  assert ((path, (k, x)) ∈ filter P (leaves_path [] n)) as Hhd by (rewrite Ef; by left). apply list_elem_of_filter in Hhd as [HP Hhd].
  destruct (leaves_path_tip [] n path k x Hhd) as (q & b & c & -> & Ht). cbn [app] in *.
  pose proof (leaves_path_elem _ _ _ Hhd) as Hleaf. cbn in Hleaf. rewrite Forall_forall in Hl. destruct (Hl _ Hleaf) as [(d & Hd & Ek) Hi]. cbn in Ek, Hi. subst k.
  apply (Hbnd d Hd) in HP. destruct (data_between C lo hi d (Hdm lo Hlo) (Hdm hi Hhi) Hd HP) as [Ed Hm].
  exists n, b, c, (m_Maturity d). rewrite <- Ed. split_and!; try done; try lia.
  - by apply content_elem.
  - intros m' Hm'. destruct (decide (content (Some n) (Key_of_Data (mkData C m')) = [])) as [|Hne]; [done|].
    destruct (Hin m' ltac:(lia) Hne) as (q' & x' & [Hq|Hq]%elem_of_cons).
    + injection Hq as _ Ek _. apply (f_equal Data_of_Key) in Ek. unfold in_width in *. rewrite !Data_of_Key_of_Data in Ek by (done || (apply Hdm; unfold in_width; lia)).
      rewrite <- Ek in Hm'. cbn in Hm'. lia.
    + exfalso. pose proof (leaves_sorted _ _ _ W) as Hs. rewrite <- (leaves_path_leaves [] n) in Hs.
      assert (StronglySorted (fun x y : list bool * (list Z * IDs) => klt s_Bits x.2.1 y.2.1) (leaves_path [] n)) as Hs'.
      { clear -Hs. induction (leaves_path [] n) as [|y l IH]; [constructor|]. rewrite fmap_cons in Hs. apply StronglySorted_inv in Hs as [Hs Hf].
        constructor; [by apply IH|]. apply Forall_forall. intros z Hz. rewrite Forall_forall in Hf. apply (Hf z.2). apply list_elem_of_fmap. by exists z. }
      apply (StronglySorted_sublist _ (filter P (leaves_path [] n))) in Hs'; [|apply sublist_filter]. rewrite Ef in Hs'.
      apply StronglySorted_inv in Hs' as [_ Hf]. rewrite Forall_forall in Hf. specialize (Hf _ Hq). cbn in Hf.
      assert (data_ok (mkData C m')) as Hd' by (apply Hdm; unfold in_width in *; lia).
      destruct (Key_of_Data_spec _ Hd) as [K1 V1], (Key_of_Data_spec _ Hd') as [K2 V2]. apply klt_be_val in Hf; [|done|done]. rewrite V1, V2 in Hf.
      rewrite Ed in Hf. unfold data_val in Hf. cbn in Hf. lia.
Qed.

(** ** The root depends on the sizes of the stacks only *)
Definition same_set (t t' : utree) : Prop := forall d, data_ok d -> content t (Key_of_Data d) ≡ₚ content t' (Key_of_Data d).

#[export] Instance same_set_equiv : Equivalence same_set.
Proof.
  split.
  - by intros x d _.
  - intros x y H d Hd. by rewrite (H d Hd).
  - intros x y z H1 H2 d Hd. by rewrite (H1 d Hd), (H2 d Hd).
Qed.

Lemma summary_elem t k h : utxo_ok t -> (k, h) ∈ leaf_sum (get_LeafHash sha256) <$> tree_leaves t <->
  exists d, data_ok d /\ k = Key_of_Data d /\ content t k <> [] /\ h = Leaf_get_Hash sha256 k (Z.of_nat (length (content t k))).
Proof.
  intros Hok. pose proof (uo_leaves _ Hok) as Hl. rewrite Forall_forall in Hl. rewrite list_elem_of_fmap. split.
  - intros ([k' x] & E & Hx). injection E as -> ->. destruct (Hl _ Hx) as [(d & Hd & Ek) Hi]. cbn in *. exists d.
    rewrite (content_elem t _ x Hok Hx). split_and!; [done|done| |unfold get_LeafHash; by rewrite get_Count_ids].
    pose proof (ids_nonempty _ Hi). by destruct (ids x); cbn in *; [lia|].
  - intros (d & Hd & -> & Hne & ->). unfold content, stack_of in Hne. destruct (list_find _ _) as [[i [k x]]|] eqn:El; [|done].
    apply list_find_Some in El as (El & Ek & _). cbn in Ek. subst k. apply list_elem_of_lookup_2 in El. exists (Key_of_Data d, x). split; [|done].
    rewrite (content_elem t _ x Hok El). destruct (Hl _ El) as [_ Hi]. unfold leaf_sum, get_LeafHash. cbn in *. by rewrite get_Count_ids.
Qed.

(** Two trees with the same stacks, in any order, have the same root. *)
Lemma same_set_root t t' : utxo_ok t -> utxo_ok t' -> same_set t t' ->
  (Radix_get_Hash (hash2 sha256) (replicate 32 0) (get_LeafHash sha256) t).2
  = (Radix_get_Hash (hash2 sha256) (replicate 32 0) (get_LeafHash sha256) t').2.
Proof.
  intros Hok Hok' Hs. pose proof Hok as [[W C] _]. pose proof Hok' as [[W' C'] _].
  assert (forall u, utxo_ok u -> StronglySorted (fun x y : list Z * list Z => klt s_Bits x.1 y.1) (leaf_sum (get_LeafHash sha256) <$> tree_leaves u)) as Hsort.
  { intros [n|] [[Wu _] _]; [|constructor]. apply (StronglySorted_fmap _ (fun x y => klt s_Bits x.1 y.1)); [intros x y Hxy; exact Hxy|]. by apply (leaves_sorted s_Bits 0). }
  assert (forall u, utxo_ok u -> NoDup (leaf_sum (get_LeafHash sha256) <$> tree_leaves u)) as Hnd.
  { intros u Hu. pose proof (utxo_nodup u Hu) as Hd. apply (NoDup_fmap_1 fst). rewrite <- list_fmap_compose. exact Hd. }
  assert (leaf_sum (get_LeafHash sha256) <$> tree_leaves t = leaf_sum (get_LeafHash sha256) <$> tree_leaves t') as E.
  { apply (StronglySorted_unique_strong (fun x y => klt s_Bits x.1 y.1)); [|by apply Hsort|by apply Hsort|].
    - intros x y _ _ H1 H2. exfalso. eapply klt_irrefl, klt_trans; eassumption.
    - apply NoDup_Permutation; [by apply Hnd|by apply Hnd|]. intros [k h]. rewrite !summary_elem by done.
      split; intros (d & Hd & -> & Hne & ->); exists d; specialize (Hs d Hd); (split_and!; [done|done| |]); try by rewrite Hs.
      + intros E. apply Hne, Permutation_nil. by rewrite Hs, E.
      + intros E. apply Hne, Permutation_nil. by rewrite <- Hs, E. }
  pose proof (Radix_get_Hash_spec (hash2 sha256) (replicate 32 0) (get_LeafHash sha256) t C) as H1.
  pose proof (Radix_get_Hash_spec (hash2 sha256) (replicate 32 0) (get_LeafHash sha256) t' C') as H2.
  destruct (Radix_get_Hash _ _ _ t) as [t1 h1], (Radix_get_Hash _ _ _ t') as [t2 h2]. destruct H1 as (-> & _), H2 as (-> & _). cbn [snd].
  destruct t as [n|], t' as [n'|]; cbn [tree_leaves] in E; [by apply (canonical _ _ _ s_Bits 0)| | |done].
  - apply fmap_nil_inv in E. by destruct (leaves_nonempty n).
  - symmetry in E. apply fmap_nil_inv in E. by destruct (leaves_nonempty n').
Qed.
End set.
