(* ===== verification/BlockApply.v ===== *)
(** Applying blocks to the UTXO set and undoing them: [HandleBlockElement],
    [HandleValidatedTx] and [HandleValidatedBlock] of [node/processor.cpp].

    The state is the UTXO tree and the number of outputs so far, [m_Extra.m_Txos],
    which is the next [TxoID].  An input that was spent remembers its maturity and its
    [TxoID] in the element of the block; here it is returned.  The index of
    kernels is a table of the database and a parameter.  [None] is a failed assertion
    or an access through a pointer that does not lead to a leaf. *)

From stdpp Require Import sorting.
From S2P Require Import Prelude UintBig EccData Difficulty Merkle RadixTree UtxoTree UtxoSet Rules TxBase.

Record Proc := mkProc { p_Utxos : utree; p_Txos : Z }.

Section apply.
Context (r : Rules).

(** [HandleBlockElement] for an input: the state, the input with what it
    remembers, and the result. *)
Definition HandleInput (p : Proc) (v : Input) (h : Z) (pHMax : option Z) (bFwd : bool) : option (Proc * Input * bool) :=
  let comm := e_Commitment (i_Element v) in
  if bFwd then
    let bounds :=
      match pHMax with
      | None => Some (Key_of_Data (mkData comm 0), Key_of_Data (mkData comm (u64 (h - 1))))
      | Some hMax =>
          if hMax <=? e_Maturity (i_Element v) then None
          else let k := Key_of_Data (mkData comm (e_Maturity (i_Element v))) in Some (k, k)
      end in
    match bounds with
    | None => Some (p, v, false)
    | Some (kMin, kMax) =>
        match FindFirst (p_Utxos p) kMin kMax with
        | None => Some (p, v, false)
        | Some (path, (k, x)) =>
            let cu := leaf_cursor path in
            let d := Data_of_Key k in
            if negb (Point_cmp (m_Commitment d) comm =? 0) || negb (m_Maturity d <=? match pHMax with Some hMax => hMax | None => h end) then None
            else
              '(t, nID) ← (match x with
                           | Single id => t ← Delete cu (p_Utxos p); Some (t, id)
                           | Queue _ _ =>
                               '(id, x) ← PopID x;
                               Some (InvalidateElement cu (set_leaf (p_Utxos p) cu x), id)
                           end);
              let v := match pHMax with None => mkInput (mkElement comm (m_Maturity d)) nID | Some _ => v end in
              Some (mkProc t (p_Txos p), v, true)
        end
    end
  else
    f ← Utxo_Find (p_Utxos p) (Key_of_Data (mkData comm (e_Maturity (i_Element v)))) true;
    let cu := fr_cursor f in
    if fr_bCreate f then Some (mkProc (set_leaf (fr_tree f) cu (Single (i_ID v))) (p_Txos p), v, true)
    else
      x ← leaf_at (fr_tree f) cu;
      Some (mkProc (InvalidateElement cu (set_leaf (fr_tree f) cu (PushID (i_ID v) x))) (p_Txos p), v, true).

(** [HandleBlockElement] for an output. *)
Definition HandleOutput (p : Proc) (v : Output) (h : Z) (pHMax : option Z) (bFwd : bool) : option (Proc * bool) :=
  let minMaturity := get_MinMaturity r v h in
  let maturity :=
    match pHMax with
    | None => Some minMaturity
    | Some _ => if e_Maturity (o_Element v) <? minMaturity then None else Some (e_Maturity (o_Element v))
    end in
  match maturity with
  | None => Some (p, false)
  | Some m =>
      f ← Utxo_Find (p_Utxos p) (Key_of_Data (mkData (e_Commitment (o_Element v)) m)) true;
      let cu := fr_cursor f in
      let t := InvalidateElement cu (fr_tree f) in
      if bFwd then
        let nID := p_Txos p in
        if fr_bCreate f then Some (mkProc (set_leaf t cu (Single nID)) (u64 (p_Txos p + 1)), true)
        else
          x ← leaf_at t cu;
          if u32 (get_Count x + 1) =? 0 then Some (mkProc t (p_Txos p), false)
          else Some (mkProc (set_leaf t cu (PushID nID x)) (u64 (p_Txos p + 1)), true)
      else if p_Txos p =? 0 then None
      else
        x ← leaf_at t cu;
        match x with
        | Single _ => t ← Delete cu t; Some (mkProc t (p_Txos p - 1), true)
        | Queue _ _ => '(_, x) ← PopID x; Some (mkProc (set_leaf t cu x) (p_Txos p - 1), true)
        end
  end.

(** The loops over the inputs and the outputs: the state, the inputs as far as they
    were handled, and whether all were. *)
Fixpoint Inputs_loop (p : Proc) (l : list Input) (h : Z) (pHMax : option Z) (bFwd : bool) : option (Proc * list Input * bool) :=
  match l with
  | [] => Some (p, [], true)
  | v :: l =>
      '(p, v, ok) ← HandleInput p v h pHMax bFwd;
      if negb ok then Some (p, [], false)
      else '(p, vs, ok) ← Inputs_loop p l h pHMax bFwd; Some (p, v :: vs, ok)
  end.

(** The state and the number of outputs that were handled. *)
Fixpoint Outputs_loop (p : Proc) (l : list Output) (h : Z) (pHMax : option Z) (bFwd : bool) : option (Proc * nat * bool) :=
  match l with
  | [] => Some (p, 0%nat, true)
  | v :: l =>
      '(p, ok) ← HandleOutput p v h pHMax bFwd;
      if negb ok then Some (p, 0%nat, false)
      else '(p, n, ok) ← Outputs_loop p l h pHMax bFwd; Some (p, S n, ok)
  end.

(** The index of kernels: the height of a kernel, or 0. *)
Context (FindKernel : list Z -> Z).

Definition CheckLock (hMax : Z) (k : TxKernel) : bool :=
  match k_pRelativeLock k with
  | None => true
  | Some x =>
      let h0 := FindKernel (rl_ID x) in
      if h0 <? HeightGenesis then false
      else negb (hMax <? HeightAdd h0 (rl_LockHeight x))
  end.

(** What is left of a vector whose first elements were changed. *)
Definition updated (v vs : list Input) : list Input := vs ++ drop (length vs) v.

(** [HandleValidatedTx]: the state, the elements and the result. *)
Definition HandleValidatedTx (p : Proc) (tx : TxVectors) (h : Z) (bFwd : bool) (pHMax : option Z) : option (Proc * TxVectors * bool) :=
  let hMax := match pHMax with Some hMax => hMax | None => h end in
  if negb (forallb (CheckLock hMax) (m_vKernels tx)) then Some (p, tx, false)
  else
    '(p, ins, ok) ← Inputs_loop p (m_vInputs tx) h pHMax bFwd;
    let tx := mkVectors (updated (m_vInputs tx) ins) (m_vOutputs tx) (m_vKernels tx) in
    '(p, nOut, ok) ← (if ok : bool then Outputs_loop p (m_vOutputs tx) h pHMax bFwd else Some (p, 0%nat, false));
    if ok : bool then Some (p, tx, true)
    else if negb bFwd then None
    else
      '(p, _, _) ← Outputs_loop p (take nOut (m_vOutputs tx)) h pHMax false;
      '(p, _, _) ← Inputs_loop p (take (length ins) (m_vInputs tx)) h pHMax false;
      Some (p, tx, false).

Definition HandleValidatedBlock (p : Proc) (tx : TxVectors) (h : Z) (bFwd : bool) (pHMax : option Z) : option (Proc * TxVectors * bool) :=
  if negb bFwd && (p_Txos p =? 0) then None
  else
    let p := if bFwd then p else mkProc (p_Utxos p) (p_Txos p - 1) in
    '(p, tx, ok) ← HandleValidatedTx p tx h bFwd pHMax;
    if negb ok then Some (p, tx, false)
    else Some (if bFwd then mkProc (p_Utxos p) (u64 (p_Txos p + 1)) else p, tx, true).
End apply.

(** ** One element *)
Section element.
Context (sha256 : list Z -> list Z) (r : Rules).
Abbreviation ok := (utxo_ok sha256).

Definition key (C : Point) (m : Z) : list Z := Key_of_Data (mkData C m).
Definition i_key (v : Input) : list Z := key (e_Commitment (i_Element v)) (e_Maturity (i_Element v)).
Definition o_key (h : Z) (v : Output) : list Z := key (e_Commitment (o_Element v)) (get_MinMaturity r v h).

Lemma key_data_ok C m : comm_ok C -> in_width 64 m -> data_ok (mkData C m).
Proof. by intros [HX HY] Hm. Qed.

Lemma Point_cmp_refl C : comm_ok C -> Point_cmp C C = 0.
Proof. intros [HX HY]. apply (co_eq _ _ cmp_order_Point); [| |done]; (split; [done|]); unfold byte_ok; lia. Qed.

Lemma input_fwd p v h : ok (p_Utxos p) -> comm_ok (e_Commitment (i_Element v)) -> 1 <= h < 2 ^ 64 ->
  let C := e_Commitment (i_Element v) in
  (HandleInput p v h None true = Some (p, v, false) /\ forall m, 0 <= m < h -> content (p_Utxos p) (key C m) = []) \/
  exists t m id rest, HandleInput p v h None true = Some (mkProc t (p_Txos p), mkInput (mkElement C m) id, true) /\ ok t /\ 0 <= m < h /\
    (forall m', 0 <= m' < m -> content (p_Utxos p) (key C m') = []) /\ content (p_Utxos p) (key C m) = id :: rest /\
    forall k, content t k = if decide (k = key C m) then rest else content (p_Utxos p) k.
Proof.
  intros Hok HC Hh C. unfold HandleInput. fold C in HC |- *. rewrite wrap_small by (unfold in_width; lia).
  pose proof (first_ok sha256 (p_Utxos p) C 0 (h - 1) Hok HC ltac:(unfold in_width; lia) ltac:(unfold in_width; lia)) as Hf.
  destruct (FindFirst _ _ _) as [[path [k x]]|]; [right|left; split; [done|intros m Hm; apply Hf; lia]].
  destruct Hf as (n & b & c & m & Et & Hm & -> & Hi & Ht & Hx & Hlow).
  assert (data_ok (mkData C m)) as Hd by (apply key_data_ok; [done|unfold in_width; lia]).
  rewrite Data_of_Key_of_Data by done. cbn [m_Commitment m_Maturity].
  rewrite (Point_cmp_refl C HC), (proj2 (Z.leb_le m h)) by lia. cbn [negb Z.eqb orb].
  destruct x as [id|cnt top].
  - destruct (delete_ok sha256 (leaf_cursor path) n b c _ _ ltac:(by rewrite <- Et) Ht) as (t' & Ed & Hok' & Hc). rewrite Et, Ed. cbn [mbind option_bind].
    exists t', m, id, []. rewrite Et in *. split_and!; try done; lia.
  - destruct (PopID_spec _ Hi eq_refl) as (id & x' & Ep & Hi' & Ei). rewrite Ep. cbn [mbind option_bind]. rewrite set_Invalidate.
    destruct (set_ok sha256 (leaf_cursor path) _ n b c _ _ x' Hok Et Ht Hi') as [Hok' Hc].
    eexists _, m, id, (ids x'). unfold key. rewrite Hx, Ei. split_and!; try done; lia.
Qed.

Lemma input_bwd p v h : ok (p_Utxos p) -> comm_ok (e_Commitment (i_Element v)) -> in_width 64 (e_Maturity (i_Element v)) ->
  Z.of_nat (length (content (p_Utxos p) (i_key v))) + 1 < 2 ^ 32 ->
  exists t, HandleInput p v h None false = Some (mkProc t (p_Txos p), v, true) /\ ok t /\
    forall k, content t k = if decide (k = i_key v) then i_ID v :: content (p_Utxos p) k else content (p_Utxos p) k.
Proof.
  intros Hok HC Hm Hn. destruct (find_ok sha256 (p_Utxos p) _ Hok (key_data_ok _ _ HC Hm)) as (f & n & b & c & x & Ef & Et & Ht & Hok' & Hi & Hcase).
  unfold HandleInput. rewrite Ef. cbn [mbind option_bind]. rewrite Et. fold (key (e_Commitment (i_Element v)) (e_Maturity (i_Element v))) in *. fold (i_key v) in *.
  destruct (fr_bCreate f).
  - destruct Hcase as (He & Hd & Hc). destruct (set_dirty_ok sha256 (fr_cursor f) n b c _ x (Single (i_ID v)) Hok' Hd Ht ltac:(done)) as [Hok2 Hc2].
    eexists. split_and!; [done|done|]. intros k. rewrite Hc2. destruct (decide (k = i_key v)) as [->|Hk]; [by rewrite He|]. by apply Hc.
  - destruct Hcase as (E & He). unfold leaf_at. cbn [mbind option_bind]. rewrite Ht. cbn [mbind option_bind]. rewrite set_Invalidate.
    destruct (PushID_spec (i_ID v) x Hi) as [Hi2 Ei]; [rewrite get_Count_ids by done; by rewrite <- He|].
    destruct (set_ok sha256 (fr_cursor f) (Some n) n b c _ x _ Hok' eq_refl Ht Hi2) as [Hok2 Hc2].
    eexists. split_and!; [done|done|]. intros k. rewrite Hc2. destruct (decide (k = i_key v)) as [->|Hk]; rewrite E in *; [|done]. by rewrite Ei, He.
Qed.

Lemma output_find p v h : ok (p_Utxos p) -> comm_ok (e_Commitment (o_Element v)) -> in_width 64 (get_MinMaturity r v h) ->
  exists f n b c x, Utxo_Find (p_Utxos p) (o_key h v) true = Some f /\ InvalidateElement (fr_cursor f) (fr_tree f) = Some n /\
    tip_node (m_pp (fr_cursor f)) n = Some (Leaf b c (o_key h v) x) /\ ok (Some n) /\ ids_ok x /\ path_dirty (m_pp (fr_cursor f)) n /\
    (forall k, k <> o_key h v -> content (Some n) k = content (p_Utxos p) k) /\
    if fr_bCreate f then content (p_Utxos p) (o_key h v) = [] else content (p_Utxos p) (o_key h v) = ids x.
Proof.
  intros Hok HC Hm. destruct (find_ok sha256 (p_Utxos p) _ Hok (key_data_ok _ _ HC Hm)) as (f & n & b & c & x & Ef & Et & Ht & Hok' & Hi & Hcase).
  destruct (Invalidate_ok sha256 (fr_cursor f) n b c _ x Hok' Ht) as (n' & c' & Ei & Hok2 & Hd & Ht' & Hc).
  exists f, n', b, c', x. rewrite Et. split_and!; try done.
  - intros k Hk. rewrite Hc. destruct (fr_bCreate f); [by apply Hcase|]. by destruct Hcase as [-> _].
  - destruct (fr_bCreate f); apply Hcase.
Qed.

Lemma output_fwd p v h : ok (p_Utxos p) -> comm_ok (e_Commitment (o_Element v)) -> in_width 64 (get_MinMaturity r v h) ->
  exists t (b : bool), HandleOutput r p v h None true = Some (mkProc t (if b then u64 (p_Txos p + 1) else p_Txos p), b) /\ ok t /\
    (b = true <-> Z.of_nat (length (content (p_Utxos p) (o_key h v))) + 1 < 2 ^ 32) /\
    forall k, content t k = if b && bool_decide (k = o_key h v) then p_Txos p :: content (p_Utxos p) k else content (p_Utxos p) k.
Proof.
  intros Hok HC Hm. destruct (output_find p v h Hok HC Hm) as (f & n & b & c & x & Ef & Et & Ht & Hok' & Hi & Hd & Hc & Hcase).
  unfold HandleOutput. fold (key (e_Commitment (o_Element v)) (get_MinMaturity r v h)). fold (o_key h v). rewrite Ef. cbn [mbind option_bind]. rewrite Et.
  destruct (fr_bCreate f).
  { destruct (set_dirty_ok sha256 (fr_cursor f) n b c _ x (Single (p_Txos p)) Hok' Hd Ht ltac:(done)) as [Hok2 Hc2].
    eexists _, true. rewrite Hcase. split_and!; [done|done|split; [cbn; lia|done]|]. intros k. rewrite Hc2.
    destruct (decide (k = o_key h v)) as [->|Hk]; [by rewrite bool_decide_true, Hcase|]. rewrite bool_decide_false by done. by apply Hc. }
  unfold leaf_at. cbn [mbind option_bind]. rewrite Ht. cbn [mbind option_bind]. pose proof (get_Count_ids x Hi) as Hg. rewrite <- Hcase in Hg.
  assert (0 < get_Count x < 2 ^ 32) as Hr by (destruct x; cbn in *; lia).
  destruct (Z.eqb_spec (u32 (get_Count x + 1)) 0) as [E|E].
  - eexists _, false. split_and!; [done|done|split; [done|]|].
    + unfold wrap in E. apply Z.mod_divide in E; [|lia]. destruct E as [q E]. lia.
    + intros k. cbn [andb]. destruct (decide (k = o_key h v)) as [->|Hk]; [|by apply Hc]. rewrite Hcase. apply (content_elem sha256); [done|].
      by eapply tip_leaf; [exact (proj1 (uo_inv _ _ Hok'))|].
  - assert (get_Count x + 1 < 2 ^ 32) as Hlt by (destruct (decide (get_Count x + 1 = 2 ^ 32)) as [E2|]; [by rewrite E2 in E|lia]).
    destruct (PushID_spec (p_Txos p) x Hi Hlt) as [Hi2 Ei].
    destruct (set_dirty_ok sha256 (fr_cursor f) n b c _ x _ Hok' Hd Ht Hi2) as [Hok2 Hc2].
    eexists _, true. split_and!; [done|done|split; [lia|done]|]. intros k. rewrite Hc2.
    destruct (decide (k = o_key h v)) as [->|Hk]; [by rewrite bool_decide_true, Ei, Hcase|]. rewrite bool_decide_false by done. by apply Hc.
Qed.

Lemma output_bwd p v h id rest : ok (p_Utxos p) -> comm_ok (e_Commitment (o_Element v)) -> in_width 64 (get_MinMaturity r v h) -> p_Txos p <> 0 ->
  content (p_Utxos p) (o_key h v) = id :: rest ->
  exists t, HandleOutput r p v h None false = Some (mkProc t (p_Txos p - 1), true) /\ ok t /\
    forall k, content t k = if decide (k = o_key h v) then rest else content (p_Utxos p) k.
Proof.
  intros Hok HC Hm Hn Hx. destruct (output_find p v h Hok HC Hm) as (f & n & b & c & x & Ef & Et & Ht & Hok' & Hi & Hd & Hc & Hcase).
  unfold HandleOutput. fold (key (e_Commitment (o_Element v)) (get_MinMaturity r v h)). fold (o_key h v). rewrite Ef. cbn [mbind option_bind]. rewrite Et.
  rewrite (proj2 (Z.eqb_neq _ _) Hn). destruct (fr_bCreate f); [by rewrite Hx in Hcase|].
  unfold leaf_at. cbn [mbind option_bind]. rewrite Ht. cbn [mbind option_bind]. rewrite Hx in Hcase. destruct x as [id'|cnt top].
  - destruct (delete_ok sha256 (fr_cursor f) n b c _ _ Hok' Ht) as (t' & -> & Hok2 & Hc2). exists t'. split_and!; [done|done|]. intros k. rewrite Hc2.
    injection Hcase as -> ->. destruct (decide (k = o_key h v)); [done|by apply Hc].
  - destruct (PopID_spec _ Hi eq_refl) as (id2 & x' & -> & Hi' & Ei). rewrite Ei in Hcase. injection Hcase as -> ->.
    destruct (set_dirty_ok sha256 (fr_cursor f) n b c _ _ x' Hok' Hd Ht Hi') as [Hok2 Hc2]. eexists. split_and!; [done|done|]. intros k. rewrite Hc2.
    destruct (decide (k = o_key h v)); [done|by apply Hc].
Qed.

(** ** The loops *)
Definition inp_ids (k : list Z) (vs : list Input) : list Z := i_ID <$> filter (fun v => i_key v = k) vs.

Fixpoint out_ids (h T : Z) (k : list Z) (l : list Output) : list Z :=
  match l with
  | [] => []
  | v :: l => out_ids h (T + 1) k l ++ (if decide (k = o_key h v) then [T] else [])
  end.

Definition out_count (h : Z) (k : list Z) (l : list Output) : nat := length (filter (fun v => o_key h v = k) l).

Lemma inp_ids_cons k v vs : inp_ids k (v :: vs) = (if decide (k = i_key v) then [i_ID v] else []) ++ inp_ids k vs.
Proof. unfold inp_ids. rewrite filter_cons. repeat case_decide; by subst. Qed.

Lemma out_count_cons h k v l : out_count h k (v :: l) = ((if decide (k = o_key h v) then 1 else 0) + out_count h k l)%nat.
Proof. unfold out_count. rewrite filter_cons. repeat case_decide; by subst. Qed.

Lemma out_count_le h k l : (out_count h k l <= length l)%nat.
Proof. apply length_filter. Qed.

Lemma out_ids_length h T k l : length (out_ids h T k l) = out_count h k l.
Proof.
  revert T. induction l as [|v l IH]; intros T; [done|]. cbn [out_ids]. rewrite length_app, IH, out_count_cons. case_decide; cbn; lia.
Qed.

(** What is known of an input that was spent at [h], and of an output. *)
Definition spent_ok (h : Z) (v : Input) : Prop := comm_ok (e_Commitment (i_Element v)) /\ 0 <= e_Maturity (i_Element v) < h.
Definition out_ok (h : Z) (v : Output) : Prop := comm_ok (e_Commitment (o_Element v)) /\ h <= get_MinMaturity r v h < 2 ^ 64.

Lemma inputs_fwd l : forall p h, ok (p_Utxos p) -> Forall (fun v => comm_ok (e_Commitment (i_Element v))) l -> 1 <= h < 2 ^ 64 ->
  exists t vs (b : bool), Inputs_loop p l h None true = Some (mkProc t (p_Txos p), vs, b) /\ ok t /\ (length vs <= length l)%nat /\
    (fun v => e_Commitment (i_Element v)) <$> vs = (fun v => e_Commitment (i_Element v)) <$> take (length vs) l /\ Forall (spent_ok h) vs /\
    (forall k, content (p_Utxos p) k = inp_ids k vs ++ content t k) /\
    if b then length vs = length l
    else exists v, l !! length vs = Some v /\ forall m, 0 <= m < h -> content t (key (e_Commitment (i_Element v)) m) = [].
Proof.
  induction l as [|v l IH]; intros p h Hok Hl Hh; cbn [Inputs_loop].
  { exists (p_Utxos p), [], true. by destruct p. }
  apply Forall_cons in Hl as [Hv Hl]. destruct (input_fwd p v h Hok Hv Hh) as [[E Hno]|(t & m & id & rest & E & Hok' & Hm & _ & Hx & Hc)]; rewrite E; cbn [mbind option_bind negb].
  { exists (p_Utxos p), [], false. cbn. destruct p. split_and!; try done; [lia|]. by exists v. }
  destruct (IH (mkProc t (p_Txos p)) h Hok' Hl Hh) as (t' & vs & b & E' & Hok2 & Hlen & Hcm & Hsp & Hc2 & Hb). rewrite E'. cbn [mbind option_bind].
  eexists t', (_ :: vs), b. split_and!; [done|done|cbn; lia|cbn; by f_equal|constructor; [by split|done]| |].
  - intros k. rewrite inp_ids_cons. cbn [p_Utxos] in Hc2. rewrite <- app_assoc, <- Hc2, Hc. unfold i_key. cbn [i_Element e_Commitment e_Maturity i_ID].
    case_decide as Ek; [|done]. by rewrite Ek, Hx.
  - destruct b; cbn; [by f_equal|done].
Qed.

Lemma inputs_bwd vs : forall p h, ok (p_Utxos p) -> Forall (spent_ok h) vs -> 1 <= h < 2 ^ 64 ->
  (forall k, Z.of_nat (length (inp_ids k vs)) + Z.of_nat (length (content (p_Utxos p) k)) < 2 ^ 32) ->
  exists t, Inputs_loop p vs h None false = Some (mkProc t (p_Txos p), vs, true) /\ ok t /\
    forall k, content t k = rev (inp_ids k vs) ++ content (p_Utxos p) k.
Proof.
  induction vs as [|v vs IH]; intros p h Hok Hl Hh Hn; cbn [Inputs_loop].
  { exists (p_Utxos p). by destruct p. }
  apply Forall_cons in Hl as [[HC Hm] Hl].
  destruct (input_bwd p v h Hok HC) as (t & E & Hok' & Hc); [unfold in_width; lia| |].
  { specialize (Hn (i_key v)). rewrite inp_ids_cons, decide_True in Hn by done. cbn in Hn. lia. }
  rewrite E. cbn [mbind option_bind negb]. destruct (IH (mkProc t (p_Txos p)) h Hok' Hl Hh) as (t' & E' & Hok2 & Hc2).
  { intros k. specialize (Hn k). rewrite inp_ids_cons, length_app in Hn. cbn [p_Utxos]. rewrite Hc. case_decide; cbn in *; lia. }
  rewrite E'. cbn [mbind option_bind]. exists t'. split_and!; [done|done|]. intros k. rewrite Hc2. cbn [p_Utxos]. rewrite Hc, inp_ids_cons, rev_app_distr, <- app_assoc.
  by case_decide.
Qed.

Lemma outputs_fwd l : forall p h, ok (p_Utxos p) -> Forall (out_ok h) l -> 1 <= h -> 0 <= p_Txos p -> p_Txos p + Z.of_nat (length l) < 2 ^ 64 ->
  exists t n (b : bool), Outputs_loop r p l h None true = Some (mkProc t (p_Txos p + Z.of_nat n), n, b) /\ ok t /\ (n <= length l)%nat /\
    (forall k, content t k = out_ids h (p_Txos p) k (take n l) ++ content (p_Utxos p) k) /\
    if b then n = length l else exists v, l !! n = Some v /\ Z.of_nat (length (content t (o_key h v))) + 1 = 2 ^ 32.
Proof.
  induction l as [|v l IH]; intros p h Hok Hl Hh HT Hn; cbn [Outputs_loop].
  { exists (p_Utxos p), 0%nat, true. rewrite Z.add_0_r. by destruct p. }
  apply Forall_cons in Hl as [[HC Hm] Hl]. cbn [length] in Hn.
  destruct (output_fwd p v h Hok HC ltac:(unfold in_width; lia)) as (t & b & E & Hok' & Hb & Hc). rewrite E. cbn [mbind option_bind].
  destruct b; cbn [negb andb] in *.
  2: { exists t, 0%nat, false. rewrite Z.add_0_r. split_and!; [done|done|lia|done|]. exists v. split; [done|]. rewrite Hc.
       pose proof (content_bound sha256 _ (o_key h v) Hok). destruct Hb as [_ Hb]. destruct (decide (Z.of_nat (length (content (p_Utxos p) (o_key h v))) + 1 < 2 ^ 32)) as [Hx|]; [by specialize (Hb Hx)|lia]. }
  rewrite wrap_small by (unfold in_width; lia).
  destruct (IH (mkProc t (p_Txos p + 1)) h Hok' Hl Hh ltac:(cbn; lia) ltac:(cbn; lia)) as (t' & n & b & E' & Hok2 & Hlen & Hc2 & Hb2). rewrite E'. cbn [mbind option_bind p_Txos].
  exists t', (S n), b. split_and!; [by replace (p_Txos p + Z.of_nat (S n)) with (p_Txos p + 1 + Z.of_nat n) by lia|done|cbn; lia| |].
  - intros k. cbn [take out_ids p_Utxos p_Txos] in *. rewrite Hc2, Hc, <- app_assoc. f_equal. destruct (decide (k = o_key h v)); [by rewrite bool_decide_true|by rewrite bool_decide_false].
  - destruct b; cbn; [by f_equal|done].
Qed.

Lemma outputs_bwd l : forall p h, ok (p_Utxos p) -> Forall (out_ok h) l -> 1 <= h -> Z.of_nat (length l) <= p_Txos p ->
  (forall k, out_count h k l <= length (content (p_Utxos p) k))%nat ->
  exists t, Outputs_loop r p l h None false = Some (mkProc t (p_Txos p - Z.of_nat (length l)), length l, true) /\ ok t /\
    forall k, content t k = drop (out_count h k l) (content (p_Utxos p) k).
Proof.
  induction l as [|v l IH]; intros p h Hok Hl Hh Hn Hcnt; cbn [Outputs_loop].
  { exists (p_Utxos p). rewrite Z.sub_0_r. by destruct p. }
  apply Forall_cons in Hl as [[HC Hm] Hl]. cbn [length] in Hn. pose proof (Hcnt (o_key h v)) as Hv. rewrite out_count_cons, decide_True in Hv by done.
  destruct (content (p_Utxos p) (o_key h v)) as [|id rest] eqn:Ex; [cbn in Hv; lia|].
  destruct (output_bwd p v h id rest Hok HC ltac:(unfold in_width; lia) ltac:(lia) Ex) as (t & E & Hok' & Hc). rewrite E. cbn [mbind option_bind negb].
  destruct (IH (mkProc t (p_Txos p - 1)) h Hok' Hl Hh ltac:(cbn; lia)) as (t' & E' & Hok2 & Hc2).
  { intros k. specialize (Hcnt k). rewrite out_count_cons in Hcnt. cbn [p_Utxos]. rewrite Hc. case_decide as Ek; [|done]. rewrite Ek, Ex in Hcnt. rewrite Ek. cbn in Hcnt. lia. }
  rewrite E'. cbn [mbind option_bind p_Txos]. exists t'. split_and!; [cbn [length]; by replace (p_Txos p - Z.of_nat (S (length l))) with (p_Txos p - 1 - Z.of_nat (length l)) by lia|done|]. intros k. rewrite Hc2. cbn [p_Utxos]. rewrite Hc, out_count_cons.
  case_decide as Ek; [by rewrite Ek, Ex|done].
Qed.

(** ** Transactions and blocks *)

(** What the deserialization ensures of the elements of a block, and the rules. *)
Record block_ok (h : Z) (tx : TxVectors) : Prop := {
  bo_h : 1 <= h < 2 ^ 64;
  bo_Coinbase : in_width 64 (Maturity_Coinbase r);
  bo_Std : in_width 64 (Maturity_Std r);
  bo_in : Forall (fun v => comm_ok (e_Commitment (i_Element v))) (m_vInputs tx);
  bo_out : Forall (fun v => comm_ok (e_Commitment (o_Element v)) /\ in_width 64 (o_Incubation v)) (m_vOutputs tx)
}.

Lemma block_out_ok h tx : block_ok h tx -> Forall (out_ok h) (m_vOutputs tx).
Proof.
  intros [Hh H1 H2 _ Ho]. eapply Forall_impl; [exact Ho|]. intros v [HC Hi]. split; [done|]. unfold get_MinMaturity.
  assert (in_width 64 (if o_Coinbase v then Maturity_Coinbase r else Maturity_Std r)) as Hm by by destruct (o_Coinbase v).
  rewrite (HeightAdd_saturates h) by (done || (unfold in_width; lia)). unfold in_width, MaxHeight in *.
  rewrite HeightAdd_saturates by (unfold in_width; lia). unfold MaxHeight. lia.
Qed.

(** Inputs are of earlier blocks, outputs mature no sooner than in this one. *)
Lemma inp_out_disjoint h vs l k : Forall (spent_ok h) vs -> Forall (out_ok h) l -> inp_ids k vs = [] \/ out_count h k l = 0%nat.
Proof.
  intros Hv Ho. unfold inp_ids, out_count. destruct (filter _ vs) as [|v vs'] eqn:Ev; [by left|]. destruct (filter _ l) as [|o l'] eqn:El; [by right|]. exfalso.
  assert (v ∈ filter (fun v => i_key v = k) vs) as Hin by (rewrite Ev; by left). assert (o ∈ filter (fun o => o_key h o = k) l) as Hio by (rewrite El; by left).
  apply list_elem_of_filter in Hin as [Ek Hin]. apply list_elem_of_filter in Hio as [Ek' Hio]. rewrite Forall_forall in Hv. rewrite Forall_forall in Ho.
  destruct (Hv _ Hin) as [HC Hm], (Ho _ Hio) as [HC' Hm']. rewrite <- Ek' in Ek. unfold i_key, o_key, key in Ek. apply (f_equal Data_of_Key) in Ek.
  rewrite !Data_of_Key_of_Data in Ek by (apply key_data_ok; [done|unfold in_width; lia]). injection Ek as _ Ek. lia.
Qed.

Section block.
Context (FindKernel : list Z -> Z).
Abbreviation tx_step := (HandleValidatedTx r FindKernel).

(** The effect of the elements on the stacks: [vs] are the inputs with what they remember. *)
Definition block_effect (h T : Z) (ins vs : list Input) (outs : list Output) (t t' : utree) : Prop :=
  (fun v => e_Commitment (i_Element v)) <$> vs = (fun v => e_Commitment (i_Element v)) <$> ins /\ Forall (spent_ok h) vs /\
  exists mid : list Z -> list Z, (forall k, content t k = inp_ids k vs ++ mid k) /\ (forall k, content t' k = out_ids h T k outs ++ mid k).

(** Why elements are refused: a relative lock; an input whose commitment has no mature
    output left, all being taken by the inputs before it; a stack that is full. *)
Definition refused (h : Z) (tx : TxVectors) (t : utree) : Prop :=
  forallb (CheckLock FindKernel h) (m_vKernels tx) = false \/
  (exists v vs, m_vInputs tx !! length vs = Some v /\ Forall (spent_ok h) vs /\
    (fun v => e_Commitment (i_Element v)) <$> vs = (fun v => e_Commitment (i_Element v)) <$> take (length vs) (m_vInputs tx) /\
    forall m, 0 <= m < h -> content t (key (e_Commitment (i_Element v)) m) = inp_ids (key (e_Commitment (i_Element v)) m) vs) \/
  (exists n v, m_vOutputs tx !! n = Some v /\ 2 ^ 32 <= Z.of_nat (length (content t (o_key h v))) + Z.of_nat n + 1).

(** Undoing what was done before a failure. *)
Lemma undo_ok p p' t vs l h : ok (p_Utxos p) -> ok p' -> 1 <= h < 2 ^ 64 -> Forall (spent_ok h) vs -> Forall (out_ok h) l -> 0 <= p_Txos p ->
  (forall k, content (p_Utxos p) k = inp_ids k vs ++ content t k) -> (forall k, content p' k = out_ids h (p_Txos p) k l ++ content t k) ->
  exists p1 t1, Outputs_loop r (mkProc p' (p_Txos p + Z.of_nat (length l))) l h None false = Some (p1, length l, true) /\
    Inputs_loop p1 vs h None false = Some (mkProc t1 (p_Txos p), vs, true) /\ ok t1 /\ same_set (p_Utxos p) t1.
Proof.
  intros Hok Hok' Hh Hv Hl HT Hi Ho.
  destruct (outputs_bwd l (mkProc p' (p_Txos p + Z.of_nat (length l))) h Hok' Hl ltac:(lia) ltac:(cbn; lia)) as (t2 & -> & Hok2 & Hc2).
  { intros k. cbn [p_Utxos]. rewrite Ho, length_app, out_ids_length. lia. }
  cbn [p_Txos] in *. rewrite Z.add_simpl_r. assert (forall k, content t2 k = content t k) as Hc.
  { intros k. rewrite Hc2. cbn [p_Utxos]. by rewrite Ho, <- (out_ids_length h (p_Txos p) k l), drop_app_length. }
  destruct (inputs_bwd vs (mkProc t2 (p_Txos p)) h Hok2 Hv Hh) as (t1 & E & Hok1 & Hc1).
  { intros k. cbn [p_Utxos]. rewrite Hc. pose proof (content_bound sha256 _ k Hok) as Hb. rewrite Hi, length_app in Hb. lia. }
  eexists _, t1. split_and!; [done|exact E|done|]. intros d _. rewrite Hc1. cbn [p_Utxos]. rewrite Hi, Hc. f_equiv. apply Permutation_rev.
Qed.

Lemma take_updated l vs : take (length vs) (updated l vs) = vs.
Proof. unfold updated. by rewrite take_app_length. Qed.

Lemma tx_fwd p tx h : ok (p_Utxos p) -> block_ok h tx -> 0 <= p_Txos p -> p_Txos p + Z.of_nat (length (m_vOutputs tx)) < 2 ^ 64 ->
  exists t tx' (b : bool), tx_step p tx h true None = Some (mkProc t (if b then p_Txos p + Z.of_nat (length (m_vOutputs tx)) else p_Txos p), tx', b) /\ ok t /\
    m_vOutputs tx' = m_vOutputs tx /\ m_vKernels tx' = m_vKernels tx /\
    if b then forallb (CheckLock FindKernel h) (m_vKernels tx) = true /\ block_effect h (p_Txos p) (m_vInputs tx) (m_vInputs tx') (m_vOutputs tx) (p_Utxos p) t
    else same_set (p_Utxos p) t /\ refused h tx (p_Utxos p).
Proof.
  intros Hok Hb HT Hn. pose proof (block_out_ok h tx Hb) as Hout. unfold HandleValidatedTx.
  destruct (forallb _ _) eqn:Ek; cbn [negb]. 2: { exists (p_Utxos p), tx, false. destruct p. split_and!; try done. by left. }
  destruct (inputs_fwd (m_vInputs tx) p h Hok (bo_in _ _ Hb) (bo_h _ _ Hb)) as (t & vs & b & E & Hok' & Hlen & Hcm & Hsp & Hc & Hbi). rewrite E. cbn [mbind option_bind].
  assert (1 <= h < 2 ^ 64) as Hh by apply Hb.
  destruct b; cbn [mbind option_bind].
  - destruct (outputs_fwd (m_vOutputs tx) (mkProc t (p_Txos p)) h Hok' Hout ltac:(lia) HT Hn) as (t' & n & b & E' & Hok2 & Hlen' & Hc2 & Hbo). cbn [m_vOutputs].
    rewrite E'. cbn [mbind option_bind p_Txos p_Utxos] in *. destruct b.
    + subst n. eexists t', _, true. split_and!; [done|done|done|done|done|]. cbn [m_vInputs].
      assert (updated (m_vInputs tx) vs = vs) as -> by (unfold updated; by rewrite drop_ge, app_nil_r by lia).
      rewrite (take_ge _ (length vs)) in Hcm by lia. split_and!; [done|done|]. exists (content t). split; [done|]. intros k. by rewrite Hc2, firstn_all.
    + destruct (undo_ok p t' t vs (take n (m_vOutputs tx)) h Hok Hok2 Hh Hsp ltac:(by apply Forall_take) HT Hc Hc2) as (p1 & t1 & E1 & E2 & Hok1 & Hs).
      rewrite length_take, Nat.min_l in E1 by lia. cbn [negb m_vInputs]. rewrite E1. cbn [mbind option_bind]. rewrite take_updated, E2. cbn [mbind option_bind].
      eexists t1, _, false. split_and!; try done. right; right. destruct Hbo as (v & Hv & Hfull). exists n, v. split; [done|].
      rewrite Hc2, length_app, out_ids_length in Hfull. rewrite Hc, length_app. pose proof (out_count_le h (o_key h v) (take n (m_vOutputs tx))) as Hle. rewrite length_take in Hle. lia.
  - destruct (undo_ok p t t vs [] h Hok Hok' Hh Hsp ltac:(done) HT Hc ltac:(done)) as (p1 & t1 & E1 & E2 & Hok1 & Hs).
    rewrite Z.add_0_r in E1. cbn [negb m_vInputs m_vOutputs]. change (take 0 (m_vOutputs tx)) with (@nil Output). rewrite E1. cbn [mbind option_bind]. rewrite take_updated, E2. cbn [mbind option_bind].
    eexists t1, _, false. split_and!; try done. right; left. destruct Hbi as (v & Hv & Hno). exists v, vs. split_and!; try done.
    intros m Hm. by rewrite Hc, Hno, app_nil_r.
Qed.

Lemma tx_bwd p t tx ins h : ok (p_Utxos p) -> ok t -> block_ok h tx -> Z.of_nat (length (m_vOutputs tx)) <= p_Txos p ->
  forallb (CheckLock FindKernel h) (m_vKernels tx) = true ->
  block_effect h (p_Txos p - Z.of_nat (length (m_vOutputs tx))) ins (m_vInputs tx) (m_vOutputs tx) t (p_Utxos p) ->
  exists t', tx_step p tx h false None = Some (mkProc t' (p_Txos p - Z.of_nat (length (m_vOutputs tx))), tx, true) /\ ok t' /\ same_set t t'.
Proof.
  intros Hok Hok0 Hb Hn Hk (Hcm & Hsp & mid & Hi & Ho). pose proof (block_out_ok h tx Hb) as Hout. unfold HandleValidatedTx. rewrite Hk. cbn [negb].
  pose proof (bo_h _ _ Hb) as Hh. set (T := p_Txos p - Z.of_nat (length (m_vOutputs tx))) in *.
  destruct (inputs_bwd (m_vInputs tx) p h Hok Hsp Hh) as (t1 & E1 & Hok1 & Hc1).
  { intros k. rewrite Ho, length_app, out_ids_length. pose proof (content_bound sha256 _ k Hok) as H1. rewrite Ho, length_app, out_ids_length in H1.
    pose proof (content_bound sha256 _ k Hok0) as H2. rewrite Hi, length_app in H2. destruct (inp_out_disjoint h _ _ k Hsp Hout) as [E|E]; rewrite E in *; cbn in *; lia. }
  rewrite E1. cbn [mbind option_bind m_vOutputs].
  destruct (outputs_bwd (m_vOutputs tx) (mkProc t1 (p_Txos p)) h Hok1 Hout ltac:(lia) Hn) as (t2 & E2 & Hok2 & Hc2).
  { intros k. cbn [p_Utxos]. rewrite Hc1, Ho, !length_app, out_ids_length. lia. }
  rewrite E2. cbn [mbind option_bind p_Txos]. exists t2. split_and!; [|done|].
  - unfold updated. rewrite drop_ge, app_nil_r by lia. by destruct tx.
  - intros d _. rewrite Hc2. cbn [p_Utxos]. rewrite Hc1, Ho, Hi, <- (out_ids_length h T _ (m_vOutputs tx)).
    destruct (inp_out_disjoint h _ _ (Key_of_Data d) Hsp Hout) as [E|E].
    + rewrite E. cbn [rev app]. by rewrite drop_app_length.
    + rewrite <- (out_ids_length h T) in E. apply nil_length_inv in E. rewrite E. cbn [length drop app]. apply Permutation_app_tail, Permutation_rev.
Qed.

Abbreviation block_step := (HandleValidatedBlock r FindKernel).
Abbreviation root := (fun t : utree => (Radix_get_Hash (hash2 sha256) (replicate 32 0) (get_LeafHash sha256) t).2).

(** What applying a block needs: the invariant of the tree, and room for the [TxoID]s. *)
Definition can_apply (p : Proc) (h : Z) (tx : TxVectors) : Prop :=
  ok (p_Utxos p) /\ block_ok h tx /\ 0 <= p_Txos p /\ p_Txos p + Z.of_nat (length (m_vOutputs tx)) + 1 < 2 ^ 64.

Lemma block_fwd p tx h : can_apply p h tx ->
  exists t tx' (b : bool), block_step p tx h true None = Some (mkProc t (if b then p_Txos p + Z.of_nat (length (m_vOutputs tx)) + 1 else p_Txos p), tx', b) /\ ok t /\
    m_vOutputs tx' = m_vOutputs tx /\ m_vKernels tx' = m_vKernels tx /\
    if b then forallb (CheckLock FindKernel h) (m_vKernels tx) = true /\ block_effect h (p_Txos p) (m_vInputs tx) (m_vInputs tx') (m_vOutputs tx) (p_Utxos p) t
    else same_set (p_Utxos p) t /\ refused h tx (p_Utxos p).
Proof.
  intros (Hok & Hb & HT & Hn). destruct (tx_fwd p tx h Hok Hb HT ltac:(lia)) as (t & tx' & b & E & H). exists t, tx', b.
  unfold HandleValidatedBlock. cbn [negb andb]. rewrite E. cbn [mbind option_bind]. split; [|done]. destruct b; cbn [negb p_Utxos p_Txos]; [|done].
  by rewrite wrap_small by (unfold in_width; lia).
Qed.

(** The other direction, on any tree with these stacks. *)
Lemma block_bwd p t tx ins h : ok (p_Utxos p) -> ok t -> block_ok h tx -> Z.of_nat (length (m_vOutputs tx)) + 1 <= p_Txos p ->
  forallb (CheckLock FindKernel h) (m_vKernels tx) = true ->
  block_effect h (p_Txos p - 1 - Z.of_nat (length (m_vOutputs tx))) ins (m_vInputs tx) (m_vOutputs tx) t (p_Utxos p) ->
  exists t', block_step p tx h false None = Some (mkProc t' (p_Txos p - 1 - Z.of_nat (length (m_vOutputs tx))), tx, true) /\ ok t' /\ same_set t t'.
Proof.
  intros Hok Hok0 Hb Hn Hk He. unfold HandleValidatedBlock. cbn [negb andb]. rewrite (proj2 (Z.eqb_neq _ _)) by lia.
  destruct (tx_bwd (mkProc (p_Utxos p) (p_Txos p - 1)) t tx ins h Hok Hok0 Hb ltac:(cbn; lia) Hk He) as (t2 & -> & Hok2 & Hs). cbn [mbind option_bind negb]. by exists t2.
Qed.

(** What is known of a block after it was accepted is enough to undo it. *)
Lemma accepted_block_ok h T ins t t' tx tx' : block_ok h tx -> m_vOutputs tx' = m_vOutputs tx -> block_effect h T ins (m_vInputs tx') (m_vOutputs tx) t t' -> block_ok h tx'.
Proof.
  intros Hbo H1 (_ & Hsp & _). destruct Hbo. split; try done; [|by rewrite H1]. eapply Forall_impl; [exact Hsp|]. by intros v [].
Qed.
End block.
End element.

(** ** The claims *)

(** C4: Applying a block never fails an assertion, and it is all or nothing.  When it is
    accepted, the relative locks hold, each input has taken the top of the stack of a mature key of its commitment,
    in order, and remembers the maturity and the [TxoID]; the outputs are pushed on the
    stacks of their keys with consecutive [TxoID]s, and one more is skipped.  When it is refused,
    the number of outputs is as before, every stack has the elements
    it had, the root hash is the same, and there is a reason: a lock, an input whose commitment has no
    mature output left, or a stack with [2^32 - 1] elements. *)
Theorem block_apply (sha256 : list Z -> list Z) (r : Rules) (FindKernel : list Z -> Z) (p : Proc) (tx : TxVectors) (h : Z) :
  can_apply sha256 r p h tx ->
  exists p' tx' b, HandleValidatedBlock r FindKernel p tx h true None = Some (p', tx', b) /\ utxo_ok sha256 (p_Utxos p') /\
    m_vOutputs tx' = m_vOutputs tx /\ m_vKernels tx' = m_vKernels tx /\
    if b : bool then
      forallb (CheckLock FindKernel h) (m_vKernels tx) = true /\ p_Txos p' = p_Txos p + Z.of_nat (length (m_vOutputs tx)) + 1 /\
      block_effect r h (p_Txos p) (m_vInputs tx) (m_vInputs tx') (m_vOutputs tx) (p_Utxos p) (p_Utxos p')
    else p_Txos p' = p_Txos p /\ same_set (p_Utxos p) (p_Utxos p') /\ refused r FindKernel h tx (p_Utxos p) /\
      (Radix_get_Hash (hash2 sha256) (replicate 32 0) (get_LeafHash sha256) (p_Utxos p')).2
      = (Radix_get_Hash (hash2 sha256) (replicate 32 0) (get_LeafHash sha256) (p_Utxos p)).2.
Proof.
  intros Hc. destruct (block_fwd sha256 r FindKernel p tx h Hc) as (t & tx' & b & E & Hok & H1 & H2 & Hb). eexists _, tx', b. split; [exact E|]. cbn [p_Utxos p_Txos].
  split_and!; try done. destruct b; [by destruct Hb|]. destruct Hb as [Hs Hr]. split_and!; try done.
  apply same_set_root; [done|apply Hc|by symmetry].
Qed.

(** C6: Undoing a block that was accepted succeeds and restores the UTXO set: the number of
    outputs, the elements of every stack, and so the root hash. *)
Theorem block_undo (sha256 : list Z -> list Z) (r : Rules) (FindKernel : list Z -> Z) (p p' : Proc) (tx tx' : TxVectors) (h : Z) :
  can_apply sha256 r p h tx -> HandleValidatedBlock r FindKernel p tx h true None = Some (p', tx', true) ->
  exists p2, HandleValidatedBlock r FindKernel p' tx' h false None = Some (p2, tx', true) /\ utxo_ok sha256 (p_Utxos p2) /\
    p_Txos p2 = p_Txos p /\ same_set (p_Utxos p) (p_Utxos p2) /\
    (Radix_get_Hash (hash2 sha256) (replicate 32 0) (get_LeafHash sha256) (p_Utxos p2)).2
    = (Radix_get_Hash (hash2 sha256) (replicate 32 0) (get_LeafHash sha256) (p_Utxos p)).2.
Proof.
  intros Hc E. destruct (block_fwd sha256 r FindKernel p tx h Hc) as (t & tx1 & b & E1 & Hok & H1 & H2 & Hb). rewrite E in E1. injection E1 as -> <- <-.
  destruct Hb as [Hk He]. destruct Hc as (Hok0 & Hbo & HT & Hn). set (q := mkProc t _).
  destruct (block_bwd sha256 r FindKernel q (p_Utxos p) tx' (m_vInputs tx) h Hok Hok0) as (t2 & E2 & Hok2 & Hs).
  - by eapply accepted_block_ok.
  - cbn. rewrite H1. lia.
  - by rewrite H2.
  - cbn [q p_Txos p_Utxos]. rewrite H1. by replace (p_Txos p + _ + 1 - 1 - _) with (p_Txos p) by lia.
  - eexists. split; [exact E2|]. cbn [p_Utxos p_Txos q]. rewrite H1. split_and!; try done; [lia|]. apply same_set_root; [done|done|by symmetry].
Qed.

(** An input spends the output of its commitment with the lowest maturity, which is
    below the height of the block, and of several with that maturity the
    latest; it is refused exactly when there is none.  Handling the input that
    remembers it in the other direction puts the same [TxoID] back on
    top of the same stack. *)
Theorem block_input (sha256 : list Z -> list Z) (p : Proc) (v : Input) (h : Z) :
  utxo_ok sha256 (p_Utxos p) -> comm_ok (e_Commitment (i_Element v)) -> 1 <= h < 2 ^ 64 ->
  let C := e_Commitment (i_Element v) in
  ((forall m, 0 <= m < h -> content (p_Utxos p) (key C m) = []) /\ HandleInput p v h None true = Some (p, v, false)) \/
  (exists p' p'' m id rest, HandleInput p v h None true = Some (p', mkInput (mkElement C m) id, true) /\
      0 <= m < h /\ content (p_Utxos p) (key C m) = id :: rest /\ (forall m', 0 <= m' < m -> content (p_Utxos p) (key C m') = []) /\
      utxo_ok sha256 (p_Utxos p') /\ p_Txos p' = p_Txos p /\
      (forall k, content (p_Utxos p') k = if decide (k = key C m) then rest else content (p_Utxos p) k) /\
      HandleInput p' (mkInput (mkElement C m) id) h None false = Some (p'', mkInput (mkElement C m) id, true) /\
      utxo_ok sha256 (p_Utxos p'') /\ p_Txos p'' = p_Txos p /\ forall k, content (p_Utxos p'') k = content (p_Utxos p) k).
Proof.
  intros Hok HC Hh C. destruct (input_fwd sha256 p v h Hok HC Hh) as [[E Hno]|(t & m & id & rest & E & Hok' & Hm & Hlow & Hx & Hc)]; [by left|right].
  set (v' := mkInput (mkElement (e_Commitment (i_Element v)) m) id) in *.
  destruct (input_bwd sha256 (mkProc t (p_Txos p)) v' h Hok' HC ltac:(unfold in_width; cbn; lia)) as (t' & E' & Hok2 & Hc2).
  { cbn [p_Utxos]. rewrite Hc, decide_True by done. pose proof (content_bound sha256 _ (key C m) Hok) as Hb. unfold C in Hb. rewrite Hx in Hb. cbn [length] in Hb. lia. }
  exists (mkProc t (p_Txos p)), (mkProc t' (p_Txos p)), m, id, rest. cbn [p_Utxos p_Txos]. split_and!; try done; try lia.
  intros k. rewrite Hc2. cbn [p_Utxos]. rewrite Hc. change (i_key v') with (key C m). fold C. case_decide as Ek; [|done]. rewrite Ek. unfold C. by rewrite Hx.
Qed.

(** Two blocks: outputs of two commitments, one of them twice, and the block that spends them. *)
Module DemoBlock.
Definition sha (l : list Z) : list Z := replicate 32 7.
Definition comm (y : Z) : Point := mkPoint (replicate 32 y) 0.
Definition out (y : Z) : Output := mkOutput (mkElement (comm y) 0) false false 0 [] None None.
Definition inp (y : Z) : Input := mkInput (mkElement (comm y) 0) 0.
Definition block1 : TxVectors := mkVectors [] [out 1; out 2; out 1] [].
Definition block2 : TxVectors := mkVectors [inp 1; inp 1; inp 2] [out 2; out 3] [].
Definition FindKernel (_ : list Z) : Z := 0.
Definition apply (p : Proc) (tx : TxVectors) (h : Z) := HandleValidatedBlock default_Rules FindKernel p tx h true None.
Definition state1 : Proc := match apply (mkProc None 0) block1 5 with Some (p, _, _) => p | None => mkProc None 0 end.

Lemma comm_ok_comm y : byte_ok y -> comm_ok (comm y).
Proof. intros Hy. split; [|by cbn]. split; [|done]. by apply Forall_replicate. Qed.

Lemma demo_ok h tx : 1 <= h < 2 ^ 64 -> tx = block1 \/ tx = block2 -> block_ok default_Rules h tx.
Proof.
  intros Hh Htx. split; [done|by vm_compute|by vm_compute| |]; destruct Htx as [-> | ->]; cbn [block1 block2 m_vInputs m_vOutputs];
    repeat constructor; by vm_compute.
Qed.

Lemma state1_ok : can_apply sha default_Rules state1 6 block2.
Proof.
  destruct (block_fwd sha default_Rules FindKernel (mkProc None 0) block1 5) as (t & tx & b & E & Hok & _).
  { split_and!; [by repeat split|by apply demo_ok; [|left]|done|by vm_compute]. }
  unfold state1, apply. rewrite E. cbn [p_Txos p_Utxos]. clear E. split; [exact Hok|]. split; [by apply demo_ok; [|right]|]. destruct b; cbn; lia.
Qed.

Lemma run2 : match apply state1 block2 6 with Some (p, tx, ok) => ok = true /\ i_ID <$> m_vInputs tx = [2; 0; 1] | None => False end.
Proof. vm_compute. repeat split. Qed.

Lemma Txos1 : p_Txos state1 = 4.
Proof. vm_compute. reflexivity. Qed.
End DemoBlock.

Import DemoBlock.

Lemma block_apply_witness : match apply state1 block2 6 with Some (p, tx, ok) => ok = true /\ i_ID <$> m_vInputs tx = [2; 0; 1] /\ p_Txos p = 7 | None => False end.
Proof.
  pose proof run2 as Hv. destruct (block_apply sha default_Rules FindKernel state1 block2 6 state1_ok) as (p' & tx' & b & E & _ & _ & _ & Hb).
  unfold apply in *. rewrite E in *. destruct Hv as [-> Hi]. destruct Hb as (_ & -> & _). rewrite Txos1. split; [reflexivity|]. split; [exact Hi|reflexivity].
Defined.

Lemma block_undo_witness : match apply state1 block2 6 with
  | Some (p, tx, _) => match HandleValidatedBlock default_Rules FindKernel p tx 6 false None with
                       | Some (p2, _, ok) => ok = true /\ p_Txos p2 = 4 /\ same_set (p_Utxos state1) (p_Utxos p2)
                       | None => False end
  | None => False end.
Proof.
  pose proof run2 as Hv. destruct (apply state1 block2 6) as [[[p' tx'] b]|] eqn:E; [|exact Hv]. destruct Hv as [-> _].
  destruct (block_undo sha default_Rules FindKernel state1 p' block2 tx' 6 state1_ok E) as (p2 & -> & _ & -> & Hs & _). rewrite Txos1. split; [reflexivity|]. split; [reflexivity|exact Hs].
Defined.

Lemma block_input_witness : match HandleInput state1 (inp 1) 6 None true with Some (_, _, ok) => ok = true | None => False end.
Proof.
  assert (content (p_Utxos state1) (key (comm 1) 5) <> []) as Hne by (vm_compute; discriminate).
  destruct (block_input sha state1 (inp 1) 6 (proj1 state1_ok) (comm_ok_comm 1 ltac:(unfold byte_ok; lia)) ltac:(lia)) as [[Hno _]|(p' & p'' & m & id & rest & -> & _)].
  - exfalso. apply Hne, Hno. lia.
  - reflexivity.
Defined.
