(* ===== verification/Retarget.v ===== *)
(** The difficulty of the next block: the cache of recent headers, the medians of
    time, height and work, and [get_NextDifficulty] of [node/processor.cpp].

    The database gives headers by their rows; it is an interface here.  The
    cache is a cyclic buffer, of which [None] is a failed assertion.  Times and
    heights of a [THW] are signed, as in the code. *)

From stdpp Require Import sorting.
From S2P Require Import Prelude UintBig EccData Difficulty Rules SystemState TxBase.

(** [Rules::DA]. *)
Record DAParams := mkDA { Target_s : Z; DTarget_s : Z; WindowWork : Z; WindowMedian0 : Z; WindowMedian1 : Z; Difficulty0 : Z }.

Definition default_DA : DAParams := mkDA 60 30 120 25 7 (Z.shiftl 1 s_MantissaBits).

(** ** [RecentStates] *)
Record Entry := mkEntry { m_RowID : Z; m_State : Full }.
Record RecentStates := mkRecent { m_vec : list Entry; m_i0 : nat; m_Count : nat }.

Definition RecentStates_new : RecentStates := mkRecent [] 0 0.

Definition tail_index (rs : RecentStates) (x : nat) : nat := ((m_i0 rs + m_Count rs - x - 1) mod length (m_vec rs))%nat.

Definition get_FromTail (rs : RecentStates) (x : nat) : option Entry :=
  if negb ((x <? m_Count rs)%nat && (m_Count rs <=? length (m_vec rs))%nat) then None
  else m_vec rs !! tail_index rs x.

(** [Get]: the outer option is for the assertions. *)
Definition Recent_Get (rs : RecentStates) (h : Z) : option (option Entry) :=
  if (m_Count rs =? 0)%nat then Some None
  else
    e ← get_FromTail rs 0;
    if s_Height (m_State e) <? h then Some None
    else
      let dh := s_Height (m_State e) - h in
      if Z.of_nat (m_Count rs) <=? dh then Some None
      else
        e2 ← get_FromTail rs (Z.to_nat dh);
        if negb (s_Height (m_State e2) =? h) then None else Some (Some e2).

Fixpoint RollbackTo_loop (count : nat) (rs : RecentStates) (h : Z) : option RecentStates :=
  match count with
  | O => Some rs
  | S count =>
      e ← get_FromTail rs 0;
      if s_Height (m_State e) =? h then Some rs
      else RollbackTo_loop count (mkRecent (m_vec rs) (m_i0 rs) (m_Count rs - 1)) h
  end.

Definition Recent_RollbackTo (rs : RecentStates) (h : Z) : option RecentStates := RollbackTo_loop (m_Count rs) rs h.

Definition Entry_zero : Entry := mkEntry 0 (mkFull 0 [] [] [] [] 0 (mkPoW [] [] 0)).

Definition cache_size (da : DAParams) : nat := Z.to_nat (Z.max (WindowWork da + WindowMedian1 da) (WindowMedian0 da) + 5).

Definition Recent_Push (da : DAParams) (rs : RecentStates) (rowID : Z) (s : Full) : option RecentStates :=
  rs ← (if (length (m_vec rs) =? 0)%nat then Some (mkRecent (replicate (cache_size da) Entry_zero) (m_i0 rs) (m_Count rs))
        else Recent_RollbackTo rs (u64 (s_Height s - 1)));
  let rs := if (m_Count rs <? length (m_vec rs))%nat then mkRecent (m_vec rs) (m_i0 rs) (m_Count rs + 1)
            else mkRecent (m_vec rs) (m_i0 rs + 1) (m_Count rs) in
  _ ← get_FromTail rs 0;
  Some (mkRecent (<[tail_index rs 0 := mkEntry rowID s]> (m_vec rs)) (m_i0 rs) (m_Count rs)).

(** ** Medians *)
Abbreviation THW := (Z * (Z * list Z))%type.

(** [operator <] of the pairs, as a comparison. *)
Definition THW_cmp (a b : THW) : Z := CMP_SIMPLE a.1 b.1 (CMP_SIMPLE a.2.1 b.2.1 (_Cmp a.2.2 b.2.2)).

(** What is used of [NodeDB]. *)
Record NodeDb := mkDb { FindActiveStateStrict : Z -> Z; get_Prev : Z -> option Z; get_State : Z -> Full }.

Section median.
Context (da : DAParams) (fork1 : Z) (db : NodeDb) (rs : RecentStates).

Definition FindActiveAtStrict (h : Z) : option Z :=
  pE ← Recent_Get rs h;
  Some (match pE with Some e => m_RowID e | None => FindActiveStateStrict db h end).

Definition THW_of (s : Full) : THW := (i64 (s_TimeStamp s), (i64 (s_Height s), s_ChainWork s)).

(** An imaginary block before another one. *)
Definition THW_before (t : THW) : THW := (i64 (t.1 - Target_s da), (i64 (t.2.1 - 1), raw_sub t.2.2 (Difficulty0 da))).

Fixpoint Window_loop (n : nat) (hLast rowLast : Z) (v : list THW) : option (list THW) :=
  match n with
  | O => Some v
  | S n =>
      if HeightGenesis <=? hLast then
        pE ← Recent_Get rs hLast;
        '(s, rowLast) ← (match pE with
                         | Some e => Some (m_State e, rowLast)
                         | None =>
                             row ← (if negb (rowLast =? 0) then get_Prev db rowLast else FindActiveAtStrict hLast);
                             Some (get_State db row, row)
                         end);
        Window_loop n (hLast - 1) rowLast (v ++ [THW_of s])
      else
        src ← last v;
        Window_loop n hLast rowLast (v ++ [THW_before src])
  end.

Definition get_MovingMedianEx (hLast nWindow : Z) : option THW :=
  if hLast <? HeightGenesis then None
  else
    v ← Window_loop (Z.to_nat nWindow) hLast 0 [];
    std_sort THW_cmp v !! Z.to_nat (Z.shiftr nWindow 1).

(** [m_Cursor.m_Sid.m_Row] is 0 for an empty chain. *)
Definition get_MovingMedian (row height : Z) : option Z :=
  if row =? 0 then Some 0 else thw ← get_MovingMedianEx height (WindowMedian0 da); Some (u64 thw.1).


End median.

(** ** The cache is a bounded list *)
Definition recent_list (rs : RecentStates) : list Entry :=
  (fun x => default Entry_zero (m_vec rs !! tail_index rs x)) <$> seq 0 (m_Count rs).

(** Consecutive heights, the highest first. *)
Fixpoint descending (l : list Entry) : Prop :=
  match l with
  | [] => True
  | e :: l => match l with [] => True | e' :: _ => s_Height (m_State e) = s_Height (m_State e') + 1 end /\ descending l
  end.

(** Dropping the entries above a height. *)
Fixpoint rollback_list (l : list Entry) (h : Z) : list Entry :=
  match l with
  | [] => []
  | e :: l => if s_Height (m_State e) =? h then e :: l else rollback_list l h
  end.

Record recent_ok (n : nat) (rs : RecentStates) : Prop := {
  rc_vec : length (m_vec rs) = n \/ rs = RecentStates_new;
  rc_count : (m_Count rs <= length (m_vec rs))%nat;
  rc_desc : descending (recent_list rs)
}.

Lemma descending_lookup l x e e0 : descending l -> l !! 0%nat = Some e0 -> l !! x = Some e -> s_Height (m_State e) = s_Height (m_State e0) - Z.of_nat x.
Proof.
  revert x e0. induction l as [|a l IH]; intros x e0 Hd H0 Hx; [done|]. cbn in H0. injection H0 as ->. destruct x as [|x]; [cbn in Hx; simplify_eq; lia|].
  destruct Hd as [H1 H2]. cbn in Hx. destruct l as [|b l]; [done|]. pose proof (IH x b H2 eq_refl Hx). lia.
Qed.

Section recent.
Context (n : nat) (n_pos : (0 < n)%nat).

Lemma tail_lt rs x : length (m_vec rs) = n -> (tail_index rs x < n)%nat.
Proof. intros E. unfold tail_index. rewrite E. apply Nat.mod_upper_bound. lia. Qed.

Lemma recent_length rs : length (recent_list rs) = m_Count rs.
Proof. unfold recent_list. by rewrite length_fmap, length_seq. Qed.

Lemma recent_lookup rs x : length (m_vec rs) = n -> (m_Count rs <= n)%nat -> get_FromTail rs x = recent_list rs !! x.
Proof.
  intros E Hc. unfold get_FromTail, recent_list. rewrite list_lookup_fmap. destruct (Nat.ltb_spec x (m_Count rs)) as [Hx|Hx].
  - rewrite (proj2 (Nat.leb_le _ _)) by lia. cbn [andb negb]. rewrite lookup_seq_lt by done. cbn.
    destruct (lookup_lt_is_Some_2 (m_vec rs) (tail_index rs x)) as [e ->]; [rewrite E; by apply tail_lt|done].
  - cbn. by rewrite lookup_seq_ge.
Qed.

Lemma recent_pop rs : recent_list (mkRecent (m_vec rs) (m_i0 rs) (m_Count rs - 1)) = drop 1 (recent_list rs).
Proof.
  unfold recent_list. cbn [m_Count m_vec]. rewrite <- fmap_drop. destruct (m_Count rs) as [|c] eqn:Ec; [done|]. cbn [seq drop]. rewrite Nat.sub_succ, Nat.sub_0_r.
  change (drop 0 (seq 1 c)) with (seq 1 c). rewrite <- seq_shift, <- list_fmap_compose. apply list_fmap_ext. intros _ x _. unfold compose, tail_index. cbn [m_i0 m_Count m_vec]. rewrite Ec.
  do 2 f_equal. f_equal. lia.
Qed.

Lemma descending_drop l : descending l -> descending (drop 1 l).
Proof. destruct l; [done|]. by intros [_ ?]. Qed.

Lemma rollback_descending l h : descending l -> descending (rollback_list l h).
Proof. induction l as [|e l IH]; [done|]. intros [H1 H2]. cbn [rollback_list]. destruct (_ =? _); [by split|by apply IH]. Qed.

Lemma RollbackTo_ok rs h : length (m_vec rs) = n -> (m_Count rs <= n)%nat -> exists rs', Recent_RollbackTo rs h = Some rs' /\
  m_vec rs' = m_vec rs /\ (m_Count rs' <= m_Count rs)%nat /\ recent_list rs' = rollback_list (recent_list rs) h.
Proof.
  intros E. unfold Recent_RollbackTo. remember (m_Count rs) as c eqn:Ec. revert rs E Ec. induction c as [|c IH]; intros rs E Ec Hc; cbn [RollbackTo_loop].
  - exists rs. split_and!; [done|done|lia|]. pose proof (recent_length rs) as Hl. rewrite <- Ec in Hl. by apply nil_length_inv in Hl as ->.
  - rewrite recent_lookup by (done || lia). pose proof (recent_length rs) as Hl. destruct (recent_list rs) as [|e l] eqn:El; [cbn in Hl; lia|]. cbn.
    destruct (_ =? h); [by exists rs; split_and!; [..|lia|]|].
    destruct (IH (mkRecent (m_vec rs) (m_i0 rs) (m_Count rs - 1)) E) as (rs' & -> & Hv & Hcnt & Hr); [cbn; lia|lia|].
    exists rs'. split_and!; [done|done|lia|]. rewrite Hr, recent_pop, El. done.
Qed.

Lemma mod_neq a d : (0 < d < n)%nat -> (d <= a)%nat -> (a mod n <> (a - d) mod n)%nat.
Proof.
  intros Hd Ha E. pose proof (Nat.div_mod_eq a n) as E1. pose proof (Nat.div_mod_eq (a - d) n) as E2. rewrite <- E in E2.
  assert (d = n * (a / n - (a - d) / n))%nat by nia. destruct (a / n - (a - d) / n)%nat; nia.
Qed.

Definition push_core (rs : RecentStates) (e : Entry) : RecentStates :=
  let rs := if (m_Count rs <? length (m_vec rs))%nat then mkRecent (m_vec rs) (m_i0 rs) (m_Count rs + 1)
            else mkRecent (m_vec rs) (m_i0 rs + 1) (m_Count rs) in
  mkRecent (<[tail_index rs 0 := e]> (m_vec rs)) (m_i0 rs) (m_Count rs).

Lemma push_core_ok rs e : length (m_vec rs) = n -> (m_Count rs <= n)%nat ->
  length (m_vec (push_core rs e)) = n /\ (0 < m_Count (push_core rs e) <= n)%nat /\ recent_list (push_core rs e) = take n (e :: recent_list rs).
Proof.
  intros E Hc. unfold push_core. rewrite E. set (rs1 := if (m_Count rs <? n)%nat then _ else _).
  assert (m_vec rs1 = m_vec rs /\ (0 < m_Count rs1 <= n)%nat /\ (m_Count rs1 = Nat.min n (S (m_Count rs))) /\ (m_i0 rs1 + m_Count rs1 = S (m_i0 rs + m_Count rs))%nat) as (Ev & Hc1 & Em & Ei).
  { unfold rs1. destruct (Nat.ltb_spec (m_Count rs) n); cbn; split_and!; try done; lia. }
  clearbody rs1. split; [cbn; by rewrite length_insert, Ev|]. split; [done|].
  apply list_eq. intros x. set (rs2 := mkRecent _ _ _).
  assert (forall y, tail_index rs2 y = tail_index rs1 y) as Ht by (intros y; unfold tail_index, rs2; cbn; by rewrite length_insert).
  assert (length (m_vec rs1) = n) as E1 by (by rewrite Ev). assert (length (m_vec rs2) = n) as E2 by (unfold rs2; cbn; by rewrite length_insert).
  unfold recent_list at 1. rewrite list_lookup_fmap. change (m_Count rs2) with (m_Count rs1). destruct (decide (x < m_Count rs1)%nat) as [Hx|Hx].
  2: { rewrite lookup_seq_ge by lia. symmetry. apply lookup_ge_None. rewrite length_take. cbn. rewrite recent_length. lia. }
  rewrite lookup_seq_lt by done. cbn [fmap option_fmap option_map]. rewrite Nat.add_0_l, Ht. unfold rs2. cbn [m_vec]. rewrite lookup_take_lt by lia.
  pose proof (tail_lt rs1 0 E1) as Hlt. destruct x as [|x].
  - by rewrite list_lookup_insert_eq by (rewrite E1; exact Hlt).
  - assert (tail_index rs1 (S x) = tail_index rs x) as Es by (unfold tail_index; rewrite Ev; f_equal; lia).
    rewrite list_lookup_insert_ne; [|unfold tail_index; rewrite E1; replace (m_i0 rs1 + m_Count rs1 - S x - 1)%nat with (m_i0 rs1 + m_Count rs1 - 0 - 1 - S x)%nat by lia; apply mod_neq; lia].
    change ((e :: recent_list rs) !! S x) with (recent_list rs !! x). rewrite Es, Ev, <- (recent_lookup rs x E Hc). unfold get_FromTail. rewrite (proj2 (Nat.ltb_lt _ _)), (proj2 (Nat.leb_le _ _)) by lia. cbn [andb negb].
    destruct (lookup_lt_is_Some_2 (m_vec rs) (tail_index rs x)) as [e' ->]; [rewrite E; by apply tail_lt|done].
Qed.

Lemma rollback_head l h e l' : rollback_list l h = e :: l' -> s_Height (m_State e) = h.
Proof. induction l as [|e0 l IH]; [done|]. cbn [rollback_list]. destruct (Z.eqb_spec (s_Height (m_State e0)) h); [by intros [= -> ->]|done]. Qed.

Lemma descending_take l k : descending l -> descending (take k l).
Proof.
  revert k. induction l as [|e l IH]; intros [|k] Hd; try done. destruct Hd as [H1 H2]. cbn [take]. split; [|by apply IH]. destruct l, k; done.
Qed.

Lemma push_ok da rs row s : cache_size da = n -> recent_ok n rs -> 1 <= s_Height s < 2 ^ 64 ->
  exists rs', Recent_Push da rs row s = Some rs' /\ recent_ok n rs' /\
    recent_list rs' = take n (mkEntry row s :: rollback_list (recent_list rs) (s_Height s - 1)).
Proof.
  intros Hn [Hv Hc Hd] Hs. unfold Recent_Push. rewrite wrap_small by (unfold in_width; lia).
  assert (exists rs1, (if (length (m_vec rs) =? 0)%nat then Some (mkRecent (replicate (cache_size da) Entry_zero) (m_i0 rs) (m_Count rs)) else Recent_RollbackTo rs (s_Height s - 1)) = Some rs1 /\
    length (m_vec rs1) = n /\ (m_Count rs1 <= n)%nat /\ recent_list rs1 = rollback_list (recent_list rs) (s_Height s - 1)) as (rs1 & -> & E1 & Hc1 & Hl1).
  { destruct (Nat.eqb_spec (length (m_vec rs)) 0) as [E0|E0].
    - eexists. split; [done|]. cbn. rewrite length_replicate. split; [done|]. split; [lia|].
      assert (m_Count rs = 0%nat) as Ec by lia. unfold recent_list. cbn. by rewrite Ec.
    - destruct Hv as [Hv| ->]; [|done]. destruct (RollbackTo_ok rs (s_Height s - 1) Hv ltac:(lia)) as (rs1 & -> & Ev & Hle & Hl). exists rs1. split_and!; [done|congruence|lia|done]. }
  cbn [mbind option_bind]. fold (push_core rs1 (mkEntry row s)). destruct (push_core_ok rs1 (mkEntry row s) E1 Hc1) as (E2 & Hc2 & Hl2).
  set (rs2 := if (m_Count rs1 <? length (m_vec rs1))%nat then _ else _).
  assert (is_Some (get_FromTail rs2 0)) as [e ->].
  { assert (length (m_vec rs2) = n /\ (0 < m_Count rs2 <= n)%nat) as [F1 F2] by (unfold rs2; destruct (Nat.ltb_spec (m_Count rs1) (length (m_vec rs1))); cbn in *; lia).
    rewrite recent_lookup by (done || lia). apply lookup_lt_is_Some_2. rewrite recent_length. lia. }
  cbn [mbind option_bind]. change (mkRecent _ _ _) with (push_core rs1 (mkEntry row s)). exists (push_core rs1 (mkEntry row s)). rewrite Hl2, Hl1. split_and!; [done| |done].
  constructor; [by left|lia|]. rewrite Hl2, Hl1. apply descending_take. split; [|by apply rollback_descending].
  destruct (rollback_list _ _) as [|e' l'] eqn:Er; [done|]. apply rollback_head in Er. cbn. lia.
Qed.

(** [Get] finds the entry of a height. *)
Lemma get_ok rs h : recent_ok n rs ->
  Recent_Get rs h = Some (snd <$> list_find (fun e => s_Height (m_State e) = h) (recent_list rs)).
Proof.
  intros [Hv Hc Hd]. unfold Recent_Get. destruct (Nat.eqb_spec (m_Count rs) 0) as [E0|E0].
  { pose proof (recent_length rs) as Hl. rewrite E0 in Hl. by apply nil_length_inv in Hl as ->. }
  destruct Hv as [Hv| ->]; [|done]. rewrite Hv in Hc. rewrite recent_lookup by done. pose proof (recent_length rs) as Hl.
  destruct (recent_list rs) as [|e0 l] eqn:El; [cbn in Hl; lia|]. set (L := e0 :: l) in *. cbn [lookup list_lookup L mbind option_bind].
  assert (forall x e, L !! x = Some e -> s_Height (m_State e) = s_Height (m_State e0) - Z.of_nat x) as Hh by (intros x e Hx; by apply (descending_lookup L x e e0)).
  destruct (Z.ltb_spec (s_Height (m_State e0)) h) as [Hlt|Hge].
  { destruct (list_find _ L) as [[i e]|] eqn:Ef; [|done]. apply list_find_Some in Ef as (Hi & Ee & _). specialize (Hh _ _ Hi). lia. }
  destruct (Z.leb_spec (Z.of_nat (m_Count rs)) (s_Height (m_State e0) - h)) as [Hle|Hin].
  { destruct (list_find _ L) as [[i e]|] eqn:Ef; [|done]. apply list_find_Some in Ef as (Hi & Ee & _). specialize (Hh _ _ Hi). apply lookup_lt_Some in Hi. lia. }
  rewrite recent_lookup, El by done. fold L. destruct (lookup_lt_is_Some_2 L (Z.to_nat (s_Height (m_State e0) - h))) as [e He]; [lia|]. rewrite He. cbn [mbind option_bind].
  pose proof (Hh _ _ He) as Ee. rewrite (proj2 (Z.eqb_eq _ _)) by lia. cbn [negb].
  destruct (list_find (fun e => s_Height (m_State e) = h) L) as [[i e']|] eqn:Ef.
  - apply list_find_Some in Ef as (Hi & Ee' & _). pose proof (Hh _ _ Hi). assert (i = Z.to_nat (s_Height (m_State e0) - h)) as -> by lia. rewrite He in Hi. by simplify_eq.
  - apply list_find_None in Ef. rewrite Forall_forall in Ef. apply list_elem_of_lookup_2 in He. specialize (Ef _ He). cbn in Ef. lia.
Qed.
End recent.

(** ** The chain as the medians see it *)
Section chain.
Context (da : DAParams) (db : NodeDb) (rs : RecentStates) (n : nat) (n_pos : (0 < n)%nat).
Context (chain : Z -> Full) (row : Z -> Z) (tip : Z).

Record chain_ok : Prop := {
  ch_db h : 1 <= h <= tip -> FindActiveStateStrict db h = row h /\ row h <> 0 /\ get_State db (row h) = chain h;
  ch_prev h : 2 <= h <= tip -> get_Prev db (row h) = Some (row (h - 1));
  ch_state h : 1 <= h <= tip -> s_Height (chain h) = h /\ 0 <= s_TimeStamp (chain h) < 2 ^ 62 /\ raw_ok (s_ChainWork (chain h));
  ch_tip : 1 <= tip < 2 ^ 62
}.

(** The cache holds the last headers of the chain, if any. *)
Record cache_ok : Prop := {
  ca_recent : recent_ok n rs;
  ca_entries : Forall (fun e => let h := s_Height (m_State e) in 1 <= h <= tip /\ m_State e = chain h /\ m_RowID e = row h) (recent_list rs);
  ca_tip e : head (recent_list rs) = Some e -> s_Height (m_State e) = tip
}.

Context (Hch : chain_ok) (Hca : cache_ok).

Lemma cache_find h : 1 <= h <= tip -> exists e, Recent_Get rs h = Some (if decide (tip - h < Z.of_nat (length (recent_list rs))) then Some e else None) /\
  (tip - h < Z.of_nat (length (recent_list rs)) -> m_State e = chain h /\ m_RowID e = row h).
Proof.
  intros Hh. destruct Hca as [Hr He Ht]. rewrite (get_ok n n_pos) by done. pose proof (rc_desc _ _ Hr) as Hd. destruct (recent_list rs) as [|e0 l] eqn:El.
  { exists Entry_zero. cbn. rewrite decide_False by lia. split; [done|lia]. }
  set (L := e0 :: l) in *. specialize (Ht e0 eq_refl).
  assert (forall x e, L !! x = Some e -> s_Height (m_State e) = tip - Z.of_nat x) as Hl by (intros x e Hx; rewrite <- Ht; by apply (descending_lookup L)).
  destruct (list_find (fun e => s_Height (m_State e) = h) L) as [[i e]|] eqn:Ef; cbn [fmap option_fmap option_map snd].
  - apply list_find_Some in Ef as (Hi & Ee & _). pose proof (Hl _ _ Hi). pose proof (lookup_lt_Some _ _ _ Hi). exists e. rewrite decide_True by lia. split; [done|]. intros _.
    rewrite Forall_forall in He. destruct (He e (list_elem_of_lookup_2 _ _ _ Hi)) as (_ & H1 & H2). by rewrite <- Ee.
  - exists Entry_zero. destruct (decide (tip - h < Z.of_nat (length L))) as [Hlt|]; [exfalso|by split].
    destruct (lookup_lt_is_Some_2 L (Z.to_nat (tip - h))) as [e Hi]; [lia|]. pose proof (Hl _ _ Hi). apply list_find_None in Ef. rewrite Forall_forall in Ef.
    apply (Ef e (list_elem_of_lookup_2 _ _ _ Hi)). lia.
Qed.

(** The chain with imaginary blocks before the first one. *)
Definition ext (h : Z) : THW := if 1 <=? h then THW_of (chain h) else Nat.iter (Z.to_nat (1 - h)) (THW_before da) (THW_of (chain 1)).
Definition window (k : nat) (h : Z) : list THW := (fun i => ext (h - Z.of_nat i)) <$> seq 0 k.

Lemma window_snoc k h : window (k + 1) h = window k h ++ [ext (h - Z.of_nat k)].
Proof. unfold window. rewrite seq_app, fmap_app. done. Qed.

Lemma ext_before h : h <= 0 -> ext h = THW_before da (ext (h + 1)).
Proof.
  intros Hh. unfold ext. rewrite (proj2 (Z.leb_gt _ _)) by lia. replace (Z.to_nat (1 - h)) with (S (Z.to_nat (- h))) by lia. cbn [Nat.iter].
  destruct (Z.leb_spec 1 (h + 1)); [replace h with 0 by lia; done|]. by replace (Z.to_nat (1 - (h + 1))) with (Z.to_nat (- h)) by lia.
Qed.

Lemma Window_loop_ok m : forall k h0 rowLast, 1 <= h0 <= tip ->
  (1 <= h0 - Z.of_nat k -> rowLast = 0 \/ rowLast = row (h0 - Z.of_nat k + 1) /\ (1 <= k)%nat /\ Z.of_nat (length (recent_list rs)) <= tip - (h0 - Z.of_nat k + 1)) ->
  Window_loop da db rs m (Z.max 0 (h0 - Z.of_nat k)) rowLast (window k h0) = Some (window (k + m) h0).
Proof.
  induction m as [|m IH]; intros k h0 rowLast Hh Hr; cbn [Window_loop]; [by rewrite Nat.add_0_r|].
  replace (k + S m)%nat with (k + 1 + m)%nat by lia. unfold HeightGenesis. destruct (Z.leb_spec 1 (Z.max 0 (h0 - Z.of_nat k))) as [H1|H1].
  - rewrite Z.max_r in H1 |- * by lia. set (h := h0 - Z.of_nat k) in *. destruct (cache_find h ltac:(lia)) as (e & -> & He). cbn [mbind option_bind].
    assert (forall rl, Window_loop da db rs m (h - 1) rl (window k h0 ++ [THW_of (chain h)]) = Window_loop da db rs m (Z.max 0 (h0 - Z.of_nat (k + 1))) rl (window (k + 1) h0)) as Hstep.
    { intros rl. rewrite window_snoc. fold h. unfold ext. rewrite (proj2 (Z.leb_le _ _)) by lia. f_equal. lia. }
    destruct (decide (tip - h < Z.of_nat (length (recent_list rs)))) as [Hin|Hout].
    + destruct (He Hin) as [-> _]. cbn [mbind option_bind]. rewrite Hstep. apply IH; [done|]. intros H2. left. destruct (Hr H1) as [|(_ & _ & H3)]; [done|]. lia.
    + assert (exists e, Recent_Get rs h = Some None /\ e = 0) as (_ & Eg & _).
      { exists 0. destruct (cache_find h ltac:(lia)) as (e' & Eg & _). by rewrite decide_False in Eg. }
      destruct (ch_db Hch h ltac:(lia)) as (Ef & Hn0 & Es).
      assert ((if negb (rowLast =? 0) then get_Prev db rowLast else FindActiveAtStrict db rs h) = Some (row h)) as ->.
      { destruct (Hr H1) as [->|(-> & Hk & _)].
        - cbn. unfold FindActiveAtStrict. rewrite Eg. cbn. by rewrite Ef.
        - destruct (ch_db Hch (h + 1) ltac:(lia)) as (_ & Hn1 & _). rewrite (proj2 (Z.eqb_neq _ _) Hn1). cbn [negb]. rewrite (ch_prev Hch) by lia. do 2 f_equal. lia. }
      cbn [mbind option_bind]. rewrite Es, Hstep. apply IH; [done|]. intros H2. right. split_and!; [f_equal; lia|lia|lia].
  - destruct k as [|k]; [lia|]. replace (S k) with (k + 1)%nat by lia. rewrite window_snoc, last_snoc. cbn [mbind option_bind].
    rewrite <- window_snoc. replace (Z.max 0 (h0 - Z.of_nat (k + 1))) with (Z.max 0 (h0 - Z.of_nat (k + 1 + 1))) by lia.
    assert (THW_before da (ext (h0 - Z.of_nat k)) = ext (h0 - Z.of_nat (k + 1))) as -> by (rewrite (ext_before (h0 - Z.of_nat (k + 1))) by lia; do 2 f_equal; lia).
    rewrite <- window_snoc. apply IH; [done|lia].
Qed.

(** Time and work of the extended chain, as integers. *)
Definition etime (h : Z) : Z := if 1 <=? h then s_TimeStamp (chain h) else s_TimeStamp (chain 1) - (1 - h) * Target_s da.
Definition ework (h : Z) : Z := if 1 <=? h then be_val (s_ChainWork (chain h)) else be_val (s_ChainWork (chain 1)) - (1 - h) * raw_val (Difficulty0 da).

Context (Ht_range : 0 <= Target_s da < 2 ^ 20) (Hd_range : 0 <= Difficulty0 da).

(** A block of height [h], real or imaginary. *)
Definition is_block (h : Z) (t : THW) : Prop := t.1 = etime h /\ t.2.1 = h /\ raw_ok t.2.2 /\ be_val t.2.2 = ework h mod 2 ^ 256.

Lemma raw_diff_spec x y : raw_ok x -> raw_ok y -> raw_ok (_Inc_any (Negate y) x).1 /\ be_val (_Inc_any (Negate y) x).1 = (be_val x - be_val y) mod 2 ^ 256.
Proof.
  intros [Hb Hl] [Ub Ul]. destruct (Negate_spec y Ub) as (Nb & Nl & En).
  pose proof (_Inc_any_spec (Negate y) x Nb Hb) as H. destruct (_Inc_any _ x) as [z c]. destruct H as (Hx & Hxl & Hc & Ex).
  cbn [fst]. rewrite Nl, Ul in *. split; [by split|]. pose proof (be_val_bound z Hx) as B. rewrite Hxl in B. pose proof (be_val_bound x Hb) as B2. rewrite Hl in B2.
  rewrite radix32 in *. rewrite En in Ex. rewrite (Z.mod_small (be_val x)) in Ex by lia.
  replace (be_val x - be_val y) with (be_val x + - be_val y) by lia. rewrite <- Z.add_mod_idemp_r by lia. apply (Z.mod_unique_pos _ _ c); lia.
Qed.

Lemma raw_sub_spec r p : 0 <= p -> raw_ok r -> raw_ok (raw_sub r p) /\ be_val (raw_sub r p) = (be_val r - raw_val p) mod 2 ^ 256.
Proof. intros Hp Hr. destruct (Unpack_spec p Hp) as [Hu E]. unfold raw_sub. rewrite <- E. by apply raw_diff_spec. Qed.

Lemma real_block h : 1 <= h <= tip -> is_block h (ext h).
Proof.
  intros Hh. unfold is_block, ext, etime, ework. rewrite !(proj2 (Z.leb_le 1 h)) by lia. destruct (ch_state Hch h Hh) as (Es & Ht & Hw). pose proof (ch_tip Hch).
  unfold THW_of. cbn [fst snd]. rewrite Es. rewrite !(swrap_small 64) by lia. split_and!; try done.
  rewrite Z.mod_small; [done|]. destruct Hw as [Hb Hl]. pose proof (be_val_bound _ Hb) as B. rewrite Hl, radix32 in B. lia.
Qed.

Lemma ext_block h : - 2 ^ 40 <= h <= tip -> is_block h (ext h).
Proof.
  intros Hh. pose proof (ch_tip Hch) as Htip. destruct (Z.le_gt_cases 1 h) as [H1|H1]; [apply real_block; lia|].
  - assert (h = 1 - Z.of_nat (Z.to_nat (1 - h))) as Eh by lia. set (k := Z.to_nat (1 - h)) in *. assert (Z.of_nat k <= 2 ^ 41) as Hk by lia. clearbody k. subst h. clear H1 Hh.
    induction k as [|k IH].
    + apply real_block. lia.
    + specialize (IH ltac:(lia)). rewrite ext_before by lia. replace (1 - Z.of_nat (S k) + 1) with (1 - Z.of_nat k) by lia. destruct IH as (E1 & E2 & Hw & E3).
      destruct (ch_state Hch 1) as (_ & Ht & _); [pose proof (ch_tip Hch); lia|].
      assert (forall j, etime (1 - Z.of_nat j) = s_TimeStamp (chain 1) - Z.of_nat j * Target_s da) as Et.
      { intros j. unfold etime. destruct (Z.leb_spec 1 (1 - Z.of_nat j)); [assert (j = 0%nat) as -> by lia; change (1 - Z.of_nat 0) with 1; lia|]. lia. }
      assert (forall j, ework (1 - Z.of_nat j) = be_val (s_ChainWork (chain 1)) - Z.of_nat j * raw_val (Difficulty0 da)) as Ew.
      { intros j. unfold ework. destruct (Z.leb_spec 1 (1 - Z.of_nat j)); [assert (j = 0%nat) as -> by lia; change (1 - Z.of_nat 0) with 1; lia|]. f_equal. f_equal. lia. }
      unfold is_block, THW_before. cbn [fst snd]. rewrite E1, E2, !Et. destruct (raw_sub_spec _ (Difficulty0 da) Hd_range Hw) as [Hw' Ev].
      split; [rewrite swrap_small; [lia|lia|nia]|]. split; [rewrite swrap_small by lia; lia|]. split; [exact Hw'|]. rewrite Ev, E3, Zminus_mod_idemp_l, !Ew. f_equal. lia.
Qed.

Lemma THW_pre : cmp_pre THW_cmp (fun t => raw_ok t.2.2).
Proof.
  assert (cmp_order (fun t : THW => True /\ True /\ bytes_n 32 t.2.2) THW_cmp) as [E S T].
  { pose proof (cmp_order_pair _ _ _ _ cmp_order_Z (cmp_order_pair _ _ _ _ cmp_order_Z (cmp_order_bytes 32))) as H.
    apply (cmp_order_inj id _ _ _ _ H); [done|done|]. intros a b _ _. unfold THW_cmp. rewrite CMP_SIMPLE_EX. f_equal. by rewrite CMP_SIMPLE_EX. }
  split; [intros; by apply S|]. intros a b c Ha Hb Hc H1 H2. assert (forall t : THW, raw_ok t.2.2 -> True /\ True /\ bytes_n 32 t.2.2) as Hk by done.
  destruct (Z.eq_dec (THW_cmp a b) 0) as [E1|E1]; [apply E in E1 as ->; auto|]. destruct (Z.eq_dec (THW_cmp b c) 0) as [E2|E2]; [apply E in E2 as <-; auto|].
  assert (THW_cmp a c < 0); [|lia]. apply (T a b c); auto; lia.
Qed.

Lemma THW_cmp_time (a b : THW) : THW_cmp a b <= 0 -> a.1 <= b.1.
Proof. unfold THW_cmp, CMP_SIMPLE. destruct (Z.ltb_spec a.1 b.1); [lia|]. destruct (Z.ltb_spec b.1 a.1); lia. Qed.

Lemma window_blocks k h : Z.of_nat k < 2 ^ 40 -> 1 <= h <= tip -> Forall (fun t => exists j, h - Z.of_nat k < j <= h /\ t = ext j /\ is_block j t) (window k h).
Proof.
  intros Hk Hh. apply Forall_fmap, Forall_forall. intros i Hi%elem_of_seq. exists (h - Z.of_nat i). split_and!; [lia|lia|done|]. apply ext_block. lia.
Qed.

(** What the median is: the block in the middle of the window, by time. *)
Lemma median_ok h w : 0 < w < 2 ^ 40 -> 1 <= h <= tip ->
  exists m l1 l2, get_MovingMedianEx da db rs h w = Some m /\ window (Z.to_nat w) h ≡ₚ l1 ++ m :: l2 /\ Z.of_nat (length l1) = w / 2 /\
    Forall (fun a => a.1 <= m.1) l1 /\ Forall (fun b => m.1 <= b.1) l2 /\ exists j, h - w < j <= h /\ m = ext j /\ is_block j m.
Proof.
  intros Hw Hh. unfold get_MovingMedianEx, HeightGenesis. rewrite (proj2 (Z.ltb_ge _ _)) by lia.
  pose proof (Window_loop_ok (Z.to_nat w) 0 h 0 Hh) as Hl. change (window 0 h) with (@nil THW) in Hl. replace (Z.max 0 (h - Z.of_nat 0)) with h in Hl by lia. rewrite Hl by (intros _; by left). cbn [mbind option_bind].
  rewrite Nat.add_0_l. set (W := window (Z.to_nat w) h). pose proof (window_blocks (Z.to_nat w) h ltac:(lia) Hh) as Hb. fold W in Hb.
  assert (Forall (fun t : THW => raw_ok t.2.2) W) as Hraw by (eapply Forall_impl; [exact Hb|]; intros t (j & _ & _ & H); apply H).
  pose proof (std_sort_perm THW_cmp W) as Hp. pose proof (std_sort_sorted THW_cmp _ W THW_pre Hraw) as Hs.
  rewrite Z.shiftr_div_pow2 by lia. change (2 ^ 1) with 2. assert (length (std_sort THW_cmp W) = Z.to_nat w) as Hlen by (rewrite Hp; unfold W, window; by rewrite length_fmap, length_seq).
  assert (0 <= w / 2 < w) as Hmid by (split; [by apply Z.div_pos; lia|apply Z.div_lt; lia]).
  destruct (lookup_lt_is_Some_2 (std_sort THW_cmp W) (Z.to_nat (w / 2))) as [m Em]; [lia|]. rewrite Em.
  pose proof (take_drop_middle _ _ _ Em) as Esp. exists m, (take (Z.to_nat (w / 2)) (std_sort THW_cmp W)), (drop (S (Z.to_nat (w / 2))) (std_sort THW_cmp W)).
  split_and!; [done|by rewrite Esp, Hp|rewrite length_take; lia| | |].
  - rewrite <- Esp in Hs. apply StronglySorted_app in Hs as (Hx & _ & _). apply Forall_forall. intros a Ha. apply THW_cmp_time. apply Hx; [done|by left].
  - rewrite <- Esp in Hs. apply StronglySorted_app in Hs as (_ & _ & Hs). apply StronglySorted_inv in Hs as [_ Hf]. eapply Forall_impl; [exact Hf|]. intros b. apply THW_cmp_time.
  - rewrite Forall_forall in Hb. destruct (Hb m) as (j & Hj & H). { rewrite <- Hp. by eapply list_elem_of_lookup_2. } exists j. split; [lia|done].
Qed.

(** The middle of a list, by time. *)
Definition is_median (v : list THW) (m : THW) : Prop :=
  exists l1 l2, v ≡ₚ l1 ++ m :: l2 /\ Z.of_nat (length l1) = Z.of_nat (length v) / 2 /\ Forall (fun a => a.1 <= m.1) l1 /\ Forall (fun b => m.1 <= b.1) l2.

Lemma window_median h w : 0 < w < 2 ^ 40 -> 1 <= h <= tip ->
  exists j, get_MovingMedianEx da db rs h w = Some (ext j) /\ is_median (window (Z.to_nat w) h) (ext j) /\ h - w < j <= h.
Proof.
  intros Hw Hh. destruct (median_ok h w Hw Hh) as (m & l1 & l2 & E & Hp & Hl & H1 & H2 & j & Hj & -> & _). exists j. split_and!; [done| |lia|lia].
  exists l1, l2. split_and!; [done| |done|done]. unfold window. rewrite length_fmap, length_seq, Z2Nat.id by lia. done.
Qed.




(** Work grows along the chain. *)
Context (work_up : forall i j, 1 <= i < j -> j <= tip -> be_val (s_ChainWork (chain i)) < be_val (s_ChainWork (chain j))).
Context (work_max : be_val (s_ChainWork (chain tip)) + 2048 * raw_val (Difficulty0 da) < 2 ^ 256).





Context (fork1 : Z) (fork_range : 0 <= fork1 < 2 ^ 62).
Context (da_M : 0 < WindowMedian1 da < WindowWork da) (da_W : WindowWork da + WindowMedian1 da <= 1024) (da_T : 0 < Target_s da) (da_D : 0 < DTarget_s da < 2 ^ 20).



End chain.

(** ** The claims *)

(** What happens to the cache. *)
Inductive CacheOp := OpPush (rowID : Z) (s : Full) | OpRollback (h : Z).

Definition cache_step (da : DAParams) (rs : RecentStates) (op : CacheOp) : option RecentStates :=
  match op with OpPush rowID s => Recent_Push da rs rowID s | OpRollback h => Recent_RollbackTo rs h end.

Fixpoint cache_run (da : DAParams) (rs : RecentStates) (ops : list CacheOp) : option RecentStates :=
  match ops with [] => Some rs | op :: ops => rs ← cache_step da rs op; cache_run da rs ops end.

(** The same on a list, the last header first. *)
Definition list_step (n : nat) (l : list Entry) (op : CacheOp) : list Entry :=
  match op with
  | OpPush rowID s => take n (mkEntry rowID s :: rollback_list l (s_Height s - 1))
  | OpRollback h => rollback_list l h
  end.

Lemma cache_step_ok da rs op : (0 < cache_size da)%nat -> recent_ok (cache_size da) rs -> match op with OpPush _ s => 1 <= s_Height s < 2 ^ 64 | OpRollback _ => True end ->
  exists rs', cache_step da rs op = Some rs' /\ recent_ok (cache_size da) rs' /\ recent_list rs' = list_step (cache_size da) (recent_list rs) op.
Proof.
  intros Hn Hr Hop. destruct op as [rowID s|h]; cbn [cache_step list_step]; [by apply push_ok|]. pose proof Hr as [[Hv| ->] Hc Hd]; [|by exists RecentStates_new].
  destruct (RollbackTo_ok (cache_size da) Hn rs h Hv) as (rs' & E & Ev & Hle & El); [lia|]. exists rs'. split_and!; [done| |done].
  constructor; [left; congruence|rewrite Ev; lia|rewrite El; by apply rollback_descending].
Qed.

(** C30: The cache of recent headers is a list.  Under any pushes and rollbacks no assertion
    of the cyclic buffer fails, the buffer holds the most recent headers, as many as it has room for, of a
    list in which a push first drops everything that is not below the new header, and [Get]
    returns exactly the entry of the list with this height. *)
Theorem recent_states da ops h :
  (0 < cache_size da)%nat -> Forall (fun op => match op with OpPush _ s => 1 <= s_Height s < 2 ^ 64 | OpRollback _ => True end) ops ->
  exists rs, cache_run da RecentStates_new ops = Some rs /\ recent_list rs = foldl (list_step (cache_size da)) [] ops /\
    descending (recent_list rs) /\ (length (recent_list rs) <= cache_size da)%nat /\
    Recent_Get rs h = Some (snd <$> list_find (fun e => s_Height (m_State e) = h) (foldl (list_step (cache_size da)) [] ops)).
Proof.
  intros Hn Hops. enough (forall rs, recent_ok (cache_size da) rs -> exists rs', cache_run da rs ops = Some rs' /\ recent_ok (cache_size da) rs' /\ recent_list rs' = foldl (list_step (cache_size da)) (recent_list rs) ops) as Hrun.
  - destruct (Hrun RecentStates_new) as (rs & E & Hr & El); [by constructor; [right| |]|]. exists rs. rewrite <- El at 2. split_and!; [done|done|apply Hr| |by eapply get_ok].
    rewrite recent_length. destruct Hr as [[Hv| ->] Hc _]; [lia|cbn; lia].
  - clear h. induction Hops as [|op ops Hop Hops IH]; intros rs Hr; [by exists rs|]. cbn [cache_run foldl].
    destruct (cache_step_ok da rs op Hn Hr Hop) as (rs1 & -> & Hr1 & El). cbn [mbind option_bind]. rewrite <- El. by apply IH.
Qed.

(** C31: The median of the times of a window: for any cache that holds the last headers
    of the chain, or nothing, the search through the cache and the database gives
    the block in the middle of the window, by its time, where imaginary
    blocks at the target distance come before the first one. *)
Theorem moving_median da db rs n chain row tip h w :
  (0 < n)%nat -> chain_ok db chain row tip -> cache_ok rs n chain row tip -> 0 <= Target_s da < 2 ^ 20 -> 0 <= Difficulty0 da -> 0 < w < 2 ^ 40 -> 1 <= h <= tip ->
  exists j, get_MovingMedianEx da db rs h w = Some (ext da chain j) /\ h - w < j <= h /\ is_median (window da chain (Z.to_nat w) h) (ext da chain j) /\
    (ext da chain j).1 = etime da chain j.
Proof.
  intros Hn Hch Hca HT HD Hw Hh. destruct (window_median da db rs n Hn chain row tip Hch Hca HT HD h w Hw Hh) as (j & E & Hm & Hj). exists j. split_and!; [done|lia|lia|done|].
  eapply ext_block; first [exact Hch|exact Hn|lia].
Qed.






(** A chain of five blocks, one in a minute, and an empty cache. *)
Module DemoChain.
Definition D0 : Z := raw_val (Difficulty0 default_DA).
Definition chain (h : Z) : Full := mkFull h [] (be_bytes 32 (h * D0)) [] [] (1000000 + 60 * h) (mkPoW [] [] (Difficulty0 default_DA)).
Definition db : NodeDb := mkDb (fun h => h) (fun r => Some (r - 1)) chain.

Lemma chain_demo : chain_ok db chain (fun h => h) 5.
Proof.
  split; [intros h Hh; cbn; split_and!; [done|lia|done]|intros h Hh; done| |lia].
  intros h Hh. cbn [chain s_Height s_TimeStamp s_ChainWork]. split; [done|]. split; [lia|]. split; [auto with grimm|by rewrite length_be_bytes].
Qed.



Lemma cache_empty : cache_ok RecentStates_new 1 chain (fun h => h) 5.
Proof. split; [by constructor; [right| |]|constructor|done]. Qed.
End DemoChain.
Import DemoChain.

Lemma recent_states_witness :
  exists rs, cache_run default_DA RecentStates_new [OpPush 7 (chain 3); OpPush 8 (chain 4); OpRollback 3; OpPush 9 (chain 4)] = Some rs /\
    Recent_Get rs 4 = Some (Some (mkEntry 9 (chain 4))).
Proof.
  destruct (recent_states default_DA [OpPush 7 (chain 3); OpPush 8 (chain 4); OpRollback 3; OpPush 9 (chain 4)] 4) as (rs & E & _ & _ & _ & H); [vm_compute; lia|repeat constructor; cbn; lia|].
  exists rs. split; [exact E|]. rewrite H. reflexivity.
Defined.

Lemma moving_median_witness : exists j, get_MovingMedianEx default_DA db RecentStates_new 5 7 = Some (ext default_DA chain j) /\ -2 < j <= 5.
Proof.
  destruct (moving_median default_DA db RecentStates_new 1 chain (fun h => h) 5 5 7) as (j & E & Hj & _); [lia|exact chain_demo|exact cache_empty|cbn; lia|by vm_compute|lia|lia|].
  exists j. split; [exact E|lia].
Defined.

