(* ===== verification/BlockHandle.v ===== *)
(** A block on top of the chain: [NodeProcessor::HandleBlock] of [node/processor.cpp] with the
    tables of [node/db.cpp] that it changes.

    [NodeDB::get_StateTxos], [get_StateExtra], the kernels and the outputs are
    tables.  The block has been read from the database and deserialized; its elements are
    validated by the tasks that [MultiblockContext::OnBlock] starts.  The events of the
    owner of the node ([RecognizeUtxos]) are not kept.  [None] is an exception for a
    corrupted database or a failed assertion. *)

From stdpp Require Import gmap.
From S2P Require Import Prelude UintBig EccData Difficulty Merkle RadixTree UtxoTree UtxoSet Rules SystemState TxBase Ecc Kernel BlockApply Retarget.

(** The last header of the chain. *)
Record Cursor := mkCursor { cu_Row : Z; cu_Full : Full; cu_HistoryNext : list Z; cu_DifficultyNext : Z }.

Record Node := mkNode {
  nd_Proc : Proc;
  nd_Recent : RecentStates;
  nd_Kernels : list (list Z * Z);
  nd_Txos : gmap Z (Output * Z);
  nd_StateTxos : gmap Z Z;
  nd_StateExtra : gmap Z (list Z)
}.

(** ** Tables *)
Definition FindKernel (tbl : list (list Z * Z)) (key : list Z) : Z :=
  foldr (fun x h => if decide (x.1 = key) then Z.max x.2 h else h) (HeightGenesis - 1) tbl.

Definition TxoSetSpent (tbl : gmap Z (Output * Z)) (id h : Z) : option (gmap Z (Output * Z)) :=
  x ← tbl !! id; Some (<[id := (x.1, h)]> tbl).

Definition TxoAdd (tbl : gmap Z (Output * Z)) (id : Z) (o : Output) : option (gmap Z (Output * Z)) :=
  match tbl !! id with Some _ => None | None => Some (<[id := (o, MaxHeight)]> tbl) end.

Fixpoint Spent_loop (tbl : gmap Z (Output * Z)) (l : list Input) (h : Z) : option (gmap Z (Output * Z)) :=
  match l with [] => Some tbl | v :: l => tbl ← TxoSetSpent tbl (i_ID v) h; Spent_loop tbl l h end.

Fixpoint Add_loop (tbl : gmap Z (Output * Z)) (l : list Output) (id0 : Z) : option (gmap Z (Output * Z)) :=
  match l with [] => Some tbl | o :: l => tbl ← TxoAdd tbl id0 o; Add_loop tbl l (id0 + 1) end.

Section handle.
Context (sha256 : list Z -> list Z) (r : Rules) (ig : bool) {G : Type} `{!Curve G, !OracleDraws G}.
Context (da : DAParams) (db : NodeDb).

(** The IDs of the kernels and the root of their tree. *)
Definition krn_ids (tx : TxVectors) : list (list Z) := (fun k => TxKernel_get_ID sha256 r ig k None zero_hash) <$> m_vKernels tx.
Definition krn_root (ids : list (list Z)) : list Z :=
  Fly_get_Hash (hash2 sha256) zero_hash (fun i => default zero_hash (ids !! Z.to_nat i)) (Z.of_nat (length ids)).

(** [get_Definition]: the hashes of the tree are cached. *)
Definition get_Definition (t : utree) (hvHist : list Z) : utree * list Z :=
  let '(t, hv) := Radix_get_Hash (hash2 sha256) zero_hash (get_LeafHash sha256) t in
  (t, Interpret_new (hash2 sha256) hv hvHist false).

(** The checks of a header that comes for the first time; a wrong difficulty is only logged. *)
Definition CheckHeader (nd : Node) (cur : Cursor) (s : Full) (ids : list (list Z)) : option bool :=
  let wrk := raw_add (s_ChainWork (cu_Full cur)) (m_Difficulty (s_PoW s)) in
  if negb (_Cmp wrk (s_ChainWork s) =? 0) then Some false
  else
    let _ := negb (cu_DifficultyNext cur =? m_Difficulty (s_PoW s)) in
    med ← get_MovingMedian da db (nd_Recent nd) (cu_Row cur) (s_Height (cu_Full cur));
    if s_TimeStamp s <=? med then Some false
    else Some (_Cmp (s_Kernels s) (krn_root ids) =? 0).

(** [AdjustOffset] with [bAdd]. *)
Definition AdjustOffset (offs prev : list Z) : list Z :=
  Scalar_Export (scalar_add (Scalar_Import prev).1 (Scalar_Import offs).1).

(** The checks after the block was applied: the state and the result. *)
Definition CheckState (p : Proc) (cur : Cursor) (s : Full) (h : Z) (ins : list Input) (txoLo id0 : Z) : Proc * bool :=
  let '(p, bOk) :=
    if txoLo <=? h then
      let '(t, hv) := get_Definition (p_Utxos p) (cu_HistoryNext cur) in
      (mkProc t (p_Txos p), _Cmp (s_Definition s) hv =? 0)
    else (p, true) in
  let bOk := if h <=? txoLo then bOk && forallb (fun v => i_ID v <? id0) ins else bOk in
  (p, bOk).

(** [HandleBlock] for the header [s] of the row [row]; [offset] is that of the block. *)
Definition HandleBlock (nd : Node) (cur : Cursor) (row h : Z) (s : Full) (tx : TxVectors) (offset : list Z) (txoLo id0 : Z) : option (Node * bool) :=
  let ids := krn_ids tx in
  let bFirstTime := match nd_StateTxos nd !! row with None => true | Some _ => false end in
  hdr ← (if bFirstTime then CheckHeader nd cur s ids else Some true);
  if negb hdr then Some (nd, false)
  else
    '(p, tx, bOk) ← HandleValidatedBlock r (FindKernel (nd_Kernels nd)) (nd_Proc nd) tx h true None;
    '(nd, tx, bOk) ←
      (if bFirstTime && bOk then
         let '(p, bOk) := CheckState p cur s h (m_vInputs tx) txoLo id0 in
         if bOk : bool then
           offs ← (if HeightGenesis <? h then
                     prev ← get_Prev db row;
                     offsPrev ← nd_StateExtra nd !! prev;
                     Some (AdjustOffset offset offsPrev)
                   else Some offset);
           Some (mkNode p (nd_Recent nd) (nd_Kernels nd) (nd_Txos nd) (<[row := p_Txos p]> (nd_StateTxos nd)) (<[row := offs]> (nd_StateExtra nd)), tx, true)
         else
           '(p, tx, ok) ← HandleValidatedBlock r (FindKernel (nd_Kernels nd)) p tx h false None;
           if negb ok then None
           else Some (mkNode p (nd_Recent nd) (nd_Kernels nd) (nd_Txos nd) (nd_StateTxos nd) (nd_StateExtra nd), tx, false)
       else Some (mkNode p (nd_Recent nd) (nd_Kernels nd) (nd_Txos nd) (nd_StateTxos nd) (nd_StateExtra nd), tx, bOk));
    if negb bOk then Some (nd, false)
    else
      let kernels := nd_Kernels nd ++ ((fun k => (k, h)) <$> ids) in
      txos ← Spent_loop (nd_Txos nd) (m_vInputs tx) h;
      if negb (Z.of_nat (length (m_vOutputs tx)) <? p_Txos (nd_Proc nd)) then None
      else
        txos ← Add_loop txos (m_vOutputs tx) (p_Txos (nd_Proc nd) - Z.of_nat (length (m_vOutputs tx)) - 1);
        recent ← Recent_Push da (nd_Recent nd) row s;
        Some (mkNode (nd_Proc nd) recent kernels txos (nd_StateTxos nd) (nd_StateExtra nd), true).
End handle.

(** ** The table of outputs *)
Lemma Spent_loop_ok l : forall tbl h, Forall (fun v => is_Some (tbl !! i_ID v)) l -> exists tbl', Spent_loop tbl l h = Some tbl' /\
  forall id, tbl' !! id = if decide (id ∈ i_ID <$> l) then (fun x => (x.1, h)) <$> tbl !! id else tbl !! id.
Proof.
  induction l as [|v l IH]; intros tbl h Hl; cbn [Spent_loop]; [by exists tbl|]. apply Forall_cons in Hl as [[x Ex] Hl]. unfold TxoSetSpent. rewrite Ex. cbn [mbind option_bind].
  destruct (IH (<[i_ID v := (x.1, h)]> tbl) h) as (tbl' & E & Ht).
  { eapply Forall_impl; [exact Hl|]. intros w [y Ey]. destruct (decide (i_ID v = i_ID w)) as [->|]; [rewrite lookup_insert_eq; by eexists|]. rewrite lookup_insert_ne by done. by exists y. }
  exists tbl'. split; [done|]. intros id. rewrite Ht, fmap_cons. destruct (decide (i_ID v = id)) as [<-|Hne].
  - rewrite lookup_insert_eq, (decide_True (P := i_ID v ∈ i_ID v :: _)) by (by left). rewrite Ex. by destruct (decide _).
  - rewrite lookup_insert_ne by done. destruct (decide (id ∈ i_ID <$> l)) as [Hin|Hin]; [by rewrite decide_True by (by right)|]. rewrite decide_False; [done|]. intros [->|]%elem_of_cons; done.
Qed.

Lemma Add_loop_ok l : forall tbl T, (forall id, T <= id -> tbl !! id = None) -> exists tbl', Add_loop tbl l T = Some tbl' /\
  forall id, tbl' !! id = if decide (T <= id < T + Z.of_nat (length l)) then (fun o => (o, MaxHeight)) <$> l !! Z.to_nat (id - T) else tbl !! id.
Proof.
  induction l as [|o l IH]; intros tbl T Hn; cbn [Add_loop]; [exists tbl; split; [done|]; intros id; by rewrite decide_False by (cbn; lia)|].
  unfold TxoAdd. rewrite Hn by lia. cbn [mbind option_bind]. destruct (IH (<[T := (o, MaxHeight)]> tbl) (T + 1)) as (tbl' & E & Ht).
  { intros id Hid. rewrite lookup_insert_ne by lia. apply Hn. lia. }
  exists tbl'. split; [done|]. intros id. rewrite Ht. cbn [length]. destruct (decide (id = T)) as [->|Hne].
  - rewrite decide_False, decide_True, lookup_insert_eq by lia. by rewrite Z.sub_diag.
  - rewrite lookup_insert_ne by done. destruct (decide (T <= id < T + Z.of_nat (S (length l)))) as [Hr|Hr]; [|by rewrite decide_False by lia].
    rewrite decide_True by lia. by replace (Z.to_nat (id - T)) with (S (Z.to_nat (id - (T + 1)))) by lia.
Qed.

Lemma out_ids_elem r h k l : forall T id, id ∈ out_ids r h T k l <-> exists i o, l !! i = Some o /\ k = o_key r h o /\ id = T + Z.of_nat i.
Proof.
  induction l as [|o l IH]; intros T id; cbn [out_ids]; [split; [by intros ?%elem_of_nil|by intros (i & o & H & _)]|]. rewrite elem_of_app, IH. split.
  - intros [(i & o' & Hi & Hk & ->)|Hin]; [exists (S i), o'; split_and!; [done|done|lia]|]. destruct (decide (k = o_key r h o)); [|by apply elem_of_nil in Hin].
    apply list_elem_of_singleton in Hin as ->. exists 0%nat, o. split_and!; [done|done|lia].
  - intros ([|i] & o' & Hi & Hk & ->); cbn in Hi; [simplify_eq; right; rewrite decide_True by done; apply list_elem_of_singleton; lia|]. left. exists i, o'. split_and!; [done|done|lia].
Qed.

Lemma out_ids_nodup r h k l : forall T, NoDup (out_ids r h T k l).
Proof.
  induction l as [|o l IH]; intros T; cbn [out_ids]; [constructor|]. apply NoDup_app. split_and!; [done| |destruct (decide _); [apply NoDup_singleton|constructor]].
  intros id (i & o' & _ & _ & ->)%out_ids_elem Hin. destruct (decide _); [|by apply elem_of_nil in Hin]. apply list_elem_of_singleton in Hin. lia.
Qed.

Lemma inp_ids_elem k vs id : id ∈ inp_ids k vs <-> exists v, v ∈ vs /\ i_key v = k /\ i_ID v = id.
Proof.
  unfold inp_ids. rewrite list_elem_of_fmap. split.
  - intros (v & -> & [Hk Hv]%list_elem_of_filter). by exists v.
  - intros (v & Hv & Hk & <-). exists v. split; [done|]. by apply list_elem_of_filter.
Qed.

(** ** The tree and the table agree

    The rows of the table that are not spent are the elements of the stacks. *)
Record txos_agree (t : utree) (T : Z) (tbl : gmap Z (Output * Z)) : Prop := {
  ta_live d id : data_ok d -> id ∈ content t (Key_of_Data d) -> exists o, tbl !! id = Some (o, MaxHeight) /\ e_Commitment (o_Element o) = m_Commitment d;
  ta_nodup d : data_ok d -> NoDup (content t (Key_of_Data d));
  ta_unique d d' id : data_ok d -> data_ok d' -> id ∈ content t (Key_of_Data d) -> id ∈ content t (Key_of_Data d') -> d = d';
  ta_unspent id o : tbl !! id = Some (o, MaxHeight) -> exists d, data_ok d /\ m_Commitment d = e_Commitment (o_Element o) /\ id ∈ content t (Key_of_Data d);
  ta_range id x : tbl !! id = Some x -> 0 <= id < T
}.

Lemma key_inj d d' : data_ok d -> data_ok d' -> Key_of_Data d = Key_of_Data d' -> d = d'.
Proof. intros Hd Hd' E. apply (f_equal Data_of_Key) in E. by rewrite !Data_of_Key_of_Data in E. Qed.

Lemma txos_agree_block r h T ins vs outs t t' tbl : 0 <= T -> 1 <= h < 2 ^ 64 - 1 -> Forall (out_ok r h) outs -> block_effect r h T ins vs outs t t' -> txos_agree t T tbl ->
  exists tbl1 tbl2, Spent_loop tbl vs h = Some tbl1 /\ Add_loop tbl1 outs T = Some tbl2 /\ txos_agree t' (T + Z.of_nat (length outs) + 1) tbl2.
Proof.
  intros HT Hh Hout (_ & Hsp & mid & Hi & Ho) [Hlive Hnd Hun Hus Hrg]. rewrite Forall_forall in Hsp. rewrite Forall_forall in Hout.
  assert (forall v, v ∈ vs -> exists d, data_ok d /\ i_key v = Key_of_Data d) as Hkey.
  { intros v Hv. destruct (Hsp v Hv) as [HC Hm]. eexists. split; [|reflexivity]. apply key_data_ok; [done|unfold in_width; lia]. }
  assert (forall d, data_ok d -> forall id, id ∈ inp_ids (Key_of_Data d) vs \/ id ∈ mid (Key_of_Data d) <-> id ∈ content t (Key_of_Data d)) as Hsplit by (intros d Hd id; by rewrite Hi, elem_of_app).
  (* an element that stays was not spent *)
  assert (forall d id, data_ok d -> id ∈ mid (Key_of_Data d) -> id ∉ i_ID <$> vs) as Hstay.
  { intros d id Hd Hm (v & -> & Hv)%list_elem_of_fmap. destruct (Hkey v Hv) as (d' & Hd' & Ek). assert (i_ID v ∈ inp_ids (Key_of_Data d') vs) as Hin by (apply inp_ids_elem; by exists v).
    assert (d' = d) as -> by (apply (Hun d' d (i_ID v) Hd' Hd); apply Hsplit; auto). specialize (Hnd d Hd). rewrite Hi in Hnd. apply NoDup_app in Hnd as (_ & Hdis & _). by apply (Hdis (i_ID v)). }
  destruct (Spent_loop_ok vs tbl h) as (tbl1 & E1 & H1).
  { apply Forall_forall. intros v Hv. destruct (Hkey v Hv) as (d & Hd & Ek). destruct (Hlive d (i_ID v) Hd) as (o & -> & _); [|by eexists]. apply Hsplit; [done|left]. apply inp_ids_elem. by exists v. }
  destruct (Add_loop_ok outs tbl1 T) as (tbl2 & E2 & H2).
  { intros id Hid. rewrite H1. assert (tbl !! id = None) as -> by (destruct (tbl !! id) as [x|] eqn:Ex; [apply Hrg in Ex; lia|done]). by destruct (decide _). }
  exists tbl1, tbl2. split; [done|]. split; [done|].
  assert (forall d id, data_ok d -> id ∈ mid (Key_of_Data d) -> id < T) as Hold.
  { intros d id Hd Hm. destruct (Hlive d id Hd) as (o & Eo & _); [apply Hsplit; auto|]. apply Hrg in Eo. lia. }
  assert (forall d id, data_ok d -> id ∈ content t' (Key_of_Data d) -> id ∈ out_ids r h T (Key_of_Data d) outs \/ id ∈ mid (Key_of_Data d)) as Hnew by (intros d id Hd; by rewrite Ho, elem_of_app).
  assert (forall o, o ∈ outs -> data_ok (mkData (e_Commitment (o_Element o)) (get_MinMaturity r o h))) as Hod.
  { intros o Hin. destruct (Hout o Hin) as [HC Hm]. apply key_data_ok; [done|unfold in_width; lia]. }
  split.
  - intros d id Hd Hin. destruct (Hnew d id Hd Hin) as [(i & o & Hi' & Ek & ->)%out_ids_elem|Hm].
    + exists o. pose proof (lookup_lt_Some _ _ _ Hi') as Hlt. rewrite H2, decide_True by lia. replace (Z.to_nat (T + Z.of_nat i - T)) with i by lia. rewrite Hi'. split; [done|].
      apply key_inj in Ek; [by rewrite Ek|done|apply Hod; by eapply list_elem_of_lookup_2].
    + destruct (Hlive d id Hd) as (o & Eo & Hc); [apply Hsplit; auto|]. exists o. split; [|done]. rewrite H2, decide_False by (specialize (Hold d id Hd Hm); lia). rewrite H1, decide_False by (by eapply Hstay). done.
  - intros d Hd. rewrite Ho. apply NoDup_app. split_and!; [apply out_ids_nodup| |specialize (Hnd d Hd); rewrite Hi in Hnd; apply NoDup_app in Hnd as (_ & _ & Hnd); exact Hnd].
    intros id (i & o & _ & _ & ->)%out_ids_elem Hm. specialize (Hold d _ Hd Hm). lia.
  - intros d d' id Hd Hd' Hin Hin'. destruct (Hnew d id Hd Hin) as [Ha|Ha], (Hnew d' id Hd' Hin') as [Hb|Hb].
    + apply out_ids_elem in Ha as (i & o & Hi1 & Ek & ->), Hb as (j & o' & Hi2 & Ek' & E). assert (i = j) as <- by lia. rewrite Hi1 in Hi2. injection Hi2 as <-. apply key_inj; [done|done|congruence].
    + apply out_ids_elem in Ha as (i & o & _ & _ & ->). specialize (Hold d' _ Hd' Hb). lia.
    + apply out_ids_elem in Hb as (i & o & _ & _ & ->). specialize (Hold d _ Hd Ha). lia.
    + apply (Hun d d' id Hd Hd'); apply Hsplit; auto.
  - intros id o Eo. rewrite H2 in Eo. destruct (decide _) as [Hr|Hr].
    + destruct (outs !! Z.to_nat (id - T)) as [o'|] eqn:Ei; [|done]. injection Eo as ->. pose proof (Hod o (list_elem_of_lookup_2 _ _ _ Ei)) as Hd.
      exists (mkData (e_Commitment (o_Element o)) (get_MinMaturity r o h)). split_and!; [apply Hd..|done|]. rewrite Ho. apply elem_of_app. left. apply out_ids_elem. exists (Z.to_nat (id - T)), o. split_and!; [done|done|lia].
    + rewrite H1 in Eo. destruct (decide (id ∈ i_ID <$> vs)) as [Hs|Hs].
      * destruct (tbl !! id); [|done]. injection Eo as <- E. unfold MaxHeight in E. lia.
      * destruct (Hus id o Eo) as (d & Hd & Hc & Hin). exists d. split_and!; [apply Hd..|done|]. rewrite Ho. apply elem_of_app. right. apply Hsplit in Hin as [Hx|]; [|done|done].
        exfalso. apply Hs. apply inp_ids_elem in Hx as (v & Hv & _ & <-). apply list_elem_of_fmap. by exists v.
  - intros id x Ex. rewrite H2 in Ex. destruct (decide _); [lia|]. rewrite H1 in Ex. assert (is_Some (tbl !! id)) as [y Ey] by (destruct (decide _) in Ex; [|by eexists]; destruct (tbl !! id); [by eexists|done]).
    apply Hrg in Ey. lia.
Qed.

Lemma txos_agree_same t t' T tbl : same_set t t' -> txos_agree t T tbl -> txos_agree t' T tbl.
Proof.
  intros Hs [Hlive Hnd Hun Hus Hrg]. split; [| | | |exact Hrg].
  - intros d id Hd Hin. apply Hlive; [done|]. by rewrite (Hs d Hd).
  - intros d Hd. rewrite <- (Hs d Hd). by apply Hnd.
  - intros d d' id Hd Hd' H1 H2. apply (Hun d d' id Hd Hd'); first [by rewrite (Hs d Hd)|by rewrite (Hs d' Hd')].
  - intros id o Ho. destruct (Hus id o Ho) as (d & Hd & Hc & Hin). exists d. split; [done|]. split; [done|]. by rewrite <- (Hs d Hd).
Qed.

(** ** [HandleBlock] *)
Section facts.
Context (sha256 : list Z -> list Z) (r : Rules) (ig : bool) {G : Type} `{!Curve G, !OracleDraws G}.
Context (da : DAParams) (db : NodeDb) (da_ok : 0 <= Target_s da < 2 ^ 20 /\ 0 <= Difficulty0 da /\ 0 < WindowMedian0 da < 2 ^ 40) (size_ok : (0 < cache_size da)%nat).

Record node_ok (nd : Node) : Prop := {
  no_tree : utxo_ok sha256 (p_Utxos (nd_Proc nd));
  no_Txos : 0 <= p_Txos (nd_Proc nd);
  no_agree : txos_agree (p_Utxos (nd_Proc nd)) (p_Txos (nd_Proc nd)) (nd_Txos nd);
  no_recent : recent_ok (cache_size da) (nd_Recent nd)
}.

(** The cursor is at the last header of the chain, if there is one. *)
Definition cursor_ok (nd : Node) (cur : Cursor) : Prop :=
  cu_Row cur = 0 \/ exists chain row, chain_ok db chain row (s_Height (cu_Full cur)) /\ cache_ok (nd_Recent nd) (cache_size da) chain row (s_Height (cu_Full cur)).

(** What the header of a block must satisfy. *)
Definition header_ok (nd : Node) (cur : Cursor) (s : Full) (tx : TxVectors) : Prop :=
  _Cmp (raw_add (s_ChainWork (cu_Full cur)) (m_Difficulty (s_PoW s))) (s_ChainWork s) = 0 /\
  (exists med, get_MovingMedian da db (nd_Recent nd) (cu_Row cur) (s_Height (cu_Full cur)) = Some med /\ med < s_TimeStamp s) /\
  _Cmp (s_Kernels s) (krn_root sha256 (krn_ids sha256 r ig tx)) = 0.

Lemma CheckHeader_ok nd cur s tx : cursor_ok nd cur -> exists b, CheckHeader sha256 da db nd cur s (krn_ids sha256 r ig tx) = Some b /\ (b = true <-> header_ok nd cur s tx).
Proof.
  intros Hcur. unfold CheckHeader, header_ok. destruct da_ok as (HT & HD & HM).
  assert (exists med, get_MovingMedian da db (nd_Recent nd) (cu_Row cur) (s_Height (cu_Full cur)) = Some med) as [med Em].
  { unfold get_MovingMedian. destruct (Z.eqb_spec (cu_Row cur) 0); [by eexists|]. destruct Hcur as [|(chain & row & Hch & Hca)]; [done|]. pose proof (ch_tip _ _ _ _ Hch).
    destruct (window_median da db _ _ size_ok chain row _ Hch Hca HT HD (s_Height (cu_Full cur)) (WindowMedian0 da) HM ltac:(lia)) as (j & -> & _). by eexists. }
  rewrite Em. cbn [mbind option_bind]. destruct (Z.eqb_spec (_Cmp (raw_add (s_ChainWork (cu_Full cur)) (m_Difficulty (s_PoW s))) (s_ChainWork s)) 0) as [E1|E1]; cbn [negb].
  2: { exists false. split; [done|]. split; [done|]. by intros [? _]. }
  destruct (Z.leb_spec (s_TimeStamp s) med) as [Hle|Hlt].
  { exists false. split; [done|]. split; [done|]. intros (_ & (m & [= <-] & ?) & _). lia. }
  eexists. split; [done|]. rewrite Z.eqb_eq. split; [intros E2; split_and!; [done| |done]; by exists med|]. by intros (_ & _ & ?).
Qed.

Lemma get_Definition_ok t hist : utxo_ok sha256 t -> utxo_ok sha256 (get_Definition sha256 t hist).1 /\ (forall k, content (get_Definition sha256 t hist).1 k = content t k).
Proof.
  intros [[W C] Hl]. unfold get_Definition. pose proof (Radix_get_Hash_spec (hash2 sha256) zero_hash (get_LeafHash sha256) t C) as H.
  destruct (Radix_get_Hash _ _ _ t) as [t' hv]. destruct H as (_ & C' & W' & El). cbn [fst]. split; [constructor; [split; [by apply W'|done]|by rewrite El]|].
  intros k. unfold content. by rewrite El.
Qed.

(** What is checked after a block was applied. *)
Definition state_ok (t : utree) (cur : Cursor) (s : Full) (h : Z) (ins : list Input) (txoLo id0 : Z) : Prop :=
  (txoLo <= h -> _Cmp (s_Definition s) (get_Definition sha256 t (cu_HistoryNext cur)).2 = 0) /\ (h <= txoLo -> Forall (fun v => i_ID v < id0) ins).

Lemma CheckState_ok p cur s h ins txoLo id0 : utxo_ok sha256 (p_Utxos p) ->
  exists t b, CheckState sha256 p cur s h ins txoLo id0 = (mkProc t (p_Txos p), b) /\ utxo_ok sha256 t /\ (forall k, content t k = content (p_Utxos p) k) /\
    (b = true <-> state_ok (p_Utxos p) cur s h ins txoLo id0).
Proof.
  intros Hok. unfold CheckState, state_ok.
  assert (exists t b, (if txoLo <=? h then let '(t, hv) := get_Definition sha256 (p_Utxos p) (cu_HistoryNext cur) in (mkProc t (p_Txos p), _Cmp (s_Definition s) hv =? 0) else (p, true)) = (mkProc t (p_Txos p), b) /\
    utxo_ok sha256 t /\ (forall k, content t k = content (p_Utxos p) k) /\ (b = true <-> (txoLo <= h -> _Cmp (s_Definition s) (get_Definition sha256 (p_Utxos p) (cu_HistoryNext cur)).2 = 0))) as (t & b & -> & Ht & Hc & Hb).
  { destruct (Z.leb_spec txoLo h) as [Hle|Hgt].
    - destruct (get_Definition_ok (p_Utxos p) (cu_HistoryNext cur) Hok) as [H1 H2]. destruct (get_Definition _ _ _) as [t hv]. exists t, (_Cmp (s_Definition s) hv =? 0).
      split_and!; [done|done|done|]. rewrite Z.eqb_eq. cbn [snd]. split; auto.
    - exists (p_Utxos p), true. destruct p. split_and!; [done|done|done|]. split; [lia|done]. }
  assert (forall l : list Input, forallb (fun v => i_ID v <? id0) l = true <-> Forall (fun v => i_ID v < id0) l) as Hf.
  { intros l. rewrite forallb_forall, Forall_forall. split; intros H x Hx; apply Z.ltb_lt, H; by apply list_elem_of_In. }
  eexists t, _. split; [done|]. split; [done|]. split; [done|]. destruct (Z.leb_spec h txoLo) as [Hle|Hgt].
  - rewrite andb_true_iff, Hb, Hf. split; [by intros [? ?]|]. intros [? H]. auto.
  - rewrite Hb. split; [intros H; split; [done|lia]|by intros [? _]].
Qed.

(** The block that comes, and what the database knows of it. *)
Record block_in (nd : Node) (cur : Cursor) (row h : Z) (s : Full) (tx : TxVectors) : Prop := {
  bi_node : node_ok nd;
  bi_cursor : cursor_ok nd cur;
  bi_block : block_ok r h tx;
  bi_h : h < 2 ^ 64 - 1;
  bi_s : s_Height s = h;
  bi_room : p_Txos (nd_Proc nd) + Z.of_nat (length (m_vOutputs tx)) + 1 < 2 ^ 64;
  bi_extra : 1 < h -> exists prev e, get_Prev db row = Some prev /\ nd_StateExtra nd !! prev = Some e
}.

(** The node after a block was accepted. *)
Definition block_added (nd nd' : Node) (row h : Z) (s : Full) (tx : TxVectors) : Prop :=
  exists vs, block_effect r h (p_Txos (nd_Proc nd)) (m_vInputs tx) vs (m_vOutputs tx) (p_Utxos (nd_Proc nd)) (p_Utxos (nd_Proc nd')) /\
    p_Txos (nd_Proc nd') = p_Txos (nd_Proc nd) + Z.of_nat (length (m_vOutputs tx)) + 1 /\
    nd_Kernels nd' = nd_Kernels nd ++ ((fun k => (k, h)) <$> krn_ids sha256 r ig tx) /\
    recent_list (nd_Recent nd') = take (cache_size da) (mkEntry row s :: rollback_list (recent_list (nd_Recent nd)) (h - 1)) /\
    forall id, nd_Txos nd' !! id =
      if decide (p_Txos (nd_Proc nd) <= id < p_Txos (nd_Proc nd) + Z.of_nat (length (m_vOutputs tx)))
      then (fun o => (o, MaxHeight)) <$> m_vOutputs tx !! Z.to_nat (id - p_Txos (nd_Proc nd))
      else if decide (id ∈ i_ID <$> vs) then (fun x => (x.1, h)) <$> nd_Txos nd !! id else nd_Txos nd !! id.

Lemma finish_ok nd cur row h s tx vs t (st ex : gmap Z _) : block_in nd cur row h s tx -> utxo_ok sha256 t ->
  block_effect r h (p_Txos (nd_Proc nd)) (m_vInputs tx) vs (m_vOutputs tx) (p_Utxos (nd_Proc nd)) t ->
  let p := mkProc t (p_Txos (nd_Proc nd) + Z.of_nat (length (m_vOutputs tx)) + 1) in
  exists txos txos2 recent, Spent_loop (nd_Txos nd) vs h = Some txos /\ Add_loop txos (m_vOutputs tx) (p_Txos p - Z.of_nat (length (m_vOutputs tx)) - 1) = Some txos2 /\
    Recent_Push da (nd_Recent nd) row s = Some recent /\
    let nd' := mkNode p recent (nd_Kernels nd ++ ((fun k => (k, h)) <$> krn_ids sha256 r ig tx)) txos2 st ex in node_ok nd' /\ block_added nd nd' row h s tx.
Proof.
  intros [[Htree HT Hag Hrec] Hcur Hblk Hh Hs Hroom _] Hok He p. pose proof (bo_h _ _ _ Hblk) as Hh1. pose proof (block_out_ok r h tx Hblk) as Hout.
  destruct (txos_agree_block r h _ _ _ _ _ t _ HT ltac:(lia) Hout He Hag) as (txos & txos2 & E1 & E2 & Hag').
  destruct (push_ok (cache_size da) size_ok da (nd_Recent nd) row s eq_refl Hrec) as (recent & E3 & Hr' & Hl); [lia|].
  exists txos, txos2, recent. replace (p_Txos p - Z.of_nat (length (m_vOutputs tx)) - 1) with (p_Txos (nd_Proc nd)) by (unfold p; cbn; lia). split; [done|]. split; [done|]. split; [done|].
  split; [by split; [..|unfold p; cbn; lia| |]|]. exists vs. cbn [nd_Proc nd_Kernels nd_Recent nd_Txos p_Txos p]. split; [done|]. split; [done|]. split; [done|]. split; [by rewrite Hl, Hs|].
  intros id. destruct (Spent_loop_ok vs (nd_Txos nd) h) as (tx1 & F1 & G1).
  { destruct He as (_ & Hsp & mid & Hi & _). rewrite Forall_forall in Hsp. apply Forall_forall. intros v Hv. destruct (Hsp v Hv) as [HC Hm].
    destruct (ta_live _ _ _ Hag (mkData (e_Commitment (i_Element v)) (e_Maturity (i_Element v))) (i_ID v)) as (o & -> & _); [apply key_data_ok; [done|unfold in_width; lia]| |by eexists].
    change (Key_of_Data _) with (i_key v). rewrite Hi. apply elem_of_app. left. apply inp_ids_elem. by exists v. }
  rewrite E1 in F1. injection F1 as <-. destruct (Add_loop_ok (m_vOutputs tx) txos (p_Txos (nd_Proc nd))) as (tx2 & F2 & G2).
  { intros x Hx. rewrite G1. assert (nd_Txos nd !! x = None) as -> by (destruct (nd_Txos nd !! x) as [y|] eqn:Ey; [apply (ta_range _ _ _ Hag) in Ey; lia|done]). by destruct (decide _). }
  rewrite E2 in F2. injection F2 as <-. by rewrite G2, G1.
Qed.

Lemma content_same t t' : (forall k, content t' k = content t k) -> same_set t t'.
Proof. intros H d _. by rewrite H. Qed.

Lemma state_ok_same t t' cur s h ins txoLo id0 : utxo_ok sha256 t -> utxo_ok sha256 t' -> same_set t t' -> state_ok t cur s h ins txoLo id0 -> state_ok t' cur s h ins txoLo id0.
Proof.
  intros H1 H2 Hs [Hd Hi]. split; [|done]. intros Hle. rewrite <- (Hd Hle). f_equal. unfold get_Definition.
  pose proof (same_set_root sha256 t t' H1 H2 Hs) as E. change (replicate 32 0) with zero_hash in E.
  destruct (Radix_get_Hash _ _ _ t) as [t1 h1], (Radix_get_Hash _ _ _ t') as [t2 h2]. cbn [snd] in *. by rewrite E.
Qed.

(** The node after a block was refused. *)
Definition block_refused (nd nd' : Node) : Prop :=
  same_set (p_Utxos (nd_Proc nd)) (p_Utxos (nd_Proc nd')) /\ p_Txos (nd_Proc nd') = p_Txos (nd_Proc nd) /\ nd_Recent nd' = nd_Recent nd /\
  nd_Kernels nd' = nd_Kernels nd /\ nd_Txos nd' = nd_Txos nd /\ nd_StateTxos nd' = nd_StateTxos nd /\ nd_StateExtra nd' = nd_StateExtra nd.

Lemma refused_ok nd t : node_ok nd -> utxo_ok sha256 t -> same_set (p_Utxos (nd_Proc nd)) t ->
  let nd' := mkNode (mkProc t (p_Txos (nd_Proc nd))) (nd_Recent nd) (nd_Kernels nd) (nd_Txos nd) (nd_StateTxos nd) (nd_StateExtra nd) in node_ok nd' /\ block_refused nd nd'.
Proof. intros [Htree HT Hag Hrec] Hok Hs. split; [split; [done|done|by eapply txos_agree_same|done]|done]. Qed.

Lemma effect_same T ins vs outs t t' t2 h : (forall k, content t2 k = content t' k) -> block_effect r h T ins vs outs t t' -> block_effect r h T ins vs outs t t2.
Proof. intros Hc (H1 & H2 & mid & H3 & H4). split; [done|]. split; [done|]. exists mid. split; [done|]. intros k. by rewrite Hc. Qed.

Lemma HandleBlock_ok nd cur row h s tx offset txoLo id0 : block_in nd cur row h s tx ->
  exists nd' (b : bool), HandleBlock sha256 r ig da db nd cur row h s tx offset txoLo id0 = Some (nd', b) /\ node_ok nd' /\
    if b then block_added nd nd' row h s tx /\
      (nd_StateTxos nd !! row = None -> header_ok nd cur s tx /\ nd_StateTxos nd' !! row = Some (p_Txos (nd_Proc nd')) /\
        exists vs, (fun v => e_Commitment (i_Element v)) <$> vs = (fun v => e_Commitment (i_Element v)) <$> m_vInputs tx /\ state_ok (p_Utxos (nd_Proc nd')) cur s h vs txoLo id0)
    else block_refused nd nd'.
Proof.
  intros Hin. pose proof Hin as [Hnd Hcur Hblk Hh Hs Hroom Hex]. pose proof Hnd as [Htree HT Hag Hrec]. unfold HandleBlock.
  assert (exists hdr, (if match nd_StateTxos nd !! row with None => true | Some _ => false end then CheckHeader sha256 da db nd cur s (krn_ids sha256 r ig tx) else Some true) = Some hdr /\
    (hdr = true -> nd_StateTxos nd !! row = None -> header_ok nd cur s tx)) as (hdr & -> & Hhdr).
  { destruct (nd_StateTxos nd !! row); [by exists true|]. destruct (CheckHeader_ok nd cur s tx Hcur) as (b & -> & Hb). exists b. split; [done|]. intros -> _. by apply Hb. }
  cbn [mbind option_bind]. destruct hdr; cbn [negb]; [|by exists nd, false]. specialize (Hhdr eq_refl).
  destruct (block_fwd sha256 r (FindKernel (nd_Kernels nd)) (nd_Proc nd) tx h ltac:(done)) as (t & tx' & b & -> & Hok & Ho & Hk & Hb). cbn [mbind option_bind].
  destruct b; cbn [negb andb].
  2: { rewrite andb_false_r. cbn [mbind option_bind negb]. destruct (refused_ok nd t Hnd Hok (proj1 Hb)) as [H1 H2]. by eexists _, false. }
  destruct Hb as [Hlock He]. set (T := p_Txos (nd_Proc nd)) in *. set (n := Z.of_nat (length (m_vOutputs tx))) in *. rewrite andb_true_r.
  assert ((fun v => e_Commitment (i_Element v)) <$> m_vInputs tx' = (fun v => e_Commitment (i_Element v)) <$> m_vInputs tx) as Hcm by apply He.
  assert (forall t2 st ex, utxo_ok sha256 t2 -> (forall k, content t2 k = content t k) -> exists nd', (txos ← Spent_loop (nd_Txos nd) (m_vInputs tx') h;
      if negb (Z.of_nat (length (m_vOutputs tx')) <? T + n + 1) then None
      else txos ← Add_loop txos (m_vOutputs tx') (T + n + 1 - Z.of_nat (length (m_vOutputs tx')) - 1); recent ← Recent_Push da (nd_Recent nd) row s;
        Some (mkNode (mkProc t2 (T + n + 1)) recent (nd_Kernels nd ++ ((fun k => (k, h)) <$> krn_ids sha256 r ig tx)) txos st ex, true)) = Some (nd', true) /\
      node_ok nd' /\ block_added nd nd' row h s tx /\ nd_Proc nd' = mkProc t2 (T + n + 1) /\ nd_StateTxos nd' = st) as Hfin.
  { intros t2 st ex Hok2 Hc. rewrite Ho. fold n. destruct (finish_ok nd cur row h s tx (m_vInputs tx') t2 st ex Hin Hok2 (effect_same _ _ _ _ _ _ _ _ Hc He)) as (txos & txos2 & recent & E1 & E2 & E3 & H1 & H2).
    rewrite E1. cbn [mbind option_bind]. rewrite (proj2 (Z.ltb_lt _ _)) by lia. cbn [negb]. fold T n in E2. cbn [p_Txos] in E2. rewrite E2. cbn [mbind option_bind]. rewrite E3. cbn [mbind option_bind]. by eexists. }
  destruct (nd_StateTxos nd !! row) as [x|] eqn:Erow; cbn [mbind option_bind negb nd_Txos nd_Proc nd_Recent nd_Kernels nd_StateTxos nd_StateExtra p_Txos].
  { destruct (Hfin t (nd_StateTxos nd) (nd_StateExtra nd) Hok ltac:(done)) as (nd' & -> & H1 & H2 & _). by exists nd', true. }
  destruct (CheckState_ok (mkProc t (T + n + 1)) cur s h (m_vInputs tx') txoLo id0 Hok) as (t2 & b2 & -> & Hok2 & Hc & Hb2). cbn [p_Utxos p_Txos] in *. destruct b2.
  - assert (exists offs, (if HeightGenesis <? h then prev ← get_Prev db row; offsPrev ← nd_StateExtra nd !! prev; Some (AdjustOffset offset offsPrev) else Some offset) = Some offs) as [offs ->].
    { unfold HeightGenesis. destruct (Z.ltb_spec 1 h) as [H1|]; [|by eexists]. destruct (Hex H1) as (prev & e & -> & Ee). cbn [mbind option_bind]. rewrite Ee. by eexists. }
    cbn [mbind option_bind negb nd_Txos nd_Proc nd_Recent nd_Kernels nd_StateTxos nd_StateExtra p_Txos].
    destruct (Hfin t2 (<[row := T + n + 1]> (nd_StateTxos nd)) (<[row := offs]> (nd_StateExtra nd)) Hok2 Hc) as (nd' & -> & H1 & H2 & H3 & H4). exists nd', true. split; [done|]. split; [done|]. split; [done|].
    intros _. split; [by apply Hhdr|]. rewrite H3, H4, lookup_insert_eq. split; [done|]. exists (m_vInputs tx'). split; [done|]. cbn [p_Utxos].
    apply (state_ok_same t t2); [done|done|by apply content_same|by apply Hb2].
  - destruct (block_bwd sha256 r (FindKernel (nd_Kernels nd)) (mkProc t2 (T + n + 1)) (p_Utxos (nd_Proc nd)) tx' (m_vInputs tx) h Hok2 Htree) as (t3 & E3 & Hok3 & Hs3).
    + by eapply accepted_block_ok.
    + cbn [p_Txos]. rewrite Ho. fold n. lia.
    + by rewrite Hk.
    + cbn [p_Txos p_Utxos]. rewrite Ho. fold n. replace (T + n + 1 - 1 - n) with T by lia. by eapply effect_same.
    + rewrite E3. cbn [mbind option_bind negb p_Txos]. rewrite Ho. fold n. replace (T + n + 1 - 1 - n) with T by lia. destruct (refused_ok nd t3 Hnd Hok3 Hs3) as [H1 H2]. by eexists _, false.
Qed.
(** C5: On a node whose table of outputs agrees with its tree, [HandleBlock] always returns: no row that it marks as spent is missing, no row that it
    adds is present, and the undo of a block with wrong commitments does not fail.  The table agrees with the tree after the call, accepted or not. *)
Theorem node_block_invariant nd cur row h s tx offset txoLo id0 : block_in nd cur row h s tx ->
  exists nd' b, HandleBlock sha256 r ig da db nd cur row h s tx offset txoLo id0 = Some (nd', b) /\ node_ok nd'.
Proof. intros H. destruct (HandleBlock_ok nd cur row h s tx offset txoLo id0 H) as (nd' & b & E & Hn & _). by exists nd', b. Qed.

(** C3: A block that [HandleBlock] sees for the first time and accepts has the chainwork, a later time than the moving median, the root of its
    kernels and, above [txoLo], the commitment to the unspent outputs and the history that the header says; its inputs become spent at its
    height, its outputs follow the last ID and its kernels and its header are the last ones. *)
Theorem node_block_checks nd nd' cur row h s tx offset txoLo id0 : block_in nd cur row h s tx -> nd_StateTxos nd !! row = None ->
  HandleBlock sha256 r ig da db nd cur row h s tx offset txoLo id0 = Some (nd', true) ->
  header_ok nd cur s tx /\ block_added nd nd' row h s tx /\ nd_StateTxos nd' !! row = Some (p_Txos (nd_Proc nd')) /\
  (txoLo <= h -> _Cmp (s_Definition s) (get_Definition sha256 (p_Utxos (nd_Proc nd')) (cu_HistoryNext cur)).2 = 0).
Proof.
  intros H Hrow E. destruct (HandleBlock_ok nd cur row h s tx offset txoLo id0 H) as (nd2 & b & E2 & _ & Hb). rewrite E in E2. injection E2 as <- <-.
  destruct Hb as [Ha Hf]. destruct (Hf Hrow) as (Hh & Hr & vs & _ & Hst & _). by split_and!.
Qed.

(** C19: A block that [HandleBlock] refuses leaves the same set of unspent outputs under the same root, the same number of outputs and the same tables. *)
Theorem node_block_refused nd nd' cur row h s tx offset txoLo id0 : block_in nd cur row h s tx ->
  HandleBlock sha256 r ig da db nd cur row h s tx offset txoLo id0 = Some (nd', false) ->
  block_refused nd nd' /\ (get_Definition sha256 (p_Utxos (nd_Proc nd')) (cu_HistoryNext cur)).2 = (get_Definition sha256 (p_Utxos (nd_Proc nd)) (cu_HistoryNext cur)).2.
Proof.
  intros H E. destruct (HandleBlock_ok nd cur row h s tx offset txoLo id0 H) as (nd2 & b & E2 & Hn & Hb). rewrite E in E2. injection E2 as <- <-.
  split; [done|]. destruct H as [[Htree _ _ _] _ _ _ _ _ _], Hn as [Htree' _ _ _]. unfold get_Definition.
  pose proof (same_set_root sha256 _ _ Htree Htree' (proj1 Hb)) as Er. change (replicate 32 0) with zero_hash in Er.
  destruct (Radix_get_Hash _ _ _ (p_Utxos (nd_Proc nd))) as [t1 h1], (Radix_get_Hash _ _ _ (p_Utxos (nd_Proc nd'))) as [t2 h2]. cbn [snd] in *. by rewrite Er.
Qed.
End facts.

(** ** Witnesses *)
Import Ecc.Demo.

Module DemoNode.
Definition sha := DemoBlock.sha.
Definition nd0 : Node := mkNode (mkProc None 0) RecentStates_new [] ∅ ∅ ∅.
Definition db0 : NodeDb := mkDb (fun h => h) (fun _ => None) DemoChain.chain.
Definition cur0 : Cursor := mkCursor 0 (mkFull 0 [] (be_bytes 32 5) [] [] 0 (mkPoW [] [] 0)) (replicate 32 7) 0.
Definition header (def : list Z) : Full := mkFull 1 [] (be_bytes 32 (5 + raw_val (Difficulty0 default_DA))) zero_hash def 1000 (mkPoW [] [] (Difficulty0 default_DA)).
Definition good : Full := header (replicate 32 7).
Definition wrong : Full := header (replicate 32 8).
Definition run (s : Full) := HandleBlock sha default_Rules true (G := zn) default_DA db0 nd0 cur0 9 1 s DemoBlock.block1 (replicate 32 0) 0 0.

Lemma da_ok : 0 <= Target_s default_DA < 2 ^ 20 /\ 0 <= Difficulty0 default_DA /\ 0 < WindowMedian0 default_DA < 2 ^ 40.
Proof. vm_compute. intuition congruence. Qed.

Lemma size_ok : (0 < cache_size default_DA)%nat.
Proof. vm_compute. lia. Qed.

Lemma agree0 : txos_agree None 0 ∅.
Proof. split; try done; [intros d id _ H; by apply elem_of_nil in H|intros; constructor|intros d d' id _ _ H; by apply elem_of_nil in H]. Qed.

Lemma demo_in s : s_Height s = 1 -> block_in sha default_Rules default_DA db0 nd0 cur0 9 1 s DemoBlock.block1.
Proof.
  intros Hs. split; [|by left|apply DemoBlock.demo_ok; [lia|by left]|lia|done|by vm_compute|lia].
  split; [by repeat split|done|exact agree0|by constructor; [right| |]].
Qed.
End DemoNode.
Import DemoNode.

Lemma node_block_invariant_witness : exists nd' b, run good = Some (nd', b) /\ node_ok sha default_DA nd'.
Proof. exact (node_block_invariant sha default_Rules true default_DA db0 da_ok size_ok nd0 cur0 9 1 good DemoBlock.block1 (replicate 32 0) 0 0 (demo_in good eq_refl)). Defined.

Lemma node_block_checks_witness : match run good with Some (nd', true) => nd_StateTxos nd' !! 9 = Some 4 /\ header_ok (G := zn) sha default_Rules true default_DA db0 nd0 cur0 good DemoBlock.block1 | _ => False end.
Proof.
  assert (match run good with Some (nd', b) => b = true /\ p_Txos (nd_Proc nd') = 4 | None => False end) as H by (vm_compute; repeat split).
  destruct (run good) as [[nd' b]|] eqn:E; [|exact H]. unfold run in E. destruct H as [-> HT].
  destruct (node_block_checks sha default_Rules true default_DA db0 da_ok size_ok nd0 nd' cur0 9 1 good DemoBlock.block1 (replicate 32 0) 0 0 (demo_in good eq_refl) eq_refl E) as (Hh & _ & Hr & _).
  rewrite HT in Hr. split; [exact Hr|exact Hh].
Defined.

Lemma node_block_refused_witness : match run wrong with Some (nd', false) => block_refused nd0 nd' | _ => False end.
Proof.
  assert (match run wrong with Some (nd', b) => b = false | None => False end) as H by (vm_compute; reflexivity).
  destruct (run wrong) as [[nd' b]|] eqn:E; [|exact H]. unfold run in E. subst b.
  exact (proj1 (node_block_refused sha default_Rules true default_DA db0 da_ok size_ok nd0 nd' cur0 9 1 wrong DemoBlock.block1 (replicate 32 0) 0 0 (demo_in wrong eq_refl) E)).
Defined.
