(* ===== verification/BlockTree.v ===== *)
(** The tree of headers in the database of the node: the tables [States], [Tips] and
    [TipsReachable] of [node/db.cpp] with the operations that change them.

    A row of [States] is a header that the node knows, whether or not the header
    before it is known ([RowPrev]).  It is functional if the node has its block, reachable if this
    holds for all the headers down to the first one, and active if it is on the
    current chain, whose end is the cursor.  [CountNext] and [CountNextF] count the headers that
    follow, and the functional ones among them.  The columns with the block, its
    peer, and the sums of the chain ([Txos], [Extra]) are not kept here.

    [None] is an exception ([ThrowError], a failed constraint of SQLite) or a failed assertion.
    The order of the rows of a query without ORDER BY ([scan]) and
    the next row number of SQLite ([new_row]) are parameters. *)

From stdpp Require Import gmap sorting.
From S2P Require Import Prelude UintBig EccData Difficulty Merkle DistMmr RadixTree UtxoTree Rules SystemState Retarget.

(** ** Tables *)
Record StateRow := mkRow {
  st_Full : Full; st_Hash : list Z; st_Flags : Z; st_RowPrev : option Z; st_CountNext : Z; st_CountNextF : Z; st_Mmr : option (NodeData (Hash := list Z))
}.

Abbreviation st_Height x := (s_Height (st_Full x)).
Abbreviation st_HashPrev x := (s_Prev (st_Full x)).
Abbreviation States := (gmap Z StateRow).

Record TreeDb := mkTree { td_States : States; td_Tips : gset (Z * Z); td_TipsReachable : gmap Z (list Z); td_Cursor : Z * Z }.

Definition Functional : Z := 1.
Definition Reachable : Z := 2.
Definition Active : Z := 4.

(** [flag & nFlags]. *)
Definition has (flag : Z) (x : StateRow) : bool := negb (Z.land flag (st_Flags x) =? 0).

Definition set_flags (n : Z) (x : StateRow) : StateRow := mkRow (st_Full x) (st_Hash x) n (st_RowPrev x) (st_CountNext x) (st_CountNextF x) (st_Mmr x).
Definition set_prev (row : Z) (x : StateRow) : StateRow := mkRow (st_Full x) (st_Hash x) (st_Flags x) (Some row) (st_CountNext x) (st_CountNextF x) (st_Mmr x).
Definition set_next (n : Z) (x : StateRow) : StateRow := mkRow (st_Full x) (st_Hash x) (st_Flags x) (st_RowPrev x) n (st_CountNextF x) (st_Mmr x).
Definition set_nextF (n : Z) (x : StateRow) : StateRow := mkRow (st_Full x) (st_Hash x) (st_Flags x) (st_RowPrev x) (st_CountNext x) n (st_Mmr x).
Definition set_mmr (d : NodeData) (x : StateRow) : StateRow := mkRow (st_Full x) (st_Hash x) (st_Flags x) (st_RowPrev x) (st_CountNext x) (st_CountNextF x) (Some d).

Definition with_states (m : States) (db : TreeDb) : TreeDb := mkTree m (td_Tips db) (td_TipsReachable db) (td_Cursor db).
Definition with_tips (t : gset (Z * Z)) (db : TreeDb) : TreeDb := mkTree (td_States db) t (td_TipsReachable db) (td_Cursor db).
Definition with_reachable (t : gmap Z (list Z)) (db : TreeDb) : TreeDb := mkTree (td_States db) (td_Tips db) t (td_Cursor db).
Definition with_cursor (sid : Z * Z) (db : TreeDb) : TreeDb := mkTree (td_States db) (td_Tips db) (td_TipsReachable db) sid.

(** An UPDATE of one row, with [TestChanged1Row]. *)
Definition update1 (db : TreeDb) (row : Z) (f : StateRow -> StateRow) : option TreeDb :=
  x ← td_States db !! row; Some (with_states (<[row := f x]> (td_States db)) db).

Definition SetNextCount (db : TreeDb) (row n : Z) : option TreeDb := update1 db row (set_next n).
Definition SetNextCountFunctional (db : TreeDb) (row n : Z) : option TreeDb := update1 db row (set_nextF n).
Definition SetFlags (db : TreeDb) (row n : Z) : option TreeDb := update1 db row (set_flags n).

Definition TipAdd (db : TreeDb) (row h : Z) : option TreeDb :=
  if decide ((h, row) ∈ td_Tips db) then None else Some (with_tips ({[(h, row)]} ∪ td_Tips db) db).

Definition TipDel (db : TreeDb) (row h : Z) : option TreeDb :=
  if decide ((h, row) ∈ td_Tips db) then Some (with_tips (td_Tips db ∖ {[(h, row)]}) db) else None.

Definition get_ChainWork (db : TreeDb) (row : Z) : option (list Z) := x ← td_States db !! row; Some (s_ChainWork (st_Full x)).

Definition TipReachableAdd (db : TreeDb) (row : Z) : option TreeDb :=
  wrk ← get_ChainWork db row;
  match td_TipsReachable db !! row with Some _ => None | None => Some (with_reachable (<[row := wrk]> (td_TipsReachable db)) db) end.

Definition TipReachableDel (db : TreeDb) (row : Z) : option TreeDb :=
  match td_TipsReachable db !! row with Some _ => Some (with_reachable (delete row (td_TipsReachable db)) db) | None => None end.

Definition get_Prev (db : TreeDb) (row : Z) : option (option Z) := if row =? 0 then None else x ← td_States db !! row; Some (st_RowPrev x).

Definition get_StateHash (db : TreeDb) (row : Z) : option (list Z) := x ← td_States db !! row; Some (st_Hash x).

(** ** The history of a header: [NodeDB::Dmmr] *)
Section mmr.
Context (sha256 : list Z -> list Z) (db : TreeDb).

Definition Dmmr_get_NodeData (row : Z) : option NodeData := x ← td_States db !! row; st_Mmr x.

Definition Dmmr_get_NodeHash (row : Z) : option (list Z) :=
  prev ← get_Prev db row; match prev with None => None | Some p => get_StateHash db p end.

Definition BuildMmr (row rowPrev h : Z) : option TreeDb :=
  if h =? HeightGenesis then if negb (rowPrev =? 0) then None else Some db
  else if negb ((HeightGenesis <? h) && negb (rowPrev =? 0) && negb (row =? rowPrev)) then None
  else
    x ← td_States db !! row;
    match st_Mmr x with
    | Some _ => Some db
    | None =>
        hv ← get_StateHash db rowPrev;
        d ← Dist_Append (hash2 sha256) zero_hash Dmmr_get_NodeData Dmmr_get_NodeHash (u64 (h - (HeightGenesis + 1))) rowPrev hv;
        update1 db row (set_mmr d)
    end.

Definition get_PredictedStatesHash (sid : Z * Z) : option (list Z) :=
  hv ← get_StateHash db sid.1;
  Dist_get_PredictedHash (hash2 sha256) Dmmr_get_NodeData Dmmr_get_NodeHash (u64 (sid.2 - HeightGenesis)) sid.1 hv.
End mmr.

Fixpoint iterM {A} (f : TreeDb -> A -> option TreeDb) (db : TreeDb) (l : list A) : option TreeDb :=
  match l with [] => Some db | x :: l => db ← f db x; iterM f db l end.

Section tree.
Context (sha256 : list Z -> list Z) (r : Rules).
Context (scan : States -> list (Z * StateRow)) (new_row : States -> Z).

(** The rows of a query. *)
Definition select (m : States) (P : StateRow -> bool) : list (Z * StateRow) := filter (fun x => P x.2 = true) (scan m).

Definition at_hash (h : Z) (hash : list Z) (x : StateRow) : bool := bool_decide (st_Height x = h /\ st_Hash x = hash).
Definition at_prev (h : Z) (hash : list Z) (x : StateRow) : bool := bool_decide (st_Height x = h /\ st_HashPrev x = hash).

Definition StateFindSafe (db : TreeDb) (h : Z) (hash : list Z) : Z := match select (td_States db) (at_hash h hash) with [] => 0 | x :: _ => x.1 end.

Definition FindActiveStateStrict (db : TreeDb) (h : Z) : option Z := fst <$> head (select (td_States db) (fun x => bool_decide (st_Height x = h) && has Active x)).

Definition InsertState (db : TreeDb) (s : Full) : option (TreeDb * Z) :=
  let h := s_Height s in
  if h <? HeightGenesis then None
  else
    let prev := head (select (td_States db) (at_hash (u64 (h - 1)) (s_Prev s))) in
    let hash := SystemState.get_Hash sha256 r s in
    let nCountNextF := Z.of_nat (length (select (td_States db) (fun x => at_prev (u64 (h + 1)) hash x && has Functional x))) in
    match select (td_States db) (at_hash h hash) with
    | _ :: _ => None
    | [] =>
        let row := new_row (td_States db) in
        let db := with_states (<[row := mkRow s hash 0 (fst <$> prev) 0 nCountNextF None]> (td_States db)) db in
        db ← (match prev with
              | None => Some db
              | Some (rowPrev, x) =>
                  let nPrevCountNext := st_CountNext x in
                  db ← SetNextCount db rowPrev (u32 (nPrevCountNext + 1));
                  if nPrevCountNext =? 0 then TipDel db rowPrev (u64 (h - 1)) else Some db
              end);
        let nCountAncestors := Z.of_nat (length (select (td_States db) (at_prev (u64 (h + 1)) hash))) in
        let db := with_states ((fun x => if at_prev (u64 (h + 1)) hash x then set_prev row x else x) <$> td_States db) db in
        db ← (if negb (nCountAncestors =? 0) then SetNextCount db row nCountAncestors else TipAdd db row h);
        Some (db, row)
    end.

(** The result and [rowPrev]. *)
Definition DeleteState (db : TreeDb) (row : Z) : option (TreeDb * Z * bool) :=
  x ← td_States db !! row;
  let rowPrev := default 0 (st_RowPrev x) in
  if negb (st_CountNext x =? 0) then Some (db, rowPrev, false)
  else if has Active x then None
  else
    let h := st_Height x in
    db ← (match st_RowPrev x with
          | None => Some db
          | Some p =>
              y ← td_States db !! p;
              if st_CountNext y =? 0 then None
              else
                let nCountNext := st_CountNext y - 1 in
                db ← SetNextCount db p nCountNext;
                db ← (if nCountNext =? 0 then TipAdd db p (u64 (h - 1)) else Some db);
                if has Functional x then
                  if st_CountNextF y =? 0 then None
                  else
                    let nCountPrevF := st_CountNextF y - 1 in
                    db ← SetNextCountFunctional db p nCountPrevF;
                    if (nCountPrevF =? 0) && has Reachable x then TipReachableAdd db p else Some db
                else Some db
          end);
    db ← TipDel db row h;
    db ← (if has Reachable x then TipReachableDel db row else Some db);
    _ ← td_States db !! row;
    Some (with_states (delete row (td_States db)) db, rowPrev, true).

(** [b] is whether the header becomes reachable. *)
Fixpoint OnStateReachable (fuel : nat) (db : TreeDb) (row rowPrev h : Z) (b : bool) : option TreeDb :=
  match fuel with
  | O => None
  | S fuel =>
      db ← (if b then BuildMmr sha256 db row rowPrev h else Some db);
      let rows := select (td_States db) (fun x => bool_decide (st_Height x = u64 (h + 1) /\ st_RowPrev x = Some row) && has Functional x) in
      if negb (forallb (fun x => Bool.eqb (negb (has Reachable x.2)) b) rows) then None
      else
        match rows with
        | [] => if b then TipReachableAdd db row else TipReachableDel db row
        | (row0, _) :: others =>
            db ← iterM (fun db x => SetFlags db x.1 (Z.lxor (st_Flags x.2) Reachable)) db rows;
            db ← iterM (fun db x => OnStateReachable fuel db x.1 row (u64 (h + 1)) b) db others;
            OnStateReachable fuel db row0 row (u64 (h + 1)) b
        end
  end.

(** A path of headers is not longer than the table. *)
Definition OnReachable (db : TreeDb) (row rowPrev h : Z) (b : bool) : option TreeDb := OnStateReachable (S (size (td_States db))) db row rowPrev h b.

Definition SetStateFunctional (db : TreeDb) (row : Z) : option TreeDb :=
  x ← td_States db !! row;
  if has Functional x then Some db
  else
    let nFlags := Z.lor (st_Flags x) Functional in
    let h := st_Height x in
    if h <? HeightGenesis then None
    else
      '(db, rowPrev, nFlags) ←
        (if HeightGenesis <? h then
           match st_RowPrev x with
           | None => Some (db, 0, nFlags)
           | Some p =>
               y ← td_States db !! p;
               db ← SetNextCountFunctional db p (u32 (st_CountNextF y + 1));
               if has Reachable y then
                 db ← (if st_CountNextF y =? 0 then TipReachableDel db p else Some db);
                 Some (db, p, Z.lor nFlags Reachable)
               else Some (db, p, nFlags)
           end
         else match st_RowPrev x with Some _ => None | None => Some (db, 0, Z.lor nFlags Reachable) end);
      db ← SetFlags db row nFlags;
      if negb (Z.land Reachable nFlags =? 0) then OnReachable db row rowPrev h true else Some db.

Definition SetStateNotFunctional (db : TreeDb) (row : Z) : option TreeDb :=
  x ← td_States db !! row;
  if negb (has Functional x) then Some db
  else
    let nFlags := Z.land (st_Flags x) (u32 (Z.lnot Functional)) in
    let h := st_Height x in
    if h <? HeightGenesis then None
    else
      let bReachable := negb (Z.land Reachable nFlags =? 0) in
      let nFlags := if bReachable then Z.land nFlags (u32 (Z.lnot Reachable)) else nFlags in
      '(db, rowPrev) ←
        (if HeightGenesis <? h then
           match st_RowPrev x with
           | None => if bReachable then None else Some (db, 0)
           | Some p =>
               y ← td_States db !! p;
               if st_CountNextF y =? 0 then None
               else
                 let nCountPrevF := st_CountNextF y - 1 in
                 db ← SetNextCountFunctional db p nCountPrevF;
                 db ← (if (nCountPrevF =? 0) && bReachable then TipReachableAdd db p else Some db);
                 Some (db, p)
           end
         else match st_RowPrev x with Some _ => None | None => if bReachable then Some (db, 0) else None end);
      db ← SetFlags db row nFlags;
      if bReachable then OnReachable db row rowPrev h false else Some db.

(** ** The cursor *)
Definition MoveBack (db : TreeDb) (sid : Z * Z) : option (TreeDb * (Z * Z)) :=
  x ← td_States db !! sid.1;
  db ← update1 db sid.1 (set_flags (Z.land (st_Flags x) (u32 (Z.lnot Active))));
  prev ← get_Prev db sid.1;
  let sid := match prev with Some p => (p, u64 (sid.2 - 1)) | None => (0, HeightGenesis - 1) end in
  Some (with_cursor sid db, sid).

Definition MoveFwd (db : TreeDb) (sid : Z * Z) : option TreeDb :=
  x ← td_States db !! sid.1;
  db ← update1 db sid.1 (set_flags (Z.lor (st_Flags x) Active));
  Some (with_cursor sid db).

(** ** The check of the tables *)

(** A row of the left table with each row of the right one that it is joined with, or with none. *)
Definition left_join {A B} (x : A) (l : list B) : list (A * option B) := match l with [] => [(x, None)] | _ => (fun y => (x, Some y)) <$> l end.

Definition is_before (x y : StateRow) : bool := bool_decide (st_Height x = st_Height y + 1 /\ st_HashPrev x = st_Hash y).
Definition is_next (x y : StateRow) : bool := bool_decide (st_Height x = st_Height y - 1 /\ st_Hash x = st_HashPrev y).

(** The assertions for a row and the row before it. *)
Definition valid_row (z : (Z * StateRow) * option (Z * StateRow)) : bool :=
  let x := z.1.2 in
  (if has Reachable x then has Functional x else true) &&
  Bool.eqb (negb (bool_decide (is_Some (st_RowPrev x)))) (negb (bool_decide (is_Some z.2))) &&
  (match st_RowPrev x, z.2 with
   | Some rowPrev, Some (rowPrev2, y) =>
       (rowPrev =? rowPrev2) && (if has Reachable x then has Reachable y else if has Functional x then negb (has Reachable y) else true)
   | _, _ => if has Reachable x then HeightGenesis =? st_Height x else true
   end) &&
  (st_CountNextF x <=? st_CountNext x).

Definition assert_valid (db : TreeDb) : bool :=
  let m := td_States db in
  let rows := mjoin ((fun x => left_join x (select m (is_before x.2))) <$> scan m) in
  let nTips := Z.of_nat (length (filter (fun z : (Z * StateRow) * option (Z * StateRow) => (st_CountNext z.1.2 =? 0) = true) rows)) in
  let nTipsReachable := Z.of_nat (length (filter (fun z : (Z * StateRow) * option (Z * StateRow) => (st_CountNextF z.1.2 =? 0) && has Reachable z.1.2 = true) rows)) in
  forallb valid_row rows &&
  forallb (fun t : Z * Z => let x := m !! t.2 in (t.1 =? from_option (fun x => st_Height x) 0 x) && (from_option st_CountNext 0 x =? 0)) (elements (td_Tips db)) &&
  (u32 (nTips - Z.of_nat (size (td_Tips db))) =? 0) &&
  forallb (fun t : Z * list Z => let x := m !! t.1 in (from_option st_CountNextF 0 x =? 0) && from_option (has Reachable) false x) (map_to_list (td_TipsReachable db)) &&
  (u32 (nTipsReachable - Z.of_nat (size (td_TipsReachable db))) =? 0) &&
  forallb (fun x : Z * StateRow => st_CountNext x.2 =? Z.of_nat (length (select m (is_next x.2)))) (scan m) &&
  forallb (fun x : Z * StateRow => st_CountNextF x.2 =? Z.of_nat (length (select m (fun y => is_next x.2 y && has Functional y)))) (scan m).
End tree.

(** The buffer depends on the leaves up to its element, and on the keys before it. *)
Lemma spec_data_ext {Hash} (hash2 : Hash -> Hash -> Hash) leaf leaf' key key' p X h : 0 < X -> p + 1 = X * 2 ^ Z.of_nat h -> (Z.odd X = true) ->
  (forall j, 0 <= j <= p -> leaf j = leaf' j) -> (forall j, 0 <= j < p -> key j = key' j) -> spec_data hash2 leaf key p X h = spec_data hash2 leaf' key' p X h.
Proof.
  intros HX E Ho Hl Hk. unfold spec_data. f_equal.
  - apply list_fmap_ext. intros i j Hj. apply lookup_seq in Hj as [-> Hlt]. cbn [Nat.add]. apply Calculate_ext. intros k Hkk. apply Hl.
    set (W := 2 ^ Z.of_nat (S i)) in *. assert (0 < W) by apply pow2_pos. assert (exists q, p + 1 = q * W /\ 0 < q) as (q & Eq & Hq).
    { exists (X * 2 ^ Z.of_nat (h - S i)). split; [|apply Z.mul_pos_pos; [done|apply pow2_pos]]. rewrite <- Z.mul_assoc. unfold W. rewrite <- Z.pow_add_r by lia. rewrite E. do 2 f_equal. lia. }
    assert (p / W = q - 1) as Ep by (symmetry; apply Z.div_unique with (W - 1); lia). rewrite Ep in Hkk. nia.
  - apply list_fmap_ext. intros i j Hj. apply lookup_seq in Hj as [-> Hlt]. cbn [Nat.add]. apply Hk. pose proof (pow2_pos i). split; [|lia].
    destruct (decide (i < h)%nat) as [Hi|Hi].
    + assert (2 * 2 ^ Z.of_nat i <= 2 ^ Z.of_nat h) by (rewrite <- pow2_S; apply Z.pow_le_mono_r; lia). nia.
    + destruct (Z.eqb_spec X 1) as [|HX1]; [lia|]. assert (i = h) as -> by lia. assert (X <> 2) by (intros ->; done). assert (3 <= X) by lia. nia.
Qed.

Lemma odd_pow_inj X X' (g g' : nat) : Z.odd X = true -> Z.odd X' = true -> X * 2 ^ Z.of_nat g = X' * 2 ^ Z.of_nat g' -> X = X' /\ g = g'.
Proof.
  intros Ho Ho' E. assert (g = g') as ->; [|split; [|done]; pose proof (pow2_pos g'); nia].
  assert (forall A B (a b : nat), Z.odd A = true -> A * 2 ^ Z.of_nat a = B * 2 ^ Z.of_nat b -> (b <= a)%nat) as H.
  { intros A B a b HA Hab. destruct (decide (b <= a)%nat) as [|Hlt]; [done|]. exfalso. pose proof (pow2_pos a).
    assert (A = 2 * (B * 2 ^ Z.of_nat (b - S a))) as EA. { apply (Z.mul_reg_r _ _ (2 ^ Z.of_nat a)); [lia|]. rewrite Hab. replace b with (S (b - S a) + a)%nat at 1 by lia. rewrite Nat2Z.inj_add, Z.pow_add_r, pow2_S by lia. lia. }
    rewrite EA, Z.odd_mul in HA. done. }
  apply Nat.le_antisymm; [by eapply (H X' X)|by eapply (H X X')].
Qed.

(** ** Flags *)
Definition bits (f : Z) : bool * bool * bool := (negb (Z.land Functional f =? 0), negb (Z.land Reachable f =? 0), negb (Z.land Active f =? 0)).

Definition flag_ok (f : Z) : Prop := 0 <= f < 8.

Lemma flag_cases f (P : Z -> Prop) : flag_ok f -> Forall P [0; 1; 2; 3; 4; 5; 6; 7] -> P f.
Proof. intros Hf HP. rewrite Forall_forall in HP. apply HP. unfold flag_ok in Hf. assert (f = 0 \/ f = 1 \/ f = 2 \/ f = 3 \/ f = 4 \/ f = 5 \/ f = 6 \/ f = 7) as H by lia. destruct_or! H; subst f; by apply (bool_decide_unpack _); vm_compute. Qed.

Ltac flag_tac := intros Hf; match type of Hf with flag_ok ?f => pattern f; apply (flag_cases f _ Hf) end; unfold flag_ok; repeat (apply Forall_cons; split; [vm_compute; intuition congruence|]); constructor.

Lemma bits_set_fn f : flag_ok f -> flag_ok (Z.lor f Functional) /\ bits (Z.lor f Functional) = (true, (bits f).1.2, (bits f).2).
Proof. flag_tac. Qed.
Lemma bits_set_rc f : flag_ok f -> flag_ok (Z.lor f Reachable) /\ bits (Z.lor f Reachable) = ((bits f).1.1, true, (bits f).2).
Proof. flag_tac. Qed.
Lemma bits_set_ac f : flag_ok f -> flag_ok (Z.lor f Active) /\ bits (Z.lor f Active) = ((bits f).1.1, (bits f).1.2, true).
Proof. flag_tac. Qed.
Lemma bits_flip_rc f : flag_ok f -> flag_ok (Z.lxor f Reachable) /\ bits (Z.lxor f Reachable) = ((bits f).1.1, negb (bits f).1.2, (bits f).2).
Proof. flag_tac. Qed.
Lemma bits_clear_fn f : flag_ok f -> flag_ok (Z.land f (u32 (Z.lnot Functional))) /\ bits (Z.land f (u32 (Z.lnot Functional))) = (false, (bits f).1.2, (bits f).2).
Proof. flag_tac. Qed.
Lemma bits_clear_rc f : flag_ok f -> flag_ok (Z.land f (u32 (Z.lnot Reachable))) /\ bits (Z.land f (u32 (Z.lnot Reachable))) = ((bits f).1.1, false, (bits f).2).
Proof. flag_tac. Qed.
Lemma bits_clear_ac f : flag_ok f -> flag_ok (Z.land f (u32 (Z.lnot Active))) /\ bits (Z.land f (u32 (Z.lnot Active))) = ((bits f).1.1, (bits f).1.2, false).
Proof. flag_tac. Qed.

(** ** Counting rows *)
Definition count {A} (P : A -> bool) (m : gmap Z A) : Z := Z.of_nat (size (filter (fun kx : Z * A => P kx.2 = true) m)).

Lemma count_nonneg {A} (P : A -> bool) m : 0 <= count P m.
Proof. unfold count. lia. Qed.

Lemma count_insert_new {A} (P : A -> bool) m k x : m !! k = None -> count P (<[k := x]> m) = count P m + Z.b2z (P x).
Proof.
  intros Hk. unfold count. destruct (P x) eqn:EP; cbn [Z.b2z].
  - rewrite map_filter_insert_True by done. rewrite map_size_insert_None by (by apply map_lookup_filter_None_2; left). lia.
  - rewrite map_filter_insert_not' by (cbn; intros; congruence). lia.
Qed.

Lemma count_delete {A} (P : A -> bool) m k x : m !! k = Some x -> count P (delete k m) = count P m - Z.b2z (P x).
Proof. intros Hk. rewrite <- (insert_delete_id m k x Hk) at 2. rewrite count_insert_new by apply lookup_delete_eq. lia. Qed.

Lemma count_insert {A} (P : A -> bool) m k x y : m !! k = Some y -> count P (<[k := x]> m) = count P m + Z.b2z (P x) - Z.b2z (P y).
Proof. intros Hk. rewrite <- insert_delete_eq, count_insert_new by apply lookup_delete_eq. rewrite (count_delete P m k y Hk). lia. Qed.

Lemma count_fmap {A B} (P : A -> bool) (f : B -> A) (m : gmap Z B) : count P (f <$> m) = count (fun x => P (f x)) m.
Proof. unfold count. rewrite map_filter_fmap, map_size_fmap. done. Qed.

Lemma count_ext {A} (P Q : A -> bool) m : (forall k x, m !! k = Some x -> P x = Q x) -> count P m = count Q m.
Proof. intros H. unfold count. do 2 f_equal. apply map_filter_ext. intros k x Hk. cbn. by rewrite (H k x Hk). Qed.

Lemma count_0 {A} (P : A -> bool) m : count P m = 0 <-> forall k x, m !! k = Some x -> P x = false.
Proof.
  unfold count. split.
  - intros E k x Hk. destruct (P x) eqn:EP; [|done]. assert (filter (fun kx : Z * A => P kx.2 = true) m !! k = Some x) as Hf by (by apply map_lookup_filter_Some).
    assert (filter (fun kx : Z * A => P kx.2 = true) m = ∅) as H0 by (apply map_size_empty_inv; lia). by rewrite H0 in Hf.
  - intros H. assert (filter (fun kx : Z * A => P kx.2 = true) m = ∅) as ->; [|done]. apply map_empty. intros k. apply map_lookup_filter_None. right. intros x Hk. cbn. by rewrite (H k x Hk).
Qed.

Lemma count_mono {A} (P Q : A -> bool) m : (forall k x, m !! k = Some x -> P x = true -> Q x = true) -> count P m <= count Q m.
Proof. intros H. unfold count. apply Nat2Z.inj_le, map_subseteq_size. apply map_filter_strong_subseteq_ext. intros k x [HP Hk]. cbn in *. split; [by eapply H|done]. Qed.

Lemma count_size {A} (P : A -> bool) m : count P m <= Z.of_nat (size m).
Proof. unfold count. apply Nat2Z.inj_le, map_subseteq_size, map_filter_subseteq. Qed.

(** ** Chains *)
Inductive Chain (m : States) : Z -> list Z -> Prop :=
| Chain_genesis k x : m !! k = Some x -> st_Height x = 1 -> Chain m k [k]
| Chain_next k x p l : m !! k = Some x -> 1 < st_Height x -> st_RowPrev x = Some p -> Chain m p l -> Chain m k (l ++ [k]).

(** The rows as they are linked. *)
Record shape_ok (sha256 : list Z -> list Z) (r : Rules) (m : States) : Prop := {
  sh_row k x : m !! k = Some x -> 0 < k /\ 1 <= st_Height x < 2 ^ 62 /\ flag_ok (st_Flags x) /\ st_Hash x = SystemState.get_Hash sha256 r (st_Full x);
  sh_key k k' x x' : m !! k = Some x -> m !! k' = Some x' -> st_Height x = st_Height x' -> st_Hash x = st_Hash x' -> k = k';
  sh_prev k x p : m !! k = Some x -> st_RowPrev x = Some p <-> exists y, m !! p = Some y /\ st_Height y = st_Height x - 1 /\ st_Hash y = st_HashPrev x
}.

Section shape.
Context (sha256 : list Z -> list Z) (r : Rules) (m : States) (Hm : shape_ok sha256 r m).

Lemma prev_row k x p : m !! k = Some x -> st_RowPrev x = Some p -> exists y, m !! p = Some y /\ st_Height y = st_Height x - 1 /\ st_Hash y = st_HashPrev x /\ p <> k.
Proof. intros Hk Hp. apply (sh_prev _ _ _ Hm k x p Hk) in Hp as (y & Hy & Hh & Hv). exists y. split_and!; [done|done|done|]. intros ->. rewrite Hk in Hy. injection Hy as <-. lia. Qed.

Lemma prev_genesis k x : m !! k = Some x -> st_Height x = 1 -> st_RowPrev x = None.
Proof. intros Hk Hh. destruct (st_RowPrev x) as [p|] eqn:E; [|done]. destruct (prev_row k x p Hk E) as (y & Hy & Hhy & _). pose proof (sh_row _ _ _ Hm p y Hy). lia. Qed.

Lemma Chain_row k l : Chain m k l -> exists x, m !! k = Some x /\ Z.of_nat (length l) = st_Height x /\ last l = Some k.
Proof.
  induction 1 as [k x Hk Hh|k x p l Hk Hh Hp Hc (y & Hy & Hl & _)]; exists x; [split_and!; [done|cbn; lia|done]|].
  destruct (prev_row k x p Hk Hp) as (y' & Hy' & Hhy & _). rewrite Hy in Hy'. injection Hy' as <-. rewrite length_app, last_snoc. cbn [length]. split_and!; [done|lia|done].
Qed.

Lemma Chain_det k l l' : Chain m k l -> Chain m k l' -> l = l'.
Proof.
  intros H. revert l'. induction H as [k x Hk Hh|k x p l Hk Hh Hp Hc IH]; intros l' H'; inversion H' as [k' x' Hk' Hh'|k' x' p' l2 Hk' Hh' Hp' Hc']; subst; rewrite Hk in Hk'; injection Hk' as <-; try done; try lia.
  rewrite Hp in Hp'. injection Hp' as <-. by rewrite (IH l2 Hc').
Qed.

Lemma Chain_prefix k l : Chain m k l -> forall i q, l !! i = Some q -> Chain m q (take (S i) l).
Proof.
  induction 1 as [k x Hk Hh|k x p l Hk Hh Hp Hc IH]; intros i q Hi.
  - destruct i as [|i]; [|by rewrite lookup_cons_ne_0 in Hi by done]. injection Hi as <-. by eapply Chain_genesis.
  - destruct (decide (i < length l)%nat) as [Hlt|Hge].
    + rewrite lookup_app_l in Hi by done. rewrite take_app_le by lia. by apply IH.
    + pose proof (lookup_lt_Some _ _ _ Hi) as Hb. rewrite length_app in Hb. cbn in Hb. assert (i = length l) as -> by lia. rewrite list_lookup_middle in Hi by done. injection Hi as <-.
      rewrite take_ge by (rewrite length_app; cbn; lia). by eapply Chain_next.
Qed.

Lemma Chain_lookup k l i q : Chain m k l -> l !! i = Some q -> exists x, m !! q = Some x /\ st_Height x = Z.of_nat i + 1.
Proof.
  intros H Hi. pose proof (Chain_prefix k l H i q Hi) as H'. apply Chain_row in H' as (x & Hx & Hl & _). exists x. split; [done|]. rewrite length_take in Hl. pose proof (lookup_lt_Some _ _ _ Hi). lia.
Qed.

Lemma Chain_link k l i p q : Chain m k l -> l !! i = Some p -> l !! S i = Some q -> exists x, m !! q = Some x /\ st_RowPrev x = Some p.
Proof.
  intros H Hi Hq. pose proof (Chain_prefix k l H (S i) q Hq) as H'. pose proof (lookup_lt_Some _ _ _ Hq) as Hlt. inversion H' as [k' x Hk Hh E1 E2|k' x p' l2 Hk Hh Hp Hc E1 E2].
  - apply (f_equal length) in E2. cbn [length] in E2. rewrite length_take in E2. lia.
  - exists x. split; [done|]. rewrite Hp. f_equal. subst k'. apply Chain_row in Hc as (_ & _ & _ & Hlast).
    assert (length l2 = S i) as Hl2 by (apply (f_equal length) in E2; rewrite length_app, length_take in E2; cbn [length] in E2; lia).
    assert (l2 = take (S i) l) as ->. { apply (f_equal (take (S i))) in E2. rewrite take_take in E2. replace (S i `min` S (S i))%nat with (S i) in E2 by lia. rewrite <- E2, take_app_le, take_ge by lia. done. }
    rewrite last_lookup, length_take in Hlast. replace (pred (S i `min` length l)) with i in Hlast by lia. rewrite lookup_take_lt in Hlast by lia. congruence.
Qed.

Lemma Chain_NoDup k l : Chain m k l -> NoDup l.
Proof.
  intros H. apply NoDup_alt. intros i j q Hi Hj. destruct (Chain_lookup k l i q H Hi) as (x & Hx & E1), (Chain_lookup k l j q H Hj) as (x' & Hx' & E2). rewrite Hx in Hx'. injection Hx' as <-. lia.
Qed.
End shape.

(** Chains depend on the links only. *)
Definition linked (x : StateRow) : Full * list Z * option Z := (st_Full x, st_Hash x, st_RowPrev x).

Lemma Chain_mono (m m' : States) k l : (forall q x, m !! q = Some x -> q ∈ l -> exists x', m' !! q = Some x' /\ st_Full x' = st_Full x /\ st_RowPrev x' = st_RowPrev x) -> Chain m k l -> Chain m' k l.
Proof.
  intros H Hc. induction Hc as [k x Hk Hh|k x p l Hk Hh Hp Hc IH].
  - destruct (H k x Hk) as (x' & Hx' & Ef & _); [by apply list_elem_of_singleton|]. eapply Chain_genesis; [done|]. by rewrite Ef.
  - destruct (H k x Hk) as (x' & Hx' & Ef & Ep); [apply elem_of_app; right; by apply list_elem_of_singleton|]. eapply Chain_next; [done|by rewrite Ef|by rewrite Ep|]. apply IH. intros q y Hq Hin. apply H; [done|]. apply elem_of_app. by left.
Qed.

(** ** The invariant *)
Abbreviation Core := (Full * list Z * option Z * Z * Z * bool * bool)%type.
Definition core (x : StateRow) : Core := (st_Full x, st_Hash x, st_RowPrev x, st_CountNext x, st_CountNextF x, has Functional x, has Active x).
Definition flagged (x : StateRow) := (core x, has Reachable x).

Lemma fmap_lookup_eq {A B} (f : A -> B) (m m' : gmap Z A) k x : f <$> m = f <$> m' -> m !! k = Some x -> exists x', m' !! k = Some x' /\ f x' = f x.
Proof. intros E Hk. apply (f_equal (lookup k)) in E. rewrite !lookup_fmap, Hk in E. cbn in E. destruct (m' !! k) as [x'|]; [|done]. exists x'. split; [done|]. cbn in E. congruence. Qed.

Lemma flagged_core (m m' : States) : flagged <$> m = flagged <$> m' -> core <$> m = core <$> m'.
Proof. intros E. apply (f_equal (fmap fst)) in E. rewrite <- !map_fmap_compose in E. exact E. Qed.

Definition kid (p : Z) (x : StateRow) : bool := bool_decide (st_RowPrev x = Some p).

Record counts_ok (db : TreeDb) : Prop := {
  co_next k x : td_States db !! k = Some x -> st_CountNext x = count (kid k) (td_States db);
  co_nextF k x : td_States db !! k = Some x -> st_CountNextF x = count (fun y => kid k y && has Functional y) (td_States db);
  co_tips h k : (h, k) ∈ td_Tips db <-> exists x, td_States db !! k = Some x /\ h = st_Height x /\ st_CountNext x = 0
}.

(** Reachability while the rows of [F] have changed, but what follows them has not. *)
Definition view (F : gset Z) (m : States) (p : Z) : bool := match m !! p with Some y => xorb (has Reachable y) (bool_decide (p ∈ F)) | None => false end.
Definition up_view (F : gset Z) (m : States) (x : StateRow) : bool := bool_decide (st_Height x = 1) || match st_RowPrev x with Some p => view F m p | None => false end.

Record reach_ok (F : gset Z) (db : TreeDb) : Prop := {
  re_flag k x : td_States db !! k = Some x -> has Reachable x = has Functional x && up_view F (td_States db) x;
  re_tips k w : td_TipsReachable db !! k = Some w <-> exists x, td_States db !! k = Some x /\ w = s_ChainWork (st_Full x) /\ st_CountNextF x = 0 /\ view F (td_States db) k = true
}.

(** What the column of the history holds. *)
Definition hash_of (m : States) (k : Z) : list Z := match m !! k with Some x => st_Hash x | None => zero_hash end.
Definition leaf_of (m : States) (l : list Z) (j : Z) : list Z := hash_of m (default 0 (l !! Z.to_nat j)).
Definition key_of (l : list Z) (j : Z) : Z := default 0 (l !! Z.to_nat (j + 1)).

Section inv.
Context (sha256 : list Z -> list Z) (r : Rules).

Definition mmr_data (m : States) (k : Z) (x : StateRow) (d : NodeData) : Prop :=
  exists l X g, Chain m k l /\ Z.odd X = true /\ 0 < X /\ st_Height x - 1 = X * 2 ^ Z.of_nat g /\ d = spec_data (hash2 sha256) (leaf_of m l) (key_of l) (st_Height x - 2) X g.

Record mmr_ok (F : gset Z) (m : States) : Prop := {
  mm_data k x d : m !! k = Some x -> st_Mmr x = Some d -> mmr_data m k x d;
  mm_has k x : m !! k = Some x -> has Reachable x = true -> k ∉ F -> 1 < st_Height x -> is_Some (st_Mmr x)
}.

(** *** What depends on the links or on the core only *)
Lemma linked_fields x x' : linked x' = linked x -> st_Full x' = st_Full x /\ st_Hash x' = st_Hash x /\ st_RowPrev x' = st_RowPrev x.
Proof. unfold linked. intros E. by simplify_eq. Qed.

Lemma core_linked (m m' : States) : core <$> m = core <$> m' -> linked <$> m = linked <$> m'.
Proof.
  intros E. pose (f := fun c : Core => (c.1.1.1.1.1.1, c.1.1.1.1.1.2, c.1.1.1.1.2)). apply (f_equal (fmap f)) in E. rewrite <- !map_fmap_compose in E. exact E.
Qed.

Lemma Chain_linked (m m' : States) k l : linked <$> m = linked <$> m' -> Chain m k l -> Chain m' k l.
Proof. intros E. apply Chain_mono. intros q x Hq _. destruct (fmap_lookup_eq linked m m' q x E Hq) as (x' & Hx' & Ec). apply linked_fields in Ec as (Ef & _ & Ep). by exists x'. Qed.

Lemma shape_linked m m' : linked <$> m = linked <$> m' -> (forall k x, m' !! k = Some x -> flag_ok (st_Flags x)) -> shape_ok sha256 r m -> shape_ok sha256 r m'.
Proof.
  intros E Hf [H1 H2 H3]. assert (forall k x', m' !! k = Some x' -> exists x, m !! k = Some x /\ linked x = linked x') as Hback by (intros; by eapply fmap_lookup_eq). split.
  - intros k x' Hk. destruct (Hback k x' Hk) as (x & Hx & Ec). apply linked_fields in Ec as (<- & <- & _). destruct (H1 k x Hx) as (? & ? & _ & ?). split; [done|]. split; [done|]. split; [by apply (Hf k x')|done].
  - intros k k' x x' Hk Hk'. destruct (Hback k x Hk) as (y & Hy & Ec), (Hback k' x' Hk') as (y' & Hy' & Ec'). apply linked_fields in Ec as (<- & <- & _), Ec' as (<- & <- & _). by apply (H2 k k' y y').
  - intros k x' p Hk. destruct (Hback k x' Hk) as (x & Hx & Ec). apply linked_fields in Ec as (<- & _ & <-). rewrite (H3 k x p Hx). split; intros (y & Hy & Hh & Hv).
    + destruct (fmap_lookup_eq linked m m' p y E Hy) as (y' & Hy' & Ec). apply linked_fields in Ec as (Ef & Eh & _). exists y'. rewrite Ef, Eh. done.
    + destruct (Hback p y Hy) as (y' & Hy' & Ec). apply linked_fields in Ec as (Ef & Eh & _). exists y'. rewrite Ef, Eh. done.
Qed.

Lemma hash_linked m m' k : linked <$> m = linked <$> m' -> hash_of m' k = hash_of m k.
Proof.
  intros E. unfold hash_of. destruct (m !! k) as [x|] eqn:Hx; [|apply (f_equal (lookup k)) in E; rewrite !lookup_fmap, Hx in E; by destruct (m' !! k)].
  destruct (fmap_lookup_eq linked _ _ k x E Hx) as (x' & -> & Ec). by apply linked_fields in Ec as (_ & -> & _).
Qed.

Lemma mmr_data_linked m m' k x x' d : linked <$> m = linked <$> m' -> linked x' = linked x -> mmr_data m k x d -> mmr_data m' k x' d.
Proof.
  intros E Ec (l & X & g & Hc & Ho & HX & Eh & ->). apply linked_fields in Ec as (Ef & _). exists l, X, g. rewrite Ef. split_and!; [by eapply Chain_linked|done|done|done|].
  apply spec_data_ext; [done|lia|done| |done]. intros j _. unfold leaf_of. by rewrite (hash_linked m m').
Qed.

Lemma core_fields x x' : core x' = core x -> st_Full x' = st_Full x /\ st_Hash x' = st_Hash x /\ st_RowPrev x' = st_RowPrev x /\ st_CountNext x' = st_CountNext x /\ st_CountNextF x' = st_CountNextF x /\ has Functional x' = has Functional x /\ has Active x' = has Active x.
Proof. unfold core. intros E. by simplify_eq. Qed.

Lemma Chain_core (m m' : States) k l : core <$> m = core <$> m' -> Chain m k l -> Chain m' k l.
Proof. intros E. by apply Chain_linked, core_linked. Qed.

Lemma shape_core m m' : core <$> m = core <$> m' -> (forall k x, m' !! k = Some x -> flag_ok (st_Flags x)) -> shape_ok sha256 r m -> shape_ok sha256 r m'.
Proof. intros E. by apply shape_linked, core_linked. Qed.

Lemma count_core (m m' : States) (Q : Core -> bool) : core <$> m = core <$> m' -> count (fun x => Q (core x)) m = count (fun x => Q (core x)) m'.
Proof. intros E. rewrite <- !(count_fmap Q core). by rewrite E. Qed.

Lemma counts_core db db' : core <$> td_States db = core <$> td_States db' -> td_Tips db' = td_Tips db -> counts_ok db -> counts_ok db'.
Proof.
  intros E Et [H1 H2 H3]. assert (forall k x', td_States db' !! k = Some x' -> exists x, td_States db !! k = Some x /\ core x = core x') as Hback by (intros; by eapply fmap_lookup_eq). split.
  - intros k x' Hk. destruct (Hback k x' Hk) as (x & Hx & Ec). apply core_fields in Ec as (_ & _ & _ & <- & _). rewrite (H1 k x Hx). pose proof (count_core _ _ (fun c : Core => bool_decide (c.1.1.1.1.2 = Some k)) E) as Hc. exact Hc.
  - intros k x' Hk. destruct (Hback k x' Hk) as (x & Hx & Ec). apply core_fields in Ec as (_ & _ & _ & _ & <- & _). rewrite (H2 k x Hx). pose proof (count_core _ _ (fun c : Core => bool_decide (c.1.1.1.1.2 = Some k) && c.1.2) E) as Hc. exact Hc.
  - intros h k. rewrite Et, H3. split; intros (x & Hx & -> & Hn).
    + destruct (fmap_lookup_eq core _ _ k x E Hx) as (x' & Hx' & Ec). apply core_fields in Ec as (Ef & _ & _ & En & _). exists x'. rewrite Ef, En. done.
    + destruct (Hback k x Hx) as (x' & Hx' & Ec). apply core_fields in Ec as (Ef & _ & _ & En & _). exists x'. rewrite Ef, En. done.
Qed.

Lemma hash_core m m' k : core <$> m = core <$> m' -> hash_of m' k = hash_of m k.
Proof. intros E. by apply hash_linked, core_linked. Qed.

Lemma mmr_data_core m m' k x x' d : core <$> m = core <$> m' -> core x' = core x -> mmr_data m k x d -> mmr_data m' k x' d.
Proof. intros E (E1 & E2 & E3 & _)%core_fields. apply mmr_data_linked; [by apply core_linked|]. unfold linked. by rewrite E1, E2, E3. Qed.
End inv.

Lemma not_pending (F : gset Z) k row : k ∉ F -> k <> row -> k ∉ F ∪ {[row]}.
Proof. by rewrite not_elem_of_union, not_elem_of_singleton. Qed.

Section build.
Context (sha256 : list Z -> list Z) (r : Rules).
Context (scan : States -> list (Z * StateRow)) (scan_ok : forall m, scan m ≡ₚ map_to_list m).

(** *** Queries *)
Lemma select_elem m P k x : (k, x) ∈ select scan m P <-> m !! k = Some x /\ P x = true.
Proof. unfold select. rewrite list_elem_of_filter, scan_ok, elem_of_map_to_list. cbn. tauto. Qed.

Lemma select_NoDup m P : NoDup (select scan m P).*1.
Proof.
  assert (NoDup (scan m).*1) as H by (rewrite scan_ok; apply NoDup_fst_map_to_list). unfold select. revert H. generalize (scan m). induction l as [|[k x] l IH]; [done|]. rewrite fmap_cons, NoDup_cons. intros [H1 H2].
  rewrite filter_cons. destruct (decide _); [|by apply IH]. rewrite fmap_cons, NoDup_cons. split; [|by apply IH]. cbn in *. intros Hin. apply H1. apply list_elem_of_fmap in Hin as (y & -> & Hy). apply list_elem_of_filter in Hy as [_ Hy]. apply list_elem_of_fmap. by exists y.
Qed.

Lemma select_count m P : Z.of_nat (length (select scan m P)) = count P m.
Proof.
  unfold count. rewrite <- length_map_to_list, <- (length_fmap fst), <- (length_fmap fst (map_to_list _)). f_equal. apply Permutation_length. apply NoDup_Permutation; [apply select_NoDup|apply NoDup_fst_map_to_list|].
  intros k. rewrite !list_elem_of_fmap. split; intros ([k' x] & -> & Hx); exists (k', x); (split; [done|]).
  - apply select_elem in Hx as [H1 H2]. apply elem_of_map_to_list, map_lookup_filter_Some. done.
  - apply elem_of_map_to_list, map_lookup_filter_Some in Hx as [H1 H2]. by apply select_elem.
Qed.

(** *** The history column *)
Lemma leaf_take m (l : list Z) n j : 0 <= j < Z.of_nat n -> leaf_of m (take n l) j = leaf_of m l j.
Proof. intros Hj. unfold leaf_of. by rewrite lookup_take_lt by lia. Qed.

Lemma key_take (l : list Z) n j : 0 <= j < Z.of_nat n - 1 -> key_of (take n l) j = key_of l j.
Proof. intros Hj. unfold key_of. by rewrite lookup_take_lt by lia. Qed.

Lemma chain_elems db k l : shape_ok sha256 r (td_States db) -> (forall k x d, td_States db !! k = Some x -> st_Mmr x = Some d -> mmr_data sha256 (td_States db) k x d) -> Chain (td_States db) k l ->
  (forall q y, q ∈ l -> td_States db !! q = Some y -> 1 < st_Height y -> is_Some (st_Mmr y)) ->
  forall p, 0 <= p < Z.of_nat (length l) - 1 -> elem_ok (hash2 sha256) (Dmmr_get_NodeData db) (Dmmr_get_NodeHash db) (leaf_of (td_States db) l) (key_of l) p.
Proof.
  intros Hm Hd Hc Hhas p Hp. destruct (lookup_lt_is_Some_2 l (Z.to_nat p)) as [q0 Hq0]; [lia|]. destruct (lookup_lt_is_Some_2 l (S (Z.to_nat p))) as [q Hq]; [lia|].
  assert (key_of l p = q) as Ekey by (unfold key_of; replace (Z.to_nat (p + 1)) with (S (Z.to_nat p)) by lia; by rewrite Hq).
  destruct (Chain_link sha256 r _ Hm k l _ q0 q Hc Hq0 Hq) as (x & Hx & Hprev). destruct (Chain_lookup sha256 r _ Hm k l _ q Hc Hq) as (x' & Hx' & Hh). rewrite Hx in Hx'. injection Hx' as <-.
  split.
  - rewrite Ekey. unfold Dmmr_get_NodeHash, get_Prev. pose proof (sh_row _ _ _ Hm q x Hx). rewrite (proj2 (Z.eqb_neq _ _)) by lia. rewrite Hx. cbn [mbind option_bind]. rewrite Hprev. unfold get_StateHash, leaf_of, hash_of. rewrite Hq0. cbn [default].
    destruct (prev_row sha256 r _ Hm q x q0 Hx Hprev) as (y & Hy & _). change (id q0) with q0. by rewrite Hy.
  - intros X g Ho HX E. rewrite Ekey. unfold Dmmr_get_NodeData. rewrite Hx. cbn [mbind option_bind]. destruct (Hhas q x) as [d Ed]; [by eapply list_elem_of_lookup_2|done|lia|].
    rewrite Ed. f_equal. destruct (Hd q x d Hx Ed) as (l' & X' & g' & Hc' & Ho' & HX' & E' & ->). assert (l' = take (S (S (Z.to_nat p))) l) as ->.
    { eapply Chain_det; [done|]. by eapply Chain_prefix. }
    destruct (odd_pow_inj X' X g' g Ho' Ho ltac:(lia)) as [-> ->]. replace (st_Height x - 2) with p by lia. apply spec_data_ext; [done|lia|done| |].
    + intros j Hj. apply leaf_take. lia.
    + intros j Hj. apply key_take. lia.
Qed.

(** The chain of a reachable row. *)
Lemma reach_chain F db : shape_ok sha256 r (td_States db) -> reach_ok F db -> (forall k y, k ∈ F -> td_States db !! k = Some y -> has Reachable y = true) ->
  forall (n : nat) k x, st_Height x <= Z.of_nat n -> td_States db !! k = Some x -> has Reachable x = true -> k ∉ F ->
  exists l, Chain (td_States db) k l /\ forall q, q ∈ l -> (q ∉ F) /\ exists y, td_States db !! q = Some y /\ has Reachable y = true /\ has Functional y = true.
Proof.
  intros Hm Hr HF. induction n as [|n IH]; intros k x Hn Hk Hrx HkF; pose proof (sh_row _ _ _ Hm k x Hk) as (_ & Hh & _); [lia|].
  pose proof (re_flag _ _ Hr k x Hk) as E. rewrite Hrx in E. symmetry in E. apply andb_true_iff in E as [Hf Hup]. unfold up_view in Hup. destruct (decide (st_Height x = 1)) as [E1|Hne].
  - exists [k]. split; [by eapply Chain_genesis|]. intros q ->%list_elem_of_singleton. split; [done|]. by exists x.
  - rewrite bool_decide_eq_false_2 in Hup by done. cbn [orb] in Hup. destruct (st_RowPrev x) as [p|] eqn:Ep; [|done]. destruct (prev_row sha256 r _ Hm k x p Hk Ep) as (y & Hy & Hhy & _). unfold view in Hup. rewrite Hy in Hup.
    destruct (decide (p ∈ F)) as [Hin|Hnin].
    { rewrite bool_decide_eq_true_2 in Hup by done. rewrite (HF p y Hin Hy) in Hup. done. }
    rewrite bool_decide_eq_false_2, xorb_false_r in Hup by done. destruct (IH p y) as (l & Hc & Hl); [lia|done|done|done|]. exists (l ++ [k]). split; [eapply Chain_next; [done|lia|done|done]|].
    intros q [Hq| ->%list_elem_of_singleton]%elem_of_app; [by apply Hl|]. split; [done|]. by exists x.
Qed.

(** [BuildMmr] for a row that has just become reachable. *)
Lemma BuildMmr_ok F db row x : shape_ok sha256 r (td_States db) -> reach_ok (F ∪ {[row]}) db -> mmr_ok sha256 (F ∪ {[row]}) (td_States db) ->
  (forall k y, k ∈ F ∪ {[row]} -> td_States db !! k = Some y -> has Reachable y = true) -> row ∉ F -> td_States db !! row = Some x ->
  exists m, BuildMmr sha256 db row (default 0 (st_RowPrev x)) (st_Height x) = Some (with_states m db) /\ flagged <$> td_States db = flagged <$> m /\
    (forall k y, m !! k = Some y -> flag_ok (st_Flags y)) /\ mmr_ok sha256 F m.
Proof.
  intros Hm Hr [Hd Hh] HF HrF Hx. pose proof (sh_row _ _ _ Hm row x Hx) as (Hpos & Hhx & Hfl & _). assert (has Reachable x = true) as Hrx by (apply (HF row); [apply elem_of_union; right; by apply elem_of_singleton|done]).
  assert (forall k y, td_States db !! k = Some y -> flag_ok (st_Flags y)) as Hfl0 by (intros k y Hk; apply (sh_row _ _ _ Hm k y Hk)).
  assert (db = with_states (td_States db) db) as Edb by (by destruct db). unfold BuildMmr, HeightGenesis. destruct (Z.eqb_spec (st_Height x) 1) as [E1|Hne].
  { rewrite (prev_genesis sha256 r _ Hm row x Hx E1). cbn. exists (td_States db). split; [by rewrite <- Edb|]. split; [done|]. split; [done|]. split; [done|].
    intros k y Hk Hry HkF Hhy. apply (Hh k y Hk Hry); [|done]. intros [| ->%elem_of_singleton]%elem_of_union; [done|]. rewrite Hx in Hk. injection Hk as <-. lia. }
  pose proof (re_flag _ _ Hr row x Hx) as E. rewrite Hrx in E. symmetry in E. apply andb_true_iff in E as [Hf Hup]. unfold up_view in Hup. rewrite bool_decide_eq_false_2 in Hup by done. cbn [orb] in Hup.
  destruct (st_RowPrev x) as [p|] eqn:Ep; [|done]. destruct (prev_row sha256 r _ Hm row x p Hx Ep) as (y & Hy & Hhy & Hhash & Hpr). unfold view in Hup. rewrite Hy in Hup. change (default 0 (Some p)) with p.
  assert (p ∉ F ∪ {[row]}) as HpF by (intros Hin; rewrite bool_decide_eq_true_2 in Hup by done; rewrite (HF p y Hin Hy) in Hup; done).
  rewrite bool_decide_eq_false_2, xorb_false_r in Hup by done. pose proof (sh_row _ _ _ Hm p y Hy) as (Hppos & _).
  rewrite (proj2 (Z.ltb_lt _ _)), (proj2 (Z.eqb_neq p 0)), (proj2 (Z.eqb_neq row p)) by first [done|lia]. cbn [negb andb]. rewrite Hx. cbn [mbind option_bind]. destruct (st_Mmr x) as [d|] eqn:Ed.
  { exists (td_States db). split; [by rewrite <- Edb|]. split; [done|]. split; [done|]. split; [done|].
    intros k z Hk Hrz HkF Hhz. destruct (decide (k = row)) as [->|]; [rewrite Hx in Hk; injection Hk as <-; by rewrite Ed|]. apply (Hh k z Hk Hrz); [by apply not_pending|done]. }
  destruct (reach_chain _ db Hm Hr HF (Z.to_nat (st_Height y)) p y ltac:(lia) Hy Hup HpF) as (l & Hc & Hl). destruct (Chain_row sha256 r _ Hm p l Hc) as (y' & Hy' & Hlen & Hlast). rewrite Hy in Hy'. injection Hy' as <-.
  assert (Chain (td_States db) row (l ++ [row])) as Hc2 by (eapply Chain_next; [done|lia|done|done]).
  set (c := st_Height x - 2). rewrite (wrap_small 64 (st_Height x - (1 + 1))) by (unfold in_width; lia). replace (st_Height x - (1 + 1)) with c by lia.
  destruct (height_ex c) as (g & X & E & Ho & HX & _); [lia|lia|].
  unfold get_StateHash. rewrite Hy. cbn [mbind option_bind]. rewrite (Dist_Append_ok (hash2 sha256) zero_hash (Dmmr_get_NodeData db) (Dmmr_get_NodeHash db) (leaf_of (td_States db) l) (key_of l) c ltac:(lia)) with (X1 := X) (h1 := g).
  - cbn [mbind option_bind]. unfold update1. rewrite Hx. cbn [mbind option_bind]. eexists. split; [reflexivity|]. set (d := spec_data _ _ _ _ _ _). set (m := <[row := set_mmr d x]> (td_States db)).
    assert (flagged <$> td_States db = flagged <$> m) as Em by (unfold m; rewrite fmap_insert; symmetry; apply insert_id; rewrite lookup_fmap, Hx; done).
    split; [done|]. split.
    { intros k z Hk. unfold m in Hk. destruct (decide (k = row)) as [->|]; [rewrite lookup_insert_eq in Hk; injection Hk as <-; exact Hfl|]. rewrite lookup_insert_ne in Hk by done. by apply (Hfl0 k). }
    apply flagged_core in Em. split.
    + intros k z d' Hk Hz. destruct (decide (k = row)) as [->|Hk'].
      * unfold m in Hk. rewrite lookup_insert_eq in Hk. injection Hk as <-. cbn in Hz. injection Hz as <-. exists (l ++ [row]), X, g. cbn [set_mmr st_Full]. split; [by eapply Chain_core|]. split; [done|]. split; [done|]. split; [lia|].
        unfold d. apply spec_data_ext; [done|lia|done| |].
        -- intros j Hj. unfold leaf_of at 2. rewrite (hash_core (td_States db) m) by done. unfold leaf_snoc. destruct (Z.eqb_spec j c) as [->|Hjc].
           ++ rewrite lookup_app_l by lia. rewrite last_lookup in Hlast. replace (Z.to_nat c) with (pred (length l)) by lia. rewrite Hlast. cbn. unfold hash_of. by rewrite Hy.
           ++ unfold leaf_of. by rewrite lookup_app_l by lia.
        -- intros j Hj. unfold key_of. by rewrite lookup_app_l by lia.
      * unfold m in Hk. rewrite lookup_insert_ne in Hk by done. eapply mmr_data_core; [exact Em|done|]. by apply Hd.
    + intros k z Hk Hrz HkF Hhz. destruct (decide (k = row)) as [->|Hk']; unfold m in Hk; [rewrite lookup_insert_eq in Hk; injection Hk as <-; by eexists|]. rewrite lookup_insert_ne in Hk by done. apply (Hh k z Hk Hrz); [by apply not_pending|done].
  - intros i Hi. eapply chain_elems; [done|done|done| |lia]. intros q z Hq Hz Hhz. destruct (Hl q Hq) as (HqF & z' & Hz' & Hrz & _). rewrite Hz in Hz'. injection Hz' as <-. by apply (Hh q z).
  - done.
  - done.
  - lia.
  - intros Hc0. unfold key_of. replace (Z.to_nat (c - 1 + 1)) with (pred (length l)) by lia. by rewrite <- last_lookup, Hlast.
Qed.
End build.

(** ** Reachability spreads *)
Lemma iterM_app {A} (f : TreeDb -> A -> option TreeDb) l1 l2 db : iterM f db (l1 ++ l2) = db ← iterM f db l1; iterM f db l2.
Proof. revert db. induction l1 as [|x l1 IH]; intros db; cbn [iterM app]; [done|]. destruct (f db x); cbn [mbind option_bind]; [apply IH|done]. Qed.

Lemma iterM_fmap {A B} (f : TreeDb -> A -> option TreeDb) (g : B -> A) l db : iterM (fun db x => f db (g x)) db l = iterM f db (g <$> l).
Proof. revert db. induction l as [|x l IH]; intros db; cbn [iterM fmap list_fmap]; [done|]. destruct (f db (g x)); cbn [mbind option_bind]; [apply IH|done]. Qed.

Definition flip (x : StateRow) : StateRow := set_flags (Z.lxor (st_Flags x) Reachable) x.

Lemma flip_ok x : flag_ok (st_Flags x) -> core (flip x) = core x /\ has Reachable (flip x) = negb (has Reachable x) /\ flag_ok (st_Flags (flip x)).
Proof.
  intros Hf. destruct (bits_flip_rc _ Hf) as [H1 H2]. unfold bits in H2. injection H2 as E1 E2 E3. split; [|split; [exact E2|exact H1]]. unfold core, flip, has in *. cbn [set_flags st_Full st_Hash st_RowPrev st_CountNext st_CountNextF st_Flags] in *. by rewrite E1, E3.
Qed.

Lemma iter_flags L : forall db, NoDup L.*1 -> (forall k y, (k, y) ∈ L -> td_States db !! k = Some y) ->
  exists m1, iterM (fun db x => SetFlags db x.1 (Z.lxor (st_Flags x.2) Reachable)) db L = Some (with_states m1 db) /\
    forall k, m1 !! k = if decide (k ∈ L.*1) then flip <$> td_States db !! k else td_States db !! k.
Proof.
  induction L as [|[k0 y0] L IH]; intros db Hnd HL; cbn [iterM].
  - exists (td_States db). split; [by destruct db|]. intros k. by rewrite decide_False by apply not_elem_of_nil.
  - rewrite fmap_cons in *. apply NoDup_cons in Hnd as [Hn Hnd]. cbn [fst snd] in *. assert (td_States db !! k0 = Some y0) as Hk0 by (apply HL; by left).
    assert (SetFlags db k0 (Z.lxor (st_Flags y0) Reachable) = Some (with_states (<[k0 := flip y0]> (td_States db)) db)) as -> by (unfold SetFlags, update1; by rewrite Hk0). cbn [mbind option_bind].
    destruct (IH (with_states (<[k0 := flip y0]> (td_States db)) db) Hnd) as (m1 & E & Hm1).
    { intros k y Hin. cbn. rewrite lookup_insert_ne; [apply HL; by right|]. intros ->. apply Hn. apply list_elem_of_fmap. by exists (k, y). }
    exists m1. split; [exact E|]. intros k. rewrite Hm1. cbn [with_states td_States]. destruct (decide (k = k0)) as [->|Hne].
    + rewrite decide_False by done. rewrite lookup_insert_eq, (decide_True (P := k0 ∈ k0 :: _)) by (by left). by rewrite Hk0.
    + rewrite lookup_insert_ne by done. destruct (decide (k ∈ L.*1)) as [Hin|Hin]; [by rewrite decide_True by (by right)|]. rewrite decide_False; [done|]. by intros [|]%elem_of_cons.
Qed.

Definition tree_same (db db' : TreeDb) : Prop := core <$> td_States db = core <$> td_States db' /\ td_Tips db' = td_Tips db /\ td_Cursor db' = td_Cursor db.

Lemma tree_same_trans a b c : tree_same a b -> tree_same b c -> tree_same a c.
Proof. intros (H1 & H2 & H3) (G1 & G2 & G3). split; [by rewrite H1|]. split; congruence. Qed.

Section spread.
Context (sha256 : list Z -> list Z) (r : Rules).
Context (scan : States -> list (Z * StateRow)) (scan_ok : forall m, scan m ≡ₚ map_to_list m) (b : bool).

(** The rows of [F] wait. *)
Record pending (F : gset Z) (db : TreeDb) : Prop := {
  pe_shape : shape_ok sha256 r (td_States db);
  pe_counts : counts_ok db;
  pe_reach : reach_ok F db;
  pe_mmr : mmr_ok sha256 F (td_States db);
  pe_flag k y : k ∈ F -> td_States db !! k = Some y -> has Reachable y = b
}.

(** What a step keeps. *)
Definition spread (db db' : TreeDb) : Prop := tree_same db db'.

Definition tall (h : Z) (db : TreeDb) : Z := count (fun y => h <? st_Height y) (td_States db).

Lemma tall_same h db db' : tree_same db db' -> tall h db' = tall h db.
Proof. intros (E & _). unfold tall. pose proof (count_core (td_States db) (td_States db') (fun c : Core => h <? s_Height c.1.1.1.1.1.1) E) as H. symmetry. exact H. Qed.

Lemma tall_less h db k x : td_States db !! k = Some x -> st_Height x = h + 1 -> tall (h + 1) db < tall h db.
Proof.
  intros Hk Hh. unfold tall. rewrite <- (insert_delete_id _ k x Hk). rewrite !count_insert_new by apply lookup_delete_eq. rewrite (proj2 (Z.ltb_ge (h + 1) _)), (proj2 (Z.ltb_lt h _)) by lia. cbn [Z.b2z].
  assert (count (fun y => h + 1 <? st_Height y) (delete k (td_States db)) <= count (fun y => h <? st_Height y) (delete k (td_States db))); [|lia]. apply count_mono. intros q y _ H. apply Z.ltb_lt in H. apply Z.ltb_lt. lia.
Qed.

Definition kids (m : States) (row h : Z) : list (Z * StateRow) :=
  select scan m (fun x => bool_decide (st_Height x = h /\ st_RowPrev x = Some row) && has Functional x).

Lemma kids_elem m row x k y : shape_ok sha256 r m -> m !! row = Some x -> (k, y) ∈ kids m row (st_Height x + 1) <-> m !! k = Some y /\ st_RowPrev y = Some row /\ has Functional y = true.
Proof.
  intros Hm Hx. unfold kids. rewrite (select_elem scan scan_ok), andb_true_iff, bool_decide_eq_true. split; [tauto|]. intros (Hk & Hp & Hf). split_and!; [done| |done|done].
  destruct (prev_row sha256 r m Hm k y row Hk Hp) as (x' & Hx' & Hh & _). rewrite Hx in Hx'. injection Hx' as <-. lia.
Qed.

(** The functional rows that follow a pending row still have the old flag. *)
Lemma kids_flag F db row x k y : pending (F ∪ {[row]}) db -> td_States db !! row = Some x -> (k, y) ∈ kids (td_States db) row (st_Height x + 1) -> has Reachable y = negb b.
Proof.
  intros [Hm Hc Hr _ Hf] Hx Hin. apply (kids_elem _ _ x) in Hin as (Hk & Hp & Hfn); [|done|done]. rewrite (re_flag _ _ Hr k y Hk), Hfn. unfold up_view, view. rewrite Hp, Hx.
  destruct (prev_row sha256 r _ Hm k y row Hk Hp) as (x' & Hx' & Hh & _). rewrite Hx in Hx'. injection Hx' as <-. pose proof (sh_row _ _ _ Hm row x Hx). rewrite bool_decide_eq_false_2 by lia.
  rewrite bool_decide_eq_true_2 by (apply elem_of_union; right; by apply elem_of_singleton). rewrite (Hf row x) by (try done; apply elem_of_union; right; by apply elem_of_singleton). by destruct b.
Qed.

Lemma in_pending (F : gset Z) (L : list Z) k : k ∈ F ∪ list_to_set L <-> k ∈ F \/ k ∈ L.
Proof. by rewrite elem_of_union, elem_of_list_to_set. Qed.

Lemma flip_step F db row x m1 : pending (F ∪ {[row]}) db -> mmr_ok sha256 F (td_States db) -> row ∉ F -> td_States db !! row = Some x ->
  (forall k, m1 !! k = if decide (k ∈ (kids (td_States db) row (st_Height x + 1)).*1) then flip <$> td_States db !! k else td_States db !! k) ->
  kids (td_States db) row (st_Height x + 1) <> [] ->
  pending (F ∪ list_to_set (kids (td_States db) row (st_Height x + 1)).*1) (with_states m1 db) /\ tree_same db (with_states m1 db).
Proof.
  intros Hp Hmmr HrF Hx Hm1 Hne. pose proof (kids_flag F db row x) as Hkf. pose proof Hp as [Hm Hc Hr _ Hf]. set (L := kids (td_States db) row (st_Height x + 1)) in *.
  assert (forall k, k ∈ L.*1 <-> exists y, td_States db !! k = Some y /\ st_RowPrev y = Some row /\ has Functional y = true) as HL.
  { intros k. rewrite list_elem_of_fmap. split; [intros ([k' y] & -> & Hin); exists y; by apply (kids_elem _ row x k' y Hm Hx)|]. intros (y & Hy). exists (k, y). split; [done|]. by apply (kids_elem _ row x k y Hm Hx). }
  assert (forall k y, k ∈ L.*1 -> td_States db !! k = Some y -> has Reachable y = negb b) as HLb.
  { intros k y ([k' y'] & -> & Hin)%list_elem_of_fmap Hy. cbn in Hy. pose proof Hin as Hin'. apply (kids_elem _ row x k' y' Hm Hx) in Hin' as [Hk _]. rewrite Hk in Hy. injection Hy as <-. by apply (Hkf k' y' Hp Hx). }
  assert (row ∉ L.*1) as HrL by (intros (y & Hy & Hp' & _)%HL; destruct (prev_row sha256 r _ Hm row y row Hy Hp') as (_ & _ & _ & _ & Hn); done).
  assert (forall k, k ∈ L.*1 -> k ∉ F) as HLF by (intros k Hk HkF; pose proof Hk as (y & Hy & _)%HL; pose proof (HLb k y Hk Hy) as E1; rewrite (Hf k y (elem_of_union_l _ _ _ HkF) Hy) in E1; by destruct b).
  assert (forall k z, m1 !! k = Some z -> exists y, td_States db !! k = Some y /\ core z = core y /\ st_Mmr z = st_Mmr y /\ flag_ok (st_Flags z) /\ has Reachable z = if decide (k ∈ L.*1) then b else has Reachable y) as Hback.
  { intros k z Hz. rewrite Hm1 in Hz. destruct (decide (k ∈ L.*1)) as [Hin|Hin].
    - destruct (td_States db !! k) as [y|] eqn:Hy; [|done]. injection Hz as <-. exists y. destruct (flip_ok y ltac:(apply (sh_row _ _ _ Hm k y Hy))) as (E1 & E2 & E3). rewrite (HLb k y Hin Hy), negb_involutive in E2. by split_and!.
    - exists z. split_and!; [done|done|done| |done]. apply (sh_row _ _ _ Hm k z Hz). }
  assert (core <$> td_States db = core <$> m1) as Ecore.
  { apply map_eq. intros k. rewrite !lookup_fmap, Hm1. destruct (decide (k ∈ L.*1)); [|done]. destruct (td_States db !! k) as [y|] eqn:Hy; [|done]. cbn. destruct (flip_ok y ltac:(apply (sh_row _ _ _ Hm k y Hy))) as (E1 & _). by rewrite E1. }
  assert (forall k, m1 !! k = None <-> td_States db !! k = None) as HNone by (intros k; rewrite Hm1; destruct (decide _); [by rewrite fmap_None|done]).
  (* the view of a row other than [row] is as before *)
  assert (forall p, p <> row -> view (F ∪ list_to_set L.*1) m1 p = view (F ∪ {[row]}) (td_States db) p) as Hview.
  { intros p Hpr. unfold view. destruct (m1 !! p) as [z|] eqn:Hz; [|apply HNone in Hz; by rewrite Hz]. destruct (Hback p z Hz) as (y & Hy & _ & _ & _ & Er). rewrite Hy, Er. destruct (decide (p ∈ L.*1)) as [Hin|Hin].
    - rewrite (HLb p y Hin Hy). rewrite bool_decide_eq_true_2 by (apply in_pending; by right). rewrite bool_decide_eq_false_2 by (apply not_pending; [by apply HLF|done]). by destruct b.
    - f_equal. apply bool_decide_ext. rewrite in_pending, elem_of_union, elem_of_singleton. tauto. }
  split; [|split; [done|done]]. split; cbn [with_states td_States].
  - eapply shape_core; [exact Ecore| |exact Hm]. intros k z Hz. by destruct (Hback k z Hz) as (? & _ & _ & _ & ? & _).
  - eapply counts_core; [exact Ecore|done|done].
  - split; cbn [with_states td_States td_TipsReachable].
    + intros k z Hz. destruct (Hback k z Hz) as (y & Hy & Ec & _ & _ & Er). apply core_fields in Ec as (Ef & _ & Ep & _ & _ & Efn & _). rewrite Er, Efn. unfold up_view. rewrite Ef, Ep. destruct (decide (k ∈ L.*1)) as [Hin|Hin].
      * pose proof Hin as (y' & Hy' & Hp' & Hfn)%HL. rewrite Hy in Hy'. injection Hy' as <-. rewrite Hp', Hfn. destruct (prev_row sha256 r _ Hm k y row Hy Hp') as (x' & Hx' & Hh & _). rewrite Hx in Hx'. injection Hx' as <-. pose proof (sh_row _ _ _ Hm row x Hx).
        rewrite bool_decide_eq_false_2 by lia. unfold view. rewrite Hm1, decide_False, Hx by done. rewrite bool_decide_eq_false_2 by (rewrite in_pending; tauto). rewrite (Hf row x) by (try done; apply elem_of_union; right; by apply elem_of_singleton). by destruct b.
      * rewrite (re_flag _ _ Hr k y Hy). unfold up_view. destruct (st_RowPrev y) as [p|] eqn:Ep'; [|done]. destruct (decide (p = row)) as [->|Hpr]; [|by rewrite Hview].
        destruct (has Functional y) eqn:Efn'; [|done]. exfalso. apply Hin, HL. by exists y.
    + intros k w. rewrite (re_tips _ _ Hr). split; intros (y & Hy & -> & Hn & Hv).
      * destruct (decide (k = row)) as [->|Hkr].
        { rewrite Hx in Hy. injection Hy as <-. exfalso. rewrite (co_nextF _ Hc row x Hx) in Hn. pose proof (proj1 (count_0 _ _) Hn) as H0. destruct L as [|[k y] L'] eqn:EL; [done|]. destruct (proj1 (HL k)) as (y' & Hy' & Hp' & Hfn); [by left|].
          specialize (H0 k y' Hy'). unfold kid in H0. rewrite bool_decide_eq_true_2, Hfn in H0 by done. done. }
        destruct (fmap_lookup_eq core _ m1 k y Ecore Hy) as (z & Hz & Ec). apply core_fields in Ec as (Ef & _ & _ & _ & En & _). exists z. rewrite Ef, En, Hview by done. done.
      * destruct (Hback k y Hy) as (z & Hz & Ec & _ & _ & _). apply core_fields in Ec as (Ef & _ & _ & _ & En & _). exists z. rewrite <- Ef, <- En. split_and!; [done|done|done|].
        destruct (decide (k = row)) as [->|Hkr]; [|by rewrite <- Hview]. exfalso. rewrite En, (co_nextF _ Hc row z Hz) in Hn. pose proof (proj1 (count_0 _ _) Hn) as H0. destruct L as [|[k y'] L'] eqn:EL; [done|].
        destruct (proj1 (HL k)) as (y2 & Hy2 & Hp' & Hfn); [by left|]. specialize (H0 k y2 Hy2). unfold kid in H0. rewrite bool_decide_eq_true_2, Hfn in H0 by done. done.
  - destruct Hmmr as [Hd Hh]. split.
    + intros k z d Hz Hzd. destruct (Hback k z Hz) as (y & Hy & Ec & Em & _). eapply mmr_data_core; [exact Ecore|exact Ec|]. apply Hd; [done|]. by rewrite <- Em.
    + intros k z Hz Hrz HkF Hhz. destruct (Hback k z Hz) as (y & Hy & Ec & Em & _ & Er). rewrite in_pending in HkF. rewrite decide_False in Er by tauto. apply core_fields in Ec as (Ef & _). rewrite Em. apply (Hh k y); [done|congruence|tauto|by rewrite <- Ef].
  - intros k z Hin Hz. destruct (Hback k z Hz) as (y & Hy & _ & _ & _ & Er). rewrite Er. apply in_pending in Hin as [Hin|Hin]; [|by rewrite decide_True]. rewrite decide_False by (intros Hk; by apply (HLF k)). apply (Hf k y); [by apply elem_of_union_l|done].
Qed.

(** A row without functional rows after it. *)
Lemma last_step F db row x : pending (F ∪ {[row]}) db -> mmr_ok sha256 F (td_States db) -> row ∉ F -> td_States db !! row = Some x -> kids (td_States db) row (st_Height x + 1) = [] ->
  exists t, (if b then TipReachableAdd db row else TipReachableDel db row) = Some (with_reachable t db) /\ pending F (with_reachable t db).
Proof.
  intros [Hm Hc Hr _ Hf] Hmmr HrF Hx Hk. assert (row ∈ F ∪ {[row]}) as Hin by (apply elem_of_union; right; by apply elem_of_singleton).
  assert (st_CountNextF x = 0) as Hn.
  { rewrite (co_nextF _ Hc row x Hx). apply count_0. intros k y Hy. unfold kid. destruct (has Functional y) eqn:Ef; [|apply andb_false_r]. rewrite andb_true_r. apply bool_decide_eq_false_2. intros Hp.
    assert ((k, y) ∈ kids (td_States db) row (st_Height x + 1)) as H by (by apply (kids_elem _ row x k y Hm Hx)). rewrite Hk in H. by apply elem_of_nil in H. }
  assert (has Reachable x = b) as Hb by (by apply (Hf row x)).
  assert (forall p, p <> row -> view F (td_States db) p = view (F ∪ {[row]}) (td_States db) p) as Hview.
  { intros p Hpr. unfold view. destruct (td_States db !! p); [|done]. f_equal. apply bool_decide_ext. rewrite elem_of_union, elem_of_singleton. tauto. }
  assert (view F (td_States db) row = b) as Hv by (unfold view; rewrite Hx, Hb, bool_decide_eq_false_2 by done; by destruct b).
  assert (view (F ∪ {[row]}) (td_States db) row = negb b) as Hv' by (unfold view; rewrite Hx, Hb, bool_decide_eq_true_2 by done; by destruct b).
  assert (forall t, (forall k w, t !! k = Some w <-> exists y, td_States db !! k = Some y /\ w = s_ChainWork (st_Full y) /\ st_CountNextF y = 0 /\ view F (td_States db) k = true) -> pending F (with_reachable t db)) as Hfin.
  { intros t Ht. split; cbn [with_reachable td_States]; [done|by destruct Hc|split; [|exact Ht]|done|intros k y HkF Hy; apply (Hf k y); [by apply elem_of_union_l|done]].
    intros k y Hy. cbn [with_reachable td_States] in *. rewrite (re_flag _ _ Hr k y Hy). unfold up_view. destruct (has Functional y) eqn:Efn; [|done]. destruct (st_RowPrev y) as [p|] eqn:Ep; [|done]. rewrite Hview; [done|].
    intros ->. assert ((k, y) ∈ kids (td_States db) row (st_Height x + 1)) as H by (by apply (kids_elem _ row x k y Hm Hx)). rewrite Hk in H. by apply elem_of_nil in H. }
  destruct (td_TipsReachable db !! row) as [w0|] eqn:Et; pose proof (re_tips _ _ Hr row) as Htips; destruct b eqn:Eb; cbn [negb] in Hv'; unfold TipReachableAdd, TipReachableDel, get_ChainWork.
  - apply (Htips w0) in Et as (y & Hy & _ & _ & Hvv). congruence.
  - rewrite Et. eexists. split; [reflexivity|]. apply Hfin. intros k w. destruct (decide (k = row)) as [->|Hne].
    + rewrite lookup_delete_eq. split; [done|]. intros (y & _ & _ & _ & H). congruence.
    + rewrite lookup_delete_ne, (re_tips _ _ Hr) by done. by rewrite Hview.
  - rewrite Hx. cbn [mbind option_bind]. rewrite Et. eexists. split; [reflexivity|]. apply Hfin. intros k w. destruct (decide (k = row)) as [->|Hne].
    + rewrite lookup_insert_eq. split; [intros [= <-]; by exists x|]. intros (y & Hy & -> & _). congruence.
    + rewrite lookup_insert_ne, (re_tips _ _ Hr) by done. by rewrite Hview.
  - exfalso. assert (td_TipsReachable db !! row = Some (s_ChainWork (st_Full x))) as H by (apply Htips; by exists x). congruence.
Qed.

(** A row whose flag is clear needs no history. *)
Lemma mmr_drop F db row x : b = false -> pending (F ∪ {[row]}) db -> td_States db !! row = Some x -> mmr_ok sha256 F (td_States db).
Proof.
  intros Eb [_ _ _ [Hd Hh] Hf] Hx. split; [done|]. intros k y Hk Hr HkF Hhy. apply (Hh k y); [done|done| |done]. apply not_pending; [done|]. intros ->. rewrite (Hf row y) in Hr; [congruence|apply elem_of_union; right; by apply elem_of_singleton|done].
Qed.

(** The first part of a round. *)
Lemma build_step F db row x : pending (F ∪ {[row]}) db -> row ∉ F -> td_States db !! row = Some x ->
  exists db', (if b then BuildMmr sha256 db row (default 0 (st_RowPrev x)) (st_Height x) else Some db) = Some db' /\ tree_same db db' /\ pending (F ∪ {[row]}) db' /\ mmr_ok sha256 F (td_States db') /\
    exists x', td_States db' !! row = Some x' /\ core x' = core x.
Proof.
  intros Hp HrF Hx. pose proof Hp as [Hm Hc Hr Hmm Hf]. destruct b eqn:Eb.
  - destruct (BuildMmr_ok sha256 r F db row x Hm Hr Hmm Hf HrF Hx) as (m & E & Efl & Hfl & Hmm'). pose proof (flagged_core _ _ Efl) as Ec. eexists. split; [exact E|]. split; [done|].
    assert (forall p, view (F ∪ {[row]}) m p = view (F ∪ {[row]}) (td_States db) p) as Hview.
    { intros p. unfold view. pose proof (f_equal (lookup p) Efl) as Ep. rewrite !lookup_fmap in Ep. destruct (td_States db !! p), (m !! p); cbn in Ep; try done. apply (f_equal (fmap snd)) in Ep. cbn in Ep. by injection Ep as ->. }
    split; [split; cbn [with_states td_States]|].
    + by eapply shape_core.
    + by eapply counts_core.
    + split; cbn [with_states td_States td_TipsReachable].
      * intros k z Hz. destruct (fmap_lookup_eq flagged m _ k z (eq_sym Efl) Hz) as (y & Hy & E'). pose proof (f_equal snd E') as E8. apply (f_equal fst), core_fields in E' as (E1 & _ & E3 & _ & _ & E6 & _). cbn in E8. rewrite <- E8, <- E6. rewrite (re_flag _ _ Hr k y Hy). unfold up_view. rewrite E1, E3. by destruct (st_RowPrev z); rewrite ?Hview.
      * intros k w. rewrite (re_tips _ _ Hr), Hview. split; intros (y & Hy & -> & Hn & Hv).
        -- destruct (fmap_lookup_eq core _ m k y Ec Hy) as (z & Hz & E'). apply core_fields in E' as (Ef & _ & _ & _ & En & _). exists z. by rewrite Ef, En.
        -- destruct (fmap_lookup_eq core m _ k y (eq_sym Ec) Hy) as (z & Hz & E'). apply core_fields in E' as (Ef & _ & _ & _ & En & _). exists z. by rewrite Ef, En.
    + destruct Hmm' as [Hd Hh]. split; [done|]. intros k z Hz Hrz HkF. apply (Hh k z Hz Hrz). intros H. apply HkF. by apply elem_of_union_l.
    + intros k z Hin Hz. destruct (fmap_lookup_eq flagged m _ k z (eq_sym Efl) Hz) as (y & Hy & E'). apply (f_equal snd) in E'. cbn in E'. rewrite <- E'. rewrite ?Eb. by apply (Hf k y).
    + split; [done|]. cbn [with_states td_States]. by apply (fmap_lookup_eq core (td_States db)).
  - exists db. split; [done|]. split; [done|]. split; [done|]. split; [by eapply mmr_drop|]. by exists x.
Qed.

Definition reaches (fuel : nat) : Prop := forall F db row x, pending (F ∪ {[row]}) db -> row ∉ F -> td_States db !! row = Some x -> tall (st_Height x) db < Z.of_nat fuel ->
  exists db', OnStateReachable sha256 scan fuel db row (default 0 (st_RowPrev x)) (st_Height x) b = Some db' /\ tree_same db db' /\ pending F db'.

(** The rows after a row, one after the other. *)
Lemma reaches_list fuel row h : reaches fuel -> 0 < h < 2 ^ 62 -> forall (L : list Z) F db, NoDup L -> (forall k, k ∈ L -> k ∉ F) -> pending (F ∪ list_to_set L) db -> tall (h + 1) db < Z.of_nat fuel ->
  (forall k, k ∈ L -> exists y, td_States db !! k = Some y /\ st_Height y = h + 1 /\ st_RowPrev y = Some row) ->
  exists db', iterM (fun db k => OnStateReachable sha256 scan fuel db k row (u64 (h + 1)) b) db L = Some db' /\ tree_same db db' /\ pending F db'.
Proof.
  intros IH Hh L. induction L as [|k L IHL]; intros F db Hnd HF Hp Ht HL; cbn [iterM].
  - exists db. split; [done|]. split; [done|]. destruct Hp as [H1 H2 H3 H4 H5]. assert (F ∪ list_to_set [] = F) as E by (apply union_empty_r_L). rewrite E in *. done.
  - apply NoDup_cons in Hnd as [Hk Hnd]. destruct (HL k) as (y & Hy & Hhy & Hpy); [by left|]. assert (F ∪ list_to_set (k :: L) = (F ∪ list_to_set L) ∪ {[k]}) as E by (rewrite list_to_set_cons, <- union_assoc_L; f_equal; by rewrite union_comm_L).
    rewrite E in Hp. destruct (IH _ db k y Hp) as (db1 & E1 & Hs1 & Hp1); [|done|rewrite Hhy; lia|].
    { rewrite in_pending. intros [H|H]; [|done]. apply (HF k); [by left|done]. }
    rewrite Hhy, Hpy in E1. change (default 0 (Some row)) with row in E1. rewrite (wrap_small 64 (h + 1)) in * by (unfold in_width; lia). rewrite E1. cbn [mbind option_bind].
    destruct (IHL F db1 Hnd) as (db2 & E2 & Hs2 & Hp2); [intros q Hq; apply HF; by right|done|by rewrite (tall_same _ _ _ Hs1)| |].
    + intros q Hq. destruct (HL q) as (z & Hz & Hhz & Hpz); [by right|]. destruct Hs1 as (Ec & _). destruct (fmap_lookup_eq core _ _ q z Ec Hz) as (z' & Hz' & Ez). apply core_fields in Ez as (Ef & _ & Ep & _). exists z'. by rewrite Ef, Ep.
    + exists db2. split; [done|]. split; [by eapply tree_same_trans|done].
Qed.

Lemma OnStateReachable_ok fuel : reaches fuel.
Proof.
  induction fuel as [|fuel IH]; intros F db row x Hp HrF Hx Ht; [pose proof (count_nonneg (fun y => st_Height x <? st_Height y) (td_States db)); unfold tall in Ht; lia|].
  cbn [OnStateReachable]. destruct (build_step F db row x Hp HrF Hx) as (db1 & E1 & Hs1 & Hp1 & Hmm & x1 & Hx1 & Ec1). rewrite E1. cbn [mbind option_bind].
  apply core_fields in Ec1 as (Ef1 & _). pose proof (sh_row _ _ _ (pe_shape _ _ Hp1) row x1 Hx1) as (_ & Hh & _). rewrite <- Ef1 in *. rewrite (wrap_small 64 (st_Height x1 + 1)) by (unfold in_width; lia).
  fold (kids (td_States db1) row (st_Height x1 + 1)). set (L := kids (td_States db1) row (st_Height x1 + 1)).
  assert (forallb (fun x0 : Z * StateRow => eqb (negb (has Reachable x0.2)) b) L = true) as ->.
  { apply forallb_forall. intros [k y] Hin%list_elem_of_In. cbn [snd]. rewrite (kids_flag F db1 row x1 k y Hp1 Hx1 Hin), negb_involutive. apply eqb_reflx. }
  cbn [negb]. destruct L as [|[k0 y0] L'] eqn:EL.
  { destruct (last_step F db1 row x1 Hp1 Hmm HrF Hx1 EL) as (t & -> & Hp2). eexists. split; [reflexivity|]. split; [|done]. by eapply tree_same_trans. }
  destruct (iter_flags L db1) as (m1 & E2 & Hm1); [apply (select_NoDup scan scan_ok)|intros k y Hin; by apply (select_elem scan scan_ok) in Hin as [? _]|]. rewrite EL in E2. rewrite E2. cbn [mbind option_bind].
  destruct (flip_step F db1 row x1 m1 Hp1 Hmm HrF Hx1) as [Hp2 Hs2]; [exact Hm1|change (L <> []); by rewrite EL|]. fold L in Hp2.
  assert (NoDup L.*1) as Hnd by apply (select_NoDup scan scan_ok). rewrite EL in Hnd, Hp2. cbn [fmap list_fmap fst] in Hnd, Hp2. apply NoDup_cons in Hnd as [Hk0 Hnd].
  assert (forall k, k ∈ k0 :: L'.*1 -> exists y, td_States db1 !! k = Some y /\ st_Height y = st_Height x1 + 1 /\ st_RowPrev y = Some row /\ k ∉ F) as HLk.
  { intros k Hin. assert (exists y, (k, y) ∈ L) as (y & Hy) by (rewrite EL; change (k0 :: L'.*1) with (((k0, y0) :: L').*1) in Hin; apply list_elem_of_fmap in Hin as ([k' y] & -> & Hin); by exists y).
    pose proof (kids_flag F db1 row x1 k y Hp1 Hx1 Hy) as Hneg. apply (kids_elem _ row x1 k y (pe_shape _ _ Hp1) Hx1) in Hy as (Hky & Hpy & _). exists y.
    destruct (prev_row sha256 r _ (pe_shape _ _ Hp1) k y row Hky Hpy) as (x' & Hx' & Hhy & _). rewrite Hx1 in Hx'. injection Hx' as <-. split_and!; [done|lia|done|].
    intros HkF. rewrite (pe_flag _ _ Hp1 k y (elem_of_union_l _ _ _ HkF) Hky) in Hneg. by destruct b. }
  destruct (reaches_list fuel row (st_Height x1) IH ltac:(lia) (L'.*1 ++ [k0]) F (with_states m1 db1)) as (db3 & E3 & Hs3 & Hp3).
  - apply NoDup_app. split; [done|]. split; [intros k Hk ->%list_elem_of_singleton; done|apply NoDup_singleton].
  - intros k Hk. apply elem_of_app in Hk. destruct (HLk k) as (_ & _ & _ & _ & H); [|exact H]. destruct Hk as [Hk| ->%list_elem_of_singleton]; [by right|by left].
  - assert (list_to_set (L'.*1 ++ [k0]) = (list_to_set (k0 :: L'.*1) : gset Z)) as ->; [|done]. apply leibniz_equiv. intros k. rewrite !elem_of_list_to_set, elem_of_app, !elem_of_cons. pose proof (not_elem_of_nil k). tauto.
  - rewrite (tall_same _ db1 (with_states m1 db1) Hs2). destruct (HLk k0) as (y & Hy & Hhy & _); [by left|]. pose proof (tall_less _ db1 k0 y Hy Hhy). pose proof (tall_same (st_Height x1) db db1 Hs1). lia.
  - intros k Hk. apply elem_of_app in Hk. destruct (HLk k) as (y & Hy & Hhy & Hpy & _); [destruct Hk as [Hk| ->%list_elem_of_singleton]; [by right|by left]|]. destruct Hs2 as (Ec & _).
    destruct (fmap_lookup_eq core _ _ k y Ec Hy) as (z' & Hz' & Ez). apply core_fields in Ez as (Ef & _ & Ep & _). exists z'. by rewrite Ef, Ep.
  - rewrite iterM_app, <- (iterM_fmap _ fst) in E3. rewrite (wrap_small 64 (st_Height x1 + 1)) in E3 by (unfold in_width; lia).
    destruct (iterM _ (with_states m1 db1) L') as [db2|]; cbn [mbind option_bind] in E3 |- *; [|done]. cbn [iterM] in E3. destruct (OnStateReachable _ _ fuel db2 k0 row (st_Height x1 + 1) b) as [db4|]; cbn [mbind option_bind] in E3; [|done]. injection E3 as ->.
    exists db3. split; [done|]. split; [|done]. eapply tree_same_trans; [exact Hs1|]. by eapply tree_same_trans.
Qed.

Lemma OnReachable_ok F db row x : pending (F ∪ {[row]}) db -> row ∉ F -> td_States db !! row = Some x ->
  exists db', OnReachable sha256 scan db row (default 0 (st_RowPrev x)) (st_Height x) b = Some db' /\ tree_same db db' /\ pending F db'.
Proof. intros Hp HrF Hx. apply OnStateReachable_ok; [done|done|done|]. unfold tall. pose proof (count_size (fun y => st_Height x <? st_Height y) (td_States db)). lia. Qed.
End spread.

(** ** The operations *)
Definition act_ok (db : TreeDb) : Prop :=
  exists l, (td_Cursor db = (0, 0) /\ l = [] \/ Chain (td_States db) (td_Cursor db).1 l /\ (td_Cursor db).2 = Z.of_nat (length l)) /\
    forall k x, td_States db !! k = Some x -> has Active x = bool_decide (k ∈ l).

Lemma act_linked db db' : linked <$> td_States db = linked <$> td_States db' -> (forall k x x', td_States db !! k = Some x -> td_States db' !! k = Some x' -> has Active x' = has Active x) ->
  td_Cursor db' = td_Cursor db -> act_ok db -> act_ok db'.
Proof.
  intros E Ha Ec (l & Hc & Hl). exists l. rewrite Ec. split; [destruct Hc as [|[Hc Hh]]; [by left|right; split; [by eapply Chain_linked|done]]|].
  intros k x' Hk. destruct (fmap_lookup_eq linked _ _ k x' (eq_sym E) Hk) as (x & Hx & _). rewrite (Ha k x x') by done. by apply Hl.
Qed.

Section ops.
Context (sha256 : list Z -> list Z) (r : Rules).
Context (scan : States -> list (Z * StateRow)) (scan_ok : forall m, scan m ≡ₚ map_to_list m).

Record tree_ok (db : TreeDb) : Prop := {
  to_shape : shape_ok sha256 r (td_States db);
  to_counts : counts_ok db;
  to_reach : reach_ok ∅ db;
  to_mmr : mmr_ok sha256 ∅ (td_States db);
  to_act : act_ok db
}.

Lemma pending_done b db : pending sha256 r b ∅ db -> act_ok db -> tree_ok db.
Proof. intros [H1 H2 H3 H4 _] H5. by split. Qed.

Lemma bits_has x fn rc ac : bits (st_Flags x) = (fn, rc, ac) -> has Functional x = fn /\ has Reachable x = rc /\ has Active x = ac.
Proof. unfold bits. intros E. injection E as E1 E2 E3. done. Qed.

(** A row gets another flag, and the row before it another count of functional rows. *)
Definition toggled (m : States) (row : Z) (x : StateRow) (f' : Z) (fn' : bool) : States :=
  <[row := set_flags f' x]> (match st_RowPrev x with
                             | Some p => match m !! p with Some y => <[p := set_nextF (st_CountNextF y + Z.b2z fn' - Z.b2z (has Functional x)) y]> m | None => m end
                             | None => m end).

Lemma toggled_lookup m row x f' fn' : shape_ok sha256 r m -> m !! row = Some x -> forall k, toggled m row x f' fn' !! k =
  (fun y => if decide (k = row) then set_flags f' x else if decide (st_RowPrev x = Some k) then set_nextF (st_CountNextF y + Z.b2z fn' - Z.b2z (has Functional x)) y else y) <$> m !! k.
Proof.
  intros Hm Hx k. unfold toggled. destruct (decide (k = row)) as [->|Hne]; [by rewrite lookup_insert_eq, Hx|]. rewrite lookup_insert_ne by done. destruct (st_RowPrev x) as [p|] eqn:Ep.
  - destruct (prev_row sha256 r m Hm row x p Hx Ep) as (y & Hy & _). rewrite Hy. destruct (decide (Some p = Some k)) as [[= ->]|Hn]; [by rewrite lookup_insert_eq, Hy|]. rewrite lookup_insert_ne by congruence. by destruct (m !! k).
  - by destruct (m !! k).
Qed.

Lemma toggle_ok db row x f' fn' rc' t : tree_ok db -> td_States db !! row = Some x -> flag_ok f' -> bits f' = (fn', rc', has Active x) -> rc' = fn' && up_view ∅ (td_States db) x ->
  let F : gset Z := if xorb (has Reachable x) rc' then {[row]} else ∅ in
  let m' := toggled (td_States db) row x f' fn' in
  (forall k, t !! k = match m' !! k with
                      | Some y => if decide (st_RowPrev x = Some k) then (if (st_CountNextF y =? 0) && view ∅ (td_States db) k then Some (s_ChainWork (st_Full y)) else None) else td_TipsReachable db !! k
                      | None => None end) ->
  pending sha256 r rc' F (mkTree m' (td_Tips db) t (td_Cursor db)) /\ act_ok (mkTree m' (td_Tips db) t (td_Cursor db)).
Proof.
  intros [Hm Hc Hr Hmm Hact] Hx Hfl Hbits Hrc F m' Ht. pose proof (toggled_lookup _ row x f' fn' Hm Hx) as Hlk. fold m' in Hlk. destruct (bits_has (set_flags f' x) _ _ _ Hbits) as (Bf & Br & Ba).
  assert (linked <$> td_States db = linked <$> m') as El.
  { apply map_eq. intros k. rewrite !lookup_fmap, Hlk. destruct (td_States db !! k) as [y|] eqn:Hy; [|done]. cbn. destruct (decide (k = row)) as [->|]; [rewrite Hx in Hy; by injection Hy as <-|]. by destruct (decide _). }
  assert (forall k z, m' !! k = Some z -> exists y, td_States db !! k = Some y /\ linked z = linked y /\ st_Mmr z = st_Mmr y /\ st_CountNext z = st_CountNext y /\ flag_ok (st_Flags z) /\ has Active z = has Active y /\
    (if decide (k = row) then has Functional z = fn' /\ has Reachable z = rc' else has Functional z = has Functional y /\ has Reachable z = has Reachable y) /\
    st_CountNextF z = st_CountNextF y + (if decide (st_RowPrev x = Some k) then Z.b2z fn' - Z.b2z (has Functional x) else 0)) as Hback.
  { intros k z Hz. rewrite Hlk in Hz. destruct (td_States db !! k) as [y|] eqn:Hy; [|done]. injection Hz as <-. exists y. split; [done|]. pose proof (sh_row _ _ _ Hm k y Hy) as (_ & _ & Hfy & _). destruct (decide (k = row)) as [->|].
    - rewrite Hx in Hy. injection Hy as <-. rewrite decide_False by (intros Ep; destruct (prev_row sha256 r _ Hm row x row Hx Ep) as (? & _ & _ & _ & H); done). split_and!; try done. cbn [set_flags st_CountNextF]. lia.
    - destruct (decide (st_RowPrev x = Some k)); split_and!; try done; cbn [set_nextF st_CountNextF]; lia. }
  assert (forall q, view F m' q = view ∅ (td_States db) q) as Hview.
  { intros q. unfold view. destruct (m' !! q) as [z|] eqn:Hz.
    - destruct (Hback q z Hz) as (y & Hy & _ & _ & _ & _ & _ & Hfr & _). rewrite Hy, (bool_decide_eq_false_2 (q ∈ ∅)), xorb_false_r by apply not_elem_of_empty. destruct (decide (q = row)) as [->|Hne].
      + rewrite Hx in Hy. injection Hy as <-. destruct Hfr as [_ ->]. unfold F. destruct (has Reachable x), rc'; cbn [xorb]; first [rewrite bool_decide_eq_true_2 by (by apply elem_of_singleton)|rewrite bool_decide_eq_false_2 by apply not_elem_of_empty]; done.
      + destruct Hfr as [_ ->]. rewrite bool_decide_eq_false_2; [by rewrite xorb_false_r|]. unfold F. destruct (xorb _ _); [by rewrite elem_of_singleton|apply not_elem_of_empty].
    - rewrite Hlk in Hz. by destruct (td_States db !! q). }
  assert (forall k, count (kid k) m' = count (kid k) (td_States db)) as Hkid.
  { intros k. pose (Q := fun c : Full * list Z * option Z => bool_decide (c.2 = Some k)). change (kid k) with (fun y => Q (linked y)). rewrite <- !(count_fmap Q linked). by rewrite El. }
  assert (forall k, count (fun y => kid k y && has Functional y) m' = count (fun y => kid k y && has Functional y) (td_States db) + (if decide (st_RowPrev x = Some k) then Z.b2z fn' - Z.b2z (has Functional x) else 0)) as HkidF.
  { intros k. assert (kid k x = bool_decide (st_RowPrev x = Some k)) as Ekx by done. assert (forall m1, m1 !! row = Some x -> count (fun y => kid k y && has Functional y) (<[row := set_flags f' x]> m1) = count (fun y => kid k y && has Functional y) m1 + (if decide (st_RowPrev x = Some k) then Z.b2z fn' - Z.b2z (has Functional x) else 0)) as H1.
    { intros m1 H1. rewrite (count_insert _ m1 row _ x H1). change (kid k (set_flags f' x)) with (kid k x). rewrite Bf, Ekx. destruct (decide (st_RowPrev x = Some k)); [rewrite bool_decide_eq_true_2 by done|rewrite bool_decide_eq_false_2 by done]; cbn [andb Z.b2z]; lia. }
    unfold m', toggled. destruct (st_RowPrev x) as [p|] eqn:Ep; [|by rewrite H1]. destruct (prev_row sha256 r _ Hm row x p Hx Ep) as (y & Hy & _ & _ & Hpr). rewrite Hy. rewrite H1 by (rewrite lookup_insert_ne by done; exact Hx).
    rewrite (count_insert _ _ p _ y Hy). change (kid k (set_nextF _ y)) with (kid k y). change (has Functional (set_nextF _ y)) with (has Functional y). lia. }
  split; [split; cbn [td_States td_Tips td_TipsReachable]|].
  - eapply shape_linked; [exact El| |exact Hm]. intros k z Hz. by destruct (Hback k z Hz) as (? & _ & _ & _ & _ & ? & _).
  - split; cbn [td_States td_Tips].
    + intros k z Hz. destruct (Hback k z Hz) as (y & Hy & _ & _ & -> & _). rewrite Hkid. by apply (co_next _ Hc).
    + intros k z Hz. destruct (Hback k z Hz) as (y & Hy & _ & _ & _ & _ & _ & _ & ->). rewrite HkidF. by rewrite (co_nextF _ Hc k y Hy).
    + intros h k. rewrite (co_tips _ Hc). split; intros (y & Hy & -> & Hn).
      * destruct (fmap_lookup_eq linked _ m' k y El Hy) as (z & Hz & Ez). apply linked_fields in Ez as (Ef & _). destruct (Hback k z Hz) as (y' & Hy' & _ & _ & En & _). rewrite Hy in Hy'. injection Hy' as <-. exists z. by rewrite Ef, En.
      * destruct (Hback k y Hy) as (z & Hz & Ez & _ & En & _). apply linked_fields in Ez as (Ef & _). exists z. by rewrite <- Ef, <- En.
  - split; cbn [td_States td_TipsReachable].
    + intros k z Hz. destruct (Hback k z Hz) as (y & Hy & Ez & _ & _ & _ & _ & Hfr & _). apply linked_fields in Ez as (Ef & _ & Ep). unfold up_view. rewrite Ef, Ep. assert (match st_RowPrev y with Some p => view F m' p | None => false end = match st_RowPrev y with Some p => view ∅ (td_States db) p | None => false end) as -> by (by destruct (st_RowPrev y)).
      change (has Reachable z = has Functional z && up_view ∅ (td_States db) y). destruct (decide (k = row)) as [->|]; destruct Hfr as [-> ->]; [rewrite Hx in Hy; by injection Hy as <-|by apply (re_flag _ _ Hr k y)].
    + intros k w. rewrite Ht, Hview. destruct (m' !! k) as [z|] eqn:Hz; [|split; [done|by intros (? & ? & _)]]. destruct (Hback k z Hz) as (y & Hy & Ez & _ & _ & _ & _ & _ & En). apply linked_fields in Ez as (Ef & _). destruct (decide (st_RowPrev x = Some k)) as [Ep|Ep].
      * split.
        -- destruct ((st_CountNextF z =? 0) && view ∅ (td_States db) k) eqn:Eb; [|done]. intros [= <-]. apply andb_true_iff in Eb as [E0%Z.eqb_eq Ev]. by exists z.
        -- intros (z' & [= <-] & -> & -> & ->). done.
      * rewrite (re_tips _ _ Hr). split; intros (y' & Hy' & -> & Hn & Hv); [rewrite Hy in Hy'; injection Hy' as <-; exists z; rewrite Ef, En, Z.add_0_r; done|injection Hy' as <-; exists y; rewrite <- Ef; split_and!; [done|done|lia|done]].
  - destruct Hmm as [Hd Hh]. split.
    + intros k z d Hz Hzd. destruct (Hback k z Hz) as (y & Hy & Ez & Em & _). eapply mmr_data_linked; [exact El|exact Ez|]. apply Hd; [done|congruence].
    + intros k z Hz Hrz HkF Hhz. destruct (Hback k z Hz) as (y & Hy & Ez & Em & _ & _ & _ & Hfr & _). apply linked_fields in Ez as (Ef & _). rewrite Em. apply (Hh k y); [done| |apply not_elem_of_empty|by rewrite <- Ef]. destruct (decide (k = row)) as [->|]; [|by destruct Hfr as [_ <-]].
      rewrite Hx in Hy. injection Hy as <-. destruct Hfr as [_ Hfr]. destruct (has Reachable x) eqn:Erx; [done|]. exfalso. apply HkF. unfold F. rewrite Hfr in Hrz. rewrite Hrz. cbn [xorb]. by apply elem_of_singleton.
  - intros k z Hin Hz. destruct (Hback k z Hz) as (y & _ & _ & _ & _ & _ & _ & Hfr & _). unfold F in Hin. destruct (xorb _ _); [|by apply elem_of_empty in Hin]. apply elem_of_singleton in Hin as ->. rewrite decide_True in Hfr by done. apply Hfr.
  - eapply act_linked; [exact El| |done|exact Hact]. cbn [td_States]. intros k y z Hy Hz. destruct (Hback k z Hz) as (y' & Hy' & _ & _ & _ & _ & Ea & _). congruence.
Qed.

Lemma tips_lookup db k : reach_ok ∅ db -> td_TipsReachable db !! k = match td_States db !! k with
  | Some y => if (st_CountNextF y =? 0) && view ∅ (td_States db) k then Some (s_ChainWork (st_Full y)) else None | None => None end.
Proof.
  intros Hr. pose proof (re_tips _ _ Hr k) as Ht. destruct (td_TipsReachable db !! k) as [w|] eqn:E.
  - destruct (proj1 (Ht w) eq_refl) as (y & -> & -> & -> & ->). done.
  - destruct (td_States db !! k) as [y|] eqn:Hy; [|done]. destruct ((st_CountNextF y =? 0) && view ∅ (td_States db) k) eqn:Eb; [|done]. apply andb_true_iff in Eb as [E0%Z.eqb_eq Ev].
    assert (None = Some (s_ChainWork (st_Full y))) as H by (apply Ht; by exists y). done.
Qed.

Lemma view_reach m p y : m !! p = Some y -> view ∅ m p = has Reachable y.
Proof. intros Hy. unfold view. rewrite Hy, bool_decide_eq_false_2 by apply not_elem_of_empty. apply xorb_false_r. Qed.

(** What marking a row as functional or not changes. *)
Definition marked (db db' : TreeDb) (row : Z) (fn : bool) : Prop :=
  linked <$> td_States db = linked <$> td_States db' /\ td_Tips db' = td_Tips db /\ td_Cursor db' = td_Cursor db /\
  forall k x x', td_States db !! k = Some x -> td_States db' !! k = Some x' -> has Functional x' = (if decide (k = row) then fn else has Functional x) /\ has Active x' = has Active x.

Lemma marked_id db row x : td_States db !! row = Some x -> marked db db row (has Functional x).
Proof. intros Hx. split; [done|]. split; [done|]. split; [done|]. intros k y y' Hy Hy'. rewrite Hy in Hy'. injection Hy' as <-. destruct (decide (k = row)) as [->|]; [|done]. rewrite Hx in Hy. by injection Hy as <-. Qed.

(** Both operations, after the flags and the count were changed. *)
Lemma toggle_done db row x f' fn' rc' t : tree_ok db -> td_States db !! row = Some x -> flag_ok f' -> bits f' = (fn', rc', has Active x) -> rc' = fn' && up_view ∅ (td_States db) x ->
  let m' := toggled (td_States db) row x f' fn' in
  (forall k, t !! k = match m' !! k with
                      | Some y => if decide (st_RowPrev x = Some k) then (if (st_CountNextF y =? 0) && view ∅ (td_States db) k then Some (s_ChainWork (st_Full y)) else None) else td_TipsReachable db !! k
                      | None => None end) ->
  exists db', (if xorb (has Reachable x) rc' then OnReachable sha256 scan (mkTree m' (td_Tips db) t (td_Cursor db)) row (default 0 (st_RowPrev x)) (st_Height x) rc' else Some (mkTree m' (td_Tips db) t (td_Cursor db))) = Some db' /\
    tree_ok db' /\ marked db db' row fn'.
Proof.
  intros Hok Hx Hfl Hbits Hrc m' Ht. destruct (toggle_ok db row x f' fn' rc' t Hok Hx Hfl Hbits Hrc Ht) as [Hp Hact]. fold m' in Hp, Hact. set (db1 := mkTree m' _ _ _) in *.
  pose proof (toggled_lookup _ row x f' fn' (to_shape _ Hok) Hx) as Hlk. fold m' in Hlk. destruct (bits_has (set_flags f' x) _ _ _ Hbits) as (Bf & Br & Ba).
  assert (marked db db1 row fn') as Hmk.
  { split; [|split; [done|split; [done|]]].
    - apply map_eq. intros k. cbn [db1 td_States]. rewrite !lookup_fmap, Hlk. destruct (td_States db !! k) as [y|] eqn:Hy; [|done]. cbn. destruct (decide (k = row)) as [->|]; [rewrite Hx in Hy; by injection Hy as <-|]. by destruct (decide _).
    - intros k y z Hy Hz. cbn [db1 td_States] in Hz. rewrite Hlk, Hy in Hz. injection Hz as <-. destruct (decide (k = row)) as [->|]; [rewrite Hx in Hy; by injection Hy as <-|]. by destruct (decide _). }
  destruct (xorb (has Reachable x) rc') eqn:Ex.
  - assert (td_States db1 !! row = Some (set_flags f' x)) as Hx1 by (cbn [db1 td_States]; rewrite Hlk, Hx; cbn; by rewrite decide_True).
    destruct (OnReachable_ok sha256 r scan scan_ok rc' ∅ db1 row (set_flags f' x)) as (db2 & E2 & (Ec & Et & Eq) & Hp2); [by rewrite union_empty_l_L|apply not_elem_of_empty|done|].
    exists db2. split; [exact E2|]. split.
    + eapply pending_done; [exact Hp2|]. eapply act_linked; [by apply core_linked| |done|exact Hact]. intros k y y' Hy Hy'. destruct (fmap_lookup_eq core _ _ k y Ec Hy) as (z & Hz & E). rewrite Hy' in Hz. injection Hz as <-. apply core_fields in E as (_ & _ & _ & _ & _ & _ & E). exact E.
    + destruct Hmk as (H1 & H2 & H3 & H4). split; [rewrite H1; by apply core_linked|]. split; [congruence|]. split; [congruence|]. intros k y z Hy Hz.
      destruct (fmap_lookup_eq linked _ (td_States db1) k y H1 Hy) as (y1 & Hy1 & _). destruct (fmap_lookup_eq core _ _ k y1 Ec Hy1) as (z' & Hz' & E). rewrite Hz in Hz'. injection Hz' as <-. apply core_fields in E as (_ & _ & _ & _ & _ & E1 & E2'). rewrite E1, E2'. by apply (H4 k y y1).
  - exists db1. split; [done|]. split; [|done]. by eapply pending_done.
Qed.

Lemma SetStateFunctional_ok db row x : tree_ok db -> td_States db !! row = Some x -> Z.of_nat (size (td_States db)) < 2 ^ 32 - 1 ->
  exists db', SetStateFunctional sha256 scan db row = Some db' /\ tree_ok db' /\ marked db db' row true.
Proof.
  intros Hok Hx Hsize. pose proof Hok as [Hm Hc Hr _ _]. unfold SetStateFunctional. rewrite Hx. cbn [mbind option_bind]. destruct (has Functional x) eqn:Efn.
  { exists db. split; [done|]. split; [done|]. rewrite <- Efn. by apply marked_id. }
  pose proof (sh_row _ _ _ Hm row x Hx) as (_ & Hh & Hfl & _). rewrite (proj2 (Z.ltb_ge _ _)) by (unfold HeightGenesis; lia).
  assert (has Reachable x = false) as Erc by (by rewrite (re_flag _ _ Hr row x Hx), Efn).
  destruct (bits_set_fn _ Hfl) as [Hf1 Hb1]. destruct (bits_set_rc _ Hf1) as [Hf2 Hb2]. rewrite Hb1 in Hb2. cbn [fst snd] in Hb1, Hb2. change ((bits (st_Flags x)).1.2) with (has Reachable x) in Hb1. change ((bits (st_Flags x)).2) with (has Active x) in Hb1, Hb2. rewrite Erc in Hb1.
  assert (forall f' fn rc ac, bits f' = (fn, rc, ac) -> negb (Z.land Reachable f' =? 0) = rc) as Hland by (intros f' fn rc ac [= _ H _]; exact H).
  unfold HeightGenesis. destruct (Z.ltb_spec 1 (st_Height x)) as [Hgt|Hle].
  - destruct (st_RowPrev x) as [p|] eqn:Ep.
    + destruct (prev_row sha256 r _ Hm row x p Hx Ep) as (y & Hy & Hhy & _ & Hpr). rewrite Hy. cbn [mbind option_bind]. unfold SetNextCountFunctional, update1 at 1. rewrite Hy. cbn [mbind option_bind].
      pose proof (co_nextF _ Hc p y Hy) as En. pose proof (count_size (fun y0 => kid p y0 && has Functional y0) (td_States db)). pose proof (count_nonneg (fun y0 => kid p y0 && has Functional y0) (td_States db)).
      rewrite u32_small by (unfold in_width; lia). assert (up_view ∅ (td_States db) x = has Reachable y) as Eup by (unfold up_view; rewrite bool_decide_eq_false_2, Ep by lia; by apply view_reach).
      assert (forall f', toggled (td_States db) row x f' true = <[row := set_flags f' x]> (<[p := set_nextF (st_CountNextF y + 1) y]> (td_States db))) as Etog by (intros f'; unfold toggled; rewrite Ep, Hy, Efn; cbn [Z.b2z]; by rewrite Z.sub_0_r).
      assert (forall t : gmap Z (list Z), (forall k, t !! k = if decide (k = p) then None else td_TipsReachable db !! k) -> forall f' k, t !! k = match toggled (td_States db) row x f' true !! k with
        | Some y0 => if decide (st_RowPrev x = Some k) then (if (st_CountNextF y0 =? 0) && view ∅ (td_States db) k then Some (s_ChainWork (st_Full y0)) else None) else td_TipsReachable db !! k | None => None end) as Htip.
      { intros t Ht f' k. rewrite Ht, (toggled_lookup _ row x f' true Hm Hx k), Ep. destruct (decide (k = p)) as [->|Hne].
        - rewrite Hy. cbn [fmap option_fmap option_map]. rewrite (decide_False (P := p = row)) by done. rewrite !(decide_True (P := Some p = Some p)) by done. cbn [set_nextF st_CountNextF]. rewrite Efn. cbn [Z.b2z]. rewrite (proj2 (Z.eqb_neq _ _)) by lia. done.
        - rewrite (tips_lookup db k Hr). destruct (td_States db !! k) as [z|] eqn:Hz; cbn [fmap option_fmap option_map]; [|done]. by rewrite (decide_False (P := Some p = Some k)) by congruence. }
      destruct (has Reachable y) eqn:Ery.
      * set (t := if st_CountNextF y =? 0 then delete p (td_TipsReachable db) else td_TipsReachable db). assert (forall k, t !! k = if decide (k = p) then None else td_TipsReachable db !! k) as Ht.
        { intros k. unfold t. pose proof (tips_lookup db p Hr) as Etp. rewrite Hy, (view_reach _ _ y Hy), Ery, andb_true_r in Etp. destruct (st_CountNextF y =? 0); destruct (decide (k = p)) as [->|]; [by rewrite lookup_delete_eq|by rewrite lookup_delete_ne|done|done]. }
        destruct (toggle_done db row x (Z.lor (Z.lor (st_Flags x) Functional) Reachable) true true t Hok Hx Hf2 Hb2 ltac:(by rewrite Eup) (Htip t Ht _)) as (db' & E & Hok' & Hmk). rewrite Erc, Ep, Etog in E. cbn [xorb] in E. change (default 0 (Some p)) with p in E.
        exists db'. split; [|done]. rewrite <- E. assert ((if st_CountNextF y =? 0 then TipReachableDel (with_states (<[p := set_nextF (st_CountNextF y + 1) y]> (td_States db)) db) p else Some (with_states (<[p := set_nextF (st_CountNextF y + 1) y]> (td_States db)) db)) = Some (mkTree (<[p := set_nextF (st_CountNextF y + 1) y]> (td_States db)) (td_Tips db) t (td_Cursor db))) as ->.
        { unfold t. destruct (Z.eqb_spec (st_CountNextF y) 0) as [E0|]; [|done]. unfold TipReachableDel. cbn [with_states td_TipsReachable]. rewrite (tips_lookup db p Hr), Hy, (view_reach _ _ y Hy), Ery, E0. done. }
        cbn [mbind option_bind]. unfold SetFlags, update1. cbn [td_States]. rewrite lookup_insert_ne, Hx by done. cbn [mbind option_bind]. rewrite (Hland _ _ _ _ Hb2). done.
      * destruct (toggle_done db row x (Z.lor (st_Flags x) Functional) true false (td_TipsReachable db) Hok Hx Hf1 Hb1 ltac:(by rewrite Eup)) as (db' & E & Hok' & Hmk).
        { apply Htip. intros k. destruct (decide (k = p)) as [->|]; [|done]. by rewrite (tips_lookup db p Hr), Hy, (view_reach _ _ y Hy), Ery, andb_false_r. }
        rewrite Erc, Etog in E. cbn [xorb] in E. exists db'. split; [|done]. rewrite <- E. cbn [mbind option_bind]. unfold SetFlags, update1. cbn [with_states td_States]. rewrite lookup_insert_ne, Hx by done. cbn [mbind option_bind]. rewrite (Hland _ _ _ _ Hb1). done.
    + assert (up_view ∅ (td_States db) x = false) as Eup by (unfold up_view; by rewrite bool_decide_eq_false_2, Ep by lia).
      destruct (toggle_done db row x (Z.lor (st_Flags x) Functional) true false (td_TipsReachable db) Hok Hx Hf1 Hb1 ltac:(by rewrite Eup)) as (db' & E & Hok' & Hmk).
      { intros k. rewrite (toggled_lookup _ row x _ true Hm Hx k), Ep, (tips_lookup db k Hr). by destruct (td_States db !! k). }
      rewrite Erc in E. cbn [xorb] in E. exists db'. split; [|done]. rewrite <- E. cbn [mbind option_bind]. unfold SetFlags, update1. rewrite Hx. cbn [mbind option_bind]. rewrite (Hland _ _ _ _ Hb1). unfold toggled. by rewrite Ep.
  - assert (st_RowPrev x = None) as Ep by (apply (prev_genesis sha256 r _ Hm row x Hx); lia). rewrite Ep. assert (up_view ∅ (td_States db) x = true) as Eup by (unfold up_view; by rewrite bool_decide_eq_true_2 by lia).
    destruct (toggle_done db row x (Z.lor (Z.lor (st_Flags x) Functional) Reachable) true true (td_TipsReachable db) Hok Hx Hf2 Hb2 ltac:(by rewrite Eup)) as (db' & E & Hok' & Hmk).
    { intros k. rewrite (toggled_lookup _ row x _ true Hm Hx k), Ep, (tips_lookup db k Hr). by destruct (td_States db !! k). }
    rewrite Erc, Ep in E. cbn [xorb default] in E. exists db'. split; [|done]. rewrite <- E. cbn [mbind option_bind]. unfold SetFlags, update1. rewrite Hx. cbn [mbind option_bind]. rewrite (Hland _ _ _ _ Hb2). unfold toggled. by rewrite Ep.
Qed.

Lemma count_pos {A} (P : A -> bool) (m : gmap Z A) k x : m !! k = Some x -> P x = true -> 0 < count P m.
Proof. intros Hk HP. pose proof (count_nonneg P m). destruct (decide (count P m = 0)) as [E|]; [|lia]. rewrite (proj1 (count_0 P m) E k x Hk) in HP. done. Qed.

Lemma SetStateNotFunctional_ok db row x : tree_ok db -> td_States db !! row = Some x ->
  exists db', SetStateNotFunctional sha256 scan db row = Some db' /\ tree_ok db' /\ marked db db' row false.
Proof.
  intros Hok Hx. pose proof Hok as [Hm Hc Hr _ _]. unfold SetStateNotFunctional. rewrite Hx. cbn [mbind option_bind]. destruct (has Functional x) eqn:Efn; cbn [negb].
  2: { exists db. split; [done|]. split; [done|]. rewrite <- Efn. by apply marked_id. }
  pose proof (sh_row _ _ _ Hm row x Hx) as (_ & Hh & Hfl & _). rewrite (proj2 (Z.ltb_ge _ _)) by (unfold HeightGenesis; lia).
  destruct (bits_clear_fn _ Hfl) as [Hf1 Hb1]. destruct (bits_clear_rc _ Hf1) as [Hf2 Hb2]. rewrite Hb1 in Hb2. cbn [fst snd] in Hb1, Hb2. change ((bits (st_Flags x)).1.2) with (has Reachable x) in Hb1. change ((bits (st_Flags x)).2) with (has Active x) in Hb1, Hb2.
  set (f1 := Z.land (st_Flags x) (u32 (Z.lnot Functional))) in *. assert (negb (Z.land Reachable f1 =? 0) = has Reachable x) as -> by (by injection Hb1 as _ H _).
  set (f' := if has Reachable x then Z.land f1 (u32 (Z.lnot Reachable)) else f1). assert (flag_ok f' /\ bits f' = (false, false, has Active x)) as [Hf' Hb'] by (unfold f'; destruct (has Reachable x) eqn:E; by rewrite ?E in Hb1).
  pose proof (re_flag _ _ Hr row x Hx) as Erx. rewrite Efn in Erx. cbn [andb] in Erx. pose proof (fun t => toggle_done db row x f' false false t Hok Hx Hf' Hb' eq_refl) as Htog. rewrite xorb_false_r in Htog.
  unfold HeightGenesis. destruct (Z.ltb_spec 1 (st_Height x)) as [Hgt|Hle]; unfold up_view in Erx.
  - rewrite bool_decide_eq_false_2 in Erx by lia. cbn [orb] in Erx. destruct (st_RowPrev x) as [p|] eqn:Ep.
    + destruct (prev_row sha256 r _ Hm row x p Hx Ep) as (y & Hy & Hhy & _ & Hpr). rewrite (view_reach _ _ y Hy) in Erx. rewrite Hy. cbn [mbind option_bind].
      assert (0 < st_CountNextF y) as Hpos by (rewrite (co_nextF _ Hc p y Hy); apply (count_pos _ _ row x Hx); unfold kid; by rewrite bool_decide_eq_true_2, Efn by done).
      rewrite (proj2 (Z.eqb_neq _ _)) by lia. unfold SetNextCountFunctional, update1 at 1. rewrite Hy. cbn [mbind option_bind]. set (m1 := <[p := set_nextF (st_CountNextF y - 1) y]> (td_States db)).
      set (t := if (st_CountNextF y - 1 =? 0) && has Reachable x then <[p := s_ChainWork (st_Full y)]> (td_TipsReachable db) else td_TipsReachable db).
      assert (td_TipsReachable db !! p = None) as Etp by (rewrite (tips_lookup db p Hr), Hy, (proj2 (Z.eqb_neq (st_CountNextF y) 0)) by lia; done).
      destruct (Htog t) as (db' & E & Hok' & Hmk).
      { intros k. rewrite (toggled_lookup _ row x f' false Hm Hx k), Ep. destruct (decide (k = p)) as [->|Hne].
        - rewrite Hy. cbn [fmap option_fmap option_map]. rewrite (decide_False (P := p = row)) by done. rewrite !(decide_True (P := Some p = Some p)) by done. cbn [set_nextF st_CountNextF st_Full]. rewrite Efn, (view_reach _ _ y Hy), <- Erx. cbn [Z.b2z]. rewrite Z.add_0_r.
          unfold t. destruct ((st_CountNextF y - 1 =? 0) && has Reachable x); [by rewrite lookup_insert_eq|done].
        - assert (t !! k = td_TipsReachable db !! k) as -> by (unfold t; destruct (_ && _); [by rewrite lookup_insert_ne|done]). rewrite (tips_lookup db k Hr).
          destruct (td_States db !! k) as [z|] eqn:Hz; cbn [fmap option_fmap option_map]; [|done]. by rewrite (decide_False (P := Some p = Some k)) by congruence. }
      change (default 0 (Some p)) with p in E. exists db'. split; [|done]. rewrite <- E.
      assert ((if (st_CountNextF y - 1 =? 0) && has Reachable x then TipReachableAdd (with_states m1 db) p else Some (with_states m1 db)) = Some (mkTree m1 (td_Tips db) t (td_Cursor db))) as ->.
      { unfold t. destruct ((st_CountNextF y - 1 =? 0) && has Reachable x); [|done]. unfold TipReachableAdd, get_ChainWork. cbn [with_states td_States td_TipsReachable]. unfold m1. rewrite lookup_insert_eq. cbn [mbind option_bind set_nextF st_Full]. by rewrite Etp. }
      cbn [mbind option_bind]. unfold SetFlags, update1. cbn [td_States]. unfold m1. rewrite lookup_insert_ne, Hx by done. cbn [mbind option_bind with_states td_Tips td_TipsReachable td_Cursor].
      unfold toggled. rewrite Ep, Hy, Efn. cbn [Z.b2z]. by rewrite Z.add_0_r.
    + rewrite Erx. destruct (Htog (td_TipsReachable db)) as (db' & E & Hok' & Hmk).
      { intros k. rewrite (toggled_lookup _ row x _ false Hm Hx k), Ep, (tips_lookup db k Hr). by destruct (td_States db !! k). }
      rewrite Erx in E. exists db'. split; [|done]. rewrite <- E. cbn [mbind option_bind]. unfold SetFlags, update1. rewrite Hx. cbn [mbind option_bind]. unfold toggled. by rewrite Ep.
  - assert (st_RowPrev x = None) as Ep by (apply (prev_genesis sha256 r _ Hm row x Hx); lia). rewrite bool_decide_eq_true_2 in Erx by lia. cbn [orb] in Erx. rewrite Ep, Erx. destruct (Htog (td_TipsReachable db)) as (db' & E & Hok' & Hmk).
    { intros k. rewrite (toggled_lookup _ row x _ false Hm Hx k), Ep, (tips_lookup db k Hr). by destruct (td_States db !! k). }
    rewrite Erx, Ep in E. cbn [default] in E. exists db'. split; [|done]. rewrite <- E. cbn [mbind option_bind]. unfold SetFlags, update1. rewrite Hx. cbn [mbind option_bind]. unfold toggled. by rewrite Ep.
Qed.

(** The history column when the rows of the chain stay. *)
Lemma mmr_data_chain m m' k x x' d : shape_ok sha256 r m -> m !! k = Some x -> st_Full x' = st_Full x -> (forall l q y, Chain m k l -> q ∈ l -> m !! q = Some y -> exists y', m' !! q = Some y' /\ linked y' = linked y) ->
  mmr_data sha256 m k x d -> mmr_data sha256 m' k x' d.
Proof.
  intros Hm Hx Ef Hl (l & X & g & Hc & Ho & HX & E & ->). exists l, X, g. rewrite Ef. split; [|split_and!; [done|done|done|]].
  - eapply Chain_mono; [|exact Hc]. intros q y Hy Hin. destruct (Hl l q y Hc Hin Hy) as (y' & Hy' & E'). apply linked_fields in E' as (? & _ & ?). by exists y'.
  - destruct (Chain_row sha256 r m Hm k l Hc) as (x2 & Hx2 & Hlen & _). rewrite Hx in Hx2. injection Hx2 as <-. apply spec_data_ext; [done|lia|done| |done]. intros j Hj.
    destruct (lookup_lt_is_Some_2 l (Z.to_nat j)) as [q Hq]; [lia|]. unfold leaf_of. rewrite Hq. cbn [default]. change (id q) with q. destruct (Chain_lookup sha256 r m Hm k l _ q Hc Hq) as (y & Hy & _).
    destruct (Hl l q y Hc (list_elem_of_lookup_2 _ _ _ Hq) Hy) as (y' & Hy' & E'). apply linked_fields in E' as (_ & E' & _). unfold hash_of. by rewrite Hy, Hy'.
Qed.

(** Deleting a row that no row follows. *)
Definition deleted (m : States) (row : Z) (x : StateRow) : States :=
  delete row (match st_RowPrev x with
              | Some p => match m !! p with Some y => <[p := set_nextF (st_CountNextF y - Z.b2z (has Functional x)) (set_next (st_CountNext y - 1) y)]> m | None => m end
              | None => m end).

Lemma deleted_lookup m row x : shape_ok sha256 r m -> m !! row = Some x -> forall k, deleted m row x !! k =
  if decide (k = row) then None else (fun y => if decide (st_RowPrev x = Some k) then set_nextF (st_CountNextF y - Z.b2z (has Functional x)) (set_next (st_CountNext y - 1) y) else y) <$> m !! k.
Proof.
  intros Hm Hx k. unfold deleted. destruct (decide (k = row)) as [->|Hne]; [apply lookup_delete_eq|]. rewrite lookup_delete_ne by done. destruct (st_RowPrev x) as [p|] eqn:Ep.
  - destruct (prev_row sha256 r m Hm row x p Hx Ep) as (y & Hy & _). rewrite Hy. destruct (decide (Some p = Some k)) as [[= ->]|Hn]; [by rewrite lookup_insert_eq, Hy|]. rewrite lookup_insert_ne by congruence. by destruct (m !! k).
  - by destruct (m !! k).
Qed.

Lemma deleted_count m row x (P : StateRow -> bool) : shape_ok sha256 r m -> m !! row = Some x -> (forall a b y, P (set_nextF a (set_next b y)) = P y) -> count P (deleted m row x) = count P m - Z.b2z (P x).
Proof.
  intros Hm Hx HP. unfold deleted. destruct (st_RowPrev x) as [p|] eqn:Ep; [|by apply count_delete]. destruct (prev_row sha256 r m Hm row x p Hx Ep) as (y & Hy & _ & _ & Hpr). rewrite Hy.
  rewrite (count_delete _ _ _ x) by (by rewrite lookup_insert_ne). rewrite (count_insert _ _ _ _ y Hy), HP. lia.
Qed.

Lemma delete_row_ok db row x tips t : tree_ok db -> td_States db !! row = Some x -> st_CountNext x = 0 -> has Active x = false ->
  let m' := deleted (td_States db) row x in
  (forall h k, (h, k) ∈ tips <-> exists z, m' !! k = Some z /\ h = st_Height z /\ st_CountNext z = 0) ->
  (forall k, t !! k = match m' !! k with Some z => if (st_CountNextF z =? 0) && view ∅ (td_States db) k then Some (s_ChainWork (st_Full z)) else None | None => None end) ->
  tree_ok (mkTree m' tips t (td_Cursor db)).
Proof.
  intros [Hm Hc Hr [Hd Hh] (l & Hcur & Hl)] Hx Hn Ha m' Htips Ht. pose proof (deleted_lookup _ row x Hm Hx) as Hlk. fold m' in Hlk.
  assert (forall k y, td_States db !! k = Some y -> st_RowPrev y <> Some row) as Hleaf.
  { intros k y Hy Hp. rewrite (co_next _ Hc row x Hx) in Hn. pose proof (proj1 (count_0 _ _) Hn k y Hy) as H0. unfold kid in H0. by rewrite bool_decide_eq_true_2 in H0 by done. }
  assert (forall k z, m' !! k = Some z -> exists y, td_States db !! k = Some y /\ k <> row /\ linked z = linked y /\ st_Mmr z = st_Mmr y /\ st_Flags z = st_Flags y /\
    st_CountNext z = st_CountNext y - Z.b2z (kid k x) /\ st_CountNextF z = st_CountNextF y - Z.b2z (kid k x && has Functional x)) as Hback.
  { intros k z Hz. rewrite Hlk in Hz. destruct (decide (k = row)); [done|]. destruct (td_States db !! k) as [y|]; [|done]. injection Hz as <-. exists y. unfold kid. destruct (decide (st_RowPrev x = Some k)) as [E|E]; [rewrite bool_decide_eq_true_2 by done|rewrite bool_decide_eq_false_2 by done]; split_and!; try done; cbn; lia. }
  assert (forall k y, td_States db !! k = Some y -> k <> row -> exists z, m' !! k = Some z /\ linked z = linked y) as Hfwd.
  { intros k y Hy Hne. rewrite Hlk, decide_False, Hy by done. cbn. eexists. split; [reflexivity|]. by destruct (decide _). }
  assert (forall k l, Chain (td_States db) k l -> k <> row -> row ∉ l) as Hnc.
  { intros k l' Hk Hne [i Hi]%list_elem_of_lookup_1. destruct (l' !! S i) as [q|] eqn:Hq; [destruct (Chain_link sha256 r _ Hm k l' i row q Hk Hi Hq) as (y & Hy & Hp); by apply (Hleaf q y)|].
    apply (Chain_row sha256 r _ Hm) in Hk as (_ & _ & _ & Hlast). apply lookup_ge_None in Hq. pose proof (lookup_lt_Some _ _ _ Hi). rewrite last_lookup in Hlast. replace (pred (length l')) with i in Hlast by lia. congruence. }
  assert (forall q, q <> row -> view ∅ m' q = view ∅ (td_States db) q) as Hview.
  { intros q Hq. unfold view. destruct (m' !! q) as [z|] eqn:Hz; [destruct (Hback q z Hz) as (y & -> & _ & _ & _ & Ef & _); unfold has; by rewrite Ef|]. rewrite Hlk, decide_False in Hz by done. by destruct (td_States db !! q). }
  split; cbn [td_States].
  - split.
    + intros k z Hz. destruct (Hback k z Hz) as (y & Hy & _ & Ez & _ & Ef & _). apply linked_fields in Ez as (E1 & E2 & _). rewrite E1, E2, Ef. by apply (sh_row _ _ _ Hm).
    + intros k k' z z' Hz Hz'. destruct (Hback k z Hz) as (y & Hy & _ & Ez & _), (Hback k' z' Hz') as (y' & Hy' & _ & Ez' & _). apply linked_fields in Ez as (-> & -> & _), Ez' as (-> & -> & _). by apply (sh_key _ _ _ Hm).
    + intros k z q Hz. destruct (Hback k z Hz) as (y & Hy & _ & Ez & _). apply linked_fields in Ez as (-> & _ & ->). rewrite (sh_prev _ _ _ Hm k y q Hy). split; intros (w & Hw & Hhw & Hv).
      * destruct (Hfwd q w Hw) as (w' & Hw' & E'); [intros ->; apply (Hleaf k y Hy), (sh_prev _ _ _ Hm k y row Hy); by exists w|]. apply linked_fields in E' as (E1 & E2 & _). exists w'. by rewrite E1, E2.
      * destruct (Hback q w Hw) as (w' & Hw' & _ & E' & _). apply linked_fields in E' as (E1 & E2 & _). exists w'. by rewrite <- E1, <- E2.
  - split; cbn [td_States td_Tips]; [| |exact Htips]; intros k z Hz; destruct (Hback k z Hz) as (y & Hy & _ & _ & _ & _ & E1 & E2).
    + unfold m'. rewrite (deleted_count _ row x) by done. by rewrite E1, (co_next _ Hc k y Hy).
    + unfold m'. rewrite (deleted_count _ row x) by done. by rewrite E2, (co_nextF _ Hc k y Hy).
  - split; cbn [td_States td_TipsReachable].
    + intros k z Hz. destruct (Hback k z Hz) as (y & Hy & _ & Ez & _ & Ef & _). apply linked_fields in Ez as (E1 & _ & E3). unfold up_view, has. rewrite E1, E3, Ef. pose proof (re_flag _ _ Hr k y Hy) as E. unfold up_view, has in E. rewrite E.
      destruct (st_RowPrev y) as [q|] eqn:Eq; [|done]. by rewrite Hview by (intros ->; by apply (Hleaf k y)).
    + intros k w. rewrite Ht. split.
      * destruct (m' !! k) as [z|] eqn:Hz; [|done]. destruct (Hback k z Hz) as (_ & _ & Hk & _). rewrite (Hview k Hk). destruct ((st_CountNextF z =? 0) && view ∅ (td_States db) k) eqn:Eb; [|done]. intros [= <-]. apply andb_true_iff in Eb as [E0%Z.eqb_eq Ev]. by exists z.
      * intros (z & Hz & -> & Hn0 & Hv). destruct (Hback k z Hz) as (_ & _ & Hk & _). rewrite (Hview k Hk) in Hv. by rewrite Hz, Hn0, Hv.
  - split.
    + intros k z d Hz Hzd. destruct (Hback k z Hz) as (y & Hy & Hk & Ez & Em & _). apply linked_fields in Ez as (E1 & _). eapply (mmr_data_chain (td_States db) m' k y); [done|done|done| |apply Hd; [done|congruence]].
      intros l' q w Hc' Hin Hw. apply (Hfwd q w Hw). intros ->. by apply (Hnc k l').
    + intros k z Hz Hrz _ Hhz. destruct (Hback k z Hz) as (y & Hy & _ & Ez & Em & Ef & _). apply linked_fields in Ez as (E1 & _). rewrite Em. apply (Hh k y); [done|unfold has in *; by rewrite <- Ef|apply not_elem_of_empty|by rewrite <- E1].
  - assert (row ∉ l) as HrL by (rewrite (Hl row x Hx) in Ha; by apply bool_decide_eq_false_1 in Ha). exists l. cbn [td_Cursor td_States]. split.
    + destruct Hcur as [|[Hcur Hlen]]; [by left|]. right. split; [|done]. eapply Chain_mono; [|exact Hcur]. intros q y Hy Hin. destruct (Hfwd q y Hy) as (z & Hz & E'); [by intros ->|]. apply linked_fields in E' as (? & _ & ?). by exists z.
    + intros k z Hz. destruct (Hback k z Hz) as (y & Hy & _ & _ & _ & Ef & _). rewrite <- (Hl k y Hy). unfold has. by rewrite Ef.
Qed.

Lemma DeleteState_ok db row x : tree_ok db -> td_States db !! row = Some x ->
  if negb (st_CountNext x =? 0) then DeleteState db row = Some (db, default 0 (st_RowPrev x), false)
  else if has Active x then DeleteState db row = None
  else exists tips t, DeleteState db row = Some (mkTree (deleted (td_States db) row x) tips t (td_Cursor db), default 0 (st_RowPrev x), true) /\ tree_ok (mkTree (deleted (td_States db) row x) tips t (td_Cursor db)).
Proof.
  intros Hok Hx. pose proof Hok as [Hm Hc Hr _ _]. unfold DeleteState. rewrite Hx. cbn [mbind option_bind]. destruct (Z.eqb_spec (st_CountNext x) 0) as [Hn|Hn]; cbn [negb]; [|done]. destruct (has Active x) eqn:Ea; [done|].
  pose proof (sh_row _ _ _ Hm row x Hx) as (_ & Hh & _). pose proof (deleted_lookup _ row x Hm Hx) as Hlk.
  assert (st_CountNextF x = 0) as HnF.
  { rewrite (co_next _ Hc row x Hx) in Hn. rewrite (co_nextF _ Hc row x Hx). apply count_0. intros k y Hy. by rewrite (proj1 (count_0 _ _) Hn k y Hy). }
  assert ((st_Height x, row) ∈ td_Tips db) as Htip by (apply (co_tips _ Hc); by exists x).
  assert (td_TipsReachable db !! row = if has Reachable x then Some (s_ChainWork (st_Full x)) else None) as Etr by (by rewrite (tips_lookup db row Hr), Hx, HnF, (view_reach _ _ x Hx)).
  (* the row before *)
  assert (exists tips1 t1, (match st_RowPrev x with
      | None => Some db
      | Some p => y ← td_States db !! p; if st_CountNext y =? 0 then None
          else db0 ← SetNextCount db p (st_CountNext y - 1); db0 ← (if st_CountNext y - 1 =? 0 then TipAdd db0 p (u64 (st_Height x - 1)) else Some db0);
               if has Functional x then if st_CountNextF y =? 0 then None else db0 ← SetNextCountFunctional db0 p (st_CountNextF y - 1); if (st_CountNextF y - 1 =? 0) && has Reachable x then TipReachableAdd db0 p else Some db0
               else Some db0 end)
    = Some (mkTree (match st_RowPrev x with Some p => match td_States db !! p with Some y => <[p := set_nextF (st_CountNextF y - Z.b2z (has Functional x)) (set_next (st_CountNext y - 1) y)]> (td_States db) | None => td_States db end | None => td_States db end) tips1 t1 (td_Cursor db)) /\
    (forall h k, (h, k) ∈ tips1 <-> (h, k) ∈ td_Tips db \/ exists y, st_RowPrev x = Some k /\ td_States db !! k = Some y /\ h = st_Height y /\ st_CountNext y = 1) /\
    (forall k, t1 !! k = match td_States db !! k with
       | Some y => if decide (st_RowPrev x = Some k) then if (st_CountNextF y - Z.b2z (has Functional x) =? 0) && has Reachable y then Some (s_ChainWork (st_Full y)) else None else td_TipsReachable db !! k
       | None => None end)) as (tips1 & t1 & -> & Htips1 & Ht1).
  { destruct (st_RowPrev x) as [p|] eqn:Ep.
    - destruct (prev_row sha256 r _ Hm row x p Hx Ep) as (y & Hy & Hhy & _ & Hpr). rewrite Hy. cbn [mbind option_bind].
      assert (0 < st_CountNext y) as Hpos by (rewrite (co_next _ Hc p y Hy); apply (count_pos _ _ row x Hx); unfold kid; by rewrite bool_decide_eq_true_2 by done). rewrite (proj2 (Z.eqb_neq _ _)) by lia.
      unfold SetNextCount, update1 at 1. rewrite Hy. cbn [mbind option_bind]. set (y1 := set_next (st_CountNext y - 1) y). set (m1 := <[p := y1]> (td_States db)).
      set (tips1 := if st_CountNext y - 1 =? 0 then {[(st_Height y, p)]} ∪ td_Tips db else td_Tips db).
      assert ((if st_CountNext y - 1 =? 0 then TipAdd (with_states m1 db) p (u64 (st_Height x - 1)) else Some (with_states m1 db)) = Some (mkTree m1 tips1 (td_TipsReachable db) (td_Cursor db))) as ->.
      { unfold tips1. destruct (st_CountNext y - 1 =? 0); [|done]. unfold TipAdd. rewrite wrap_small by (unfold in_width; lia). rewrite <- Hhy. rewrite decide_False; [done|]. cbn [with_states td_Tips]. intros (y' & Hy' & _ & H0)%(co_tips _ Hc). rewrite Hy in Hy'. injection Hy' as <-. lia. }
      cbn [mbind option_bind]. assert (has Reachable x = has Functional x && has Reachable y) as Erx.
      { rewrite (re_flag _ _ Hr row x Hx). unfold up_view. pose proof (sh_row _ _ _ Hm p y Hy). rewrite bool_decide_eq_false_2 by lia. rewrite Ep, (view_reach _ _ y Hy). done. }
      set (t1 := if has Functional x && (st_CountNextF y - 1 =? 0) && has Reachable x then <[p := s_ChainWork (st_Full y)]> (td_TipsReachable db) else td_TipsReachable db).
      pose proof (tips_lookup db p Hr) as Etp. rewrite Hy, (view_reach _ _ y Hy) in Etp. exists tips1, t1. split; [|split].
      + destruct (has Functional x) eqn:Efn; cbn [Z.b2z andb] in *.
        * assert (0 < st_CountNextF y) as HposF by (rewrite (co_nextF _ Hc p y Hy); apply (count_pos _ _ row x Hx); unfold kid; by rewrite bool_decide_eq_true_2, Efn by done). rewrite (proj2 (Z.eqb_neq (st_CountNextF y) 0)) in * by lia. cbn [andb] in Etp.
          unfold SetNextCountFunctional, update1. cbn [td_States]. assert (m1 !! p = Some y1) as Hm1 by apply lookup_insert_eq. rewrite Hm1. cbn [mbind option_bind]. unfold m1. unfold with_states. cbn [td_Tips td_TipsReachable td_Cursor]. rewrite insert_insert_eq.
          unfold t1. destruct ((st_CountNextF y - 1 =? 0) && has Reachable x); [|done]. unfold TipReachableAdd, get_ChainWork. cbn [td_States td_TipsReachable]. rewrite lookup_insert_eq. cbn [mbind option_bind]. by rewrite Etp.
        * unfold t1. do 3 f_equal. rewrite Z.sub_0_r. unfold y1. by destruct y.
      + intros h k. unfold tips1. destruct (Z.eqb_spec (st_CountNext y - 1) 0) as [E|E].
        * rewrite elem_of_union, elem_of_singleton. split.
          -- intros [[= -> ->]|]; [right|by left]. exists y. split_and!; [done|done|done|lia].
          -- intros [|(y' & [= ->] & Hy' & -> & _)]; [by right|]. left. rewrite Hy in Hy'. by injection Hy' as <-.
        * split; [by left|]. intros [|(y' & [= ->] & Hy' & _ & H1)]; [done|]. rewrite Hy in Hy'. injection Hy' as <-. lia.
      + intros k. destruct (decide (Some p = Some k)) as [[= <-]|Hne].
        * rewrite Hy. unfold t1. rewrite Erx. destruct (has Functional x) eqn:Efn; cbn [Z.b2z andb] in *.
          -- assert (0 < st_CountNextF y) as HposF by (rewrite (co_nextF _ Hc p y Hy); apply (count_pos _ _ row x Hx); unfold kid; by rewrite bool_decide_eq_true_2, Efn by done). rewrite (proj2 (Z.eqb_neq (st_CountNextF y) 0)) in Etp by lia. cbn [andb] in Etp.
             destruct ((st_CountNextF y - 1 =? 0) && has Reachable y); [apply lookup_insert_eq|done].
          -- by rewrite Z.sub_0_r.
        * assert (t1 !! k = td_TipsReachable db !! k) as -> by (unfold t1; destruct (has Functional x && (st_CountNextF y - 1 =? 0) && has Reachable x); [rewrite lookup_insert_ne by congruence; done|done]). rewrite (tips_lookup db k Hr). by destruct (td_States db !! k).
    - exists (td_Tips db), (td_TipsReachable db). split; [by destruct db|]. split; [intros h k; split; [by left|]; intros [|(y & [=] & _)]; done|]. intros k. rewrite (tips_lookup db k Hr). by destruct (td_States db !! k). }
  cbn [mbind option_bind]. unfold TipDel. cbn [td_Tips]. rewrite decide_True by (apply Htips1; by left). cbn [mbind option_bind]. unfold with_tips. cbn [td_States td_TipsReachable td_Cursor].
  set (m1 := match st_RowPrev x with Some p => match td_States db !! p with Some y => _ | None => _ end | None => _ end).
  assert (m1 !! row = Some x) as Hrow.
  { unfold m1. destruct (st_RowPrev x) as [p|] eqn:Ep; [|done]. destruct (prev_row sha256 r _ Hm row x p Hx Ep) as (y & Hy & _ & _ & Hpr). rewrite Hy. by rewrite lookup_insert_ne. }
  assert (st_RowPrev x <> Some row) as Hself by (intros Ep; destruct (prev_row sha256 r _ Hm row x row Hx Ep) as (? & _ & _ & _ & H); done).
  assert (t1 !! row = if has Reachable x then Some (s_ChainWork (st_Full x)) else None) as Etr1 by (by rewrite Ht1, Hx, decide_False by done).
  assert ((if has Reachable x then TipReachableDel (mkTree m1 (tips1 ∖ {[(st_Height x, row)]}) t1 (td_Cursor db)) row else Some (mkTree m1 (tips1 ∖ {[(st_Height x, row)]}) t1 (td_Cursor db)))
    = Some (mkTree m1 (tips1 ∖ {[(st_Height x, row)]}) (delete row t1) (td_Cursor db))) as ->.
  { destruct (has Reachable x); [unfold TipReachableDel; cbn [td_TipsReachable]; by rewrite Etr1|]. by rewrite delete_id. }
  cbn [mbind option_bind td_States]. rewrite Hrow. cbn [mbind option_bind]. exists (tips1 ∖ {[(st_Height x, row)]}), (delete row t1). split; [done|]. apply delete_row_ok; [done|done|done|done| |].
  - intros h k. rewrite elem_of_difference, elem_of_singleton, Htips1, (co_tips _ Hc). rewrite Hlk. split.
    + intros [[(y & Hy & -> & H0)|(y & Ep & Hy & -> & H1)] Hne]; rewrite Hy; cbn [fmap option_fmap option_map].
      * rewrite decide_False by (intros ->; apply Hne; rewrite Hx in Hy; by injection Hy as <-). eexists. split; [done|]. destruct (decide (st_RowPrev x = Some k)) as [Ep|]; [|done].
        exfalso. pose proof (co_next _ Hc k y Hy) as E. assert (0 < count (kid k) (td_States db)) by (apply (count_pos _ _ row x Hx); unfold kid; by rewrite bool_decide_eq_true_2 by done). lia.
      * rewrite decide_False by (intros ->; done). rewrite decide_True by done. eexists. split; [done|]. cbn. split; [done|lia].
    + intros (z & Hz & -> & H0). destruct (decide (k = row)); [done|]. destruct (td_States db !! k) as [y|] eqn:Hy; [|done]. injection Hz as <-. split; [|intros [= _ ?]; done]. destruct (decide (st_RowPrev x = Some k)) as [Ep|Ep]; [|left; by exists y].
      right. exists y. cbn in H0 |- *. split_and!; [done|done|done|lia].
  - intros k. rewrite Hlk. destruct (decide (k = row)) as [->|Hne]; [apply lookup_delete_eq|]. rewrite lookup_delete_ne, Ht1 by done. destruct (td_States db !! k) as [y|] eqn:Hy; cbn [fmap option_fmap option_map]; [|done].
    destruct (decide (st_RowPrev x = Some k)) as [Ep|Ep]; [by rewrite (view_reach _ _ y Hy)|]. by rewrite (tips_lookup db k Hr), Hy.
Qed.

(** ** A new header *)
Context (new_row : States -> Z) (new_row_ok : forall m, 0 < new_row m /\ m !! new_row m = None).

Lemma Chain_full m k l q y : Chain m k l -> q ∈ l -> m !! q = Some y -> st_Height y = 1 \/ is_Some (st_RowPrev y).
Proof.
  intros Hc. induction Hc as [k x Hk Hh|k x p l Hk Hh Hp Hc IH]; intros Hin Hq.
  - apply list_elem_of_singleton in Hin as ->. rewrite Hk in Hq. injection Hq as <-. by left.
  - apply elem_of_app in Hin as [Hin| ->%list_elem_of_singleton]; [by apply IH|]. rewrite Hk in Hq. injection Hq as <-. right. by rewrite Hp.
Qed.

(** The header before the new one gets a row more, and those after it a row before them. *)
Definition relink (row h1 : Z) (hash : list Z) (x : StateRow) : StateRow := if at_prev h1 hash x then set_prev row x else x.
Definition with_prev (m : States) (prev : option (Z * StateRow)) : States := match prev with Some (p, y) => <[p := set_next (st_CountNext y + 1) y]> m | None => m end.

Record new_header (m : States) (s : Full) (row : Z) (hash : list Z) (prev : option (Z * StateRow)) : Prop := {
  nh_height : 1 <= s_Height s < 2 ^ 62 - 1;
  nh_row : 0 < row /\ m !! row = None;
  nh_hash : hash = SystemState.get_Hash sha256 r s;
  nh_new k x : m !! k = Some x -> st_Height x = s_Height s -> st_Hash x = hash -> False;
  nh_prev p y : prev = Some (p, y) <-> m !! p = Some y /\ st_Height y = s_Height s - 1 /\ st_Hash y = s_Prev s
}.

Lemma insert_ok db s row hash prev tips : tree_ok db -> new_header (td_States db) s row hash prev ->
  let m := td_States db in let h1 := s_Height s + 1 in
  let R := mkRow s hash 0 (fst <$> prev) (count (at_prev h1 hash) m) (count (fun x => at_prev h1 hash x && has Functional x) m) None in
  let m' := <[row := R]> (relink row h1 hash <$> with_prev m prev) in
  (forall h k, (h, k) ∈ tips <-> exists z, m' !! k = Some z /\ h = st_Height z /\ st_CountNext z = 0) ->
  tree_ok (mkTree m' tips (td_TipsReachable db) (td_Cursor db)).
Proof.
  intros [Hm Hc Hr [Hd Hh] (l & Hcur & Hl)] [Hht [Hrow Hfresh] Ehash Hnew Hprev] m h1 R m' Htips.
  assert (forall k, m' !! k = if decide (k = row) then Some R else (fun y => relink row h1 hash (if decide (fst <$> prev = Some k) then set_next (st_CountNext y + 1) y else y)) <$> m !! k) as Hlk.
  { intros k. unfold m'. destruct (decide (k = row)) as [->|Hne]; [apply lookup_insert_eq|]. rewrite lookup_insert_ne, lookup_fmap by done. unfold with_prev. destruct prev as [[p y]|] eqn:Ep; cbn [fmap option_fmap option_map fst].
    - destruct (proj1 (Hprev p y) eq_refl) as (Hy & _). destruct (decide (Some p = Some k)) as [[= <-]|Hn]; [fold m in Hy; by rewrite lookup_insert_eq, Hy|]. rewrite lookup_insert_ne by congruence. by destruct (m !! k).
    - by destruct (m !! k). }
  assert (forall k y, m !! k = Some y -> st_RowPrev y <> Some row) as Hnokid by (intros k y Hy Hp; destruct (prev_row sha256 r _ Hm k y row Hy Hp) as (z & Hz & _); unfold m in *; congruence).
  assert (forall k y, m !! k = Some y -> at_prev h1 hash y = true -> st_RowPrev y = None /\ st_Height y = h1 /\ st_HashPrev y = hash) as Horphan.
  { intros k y Hy [Eh Ev]%bool_decide_eq_true_1. split; [|done]. destruct (st_RowPrev y) as [q|] eqn:Eq; [|done]. destruct (prev_row sha256 r _ Hm k y q Hy Eq) as (z & Hz & Hhz & Hhash & _). exfalso. apply (Hnew q z Hz); [lia|congruence]. }
  assert (forall k z, m' !! k = Some z -> k <> row -> exists y, m !! k = Some y /\ st_Full z = st_Full y /\ st_Hash z = st_Hash y /\ st_Mmr z = st_Mmr y /\ st_Flags z = st_Flags y /\ st_CountNextF z = st_CountNextF y /\
    st_CountNext z = st_CountNext y + (if decide (fst <$> prev = Some k) then 1 else 0) /\ st_RowPrev z = (if at_prev h1 hash y then Some row else st_RowPrev y)) as Hback.
  { intros k z Hz Hne. rewrite Hlk, decide_False in Hz by done. destruct (m !! k) as [y|]; [|done]. injection Hz as <-. exists y. unfold relink. destruct (decide (fst <$> prev = Some k)); change (at_prev h1 hash (set_next _ y)) with (at_prev h1 hash y); destruct (at_prev h1 hash y); split_and!; try done; cbn [set_prev set_next st_CountNext]; by rewrite ?Z.add_0_r. }
  assert (m' !! row = Some R) as HR by (by rewrite Hlk, decide_True).
  assert (forall k y, m !! k = Some y -> exists z, m' !! k = Some z /\ k <> row) as Hfwd.
  { intros k y Hy. assert (k <> row) as Hne by (intros ->; unfold m in *; congruence). rewrite Hlk, decide_False, Hy by done. by eexists. }
  assert (forall q, q <> row -> view ∅ m' q = view ∅ m q) as Hview.
  { intros q Hq. unfold view. destruct (m' !! q) as [z|] eqn:Hz; [destruct (Hback q z Hz Hq) as (y & -> & _ & _ & _ & Ef & _); unfold has; by rewrite Ef|]. rewrite Hlk, decide_False in Hz by done. by destruct (m !! q). }
  assert (view ∅ m' row = false) as HviewR by (by rewrite (view_reach _ _ R HR)).
  assert (forall k, k <> row -> fst <$> prev = Some k <-> exists y, m !! k = Some y /\ st_Height y = s_Height s - 1 /\ st_Hash y = s_Prev s) as HprevS.
  { intros k _. split; [intros E; destruct prev as [[p y]|]; [|done]; injection E as <-; exists y; by apply Hprev|]. intros (y & Hy). by rewrite (proj2 (Hprev k y) Hy). }
  assert (fst <$> prev <> Some row) as HprevR by (destruct prev as [[p y]|]; [|done]; destruct (proj1 (Hprev p y) eq_refl) as (Hy & _); intros [= ->]; unfold m in *; congruence).
  (* counting *)
  assert (forall P : StateRow -> bool, (forall n y, P (set_next n y) = P y) -> count P m' = count (fun y => P (relink row h1 hash y)) m + Z.b2z (P R)) as Hcount.
  { intros P HP. unfold m'. rewrite count_insert_new.
    - rewrite count_fmap. f_equal. unfold with_prev. destruct prev as [[p y]|]; [|done]. destruct (proj1 (Hprev p y) eq_refl) as (Hy & _). rewrite (count_insert _ _ _ _ y Hy). assert (P (relink row h1 hash (set_next (st_CountNext y + 1) y)) = P (relink row h1 hash y)) as ->; [|unfold m; lia].
      unfold relink. change (at_prev h1 hash (set_next _ y)) with (at_prev h1 hash y). destruct (at_prev h1 hash y); [|apply HP]. change (set_prev row (set_next (st_CountNext y + 1) y)) with (set_next (st_CountNext y + 1) (set_prev row y)). apply HP.
    - rewrite lookup_fmap. unfold with_prev. destruct prev as [[p y]|]; [|fold m in Hfresh; by rewrite Hfresh]. rewrite lookup_insert_ne by (intros ->; done). fold m in Hfresh. by rewrite Hfresh. }
  split; cbn [td_States].
  - split.
    + intros k z Hz. destruct (decide (k = row)) as [->|Hne]; [rewrite HR in Hz; injection Hz as <-; cbn; split; [done|]; split; [lia|]; split; [done|done]|]. destruct (Hback k z Hz Hne) as (y & Hy & E1 & E2 & _ & Ef & _). rewrite E1, E2, Ef. by apply (sh_row _ _ _ Hm).
    + intros k k' z z' Hz Hz' Hhh Hv. destruct (decide (k = row)) as [->|Hne], (decide (k' = row)) as [->|Hne']; [done|..].
      * rewrite HR in Hz. injection Hz as <-. destruct (Hback k' z' Hz' Hne') as (y & Hy & E1 & E2 & _). exfalso. rewrite E1 in Hhh. rewrite E2 in Hv. by apply (Hnew k' y Hy).
      * rewrite HR in Hz'. injection Hz' as <-. destruct (Hback k z Hz Hne) as (y & Hy & E1 & E2 & _). exfalso. rewrite E1 in Hhh. rewrite E2 in Hv. by apply (Hnew k y Hy).
      * destruct (Hback k z Hz Hne) as (y & Hy & E1 & E2 & _), (Hback k' z' Hz' Hne') as (y' & Hy' & E1' & E2' & _). rewrite E1, E1' in Hhh. rewrite E2, E2' in Hv. by apply (sh_key _ _ _ Hm k k' y y').
    + assert (forall q hh v, (exists w, m' !! q = Some w /\ st_Height w = hh /\ st_Hash w = v) <-> (q = row /\ hh = s_Height s /\ v = hash) \/ exists w, m !! q = Some w /\ st_Height w = hh /\ st_Hash w = v) as Hex.
      { intros q hh v. split.
        - intros (w & Hw & <- & <-). destruct (decide (q = row)) as [->|Hq]; [rewrite HR in Hw; injection Hw as <-; by left|]. right. destruct (Hback q w Hw Hq) as (y & Hy & E1 & E2 & _). exists y. by rewrite E1, E2.
        - intros [(-> & -> & ->)|(w & Hw & <- & <-)]; [by exists R|]. destruct (Hfwd q w Hw) as (z & Hz & Hq). destruct (Hback q z Hz Hq) as (y & Hy & E1 & E2 & _). rewrite Hw in Hy. injection Hy as <-. exists z. by rewrite E1, E2. }
      intros k z q Hz. rewrite Hex. destruct (decide (k = row)) as [->|Hne].
      * rewrite HR in Hz. injection Hz as <-. change (st_RowPrev R) with (fst <$> prev). change (st_Full R) with s. destruct (decide (q = row)) as [->|Hq]; [|rewrite (HprevS q Hq); split; [by right|]; intros [(? & _)|]; done]. split; [done|]. intros [(_ & H & _)|(w & Hw & _)]; [cbn in H; lia|fold m in Hfresh; congruence].
      * destruct (Hback k z Hz Hne) as (y & Hy & E1 & _ & _ & _ & _ & _ & Ep). rewrite Ep, E1. destruct (at_prev h1 hash y) eqn:Ea.
        -- destruct (Horphan k y Hy Ea) as (En & E2 & E3). split; [intros [= <-]; left; split_and!; [done|lia|done]|]. intros [(-> & _)|(w & Hw & Hhw & Hv)]; [done|]. exfalso. apply (Hnew q w Hw); [lia|congruence].
        -- rewrite (sh_prev _ _ _ Hm k y q Hy). split; [by right|]. intros [(-> & Hhh & Hv)|]; [|done]. exfalso. unfold at_prev in Ea. apply bool_decide_eq_false_1 in Ea. apply Ea. split; [lia|done].
  - split; cbn [td_States td_Tips]; [| |exact Htips]; intros k z Hz; rewrite Hcount by done.
    + destruct (decide (k = row)) as [->|Hne].
      * rewrite HR in Hz. injection Hz as <-. cbn [st_CountNext R]. assert (kid row R = false) as -> by (unfold kid; by rewrite bool_decide_eq_false_2). cbn [Z.b2z]. rewrite Z.add_0_r. apply count_ext. intros q y Hy. unfold relink, kid. destruct (at_prev h1 hash y); [by rewrite bool_decide_eq_true_2|]. by rewrite bool_decide_eq_false_2 by (by apply (Hnokid q)).
      * destruct (Hback k z Hz Hne) as (y & Hy & _ & _ & _ & _ & _ & -> & _). rewrite (co_next _ Hc k y Hy). f_equal; [|unfold kid; cbn [st_RowPrev R]; destruct (decide (fst <$> prev = Some k)); [by rewrite bool_decide_eq_true_2|by rewrite bool_decide_eq_false_2]].
        apply count_ext. intros q w Hw. unfold relink, kid. destruct (at_prev h1 hash w) eqn:Ea; [|done]. destruct (Horphan q w Hw Ea) as (En & _). rewrite En. cbn [set_prev st_RowPrev]. rewrite !bool_decide_eq_false_2 by congruence. done.
    + assert (has Functional R = false) as EfR by done. rewrite EfR, andb_false_r. cbn [Z.b2z]. rewrite Z.add_0_r. destruct (decide (k = row)) as [->|Hne].
      * rewrite HR in Hz. injection Hz as <-. cbn [st_CountNextF R]. apply count_ext. intros q y Hy. unfold relink, kid. destruct (at_prev h1 hash y); [by rewrite bool_decide_eq_true_2|]. by rewrite bool_decide_eq_false_2 by (by apply (Hnokid q)).
      * destruct (Hback k z Hz Hne) as (y & Hy & _ & _ & _ & _ & -> & _ & _). rewrite (co_nextF _ Hc k y Hy).
        apply count_ext. intros q w Hw. unfold relink, kid. destruct (at_prev h1 hash w) eqn:Ea; [|done]. destruct (Horphan q w Hw Ea) as (En & _). rewrite En. cbn [set_prev st_RowPrev]. rewrite !bool_decide_eq_false_2 by congruence. done.
  - split; cbn [td_States td_TipsReachable].
    + intros k z Hz. destruct (decide (k = row)) as [->|Hne]; [rewrite HR in Hz; by injection Hz as <-|]. destruct (Hback k z Hz Hne) as (y & Hy & E1 & _ & _ & Ef & _ & _ & Ep). unfold up_view, has. rewrite E1, Ef, Ep. pose proof (re_flag _ _ Hr k y Hy) as E. unfold up_view, has in E. rewrite E. fold m.
      destruct (at_prev h1 hash y) eqn:Ea; [destruct (Horphan k y Hy Ea) as (-> & Hhy & _); by rewrite HviewR|]. destruct (st_RowPrev y) as [q|] eqn:Eq; [|done]. by rewrite Hview by (intros ->; by apply (Hnokid k y)).
    + intros k w. rewrite (re_tips _ _ Hr). fold m. split.
      * intros (y & Hy & -> & Hn & Hv). destruct (Hfwd k y Hy) as (z & Hz & Hne). destruct (Hback k z Hz Hne) as (y' & Hy' & E1 & _ & _ & _ & En & _). rewrite Hy in Hy'. injection Hy' as <-. exists z. rewrite E1, En, (Hview k Hne). done.
      * intros (z & Hz & -> & Hn & Hv). destruct (decide (k = row)) as [->|Hne]; [congruence|]. destruct (Hback k z Hz Hne) as (y & Hy & E1 & _ & _ & _ & En & _). exists y. rewrite <- E1, <- En, <- (Hview k Hne). done.
  - assert (forall k l' q y, Chain m k l' -> q ∈ l' -> m !! q = Some y -> exists y', m' !! q = Some y' /\ linked y' = linked y) as Hkeep.
    { intros k l' q y Hc' Hin Hq. destruct (Hfwd q y Hq) as (z & Hz & Hne). destruct (Hback q z Hz Hne) as (y' & Hy' & E1 & E2 & _ & _ & _ & _ & Ep). rewrite Hq in Hy'. injection Hy' as <-. exists z. split; [done|]. unfold linked. rewrite E1, E2, Ep.
      destruct (at_prev h1 hash y) eqn:Ea; [|done]. exfalso. destruct (Horphan q y Hq Ea) as (En & Hhy & _). destruct (Chain_full m k l' q y Hc' Hin Hq) as [|[? Es]]; [lia|congruence]. }
    split.
    + intros k z d Hz Hzd. destruct (decide (k = row)) as [->|Hne]; [rewrite HR in Hz; by injection Hz as <-|]. destruct (Hback k z Hz Hne) as (y & Hy & E1 & _ & Em & _). eapply (mmr_data_chain m m' k y); [done|done|done|intros l' q w Hc' Hin Hw; by eapply Hkeep|apply Hd; [done|congruence]].
    + intros k z Hz Hrz _ Hhz. destruct (decide (k = row)) as [->|Hne]; [rewrite HR in Hz; by injection Hz as <-|]. destruct (Hback k z Hz Hne) as (y & Hy & E1 & _ & Em & Ef & _). rewrite Em. apply (Hh k y); [done|unfold has in *; by rewrite <- Ef|apply not_elem_of_empty|by rewrite <- E1].
  - exists l. cbn [td_Cursor td_States]. fold m in Hcur, Hl.
    assert (forall q, q ∈ l -> exists y, m !! q = Some y) as Hin.
    { intros q Hq. destruct Hcur as [(_ & ->)|[Hcur _]]; [by apply elem_of_nil in Hq|]. apply list_elem_of_lookup_1 in Hq as [i Hi]. destruct (Chain_lookup sha256 r _ Hm _ l i q Hcur Hi) as (y & Hy & _). by exists y. }
    split.
    + destruct Hcur as [|[Hcur Hlen]]; [by left|]. right. split; [|done]. eapply Chain_mono; [|exact Hcur]. intros q y Hy Hq. destruct (Hfwd q y Hy) as (z & Hz & Hne). destruct (Hback q z Hz Hne) as (y' & Hy' & E1 & _ & _ & _ & _ & _ & Ep). rewrite Hy in Hy'. injection Hy' as <-. exists z. split; [done|]. split; [done|]. rewrite Ep.
      destruct (at_prev h1 hash y) eqn:Ea; [|done]. exfalso. destruct (Horphan q y Hy Ea) as (En & Hhy & _). destruct (Chain_full m _ l q y Hcur Hq Hy) as [|[? Es]]; [lia|congruence].
    + intros k z Hz. destruct (decide (k = row)) as [->|Hne].
      * rewrite HR in Hz. injection Hz as <-. symmetry. apply bool_decide_eq_false_2. intros Hq. destruct (Hin row Hq) as (y & Hy). fold m in Hfresh. congruence.
      * destruct (Hback k z Hz Hne) as (y & Hy & _ & _ & _ & Ef & _). rewrite <- (Hl k y Hy). unfold has. by rewrite Ef.
Qed.
(** The header of the given height and hash, if there is one. *)
Lemma select_head m h hash k x : shape_ok sha256 r m -> head (select scan m (at_hash h hash)) = Some (k, x) <-> m !! k = Some x /\ st_Height x = h /\ st_Hash x = hash.
Proof.
  intros Hm. assert (forall q y, (q, y) ∈ select scan m (at_hash h hash) <-> m !! q = Some y /\ st_Height y = h /\ st_Hash y = hash) as Hin by (intros q y; rewrite (select_elem scan scan_ok); unfold at_hash; by rewrite bool_decide_eq_true).
  rewrite <- Hin. destruct (select scan m (at_hash h hash)) as [|[q y] l] eqn:E; cbn [head]; [split; [done|by intros ?%elem_of_nil]|]. split; [intros [= <- <-]; left|].
  intros Hk. destruct (proj1 (Hin q y) (list_elem_of_here _ _)) as (Hy & <- & <-), (proj1 (Hin k x) Hk) as (Hx & E1 & E2). assert (k = q) as -> by (by apply (sh_key _ _ _ Hm k q x y)). congruence.
Qed.

Lemma InsertState_known db s k x : tree_ok db -> td_States db !! k = Some x -> st_Height x = s_Height s -> st_Hash x = SystemState.get_Hash sha256 r s -> InsertState sha256 r scan new_row db s = None.
Proof.
  intros [Hm _ _ _ _] Hx Eh Ehash. unfold InsertState. destruct (s_Height s <? HeightGenesis); [done|]. pose proof (proj2 (select_head _ (s_Height s) (SystemState.get_Hash sha256 r s) k x Hm) (conj Hx (conj Eh Ehash))) as E.
  by destruct (select scan (td_States db) (at_hash (s_Height s) (SystemState.get_Hash sha256 r s))).
Qed.

Definition inserted (m : States) (s : Full) (row : Z) (hash : list Z) (prev : option (Z * StateRow)) : States :=
  let h1 := s_Height s + 1 in
  <[row := mkRow s hash 0 (fst <$> prev) (count (at_prev h1 hash) m) (count (fun x => at_prev h1 hash x && has Functional x) m) None]> (relink row h1 hash <$> with_prev m prev).

Lemma inserted_tips (db : TreeDb) (s : Full) (row : Z) (hash : list Z) (prev : option (Z * StateRow)) (tips : gset (Z * Z)) : tree_ok db -> new_header (td_States db) s row hash prev ->
  (forall h k, (h, k) ∈ tips <-> ((h, k) ∈ td_Tips db /\ fst <$> prev <> Some k) \/ (h = s_Height s /\ k = row /\ count (at_prev (s_Height s + 1) hash) (td_States db) = 0)) ->
  forall h k, (h, k) ∈ tips <-> exists z, inserted (td_States db) s row hash prev !! k = Some z /\ h = st_Height z /\ st_CountNext z = 0.
Proof.
  intros [Hm Hc _ _ _] [Hht [Hrow Hfresh] Ehash Hnew Hprev] Htips h k. rewrite Htips. unfold inserted. destruct (decide (k = row)) as [->|Hne].
  - rewrite lookup_insert_eq. split; [intros [[(z & Hz & _)%(co_tips _ Hc) _]|(-> & _ & H0)]; [congruence|by eexists]|]. intros (z & [= <-] & -> & H0). right. done.
  - rewrite lookup_insert_ne, lookup_fmap by done. rewrite (co_tips _ Hc). assert (forall y, st_CountNext (relink row (s_Height s + 1) hash y) = st_CountNext y /\ st_Full (relink row (s_Height s + 1) hash y) = st_Full y) as Hrl by (intros y; unfold relink; by destruct (at_prev _ _ y)).
    destruct (decide (fst <$> prev = Some k)) as [Ep|Ep].
    + destruct prev as [[p y]|]; [|done]. injection Ep as ->. destruct (proj1 (Hprev k y) eq_refl) as (Hy & _). split; [intros [[_ H]|(_ & -> & _)]; done|]. cbn [with_prev]. rewrite lookup_insert_eq. cbn [fmap option_fmap option_map]. intros (z & [= <-] & _ & H0). rewrite (proj1 (Hrl _)) in H0. cbn in H0.
      pose proof (co_next _ Hc k y Hy) as E. pose proof (count_nonneg (kid k) (td_States db)). lia.
    + assert (with_prev (td_States db) prev !! k = td_States db !! k) as -> by (unfold with_prev; destruct prev as [[p y]|]; [rewrite lookup_insert_ne by (intros ->; by apply Ep)|]; done). split.
      * intros [[(y & Hy & -> & H0) _]|(_ & -> & _)]; [|done]. rewrite Hy. eexists. split; [done|]. by rewrite !(proj1 (Hrl y)), !(proj2 (Hrl y)).
      * intros (z & Hz & -> & H0). left. split; [|done]. destruct (td_States db !! k) as [y|]; [|done]. injection Hz as <-. exists y. by rewrite (proj1 (Hrl y)) in H0; rewrite (proj2 (Hrl y)).
Qed.

Lemma InsertState_ok db s : tree_ok db -> 1 <= s_Height s < 2 ^ 62 - 1 -> Z.of_nat (size (td_States db)) < 2 ^ 32 - 1 ->
  (forall k x, td_States db !! k = Some x -> st_Height x = s_Height s -> st_Hash x = SystemState.get_Hash sha256 r s -> False) ->
  let m := td_States db in let row := new_row m in let hash := SystemState.get_Hash sha256 r s in
  exists prev tips, new_header m s row hash prev /\ InsertState sha256 r scan new_row db s = Some (mkTree (inserted m s row hash prev) tips (td_TipsReachable db) (td_Cursor db), row) /\ tree_ok (mkTree (inserted m s row hash prev) tips (td_TipsReachable db) (td_Cursor db)).
Proof.
  intros Hok Hht Hsize Hnew m row hash. pose proof Hok as [Hm Hc _ _ _]. set (h := s_Height s). assert (u64 (h - 1) = h - 1 /\ u64 (h + 1) = h + 1) as [E1 E2] by (split; apply wrap_small; unfold in_width, h; lia).
  set (prev := head (select scan m (at_hash (h - 1) (s_Prev s)))). assert (new_header m s row hash prev) as Hnh.
  { split; [exact Hht|apply new_row_ok|done|exact Hnew|]. intros p y. by apply select_head. }
  pose proof Hnh as [_ [Hrow Hfresh] _ _ Hprev]. set (n := count (at_prev (h + 1) hash) m).
  set (tips1 := match prev with Some (p, y) => if st_CountNext y =? 0 then td_Tips db ∖ {[(h - 1, p)]} else td_Tips db | None => td_Tips db end).
  set (tips := if n =? 0 then {[(h, row)]} ∪ tips1 else tips1). exists prev, tips. split; [done|].
  assert (forall a k, (a, k) ∈ tips1 <-> (a, k) ∈ td_Tips db /\ fst <$> prev <> Some k) as Htips1.
  { intros a k. unfold tips1. destruct prev as [[p y]|]; cbn [fmap option_fmap option_map fst]; [|split; [done|by intros [? _]]]. destruct (proj1 (Hprev p y) eq_refl) as (Hy & Hhy & _).
    assert ((a, p) ∈ td_Tips db <-> a = h - 1 /\ st_CountNext y = 0) as Hp. { rewrite (co_tips _ Hc). fold m. rewrite Hy. split; [intros (z & [= <-] & -> & H0); split; [exact Hhy|done]|]. intros [-> H0]. exists y. split_and!; done. }
    destruct (Z.eqb_spec (st_CountNext y) 0) as [H0|H0]; [rewrite elem_of_difference, elem_of_singleton|]; split.
    - intros [Hin Hne]. split; [done|]. intros [= <-]. apply Hne. f_equal. by apply Hp.
    - intros [Hin Hne]. split; [done|]. intros [= -> ->]. done.
    - intros Hin. split; [done|]. intros [= <-]. by apply Hp in Hin as [_ ?].
    - by intros [? _]. }
  split.
  - unfold InsertState. fold h m. rewrite (proj2 (Z.ltb_ge _ _)) by (unfold HeightGenesis, h; lia). rewrite E1, E2. fold prev hash.
    assert (select scan m (at_hash h hash) = []) as -> by (destruct (select scan m (at_hash h hash)) as [|[k x] l] eqn:E; [done|]; exfalso; destruct (proj1 (select_elem scan scan_ok m (at_hash h hash) k x)) as [Hx [Eh Ev]%bool_decide_eq_true_1]; [rewrite E; left|]; by apply (Hnew k x)).
    fold row. rewrite (select_count scan scan_ok). set (R0 := mkRow s hash 0 (fst <$> prev) 0 _ None).
    assert ((match prev with None => Some (with_states (<[row := R0]> m) db) | Some (rowPrev, x) => db0 ← SetNextCount (with_states (<[row := R0]> m) db) rowPrev (u32 (st_CountNext x + 1)); if st_CountNext x =? 0 then TipDel db0 rowPrev (h - 1) else Some db0 end)
      = Some (mkTree (<[row := R0]> (with_prev m prev)) tips1 (td_TipsReachable db) (td_Cursor db))) as ->.
    { unfold tips1. destruct prev as [[p y]|]; [|done]. destruct (proj1 (Hprev p y) eq_refl) as (Hy & Hhy & _). assert (p <> row) as Hpr by (intros ->; congruence). unfold SetNextCount, update1. cbn [with_states td_States]. rewrite lookup_insert_ne, Hy by done. cbn [mbind option_bind].
      rewrite wrap_small by (pose proof (count_size (kid p) m) as Hsz; pose proof (count_nonneg (kid p) m); pose proof (co_next _ Hc p y Hy) as En; fold m in En, Hsize; unfold in_width; lia). rewrite insert_insert_ne by done. unfold with_prev.
      destruct (Z.eqb_spec (st_CountNext y) 0) as [H0|]; [|done]. unfold TipDel. cbn [with_states td_Tips]. rewrite decide_True; [done|]. apply (co_tips _ Hc). exists y. split_and!; [done|unfold h; lia|done]. }
    cbn [mbind option_bind td_States]. rewrite (select_count scan scan_ok).
    assert (at_prev (h + 1) hash R0 = false) as Ea by (apply bool_decide_eq_false_2; intros [H _]; cbn in H; unfold h in H; lia).
    assert (with_prev m prev !! row = None) as Hwp by (unfold with_prev; destruct prev as [[p y]|]; [|done]; rewrite lookup_insert_ne; [done|]; destruct (proj1 (Hprev p y) eq_refl) as (Hy & _); intros ->; congruence).
    assert (count (at_prev (h + 1) hash) (<[row := R0]> (with_prev m prev)) = n) as ->.
    { rewrite count_insert_new, Ea by done. unfold with_prev. destruct prev as [[p y]|]; cbn [Z.b2z]; [|unfold n; lia]. destruct (proj1 (Hprev p y) eq_refl) as (Hy & _). rewrite (count_insert _ _ _ _ y Hy). change (at_prev (h + 1) hash (set_next _ y)) with (at_prev (h + 1) hash y). unfold n. lia. }
    change (fun x => if at_prev (h + 1) hash x then set_prev row x else x) with (relink row (h + 1) hash). unfold with_states. cbn [td_States td_Tips td_TipsReachable td_Cursor]. rewrite fmap_insert. assert (relink row (h + 1) hash R0 = R0) as -> by (unfold relink; by rewrite Ea).
    unfold inserted, tips. fold h n. destruct (Z.eqb_spec n 0) as [H0|H0]; cbn [negb].
    + unfold TipAdd. cbn [td_Tips]. rewrite decide_False; [by rewrite H0|]. intros [(z & Hz & _)%(co_tips _ Hc) _]%Htips1. fold m in Hz. congruence.
    + unfold SetNextCount, update1. cbn [td_States]. rewrite lookup_insert_eq. cbn [mbind option_bind]. unfold with_states. cbn [td_Tips td_TipsReachable td_Cursor]. by rewrite insert_insert_eq.
  - apply insert_ok; [done|done|]. apply (inserted_tips db s row hash prev tips Hok Hnh). intros a k. fold h m n. rewrite <- Htips1. unfold tips. destruct (Z.eqb_spec n 0) as [H0|H0]; [rewrite elem_of_union, elem_of_singleton|]; split.
    + intros [[= -> ->]|]; [by right|by left].
    + intros [|(-> & -> & _)]; [by right|by left].
    + by left.
    + by intros [|(_ & _ & ?)].
Qed.
(** ** The cursor *)

(** A row without its active flag. *)
Definition still (x : StateRow) := (linked x, st_CountNext x, st_CountNextF x, has Functional x, has Reachable x, st_Mmr x).

Lemma still_fields x x' : still x' = still x -> linked x' = linked x /\ st_CountNext x' = st_CountNext x /\ st_CountNextF x' = st_CountNextF x /\ has Functional x' = has Functional x /\ has Reachable x' = has Reachable x /\ st_Mmr x' = st_Mmr x.
Proof. unfold still, linked. intros E. injection E as E1 E2 E3 E4 E5 E6 E7 E8. by rewrite E1, E2, E3. Qed.

Lemma still_linked (m m' : States) : still <$> m = still <$> m' -> linked <$> m = linked <$> m'.
Proof. intros E. pose (g := fun c : Full * list Z * option Z * Z * Z * bool * bool * option (NodeData (Hash := list Z)) => c.1.1.1.1.1). change (fmap (g ∘ still) m = fmap (g ∘ still) m'). by rewrite !map_fmap_compose, E. Qed.

Lemma still_view m m' q : still <$> m = still <$> m' -> view ∅ m' q = view ∅ m q.
Proof.
  intros E. unfold view. destruct (m' !! q) as [z|] eqn:Hz.
  - destruct (fmap_lookup_eq still m' m q z (eq_sym E) Hz) as (y & -> & Ey). by apply still_fields in Ey as (_ & _ & _ & _ & -> & _).
  - destruct (m !! q) as [y|] eqn:Hy; [|done]. destruct (fmap_lookup_eq still m m' q y E Hy) as (z & Hz' & _). congruence.
Qed.

Lemma still_count (m m' : States) (Q : StateRow -> bool) : (forall x x', still x' = still x -> Q x' = Q x) -> still <$> m = still <$> m' -> count Q m' = count Q m.
Proof.
  intros HQ E. assert (forall m1, count Q m1 = count id (Q <$> m1)) as Hid by (intros m1; by rewrite count_fmap). rewrite !Hid. f_equal. apply map_eq. intros k. rewrite !lookup_fmap.
  pose proof (f_equal (lookup k) E) as Ek. rewrite !lookup_fmap in Ek. destruct (m !! k), (m' !! k); try done. injection Ek as Ek. cbn. f_equal. apply HQ. unfold still, linked. congruence.
Qed.

Lemma still_ok db m' cur : tree_ok db -> still <$> td_States db = still <$> m' -> (forall k x, m' !! k = Some x -> flag_ok (st_Flags x)) ->
  act_ok (mkTree m' (td_Tips db) (td_TipsReachable db) cur) -> tree_ok (mkTree m' (td_Tips db) (td_TipsReachable db) cur).
Proof.
  intros [Hm Hc Hr [Hd Hh] _] E Hfl Hact. pose proof (still_linked _ _ E) as El. assert (forall k z, m' !! k = Some z -> exists y, td_States db !! k = Some y /\ still z = still y) as Hback.
  { intros k z Hz. destruct (fmap_lookup_eq still _ _ k z (eq_sym E) Hz) as (y & Hy & Ey). by exists y. }
  split; [by eapply shape_linked| | | |done]; split; cbn [td_States td_Tips td_TipsReachable].
  - intros k z Hz. destruct (Hback k z Hz) as (y & Hy & Ez). rewrite (still_count (td_States db) m'); [|by intros u v (Ev & _)%still_fields; apply linked_fields in Ev as (_ & _ & Ev); unfold kid; rewrite Ev|done]. apply still_fields in Ez as (_ & -> & _). by apply (co_next _ Hc).
  - intros k z Hz. destruct (Hback k z Hz) as (y & Hy & Ez). rewrite (still_count (td_States db) m'); [|by intros u v (Ev & _ & _ & Ef & _)%still_fields; apply linked_fields in Ev as (_ & _ & Ev); unfold kid; rewrite Ev, Ef|done]. apply still_fields in Ez as (_ & _ & -> & _). by apply (co_nextF _ Hc).
  - intros h k. rewrite (co_tips _ Hc). split; intros (y & Hy & -> & Hn); [destruct (fmap_lookup_eq still _ _ k y E Hy) as (z & Hz & Ez)|destruct (Hback k y Hy) as (z & Hz & Ez)]; exists z; apply still_fields in Ez as (Ez & En & _); apply linked_fields in Ez as (Ef & _); [by rewrite Ef, En|by rewrite <- Ef, <- En].
  - intros k z Hz. destruct (Hback k z Hz) as (y & Hy & Ez). apply still_fields in Ez as (Ez & _ & _ & -> & -> & _). apply linked_fields in Ez as (Ef & _ & Ep). rewrite (re_flag _ _ Hr k y Hy). unfold up_view. rewrite Ef, Ep. destruct (st_RowPrev y); [by rewrite (still_view _ _ _ E)|done].
  - intros k w. rewrite (re_tips _ _ Hr), (still_view _ _ _ E). split; intros (y & Hy & -> & Hn); [destruct (fmap_lookup_eq still _ _ k y E Hy) as (z & Hz & Ez)|destruct (Hback k y Hy) as (z & Hz & Ez)]; exists z; apply still_fields in Ez as (Ez & _ & En & _); apply linked_fields in Ez as (Ef & _); [by rewrite Ef, En|by rewrite <- Ef, <- En].
  - intros k z d Hz Hzd. destruct (Hback k z Hz) as (y & Hy & Ez). apply still_fields in Ez as (Ez & _ & _ & _ & _ & Em). eapply mmr_data_linked; [exact El|exact Ez|]. apply Hd; [done|congruence].
  - intros k z Hz Hrz _ Hhz. destruct (Hback k z Hz) as (y & Hy & Ez). apply still_fields in Ez as (Ez & _ & _ & _ & Er & Em). apply linked_fields in Ez as (Ef & _). rewrite Em. apply (Hh k y); [done|congruence|apply not_elem_of_empty|by rewrite <- Ef].
Qed.

(** The flag of one row changes. *)
Lemma set_active_still m row x f : shape_ok sha256 r m -> m !! row = Some x -> flag_ok f -> (bits f).1 = (bits (st_Flags x)).1 ->
  still <$> m = still <$> <[row := set_flags f x]> m /\ (forall k y, <[row := set_flags f x]> m !! k = Some y -> flag_ok (st_Flags y)) /\ linked <$> m = linked <$> <[row := set_flags f x]> m.
Proof.
  intros Hm Hx Hf Eb. assert (still <$> m = still <$> <[row := set_flags f x]> m) as E.
  { rewrite fmap_insert. assert (still (set_flags f x) = still x) as ->. { unfold still, has, linked. cbn. injection Eb as -> ->. done. } symmetry. apply insert_id. by rewrite lookup_fmap, Hx. }
  split; [done|]. split; [|by apply still_linked]. intros k y. destruct (decide (k = row)) as [->|Hne]; [rewrite lookup_insert_eq; by intros [= <-]|]. rewrite lookup_insert_ne by done. intros Hy. by apply (sh_row _ _ _ Hm k y).
Qed.

(** The current chain, the rows from the first to the cursor. *)
Definition current (db : TreeDb) (l : list Z) : Prop :=
  (td_Cursor db = (0, 0) /\ l = [] \/ Chain (td_States db) (td_Cursor db).1 l /\ (td_Cursor db).2 = Z.of_nat (length l)) /\ forall k x, td_States db !! k = Some x -> has Active x = bool_decide (k ∈ l).

Lemma MoveFwd_ok db row x l : tree_ok db -> current db l -> td_States db !! row = Some x ->
  (td_Cursor db = (0, 0) /\ st_Height x = 1 \/ st_RowPrev x = Some (td_Cursor db).1 /\ (td_Cursor db).1 <> 0) ->
  exists db', MoveFwd db (row, st_Height x) = Some db' /\ tree_ok db' /\ current db' (l ++ [row]) /\ still <$> td_States db = still <$> td_States db'.
Proof.
  intros Hok [Hcur Hl] Hx Hnext. pose proof (to_shape _ Hok) as Hm. pose proof (sh_row _ _ _ Hm row x Hx) as (_ & Hh & Hfl & _). destruct (bits_set_ac _ Hfl) as [Hf' Eb]. set (f := Z.lor (st_Flags x) Active) in *.
  destruct (set_active_still _ row x f Hm Hx Hf' ltac:(by rewrite Eb; destruct (bits (st_Flags x)) as [[] ?])) as (E & Hfls & El).
  unfold MoveFwd, update1. cbn [fst]. rewrite Hx. cbn [mbind option_bind]. fold f. eexists. split; [done|]. unfold with_cursor, with_states. cbn [td_States td_Tips td_TipsReachable].
  assert (Chain (td_States db) row (l ++ [row]) /\ st_Height x = Z.of_nat (length (l ++ [row]))) as [Hc Hlen].
  { destruct Hcur as [(E0 & ->)|[Hc Hlen]].
    - destruct Hnext as [[_ H1]|[_ H0]]; [split; [by eapply Chain_genesis|by cbn]|]. rewrite E0 in H0. done.
    - destruct (Chain_row sha256 r _ Hm _ l Hc) as (y & Hy & Hly & _). destruct Hnext as [[E0 _]|[Ep _]]; [rewrite E0 in Hy; pose proof (sh_row _ _ _ Hm _ y Hy) as [H _]; done|].
      destruct (prev_row sha256 r _ Hm row x _ Hx Ep) as (y' & Hy' & Hhy & _). rewrite Hy in Hy'. injection Hy' as <-. rewrite length_app. cbn [length]. split; [|lia]. eapply Chain_next; [done| |done|done]. pose proof (sh_row _ _ _ Hm _ y Hy). lia. }
  assert (current (mkTree (<[row := set_flags f x]> (td_States db)) (td_Tips db) (td_TipsReachable db) (row, st_Height x)) (l ++ [row])) as Hcu.
  { split; [right; cbn [td_States td_Cursor fst snd]; split; [by eapply Chain_linked|done]|]. cbn [td_States]. intros k y. destruct (decide (k = row)) as [->|Hne].
    - rewrite lookup_insert_eq. intros [= <-]. destruct (bits_has (set_flags f x) _ _ _ Eb) as (_ & _ & ->). symmetry. apply bool_decide_eq_true_2, elem_of_app. right. by apply list_elem_of_singleton.
    - rewrite lookup_insert_ne by done. intros Hy. rewrite (Hl k y Hy). apply bool_decide_ext. rewrite elem_of_app, list_elem_of_singleton. tauto. }
  split; [|done]. apply still_ok; [done|done|done|]. by exists (l ++ [row]).
Qed.

Lemma MoveBack_ok db l row : tree_ok db -> current db (l ++ [row]) ->
  exists db', MoveBack db (td_Cursor db) = Some (db', td_Cursor db') /\ (td_Cursor db').2 = (td_Cursor db).2 - 1 /\ tree_ok db' /\ current db' l /\ still <$> td_States db = still <$> td_States db'.
Proof.
  intros Hok [Hcur Hl]. pose proof (to_shape _ Hok) as Hm. destruct Hcur as [(_ & H)|[Hc Hlen]]; [by destruct l|]. destruct (Chain_row sha256 r _ Hm _ _ Hc) as (x & Hx & Hlx & Hlast). rewrite last_snoc in Hlast. injection Hlast as Erow. rewrite <- Erow in *. destruct (td_Cursor db) as [row' h] eqn:Ecur. cbn [fst snd] in *. subst row'.
  pose proof (Chain_NoDup sha256 r _ Hm _ _ Hc) as Hnd. apply NoDup_app in Hnd as (_ & Hnin & _).
  pose proof (sh_row _ _ _ Hm row x Hx) as (Hpos & Hh & Hfl & _). destruct (bits_clear_ac _ Hfl) as [Hf' Eb]. set (f := Z.land (st_Flags x) (u32 (Z.lnot Active))) in *.
  destruct (set_active_still _ row x f Hm Hx Hf' ltac:(by rewrite Eb; destruct (bits (st_Flags x)) as [[] ?])) as (E & Hfls & El).
  unfold MoveBack, update1, get_Prev. cbn [fst snd]. rewrite Hx. cbn [mbind option_bind]. fold f. unfold with_cursor, with_states. cbn [td_States td_Tips td_TipsReachable]. rewrite (proj2 (Z.eqb_neq _ _)), lookup_insert_eq by lia. cbn [mbind option_bind set_flags st_RowPrev].
  set (sid := match st_RowPrev x with Some p => _ | None => _ end). exists (mkTree (<[row := set_flags f x]> (td_States db)) (td_Tips db) (td_TipsReachable db) sid). split; [done|]. cbn [td_Cursor td_States]. assert (sid.2 = h - 1 /\ (sid = (0, 0) /\ l = [] \/ Chain (td_States db) sid.1 l /\ sid.2 = Z.of_nat (length l))) as [E2 Hsid].
  { rewrite length_app in *. cbn [length] in *. inversion Hc as [k y Hy H1 Ek El'|k y p l' Hy H1 Ep Hc' Ek El'].
    - rewrite Hx in Hy. injection Hy as <-. unfold sid. rewrite (prev_genesis sha256 r _ Hm row x Hx H1). destruct l as [|a [|b l]]; [|done|done]. split; [unfold HeightGenesis; cbn [snd length] in *; lia|by left].
    - apply app_inj_tail in El' as [-> _]. rewrite Hx in Hy. injection Hy as <-. unfold sid. rewrite Ep. cbn [fst snd]. rewrite wrap_small by (unfold in_width; lia). split; [done|]. right. split; [done|lia]. }
  assert (current (mkTree (<[row := set_flags f x]> (td_States db)) (td_Tips db) (td_TipsReachable db) sid) l) as Hcu.
  { split; [destruct Hsid as [|[Hs1 Hs2]]; [by left|right; cbn [td_States td_Cursor]; split; [by eapply Chain_linked|done]]|]. cbn [td_States]. intros k y. destruct (decide (k = row)) as [->|Hne].
    - rewrite lookup_insert_eq. intros [= <-]. destruct (bits_has (set_flags f x) _ _ _ Eb) as (_ & _ & ->). symmetry. apply bool_decide_eq_false_2. intros Hin. apply (Hnin row Hin). by apply list_elem_of_singleton.
    - rewrite lookup_insert_ne by done. intros Hy. rewrite (Hl k y Hy). apply bool_decide_ext. rewrite elem_of_app, list_elem_of_singleton. tauto. }
  split; [exact E2|]. split; [|split; [exact Hcu|exact E]]. apply still_ok; [done|done|done|]. by exists l.
Qed.
(** ** The check of the tables passes *)
Lemma before_rows m k x : shape_ok sha256 r m -> m !! k = Some x -> select scan m (is_before x) = match st_RowPrev x with Some p => from_option (fun y => [(p, y)]) [] (m !! p) | None => [] end.
Proof.
  intros Hm Hx. assert (forall p y, (p, y) ∈ select scan m (is_before x) <-> st_RowPrev x = Some p /\ m !! p = Some y) as Hin.
  { intros p y. rewrite (select_elem scan scan_ok). unfold is_before. rewrite bool_decide_eq_true, (sh_prev _ _ _ Hm k x p Hx). split; [intros (Hy & H1 & H2); split; [exists y; split_and!; [done|lia|done]|done]|]. intros [(z & Hz & H1 & H2) Hy]. rewrite Hz in Hy. injection Hy as <-. split_and!; [done|lia|done]. }
  pose proof (select_NoDup scan scan_ok m (is_before x)) as Hnd. destruct (select scan m (is_before x)) as [|[p y] [|[q z] l]].
  - destruct (st_RowPrev x) as [p|] eqn:Ep; [|done]. destruct (prev_row sha256 r m Hm k x p Hx Ep) as (y & Hy & _). assert ((p, y) ∈ []) as H by (by apply Hin). by apply elem_of_nil in H.
  - destruct (proj1 (Hin p y) ltac:(left)) as [-> ->]. done.
  - exfalso. destruct (proj1 (Hin p y) ltac:(left)) as [Ep _], (proj1 (Hin q z) ltac:(right; left)) as [Eq _]. rewrite Ep in Eq. injection Eq as ->. apply NoDup_cons in Hnd as [Hnd _]. apply Hnd. left.
Qed.

Lemma joined m : shape_ok sha256 r m -> mjoin ((fun x : Z * StateRow => left_join x (select scan m (is_before x.2))) <$> scan m) =
  (fun x : Z * StateRow => (x, p ← st_RowPrev x.2; y ← m !! p; Some (p, y))) <$> scan m.
Proof.
  intros Hm. assert (Forall (fun x : Z * StateRow => m !! x.1 = Some x.2) (scan m)) as HF by (apply Forall_forall; intros [k x] Hx; rewrite scan_ok in Hx; by apply elem_of_map_to_list in Hx).
  induction HF as [|[k x] l Hx HF IH]; [done|]. rewrite !fmap_cons, <- IH. cbn [fst snd] in *. change (mjoin (?a :: ?b)) with (a ++ mjoin b). cbn [fst snd] in *. rewrite (before_rows m k x Hm Hx). unfold left_join. destruct (st_RowPrev x) as [p|]; [|done]. cbn [mbind option_bind]. by destruct (m !! p).
Qed.

Lemma joined_count m (P : StateRow -> bool) : Z.of_nat (length (filter (fun z : (Z * StateRow) * option (Z * StateRow) => P z.1.2 = true) ((fun x : Z * StateRow => (x, p ← st_RowPrev x.2; y ← m !! p; Some (p, y))) <$> scan m))) = count P m.
Proof.
  rewrite <- (select_count scan scan_ok). unfold select. f_equal. induction (scan m) as [|[k x] l IH]; [done|]. rewrite fmap_cons, !filter_cons. cbn [fst snd]. destruct (decide (P x = true)); [|done]. cbn [length]. by rewrite IH.
Qed.

Lemma tips_size db : tree_ok db -> Z.of_nat (size (td_Tips db)) = count (fun x => st_CountNext x =? 0) (td_States db).
Proof.
  intros Hok. rewrite <- (select_count scan scan_ok). f_equal. set (L := select scan (td_States db) _).
  assert (td_Tips db = list_to_set ((fun x : Z * StateRow => (st_Height x.2, x.1)) <$> L)) as E.
  { apply set_eq. intros [h k]. rewrite elem_of_list_to_set, list_elem_of_fmap, (co_tips _ (to_counts _ Hok)). split.
    - intros (x & Hx & -> & H0). exists (k, x). split; [done|]. apply (select_elem scan scan_ok). by rewrite Z.eqb_eq.
    - intros ([k' x] & [= -> ->] & Hx). apply (select_elem scan scan_ok) in Hx as [Hx H0%Z.eqb_eq]. by exists x. }
  rewrite E, size_list_to_set; [by rewrite length_fmap|]. pose proof (select_NoDup scan scan_ok (td_States db) (fun x => st_CountNext x =? 0)) as Hnd. fold L in Hnd. apply (NoDup_fmap_1 snd). rewrite <- list_fmap_compose. exact Hnd.
Qed.

Lemma reachable_size db : tree_ok db -> Z.of_nat (size (td_TipsReachable db)) = count (fun x => (st_CountNextF x =? 0) && has Reachable x) (td_States db).
Proof.
  intros Hok. unfold count. f_equal. rewrite <- !size_dom. f_equal. apply set_eq. intros k. rewrite !elem_of_dom. pose proof (tips_lookup db k (to_reach _ Hok)) as E. destruct (td_States db !! k) as [x|] eqn:Hx.
  - rewrite (view_reach _ _ x Hx) in E. rewrite E. destruct ((st_CountNextF x =? 0) && has Reachable x) eqn:Eb.
    + split; [|by eexists]. intros _. exists x. apply map_lookup_filter_Some. done.
    + split; [by intros [? ?]|]. intros [y [Hy Hp]%map_lookup_filter_Some]. rewrite Hx in Hy. injection Hy as <-. cbn in Hp. congruence.
  - rewrite E. split; [by intros [? ?]|]. intros [y [Hy _]%map_lookup_filter_Some]. congruence.
Qed.

Lemma next_kids db k x y : shape_ok sha256 r (td_States db) -> td_States db !! k = Some x -> forall q, td_States db !! q = Some y -> is_next x y = kid k y.
Proof.
  intros Hm Hx q Hy. apply bool_decide_ext. rewrite (sh_prev _ _ _ Hm q y k Hy). split; [intros [H1 H2]; by exists x|]. intros (z & Hz & H1 & H2). rewrite Hx in Hz. by injection Hz as <-.
Qed.

Lemma assert_valid_ok db : tree_ok db -> assert_valid scan db = true.
Proof.
  intros Hok. pose proof Hok as [Hm Hc Hr _ _]. unfold assert_valid. rewrite (joined _ Hm). assert (forall k x, (k, x) ∈ scan (td_States db) -> td_States db !! k = Some x) as Hscan by (intros k x; by rewrite scan_ok, elem_of_map_to_list).
  rewrite !andb_true_iff. split_and!.
  - apply forallb_forall. intros z Hz%list_elem_of_In. apply list_elem_of_fmap in Hz as ([k x] & -> & Hx%Hscan). unfold valid_row. cbn [fst snd]. pose proof (re_flag _ _ Hr k x Hx) as Er. unfold up_view in Er.
    assert ((st_CountNextF x <=? st_CountNext x) = true) as -> by (apply Z.leb_le; rewrite (co_next _ Hc k x Hx), (co_nextF _ Hc k x Hx); apply count_mono; intros q y _ [? _]%andb_true_iff; done). rewrite andb_true_r.
    destruct (st_RowPrev x) as [p|] eqn:Ep; cbn [mbind option_bind].
    + destruct (prev_row sha256 r _ Hm k x p Hx Ep) as (y & Hy & Hhy & _). rewrite Hy. cbn [mbind option_bind]. rewrite !bool_decide_eq_true_2, Z.eqb_refl by (by eexists). rewrite (view_reach _ _ y Hy) in Er. pose proof (sh_row _ _ _ Hm p y Hy). rewrite bool_decide_eq_false_2 in Er by lia. cbn [orb] in Er.
      rewrite Er. by destruct (has Functional x), (has Reachable y).
    + rewrite !bool_decide_eq_false_2 by (by intros [? ?]). rewrite orb_false_r in Er. rewrite Er. destruct (has Functional x); [|done]. cbn [andb]. destruct (decide (st_Height x = 1)) as [->|]; [done|]. by rewrite bool_decide_eq_false_2.
  - apply forallb_forall. intros [h k] Hz%list_elem_of_In. apply elem_of_elements in Hz. apply (co_tips _ Hc) in Hz as (x & Hx & -> & H0). cbn [fst snd]. rewrite Hx. cbn [from_option]. by rewrite H0, Z.eqb_refl.
  - rewrite (joined_count _ (fun x => st_CountNext x =? 0)), (tips_size db Hok), Z.sub_diag. done.
  - apply forallb_forall. intros [k w] Hz%list_elem_of_In. apply elem_of_map_to_list in Hz. apply (re_tips _ _ Hr) in Hz as (x & Hx & _ & H0 & Hv). cbn [fst snd]. rewrite Hx. cbn [from_option]. rewrite (view_reach _ _ x Hx) in Hv. by rewrite H0, Hv.
  - rewrite (joined_count _ (fun x => (st_CountNextF x =? 0) && has Reachable x)), (reachable_size db Hok), Z.sub_diag. done.
  - apply forallb_forall. intros [k x] Hx%list_elem_of_In. apply Hscan in Hx. cbn [snd]. apply Z.eqb_eq. rewrite (select_count scan scan_ok), (co_next _ Hc k x Hx). apply count_ext. intros q y Hy. symmetry. by apply (next_kids db k x y Hm Hx q).
  - apply forallb_forall. intros [k x] Hx%list_elem_of_In. apply Hscan in Hx. cbn [snd]. apply Z.eqb_eq. rewrite (select_count scan scan_ok), (co_nextF _ Hc k x Hx). apply count_ext. intros q y Hy. by rewrite (next_kids db k x y Hm Hx q Hy).
Qed.
(** ** Sequences of operations *)
Inductive tree_op := OpInsert (s : Full) | OpDelete (row : Z) | OpFunctional (row : Z) | OpNotFunctional (row : Z) | OpForward (row : Z) | OpBack.

Definition run_op (db : TreeDb) (o : tree_op) : option TreeDb :=
  match o with
  | OpInsert s => fst <$> InsertState sha256 r scan new_row db s
  | OpDelete row => (fun x => x.1.1) <$> DeleteState db row
  | OpFunctional row => SetStateFunctional sha256 scan db row
  | OpNotFunctional row => SetStateNotFunctional sha256 scan db row
  | OpForward row => x ← td_States db !! row; MoveFwd db (row, st_Height x)
  | OpBack => fst <$> MoveBack db (td_Cursor db)
  end.

(** When the node may do this: the header is new, the row is there, the row is not the end of the
    current chain, the next row follows the cursor. *)
Definition op_fits (db : TreeDb) (o : tree_op) : bool :=
  (Z.of_nat (size (td_States db)) <? 2 ^ 32 - 1) &&
  match o with
  | OpInsert s => (1 <=? s_Height s) && (s_Height s <? 2 ^ 62 - 1) && (StateFindSafe scan db (s_Height s) (SystemState.get_Hash sha256 r s) =? 0)
  | OpDelete row => from_option (fun x => negb (st_CountNext x =? 0) || negb (has Active x)) false (td_States db !! row)
  | OpFunctional row | OpNotFunctional row => bool_decide (is_Some (td_States db !! row))
  | OpForward row => from_option (fun x => bool_decide (td_Cursor db = (0, 0) /\ st_Height x = 1) || bool_decide (st_RowPrev x = Some (td_Cursor db).1 /\ (td_Cursor db).1 <> 0)) false (td_States db !! row)
  | OpBack => negb ((td_Cursor db).1 =? 0)
  end.

Fixpoint run_ops (db : TreeDb) (l : list tree_op) : option TreeDb := match l with [] => Some db | o :: l => db ← run_op db o; run_ops db l end.

Fixpoint ops_fit (db : TreeDb) (l : list tree_op) : bool :=
  match l with [] => true | o :: l => op_fits db o && match run_op db o with Some db => ops_fit db l | None => true end end.

Definition empty_db : TreeDb := mkTree ∅ ∅ ∅ (0, 0).

Lemma empty_ok : tree_ok empty_db.
Proof.
  split; [split|split|split|split|exists []]; cbn [empty_db td_States td_Tips td_TipsReachable td_Cursor]; try (intros *; rewrite ?lookup_empty; done).
  - intros h k. split; [by intros ?%elem_of_empty|intros (x & Hx & _); by rewrite lookup_empty in Hx].
  - intros k w. rewrite lookup_empty. split; [done|]. intros (x & Hx & _). by rewrite lookup_empty in Hx.
  - split; [by left|]. intros k x. by rewrite lookup_empty.
Qed.

Lemma find_none db s : tree_ok db -> StateFindSafe scan db (s_Height s) (SystemState.get_Hash sha256 r s) = 0 ->
  forall k x, td_States db !! k = Some x -> st_Height x = s_Height s -> st_Hash x = SystemState.get_Hash sha256 r s -> False.
Proof.
  intros Hok E k x Hx Eh Ev. pose proof (to_shape _ Hok) as Hm. pose proof (proj2 (select_head _ (s_Height s) (SystemState.get_Hash sha256 r s) k x Hm) (conj Hx (conj Eh Ev))) as H. unfold StateFindSafe in E.
  destruct (select scan (td_States db) _) as [|[q y] l]; [done|]. injection H as -> ->. pose proof (sh_row _ _ _ Hm k x Hx) as [? _]. cbn in E. lia.
Qed.

Lemma run_op_ok db o : tree_ok db -> op_fits db o = true -> exists db', run_op db o = Some db' /\ tree_ok db'.
Proof.
  intros Hok [Hsize%Z.ltb_lt Hfit]%andb_true_iff. destruct o as [s|row|row|row|row|]; cbn [run_op].
  - apply andb_true_iff in Hfit as [[H1%Z.leb_le H2%Z.ltb_lt]%andb_true_iff H3%Z.eqb_eq]. destruct (InsertState_ok db s Hok ltac:(lia) Hsize (find_none db s Hok H3)) as (prev & tips & _ & -> & H). by eexists.
  - destruct (td_States db !! row) as [x|] eqn:Hx; [|done]. cbn in Hfit. pose proof (DeleteState_ok db row x Hok Hx) as H. destruct (st_CountNext x =? 0); cbn [negb orb] in *; [|rewrite H; by eexists]. destruct (has Active x); [done|]. destruct H as (tips & t & -> & H). by eexists.
  - apply bool_decide_eq_true_1 in Hfit as [x Hx]. destruct (SetStateFunctional_ok db row x Hok Hx Hsize) as (db' & -> & H & _). by eexists.
  - apply bool_decide_eq_true_1 in Hfit as [x Hx]. destruct (SetStateNotFunctional_ok db row x Hok Hx) as (db' & -> & H & _). by eexists.
  - destruct (td_States db !! row) as [x|] eqn:Hx; [|done]. cbn in Hfit |- *. destruct (to_act _ Hok) as (l & Hl). destruct (MoveFwd_ok db row x l Hok Hl Hx) as (db' & -> & H & _); [|by eexists].
    apply orb_true_iff in Hfit as [H%bool_decide_eq_true_1|H%bool_decide_eq_true_1]; [by left|by right].
  - apply negb_true_iff, Z.eqb_neq in Hfit. destruct (to_act _ Hok) as (l & Hl). destruct l as [|row l _] using rev_ind; [|destruct (MoveBack_ok db l row Hok Hl) as (db' & -> & _ & H & _); by eexists].
    destruct Hl as [[[E _]|[Hc _]] _]; [rewrite E in Hfit; done|]. destruct (Chain_row sha256 r _ (to_shape _ Hok) _ _ Hc) as (? & _ & _ & H). done.
Qed.

Lemma run_ops_ok l : forall db, tree_ok db -> ops_fit db l = true -> exists db', run_ops db l = Some db' /\ tree_ok db'.
Proof.
  induction l as [|o l IH]; intros db Hok Hfit; [by exists db|]. cbn [ops_fit] in Hfit. apply andb_true_iff in Hfit as [H1 H2]. destruct (run_op_ok db o Hok H1) as (db1 & E & Hok1). cbn [run_ops]. rewrite E in *. cbn [mbind option_bind]. by apply IH.
Qed.

(** A row is reachable if the node has all the blocks of its chain. *)
Lemma chain_reach db k l : tree_ok db -> Chain (td_States db) k l -> (forall q y, q ∈ l -> td_States db !! q = Some y -> has Functional y = true) -> forall x, td_States db !! k = Some x -> has Reachable x = true.
Proof.
  intros Hok Hc. induction Hc as [k x Hk Hh|k x p l Hk Hh Hp Hc IH]; intros Hf x' Hx'; rewrite Hk in Hx'; injection Hx' as <-; rewrite (re_flag _ _ (to_reach _ Hok) k x Hk).
  - rewrite (Hf k x) by (done || by apply list_elem_of_singleton). unfold up_view. by rewrite bool_decide_eq_true_2.
  - rewrite (Hf k x) by (done || apply elem_of_app; right; by apply list_elem_of_singleton). unfold up_view. rewrite Hp. destruct (prev_row sha256 r _ (to_shape _ Hok) k x p Hk Hp) as (y & Hy & _). rewrite (view_reach _ _ y Hy), (IH); [apply orb_true_r| |done]. intros q z Hq. apply Hf. apply elem_of_app. by left.
Qed.

Lemma reachable_iff db k x : tree_ok db -> td_States db !! k = Some x -> has Reachable x = true <-> exists l, Chain (td_States db) k l /\ forall q, q ∈ l -> exists y, td_States db !! q = Some y /\ has Functional y = true.
Proof.
  intros Hok Hx. split.
  - intros Hr. destruct (reach_chain sha256 r ∅ db (to_shape _ Hok) (to_reach _ Hok) ltac:(intros ? ? H; by apply elem_of_empty in H) (Z.to_nat (st_Height x)) k x ltac:(lia) Hx Hr (not_elem_of_empty k)) as (l & Hc & Hl). exists l. split; [done|]. intros q Hq. destruct (Hl q Hq) as (_ & y & Hy & _ & Hf). by exists y.
  - intros (l & Hc & Hl). eapply (chain_reach db k l); [done|done| |done]. intros q y Hq Hy. destruct (Hl q Hq) as (y' & Hy' & Hf). congruence.
Qed.

(** The history of a reachable header. *)
Lemma predicted_root db k x l : tree_ok db -> td_States db !! k = Some x -> has Reachable x = true -> Chain (td_States db) k l ->
  get_PredictedStatesHash sha256 db (k, st_Height x) = Some (root_hash (hash2 sha256) zero_hash (leaf_of (td_States db) l) (st_Height x)).
Proof.
  intros Hok Hx Hrx Hc. pose proof Hok as [Hm _ Hr [Hd Hh] _]. destruct (Chain_row sha256 r _ Hm k l Hc) as (x' & Hx' & Hlen & Hlast). rewrite Hx in Hx'. injection Hx' as <-. pose proof (sh_row _ _ _ Hm k x Hx) as (_ & Hht & _).
  assert (l !! Z.to_nat (st_Height x - 1) = Some k) as Hl by (rewrite <- Hlast, last_lookup; f_equal; lia).
  unfold get_PredictedStatesHash, get_StateHash. cbn [fst snd]. rewrite Hx. cbn [mbind option_bind]. rewrite wrap_small by (unfold in_width, HeightGenesis; lia). change HeightGenesis with 1.
  rewrite (Dist_PredictedHash_ok (hash2 sha256) zero_hash _ _ (leaf_of (td_States db) l) (key_of l)).
  - f_equal. rewrite Z.sub_add. apply root_hash_ext; [lia|]. intros i Hi. unfold leaf_snoc. destruct (Z.eqb_spec i (st_Height x - 1)) as [->|]; [|done]. unfold leaf_of, hash_of. rewrite Hl. cbn [default]. change (id k) with k. by rewrite Hx.
  - lia.
  - intros p Hp. eapply chain_elems; [done|intros; by apply Hd|done| |lia]. intros q y Hq Hy H1. apply (Hh q y Hy); [|apply not_elem_of_empty|done].
    destruct (reach_chain sha256 r ∅ db Hm Hr ltac:(intros ? ? H; by apply elem_of_empty in H) (Z.to_nat (st_Height x)) k x ltac:(lia) Hx Hrx (not_elem_of_empty k)) as (l' & Hc' & Hl'). rewrite (Chain_det _ k l l' Hc Hc') in Hq. destruct (Hl' q Hq) as (_ & y' & Hy' & H & _). congruence.
  - intros H0. unfold key_of. rewrite Z.sub_add. by rewrite Hl.
Qed.

(** The queries along the current chain. *)
Lemma find_active db l h : tree_ok db -> current db l -> FindActiveStateStrict scan db h = if (1 <=? h) then l !! Z.to_nat (h - 1) else None.
Proof.
  intros Hok [Hcur Hl]. pose proof (to_shape _ Hok) as Hm. unfold FindActiveStateStrict. set (P := fun x : StateRow => _). assert (forall k x, (k, x) ∈ select scan (td_States db) P <-> td_States db !! k = Some x /\ st_Height x = h /\ k ∈ l) as Hin.
  { intros k x. rewrite (select_elem scan scan_ok). unfold P. rewrite andb_true_iff, bool_decide_eq_true. split; [intros (Hx & E & Ha)|intros (Hx & E & Ha)]; rewrite (Hl k x Hx) in *; split_and!; try done; [by apply bool_decide_eq_true_1 in Ha|by apply bool_decide_eq_true_2]. }
  assert (forall k x, td_States db !! k = Some x -> st_Height x = h -> k ∈ l -> 1 <= h /\ l !! Z.to_nat (h - 1) = Some k) as Hpos.
  { intros k x Hx E Hk. apply list_elem_of_lookup_1 in Hk as [i Hi]. destruct Hcur as [(_ & ->)|[Hc _]]; [done|]. destruct (Chain_lookup sha256 r _ Hm _ l i k Hc Hi) as (y & Hy & Ey). rewrite Hx in Hy. injection Hy as <-. split; [lia|]. rewrite <- Hi. f_equal. lia. }
  destruct (select scan (td_States db) P) as [|[k x] L]; cbn [head fmap option_fmap option_map fst].
  - destruct (Z.leb_spec 1 h); [|done]. destruct (l !! Z.to_nat (h - 1)) as [k|] eqn:E; [|done]. destruct Hcur as [(_ & ->)|[Hc _]]; [done|]. destruct (Chain_lookup sha256 r _ Hm _ l _ k Hc E) as (x & Hx & Ex). assert ((k, x) ∈ []) as H' by (apply Hin; split_and!; [done|lia|by eapply list_elem_of_lookup_2]). by apply elem_of_nil in H'.
  - destruct (proj1 (Hin k x) ltac:(left)) as (Hx & E & Hk). destruct (Hpos k x Hx E Hk) as [H1 ->]. by rewrite (proj2 (Z.leb_le 1 h) H1).
Qed.
End ops.

(** ** The database as the rest of the node sees it *)
Definition no_header : Full := mkFull 0 zero_hash zero_hash zero_hash zero_hash 0 (mkPoW [] [] 0).
Definition row_of (l : list Z) (h : Z) : Z := default 0 (l !! Z.to_nat (h - 1)).
Definition header_of (db : TreeDb) (row : Z) : Full := from_option st_Full no_header (td_States db !! row).

(** The queries of the difficulty computation. *)
Definition tree_db (scan : States -> list (Z * StateRow)) (db : TreeDb) : NodeDb :=
  mkDb (fun h => default 0 (FindActiveStateStrict scan db h)) (fun row => default None (get_Prev db row)) (header_of db).

Lemma tree_chain sha256 r scan db l : (forall m, scan m ≡ₚ map_to_list m) -> tree_ok sha256 r db -> current db l -> (td_Cursor db).1 <> 0 ->
  (forall k x, td_States db !! k = Some x -> 0 <= s_TimeStamp (st_Full x) < 2 ^ 62 /\ raw_ok (s_ChainWork (st_Full x))) ->
  Chain (td_States db) (td_Cursor db).1 l /\ chain_ok (tree_db scan db) (fun h => header_of db (row_of l h)) (row_of l) (td_Cursor db).2.
Proof.
  intros Hs Hok Hcu H0 Hhdr. pose proof (to_shape _ _ _ Hok) as Hm. pose proof Hcu as [[[E _]|[Hc Hlen]] Hl]; [by rewrite E in H0|]. split; [done|]. destruct (Chain_row sha256 r _ Hm _ l Hc) as (x & Hx & Hlx & Hlast). pose proof (sh_row _ _ _ Hm _ x Hx) as (_ & Hh & _).
  assert (forall h, 1 <= h <= (td_Cursor db).2 -> exists k y, l !! Z.to_nat (h - 1) = Some k /\ row_of l h = k /\ td_States db !! k = Some y /\ st_Height y = h /\ 0 < k) as Hrow.
  { intros h Hhh. destruct (lookup_lt_is_Some_2 l (Z.to_nat (h - 1))) as [k Hk]; [lia|]. destruct (Chain_lookup sha256 r _ Hm _ l _ k Hc Hk) as (y & Hy & Ey). exists k, y. unfold row_of. rewrite Hk. split_and!; [done|done|done|lia|]. by apply (sh_row _ _ _ Hm k y). }
  split.
  - intros h Hhh. destruct (Hrow h Hhh) as (k & y & Hk & Er & Hy & Ey & Hpos). cbn [tree_db Retarget.FindActiveStateStrict get_State]. rewrite (find_active sha256 r scan Hs db l h Hok Hcu), (proj2 (Z.leb_le 1 h)), Hk, Er by lia. split_and!; [done|lia|done].
  - intros h Hhh. destruct (Hrow h ltac:(lia)) as (k & y & Hk & Er & Hy & Ey & Hpos), (Hrow (h - 1) ltac:(lia)) as (k' & y' & Hk' & Er' & Hy' & _). rewrite Er, Er'. cbn [tree_db Retarget.get_Prev]. unfold get_Prev. rewrite (proj2 (Z.eqb_neq k 0)), Hy by lia. cbn [mbind option_bind default].
    destruct (Chain_link sha256 r _ Hm _ l (Z.to_nat (h - 1 - 1)) k' k Hc Hk') as (z & Hz & Ez); [rewrite <- Hk; f_equal; lia|]. rewrite Hy in Hz. injection Hz as <-. by rewrite Ez.
  - intros h Hhh. destruct (Hrow h Hhh) as (k & y & Hk & Er & Hy & Ey & Hpos). rewrite Er. unfold header_of. rewrite Hy. cbn [from_option]. by destruct (Hhdr k y Hy).
  - lia.
Qed.

(** *** A small tree: two headers at height 2, the second of which comes after its successor *)
Module demo_tree.
Definition sha (l : list Z) : list Z := be_bytes 32 (foldl (fun a b => (a * 257 + b + 1) mod (2 ^ 61 - 1)) 7 l).
Definition hdr (h : Z) (prev : list Z) (t : Z) : Full := mkFull h prev (be_bytes 32 (h * 16)) zero_hash zero_hash t (mkPoW (replicate nSolutionBytes 0) (replicate 8 0) 0).
Definition hv (s : Full) : list Z := SystemState.get_Hash sha default_Rules s.
Definition a1 : Full := Eval vm_compute in hdr 1 (Prehistoric default_Rules) 10.
Definition a2 : Full := Eval vm_compute in hdr 2 (hv a1) 20.
Definition b2 : Full := Eval vm_compute in hdr 2 (hv a1) 21.
Definition b3 : Full := Eval vm_compute in hdr 3 (hv b2) 30.
Definition scan (m : States) : list (Z * StateRow) := map_to_list m.
Definition fresh (m : States) : Z := 1 + foldr Z.max 0 (map_to_list m).*1.

Lemma scan_ok m : scan m ≡ₚ map_to_list m.
Proof. done. Qed.

Lemma max_le (l : list Z) : 0 <= foldr Z.max 0 l /\ forall k, k ∈ l -> k <= foldr Z.max 0 l.
Proof. induction l as [|a l [IH1 IH2]]; cbn [foldr]; (split; [lia|]); [by intros k ?%elem_of_nil|]. intros k [->|Hk%IH2]%elem_of_cons; lia. Qed.

Lemma next_row_ok m : 0 < fresh m /\ m !! fresh m = None.
Proof.
  unfold fresh. destruct (max_le (map_to_list m).*1) as [H1 H2]. split; [lia|]. destruct (m !! _) as [x|] eqn:E; [|done]. exfalso. set (n := 1 + _) in E. assert (n <= foldr Z.max 0 (map_to_list m).*1); [|unfold n in *; lia]. apply H2. apply list_elem_of_fmap. exists (n, x). split; [done|]. by apply elem_of_map_to_list.
Qed.

(** Rows 1, 2, 3, 4: [a1], [a2], [b3], [b2]. *)
Definition ops : list tree_op :=
  [OpInsert a1; OpFunctional 1; OpForward 1; OpInsert a2; OpFunctional 2; OpForward 2; OpInsert b3; OpFunctional 3; OpInsert b2; OpFunctional 4; OpBack; OpForward 4; OpForward 3; OpNotFunctional 2; OpDelete 2].

Lemma ops_ok : ops_fit sha default_Rules scan fresh empty_db ops = true.
Proof. vm_compute. reflexivity. Qed.

Definition db : TreeDb := Eval vm_compute in default empty_db (run_ops sha default_Rules scan fresh empty_db ops).

Lemma run_ok : run_ops sha default_Rules scan fresh empty_db ops = Some db.
Proof. vm_compute. reflexivity. Qed.

Definition row3 : StateRow := Eval vm_compute in default (mkRow no_header [] 0 None 0 0 None) (td_States db !! 3).

Lemma row3_ok : td_States db !! 3 = Some row3.
Proof. vm_compute. reflexivity. Qed.

(** What [active_chain] asks of the headers. *)
Lemma headers_ok k x : td_States db !! k = Some x -> 0 <= s_TimeStamp (st_Full x) < 2 ^ 62 /\ raw_ok (s_ChainWork (st_Full x)).
Proof.
  revert k x. change (map_Forall (fun _ x => 0 <= s_TimeStamp (st_Full x) < 2 ^ 62 /\ raw_ok (s_ChainWork (st_Full x))) (td_States db)). apply map_Forall_to_list.
  set (P := fun x : Z * StateRow => (0 <=? s_TimeStamp (st_Full x.2)) && (s_TimeStamp (st_Full x.2) <? 2 ^ 62) && forallb (fun b => (0 <=? b) && (b <? 256)) (s_ChainWork (st_Full x.2)) && (length (s_ChainWork (st_Full x.2)) =? 32)%nat).
  assert (forallb P (map_to_list (td_States db)) = true) as H by (vm_compute; reflexivity). rewrite forallb_forall in H. apply Forall_forall. intros [k x] Hx%list_elem_of_In%H. unfold P in Hx. cbn [snd fst] in *.
  apply andb_true_iff in Hx as [[[H1 H2]%andb_true_iff H3]%andb_true_iff H4]. split; [lia|]. split; [|by apply Nat.eqb_eq]. apply Forall_forall. intros b Hb%list_elem_of_In. rewrite forallb_forall in H3. apply H3 in Hb. unfold byte_ok. lia.
Qed.
End demo_tree.

(** ** Claims *)

(** C38: The tree of headers after any sequence of operations of the node on an empty
    database: new headers in any order, blocks that arrive or are dropped, headers that
    are deleted, the cursor that goes forward and back.  Every operation has its precondition ([op_fits]): a header is new, with
    a height from 1 to below [2 ^ 62], a row is there, the row to delete is not the end of the current chain, the cursor goes to a
    header that follows it, and there are less than [2 ^ 32] rows.  Then no operation fails (no exception, no
    failed assertion, enough fuel for [OnStateReachable]), and the check of the tables in the source ([assert_valid]) passes;
    a row is marked as reachable iff the node has the blocks of its whole chain, down to height 1; the reachable tips are
    the reachable rows that no functional row follows, with their chainwork. *)
Theorem header_tree sha256 r scan new_row ops :
  (forall m, scan m ≡ₚ map_to_list m) -> (forall m, 0 < new_row m /\ m !! new_row m = None) -> ops_fit sha256 r scan new_row empty_db ops = true ->
  exists db, run_ops sha256 r scan new_row empty_db ops = Some db /\ assert_valid scan db = true /\
    (forall k x, td_States db !! k = Some x -> has Reachable x = true <-> exists l, Chain (td_States db) k l /\ forall q, q ∈ l -> exists y, td_States db !! q = Some y /\ has Functional y = true) /\
    (forall k w, td_TipsReachable db !! k = Some w <-> exists x, td_States db !! k = Some x /\ w = s_ChainWork (st_Full x) /\ has Reachable x = true /\
       forall q y, td_States db !! q = Some y -> st_RowPrev y = Some k -> has Functional y = false).
Proof.
  intros Hs Hn Hfit. destruct (run_ops_ok sha256 r scan Hs new_row Hn ops empty_db (empty_ok sha256 r) Hfit) as (db & -> & Hok). exists db. split; [done|]. split; [by eapply assert_valid_ok|]. split; [intros k x; by eapply reachable_iff|].
  intros k w. rewrite (re_tips _ _ (to_reach _ _ _ Hok)). split; intros (x & Hx & -> & H1 & H2); exists x; split_and!; try done.
  - by rewrite <- (view_reach _ _ x Hx).
  - intros q y Hy Ep. rewrite (co_nextF _ (to_counts _ _ _ Hok) k x Hx) in H1. pose proof (proj1 (count_0 _ _) H1 q y Hy) as E. unfold kid in E. by rewrite bool_decide_eq_true_2 in E.
  - rewrite (co_nextF _ (to_counts _ _ _ Hok) k x Hx). apply count_0. intros q y Hy. unfold kid. case_bool_decide; [|done]. by rewrite (H2 q y).
  - by rewrite (view_reach _ _ x Hx).
Qed.

Lemma header_tree_witness : ops_fit demo_tree.sha default_Rules demo_tree.scan demo_tree.fresh empty_db demo_tree.ops = true /\ exists db, run_ops demo_tree.sha default_Rules demo_tree.scan demo_tree.fresh empty_db demo_tree.ops = Some db /\ assert_valid demo_tree.scan db = true.
Proof.
  split; [vm_compute; reflexivity|]. destruct (header_tree demo_tree.sha default_Rules demo_tree.scan demo_tree.fresh demo_tree.ops demo_tree.scan_ok demo_tree.next_row_ok demo_tree.ops_ok) as (db & E & H & _). exists db. split; [exact E|exact H].
Defined.

(** The root of the history that the node computes for the header after a reachable one, from the rows of
    the database ([get_PredictedStatesHash], with what [BuildMmr] has stored when the
    rows became reachable), is the Merkle root of the hashes of all the headers of its
    chain, from height 1 on. *)
Theorem history_root sha256 r scan new_row ops db k x :
  (forall m, scan m ≡ₚ map_to_list m) -> (forall m, 0 < new_row m /\ m !! new_row m = None) -> ops_fit sha256 r scan new_row empty_db ops = true -> run_ops sha256 r scan new_row empty_db ops = Some db ->
  td_States db !! k = Some x -> has Reachable x = true ->
  exists l, Chain (td_States db) k l /\ Z.of_nat (length l) = st_Height x /\
    get_PredictedStatesHash sha256 db (k, st_Height x) = Some (root_hash (hash2 sha256) zero_hash (fun j => SystemState.get_Hash sha256 r (header_of db (row_of l (j + 1)))) (st_Height x)).
Proof.
  intros Hs Hn Hfit Hrun Hx Hr. destruct (run_ops_ok sha256 r scan Hs new_row Hn ops empty_db (empty_ok sha256 r) Hfit) as (db' & E & Hok). rewrite Hrun in E. injection E as <-. pose proof (to_shape _ _ _ Hok) as Hm.
  destruct (proj1 (reachable_iff sha256 r db k x Hok Hx) Hr) as (l & Hc & _). destruct (Chain_row sha256 r _ Hm k l Hc) as (y & Hy & Hlen & _). rewrite Hx in Hy. injection Hy as <-. exists l. split; [done|]. split; [done|].
  rewrite (predicted_root sha256 r db k x l Hok Hx Hr Hc). apply (f_equal Some), root_hash_ext; [pose proof (sh_row _ _ _ Hm k x Hx); lia|]. intros i Hi. unfold leaf_of, hash_of, header_of, row_of. rewrite Z.add_simpl_r.
  destruct (lookup_lt_is_Some_2 l (Z.to_nat i)) as [q Hq]; [lia|]. rewrite Hq. cbn [default]. change (id q) with q. destruct (Chain_lookup sha256 r _ Hm k l _ q Hc Hq) as (z & Hz & _). rewrite Hz. cbn [from_option]. by apply (sh_row _ _ _ Hm q z).
Qed.

Lemma history_root_witness : has Reachable demo_tree.row3 = true /\ st_Height demo_tree.row3 = 3 /\ exists l, Chain (td_States demo_tree.db) 3 l /\ Z.of_nat (length l) = st_Height demo_tree.row3 /\
  get_PredictedStatesHash demo_tree.sha demo_tree.db (3, st_Height demo_tree.row3) = Some (root_hash (hash2 demo_tree.sha) zero_hash (fun j => SystemState.get_Hash demo_tree.sha default_Rules (header_of demo_tree.db (row_of l (j + 1)))) (st_Height demo_tree.row3)).
Proof.
  split; [vm_compute; reflexivity|]. split; [reflexivity|]. apply (history_root demo_tree.sha default_Rules demo_tree.scan demo_tree.fresh demo_tree.ops demo_tree.db 3 demo_tree.row3 demo_tree.scan_ok demo_tree.next_row_ok demo_tree.ops_ok demo_tree.run_ok demo_tree.row3_ok). vm_compute. reflexivity.
Defined.

(** After any sequence of operations, the active rows are those of the
    chain of the cursor, and the queries along it give these rows: this is the database that the computation of the difficulty and of
    the moving median is proved for ([chain_ok]), if the headers have timestamps below [2 ^ 62] and a
    chainwork of 32 bytes. *)
Theorem active_chain sha256 r scan new_row ops db :
  (forall m, scan m ≡ₚ map_to_list m) -> (forall m, 0 < new_row m /\ m !! new_row m = None) -> ops_fit sha256 r scan new_row empty_db ops = true -> run_ops sha256 r scan new_row empty_db ops = Some db ->
  (td_Cursor db).1 <> 0 -> (forall k x, td_States db !! k = Some x -> 0 <= s_TimeStamp (st_Full x) < 2 ^ 62 /\ raw_ok (s_ChainWork (st_Full x))) ->
  exists l, Chain (td_States db) (td_Cursor db).1 l /\ (forall k x, td_States db !! k = Some x -> has Active x = bool_decide (k ∈ l)) /\
    chain_ok (tree_db scan db) (fun h => header_of db (row_of l h)) (row_of l) (td_Cursor db).2.
Proof.
  intros Hs Hn Hfit Hrun H0 Hhdr. destruct (run_ops_ok sha256 r scan Hs new_row Hn ops empty_db (empty_ok sha256 r) Hfit) as (db' & E & Hok). rewrite Hrun in E. injection E as <-.
  destruct (to_act _ _ _ Hok) as (l & Hl). exists l. destruct (tree_chain sha256 r scan db l Hs Hok Hl H0 Hhdr) as [H1 H2]. split_and!; [done|by destruct Hl|done].
Qed.

Lemma active_chain_witness : td_Cursor demo_tree.db = (3, 3) /\ exists l, Chain (td_States demo_tree.db) 3 l /\ chain_ok (tree_db demo_tree.scan demo_tree.db) (fun h => header_of demo_tree.db (row_of l h)) (row_of l) 3.
Proof.
  split; [reflexivity|]. destruct (active_chain demo_tree.sha default_Rules demo_tree.scan demo_tree.fresh demo_tree.ops demo_tree.db demo_tree.scan_ok demo_tree.next_row_ok demo_tree.ops_ok demo_tree.run_ok) as (l & H1 & _ & H2); [vm_compute; discriminate|exact demo_tree.headers_ok|exists l; split; [exact H1|exact H2]].
Defined.
