(* ===== verification/TxPool.v ===== *)
(** The transaction pools of the node, [node/txpool.h] and [node/txpool.cpp]:
    [TxPool::Fluff], which transactions are broadcast and mined from, and
    [TxPool::Stem], where they are aggregated before.

    Elements are objects in memory, known by their address, in intrusive
    multisets and lists (file Intrusive).  What the code only asserts (an
    element of a set is unlinked once, a reference that is released was taken)
    is [None] otherwise.  The size of a serialized transaction is a
    parameter. *)

From stdpp Require Import gmap sorting.
From S2P Require Import Prelude Intrusive UintBig EccData Difficulty Merkle UtxoTree Rules SystemState TxBase Ecc Kernel Validation BlockRW.

(** ** [TxPool::Profit] *)
Record Profit := mkProfit { pf_Fee : list Z; pf_nSize : Z }.

Definition uintBigFrom32 (x : Z) : list Z := AssignOrdinal 4 (replicate 4 0) x.

Definition Profit_lt (a t : Profit) : bool :=
  0 <? _Cmp (mul (pf_Fee a) (uintBigFrom32 (pf_nSize t))) (mul (pf_Fee t) (uintBigFrom32 (pf_nSize a))).

(** ** [TxPool::Fluff] *)
Record FElem := mkFElem {
  fe_pValue : option Transaction;
  fe_Key : list Z;
  fe_Profit : Profit;
  fe_Height : HeightRange;
  fe_Refs : Z
}.

Record Fluff := mkFluff {
  fl_mem : gmap nat FElem;
  fl_setThreshold : list nat;
  fl_setProfit : list nat;
  fl_setTxs : list nat;
  fl_Queue : list nat
}.

Section fluff.
Context (SizeNetto : TxVectors -> Z).

(** [Profit::SetSize]. *)
Definition SetSize (p : Profit) (v : TxVectors) : Profit := mkProfit (pf_Fee p) (u32 (SizeNetto v)).

(** The orders of the three sets, by address. *)
Definition Threshold_lt (mem : gmap nat FElem) := by_key mem fe_Height (fun a t => m_Max a <? m_Max t).
Definition FProfit_lt (mem : gmap nat FElem) := by_key mem fe_Profit Profit_lt.
Definition Tx_lt (mem : gmap nat FElem) := by_key mem fe_Key (fun a t => _Cmp a t <? 0).

(** [p] is the address that [new] gives. *)
Definition AddValidTx (s : Fluff) (p : nat) (pValue : Transaction) (fee : list Z) (height : HeightRange) (key : list Z) : Fluff :=
  let x := mkFElem (Some pValue) key (SetSize (mkProfit fee 0) (t_Vectors pValue)) height 1 in
  let mem := <[p := x]> (fl_mem s) in
  mkFluff mem (ms_insert (Threshold_lt mem) p (fl_setThreshold s)) (ms_insert (FProfit_lt mem) p (fl_setProfit s))
    (ms_insert (Tx_lt mem) p (fl_setTxs s)) (fl_Queue s ++ [p]).

Definition Fluff_Release (s : Fluff) (p : nat) : option Fluff :=
  match fl_mem s !! p with
  | None => None
  | Some x =>
      if fe_Refs x =? 0 then None
      else
        let x := mkFElem (fe_pValue x) (fe_Key x) (fe_Profit x) (fe_Height x) (u32 (fe_Refs x - 1)) in
        if fe_Refs x =? 0 then
          match fe_pValue x with
          | Some _ => None
          | None =>
              match ms_erase p (fl_Queue s) with
              | None => None
              | Some q => Some (mkFluff (delete p (fl_mem s)) (fl_setThreshold s) (fl_setProfit s) (fl_setTxs s) q)
              end
          end
        else Some (mkFluff (<[p := x]> (fl_mem s)) (fl_setThreshold s) (fl_setProfit s) (fl_setTxs s) (fl_Queue s))
  end.

Definition Fluff_Delete (s : Fluff) (p : nat) : option Fluff :=
  match fl_mem s !! p with
  | None => None
  | Some x =>
      match fe_pValue x with
      | None => None
      | Some _ =>
          let x := mkFElem None (fe_Key x) (fe_Profit x) (fe_Height x) (fe_Refs x) in
          match ms_erase p (fl_setThreshold s), ms_erase p (fl_setProfit s), ms_erase p (fl_setTxs s) with
          | Some t, Some pr, Some tx => Fluff_Release (mkFluff (<[p := x]> (fl_mem s)) t pr tx (fl_Queue s)) p
          | _, _, _ => None
          end
      end
  end.

(** [Clear]; the loop ends with the set. *)
Fixpoint Fluff_Clear_loop (fuel : nat) (s : Fluff) : option Fluff :=
  match fl_setThreshold s with
  | [] => Some s
  | p :: _ =>
      match fuel with
      | O => None
      | S fuel => match Fluff_Delete s p with Some s => Fluff_Clear_loop fuel s | None => None end
      end
  end.
Definition Fluff_Clear (s : Fluff) : option Fluff := Fluff_Clear_loop (length (fl_setThreshold s)) s.

(** A peer keeps an element as its cursor ([node.cpp]: [m_Refs++]). *)
Definition AddRef (s : Fluff) (p : nat) : option Fluff :=
  match fl_mem s !! p with
  | None => None
  | Some x =>
      Some (mkFluff (<[p := mkFElem (fe_pValue x) (fe_Key x) (fe_Profit x) (fe_Height x) (u32 (fe_Refs x + 1))]> (fl_mem s))
              (fl_setThreshold s) (fl_setProfit s) (fl_setTxs s) (fl_Queue s))
  end.
End fluff.

(** [Node::Peer::SetTxCursor] on the pool: the new cursor and the pool. *)
Definition SetTxCursor (s : Fluff) (cursor p : option nat) : option Fluff :=
  match (match cursor with Some c => Fluff_Release s c | None => Some s end) with
  | None => None
  | Some s => match p with Some p => AddRef s p | None => Some s end
  end.

(** The bound of the pool, as [Node::OnTransactionFluff] keeps it: [rbegin] is
    the last element. *)
Fixpoint Evict (fuel : nat) (nMax : nat) (s : Fluff) : option Fluff :=
  if (length (fl_setProfit s) <=? nMax)%nat then Some s
  else
    match fuel with
    | O => None
    | S fuel =>
        match last (fl_setProfit s) with
        | None => None
        | Some p => match Fluff_Delete s p with Some s => Evict fuel nMax s | None => None end
        end
    end.

(** ** [TxPool::Stem] *)
Record SElem := mkSElem {
  se_pValue : Transaction;
  se_bAggregating : bool;
  se_Time : Z;
  se_Profit : Profit;
  se_Height : HeightRange;
  se_vKrn : list (list Z)
}.

(** [st_setKrns] are the kernels by element and index; [st_Timer] is the running
    timer. *)
Record Stem := mkStem {
  st_mem : gmap nat SElem;
  st_setKrns : list (nat * nat);
  st_setTime : list nat;
  st_setProfit : list nat;
  st_Timer : option Z
}.

Section stem.
Context (SizeNetto : TxVectors -> Z) (sha256 : list Z -> list Z) (rules : Rules) (ig : bool).
Context {G : Type} `{!Curve G, !OracleDraws G}.
(** The virtual functions and the clock. *)
Context (ValidateTxContext : Transaction -> HeightRange -> bool).

Definition upd (s : Stem) (p : nat) (x : SElem) : Stem :=
  mkStem (<[p := x]> (st_mem s)) (st_setKrns s) (st_setTime s) (st_setProfit s) (st_Timer s).

Definition SProfit_lt (mem : gmap nat SElem) (a b : nat) : bool :=
  match mem !! a, mem !! b with
  | Some x, Some y => Profit_lt (se_Profit x) (se_Profit y)
  | _, _ => false
  end.
Definition Time_lt (mem : gmap nat SElem) (a b : nat) : bool :=
  match mem !! a, mem !! b with
  | Some x, Some y => se_Time x <? se_Time y
  | _, _ => false
  end.
Definition Krn_hv (mem : gmap nat SElem) (k : nat * nat) : list Z :=
  match mem !! k.1 with Some x => default [] (se_vKrn x !! k.2) | None => [] end.
Definition Krn_lt (mem : gmap nat SElem) (a b : nat * nat) : bool := _Cmp (Krn_hv mem a) (Krn_hv mem b) <? 0.

(** [lower_bound] for the time [t], or the beginning. *)
Fixpoint Time_lower_bound (mem : gmap nat SElem) (t : Z) (l : list nat) : option nat :=
  match l with
  | [] => None
  | p :: l =>
      match mem !! p with
      | Some x => if se_Time x <? t then Time_lower_bound mem t l else Some p
      | None => None
      end
  end.

Definition get_NextTimeout (s : Stem) (now_ms : Z) : option (nat * Z) :=
  match st_setTime s with
  | [] => None
  | p0 :: _ =>
      let tmPrev := u32 (now_ms - Z.shiftr (u32 (-1)) 1) in
      let p := default p0 (Time_lower_bound (st_mem s) tmPrev (st_setTime s)) in
      match st_mem s !! p with
      | None => None
      | Some ret =>
          let v := se_Time ret in
          let bLate := Bool.eqb (Bool.eqb (tmPrev <=? v) (v <=? now_ms)) (tmPrev <? now_ms) in
          Some (p, if bLate then 0 else u32 (v - now_ms))
      end
  end.

Definition SetTimerRaw (s : Stem) (nTimeout_ms : Z) : Stem :=
  mkStem (st_mem s) (st_setKrns s) (st_setTime s) (st_setProfit s) (Some nTimeout_ms).
Definition KillTimer (s : Stem) : Stem :=
  mkStem (st_mem s) (st_setKrns s) (st_setTime s) (st_setProfit s) None.

Definition DeleteTimer (s : Stem) (p : nat) : option Stem :=
  match st_mem s !! p with
  | None => None
  | Some x =>
      if se_Time x =? 0 then Some s
      else
        match ms_erase p (st_setTime s) with
        | None => None
        | Some l =>
            let x := mkSElem (se_pValue x) (se_bAggregating x) 0 (se_Profit x) (se_Height x) (se_vKrn x) in
            Some (mkStem (<[p := x]> (st_mem s)) (st_setKrns s) l (st_setProfit s) (st_Timer s))
        end
  end.

Definition SetTimer (s : Stem) (now_ms nTimeout_ms : Z) (p : nat) : option Stem :=
  match DeleteTimer s p with
  | None => None
  | Some s =>
      match st_mem s !! p with
      | None => None
      | Some x =>
          let t := u32 (now_ms + nTimeout_ms) in
          let t := if t =? 0 then 1 else t in
          let x := mkSElem (se_pValue x) (se_bAggregating x) t (se_Profit x) (se_Height x) (se_vKrn x) in
          let mem := <[p := x]> (st_mem s) in
          let s := mkStem mem (st_setKrns s) (ms_insert (Time_lt mem) p (st_setTime s)) (st_setProfit s) (st_Timer s) in
          match get_NextTimeout s now_ms with
          | Some (q, nVal_ms) => Some (if decide (q = p) then SetTimerRaw s nVal_ms else s)
          | None => Some s
          end
      end
  end.

Definition InsertAggr (s : Stem) (p : nat) : option Stem :=
  match st_mem s !! p with
  | None => None
  | Some x =>
      if se_bAggregating x then Some s
      else
        let x := mkSElem (se_pValue x) true (se_Time x) (se_Profit x) (se_Height x) (se_vKrn x) in
        let mem := <[p := x]> (st_mem s) in
        Some (mkStem mem (st_setKrns s) (st_setTime s) (ms_insert (SProfit_lt mem) p (st_setProfit s)) (st_Timer s))
  end.

Definition DeleteAggr (s : Stem) (p : nat) : option Stem :=
  match st_mem s !! p with
  | None => None
  | Some x =>
      if se_bAggregating x then
        match ms_erase p (st_setProfit s) with
        | None => None
        | Some l =>
            let x := mkSElem (se_pValue x) false (se_Time x) (se_Profit x) (se_Height x) (se_vKrn x) in
            Some (mkStem (<[p := x]> (st_mem s)) (st_setKrns s) (st_setTime s) l (st_Timer s))
        end
      else Some s
  end.

(** The kernels of an element are unlinked one by one. *)
Definition DeleteKrn (s : Stem) (p : nat) : option Stem :=
  match st_mem s !! p with
  | None => None
  | Some x =>
      let x := mkSElem (se_pValue x) (se_bAggregating x) (se_Time x) (se_Profit x) (se_Height x) [] in
      Some (mkStem (<[p := x]> (st_mem s)) (filter (fun k => k.1 <> p) (st_setKrns s)) (st_setTime s) (st_setProfit s) (st_Timer s))
  end.

(** The vector of the kernels is resized first and filled as they are linked. *)
Fixpoint InsertKrn_loop (s : Stem) (p : nat) (ks : list TxKernel) (i : nat) : Stem :=
  match ks with
  | [] => s
  | k :: ks =>
      match st_mem s !! p with
      | None => s
      | Some x =>
          let hv := TxKernel_get_ID sha256 rules ig (G := G) k None zero_hash in
          let x := mkSElem (se_pValue x) (se_bAggregating x) (se_Time x) (se_Profit x) (se_Height x) (<[i := hv]> (se_vKrn x)) in
          let mem := <[p := x]> (st_mem s) in
          InsertKrn_loop (mkStem mem (ms_insert (Krn_lt mem) (p, i) (st_setKrns s)) (st_setTime s) (st_setProfit s) (st_Timer s)) p ks (S i)
      end
  end.

Definition InsertKrn (s : Stem) (p : nat) : option Stem :=
  match st_mem s !! p with
  | None => None
  | Some x =>
      let ks := m_vKernels (t_Vectors (se_pValue x)) in
      let x := mkSElem (se_pValue x) (se_bAggregating x) (se_Time x) (se_Profit x) (se_Height x)
                 (take (length ks) (se_vKrn x) ++ replicate (length ks - length (se_vKrn x)) zero_hash) in
      Some (InsertKrn_loop (upd s p x) p ks 0)
  end.

Definition DeleteRaw (s : Stem) (p : nat) : option Stem :=
  match DeleteTimer s p with
  | None => None
  | Some s =>
      match DeleteAggr s p with
      | None => None
      | Some s =>
          match DeleteKrn s p with
          | None => None
          | Some s => Some (mkStem (delete p (st_mem s)) (st_setKrns s) (st_setTime s) (st_setProfit s) (st_Timer s))
          end
      end
  end.

Definition Stem_Delete (s : Stem) (now_ms : Z) (p : nat) : option Stem :=
  match st_mem s !! p with
  | None => None
  | Some x =>
      let bResetTimer := negb (se_Time x =? 0) && match get_NextTimeout s now_ms with Some (q, _) => bool_decide (q = p) | None => false end in
      match DeleteRaw s p with
      | None => None
      | Some s =>
          if bResetTimer then
            Some (match get_NextTimeout s now_ms with Some (_, n_ms) => SetTimerRaw s n_ms | None => KillTimer s end)
          else Some s
      end
  end.

(** [TryMerge]: [Some (s, b)] is the pool afterwards and the result. The fuel of
    [Combine] is what its readers need. *)
Definition TryMerge (s : Stem) (now_ms : Z) (trg src : nat) : option (Stem * bool) :=
  match st_mem s !! trg, st_mem s !! src with
  | Some t, Some x =>
      let hr := HR.Intersect (se_Height t) (se_Height x) in
      if HR.IsEmpty hr then Some (s, false)
      else
        let rs := [get_Reader (t_Vectors (se_pValue t)); get_Reader (t_Vectors (se_pValue x))] in
        match Combine ig (fun _ => false) (S (combine_size rs)) rs (mkVectors [] [] []) with
        | None => None
        | Some (_, v) =>
            let txNew := mkTransaction (BodyBase_Merge (t_Offset (se_pValue t)) (t_Offset (se_pValue x))) v in
            if negb (ValidateTxContext txNew hr) then Some (s, false)
            else
              let pf := mkProfit (AmountBig_add (pf_Fee (se_Profit t)) (pf_Fee (se_Profit x))) (u32 (SizeNetto v)) in
              let t' := mkSElem (se_pValue t) (se_bAggregating t) (se_Time t) pf (se_Height t) (se_vKrn t) in
              match Stem_Delete (upd s trg t') now_ms src with
              | None => None
              | Some s =>
                  match DeleteKrn s trg with
                  | None => None
                  | Some s =>
                      match st_mem s !! trg with
                      | None => None
                      | Some t =>
                          let t := mkSElem txNew (se_bAggregating t) (se_Time t) (se_Profit t) hr (se_vKrn t) in
                          match InsertKrn (upd s trg t) trg with
                          | None => None
                          | Some s => Some (s, true)
                          end
                      end
                  end
              end
        end
  | _, _ => None
  end.

(** [OnTimer]: the elements that are handed to [OnTimedOut], and the pool. What
    [OnTimedOut] does to the pool is a parameter. *)
Fixpoint OnTimer (OnTimedOut : Stem -> nat -> option Stem) (fuel : nat) (s : Stem) (now_ms : Z) : option (list nat * Stem) :=
  match fuel with
  | O => None
  | S fuel =>
      match get_NextTimeout s now_ms with
      | None => Some ([], KillTimer s)
      | Some (p, nTimeout_ms) =>
          if 0 <? nTimeout_ms then Some ([], SetTimerRaw s nTimeout_ms)
          else
            match DeleteTimer s p with
            | None => None
            | Some s =>
                match OnTimedOut s p with
                | None => None
                | Some s => match OnTimer OnTimedOut fuel s now_ms with Some (l, s) => Some (p :: l, s) | None => None end
                end
            end
      end
  end.

Fixpoint Stem_Clear_loop (fuel : nat) (s : Stem) : option Stem :=
  match st_setKrns s with
  | [] => Some (KillTimer s)
  | (p, _) :: _ =>
      match fuel with
      | O => None
      | S fuel => match DeleteRaw s p with Some s => Stem_Clear_loop fuel s | None => None end
      end
  end.
Definition Stem_Clear (s : Stem) : option Stem := Stem_Clear_loop (length (st_setKrns s)) s.
End stem.

(** * Facts *)

(** ** Orders of the sets *)

Definition profit_ok (p : Profit) : Prop := bytes_n 16 (pf_Fee p) /\ 0 < pf_nSize p < 2 ^ 32.

Lemma uintBigFrom32_spec x : 0 <= x < 2 ^ 32 ->
  bytes_ok (uintBigFrom32 x) /\ length (uintBigFrom32 x) = 4%nat /\ be_val (uintBigFrom32 x) = x.
Proof.
  intros Hx. unfold uintBigFrom32. rewrite AssignOrdinal_eq; [|rewrite length_replicate; lia|done].
  rewrite length_replicate, length_be_bytes, be_val_be_bytes. split; [auto with grimm|]. split; [done|]. by apply Z.mod_small.
Qed.

(** The products are exact. *)
Lemma Profit_lt_spec a t : profit_ok a -> profit_ok t ->
  Profit_lt a t = (be_val (pf_Fee t) * pf_nSize a <? be_val (pf_Fee a) * pf_nSize t).
Proof.
  intros [[Ha La] Sa] [[Ht Lt] St]. unfold Profit_lt.
  destruct (uintBigFrom32_spec (pf_nSize t) ltac:(lia)) as (B1 & L1 & V1). destruct (uintBigFrom32_spec (pf_nSize a) ltac:(lia)) as (B2 & L2 & V2).
  destruct (mul_spec (pf_Fee a) (uintBigFrom32 (pf_nSize t)) Ha B1) as (M1 & _ & E1); [rewrite La, L1; done|].
  destruct (mul_spec (pf_Fee t) (uintBigFrom32 (pf_nSize a)) Ht B2) as (M2 & _ & E2); [rewrite Lt, L2; done|].
  rewrite _Cmp_spec, E1, E2, V1, V2 by done. unfold cmpZ.
  destruct (Z.ltb_spec (be_val (pf_Fee a) * pf_nSize t) (be_val (pf_Fee t) * pf_nSize a)),
    (Z.ltb_spec (be_val (pf_Fee t) * pf_nSize a) (be_val (pf_Fee a) * pf_nSize t)); (done || lia).
Qed.

Lemma Profit_order : lt_order profit_ok Profit_lt.
Proof.
  split.
  - intros a b Ha Hb. rewrite !Profit_lt_spec by done. rewrite Z.ltb_lt, Z.ltb_ge. lia.
  - intros a b c Ha Hb Hc. rewrite !Profit_lt_spec by done. rewrite !Z.ltb_ge.
    destruct Ha as [[Ha _] Sa], Hb as [[Hb _] Sb], Hc as [[Hc _] Sc].
    pose proof (be_val_nonneg _ Ha). pose proof (be_val_nonneg _ Hb). pose proof (be_val_nonneg _ Hc).
    intros E1 E2. apply (Z.mul_le_mono_pos_r _ _ (pf_nSize b)); [lia|]. nia.
Qed.

Lemma key_order : lt_order bytes_ok (fun a t => _Cmp a t <? 0).
Proof.
  split; intros *; rewrite ?Z.ltb_lt, ?Z.ltb_ge.
  - intros Ha Hb. rewrite !_Cmp_spec by done. unfold cmpZ. repeat case_match; lia.
  - intros Ha Hb Hc. rewrite !_Cmp_spec by done. unfold cmpZ. repeat case_match; lia.
Qed.

Lemma height_order : lt_order (fun _ => True) (fun a t : HeightRange => m_Max a <? m_Max t).
Proof. apply (lt_order_Z m_Max). Qed.

(** The sets index the elements with a transaction. *)
Definition live (x : FElem) : Prop := is_Some (fe_pValue x).
Abbreviation alive := (linked live).
Abbreviation fluff_index := (indexed live).

Lemma indexed_insert {K} (key : FElem -> K) ok lt mem l p x : lt_order ok lt ->
  keys_ok key ok (<[p := x]> mem) -> fluff_index key lt mem l -> mem !! p = None -> is_Some (fe_pValue x) ->
  fluff_index key lt (<[p := x]> mem) (ms_insert (by_key (<[p := x]> mem) key lt) p l).
Proof.
  intros Ho Hk Hi Hp Hx. apply (indexed_link _ _ ok _ Ho mem); try done.
  - intros (y & Ey & _). congruence.
  - exists x. by rewrite lookup_insert_eq.
  - intros q Hq. by rewrite lookup_insert_ne.
Qed.

Lemma indexed_erase {K} (key : FElem -> K) lt mem l p x x' :
  fluff_index key lt mem l -> mem !! p = Some x -> is_Some (fe_pValue x) -> fe_pValue x' = None ->
  exists l', ms_erase p l = Some l' /\ l ≡ₚ p :: l' /\ sublist l' l /\ fluff_index key lt (<[p := x']> mem) l'.
Proof.
  intros Hi Hp Hx Hx'. eapply indexed_unlink; [exact Hi|by exists x| |].
  - intros (y & Ey & Hy). rewrite lookup_insert_eq in Ey. injection Ey as <-. unfold live in Hy. rewrite Hx' in Hy. by destruct Hy.
  - intros q Hq. by rewrite lookup_insert_ne.
Qed.

(** ** The pool *)
Record fluff_ok (s : Fluff) : Prop := {
  fo_thr : fluff_index fe_Height (fun a t => m_Max a <? m_Max t) (fl_mem s) (fl_setThreshold s);
  fo_pft : fluff_index fe_Profit Profit_lt (fl_mem s) (fl_setProfit s);
  fo_txs : fluff_index fe_Key (fun a t => _Cmp a t <? 0) (fl_mem s) (fl_setTxs s);
  fo_que : NoDup (fl_Queue s) /\ forall p, p ∈ fl_Queue s <-> is_Some (fl_mem s !! p);
  fo_elm p x : fl_mem s !! p = Some x -> profit_ok (fe_Profit x) /\ bytes_ok (fe_Key x) /\ 0 < fe_Refs x < 2 ^ 32
}.

Section fluff_facts.
Context (SizeNetto : TxVectors -> Z).

Lemma keys_ok_all s : fluff_ok s ->
  keys_ok fe_Profit profit_ok (fl_mem s) /\ keys_ok fe_Key bytes_ok (fl_mem s) /\ keys_ok fe_Height (fun _ => True) (fl_mem s).
Proof. intros [_ _ _ _ H]. split_and!; intros p x Hp; [by apply (H p x)|by apply (H p x)|done]. Qed.

Lemma AddValidTx_ok s p tx fee height key :
  fluff_ok s -> fl_mem s !! p = None -> bytes_n 16 fee -> bytes_ok key -> 0 < SizeNetto (t_Vectors tx) < 2 ^ 32 ->
  fluff_ok (AddValidTx SizeNetto s p tx fee height key).
Proof.
  intros Hs Hp Hfee Hkey Hsz. destruct (keys_ok_all s Hs) as (K1 & K2 & K3). destruct Hs as [H1 H2 H3 [H4 H4'] H5]. unfold AddValidTx.
  set (x := mkFElem _ _ _ _ _). assert (profit_ok (fe_Profit x)) as Hx.
  { unfold x, SetSize. cbn [fe_Profit pf_Fee pf_nSize]. split; cbn [pf_Fee pf_nSize]; [done|]. by rewrite u32_small by lia. }
  split; cbn [fl_mem fl_setThreshold fl_setProfit fl_setTxs fl_Queue].
  - apply (indexed_insert _ (fun _ => True) _ _ _ _ _ height_order); [|done|done|by eexists]. by intros q y _.
  - apply (indexed_insert _ profit_ok _ _ _ _ _ Profit_order); [|done|done|by eexists].
    intros q y Hq. apply lookup_insert_Some in Hq as [[_ <-]|[_ Hq]]; [done|by apply (K1 q)].
  - apply (indexed_insert _ bytes_ok _ _ _ _ _ key_order); [|done|done|by eexists].
    intros q y Hq. apply lookup_insert_Some in Hq as [[_ <-]|[_ Hq]]; [done|by apply (K2 q)].
  - split.
    + apply NoDup_app. split_and!; [done| |apply NoDup_singleton]. intros q Hq. rewrite list_elem_of_singleton. intros ->.
      apply H4' in Hq as [y Hy]. congruence.
    + intros q. rewrite elem_of_app, list_elem_of_singleton, H4'. destruct (decide (q = p)) as [->|Hne].
      * rewrite lookup_insert_eq. split; [by eexists|by right].
      * rewrite lookup_insert_ne by done. tauto.
  - intros q y Hq. apply lookup_insert_Some in Hq as [[_ <-]|[_ Hq]]; [|by apply (H5 q)]. split_and!; [done|done|done|done].
Qed.

(** Changing the reference count only. *)
Lemma fluff_ok_refs s p x n :
  fluff_ok s -> fl_mem s !! p = Some x -> 0 < n < 2 ^ 32 ->
  fluff_ok (mkFluff (<[p := mkFElem (fe_pValue x) (fe_Key x) (fe_Profit x) (fe_Height x) n]> (fl_mem s))
              (fl_setThreshold s) (fl_setProfit s) (fl_setTxs s) (fl_Queue s)).
Proof.
  intros [H1 H2 H3 [H4 H4'] H5] Hp Hn. set (x' := mkFElem _ _ _ _ n).
  assert (forall q, alive (<[p := x']> (fl_mem s)) q <-> alive (fl_mem s) q) as Ha.
  { intros q. unfold linked. destruct (decide (q = p)) as [->|Hne]; [|by rewrite lookup_insert_ne].
    rewrite lookup_insert_eq, Hp. split; intros (y & [= <-] & Hy); by eexists. }
  assert (forall K (key : FElem -> K), key x = key x' -> forall q, key <$> fl_mem s !! q = key <$> <[p := x']> (fl_mem s) !! q) as Hk.
  { intros K key E q. destruct (decide (q = p)) as [->|Hne]; [|by rewrite lookup_insert_ne]. rewrite lookup_insert_eq, Hp. cbn. by rewrite E. }
  split; cbn [fl_mem fl_setThreshold fl_setProfit fl_setTxs fl_Queue].
  - eapply indexed_ext; [done| |exact H1]. intros q _. by apply Hk.
  - eapply indexed_ext; [done| |exact H2]. intros q _. by apply Hk.
  - eapply indexed_ext; [done| |exact H3]. intros q _. by apply Hk.
  - split; [done|]. intros q. rewrite H4'. destruct (decide (q = p)) as [->|Hne]; [|by rewrite lookup_insert_ne].
    rewrite lookup_insert_eq, Hp. split; by eexists.
  - intros q y Hq. apply lookup_insert_Some in Hq as [[_ <-]|[_ Hq]]; [|by apply (H5 q)].
    destruct (H5 p x Hp) as (? & ? & _). split; [done|]. split; [done|exact Hn].
Qed.

Lemma Fluff_Release_ok s p x :
  fluff_ok s -> fl_mem s !! p = Some x -> (fe_Refs x = 1 -> fe_pValue x = None) ->
  exists s', Fluff_Release s p = Some s' /\ fluff_ok s' /\
    fl_setThreshold s' = fl_setThreshold s /\ fl_setProfit s' = fl_setProfit s /\ fl_setTxs s' = fl_setTxs s /\
    (if fe_Refs x =? 1 then fl_mem s' = delete p (fl_mem s) /\ fl_Queue s ≡ₚ p :: fl_Queue s' /\ sublist (fl_Queue s') (fl_Queue s)
     else fl_mem s' = <[p := mkFElem (fe_pValue x) (fe_Key x) (fe_Profit x) (fe_Height x) (fe_Refs x - 1)]> (fl_mem s) /\
          fl_Queue s' = fl_Queue s).
Proof.
  intros Hs Hp Hnone. pose proof (fo_elm _ Hs p x Hp) as (_ & _ & Href). unfold Fluff_Release. rewrite Hp.
  rewrite (proj2 (Z.eqb_neq (fe_Refs x) 0)) by lia. cbn [fe_Refs fe_pValue]. rewrite u32_small by lia.
  destruct (Z.eqb_spec (fe_Refs x) 1) as [E1|E1].
  - rewrite E1. change (1 - 1 =? 0) with true. cbv iota. rewrite (Hnone E1).
    destruct (fo_que _ Hs) as [Hd Hq]. assert (p ∈ fl_Queue s) as Hin by (apply Hq; by eexists).
    destruct (ms_erase_spec p (fl_Queue s) Hin) as (q & -> & HP & Hsub). eexists. split; [done|]. split; [|by split_and!].
    assert (forall u, u <> p -> delete p (fl_mem s) !! u = fl_mem s !! u) as Hdel by (intros u Hu; by rewrite lookup_delete_ne).
    assert (~ alive (fl_mem s) p) as Hdead. { intros (y & Ey & Hy). rewrite Hp in Ey. injection Ey as <-. unfold live in Hy. rewrite (Hnone E1) in Hy. by destruct Hy. }
    assert (forall u, alive (delete p (fl_mem s)) u <-> alive (fl_mem s) u) as Ha.
    { intros u. destruct (decide (u = p)) as [->|Hne]; [|unfold linked; by rewrite Hdel].
      split; [|done]. intros (y & Ey & _). by rewrite lookup_delete_eq in Ey. }
    assert (forall K (key : FElem -> K) u, alive (fl_mem s) u -> key <$> fl_mem s !! u = key <$> delete p (fl_mem s) !! u) as Hk.
    { intros K key u Hu. rewrite Hdel; [done|]. by intros ->. }
    destruct Hs as [H1 H2 H3 _ H5]. split; cbn [fl_mem fl_setThreshold fl_setProfit fl_setTxs fl_Queue].
    + eapply indexed_ext; [done| |exact H1]. intros u Hu. apply Hk. by apply H1.
    + eapply indexed_ext; [done| |exact H2]. intros u Hu. apply Hk. by apply H2.
    + eapply indexed_ext; [done| |exact H3]. intros u Hu. apply Hk. by apply H3.
    + rewrite HP in Hd. apply NoDup_cons in Hd as [Hn Hd]. split; [done|]. intros u. destruct (decide (u = p)) as [->|Hne].
      * rewrite lookup_delete_eq. split; [done|]. by intros [? ?].
      * rewrite Hdel by done. rewrite <- Hq, HP, elem_of_cons. tauto.
    + intros u y Hu. apply lookup_delete_Some in Hu as [_ Hu]. by apply (H5 u).
  - rewrite (proj2 (Z.eqb_neq (fe_Refs x - 1) 0)) by lia. eexists. split; [done|]. split; [|done].
    apply fluff_ok_refs; [done|done|lia].
Qed.

Lemma Fluff_Delete_ok s p x :
  fluff_ok s -> fl_mem s !! p = Some x -> is_Some (fe_pValue x) ->
  exists s', Fluff_Delete s p = Some s' /\ fluff_ok s' /\
    ms_erase p (fl_setThreshold s) = Some (fl_setThreshold s') /\ ms_erase p (fl_setProfit s) = Some (fl_setProfit s') /\
    ms_erase p (fl_setTxs s) = Some (fl_setTxs s') /\
    (forall q, q <> p -> fl_mem s' !! q = fl_mem s !! q) /\
    (fl_mem s' !! p = if fe_Refs x =? 1 then None
                      else Some (mkFElem None (fe_Key x) (fe_Profit x) (fe_Height x) (fe_Refs x - 1))).
Proof.
  intros Hs Hp Hx. pose proof (fo_elm _ Hs p x Hp) as (E1 & E2 & Href). unfold Fluff_Delete. rewrite Hp. destruct Hx as [tx Etx]. rewrite Etx.
  set (x' := mkFElem None _ _ _ _). assert (is_Some (fe_pValue x)) as Hx by (by rewrite Etx).
  destruct Hs as [H1 H2 H3 [H4 H4'] H5].
  destruct (indexed_erase _ _ _ _ p x x' H1 Hp Hx eq_refl) as (l1 & -> & _ & _ & I1).
  destruct (indexed_erase _ _ _ _ p x x' H2 Hp Hx eq_refl) as (l2 & -> & _ & _ & I2).
  destruct (indexed_erase _ _ _ _ p x x' H3 Hp Hx eq_refl) as (l3 & -> & _ & _ & I3).
  set (s1 := mkFluff _ _ _ _ _). assert (fl_mem s1 !! p = Some x') as Hp1 by apply lookup_insert_eq.
  assert (fluff_ok s1) as Hs1.
  { split; [done|done|done| |].
    - split; [done|]. intros q. cbn [s1 fl_Queue fl_mem]. rewrite H4'. destruct (decide (q = p)) as [->|Hne]; [|by rewrite lookup_insert_ne].
      rewrite lookup_insert_eq, Hp. split; by eexists.
    - intros q y Hq. cbn [s1 fl_mem] in Hq. apply lookup_insert_Some in Hq as [[_ <-]|[_ Hq]]; [done|by apply (H5 q)]. }
  destruct (Fluff_Release_ok s1 p x' Hs1 Hp1) as (s' & E & Hs' & T1 & T2 & T3 & Hm); [done|].
  exists s'. rewrite E, T1, T2, T3. split_and!; try done; cbn [x' fe_Refs] in Hm; destruct (Z.eqb_spec (fe_Refs x) 1) as [_|_];
    destruct Hm as [-> _].
  - intros q Hq. rewrite lookup_delete_ne by done. by apply lookup_insert_ne.
  - intros q Hq. rewrite lookup_insert_ne by done. by apply lookup_insert_ne.
  - apply lookup_delete_eq.
  - apply lookup_insert_eq.
Qed.

Lemma alive_index {K} (key : FElem -> K) lt mem l p : fluff_index key lt mem l -> p ∈ l -> exists x, mem !! p = Some x /\ is_Some (fe_pValue x).
Proof. intros [_ H _] Hp. by apply H in Hp. Qed.

(** [Clear] leaves only what is still referenced from outside. *)
Lemma Fluff_Clear_ok s : fluff_ok s ->
  exists s', Fluff_Clear s = Some s' /\ fluff_ok s' /\ fl_setThreshold s' = [] /\ fl_setProfit s' = [] /\ fl_setTxs s' = [] /\
    (forall p, fl_mem s !! p = None -> fl_mem s' !! p = None) /\
    forall p x, fl_mem s !! p = Some x -> is_Some (fl_mem s' !! p) <-> fe_Refs x <> 1 \/ fe_pValue x = None.
Proof.
  unfold Fluff_Clear. remember (fl_setThreshold s) as l eqn:El. revert s El.
  induction l as [|p l IH]; intros s El Hs; cbn [length Fluff_Clear_loop]; rewrite <- El.
  - exists s. assert (forall p, ~ alive (fl_mem s) p) as Hno.
    { intros p Hp. apply (ix_alive _ _ _ _ _ (fo_thr _ Hs)) in Hp. rewrite <- El in Hp. by apply not_elem_of_nil in Hp. }
    assert (forall K (key : FElem -> K) lt k, fluff_index key lt (fl_mem s) k -> k = []) as Hnil.
    { intros K key lt [|q k] Hk; [done|]. exfalso. apply (Hno q), (ix_alive _ _ _ _ _ Hk). by left. }
    split_and!; [done|done|done|eapply Hnil, Hs|eapply Hnil, Hs|done|]. intros p x Hp. split; [|by eexists]. intros _. right.
    destruct (fe_pValue x) as [tx|] eqn:E; [|done]. exfalso. apply (Hno p). exists x. unfold live. by rewrite E.
  - destruct (alive_index _ _ _ _ p (fo_thr _ Hs)) as (x & Hx & Hv); [rewrite <- El; by left|].
    destruct (Fluff_Delete_ok s p x Hs Hx Hv) as (s1 & E & Hs1 & T1 & _ & _ & M1 & M2). rewrite E.
    rewrite <- El in T1. cbn in T1. rewrite decide_True in T1 by done. injection T1 as T1.
    destruct (IH s1 T1 Hs1) as (s' & E' & Hs' & C1 & C2 & C3 & C4 & C5). exists s'. split_and!; try done.
    + intros q Hq. apply C4. destruct (decide (q = p)) as [->|Hne]; [congruence|]. by rewrite M1.
    + intros q y Hq. destruct (decide (q = p)) as [->|Hne]; [|apply C5; by rewrite M1].
      rewrite Hx in Hq. injection Hq as <-. destruct (Z.eqb_spec (fe_Refs x) 1) as [Er|Er].
      * rewrite (C4 p M2). split; [by intros [? ?]|]. intros [?|Hn]; [done|]. rewrite Hn in Hv. by destruct Hv.
      * rewrite (C5 p _ M2). cbn [fe_pValue]. split; [by left|by right].
Qed.

(** Eviction deletes from the end of the profit order. *)
Lemma Evict_ok nMax s : fluff_ok s ->
  exists s', Evict (length (fl_setProfit s)) nMax s = Some s' /\ fluff_ok s' /\ fl_setProfit s' = take nMax (fl_setProfit s).
Proof.
  remember (length (fl_setProfit s)) as fuel eqn:Ef. revert s Ef. induction fuel as [|fuel IH]; intros s Ef Hs; cbn [Evict].
  - rewrite (proj2 (Nat.leb_le _ _)) by lia. exists s. split_and!; [done|done|]. symmetry. apply take_ge. lia.
  - destruct (Nat.leb_spec (length (fl_setProfit s)) nMax); [exists s; split_and!; [done|done|]; symmetry; apply take_ge; lia|].
    destruct (last (fl_setProfit s)) as [p|] eqn:El.
    2: { apply last_None in El. rewrite El in Ef. done. }
    apply last_Some in El as [l El]. destruct (alive_index _ _ _ _ p (fo_pft _ Hs)) as (x & Hx & Hv).
    { rewrite El. apply elem_of_app. right. by left. }
    destruct (Fluff_Delete_ok s p x Hs Hx Hv) as (s1 & -> & Hs1 & _ & T2 & _).
    pose proof (ix_dup _ _ _ _ _ (fo_pft _ Hs)) as Hd. rewrite El in Hd, T2, Ef. rewrite ms_erase_last in T2 by done. injection T2 as T2.
    rewrite length_app in Ef. cbn in Ef. destruct (IH s1) as (s' & E & Hs' & Et); [rewrite <- T2; lia|done|].
    exists s'. split_and!; [done|done|]. rewrite Et, El, <- T2. rewrite take_app_le; [done|]. rewrite El, length_app in H. cbn in H. lia.
Qed.
End fluff_facts.

(** ** Claims on the fluff pool *)

(** The fluff pool stays consistent. In a pool whose three sets index exactly
    the elements with a transaction, each in its order, whose queue holds every
    element and whose elements are referenced: [AddValidTx] adds its element to
    all sets and at the end of the queue; [Delete] takes an element out of all
    sets, leaves the others alone and keeps it in the queue exactly when a peer
    still refers to it; a reference that is taken and released leaves the pool
    as it was; [Clear] empties the sets and leaves only what is referenced.
    None of them unlinks what is not linked, and all of them keep the pool
    consistent. *)
Theorem fluff_pool SizeNetto s :
  fluff_ok s ->
  (forall p tx fee height key, fl_mem s !! p = None -> bytes_n 16 fee -> bytes_ok key -> 0 < SizeNetto (t_Vectors tx) < 2 ^ 32 ->
     let s' := AddValidTx SizeNetto s p tx fee height key in
     fluff_ok s' /\ alive (fl_mem s') p /\ fl_Queue s' = fl_Queue s ++ [p]) /\
  (forall p x, fl_mem s !! p = Some x -> is_Some (fe_pValue x) ->
     exists s', Fluff_Delete s p = Some s' /\ fluff_ok s' /\ ~ alive (fl_mem s') p /\
       (forall q, q <> p -> fl_mem s' !! q = fl_mem s !! q) /\ (p ∈ fl_Queue s' <-> fe_Refs x <> 1)) /\
  (forall p x, fl_mem s !! p = Some x -> fe_Refs x + 1 < 2 ^ 32 ->
     exists s', AddRef s p = Some s' /\ fluff_ok s' /\ Fluff_Release s' p = Some s) /\
  (exists s', Fluff_Clear s = Some s' /\ fluff_ok s' /\ fl_setThreshold s' = [] /\ fl_setProfit s' = [] /\ fl_setTxs s' = [] /\
     forall p x, fl_mem s !! p = Some x -> is_Some (fl_mem s' !! p) <-> fe_Refs x <> 1 \/ fe_pValue x = None).
Proof.
  intros Hs. split_and!.
  - intros p tx fee height key Hp Hf Hk Hsz. cbv zeta. split_and!; [by apply AddValidTx_ok| |done].
    eexists. split; [apply lookup_insert_eq|]. by eexists.
  - intros p x Hp Hx. destruct (Fluff_Delete_ok s p x Hs Hp Hx) as (s' & E & Hs' & _ & _ & _ & M1 & M2). exists s'. split_and!; try done.
    + intros (y & Ey & Hy). rewrite M2 in Ey. destruct (fe_Refs x =? 1); [done|]. injection Ey as <-. by destruct Hy.
    + destruct (fo_que _ Hs') as [_ ->]. rewrite M2. destruct (Z.eqb_spec (fe_Refs x) 1); (split; [intros H; try done; by destruct H|intros; try done; by eexists]).
  - intros p x Hp Hr. pose proof (fo_elm _ Hs p x Hp) as (_ & _ & Href). unfold AddRef. rewrite Hp, u32_small by lia.
    eexists. split; [done|]. split; [apply fluff_ok_refs; [done|done|lia]|]. unfold Fluff_Release. cbn [fl_mem]. rewrite lookup_insert_eq.
    cbn [fe_Refs fe_pValue]. rewrite (proj2 (Z.eqb_neq (fe_Refs x + 1) 0)), u32_small by lia.
    replace (fe_Refs x + 1 - 1) with (fe_Refs x) by lia. rewrite (proj2 (Z.eqb_neq (fe_Refs x) 0)) by lia.
    cbn [fl_setThreshold fl_setProfit fl_setTxs fl_Queue]. rewrite insert_insert_eq, insert_id; [by destruct s|]. rewrite Hp. by destruct x.
  - destruct (Fluff_Clear_ok s Hs) as (s' & E & H1 & H2 & H3 & H4 & _ & H5). by exists s'.
Qed.

(** C34: The pool keeps the best transactions. When [OnTransactionFluff] has
    reduced the pool to its maximum size, exactly the elements at the front of
    the profit order are left, and no element that was deleted pays more per
    byte than one that was kept - compared exactly, without overflow of the
    128-bit fees. *)
Theorem pool_keeps_best nMax s :
  fluff_ok s ->
  exists s', Evict (length (fl_setProfit s)) nMax s = Some s' /\ fluff_ok s' /\ fl_setProfit s' = take nMax (fl_setProfit s) /\
    forall p q x y, p ∈ fl_setProfit s' -> q ∈ drop nMax (fl_setProfit s) -> fl_mem s !! p = Some x -> fl_mem s !! q = Some y ->
      be_val (pf_Fee (fe_Profit y)) * pf_nSize (fe_Profit x) <= be_val (pf_Fee (fe_Profit x)) * pf_nSize (fe_Profit y).
Proof.
  intros Hs. destruct (Evict_ok nMax s Hs) as (s' & E & Hs' & Et). exists s'. split_and!; [done|done|done|].
  intros p q x y Hp Hq Hx Hy. rewrite Et in Hp. pose proof (ix_sorted _ _ _ _ _ (fo_pft _ Hs)) as Hsort.
  unfold ms_sorted in Hsort. rewrite <- (take_drop nMax (fl_setProfit s)) in Hsort. apply StronglySorted_app in Hsort as (Hc & _ & _).
  specialize (Hc p q Hp Hq). cbn in Hc. unfold by_key in Hc. rewrite Hx, Hy in Hc.
  destruct (fo_elm _ Hs p x Hx) as (Px & _). destruct (fo_elm _ Hs q y Hy) as (Py & _).
  rewrite Profit_lt_spec, Z.ltb_ge in Hc by done. exact Hc.
Qed.

(** ** Timeouts of the stem pool *)

(** The clock and the times are 32-bit milliseconds that wrap around. *)
Definition time_of (s : Stem) (p : nat) : Z := match st_mem s !! p with Some x => se_Time x | None => 0 end.

Record times_ok (s : Stem) : Prop := {
  tk_mem p : p ∈ st_setTime s -> exists x, st_mem s !! p = Some x /\ 0 <= se_Time x < 2 ^ 32;
  tk_sorted : ms_sorted (Time_lt (st_mem s)) (st_setTime s)
}.

Lemma mod_sub x y w : 0 < w -> 0 <= x < w -> 0 <= y < w -> (x - y) mod w = if y <=? x then x - y else x - y + w.
Proof.
  intros Hw Hx Hy. destruct (Z.leb_spec y x); symmetry.
  - rewrite Z.mod_small; lia.
  - rewrite <- (Z.mod_unique_pos (x - y) w (-1) (x - y + w)); lia.
Qed.

Lemma Time_lower_bound_spec s t l :
  (forall p, p ∈ l -> is_Some (st_mem s !! p)) -> StronglySorted (fun a b => time_of s a <= time_of s b) l ->
  match Time_lower_bound (st_mem s) t l with
  | Some p => p ∈ l /\ t <= time_of s p /\ forall q, q ∈ l -> t <= time_of s q -> time_of s p <= time_of s q
  | None => forall q, q ∈ l -> time_of s q < t
  end.
Proof.
  induction l as [|p l IH]; intros Hm Hs; cbn [Time_lower_bound].
  - intros q Hq. by apply not_elem_of_nil in Hq.
  - apply StronglySorted_inv in Hs as [Hs Hp]. destruct (Hm p ltac:(by left)) as [x Ex]. rewrite Ex.
    assert (time_of s p = se_Time x) as Et by (unfold time_of; by rewrite Ex).
    destruct (Z.ltb_spec (se_Time x) t) as [Hlt|Hge].
    + specialize (IH ltac:(intros q Hq; apply Hm; by right) Hs). destruct (Time_lower_bound _ _ _) as [q|].
      * destruct IH as (I1 & I2 & I3). split_and!; [by right|done|]. intros u Hu Hle. apply elem_of_cons in Hu as [->|Hu]; [lia|by apply I3].
      * intros u Hu. apply elem_of_cons in Hu as [->|Hu]; [lia|by apply IH].
    + split_and!; [by left|lia|]. intros u Hu _. apply elem_of_cons in Hu as [->|Hu]; [lia|]. by eapply Forall_forall in Hp.
Qed.

(** Timeouts survive the wrap-around of the clock. For elements ordered by
    their 32-bit times, [get_NextTimeout] finds one exactly when there is any;
    it is the first one on the circle of times that starts half a turn before
    now; and it is due ([0]) exactly when its time is at most half a turn in the
    past, and otherwise the distance to it is reported. *)
Theorem stem_next_timeout s now :
  times_ok s -> 0 <= now < 2 ^ 32 ->
  let half := 2 ^ 31 - 1 in
  match get_NextTimeout s now with
  | None => st_setTime s = []
  | Some (p, n) =>
      p ∈ st_setTime s /\
      (forall q, q ∈ st_setTime s -> (time_of s p - (now - half)) mod 2 ^ 32 <= (time_of s q - (now - half)) mod 2 ^ 32) /\
      n = if (now - time_of s p) mod 2 ^ 32 <=? half then 0 else (time_of s p - now) mod 2 ^ 32
  end.
Proof.
  intros [Hm Hs] Hnow half. unfold get_NextTimeout. destruct (st_setTime s) as [|p0 l0] eqn:El; [done|].
  change (Z.shiftr (u32 (-1)) 1) with half. remember (u32 (now - half)) as T eqn:ET.
  assert (forall p, p ∈ p0 :: l0 -> is_Some (st_mem s !! p) /\ 0 <= time_of s p < 2 ^ 32) as Hb.
  { intros p Hp. destruct (Hm p Hp) as (x & Ex & Hx). unfold time_of. rewrite Ex. split; [by eexists|done]. }
  assert (StronglySorted (fun a b => time_of s a <= time_of s b) (p0 :: l0)) as Hsort.
  { unfold ms_sorted in Hs. clear -Hs Hm. induction Hs as [|p l Hs IH Hp]; [constructor|]. constructor; [apply IH; intros q Hq; apply Hm; by right|].
    apply Forall_forall. intros q Hq. eapply Forall_forall in Hp; [|exact Hq]. cbn in Hp. unfold Time_lt, time_of in *.
    destruct (Hm p ltac:(by left)) as (x & Ex & _), (Hm q ltac:(by right)) as (y & Ey & _). rewrite Ex, Ey in *. lia. }
  pose proof (Time_lower_bound_spec s T (p0 :: l0) (fun p Hp => proj1 (Hb p Hp)) Hsort) as Hlb.
  set (p := default p0 (Time_lower_bound (st_mem s) T (p0 :: l0))).
  assert (p ∈ p0 :: l0 /\ forall q, q ∈ p0 :: l0 -> (time_of s p - T) mod 2 ^ 32 <= (time_of s q - T) mod 2 ^ 32) as [Hin Hmin].
  { assert (0 <= T < 2 ^ 32) as HT by (rewrite ET; apply Z.mod_pos_bound; lia). clear ET.
    destruct (Time_lower_bound (st_mem s) T (p0 :: l0)) as [q|]; subst p; cbn [default from_option]; unfold id.
    - destruct Hlb as (L1 & L2 & L3). split; [done|]. intros u Hu. pose proof (proj2 (Hb q L1)). pose proof (proj2 (Hb u Hu)). pose proof (L3 u Hu).
      rewrite !mod_sub by lia. destruct (Z.leb_spec T (time_of s q)), (Z.leb_spec T (time_of s u)); lia.
    - split; [by left|]. intros u Hu. pose proof (proj2 (Hb p0 ltac:(by left))). pose proof (proj2 (Hb u Hu)).
      pose proof (Hlb u Hu). pose proof (Hlb p0 ltac:(by left)). rewrite !mod_sub by lia.
      destruct (Z.leb_spec T (time_of s p0)), (Z.leb_spec T (time_of s u)); try lia.
      apply StronglySorted_inv in Hsort as [_ Hf]. apply elem_of_cons in Hu as [->|Hu]; [lia|].
      eapply Forall_forall in Hf; [|exact Hu]. cbn in Hf. lia. }
  clearbody p. destruct (Hb p Hin) as [[x Ex] Hpb]. rewrite Ex. assert (time_of s p = se_Time x) as Et by (unfold time_of; by rewrite Ex).
  split_and!; [done| |].
  - intros q Hq. specialize (Hmin q Hq). rewrite ET in Hmin. unfold wrap in Hmin. by rewrite !Zminus_mod_idemp_r in Hmin.
  - rewrite Et in *. rewrite ET. unfold wrap. rewrite !mod_sub by (subst half; lia).
    destruct (Z.leb_spec half now), (Z.leb_spec (se_Time x) now), (Z.leb_spec now (se_Time x)); cbn [Bool.eqb];
      repeat match goal with |- context [?a <=? ?b] => destruct (Z.leb_spec a b) | |- context [?a <? ?b] => destruct (Z.ltb_spec a b) end;
      cbn [Bool.eqb]; try reflexivity; subst half; lia.
Qed.

(** ** Consistency of the stem pool *)
Section stem_facts.
Context (SizeNetto : TxVectors -> Z) (sha256 : list Z -> list Z) (rules : Rules) (ig : bool).
Context {G : Type} `{!Curve G, !OracleDraws G} (ValidateTxContext : Transaction -> HeightRange -> bool).

(** The sets hold exactly the elements whose members say so. *)
Definition members {K} (l : list K) (P : K -> Prop) : Prop := NoDup l /\ forall k, k ∈ l <-> P k.
Definition has (mem : gmap nat SElem) (P : SElem -> Prop) (p : nat) : Prop := exists x, mem !! p = Some x /\ P x.

Record stem_sets (s : Stem) : Prop := {
  ss_time : members (st_setTime s) (has (st_mem s) (fun x => se_Time x <> 0));
  ss_pft : members (st_setProfit s) (has (st_mem s) (fun x => se_bAggregating x = true));
  ss_krn : members (st_setKrns s) (fun k => has (st_mem s) (fun x => (k.2 < length (se_vKrn x))%nat) k.1)
}.

Definition krn_ids (tx : Transaction) : list (list Z) :=
  (fun k => TxKernel_get_ID sha256 rules ig (G := G) k None zero_hash) <$> m_vKernels (t_Vectors tx).

(** In addition every element is registered with the IDs of its kernels. *)
Definition stem_ok (s : Stem) : Prop :=
  stem_sets s /\ forall p x, st_mem s !! p = Some x -> se_vKrn x = krn_ids (se_pValue x).

Lemma members_ext {K} (l : list K) (P Q : K -> Prop) : (forall k, P k <-> Q k) -> members l P -> members l Q.
Proof. intros H [H1 H2]. split; [done|]. intros k. by rewrite H2. Qed.

Lemma members_insert {K} (lt : K -> K -> bool) x (l : list K) (P Q : K -> Prop) :
  members l P -> ~ P x -> (forall k, Q k <-> k = x \/ P k) -> members (ms_insert lt x l) Q.
Proof.
  intros [H1 H2] Hx HQ. split; [rewrite ms_insert_perm; constructor; [by rewrite H2|done]|].
  intros k. by rewrite ms_insert_perm, elem_of_cons, H2, HQ.
Qed.

Lemma members_erase p l (P Q : nat -> Prop) :
  members l P -> P p -> (forall k, Q k <-> k <> p /\ P k) -> exists l', ms_erase p l = Some l' /\ members l' Q.
Proof.
  intros [H1 H2] Hp HQ. destruct (ms_erase_spec p l) as (l' & E & HP & _); [by apply H2|]. exists l'. split; [done|].
  rewrite HP in H1. apply NoDup_cons in H1 as [Hn H1]. split; [done|]. intros k. rewrite HQ, <- H2, HP, elem_of_cons.
  split; [|by intros [? [?|?]]]. intros Hk. split; [by intros ->|by right].
Qed.

Lemma has_insert mem p x (P : SElem -> Prop) q : has (<[p := x]> mem) P q <-> (q = p /\ P x) \/ (q <> p /\ has mem P q).
Proof.
  unfold has. destruct (decide (q = p)) as [->|Hne].
  - rewrite lookup_insert_eq. split; [intros (y & [= <-] & Hy); by left|]. intros [[_ H]|[? _]]; [by exists x|done].
  - rewrite lookup_insert_ne by done. split; [by right|]. by intros [[? _]|[_ ?]].
Qed.

Lemma has_same mem p x x' (P : SElem -> Prop) q :
  mem !! p = Some x -> (P x' <-> P x) -> has (<[p := x']> mem) P q <-> has mem P q.
Proof.
  intros Hp HP. rewrite has_insert. destruct (decide (q = p)) as [->|Hne]; [|tauto].
  split; [intros [[_ H]|[? _]]; [exists x; by rewrite <- HP|done]|]. intros (y & Ey & Hy). left. split; [done|]. rewrite Hp in Ey. injection Ey as <-. by apply HP.
Qed.

(** An update that no set depends on. *)
Lemma stem_sets_upd s p x x' :
  stem_sets s -> st_mem s !! p = Some x -> (se_Time x' <> 0 <-> se_Time x <> 0) -> se_bAggregating x' = se_bAggregating x ->
  length (se_vKrn x') = length (se_vKrn x) -> stem_sets (upd s p x').
Proof.
  intros [H1 H2 H3] Hp E1 E2 E3. split; cbn [upd st_mem st_setTime st_setProfit st_setKrns].
  - eapply members_ext; [|exact H1]. intros q. symmetry. by apply (has_same _ _ x).
  - eapply members_ext; [|exact H2]. intros q. symmetry. apply (has_same _ _ x); [done|]. by rewrite E2.
  - eapply members_ext; [|exact H3]. intros k. symmetry. apply (has_same _ _ x); [done|]. by rewrite E3.
Qed.

Definition with_time (x : SElem) (t : Z) : SElem :=
  mkSElem (se_pValue x) (se_bAggregating x) t (se_Profit x) (se_Height x) (se_vKrn x).
Definition with_aggr (x : SElem) (b : bool) : SElem :=
  mkSElem (se_pValue x) b (se_Time x) (se_Profit x) (se_Height x) (se_vKrn x).
Definition with_krn (x : SElem) (l : list (list Z)) : SElem :=
  mkSElem (se_pValue x) (se_bAggregating x) (se_Time x) (se_Profit x) (se_Height x) l.

Lemma DeleteTimer_ok s p x : stem_sets s -> st_mem s !! p = Some x ->
  exists s', DeleteTimer s p = Some s' /\ stem_sets s' /\ st_mem s' = <[p := with_time x 0]> (st_mem s) /\
    st_setProfit s' = st_setProfit s /\ st_setKrns s' = st_setKrns s.
Proof.
  intros [H1 H2 H3] Hp. unfold DeleteTimer. rewrite Hp. destruct (Z.eqb_spec (se_Time x) 0) as [E|E].
  - exists s. split_and!; try done. symmetry. apply insert_id. rewrite Hp. unfold with_time. rewrite <- E. by destruct x.
  - destruct (members_erase p (st_setTime s) _ (has (<[p := with_time x 0]> (st_mem s)) (fun x => se_Time x <> 0)) H1) as (l & -> & Hl).
    + by exists x.
    + intros q. rewrite has_insert. cbn. tauto.
    + eexists. split; [done|]. split; [|done]. split; [done| |]; cbn [st_mem st_setProfit st_setKrns].
      * eapply members_ext; [|exact H2]. intros q. symmetry. by apply (has_same _ _ x).
      * eapply members_ext; [|exact H3]. intros k. symmetry. by apply (has_same _ _ x).
Qed.

Lemma DeleteAggr_ok s p x : stem_sets s -> st_mem s !! p = Some x ->
  exists s', DeleteAggr s p = Some s' /\ stem_sets s' /\ st_mem s' = <[p := with_aggr x false]> (st_mem s) /\
    st_setTime s' = st_setTime s /\ st_setKrns s' = st_setKrns s.
Proof.
  intros [H1 H2 H3] Hp. unfold DeleteAggr. rewrite Hp. destruct (se_bAggregating x) eqn:E.
  - destruct (members_erase p (st_setProfit s) _ (has (<[p := with_aggr x false]> (st_mem s)) (fun x => se_bAggregating x = true)) H2) as (l & -> & Hl).
    + by exists x.
    + intros q. rewrite has_insert. cbn. split; [by intros [[_ ?]|?]|by right].
    + eexists. split; [done|]. split; [|done]. split; [| done |]; cbn [st_mem st_setTime st_setKrns].
      * eapply members_ext; [|exact H1]. intros q. symmetry. by apply (has_same _ _ x).
      * eapply members_ext; [|exact H3]. intros k. symmetry. by apply (has_same _ _ x).
  - exists s. split_and!; try done. symmetry. apply insert_id. rewrite Hp. unfold with_aggr. rewrite <- E. by destruct x.
Qed.

Lemma DeleteKrn_ok s p x : stem_sets s -> st_mem s !! p = Some x ->
  exists s', DeleteKrn s p = Some s' /\ stem_sets s' /\ st_mem s' = <[p := with_krn x []]> (st_mem s) /\
    st_setTime s' = st_setTime s /\ st_setProfit s' = st_setProfit s.
Proof.
  intros [H1 H2 [H3 H4]] Hp. unfold DeleteKrn. rewrite Hp. eexists. split; [done|]. split; [|done].
  split; cbn [st_mem st_setTime st_setProfit st_setKrns].
  - eapply members_ext; [|exact H1]. intros q. symmetry. by apply (has_same _ _ x).
  - eapply members_ext; [|exact H2]. intros q. symmetry. by apply (has_same _ _ x).
  - split; [by apply NoDup_filter|]. intros k. rewrite list_elem_of_filter, H4, has_insert. cbn. split; [tauto|]. intros [[_ ?]|?]; [lia|tauto].
Qed.

Abbreviation ids := (fmap (fun k => TxKernel_get_ID sha256 rules ig (G := G) k None zero_hash)).

(** The loop of [InsertKrn]: [P] are the kernels of other elements. *)
Lemma InsertKrn_loop_ok (P : nat * nat -> Prop) p ks i s x :
  (forall k, P k -> k.1 <> p) -> st_mem s !! p = Some x -> length (se_vKrn x) = (i + length ks)%nat ->
  members (st_setKrns s) (fun k => P k \/ (k.1 = p /\ (k.2 < i)%nat)) ->
  let s' := InsertKrn_loop sha256 rules ig (G := G) s p ks i in
  st_mem s' = <[p := with_krn x (take i (se_vKrn x) ++ ids ks)]> (st_mem s) /\
  members (st_setKrns s') (fun k => P k \/ (k.1 = p /\ (k.2 < i + length ks)%nat)) /\
  st_setTime s' = st_setTime s /\ st_setProfit s' = st_setProfit s.
Proof.
  intros HP. revert i s x. induction ks as [|k ks IH]; intros i s x Hp Hlen Hm; cbn [InsertKrn_loop].
  - cbn [length fmap list_fmap] in *. rewrite Nat.add_0_r in *. split_and!; try done.
    rewrite app_nil_r, take_ge by lia. symmetry. apply insert_id. rewrite Hp. by destruct x.
  - rewrite Hp. set (hv := TxKernel_get_ID _ _ _ _ _ _). set (x1 := mkSElem _ _ _ _ _ _). cbn [length] in *.
    set (s1 := mkStem _ _ _ _ _).
    destruct (IH (S i) s1 x1) as (I1 & I2 & I3 & I4); try done.
    + apply lookup_insert_eq.
    + cbn [x1 se_vKrn]. rewrite length_insert. lia.
    + cbn [s1 st_setKrns]. eapply members_insert; [exact Hm| |].
      * intros [H|[_ H]]; [by apply HP in H|cbn in H; lia].
      * intros [a b]. cbn.
        split; [|intros [[= -> ->]|[?|[? ?]]]; [right; split; [done|lia]|by left|right; split; [done|lia]]].
        intros [?|[-> Hb]]; [right; by left|]. destruct (decide (b = i)) as [->|]; [by left|right; right; split; [done|lia]].
    + split_and!; [|by rewrite Nat.add_succ_r|done|done].
      rewrite I1. cbn [s1 st_mem]. rewrite insert_insert_eq. f_equal. unfold with_krn. cbn [x1 se_vKrn se_pValue se_bAggregating se_Time se_Profit se_Height].
      f_equal. rewrite fmap_cons. fold hv. rewrite (cons_middle hv), app_assoc. f_equal.
      rewrite (take_S_r _ i hv) by (apply list_lookup_insert_eq; lia). by rewrite take_insert_ge.
Qed.

Lemma InsertKrn_ok s p x : stem_sets s -> st_mem s !! p = Some x -> se_vKrn x = [] ->
  exists s', InsertKrn sha256 rules ig (G := G) s p = Some s' /\ stem_sets s' /\
    st_mem s' = <[p := with_krn x (krn_ids (se_pValue x))]> (st_mem s) /\
    st_setTime s' = st_setTime s /\ st_setProfit s' = st_setProfit s.
Proof.
  intros [H1 H2 [H3 H4]] Hp Hv. unfold InsertKrn. rewrite Hp, Hv. cbn [length]. rewrite take_nil, Nat.sub_0_r. cbn [app].
  set (ks := m_vKernels _). set (x1 := mkSElem _ _ _ _ _ (replicate _ _)). eexists. split; [done|].
  destruct (InsertKrn_loop_ok (fun k => k.1 <> p /\ has (st_mem s) (fun x => (k.2 < length (se_vKrn x))%nat) k.1) p ks 0 (upd s p x1) x1)
    as (I1 & I2 & I3 & I4).
  - by intros k [? _].
  - apply lookup_insert_eq.
  - apply length_replicate.
  - cbn [upd st_setKrns]. eapply members_ext; [|exact (conj H3 H4)]. intros k. cbn. split; [|by intros [[_ ?]|[_ ?]]; [|lia]].
    intros Hk. left. split; [|done]. intros E. destruct Hk as (y & Ey & Hy). rewrite E, Hp in Ey. injection Ey as <-. rewrite Hv in Hy. cbn in Hy. lia.
  - cbn [upd st_mem st_setTime st_setProfit take app] in *. rewrite insert_insert_eq, take_0 in I1. cbn [app] in I1.
    assert (with_krn x1 (ids ks) = with_krn x (krn_ids (se_pValue x))) as Ex by done. rewrite Ex in I1.
    split_and!; [|done|done|done]. split; rewrite I1.
    + rewrite I3. eapply members_ext; [|exact H1]. intros q. symmetry. by apply (has_same _ _ x).
    + rewrite I4. eapply members_ext; [|exact H2]. intros q. symmetry. by apply (has_same _ _ x).
    + eapply members_ext; [|exact I2]. intros k. cbn. rewrite has_insert. cbn [with_krn se_vKrn]. unfold krn_ids. rewrite length_fmap. fold ks. tauto.
Qed.

Lemma DeleteRaw_ok s p x : stem_sets s -> st_mem s !! p = Some x ->
  exists s', DeleteRaw s p = Some s' /\ stem_sets s' /\ st_mem s' = delete p (st_mem s).
Proof.
  intros Hs Hp. unfold DeleteRaw. destruct (DeleteTimer_ok s p x Hs Hp) as (s1 & -> & Hs1 & M1 & _).
  destruct (DeleteAggr_ok s1 p (with_time x 0) Hs1) as (s2 & -> & Hs2 & M2 & _); [rewrite M1; apply lookup_insert_eq|].
  destruct (DeleteKrn_ok s2 p (with_aggr (with_time x 0) false) Hs2) as (s3 & -> & [H1 H2 H3] & M3 & _); [rewrite M2; apply lookup_insert_eq|].
  rewrite M2, M1, !insert_insert_eq in M3. eexists. split; [done|].
  assert (delete p (st_mem s3) = delete p (st_mem s)) as Ed by (rewrite M3; apply delete_insert_eq).
  split; [|done]. set (y := with_krn _ _) in M3.
  assert (forall (P : SElem -> Prop) q, ~ P y -> has (st_mem s3) P q <-> has (delete p (st_mem s3)) P q) as Hd.
  { intros P q HP. rewrite M3, delete_insert_eq, has_insert. unfold has. destruct (decide (q = p)) as [->|Hne].
    - rewrite lookup_delete_eq. split; [by intros [[_ ?]|[? _]]|by intros (? & ? & _)].
    - rewrite lookup_delete_ne by done. split; [by intros [[? _]|[_ ?]]|by right]. }
  split; cbn [st_mem st_setTime st_setProfit st_setKrns].
  - eapply members_ext; [|exact H1]. intros q. apply Hd. cbn. lia.
  - eapply members_ext; [|exact H2]. intros q. by apply Hd.
  - eapply members_ext; [|exact H3]. intros k. apply Hd. cbn. lia.
Qed.

Lemma Stem_Delete_ok s now p x : stem_sets s -> st_mem s !! p = Some x ->
  exists s', Stem_Delete s now p = Some s' /\ stem_sets s' /\ st_mem s' = delete p (st_mem s).
Proof.
  intros Hs Hp. unfold Stem_Delete. rewrite Hp. destruct (DeleteRaw_ok s p x Hs Hp) as (s1 & -> & [H1 H2 H3] & M1).
  destruct (negb _ && _); [|by eexists]. eexists. split; [done|]. destruct (get_NextTimeout s1 now) as [[q n]|]; by split.
Qed.

(** Merging transactions in the stem pool. For two different elements of a
    consistent pool whose transactions have sorted, well-formed elements,
    [TryMerge] always finishes: either it refuses and leaves the pool as it was,
    because the height ranges do not meet or the context does not accept the
    result, or the source is gone from memory and from all sets, the target
    holds the combination of both transactions with the sum of the offsets and
    of the fees and the intersection of the heights, it is registered with the IDs of
    the kernels of the combination, nothing else has changed, and the pool is
    consistent. *)
Theorem stem_try_merge s now trg src t x n :
  stem_ok s -> trg <> src -> st_mem s !! trg = Some t -> st_mem s !! src = Some x ->
  readers_ok ig n [get_Reader (t_Vectors (se_pValue t)); get_Reader (t_Vectors (se_pValue x))] ->
  exists s' b, TryMerge SizeNetto sha256 rules ig (G := G) ValidateTxContext s now trg src = Some (s', b) /\
    if b then
      stem_ok s' /\ st_mem s' !! src = None /\ (forall q, q <> trg -> q <> src -> st_mem s' !! q = st_mem s !! q) /\
      exists t' v, st_mem s' !! trg = Some t' /\
        Combine ig (fun _ => false) (S (combine_size [get_Reader (t_Vectors (se_pValue t)); get_Reader (t_Vectors (se_pValue x))]))
          [get_Reader (t_Vectors (se_pValue t)); get_Reader (t_Vectors (se_pValue x))] (mkVectors [] [] []) = Some (true, v) /\
        se_pValue t' = mkTransaction (BodyBase_Merge (t_Offset (se_pValue t)) (t_Offset (se_pValue x))) v /\
        se_Height t' = HR.Intersect (se_Height t) (se_Height x) /\ HR.IsEmpty (se_Height t') = false /\
        ValidateTxContext (se_pValue t') (se_Height t') = true /\
        pf_Fee (se_Profit t') = AmountBig_add (pf_Fee (se_Profit t)) (pf_Fee (se_Profit x)) /\
        se_bAggregating t' = se_bAggregating t /\ se_Time t' = se_Time t
    else s' = s.
Proof.
  intros [Hs Hids] Hne Ht Hx Hr. unfold TryMerge. rewrite Ht, Hx. destruct (HR.IsEmpty _) eqn:Ehr; [by exists s, false|]. cbv zeta.
  destruct (Combine_vectors ig (fun _ => false) n (S (combine_size [get_Reader (t_Vectors (se_pValue t)); get_Reader (t_Vectors (se_pValue x))]))
    [get_Reader (t_Vectors (se_pValue t)); get_Reader (t_Vectors (se_pValue x))]) as (v & _ & Ev & _); [intros; reflexivity|exact Hr|apply Nat.lt_succ_diag_r|].
  rewrite Ev. set (txNew := mkTransaction _ v). destruct (ValidateTxContext txNew _) eqn:Eval; cbn [negb]; [|by exists s, false].
  set (t1 := mkSElem (se_pValue t) _ _ (mkProfit _ _) _ _).
  assert (stem_sets (upd s trg t1)) as Hs0 by (by apply (stem_sets_upd s trg t)).
  destruct (Stem_Delete_ok (upd s trg t1) now src x Hs0) as (s1 & -> & Hs1 & M1); [cbn; by rewrite lookup_insert_ne|].
  cbn [upd st_mem] in M1. assert (st_mem s1 !! trg = Some t1) as Ht1 by (rewrite M1, lookup_delete_ne by done; apply lookup_insert_eq).
  destruct (DeleteKrn_ok s1 trg t1 Hs1 Ht1) as (s2 & -> & Hs2 & M2 & _). rewrite M2, lookup_insert_eq.
  set (t2 := mkSElem txNew _ _ _ _ _). assert (stem_sets (upd s2 trg t2)) as Hs2'.
  { apply (stem_sets_upd s2 trg (with_krn t1 [])); try done. rewrite M2. apply lookup_insert_eq. }
  destruct (InsertKrn_ok (upd s2 trg t2) trg t2 Hs2') as (s3 & -> & Hs3 & M3 & _); [apply lookup_insert_eq|done|].
  cbn [upd st_mem] in M3. rewrite insert_insert_eq, M2, insert_insert_eq, M1 in M3.
  exists s3, true. split; [done|]. rewrite M3. split_and!.
  - split; [done|]. intros q y. rewrite M3, lookup_insert_Some, lookup_delete_Some, lookup_insert_Some.
    intros [[_ <-]|(Hn & _ & [[E _]|[_ Hq]])]; [done|done|by apply (Hids q)].
  - by rewrite lookup_insert_ne, lookup_delete_eq.
  - intros q Hq1 Hq2. by rewrite lookup_insert_ne, lookup_delete_ne, lookup_insert_ne.
  - exists (with_krn t2 (krn_ids (se_pValue t2))), v. split; [apply lookup_insert_eq|]. split; [done|]. split_and!; done.
Qed.
End stem_facts.

(** ** Examples *)
Import Ecc.Demo.
Definition demo_size (v : TxVectors) : Z := 100 * Z.of_nat (length (m_vInputs v) + length (m_vOutputs v) + length (m_vKernels v)).
Definition amount (x : Z) : list Z := be_bytes 16 x.
Definition tx0 : Transaction := mkTransaction (be_bytes 32 5) demo_v0.
Definition tx1 : Transaction := mkTransaction (be_bytes 32 9) demo_v1.
Definition empty_fluff : Fluff := mkFluff ∅ [] [] [] [].

Lemma empty_fluff_ok : fluff_ok empty_fluff.
Proof.
  split; try apply indexed_empty.
  - split; [constructor|]. intros p. cbn. rewrite lookup_empty. split; [by intros ?%not_elem_of_nil|by intros [? ?]].
  - intros p x Hp. cbn in Hp. by rewrite lookup_empty in Hp.
Qed.

Lemma amount_ok16 x : bytes_n 16 (amount x).
Proof. split; [apply bytes_ok_be_bytes|apply length_be_bytes]. Qed.

Definition fluff1 : Fluff := AddValidTx demo_size empty_fluff 7 tx0 (amount 20) (mkHR 1 100) (be_bytes 32 1).
Definition fluff2 : Fluff := AddValidTx demo_size fluff1 8 tx1 (amount 10) (mkHR 1 90) (be_bytes 32 2).

Lemma fluff2_ok : fluff_ok fluff2.
Proof.
  apply AddValidTx_ok; [|reflexivity|apply amount_ok16|apply bytes_ok_be_bytes|vm_compute; split; congruence].
  apply AddValidTx_ok; [apply empty_fluff_ok|reflexivity|apply amount_ok16|apply bytes_ok_be_bytes|vm_compute; split; congruence].
Qed.

Lemma fluff_pool_witness :
  exists s', Fluff_Delete fluff2 7 = Some s' /\ fluff_ok s' /\ ~ alive (fl_mem s') 7 /\ fl_setTxs s' = [8%nat].
Proof.
  destruct (fluff_pool demo_size fluff2 fluff2_ok) as (_ & H & _).
  edestruct (H 7%nat) as (s' & E & H1 & H2 & _); [reflexivity|by eexists|].
  exists s'. split; [exact E|]. split; [exact H1|]. split; [exact H2|]. vm_compute in E. injection E as <-. reflexivity.
Defined.

Lemma pool_keeps_best_witness :
  exists s', Evict 2 1 fluff2 = Some s' /\ fluff_ok s' /\ fl_setProfit s' = [7%nat].
Proof.
  destruct (pool_keeps_best 1 fluff2 fluff2_ok) as (s' & E & H1 & H2 & _).
  exists s'. split; [exact E|]. split; [exact H1|]. rewrite H2. reflexivity.
Defined.

(** Three elements of the stem pool in the order of their profit: fees 1000, 150 and 10
    for a size of 100 each. *)
Definition stem_elem (tx : Transaction) (fee size time : Z) : SElem :=
  mkSElem tx true time (mkProfit (amount fee) size) (mkHR 1 100) (krn_ids demo_sha default_Rules false (G := zn) tx).
Definition demo_stem : Stem :=
  mkStem (<[1%nat := stem_elem tx0 10 100 7]> (<[2%nat := stem_elem tx1 1000 100 9]> {[ 3%nat := stem_elem tx1 150 100 5 ]}))
    [(1, 0); (2, 0); (3, 0)]%nat [3; 1; 2]%nat [2; 3; 1]%nat None.

Lemma has_singleton p x (P : SElem -> Prop) q : has {[ p := x ]} P q <-> q = p /\ P x.
Proof.
  unfold has. split.
  - intros (y & Hy & HP). apply lookup_singleton_Some in Hy as [<- <-]. done.
  - intros [-> HP]. exists x. split; [apply lookup_singleton_eq|done].
Qed.

Lemma demo_stem_ok : stem_ok demo_sha default_Rules false (G := zn) demo_stem.
Proof.
  assert (forall (P : SElem -> Prop) p, has (st_mem demo_stem) P p <->
    (p = 1%nat /\ P (stem_elem tx0 10 100 7)) \/ (p = 2%nat /\ P (stem_elem tx1 1000 100 9)) \/ (p = 3%nat /\ P (stem_elem tx1 150 100 5))) as Hh.
  { intros P p. unfold demo_stem. cbn [st_mem]. rewrite !has_insert, has_singleton. split; [tauto|].
    intros [[-> H]|[[-> H]|[-> H]]]; [by left|right; split; [done|by left]|right; split; [done|right; by split]]. }
  assert (forall (P : SElem -> Prop) (l : list nat), (forall p, p ∈ l <-> p = 1%nat \/ p = 2%nat \/ p = 3%nat) ->
    P (stem_elem tx0 10 100 7) -> P (stem_elem tx1 1000 100 9) -> P (stem_elem tx1 150 100 5) ->
    forall p, p ∈ l <-> has (st_mem demo_stem) P p) as Hall by (intros P l Hl H1 H2 H3 p; rewrite Hl, Hh; tauto).
  split; [split|].
  - split; [by apply (bool_decide_unpack _)|]. apply Hall; [|done..]. intros p. cbn [demo_stem st_setTime]. rewrite !elem_of_cons, elem_of_nil. tauto.
  - split; [by apply (bool_decide_unpack _)|]. apply Hall; [|done..]. intros p. cbn [demo_stem st_setProfit]. rewrite !elem_of_cons, elem_of_nil. tauto.
  - split; [by apply (bool_decide_unpack _)|]. intros [p i]. rewrite Hh. cbn [demo_stem st_setKrns fst snd]. rewrite !elem_of_cons, elem_of_nil.
    assert (forall q, (p, i) = (q, 0%nat) <-> p = q /\ (i < 1)%nat) as Hp by (intros q; split; [intros [= -> ->]; lia|intros [-> ?]; f_equal; lia]).
    rewrite !Hp. unfold stem_elem, krn_ids. cbn [se_vKrn]. rewrite !length_fmap. cbn. tauto.
  - intros p x Hp. assert (has (st_mem demo_stem) (fun y => y = x) p) as Hx by (by exists x). apply Hh in Hx.
    by destruct Hx as [[_ <-]|[[_ <-]|[_ <-]]].
Qed.

Lemma stem_next_timeout_witness :
  let half := 2 ^ 31 - 1 in
  (3%nat ∈ st_setTime demo_stem) /\
  (forall q, q ∈ st_setTime demo_stem -> (5 - (6 - half)) mod 2 ^ 32 <= (time_of demo_stem q - (6 - half)) mod 2 ^ 32) /\
  0 = if (6 - 5) mod 2 ^ 32 <=? half then 0 else (5 - 6) mod 2 ^ 32.
Proof.
  apply (stem_next_timeout demo_stem 6); [|lia]. split.
  - intros p Hp. cbn [demo_stem st_setTime] in Hp. rewrite !elem_of_cons, elem_of_nil in Hp.
    destruct Hp as [->|[->|[->|[]]]]; (eexists; split; [reflexivity|cbn; lia]).
  - repeat (constructor; [|repeat (constructor; [reflexivity|]); constructor]). constructor.
Defined.

Lemma stem_try_merge_witness :
  exists s' b, TryMerge demo_size demo_sha default_Rules false (G := zn) (fun _ _ => true) demo_stem 6 1 2 = Some (s', b) /\
    b = true /\ stem_ok demo_sha default_Rules false (G := zn) s' /\ st_mem s' !! 2%nat = None.
Proof.
  destruct (stem_try_merge demo_size demo_sha default_Rules false (G := zn) (fun _ _ => true) demo_stem 6 1 2
    (stem_elem tx0 10 100 7) (stem_elem tx1 1000 100 9) 1 demo_stem_ok ltac:(discriminate) ltac:(reflexivity) ltac:(reflexivity)
    demo_readers_ok) as (s' & b & E & H).
  exists s', b. split; [exact E|]. assert (b = true) as Hb by (apply (f_equal (fmap snd)) in E; vm_compute in E; congruence).
  rewrite Hb in H. destruct H as (H1 & H2 & _). split; [exact Hb|]. split; [exact H1|exact H2].
Defined.

(** A merge can break the order of the profit set. [TryMerge] changes the fee
    and the size of its target while the target is linked in [m_setProfit],
    where [PerformAggregation] takes it from, and does not link it anew: in a
    pool of three elements in the right order, merging the best one into the worst
    gives a set whose elements are no longer ordered by profit. *)
Theorem stem_merge_profit_order :
  ms_sorted (SProfit_lt (st_mem demo_stem)) (st_setProfit demo_stem) /\
  exists s', TryMerge demo_size demo_sha default_Rules false (G := zn) (fun _ _ => true) demo_stem 6 1 2 = Some (s', true) /\
    st_setProfit s' = [3; 1]%nat /\ SProfit_lt (st_mem s') 1 3 = true /\ ~ ms_sorted (SProfit_lt (st_mem s')) (st_setProfit s').
Proof.
  split; [repeat (constructor; [|repeat (constructor; [reflexivity|]); constructor]); constructor|].
  eexists. split; [vm_compute; reflexivity|]. split; [reflexivity|]. split; [vm_compute; reflexivity|].
  intros H. apply StronglySorted_inv in H as [_ H]. apply Forall_cons in H as [H _]. vm_compute in H. discriminate.
Qed.
