(* ===== verification/Aes.v ===== *)
(** The block cipher of [core/aes.h] and [core/aes.cpp]: AES with a key of 256
    bits, with tables that are generated at the first use.

    [Fips] is the cipher as FIPS 197 defines it, on bytes and on the field of 256
    elements; the theorems are that the code computes it, and that its
    decoder undoes its encoder. *)

From stdpp Require Import list.
From S2P Require Import Prelude UintBig EccData.

(** ** Tables *)

(** [ROTR8] and [XTIME]; the latter is stored in a byte. *)
Definition ROTR8 (x : Z) : Z := Z.lor (Z.land (Z.shiftl x 24) 0xFFFFFFFF) (Z.shiftr (Z.land x 0xFFFFFFFF) 8).
Definition XTIME (x : Z) : Z := Z.lxor (Z.shiftl x 1) (if Z.land x 0x80 =? 0 then 0x00 else 0x1B).

(** [pow] and [log], after [n] rounds of the loop. *)
Fixpoint PowLog (n : nat) : Z * list Z * list Z :=
  match n with
  | O => (1, replicate 256 0, replicate 256 0)
  | S n =>
      let '(x, pow, log) := PowLog n in
      (u8 (Z.lxor x (XTIME x)), <[n := x]> pow, <[Z.to_nat x := u8 (Z.of_nat n)]> log)
  end.

Fixpoint Rcon_loop (n : nat) : Z * list Z :=
  match n with
  | O => (1, replicate 10 0)
  | S n => let '(x, RCON) := Rcon_loop n in (u8 (XTIME x), <[n := Z.shiftl x 24]> RCON)
  end.

Definition rotl (y : Z) : Z := u8 (Z.lor (Z.shiftl y 1) (Z.shiftr y 7)).

(** The S-boxes, after the rounds [1 .. n]. *)
Fixpoint Sbox_loop (pow log : list Z) (n : nat) : list Z * list Z :=
  match n with
  | O => (<[0%nat := 0x63]> (replicate 256 0), <[Z.to_nat 0x63 := 0x00]> (replicate 256 0))
  | S n =>
      let '(FSb, RSb) := Sbox_loop pow log n in
      let i := S n in
      let x := pow !!! Z.to_nat (255 - log !!! i) in
      let y := rotl x in
      let x := Z.lxor x y in let y := rotl y in
      let x := Z.lxor x y in let y := rotl y in
      let x := Z.lxor x y in let y := rotl y in
      let x := Z.lxor x (Z.lxor y 0x63) in
      (<[i := x]> FSb, <[Z.to_nat x := Z.of_nat i]> RSb)
  end.

Record Tables := mkTables {
  FSb : list Z; FT0 : list Z; FT1 : list Z; FT2 : list Z; FT3 : list Z;
  RSb : list Z; RT0 : list Z; RT1 : list Z; RT2 : list Z; RT3 : list Z;
  RCON : list Z
}.

(** [MUL]. *)
Definition MUL (pow log : list Z) (x y : Z) : Z :=
  if (x =? 0) || (y =? 0) then 0 else pow !!! Z.to_nat ((log !!! Z.to_nat x + log !!! Z.to_nat y) mod 255).

Definition FT_entry (FSb : list Z) (i : nat) : Z :=
  let x := u8 (FSb !!! i) in
  let y := u8 (XTIME x) in
  Z.land (Z.lxor (Z.lxor (Z.lxor (Z.lxor x y) (u32 (Z.shiftl x 8))) (u32 (Z.shiftl x 16))) (u32 (Z.shiftl y 24))) 0xFFFFFFFF.

Definition RT_entry (pow log RSb : list Z) (i : nat) : Z :=
  let y := u8 (RSb !!! i) in
  Z.land (Z.lxor (Z.lxor (Z.lxor (MUL pow log 0x0B y) (u32 (Z.shiftl (MUL pow log 0x0D y) 8)))
    (u32 (Z.shiftl (MUL pow log 0x09 y) 16))) (u32 (Z.shiftl (MUL pow log 0x0E y) 24))) 0xFFFFFFFF.

Definition aes_gen_tables : Tables :=
  let '(_, pow, log) := PowLog 256 in
  let '(_, RCON) := Rcon_loop 10 in
  let '(FSb, RSb) := Sbox_loop pow log 255 in
  let FT0 := FT_entry FSb <$> seq 0 256 in
  let FT1 := ROTR8 <$> FT0 in
  let FT2 := ROTR8 <$> FT1 in
  let RT0 := RT_entry pow log RSb <$> seq 0 256 in
  let RT1 := ROTR8 <$> RT0 in
  let RT2 := ROTR8 <$> RT1 in
  mkTables FSb FT0 FT1 FT2 (ROTR8 <$> FT2) RSb RT0 RT1 RT2 (ROTR8 <$> RT2) RCON.

(** The tables, computed once. *)
Definition T : Tables := Eval vm_compute in aes_gen_tables.

(** ** Words and bytes *)
Definition GET_UINT32 (b : list Z) (i : nat) : Z :=
  Z.lor (Z.lor (Z.lor (Z.shiftl (b !!! i) 24) (Z.shiftl (b !!! (i + 1)%nat) 16)) (Z.shiftl (b !!! (i + 2)%nat) 8)) (b !!! (i + 3)%nat).

Definition PUT_UINT32 (n : Z) : list Z := [u8 (Z.shiftr n 24); u8 (Z.shiftr n 16); u8 (Z.shiftr n 8); u8 n].

(** [t[(uint8_t) (w >> s)]]. *)
Definition at8 (t : list Z) (w s : Z) : Z := t !!! Z.to_nat (u8 (Z.shiftr w s)).

(** ** [AES::Encoder] *)
Definition Nr : nat := 14.
Definition xor (a b : Z) : Z := Z.lxor a b.
#[local] Infix "^^" := xor (at level 50, left associativity).

(** The assignments of a round of the key schedule, with [RK] at [8 * i]. *)
Definition KeySteps (i : nat) : list (nat * (list Z -> Z)) :=
  let RK (l : list Z) j := l !!! (8 * i + j)%nat in
  let s w k sh := u32 (Z.shiftl (at8 (FSb T) w k) sh) in
  [(8%nat, fun l => RK l 0%nat ^^ RCON T !!! i ^^ s (RK l 7%nat) 16 24 ^^ s (RK l 7%nat) 8 16 ^^ s (RK l 7%nat) 0 8 ^^ at8 (FSb T) (RK l 7%nat) 24);
   (9%nat, fun l => RK l 1%nat ^^ RK l 8%nat);
   (10%nat, fun l => RK l 2%nat ^^ RK l 9%nat);
   (11%nat, fun l => RK l 3%nat ^^ RK l 10%nat);
   (12%nat, fun l => RK l 4%nat ^^ s (RK l 11%nat) 24 24 ^^ s (RK l 11%nat) 16 16 ^^ s (RK l 11%nat) 8 8 ^^ at8 (FSb T) (RK l 11%nat) 0);
   (13%nat, fun l => RK l 5%nat ^^ RK l 12%nat);
   (14%nat, fun l => RK l 6%nat ^^ RK l 13%nat);
   (15%nat, fun l => RK l 7%nat ^^ RK l 14%nat)].

Definition KeyRound (i : nat) (erk : list Z) : list Z :=
  fold_left (fun l '(j, f) => <[(8 * i + j)%nat := f l]> l) (KeySteps i) erk.

(** [Init]: the round keys. *)
Definition Encoder_Init (pKey : list Z) : list Z :=
  fold_left (fun erk i => KeyRound i erk) (seq 0 7) (((fun i => GET_UINT32 pKey (i * 4)) <$> seq 0 8) ++ replicate 56 0).

Abbreviation words := (Z * Z * Z * Z)%type.

Definition GetBlock (rk pSrc : list Z) : words :=
  (GET_UINT32 pSrc 0 ^^ rk !!! 0%nat, GET_UINT32 pSrc 4 ^^ rk !!! 1%nat, GET_UINT32 pSrc 8 ^^ rk !!! 2%nat, GET_UINT32 pSrc 12 ^^ rk !!! 3%nat).

Definition PutBlock (x : words) : list Z :=
  let '(X0, X1, X2, X3) := x in PUT_UINT32 X0 ++ PUT_UINT32 X1 ++ PUT_UINT32 X2 ++ PUT_UINT32 X3.

(** [AES_FROUND] with [RK] at [rk]. *)
Definition AES_FROUND (rk : list Z) (y : words) : words :=
  let '(Y0, Y1, Y2, Y3) := y in
  (rk !!! 0%nat ^^ at8 (FT0 T) Y0 24 ^^ at8 (FT1 T) Y1 16 ^^ at8 (FT2 T) Y2 8 ^^ at8 (FT3 T) Y3 0,
   rk !!! 1%nat ^^ at8 (FT0 T) Y1 24 ^^ at8 (FT1 T) Y2 16 ^^ at8 (FT2 T) Y3 8 ^^ at8 (FT3 T) Y0 0,
   rk !!! 2%nat ^^ at8 (FT0 T) Y2 24 ^^ at8 (FT1 T) Y3 16 ^^ at8 (FT2 T) Y0 8 ^^ at8 (FT3 T) Y1 0,
   rk !!! 3%nat ^^ at8 (FT0 T) Y3 24 ^^ at8 (FT1 T) Y0 16 ^^ at8 (FT2 T) Y1 8 ^^ at8 (FT3 T) Y2 0).

(** The last round, with an S-box. *)
Definition LastRound (t rk : list Z) (i1 i2 i3 : words) (y : words) : words :=
  let s w k sh := u32 (Z.shiftl (at8 t w k) sh) in
  let '(A0, A1, A2, A3) := y in let '(B0, B1, B2, B3) := i1 in let '(C0, C1, C2, C3) := i2 in let '(D0, D1, D2, D3) := i3 in
  (rk !!! 0%nat ^^ s A0 24 24 ^^ s B0 16 16 ^^ s C0 8 8 ^^ at8 t D0 0,
   rk !!! 1%nat ^^ s A1 24 24 ^^ s B1 16 16 ^^ s C1 8 8 ^^ at8 t D1 0,
   rk !!! 2%nat ^^ s A2 24 24 ^^ s B2 16 16 ^^ s C2 8 8 ^^ at8 t D2 0,
   rk !!! 3%nat ^^ s A3 24 24 ^^ s B3 16 16 ^^ s C3 8 8 ^^ at8 t D3 0).

Definition Encoder_Proceed (erk pSrc : list Z) : list Z :=
  let x := GetBlock erk pSrc in
  let y := fold_left (fun y i => AES_FROUND (drop (4 * i) erk) y) (seq 1 13) x in
  let '(Y0, Y1, Y2, Y3) := y in
  PutBlock (LastRound (FSb T) (drop 56 erk) (Y1, Y2, Y3, Y0) (Y2, Y3, Y0, Y1) (Y3, Y0, Y1, Y2) y).

(** ** [AES::Decoder] *)
Definition KT (rt : list Z) : list Z := (fun i => rt !!! Z.to_nat (FSb T !!! i)) <$> seq 0 256.

Definition KeyInv (w : Z) : Z :=
  at8 (KT (RT0 T)) w 24 ^^ at8 (KT (RT1 T)) w 16 ^^ at8 (KT (RT2 T)) w 8 ^^ at8 (KT (RT3 T)) w 0.

(** [Init]: the round keys backwards; [RK] goes up by 4 and down by 8. *)
Definition Decoder_Init (erk : list Z) : list Z :=
  take 4 (drop 56 erk)
  ++ concat ((fun i => KeyInv <$> take 4 (drop (56 - 4 * i) erk)) <$> seq 1 13)
  ++ take 4 erk.

(** [AES_RROUND] with [RK] at [rk]. *)
Definition AES_RROUND (rk : list Z) (y : words) : words :=
  let '(Y0, Y1, Y2, Y3) := y in
  (rk !!! 0%nat ^^ at8 (RT0 T) Y0 24 ^^ at8 (RT1 T) Y3 16 ^^ at8 (RT2 T) Y2 8 ^^ at8 (RT3 T) Y1 0,
   rk !!! 1%nat ^^ at8 (RT0 T) Y1 24 ^^ at8 (RT1 T) Y0 16 ^^ at8 (RT2 T) Y3 8 ^^ at8 (RT3 T) Y2 0,
   rk !!! 2%nat ^^ at8 (RT0 T) Y2 24 ^^ at8 (RT1 T) Y1 16 ^^ at8 (RT2 T) Y0 8 ^^ at8 (RT3 T) Y3 0,
   rk !!! 3%nat ^^ at8 (RT0 T) Y3 24 ^^ at8 (RT1 T) Y2 16 ^^ at8 (RT2 T) Y1 8 ^^ at8 (RT3 T) Y0 0).

Definition Decoder_Proceed (drk pSrc : list Z) : list Z :=
  let x := GetBlock drk pSrc in
  let y := fold_left (fun y i => AES_RROUND (drop (4 * i) drk) y) (seq 1 13) x in
  let '(Y0, Y1, Y2, Y3) := y in
  PutBlock (LastRound (RSb T) (drop 56 drk) (Y3, Y0, Y1, Y2) (Y2, Y3, Y0, Y1) (Y1, Y2, Y3, Y0) y).

(** * FIPS 197 *)
Module Fips.
(** Polynomials over the field of two elements, modulo x^8 + x^4 + x^3 + x + 1. *)
Definition pmul (a b : Z) : Z :=
  foldr (fun i acc => if Z.testbit b (Z.of_nat i) then Z.lxor (Z.shiftl a (Z.of_nat i)) acc else acc) 0 (seq 0 8).
Definition pmod (a : Z) : Z :=
  fold_left (fun a i => if Z.testbit a (Z.of_nat i) then Z.lxor a (Z.shiftl 0x11B (Z.of_nat i - 8)) else a) (rev (seq 8 7)) a.
Definition gmul (a b : Z) : Z := pmod (pmul a b).

(** The inverse, 0 for 0: the group of units has 255 elements. *)
Definition ginv (a : Z) : Z := Nat.iter 253 (gmul a) a.

Definition sbox (x : Z) : Z :=
  let b := ginv x in
  let bit i := Z.testbit b (Z.of_nat (i mod 8)) in
  foldr (fun i acc => Z.lxor (Z.shiftl (Z.b2z (xorb (xorb (xorb (xorb (xorb (bit i) (bit (i + 4)%nat)) (bit (i + 5)%nat)) (bit (i + 6)%nat)) (bit (i + 7)%nat))
    (Z.testbit 0x63 (Z.of_nat i)))) (Z.of_nat i)) acc) 0 (seq 0 8).

(** The state: byte [r + 4 * c] is row [r] and column [c]. *)
Definition SubBytes (s : list Z) : list Z := sbox <$> s.
Definition ShiftRows (s : list Z) : list Z := (fun i => s !!! ((i + 4 * (i mod 4)) mod 16)%nat) <$> seq 0 16.
Definition MixColumns (s : list Z) : list Z :=
  (fun i =>
    let r := (i mod 4)%nat in let c := (i / 4)%nat in
    let at_ k := s !!! ((r + k) mod 4 + 4 * c)%nat in
    Z.lxor (Z.lxor (Z.lxor (gmul 2 (at_ 0%nat)) (gmul 3 (at_ 1%nat))) (at_ 2%nat)) (at_ 3%nat)) <$> seq 0 16.
Definition AddRoundKey (s k : list Z) : list Z := zip_with Z.lxor s k.

(** Words are lists of four bytes. *)
Definition RotWord (w : list Z) : list Z := drop 1 w ++ take 1 w.
Definition SubWord (w : list Z) : list Z := sbox <$> w.
Definition Rcon (i : nat) : list Z := [Nat.iter (i - 1) (gmul 2) 1; 0; 0; 0].

(** The next word of a schedule, for keys of eight words. *)
Definition NextWord (w : list (list Z)) : list Z :=
  let i := length w in
  let temp := w !!! (i - 1)%nat in
  let temp :=
    if (i mod 8 =? 0)%nat then zip_with Z.lxor (SubWord (RotWord temp)) (Rcon (i / 8))
    else if (i mod 8 =? 4)%nat then SubWord temp else temp in
  zip_with Z.lxor (w !!! (i - 8)%nat) temp.

Definition KeyExpansion (key : list Z) : list (list Z) :=
  Nat.iter 52 (fun w => w ++ [NextWord w]) ((fun i => take 4 (drop (4 * i) key)) <$> seq 0 8).

Definition RoundKey (w : list (list Z)) (round : nat) : list Z := concat (take 4 (drop (4 * round) w)).

Definition Cipher (w : list (list Z)) (input : list Z) : list Z :=
  let s := AddRoundKey input (RoundKey w 0) in
  let s := fold_left (fun s round => AddRoundKey (MixColumns (ShiftRows (SubBytes s))) (RoundKey w round)) (seq 1 13) s in
  AddRoundKey (ShiftRows (SubBytes s)) (RoundKey w 14).
End Fips.
Arguments Fips.sbox : simpl never.
Arguments Fips.gmul : simpl never.
Arguments Fips.ginv : simpl never.
Import Fips.

(** * Facts *)

(** ** Exclusive or is the addition of a ring *)
Lemma xor_ring : ring_theory 0 (-1) Z.lxor Z.land Z.lxor (fun x => x) eq.
Proof.
  split; intros.
  - apply Z.lxor_0_l.
  - apply Z.lxor_comm.
  - symmetry. apply Z.lxor_assoc.
  - apply Z.land_m1_l.
  - apply Z.land_comm.
  - apply Z.land_assoc.
  - apply Z.bits_inj. intros n. rewrite Z.land_spec, !Z.lxor_spec, !Z.land_spec. by destruct (Z.testbit x n), (Z.testbit y n), (Z.testbit z n).
  - done.
  - apply Z.lxor_nilpotent.
Qed.

(** Its coefficients are bits, so that equal terms cancel. *)
Lemma xor_morph : ring_morph 0 (-1) Z.lxor Z.land Z.lxor (fun x => x) eq false true xorb andb xorb (fun b => b) Bool.eqb (fun b : bool => if b then -1 else 0).
Proof. split; try (intros [] []; done); try (intros []; done); try done. Qed.

Ltac bit_constant t := match t with 0 => constr:(false) | -1 => constr:(true) | _ => constr:(InitialRing.NotConstant) end.
Add Ring xor_ring : xor_ring (morphism xor_morph, constants [bit_constant]).

(** ** Words *)
Definition pk (a b c d : Z) : Z := Z.lor (Z.lor (Z.lor (Z.shiftl a 24) (Z.shiftl b 16)) (Z.shiftl c 8)) d.

Lemma byte_high a n : byte_ok a -> 8 <= n -> Z.testbit a n = false.
Proof.
  intros [H0 H1] Hn. destruct (decide (a = 0)) as [->|Hne]; [apply Z.bits_0|]. apply Z.bits_above_log2; [done|].
  assert (Z.log2 a < 8); [apply Z.log2_lt_pow2; lia|lia].
Qed.

Lemma pk_lxor_form a b c d : byte_ok a -> byte_ok b -> byte_ok c -> byte_ok d ->
  pk a b c d = Z.lxor (Z.lxor (Z.lxor (Z.shiftl a 24) (Z.shiftl b 16)) (Z.shiftl c 8)) d.
Proof.
  intros Ha Hb Hc Hd. apply Z.bits_inj'. intros n Hn. unfold pk. rewrite !Z.lor_spec, !Z.lxor_spec, !Z.shiftl_spec by done.
  destruct (decide (n < 8)); [rewrite !(Z.testbit_neg_r _ (n - _)) by lia; by destruct (Z.testbit d n)|]. rewrite (byte_high d n) by (done || lia).
  destruct (decide (n < 16)); [rewrite (Z.testbit_neg_r a), (Z.testbit_neg_r b) by lia; by destruct (Z.testbit c _)|]. rewrite (byte_high c (n - 8)) by (done || lia).
  destruct (decide (n < 24)); [rewrite (Z.testbit_neg_r a) by lia; by destruct (Z.testbit b _)|]. rewrite (byte_high b (n - 16)) by (done || lia).
  by destruct (Z.testbit a _).
Qed.

Lemma pk_add a b c d : byte_ok a -> byte_ok b -> byte_ok c -> byte_ok d -> pk a b c d = a * 2 ^ 24 + b * 2 ^ 16 + c * 2 ^ 8 + d.
Proof.
  intros Ha Hb Hc Hd. rewrite pk_lxor_form by done. rewrite <- !Z.shiftl_mul_pow2 by lia.
  assert (forall x y n, 0 <= n -> 0 <= y < 2 ^ n -> Z.lxor (Z.shiftl x n) y = Z.shiftl x n + y) as H.
  { intros x y n Hn Hy. rewrite <- Z.add_nocarry_lxor; [done|]. apply Z.bits_inj'. intros i Hi. rewrite Z.land_spec, Z.bits_0, Z.shiftl_spec by done.
    destruct (decide (i < n)); [by rewrite Z.testbit_neg_r by lia|]. apply andb_false_intro2. destruct (decide (y = 0)) as [->|]; [apply Z.bits_0|].
    apply Z.bits_above_log2; [lia|]. assert (Z.log2 y < n); [apply Z.log2_lt_pow2; lia|lia]. }
  unfold byte_ok in *. change 24 with (8 + 8 + 8). change 16 with (8 + 8).
  rewrite <- !Z.shiftl_shiftl by lia. rewrite <- !Z.shiftl_lxor.
  rewrite (H a b 8), (H _ c 8), (H _ d 8) by lia. rewrite !Z.shiftl_mul_pow2 by lia. change (2 ^ 8) with 256. lia.
Qed.

Lemma pk_bytes a b c d : byte_ok a -> byte_ok b -> byte_ok c -> byte_ok d -> PUT_UINT32 (pk a b c d) = [a; b; c; d].
Proof.
  intros Ha Hb Hc Hd. rewrite pk_add by done. unfold PUT_UINT32. unfold byte_ok in *. rewrite !Z.shiftr_div_pow2 by lia.
  unfold wrap. change (2 ^ 24) with 16777216. change (2 ^ 16) with 65536. change (2 ^ 8) with 256.
  repeat f_equal; Z.to_euclidean_division_equations; lia.
Qed.

Lemma pk_xor a b c d a' b' c' d' :
  byte_ok a -> byte_ok b -> byte_ok c -> byte_ok d -> byte_ok a' -> byte_ok b' -> byte_ok c' -> byte_ok d' ->
  xor (pk a b c d) (pk a' b' c' d') = pk (Z.lxor a a') (Z.lxor b b') (Z.lxor c c') (Z.lxor d d').
Proof.
  intros. unfold xor. rewrite !pk_lxor_form by (done || by apply lxor_byte). rewrite !Z.shiftl_lxor. ring.
Qed.

Lemma at8_pk t a b c d : byte_ok a -> byte_ok b -> byte_ok c -> byte_ok d ->
  at8 t (pk a b c d) 24 = t !!! Z.to_nat a /\ at8 t (pk a b c d) 16 = t !!! Z.to_nat b /\
  at8 t (pk a b c d) 8 = t !!! Z.to_nat c /\ at8 t (pk a b c d) 0 = t !!! Z.to_nat d.
Proof.
  intros Ha Hb Hc Hd. pose proof (pk_bytes a b c d Ha Hb Hc Hd) as [= E1 E2 E3 E4]. unfold at8. rewrite Z.shiftr_0_r, E1, E2, E3, E4. done.
Qed.

(** ** The tables *)
Ltac by_bytes := match goal with |- forall a, byte_ok a -> @?P a = @?Q a =>
  intros a Ha; apply Z.eqb_eq; revert a Ha; apply (byte_forall (fun a => P a =? Q a)); vm_compute; reflexivity end.

Definition S_ (a : Z) : Z := FSb T !!! Z.to_nat a.
Definition R_ (a : Z) : Z := RSb T !!! Z.to_nat a.
Definition x2 (a : Z) : Z := u8 (XTIME a).

Lemma sbox_S : forall a, byte_ok a -> sbox a = S_ a.
Proof. by_bytes. Qed.
Lemma R_S : forall a, byte_ok a -> R_ (S_ a) = a.
Proof. by_bytes. Qed.
Lemma gmul2 : forall a, byte_ok a -> gmul 2 a = x2 a.
Proof. by_bytes. Qed.
Lemma gmul3 : forall a, byte_ok a -> gmul 3 a = Z.lxor (x2 a) a.
Proof. by_bytes. Qed.
Lemma FT0_S : forall a, byte_ok a -> FT0 T !!! Z.to_nat a = pk (x2 (S_ a)) (S_ a) (S_ a) (Z.lxor (x2 (S_ a)) (S_ a)).
Proof. by_bytes. Qed.
Lemma FT1_S : forall a, byte_ok a -> FT1 T !!! Z.to_nat a = pk (Z.lxor (x2 (S_ a)) (S_ a)) (x2 (S_ a)) (S_ a) (S_ a).
Proof. by_bytes. Qed.
Lemma FT2_S : forall a, byte_ok a -> FT2 T !!! Z.to_nat a = pk (S_ a) (Z.lxor (x2 (S_ a)) (S_ a)) (x2 (S_ a)) (S_ a).
Proof. by_bytes. Qed.
Lemma FT3_S : forall a, byte_ok a -> FT3 T !!! Z.to_nat a = pk (S_ a) (S_ a) (Z.lxor (x2 (S_ a)) (S_ a)) (x2 (S_ a)).
Proof. by_bytes. Qed.

Lemma S_byte a : byte_ok (S_ a).
Proof.
  apply bytes_ok_lookup. apply (bool_decide_unpack _). vm_compute. done.
Qed.
Lemma R_byte a : byte_ok (R_ a).
Proof. apply bytes_ok_lookup. apply (bool_decide_unpack _). vm_compute. done. Qed.
Lemma x2_byte a : byte_ok (x2 a).
Proof. apply u8_byte. Qed.

Create HintDb aes.
#[export] Hint Resolve S_byte R_byte x2_byte lxor_byte : aes.

(** ** Rounds *)
Definition enc (s : list Z) : words := (GET_UINT32 s 0, GET_UINT32 s 4, GET_UINT32 s 8, GET_UINT32 s 12).

(** Round keys at [rk] hold the bytes [k]. *)
Definition holds (rk k : list Z) : Prop := forall j, (j < 4)%nat -> rk !!! j = GET_UINT32 k (4 * j).

Lemma at8_24 t a b c d : byte_ok a -> byte_ok b -> byte_ok c -> byte_ok d -> at8 t (pk a b c d) 24 = t !!! Z.to_nat a.
Proof. intros Ha Hb Hc Hd. destruct (at8_pk t a b c d Ha Hb Hc Hd) as (E & _). exact E. Qed.
Lemma at8_16 t a b c d : byte_ok a -> byte_ok b -> byte_ok c -> byte_ok d -> at8 t (pk a b c d) 16 = t !!! Z.to_nat b.
Proof. intros Ha Hb Hc Hd. destruct (at8_pk t a b c d Ha Hb Hc Hd) as (_ & E & _). exact E. Qed.
Lemma at8_8 t a b c d : byte_ok a -> byte_ok b -> byte_ok c -> byte_ok d -> at8 t (pk a b c d) 8 = t !!! Z.to_nat c.
Proof. intros Ha Hb Hc Hd. destruct (at8_pk t a b c d Ha Hb Hc Hd) as (_ & _ & E & _). exact E. Qed.
Lemma at8_0 t a b c d : byte_ok a -> byte_ok b -> byte_ok c -> byte_ok d -> at8 t (pk a b c d) 0 = t !!! Z.to_nat d.
Proof. intros Ha Hb Hc Hd. destruct (at8_pk t a b c d Ha Hb Hc Hd) as (_ & _ & _ & E). exact E. Qed.

Ltac split_bytes s H := let L := fresh "L" in destruct H as [H L];
  repeat (destruct s as [|? s]; [discriminate L|]); destruct s as [|? s]; [|discriminate L]; clear L; repeat (apply Forall_cons in H as [? H]); clear H.

Ltac bytes_tac := solve [eauto 8 with aes].

Lemma GET_pk l i : GET_UINT32 l i = pk (l !!! i) (l !!! (i + 1)%nat) (l !!! (i + 2)%nat) (l !!! (i + 3)%nat).
Proof. done. Qed.

Lemma SubBytes_S s : bytes_ok s -> SubBytes s = S_ <$> s.
Proof. intros Hs. apply list_fmap_ext. intros i x Hx. apply sbox_S. by eapply (Forall_lookup_1 byte_ok). Qed.

(** A column of a round. *)
Lemma FT_column a b c d k0 k1 k2 k3 :
  byte_ok a -> byte_ok b -> byte_ok c -> byte_ok d -> byte_ok k0 -> byte_ok k1 -> byte_ok k2 -> byte_ok k3 ->
  pk k0 k1 k2 k3 ^^ FT0 T !!! Z.to_nat a ^^ FT1 T !!! Z.to_nat b ^^ FT2 T !!! Z.to_nat c ^^ FT3 T !!! Z.to_nat d
  = pk (Z.lxor (Z.lxor (Z.lxor (Z.lxor (gmul 2 (S_ a)) (gmul 3 (S_ b))) (S_ c)) (S_ d)) k0)
       (Z.lxor (Z.lxor (Z.lxor (Z.lxor (gmul 2 (S_ b)) (gmul 3 (S_ c))) (S_ d)) (S_ a)) k1)
       (Z.lxor (Z.lxor (Z.lxor (Z.lxor (gmul 2 (S_ c)) (gmul 3 (S_ d))) (S_ a)) (S_ b)) k2)
       (Z.lxor (Z.lxor (Z.lxor (Z.lxor (gmul 2 (S_ d)) (gmul 3 (S_ a))) (S_ b)) (S_ c)) k3).
Proof.
  intros. rewrite FT0_S, FT1_S, FT2_S, FT3_S by done. rewrite !gmul2, !gmul3 by bytes_tac.
  rewrite !pk_xor by bytes_tac. f_equal; ring.
Qed.

Lemma FROUND_ok s k rk : bytes_n 16 s -> bytes_n 16 k -> holds rk k ->
  AES_FROUND rk (enc s) = enc (AddRoundKey (MixColumns (ShiftRows (SubBytes s))) k).
Proof.
  intros Hs Hk Hrk. rewrite SubBytes_S by apply Hs. unfold AES_FROUND, enc. rewrite !Hrk by lia. rewrite !GET_pk. split_bytes s Hs. split_bytes k Hk.
  cbv -[Z.lxor gmul S_ pk at8 T xor FT0 FT1 FT2 FT3]. rewrite !at8_24, !at8_16, !at8_8, !at8_0 by done. by rewrite !FT_column by done.
Qed.

(** A column of the last round. *)
Lemma SB_column (f : Z -> Z) (t : list Z) a b c d k0 k1 k2 k3 : (forall x, byte_ok x -> t !!! Z.to_nat x = f x) -> (forall x, byte_ok (f x)) ->
  byte_ok a -> byte_ok b -> byte_ok c -> byte_ok d -> byte_ok k0 -> byte_ok k1 -> byte_ok k2 -> byte_ok k3 ->
  pk k0 k1 k2 k3 ^^ u32 (Z.shiftl (t !!! Z.to_nat a) 24) ^^ u32 (Z.shiftl (t !!! Z.to_nat b) 16) ^^ u32 (Z.shiftl (t !!! Z.to_nat c) 8) ^^ t !!! Z.to_nat d
  = pk (Z.lxor (f a) k0) (Z.lxor (f b) k1) (Z.lxor (f c) k2) (Z.lxor (f d) k3).
Proof.
  intros Ht Hf Ha Hb Hc Hd H0 H1 H2 H3. rewrite !Ht by done. pose proof (Hf a) as Fa. pose proof (Hf b) as Fb. pose proof (Hf c) as Fc. pose proof (Hf d) as Fd.
  assert (forall x n, byte_ok x -> 0 <= n <= 24 -> u32 (Z.shiftl x n) = Z.shiftl x n) as Hu.
  { intros x n [X0 X1] Hn. apply u32_small. rewrite Z.shiftl_mul_pow2 by lia. assert (0 < 2 ^ n <= 2 ^ 24) by (split; [apply Z.pow_pos_nonneg; lia|apply Z.pow_le_mono_r; lia]).
    nia. }
  rewrite !Hu by (done || lia). rewrite !pk_lxor_form by eauto using lxor_byte. rewrite !Z.shiftl_lxor. unfold xor. ring.
Qed.

Lemma LastRound_enc s k rk : bytes_n 16 s -> bytes_n 16 k -> holds rk k ->
  (let '(Y0, Y1, Y2, Y3) := enc s in LastRound (FSb T) rk (Y1, Y2, Y3, Y0) (Y2, Y3, Y0, Y1) (Y3, Y0, Y1, Y2) (enc s))
  = enc (AddRoundKey (ShiftRows (SubBytes s)) k).
Proof.
  intros Hs Hk Hrk. rewrite SubBytes_S by apply Hs. unfold LastRound, enc. rewrite !Hrk by lia. rewrite !GET_pk. split_bytes s Hs. split_bytes k Hk.
  cbv -[Z.lxor S_ pk at8 T xor FSb wrap Z.shiftl]. rewrite !at8_24, !at8_16, !at8_8, !at8_0 by done.
  by rewrite !(SB_column S_) by (first [done|bytes_tac]).
Qed.

Lemma PutBlock_enc s : bytes_n 16 s -> PutBlock (enc s) = s.
Proof. intros Hs. unfold PutBlock, enc. rewrite !GET_pk. split_bytes s Hs. cbn [lookup_total list_lookup_total Nat.add]. by rewrite !pk_bytes by done. Qed.

Lemma GetBlock_enc s k rk : bytes_n 16 s -> bytes_n 16 k -> holds rk k -> GetBlock rk s = enc (AddRoundKey s k).
Proof.
  intros Hs Hk Hrk. unfold GetBlock, enc. rewrite !Hrk by lia. rewrite !GET_pk. split_bytes s Hs. split_bytes k Hk.
  cbv -[Z.lxor pk xor]. by rewrite !pk_xor by done.
Qed.

(** ** The key schedule *)
Definition pkl (w : list Z) : Z := GET_UINT32 w 0.
Definition grow (k : nat) (w : list (list Z)) : list (list Z) := Nat.iter k (fun w => w ++ [NextWord w]) w.

(** A schedule that is being computed: words that are ready, and the rest. *)
Definition st (w : list (list Z)) (junk : list Z) : list Z := (pkl <$> w) ++ junk.

Lemma grow_S k w : grow (S k) w = grow k w ++ [NextWord (grow k w)].
Proof. done. Qed.

Lemma grow_length k w : length (grow k w) = (length w + k)%nat.
Proof. induction k as [|k IH]; [cbn; lia|]. rewrite grow_S, length_app, IH. cbn. lia. Qed.

Lemma grow_add k j w : grow (k + j) w = grow j (grow k w).
Proof. unfold grow. rewrite Nat.add_comm. apply Nat.iter_add. Qed.

Lemma zip_bytes n a b : bytes_n n a -> bytes_n n b -> bytes_n n (zip_with Z.lxor a b).
Proof.
  intros [Ha La] [Hb Lb]. split; [|rewrite length_zip_with; lia]. clear La Lb. revert b Hb. induction Ha as [|x a Hx _ IH]; intros [|y b] Hb; cbn; try done.
  apply Forall_cons in Hb as [Hy Hb]. constructor; [by apply lxor_byte|by apply IH].
Qed.

Lemma sbox_bytes n w : bytes_n n w -> bytes_n n (sbox <$> w).
Proof.
  intros [H L]. split; [|by rewrite length_fmap]. apply Forall_fmap. eapply Forall_impl; [exact H|].
  intros x Hx. change (byte_ok (sbox x)). rewrite sbox_S by done. apply S_byte.
Qed.

Lemma Rcon_bytes i : (i < 10)%nat -> bytes_n 4 (Rcon (S i)) /\ RCON T !!! i = pkl (Rcon (S i)).
Proof.
  intros Hi.
  assert (forallb (fun i => bool_decide (bytes_ok (Rcon (S i))) && (RCON T !!! i =? pkl (Rcon (S i)))) (seq 0 10) = true) as H by (vm_compute; reflexivity).
  rewrite forallb_forall in H. specialize (H i). rewrite in_seq, andb_true_iff, bool_decide_eq_true, Z.eqb_eq in H. destruct H as [H1 H2]; [lia|].
  split; [by split|done].
Qed.

Definition schedule_ok (w : list (list Z)) : Prop := Forall (bytes_n 4) w /\ (8 <= length w)%nat.

Lemma schedule_word w m : schedule_ok w -> (m < length w)%nat -> bytes_n 4 (w !!! m).
Proof.
  intros [H _] Hm. destruct (lookup_lt_is_Some_2 w m Hm) as [x Hx]. rewrite (list_lookup_total_correct _ _ _ Hx). by eapply Forall_lookup.
Qed.

Lemma RotWord_bytes w : bytes_n 4 w -> bytes_n 4 (RotWord w).
Proof. intros Hw. split_bytes w Hw. split; [|done]. unfold RotWord. cbn [drop take app].
  do 4 (apply Forall_cons_2; [done|]). constructor. Qed.

Lemma NextWord_bytes w : schedule_ok w -> (length w < 80)%nat -> bytes_n 4 (NextWord w).
Proof.
  intros Hw Hl. pose proof Hw as [_ H8]. unfold NextWord. apply zip_bytes; [apply schedule_word; [done|lia]|].
  assert (bytes_n 4 (w !!! (length w - 1)%nat)) as Ht by (apply schedule_word; [done|lia]).
  destruct (_ =? 0)%nat eqn:E0; [|destruct (_ =? 4)%nat; [by apply sbox_bytes|done]].
  apply zip_bytes; [by apply sbox_bytes, RotWord_bytes|]. assert (1 <= length w / 8 < 10)%nat as Hd.
  { split; [apply Nat.div_le_lower_bound; lia|apply Nat.Div0.div_lt_upper_bound; lia]. }
  destruct (length w / 8)%nat as [|d]; [lia|]. apply Rcon_bytes. lia.
Qed.

Lemma grow_ok k w : schedule_ok w -> (length w + k <= 80)%nat -> schedule_ok (grow k w).
Proof.
  induction k as [|k IH]; intros Hw Hl; [done|]. rewrite grow_S. specialize (IH Hw ltac:(lia)).
  pose proof (grow_length k w) as Lg. split; [apply Forall_app; split; [apply IH|]|rewrite length_app; cbn [length]; destruct Hw; lia].
  constructor; [apply NextWord_bytes; [done|lia]|constructor].
Qed.

Lemma pkl_xor a b : bytes_n 4 a -> bytes_n 4 b -> pkl a ^^ pkl b = pkl (zip_with Z.lxor a b).
Proof. intros Ha Hb. split_bytes a Ha. split_bytes b Hb. unfold pkl. rewrite !GET_pk. cbn [lookup_total list_lookup_total Nat.add zip_with]. by apply pk_xor. Qed.

Lemma st_lookup w junk m : (m < length w)%nat -> st w junk !!! m = pkl (w !!! m).
Proof.
  intros Hm. unfold st. rewrite lookup_total_app_l by (by rewrite length_fmap). destruct (lookup_lt_is_Some_2 w m Hm) as [x Hx].
  rewrite (list_lookup_total_correct _ _ _ Hx). apply list_lookup_total_correct. by rewrite list_lookup_fmap, Hx.
Qed.

Lemma pkl_lookup w m : (m < length w)%nat -> (pkl <$> w) !!! m = pkl (w !!! m).
Proof. intros Hm. rewrite <- (st_lookup w [] m Hm). unfold st. by rewrite app_nil_r. Qed.

Lemma st_insert w x junk v : pkl v = x -> forall y, <[length w := x]> (st w (y :: junk)) = st (w ++ [v]) junk.
Proof.
  intros <- y. unfold st. rewrite fmap_app, <- app_assoc. rewrite <- (length_fmap pkl w) at 1. by rewrite insert_app_r_alt, Nat.sub_diag by lia.
Qed.

Lemma Sub_step a b : bytes_n 4 a -> bytes_n 4 b ->
  pkl a ^^ u32 (Z.shiftl (at8 (FSb T) (pkl b) 24) 24) ^^ u32 (Z.shiftl (at8 (FSb T) (pkl b) 16) 16) ^^ u32 (Z.shiftl (at8 (FSb T) (pkl b) 8) 8)
    ^^ at8 (FSb T) (pkl b) 0
  = pkl (zip_with Z.lxor a (SubWord b)).
Proof.
  intros Ha Hb. split_bytes a Ha. split_bytes b Hb. unfold pkl, SubWord. rewrite !GET_pk. cbn [lookup_total list_lookup_total Nat.add zip_with fmap list_fmap].
  rewrite at8_24, at8_16, at8_8, at8_0 by done. rewrite (SB_column S_) by (first [done|bytes_tac]). rewrite !sbox_S by done. f_equal; apply Z.lxor_comm.
Qed.

Lemma zip_lxor_shuffle a r x : zip_with Z.lxor (zip_with Z.lxor a r) x = zip_with Z.lxor a (zip_with Z.lxor x r).
Proof. revert r x. induction a as [|y a IH]; intros [|z r] [|t x]; cbn; try done. f_equal; [ring|apply IH]. Qed.

Lemma Rot_step a b r : bytes_n 4 a -> bytes_n 4 b -> bytes_n 4 r ->
  pkl a ^^ pkl r ^^ u32 (Z.shiftl (at8 (FSb T) (pkl b) 16) 24) ^^ u32 (Z.shiftl (at8 (FSb T) (pkl b) 8) 16) ^^ u32 (Z.shiftl (at8 (FSb T) (pkl b) 0) 8)
    ^^ at8 (FSb T) (pkl b) 24
  = pkl (zip_with Z.lxor a (zip_with Z.lxor (SubWord (RotWord b)) r)).
Proof.
  intros Ha Hb Hr. rewrite pkl_xor by done. pose proof (zip_bytes 4 a r Ha Hr) as Har.
  transitivity (pkl (zip_with Z.lxor (zip_with Z.lxor a r) (SubWord (RotWord b)))).
  - rewrite <- Sub_step by (done || by apply RotWord_bytes). split_bytes b Hb. unfold RotWord. cbn [drop take app]. set (k := pkl (zip_with _ _ _)).
    unfold pkl. rewrite !GET_pk. cbn [lookup_total list_lookup_total Nat.add]. by rewrite !at8_24, !at8_16, !at8_8, !at8_0 by done.
  - f_equal. apply zip_lxor_shuffle.
Qed.

#[local] Opaque T.
(** Every assignment computes the next word. *)
Lemma KeySteps_ok i k j f w junk : (i < 7)%nat -> schedule_ok w -> length w = (8 * i + 8 + k)%nat -> KeySteps i !! k = Some (j, f) ->
  j = (8 + k)%nat /\ f (st w junk) = pkl (NextWord w).
Proof.
  intros Hi Hw Hl Hk. assert (k < 8)%nat as Hk8 by (by apply lookup_lt_Some in Hk).
  assert ((8 * i + 8 + k) mod 8 = k)%nat as Hm. { replace (8 * i + 8 + k)%nat with (k + (i + 1) * 8)%nat by lia. by rewrite Nat.Div0.mod_add, Nat.mod_small. }
  assert (forall m, (m < 8)%nat -> bytes_n 4 (w !!! (8 * i + k + m)%nat)) as Hb by (intros m ?; apply schedule_word; [done|lia]).
  assert (forall m, (m < k + 8)%nat -> st w junk !!! (8 * i + m)%nat = pkl (w !!! (8 * i + m)%nat)) as Hst by (intros m ?; apply st_lookup; lia).
  unfold NextWord. rewrite Hl, Hm. replace (8 * i + 8 + k - 8)%nat with (8 * i + k)%nat by lia. replace (8 * i + 8 + k - 1)%nat with (8 * i + k + 7)%nat by lia.
  pose proof (Hb 0%nat ltac:(lia)) as B0. pose proof (Hb 7%nat ltac:(lia)) as B7. rewrite Nat.add_0_r in B0.
  destruct k as [|[|[|[|[|[|[|[|k]]]]]]]]; [..|lia]; injection Hk as <- <-; (split; [done|]); cbn [Nat.eqb]; rewrite !Hst by lia;
    rewrite <- Nat.add_assoc in *; cbn [Nat.add] in *; rewrite ?Nat.add_0_r in *; try (by rewrite pkl_xor).
  - replace ((8 * i + 8) / 8)%nat with (S i) by (replace (8 * i + 8)%nat with (0 + S i * 8)%nat by lia; by rewrite Nat.div_add).
    destruct (Rcon_bytes i) as [R1 ->]; [lia|]. by rewrite Rot_step.
  - by rewrite Sub_step.
Qed.

Lemma fold_steps i fs k w junk : (i < 7)%nat -> schedule_ok w -> length w = (8 * i + 8 + k)%nat -> fs = drop k (KeySteps i) -> (length fs <= length junk)%nat ->
  fold_left (fun l '(j, f) => <[(8 * i + j)%nat := f l]> l) fs (st w junk) = st (grow (length fs) w) (drop (length fs) junk).
Proof.
  intros Hi. revert k w junk. induction fs as [|[j f] fs IH]; intros k w junk Hw Hl Hfs Hj; [done|].
  destruct junk as [|y junk]; [cbn in Hj; lia|]. cbn [fold_left length drop].
  assert (KeySteps i !! k = Some (j, f)) as Hk. { rewrite <- (Nat.add_0_r k), <- lookup_drop, <- Hfs. done. }
  destruct (KeySteps_ok i k j f w (y :: junk) Hi Hw Hl Hk) as [-> Ef]. replace (8 * i + (8 + k))%nat with (length w) by lia.
  rewrite (st_insert w _ junk (NextWord w)) by done. assert (k < 8)%nat as Hk8 by (by apply lookup_lt_Some in Hk).
  rewrite (IH (S k)).
  - f_equal. change (w ++ [NextWord w]) with (grow 1 w). by rewrite <- grow_add.
  - change (w ++ [NextWord w]) with (grow 1 w). apply grow_ok; [done|lia].
  - rewrite length_app. cbn [length]. lia.
  - replace (S k) with (k + 1)%nat by lia. by rewrite <- drop_drop, <- Hfs.
  - cbn in Hj. lia.
Qed.

Lemma KeyRound_ok i w junk : (i < 7)%nat -> schedule_ok w -> length w = (8 * i + 8)%nat -> (8 <= length junk)%nat ->
  KeyRound i (st w junk) = st (grow 8 w) (drop 8 junk).
Proof. intros Hi Hw Hl Hj. unfold KeyRound. rewrite (fold_steps i _ 0 w junk); [done|done|done|lia|by rewrite drop_0|done]. Qed.

Lemma KeyRounds_ok n w junk : (n <= 7)%nat -> schedule_ok w -> length w = 8%nat -> length junk = 56%nat ->
  fold_left (fun erk i => KeyRound i erk) (seq 0 n) (st w junk) = st (grow (8 * n) w) (drop (8 * n) junk).
Proof.
  intros Hn Hw Hl Hj. induction n as [|n IH]; [done|]. rewrite seq_S, fold_left_app, IH by lia. cbn [fold_left]. rewrite Nat.add_0_l.
  rewrite KeyRound_ok.
  - rewrite drop_drop, <- grow_add. f_equal; f_equal; lia.
  - lia.
  - apply grow_ok; [done|lia].
  - rewrite grow_length. lia.
  - rewrite length_drop. lia.
Qed.

Definition key_words (key : list Z) : list (list Z) := (fun i => take 4 (drop (4 * i) key)) <$> seq 0 8.

Lemma key_words_ok key : bytes_n 32 key -> schedule_ok (key_words key).
Proof.
  intros [Hk Lk]. split; [|done]. apply Forall_fmap, Forall_forall. intros i Hi%elem_of_seq. cbn. split; [by apply Forall_take, Forall_drop|].
  rewrite length_take, length_drop. lia.
Qed.

(** The round keys of the encoder. *)
Lemma Encoder_Init_ok key : bytes_n 32 key -> Encoder_Init key = pkl <$> grow 56 (key_words key).
Proof.
  intros Hk. unfold Encoder_Init. assert ((fun i => GET_UINT32 key (i * 4)) <$> seq 0 8 = pkl <$> key_words key) as ->.
  { unfold key_words. rewrite <- list_fmap_compose. apply list_fmap_ext. intros m i Hi. apply lookup_seq in Hi as [-> Hm]. unfold compose, pkl.
    rewrite !GET_pk. rewrite !lookup_total_take, !lookup_total_drop by lia. f_equal; f_equal; lia. }
  change ((pkl <$> key_words key) ++ replicate 56 0) with (st (key_words key) (replicate 56 0)).
  rewrite KeyRounds_ok; [|lia|by apply key_words_ok|done|by rewrite length_replicate]. change (8 * 7)%nat with 56%nat. unfold st. by rewrite drop_replicate, app_nil_r.
Qed.

Lemma grow_lookup k w m : (m < length w)%nat -> grow k w !!! m = w !!! m.
Proof.
  intros Hm. induction k as [|k IH]; [done|]. rewrite grow_S.
  rewrite (lookup_total_app_l (grow k w)) by (rewrite grow_length; lia). exact IH.
Qed.

Lemma take4_drop (w : list (list Z)) n : (n + 4 <= length w)%nat -> take 4 (drop n w) = [w !!! n; w !!! (n + 1)%nat; w !!! (n + 2)%nat; w !!! (n + 3)%nat].
Proof.
  intros Hn. assert (length (take 4 (drop n w)) = 4%nat) as L by (rewrite length_take, length_drop; lia).
  assert (forall m, (m < 4)%nat -> take 4 (drop n w) !!! m = w !!! (n + m)%nat) as Hm by (intros m ?; by rewrite lookup_total_take, lookup_total_drop by lia).
  pose proof (Hm 0%nat) as H0. pose proof (Hm 1%nat) as H1. pose proof (Hm 2%nat) as H2. pose proof (Hm 3%nat) as H3. rewrite Nat.add_0_r in H0.
  destruct (take 4 (drop n w)) as [|a [|b [|c [|d [|]]]]]; try discriminate. cbn in H0, H1, H2, H3. by rewrite H0, H1, H2, H3 by lia.
Qed.

Section schedule.
Context (key : list Z) (Hkey : bytes_n 32 key).

Lemma KeyExpansion_grow : KeyExpansion key = grow 52 (key_words key).
Proof. unfold KeyExpansion, grow, key_words. reflexivity. Qed.
#[local] Opaque KeyExpansion.

Lemma KeyExpansion_ok : schedule_ok (KeyExpansion key) /\ length (KeyExpansion key) = 60%nat.
Proof.
  assert (length (key_words key) = 8%nat) as L by (unfold key_words; by rewrite length_fmap, length_seq).
  rewrite KeyExpansion_grow. split; [apply grow_ok; [by apply key_words_ok|lia]|]. rewrite grow_length. lia.
Qed.

Lemma Encoder_Init_lookup m : (m < 60)%nat -> Encoder_Init key !!! m = pkl (KeyExpansion key !!! m).
Proof.
  intros Hm. destruct KeyExpansion_ok as [_ L]. rewrite Encoder_Init_ok by done. change 56%nat with (52 + 4)%nat. rewrite grow_add, <- KeyExpansion_grow.
  rewrite pkl_lookup by (rewrite grow_length; lia). by rewrite grow_lookup by lia.
Qed.

Lemma RoundKey_words r : (r <= 14)%nat ->
  exists a b c d, take 4 (drop (4 * r) (KeyExpansion key)) = [a; b; c; d] /\ bytes_n 4 a /\ bytes_n 4 b /\ bytes_n 4 c /\ bytes_n 4 d /\
    forall j, (j < 4)%nat -> drop (4 * r) (Encoder_Init key) !!! j = pkl ([a; b; c; d] !!! j).
Proof.
  intros Hr. destruct KeyExpansion_ok as [Hw L]. pose proof Encoder_Init_lookup as He. generalize dependent (KeyExpansion key). generalize (Encoder_Init key).
  intros erk w Hw L He. rewrite take4_drop by lia. do 4 eexists. split; [done|].
  split_and!; try (apply schedule_word; [done|lia]). intros j Hj. rewrite lookup_total_drop, He by lia. f_equal.
  destruct j as [|[|[|[|j]]]]; [by rewrite Nat.add_0_r|done..|lia].
Qed.

Lemma RoundKey_bytes r : (r <= 14)%nat -> bytes_n 16 (RoundKey (KeyExpansion key) r).
Proof.
  intros Hr. destruct (RoundKey_words r Hr) as (a & b & c & d & E & Ha & Hb & Hc & Hd & _). unfold RoundKey. rewrite E. cbn [concat]. rewrite app_nil_r.
  destruct Ha, Hb, Hc, Hd. split; [by repeat (apply Forall_app; split)|rewrite !length_app; lia].
Qed.

Lemma RoundKey_holds r : (r <= 14)%nat -> holds (drop (4 * r) (Encoder_Init key)) (RoundKey (KeyExpansion key) r).
Proof.
  intros Hr j Hj. destruct (RoundKey_words r Hr) as (a & b & c & d & E & Ha & Hb & Hc & Hd & ->); [|done]. unfold RoundKey. rewrite E.
  split_bytes a Ha. split_bytes b Hb. split_bytes c Hc. split_bytes d Hd. destruct j as [|[|[|[|j]]]]; [done..|lia].
Qed.
End schedule.

Lemma state_bytes s k : bytes_n 16 s -> bytes_n 16 k -> bytes_n 16 (AddRoundKey s k).
Proof. apply zip_bytes. Qed.

Lemma SubBytes_bytes n s : bytes_n n s -> bytes_n n (SubBytes s).
Proof. apply sbox_bytes. Qed.

Lemma gmul_byte a : byte_ok a -> byte_ok (gmul 2 a) /\ byte_ok (gmul 3 a).
Proof. intros Ha. rewrite gmul2, gmul3 by done. split; eauto using x2_byte, lxor_byte. Qed.

Lemma ShiftRows_bytes s : bytes_n 16 s -> bytes_n 16 (ShiftRows s).
Proof. intros [Hs L]. split; [|done]. apply Forall_fmap, Forall_forall. intros i _. by apply bytes_ok_lookup. Qed.

Lemma MixColumns_bytes s : bytes_n 16 s -> bytes_n 16 (MixColumns s).
Proof.
  intros [Hs L]. split; [|done]. apply Forall_fmap, Forall_forall. intros i _. unfold compose.
  repeat lazymatch goal with
  | |- byte_ok (Z.lxor _ _) => apply lxor_byte
  | |- byte_ok (gmul 2 _) => refine (proj1 (gmul_byte _ _))
  | |- byte_ok (gmul 3 _) => refine (proj2 (gmul_byte _ _))
  | |- byte_ok (_ !!! _) => by apply bytes_ok_lookup
  end.
Qed.

(** Rounds [1 .. n] of the cipher. *)
Definition rounds (w : list (list Z)) (n : nat) (s : list Z) : list Z :=
  fold_left (fun s round => AddRoundKey (MixColumns (ShiftRows (SubBytes s))) (RoundKey w round)) (seq 1 n) s.

Lemma rounds_ok key n s : bytes_n 32 key -> bytes_n 16 s -> (n <= 13)%nat ->
  bytes_n 16 (rounds (KeyExpansion key) n s) /\
  fold_left (fun y i => AES_FROUND (drop (4 * i) (Encoder_Init key)) y) (seq 1 n) (enc s) = enc (rounds (KeyExpansion key) n s).
Proof.
  intros Hk Hs. induction n as [|n IH]; intros Hn; [done|]. unfold rounds. rewrite seq_S, !fold_left_app.
  fold (rounds (KeyExpansion key) n s). destruct IH as [Hb ->]; [lia|]. cbn [fold_left]. pose proof (RoundKey_bytes key Hk (1 + n) ltac:(lia)) as Hr. split.
  - apply state_bytes; [|done]. by apply MixColumns_bytes, ShiftRows_bytes, SubBytes_bytes.
  - apply FROUND_ok; [done|done|]. apply RoundKey_holds; [done|lia].
Qed.

Lemma Cipher_rounds w input :
  Cipher w input = AddRoundKey (ShiftRows (SubBytes (rounds w 13 (AddRoundKey input (RoundKey w 0))))) (RoundKey w 14).
Proof. unfold Cipher, rounds. reflexivity. Qed.

(** What the encoder leaves behind. *)
Lemma Encoder_Proceed_ok key block : bytes_n 32 key -> bytes_n 16 block ->
  Encoder_Proceed (Encoder_Init key) block = Cipher (KeyExpansion key) block /\ bytes_n 16 (Encoder_Proceed (Encoder_Init key) block).
Proof.
  intros Hk Hb. unfold Encoder_Proceed. rewrite Cipher_rounds. pose proof (RoundKey_bytes key Hk 0 ltac:(lia)) as H0.
  pose proof (RoundKey_bytes key Hk 14 ltac:(lia)) as H14.
  pose proof (RoundKey_holds key Hk 0 ltac:(lia)) as K0. rewrite Nat.mul_0_r, drop_0 in K0. rewrite (GetBlock_enc block (RoundKey (KeyExpansion key) 0) _ Hb H0 K0).
  pose proof (state_bytes _ _ Hb H0) as Hs. destruct (rounds_ok key 13 _ Hk Hs ltac:(lia)) as [Hr ->].
  generalize dependent (rounds (KeyExpansion key) 13 (AddRoundKey block (RoundKey (KeyExpansion key) 0))). intros s Hr.
  pose proof (LastRound_enc s _ _ Hr H14 (RoundKey_holds key Hk 14 ltac:(lia))) as E. change (4 * 14)%nat with 56%nat in E.
  assert (bytes_n 16 (AddRoundKey (ShiftRows (SubBytes s)) (RoundKey (KeyExpansion key) 14))) as Ho.
  { apply state_bytes; [|done]. by apply ShiftRows_bytes, SubBytes_bytes. }
  destruct (enc s) as [[[Y0 Y1] Y2] Y3]. rewrite E. rewrite (PutBlock_enc _ Ho). exact (conj eq_refl Ho).
Qed.

(** C22: The encoder is AES-256. With the tables that [aes_gen_tables] builds and
    the round keys of [Init], [AES::Encoder::Proceed] is, for every key and every
    block, the cipher that FIPS 197 defines by substitution, row shift, column
    mixing in the field of 256 elements and key addition, and its key schedule
    is the key expansion of the standard. *)
Theorem aes_encoder_fips197 key block : bytes_n 32 key -> bytes_n 16 block ->
  Encoder_Proceed (Encoder_Init key) block = Cipher (KeyExpansion key) block.
Proof. intros Hk Hb. by apply Encoder_Proceed_ok. Qed.

(** ** Decryption *)
Lemma x2_lxor a b : byte_ok a -> byte_ok b -> x2 (Z.lxor a b) = Z.lxor (x2 a) (x2 b).
Proof.
  assert (forall a, byte_ok a -> forallb (fun b => x2 (Z.lxor a b) =? Z.lxor (x2 a) (x2 b)) (seqZ 0 256) = true) as H.
  { apply byte_forall. vm_compute. reflexivity. }
  intros Ha Hb. apply Z.eqb_eq. revert b Hb. apply (byte_forall (fun b => x2 (Z.lxor a b) =? Z.lxor (x2 a) (x2 b))). by apply H.
Qed.

(** A row of the inverse of column mixing: 14, 11, 13 and 9. *)
Definition im (a b c d : Z) : Z :=
  Z.lxor (x2 (x2 (x2 (Z.lxor (Z.lxor a b) (Z.lxor c d)))))
    (Z.lxor (Z.lxor (Z.lxor (x2 (x2 (Z.lxor a c))) (x2 (Z.lxor a b))) b) (Z.lxor c d)).
Definition mx (a b c d : Z) : Z := Z.lxor (Z.lxor (Z.lxor (x2 a) (Z.lxor (x2 b) b)) c) d.

Ltac byt := repeat lazymatch goal with
  | |- byte_ok (Z.lxor _ _) => apply lxor_byte
  | |- byte_ok (x2 _) => apply x2_byte
  | |- byte_ok (S_ _) => apply S_byte
  | |- byte_ok _ => solve [assumption|auto with aes|done]
  end.

Lemma im_byte a b c d : byte_ok a -> byte_ok b -> byte_ok c -> byte_ok d -> byte_ok (im a b c d).
Proof. intros. unfold im. byt. Qed.
Lemma mx_byte a b c d : byte_ok a -> byte_ok b -> byte_ok c -> byte_ok d -> byte_ok (mx a b c d).
Proof. intros. unfold mx. byt. Qed.
#[export] Hint Resolve im_byte mx_byte : aes.

Lemma im_lxor a b c d a' b' c' d' :
  byte_ok a -> byte_ok b -> byte_ok c -> byte_ok d -> byte_ok a' -> byte_ok b' -> byte_ok c' -> byte_ok d' ->
  im (Z.lxor a a') (Z.lxor b b') (Z.lxor c c') (Z.lxor d d') = Z.lxor (im a b c d) (im a' b' c' d').
Proof. intros. unfold im. rewrite !x2_lxor by (byt). ring. Qed.

Lemma im_mx a b c d : byte_ok a -> byte_ok b -> byte_ok c -> byte_ok d ->
  im (mx a b c d) (mx b c d a) (mx c d a b) (mx d a b c) = a.
Proof. intros. unfold im, mx. rewrite !x2_lxor by (byt). ring. Qed.

Lemma RT0_im : forall a, byte_ok a -> RT0 T !!! Z.to_nat (S_ a) = pk (im a 0 0 0) (im 0 0 0 a) (im 0 0 a 0) (im 0 a 0 0).
Proof. by_bytes. Qed.
Lemma RT1_im : forall a, byte_ok a -> RT1 T !!! Z.to_nat (S_ a) = pk (im 0 a 0 0) (im a 0 0 0) (im 0 0 0 a) (im 0 0 a 0).
Proof. by_bytes. Qed.
Lemma RT2_im : forall a, byte_ok a -> RT2 T !!! Z.to_nat (S_ a) = pk (im 0 0 a 0) (im 0 a 0 0) (im a 0 0 0) (im 0 0 0 a).
Proof. by_bytes. Qed.
Lemma RT3_im : forall a, byte_ok a -> RT3 T !!! Z.to_nat (S_ a) = pk (im 0 0 0 a) (im 0 0 a 0) (im 0 a 0 0) (im a 0 0 0).
Proof. by_bytes. Qed.

Lemma im_sum a b c d : byte_ok a -> byte_ok b -> byte_ok c -> byte_ok d ->
  Z.lxor (Z.lxor (Z.lxor (im a 0 0 0) (im 0 b 0 0)) (im 0 0 c 0)) (im 0 0 0 d) = im a b c d.
Proof.
  intros. assert (byte_ok 0) by done. rewrite <- !im_lxor by (byt). by rewrite ?Z.lxor_0_r, ?Z.lxor_0_l.
Qed.

(** Mixing back the column [(a, b, c, d)]. *)
Definition pk_im (a b c d : Z) : Z := pk (im a b c d) (im b c d a) (im c d a b) (im d a b c).

Lemma RT_words a b c d : byte_ok a -> byte_ok b -> byte_ok c -> byte_ok d ->
  RT0 T !!! Z.to_nat (S_ a) ^^ RT1 T !!! Z.to_nat (S_ b) ^^ RT2 T !!! Z.to_nat (S_ c) ^^ RT3 T !!! Z.to_nat (S_ d) = pk_im a b c d.
Proof.
  intros. assert (byte_ok 0) by done. rewrite RT0_im, RT1_im, RT2_im, RT3_im by done. rewrite !pk_xor by (byt).
  unfold pk_im. rewrite <- (im_sum a b c d), <- (im_sum b c d a), <- (im_sum c d a b), <- (im_sum d a b c) by done.
  repeat match goal with |- context [im ?x ?y ?z ?t] => generalize (im x y z t); intros ? end. f_equal; ring.
Qed.

Lemma KeyInv_pk a b c d : byte_ok a -> byte_ok b -> byte_ok c -> byte_ok d -> KeyInv (pk a b c d) = pk_im a b c d.
Proof.
  intros. unfold KeyInv. rewrite at8_24, at8_16, at8_8, at8_0 by done.
  assert (forall rt x, byte_ok x -> KT rt !!! Z.to_nat x = rt !!! Z.to_nat (S_ x)) as HK.
  { intros rt x [X0 X1]. unfold KT. apply list_lookup_total_correct. rewrite list_lookup_fmap, lookup_seq_lt by lia. done. }
  rewrite !HK by done. by apply RT_words.
Qed.

(** A column of a round of the decoder. *)
Lemma RT_column a b c d k0 k1 k2 k3 :
  byte_ok a -> byte_ok b -> byte_ok c -> byte_ok d -> byte_ok k0 -> byte_ok k1 -> byte_ok k2 -> byte_ok k3 ->
  KeyInv (pk k0 k1 k2 k3)
    ^^ RT0 T !!! Z.to_nat (S_ (Z.lxor (mx a b c d) k0)) ^^ RT1 T !!! Z.to_nat (S_ (Z.lxor (mx b c d a) k1))
    ^^ RT2 T !!! Z.to_nat (S_ (Z.lxor (mx c d a b) k2)) ^^ RT3 T !!! Z.to_nat (S_ (Z.lxor (mx d a b c) k3))
  = pk a b c d.
Proof.
  intros. transitivity (KeyInv (pk k0 k1 k2 k3) ^^ (RT0 T !!! Z.to_nat (S_ (Z.lxor (mx a b c d) k0)) ^^ RT1 T !!! Z.to_nat (S_ (Z.lxor (mx b c d a) k1))
    ^^ RT2 T !!! Z.to_nat (S_ (Z.lxor (mx c d a b) k2)) ^^ RT3 T !!! Z.to_nat (S_ (Z.lxor (mx d a b c) k3)))); [unfold xor; ring|].
  rewrite RT_words, KeyInv_pk by byt. unfold pk_im. rewrite pk_xor by byt. rewrite !im_lxor by byt.
  pose proof (im_mx a b c d) as E1. pose proof (im_mx b c d a) as E2. pose proof (im_mx c d a b) as E3. pose proof (im_mx d a b c) as E4.
  rewrite E1, E2, E3, E4 by done. f_equal; ring.
Qed.

(** Round keys at [rk] hold the bytes [k] mixed back. *)
Definition holds_inv (rk k : list Z) : Prop := forall j, (j < 4)%nat -> rk !!! j = KeyInv (GET_UINT32 k (4 * j)).

Lemma RROUND_ok u k rk : bytes_n 16 u -> bytes_n 16 k -> holds_inv rk k ->
  AES_RROUND rk (enc (ShiftRows (SubBytes (AddRoundKey (MixColumns u) k)))) = enc u.
Proof.
  intros Hu Hk Hrk. rewrite SubBytes_S by (apply state_bytes; [by apply MixColumns_bytes|done]). unfold AES_RROUND, enc. rewrite !Hrk by lia. rewrite !GET_pk.
  split_bytes u Hu. split_bytes k Hk.
  cbv -[Z.lxor gmul pk at8 T xor RT0 RT1 RT2 RT3 S_ KeyInv]. rewrite !gmul2, !gmul3 by done. rewrite !at8_24, !at8_16, !at8_8, !at8_0 by byt.
  pose proof RT_column as C. unfold mx in C. by rewrite !C by done.
Qed.

Lemma LastRound_dec u k rk : bytes_n 16 u -> bytes_n 16 k -> holds rk k ->
  (let s := enc (ShiftRows (SubBytes (AddRoundKey u k))) in
   let '(Y0, Y1, Y2, Y3) := s in LastRound (RSb T) rk (Y3, Y0, Y1, Y2) (Y2, Y3, Y0, Y1) (Y1, Y2, Y3, Y0) s) = enc u.
Proof.
  intros Hu Hk Hrk. rewrite SubBytes_S by (by apply state_bytes). unfold LastRound, enc. rewrite !Hrk by lia. rewrite !GET_pk. split_bytes u Hu. split_bytes k Hk.
  cbv -[Z.lxor S_ pk at8 T xor RSb wrap Z.shiftl]. rewrite !at8_24, !at8_16, !at8_8, !at8_0 by byt.
  rewrite !(SB_column R_) by (first [done|apply R_byte|byt]). rewrite !R_S by byt. by rewrite !Z.lxor_assoc, !Z.lxor_nilpotent, !Z.lxor_0_r.
Qed.

(** ** The decoder's schedule *)
Lemma concat_blocks (f : nat -> list Z) (a n i j : nat) : (forall i, length (f i) = 4%nat) -> (i < n)%nat -> (j < 4)%nat ->
  concat (f <$> seq a n) !!! (4 * i + j)%nat = f (a + i)%nat !!! j.
Proof.
  intros Hf. revert a i. induction n as [|n IH]; intros a i Hi Hj; [lia|]. cbn [seq fmap list_fmap concat].
  destruct i as [|i]; [rewrite Nat.add_0_r; apply lookup_total_app_l; rewrite Hf; lia|].
  rewrite lookup_total_app_r by (rewrite Hf; lia). rewrite Hf. replace (4 * S i + j - 4)%nat with (4 * i + j)%nat by lia.
  rewrite IH by lia. f_equal. f_equal. lia.
Qed.

Lemma length_blocks (f : nat -> list Z) a n : (forall i, length (f i) = 4%nat) -> length (concat (f <$> seq a n)) = (4 * n)%nat.
Proof. intros Hf. revert a. induction n as [|n IH]; intros a; [done|]. cbn [seq fmap list_fmap concat]. rewrite length_app, Hf, IH. lia. Qed.

Lemma Decoder_Init_lookup erk r j : length erk = 64%nat -> (r <= 14)%nat -> (j < 4)%nat ->
  drop (4 * r) (Decoder_Init erk) !!! j =
    (if decide (1 <= r <= 13)%nat then KeyInv (erk !!! (56 - 4 * r + j)%nat) else erk !!! (56 - 4 * r + j)%nat).
Proof.
  intros Hl Hr Hj. rewrite lookup_total_drop. unfold Decoder_Init.
  set (f := fun i => KeyInv <$> take 4 (drop (56 - 4 * i) erk)). set (blocks := concat (f <$> seq 1 13)).
  assert (forall i, length (f i) = 4%nat) as Hf by (intros i; unfold f; rewrite length_fmap, length_take, length_drop; lia).
  assert (length (take 4 (drop 56 erk)) = 4%nat) as L0 by (rewrite length_take, length_drop; lia).
  pose proof (length_blocks f 1 13 Hf) as L1. fold blocks in L1.
  destruct (decide (r = 0%nat)) as [->|H0].
  { rewrite lookup_total_app_l, lookup_total_take, lookup_total_drop, decide_False by lia. f_equal. }
  rewrite lookup_total_app_r by lia. rewrite L0. destruct (decide (r = 14%nat)) as [->|H14].
  { rewrite lookup_total_app_r by lia. rewrite L1, lookup_total_take, decide_False by lia. f_equal; lia. }
  rewrite decide_True by lia. rewrite lookup_total_app_l by lia. replace (4 * r + j - 4)%nat with (4 * (r - 1) + j)%nat by lia.
  unfold blocks. rewrite concat_blocks by (done || lia). unfold f. rewrite <- Nat.sub_succ_l by lia. cbn [Nat.add]. rewrite Nat.sub_succ, Nat.sub_0_r.
  apply list_lookup_total_correct. rewrite list_lookup_fmap, lookup_take_lt, lookup_drop by lia.
  destruct (lookup_lt_is_Some_2 erk (56 - 4 * r + j)) as [x Hx]; [lia|]. rewrite Hx. cbn. by rewrite (list_lookup_total_correct _ _ _ Hx).
Qed.

Section decode.
Context (key : list Z) (Hkey : bytes_n 32 key).
Abbreviation w := (KeyExpansion key).
Abbreviation drk := (Decoder_Init (Encoder_Init key)).

Lemma Encoder_Init_length : length (Encoder_Init key) = 64%nat.
Proof. rewrite Encoder_Init_ok by done. rewrite length_fmap, grow_length. unfold key_words. by rewrite length_fmap, length_seq. Qed.

Lemma drk_ends r : r = 0%nat \/ r = 14%nat -> holds (drop (4 * r) drk) (RoundKey w (14 - r)).
Proof.
  intros Hr j Hj. rewrite Decoder_Init_lookup by (apply Encoder_Init_length || lia). rewrite decide_False by lia.
  rewrite <- (RoundKey_holds key Hkey (14 - r) ltac:(lia) j Hj), lookup_total_drop. f_equal. lia.
Qed.

Lemma drk_inner r : (1 <= r <= 13)%nat -> holds_inv (drop (4 * r) drk) (RoundKey w (14 - r)).
Proof.
  intros Hr j Hj. rewrite Decoder_Init_lookup by (apply Encoder_Init_length || lia). rewrite decide_True by lia.
  rewrite <- (RoundKey_holds key Hkey (14 - r) ltac:(lia) j Hj), lookup_total_drop. do 2 f_equal. lia.
Qed.

Lemma rounds_0 s : rounds w 0 s = s.
Proof. done. Qed.

Lemma rounds_S n s : rounds w (S n) s = AddRoundKey (MixColumns (ShiftRows (SubBytes (rounds w n s)))) (RoundKey w (S n)).
Proof. unfold rounds. rewrite seq_S, fold_left_app. reflexivity. Qed.

Lemma decode_rounds n s : bytes_n 16 s -> (n <= 13)%nat ->
  fold_left (fun y i => AES_RROUND (drop (4 * i) drk) y) (seq 1 n) (enc (ShiftRows (SubBytes (rounds w 13 s))))
  = enc (ShiftRows (SubBytes (rounds w (13 - n) s))).
Proof.
  intros Hs. induction n as [|n IH]; intros Hn; [done|]. rewrite seq_S, fold_left_app, IH by lia. cbn [fold_left].
  replace (13 - n)%nat with (S (13 - S n)) by lia. rewrite rounds_S. replace (S (13 - S n)) with (14 - (1 + n))%nat by lia.
  apply RROUND_ok; [|apply RoundKey_bytes; [done|lia]|apply drk_inner; lia].
  apply ShiftRows_bytes, SubBytes_bytes. apply rounds_ok; [done|done|lia].
Qed.
End decode.

Lemma AddRoundKey_twice a k : length k = length a -> AddRoundKey (AddRoundKey a k) k = a.
Proof.
  unfold AddRoundKey. revert k. induction a as [|x a IH]; intros [|y k] L; try done. cbn. f_equal; [by rewrite Z.lxor_assoc, Z.lxor_nilpotent, Z.lxor_0_r|].
  apply IH. by injection L.
Qed.

(** The decoder undoes the encoder. For every key and every block, what
    [AES::Encoder] makes of the block [AES::Decoder], initialized from the
    encoder, turns back into the block. *)
Theorem aes_roundtrip key block : bytes_n 32 key -> bytes_n 16 block ->
  Decoder_Proceed (Decoder_Init (Encoder_Init key)) (Encoder_Proceed (Encoder_Init key) block) = block.
Proof.
  intros Hk Hb. destruct (Encoder_Proceed_ok key block Hk Hb) as [-> _]. rewrite Cipher_rounds.
  pose proof (RoundKey_bytes key Hk 0 ltac:(lia)) as H0. pose proof (RoundKey_bytes key Hk 14 ltac:(lia)) as H14.
  pose proof (state_bytes _ _ Hb H0) as Hs. set (s0 := AddRoundKey block (RoundKey (KeyExpansion key) 0)) in *.
  destruct (rounds_ok key 13 s0 Hk Hs ltac:(lia)) as [Hr _]. pose proof (ShiftRows_bytes _ (SubBytes_bytes _ _ Hr)) as Hsr.
  unfold Decoder_Proceed. pose proof (drk_ends key Hk 0 ltac:(lia)) as K14. rewrite Nat.mul_0_r, drop_0, Nat.sub_0_r in K14.
  rewrite (GetBlock_enc _ _ _ (state_bytes _ _ Hsr H14) H14 K14).
  rewrite AddRoundKey_twice by (by rewrite (proj2 Hsr), (proj2 H14)). rewrite decode_rounds by (done || lia). rewrite Nat.sub_diag, (rounds_0 key).
  pose proof (drk_ends key Hk 14 ltac:(lia)) as K0. rewrite Nat.sub_diag in K0. change (4 * 14)%nat with 56%nat in K0.
  pose proof (LastRound_dec block _ _ Hb H0 K0) as E. cbv zeta in E. fold s0 in E.
  destruct (enc (ShiftRows (SubBytes s0))) as [[[Y0 Y1] Y2] Y3]. rewrite E. by apply PutBlock_enc.
Qed.

#[local] Transparent T KeyExpansion.

(** The example of appendix C.3 of FIPS 197. *)
Definition demo_key : list Z := seqZ 0 32.
Definition demo_block : list Z := (fun i => 17 * i) <$> seqZ 0 16.
Definition demo_cipher : list Z := [0x8e; 0xa2; 0xb7; 0xca; 0x51; 0x67; 0x45; 0xbf; 0xea; 0xfc; 0x49; 0x90; 0x4b; 0x49; 0x60; 0x89].

Lemma demo_key_ok : bytes_n 32 demo_key.
Proof. split; [apply (bool_decide_unpack _); vm_compute; done|vm_compute; done]. Qed.
Lemma demo_block_ok : bytes_n 16 demo_block.
Proof. split; [apply (bool_decide_unpack _); vm_compute; done|vm_compute; done]. Qed.

Lemma aes_encoder_fips197_witness : Cipher (KeyExpansion demo_key) demo_block = demo_cipher.
Proof. rewrite <- (aes_encoder_fips197 demo_key demo_block demo_key_ok demo_block_ok). vm_compute. reflexivity. Defined.

Lemma aes_roundtrip_witness : Decoder_Proceed (Decoder_Init (Encoder_Init demo_key)) (Encoder_Proceed (Encoder_Init demo_key) demo_block) = demo_block.
Proof. exact (aes_roundtrip demo_key demo_block demo_key_ok demo_block_ok). Defined.
