(* ===== verification/Cipher.v ===== *)
(** The stream cipher of a connection, [AES::StreamCipher] of [core/aes.h] and
    [core/aes.cpp]: counter mode, with the rest of the last block kept between
    the calls.

    The block function [AES::Encoder::Proceed] with its round keys is an
    argument, and nothing but the size of its result matters here.  Two ciphers that
    will produce the same bytes are equivalent even if one of them has
    already computed its next block. *)

From stdpp Require Import list.
From S2P Require Import Prelude UintBig EccData.

Definition s_BlockSize : nat := 16.

Record StreamCipher := mkCipher {
  m_Counter : list Z;
  m_pBuf : list Z;
  m_nBuf : nat
}.

(** [memxor] of [utility/common.cpp]. *)
Definition memxor (pDst pSrc : list Z) : list Z := zip_with Z.lxor pDst pSrc.

Section cipher.
Context (Proceed : list Z -> list Z).

Definition StreamCipher_Reset (c : StreamCipher) : StreamCipher := mkCipher (replicate s_BlockSize 0) (m_pBuf c) 0.

(** [PerfXor] on all of [pBuf]; [None] where the code asserts. *)
Definition PerfXor (c : StreamCipher) (pBuf : list Z) : option (StreamCipher * list Z) :=
  let nSize := length pBuf in
  if (m_nBuf c <? nSize)%nat then None
  else Some (mkCipher (m_Counter c) (m_pBuf c) (m_nBuf c - nSize), memxor pBuf (drop (s_BlockSize - m_nBuf c) (m_pBuf c))).

(** A new block when the last one is used up. *)
Definition Refill (c : StreamCipher) : StreamCipher :=
  if (m_nBuf c =? 0)%nat then mkCipher (_Inc (m_Counter c)).1 (Proceed (m_Counter c)) s_BlockSize else c.

Fixpoint XCrypt_loop (fuel : nat) (c : StreamCipher) (pBuf : list Z) : option (StreamCipher * list Z) :=
  match fuel with
  | O => None
  | S fuel =>
      let c := Refill c in
      if (length pBuf <=? m_nBuf c)%nat then PerfXor c pBuf
      else
        let n := m_nBuf c in
        '(c, out) ← PerfXor c (take n pBuf);
        '(c, rest) ← XCrypt_loop fuel c (drop n pBuf);
        Some (c, out ++ rest)
  end.

(** Every round but the last one consumes a byte at least. *)
Definition XCrypt (c : StreamCipher) (pBuf : list Z) : option (StreamCipher * list Z) := XCrypt_loop (S (length pBuf)) c pBuf.
End cipher.

(** * Facts *)
Lemma memxor_byte a b : bytes_ok a -> bytes_ok b -> bytes_ok (memxor a b).
Proof.
  unfold memxor. revert b. induction a as [|x a IH]; intros [|y b]; cbn; try done. rewrite !Forall_cons. intros [Hx Ha] [Hy Hb].
  split; [by apply lxor_byte|by apply IH].
Qed.

Lemma memxor_twice a b : (length a <= length b)%nat -> memxor (memxor a b) b = a.
Proof.
  unfold memxor. revert b. induction a as [|x a IH]; intros [|y b]; cbn; try done; [lia|]. intros H. f_equal; [|apply IH; lia].
  by rewrite Z.lxor_assoc, Z.lxor_nilpotent, Z.lxor_0_r.
Qed.

Section cipher_facts.
Context (Proceed : list Z -> list Z) (Hblock : forall l, bytes_n s_BlockSize (Proceed l)).

Record cipher_ok (c : StreamCipher) : Prop := {
  ci_buf : bytes_n s_BlockSize (m_pBuf c);
  ci_n : (m_nBuf c <= s_BlockSize)%nat
}.

Definition counter_at (c : StreamCipher) (k : nat) : list Z := Nat.iter k (fun x => (_Inc x).1) (m_Counter c).

(** The bytes that a cipher is going to produce: the rest of its block, then the
    blocks of the counters. *)
Definition stream (c : StreamCipher) (i : nat) : Z :=
  if (i <? m_nBuf c)%nat then m_pBuf c !!! (s_BlockSize - m_nBuf c + i)%nat
  else Proceed (counter_at c ((i - m_nBuf c) / s_BlockSize)) !!! ((i - m_nBuf c) mod s_BlockSize)%nat.

Definition keystream (c : StreamCipher) (n : nat) : list Z := stream c <$> seq 0 n.

Lemma length_keystream c n : length (keystream c n) = n.
Proof. unfold keystream. by rewrite length_fmap, length_seq. Qed.

Lemma counter_at_S c k : counter_at c (S k) = Nat.iter k (fun x => (_Inc x).1) (_Inc (m_Counter c)).1.
Proof. unfold counter_at. by rewrite Nat.iter_succ_r. Qed.

Lemma Refill_ok c : cipher_ok c -> cipher_ok (Refill Proceed c) /\ (0 < m_nBuf (Refill Proceed c))%nat /\
  forall i, stream (Refill Proceed c) i = stream c i.
Proof.
  intros Hc. unfold Refill. destruct (Nat.eqb_spec (m_nBuf c) 0) as [E|E]; [|split_and!; [done|lia|done]].
  split_and!; [split; cbn [m_pBuf m_nBuf]; [apply Hblock|lia]|cbn; unfold s_BlockSize; lia|].
  intros i. unfold stream. cbn [m_nBuf m_pBuf]. rewrite E. rewrite !Nat.sub_0_r, Nat.sub_diag. change (i <? 0)%nat with false. cbv iota.
  destruct (Nat.ltb_spec i s_BlockSize) as [Hi|Hi].
  - rewrite (Nat.div_small i), (Nat.mod_small i) by exact Hi. by rewrite Nat.add_0_l.
  - assert (i / s_BlockSize = S ((i - s_BlockSize) / s_BlockSize))%nat as ->.
    { replace i with (i - s_BlockSize + 1 * s_BlockSize)%nat at 1 by lia. rewrite Nat.div_add by (unfold s_BlockSize; lia). lia. }
    assert (i mod s_BlockSize = (i - s_BlockSize) mod s_BlockSize)%nat as ->.
    { replace i with (i - s_BlockSize + 1 * s_BlockSize)%nat at 1 by lia. by rewrite Nat.Div0.mod_add. }
    by rewrite counter_at_S.
Qed.

Lemma PerfXor_ok c pBuf : cipher_ok c -> (length pBuf <= m_nBuf c)%nat ->
  exists c', PerfXor c pBuf = Some (c', memxor pBuf (keystream c (length pBuf))) /\ cipher_ok c' /\
    m_nBuf c' = (m_nBuf c - length pBuf)%nat /\ forall i, stream c' i = stream c (length pBuf + i).
Proof.
  intros Hc Hl. unfold PerfXor. rewrite (proj2 (Nat.ltb_ge _ _)) by lia. destruct Hc as [[Hb Lb] Hn].
  exists (mkCipher (m_Counter c) (m_pBuf c) (m_nBuf c - length pBuf)). split; [|split; [split; cbn [m_pBuf m_nBuf]; [by split|lia]|split; [done|]]].
  - f_equal. f_equal. apply list_eq. intros i. unfold memxor. rewrite !lookup_zip_with.
    destruct (pBuf !! i) as [x|] eqn:Ei; [|done]. cbn [mbind option_bind]. apply lookup_lt_Some in Ei. unfold keystream.
    rewrite list_lookup_fmap, lookup_seq_lt by lia. cbn [fmap option_fmap option_map mbind option_bind Nat.add].
    rewrite lookup_drop. destruct (lookup_lt_is_Some_2 (m_pBuf c) (s_BlockSize - m_nBuf c + i)) as [y Ey]; [lia|].
    rewrite Ey. cbn [mbind option_bind]. unfold stream. rewrite (proj2 (Nat.ltb_lt _ _)) by lia. by rewrite (list_lookup_total_correct _ _ _ Ey).
  - intros i. unfold stream. cbn [m_nBuf m_pBuf]. destruct (Nat.ltb_spec i (m_nBuf c - length pBuf)), (Nat.ltb_spec (length pBuf + i) (m_nBuf c)); try lia.
    + f_equal. lia.
    + replace (length pBuf + i - m_nBuf c)%nat with (i - (m_nBuf c - length pBuf))%nat by lia. done.
Qed.

Lemma keystream_app c n m : keystream c (n + m) = keystream c n ++ ((fun i => stream c (n + i)) <$> seq 0 m).
Proof.
  unfold keystream. rewrite seq_app, fmap_app. f_equal. cbn [Nat.add]. rewrite <- (Nat.add_0_r n) at 1. rewrite <- fmap_add_seq, <- list_fmap_compose. done.
Qed.

Lemma memxor_app a b k j : length a = length k -> memxor (a ++ b) (k ++ j) = memxor a k ++ memxor b j.
Proof. apply zip_with_app. Qed.

(** [XCrypt] on any number of bytes. *)
Lemma XCrypt_loop_ok fuel c pBuf : cipher_ok c -> (length pBuf < fuel)%nat ->
  exists c', XCrypt_loop Proceed fuel c pBuf = Some (c', memxor pBuf (keystream c (length pBuf))) /\ cipher_ok c' /\
    forall i, stream c' i = stream c (length pBuf + i).
Proof.
  revert c pBuf. induction fuel as [|fuel IH]; intros c pBuf Hc Hf; [lia|]. cbn [XCrypt_loop].
  destruct (Refill_ok c Hc) as (Hc1 & Hpos & Hs). set (c1 := Refill Proceed c) in *.
  assert (forall n, keystream c1 n = keystream c n) as Hk by (intros n; apply list_fmap_ext; intros; apply Hs).
  destruct (Nat.leb_spec (length pBuf) (m_nBuf c1)) as [Hl|Hl].
  - destruct (PerfXor_ok c1 pBuf Hc1 Hl) as (c' & -> & Hc' & _ & Hs'). exists c'. rewrite Hk. split; [done|]. split; [done|]. intros i. by rewrite Hs', Hs.
  - set (n := m_nBuf c1) in *. assert (length (take n pBuf) = n) as Ln by (rewrite length_take; lia).
    destruct (PerfXor_ok c1 (take n pBuf) Hc1) as (c2 & -> & Hc2 & _ & Hs2); [lia|]. rewrite Ln in *. cbn [mbind option_bind].
    destruct (IH c2 (drop n pBuf) Hc2) as (c' & -> & Hc' & Hs'); [rewrite length_drop; lia|]. cbn [mbind option_bind].
    exists c'. rewrite length_drop in *. split; [|split; [done|]].
    + f_equal. f_equal. rewrite Hk. assert (keystream c2 (length pBuf - n) = (fun i => stream c (n + i)) <$> seq 0 (length pBuf - n)) as ->.
      { apply list_fmap_ext. intros i x _. by rewrite Hs2, Hs. }
      rewrite <- memxor_app by (by rewrite length_keystream). rewrite take_drop, <- keystream_app. do 2 f_equal. lia.
    + intros i. rewrite Hs', Hs2, Hs. f_equal. lia.
Qed.

Lemma XCrypt_ok c pBuf : cipher_ok c ->
  exists c', XCrypt Proceed c pBuf = Some (c', memxor pBuf (keystream c (length pBuf))) /\ cipher_ok c' /\
    forall i, stream c' i = stream c (length pBuf + i).
Proof. intros Hc. apply XCrypt_loop_ok; [done|lia]. Qed.

(** *** Calls that follow each other *)
Lemma XCrypt_loop_fuel f f' c pBuf : cipher_ok c -> (length pBuf < f)%nat -> (length pBuf < f')%nat ->
  XCrypt_loop Proceed f c pBuf = XCrypt_loop Proceed f' c pBuf.
Proof.
  revert f' c pBuf. induction f as [|f IH]; intros f' c pBuf Hc Hf Hf'; [lia|]. destruct f' as [|f']; [lia|]. cbn [XCrypt_loop].
  destruct (Refill_ok c Hc) as (Hc1 & Hpos & _). destruct (Nat.leb_spec (length pBuf) (m_nBuf (Refill Proceed c))) as [|Hl]; [done|].
  destruct (PerfXor_ok (Refill Proceed c) (take (m_nBuf (Refill Proceed c)) pBuf) Hc1) as (c2 & -> & Hc2 & _); [rewrite length_take; lia|].
  cbn [mbind option_bind]. rewrite (IH f'); [done|done|rewrite length_drop; lia..].
Qed.

Lemma PerfXor_app c a b : (length (a ++ b) <= m_nBuf c <= s_BlockSize)%nat ->
  PerfXor c (a ++ b) = ('(c1, x) ← PerfXor c a; '(c2, y) ← PerfXor c1 b; Some (c2, x ++ y)).
Proof.
  rewrite length_app. intros Hl. unfold PerfXor. rewrite length_app.
  rewrite (proj2 (Nat.ltb_ge (m_nBuf c) (length a + length b))), (proj2 (Nat.ltb_ge (m_nBuf c) (length a))) by lia.
  cbn [mbind option_bind m_nBuf m_pBuf m_Counter]. rewrite (proj2 (Nat.ltb_ge _ _)) by lia. cbn [mbind option_bind].
  rewrite Nat.sub_add_distr. do 2 f_equal. unfold memxor. rewrite zip_with_app_l, drop_drop.
  f_equal; [|f_equal; f_equal; lia]. set (k := drop _ _). clearbody k. clear Hl. revert k. induction a as [|x a IH]; intros [|y k]; cbn; try done. f_equal. apply IH.
Qed.

Lemma Refill_id c : (0 < m_nBuf c)%nat -> Refill Proceed c = c.
Proof. intros H. unfold Refill. by rewrite (proj2 (Nat.eqb_neq _ _)) by lia. Qed.

Lemma XCrypt_unfold c pBuf : cipher_ok c ->
  XCrypt Proceed c pBuf =
    if (length pBuf <=? m_nBuf (Refill Proceed c))%nat then PerfXor (Refill Proceed c) pBuf
    else
      '(c2, out) ← PerfXor (Refill Proceed c) (take (m_nBuf (Refill Proceed c)) pBuf);
      '(c3, rest) ← XCrypt Proceed c2 (drop (m_nBuf (Refill Proceed c)) pBuf);
      Some (c3, out ++ rest).
Proof.
  intros Hc. unfold XCrypt at 1. cbn [XCrypt_loop]. destruct (Refill_ok c Hc) as (Hc1 & Hpos & _). set (c1 := Refill Proceed c) in *.
  destruct (Nat.leb_spec (length pBuf) (m_nBuf c1)) as [|Hl]; [done|].
  destruct (PerfXor_ok c1 (take (m_nBuf c1) pBuf) Hc1) as (c2 & -> & Hc2 & _); [rewrite length_take; lia|]. cbn [mbind option_bind].
  unfold XCrypt. by rewrite (XCrypt_loop_fuel (length pBuf) (S (length (drop (m_nBuf c1) pBuf)))) by (done || rewrite length_drop; lia).
Qed.

(** Encrypting in pieces, none of which but the first one is empty, is encrypting
    at once. *)
Lemma XCrypt_app c a b : cipher_ok c -> b <> [] ->
  XCrypt Proceed c (a ++ b) = ('(c1, x) ← XCrypt Proceed c a; '(c2, y) ← XCrypt Proceed c1 b; Some (c2, x ++ y)).
Proof.
  intros Hc Hb. assert (0 < length b)%nat as Lb by (destruct b; [done|cbn; lia]). clear Hb.
  remember (length a) as n eqn:En. revert a c En Hc. induction n as [n IH] using lt_wf_ind. intros a c -> Hc.
  rewrite (XCrypt_unfold c (a ++ b) Hc), (XCrypt_unfold c a Hc).
  destruct (Refill_ok c Hc) as (Hc1 & Hpos & _). set (c1 := Refill Proceed c) in *. clearbody c1. pose proof (ci_n _ Hc1) as Hn1.
  rewrite length_app. destruct (Nat.leb_spec (length a) (m_nBuf c1)) as [La|La].
  - destruct (PerfXor_ok c1 a Hc1 La) as (c2 & Ea & Hc2 & N2 & _).
    destruct (Nat.leb_spec (length a + length b) (m_nBuf c1)) as [Lab|Lab].
    + rewrite PerfXor_app by (rewrite length_app; lia). rewrite Ea. cbn [mbind option_bind]. rewrite (XCrypt_unfold c2 b Hc2), Refill_id by lia.
      by rewrite (proj2 (Nat.leb_le _ _)) by lia.
    + rewrite take_app, (take_ge a), drop_app, (drop_ge a) by lia. cbn [app]. set (k := (m_nBuf c1 - length a)%nat).
      rewrite PerfXor_app by (rewrite length_app, length_take; lia). rewrite Ea. cbn [mbind option_bind].
      destruct (decide (k = 0%nat)) as [Ek|Ek].
      * rewrite Ek, take_0, drop_0. unfold PerfXor. change (m_nBuf c2 <? length (@nil Z))%nat with false. cbn [mbind option_bind length].
        rewrite (Nat.sub_0_r (m_nBuf c2)).
        assert (mkCipher (m_Counter c2) (m_pBuf c2) (m_nBuf c2) = c2) as -> by (by destruct c2). cbn [memxor zip_with]. rewrite app_nil_r.
        by destruct (XCrypt Proceed c2 b) as [[c3 y]|].
      * rewrite (XCrypt_unfold c2 b Hc2), Refill_id by lia. rewrite (proj2 (Nat.leb_gt _ _)) by lia. rewrite N2. fold k.
        destruct (PerfXor c2 (take k b)) as [[c3 x]|]; [|done]. cbn [mbind option_bind].
        destruct (XCrypt Proceed c3 (drop k b)) as [[c4 y]|]; [|done]. cbn [mbind option_bind]. by rewrite app_assoc.
  - rewrite (proj2 (Nat.leb_gt _ _)) by lia. rewrite take_app_le, drop_app_le by lia. set (k := m_nBuf c1) in *.
    destruct (PerfXor_ok c1 (take k a) Hc1) as (c2 & -> & Hc2 & _); [rewrite length_take; lia|]. cbn [mbind option_bind].
    rewrite (IH (length (drop k a)) ltac:(rewrite length_drop; lia) (drop k a) c2 eq_refl Hc2).
    destruct (XCrypt Proceed c2 (drop k a)) as [[c3 y]|]; [|done]. cbn [mbind option_bind].
    destruct (XCrypt Proceed c3 b) as [[c4 z]|]; [|done]. cbn [mbind option_bind]. by rewrite app_assoc.
Qed.
End cipher_facts.

(** ** Equivalent ciphers *)
Section equiv.
Context (Proceed : list Z -> list Z) (Hblock : forall l, bytes_n s_BlockSize (Proceed l)).

Definition same_stream (c c' : StreamCipher) : Prop := forall i, stream Proceed c i = stream Proceed c' i.

#[export] Instance same_stream_equiv : Equivalence same_stream.
Proof. split; [done|by intros c c' H i|intros a b c H1 H2 i; by rewrite H1]. Qed.

#[export] Instance keystream_proper : Proper (same_stream ==> eq ==> eq) (keystream Proceed).
Proof. intros c c' H n ? <-. apply list_fmap_ext. intros; apply H. Qed.

(** What one cipher encrypts an equivalent one decrypts, and they stay
    equivalent. *)
Lemma XCrypt_inverse c c' m : cipher_ok c -> cipher_ok c' -> same_stream c c' ->
  exists c1 c1' x, XCrypt Proceed c m = Some (c1, x) /\ XCrypt Proceed c' x = Some (c1', m) /\
    length x = length m /\ cipher_ok c1 /\ cipher_ok c1' /\ same_stream c1 c1'.
Proof.
  intros Hc Hc' Hs. destruct (XCrypt_ok Proceed Hblock c m Hc) as (c1 & E1 & Hc1 & S1).
  set (x := memxor m (keystream Proceed c (length m))) in *. assert (length x = length m) as Lx.
  { unfold x, memxor. rewrite length_zip_with, length_keystream. lia. }
  destruct (XCrypt_ok Proceed Hblock c' x Hc') as (c1' & E2 & Hc1' & S2). rewrite Lx in *.
  exists c1, c1', x. split_and!; try done.
  - rewrite E2. do 2 f_equal. rewrite <- Hs. apply memxor_twice. by rewrite length_keystream.
  - intros i. by rewrite S1, S2, Hs.
Qed.
End equiv.
