(* ===== verification/Framing.v ===== *)
(** Messages on a connection, the receiving side: [MsgHeader] and
    [ProtocolBase] of [p2p/protocol_base.h] and [p2p/protocol_base.cpp], and
    [MsgReader] of [p2p/msg_reader.h] and [p2p/msg_reader.cpp], which cuts
    the bytes of a stream into messages.

    What a protocol derives from the base (decryption, the size and the check
    of the code that authenticates a message, the handlers of messages and
    errors) is a class; a handler says whether it wants to go on, whether the
    reader is still alive, and which message types are expected from now on.
    A read or a write outside of the message buffer is [None]. *)

From stdpp Require Import list.
From S2P Require Import Prelude UintBig EccData.

(** ** [MsgHeader] *)
Definition HeaderSize : nat := 8.

Record MsgHeader := mkHeader { h_V0 : Z; h_V1 : Z; h_V2 : Z; h_type : Z; h_size : Z }.

(** [read] and [write]: the bytes of the structure, little endian. *)
Definition MsgHeader_read (src : list Z) : MsgHeader :=
  mkHeader (src !!! 0%nat) (src !!! 1%nat) (src !!! 2%nat) (src !!! 3%nat)
    (src !!! 4%nat + 2 ^ 8 * src !!! 5%nat + 2 ^ 16 * src !!! 6%nat + 2 ^ 24 * src !!! 7%nat).

Definition MsgHeader_write (h : MsgHeader) : list Z :=
  [h_V0 h; h_V1 h; h_V2 h; h_type h;
   u8 (h_size h); u8 (Z.shiftr (h_size h) 8); u8 (Z.shiftr (h_size h) 16); u8 (Z.shiftr (h_size h) 24)].

Inductive ProtocolError :=
| protocol_version_error | msg_type_error | msg_size_error | message_corrupted | unexpected_msg_type.

(** ** [ProtocolBase] *)

(** An entry of the dispatch table with a callback. *)
Record DispatchTableItem := mkItem { i_minSize : Z; i_maxSize : Z }.

Record Protocol_t := mkProtocol {
  pt_V0 : Z; pt_V1 : Z; pt_V2 : Z;
  pt_dispatchTable : list (option DispatchTableItem)
}.

Definition get_default_header (t : Protocol_t) : MsgHeader := mkHeader (pt_V0 t) (pt_V1 t) (pt_V2 t) 0 0.

(** [approve_msg_header]: the error that is reported, if any. *)
Definition approve_msg_header (t : Protocol_t) (h : MsgHeader) : option ProtocolError :=
  if negb (h_V0 h =? pt_V0 t) || negb (h_V1 h =? pt_V1 t) || negb (h_V2 h =? pt_V2 t) then Some protocol_version_error
  else if Z.of_nat (length (pt_dispatchTable t)) <=? h_type h then Some msg_type_error
  else
    match pt_dispatchTable t !!! Z.to_nat (h_type h) with
    | None => Some msg_type_error
    | Some i => if (h_size h <? i_minSize i) || (i_maxSize i <? h_size h) then Some msg_size_error else None
    end.

(** What a handler leaves behind. *)
Record Outcome (P : Type) := mkOutcome { o_state : P; o_ret : bool; o_alive : bool; o_expected : list bool }.
Arguments mkOutcome {P}.
Arguments o_state {P}.
Arguments o_ret {P}.
Arguments o_alive {P}.
Arguments o_expected {P}.

Class IProtocol (P : Type) := {
  Decrypt : P -> list Z -> P * list Z;
  get_MacSize : P -> Z;
  VerifyMsg : P -> list Z -> bool;
  on_message : P -> list bool -> Z -> list Z -> Outcome P;
  (** the state, and whether the reader is still alive *)
  on_protocol_error : P -> ProtocolError -> P * bool;
  on_unexpected_msg : P -> Z -> P * bool;
  on_connection_error : P -> Z -> P * bool
}.

(** ** [MsgReader] *)
Inductive ReaderState := reading_header | reading_message.

Record MsgReader := mkReader {
  r_bytesLeft : nat;
  r_state : ReaderState;
  r_msgBuffer : list Z;
  r_cursor : nat;
  r_expected : list bool
}.

Definition enable_all_msg_types : list bool := replicate 256 true.
Definition disable_all_msg_types : list bool := replicate 256 false.
Definition enable_msg_type (l : list bool) (type : Z) : list bool := <[Z.to_nat type := true]> l.
Definition disable_msg_type (l : list bool) (type : Z) : list bool := <[Z.to_nat type := false]> l.

Definition MsgReader_new (defaultSize : nat) : MsgReader :=
  mkReader HeaderSize reading_header (replicate defaultSize 0) 0 enable_all_msg_types.

Definition MsgReader_reset (r : MsgReader) : MsgReader :=
  mkReader HeaderSize reading_header (r_msgBuffer r) 0 (r_expected r).

(** [std::vector::resize]. *)
Definition resize (l : list Z) (n : nat) : list Z := take n l ++ replicate (n - length l) 0.

(** [memcpy] into the buffer. *)
Definition buf_write (buf : list Z) (cursor : nat) (data : list Z) : option (list Z) :=
  if (cursor + length data <=? length buf)%nat
  then Some (take cursor buf ++ data ++ drop (cursor + length data) buf) else None.

(** How reading ends: [false] is returned, with the reader when it is alive, or
    [true]. *)
Inductive ReadResult (P : Type) :=
| Stopped (pr : P) (r : option MsgReader)
| Running (pr : P) (r : MsgReader).
Arguments Stopped {P}.
Arguments Running {P}.

Section reader.
Context {P : Type} `{!IProtocol P} (t : Protocol_t) (defaultSize : nat).

(** The bytes are copied to the cursor and decrypted there. *)
Definition Receive (pr : P) (r : MsgReader) (data : list Z) : option (P * list Z) :=
  buf ← buf_write (r_msgBuffer r) (r_cursor r) data;
  let '(pr, dec) := Decrypt pr (take (length data) (drop (r_cursor r) buf)) in
  buf ← buf_write buf (r_cursor r) dec;
  Some (pr, buf).

Definition with_buffer (r : MsgReader) (buf : list Z) : MsgReader :=
  mkReader (r_bytesLeft r) (r_state r) buf (r_cursor r) (r_expected r).

Definition stop (r : MsgReader) (x : P * bool) : ReadResult P := Stopped x.1 (if x.2 then Some r else None).

(** [ProtocolBase::on_new_message]. *)
Definition on_new_message (pr : P) (expected : list bool) (type : Z) (data : list Z) : Outcome P :=
  match pt_dispatchTable t !!! Z.to_nat type with
  | None => let '(pr, alive) := on_protocol_error pr msg_type_error in mkOutcome pr false alive expected
  | Some _ => on_message pr expected type data
  end.

(** A header, or a message, is complete in the buffer: the rest of a round of
    the loop, which either stops or leaves the reader ready for the next part. *)
Definition Complete (pr : P) (r : MsgReader) : option (ReadResult P) :=
  let header := MsgHeader_read (r_msgBuffer r) in
  match r_state r with
  | reading_header =>
      match approve_msg_header t header with
      | Some error => Some (stop r (on_protocol_error pr error))
      | None =>
          if negb (r_expected r !!! Z.to_nat (h_type header)) then Some (stop r (on_unexpected_msg pr (h_type header)))
          else
            let bytesLeft := Z.to_nat (h_size header) in
            Some (Running pr (mkReader bytesLeft reading_message (resize (r_msgBuffer r) (HeaderSize + bytesLeft)) HeaderSize (r_expected r)))
      end
  | reading_message =>
      if negb (VerifyMsg pr (r_msgBuffer r)) then Some (stop r (on_protocol_error pr message_corrupted))
      else
        let n := Z.to_nat (u32 (h_size header - get_MacSize pr)) in
        if (length (r_msgBuffer r) <? HeaderSize + n)%nat then None
        else
          let o := on_new_message pr (r_expected r) (h_type header) (take n (drop HeaderSize (r_msgBuffer r))) in
          let r := mkReader (r_bytesLeft r) (r_state r) (r_msgBuffer r) (r_cursor r) (o_expected o) in
          if negb (o_ret o) then Some (Stopped (o_state o) (if o_alive o then Some (MsgReader_reset r) else None))
          else if negb (o_alive o) then Some (Stopped (o_state o) None)
          else
            let buf := if (2 * defaultSize <? length (r_msgBuffer r))%nat then replicate defaultSize 0 else r_msgBuffer r in
            Some (Running (o_state o) (mkReader HeaderSize reading_header buf 0 (r_expected r)))
  end.

Fixpoint Read_loop (fuel : nat) (pr : P) (r : MsgReader) (data : list Z) : option (ReadResult P) :=
  match fuel with
  | O => None
  | S fuel =>
      let n := r_bytesLeft r in
      if (n <=? length data)%nat then
        '(pr, buf) ← Receive pr r (take n data);
        res ← Complete pr (with_buffer r buf);
        match res with
        | Stopped _ _ => Some res
        | Running pr r => Read_loop fuel pr r (drop n data)
        end
      else if (0 <? length data)%nat then
        '(pr, buf) ← Receive pr r data;
        Some (Running pr (mkReader (n - length data) (r_state r) buf (r_cursor r + length data) (r_expected r)))
      else Some (Running pr r)
  end.

(** Two rounds consume a header at least. *)
Definition new_data_from_stream (pr : P) (r : MsgReader) (connectionStatus : Z) (data : list Z) : option (ReadResult P) :=
  if negb (connectionStatus =? 0) then Some (stop r (on_connection_error pr connectionStatus))
  else if (length data =? 0)%nat then Some (Running pr r)
  else Read_loop (2 * length data + 2) pr r data.

(** The packets of a stream, one after another. *)
Fixpoint Feed (pr : P) (r : MsgReader) (packets : list (list Z)) : option (ReadResult P) :=
  match packets with
  | [] => Some (Running pr r)
  | data :: packets =>
      res ← new_data_from_stream pr r 0 data;
      match res with Stopped _ _ => Some res | Running pr r => Feed pr r packets end
  end.
End reader.

(** * Facts *)

(** A round of the loop, with exactly the bytes that it waits for. *)
Lemma Read_loop_part {P} `{!IProtocol P} t defaultSize fuel (pr : P) r a rest : length a = r_bytesLeft r ->
  Read_loop t defaultSize (S fuel) pr r (a ++ rest) =
    ('(pr, buf) ← Receive pr r a;
     res ← Complete t defaultSize pr (with_buffer r buf);
     match res with Stopped _ _ => Some res | Running pr r => Read_loop t defaultSize fuel pr r rest end).
Proof.
  intros L. cbn [Read_loop]. rewrite <- L, take_app_length, drop_app_length, length_app. by rewrite (proj2 (Nat.leb_le _ _)) by lia.
Qed.

(** ** Headers *)
Definition header_ok (h : MsgHeader) : Prop :=
  byte_ok (h_V0 h) /\ byte_ok (h_V1 h) /\ byte_ok (h_V2 h) /\ byte_ok (h_type h) /\ 0 <= h_size h < 2 ^ 32.

Lemma MsgHeader_write_length h : length (MsgHeader_write h) = HeaderSize.
Proof. done. Qed.

Lemma MsgHeader_write_ok h : header_ok h -> bytes_ok (MsgHeader_write h).
Proof.
  intros (H0 & H1 & H2 & H3 & _). unfold MsgHeader_write. do 4 (apply Forall_cons_2; [assumption|]). do 4 (apply Forall_cons_2; [apply u8_byte|]). constructor.
Qed.

Lemma MsgHeader_read_app a b : (HeaderSize <= length a)%nat -> MsgHeader_read (a ++ b) = MsgHeader_read a.
Proof. unfold HeaderSize. intros H. unfold MsgHeader_read. by rewrite !lookup_total_app_l by lia. Qed.

Lemma MsgHeader_read_take a n : (HeaderSize <= n)%nat -> MsgHeader_read (take n a) = MsgHeader_read a.
Proof. unfold HeaderSize. intros H. unfold MsgHeader_read. by rewrite !lookup_total_take by lia. Qed.

Lemma MsgHeader_read_ok a : bytes_ok a -> (HeaderSize <= length a)%nat -> header_ok (MsgHeader_read a).
Proof.
  unfold HeaderSize. intros Ha Hl. unfold header_ok, MsgHeader_read. cbn [h_V0 h_V1 h_V2 h_type h_size].
  assert (forall i, byte_ok (a !!! i)) as H by (intros i; by apply bytes_ok_lookup).
  pose proof (H 4%nat) as B4. pose proof (H 5%nat) as B5. pose proof (H 6%nat) as B6. pose proof (H 7%nat) as B7.
  split_and!; try apply H; unfold byte_ok in *; lia.
Qed.

Lemma u8_shift x k : 0 <= k -> u8 (Z.shiftr x k) = (x / 2 ^ k) mod 256.
Proof. intros. unfold wrap. by rewrite Z.shiftr_div_pow2. Qed.

(** What is written is read. *)
Lemma MsgHeader_read_write h : header_ok h -> MsgHeader_read (MsgHeader_write h) = h.
Proof.
  intros (_ & _ & _ & _ & Hs). destruct h as [v0 v1 v2 ty sz]. cbn [h_size] in Hs. unfold MsgHeader_read, MsgHeader_write. cbn [h_V0 h_V1 h_V2 h_type h_size].
  cbn [lookup_total list_lookup_total]. f_equal. rewrite !u8_shift by lia. unfold wrap. change (2 ^ 8) with 256. change (2 ^ 16) with (256 * 256).
  change (2 ^ 24) with (256 * 256 * 256). rewrite <- !Z.div_div by lia.
  pose proof (Z.div_mod sz 256 ltac:(lia)). pose proof (Z.div_mod (sz / 256) 256 ltac:(lia)). pose proof (Z.div_mod (sz / 256 / 256) 256 ltac:(lia)).
  assert (0 <= sz / 256 / 256 / 256 < 256) as Hb.
  { rewrite !Z.div_div by lia. split; [apply Z.div_pos; lia|apply Z.div_lt_upper_bound; lia]. }
  pose proof (Z.mod_small _ _ Hb). lia.
Qed.

(** ** The buffer *)
Lemma length_resize l n : length (resize l n) = n.
Proof. unfold resize. rewrite length_app, length_take, length_replicate. lia. Qed.

Lemma resize_ok l n : bytes_ok l -> bytes_ok (resize l n).
Proof. intros H. unfold resize. apply Forall_app. split; [by apply Forall_take|apply bytes_ok_zeros]. Qed.

Lemma resize_header l n : (HeaderSize <= length l)%nat -> (HeaderSize <= n)%nat -> MsgHeader_read (resize l n) = MsgHeader_read l.
Proof.
  intros Hl Hn. unfold resize. rewrite MsgHeader_read_app by (rewrite length_take; lia). by apply MsgHeader_read_take.
Qed.

Definition splice (buf : list Z) (c : nat) (d : list Z) : list Z := take c buf ++ d ++ drop (c + length d) buf.

Lemma length_splice buf c d : (c + length d <= length buf)%nat -> length (splice buf c d) = length buf.
Proof. intros H. unfold splice. rewrite !length_app, length_take, length_drop. lia. Qed.

Lemma splice_ok buf c d : bytes_ok buf -> bytes_ok d -> bytes_ok (splice buf c d).
Proof. intros Hb Hd. unfold splice. rewrite !Forall_app. split_and!; [by apply Forall_take|done|by apply Forall_drop]. Qed.

Lemma splice_header buf c d : (HeaderSize <= c)%nat -> (c + length d <= length buf)%nat -> MsgHeader_read (splice buf c d) = MsgHeader_read buf.
Proof.
  intros Hc Hl. unfold splice. rewrite MsgHeader_read_app by (rewrite length_take; lia). by apply MsgHeader_read_take.
Qed.

Lemma splice_mid buf c d : (c + length d <= length buf)%nat -> take (length d) (drop c (splice buf c d)) = d.
Proof.
  intros H. unfold splice. rewrite drop_app_ge by (rewrite length_take; lia). rewrite length_take, Nat.min_l, Nat.sub_diag, drop_0 by lia.
  by rewrite take_app_length.
Qed.

Lemma splice_splice buf c d d' : length d' = length d -> (c + length d <= length buf)%nat -> splice (splice buf c d) c d' = splice buf c d'.
Proof.
  intros E H. unfold splice at 1. rewrite E. unfold splice.
  rewrite take_app_le by (rewrite length_take; lia). rewrite take_take, Nat.min_id. f_equal. f_equal.
  rewrite drop_app_ge by (rewrite length_take; lia). rewrite length_take, Nat.min_l by lia. rewrite drop_app_ge by lia.
  rewrite drop_drop. rewrite E. f_equal. lia.
Qed.

Lemma splice_app buf c a b : (c + length (a ++ b) <= length buf)%nat -> splice (splice buf c a) (c + length a) b = splice buf c (a ++ b).
Proof.
  rewrite length_app. intros H. unfold splice.
  assert (length (take c buf ++ a) = (c + length a)%nat) as E by (rewrite length_app, length_take; lia).
  rewrite (app_assoc (take c buf) a). rewrite <- E at 1. rewrite take_app_length. rewrite drop_app_ge by lia.
  rewrite E, drop_drop, <- !app_assoc, length_app. do 3 f_equal. f_equal. lia.
Qed.

(** ** What a protocol promises to the reader *)
Class ProtocolLaws (P : Type) `{!IProtocol P} := {
  pr_ok : P -> Prop;
  Decrypt_ok pr data : pr_ok pr -> bytes_ok data ->
    pr_ok (Decrypt pr data).1 /\ length (Decrypt pr data).2 = length data /\ bytes_ok (Decrypt pr data).2;
  (** decrypting in pieces, none of which but the first one is empty, is
      decrypting at once *)
  Decrypt_app pr a b : pr_ok pr -> b <> [] -> Decrypt pr (a ++ b) = (let '(pr1, x) := Decrypt pr a in let '(pr2, y) := Decrypt pr1 b in (pr2, x ++ y));
  MacMax : Z;
  get_MacSize_ok pr : pr_ok pr -> 0 <= get_MacSize pr <= MacMax;
  on_message_ok pr e ty d : pr_ok pr -> length e = 256%nat ->
    pr_ok (o_state (on_message pr e ty d)) /\ length (o_expected (on_message pr e ty d)) = 256%nat
}.

(** The dispatch table admits no message that is too short for the code that
    authenticates it. *)
Definition table_ok (mac : Z) (t : Protocol_t) : Prop :=
  forall ty i, pt_dispatchTable t !!! ty = Some i -> mac <= i_minSize i.

(** A reader in the loop; between two calls it also waits for something. *)
Record reader_inv (mac : Z) (r : MsgReader) : Prop := {
  ri_buf : bytes_ok (r_msgBuffer r);
  ri_len : (HeaderSize <= length (r_msgBuffer r))%nat;
  ri_exp : length (r_expected r) = 256%nat;
  ri_pos : match r_state r with
           | reading_header => (r_cursor r + r_bytesLeft r = HeaderSize)%nat /\ (0 < r_bytesLeft r)%nat
           | reading_message =>
               (HeaderSize <= r_cursor r)%nat /\ (r_cursor r + r_bytesLeft r = length (r_msgBuffer r))%nat /\
               Z.of_nat (length (r_msgBuffer r)) = Z.of_nat HeaderSize + h_size (MsgHeader_read (r_msgBuffer r)) /\
               mac <= h_size (MsgHeader_read (r_msgBuffer r))
           end
}.
Definition reader_ok (mac : Z) (r : MsgReader) : Prop := reader_inv mac r /\ (0 < r_bytesLeft r)%nat.

Section reader_facts.
Context {P : Type} `{!IProtocol P, !ProtocolLaws P} (t : Protocol_t) (defaultSize : nat) (Hdef : (HeaderSize <= defaultSize)%nat) (mac : Z) (Htable : table_ok mac t).
Abbreviation complete := (Complete t defaultSize).
Abbreviation loop := (Read_loop t defaultSize).
Abbreviation new_data := (new_data_from_stream t defaultSize).

Lemma Receive_eq (pr : P) r data : pr_ok pr -> bytes_ok data -> (r_cursor r + length data <= length (r_msgBuffer r))%nat ->
  Receive pr r data = Some ((Decrypt pr data).1, splice (r_msgBuffer r) (r_cursor r) (Decrypt pr data).2).
Proof.
  intros Hp Hd Hl. destruct (Decrypt_ok pr data Hp Hd) as (_ & Ld & _). unfold Receive, buf_write. rewrite (proj2 (Nat.leb_le _ _)) by lia.
  cbn [mbind option_bind]. fold (splice (r_msgBuffer r) (r_cursor r) data). rewrite splice_mid by lia.
  destruct (Decrypt pr data) as [pr1 dec]. cbn [fst snd] in *. rewrite length_splice by lia. rewrite (proj2 (Nat.leb_le _ _)) by lia.
  cbn [mbind option_bind]. change (take (r_cursor r) (splice (r_msgBuffer r) (r_cursor r) data) ++ dec ++ drop (r_cursor r + length dec) (splice (r_msgBuffer r) (r_cursor r) data))
    with (splice (splice (r_msgBuffer r) (r_cursor r) data) (r_cursor r) dec). by rewrite splice_splice.
Qed.

Lemma inv_fits r : reader_inv mac r -> (r_cursor r + r_bytesLeft r <= length (r_msgBuffer r))%nat.
Proof. intros [_ Hl _ Hp]. destruct (r_state r); [lia|]. destruct Hp as (? & ? & _). lia. Qed.

(** The buffer while a part is arriving. *)
Lemma inv_receive r d : reader_inv mac r -> bytes_ok d -> (length d <= r_bytesLeft r)%nat ->
  let buf := splice (r_msgBuffer r) (r_cursor r) d in
  bytes_ok buf /\ length buf = length (r_msgBuffer r) /\
  (r_state r = reading_message -> MsgHeader_read buf = MsgHeader_read (r_msgBuffer r)).
Proof.
  intros Hr Hd Hl buf. pose proof (inv_fits r Hr) as Hf. split_and!; [apply splice_ok; [apply Hr|done]|apply length_splice; lia|].
  intros Hs. destruct Hr as [_ _ _ Hp]. rewrite Hs in Hp. apply splice_header; lia.
Qed.

Lemma approve_min h : approve_msg_header t h = None -> mac <= h_size h.
Proof.
  unfold approve_msg_header. destruct (negb _ || _ || _); [done|]. destruct (_ <=? _); [done|].
  destruct (pt_dispatchTable t !!! _) as [i|] eqn:Ei; [|done]. destruct (Z.ltb_spec (h_size h) (i_minSize i)); [done|]. intros _. pose proof (Htable _ _ Ei). lia.
Qed.

(** What a call leaves behind: an access out of range only if the table admits
    messages that are too short. *)
Definition good (res : option (ReadResult P)) (Q : P -> MsgReader -> Prop) : Prop :=
  match res with None => mac < MacMax | Some (Stopped _ _) => True | Some (Running pr r) => Q pr r end.

(** A complete part. *)
Lemma Complete_ok (pr : P) r buf :
  pr_ok pr -> reader_inv mac r -> bytes_ok buf -> length buf = length (r_msgBuffer r) ->
  (r_state r = reading_message -> MsgHeader_read buf = MsgHeader_read (r_msgBuffer r)) ->
  good (complete pr (with_buffer r buf)) (fun pr' r' => pr_ok pr' /\ reader_inv mac r' /\ r_state r' <> r_state r).
Proof.
  intros Hp Hr Hb Lb Hh. pose proof (ri_len _ _ Hr) as Hl. rewrite <- Lb in Hl. pose proof (MsgHeader_read_ok buf Hb Hl) as (_ & _ & _ & _ & Hsz).
  unfold Complete. cbn [with_buffer r_state r_msgBuffer r_expected r_bytesLeft r_cursor]. destruct (r_state r) eqn:Es.
  - destruct (approve_msg_header t _) eqn:Eapp; [done|]. pose proof (approve_min _ Eapp) as Hmin. destruct (negb _); [done|].
    split; [done|]. split; [|done]. split; cbn [r_msgBuffer r_expected r_state r_cursor r_bytesLeft]; [by apply resize_ok|rewrite length_resize; lia|apply Hr|].
    rewrite length_resize, resize_header by lia. lia.
  - destruct Hr as [_ _ He Hpos]. rewrite Es in Hpos. rewrite <- Lb, <- Hh in Hpos by done.
    destruct (VerifyMsg pr buf) eqn:Ev; cbn [negb]; [|done]. pose proof (get_MacSize_ok pr Hp) as Hm.
    destruct (Nat.ltb_spec (length buf) (HeaderSize + Z.to_nat (u32 (h_size (MsgHeader_read buf) - get_MacSize pr)))) as [Hlong|_].
    { cbn. destruct (decide (mac < MacMax)); [done|]. exfalso. rewrite u32_small in Hlong by lia. lia. }
    set (d := take _ _). destruct (on_message_ok pr (r_expected r) (h_type (MsgHeader_read buf)) d Hp He) as [Ho Hoe].
    unfold on_new_message. destruct (pt_dispatchTable t !!! _) as [i|].
    + destruct (negb (o_ret _)); [done|]. destruct (negb (o_alive _)); [done|].
      split; [done|]. split; [|done]. destruct (_ <? _)%nat; split; cbn [r_msgBuffer r_expected r_state r_cursor r_bytesLeft];
        try done; try (unfold HeaderSize; lia); [apply bytes_ok_zeros|by rewrite length_replicate].
    + by destruct (on_protocol_error pr msg_type_error) as [pr' al].
Qed.

Definition round_measure (r : MsgReader) (data : list Z) : nat :=
  2 * length data + match r_state r with reading_header => 0 | reading_message => 1 end.

(** One round of the loop. *)
Lemma Read_round (pr : P) r data :
  pr_ok pr -> reader_inv mac r -> bytes_ok data -> (r_bytesLeft r <= length data)%nat ->
  exists pr1 buf, Receive pr r (take (r_bytesLeft r) data) = Some (pr1, buf) /\
    good (complete pr1 (with_buffer r buf)) (fun pr' r' =>
      pr_ok pr' /\ reader_inv mac r' /\ (round_measure r' (drop (r_bytesLeft r) data) < round_measure r data)%nat).
Proof.
  intros Hp Hr Hd Hl. assert (length (take (r_bytesLeft r) data) = r_bytesLeft r) as Lt by (rewrite length_take; lia).
  assert (bytes_ok (take (r_bytesLeft r) data)) as Ht by (by apply Forall_take). pose proof (inv_fits r Hr) as Hf.
  destruct (Decrypt_ok pr _ Hp Ht) as (Hp1 & Ld & Hdec). rewrite Receive_eq by (done || lia).
  destruct (inv_receive r (Decrypt pr (take (r_bytesLeft r) data)).2 Hr Hdec ltac:(lia)) as (B1 & B2 & B3).
  pose proof (Complete_ok (Decrypt pr (take (r_bytesLeft r) data)).1 r _ Hp1 Hr B1 B2 B3) as Hres.
  do 2 eexists. split; [done|]. destruct (complete _ _) as [[|pr' r']|]; [done| |done]. destruct Hres as (H1 & H2 & H3). split_and!; [done|done|].
  unfold round_measure. rewrite length_drop. destruct Hr as [_ _ _ Hpos]. destruct (r_state r), (r_state r'); try done; lia.
Qed.

(** The loop ends, without an access out of range. *)
Lemma Read_loop_ok fuel (pr : P) r data :
  pr_ok pr -> reader_inv mac r -> bytes_ok data -> (round_measure r data < fuel)%nat ->
  good (loop fuel pr r data) (fun pr' r' => pr_ok pr' /\ reader_ok mac r').
Proof.
  revert pr r data. induction fuel as [|fuel IH]; intros pr r data Hp Hr Hd Hf; [lia|]. cbn [Read_loop].
  destruct (Nat.leb_spec (r_bytesLeft r) (length data)) as [Hl|Hl].
  - destruct (Read_round pr r data Hp Hr Hd Hl) as (pr1 & buf & -> & Hres). cbn [mbind option_bind].
    destruct (complete pr1 (with_buffer r buf)) as [[pr' o|pr' r']|]; [done| |done]. cbn [mbind option_bind].
    destruct Hres as (Hp' & Hr' & Hm). apply IH; [done|done|by apply Forall_drop|lia].
  - destruct (Nat.ltb_spec 0 (length data)) as [H0|H0]; [|split; [done|split; [done|lia]]].
    pose proof (inv_fits r Hr) as Hfit. destruct (Decrypt_ok pr data Hp Hd) as (Hp1 & Ld & Hdec). rewrite Receive_eq by (done || lia). cbn [mbind option_bind].
    destruct (inv_receive r (Decrypt pr data).2 Hr Hdec ltac:(lia)) as (B1 & B2 & B3). split; [done|].
    split; [|cbn; lia]. pose proof (ri_pos _ _ Hr) as Hpos.
    split; cbn [r_msgBuffer r_expected r_state r_cursor r_bytesLeft]; [done|rewrite B2; apply Hr|apply Hr|].
    destruct (r_state r) eqn:Es; [lia|]. rewrite B2, B3 by done. lia.
Qed.

Lemma Read_loop_fuel f f' (pr : P) r data :
  pr_ok pr -> reader_inv mac r -> bytes_ok data -> (round_measure r data < f)%nat -> (round_measure r data < f')%nat ->
  loop f pr r data = loop f' pr r data.
Proof.
  revert f' pr r data. induction f as [|f IH]; intros f' pr r data Hp Hr Hd Hf Hf'; [lia|]. destruct f' as [|f']; [lia|]. cbn [Read_loop].
  destruct (Nat.leb_spec (r_bytesLeft r) (length data)) as [Hl|Hl]; [|done].
  destruct (Read_round pr r data Hp Hr Hd Hl) as (pr1 & buf & -> & Hres). cbn [mbind option_bind].
  destruct (complete pr1 (with_buffer r buf)) as [[pr' o|pr' r']|]; [done| |done]. cbn [mbind option_bind].
  destruct Hres as (Hp' & Hr' & Hm). apply IH; [done|done|by apply Forall_drop|lia|lia].
Qed.

Lemma Receive_app (pr : P) r a b : pr_ok pr -> bytes_ok a -> bytes_ok b -> b <> [] ->
  (r_cursor r + length (a ++ b) <= length (r_msgBuffer r))%nat ->
  Receive pr r (a ++ b) = ('(pr1, buf) ← Receive pr r a;
    Receive pr1 (mkReader (r_bytesLeft r - length a) (r_state r) buf (r_cursor r + length a) (r_expected r)) b).
Proof.
  intros Hp Ha Hb Hne Hl. pose proof Hl as Hl'. rewrite length_app in Hl'. destruct (Decrypt_ok pr a Hp Ha) as (Hp1 & La & _).
  assert (bytes_ok (a ++ b)) as Hab by (by apply Forall_app).
  rewrite !Receive_eq by (done || lia). cbn [mbind option_bind]. rewrite Receive_eq; [|done|done|cbn; rewrite length_splice by lia; lia].
  cbn [r_msgBuffer r_cursor]. pose proof (Decrypt_app pr a b Hp Hne) as E. destruct (Decrypt_ok (Decrypt pr a).1 b Hp1 Hb) as (_ & Lb & _).
  destruct (Decrypt pr a) as [pr1 x]. cbn [fst snd] in *. destruct (Decrypt pr1 b) as [pr2 y]. cbn [fst snd] in *. rewrite E. cbn [fst snd].
  rewrite <- La. rewrite splice_app by (rewrite length_app; lia). done.
Qed.

(** When reading has stopped the position in the buffer does not matter any
    more. *)
Definition view (res : ReadResult P) : (P * bool) + (P * MsgReader) :=
  match res with
  | Stopped pr r => inl (pr, match r with Some _ => true | None => false end)
  | Running pr r => inr (pr, r)
  end.

Lemma Complete_view (pr : P) r r' : r_state r' = r_state r -> r_msgBuffer r' = r_msgBuffer r -> r_expected r' = r_expected r ->
  view <$> complete pr r' = view <$> complete pr r.
Proof.
  intros E1 E2 E3. unfold Complete. rewrite E1, E2, E3. destruct (r_state r).
  - destruct (approve_msg_header t _) as [e|]; [cbn; by destruct (on_protocol_error pr e) as [? []]|].
    destruct (negb _); [cbn; by destruct (on_unexpected_msg pr _) as [? []]|done].
  - destruct (negb _); [cbn; by destruct (on_protocol_error pr _) as [? []]|]. destruct (_ <? _)%nat; [done|].
    destruct (negb (o_ret _)); [cbn; by destruct (o_alive _)|done].
Qed.

Definition continue (g : nat) (data : list Z) (res : ReadResult P) : option (ReadResult P) :=
  match res with Stopped _ _ => Some res | Running pr r => loop g pr r data end.

Lemma continue_view g data res res' : view <$> res = view <$> res' -> view <$> (res ≫= continue g data) = view <$> (res' ≫= continue g data).
Proof. destruct res as [[|]|], res' as [[|]|]; cbn; intros H; (exact H || done || by injection H as -> ->). Qed.

(** Data that does not complete a part, and then more. *)
Lemma Read_loop_short f g (pr : P) r a b :
  pr_ok pr -> reader_inv mac r -> bytes_ok a -> bytes_ok b -> (length a < r_bytesLeft r)%nat ->
  (round_measure r (a ++ b) < f)%nat -> (round_measure r b < g)%nat ->
  view <$> loop f pr r (a ++ b) = view <$> (loop f pr r a ≫= continue g b).
Proof.
  intros Hp Hr Ha Hb Hl Hf Hg. destruct f as [|f]; [lia|]. destruct g as [|g]; [lia|]. pose proof (inv_fits r Hr) as Hfit.
  assert (bytes_ok (a ++ b)) as Hab by (by apply Forall_app). unfold round_measure in Hf, Hg. rewrite length_app in Hf.
  destruct (decide (a = [])) as [->|Hne].
  { cbn [app]. cbn [Read_loop length]. rewrite (proj2 (Nat.leb_gt (r_bytesLeft r) 0)) by (cbn in Hl; lia). cbn [mbind option_bind Nat.ltb Nat.leb continue].
    f_equal. change (loop (S f) pr r b = loop (S g) pr r b). apply Read_loop_fuel; try done; unfold round_measure; cbn in Hf; lia. }
  assert (0 < length a)%nat as La by (destruct a; [done|cbn; lia]).
  cbn [Read_loop]. rewrite (proj2 (Nat.leb_gt (r_bytesLeft r) (length a))), (proj2 (Nat.ltb_lt 0 (length a))) by lia. rewrite length_app.
  destruct (decide (b = [])) as [->|Hnb].
  { rewrite app_nil_r. cbn [length]. rewrite Nat.add_0_r, (proj2 (Nat.leb_gt _ _)), (proj2 (Nat.ltb_lt _ _)) by lia.
    destruct (Receive pr r a) as [[pr1 buf]|]; [|done]. cbn [mbind option_bind continue Read_loop length r_bytesLeft].
    by rewrite (proj2 (Nat.leb_gt _ _)) by lia. }
  assert (0 < length b)%nat as Lb by (destruct b; [done|cbn; lia]).
  destruct (Nat.leb_spec (r_bytesLeft r) (length a + length b)) as [Hab'|Hab'].
  - rewrite take_app_ge, drop_app_ge by lia. set (k := (r_bytesLeft r - length a)%nat).
    assert (take k b <> []) as Hk. { intros E. apply (f_equal length) in E. rewrite length_take in E. cbn in E. lia. }
    rewrite Receive_app by (first [done|by apply Forall_take|rewrite length_app, length_take; lia]).
    rewrite (Receive_eq pr r a) by (done || lia). cbn [mbind option_bind continue Read_loop r_bytesLeft]. fold k.
    rewrite (proj2 (Nat.leb_le k (length b))) by lia. set (r1 := mkReader k _ _ _ _).
    destruct (Receive _ r1 (take k b)) as [[pr2 buf2]|] eqn:E2; [|done]. cbn [mbind option_bind].
    pose proof (Complete_view pr2 (with_buffer r1 buf2) (with_buffer r buf2) eq_refl eq_refl eq_refl) as Hv.
    destruct (complete pr2 (with_buffer r buf2)) as [res|] eqn:Er; [|by destruct (complete pr2 (with_buffer r1 buf2))]. cbn [mbind option_bind].
    destruct (complete pr2 (with_buffer r1 buf2)) as [res1|]; [|done]. cbn [mbind option_bind].
    destruct res as [p1 o1|p1 r2], res1 as [p1' o1'|p1' r2']; try discriminate; cbn in Hv; [exact Hv|]. injection Hv as <- <-. f_equal.
    assert (reader_inv mac r2 /\ pr_ok p1 /\ (round_measure r2 (drop k b) <= 2 * (length b - k) + 1)%nat) as (I1 & I2 & I3).
    { assert (take (r_bytesLeft r) (a ++ b) = a ++ take k b) as Et by (by rewrite take_app_ge by lia).
      destruct (Read_round pr r (a ++ b) Hp Hr Hab) as (q1 & bf & Q1 & Q3); [rewrite length_app; lia|].
      rewrite Et, Receive_app in Q1 by (first [done|by apply Forall_take|rewrite length_app, length_take; lia]).
      rewrite (Receive_eq pr r a) in Q1 by (done || lia). cbn [mbind option_bind] in Q1. fold k in Q1. fold r1 in Q1. rewrite E2 in Q1. injection Q1 as <- <-.
      rewrite Er in Q3. destruct Q3 as (Q4 & Q5 & _). split_and!; [done|done|]. unfold round_measure. rewrite length_drop.
      destruct (r_state r2); lia. }
    apply Read_loop_fuel; [done|done|by apply Forall_drop|lia|lia].
  - rewrite (proj2 (Nat.ltb_lt _ _)) by lia. rewrite Receive_app by (first [done|rewrite length_app; lia]).
    destruct (Receive pr r a) as [[pr1 buf]|]; [|done]. cbn [mbind option_bind continue Read_loop r_bytesLeft r_cursor r_state r_expected].
    rewrite (proj2 (Nat.leb_gt _ _)), (proj2 (Nat.ltb_lt _ _)) by lia. destruct (Receive pr1 _ b) as [[pr2 buf2]|]; [|done]. cbn [mbind option_bind fmap option_fmap option_map view].
    do 4 f_equal; lia.
Qed.

Lemma Read_loop_app f g (pr : P) r a b :
  pr_ok pr -> reader_inv mac r -> bytes_ok a -> bytes_ok b ->
  (round_measure r (a ++ b) < f)%nat -> (2 * length b + 1 < g)%nat ->
  view <$> loop f pr r (a ++ b) = view <$> (loop f pr r a ≫= continue g b).
Proof.
  revert pr r a. induction f as [|f IH]; intros pr r a Hp Hr Ha Hb Hf Hg; [lia|].
  destruct (Nat.leb_spec (r_bytesLeft r) (length a)) as [Hl|Hl].
  2: { apply Read_loop_short; try done. unfold round_measure. destruct (r_state r); lia. }
  unfold round_measure in Hf. rewrite length_app in Hf. cbn [Read_loop].
  rewrite length_app, (proj2 (Nat.leb_le (r_bytesLeft r) (length a + length b))), (proj2 (Nat.leb_le (r_bytesLeft r) (length a))) by lia.
  rewrite take_app_le, drop_app_le by lia.
  destruct (Read_round pr r a Hp Hr Ha Hl) as (pr1 & buf & -> & Hres). cbn [mbind option_bind].
  destruct (complete pr1 (with_buffer r buf)) as [[pr' o|pr' r']|]; [done| |done]. cbn [mbind option_bind].
  destruct Hres as (Hp' & Hr' & Hm). unfold round_measure in Hm. rewrite length_drop in Hm.
  apply IH; try done; [by apply Forall_drop|]. unfold round_measure. rewrite length_app, length_drop. lia.
Qed.

Lemma new_data_ok (pr : P) r status data :
  pr_ok pr -> reader_ok mac r -> bytes_ok data -> good (new_data pr r status data) (fun pr' r' => pr_ok pr' /\ reader_ok mac r').
Proof.
  intros Hp [Hr H0] Hd. unfold new_data_from_stream. destruct (negb _); [done|].
  destruct (Nat.eqb_spec (length data) 0) as [E|E]; [done|].
  apply Read_loop_ok; try done. unfold round_measure. destruct (r_state r); lia.
Qed.

Lemma new_data_app (pr : P) r a b :
  pr_ok pr -> reader_ok mac r -> bytes_ok a -> bytes_ok b ->
  view <$> new_data pr r 0 (a ++ b)
  = view <$> (res ← new_data pr r 0 a; match res with Stopped _ _ => Some res | Running pr' r' => new_data pr' r' 0 b end).
Proof.
  intros Hp [Hr H0] Ha Hb. unfold new_data_from_stream. cbn [Z.eqb negb]. rewrite length_app.
  destruct (Nat.eqb_spec (length a) 0) as [Ea|Ea]; [apply length_zero_iff_nil in Ea as ->; done|].
  destruct (Nat.eqb_spec (length a + length b) 0) as [|_]; [lia|].
  rewrite (Read_loop_app _ (2 * length b + 2)) by (try done; unfold round_measure; rewrite ?length_app; destruct (r_state r); lia).
  rewrite (Read_loop_fuel (2 * (length a + length b) + 2) (2 * length a + 2) pr r a) by (try done; unfold round_measure; destruct (r_state r); lia).
  pose proof (Read_loop_ok (2 * length a + 2) pr r a Hp Hr Ha) as Hres. destruct (loop (2 * length a + 2) pr r a) as [[|pr' r']|]; [done| |done].
  cbn [mbind option_bind continue]. destruct Hres as (_ & _ & Hpos); [unfold round_measure; destruct (r_state r); lia|].
  destruct (Nat.eqb_spec (length b) 0) as [Eb|Eb]; [|done]. apply length_zero_iff_nil in Eb as ->. cbn [length Nat.mul Nat.add Read_loop].
  by rewrite (proj2 (Nat.leb_gt _ _)) by lia.
Qed.

Lemma Feed_concat (pr : P) r packets :
  pr_ok pr -> reader_ok mac r -> Forall bytes_ok packets ->
  view <$> Feed t defaultSize pr r packets = view <$> new_data pr r 0 (concat packets).
Proof.
  intros Hp Hr Hd. revert pr r Hp Hr. induction Hd as [|a packets Ha Hd IH]; intros pr r Hp Hr; [done|]. cbn [concat Feed].
  rewrite new_data_app by (done || by apply Forall_concat). pose proof (new_data_ok pr r 0 a Hp Hr Ha) as Hres.
  destruct (new_data pr r 0 a) as [[pr' o|pr' r']|]; [done| |done]. cbn [mbind option_bind]. destruct Hres as [Hp' Hr']. by apply IH.
Qed.
End reader_facts.

Section reader_theorems.
Context {P : Type} `{!IProtocol P, !ProtocolLaws P} (t : Protocol_t) (defaultSize : nat) (Hdef : (HeaderSize <= defaultSize)%nat).

(** C33: A reader never leaves its buffer and never hangs. For data of any size, a
    reader in order (its cursor and what it waits for inside its buffer, which
    holds the announced message) either stops, because the protocol or a
    handler says so, or runs on and is in order again; every access to the
    buffer is in range and the loop ends within two rounds per byte. The
    condition is that the dispatch table admits no message that is shorter than
    the code that authenticates it. *)
Theorem reader_safe (pr : P) r status data :
  table_ok MacMax t -> pr_ok pr -> reader_ok MacMax r -> bytes_ok data ->
  exists res, new_data_from_stream t defaultSize pr r status data = Some res /\
    match res with Stopped _ _ => True | Running pr' r' => pr_ok pr' /\ reader_ok MacMax r' end.
Proof.
  intros Ht Hp Hr Hd. pose proof (new_data_ok t defaultSize Hdef MacMax Ht pr r status data Hp Hr Hd) as H.
  destruct (new_data_from_stream _ _ _ _ _ _) as [res|]; [by exists res|cbn in H; lia].
Qed.

(** C28: The packets of a stream do not matter. Feeding a reader the packets of a
    stream one after another, until it stops, has the same outcome as feeding
    it the whole stream at once: the same messages are handled in the same order
    with the same result, the protocol ends in the same state, and if the reader
    runs on it is in the same state - also when the packets cut headers and
    messages apart and when a handler changes the cipher or the expected types
    in between, and whatever the dispatch table admits. *)
Theorem reader_fragmentation (pr : P) r packets :
  table_ok 0 t -> pr_ok pr -> reader_ok 0 r -> Forall bytes_ok packets ->
  view <$> Feed t defaultSize pr r packets = view <$> new_data_from_stream t defaultSize pr r 0 (concat packets).
Proof. intros Ht. by apply (Feed_concat t defaultSize Hdef 0 Ht). Qed.
End reader_theorems.

(** ** A small instance

    Messages in the clear, that are kept. *)
Module Demo.
#[export] Instance demo_protocol : IProtocol (list (Z * list Z)) := {|
  Decrypt pr data := (pr, data);
  get_MacSize _ := 0;
  VerifyMsg _ _ := true;
  on_message pr e ty d := mkOutcome (pr ++ [(ty, d)]) true true e;
  on_protocol_error pr _ := (pr, false);
  on_unexpected_msg pr _ := (pr, false);
  on_connection_error pr _ := (pr, false)
|}.

#[export] Instance demo_laws : ProtocolLaws (list (Z * list Z)).
Proof. refine (Build_ProtocolLaws (list (Z * list Z)) _ (fun _ => True) _ _ 0 _ _); cbn; intros; (done || lia). Defined.

Definition demo_table : Protocol_t := mkProtocol 1 2 3 (replicate 4 (Some (mkItem 0 1000))).

Lemma demo_table_ok : table_ok 0 demo_table.
Proof. intros ty i Hi. do 4 (destruct ty as [|ty]; [injection Hi as <-; cbn; lia|]). by destruct ty. Qed.

Lemma demo_reader_ok : reader_ok 0 (MsgReader_new 16).
Proof.
  split; [|cbn; unfold HeaderSize; lia]. split; cbn [MsgReader_new r_msgBuffer r_expected r_state r_cursor r_bytesLeft];
    [apply bytes_ok_zeros|cbn; unfold HeaderSize; lia|done|unfold HeaderSize; lia].
Qed.

(** Two messages. *)
Definition demo_stream : list Z := [1; 2; 3; 2; 3; 0; 0; 0; 10; 11; 12; 1; 2; 3; 0; 0; 0; 0; 0].

Lemma demo_stream_ok : bytes_ok demo_stream.
Proof. apply (bool_decide_unpack _). vm_compute. done. Qed.
End Demo.
Import Demo.

Lemma reader_safe_witness :
  exists res, new_data_from_stream demo_table 16 [] (MsgReader_new 16) 0 demo_stream = Some res /\
    match res with Stopped _ _ => True | Running pr' r' => pr_ok pr' /\ reader_ok MacMax r' end.
Proof. exact (reader_safe demo_table 16 ltac:(unfold HeaderSize; lia) [] (MsgReader_new 16) 0 demo_stream demo_table_ok I demo_reader_ok demo_stream_ok). Defined.

Lemma reader_fragmentation_witness :
  view <$> Feed demo_table 16 [] (MsgReader_new 16) [take 5 demo_stream; drop 5 demo_stream]
  = view <$> new_data_from_stream demo_table 16 [] (MsgReader_new 16) 0 demo_stream.
Proof.
  apply (reader_fragmentation demo_table 16 ltac:(unfold HeaderSize; lia) [] (MsgReader_new 16) [take 5 demo_stream; drop 5 demo_stream]
    demo_table_ok I demo_reader_ok). apply (bool_decide_unpack _). vm_compute. done.
Defined.
