(* ===== verification/MsgWriter.v ===== *)
(** Messages on a connection, the sending side: [io::FragmentWriter] of
    [utility/io/fragment_writer.h] and [.cpp], and [MsgSerializeOstream] of
    [p2p/msg_serializer.h] and [.cpp].

    The fragments of messages share blocks of memory with each other: a header
    is written again when the size of its message is known, and later messages are
    authenticated and encrypted where they are, after their fragments have been
    handed out.  So blocks are memory with addresses, a fragment is a part
    of a block, and pointers are a block and an offset.  An access out of a
    block is [None].  What is serialized arrives as the sequence of [write]
    calls of the serializer. *)

From stdpp Require Import gmap list.
From S2P Require Import Prelude UintBig EccData Cipher Framing.

(** ** Memory *)
Abbreviation heap := (gmap nat (list Z)).

(** A [SharedBuffer]. *)
Record Fragment := mkFragment { f_block : nat; f_offset : nat; f_size : nat }.

Definition heap_write (h : heap) (block offset : nat) (data : list Z) : option heap :=
  b ← h !! block; b ← buf_write b offset data; Some (<[block := b]> h).

Definition frag_bytes (h : heap) (f : Fragment) : list Z :=
  match h !! f_block f with Some b => take (f_size f) (drop (f_offset f) b) | None => [] end.

(** ** [io::FragmentWriter] *)

(** [fw_fragment] is the current block; the pointers into it are offsets. *)
Record FragmentWriter := mkFW {
  fw_heap : heap;
  fw_next : nat;
  fw_fragment : option nat;
  fw_msgBase : nat;
  fw_cursor : nat;
  fw_remaining : nat
}.

Definition FragmentWriter_new (h : heap) (next : nat) : FragmentWriter := mkFW h next None 0 0 0.

Definition pointer : Type := option (nat * nat).
Definition fw_pointer (w : FragmentWriter) : pointer := (fun b => (b, fw_cursor w)) <$> fw_fragment w.

Section writer.
Context (fragmentSize : nat).

(** [call]: the fragment that the callback gets. *)
Definition call (w : FragmentWriter) : list Fragment :=
  if (fw_msgBase w =? fw_cursor w)%nat then []
  else match fw_fragment w with Some b => [mkFragment b (fw_msgBase w) (fw_cursor w - fw_msgBase w)] | None => [] end.

Definition new_fragment (w : FragmentWriter) : FragmentWriter * list Fragment :=
  (mkFW (<[fw_next w := replicate fragmentSize 0]> (fw_heap w)) (S (fw_next w)) (Some (fw_next w)) 0 0 fragmentSize, call w).

(** [memcpy] to the cursor, which moves on. *)
Definition put (w : FragmentWriter) (data : list Z) : option FragmentWriter :=
  match fw_fragment w with
  | None => if (length data =? 0)%nat then Some w else None
  | Some b =>
      h ← heap_write (fw_heap w) b (fw_cursor w) data;
      Some (mkFW h (fw_next w) (fw_fragment w) (fw_msgBase w) (fw_cursor w + length data) (fw_remaining w - length data))
  end.

(** The loop of [write]. *)
Fixpoint Write_loop (fuel : nat) (w : FragmentWriter) (data : list Z) (whr : pointer) : option (FragmentWriter * list Fragment * pointer) :=
  if (length data =? 0)%nat then Some (w, [], whr)
  else
    match fuel with
    | O => None
    | S fuel =>
        let '(w, out) := new_fragment w in
        let n := if (fw_remaining w <? length data)%nat then fw_remaining w else length data in
        let whr := match whr with None => fw_pointer w | Some _ => whr end in
        w ← put w (take n data);
        '(w, out', whr) ← Write_loop fuel w (drop n data) whr;
        Some (w, out ++ out', whr)
    end.

(** [write]: the fragments that the callback gets, and where the data begins. *)
Definition FW_write (w : FragmentWriter) (data : list Z) : option (FragmentWriter * list Fragment * pointer) :=
  if (length data =? 0)%nat then Some (w, [], fw_pointer w)
  else if (length data <=? fw_remaining w)%nat then
    w' ← put w data; Some (w', [], fw_pointer w)
  else if (HeaderSize <=? fw_remaining w)%nat then
    w' ← put w (take (fw_remaining w) data);
    Write_loop (length data) w' (drop (fw_remaining w) data) (fw_pointer w)
  else Write_loop (length data) w data None.

(** [finalize]. *)
Definition FW_finalize (w : FragmentWriter) : FragmentWriter * list Fragment :=
  (mkFW (fw_heap w) (fw_next w) (fw_fragment w) (fw_cursor w) (fw_cursor w) (fw_remaining w), call w).

(** ** [MsgSerializeOstream] *)
Record Ostream := mkOs {
  os_writer : FragmentWriter;
  os_fragments : list Fragment;
  os_currentMsgSize : nat;
  os_currentHeaderPtr : pointer;
  os_currentHeader : MsgHeader
}.

Definition Ostream_new (h : heap) (next : nat) (defaultHeader : MsgHeader) : Ostream :=
  mkOs (FragmentWriter_new h next) [] 0 None defaultHeader.

(** The callback of the constructor. *)
Definition collect (os : Ostream) (w : FragmentWriter) (out : list Fragment) : Ostream :=
  mkOs w (os_fragments os ++ out) (os_currentMsgSize os + sum_list_with f_size out) (os_currentHeaderPtr os) (os_currentHeader os).

Definition set_type (h : MsgHeader) (ty : Z) : MsgHeader := mkHeader (h_V0 h) (h_V1 h) (h_V2 h) ty (h_size h).
Definition set_size (h : MsgHeader) (sz : Z) : MsgHeader := mkHeader (h_V0 h) (h_V1 h) (h_V2 h) (h_type h) sz.

Definition new_message (os : Ostream) (ty : Z) : option Ostream :=
  if negb (os_currentMsgSize os =? 0)%nat then None
  else
    match os_currentHeaderPtr os with
    | Some _ => None
    | None =>
        let header := set_type (os_currentHeader os) ty in
        '(w, out, p) ← FW_write (os_writer os) (MsgHeader_write header);
        let os := collect os w out in
        Some (mkOs (os_writer os) (os_fragments os) (os_currentMsgSize os) p header)
    end.

Definition os_write (os : Ostream) (data : list Z) : option Ostream :=
  match os_currentHeaderPtr os with
  | None => None
  | Some _ => '(w, out, _) ← FW_write (os_writer os) data; Some (collect os w out)
  end.

(** [finalize]: the fragments of the message. *)
Definition finalize (os : Ostream) (externalTailSize : Z) : option (Ostream * list Fragment) :=
  match os_currentHeaderPtr os with
  | None => None
  | Some (b, o) =>
      let '(w, out) := FW_finalize (os_writer os) in
      let os := collect os w out in
      if (os_currentMsgSize os <? HeaderSize)%nat then None
      else
        let n := Z.of_nat (os_currentMsgSize os - HeaderSize) in
        if 0xFFFFFFFF - u32 n <? externalTailSize then None
        else
          let header := set_size (os_currentHeader os) (u32 (n + externalTailSize)) in
          h ← heap_write (fw_heap w) b o (MsgHeader_write header);
          let w := mkFW h (fw_next w) (fw_fragment w) (fw_msgBase w) (fw_cursor w) (fw_remaining w) in
          Some (mkOs w [] 0 None header, os_fragments os)
  end.

(** All the [write] calls of the serializer. *)
Fixpoint os_writes (os : Ostream) (chunks : list (list Z)) : option Ostream :=
  match chunks with
  | [] => Some os
  | d :: chunks => os ← os_write os d; os_writes os chunks
  end.
End writer.

(** * Facts *)

Lemma buf_write_splice buf o d : (o + length d <= length buf)%nat -> buf_write buf o d = Some (splice buf o d).
Proof. intros H. unfold buf_write. by rewrite (proj2 (Nat.leb_le _ _)). Qed.

(** Bytes in front of, inside of and behind a write. *)
Lemma splice_before buf c d o n : (o + n <= c)%nat -> (c + length d <= length buf)%nat -> take n (drop o (splice buf c d)) = take n (drop o buf).
Proof.
  intros H1 H2. unfold splice. rewrite !take_drop_commute. f_equal. rewrite take_app_le by (rewrite length_take; lia).
  by rewrite take_take, Nat.min_l by lia.
Qed.

Lemma splice_extend buf c d o : (o <= c)%nat -> (c + length d <= length buf)%nat ->
  take (c + length d - o) (drop o (splice buf c d)) = take (c - o) (drop o buf) ++ d.
Proof.
  intros H1 H2. unfold splice. rewrite drop_app_le by (rewrite length_take; lia).
  assert (drop o (take c buf) = take (c - o) (drop o buf)) as E. { rewrite take_drop_commute. do 2 f_equal. lia. }
  rewrite E. assert (length (take (c - o) (drop o buf)) = (c - o)%nat) as L by (rewrite length_take, length_drop; lia).
  rewrite take_app_ge by lia. rewrite L. replace (c + length d - o - (c - o))%nat with (length d) by lia. by rewrite take_app_length.
Qed.

Section writer_facts.
Context (fragmentSize : nat) (Hsize : (HeaderSize < fragmentSize)%nat).

Record fw_ok (w : FragmentWriter) : Prop := {
  fo_fresh b : (fw_next w <= b)%nat -> fw_heap w !! b = None;
  fo_cur : match fw_fragment w with
           | None => fw_msgBase w = 0%nat /\ fw_cursor w = 0%nat /\ fw_remaining w = 0%nat
           | Some b => (b < fw_next w)%nat /\ (fw_msgBase w <= fw_cursor w)%nat /\ (fw_cursor w + fw_remaining w = fragmentSize)%nat /\
               exists blk, fw_heap w !! b = Some blk /\ length blk = fragmentSize
           end
}.

(** What has been written of the current message in the current block. *)
Definition pend (w : FragmentWriter) : list Z :=
  match fw_fragment w with
  | Some b => frag_bytes (fw_heap w) (mkFragment b (fw_msgBase w) (fw_cursor w - fw_msgBase w))
  | None => []
  end.

Lemma length_pend w : fw_ok w -> length (pend w) = (fw_cursor w - fw_msgBase w)%nat.
Proof.
  intros [_ Hc]. unfold pend, frag_bytes. destruct (fw_fragment w) as [b|]; cbn; [|lia].
  destruct Hc as (_ & H1 & H2 & blk & -> & Hl). rewrite length_take, length_drop. lia.
Qed.

(** A fragment that later writes leave alone. *)
Definition settled (w : FragmentWriter) (f : Fragment) : Prop :=
  (f_block f < fw_next w)%nat /\ (fw_fragment w = Some (f_block f) -> (f_offset f + f_size f <= fw_msgBase w)%nat).
Definition valid (h : heap) (f : Fragment) : Prop :=
  (0 < f_size f)%nat /\ exists blk, h !! f_block f = Some blk /\ (f_offset f + f_size f <= length blk)%nat.

(** What writing [data] does, with the fragments [out] that become complete. *)
Record advance (w : FragmentWriter) (out : list Fragment) (data : list Z) (w' : FragmentWriter) : Prop := {
  ad_ok : fw_ok w';
  ad_pend : pend w' <> [];
  ad_bytes : concat (frag_bytes (fw_heap w') <$> out) ++ pend w' = pend w ++ data;
  ad_keep f : settled w f -> settled w' f /\ frag_bytes (fw_heap w') f = frag_bytes (fw_heap w) f /\ (valid (fw_heap w) f -> valid (fw_heap w') f);
  ad_out : Forall (fun f => settled w' f /\ valid (fw_heap w') f) out;
  ad_blocks : exists k b b', fw_next w' = (fw_next w + k)%nat /\ fw_fragment w = Some b /\ fw_fragment w' = Some b' /\
                (f_block <$> out) ++ [b'] = b :: seq (fw_next w) k;
  ad_first : match out with
             | [] => fw_msgBase w' = fw_msgBase w
             | f :: _ => f_offset f = fw_msgBase w /\ (length (pend w) <= f_size f)%nat
             end
}.

Lemma advance_refl w : fw_ok w -> pend w <> [] -> advance w [] [] w.
Proof.
  intros Hw Hp. split; try done.
  - cbn. by rewrite app_nil_r.
  - unfold pend in Hp. destruct (fw_fragment w) as [b|] eqn:E; [|done]. exists 0%nat, b, b. by rewrite Nat.add_0_r.
Qed.

Lemma concat_keep (h h' : heap) out : Forall (fun f => frag_bytes h' f = frag_bytes h f) out -> concat (frag_bytes h' <$> out) = concat (frag_bytes h <$> out).
Proof. induction 1 as [|f out E _ IH]; [done|]. cbn. by rewrite E, IH. Qed.

Lemma advance_trans w o1 d1 w1 o2 d2 w2 : advance w o1 d1 w1 -> advance w1 o2 d2 w2 -> advance w (o1 ++ o2) (d1 ++ d2) w2.
Proof.
  intros [A1 A2 A3 A4 A5 A6 A7] [B1 B2 B3 B4 B5 B6 B7].
  assert (concat (frag_bytes (fw_heap w2) <$> o1) = concat (frag_bytes (fw_heap w1) <$> o1)) as Ek.
  { apply concat_keep. eapply Forall_impl; [exact A5|]. cbn. intros f [Hs _]. by apply B4. }
  split; try done.
  - by rewrite fmap_app, concat_app, Ek, <- app_assoc, B3, app_assoc, A3, app_assoc.
  - intros f Hf. destruct (A4 f Hf) as (H1 & H2 & H3). destruct (B4 f H1) as (H4 & H5 & H6). split_and!; [done|congruence|auto].
  - apply Forall_app. split; [|done]. eapply Forall_impl; [exact A5|]. cbn. intros f [Hs Hv]. destruct (B4 f Hs) as (H4 & H5 & H6). auto.
  - destruct A6 as (k1 & b & b1 & N1 & F1 & F1' & K1). destruct B6 as (k2 & b1' & b2 & N2 & F2 & F2' & K2).
    rewrite F1' in F2. injection F2 as <-. exists (k1 + k2)%nat, b, b2. split_and!; [lia|done|done|].
    rewrite fmap_app, <- app_assoc, K2, N1, seq_app. change (b1 :: seq (fw_next w + k1) k2) with ([b1] ++ seq (fw_next w + k1) k2).
    by rewrite app_assoc, K1.
  - destruct o1 as [|f o1]; [|done]. cbn [app]. cbn in A3. destruct o2 as [|f o2]; [congruence|]. destruct B7 as [-> H]. split; [done|].
    rewrite A3, length_app in H. lia.
Qed.

(** Writing into the current block. *)
Lemma put_ok w b data : fw_ok w -> fw_fragment w = Some b -> (length data <= fw_remaining w)%nat -> pend w ++ data <> [] ->
  exists w', put w data = Some w' /\ advance w [] data w' /\ fw_remaining w' = (fw_remaining w - length data)%nat /\ fw_fragment w' = Some b /\
    fw_msgBase w' = fw_msgBase w.
Proof.
  intros Hw Ef Hl Hne. pose proof Hw as [Hfr Hc]. rewrite Ef in Hc. destruct Hc as (Hb & H1 & H2 & blk & Hblk & Lblk).
  unfold put. rewrite Ef. unfold heap_write. rewrite Hblk. cbn [mbind option_bind]. rewrite buf_write_splice by lia. cbn [mbind option_bind].
  set (h' := <[b := splice blk (fw_cursor w) data]> (fw_heap w)). eexists. split; [done|].
  assert (h' !! b = Some (splice blk (fw_cursor w) data)) as Hb' by apply lookup_insert_eq.
  assert (pend (mkFW h' (fw_next w) (Some b) (fw_msgBase w) (fw_cursor w + length data) (fw_remaining w - length data)) = pend w ++ data) as Ep.
  { unfold pend. cbn [fw_fragment fw_msgBase fw_cursor fw_heap]. rewrite Ef. unfold frag_bytes. cbn [f_block f_offset f_size]. rewrite Hb', Hblk.
    apply splice_extend; lia. }
  split; [|done]. split; cbn [fw_heap fw_next fw_fragment fw_msgBase fw_cursor fw_remaining]; try done.
  - split; cbn [fw_heap fw_next fw_fragment fw_msgBase fw_cursor fw_remaining].
    + intros b' Hb''. unfold h'. rewrite lookup_insert_ne by lia. by apply Hfr.
    + split_and!; [done|lia|lia|]. eexists. split; [done|]. rewrite length_splice; lia.
  - by rewrite Ep.
  - intros f [Hf1 Hf2]. split; [split; cbn; [done|]; intros E; apply Hf2; congruence|]. unfold frag_bytes, valid.
    cbn [fw_heap]. destruct (decide (f_block f = b)) as [E|E].
    + rewrite E, Hb', Hblk. specialize (Hf2 ltac:(congruence)). split.
      * apply splice_before; lia.
      * intros (Hp & ? & [= <-] & Hlen). split; [done|]. eexists. split; [done|]. rewrite length_splice; lia.
    + unfold h'. by rewrite lookup_insert_ne by done.
  - exists 0%nat, b, b. by rewrite Nat.add_0_r.
Qed.

(** A new block, with something in it. *)
Lemma new_block_ok w data : fw_ok w -> pend w <> [] -> data <> [] -> (length data <= fragmentSize)%nat ->
  let '(w1, out) := new_fragment fragmentSize w in
  exists w', put w1 data = Some w' /\ advance w out data w'.
Proof.
  intros Hw Hp Hd Hl. unfold new_fragment. pose proof Hw as [Hfr Hc]. pose proof (length_pend w Hw) as Lp.
  destruct (fw_fragment w) as [b|] eqn:Ef; [|unfold pend in Hp; by rewrite Ef in Hp]. destruct Hc as (Hb & H1 & H2 & blk & Hblk & Lblk).
  assert (fw_msgBase w <> fw_cursor w) as Hne. { intros E. apply Hp, length_zero_iff_nil. lia. }
  unfold call. rewrite (proj2 (Nat.eqb_neq _ _)), Ef by done. set (f0 := mkFragment b (fw_msgBase w) (fw_cursor w - fw_msgBase w)).
  set (w1 := mkFW _ _ _ _ _ _). assert (forall f, (f_block f < fw_next w)%nat -> frag_bytes (fw_heap w1) f = frag_bytes (fw_heap w) f /\
    (valid (fw_heap w) f -> valid (fw_heap w1) f)) as Hold.
  { intros f Hf. unfold frag_bytes, valid. cbn [w1 fw_heap]. by rewrite lookup_insert_ne by lia. }
  assert (fw_ok w1) as Hw1.
  { split; cbn [w1 fw_heap fw_next fw_fragment fw_msgBase fw_cursor fw_remaining].
    - intros b' Hb'. rewrite lookup_insert_ne by lia. apply Hfr. lia.
    - split_and!; [lia|done|lia|]. eexists. split; [apply lookup_insert_eq|apply length_replicate]. }
  assert (pend w1 = []) as Ep1 by (apply length_zero_iff_nil; by rewrite length_pend).
  destruct (put_ok w1 (fw_next w) data Hw1 eq_refl Hl) as (w' & E & [A1 A2 A3 A4 A5 A6 A7] & _ & Ef' & Eb'); [by rewrite Ep1|].
  exists w'. split; [done|]. rewrite Ep1 in A3. cbn [fmap list_fmap concat app] in A3.
  assert (forall f, settled w f \/ f = f0 -> settled w1 f) as Hset.
  { intros f Hf. split; cbn [w1 fw_next fw_fragment fw_msgBase].
    - destruct Hf as [[Hf _]| ->]; cbn; lia.
    - intros [= E']. destruct Hf as [[Hf _]| ->]; cbn in *; lia. }
  assert (settled w1 f0) as Hf0 by (apply Hset; by right). destruct (A4 f0 Hf0) as (S0 & B0 & V0).
  assert (f_block f0 < fw_next w)%nat as Hb0 by (cbn; lia).
  split; [done|done| | | | |].
  - cbn [fmap list_fmap concat]. rewrite A3, app_nil_r, B0. f_equal. destruct (Hold f0 Hb0) as [-> _]. unfold pend. by rewrite Ef.
  - intros f Hf. destruct (A4 f (Hset f (or_introl Hf))) as (S1 & B1 & V1). destruct (Hold f (proj1 Hf)) as [O1 O2]. split_and!; [done|congruence|auto].
  - constructor; [|done]. split; [done|]. apply V0, (Hold f0 Hb0). split; cbn [f0 f_size f_block f_offset]; [lia|]. exists blk. split; [done|lia].
  - destruct A6 as (k & ? & b' & N & [= <-] & F & K). cbn in K. exists (S k), b, b'. cbn [w1 fw_next] in N. rewrite Ef' in F. injection F as <-.
    split_and!; [lia|done|done|]. cbn. injection K as K. destruct k; [done|discriminate].
  - split; [done|]. by rewrite Lp.
Qed.

Lemma Write_loop_ok fuel w data whr : fw_ok w -> pend w <> [] -> (length data <= fuel)%nat ->
  exists w' out whr', Write_loop fragmentSize fuel w data whr = Some (w', out, whr') /\ advance w out data w'.
Proof.
  revert w data whr. induction fuel as [|fuel IH]; intros w data whr Hw Hp Hl.
  - destruct data; [|cbn in Hl; lia]. cbn. do 3 eexists. split; [done|by apply advance_refl].
  - cbn [Write_loop]. destruct (Nat.eqb_spec (length data) 0) as [E|E].
    { apply length_zero_iff_nil in E as ->. do 3 eexists. split; [done|by apply advance_refl]. }
    set (n := Nat.min fragmentSize (length data)). assert (0 < n <= length data)%nat as Hn by lia.
    pose proof (new_block_ok w (take n data) Hw Hp) as Hb. unfold new_fragment in *. cbn [fw_remaining].
    replace (if (fragmentSize <? length data)%nat then fragmentSize else length data) with n by (destruct (Nat.ltb_spec fragmentSize (length data)); lia).
    destruct Hb as (w1 & -> & Ha1).
    { intros Ez. apply (f_equal length) in Ez. rewrite length_take in Ez. cbn in Ez. lia. }
    { rewrite length_take. lia. }
    cbn [mbind option_bind]. set (q := match whr with Some _ => _ | None => _ end).
    destruct (IH w1 (drop n data) q) as (w' & out & whr' & -> & Ha2); [apply Ha1|apply Ha1|rewrite length_drop; lia|].
    cbn [mbind option_bind]. do 3 eexists. split; [done|]. rewrite <- (take_drop n data) at 1. by eapply advance_trans.
Qed.

(** [write] inside of a message. *)
Lemma FW_write_ok w data : fw_ok w -> pend w <> [] ->
  exists w' out p, FW_write fragmentSize w data = Some (w', out, p) /\ advance w out data w'.
Proof.
  intros Hw Hp. unfold FW_write. destruct (Nat.eqb_spec (length data) 0) as [E|E].
  { apply length_zero_iff_nil in E as ->. do 3 eexists. split; [done|by apply advance_refl]. }
  destruct (fw_fragment w) as [b|] eqn:Ef; [|unfold pend in Hp; by rewrite Ef in Hp].
  assert (forall d, pend w ++ d <> []) as Hne by (intros d Ez; by apply app_nil in Ez as [Ez _]).
  destruct (Nat.leb_spec (length data) (fw_remaining w)) as [Hfit|Hfit].
  { destruct (put_ok w b data Hw Ef Hfit (Hne _)) as (w' & -> & Ha & _). do 3 eexists. by split. }
  destruct (Nat.leb_spec HeaderSize (fw_remaining w)) as [Hh|Hh].
  - assert (length (take (fw_remaining w) data) = fw_remaining w) as Lt by (rewrite length_take; lia).
    destruct (put_ok w b (take (fw_remaining w) data) Hw Ef ltac:(lia) (Hne _)) as (w1 & -> & Ha1 & _). cbn [mbind option_bind].
    destruct (Write_loop_ok (length data) w1 (drop (fw_remaining w) data) (fw_pointer w)) as (w' & out & p & -> & Ha2);
      [apply Ha1|apply Ha1|rewrite length_drop; lia|].
    do 3 eexists. split; [done|]. rewrite <- (take_drop (fw_remaining w) data) at 1. change out with ([] ++ out). by eapply advance_trans.
  - destruct (Write_loop_ok (length data) w data None Hw Hp) as (w' & out & p & -> & Ha); [lia|]. do 3 eexists. by split.
Qed.

(** [write] of a header in front of a message: it stays in one piece, and the
    pointer is where it is. *)
Lemma FW_write_header w d : fw_ok w -> pend w = [] -> length d = HeaderSize ->
  exists w' b, FW_write fragmentSize w d = Some (w', [], Some (b, fw_msgBase w')) /\ fw_ok w' /\ fw_fragment w' = Some b /\ pend w' = d /\
    (forall f, settled w f -> settled w' f /\ frag_bytes (fw_heap w') f = frag_bytes (fw_heap w) f /\ (valid (fw_heap w) f -> valid (fw_heap w') f)).
Proof.
  intros Hw Hp Hd. unfold FW_write. rewrite Hd. change (HeaderSize =? 0)%nat with false. cbv iota.
  assert (d <> []) as Hne by (intros ->; discriminate). pose proof (length_pend w Hw) as Lp. rewrite Hp in Lp. cbn in Lp.
  destruct (Nat.leb_spec HeaderSize (fw_remaining w)) as [Hfit|Hfit].
  - pose proof Hw as [_ Hc]. destruct (fw_fragment w) as [b|] eqn:Ef; [|unfold HeaderSize in Hfit; lia].
    destruct (put_ok w b d Hw Ef ltac:(lia)) as (w' & -> & Ha & _ & Ef' & Eb); [by rewrite Hp|]. cbn [mbind option_bind]. exists w', b.
    assert (fw_pointer w = Some (b, fw_msgBase w')) as -> by (unfold fw_pointer; rewrite Ef, Eb; cbn; do 2 f_equal; lia).
    pose proof (ad_bytes _ _ _ _ Ha) as Hb. rewrite Hp in Hb. split_and!; [done|apply Ha|done|done|apply Ha].
  - unfold HeaderSize at 1. cbn [Write_loop]. rewrite Hd. change (HeaderSize =? 0)%nat with false. cbv iota. unfold new_fragment. cbn [fw_remaining].
    rewrite (proj2 (Nat.ltb_ge fragmentSize HeaderSize)) by lia. rewrite <- Hd, firstn_all, skipn_all.
    unfold call. pose proof Hw as [Hfr Hc]. assert (fw_msgBase w = fw_cursor w) as Ebc.
    { destruct (fw_fragment w); lia. }
    rewrite (proj2 (Nat.eqb_eq _ _) Ebc). set (w1 := mkFW _ _ _ _ _ _). assert (fw_ok w1) as Hw1.
    { split; cbn [w1 fw_heap fw_next fw_fragment fw_msgBase fw_cursor fw_remaining].
      - intros b' Hb'. rewrite lookup_insert_ne by lia. apply Hfr. lia.
      - split_and!; [lia|done|lia|]. eexists. split; [apply lookup_insert_eq|apply length_replicate]. }
    assert (pend w1 = []) as Ep1 by (apply length_zero_iff_nil; by rewrite length_pend).
    destruct (put_ok w1 (fw_next w) d Hw1 eq_refl) as (w' & -> & Ha & _ & Ef' & Eb); [cbn; lia|by rewrite Ep1|].
    cbn [mbind option_bind Write_loop]. exists w', (fw_next w). rewrite Eb. split; [done|]. pose proof (ad_bytes _ _ _ _ Ha) as Hb. rewrite Ep1 in Hb.
    split_and!; [apply Ha|done|done|]. intros f [Hf1 Hf2]. destruct (ad_keep _ _ _ _ Ha f) as (K1 & K2 & K3).
    { split; cbn; [lia|]. intros [= E]. lia. }
    assert (fw_heap w1 !! f_block f = fw_heap w !! f_block f) as El by (cbn; by rewrite lookup_insert_ne by lia).
    unfold frag_bytes, valid in *. rewrite El in K2, K3. done.
Qed.
End writer_facts.

(** ** Writing into fragments *)

(** Fragments that have no byte in common. *)
Definition apart (f g : Fragment) : Prop :=
  f_block f <> f_block g \/ (f_offset f + f_size f <= f_offset g)%nat \/ (f_offset g + f_size g <= f_offset f)%nat.

(** The same blocks, with other bytes. *)
Definition same_shape (h h' : heap) : Prop := forall b, length <$> h' !! b = length <$> h !! b.

#[export] Instance same_shape_preorder : PreOrder same_shape.
Proof. split; [by intros h b|intros h1 h2 h3 H1 H2 b; by rewrite H2, H1]. Qed.

Lemma same_shape_valid h h' f : same_shape h h' -> valid h f -> valid h' f.
Proof.
  intros Hs [Hp (blk & Hb & Hl)]. split; [done|]. specialize (Hs (f_block f)). rewrite Hb in Hs. destruct (h' !! f_block f) as [blk'|]; [|done].
  exists blk'. split; [done|]. injection Hs as ->. done.
Qed.

Definition with_heap (w : FragmentWriter) (h : heap) : FragmentWriter :=
  mkFW h (fw_next w) (fw_fragment w) (fw_msgBase w) (fw_cursor w) (fw_remaining w).

Lemma same_shape_fw_ok n w h : same_shape (fw_heap w) h -> fw_ok n w -> fw_ok n (with_heap w h).
Proof.
  intros Hs [Hf Hc]. split; cbn.
  - intros b Hb. specialize (Hs b). rewrite (Hf b Hb) in Hs. by destruct (h !! b).
  - destruct (fw_fragment w) as [b|]; [|done]. destruct Hc as (? & ? & ? & blk & Hb & Hl). split_and!; try done.
    specialize (Hs b). rewrite Hb in Hs. destruct (h !! b) as [blk'|]; [|done]. exists blk'. split; [done|]. by injection Hs as ->.
Qed.

Lemma length_frag h f : valid h f -> length (frag_bytes h f) = f_size f.
Proof. intros [_ (blk & Hb & Hl)]. unfold frag_bytes. rewrite Hb, length_take, length_drop. lia. Qed.

Lemma splice_behind buf c d o n : (c + length d <= o)%nat -> (c + length d <= length buf)%nat -> take n (drop o (splice buf c d)) = take n (drop o buf).
Proof.
  intros H1 H2. f_equal. unfold splice. rewrite app_assoc. assert (length (take c buf ++ d) = (c + length d)%nat) as E by (rewrite length_app, length_take; lia).
  rewrite drop_app_ge by lia. rewrite E, drop_drop. f_equal. lia.
Qed.

Lemma splice_inside buf c d o n : (o <= c)%nat -> (c + length d <= o + n)%nat -> (o + n <= length buf)%nat ->
  take n (drop o (splice buf c d)) = splice (take n (drop o buf)) (c - o) d.
Proof.
  intros H1 H2 H3. apply list_eq. intros i. unfold splice.
  destruct (decide (i < n)%nat) as [Hi|Hi].
  2: { rewrite !lookup_ge_None_2; [done| |]; rewrite ?length_app, ?length_take, ?length_drop, ?length_app, ?length_take, ?length_drop; lia. }
  rewrite lookup_take_lt, lookup_drop by lia. rewrite take_take, Nat.min_l by lia.
  destruct (decide (o + i < c)%nat) as [Hc|Hc].
  { rewrite !lookup_app_l by (rewrite length_take, ?length_drop; lia). by rewrite !lookup_take_lt, lookup_drop by lia. }
  rewrite (lookup_app_r (take c buf)) by (rewrite length_take; lia). rewrite (lookup_app_r (take (c - o) _)) by (rewrite length_take, length_drop; lia).
  rewrite !length_take, length_drop.
  replace (o + i - c `min` length buf)%nat with (o + i - c)%nat by lia. replace (i - (c - o) `min` (length buf - o))%nat with (o + i - c)%nat by lia.
  destruct (decide (o + i < c + length d)%nat) as [Hd|Hd]; [by rewrite !lookup_app_l by lia|].
  rewrite !lookup_app_r by lia. rewrite !lookup_drop, lookup_take_lt, lookup_drop by lia. f_equal. lia.
Qed.

(** A write into the fragment [f]. *)
Lemma heap_write_ok h f k d : valid h f -> (k + length d <= f_size f)%nat ->
  exists h', heap_write h (f_block f) (f_offset f + k) d = Some h' /\ same_shape h h' /\
    frag_bytes h' f = splice (frag_bytes h f) k d /\ (forall g, apart f g -> frag_bytes h' g = frag_bytes h g).
Proof.
  intros [Hp (blk & Hb & Hl)] Hk. unfold heap_write. rewrite Hb. cbn [mbind option_bind]. rewrite buf_write_splice by lia. cbn [mbind option_bind].
  eexists. split; [done|]. split_and!.
  - intros b. destruct (decide (b = f_block f)) as [->|Hne]; [|by rewrite lookup_insert_ne]. rewrite lookup_insert_eq, Hb. cbn. by rewrite length_splice by lia.
  - unfold frag_bytes. rewrite lookup_insert_eq, Hb. rewrite splice_inside by lia. f_equal. lia.
  - intros g Hg. unfold frag_bytes. destruct (decide (f_block g = f_block f)) as [E|E]; [|by rewrite lookup_insert_ne by done].
    rewrite E, lookup_insert_eq, Hb. destruct Hg as [Hg|[Hg|Hg]]; [congruence| |]; [apply splice_behind; lia|apply splice_before; lia].
Qed.

(** ** Messages *)
Definition message (h : heap) (frs : list Fragment) : list Z := concat (frag_bytes h <$> frs).

Lemma sum_sizes h frs : Forall (valid h) frs -> sum_list_with f_size frs = length (message h frs).
Proof. induction 1 as [|f frs Hf _ IH]; [done|]. unfold message in *. cbn. rewrite length_app, length_frag by done. lia. Qed.

Lemma message_keep (h h' : heap) frs : Forall (fun f => frag_bytes h' f = frag_bytes h f) frs -> message h' frs = message h frs.
Proof. apply concat_keep. Qed.

(** Between two messages. *)
Record idle (fragmentSize : nat) (os : Ostream) : Prop := {
  id_writer : fw_ok fragmentSize (os_writer os);
  id_cursor : fw_msgBase (os_writer os) = fw_cursor (os_writer os);
  id_fragments : os_fragments os = [];
  id_size : os_currentMsgSize os = 0%nat;
  id_ptr : os_currentHeaderPtr os = None
}.

(** Fragments that the stream has handed out. *)
Definition handed_out (os : Ostream) (f : Fragment) : Prop := settled (os_writer os) f /\ valid (fw_heap (os_writer os)) f.

(** A message is out: its bytes, in fragments that the stream does not touch
    any more and that have nothing in common with each other or with older
    ones, which are as they were. *)
Record sent (fragmentSize : nat) (os os' : Ostream) (frs : list Fragment) (m : list Z) : Prop := {
  se_idle : idle fragmentSize os';
  se_bytes : message (fw_heap (os_writer os')) frs = m;
  se_out : Forall (handed_out os') frs;
  se_blocks : NoDup (f_block <$> frs);
  se_old f : handed_out os f -> handed_out os' f /\ frag_bytes (fw_heap (os_writer os')) f = frag_bytes (fw_heap (os_writer os)) f /\ Forall (apart f) frs
}.

(** One message. *)
Definition serialize (fragmentSize : nat) (os : Ostream) (ty : Z) (chunks : list (list Z)) (externalTailSize : Z) : option (Ostream * list Fragment) :=
  os ← new_message fragmentSize os ty;
  os ← os_writes fragmentSize os chunks;
  finalize os externalTailSize.

Section ostream_facts.
Context (fragmentSize : nat) (Hsize : (HeaderSize < fragmentSize)%nat).

Lemma os_writes_ok w1 os out data chunks : os_currentHeaderPtr os <> None -> os_fragments os = out -> os_currentMsgSize os = sum_list_with f_size out ->
  advance fragmentSize w1 out data (os_writer os) ->
  exists os', os_writes fragmentSize os chunks = Some os' /\ os_currentHeaderPtr os' = os_currentHeaderPtr os /\ os_currentHeader os' = os_currentHeader os /\
    os_currentMsgSize os' = sum_list_with f_size (os_fragments os') /\ advance fragmentSize w1 (os_fragments os') (data ++ concat chunks) (os_writer os').
Proof.
  revert os out data. induction chunks as [|d chunks IH]; intros os out data Hptr Hf Hn Ha.
  { exists os. cbn. rewrite app_nil_r. subst out. by split_and!. }
  cbn [os_writes concat]. unfold os_write. destruct (os_currentHeaderPtr os) as [ptr|] eqn:Eptr; [|done].
  destruct (FW_write_ok fragmentSize Hsize (os_writer os) d) as (w' & out' & p & -> & Ha'); [apply Ha|apply Ha|]. cbn [mbind option_bind].
  destruct (IH (collect os w' out') (out ++ out') (data ++ d)) as (os' & E & E1 & E2 & E3 & E4); cbn.
  - by rewrite Eptr.
  - by rewrite Hf.
  - rewrite Hn. clear. induction out as [|x out IH]; cbn; [done|]. lia.
  - by eapply advance_trans.
  - exists os'. split_and!; [done|by rewrite E1; cbn|done|done|by rewrite app_assoc].
Qed.

(** The fragments of a complete message, its last one included. *)
Definition whole (w : FragmentWriter) (out : list Fragment) : list Fragment := out ++ call w.

(** What is known of them when the last byte has been written. *)
Record written (w1 : FragmentWriter) (b : nat) (data : list Z) (w : FragmentWriter) (frs : list Fragment) : Prop := {
  wr_bytes : message (fw_heap w) frs = pend w1 ++ data;
  wr_valid : Forall (valid (fw_heap w)) frs;
  wr_end : Forall (fun f => (f_block f < fw_next w)%nat /\ (fw_fragment w = Some (f_block f) -> (f_offset f + f_size f <= fw_cursor w)%nat)) frs;
  wr_blocks : exists k, f_block <$> frs = b :: seq (fw_next w1) k;
  wr_first : exists f frs', frs = f :: frs' /\ f_block f = b /\ f_offset f = fw_msgBase w1 /\ (length (pend w1) <= f_size f)%nat
}.

Lemma whole_ok w1 b out data w : fw_ok fragmentSize w1 -> fw_fragment w1 = Some b -> advance fragmentSize w1 out data w -> written w1 b data w (whole w out).
Proof.
  intros Hw1 Hb [A1 A2 A3 A4 A5 (k & b0 & b' & N & F1 & F2 & K) A7]. rewrite Hb in F1. injection F1 as <-.
  pose proof (length_pend _ Hsize w A1) as Lp. assert (fw_msgBase w <> fw_cursor w) as Hne. { intros E. apply A2, length_zero_iff_nil. lia. }
  pose proof A1 as [_ Hc]. rewrite F2 in Hc. destruct Hc as (Hb' & C1 & C2 & blk & Hblk & Lblk).
  unfold whole, call. rewrite (proj2 (Nat.eqb_neq _ _)), F2 by done. set (fl := mkFragment b' (fw_msgBase w) (fw_cursor w - fw_msgBase w)).
  split.
  - unfold message. rewrite fmap_app, concat_app. cbn [fmap list_fmap concat]. rewrite app_nil_r, <- A3. f_equal. unfold pend. by rewrite F2.
  - apply Forall_app. split; [eapply Forall_impl; [exact A5|]; by intros f [_ ?]|]. constructor; [|constructor].
    split; cbn; [lia|]. exists blk. split; [done|lia].
  - apply Forall_app. split.
    + eapply Forall_impl; [exact A5|]. intros f [[S1 S2] _]. split; [done|]. intros E. specialize (S2 E). lia.
    + constructor; [|constructor]. cbn. split; [done|]. intros _. lia.
  - exists k. rewrite fmap_app. cbn. exact K.
  - destruct out as [|f out].
    + exists fl, []. cbn in K. injection K as -> _. cbn [fl f_block f_offset f_size]. split_and!; [done|done|done|].
      cbn in A3. rewrite <- Lp, A3, length_app. lia.
    + exists f, (out ++ [fl]). cbn in K. injection K as -> _. destruct A7 as [-> H]. by split_and!.
Qed.

(** The header of a complete message is written again. *)
Lemma patch_header w1 b data w frs d : written w1 b data w frs -> length (pend w1) = HeaderSize -> length d = HeaderSize -> (b < fw_next w1)%nat ->
  exists h, heap_write (fw_heap w) b (fw_msgBase w1) d = Some h /\ same_shape (fw_heap w) h /\ message h frs = d ++ data /\
    (forall g, match frs with f :: _ => apart f g | [] => True end -> frag_bytes h g = frag_bytes (fw_heap w) g).
Proof.
  intros [W1 W2 _ (k & W4) (f & frs' & -> & Fb & Fo & Fs)] Lp Ld Hb. apply Forall_cons in W2 as [V1 V2].
  destruct (heap_write_ok (fw_heap w) f 0 d V1) as (h & E & Hs & Hf & Hg); [lia|]. rewrite Nat.add_0_r, Fb, Fo in E.
  exists h. split_and!; [done|done| |done]. unfold message in *. cbn [fmap list_fmap concat] in *. rewrite Hf.
  rewrite (concat_keep (fw_heap w) h frs').
  - set (rest := concat _) in *. pose proof (length_frag _ _ V1) as Lf. unfold splice. cbn [take app Nat.add].
    rewrite take_0, Ld, app_nil_l, <- app_assoc. f_equal. apply (f_equal (drop HeaderSize)) in W1. rewrite drop_app_le in W1 by lia. rewrite <- Lp in W1 at 2.
    by rewrite drop_app_length in W1.
  - cbn in W4. injection W4 as _ W4. apply Forall_forall. intros g Hin. apply Hg. left. rewrite Fb. apply (list_elem_of_fmap_2 f_block) in Hin.
    rewrite W4 in Hin. apply elem_of_seq in Hin. lia.
Qed.

Lemma finalize_ok w1 b os data tail :
  fw_ok fragmentSize w1 -> fw_fragment w1 = Some b -> length (pend w1) = HeaderSize ->
  os_currentHeaderPtr os = Some (b, fw_msgBase w1) -> os_currentMsgSize os = sum_list_with f_size (os_fragments os) ->
  advance fragmentSize w1 (os_fragments os) data (os_writer os) ->
  0 <= tail -> Z.of_nat (length data) + tail < 2 ^ 32 ->
  exists os' frs, finalize os tail = Some (os', frs) /\ idle fragmentSize os' /\
    os_currentHeader os' = set_size (os_currentHeader os) (Z.of_nat (length data) + tail) /\
    message (fw_heap (os_writer os')) frs = MsgHeader_write (os_currentHeader os') ++ data /\
    Forall (handed_out os') frs /\ NoDup (f_block <$> frs) /\
    (forall f, settled w1 f -> settled (os_writer os') f /\ frag_bytes (fw_heap (os_writer os')) f = frag_bytes (fw_heap w1) f /\
       (valid (fw_heap w1) f -> valid (fw_heap (os_writer os')) f) /\ Forall (apart f) frs).
Proof.
  intros Hw1 Hb Lp Hptr Hn Ha Ht Hlt. pose proof (whole_ok w1 b _ data _ Hw1 Hb Ha) as Hwr. unfold finalize. rewrite Hptr. unfold FW_finalize, collect.
  cbn [os_currentMsgSize os_fragments os_currentHeader fw_heap fw_next fw_fragment fw_msgBase fw_cursor fw_remaining]. fold (whole (os_writer os) (os_fragments os)). set (frs := whole _ _) in *.
  assert (os_currentMsgSize os + sum_list_with f_size (call (os_writer os)) = HeaderSize + length data)%nat as ->.
  { rewrite Hn, <- sum_list_with_app. change (os_fragments os ++ call (os_writer os)) with frs. rewrite (sum_sizes _ _ (wr_valid _ _ _ _ _ Hwr)).
    rewrite (wr_bytes _ _ _ _ _ Hwr), length_app. lia. }
  rewrite (proj2 (Nat.ltb_ge (HeaderSize + length data) HeaderSize)) by lia. replace (HeaderSize + length data - HeaderSize)%nat with (length data) by lia.
  rewrite u32_small by lia. rewrite (proj2 (Z.ltb_ge _ _)) by lia. rewrite u32_small by lia.
  pose proof Hw1 as [_ Hc1]. rewrite Hb in Hc1. destruct Hc1 as (Hb1 & _).
  set (hd := set_size _ _). destruct (patch_header w1 b data (os_writer os) frs (MsgHeader_write hd) Hwr Lp eq_refl Hb1) as (h & -> & Hs & Em & Hg).
  cbn [mbind option_bind]. do 2 eexists. split; [done|]. destruct Hwr as [_ W2 W3 (k & W4) (f1 & frs' & Ef & Fb & Fo & Fs)].
  assert (forall f, settled w1 f -> Forall (apart f) frs) as Hap.
  { intros f [S1 S2]. rewrite Ef in W4 |- *. cbn in W4. injection W4 as _ W4. constructor.
    - destruct (decide (f_block f = f_block f1)) as [E|E]; [|by left]. right. left. rewrite Fo. apply S2. congruence.
    - apply Forall_forall. intros g Hin. left. apply (list_elem_of_fmap_2 f_block) in Hin. rewrite W4 in Hin. apply elem_of_seq in Hin. lia. }
  cbn [os_writer fw_heap os_currentHeader].
  split_and!; [|done|done| | |].
  - pose proof (same_shape_fw_ok _ _ h Hs (ad_ok _ _ _ _ _ Ha)) as [O1 O2]. split; try done. split; cbn; [exact O1|].
    cbn in O2. destruct (fw_fragment (os_writer os)); [|lia]. destruct O2 as (? & ? & ? & ?). split_and!; try done.
  - apply Forall_forall. intros f Hin. rewrite Forall_forall in W2, W3. destruct (W3 f Hin) as [B1 B2]. split; [split; cbn; done|].
    cbn. by eapply same_shape_valid, W2.
  - rewrite W4. apply NoDup_cons. split; [rewrite elem_of_seq; lia|apply NoDup_seq].
  - intros f Hf. destruct (ad_keep _ _ _ _ _ Ha f Hf) as ([S1 S2] & B & V). split_and!.
    + split; cbn; [done|]. intros E. specialize (S2 E). pose proof (ad_ok _ _ _ _ _ Ha) as [_ O]. rewrite E in O. lia.
    + rewrite Hg, B; [done|]. rewrite Ef. pose proof (Hap f Hf) as Hap'. rewrite Ef in Hap'. apply Forall_cons in Hap' as [Hap' _].
      unfold apart in *. destruct Hap' as [?|[?|?]]; [left; congruence|tauto|tauto].
    + intros Hv. by eapply same_shape_valid, V.
    + by apply Hap.
Qed.

(** A message comes out as its header, with type and size, and the bytes that
    were written. *)
Lemma serialize_ok os ty chunks tail :
  idle fragmentSize os -> 0 <= tail -> Z.of_nat (length (concat chunks)) + tail < 2 ^ 32 ->
  exists os' frs, serialize fragmentSize os ty chunks tail = Some (os', frs) /\
    os_currentHeader os' = set_size (set_type (os_currentHeader os) ty) (Z.of_nat (length (concat chunks)) + tail) /\
    sent fragmentSize os os' frs (MsgHeader_write (os_currentHeader os') ++ concat chunks).
Proof.
  intros [I1 I2 I3 I4 I5] Ht Hl. unfold serialize, new_message. rewrite I4, I5. cbn [Nat.eqb negb].
  set (hd := set_type _ _). assert (pend (os_writer os) = []) as Ep. { apply length_zero_iff_nil. rewrite (length_pend _ Hsize _ I1). lia. }
  destruct (FW_write_header fragmentSize Hsize (os_writer os) (MsgHeader_write hd) I1 Ep eq_refl) as (w1 & b & -> & O1 & F1 & P1 & K1).
  cbn [mbind option_bind]. unfold collect. cbn [os_writer os_fragments os_currentMsgSize]. rewrite I3, I4. cbn [app sum_list_with Nat.add].
  set (os1 := mkOs _ _ _ _ _).
  destruct (os_writes_ok w1 os1 [] [] chunks) as (os2 & -> & E1 & E2 & E3 & E4); [done|done|done| |].
  { apply advance_refl; [exact O1|]. change (pend w1 <> []). by rewrite P1. }
  cbn [mbind option_bind]. cbn [app] in E4.
  destruct (finalize_ok w1 b os2 (concat chunks) tail) as (os' & frs & -> & Hi & Eh & Em & Ho & Hnd & Hk); try done; [by rewrite P1|].
  exists os', frs. split; [done|]. split; [by rewrite Eh, E2|]. split; try done.
  intros f [S V]. destruct (K1 f S) as (S1 & B1 & V1). destruct (Hk f S1) as (S2 & B2 & V2 & A2). split; [split; auto|]. split; [congruence|done].
Qed.
End ostream_facts.
