(* ===== verification/Secure.v ===== *)
(** The secure channel of a connection: [ProtocolPlus] of [core/proto.h] and
    [core/proto.cpp], on top of the message writer, the reader, the stream
    cipher and the block cipher.

    Every message in a secure mode ends with 8 bytes of a code that
    authenticates it, and is encrypted with its header.  The keyed hash
    ([ECC::Hash::Mac], which is HMAC-SHA256 of libsecp256k1) is an argument: a
    function of the secret and of all the bytes that were written. *)

From stdpp Require Import gmap list.
From S2P Require Import Prelude UintBig EccData Cipher Framing MsgWriter.
From S2P Require Aes.

Inductive Mode := Plaintext | Outgoing | Duplex.
#[export] Instance Mode_eq_dec : EqDecision Mode.
Proof. solve_decision. Defined.

(** [m_HMac] is its secret; [m_MyNonce] is a scalar, zero for none. *)
Record ProtocolPlus := mkPlus {
  m_Enc : list Z;
  m_CipherIn : StreamCipher;
  m_CipherOut : StreamCipher;
  m_MyNonce : Z;
  m_RemoteNonce : list Z;
  m_HMac : list Z;
  m_Mode : Mode
}.

Definition MacBytes : nat := 8.

Definition ResetVars (p : ProtocolPlus) : ProtocolPlus :=
  mkPlus (m_Enc p) (m_CipherIn p) (m_CipherOut p) 0 (replicate 32 0) (m_HMac p) Plaintext.

Definition with_in (p : ProtocolPlus) (c : StreamCipher) : ProtocolPlus :=
  mkPlus (m_Enc p) c (m_CipherOut p) (m_MyNonce p) (m_RemoteNonce p) (m_HMac p) (m_Mode p).
Definition with_out (p : ProtocolPlus) (c : StreamCipher) : ProtocolPlus :=
  mkPlus (m_Enc p) (m_CipherIn p) c (m_MyNonce p) (m_RemoteNonce p) (m_HMac p) (m_Mode p).
Definition with_mode (p : ProtocolPlus) (m : Mode) : ProtocolPlus :=
  mkPlus (m_Enc p) (m_CipherIn p) (m_CipherOut p) (m_MyNonce p) (m_RemoteNonce p) (m_HMac p) m.

(** [XCrypt] with the encoder of the connection. *)
Definition crypt (p : ProtocolPlus) (c : StreamCipher) (data : list Z) : option (StreamCipher * list Z) :=
  XCrypt (Aes.Encoder_Proceed (m_Enc p)) c data.

Definition ProtocolPlus_Decrypt (p : ProtocolPlus) (data : list Z) : option (ProtocolPlus * list Z) :=
  match m_Mode p with
  | Duplex => '(c, data) ← crypt p (m_CipherIn p) data; Some (with_in p c, data)
  | _ => Some (p, data)
  end.

Definition ProtocolPlus_MacSize (p : ProtocolPlus) : Z := match m_Mode p with Duplex => 8 | _ => 0 end.

Section plus.
Context (HMac : list Z -> list Z -> list Z).

(** [get_HMac]: the hash value is cut to the size of the code. *)
Definition get_HMac (p : ProtocolPlus) (data : list Z) : list Z := _Assign MacBytes (HMac (m_HMac p) data).

Definition ProtocolPlus_VerifyMsg (p : ProtocolPlus) (msg : list Z) : bool :=
  match m_Mode p with
  | Duplex =>
      let nSize := length msg in
      if (nSize <? MacBytes)%nat then false
      else bool_decide (drop (nSize - MacBytes) msg = get_HMac p (take (nSize - MacBytes) msg))
  | _ => true
  end.

(** *** [Encrypt] *)

(** What is authenticated: the first [n2] bytes of the fragments. *)
Fixpoint Mac_loop (h : heap) (sm : list Fragment) (n2 : nat) : option (list Z) :=
  match sm with
  | [] => None
  | iov :: sm =>
      if (n2 <=? f_size iov)%nat then Some (take n2 (frag_bytes h iov))
      else rest ← Mac_loop h sm (n2 - f_size iov)%nat; Some (frag_bytes h iov ++ rest)
  end.

(** The code is put into a fragment, with [n2] bytes from here to the end. *)
Definition Put_mac (h : heap) (iov : Fragment) (n2 : nat) (hmac : list Z) : option heap :=
  if (n2 <=? MacBytes)%nat then
    if (f_size iov <=? n2)%nat then heap_write h (f_block iov) (f_offset iov) (take (f_size iov) (drop (MacBytes - n2) hmac)) else None
  else
    let offs := (n2 - MacBytes)%nat in
    if (offs <? f_size iov)%nat then
      if (f_size iov <=? n2)%nat then heap_write h (f_block iov) (f_offset iov + offs) (take (f_size iov - offs) hmac) else None
    else Some h.

Fixpoint Seal_loop (p : ProtocolPlus) (h : heap) (sm : list Fragment) (n2 : nat) (hmac : list Z) : option (ProtocolPlus * heap) :=
  match sm with
  | [] => Some (p, h)
  | iov :: sm =>
      h ← Put_mac h iov n2 hmac;
      '(c, x) ← crypt p (m_CipherOut p) (frag_bytes h iov);
      h ← heap_write h (f_block iov) (f_offset iov) x;
      Seal_loop (with_out p c) h sm (n2 - f_size iov)%nat hmac
  end.

Context (fragmentSize : nat).

Definition Encrypt (p : ProtocolPlus) (os : Ostream) : option (ProtocolPlus * Ostream * list Fragment) :=
  match m_Mode p with
  | Plaintext => '(os, sm) ← finalize os 0; Some (p, os, sm)
  | _ =>
      os ← os_write fragmentSize os (replicate MacBytes 0);
      '(os, sm) ← finalize os 0;
      let w := os_writer os in
      let n := sum_list_with f_size sm in
      data ← Mac_loop (fw_heap w) sm (n - MacBytes)%nat;
      let hmac := get_HMac p data in
      '(p, h) ← Seal_loop p (fw_heap w) sm n hmac;
      Some (p, mkOs (with_heap w h) (os_fragments os) (os_currentMsgSize os) (os_currentHeaderPtr os) (os_currentHeader os), sm)
  end.

(** [Send]: a message of type [ty] whose serialization writes [chunks]. *)
Definition Send (p : ProtocolPlus) (os : Ostream) (ty : Z) (chunks : list (list Z)) : option (ProtocolPlus * Ostream * list Fragment) :=
  os ← new_message fragmentSize os ty;
  os ← os_writes fragmentSize os chunks;
  Encrypt p os.

(** Several messages. *)
Fixpoint SendAll (p : ProtocolPlus) (os : Ostream) (msgs : list (Z * list (list Z))) : option (ProtocolPlus * Ostream * list Fragment) :=
  match msgs with
  | [] => Some (p, os, [])
  | (ty, chunks) :: msgs =>
      '(p, os, sm) ← Send p os ty chunks;
      '(p, os, sm') ← SendAll p os msgs;
      Some (p, os, sm ++ sm')
  end.
End plus.

(** * Facts *)
Definition secret_ok (HMac : list Z -> list Z -> list Z) : Prop := forall k m, bytes_n 32 (HMac k m).

Lemma Encoder_block erk l : bytes_n s_BlockSize (Aes.Encoder_Proceed erk l).
Proof.
  unfold Aes.Encoder_Proceed. destruct (fold_left _ _ _) as [[[Y0 Y1] Y2] Y3]. destruct (Aes.LastRound _ _ _ _ _ _) as [[[X0 X1] X2] X3].
  unfold Aes.PutBlock, Aes.PUT_UINT32. split; [|done]. cbn [app]. do 16 (apply Forall_cons_2; [apply u8_byte|]). constructor.
Qed.

Lemma message_cons h f frs : message h (f :: frs) = frag_bytes h f ++ message h frs.
Proof. done. Qed.

Lemma Mac_loop_ok h sm n2 : Forall (valid h) sm -> sm <> [] -> (n2 <= length (message h sm))%nat -> Mac_loop h sm n2 = Some (take n2 (message h sm)).
Proof.
  intros Hv Hne Hn. revert n2 Hn Hne. induction Hv as [|f sm Hf Hv IH]; intros n2 Hn Hne; [done|]. rewrite message_cons in *. cbn [Mac_loop].
  pose proof (length_frag h f Hf) as Lf. rewrite length_app in Hn. destruct (Nat.leb_spec n2 (f_size f)) as [Hle|Hgt]; [by rewrite take_app_le by lia|].
  destruct sm as [|f2 sm]; [cbn in Hn; lia|]. rewrite IH by (done || lia). cbn [mbind option_bind]. rewrite take_app_ge by lia. by rewrite Lf.
Qed.

(** A message with the code at its end. *)
Definition patched (hmac m : list Z) : list Z := take (length m - MacBytes) m ++ drop (MacBytes - length m) hmac.

Lemma length_patched hmac m : length hmac = MacBytes -> length (patched hmac m) = length m.
Proof. intros L. unfold patched. rewrite length_app, length_take, length_drop. lia. Qed.

Lemma patched_app hmac a b : length hmac = MacBytes -> patched hmac (a ++ b) = take (length a) (patched hmac (a ++ b)) ++ patched hmac b.
Proof.
  intros L. rewrite <- (take_drop (length a) (patched hmac (a ++ b))) at 1. f_equal. unfold patched. rewrite length_app.
  destruct (decide (MacBytes <= length b)%nat) as [Hb|Hb].
  - rewrite take_app_ge by lia. rewrite <- app_assoc, drop_app_length. replace (length a + length b - MacBytes - length a)%nat with (length b - MacBytes)%nat by lia.
    do 2 f_equal. lia.
  - rewrite (proj2 (Nat.sub_0_le (length b) MacBytes)) by lia. rewrite take_0, app_nil_l. rewrite drop_app, length_take, length_app, drop_ge, app_nil_l by (rewrite length_take; lia).
    rewrite drop_drop. f_equal. lia.
Qed.

Lemma take_splice buf c d : (c + length d = length buf)%nat -> splice buf c d = take c buf ++ d.
Proof. intros H. unfold splice. rewrite H, drop_all, app_nil_r. done. Qed.

(** Putting the code into a fragment. *)
Lemma Put_mac_ok h f n2 hmac rest : valid h f -> length hmac = MacBytes -> n2 = (f_size f + length rest)%nat ->
  exists h', Put_mac h f n2 hmac = Some h' /\ same_shape h h' /\
    frag_bytes h' f = take (f_size f) (patched hmac (frag_bytes h f ++ rest)) /\ (forall g, apart f g -> frag_bytes h' g = frag_bytes h g).
Proof.
  intros Hf Lm Hn. pose proof (length_frag h f Hf) as Lf. unfold Put_mac, patched. rewrite length_app, Lf, <- Hn.
  destruct (Nat.leb_spec n2 MacBytes) as [Hs|Hs].
  - rewrite (proj2 (Nat.leb_le _ _)) by lia. set (d := take (f_size f) _). assert (length d = f_size f) as Ld by (unfold d; rewrite length_take, length_drop; lia).
    destruct (heap_write_ok h f 0 d Hf) as (h' & E & Hsh & Hb & Hg); [lia|]. rewrite Nat.add_0_r in E. exists h'. split_and!; try done.
    rewrite Hb, take_splice, take_0 by lia. rewrite (proj2 (Nat.sub_0_le n2 MacBytes)) by lia. done.
  - destruct (Nat.ltb_spec (n2 - MacBytes) (f_size f)) as [Ho|Ho].
    + rewrite (proj2 (Nat.leb_le _ _)) by lia. set (d := take (f_size f - (n2 - MacBytes)) hmac).
      assert (length d = (f_size f - (n2 - MacBytes))%nat) as Ld by (unfold d; rewrite length_take; lia).
      destruct (heap_write_ok h f (n2 - MacBytes) d Hf) as (h' & E & Hsh & Hb & Hg); [lia|]. exists h'. split_and!; try done.
      rewrite Hb, take_splice by lia. rewrite (take_app_le (frag_bytes h f) rest) by lia. rewrite (proj2 (Nat.sub_0_le MacBytes n2)), drop_0 by lia.
      rewrite take_app_ge by (rewrite length_take; lia). rewrite length_take, Nat.min_l by lia. done.
    + exists h. split_and!; try done. rewrite take_app_le by (rewrite length_take, length_app; lia). rewrite take_take, Nat.min_l by lia.
      rewrite take_app_le by lia. rewrite take_ge by lia. done.
Qed.

Lemma crypt_ok p c m : cipher_ok c -> exists c' x, crypt p c m = Some (c', x) /\ cipher_ok c' /\ length x = length m.
Proof.
  intros Hc. destruct (XCrypt_ok (Aes.Encoder_Proceed (m_Enc p)) (Encoder_block _) c m Hc) as (c' & E & Hc' & _). exists c', (memxor m (keystream (Aes.Encoder_Proceed (m_Enc p)) c (length m))).
  split_and!; [done|done|]. unfold memxor. rewrite length_zip_with, length_keystream. lia.
Qed.

Lemma crypt_app p c a b : cipher_ok c -> b <> [] -> crypt p c (a ++ b) = ('(c1, x) ← crypt p c a; '(c2, y) ← crypt p c1 b; Some (c2, x ++ y)).
Proof. apply XCrypt_app, Encoder_block. Qed.

Lemma crypt_split p c a b c' m1 m2 : cipher_ok c -> b <> [] -> crypt p c (a ++ b) = Some (c', m1 ++ m2) -> length m1 = length a ->
  exists c1, crypt p c a = Some (c1, m1) /\ crypt p c1 b = Some (c', m2) /\ cipher_ok c1 /\ cipher_ok c'.
Proof.
  intros Hc Hb E L. rewrite crypt_app in E by done. destruct (crypt_ok p c a Hc) as (c1 & d1 & E1 & Hc1 & L1). rewrite E1 in E. cbn [mbind option_bind] in E.
  destruct (crypt_ok p c1 b Hc1) as (c2 & d2 & E2 & Hc2 & L2). rewrite E2 in E. cbn [mbind option_bind] in E. injection E as -> E.
  apply app_inj_1 in E as [-> ->]; [|lia]. by exists c1.
Qed.

Lemma apart_sym f g : apart f g -> apart g f.
Proof. unfold apart. intros [?|[?|?]]; [left; congruence|tauto|tauto]. Qed.

Lemma blocks_apart f sm : f_block f ∉ f_block <$> sm -> Forall (apart f) sm.
Proof. intros H. apply Forall_forall. intros g Hg. left. intros E. apply H. rewrite E. by apply list_elem_of_fmap_2. Qed.

Lemma message_apart h h' (f : Fragment) sm : Forall (apart f) sm -> (forall g, apart f g -> frag_bytes h' g = frag_bytes h g) -> message h' sm = message h sm.
Proof. intros Ha Hg. apply message_keep. eapply Forall_impl; [exact Ha|]. exact Hg. Qed.

(** Patching and encrypting one fragment. *)
Lemma Seal_one p h f rest hmac : valid h f -> length hmac = MacBytes -> cipher_ok (m_CipherOut p) ->
  let part := take (f_size f) (patched hmac (frag_bytes h f ++ rest)) in
  exists h1 c x h2, Put_mac h f (f_size f + length rest) hmac = Some h1 /\ crypt p (m_CipherOut p) (frag_bytes h1 f) = Some (c, x) /\
    heap_write h1 (f_block f) (f_offset f) x = Some h2 /\ crypt p (m_CipherOut p) part = Some (c, x) /\ cipher_ok c /\ same_shape h h2 /\
    frag_bytes h2 f = x /\ (forall g, apart f g -> frag_bytes h2 g = frag_bytes h g).
Proof.
  intros Hf Lm Hc part. destruct (Put_mac_ok h f _ hmac rest Hf Lm eq_refl) as (h1 & E1 & S1 & B1 & G1). fold part in B1.
  destruct (crypt_ok p (m_CipherOut p) part Hc) as (c & x & Ec & Hc' & Lx).
  assert (length x = f_size f) as Lx'.
  { rewrite Lx. unfold part. rewrite length_take, length_patched, length_app, (length_frag h f Hf) by done. lia. }
  pose proof (same_shape_valid h h1 f S1 Hf) as Hf1. destruct (heap_write_ok h1 f 0 x Hf1) as (h2 & E2 & S2 & B2 & G2); [lia|]. rewrite Nat.add_0_r in E2.
  exists h1, c, x, h2. rewrite B1. split_and!; try done.
  - by transitivity h1.
  - rewrite B2, take_splice by (rewrite (length_frag h1 f Hf1); lia). done.
  - intros g Hg. by rewrite G2, G1.
Qed.

Lemma Seal_loop_cons p h iov sm n2 hmac : Seal_loop p h (iov :: sm) n2 hmac = (
  h ← Put_mac h iov n2 hmac;
  '(c, x) ← crypt p (m_CipherOut p) (frag_bytes h iov);
  h ← heap_write h (f_block iov) (f_offset iov) x;
  Seal_loop (with_out p c) h sm (n2 - f_size iov)%nat hmac).
Proof. done. Qed.

Lemma Seal_loop_ok sm p h f hmac : Forall (valid h) (f :: sm) -> NoDup (f_block <$> f :: sm) -> length hmac = MacBytes -> cipher_ok (m_CipherOut p) ->
  exists c' h', Seal_loop p h (f :: sm) (length (message h (f :: sm))) hmac = Some (with_out p c', h') /\ same_shape h h' /\ cipher_ok c' /\
    crypt p (m_CipherOut p) (patched hmac (message h (f :: sm))) = Some (c', message h' (f :: sm)) /\
    (forall g, Forall (apart g) (f :: sm) -> frag_bytes h' g = frag_bytes h g).
Proof.
  revert p h f. induction sm as [|f2 sm IH]; intros p h f Hv Hnd Lm Hc; apply Forall_cons in Hv as [Hf Hv].
  - destruct (Seal_one p h f [] hmac Hf Lm Hc) as (h1 & c & x & h2 & E1 & E2 & E3 & E4 & Hc' & S2 & B2 & G2). pose proof (length_frag h f Hf) as Lf.
    exists c, h2. rewrite !message_cons. change (message h []) with (@nil Z). change (message h2 []) with (@nil Z). rewrite !app_nil_r in *.
    cbn [Seal_loop]. rewrite Lf. rewrite Nat.add_0_r in E1. rewrite E1. cbn [mbind option_bind]. rewrite E2. cbn [mbind option_bind]. rewrite E3. cbn [mbind option_bind].
    rewrite take_ge in E4 by (rewrite length_patched by done; lia).
    split_and!; try done; [by rewrite B2|]. intros g Hg. apply Forall_cons in Hg as [Hg _]. by apply G2, apart_sym.
  - set (m' := message h (f2 :: sm)). destruct (Seal_one p h f m' hmac Hf Lm Hc) as (h1 & c & x & h2 & E1 & E2 & E3 & E4 & Hc' & S2 & B2 & G2).
    pose proof (length_frag h f Hf) as Lf. cbn [fmap list_fmap] in Hnd. apply NoDup_cons in Hnd as [Hni Hnd].
    pose proof (blocks_apart f (f2 :: sm) Hni) as Hap. pose proof (message_apart h h2 f (f2 :: sm) Hap G2) as Em.
    destruct (IH (with_out p c) h2 f2) as (c' & h' & Es & S' & Hc2 & Ex & G'); [|done|done|done|].
    { eapply Forall_impl; [exact Hv|]. intros g. by apply same_shape_valid. }
    exists c', h'. rewrite (message_cons h f), (message_cons h' f). fold m'. rewrite Em in Es, Ex. fold m' in Es, Ex. rewrite Seal_loop_cons. rewrite length_app, Lf. rewrite E1. cbn [mbind option_bind].
    rewrite E2. cbn [mbind option_bind]. rewrite E3. cbn [mbind option_bind]. replace (f_size f + length m' - f_size f)%nat with (length m') by lia.
    split_and!.
    + rewrite Es. done.
    + by transitivity h2.
    + done.
    + rewrite patched_app, Lf by done. rewrite crypt_app; [|done|].
      * rewrite E4. cbn [mbind option_bind]. change (crypt (with_out p c) (m_CipherOut (with_out p c))) with (crypt p c) in Ex. rewrite Ex. cbn [mbind option_bind].
        rewrite (G' f) by done. by rewrite B2.
      * intros E. apply (f_equal length) in E. rewrite length_patched in E by done. unfold m' in E. apply Forall_cons in Hv as [Hf2 _].
        rewrite message_cons, length_app, (length_frag h f2 Hf2) in E. destruct Hf2 as [Hp _]. cbn in E. lia.
    + intros g Hg. apply Forall_cons in Hg as [Hg1 Hg2]. rewrite (G' g Hg2). by apply G2, apart_sym.
Qed.

(** ** Sending *)
Lemma os_writes_snoc n os chunks d : os_writes n os (chunks ++ [d]) = (os ← os_writes n os chunks; os_write n os d).
Proof.
  revert os. induction chunks as [|c chunks IH]; intros os; cbn [app os_writes mbind option_bind].
  - by destruct (os_write n os d).
  - destruct (os_write n os c) as [os'|]; [|done]. cbn [mbind option_bind]. apply IH.
Qed.

Definition header_for (os : Ostream) (ty : Z) (n : nat) : MsgHeader := set_size (set_type (os_currentHeader os) ty) (Z.of_nat n).

(** The bytes of a message before encryption. *)
Definition sealed (HMac : list Z -> list Z -> list Z) (p : ProtocolPlus) (os : Ostream) (ty : Z) (body : list Z) : list Z :=
  let m := MsgHeader_write (header_for os ty (length body + MacBytes)) ++ body in m ++ get_HMac HMac p m.

Lemma with_heap_idle n os os' h frs frs' m m' :
  sent n os os' frs m -> same_shape (fw_heap (os_writer os')) h -> frs' = frs -> message h frs = m' ->
  (forall g, Forall (apart g) frs -> frag_bytes h g = frag_bytes (fw_heap (os_writer os')) g) ->
  sent n os (mkOs (with_heap (os_writer os') h) (os_fragments os') (os_currentMsgSize os') (os_currentHeaderPtr os') (os_currentHeader os')) frs' m'.
Proof.
  intros [[I1 I2 I3 I4 I5] B O N K] Hs -> Em Hg. assert (forall f, handed_out os' f -> handed_out (mkOs (with_heap (os_writer os') h) (os_fragments os') (os_currentMsgSize os') (os_currentHeaderPtr os') (os_currentHeader os')) f) as Hh.
  { intros f [H1 H2]. split; [exact H1|]. by eapply same_shape_valid. }
  split; cbn [os_writer]; try done.
  - split; cbn; try done. by apply same_shape_fw_ok.
  - eapply Forall_impl; [exact O|]. exact Hh.
  - intros f Hf. destruct (K f Hf) as (K1 & K2 & K3). split_and!; [by apply Hh| |done]. cbn. by rewrite (Hg f K3).
Qed.

Section send.
Context (HMac : list Z -> list Z -> list Z) (Hmac : secret_ok HMac) (fragmentSize : nat) (Hsize : (HeaderSize < fragmentSize)%nat).

Lemma get_HMac_length p m : bytes_n MacBytes (get_HMac HMac p m).
Proof. destruct (_Assign_spec MacBytes (HMac (m_HMac p) m)) as (H1 & H2 & _); [apply Hmac|]. by split. Qed.

(** A message in a secure mode: its header, its body and the code over both,
    encrypted at once. *)
Lemma Send_ok p os ty chunks : m_Mode p <> Plaintext -> idle fragmentSize os -> cipher_ok (m_CipherOut p) ->
  Z.of_nat (length (concat chunks) + MacBytes) < 2 ^ 32 ->
  exists c' os' sm x, Send HMac fragmentSize p os ty chunks = Some (with_out p c', os', sm) /\
    crypt p (m_CipherOut p) (sealed HMac p os ty (concat chunks)) = Some (c', x) /\ cipher_ok c' /\
    os_currentHeader os' = header_for os ty (length (concat chunks) + MacBytes) /\ sent fragmentSize os os' sm x.
Proof.
  intros Hm Hi Hc Hlen. set (zeros := replicate MacBytes 0). set (body := concat chunks) in *.
  assert (concat (chunks ++ [zeros]) = body ++ zeros) as Ecat by (rewrite concat_app; cbn [concat]; by rewrite app_nil_r).
  assert (length (body ++ zeros) = (length body + MacBytes)%nat) as Lcat by (rewrite length_app; done).
  destruct (serialize_ok fragmentSize Hsize os ty (chunks ++ [zeros]) 0 Hi) as (os1 & sm & Es & Eh & Hsent); [lia|rewrite Ecat, Lcat; lia|].
  rewrite Ecat, Lcat, Z.add_0_r in Eh. fold (header_for os ty (length body + MacBytes)) in Eh. rewrite Ecat in Hsent.
  assert (Send HMac fragmentSize p os ty chunks = ('(os, sm) ← serialize fragmentSize os ty (chunks ++ [zeros]) 0;
    data ← Mac_loop (fw_heap (os_writer os)) sm (sum_list_with f_size sm - MacBytes);
    '(p, h) ← Seal_loop p (fw_heap (os_writer os)) sm (sum_list_with f_size sm) (get_HMac HMac p data);
    Some (p, mkOs (with_heap (os_writer os) h) (os_fragments os) (os_currentMsgSize os) (os_currentHeaderPtr os) (os_currentHeader os), sm))) as ->.
  { unfold Send, serialize, Encrypt. destruct (new_message fragmentSize os ty) as [osa|]; [|done]. cbn [mbind option_bind]. rewrite os_writes_snoc. fold zeros.
    destruct (os_writes fragmentSize osa chunks) as [osb|]; [|done]. cbn [mbind option_bind].
    destruct (m_Mode p); [done| |]; (destruct (os_write fragmentSize osb zeros) as [osc|]; [|done]; done). }
  rewrite Es. cbn [mbind option_bind]. pose proof (se_out _ _ _ _ _ Hsent) as Hout.
  assert (Forall (valid (fw_heap (os_writer os1))) sm) as Hv by (eapply Forall_impl; [exact Hout|]; by intros f [_ ?]).
  pose proof (se_bytes _ _ _ _ _ Hsent) as Eb. set (hd := MsgHeader_write (os_currentHeader os1)) in *. set (h1 := fw_heap (os_writer os1)) in *.
  rewrite (sum_sizes h1 sm Hv), Eb.
  assert (length (hd ++ body ++ zeros) = (length (hd ++ body) + MacBytes)%nat) as Lall by (rewrite app_assoc, length_app; done).
  destruct sm as [|f sm]; [exfalso; apply (f_equal length) in Eb; rewrite Lall in Eb; change (length (message h1 [])) with 0%nat in Eb; unfold MacBytes in Eb; lia|].
  rewrite Mac_loop_ok by (first [done|rewrite Eb; lia]). cbn [mbind option_bind].
  rewrite Eb.
  assert (take (length (hd ++ body ++ zeros) - MacBytes) (hd ++ body ++ zeros) = hd ++ body) as ->
    by (rewrite Lall, Nat.add_sub, app_assoc; apply take_app_length). set (mac := get_HMac HMac p (hd ++ body)).
  pose proof (get_HMac_length p (hd ++ body)) as [_ Lmac]. fold mac in Lmac.
  destruct (Seal_loop_ok sm p h1 f mac Hv (se_blocks _ _ _ _ _ Hsent) Lmac Hc) as (c' & h' & E & S' & Hc' & Ex & G'). rewrite Eb in E, Ex. rewrite E. cbn [mbind option_bind].
  do 3 eexists. exists (message h' (f :: sm)). split; [done|]. split_and!; [|done|done|].
  - rewrite <- Ex. f_equal. unfold sealed. rewrite <- Eh. fold hd. fold mac. unfold patched. rewrite Lall, Nat.add_sub, app_assoc, take_app_length.
    rewrite (proj2 (Nat.sub_0_le _ _)) by lia. done.
  - by eapply with_heap_idle.
Qed.
End send.

(** ** Receiving *)

(** What a connection does with messages and errors. *)
Class Handlers (H : Type) := {
  OnMsg : ProtocolPlus * H -> list bool -> Z -> list Z -> Outcome (ProtocolPlus * H);
  OnProtocolError : ProtocolPlus * H -> ProtocolError -> (ProtocolPlus * H) * bool;
  OnUnexpected : ProtocolPlus * H -> Z -> (ProtocolPlus * H) * bool;
  OnConnectionError : ProtocolPlus * H -> Z -> (ProtocolPlus * H) * bool
}.

Class HandlersOk (H : Type) `{!Handlers H} : Prop :=
  OnMsg_ok pr e ty d : cipher_ok (m_CipherIn pr.1) -> length e = 256%nat ->
    cipher_ok (m_CipherIn (o_state (OnMsg pr e ty d)).1) /\ length (o_expected (OnMsg pr e ty d)) = 256%nat.

Section receive.
Context (HMac : list Z -> list Z -> list Z) {H : Type} `{!Handlers H}.

#[export] Instance plus_protocol : IProtocol (ProtocolPlus * H) := {|
  Decrypt pr data := match ProtocolPlus_Decrypt pr.1 data with Some (p, data) => ((p, pr.2), data) | None => (pr, data) end;
  get_MacSize pr := ProtocolPlus_MacSize pr.1;
  VerifyMsg pr msg := ProtocolPlus_VerifyMsg HMac pr.1 msg;
  on_message := OnMsg;
  on_protocol_error := OnProtocolError;
  on_unexpected_msg := OnUnexpected;
  on_connection_error := OnConnectionError
|}.

Context `{!HandlersOk H}.

Lemma keystream_bytes P c n : (forall l, bytes_n s_BlockSize (P l)) -> cipher_ok c -> bytes_ok (keystream P c n).
Proof.
  intros HP Hc. apply Forall_fmap, Forall_forall. intros i _. unfold compose, stream. destruct (_ <? _)%nat; apply bytes_ok_lookup; [apply Hc|apply HP].
Qed.

Lemma crypt_bytes p c m c' x : cipher_ok c -> bytes_ok m -> crypt p c m = Some (c', x) -> bytes_ok x.
Proof.
  intros Hc Hm E. destruct (XCrypt_ok (Aes.Encoder_Proceed (m_Enc p)) (Encoder_block _) c m Hc) as (c1 & E1 & _). unfold crypt in E. rewrite E1 in E. injection E as _ <-.
  apply memxor_byte; [done|]. apply keystream_bytes; [apply Encoder_block|done].
Qed.

Lemma Decrypt_duplex p h data : m_Mode p = Duplex -> cipher_ok (m_CipherIn p) ->
  exists c d, crypt p (m_CipherIn p) data = Some (c, d) /\ cipher_ok c /\ length d = length data /\ Decrypt (p, h) data = ((with_in p c, h), d).
Proof.
  intros Hm Hc. destruct (crypt_ok p (m_CipherIn p) data Hc) as (c & d & E & Hc' & L). exists c, d. split_and!; try done.
  cbn [Decrypt plus_protocol fst snd]. unfold ProtocolPlus_Decrypt. rewrite Hm, E. done.
Qed.

Lemma Decrypt_plain p h data : m_Mode p <> Duplex -> Decrypt (p, h) data = ((p, h), data).
Proof. intros Hm. cbn [Decrypt plus_protocol fst snd]. unfold ProtocolPlus_Decrypt. by destruct (m_Mode p). Qed.

#[export] Instance plus_laws : ProtocolLaws (ProtocolPlus * H).
Proof.
  refine (Build_ProtocolLaws (ProtocolPlus * H) _ (fun pr => cipher_ok (m_CipherIn pr.1)) _ _ 8 _ _).
  - intros [p h] data Hc Hd. cbn [fst] in Hc. destruct (decide (m_Mode p = Duplex)) as [Hm|Hm]; [|rewrite Decrypt_plain by done; by split_and!].
    destruct (Decrypt_duplex p h data Hm Hc) as (c & d & E & Hc' & L & ->). split_and!; [done|done|]. exact (crypt_bytes p _ _ _ _ Hc Hd E).
  - intros [p h] a b Hc Hb. cbn [fst] in Hc. destruct (decide (m_Mode p = Duplex)) as [Hm|Hm]; [|by rewrite !Decrypt_plain].
    destruct (Decrypt_duplex p h (a ++ b) Hm Hc) as (c & d & E & Hc' & L & ->). rewrite crypt_app in E by done.
    destruct (Decrypt_duplex p h a Hm Hc) as (c1 & d1 & E1 & Hc1 & L1 & ->). rewrite E1 in E. cbn [mbind option_bind] in E.
    destruct (Decrypt_duplex (with_in p c1) h b Hm Hc1) as (c2 & d2 & E2 & Hc2 & L2 & ->).
    change (crypt (with_in p c1) (m_CipherIn (with_in p c1)) b) with (crypt p c1 b) in E2. rewrite E2 in E. cbn [mbind option_bind] in E. by injection E as <- <-.
  - intros [p h] _. cbn. unfold ProtocolPlus_MacSize. destruct (m_Mode p); lia.
  - intros pr e ty d Hc He. by apply OnMsg_ok.
Defined.

(** Waiting for a new message. *)
Record fresh (r : MsgReader) : Prop := {
  fr_state : r_state r = reading_header;
  fr_cursor : r_cursor r = 0%nat;
  fr_left : r_bytesLeft r = HeaderSize;
  fr_len : (HeaderSize <= length (r_msgBuffer r))%nat;
  fr_buf : bytes_ok (r_msgBuffer r);
  fr_exp : length (r_expected r) = 256%nat
}.

Lemma fresh_ok mac r : fresh r -> reader_ok mac r.
Proof. intros [Hs Hcu Hl Hlen Hb He]. split; [|rewrite Hl; unfold HeaderSize; lia]. split; try done. rewrite Hs, Hcu, Hl. unfold HeaderSize. lia. Qed.

Context (t : Protocol_t) (defaultSize : nat) (Hdef : (HeaderSize <= defaultSize)%nat).

(** A header arrives. *)
Lemma Complete_header p h r buf header :
  fresh r -> r_msgBuffer r = MsgHeader_write header ++ buf -> header_ok header -> approve_msg_header t header = None -> r_expected r !!! Z.to_nat (h_type header) = true ->
  Complete t defaultSize (p, h) r =
    Some (Running (p, h) (mkReader (Z.to_nat (h_size header)) reading_message (resize (r_msgBuffer r) (HeaderSize + Z.to_nat (h_size header))) HeaderSize (r_expected r))).
Proof.
  intros Hf Eb Hh Ha He. unfold Complete. rewrite (fr_state _ Hf). assert (MsgHeader_read (r_msgBuffer r) = header) as ->.
  { rewrite Eb, MsgHeader_read_app by done. by apply MsgHeader_read_write. }
  rewrite Ha, He. done.
Qed.

Lemma MsgHeader_write_split header (rest : list Z) : take HeaderSize (MsgHeader_write header ++ rest) = MsgHeader_write header.
Proof. done. Qed.

(** The message is complete and genuine. *)
Lemma Complete_message p h r header body :
  m_Mode p = Duplex -> r_state r = reading_message -> header_ok header -> h_size header = Z.of_nat (length body + MacBytes) -> bytes_ok body ->
  r_msgBuffer r = (MsgHeader_write header ++ body) ++ get_HMac HMac p (MsgHeader_write header ++ body) -> approve_msg_header t header = None ->
  secret_ok HMac -> length (r_expected r) = 256%nat ->
  let o := OnMsg (p, h) (r_expected r) (h_type header) body in
  o_ret o = true -> o_alive o = true -> length (o_expected o) = 256%nat ->
  exists r', Complete t defaultSize (p, h) r = Some (Running (o_state o) r') /\ fresh r' /\ r_expected r' = o_expected o.
Proof.
  intros Hm Hs Hh Hsz Hbody Eb Ha Hmac He o Hr Hal Hoe. unfold Complete. rewrite Hs. pose proof (get_HMac_length HMac Hmac p (MsgHeader_write header ++ body)) as [Hmb Lm].
  set (m := MsgHeader_write header ++ body) in *. set (mac := get_HMac HMac p m) in *.
  assert (MsgHeader_read (r_msgBuffer r) = header) as ->.
  { rewrite Eb. unfold m. rewrite <- app_assoc, MsgHeader_read_app by done. by apply MsgHeader_read_write. }
  assert (length (r_msgBuffer r) = (length m + MacBytes)%nat) as Lb by (rewrite Eb, length_app; lia).
  assert (length m = (HeaderSize + length body)%nat) as Lm' by (unfold m; by rewrite length_app).
  assert (VerifyMsg (p, h) (r_msgBuffer r) = true) as ->.
  { cbn [VerifyMsg plus_protocol fst]. unfold ProtocolPlus_VerifyMsg. rewrite Hm, Lb, (proj2 (Nat.ltb_ge _ _)), Nat.add_sub by lia. apply bool_decide_eq_true.
    rewrite Eb, take_app_length, drop_app_length. done. }
  cbn [negb]. assert (get_MacSize (p, h) = 8) as -> by (cbn; unfold ProtocolPlus_MacSize; by rewrite Hm).
  pose proof Hh as (_ & _ & _ & _ & Hs2). rewrite u32_small by (unfold MacBytes in *; lia). assert (Z.to_nat (h_size header - 8) = length body) as -> by (unfold MacBytes in *; lia).
  rewrite (proj2 (Nat.ltb_ge _ _)) by lia. assert (take (length body) (drop HeaderSize (r_msgBuffer r)) = body) as ->.
  { rewrite Eb. unfold m. rewrite <- app_assoc. change (drop HeaderSize (MsgHeader_write header ++ body ++ mac)) with (body ++ mac). apply take_app_length. }
  unfold on_new_message. cbn [r_expected r_msgBuffer].
  assert (is_Some (pt_dispatchTable t !!! Z.to_nat (h_type header))) as [i ->].
  { unfold approve_msg_header in Ha. destruct (negb _ || _ || _); [done|]. destruct (_ <=? _); [done|]. by destruct (pt_dispatchTable t !!! _). }
  cbn [on_message plus_protocol]. fold o. rewrite Hr, Hal. cbn [negb]. eexists. split; [done|]. split; [|done].
  destruct (_ <? _)%nat; split; cbn; try done; [by rewrite length_replicate|apply bytes_ok_zeros|lia|].
  rewrite Eb. apply Forall_app. split; [|done]. apply Forall_app. split; [|done]. by apply MsgHeader_write_ok.
Qed.

Lemma Receive_duplex p h r data c d : m_Mode p = Duplex -> cipher_ok (m_CipherIn p) -> bytes_ok data -> (r_cursor r + length data <= length (r_msgBuffer r))%nat ->
  crypt p (m_CipherIn p) data = Some (c, d) -> Receive (p, h) r data = Some ((with_in p c, h), splice (r_msgBuffer r) (r_cursor r) d).
Proof.
  intros Hm Hc Hd Hl E. rewrite (Receive_eq defaultSize Hdef) by done. destruct (Decrypt_duplex p h data Hm Hc) as (c1 & d1 & E1 & _ & _ & ->). rewrite E in E1. by injection E1 as <- <-.
Qed.

(** An encrypted message goes to its handler, and the reader is ready for the
    next one. *)
Lemma receive_message p h r header body x c' :
  m_Mode p = Duplex -> cipher_ok (m_CipherIn p) -> fresh r -> secret_ok HMac -> header_ok header -> h_size header = Z.of_nat (length body + MacBytes) ->
  bytes_ok body -> approve_msg_header t header = None -> r_expected r !!! Z.to_nat (h_type header) = true -> bytes_ok x ->
  crypt p (m_CipherIn p) x = Some (c', (MsgHeader_write header ++ body) ++ get_HMac HMac p (MsgHeader_write header ++ body)) ->
  let o := OnMsg (with_in p c', h) (r_expected r) (h_type header) body in
  o_ret o = true -> o_alive o = true -> length (o_expected o) = 256%nat ->
  exists r', fresh r' /\ r_expected r' = o_expected o /\
    forall fuel rest, Read_loop t defaultSize (S (S fuel)) (p, h) r (x ++ rest) = Read_loop t defaultSize fuel (o_state o) r' rest.
Proof.
  intros Hm Hc Hf Hmac Hh Hsz Hbody Ha He Hx E o Hr Hal Hoe. set (hd := MsgHeader_write header) in *. set (mac := get_HMac HMac p (hd ++ body)) in *.
  pose proof (get_HMac_length HMac Hmac p (hd ++ body)) as [Hmb Lm]. fold mac in Hmb, Lm.
  assert (length x = (HeaderSize + (length body + MacBytes))%nat) as Lx.
  { destruct (crypt_ok p (m_CipherIn p) x Hc) as (c1 & d1 & E1 & _ & L1). assert ((hd ++ body) ++ mac = d1) as Ed by congruence.
    rewrite <- L1, <- Ed, !length_app, Lm. change (length hd) with HeaderSize. lia. }
  set (x1 := take HeaderSize x). set (x2 := drop HeaderSize x). assert (x = x1 ++ x2) as Ex by (symmetry; apply take_drop).
  assert (length x1 = HeaderSize) as L1 by (unfold x1; rewrite length_take; lia). assert (length x2 = (length body + MacBytes)%nat) as L2 by (unfold x2; rewrite length_drop; lia).
  rewrite Ex, <- app_assoc in E. destruct (crypt_split p _ x1 x2 c' hd (body ++ mac) Hc) as (c1 & E1 & E2 & Hc1 & Hc2); [|done|by rewrite L1|].
  { intros Ez. rewrite Ez in L2. unfold MacBytes in L2. cbn in L2. lia. }
  assert (bytes_ok x1 /\ bytes_ok x2) as [Hx1 Hx2] by (by rewrite Ex, Forall_app in Hx).
  pose proof Hf as [F1 F2 F3 F4 F5 F6].
  set (n := (length body + MacBytes)%nat) in *. set (buf1 := splice (r_msgBuffer r) 0 hd). set (r1 := mkReader n reading_message (resize buf1 (HeaderSize + n)) HeaderSize (r_expected r)).
  assert (length buf1 = length (r_msgBuffer r)) as Lb1 by (unfold buf1; apply length_splice; exact F4).
  assert (length (r_msgBuffer r1) = (HeaderSize + n)%nat) as Lr1 by (cbn [r1 r_msgBuffer]; apply length_resize).
  assert (splice (r_msgBuffer r1) (r_cursor r1) (body ++ mac) = (hd ++ body) ++ mac) as Eb2.
  { unfold splice. rewrite drop_ge by (rewrite Lr1, length_app, Lm; cbn [r1 r_cursor]; lia). rewrite app_nil_r, <- app_assoc. done. }
  destruct (Complete_message (with_in p c') h (with_buffer r1 ((hd ++ body) ++ mac)) header body) as (r' & Ec & Hf' & He'); try done.
  exists r'. split_and!; try done. intros fuel rest.
  rewrite Ex, <- app_assoc. rewrite Read_loop_part by lia. rewrite (Receive_duplex p h r x1 c1 hd) by (done || rewrite F2, L1; lia). cbn [mbind option_bind].
  rewrite F2. fold buf1.
  rewrite (Complete_header (with_in p c1) h (with_buffer r buf1) (drop HeaderSize (r_msgBuffer r)) header); try done.
  2: { split; cbn; try done; [by rewrite Lb1|]. apply splice_ok; [done|by apply MsgHeader_write_ok]. }
  cbn [mbind option_bind with_buffer r_msgBuffer r_expected]. rewrite Hsz, Nat2Z.id. fold r1. rewrite Read_loop_part by done.
  rewrite (Receive_duplex (with_in p c1) h r1 x2 c' (body ++ mac)); try done; [|rewrite Lr1, L2; done].
  cbn [mbind option_bind]. rewrite Eb2. change (with_in (with_in p c1) c') with (with_in p c'). rewrite Ec. done.
Qed.
End receive.

(** ** A message that is shorter than its code *)
Section short.
Context (HMac : list Z -> list Z -> list Z) {H : Type} `{!Handlers H, !HandlersOk H} (t : Protocol_t) (defaultSize : nat) (Hdef : (HeaderSize <= defaultSize)%nat).

Definition short_header (t : Protocol_t) (ty : Z) : MsgHeader := mkHeader (pt_V0 t) (pt_V1 t) (pt_V2 t) ty 7.

(** The last seven bytes of the code of the first seven bytes of the header. *)
Definition short_tail (p : ProtocolPlus) (ty : Z) : list Z := drop 1 (get_HMac HMac p (take 7 (MsgHeader_write (short_header t ty)))).

(** C40: [VerifyMsg] does not protect the reader from a message that is shorter than
    its code. It compares the size of header and body with the size of the
    code, so the test never fails, and the code may cover a part of the header.
    For a table that admits short messages, as the one of [NodeConnection] does,
    a peer that has the keys can send a body of seven bytes; when the code of
    the first seven bytes begins with a zero, it is accepted as genuine, the size
    of the body minus the size of the code wraps around, and the handler gets
    almost 4 GB of data behind the end of the buffer. *)
Theorem short_message_overread p h r ty i mac x c :
  m_Mode p = Duplex -> cipher_ok (m_CipherIn p) -> fresh r -> bytes_ok x ->
  byte_ok (pt_V0 t) -> byte_ok (pt_V1 t) -> byte_ok (pt_V2 t) -> byte_ok ty ->
  pt_dispatchTable t !!! Z.to_nat ty = Some i -> ty < Z.of_nat (length (pt_dispatchTable t)) -> i_minSize i <= 7 <= i_maxSize i ->
  r_expected r !!! Z.to_nat ty = true ->
  get_HMac HMac p (take 7 (MsgHeader_write (short_header t ty))) = 0 :: mac -> length mac = 7%nat ->
  crypt p (m_CipherIn p) x = Some (c, MsgHeader_write (short_header t ty) ++ short_tail p ty) ->
  ProtocolPlus_VerifyMsg HMac p (MsgHeader_write (short_header t ty) ++ short_tail p ty) = true /\
  new_data_from_stream (IProtocol0 := plus_protocol HMac) t defaultSize (p, h) r 0 x = None.
Proof.
  intros Hm Hc Hf Hx B0 B1 B2 Bt Hi Hlen Hmin He Hmac Lmac E. set (hd := MsgHeader_write (short_header t ty)) in *.
  assert (short_tail p ty = mac) as Et by (unfold short_tail; fold hd; by rewrite Hmac). rewrite Et in *.
  assert (header_ok (short_header t ty)) as Hh by (split_and!; cbn; (done || lia)).
  assert (hd ++ mac = take 7 hd ++ 0 :: mac) as Esplit by done.
  assert (ProtocolPlus_VerifyMsg HMac p (hd ++ mac) = true) as Hv.
  { unfold ProtocolPlus_VerifyMsg. rewrite Hm, length_app, Lmac. change (length hd + 7 <? MacBytes)%nat with false. cbv iota.
    change (length hd + 7 - MacBytes)%nat with (length (take 7 hd)). rewrite Esplit, drop_app_length, take_app_length, Hmac. by apply bool_decide_eq_true. }
  split; [exact Hv|]. pose proof Hf as [F1 F2 F3 F4 F5 F6].
  destruct (crypt_ok p (m_CipherIn p) x Hc) as (c0 & d0 & E0 & _ & L0). assert (hd ++ mac = d0) as <- by congruence. rewrite length_app, Lmac in L0. change (length hd) with 8%nat in L0.
  set (x1 := take HeaderSize x). set (x2 := drop HeaderSize x). assert (x = x1 ++ x2) as Ex by (symmetry; apply take_drop).
  assert (length x1 = HeaderSize /\ length x2 = 7%nat) as [L1 L2] by (unfold x1, x2; rewrite length_take, length_drop; unfold HeaderSize; lia).
  rewrite Ex in E. destruct (crypt_split p _ x1 x2 c hd mac Hc) as (c1 & E1 & E2 & Hc1 & Hc2); [intros Ez; by rewrite Ez in L2|done|by rewrite L1|].
  assert (bytes_ok x1 /\ bytes_ok x2) as [Hx1 Hx2] by (by rewrite Ex, Forall_app in Hx).
  unfold new_data_from_stream. cbn [Z.eqb negb]. rewrite <- L0. change (8 + 7 =? 0)%nat with false. cbv iota. change (2 * (8 + 7) + 2)%nat with (S (S 30)).
  rewrite Ex. rewrite Read_loop_part by lia. rewrite (Receive_duplex HMac defaultSize Hdef p h r x1 c1 hd) by (done || rewrite F2, L1; lia). cbn [mbind option_bind].
  rewrite F2. set (buf1 := splice (r_msgBuffer r) 0 hd). assert (length buf1 = length (r_msgBuffer r)) as Lb1 by (unfold buf1; apply length_splice; exact F4).
  rewrite (Complete_header HMac t defaultSize (with_in p c1) h (with_buffer r buf1) (drop HeaderSize (r_msgBuffer r)) (short_header t ty)); try done.
  2: { split; cbn; try done; [by rewrite Lb1|]. apply splice_ok; [done|by apply MsgHeader_write_ok]. }
  2: { unfold approve_msg_header, short_header. cbn [h_V0 h_V1 h_V2 h_type h_size]. rewrite !Z.eqb_refl. cbn [negb orb]. rewrite (proj2 (Z.leb_gt _ _)), Hi by lia.
       rewrite (proj2 (Z.ltb_ge _ _)), (proj2 (Z.ltb_ge _ _)) by lia. done. }
  cbn [mbind option_bind with_buffer r_msgBuffer r_expected h_size short_header]. change (Z.to_nat 7) with 7%nat. set (r1 := mkReader _ _ _ _ _).
  rewrite <- (app_nil_r x2), Read_loop_part by done. assert (length (r_msgBuffer r1) = 15%nat) as Lr1 by (cbn [r1 r_msgBuffer]; apply length_resize).
  rewrite (Receive_duplex HMac defaultSize Hdef (with_in p c1) h r1 x2 c mac); try done; [|rewrite Lr1, L2; done]. cbn [mbind option_bind].
  assert (splice (r_msgBuffer r1) (r_cursor r1) mac = hd ++ mac) as ->.
  { unfold splice. rewrite drop_ge by (rewrite Lr1, Lmac; cbn [r1 r_cursor]; unfold HeaderSize; lia). rewrite app_nil_r. done. }
  unfold Complete. cbn [r1 r_state with_buffer r_msgBuffer]. cbn [VerifyMsg plus_protocol fst]. change (ProtocolPlus_VerifyMsg HMac (with_in (with_in p c1) c) (hd ++ mac)) with (ProtocolPlus_VerifyMsg HMac p (hd ++ mac)).
  rewrite Hv. cbn [negb]. assert (MsgHeader_read (hd ++ mac) = short_header t ty) as ->. { rewrite MsgHeader_read_app by done. by apply MsgHeader_read_write. }
  assert (get_MacSize (with_in (with_in p c1) c, h) = 8) as -> by (cbn; unfold ProtocolPlus_MacSize; cbn [with_in m_Mode]; by rewrite Hm).
  cbn [short_header h_size]. rewrite length_app, Lmac. change (length hd) with 8%nat. rewrite (proj2 (Nat.ltb_lt _ _)); [done|].
  assert (u32 (7 - 8) = 2 ^ 32 - 1) as -> by reflexivity. unfold HeaderSize. lia.
Qed.
End short.

(** ** A session *)

(** A receiver that keeps all messages. *)
#[export] Instance inbox_handlers : Handlers (list (Z * list Z)) := {|
  OnMsg pr e ty d := mkOutcome (pr.1, pr.2 ++ [(ty, d)]) true true e;
  OnProtocolError pr _ := (pr, false);
  OnUnexpected pr _ := (pr, false);
  OnConnectionError pr _ := (pr, false)
|}.

#[export] Instance inbox_ok : HandlersOk (list (Z * list Z)).
Proof. intros pr e ty d Hc He. done. Qed.

(** One end can read what the other one sends. *)
Record paired (p q : ProtocolPlus) : Prop := {
  pa_enc : m_Enc q = m_Enc p;
  pa_mac : m_HMac q = m_HMac p;
  pa_out : m_Mode p <> Plaintext;
  pa_in : m_Mode q = Duplex;
  pa_cout : cipher_ok (m_CipherOut p);
  pa_cin : cipher_ok (m_CipherIn q);
  pa_stream : same_stream (Aes.Encoder_Proceed (m_Enc p)) (m_CipherOut p) (m_CipherIn q)
}.

Definition versions (t : Protocol_t) (h : MsgHeader) : Prop :=
  h_V0 h = pt_V0 t /\ h_V1 h = pt_V1 t /\ h_V2 h = pt_V2 t /\ byte_ok (pt_V0 t) /\ byte_ok (pt_V1 t) /\ byte_ok (pt_V2 t).

(** The receiver takes a message. *)
Definition acceptable (t : Protocol_t) (expected : list bool) (msg : Z * list (list Z)) : Prop :=
  let body := concat msg.2 in
  byte_ok msg.1 /\ bytes_ok body /\ Z.of_nat (length body + MacBytes) < 2 ^ 32 /\
  approve_msg_header t (mkHeader (pt_V0 t) (pt_V1 t) (pt_V2 t) msg.1 (Z.of_nat (length body + MacBytes))) = None /\
  expected !!! Z.to_nat msg.1 = true.

Definition content (msg : Z * list (list Z)) : Z * list Z := (msg.1, concat msg.2).

Section session.
Context (HMac : list Z -> list Z -> list Z) (Hmac : secret_ok HMac) (fragmentSize : nat) (Hsize : (HeaderSize < fragmentSize)%nat).
Context (t : Protocol_t) (defaultSize : nat) (Hdef : (HeaderSize <= defaultSize)%nat).
Abbreviation read := (@Read_loop _ (plus_protocol HMac (H := list (Z * list Z))) t defaultSize).

(** One message from end to end. *)
Lemma deliver_one p q os r inbox ty chunks : paired p q -> idle fragmentSize os -> versions t (os_currentHeader os) -> fresh r ->
  acceptable t (r_expected r) (ty, chunks) ->
  exists p' q' os' sm x r', Send HMac fragmentSize p os ty chunks = Some (p', os', sm) /\ sent fragmentSize os os' sm x /\ bytes_ok x /\ (2 <= length x)%nat /\
    paired p' q' /\ versions t (os_currentHeader os') /\ fresh r' /\ r_expected r' = r_expected r /\
    (forall fuel rest, read (S (S fuel)) (q, inbox) r (x ++ rest) = read fuel (q', inbox ++ [content (ty, chunks)]) r' rest).
Proof.
  intros [P1 P2 P3 P4 P5 P6 P7] Hi (V0 & V1 & V2 & W0 & W1 & W2) Hf (A1 & A2 & A3 & A4 & A5). cbn [fst snd] in *.
  destruct (Send_ok HMac Hmac fragmentSize Hsize p os ty chunks P3 Hi P5 A3) as (c' & os' & sm & x & E & Ex & Hc' & Eh & Hs).
  set (body := concat chunks) in *. set (hd := header_for os ty (length body + MacBytes)) in *.
  assert (hd = mkHeader (pt_V0 t) (pt_V1 t) (pt_V2 t) ty (Z.of_nat (length body + MacBytes))) as Ehd.
  { unfold hd, header_for, set_size, set_type. cbn [h_V0 h_V1 h_V2 h_type h_size]. by rewrite V0, V1, V2. }
  assert (header_ok hd) as Hhd by (rewrite Ehd; split_and!; cbn; (done || lia)).
  set (m := sealed HMac p os ty body) in *. destruct (XCrypt_inverse (Aes.Encoder_Proceed (m_Enc p)) (Encoder_block _) _ _ m P5 P6 P7) as (c1 & cq & x' & X1 & X2 & Lx & Hc1 & Hcq & Hst).
  unfold crypt in Ex. rewrite X1 in Ex. injection Ex as -> ->.
  assert (bytes_ok m) as Hm.
  { unfold m, sealed. fold hd. apply Forall_app. split; [apply Forall_app; split; [by apply MsgHeader_write_ok|done]|apply get_HMac_length; done]. }
  assert (bytes_ok x) as Hx by (eapply (crypt_bytes p (m_CipherOut p) m c' x); done).
  assert (crypt q (m_CipherIn q) x = Some (cq, (MsgHeader_write hd ++ body) ++ get_HMac HMac q (MsgHeader_write hd ++ body))) as Eq.
  { unfold crypt. rewrite P1, X2. unfold m, sealed. fold hd. unfold get_HMac. by rewrite P2. }
  destruct (receive_message HMac t defaultSize Hdef q inbox r hd body x cq) as (r' & Hfr & Her & Er); try done.
  { by rewrite Ehd. }
  { apply Hf. }
  exists (with_out p c'), (with_in q cq), os', sm, x, r'. split_and!; try done.
  - rewrite Lx. unfold m, sealed. fold hd. rewrite <- app_assoc, length_app. change (length (MsgHeader_write hd)) with 8%nat. lia.
  - rewrite Eh. unfold versions. fold hd. rewrite Ehd. cbn. by split_and!.
Qed.

(** Any number of messages. *)
Lemma deliver_all msgs p q os r inbox : paired p q -> idle fragmentSize os -> versions t (os_currentHeader os) -> fresh r ->
  Forall (acceptable t (r_expected r)) msgs ->
  exists p' q' os' sm x r', SendAll HMac fragmentSize p os msgs = Some (p', os', sm) /\ message (fw_heap (os_writer os')) sm = x /\ bytes_ok x /\
    idle fragmentSize os' /\ (forall f, handed_out os f -> handed_out os' f /\ frag_bytes (fw_heap (os_writer os')) f = frag_bytes (fw_heap (os_writer os)) f) /\
    paired p' q' /\ fresh r' /\ (2 * length msgs <= length x)%nat /\
    (forall fuel rest, read (2 * length msgs + fuel) (q, inbox) r (x ++ rest) = read fuel (q', inbox ++ (content <$> msgs)) r' rest).
Proof.
  revert p q os r inbox. induction msgs as [|[ty chunks] msgs IH]; intros p q os r inbox Hpq Hi Hv Hf Hm.
  { exists p, q, os, [], [], r. rewrite app_nil_r. split_and!; try done. }
  apply Forall_cons in Hm as [Hm1 Hm]. cbn [SendAll].
  destruct (deliver_one p q os r inbox ty chunks Hpq Hi Hv Hf Hm1) as (p1 & q1 & os1 & sm1 & x1 & r1 & E1 & Hs1 & Hx1 & L1 & Hpq1 & Hv1 & Hf1 & He1 & R1).
  destruct (IH p1 q1 os1 r1 (inbox ++ [content (ty, chunks)]) Hpq1 (se_idle _ _ _ _ _ Hs1) Hv1 Hf1) as (p2 & q2 & os2 & sm2 & x2 & r2 & E2 & Em2 & Hx2 & Hi2 & Hk2 & Hpq2 & Hf2 & L2 & R2).
  { by rewrite He1. }
  exists p2, q2, os2, (sm1 ++ sm2), (x1 ++ x2), r2. rewrite E1. cbn [mbind option_bind]. rewrite E2. cbn [mbind option_bind]. split_and!; try done.
  - unfold message in *. rewrite fmap_app, concat_app, Em2. f_equal. rewrite <- (se_bytes _ _ _ _ _ Hs1). apply concat_keep.
    eapply Forall_impl; [exact (se_out _ _ _ _ _ Hs1)|]. intros f Hf'. by apply Hk2.
  - by apply Forall_app.
  - intros f Hf'. destruct (se_old _ _ _ _ _ Hs1 f Hf') as (K1 & K2 & _). destruct (Hk2 f K1) as (K3 & K4). split; [done|congruence].
  - rewrite length_app. cbn [length]. lia.
  - intros fuel rest. rewrite <- app_assoc. replace (2 * length ((ty, chunks) :: msgs) + fuel)%nat with (S (S (2 * length msgs + fuel))) by (cbn; lia).
    rewrite R1, R2. cbn [fmap list_fmap]. by rewrite <- app_assoc.
Qed.

(** C9: A secure channel delivers what was sent. For any sequence of messages that
    the receiver accepts, the sender turns every message into fragments of
    shared memory (header, serialized pieces, authentication code, encrypted in
    place); the bytes of all fragments at the end, cut into packets in any way
    whatsoever, make the receiver decrypt, authenticate and hand over exactly
    the messages that were sent, in their order, and then both ends are
    ready for more. *)
Theorem secure_session msgs p q os r :
  table_ok 0 t -> paired p q -> idle fragmentSize os -> versions t (os_currentHeader os) -> fresh r -> Forall (acceptable t (r_expected r)) msgs ->
  exists p' q' os' sm r', SendAll HMac fragmentSize p os msgs = Some (p', os', sm) /\
    (forall packets, concat packets = message (fw_heap (os_writer os')) sm ->
       Feed (IProtocol0 := plus_protocol HMac) t defaultSize (q, []) r packets = Some (Running (q', content <$> msgs) r')) /\
    paired p' q' /\ idle fragmentSize os' /\ fresh r'.
Proof.
  intros Ht Hpq Hi Hv Hf Hm. destruct (deliver_all msgs p q os r [] Hpq Hi Hv Hf Hm) as (p' & q' & os' & sm & x & r' & E & Em & Hx & Hi' & _ & Hpq' & Hf' & Hlen & R).
  exists p', q', os', sm, r'. split_and!; try done. intros packets Hp. rewrite Em in Hp.
  pose proof (Feed_concat (IProtocol0 := plus_protocol HMac) t defaultSize Hdef 0 Ht (q, []) r packets (pa_cin _ _ Hpq) (fresh_ok 0 r Hf)) as Hfeed.
  assert (Forall bytes_ok packets) as Hpk. { clear - Hp Hx. subst x. induction packets as [|a packets IH]; [constructor|]. apply Forall_app in Hx as [? ?]. constructor; auto. }
  specialize (Hfeed Hpk). rewrite Hp in Hfeed. assert (new_data_from_stream (IProtocol0 := plus_protocol HMac) t defaultSize (q, []) r 0 x = Some (Running (q', content <$> msgs) r')) as En.
  { unfold new_data_from_stream. cbn [Z.eqb negb]. destruct (Nat.eqb_spec (length x) 0) as [E0|E0].
    - destruct msgs as [|m msgs]; [|cbn in Hlen; lia]. specialize (R 1%nat []). apply length_zero_iff_nil in E0 as ->. cbn [length Nat.mul Nat.add app] in R.
      cbn [Read_loop length] in R. rewrite (fr_left _ Hf), (fr_left _ Hf') in R. cbn in R. by injection R as -> ->.
    - rewrite <- (app_nil_r x). replace (2 * length (x ++ []) + 2)%nat with (2 * length msgs + S (2 * length x + 1 - 2 * length msgs))%nat by (rewrite app_nil_r; lia).
      rewrite R. cbn [Read_loop length]. rewrite (fr_left _ Hf'). done. }
  rewrite En in Hfeed. destruct (Feed t defaultSize (q, []) r packets) as [[pr o|pr rr]|]; [discriminate| |discriminate]. cbn in Hfeed. by injection Hfeed as -> ->.
Qed.
End session.

(** ** A small instance *)
Module Demo.
Definition demo_hmac (k m : list Z) : list Z := be_bytes 32 (be_val k + 7 * be_val m).

Lemma demo_hmac_ok : secret_ok demo_hmac.
Proof. intros k m. split; [apply bytes_ok_be_bytes|apply length_be_bytes]. Qed.

Definition demo_cipher : StreamCipher := mkCipher (replicate 16 5) (replicate 16 0) 0.
Definition demo_plus : ProtocolPlus := mkPlus (Aes.Encoder_Init (replicate 32 9)) demo_cipher demo_cipher 0 (replicate 32 0) (replicate 32 9) Duplex.

Lemma demo_cipher_ok : cipher_ok demo_cipher.
Proof. split; [split; [apply bytes_ok_zeros|done]|cbn; lia]. Qed.

Lemma demo_paired : paired demo_plus demo_plus.
Proof. split; try done; apply demo_cipher_ok. Qed.

Definition demo_os : Ostream := Ostream_new ∅ 0 (get_default_header Framing.Demo.demo_table).

Lemma demo_idle : idle 20 demo_os.
Proof. split; try done. Qed.

Lemma demo_fresh : fresh (MsgReader_new 16).
Proof. split; try done; [cbn; unfold HeaderSize; lia|apply bytes_ok_zeros]. Qed.

Definition demo_msgs : list (Z * list (list Z)) := [(1, [[1; 2]; replicate 30 3]); (2, [])].

Lemma demo_acceptable : Forall (acceptable Framing.Demo.demo_table (r_expected (MsgReader_new 16))) demo_msgs.
Proof. repeat constructor; try (vm_compute; done); apply (bool_decide_unpack _); vm_compute; done. Qed.
End Demo.
Import Demo.

Lemma secure_session_witness :
  exists p' q' os' sm r', SendAll demo_hmac 20 demo_plus demo_os demo_msgs = Some (p', os', sm) /\
    (forall packets, concat packets = message (fw_heap (os_writer os')) sm ->
       Feed (IProtocol0 := plus_protocol demo_hmac) Framing.Demo.demo_table 16 (demo_plus, []) (MsgReader_new 16) packets
         = Some (Running (q', content <$> demo_msgs) r')) /\
    paired p' q' /\ idle 20 os' /\ fresh r'.
Proof.
  apply (secure_session demo_hmac demo_hmac_ok 20 ltac:(unfold HeaderSize; lia) Framing.Demo.demo_table 16 ltac:(unfold HeaderSize; lia)
    demo_msgs demo_plus demo_plus demo_os (MsgReader_new 16) Framing.Demo.demo_table_ok demo_paired demo_idle).
  - vm_compute. split_and!; done.
  - apply demo_fresh.
  - apply demo_acceptable.
Defined.

(** A keyed hash whose value for the header begins with a zero. *)
Definition demo_hmac0 (k m : list Z) : list Z := replicate 32 0.
Definition demo_plain : list Z := MsgHeader_write (short_header Framing.Demo.demo_table 1) ++ short_tail demo_hmac0 Framing.Demo.demo_table demo_plus 1.
Definition demo_short : StreamCipher * list Z := Eval vm_compute in default (demo_cipher, []) (crypt demo_plus demo_cipher demo_plain).

Lemma short_message_overread_witness :
  ProtocolPlus_VerifyMsg demo_hmac0 demo_plus demo_plain = true /\
  new_data_from_stream (IProtocol0 := plus_protocol demo_hmac0) Framing.Demo.demo_table 16 (demo_plus, []) (MsgReader_new 16) 0 demo_short.2 = None.
Proof.
  apply (short_message_overread demo_hmac0 Framing.Demo.demo_table 16 ltac:(unfold HeaderSize; lia) demo_plus [] (MsgReader_new 16) 1 (mkItem 0 1000) (replicate 7 0)
    demo_short.2 demo_short.1); try done.
  - apply demo_cipher_ok.
  - apply demo_fresh.
  - apply (bool_decide_unpack _). vm_compute. done.
Defined.
