(* ===== verification/Channel.v ===== *)
(** Keys of a secure channel and encrypted messages to an address: Diffie-Hellman
    and the handshake of [NodeConnection], and [Bbs::Encrypt] and
    [Bbs::Decrypt], all of [core/proto.cpp].

    The curve is the interface of [Ecc]; SHA-256 and HMAC are arguments.
    Secrets that are drawn at random are arguments of the operations. *)

From stdpp Require Import gmap list.
From S2P Require Import Prelude UintBig EccData Rules Ecc Cipher Framing MsgWriter Secure.
From S2P Require Aes.

(** Points that differ in their sign have the same abscissa. *)
Class CurveNeg (G : Type) `{!Curve G} : Prop :=
  ge_get_neg x : x <> g_zero -> ge_get (g_neg x) = mkPoint (m_X (ge_get x)) (1 - m_Y (ge_get x)).

Section channel.
Context (sha256 : list Z -> list Z) (HMac : list Z -> list Z -> list Z) {G : Type} `{!Curve G}.

(** ** Keys *)
Definition InitCipherIV (c : StreamCipher) (hvSecret hvParam : list Z) : StreamCipher :=
  let hvIV := sha256 (Write_big hvSecret ++ Write_big hvParam) in
  mkCipher (_Assign s_BlockSize hvIV) (m_pBuf c) 0.

Definition ImportPeerID (pid : list Z) : option G := Point_ImportNnz (mkPoint pid 0).

(** [Sk2Pk]: the public key, and the secret that was negated if necessary. *)
Definition Sk2Pk (sk : Z) : list Z * Z :=
  let pt := Point_Export (g_mul sk G_raw) in
  (m_X pt, if m_Y pt =? 0 then sk else scalar_neg sk).

(** The result of [ImportPeerID] is not looked at: the point stays zero then. *)
Definition DiffieHellman (myPrivate : Z) (remotePublic : list Z) : list Z :=
  let p := default g_zero (ImportPeerID remotePublic) in
  sha256 (Write_Point (Point_Export (g_mul myPrivate p))).

(** [ProtocolPlus::InitCipher] with [InitViaDiffieHellman]. *)
Definition InitCipher (p : ProtocolPlus) : option ProtocolPlus :=
  if m_MyNonce p =? 0 then None
  else
    let hvSecret := DiffieHellman (m_MyNonce p) (m_RemoteNonce p) in
    let '(myPublic, sk) := Sk2Pk (m_MyNonce p) in
    Some (mkPlus (Aes.Encoder_Init hvSecret) (InitCipherIV (m_CipherIn p) hvSecret myPublic) (InitCipherIV (m_CipherOut p) hvSecret (m_RemoteNonce p))
      sk (m_RemoteNonce p) hvSecret (m_Mode p)).

(** ** [Bbs] *)
Definition new_cipher : StreamCipher := mkCipher (replicate s_BlockSize 0) (replicate s_BlockSize 0) 0.

(** The message for an address, and the nonce. *)
Definition Bbs_Encrypt (publicAddr : list Z) (nonce : Z) (data : list Z) : option (list Z * Z) :=
  let '(myPublic, nonce) := Sk2Pk nonce in
  let hvSecret := DiffieHellman nonce publicAddr in
  let enc := Aes.Encoder_Init hvSecret in
  let cOut := InitCipherIV new_cipher hvSecret publicAddr in
  let hvMac := HMac hvSecret data in
  '(_, x) ← XCrypt (Aes.Encoder_Proceed enc) cOut (hvMac ++ data);
  Some (myPublic ++ x, nonce).

(** What is left at the end of the buffer, if the message is for the address. *)
Definition Bbs_Decrypt (p : list Z) (privateAddr : Z) : option (list Z) :=
  if (length p <? 64)%nat then None
  else
    let remotePublic := take 32 p in
    let hvSecret := DiffieHellman privateAddr remotePublic in
    let '(myPublic, _) := Sk2Pk privateAddr in
    let enc := Aes.Encoder_Init hvSecret in
    let cIn := InitCipherIV new_cipher hvSecret myPublic in
    '(_, x) ← XCrypt (Aes.Encoder_Proceed enc) cIn (drop 32 p);
    let hvMac := take 32 x in
    let data := drop 32 x in
    if bool_decide (hvMac = HMac hvSecret data) then Some data else None.

(** ** The handshake *)
Inductive Msg := SChannelInitiate (m_NoncePub : list Z) | SChannelReady | Other (bytes : list Z).

(** What is on the wire: in the clear, or encrypted. *)
Inductive Packet := InClear (m : Msg) | Sealed (plain x : list Z).

(** [SecureConnect] with the nonce that was drawn. *)
Definition SecureConnect (p : ProtocolPlus) (nonce : Z) : option (ProtocolPlus * list Packet) :=
  if negb (m_MyNonce p =? 0) then Some (p, [])
  else if nonce =? 0 then None
  else
    let '(pk, sk) := Sk2Pk nonce in
    Some (mkPlus (m_Enc p) (m_CipherIn p) (m_CipherOut p) sk (m_RemoteNonce p) (m_HMac p) (m_Mode p), [InClear (SChannelInitiate pk)]).

(** A message in a secure mode: the bytes with their authentication code, which [Encrypt] has placed (see [Secure]), through
    the outgoing cipher. *)
Definition SendSealed (p : ProtocolPlus) (bytes : list Z) : option (ProtocolPlus * list Packet) :=
  '(c, x) ← crypt p (m_CipherOut p) bytes; Some (with_out p c, [Sealed bytes x]).

(** [OnMsg(SChannelInitiate)]: the answer in the clear, then the new keys, then the
    first message that is encrypted. *)
Definition OnMsg_Initiate (p : ProtocolPlus) (noncePub : list Z) (nonce : Z) (getTime : list Z) : option (ProtocolPlus * list Packet) :=
  if negb (bool_decide (m_Mode p = Plaintext)) || bool_decide (noncePub = replicate 32 0) then None
  else
    '(p, out) ← SecureConnect p nonce;
    p ← InitCipher (mkPlus (m_Enc p) (m_CipherIn p) (m_CipherOut p) (m_MyNonce p) noncePub (m_HMac p) (m_Mode p));
    '(p, out') ← SendSealed (with_mode p Outgoing) getTime;
    Some (p, out ++ [InClear SChannelReady] ++ out').

Definition OnMsg_Ready (p : ProtocolPlus) : option ProtocolPlus :=
  if bool_decide (m_Mode p = Outgoing) then Some (with_mode p Duplex) else None.

(** A packet arrives: what is sent in answer and what is handed over.  Outside of
    the duplex mode only the handshake is accepted ([TestInputMsgContext]).  The check of the authentication code
    ([VerifyMsg]) is the one of [Secure], where it accepts what a peer with the same key has sent. *)
Definition OnPacket (p : ProtocolPlus) (pkt : Packet) (nonce : Z) (getTime : list Z) : option (ProtocolPlus * list Packet * list (list Z)) :=
  match m_Mode p, pkt with
  | Duplex, Sealed _ x => '(c, m) ← crypt p (m_CipherIn p) x; Some (with_in p c, [], [m])
  | Duplex, InClear _ => None
  | _, Sealed _ _ => None
  | _, InClear (SChannelInitiate pk) => '(p, out) ← OnMsg_Initiate p pk nonce getTime; Some (p, out, [])
  | _, InClear SChannelReady => p ← OnMsg_Ready p; Some (p, [], [])
  | _, InClear (Other _) => None
  end.
End channel.

(** * Facts *)
Section keys.
Context (sha256 : list Z -> list Z) (HMac : list Z -> list Z -> list Z) {G : Type} `{!Curve G, !CurveLaws G, !CurveNeg G}.

(** A secret that has been made to fit its public key. *)
Definition keypair (pk : list Z) (sk : Z) : Prop :=
  bytes_n 32 pk /\ ImportPeerID pk = Some (g_mul sk G_raw) /\ Sk2Pk sk = (pk, sk) /\ g_mul sk G_raw <> g_zero.

Lemma Sk2Pk_ok a : g_mul a G_raw <> g_zero -> keypair (Sk2Pk a).1 (Sk2Pk a).2.
Proof.
  intros Hne. pose proof (ge_get_ok (g_mul a G_raw)) as [Hx Hy]. unfold Sk2Pk at 1 2. unfold Point_Export. rewrite decide_False by done. cbn [fst snd].
  destruct (ge_get (g_mul a G_raw)) as [X Y] eqn:E. cbn [m_X m_Y] in *.
  assert (forall P, ge_get P = mkPoint X 0 -> P <> g_zero -> ImportPeerID X = Some P) as Himp.
  { intros P EP HP. unfold ImportPeerID, Point_ImportNnz. cbn [m_X m_Y]. pose proof (ge_set_get P HP) as Hs. rewrite EP in Hs. exact Hs. }
  assert (forall sk, ge_get (g_mul sk G_raw) = mkPoint X 0 -> g_mul sk G_raw <> g_zero -> keypair X sk) as Hk.
  { intros sk Es Hs. split; [done|]. split; [by apply Himp|]. split; [|done]. unfold Sk2Pk, Point_Export. rewrite decide_False, Es by done. done. }
  destruct (Z.eqb_spec Y 0) as [->|HY]; [by apply Hk|]. assert (Y = 1) as -> by lia.
  assert (g_mul (scalar_neg a) G_raw = g_neg (g_mul a G_raw)) as En. { unfold scalar_neg. by rewrite g_mul_mod, g_mul_neg. }
  apply Hk; rewrite En; [by rewrite ge_get_neg, E|]. intros Ez. apply Hne. by rewrite <- (g_neg_neg (g_mul a G_raw)), Ez, g_neg_0.
Qed.

Lemma keypair_nonzero pk sk : keypair pk sk -> pk <> replicate 32 0 /\ sk <> 0.
Proof.
  intros (_ & Hi & _ & Hne). split.
  - intros ->. unfold ImportPeerID, Point_ImportNnz in Hi. cbn [m_X m_Y] in Hi. change (1 <? 0) with false in Hi. change (replicate 32 0) with zero_hash in Hi.
    by rewrite ge_set_zero in Hi.
  - intros ->. by rewrite g_mul_0 in Hne.
Qed.

(** Both ends compute the same secret. *)
Lemma DiffieHellman_agree pka a pkb b : keypair pka a -> keypair pkb b -> DiffieHellman sha256 a pkb = DiffieHellman sha256 b pka.
Proof.
  intros (_ & Ha & _) (_ & Hb & _). unfold DiffieHellman. rewrite Ha, Hb. cbn [from_option id]. by rewrite !g_mul_mul, Z.mul_comm.
Qed.

Lemma InitCipherIV_ok c k v : bytes_n s_BlockSize (m_pBuf c) -> cipher_ok (InitCipherIV sha256 c k v).
Proof. intros H. split; cbn; [done|lia]. Qed.

(** The old bytes in the buffer do not matter. *)
Lemma InitCipherIV_stream P c c' k v : same_stream P (InitCipherIV sha256 c k v) (InitCipherIV sha256 c' k v).
Proof. intros i. reflexivity. Qed.

Lemma new_cipher_ok : bytes_n s_BlockSize (m_pBuf new_cipher).
Proof. split; [apply bytes_ok_zeros|done]. Qed.

(** What goes through the cipher of a secret for an address comes back. *)
Lemma crypt_back k v m : exists x, (exists c, XCrypt (Aes.Encoder_Proceed (Aes.Encoder_Init k)) (InitCipherIV sha256 new_cipher k v) m = Some (c, x)) /\
  (exists c, XCrypt (Aes.Encoder_Proceed (Aes.Encoder_Init k)) (InitCipherIV sha256 new_cipher k v) x = Some (c, m)) /\ length x = length m.
Proof.
  pose proof (InitCipherIV_ok new_cipher k v new_cipher_ok) as Hc.
  destruct (XCrypt_inverse (Aes.Encoder_Proceed (Aes.Encoder_Init k)) (Encoder_block _) _ _ m Hc Hc ltac:(done)) as (c & c' & x & E1 & E2 & L & _). eauto 6.
Qed.

(** Who has the secret of an address reads what was encrypted for it.
    [Bbs::Encrypt] never fails, and [Bbs::Decrypt] with the secret of the
    address gives back the message, for any message, any address that was made
    by [Sk2Pk] and any nonce - also when secret or nonce had to be negated to fit
    their public keys. *)
Theorem bbs_roundtrip s nonce data :
  secret_ok HMac -> g_mul s G_raw <> g_zero -> g_mul nonce G_raw <> g_zero ->
  let '(addr, sk) := Sk2Pk s in
  exists res, Bbs_Encrypt sha256 HMac addr nonce data = Some (res, (Sk2Pk nonce).2) /\ Bbs_Decrypt sha256 HMac res sk = Some data /\
    length res = (64 + length data)%nat.
Proof.
  intros Hmac Hs Hn. pose proof (Sk2Pk_ok s Hs) as Ks. pose proof (Sk2Pk_ok nonce Hn) as Kn. destruct (Sk2Pk s) as [addr sk]. unfold Bbs_Encrypt.
  destruct (Sk2Pk nonce) as [pk n]. cbn [fst snd] in *. set (k := DiffieHellman sha256 n addr).
  destruct (crypt_back k addr (HMac k data ++ data)) as (x & [c E1] & [c' E2] & L). rewrite E1. cbn [mbind option_bind]. exists (pk ++ x). split; [done|].
  destruct Kn as ([Hpb Lpk] & Ki & _). pose proof (Hmac k data) as [_ Lk]. rewrite length_app, Lk in L.
  split; [|rewrite length_app; lia]. unfold Bbs_Decrypt. rewrite (proj2 (Nat.ltb_ge _ _)) by (rewrite length_app; lia).
  rewrite take_app_length', drop_app_length' by done. destruct Ks as (Hsb & Ksi & Ksp & _). rewrite Ksp.
  assert (DiffieHellman sha256 sk pk = k) as ->. { unfold k, DiffieHellman. rewrite Ki, Ksi. cbn [from_option id]. by rewrite !g_mul_mul, Z.mul_comm. }
  rewrite E2. cbn [mbind option_bind]. rewrite take_app_length', drop_app_length' by done. by rewrite bool_decide_eq_true_2.
Qed.

(** A bad address is not noticed. For an address that is no point of the curve,
    [Bbs::Encrypt] succeeds instead of reporting the bad address, and the key is
    the same for everyone: with the hash of the zero point instead of a
    shared secret, whoever sees the message decrypts it. *)
Theorem bbs_bad_address addr nonce data :
  ImportPeerID (G := G) addr = None ->
  let k := sha256 (replicate 33 0) in
  exists res x c, Bbs_Encrypt sha256 HMac addr nonce data = Some (res, (Sk2Pk nonce).2) /\ res = (Sk2Pk nonce).1 ++ x /\
    XCrypt (Aes.Encoder_Proceed (Aes.Encoder_Init k)) (InitCipherIV sha256 new_cipher k addr) x = Some (c, HMac k data ++ data).
Proof.
  intros Hi k. unfold Bbs_Encrypt. destruct (Sk2Pk nonce) as [pk n]. cbn [fst snd].
  assert (DiffieHellman sha256 n addr = k) as ->.
  { unfold DiffieHellman. rewrite Hi. cbn [from_option id]. rewrite g_mul_zero. unfold Point_Export. by rewrite decide_True. }
  destruct (crypt_back k addr (HMac k data ++ data)) as (x & [c E1] & [c' E2] & L). rewrite E1. cbn [mbind option_bind]. by exists (pk ++ x), x, c'.
Qed.
End keys.

(** ** Two ends of a connection *)

(** An end, with the packets on their way to it, what was handed over there and
    what it has sent in a secure mode. *)
Record End_t := mkEnd { e_p : ProtocolPlus; e_inq : list Packet; e_got : list (list Z); e_sent : list (list Z) }.

Definition plains (out : list Packet) : list (list Z) := out ≫= (fun pkt => match pkt with Sealed m _ => [m] | InClear _ => [] end).

(** The end has become [p], and has sent [out]. *)
Definition acted (e : End_t) (p : ProtocolPlus) (out : list Packet) : End_t := mkEnd p (e_inq e) (e_got e) (e_sent e ++ plains out).
Definition push (e : End_t) (out : list Packet) : End_t := mkEnd (e_p e) (e_inq e ++ out) (e_got e) (e_sent e).
Definition took (e : End_t) (q : list Packet) (got : list (list Z)) : End_t := mkEnd (e_p e) q (e_got e ++ got) (e_sent e).

Section handshake.
Context (sha256 : list Z -> list Z) {G : Type} `{!Curve G}.

(** Either end connects, sends or receives; packets do not overtake each other. *)
Inductive step : End_t * End_t -> End_t * End_t -> Prop :=
| s_connect a b nonce p out :
    g_mul nonce G_raw <> g_zero -> SecureConnect (e_p a) nonce = Some (p, out) -> step (a, b) (acted a p out, push b out)
| s_send a b m p out :
    m_Mode (e_p a) <> Plaintext -> SendSealed (e_p a) m = Some (p, out) -> step (a, b) (acted a p out, push b out)
| s_recv a b pkt q nonce getTime p out got :
    e_inq a = pkt :: q -> g_mul nonce G_raw <> g_zero -> OnPacket sha256 (e_p a) pkt nonce getTime = Some (p, out, got) ->
    step (a, b) (took (acted a p out) q got, push b out)
| s_swap a b a' b' : step (a, b) (a', b') -> step (b, a) (b', a').

(** A connection as it begins. *)
Definition start (p : ProtocolPlus) : End_t := mkEnd (ResetVars p) [] [] [].
End handshake.

Section handshake_facts.
Context (sha256 : list Z -> list Z) {G : Type} `{!Curve G, !CurveLaws G, !CurveNeg G}.
Abbreviation DH := (DiffieHellman sha256).
Abbreviation IV := (InitCipherIV sha256).

Abbreviation aes k := (Aes.Encoder_Proceed (Aes.Encoder_Init k)).

Lemma crypt_aes p k c m : m_Enc p = Aes.Encoder_Init k -> crypt p c m = XCrypt (aes k) c m.
Proof. intros E. unfold crypt. by rewrite E. Qed.

(** The ciphers that an end uses, or is going to use once it has keys. *)
Definition rin (p : ProtocolPlus) (k pk : list Z) : StreamCipher := match m_Mode p with Plaintext => IV (m_CipherIn p) k pk | _ => m_CipherIn p end.
Definition sout (p : ProtocolPlus) (k pk : list Z) : StreamCipher := match m_Mode p with Plaintext => IV (m_CipherOut p) k pk | _ => m_CipherOut p end.

(** Encrypted packets that a cipher is going to read. *)
Inductive chain (k : list Z) : StreamCipher -> list (list Z * list Z) -> StreamCipher -> Prop :=
| chain_nil c : chain k c [] c
| chain_cons c m x c1 Q c2 : XCrypt (aes k) c x = Some (c1, m) -> chain k c1 Q c2 -> chain k c ((m, x) :: Q) c2.

(** The part of the handshake that is on its way. *)
Definition lead (s r : ProtocolPlus) (pks : list Z) : option (list Packet) :=
  match m_Mode s, m_Mode r with
  | Plaintext, Plaintext => Some (if m_MyNonce s =? 0 then [] else [InClear (SChannelInitiate pks)])
  | Plaintext, Outgoing => if m_MyNonce s =? 0 then None else Some []
  | Plaintext, Duplex => None
  | _, Plaintext => Some [InClear (SChannelInitiate pks); InClear SChannelReady]
  | _, Outgoing => Some [InClear SChannelReady]
  | _, Duplex => Some []
  end.

(** From the end [s] to the end [r]. *)
Record flow (s r : End_t) (pks pkr : list Z) : Prop := {
  fl_queue : exists l Q, lead (e_p s) (e_p r) pks = Some l /\ e_inq r = l ++ ((fun mx => Sealed mx.1 mx.2) <$> Q) /\
      e_sent s = e_got r ++ Q.*1 /\ (m_Mode (e_p s) = Plaintext -> Q = []) /\
      (m_MyNonce (e_p s) <> 0 -> m_MyNonce (e_p r) <> 0 ->
         exists c, chain (DH (m_MyNonce (e_p s)) pkr) (rin (e_p r) (DH (m_MyNonce (e_p s)) pkr) pkr) Q c /\ cipher_ok c /\
           same_stream (aes (DH (m_MyNonce (e_p s)) pkr)) (sout (e_p s) (DH (m_MyNonce (e_p s)) pkr) pkr) c)
}.

(** What an end knows. *)
Record party (p o : ProtocolPlus) (pk pko : list Z) : Prop := {
  pt_nonce : m_MyNonce p = 0 \/ keypair pk (m_MyNonce p);
  pt_in : bytes_n s_BlockSize (m_pBuf (m_CipherIn p));
  pt_out : bytes_n s_BlockSize (m_pBuf (m_CipherOut p));
  pt_keys : m_Mode p <> Plaintext -> m_MyNonce p <> 0 /\ m_MyNonce o <> 0 /\ m_Enc p = Aes.Encoder_Init (DH (m_MyNonce p) pko) /\
      m_HMac p = DH (m_MyNonce p) pko /\ cipher_ok (m_CipherIn p) /\ cipher_ok (m_CipherOut p)
}.

Record inv (a b : End_t) : Prop := {
  in_keys : exists pka pkb, party (e_p a) (e_p b) pka pkb /\ party (e_p b) (e_p a) pkb pka /\ flow a b pka pkb /\ flow b a pkb pka
}.

Lemma inv_sym a b : inv a b -> inv b a.
Proof. intros [(pka & pkb & H1 & H2 & H3 & H4)]. split. by exists pkb, pka. Qed.

Lemma chain_app k c Q c1 Q' c2 : chain k c Q c1 -> chain k c1 Q' c2 -> chain k c (Q ++ Q') c2.
Proof. induction 1; intros H'; cbn; [done|]. econstructor; [done|]. by apply IHchain. Qed.

Lemma rin_ok p k pk : bytes_n s_BlockSize (m_pBuf (m_CipherIn p)) -> (m_Mode p <> Plaintext -> cipher_ok (m_CipherIn p)) -> cipher_ok (rin p k pk).
Proof. intros Hb Hc. unfold rin. destruct (m_Mode p); [by apply InitCipherIV_ok|by apply Hc..]. Qed.

Lemma inv_start p q : bytes_n s_BlockSize (m_pBuf (m_CipherIn p)) -> bytes_n s_BlockSize (m_pBuf (m_CipherOut p)) ->
  bytes_n s_BlockSize (m_pBuf (m_CipherIn q)) -> bytes_n s_BlockSize (m_pBuf (m_CipherOut q)) -> inv (start p) (start q).
Proof.
  intros Hp1 Hp2 Hq1 Hq2. split. exists [], []. unfold start. cbn [e_p]. split_and!.
  1,2: split; cbn [ResetVars m_MyNonce m_CipherIn m_CipherOut m_Mode]; [by left|done|done|]; intros Hm; by destruct Hm.
  all: split; exists [], []; unfold lead; cbn [ResetVars m_MyNonce m_Mode e_p e_inq e_sent e_got Z.eqb app fmap list_fmap]; split_and!; try done.
  all: intros Hm; by destruct Hm.
Qed.

Lemma keypair_zero pk n : n = 0 \/ keypair pk n -> n <> 0 -> keypair (G := G) pk n.
Proof. by intros [->|]. Qed.

(** *** Connecting *)
Lemma connect_inv a b nonce : inv a b -> g_mul nonce G_raw <> g_zero ->
  exists p out, SecureConnect (e_p a) nonce = Some (p, out) /\ inv (acted a p out) (push b out) /\
    m_MyNonce p <> 0 /\ m_Mode p = m_Mode (e_p a) /\ plains out = [].
Proof.
  intros Hinv Hn. unfold SecureConnect. destruct (Z.eqb_spec (m_MyNonce (e_p a)) 0) as [E0|E0]; cbn [negb].
  2: { exists (e_p a), []. split_and!; try done. destruct a, b. unfold acted, push. cbn. by rewrite !app_nil_r. }
  destruct (Z.eqb_spec nonce 0) as [->|Hnz]; [by rewrite g_mul_0 in Hn|]. pose proof (Sk2Pk_ok nonce Hn) as Hk. destruct (Sk2Pk nonce) as [pk sk]. cbn [fst snd] in Hk.
  do 2 eexists. split; [done|]. pose proof (keypair_nonzero _ _ Hk) as [_ Hsk]. split_and!; [|done|done|done].
  destruct Hinv as [(pka & pkb & PA & PB & FA & FB)].
  assert (m_Mode (e_p a) = Plaintext) as Ma. { destruct (decide (m_Mode (e_p a) = Plaintext)) as [|Hm]; [done|]. by destruct (pt_keys _ _ _ _ PA Hm) as [? _]. }
  assert (m_Mode (e_p b) = Plaintext) as Mb. { destruct (decide (m_Mode (e_p b) = Plaintext)) as [|Hm]; [done|]. by destruct (pt_keys _ _ _ _ PB Hm) as (_ & ? & _). }
  destruct FA as [(l & Q & L1 & L2 & L3 & L4 & _)]. destruct FB as [(l' & Q' & M1 & M2 & M3 & M4 & _)].
  rewrite (L4 Ma) in *. rewrite (M4 Mb) in *. unfold lead in L1, M1. rewrite Ma, Mb in L1, M1. rewrite E0 in L1. injection L1 as <-. injection M1 as <-.
  cbn [app fmap list_fmap] in *. rewrite app_nil_r in L3, M2, M3.
  split. exists pk, pkb. split_and!.
  - split; cbn [acted push e_p m_MyNonce m_CipherIn m_CipherOut m_Mode]; [by right|apply PA|apply PA|]. intros Hm. by destruct (Hm Ma).
  - split; cbn [acted push e_p]; [apply PB|apply PB|apply PB|]. intros Hm. by destruct (Hm Mb).
  - split. exists [InClear (SChannelInitiate pk)], []. unfold lead. cbn [acted push e_p e_inq e_got e_sent m_Mode m_MyNonce plains mbind list_bind]. rewrite Ma, Mb.
    rewrite (proj2 (Z.eqb_neq _ _)) by done. rewrite L2, L3, !app_nil_r. split_and!; try done. intros _ Hb.
    eexists. split; [constructor|]. unfold rin, sout. cbn [m_Mode m_CipherIn m_CipherOut]. rewrite ?Ma, ?Mb.
    split; [apply InitCipherIV_ok, PB|apply InitCipherIV_stream].
  - split. eexists _, []. unfold lead. cbn [acted push e_p e_inq e_got e_sent m_Mode m_MyNonce fmap list_fmap]. rewrite Ma, Mb, M2, M3, !app_nil_r. split_and!; try done.
    intros Hb _. eexists. split; [constructor|]. unfold rin, sout. cbn [m_Mode m_CipherIn m_CipherOut]. rewrite ?Ma, ?Mb.
    split; [apply InitCipherIV_ok, PA|apply InitCipherIV_stream].
Qed.

(** *** Sending *)
Lemma send_inv a b m : inv a b -> m_Mode (e_p a) <> Plaintext ->
  exists c x, SendSealed (e_p a) m = Some (with_out (e_p a) c, [Sealed m x]) /\ inv (acted a (with_out (e_p a) c) [Sealed m x]) (push b [Sealed m x]).
Proof.
  intros [(pka & pkb & PA & PB & FA & FB)] Hm. destruct (pt_keys _ _ _ _ PA Hm) as (Na & Nb & Ea & Ha & Ci & Co).
  destruct FA as [(l & Q & L1 & L2 & L3 & L4 & L5)]. destruct (L5 Na Nb) as (cf & Hch & Hcf & Hst). set (k := DH (m_MyNonce (e_p a)) pkb) in *.
  assert (sout (e_p a) k pkb = m_CipherOut (e_p a)) as Es by (unfold sout; by destruct (m_Mode (e_p a))). rewrite Es in Hst.
  destruct (XCrypt_inverse (aes k) (Encoder_block _) _ _ m Co Hcf Hst) as (c1 & cf1 & x & E1 & E2 & _ & Hc1 & Hcf1 & Hst1).
  exists c1, x. unfold SendSealed. rewrite (crypt_aes _ k) by exact Ea. rewrite E1. cbn [mbind option_bind]. split; [done|].
  split. exists pka, pkb. split_and!.
  - split; cbn [acted push e_p with_out m_MyNonce m_CipherIn m_CipherOut m_Mode m_Enc m_HMac]; [apply PA|apply PA|apply Hc1|]. intros _. by split_and!.
  - split; cbn [acted push e_p with_out m_MyNonce]; apply PB.
  - split. exists l, (Q ++ [(m, x)]). cbn [acted push e_p e_inq e_got e_sent plains mbind list_bind app]. split_and!.
    + exact L1.
    + by rewrite L2, fmap_app, app_assoc.
    + by rewrite L3, fmap_app, app_assoc.
    + intros Hp. by destruct (Hm Hp).
    + intros _ _. exists cf1. change (m_MyNonce (with_out (e_p a) c1)) with (m_MyNonce (e_p a)). fold k. split_and!; [|done|].
      * eapply chain_app; [exact Hch|]. econstructor; [exact E2|constructor].
      * assert (sout (with_out (e_p a) c1) k pkb = c1) as -> by (unfold sout; cbn [with_out m_Mode m_CipherOut]; by destruct (m_Mode (e_p a))). exact Hst1.
  - destruct FB as [(l' & Q' & M)]. split. exists l', Q'. exact M.
Qed.

(** *** The keys *)
Lemma init_inv a b pk q : inv a b -> m_Mode (e_p a) = Plaintext -> m_MyNonce (e_p a) <> 0 -> e_inq a = InClear (SChannelInitiate pk) :: q ->
  exists p, InitCipher sha256 (mkPlus (m_Enc (e_p a)) (m_CipherIn (e_p a)) (m_CipherOut (e_p a)) (m_MyNonce (e_p a)) pk (m_HMac (e_p a)) (m_Mode (e_p a))) = Some p /\
    inv (took (acted a (with_mode p Outgoing) [InClear SChannelReady]) q []) (push b [InClear SChannelReady]).
Proof.
  intros [(pka & pkb & PA & PB & FA & FB)] Ma Na Hq. pose proof (keypair_zero _ _ (pt_nonce _ _ _ _ PA) Na) as Ka.
  destruct FB as [(l' & Q' & M1 & M2 & M3 & M4 & M5)]. rewrite Hq in M2. unfold lead in M1. rewrite Ma in M1.
  assert (exists l'', l' = InClear (SChannelInitiate pkb) :: l'' /\ q = l'' ++ ((fun mx => Sealed mx.1 mx.2) <$> Q') /\ m_MyNonce (e_p b) <> 0 /\
    l'' = (if bool_decide (m_Mode (e_p b) = Plaintext) then [] else [InClear SChannelReady])) as (l'' & -> & Eq & Nb & El).
  { destruct (m_Mode (e_p b)) eqn:Mb; injection M1 as <-.
    - pose proof (M4 eq_refl) as ->. destruct (Z.eqb_spec (m_MyNonce (e_p b)) 0); [discriminate|]. injection M2 as -> ->. by exists [].
    - destruct (pt_keys _ _ _ _ PB ltac:(by rewrite Mb)) as (? & _). injection M2 as -> ->. by eexists.
    - destruct (pt_keys _ _ _ _ PB ltac:(by rewrite Mb)) as (? & _). injection M2 as -> ->. by eexists. }
  cbn [app] in M2. injection M2 as -> _. pose proof (keypair_zero _ _ (pt_nonce _ _ _ _ PB) Nb) as Kb. pose proof (DiffieHellman_agree sha256 _ _ _ _ Ka Kb) as Hdh.
  unfold InitCipher. cbn [m_MyNonce m_RemoteNonce m_CipherIn m_CipherOut m_Mode]. rewrite (proj2 (Z.eqb_neq _ _)) by done. destruct Ka as (Kb1 & Ki & Ksp & Kne). rewrite Ksp.
  set (k := DH (m_MyNonce (e_p a)) pkb) in *. eexists. split; [done|].
  pose proof (InitCipherIV_ok sha256 (m_CipherIn (e_p a)) k pka (pt_in _ _ _ _ PA)) as Cin.
  pose proof (InitCipherIV_ok sha256 (m_CipherOut (e_p a)) k pkb (pt_out _ _ _ _ PA)) as Cout.
  split. exists pka, pkb. split_and!.
  - split; cbn [took acted push e_p with_mode m_MyNonce m_CipherIn m_CipherOut m_Mode m_Enc m_HMac]; [by right|apply Cin|apply Cout|]. intros _. by split_and!.
  - split; cbn [took acted push e_p with_mode m_MyNonce]; apply PB.
  - destruct FA as [(l & Q & L1 & L2 & L3 & L4 & L5)]. rewrite (L4 Ma) in *. unfold lead in L1. rewrite Ma in L1.
    split. exists (match m_Mode (e_p b) with Plaintext => [InClear (SChannelInitiate pka); InClear SChannelReady] | Outgoing => [InClear SChannelReady] | Duplex => [] end), [].
    unfold lead. cbn [took acted push e_p e_inq e_got e_sent with_mode m_Mode m_MyNonce plains mbind list_bind fmap list_fmap app].
    rewrite L2, L3. cbn [fmap list_fmap]. rewrite !app_nil_r. split_and!; [by destruct (m_Mode (e_p b))| |done|done|].
    + destruct (m_Mode (e_p b)); [..|discriminate]; rewrite (proj2 (Z.eqb_neq _ _)) in L1 by done; by injection L1 as <-.
    + intros H1 H2. destruct (L5 Na H2) as (c & Hc1 & Hc2 & Hc3). exists c. fold k in Hc1, Hc3 |- *. split_and!; [exact Hc1|done|].
      unfold sout in *. cbn [m_Mode m_CipherOut]. rewrite Ma in Hc3. exact Hc3.
  - split. exists l'', Q'. unfold lead. cbn [took acted push e_p e_inq e_got e_sent with_mode m_Mode m_MyNonce]. split_and!.
    + rewrite El. destruct (m_Mode (e_p b)); [|done..]. by rewrite (proj2 (Z.eqb_neq _ _)).
    + exact Eq.
    + by rewrite app_nil_r.
    + exact M4.
    + intros H1 H2. destruct (M5 H1 Na) as (c & Hc1 & Hc2 & Hc3). exists c. split_and!; [|done|exact Hc3]. unfold rin in *. cbn [m_Mode m_CipherIn]. rewrite Ma, <- Hdh in Hc1.
      rewrite <- Hdh. exact Hc1.
Qed.

(** *** Receiving *)
Lemma recv_inv a b pkt q nonce getTime : inv a b -> e_inq a = pkt :: q -> g_mul nonce G_raw <> g_zero ->
  exists p out got, OnPacket sha256 (e_p a) pkt nonce getTime = Some (p, out, got) /\ inv (took (acted a p out) q got) (push b out).
Proof.
  intros Hinv Hq Hn. unfold OnPacket. destruct (m_Mode (e_p a)) eqn:Ma.
  - assert (exists pk, pkt = InClear (SChannelInitiate pk) /\ pk <> replicate 32 0) as (pk & -> & Hpk).
    { destruct Hinv as [(pka & pkb & PA & PB & FA & [(l' & Q' & M1 & M2 & M3 & M4 & M5)])]. exists pkb. unfold lead in M1. rewrite Ma, ?Hq in *.
      assert (m_MyNonce (e_p b) <> 0 -> pkb <> replicate 32 0) as Hnz.
      { intros H. by destruct (keypair_nonzero _ _ (keypair_zero _ _ (pt_nonce _ _ _ _ PB) H)). }
      destruct (m_Mode (e_p b)) eqn:Mb; injection M1 as <-.
      - rewrite (M4 eq_refl) in M2. destruct (Z.eqb_spec (m_MyNonce (e_p b)) 0); [discriminate|]. injection M2 as -> _. auto.
      - destruct (pt_keys _ _ _ _ PB ltac:(by rewrite Mb)) as (? & _). injection M2 as -> _. auto.
      - destruct (pt_keys _ _ _ _ PB ltac:(by rewrite Mb)) as (? & _). injection M2 as -> _. auto. }
    destruct (connect_inv a b nonce Hinv Hn) as (p1 & out1 & E1 & I1 & N1 & M1 & P1).
    destruct (init_inv (acted a p1 out1) (push b out1) pk q I1) as (p2 & E2 & I2); [by cbn; rewrite M1|done|done|].
    destruct (send_inv _ _ getTime I2) as (c & x & E3 & I3); [done|].
    cbn [took acted push e_p e_inq e_got e_sent] in E2, E3, I3. unfold OnMsg_Initiate. rewrite Ma. rewrite bool_decide_eq_true_2, bool_decide_eq_false_2 by done. cbn [negb orb].
    rewrite E1. cbn [mbind option_bind]. rewrite E2. cbn [mbind option_bind]. rewrite E3. cbn [mbind option_bind]. do 3 eexists. split; [done|].
    unfold took, acted, push in *. cbn [e_p e_inq e_got e_sent] in *. rewrite P1 in I3. rewrite !app_nil_r in *.
    assert (plains (out1 ++ [InClear SChannelReady] ++ [Sealed getTime x]) = plains [Sealed getTime x]) as ->. { unfold plains in *. rewrite bind_app, P1. done. }
    rewrite <- !app_assoc in I3. exact I3.
  - destruct Hinv as [(pka & pkb & PA & PB & FA & [(l' & Q' & M1 & M2 & M3 & M4 & M5)])]. unfold lead in M1. rewrite Ma in M1.
    assert (m_Mode (e_p b) <> Plaintext /\ l' = [InClear SChannelReady]) as [Mb ->].
    { destruct (m_Mode (e_p b)) eqn:Mb; [|by injection M1 as <-..]. exfalso. destruct (_ =? 0); [done|]. injection M1 as <-. rewrite (M4 eq_refl), Hq in M2. done. }
    rewrite Hq in M2. cbn [app] in M2. injection M2 as -> ->. unfold OnMsg_Ready. rewrite Ma, bool_decide_eq_true_2 by done. cbn [mbind option_bind].
    do 3 eexists. split; [done|]. split. exists pka, pkb. split_and!.
    + split; cbn [took acted push e_p with_mode m_MyNonce m_CipherIn m_CipherOut m_Mode m_Enc m_HMac]; try apply PA. intros _. apply PA. by rewrite Ma.
    + split; cbn [took acted push e_p with_mode m_MyNonce]; apply PB.
    + destruct FA as [(l & Q & L1 & L2 & L3 & L4 & L5)]. split. exists l, Q. unfold lead in *. cbn [took acted push e_p e_inq e_got e_sent with_mode m_Mode m_MyNonce plains mbind list_bind].
      rewrite !app_nil_r. rewrite Ma in L1. split_and!; try done. unfold sout, rin in *. cbn [m_Mode m_CipherOut]. rewrite Ma in L5. exact L5.
    + split. exists [], Q'. unfold lead. cbn [took acted push e_p e_inq e_got e_sent with_mode m_Mode m_MyNonce app]. rewrite app_nil_r. split_and!; try done.
      * by destruct (m_Mode (e_p b)).
      * unfold sout, rin in *. cbn [m_Mode m_CipherIn]. rewrite Ma in M5. exact M5.
  - destruct Hinv as [(pka & pkb & PA & PB & FA & [(l' & Q' & M1 & M2 & M3 & M4 & M5)])]. unfold lead in M1. rewrite Ma in M1.
    assert (m_Mode (e_p b) <> Plaintext /\ l' = []) as [Mb ->] by (destruct (m_Mode (e_p b)) eqn:Mb; [done|by injection M1 as <-..]).
    rewrite Hq in M2. cbn [app] in M2. destruct Q' as [|[m x] Q']; [done|]. cbn [fmap list_fmap fst snd] in M2. injection M2 as -> ->.
    destruct (pt_keys _ _ _ _ PA ltac:(by rewrite Ma)) as (Na & Nb & Ea & Ha & Ci & Co). destruct (M5 Nb Na) as (cf & Hch & Hcf & Hst).
    assert (DH (m_MyNonce (e_p b)) pka = DH (m_MyNonce (e_p a)) pkb) as Hdh.
    { exact (DiffieHellman_agree sha256 _ _ _ _ (keypair_zero _ _ (pt_nonce _ _ _ _ PB) Nb) (keypair_zero _ _ (pt_nonce _ _ _ _ PA) Na)). }
    rewrite Hdh in *. set (k := DH (m_MyNonce (e_p a)) pkb) in *. unfold rin in Hch. rewrite Ma in Hch. inversion Hch as [|? ? ? c1 ? ? E1 Hch1]; subst.
    rewrite (crypt_aes _ k) by exact Ea. rewrite E1. cbn [mbind option_bind]. do 3 eexists. split; [done|].
    destruct (XCrypt_ok (aes k) (Encoder_block _) (m_CipherIn (e_p a)) x Ci) as (c1' & E1' & Hc1 & _). rewrite E1 in E1'. injection E1' as <- Em.
    split. exists pka, pkb. split_and!.
    + split; cbn [took acted push e_p with_in m_MyNonce m_CipherIn m_CipherOut m_Mode m_Enc m_HMac]; [apply PA|apply Hc1|apply PA|]. intros _. by split_and!.
    + split; cbn [took acted push e_p with_in m_MyNonce]; apply PB.
    + destruct FA as [(l & Q & L1 & L2 & L3 & L4 & L5)]. split. exists l, Q. cbn [took acted push e_p e_inq e_got e_sent plains mbind list_bind]. rewrite !app_nil_r. by split_and!.
    + split. exists [], Q'. unfold lead. cbn [took acted push e_p e_inq e_got e_sent with_in m_Mode m_MyNonce app]. rewrite Ma. split_and!; try done.
      * rewrite M3. cbn [fmap list_fmap fst]. by rewrite <- app_assoc.
      * intros _ _. exists cf. rewrite Hdh. fold k. unfold rin. cbn [with_in m_Mode m_CipherIn]. rewrite Ma. by split_and!.
Qed.

Lemma step_inv x y : step sha256 x y -> inv x.1 x.2 -> inv y.1 y.2.
Proof.
  induction 1 as [a b nonce p out Hn E|a b m p out Hm E|a b pkt q nonce gt p out got Hq Hn E|a b a' b' _ IH]; cbn [fst snd] in *; intros Hinv.
  - destruct (connect_inv a b nonce Hinv Hn) as (p' & out' & E' & I & _). rewrite E in E'. by injection E' as <- <-.
  - destruct (send_inv a b m Hinv Hm) as (c & x & E' & I). rewrite E in E'. by injection E' as -> ->.
  - destruct (recv_inv a b pkt q nonce gt Hinv Hq Hn) as (p' & out' & got' & E' & I). rewrite E in E'. by injection E' as <- <- <-.
  - apply inv_sym, IH, inv_sym, Hinv.
Qed.

Lemma inv_prefix a b : inv a b -> e_got b `prefix_of` e_sent a.
Proof. intros [(pka & pkb & _ & _ & [(l & Q & _ & _ & -> & _)] & _)]. by eexists. Qed.

(** With nothing on its way, the handshake is complete on both ends. *)
Lemma inv_quiet a b : inv a b -> m_MyNonce (e_p a) <> 0 -> e_inq a = [] -> e_inq b = [] ->
  m_Mode (e_p a) = Duplex /\ m_Mode (e_p b) = Duplex /\ e_got b = e_sent a /\ paired (e_p a) (e_p b).
Proof.
  intros [(pka & pkb & PA & PB & [(l & Q & L1 & L2 & L3 & L4 & L5)] & [(l' & Q' & M1 & M2 & M3 & M4 & _)])] Na Qa Qb.
  rewrite Qb in L2. rewrite Qa in M2. symmetry in L2, M2. apply app_nil in L2 as [-> L2], M2 as [-> M2]. apply fmap_nil_inv in L2 as ->. apply fmap_nil_inv in M2 as ->.
  unfold lead in L1, M1. rewrite (proj2 (Z.eqb_neq _ _) Na) in L1.
  assert (m_Mode (e_p a) = Duplex /\ m_Mode (e_p b) = Duplex) as [Ma Mb].
  { destruct (m_Mode (e_p a)), (m_Mode (e_p b)); try discriminate; try done; by destruct (_ =? 0). }
  split_and!; [done|done|by rewrite L3, app_nil_r|]. destruct (pt_keys _ _ _ _ PA ltac:(by rewrite Ma)) as (_ & Nb & Ea & Ha & Cia & Coa).
  destruct (pt_keys _ _ _ _ PB ltac:(by rewrite Mb)) as (_ & _ & Eb & Hb & Cib & Cob). destruct (L5 Na Nb) as (c & Hch & Hc & Hst).
  pose proof (DiffieHellman_agree sha256 _ _ _ _ (keypair_zero _ _ (pt_nonce _ _ _ _ PA) Na) (keypair_zero _ _ (pt_nonce _ _ _ _ PB) Nb)) as Hdh.
  unfold rin, sout in *. rewrite Ma in Hst. rewrite Mb in Hch. inversion Hch; subst. split; try done.
  - rewrite Ea, Eb. f_equal. exact (eq_sym Hdh).
  - rewrite Ha, Hb. exact (eq_sym Hdh).
  - by rewrite Ma.
  - rewrite Ea. exact Hst.
Qed.

(** C10: The handshake works in every order of events. Whatever the two ends of a
    connection do - either or both connect, send and receive at any time, with
    any nonces - no packet is ever rejected, every packet is read in the mode
    in which it was written, and what is handed over at one end is the
    beginning of what was sent at the other one. When one end has connected and
    nothing is on its way any more, both ends are in the duplex mode with equal
    keys and matching ciphers, and everything that was sent has arrived. *)
Theorem secure_handshake p q a b :
  bytes_n s_BlockSize (m_pBuf (m_CipherIn p)) -> bytes_n s_BlockSize (m_pBuf (m_CipherOut p)) ->
  bytes_n s_BlockSize (m_pBuf (m_CipherIn q)) -> bytes_n s_BlockSize (m_pBuf (m_CipherOut q)) ->
  rtc (step sha256) (start p, start q) (a, b) ->
  (forall pkt rest nonce getTime, e_inq a = pkt :: rest -> g_mul nonce G_raw <> g_zero -> is_Some (OnPacket sha256 (e_p a) pkt nonce getTime)) /\
  (forall pkt rest nonce getTime, e_inq b = pkt :: rest -> g_mul nonce G_raw <> g_zero -> is_Some (OnPacket sha256 (e_p b) pkt nonce getTime)) /\
  e_got b `prefix_of` e_sent a /\ e_got a `prefix_of` e_sent b /\
  (m_MyNonce (e_p a) <> 0 -> e_inq a = [] -> e_inq b = [] ->
     e_got b = e_sent a /\ e_got a = e_sent b /\ paired (e_p a) (e_p b) /\ paired (e_p b) (e_p a)).
Proof.
  intros H1 H2 H3 H4 Hrtc. assert (inv a b) as Hinv.
  { change (inv (a, b).1 (a, b).2). revert Hrtc. apply (rtc_ind_r (fun x => inv x.1 x.2)); [by apply inv_start|]. intros y z _ Hs Hi. by apply (step_inv y z). }
  pose proof (inv_sym _ _ Hinv) as Hinv'. split_and!.
  - intros pkt rest nonce gt Hq Hn. destruct (recv_inv a b pkt rest nonce gt Hinv Hq Hn) as (p' & out & got & -> & _). by eexists.
  - intros pkt rest nonce gt Hq Hn. destruct (recv_inv b a pkt rest nonce gt Hinv' Hq Hn) as (p' & out & got & -> & _). by eexists.
  - by apply inv_prefix.
  - by apply inv_prefix.
  - intros Na Qa Qb. destruct (inv_quiet a b Hinv Na Qa Qb) as (Ma & Mb & G1 & P1).
    assert (m_MyNonce (e_p b) <> 0) as Nb. { destruct Hinv as [(pka & pkb & _ & PB & _)]. apply (pt_keys _ _ _ _ PB). by rewrite Mb. }
    destruct (inv_quiet b a Hinv' Nb Qb Qa) as (_ & _ & G2 & P2). done.
Qed.
End handshake_facts.

(** ** A small instance

    The numbers below the order under addition; a number and its opposite share
    their abscissa, the smaller one of the two. *)
Module Demo.
Import Ecc.Demo.

Definition zs : Type := zn.
Definition zs_get (x : zs) : Point := if 2 * `x <? order then mkPoint (be_bytes 32 (`x)) 0 else mkPoint (be_bytes 32 (order - `x)) 1.
Definition zs_set (X : list Z) (y : Z) : option zs :=
  if bool_decide (0 < 2 * be_val X < order /\ (y = 0 \/ y = 1)) then Some (zn_of (if y =? 0 then be_val X else order - be_val X)) else None.

#[export] Instance zs_curve : Curve zs := {|
  g_zero := @g_zero zn zn_curve; g_add := @g_add zn zn_curve; g_neg := @g_neg zn zn_curve; g_mul := @g_mul zn zn_curve; g_eq_dec := @g_eq_dec zn zn_curve;
  ge_set := zs_set; ge_get := zs_get; G_raw := @G_raw zn zn_curve; H_raw := @H_raw zn zn_curve; J_raw := @J_raw zn zn_curve
|}.

Lemma order_odd : order mod 2 = 1.
Proof. vm_compute. done. Qed.

Lemma zs_pos (x : zs) : x <> g_zero -> 0 < `x.
Proof.
  intros Hx. pose proof (zn_range x) as Hr. assert (`x <> 0); [|lia]. intros E. apply Hx, zn_eq. rewrite E. symmetry. apply Z.mod_0_l. pose proof order_bounds. lia.
Qed.

#[export] Instance zs_laws : CurveLaws zs.
Proof.
  pose proof order_bounds as Ho. pose proof order_odd as Hodd.
  split; [exact (@g_add_comm zn zn_curve zn_laws)|exact (@g_add_assoc zn zn_curve zn_laws)|exact (@g_add_0_l zn zn_curve zn_laws)|exact (@g_add_neg zn zn_curve zn_laws)|exact (@g_mul_add zn zn_curve zn_laws)|
    exact (@g_mul_distr zn zn_curve zn_laws)|exact (@g_mul_mul zn zn_curve zn_laws)|exact (@g_mul_1 zn zn_curve zn_laws)|exact (@g_mul_order zn zn_curve zn_laws)|..].
  - intros x Hx. pose proof (zs_pos x Hx) as H0. pose proof (zn_range x) as Hr. cbn [ge_set ge_get zs_curve]. unfold zs_get, zs_set.
    assert (2 * `x <> order) as Hne by (intros E; rewrite <- E, Z.mul_comm, Z.mod_mul in Hodd; lia).
    destruct (Z.ltb_spec (2 * `x) order); cbn [m_X m_Y]; rewrite be_bytes_small by lia; rewrite bool_decide_eq_true_2 by lia; cbn [Z.eqb]; f_equal; apply zn_eq.
    + apply zn_mod.
    + unfold zn_of. cbn [proj1_sig]. replace (order - (order - `x)) with (`x) by lia. apply zn_mod.
  - cbn [ge_set zs_curve]. unfold zs_set. rewrite bool_decide_eq_false_2; [done|]. assert (be_val zero_hash = 0) as -> by (vm_compute; done). lia.
  - intros x. cbn [ge_get zs_curve]. unfold zs_get. destruct (_ <? _); cbn [m_X m_Y]; (split; [split; [apply bytes_ok_be_bytes|apply length_be_bytes]|lia]).
Qed.

#[export] Instance zs_neg : CurveNeg zs.
Proof.
  intros x Hx. pose proof order_bounds as Ho. pose proof order_odd as Hodd. pose proof (zs_pos x Hx) as H0. pose proof (zn_range x) as Hr.
  cbn [ge_get g_neg zs_curve zn_curve]. unfold zs_get, zn_of. cbn [proj1_sig]. rewrite (Z.mod_opp_l_nz (`x) order) by (rewrite ?Z.mod_small; lia). rewrite Z.mod_small by lia.
  assert (2 * `x <> order) as Hne by (intros E; rewrite <- E, Z.mul_comm, Z.mod_mul in Hodd; lia).
  destruct (Z.ltb_spec (2 * (order - `x)) order), (Z.ltb_spec (2 * `x) order); try lia; cbn [m_X m_Y]; f_equal; f_equal; lia.
Qed.

Lemma zs_generates n : (n mod order =? 0) = false -> g_mul (G := zs) n G_raw <> g_zero.
Proof.
  intros Hn E. apply (f_equal proj1_sig) in E. cbn [g_mul g_zero G_raw zs_curve zn_curve zn_of proj1_sig] in E. pose proof order_bounds.
  rewrite (Z.mod_small 1), Z.mul_1_r, Z.mod_0_l in E by lia. apply Z.eqb_neq in Hn. lia.
Qed.
End Demo.
Import Demo Secure.Demo.

Definition demo_sha (l : list Z) : list Z := be_bytes 32 (3 + be_val l).

Lemma bbs_roundtrip_witness :
  let '(addr, sk) := Sk2Pk (G := zs) 5 in
  exists res, Bbs_Encrypt (G := zs) demo_sha demo_hmac addr (order - 7) [1; 2; 3] = Some (res, (Sk2Pk (G := zs) (order - 7)).2) /\
    Bbs_Decrypt (G := zs) demo_sha demo_hmac res sk = Some [1; 2; 3] /\ length res = (64 + 3)%nat.
Proof.
  apply (bbs_roundtrip (G := zs) demo_sha demo_hmac 5 (order - 7) [1; 2; 3] demo_hmac_ok); apply zs_generates; vm_compute; reflexivity.
Defined.

Lemma bbs_bad_address_witness :
  let k := demo_sha (replicate 33 0) in
  exists res x c, Bbs_Encrypt (G := zs) demo_sha demo_hmac (replicate 32 255) 5 [1; 2; 3] = Some (res, (Sk2Pk (G := zs) 5).2) /\ res = (Sk2Pk (G := zs) 5).1 ++ x /\
    XCrypt (Aes.Encoder_Proceed (Aes.Encoder_Init k)) (InitCipherIV demo_sha new_cipher k (replicate 32 255)) x = Some (c, demo_hmac k [1; 2; 3] ++ [1; 2; 3]).
Proof.
  apply (bbs_bad_address (G := zs) demo_sha demo_hmac (replicate 32 255) 5 [1; 2; 3]).
  unfold ImportPeerID, Point_ImportNnz. cbn [m_X m_Y ge_set zs_curve]. change (1 <? 0) with false. cbv iota. unfold zs_set.
  assert (order < 2 * be_val (replicate 32 255)) as Hbig by (vm_compute; reflexivity). rewrite bool_decide_eq_false_2; [done|lia].
Defined.

(** One end has connected; its packet is on its way. *)
Lemma secure_handshake_witness :
  exists p out, SecureConnect (G := zs) (e_p (start demo_plus)) 5 = Some (p, out) /\
  let a := acted (start demo_plus) p out in let b := push (start demo_plus) out in
  (forall pkt rest nonce getTime, e_inq b = pkt :: rest -> g_mul (G := zs) nonce G_raw <> g_zero -> is_Some (OnPacket (G := zs) demo_sha (e_p b) pkt nonce getTime)) /\
  e_got b `prefix_of` e_sent a.
Proof.
  destruct (SecureConnect (G := zs) (e_p (start demo_plus)) 5) as [[p out]|] eqn:E.
  - exists p, out. split; [done|]. assert (bytes_n s_BlockSize (m_pBuf (m_CipherIn demo_plus))) as Hb by (split; [apply bytes_ok_zeros|done]).
    assert (g_mul (G := zs) 5 G_raw <> g_zero) as H5 by (apply zs_generates; vm_compute; reflexivity).
    destruct (secure_handshake (G := zs) demo_sha demo_plus demo_plus (acted (start demo_plus) p out) (push (start demo_plus) out) Hb Hb Hb Hb) as (_ & H2 & H3 & _).
    + apply rtc_once. by apply (s_connect demo_sha _ _ 5).
    + by split.
  - exfalso. unfold SecureConnect in E. cbn [start e_p ResetVars m_MyNonce Z.eqb negb] in E. by destruct (Sk2Pk 5).
Defined.
