(* ===== verification/PeerManager.v ===== *)
(** The peer manager, [core/peer_manager.h] and [core/peer_manager.cpp], with
    the part of the node that saves and restores it ([Node::PeerMan::OnFlush]
    and [Node::PeerMan::Initialize] of [node/node.cpp]).

    Peers are objects in memory in five intrusive containers: by identity, by
    rating, by rating adjusted with the time without a connection, by address,
    and the list of active peers.  The callbacks are the ones of the node: [Node::PeerMan::ActivatePeer] opens
    a connection and does nothing to the manager; [Node::PeerMan::DeactivatePeer] closes the connection of the
    peer with [Node::Peer::DeleteSelf], which may delete the peer.  What the
    code asserts is [None] otherwise.  The clock is an argument of the
    operations that read it. *)

From stdpp Require Import gmap sorting.
From S2P Require Import Prelude Intrusive UintBig EccData.

(** ** [PeerManager::Rating] *)
Definition Rating_Initial : Z := 1024.
Definition PenaltyNetworkErr : Z := 128.
Definition Rating_Max : Z := 10240.

Definition Saturate (v : Z) : Z := if v <? Rating_Max then v else Rating_Max.
Definition Rating_Inc (r delta : Z) : Z := Saturate (u32 (r + delta)).
Definition Rating_Dec (r delta : Z) : Z := if delta <? r then u32 (r - delta) else 1.

Record Cfg := mkCfg {
  m_DesiredHighest : Z;
  m_DesiredTotal : Z;
  m_TimeoutDisconnect_ms : Z;
  m_TimeoutReconnect_ms : Z;
  m_TimeoutBan_ms : Z;
  m_TimeoutAddrChange_s : Z;
  m_StarvationRatioInc : Z;
  m_StarvationRatioDec : Z
}.

Definition default_Cfg : Cfg := mkCfg 5 10 (1000 * 60 * 2) 1000 (1000 * 60 * 10) (60 * 60 * 2) 1 2.

(** [PeerInfo]; an address is the packed number, [0] when it is empty. *)
Record PeerInfo := mkPeer {
  pi_ID : list Z;
  pi_RawRating : Z;
  pi_Increment : Z;
  pi_Now : bool;
  pi_Next : bool;
  pi_Addr : Z;
  pi_LastSeen : Z;
  pi_LastActivity_ms : Z
}.

(** [AdjustedRating::get]. *)
Definition adjusted (x : PeerInfo) : Z := Saturate (u32 (pi_RawRating x + pi_Increment x)).

Record PeerManager := mkPM {
  pm_mem : gmap nat PeerInfo;
  pm_IDs : list nat;
  pm_Ratings : list nat;
  pm_AdjustedRatings : list nat;
  pm_Addr : list nat;
  pm_Active : list nat;
  pm_TicksLast_ms : Z
}.

(** The orders of the sets; the ratings are in reverse order. *)
Definition id_lt (a x : list Z) : bool := _Cmp a x <? 0.
Definition rating_lt (a x : Z) : bool := x <? a.
Definition ID_lt (mem : gmap nat PeerInfo) := by_key mem pi_ID id_lt.
Definition RawRating_lt (mem : gmap nat PeerInfo) := by_key mem pi_RawRating rating_lt.
Definition AdjustedRating_lt (mem : gmap nat PeerInfo) := by_key mem adjusted rating_lt.
Definition Addr_lt (mem : gmap nat PeerInfo) := by_key mem pi_Addr Z.ltb.

Definition zero_id : list Z := replicate 32 0.
Definition is_zero_id (id : list Z) : bool := _Cmp id zero_id =? 0.

Definition set_Rating (x : PeerInfo) (raw inc : Z) : PeerInfo :=
  mkPeer (pi_ID x) raw inc (pi_Now x) (pi_Next x) (pi_Addr x) (pi_LastSeen x) (pi_LastActivity_ms x).
Definition set_Next (x : PeerInfo) (b : bool) : PeerInfo :=
  mkPeer (pi_ID x) (pi_RawRating x) (pi_Increment x) (pi_Now x) b (pi_Addr x) (pi_LastSeen x) (pi_LastActivity_ms x).
Definition set_Now (x : PeerInfo) (b : bool) (t : Z) : PeerInfo :=
  mkPeer (pi_ID x) (pi_RawRating x) (pi_Increment x) b (pi_Next x) (pi_Addr x) (pi_LastSeen x) t.
Definition set_Addr (x : PeerInfo) (a : Z) : PeerInfo :=
  mkPeer (pi_ID x) (pi_RawRating x) (pi_Increment x) (pi_Now x) (pi_Next x) a (pi_LastSeen x) (pi_LastActivity_ms x).
Definition set_LastSeen (x : PeerInfo) (t : Z) : PeerInfo :=
  mkPeer (pi_ID x) (pi_RawRating x) (pi_Increment x) (pi_Now x) (pi_Next x) (pi_Addr x) t (pi_LastActivity_ms x).

Definition with_mem (pm : PeerManager) (mem : gmap nat PeerInfo) : PeerManager :=
  mkPM mem (pm_IDs pm) (pm_Ratings pm) (pm_AdjustedRatings pm) (pm_Addr pm) (pm_Active pm) (pm_TicksLast_ms pm).

Section operations.
Context (cfg : Cfg).

(** [OnActive]; [now] is what [GetTimeNnz_ms] gives. *)
Definition OnActive (pm : PeerManager) (p : nat) (bActive : bool) (now : Z) : option PeerManager :=
  x ← pm_mem pm !! p;
  if Bool.eqb (pi_Now x) bActive then Some pm
  else
    let mem := <[p := set_Now x bActive now]> (pm_mem pm) in
    active ← (if bActive then Some (pm_Active pm ++ [p]) else ms_erase p (pm_Active pm));
    Some (mkPM mem (pm_IDs pm) (pm_Ratings pm) (pm_AdjustedRatings pm) (pm_Addr pm) active (pm_TicksLast_ms pm)).

Definition ModifyRatingInternal (pm : PeerManager) (p : nat) (delta : Z) (bAdd ban : bool) : option PeerManager :=
  x ← pm_mem pm !! p;
  ratings ← ms_erase p (pm_Ratings pm);
  adj ← (if negb (pi_RawRating x =? 0) then ms_erase p (pm_AdjustedRatings pm) else Some (pm_AdjustedRatings pm));
  if ban then
    let mem := <[p := set_Rating x 0 0]> (pm_mem pm) in
    Some (mkPM mem (pm_IDs pm) (ms_insert (RawRating_lt mem) p ratings) adj (pm_Addr pm) (pm_Active pm) (pm_TicksLast_ms pm))
  else
    let raw := if bAdd then Rating_Inc (pi_RawRating x) delta else Rating_Dec (pi_RawRating x) delta in
    if raw =? 0 then None
    else
      let mem := <[p := set_Rating x raw (pi_Increment x)]> (pm_mem pm) in
      Some (mkPM mem (pm_IDs pm) (ms_insert (RawRating_lt mem) p ratings) (ms_insert (AdjustedRating_lt mem) p adj)
              (pm_Addr pm) (pm_Active pm) (pm_TicksLast_ms pm)).

Definition ModifyRating (pm : PeerManager) (p : nat) (delta : Z) (bAdd : bool) : option PeerManager :=
  ModifyRatingInternal pm p delta bAdd false.

Definition Ban (pm : PeerManager) (p : nat) : option PeerManager := ModifyRatingInternal pm p 0 false true.

Definition OnSeen (pm : PeerManager) (p : nat) (timestamp : Z) : option PeerManager :=
  x ← pm_mem pm !! p; Some (with_mem pm (<[p := set_LastSeen x timestamp]> (pm_mem pm))).

Definition OnRemoteError (pm : PeerManager) (p : nat) (bShouldBan : bool) (now : Z) : option PeerManager :=
  if bShouldBan then Ban pm p
  else
    x ← pm_mem pm !! p;
    if u32 (now - pi_LastActivity_ms x) <? m_TimeoutDisconnect_ms cfg then ModifyRating pm p PenaltyNetworkErr false
    else Some pm.

Definition IsOutdated (x : PeerInfo) (timestamp : Z) : bool :=
  m_TimeoutAddrChange_s cfg <? u64 (timestamp - pi_LastSeen x).

Definition RemoveAddr (pm : PeerManager) (p : nat) : option PeerManager :=
  x ← pm_mem pm !! p;
  if negb (pi_Addr x =? 0) then
    addrs ← ms_erase p (pm_Addr pm);
    Some (mkPM (<[p := set_Addr x 0]> (pm_mem pm)) (pm_IDs pm) (pm_Ratings pm) (pm_AdjustedRatings pm) addrs
            (pm_Active pm) (pm_TicksLast_ms pm))
  else Some pm.

Definition ModifyAddr (pm : PeerManager) (p : nat) (addr : Z) : option PeerManager :=
  x ← pm_mem pm !! p;
  if addr =? pi_Addr x then Some pm
  else
    pm ← RemoveAddr pm p;
    if addr =? 0 then Some pm
    else
      pm ← (match ms_find (pm_mem pm) pi_Addr Z.ltb addr (pm_Addr pm) with Some q => RemoveAddr pm q | None => Some pm end);
      x ← pm_mem pm !! p;
      let mem := <[p := set_Addr x addr]> (pm_mem pm) in
      Some (mkPM mem (pm_IDs pm) (pm_Ratings pm) (pm_AdjustedRatings pm) (ms_insert (Addr_lt mem) p (pm_Addr pm))
              (pm_Active pm) (pm_TicksLast_ms pm)).

(** [Find]; [fresh] is the address that [AllocPeer] gives. The result holds the
    manager, the peer and the final value of [bCreate]. *)
Definition Find (pm : PeerManager) (id : list Z) (bCreate : bool) (fresh : nat) : PeerManager * option nat * bool :=
  match ms_find (pm_mem pm) pi_ID id_lt id (pm_IDs pm) with
  | Some p => (pm, Some p, false)
  | None =>
      if negb bCreate then (pm, None, bCreate)
      else
        let mem := <[fresh := mkPeer id Rating_Initial 0 false false 0 0 0]> (pm_mem pm) in
        (mkPM mem (if negb (is_zero_id id) then ms_insert (ID_lt mem) fresh (pm_IDs pm) else pm_IDs pm)
           (ms_insert (RawRating_lt mem) fresh (pm_Ratings pm)) (ms_insert (AdjustedRating_lt mem) fresh (pm_AdjustedRatings pm))
           (pm_Addr pm) (pm_Active pm) (pm_TicksLast_ms pm), Some fresh, bCreate)
  end.

(** The second part of [OnPeer], after the search by address. *)
Definition OnPeer_find (pm : PeerManager) (id : list Z) (addr : Z) (bAddrVerified : bool) (fresh : nat) (timestamp : Z)
  : option (PeerManager * option nat) :=
  let '(pm, ret, _) := Find pm id true fresh in
  p ← ret;
  x ← pm_mem pm !! p;
  if bAddrVerified || (pi_Addr x =? 0) || IsOutdated x timestamp then
    pm ← ModifyAddr pm p addr; Some (pm, Some p)
  else Some (pm, Some p).

Definition OnPeer (pm : PeerManager) (id : list Z) (addr : Z) (bAddrVerified : bool) (fresh : nat) (timestamp : Z)
  : option (PeerManager * option nat) :=
  if is_zero_id id then
    if negb bAddrVerified then Some (pm, None)
    else
      match ms_find (pm_mem pm) pi_Addr Z.ltb addr (pm_Addr pm) with
      | Some q => Some (pm, Some q)
      | None => OnPeer_find pm id addr bAddrVerified fresh timestamp
      end
  else OnPeer_find pm id addr bAddrVerified fresh timestamp.

Definition Delete (pm : PeerManager) (p : nat) (now : Z) : option PeerManager :=
  pm ← OnActive pm p false now;
  pm ← RemoveAddr pm p;
  x ← pm_mem pm !! p;
  ratings ← ms_erase p (pm_Ratings pm);
  adj ← (if negb (pi_RawRating x =? 0) then ms_erase p (pm_AdjustedRatings pm) else Some (pm_AdjustedRatings pm));
  ids ← (if negb (is_zero_id (pi_ID x)) then ms_erase p (pm_IDs pm) else Some (pm_IDs pm));
  Some (mkPM (delete p (pm_mem pm)) ids ratings adj (pm_Addr pm) (pm_Active pm) (pm_TicksLast_ms pm)).

(** [Node::Peer::DeleteSelf] of a connection that knows its peer, as far as the manager is concerned. *)
Definition DeleteSelf (pm : PeerManager) (p : nat) (bIsError bBan : bool) (now timestamp : Z) : option PeerManager :=
  pm ← OnActive pm p false now;
  pm ← (if bIsError then OnRemoteError pm p bBan now else Some pm);
  if m_DesiredTotal cfg <? Z.of_nat (length (pm_Ratings pm)) then
    x ← pm_mem pm !! p;
    if (pi_LastSeen x =? 0) || ((pi_RawRating x =? 1) && IsOutdated x timestamp) then Delete pm p now else Some pm
  else Some pm.

(** [Node::PeerMan::DeactivatePeer]; [live p] tells whether the peer has a connection ([m_pLive]). *)
Definition DeactivatePeer (live : nat -> bool) (pm : PeerManager) (p : nat) (now timestamp : Z) : option PeerManager :=
  if negb (live p) then Some pm else DeleteSelf pm p false false now timestamp.

(** [Clear]; every round deletes the first peer of the ratings. *)
Fixpoint Clear (fuel : nat) (pm : PeerManager) (now : Z) : option PeerManager :=
  match pm_Ratings pm with
  | [] => match pm_AdjustedRatings pm, pm_Active pm with [], [] => Some pm | _, _ => None end
  | p :: _ =>
      match fuel with
      | O => None
      | S fuel => pm ← Delete pm p now; Clear fuel pm now
      end
  end.

(** *** [UpdateRatingsInternal] *)

(** The first loop only asserts, from the lowest rating up. *)
Fixpoint Unban_loop (mem : gmap nat PeerInfo) (rl : list nat) : option unit :=
  match rl with
  | [] => Some tt
  | p :: rl =>
      x ← mem !! p;
      if negb (pi_RawRating x =? 0) then Some tt
      else if negb (pi_Increment x =? 0) then None
      else Unban_loop mem rl
  end.

(** The second loop takes active peers out of the set and changes the others in
    place. *)
Fixpoint Starve_loop (rInc : Z) (l : list nat) (mem : gmap nat PeerInfo) : option (gmap nat PeerInfo * list nat) :=
  match l with
  | [] => Some (mem, [])
  | p :: l =>
      x ← mem !! p;
      if pi_Now x then Starve_loop rInc l mem
      else
        '(mem, kept) ← Starve_loop rInc l (<[p := set_Rating x (pi_RawRating x) (Rating_Inc (pi_Increment x) rInc)]> mem);
        Some (mem, p :: kept)
  end.

(** The third loop puts the active ones back. *)
Fixpoint Active_loop (rDec : Z) (l : list nat) (mem : gmap nat PeerInfo) (adj : list nat)
  : option (gmap nat PeerInfo * list nat) :=
  match l with
  | [] => Some (mem, adj)
  | p :: l =>
      x ← mem !! p;
      if negb (pi_Now x) || (pi_RawRating x =? 0) then None
      else
        let val := pi_Increment x in
        let mem := <[p := set_Rating x (pi_RawRating x) (if rDec <? val then u32 (val - rDec) else 0)]> mem in
        Active_loop rDec l mem (ms_insert (AdjustedRating_lt mem) p adj)
  end.

(** The seconds that have passed, "resistant to rounding". *)
Definition dt_seconds (t_ms ticks_last : Z) : Z :=
  let dt_s := u32 (t_ms - ticks_last) / 1000 in
  if t_ms mod 1000 <? ticks_last mod 1000 then u32 (dt_s + 1) else dt_s.

Definition UpdateRatingsInternal (pm : PeerManager) (t_ms : Z) : option PeerManager :=
  let dt_s := dt_seconds t_ms (pm_TicksLast_ms pm) in
  let rInc := u32 (dt_s * m_StarvationRatioInc cfg) in
  let rDec := u32 (dt_s * m_StarvationRatioDec cfg) in
  _ ← Unban_loop (pm_mem pm) (reverse (pm_Ratings pm));
  '(mem, adj) ← Starve_loop rInc (pm_AdjustedRatings pm) (pm_mem pm);
  '(mem, adj) ← Active_loop rDec (pm_Active pm) mem adj;
  Some (mkPM mem (pm_IDs pm) (pm_Ratings pm) adj (pm_Addr pm) (pm_Active pm) (pm_TicksLast_ms pm)).

(** *** [Update] *)
Definition ActivatePeerInternal (pm : PeerManager) (p : nat) (nTicks_ms : Z) (now : nat -> Z) (nSelected : Z)
  : option (PeerManager * Z) :=
  x ← pm_mem pm !! p;
  if pi_Now x && pi_Next x then Some (pm, nSelected)
  else if pi_Addr x =? 0 then Some (pm, nSelected)
  else if negb (pi_Now x) && (u32 (nTicks_ms - pi_LastActivity_ms x) <? m_TimeoutReconnect_ms cfg) then Some (pm, nSelected)
  else if pi_RawRating x =? 0 then Some (pm, nSelected)
  else
    let nSelected := u32 (nSelected + 1) in
    let pm := with_mem pm (<[p := set_Next x true]> (pm_mem pm)) in
    if negb (pi_Now x) then pm ← OnActive pm p true (now p); Some (pm, nSelected)
    else Some (pm, nSelected).

(** Which active peers may not be disconnected yet. *)
Fixpoint Early_loop (nTicks_ms : Z) (l : list nat) (mem : gmap nat PeerInfo) (nSelected : Z)
  : option (gmap nat PeerInfo * Z) :=
  match l with
  | [] => Some (mem, nSelected)
  | p :: l =>
      x ← mem !! p;
      if negb (pi_Now x) then None
      else
        let early := u32 (nTicks_ms - pi_LastActivity_ms x) <? m_TimeoutDisconnect_ms cfg in
        Early_loop nTicks_ms l (<[p := set_Next x early]> mem) (if early then u32 (nSelected + 1) else nSelected)
  end.

(** The first group. *)
Fixpoint Highest_loop (nTicks_ms : Z) (now : nat -> Z) (l : list nat) (pm : PeerManager) (nHighest nSelected : Z)
  : option (PeerManager * Z) :=
  match l with
  | [] => Some (pm, nSelected)
  | p :: l =>
      if (nHighest <? m_DesiredHighest cfg) && (nSelected <? m_DesiredTotal cfg) then
        '(pm, nSelected) ← ActivatePeerInternal pm p nTicks_ms now nSelected;
        Highest_loop nTicks_ms now l pm (u32 (nHighest + 1)) nSelected
      else Some (pm, nSelected)
  end.

(** The second group. *)
Fixpoint Adjusted_loop (nTicks_ms : Z) (now : nat -> Z) (l : list nat) (pm : PeerManager) (nSelected : Z)
  : option (PeerManager * Z) :=
  match l with
  | [] => Some (pm, nSelected)
  | p :: l =>
      if nSelected <? m_DesiredTotal cfg then
        '(pm, nSelected) ← ActivatePeerInternal pm p nTicks_ms now nSelected;
        Adjusted_loop nTicks_ms now l pm nSelected
      else Some (pm, nSelected)
  end.

(** The excess; [l] are the active peers at the beginning of the loop. *)
Fixpoint Excess_loop (now : nat -> Z) (live : nat -> bool) (timestamp : Z) (l : list nat) (pm : PeerManager) : option PeerManager :=
  match l with
  | [] => Some pm
  | p :: l =>
      x ← pm_mem pm !! p;
      if negb (pi_Now x) then None
      else if negb (pi_Next x) then
        pm ← OnActive pm p false (now p);
        pm ← DeactivatePeer live pm p (now p) timestamp;
        Excess_loop now live timestamp l pm
      else Excess_loop now live timestamp l pm
  end.

(** [Update] at the time [nTicks_ms]; [now p] is the time that [OnActive] reads
    for the peer [p], [timestamp] the one that [IsOutdated] reads, [live] tells who has a connection. *)
Definition Update (pm : PeerManager) (nTicks_ms : Z) (now : nat -> Z) (live : nat -> bool) (timestamp : Z) : option PeerManager :=
  pm ← (if negb (pm_TicksLast_ms pm =? 0) then UpdateRatingsInternal pm nTicks_ms else Some pm);
  '(mem, nSelected) ← Early_loop nTicks_ms (pm_Active pm) (pm_mem pm) 0;
  let pm := mkPM mem (pm_IDs pm) (pm_Ratings pm) (pm_AdjustedRatings pm) (pm_Addr pm) (pm_Active pm) nTicks_ms in
  '(pm, nSelected) ← Highest_loop nTicks_ms now (pm_Ratings pm) pm 0 nSelected;
  '(pm, _) ← Adjusted_loop nTicks_ms now (pm_AdjustedRatings pm) pm nSelected;
  Excess_loop now live timestamp (pm_Active pm) pm.

(** ** Saving and restoring, [Node::PeerMan] *)

(** [NodeDB::WalkerPeer::Data]. *)
Record PeerData := mkData { d_ID : list Z; d_Rating : Z; d_Address : Z; d_LastSeen : Z }.

(** [OnFlush]: the rows that are written. *)
Definition peer_row (x : PeerInfo) : PeerData := mkData (pi_ID x) (pi_RawRating x) (pi_Addr x) (pi_LastSeen x).
Definition OnFlush (pm : PeerManager) : list PeerData :=
  omap (fun p => peer_row <$> pm_mem pm !! p) (pm_Ratings pm).

(** One row of [Initialize]. *)
Definition Restore (my_id : list Z) (pm : PeerManager) (d : PeerData) (fresh : nat) (timestamp : Z) : option PeerManager :=
  if _Cmp (d_ID d) my_id =? 0 then Some pm
  else
    '(pm, ret) ← OnPeer pm (d_ID d) (d_Address d) false fresh timestamp;
    match ret with
    | None => Some pm
    | Some p =>
        x ← pm_mem pm !! p;
        let r := d_Rating d in
        pm ← (if r =? 0 then Ban pm p
              else if pi_RawRating x <? r then ModifyRating pm p (u32 (r - pi_RawRating x)) true
              else ModifyRating pm p (u32 (pi_RawRating x - r)) false);
        x ← pm_mem pm !! p;
        Some (with_mem pm (<[p := set_LastSeen x (d_LastSeen d)]> (pm_mem pm)))
    end.

(** The loop of [Initialize]; [fresh] is what [AllocPeer] gives in each round. *)
Fixpoint Initialize (my_id : list Z) (pm : PeerManager) (l : list (PeerData * nat)) (timestamp : Z) : option PeerManager :=
  match l with
  | [] => Some pm
  | (d, fresh) :: l => pm ← Restore my_id pm d fresh timestamp; Initialize my_id pm l timestamp
  end.
End operations.

(** * Facts *)

(** ** Ratings *)
Lemma Saturate_spec v : Saturate v = Z.min v Rating_Max.
Proof. unfold Saturate. destruct (Z.ltb_spec v Rating_Max); lia. Qed.

Lemma Rating_Inc_spec r delta : 0 <= r -> 0 <= delta -> r + delta < 2 ^ 32 -> Rating_Inc r delta = Z.min (r + delta) Rating_Max.
Proof. intros. unfold Rating_Inc. rewrite Saturate_spec, u32_small by lia. done. Qed.

Lemma Rating_Dec_spec r delta : 0 <= r < 2 ^ 32 -> 0 <= delta -> Rating_Dec r delta = Z.max 1 (r - delta).
Proof. intros. unfold Rating_Dec. destruct (Z.ltb_spec delta r); [rewrite u32_small by lia|]; lia. Qed.

Lemma rating_order {K} (f : K -> Z) : lt_order (fun _ => True) (fun a b => rating_lt (f a) (f b)).
Proof. unfold rating_lt. split; intros *; rewrite ?Z.ltb_lt, ?Z.ltb_ge; lia. Qed.

Lemma id_lt_spec a b : bytes_n 32 a -> bytes_n 32 b -> id_lt a b = (be_val a <? be_val b).
Proof.
  intros [Ha _] [Hb _]. unfold id_lt. rewrite _Cmp_spec by done. apply Bool.eq_iff_eq_true. rewrite !Z.ltb_lt. apply cmpZ_lt.
Qed.

Lemma id_order : lt_order (bytes_n 32) id_lt.
Proof. split; intros *; intros; rewrite ?id_lt_spec in * by done; rewrite ?Z.ltb_lt, ?Z.ltb_ge in *; lia. Qed.

Lemma addr_order : lt_order (fun _ : Z => True) Z.ltb.
Proof. apply (lt_order_Z (fun x => x)). Qed.

Lemma id_cmp_eq a b : bytes_n 32 a -> bytes_n 32 b -> id_lt a b = false -> id_lt b a = false -> a = b.
Proof.
  intros Ha Hb. rewrite !id_lt_spec, !Z.ltb_ge by done. destruct Ha as [Ha La], Hb as [Hb Lb]. intros H1 H2.
  apply be_val_inj; [done|done|congruence|lia].
Qed.

Lemma id_lt_irrefl a : bytes_n 32 a -> id_lt a a = false.
Proof. intros Ha. rewrite id_lt_spec by done. apply Z.ltb_irrefl. Qed.

Lemma zero_id_ok : bytes_n 32 zero_id.
Proof. split; [apply bytes_ok_zeros|apply length_replicate]. Qed.

Lemma id_eq_spec a b : bytes_n 32 a -> bytes_n 32 b -> (_Cmp a b =? 0) = true <-> a = b.
Proof.
  intros [Ha La] [Hb Lb]. rewrite Z.eqb_eq, _Cmp_spec, cmpZ_eq by done. split; [|by intros ->].
  apply be_val_inj; [done|done|congruence].
Qed.

Lemma is_zero_id_spec id : bytes_n 32 id -> is_zero_id id = true <-> id = zero_id.
Proof. intros H. apply id_eq_spec; [done|apply zero_id_ok]. Qed.

(** ** The invariant *)
Definition identified (x : PeerInfo) : Prop := pi_ID x <> zero_id.
Definition present (x : PeerInfo) : Prop := True.
Definition allowed (x : PeerInfo) : Prop := pi_RawRating x <> 0.
Definition located (x : PeerInfo) : Prop := pi_Addr x <> 0.
Definition active (x : PeerInfo) : Prop := pi_Now x = true.

Record peer_ok (x : PeerInfo) : Prop := {
  pk_id : bytes_n 32 (pi_ID x);
  pk_raw : 0 <= pi_RawRating x <= Rating_Max;
  pk_inc : 0 <= pi_Increment x <= Rating_Max;
  pk_ban : pi_RawRating x = 0 -> pi_Increment x = 0 /\ pi_Now x = false
}.

Definition distinct {K} (live : PeerInfo -> Prop) (key : PeerInfo -> K) (mem : gmap nat PeerInfo) : Prop :=
  forall p q x y, mem !! p = Some x -> mem !! q = Some y -> live x -> key x = key y -> p = q.

(** Each container holds exactly the peers it is for, in its order; identities
    and addresses are not shared; a banned peer is not active. *)
Record peers_ok (pm : PeerManager) : Prop := {
  po_ids : indexed identified pi_ID id_lt (pm_mem pm) (pm_IDs pm);
  po_rat : indexed present pi_RawRating rating_lt (pm_mem pm) (pm_Ratings pm);
  po_adj : indexed allowed adjusted rating_lt (pm_mem pm) (pm_AdjustedRatings pm);
  po_addr : indexed located pi_Addr Z.ltb (pm_mem pm) (pm_Addr pm);
  po_act : indexed active pi_Now (fun _ _ => false) (pm_mem pm) (pm_Active pm);
  po_id1 : distinct identified pi_ID (pm_mem pm);
  po_addr1 : distinct located pi_Addr (pm_mem pm);
  po_elm p x : pm_mem pm !! p = Some x -> peer_ok x
}.

Lemma keys_ok_True {K} (key : PeerInfo -> K) mem : keys_ok key (fun _ => True) mem.
Proof. done. Qed.

Lemma keys_ok_ids pm : peers_ok pm -> keys_ok pi_ID (bytes_n 32) (pm_mem pm).
Proof. intros H p x Hp. by eapply pk_id, po_elm. Qed.

Lemma raw_order : lt_order (fun _ : Z => True) rating_lt.
Proof. apply (rating_order (fun x => x)). Qed.
#[local] Hint Resolve raw_order id_order addr_order no_order keys_ok_True : core.

Lemma distinct_update {K} live (key : PeerInfo -> K) mem p x x' :
  distinct live key mem -> mem !! p = Some x -> (live x' -> live x) -> key x' = key x -> distinct live key (<[p := x']> mem).
Proof.
  intros H Hp Hl Hk a b y z Ha Hb. apply lookup_insert_Some in Ha as [[<- <-]|[Na Ha]], Hb as [[<- <-]|[Nb Hb]]; intros Hy E; try done.
  - eapply H; [exact Hp|exact Hb|by apply Hl|congruence].
  - eapply H; [exact Ha|exact Hp|done|congruence].
  - by eapply H.
Qed.

Lemma distinct_unlive {K} live (key : PeerInfo -> K) mem p x' (H0 : ~ live x') :
  (forall y, key y = key x' -> live y -> live x') -> distinct live key mem -> distinct live key (<[p := x']> mem).
Proof.
  intros Hc H a b y z Ha Hb. apply lookup_insert_Some in Ha as [[<- <-]|[Na Ha]], Hb as [[<- <-]|[Nb Hb]]; intros Hy E; try done.
  - exfalso. apply H0. by eapply Hc.
  - by eapply H.
Qed.

Lemma distinct_delete {K} live (key : PeerInfo -> K) mem p : distinct live key mem -> distinct live key (delete p mem).
Proof. intros H a b y z [_ Ha]%lookup_delete_Some [_ Hb]%lookup_delete_Some. by apply H. Qed.

Lemma peers_elm_update (mem : gmap nat PeerInfo) p x' :
  (forall q x, mem !! q = Some x -> peer_ok x) -> peer_ok x' -> forall q x, <[p := x']> mem !! q = Some x -> peer_ok x.
Proof. intros H Hx q x Hq. apply lookup_insert_Some in Hq as [[_ <-]|[_ Hq]]; [done|by eapply H]. Qed.

(** A change of a peer that no container is about. *)
Lemma peers_ok_update pm p x x' :
  peers_ok pm -> pm_mem pm !! p = Some x -> peer_ok x' ->
  pi_ID x' = pi_ID x -> pi_RawRating x' = pi_RawRating x -> pi_Increment x' = pi_Increment x -> pi_Addr x' = pi_Addr x ->
  pi_Now x' = pi_Now x -> peers_ok (with_mem pm (<[p := x']> (pm_mem pm))).
Proof.
  intros [H1 H2 H3 H4 H5 H6 H7 H8] Hp Hx' E1 E2 E3 E4 E5.
  split; cbn [with_mem pm_mem pm_IDs pm_Ratings pm_AdjustedRatings pm_Addr pm_Active];
    [apply (indexed_update _ _ _ _ _ _ x Hp)..| | |by apply peers_elm_update];
    unfold identified, present, allowed, located, active, adjusted; rewrite ?E1, ?E2, ?E3, ?E4, ?E5; try done.
  - eapply distinct_update; [done|exact Hp|unfold identified; by rewrite E1|done].
  - eapply distinct_update; [done|exact Hp|unfold located; by rewrite E4|done].
Qed.

Ltac peer_split := split; cbn [pm_mem pm_IDs pm_Ratings pm_AdjustedRatings pm_Addr pm_Active pm_TicksLast_ms].

(** A container that does not see the change of one peer. *)
Ltac same_index Hp := eapply indexed_update; [exact Hp|eassumption|done|done].

(** The memory changes in fields that no container is about. *)
Lemma peers_ok_pointwise pm pm' :
  peers_ok pm -> pm_IDs pm' = pm_IDs pm -> pm_Ratings pm' = pm_Ratings pm -> pm_AdjustedRatings pm' = pm_AdjustedRatings pm ->
  pm_Addr pm' = pm_Addr pm -> pm_Active pm' = pm_Active pm ->
  (forall q, match pm_mem pm !! q with
     | None => pm_mem pm' !! q = None
     | Some x => exists x', pm_mem pm' !! q = Some x' /\ pi_ID x' = pi_ID x /\ pi_RawRating x' = pi_RawRating x /\
         pi_Increment x' = pi_Increment x /\ pi_Addr x' = pi_Addr x /\ pi_Now x' = pi_Now x
     end) -> peers_ok pm'.
Proof.
  intros [H1 H2 H3 H4 H5 H6 H7 H8] E1 E2 E3 E4 E5 Hm.
  assert (forall K live (key : PeerInfo -> K) lt l,
    (forall x x', pi_ID x' = pi_ID x -> pi_RawRating x' = pi_RawRating x -> pi_Increment x' = pi_Increment x -> pi_Addr x' = pi_Addr x ->
       pi_Now x' = pi_Now x -> (live x <-> live x') /\ key x = key x') ->
    indexed live key lt (pm_mem pm) l -> indexed live key lt (pm_mem pm') l) as Hi.
  { intros K live key lt l Hf. apply indexed_ext_fields. intros q. specialize (Hm q). destruct (pm_mem pm !! q) as [x|]; [|by rewrite Hm].
    destruct Hm as (x' & -> & X1 & X2 & X3 & X4 & X5). split; [done|]. intros ? ? [= <-] [= <-]. by apply Hf. }
  assert (forall q x', pm_mem pm' !! q = Some x' -> exists x, pm_mem pm !! q = Some x /\ pi_ID x' = pi_ID x /\ pi_RawRating x' = pi_RawRating x /\
         pi_Increment x' = pi_Increment x /\ pi_Addr x' = pi_Addr x /\ pi_Now x' = pi_Now x) as Hb.
  { intros q x' Hq. specialize (Hm q). destruct (pm_mem pm !! q) as [x|]; [|congruence]. destruct Hm as (y & Ey & Hy). exists x. split; [done|].
    rewrite Hq in Ey. by injection Ey as ->. }
  split; rewrite ?E1, ?E2, ?E3, ?E4, ?E5; [apply Hi; [|done]..| | |];
    try (unfold identified, present, allowed, located, active, adjusted; intros x x' X1 X2 X3 X4 X5; by rewrite ?X1, ?X2, ?X3, ?X4, ?X5).
  - intros p q y z Hp Hq Hy E. apply Hb in Hp as (y0 & Hp & Y1 & _), Hq as (z0 & Hq & Z1 & _). unfold identified in Hy. rewrite Y1 in *. rewrite Z1 in *. by eapply H6.
  - intros p q y z Hp Hq Hy E. apply Hb in Hp as (y0 & Hp & _ & _ & _ & Y1 & _), Hq as (z0 & Hq & _ & _ & _ & Z1 & _). unfold located in Hy.
    rewrite Y1 in *. rewrite Z1 in *. by eapply H7.
  - intros p x' Hp. apply Hb in Hp as (x & Hp & X1 & X2 & X3 & X4 & X5). destruct (H8 p x Hp) as [P1 P2 P3 P4]. split; rewrite ?X1, ?X2, ?X3, ?X5; done.
Qed.

(** ** The operations *)
Lemma OnActive_ok pm p x b now :
  peers_ok pm -> pm_mem pm !! p = Some x -> (b = true -> allowed x) ->
  exists pm', OnActive pm p b now = Some pm' /\ peers_ok pm' /\
    pm_mem pm' = (if Bool.eqb (pi_Now x) b then pm_mem pm else <[p := set_Now x b now]> (pm_mem pm)) /\
    pm_IDs pm' = pm_IDs pm /\ pm_Ratings pm' = pm_Ratings pm /\ pm_AdjustedRatings pm' = pm_AdjustedRatings pm /\
    pm_Addr pm' = pm_Addr pm /\ pm_TicksLast_ms pm' = pm_TicksLast_ms pm.
Proof.
  intros Hok Hp Hb. unfold OnActive. rewrite Hp. cbn [mbind option_bind].
  destruct (Bool.eqb (pi_Now x) b) eqn:Eb; [by exists pm|]. apply Bool.eqb_false_iff in Eb.
  pose proof (po_elm _ Hok p x Hp) as Hx. assert (peer_ok (set_Now x b now)) as Hx'.
  { destruct Hx as [X1 X2 X3 X4]. split; cbn; try done. intros E. split; [by apply X4|]. destruct b; [|done].
    by destruct (Hb eq_refl). }
  destruct Hok as [H1 H2 H3 H4 H5 H6 H7 H8].
  assert (exists act, (if b then Some (pm_Active pm ++ [p]) else ms_erase p (pm_Active pm)) = Some act /\
    indexed active pi_Now (fun _ _ => false) (<[p := set_Now x b now]> (pm_mem pm)) act) as (act & -> & Hact).
  { destruct b.
    - eexists. split; [done|]. rewrite <- (ms_insert_back (by_key (<[p := set_Now x true now]> (pm_mem pm)) pi_Now (fun _ _ => false)))
        by (intros; apply by_key_none).
      eapply (indexed_update_link _ _ (fun _ => True)); try done.
    - destruct (indexed_update_unlink _ _ _ _ _ p x Hp H5 (set_Now x false now)) as (l' & E & _ & I); [|done|by exists l'].
      unfold active. by destruct (pi_Now x). }
  cbn [mbind option_bind]. eexists. split; [done|]. split; [|done].
  peer_split; [same_index Hp..|done| | |by apply peers_elm_update].
  - by eapply distinct_update.
  - by eapply distinct_update.
Qed.

Lemma ModifyRatingInternal_ok pm p x delta bAdd ban :
  peers_ok pm -> pm_mem pm !! p = Some x -> (ban = true -> pi_Now x = false) -> 0 <= delta ->
  (ban = false -> bAdd = true -> 0 < pi_RawRating x + delta < 2 ^ 32) ->
  let x' := if ban then set_Rating x 0 0
            else set_Rating x (if bAdd then Z.min (pi_RawRating x + delta) Rating_Max else Z.max 1 (pi_RawRating x - delta)) (pi_Increment x) in
  exists pm', ModifyRatingInternal pm p delta bAdd ban = Some pm' /\ peers_ok pm' /\
    pm_mem pm' = <[p := x']> (pm_mem pm) /\ pm_IDs pm' = pm_IDs pm /\ pm_Addr pm' = pm_Addr pm /\
    pm_Active pm' = pm_Active pm /\ pm_TicksLast_ms pm' = pm_TicksLast_ms pm.
Proof.
  intros Hok Hp Hban Hd Hadd x'. pose proof (po_elm _ Hok p x Hp) as Hx. pose proof (pk_raw _ Hx) as Hr.
  unfold ModifyRatingInternal. rewrite Hp. cbn [mbind option_bind].
  assert (peer_ok x') as Hx'.
  { destruct Hx as [X1 X2 X3 X4]. assert (Rating_Max = 10240) as HM by done. unfold x'. destruct ban.
    - split; cbn; [done|by split|by split|]. intros _. split; [done|by apply Hban].
    - destruct bAdd; [specialize (Hadd eq_refl eq_refl)|clear Hadd]; (split; cbn; [done|lia|done|intros E; exfalso; lia]). }
  assert (if ban then x' = set_Rating x 0 0 else allowed x') as Hcase.
  { unfold x', allowed, Rating_Max. destruct ban; [done|]. destruct bAdd; cbn; [specialize (Hadd eq_refl eq_refl)|]; lia. }
  assert (pi_ID x' = pi_ID x /\ pi_Addr x' = pi_Addr x /\ pi_Now x' = pi_Now x) as (E1 & E2 & E3)
    by (unfold x'; by destruct ban).
  destruct Hok as [H1 H2 H3 H4 H5 H6 H7 H8].
  assert (forall ratings adj,
    indexed present pi_RawRating rating_lt (<[p := x']> (pm_mem pm)) ratings ->
    indexed allowed adjusted rating_lt (<[p := x']> (pm_mem pm)) adj ->
    peers_ok (mkPM (<[p := x']> (pm_mem pm)) (pm_IDs pm) ratings adj (pm_Addr pm) (pm_Active pm) (pm_TicksLast_ms pm))) as Hall.
  { intros ratings adj I1 I2. peer_split; [|done|done| | | | |by apply peers_elm_update].
    - eapply indexed_update; [exact Hp|exact H1| |done]. unfold identified. by rewrite E1.
    - eapply indexed_update; [exact Hp|exact H4| |done]. unfold located. by rewrite E2.
    - eapply indexed_update; [exact Hp|exact H5| |done]. unfold active. by rewrite E3.
    - eapply distinct_update; [exact H6|exact Hp| |done]. unfold identified. by rewrite E1.
    - eapply distinct_update; [exact H7|exact Hp| |done]. unfold located. by rewrite E2. }
  destruct (indexed_update_relink _ _ (fun _ => True) _ raw_order _ _ p x Hp H2 x') as (ratings & -> & I1); [done|done|done|].
  cbn [mbind option_bind].
  assert (exists adj, (if negb (pi_RawRating x =? 0) then ms_erase p (pm_AdjustedRatings pm) else Some (pm_AdjustedRatings pm)) = Some adj /\
    if ban then indexed allowed adjusted rating_lt (<[p := x']> (pm_mem pm)) adj
    else indexed allowed adjusted rating_lt (<[p := x']> (pm_mem pm)) (ms_insert (by_key (<[p := x']> (pm_mem pm)) adjusted rating_lt) p adj))
    as (adj & -> & I2).
  { destruct (Z.eqb_spec (pi_RawRating x) 0) as [E|E]; cbn [negb].
    - eexists. split; [done|]. destruct ban.
      + eapply indexed_update; [exact Hp|exact H3| |]; rewrite Hcase; unfold allowed, adjusted; cbn; [tauto|].
        destruct (pk_ban _ Hx E) as [-> _]. by rewrite E.
      + eapply (indexed_update_link _ _ (fun _ => True)); [done|exact Hp|done|done|by intros ?|exact Hcase].
    - destruct ban.
      + destruct (indexed_update_unlink _ _ _ _ _ p x Hp H3 x') as (l' & El & _ & I); [done|intros Hn; by apply Hn|by exists l'].
      + destruct (indexed_update_relink _ _ (fun _ => True) _ raw_order _ _ p x Hp H3 x') as (l' & El & I); [done|done|exact Hcase|by exists l']. }
  cbn [mbind option_bind]. destruct ban; [eexists; split; [done|]; split; [by apply Hall|done]|].
  assert ((if bAdd then Rating_Inc (pi_RawRating x) delta else Rating_Dec (pi_RawRating x) delta) = pi_RawRating x') as ->.
  { unfold x'. destruct bAdd; cbn; [apply Rating_Inc_spec|apply Rating_Dec_spec]; unfold Rating_Max in Hr; try lia. }
  rewrite (proj2 (Z.eqb_neq _ _)) by (exact Hcase).
  eexists. split; [done|]. split; [by apply Hall|done].
Qed.

Lemma set_Addr_same x : set_Addr x (pi_Addr x) = x.
Proof. by destruct x. Qed.

Lemma peer_ok_addr x a : peer_ok x -> peer_ok (set_Addr x a).
Proof. intros [X1 X2 X3 X4]. by split. Qed.

Lemma RemoveAddr_ok pm p x :
  peers_ok pm -> pm_mem pm !! p = Some x ->
  exists pm', RemoveAddr pm p = Some pm' /\ peers_ok pm' /\ pm_mem pm' = <[p := set_Addr x 0]> (pm_mem pm) /\
    pm_IDs pm' = pm_IDs pm /\ pm_Ratings pm' = pm_Ratings pm /\ pm_AdjustedRatings pm' = pm_AdjustedRatings pm /\
    pm_Active pm' = pm_Active pm /\ pm_TicksLast_ms pm' = pm_TicksLast_ms pm.
Proof.
  intros Hok Hp. unfold RemoveAddr. rewrite Hp. cbn [mbind option_bind].
  destruct (Z.eqb_spec (pi_Addr x) 0) as [E|E]; cbn [negb].
  { exists pm. split; [done|]. split; [done|]. split; [|done]. rewrite <- E, set_Addr_same. by rewrite insert_id. }
  pose proof (peer_ok_addr x 0 (po_elm _ Hok p x Hp)) as Hx'. destruct Hok as [H1 H2 H3 H4 H5 H6 H7 H8].
  destruct (indexed_update_unlink _ _ _ _ _ p x Hp H4 (set_Addr x 0)) as (l' & -> & _ & I); [done|by intros Hn; apply Hn|].
  cbn [mbind option_bind]. eexists. split; [done|]. split; [|done].
  peer_split; [same_index Hp|same_index Hp|same_index Hp|done|same_index Hp| | |by apply peers_elm_update].
  - by eapply distinct_update.
  - apply distinct_unlive; [by intros Hn; apply Hn| |done]. unfold located. cbn. congruence.
Qed.

(** What [ModifyAddr] does to each peer: the address is given to [p] and taken
    from a peer that had it. *)
Definition moved (p : nat) (addr : Z) (q : nat) (y : PeerInfo) : PeerInfo :=
  if decide (q = p) then set_Addr y addr
  else if negb (addr =? 0) && (pi_Addr y =? addr) then set_Addr y 0 else y.

Lemma distinct_addr_new mem p x addr :
  distinct located pi_Addr mem -> (forall q y, mem !! q = Some y -> pi_Addr y <> addr) ->
  distinct located pi_Addr (<[p := set_Addr x addr]> mem).
Proof.
  intros H Hf a b y z Ha Hb. apply lookup_insert_Some in Ha as [[<- <-]|[Na Ha]], Hb as [[<- <-]|[Nb Hb]]; cbn; intros Hy E; try done.
  - by destruct (Hf b z Hb).
  - by destruct (Hf a y Ha).
  - by eapply H.
Qed.

Lemma ms_find_addr pm addr : peers_ok pm -> addr <> 0 ->
  match ms_find (pm_mem pm) pi_Addr Z.ltb addr (pm_Addr pm) with
  | Some q => exists y, pm_mem pm !! q = Some y /\ pi_Addr y = addr
  | None => forall q y, pm_mem pm !! q = Some y -> pi_Addr y <> addr
  end.
Proof.
  intros Hok Ha. destruct (ms_find _ _ _ _ _) as [q|] eqn:E.
  - apply ms_find_Some in E as (_ & y & Ey & E1%Z.ltb_ge & E2%Z.ltb_ge). exists y. split; [done|lia].
  - intros q y Hq Hy. assert (q ∈ pm_Addr pm) as Hin. { apply (ix_alive _ _ _ _ _ (po_addr _ Hok)). exists y. unfold located. by rewrite Hy. }
    destruct (ms_find_None _ _ _ _ _ E q y Hin Hq) as [?%Z.ltb_lt|?%Z.ltb_lt]; lia.
Qed.

(** Taking the address from its holder. *)
Lemma free_addr_ok pm addr : peers_ok pm -> addr <> 0 ->
  exists pm', (match ms_find (pm_mem pm) pi_Addr Z.ltb addr (pm_Addr pm) with Some q => RemoveAddr pm q | None => Some pm end) = Some pm' /\
    peers_ok pm' /\ (forall q y, pm_mem pm' !! q = Some y -> pi_Addr y <> addr) /\
    (forall q, pm_mem pm' !! q = (fun y => if pi_Addr y =? addr then set_Addr y 0 else y) <$> pm_mem pm !! q) /\
    pm_IDs pm' = pm_IDs pm /\ pm_Ratings pm' = pm_Ratings pm /\ pm_AdjustedRatings pm' = pm_AdjustedRatings pm /\
    pm_Active pm' = pm_Active pm /\ pm_TicksLast_ms pm' = pm_TicksLast_ms pm.
Proof.
  intros Hok E0. pose proof (ms_find_addr pm addr Hok E0) as Hfind. destruct (ms_find _ _ _ _ _) as [q|].
  - destruct Hfind as (y & Hq & Hy). destruct (RemoveAddr_ok pm q y Hok Hq) as (pm2 & -> & Hok2 & M2 & S2).
    exists pm2. split; [done|]. split; [done|].
    assert (forall u z, pm_mem pm !! u = Some z -> pi_Addr z = addr -> u = q) as Hu.
    { intros u z Hu Hz. eapply (po_addr1 _ Hok u q z y); try done; [unfold located|]; congruence. }
    split; [|split; [|done]].
    + intros u z Eu Hz. rewrite M2 in Eu. apply lookup_insert_Some in Eu as [[<- <-]|[Hne Eu]]; [cbn in Hz; congruence|].
      apply Hne. symmetry. by eapply Hu.
    + intros u. rewrite M2. destruct (decide (u = q)) as [->|Hne].
      * rewrite lookup_insert_eq, Hq. cbn. by rewrite Hy, Z.eqb_refl.
      * rewrite lookup_insert_ne by done. destruct (pm_mem pm !! u) as [z|] eqn:Eu; [|done]. cbn.
        destruct (Z.eqb_spec (pi_Addr z) addr) as [Ez|]; [|done]. destruct Hne. by eapply Hu.
  - exists pm. split; [done|]. split; [done|]. split; [done|]. split; [|done]. intros u.
    destruct (pm_mem pm !! u) as [z|] eqn:Eu; [|done]. cbn. destruct (Z.eqb_spec (pi_Addr z) addr) as [Ez|]; [|done]. by destruct (Hfind u z).
Qed.

Lemma ModifyAddr_ok pm p x addr :
  peers_ok pm -> pm_mem pm !! p = Some x ->
  exists pm', ModifyAddr pm p addr = Some pm' /\ peers_ok pm' /\ (forall q, pm_mem pm' !! q = moved p addr q <$> pm_mem pm !! q) /\
    pm_IDs pm' = pm_IDs pm /\ pm_Ratings pm' = pm_Ratings pm /\ pm_AdjustedRatings pm' = pm_AdjustedRatings pm /\
    pm_Active pm' = pm_Active pm /\ pm_TicksLast_ms pm' = pm_TicksLast_ms pm.
Proof.
  intros Hok Hp. unfold ModifyAddr. rewrite Hp. cbn [mbind option_bind].
  destruct (Z.eqb_spec addr (pi_Addr x)) as [Ea|Ea].
  { exists pm. split; [done|]. split; [done|]. split; [|done]. intros q. unfold moved. destruct (pm_mem pm !! q) as [y|] eqn:Eq; [|done]. cbn.
    destruct (decide (q = p)) as [->|Hne]; [rewrite Hp in Eq; injection Eq as <-; by rewrite Ea, set_Addr_same|].
    destruct (Z.eqb_spec addr 0) as [_|E0]; [done|]. destruct (Z.eqb_spec (pi_Addr y) addr) as [E1|]; [|done]. cbn [negb andb].
    destruct Hne. symmetry. eapply (po_addr1 _ Hok p q x y); try done; [unfold located|]; congruence. }
  destruct (RemoveAddr_ok pm p x Hok Hp) as (pm1 & -> & Hok1 & M1 & S1). cbn [mbind option_bind].
  destruct (Z.eqb_spec addr 0) as [E0|E0].
  { exists pm1. split; [done|]. split; [done|]. split; [|done]. intros q. unfold moved. rewrite M1, E0. destruct (decide (q = p)) as [->|Hne].
    - by rewrite lookup_insert_eq, Hp.
    - rewrite lookup_insert_ne by done. cbn. by destruct (pm_mem pm !! q). }
  destruct (free_addr_ok pm1 addr Hok1 E0) as (pm2 & -> & Hok2 & Hf & M2 & S2).
  assert (pm_mem pm2 !! p = Some (set_Addr x 0)) as Hp2.
  { rewrite M2, M1, lookup_insert_eq. cbn [fmap option_fmap option_map pi_Addr set_Addr]. by rewrite (proj2 (Z.eqb_neq 0 addr)) by done. }
  cbn [mbind option_bind]. rewrite Hp2. cbn [mbind option_bind]. change (set_Addr (set_Addr x 0) addr) with (set_Addr x addr).
  eexists. split; [done|]. split; [|split].
  - destruct Hok2 as [H1 H2 H3 H4 H5 H6 H7 H8].
    assert (peer_ok (set_Addr x addr)) as Hx' by (apply (peer_ok_addr (set_Addr x 0) addr); by eapply H8).
    peer_split; [same_index Hp2|same_index Hp2|same_index Hp2| |same_index Hp2| | |by apply peers_elm_update].
    + eapply (indexed_update_link _ _ (fun _ => True)); [done|exact Hp2|done|done|by intros Hn; apply Hn|done].
    + by eapply distinct_update.
    + by apply (distinct_addr_new (pm_mem pm2) p x).
  - intros q. cbn [pm_mem]. unfold moved. destruct (decide (q = p)) as [->|Hne].
    + by rewrite lookup_insert_eq, Hp.
    + rewrite lookup_insert_ne, M2, M1, lookup_insert_ne by done. by rewrite (proj2 (Z.eqb_neq addr 0)) by done.
  - destruct S1 as (? & ? & ? & ? & ?), S2 as (? & ? & ? & ? & ?). cbn. split_and!; congruence.
Qed.

Lemma OnSeen_ok pm p x t : peers_ok pm -> pm_mem pm !! p = Some x ->
  exists pm', OnSeen pm p t = Some pm' /\ peers_ok pm' /\ pm_mem pm' = <[p := set_LastSeen x t]> (pm_mem pm).
Proof.
  intros Hok Hp. unfold OnSeen. rewrite Hp. eexists. split; [done|]. split; [|done].
  apply (peers_ok_update pm p x); try done. destruct (po_elm _ Hok p x Hp). by split.
Qed.

Definition new_peer (id : list Z) : PeerInfo := mkPeer id Rating_Initial 0 false false 0 0 0.

Lemma new_peer_ok id : bytes_n 32 id -> peer_ok (new_peer id).
Proof. intros. split; cbn; try done. Qed.

Lemma ms_find_id pm id : peers_ok pm -> bytes_n 32 id ->
  match ms_find (pm_mem pm) pi_ID id_lt id (pm_IDs pm) with
  | Some q => id <> zero_id /\ exists y, pm_mem pm !! q = Some y /\ pi_ID y = id
  | None => id <> zero_id -> forall q y, pm_mem pm !! q = Some y -> pi_ID y <> id
  end.
Proof.
  intros Hok Hid. destruct (ms_find _ _ _ _ _) as [q|] eqn:E.
  - apply ms_find_Some in E as (Hq & y & Ey & E1 & E2). assert (pi_ID y = id) as Ei by (apply id_cmp_eq; try done; by eapply pk_id, po_elm).
    split; [|by exists y]. apply (indexed_lookup _ _ _ _ _ _ _ (po_ids _ Hok) Ey) in Hq. rewrite <- Ei. exact Hq.
  - intros Hz q y Hq Hy. assert (q ∈ pm_IDs pm) as Hin. { apply (indexed_lookup _ _ _ _ _ _ _ (po_ids _ Hok) Hq). unfold identified. by rewrite Hy. }
    destruct (ms_find_None _ _ _ _ _ E q y Hin Hq) as [Hl|Hl]; rewrite Hy, id_lt_irrefl in Hl by done; done.
Qed.

(** [Find] gives the peer with the identity, or a new one. *)
Lemma Find_ok pm id bCreate fresh :
  peers_ok pm -> bytes_n 32 id -> pm_mem pm !! fresh = None ->
  let '(pm', ret, b) := Find pm id bCreate fresh in
  peers_ok pm' /\
  ((exists q y, pm' = pm /\ ret = Some q /\ b = false /\ pm_mem pm !! q = Some y /\ pi_ID y = id /\ id <> zero_id) \/
   (id <> zero_id -> forall q y, pm_mem pm !! q = Some y -> pi_ID y <> id) /\
   (if bCreate then pm_mem pm' = <[fresh := new_peer id]> (pm_mem pm) /\ ret = Some fresh /\ b = true
    else pm' = pm /\ ret = None)).
Proof.
  intros Hok Hid Hfr. unfold Find. pose proof (ms_find_id pm id Hok Hid) as Hf. destruct (ms_find _ _ _ _ _) as [q|].
  { split; [done|]. left. destruct Hf as (Hz & y & Ey & Ei). by exists q, y. }
  destruct bCreate; cbn [negb]; [|split; [done|]; right; by split].
  split; [|right; by split]. fold (new_peer id). pose proof (new_peer_ok id Hid) as Hn.
  pose proof (keys_ok_ids pm Hok) as Hkeys. destruct Hok as [H1 H2 H3 H4 H5 H6 H7 H8].
  assert (forall live K (key : PeerInfo -> K), (live (new_peer id) -> forall q y, pm_mem pm !! q = Some y -> key y <> key (new_peer id)) ->
    (forall y, live y -> key y = key (new_peer id) -> live (new_peer id)) ->
    distinct live key (pm_mem pm) -> distinct live key (<[fresh := new_peer id]> (pm_mem pm))) as Hd.
  { intros live K key Hne Hl H a b y z Ha Hb. apply lookup_insert_Some in Ha as [[<- <-]|[Na Ha]], Hb as [[<- <-]|[Nb Hb]]; intros Hy E; try done.
    - by destruct (Hne Hy b z Hb).
    - destruct (Hne (Hl y Hy E) a y Ha). done.
    - by eapply H. }
  peer_split.
  - destruct (is_zero_id id) eqn:Ez; cbn [negb].
    + apply indexed_new_other; [done|done|]. intros Hi. apply Hi. cbn. by apply is_zero_id_spec.
    + apply (indexed_new _ _ (bytes_n 32)); try done.
      * intros q y Hq. apply lookup_insert_Some in Hq as [[_ <-]|[_ Hq]]; [done|by eapply Hkeys].
      * unfold identified. cbn. intros Hz. apply is_zero_id_spec in Hz; [congruence|done].
  - by apply (indexed_new _ _ (fun _ => True)).
  - by apply (indexed_new _ _ (fun _ => True)).
  - apply indexed_new_other; [done|done|]. intros Hi. by apply Hi.
  - by apply indexed_new_other.
  - apply Hd; [|intros y Hy E; unfold identified in *; congruence|done]. intros Hz. by apply Hf.
  - apply Hd; [|intros y Hy E; unfold located in *; cbn in E; congruence|done]. intros Hz. by destruct Hz.
  - by apply peers_elm_update.
Qed.

Section peer_ops.
Context (cfg : Cfg).

Lemma OnPeer_find_ok pm id addr bVer fresh ts :
  peers_ok pm -> bytes_n 32 id -> pm_mem pm !! fresh = None ->
  exists pm' p x', OnPeer_find cfg pm id addr bVer fresh ts = Some (pm', Some p) /\ peers_ok pm' /\
    pm_mem pm' !! p = Some x' /\ pi_ID x' = id /\ (bVer = true -> pi_Addr x' = addr).
Proof.
  intros Hok Hid Hfr. unfold OnPeer_find. pose proof (Find_ok pm id true fresh Hok Hid Hfr) as Hf.
  destruct (Find pm id true fresh) as [[pm1 ret] b]. destruct Hf as [Hok1 Hf].
  assert (exists p x, ret = Some p /\ pm_mem pm1 !! p = Some x /\ pi_ID x = id) as (p & x & -> & Hp & Hi).
  { destruct Hf as [(q & y & -> & -> & _ & Hq & Hy & _)|(_ & M & -> & _)]; [by exists q, y|].
    exists fresh, (new_peer id). rewrite M. by rewrite lookup_insert_eq. }
  cbn [mbind option_bind]. rewrite Hp. cbn [mbind option_bind].
  destruct (bVer || _ || _) eqn:Eb.
  - destruct (ModifyAddr_ok pm1 p x addr Hok1 Hp) as (pm2 & -> & Hok2 & M & _). cbn [mbind option_bind].
    exists pm2, p, (set_Addr x addr). split_and!; try done. rewrite M, Hp. cbn. unfold moved. by rewrite decide_True.
  - exists pm1, p, x. split_and!; try done. intros ->. done.
Qed.

Lemma OnPeer_ok pm id addr bVer fresh ts :
  peers_ok pm -> bytes_n 32 id -> pm_mem pm !! fresh = None ->
  exists pm' ret, OnPeer cfg pm id addr bVer fresh ts = Some (pm', ret) /\ peers_ok pm' /\
    match ret with
    | None => id = zero_id /\ bVer = false /\ pm' = pm
    | Some p => exists x', pm_mem pm' !! p = Some x' /\ (id <> zero_id -> pi_ID x' = id) /\ (bVer = true -> pi_Addr x' = addr)
    end.
Proof.
  intros Hok Hid Hfr. unfold OnPeer.
  destruct (OnPeer_find_ok pm id addr bVer fresh ts Hok Hid Hfr) as (pm' & p & x' & E & Hok' & Hp & H1 & H2).
  destruct (is_zero_id id) eqn:Ez.
  - apply is_zero_id_spec in Ez; [|done]. destruct bVer; cbn [negb]; [|by exists pm, None].
    destruct (ms_find _ _ _ _ _) as [q|] eqn:Eq; [|rewrite E; exists pm', (Some p); split_and!; try done; by exists x'].
    exists pm, (Some q). split_and!; try done. apply ms_find_Some in Eq as (_ & y & Ey & E1%Z.ltb_ge & E2%Z.ltb_ge).
    exists y. split_and!; [done|done|intros _; lia].
  - rewrite E. exists pm', (Some p). split_and!; try done. by exists x'.
Qed.

Lemma OnRemoteError_ok pm p x bBan now :
  peers_ok pm -> pm_mem pm !! p = Some x -> pi_Now x = false ->
  exists pm', OnRemoteError cfg pm p bBan now = Some pm' /\ peers_ok pm' /\
    pm_mem pm' = (if bBan then <[p := set_Rating x 0 0]> (pm_mem pm)
                  else if u32 (now - pi_LastActivity_ms x) <? m_TimeoutDisconnect_ms cfg
                  then <[p := set_Rating x (Z.max 1 (pi_RawRating x - PenaltyNetworkErr)) (pi_Increment x)]> (pm_mem pm)
                  else pm_mem pm).
Proof.
  intros Hok Hp Hn. unfold OnRemoteError. destruct bBan.
  - destruct (ModifyRatingInternal_ok pm p x 0 false true Hok Hp) as (pm' & E & Hok' & M & _); [done|lia|done|]. by exists pm'.
  - rewrite Hp. cbn [mbind option_bind]. destruct (_ <? _); [|by exists pm].
    destruct (ModifyRatingInternal_ok pm p x PenaltyNetworkErr false false Hok Hp) as (pm' & E & Hok' & M & _); [done|done|done|]. by exists pm'.
Qed.

Lemma Delete_ok pm p x now : peers_ok pm -> pm_mem pm !! p = Some x ->
  exists pm', Delete pm p now = Some pm' /\ peers_ok pm' /\ pm_mem pm' = delete p (pm_mem pm).
Proof.
  intros Hok Hp. unfold Delete.
  destruct (OnActive_ok pm p x false now Hok Hp) as (pm1 & -> & Hok1 & M1 & _); [done|]. cbn [mbind option_bind].
  assert (exists x1, pm_mem pm1 !! p = Some x1 /\ pi_Now x1 = false /\ delete p (pm_mem pm1) = delete p (pm_mem pm)) as (x1 & Hp1 & N1 & D1).
  { rewrite M1. destruct (pi_Now x) eqn:En; cbn [Bool.eqb]; [|by exists x]. exists (set_Now x false now).
    by rewrite lookup_insert_eq, delete_insert_eq. }
  destruct (RemoveAddr_ok pm1 p x1 Hok1 Hp1) as (pm2 & -> & Hok2 & M2 & _). cbn [mbind option_bind].
  set (x2 := set_Addr x1 0). assert (pm_mem pm2 !! p = Some x2) as Hp2 by (rewrite M2; apply lookup_insert_eq). rewrite Hp2. cbn [mbind option_bind].
  assert (delete p (pm_mem pm2) = delete p (pm_mem pm)) as D2 by (rewrite M2; by rewrite delete_insert_eq).
  pose proof (pk_id _ (po_elm _ Hok2 p x2 Hp2)) as Hid. destruct Hok2 as [H1 H2 H3 H4 H5 H6 H7 H8].
  destruct (indexed_delete_unlink _ _ _ _ _ p x2 Hp2 H2) as (ratings & -> & _ & I2); [done|]. cbn [mbind option_bind].
  assert (exists adj, (if negb (pi_RawRating x2 =? 0) then ms_erase p (pm_AdjustedRatings pm2) else Some (pm_AdjustedRatings pm2)) = Some adj /\
    indexed allowed adjusted rating_lt (delete p (pm_mem pm2)) adj) as (adj & -> & I3).
  { destruct (Z.eqb_spec (pi_RawRating x2) 0) as [Er|Er]; cbn [negb].
    - eexists. split; [done|]. eapply indexed_delete; [exact Hp2|exact H3|]. by intros ?.
    - destruct (indexed_delete_unlink _ _ _ _ _ p x2 Hp2 H3) as (l & E & _ & I); [done|by exists l]. }
  cbn [mbind option_bind].
  assert (exists ids, (if negb (is_zero_id (pi_ID x2)) then ms_erase p (pm_IDs pm2) else Some (pm_IDs pm2)) = Some ids /\
    indexed identified pi_ID id_lt (delete p (pm_mem pm2)) ids) as (ids & -> & I1).
  { destruct (is_zero_id (pi_ID x2)) eqn:Ez; cbn [negb].
    - eexists. split; [done|]. eapply indexed_delete; [exact Hp2|exact H1|]. intros Hi. by apply Hi, is_zero_id_spec.
    - destruct (indexed_delete_unlink _ _ _ _ _ p x2 Hp2 H1) as (l & E & _ & I); [|by exists l].
      intros Hz. apply is_zero_id_spec in Hz; [congruence|done]. }
  cbn [mbind option_bind]. eexists. split; [done|]. split; [|done].
  peer_split; [done|done|done| | |by apply distinct_delete|by apply distinct_delete|].
  - eapply indexed_delete; [exact Hp2|exact H4|]. intros Hn. by apply Hn.
  - eapply indexed_delete; [exact Hp2|exact H5|]. unfold active. cbn. by rewrite N1.
  - intros q y Hq. apply lookup_delete_Some in Hq as [_ Hq]. by eapply H8.
Qed.

Lemma ratings_size pm : peers_ok pm -> length (pm_Ratings pm) = size (pm_mem pm).
Proof.
  intros Hok. rewrite <- (size_dom (D := gset nat)). rewrite <- (size_list_to_set (C := gset nat) (pm_Ratings pm)) by apply (po_rat _ Hok).
  f_equal. apply set_eq. intros q. rewrite elem_of_list_to_set, elem_of_dom, (ix_alive _ _ _ _ _ (po_rat _ Hok)). unfold linked, present.
  split; [intros (x & -> & _); by eexists|intros [x ->]; by exists x].
Qed.

(** Who may be deleted when the connection is closed. *)
Definition droppable (timestamp : Z) (x : PeerInfo) : Prop :=
  pi_LastSeen x = 0 \/ pi_RawRating x = 1 /\ IsOutdated cfg x timestamp = true.

(** Closing a connection: the peer is inactive then, or deleted, if it may be and enough others are left. *)
Lemma DeleteSelf_ok pm p x bErr bBan now ts : peers_ok pm -> pm_mem pm !! p = Some x ->
  exists pm', DeleteSelf cfg pm p bErr bBan now ts = Some pm' /\ peers_ok pm' /\
    exists x', pi_Now x' = false /\ pi_ID x' = pi_ID x /\ pi_Addr x' = pi_Addr x /\ pi_LastSeen x' = pi_LastSeen x /\
      (bErr = false -> x' = if pi_Now x then set_Now x false now else x) /\
      (pm_mem pm' = <[p := x']> (pm_mem pm) \/
       pm_mem pm' = delete p (pm_mem pm) /\ droppable ts x' /\ m_DesiredTotal cfg <= Z.of_nat (length (pm_Ratings pm'))).
Proof.
  intros Hok Hp. unfold DeleteSelf. destruct (OnActive_ok pm p x false now Hok Hp) as (pm1 & -> & Hok1 & M1 & _); [done|]. cbn [mbind option_bind].
  set (x1 := if pi_Now x then set_Now x false now else x).
  assert (pm_mem pm1 = <[p := x1]> (pm_mem pm)) as M1'. { rewrite M1. unfold x1. destruct (pi_Now x); cbn [Bool.eqb]; [done|]. by rewrite insert_id. }
  assert (pi_Now x1 = false /\ pi_ID x1 = pi_ID x /\ pi_Addr x1 = pi_Addr x /\ pi_LastSeen x1 = pi_LastSeen x) as (X1 & X2 & X3 & X4) by (unfold x1; by destruct (pi_Now x) eqn:En).
  assert (exists pm2 x2, (if bErr then OnRemoteError cfg pm1 p bBan now else Some pm1) = Some pm2 /\ peers_ok pm2 /\ pm_mem pm2 = <[p := x2]> (pm_mem pm) /\
    pi_Now x2 = false /\ pi_ID x2 = pi_ID x /\ pi_Addr x2 = pi_Addr x /\ pi_LastSeen x2 = pi_LastSeen x /\ (bErr = false -> x2 = x1)) as (pm2 & x2 & -> & Hok2 & M2 & Y1 & Y2 & Y3 & Y4 & Y5).
  { destruct bErr; [|by exists pm1, x1]. assert (pm_mem pm1 !! p = Some x1) as Hp1 by (rewrite M1'; apply lookup_insert_eq).
    destruct (OnRemoteError_ok pm1 p x1 bBan now Hok1 Hp1 X1) as (pm2 & E & Hok2 & M2). exists pm2. rewrite M1' in M2.
    destruct bBan; [|destruct (_ <? _)]; eexists; (split; [exact E|]); (split; [done|]); rewrite M2, ?insert_insert_eq; by split_and!. }
  cbn [mbind option_bind]. destruct (Z.ltb_spec (m_DesiredTotal cfg) (Z.of_nat (length (pm_Ratings pm2)))) as [Hlt|Hge].
  2: { exists pm2. split; [done|]. split; [done|]. exists x2. split_and!; try done. by left. }
  assert (pm_mem pm2 !! p = Some x2) as Hp2 by (rewrite M2; apply lookup_insert_eq). rewrite Hp2. cbn [mbind option_bind].
  destruct (_ || _) eqn:Ed. 2: { exists pm2. split; [done|]. split; [done|]. exists x2. split_and!; try done. by left. }
  destruct (Delete_ok pm2 p x2 now Hok2 Hp2) as (pm3 & -> & Hok3 & M3). exists pm3. split; [done|]. split; [done|]. exists x2. split_and!; try done. right.
  split_and!; [by rewrite M3, M2, delete_insert_eq| |].
  - unfold droppable. apply orb_true_iff in Ed as [Ed|Ed]; [left; by apply Z.eqb_eq|]. apply andb_true_iff in Ed as [Ed1 Ed2]. right. by rewrite Z.eqb_eq in Ed1.
  - rewrite ratings_size in * by done. rewrite M3, map_size_delete, Hp2. lia.
Qed.

Lemma Clear_ok pm now : peers_ok pm ->
  exists pm', Clear (length (pm_Ratings pm)) pm now = Some pm' /\ peers_ok pm' /\ pm_mem pm' = ∅.
Proof.
  remember (length (pm_Ratings pm)) as n eqn:En. revert pm En. induction n as [|n IH]; intros pm En Hok.
  - assert (pm_Ratings pm = []) as Er by (by apply length_zero_iff_nil). assert (pm_mem pm = ∅) as Em.
    { apply map_empty. intros p. destruct (pm_mem pm !! p) as [x|] eqn:Ep; [|done]. exfalso.
      assert (p ∈ pm_Ratings pm) as Hin by (apply (indexed_lookup _ _ _ _ _ _ _ (po_rat _ Hok) Ep); done). rewrite Er in Hin. by apply not_elem_of_nil in Hin. }
    assert (forall K live (key : PeerInfo -> K) lt l, indexed live key lt (pm_mem pm) l -> l = []) as Hnil.
    { intros K live key lt [|q l] Hl; [done|]. exfalso. assert (linked live (pm_mem pm) q) as (y & Ey & _) by (apply Hl; by left).
      rewrite Em in Ey. by rewrite lookup_empty in Ey. }
    cbn [Clear]. rewrite Er. rewrite (Hnil _ _ _ _ _ (po_adj _ Hok)), (Hnil _ _ _ _ _ (po_act _ Hok)). by exists pm.
  - cbn [Clear]. destruct (pm_Ratings pm) as [|p l] eqn:Er; [done|].
    assert (linked present (pm_mem pm) p) as (x & Hp & _). { apply (po_rat _ Hok). rewrite Er. by left. }
    destruct (Delete_ok pm p x now Hok Hp) as (pm1 & -> & Hok1 & M1). cbn [mbind option_bind].
    apply IH; [|done]. rewrite (ratings_size pm1 Hok1), M1, map_size_delete, Hp, <- (ratings_size pm Hok), Er. cbn. cbn in En. lia.
Qed.
End peer_ops.

(** ** Ratings as time passes *)

(** As long as the clock does not wrap around, seconds are never lost or counted
    twice, whatever the times of the updates. *)
Lemma dt_seconds_exact t t0 : 0 <= t0 <= t -> t < 2 ^ 32 -> dt_seconds t t0 = t / 1000 - t0 / 1000.
Proof.
  intros H1 H2. unfold dt_seconds. cbv zeta. rewrite (u32_small (t - t0)) by lia.
  pose proof (Z.div_mod t 1000 ltac:(lia)). pose proof (Z.div_mod t0 1000 ltac:(lia)).
  pose proof (Z.mod_pos_bound t 1000 ltac:(lia)). pose proof (Z.mod_pos_bound t0 1000 ltac:(lia)).
  destruct (Z.ltb_spec (t mod 1000) (t0 mod 1000)).
  - assert ((t - t0) / 1000 = t / 1000 - t0 / 1000 - 1) as ->.
    { symmetry. apply (Z.div_unique _ _ _ (t mod 1000 - t0 mod 1000 + 1000)); lia. }
    rewrite u32_small; [lia|]. assert (t / 1000 <= t) by (apply Z.div_le_upper_bound; lia).
    assert (0 <= t0 / 1000) by (apply Z.div_pos; lia). assert (t0 / 1000 <= t / 1000) by (apply Z.div_le_mono; lia). lia.
  - symmetry. apply (Z.div_unique _ _ _ (t mod 1000 - t0 mod 1000)); lia.
Qed.

Lemma dt_seconds_bound t t0 : 0 <= dt_seconds t t0 <= 4294968.
Proof.
  unfold dt_seconds. cbv zeta. pose proof (wrap_bound 32 (t - t0) ltac:(lia)) as Hb.
  assert (0 <= u32 (t - t0) / 1000 <= 4294967) as Hd.
  { split; [apply Z.div_pos; lia|]. apply Z.lt_succ_r, Z.div_lt_upper_bound; lia. }
  destruct (_ <? _); [rewrite u32_small|]; lia.
Qed.

Definition starved (rInc : Z) (x : PeerInfo) : PeerInfo :=
  if pi_Now x then x else set_Rating x (pi_RawRating x) (Rating_Inc (pi_Increment x) rInc).
Definition relaxed (rDec : Z) (x : PeerInfo) : PeerInfo :=
  set_Rating x (pi_RawRating x) (if rDec <? pi_Increment x then u32 (pi_Increment x - rDec) else 0).

(** What passing time does to a peer. *)
Definition aged (rInc rDec : Z) (x : PeerInfo) : PeerInfo :=
  if pi_RawRating x =? 0 then x
  else set_Rating x (pi_RawRating x)
         (if pi_Now x then Z.max 0 (pi_Increment x - rDec) else Z.min (pi_Increment x + rInc) Rating_Max).

Lemma Unban_loop_ok mem rl : (forall p, p ∈ rl -> exists x, mem !! p = Some x /\ peer_ok x) -> Unban_loop mem rl = Some tt.
Proof.
  induction rl as [|p rl IH]; intros H; [done|]. cbn [Unban_loop]. destruct (H p ltac:(by left)) as (x & -> & Hx). cbn [mbind option_bind].
  destruct (Z.eqb_spec (pi_RawRating x) 0) as [E|E]; [|done]. destruct (pk_ban _ Hx E) as [-> _]. cbn. apply IH. intros q Hq. apply H. by right.
Qed.

Lemma Starve_loop_ok rInc l mem :
  NoDup l -> (forall p, p ∈ l -> is_Some (mem !! p)) ->
  exists mem' kept, Starve_loop rInc l mem = Some (mem', kept) /\ sublist kept l /\
    (forall p, p ∈ kept <-> p ∈ l /\ exists x, mem !! p = Some x /\ pi_Now x = false) /\
    forall q, mem' !! q = (if decide (q ∈ l) then starved rInc <$> mem !! q else mem !! q).
Proof.
  revert mem. induction l as [|p l IH]; intros mem Hd Hl.
  { exists mem, []. split_and!; try done. intros p. split; [by intros ?%not_elem_of_nil|by intros [?%not_elem_of_nil _]]. }
  apply NoDup_cons in Hd as [Hpl Hd]. cbn [Starve_loop]. destruct (Hl p ltac:(by left)) as [x Hp]. rewrite Hp. cbn [mbind option_bind].
  destruct (pi_Now x) eqn:En.
  - destruct (IH mem Hd) as (mem' & kept & -> & Hs & Hk & Hm); [intros q Hq; apply Hl; by right|].
    exists mem', kept. split; [done|]. split; [by apply sublist_cons|]. split.
    + intros q. rewrite Hk, elem_of_cons. split; [tauto|]. intros [[->|Hq] Hx]; [|done]. destruct Hx as (y & Ey & Hy). congruence.
    + intros q. rewrite Hm. destruct (decide (q = p)) as [->|Hne].
      * rewrite decide_False by done. rewrite decide_True by (by left). rewrite Hp. cbn. unfold starved. by rewrite En.
      * destruct (decide (q ∈ l)); [rewrite decide_True by (by right)|rewrite decide_False by (by intros [?|?]%elem_of_cons)]; done.
  - destruct (IH (<[p := set_Rating x (pi_RawRating x) (Rating_Inc (pi_Increment x) rInc)]> mem) Hd) as (mem' & kept & -> & Hs & Hk & Hm).
    { intros q Hq. rewrite lookup_insert_ne by (by intros ->). apply Hl. by right. }
    cbn [mbind option_bind]. exists mem', (p :: kept). split; [done|]. split; [by apply sublist_skip|]. split.
    + intros q. rewrite !elem_of_cons, Hk. destruct (decide (q = p)) as [->|Hne]; [split; [|by left]; intros _; split; [by left|by exists x]|].
      rewrite lookup_insert_ne by done. tauto.
    + intros q. rewrite Hm. destruct (decide (q = p)) as [->|Hne].
      * rewrite decide_False by done. rewrite decide_True by (by left). rewrite lookup_insert_eq, Hp. cbn. unfold starved. by rewrite En.
      * rewrite lookup_insert_ne by done.
        destruct (decide (q ∈ l)); [rewrite decide_True by (by right)|rewrite decide_False by (by intros [?|?]%elem_of_cons)]; done.
Qed.

Lemma Active_loop_ok rDec l mem adj :
  NoDup l -> (forall p, p ∈ l -> (p ∉ adj) /\ exists x, mem !! p = Some x /\ pi_Now x = true /\ allowed x) ->
  (forall p, p ∈ adj -> is_Some (mem !! p)) -> ms_sorted (AdjustedRating_lt mem) adj ->
  exists mem' adj', Active_loop rDec l mem adj = Some (mem', adj') /\ adj' ≡ₚ l ++ adj /\ ms_sorted (AdjustedRating_lt mem') adj' /\
    forall q, mem' !! q = (if decide (q ∈ l) then relaxed rDec <$> mem !! q else mem !! q).
Proof.
  revert mem adj. induction l as [|p l IH]; intros mem adj Hd Hl Ha Hs; [by exists mem, adj|].
  apply NoDup_cons in Hd as [Hpl Hd]. cbn [Active_loop]. destruct (Hl p ltac:(by left)) as (Hpa & x & Hp & En & Ex). rewrite Hp. cbn [mbind option_bind].
  rewrite En, (proj2 (Z.eqb_neq _ _) Ex). cbn [negb orb]. fold (relaxed rDec x). set (mem1 := <[p := relaxed rDec x]> mem).
  assert (forall q, q ∈ adj -> mem1 !! q = mem !! q) as M1. { intros q Hq. unfold mem1. rewrite lookup_insert_ne; [done|]. by intros ->. }
  assert (forall q, q ∈ p :: adj -> is_Some (mem1 !! q)) as Hin.
  { intros q [->|Hq]%elem_of_cons; [unfold mem1; rewrite lookup_insert_eq; by eexists|]. rewrite M1 by done. by apply Ha. }
  destruct (IH mem1 (ms_insert (AdjustedRating_lt mem1) p adj)) as (mem' & adj' & -> & HP & Hs' & Hm); [done| | | |].
  - intros q Hq. destruct (Hl q ltac:(by right)) as (Hqa & y & Ey & Hy). assert (q <> p) by (by intros ->). rewrite ms_insert_perm.
    split; [by intros [?|?]%elem_of_cons|]. exists y. unfold mem1. by rewrite lookup_insert_ne.
  - intros q Hq. apply Hin. by rewrite ms_insert_perm in Hq.
  - destruct (by_key_order adjusted (fun _ => True) rating_lt raw_order mem1 (p :: adj)) as [O1 O2]; [done|done|].
    apply ms_insert_sorted; [exact O1|exact O2|]. eapply ms_sorted_ext; [|exact Hs]. intros a b Ia Ib. apply by_key_ext; by rewrite M1.
  - exists mem', adj'. split; [done|]. split; [|split; [done|]].
    + rewrite HP, ms_insert_perm. rewrite <- Permutation_middle. constructor. done.
    + intros q. rewrite Hm. unfold mem1. destruct (decide (q = p)) as [->|Hne].
      * rewrite decide_False by done. rewrite decide_True by (by left). by rewrite lookup_insert_eq, Hp.
      * rewrite lookup_insert_ne by done.
        destruct (decide (q ∈ l)); [rewrite decide_True by (by right)|rewrite decide_False by (by intros [?|?]%elem_of_cons)]; done.
Qed.

(** Waiting changes the adjusted ratings of the inactive peers in place, and does
    not disturb their order. *)
Lemma adjusted_starved rInc x : peer_ok x -> pi_Now x = false -> 0 <= rInc -> rInc + Rating_Max < 2 ^ 32 ->
  adjusted (starved rInc x) = Z.min (adjusted x + rInc) Rating_Max.
Proof.
  intros [_ H1 H2 _] En Hr Hm. unfold adjusted, starved. rewrite En. cbn [pi_RawRating pi_Increment set_Rating].
  assert (Rating_Max = 10240) as HM by done. rewrite Rating_Inc_spec by lia. rewrite !Saturate_spec, !u32_small by lia. lia.
Qed.

(** What the configuration must satisfy for the arithmetic not to wrap around. *)
Record cfg_ok (cfg : Cfg) : Prop := {
  co_inc : 0 <= m_StarvationRatioInc cfg <= 999;
  co_dec : 0 <= m_StarvationRatioDec cfg <= 999;
  co_highest : 0 <= m_DesiredHighest cfg < 2 ^ 32;
  co_total : 0 <= m_DesiredTotal cfg < 2 ^ 32
}.

Lemma aged_ok rInc rDec x : peer_ok x -> 0 <= rInc -> 0 <= rDec -> peer_ok (aged rInc rDec x).
Proof.
  intros Hx Hi Hd. unfold aged. destruct (Z.eqb_spec (pi_RawRating x) 0) as [|E]; [done|]. destruct Hx as [H1 H2 H3 H4].
  assert (Rating_Max = 10240) as HM by done. split; cbn; [done|done| |done]. destruct (pi_Now x); lia.
Qed.

Lemma aged_eq rInc rDec x : peer_ok x -> allowed x -> 0 <= rInc -> 0 <= rDec -> rInc + Rating_Max < 2 ^ 32 ->
  aged rInc rDec x = if pi_Now x then relaxed rDec x else starved rInc x.
Proof.
  intros [_ _ H2 _] Ha Hi Hd Hm. assert (Rating_Max = 10240) as HM by done. unfold aged. rewrite (proj2 (Z.eqb_neq _ _) Ha).
  unfold relaxed, starved. destruct (pi_Now x) eqn:En.
  - f_equal. destruct (Z.ltb_spec rDec (pi_Increment x)); [rewrite u32_small by lia|]; lia.
  - f_equal. rewrite Rating_Inc_spec by lia. done.
Qed.

Lemma peers_ok_fmap pm (f : PeerInfo -> PeerInfo) adj t :
  peers_ok pm ->
  (forall x, pi_ID (f x) = pi_ID x /\ pi_RawRating (f x) = pi_RawRating x /\ pi_Addr (f x) = pi_Addr x /\ pi_Now (f x) = pi_Now x) ->
  (forall x, peer_ok x -> peer_ok (f x)) -> indexed allowed adjusted rating_lt (f <$> pm_mem pm) adj ->
  peers_ok (mkPM (f <$> pm_mem pm) (pm_IDs pm) (pm_Ratings pm) adj (pm_Addr pm) (pm_Active pm) t).
Proof.
  intros [H1 H2 H3 H4 H5 H6 H7 H8] Hf Hx Ha. unfold identified, present, located, active in *.
  peer_split; [..|done| | | | |]; try (apply indexed_fmap; [|done]; intros x; destruct (Hf x) as (E1 & E2 & E3 & E4);
    unfold identified, present, located, active; by rewrite ?E1, ?E2, ?E3, ?E4).
  - intros a b y z Ha' Hb. rewrite lookup_fmap in Ha', Hb. apply fmap_Some in Ha' as (y0 & Hy & ->). apply fmap_Some in Hb as (z0 & Hz & ->).
    unfold identified. destruct (Hf y0) as (-> & _), (Hf z0) as (-> & _). by eapply H6.
  - intros a b y z Ha' Hb. rewrite lookup_fmap in Ha', Hb. apply fmap_Some in Ha' as (y0 & Hy & ->). apply fmap_Some in Hb as (z0 & Hz & ->).
    unfold located. destruct (Hf y0) as (_ & _ & -> & _), (Hf z0) as (_ & _ & -> & _). by eapply H7.
  - intros p y Hp. rewrite lookup_fmap in Hp. apply fmap_Some in Hp as (x & Ex & ->). by eapply Hx, H8.
Qed.

(** The two loops together. *)
Lemma aged_mem_eq rInc rDec pm (mem1 mem' : gmap nat PeerInfo) : peers_ok pm -> 0 <= rInc -> 0 <= rDec -> rInc + Rating_Max < 2 ^ 32 ->
  (forall q, mem1 !! q = (if decide (q ∈ pm_AdjustedRatings pm) then starved rInc <$> pm_mem pm !! q else pm_mem pm !! q)) ->
  (forall q, mem' !! q = (if decide (q ∈ pm_Active pm) then relaxed rDec <$> mem1 !! q else mem1 !! q)) ->
  mem' = aged rInc rDec <$> pm_mem pm.
Proof.
  intros Hok HI HD HM M1 M2. apply map_eq. intros q. rewrite M2, M1, lookup_fmap.
  destruct (pm_mem pm !! q) as [x|] eqn:Eq; [|by destruct (decide _), (decide _)].
  pose proof (indexed_lookup _ _ _ _ _ _ _ (po_adj _ Hok) Eq) as Hadj. pose proof (indexed_lookup _ _ _ _ _ _ _ (po_act _ Hok) Eq) as Hac.
  pose proof (po_elm _ Hok q x Eq) as Hx. unfold active in Hac. destruct (decide (allowed x)) as [Ha|Ha].
  - rewrite (decide_True (P := q ∈ pm_AdjustedRatings pm)) by (by apply Hadj). cbn. rewrite aged_eq by done.
    destruct (pi_Now x) eqn:En.
    + rewrite decide_True by (by apply Hac). cbn. unfold starved. by rewrite En.
    + rewrite decide_False; [done|]. by rewrite Hac.
  - rewrite (decide_False (P := q ∈ pm_AdjustedRatings pm)) by (by rewrite Hadj). unfold allowed in Ha.
    destruct (Z.eqb_spec (pi_RawRating x) 0) as [Er|]; [|done]. rewrite decide_False.
    + cbn. unfold aged. by rewrite Er.
    + rewrite Hac. destruct (pk_ban _ Hx Er) as [_ ->]. done.
Qed.

Lemma UpdateRatingsInternal_ok cfg pm t :
  cfg_ok cfg -> peers_ok pm ->
  let dt := dt_seconds t (pm_TicksLast_ms pm) in
  exists pm', UpdateRatingsInternal cfg pm t = Some pm' /\ peers_ok pm' /\
    pm_mem pm' = aged (dt * m_StarvationRatioInc cfg) (dt * m_StarvationRatioDec cfg) <$> pm_mem pm /\
    pm_IDs pm' = pm_IDs pm /\ pm_Ratings pm' = pm_Ratings pm /\ pm_Addr pm' = pm_Addr pm /\ pm_Active pm' = pm_Active pm.
Proof.
  intros Hc Hok dt. pose proof (dt_seconds_bound t (pm_TicksLast_ms pm)) as Hdt. fold dt in Hdt. destruct Hc as [C1 C2 _ _].
  set (rInc := dt * m_StarvationRatioInc cfg). set (rDec := dt * m_StarvationRatioDec cfg).
  assert (0 <= rInc <= 4294968 * 999) as HI by (unfold rInc; nia). assert (0 <= rDec <= 4294968 * 999) as HD by (unfold rDec; nia).
  assert (Rating_Max = 10240) as HM by done.
  unfold UpdateRatingsInternal. cbv zeta. fold dt rInc rDec. rewrite !u32_small by lia.
  pose proof (po_elm _ Hok) as Hel.
  rewrite Unban_loop_ok.
  2: { intros p Hp. rewrite reverse_Permutation in Hp. apply (po_rat _ Hok) in Hp as (x & Hx & _). exists x. split; [done|by eapply Hel]. }
  cbn [mbind option_bind].
  destruct (Starve_loop_ok rInc (pm_AdjustedRatings pm) (pm_mem pm)) as (mem1 & kept & -> & Hsub & Hk & M1); [apply (po_adj _ Hok)| |].
  { intros p Hp. apply (po_adj _ Hok) in Hp as (x & -> & _). by eexists. }
  cbn [mbind option_bind].
  assert (forall p x, pm_mem pm !! p = Some x -> pi_Now x = true -> allowed x) as Hact.
  { intros p x Hp En Er. destruct (pk_ban _ (Hel p x Hp) Er). congruence. }
  assert (forall p x, pm_mem pm !! p = Some x -> p ∈ pm_AdjustedRatings pm <-> allowed x) as Hadj by (intros p x Hp; by apply (indexed_lookup _ _ _ _ _ _ _ (po_adj _ Hok) Hp)).
  assert (forall p x, pm_mem pm !! p = Some x -> p ∈ pm_Active pm <-> pi_Now x = true) as Hac by (intros p x Hp; by apply (indexed_lookup _ _ _ _ _ _ _ (po_act _ Hok) Hp)).
  destruct (Active_loop_ok rDec (pm_Active pm) mem1 kept) as (mem' & adj' & -> & HP & Hs' & M2); [apply (po_act _ Hok)| | | |].
  { intros p Hp. pose proof Hp as Hp'. apply (po_act _ Hok) in Hp as (x & Hx & En). unfold active in En. split.
    - rewrite Hk. intros [_ (y & Ey & Hy)]. congruence.
    - exists x. rewrite M1, Hx. split; [|by eauto]. destruct (decide _); [|done]. cbn. unfold starved. by rewrite En. }
  { intros p Hp. apply Hk in Hp as [_ (x & Hx & _)]. rewrite M1, Hx. destruct (decide _); by eexists. }
  { assert (ms_sorted (AdjustedRating_lt (pm_mem pm)) kept) as Hs by (eapply StronglySorted_sublist; [exact Hsub|apply (po_adj _ Hok)]).
    eapply ms_sorted_mono; [|exact Hs]. intros a b Ha Hb. apply Hk in Ha as [Ia (x & Hx & Nx)]. apply Hk in Hb as [Ib (y & Hy & Ny)].
    unfold AdjustedRating_lt, by_key. rewrite !M1, Hx, Hy, !decide_True by done. cbn [fmap option_fmap option_map].
    unfold rating_lt. rewrite !Z.ltb_ge, !adjusted_starved by (try done; try lia; by eapply Hel). lia. }
  cbn [mbind option_bind].
  assert (mem' = aged rInc rDec <$> pm_mem pm) as Em by (apply (aged_mem_eq rInc rDec pm mem1); done || lia).
  eexists. split; [done|]. split; [|done]. clear M1 M2. subst mem'.
  apply (peers_ok_fmap pm); [done|intros x; unfold aged; by destruct (_ =? _)|intros x Hx; by apply aged_ok; [|lia..]|].
  split; [|intros p|done].
  - rewrite HP. apply NoDup_app. split_and!; [apply (po_act _ Hok)| |eapply sublist_NoDup; [apply (po_adj _ Hok)|exact Hsub]].
    intros p Hp Hpk. apply (po_act _ Hok) in Hp as (x & Hx & En). apply Hk in Hpk as [_ (y & Hy & Ny)]. unfold active in En. congruence.
  - rewrite HP, elem_of_app, Hk. unfold linked. rewrite lookup_fmap. destruct (pm_mem pm !! p) as [x|] eqn:Ep; cbn.
    + rewrite (Hac p x Ep), (Hadj p x Ep). assert (allowed (aged rInc rDec x) <-> allowed x) as Ha by (unfold allowed, aged; by destruct (_ =? _)).
      split.
      * intros H. eexists. split; [done|]. apply Ha. destruct H as [En|[? _]]; [by eapply Hact|done].
      * intros (y & [= <-] & Hy). apply Ha in Hy. destruct (pi_Now x) eqn:En; [by left|right]. split; [done|by exists x].
    + split; [|by intros (y & [=] & _)]. intros [Hp|[_ (y & [=] & _)]]. apply (po_act _ Hok) in Hp as (y & Ey & _). congruence.
Qed.

(** ** Selection *)

(** A greedy choice: the elements of [l] that are eligible, in order, up to [cap]
    elements together with those of [sel]. *)
Fixpoint greedy (elig : nat -> bool) (cap : nat) (l sel : list nat) : list nat :=
  match l with
  | [] => sel
  | p :: l =>
      if (length sel <? cap)%nat then greedy elig cap l (if bool_decide (p ∈ sel) || negb (elig p) then sel else sel ++ [p])
      else sel
  end.

Section greedy.
Context (elig : nat -> bool) (cap : nat).

Lemma greedy_spec l sel : exists k, greedy elig cap l sel = sel ++ k /\
  (forall p, p ∈ k -> p ∈ l /\ elig p = true) /\ (NoDup sel -> NoDup (sel ++ k)) /\ (length (sel ++ k) <= Nat.max (length sel) cap)%nat.
Proof.
  revert sel. induction l as [|p l IH]; intros sel; cbn [greedy].
  { exists []. rewrite app_nil_r. split_and!; [done|by intros p ?%not_elem_of_nil|done|lia]. }
  destruct (Nat.ltb_spec (length sel) cap) as [Hl|Hl].
  2: { exists []. rewrite app_nil_r. split_and!; [done|by intros q ?%not_elem_of_nil|done|lia]. }
  destruct (bool_decide (p ∈ sel) || negb (elig p)) eqn:E.
  - destruct (IH sel) as (k & -> & H1 & H2 & H3). exists k. split_and!; try done. intros q Hq. destruct (H1 q Hq). split; [by right|done].
  - apply orb_false_iff in E as [E1%bool_decide_eq_false E2%negb_false_iff].
    destruct (IH (sel ++ [p])) as (k & -> & H1 & H2 & H3). exists (p :: k). rewrite <- app_assoc in *. cbn [app] in *. split_and!.
    + done.
    + intros q [->|Hq]%elem_of_cons; [split; [by left|done]|]. destruct (H1 q Hq). split; [by right|done].
    + intros Hd. apply H2. apply NoDup_app. split_and!; [done| |apply NoDup_singleton]. intros q Hq ->%list_elem_of_singleton. done.
    + rewrite (length_app sel [p]) in H3. cbn in H3. lia.
Qed.

(** When there is room left, nobody eligible is left out. *)
Lemma greedy_complete l sel p :
  (length (greedy elig cap l sel) < cap)%nat -> p ∈ l -> elig p = true -> p ∈ greedy elig cap l sel.
Proof.
  revert sel. induction l as [|h l IH]; intros sel; cbn [greedy]; [by intros _ ?%not_elem_of_nil|].
  destruct (Nat.ltb_spec (length sel) cap) as [Hl|Hl]; [|lia]. intros H [->|Hp]%elem_of_cons He; [|by apply IH].
  destruct (greedy_spec l (if bool_decide (h ∈ sel) || negb (elig h) then sel else sel ++ [h])) as (k & -> & _).
  apply elem_of_app. left. rewrite He. destruct (bool_decide_reflect (h ∈ sel)); cbn; [done|]. apply elem_of_app. right. by left.
Qed.

(** Nobody is chosen before somebody eligible that is earlier in the order. *)
Lemma greedy_order (R : nat -> nat -> Prop) l sel p q :
  StronglySorted R l -> p ∈ greedy elig cap l sel -> p ∉ sel ->
  q ∈ l -> elig q = true -> q ∉ greedy elig cap l sel -> R p q.
Proof.
  intros Hs. revert sel. induction Hs as [|h l Hs IH Hh]; intros sel; cbn [greedy]; [done|].
  destruct (Nat.ltb_spec (length sel) cap) as [Hl|Hl]; [|done].
  intros Hp Hps Hq He Hqn. set (sel1 := if bool_decide _ || _ then _ else _) in *.
  destruct (greedy_spec l sel1) as (k & Eg & _).
  assert (q <> h) as Hqh.
  { intros ->. apply Hqn. rewrite Eg. apply elem_of_app. left. unfold sel1. rewrite He.
    destruct (bool_decide_reflect (h ∈ sel)); cbn; [done|]. apply elem_of_app. right. by left. }
  apply elem_of_cons in Hq as [?|Hq]; [done|]. destruct (decide (p ∈ sel1)) as [Hp1|Hp1]; [|by apply (IH sel1)].
  assert (p = h) as ->.
  { unfold sel1 in Hp1. destruct (_ || _); [done|]. apply elem_of_app in Hp1 as [?|Hp1]; [done|]. by apply list_elem_of_singleton in Hp1. }
  by eapply Forall_forall in Hh.
Qed.
End greedy.

(** Which peers may be selected, and which may not be dropped. *)
Definition is_early (cfg : Cfg) (nTicks : Z) (x : PeerInfo) : bool :=
  u32 (nTicks - pi_LastActivity_ms x) <? m_TimeoutDisconnect_ms cfg.
Definition is_eligible (cfg : Cfg) (nTicks : Z) (x : PeerInfo) : bool :=
  negb (pi_Addr x =? 0) && negb (pi_RawRating x =? 0) &&
  (pi_Now x || negb (u32 (nTicks - pi_LastActivity_ms x) <? m_TimeoutReconnect_ms cfg)).
Definition at_peer (mem : gmap nat PeerInfo) (f : PeerInfo -> bool) (p : nat) : bool :=
  match mem !! p with Some x => f x | None => false end.

(** What [ActivatePeerInternal] does with a peer that it selects. *)
Lemma activate_ok pm p x t (n : Z) : peers_ok pm -> pm_mem pm !! p = Some x -> allowed x ->
  let pm1 := with_mem pm (<[p := set_Next x true]> (pm_mem pm)) in
  exists pm2, (if negb (pi_Now x) then pm' ← OnActive pm1 p true t; Some (pm', n) else Some (pm1, n)) = Some (pm2, n) /\
    peers_ok pm2 /\ pm_IDs pm2 = pm_IDs pm /\ pm_Ratings pm2 = pm_Ratings pm /\ pm_AdjustedRatings pm2 = pm_AdjustedRatings pm /\
    pm_Addr pm2 = pm_Addr pm /\ pm_TicksLast_ms pm2 = pm_TicksLast_ms pm /\
    pm_mem pm2 = <[p := (if pi_Now x then set_Next x true else set_Now (set_Next x true) true t)]> (pm_mem pm).
Proof.
  intros Hok Hp Ha pm1. assert (peers_ok pm1) as Hok1.
  { apply (peers_ok_update pm p x); try done. destruct (po_elm _ Hok p x Hp). by split. }
  assert (pm_mem pm1 !! p = Some (set_Next x true)) as Hp1 by apply lookup_insert_eq.
  destruct (pi_Now x) eqn:Enx; cbn [negb]; [by exists pm1|].
  destruct (OnActive_ok pm1 p (set_Next x true) true t Hok1 Hp1) as (pm2 & -> & Hok2 & M2 & S); [done|]. cbn [mbind option_bind].
  exists pm2. rewrite M2. cbn [pi_Now set_Next]. rewrite Enx. cbn [Bool.eqb]. destruct S as (-> & -> & -> & -> & ->). split_and!; try done.
  unfold pm1. cbn [with_mem pm_mem]. by rewrite insert_insert_eq.
Qed.

Section selection.
Context (cfg : Cfg) (nTicks : Z) (now : nat -> Z) (pm0 : PeerManager).
Abbreviation elig := (at_peer (pm_mem pm0) (is_eligible cfg nTicks)).

(** A state of [Update] in which [sel] has been selected, from [pm0]. *)
Record peer_selected (sel : list nat) (q : nat) (x0 x : PeerInfo) : Prop := {
  ps_id : pi_ID x = pi_ID x0;
  ps_raw : pi_RawRating x = pi_RawRating x0;
  ps_inc : pi_Increment x = pi_Increment x0;
  ps_addr : pi_Addr x = pi_Addr x0;
  ps_seen : pi_LastSeen x = pi_LastSeen x0;
  ps_now : pi_Now x = pi_Now x0 || bool_decide (q ∈ sel);
  ps_next : pi_Now x = true -> pi_Next x = bool_decide (q ∈ sel);
  ps_last : q ∉ sel -> pi_LastActivity_ms x = pi_LastActivity_ms x0
}.

Record selecting (sel : list nat) (pm : PeerManager) : Prop := {
  sl_ok : peers_ok pm;
  sl_sets : pm_IDs pm = pm_IDs pm0 /\ pm_Ratings pm = pm_Ratings pm0 /\ pm_AdjustedRatings pm = pm_AdjustedRatings pm0 /\
            pm_Addr pm = pm_Addr pm0 /\ pm_TicksLast_ms pm = nTicks;
  sl_dup : NoDup sel;
  sl_mem q : match pm_mem pm0 !! q with
             | None => pm_mem pm !! q = None
             | Some x0 => exists x, pm_mem pm !! q = Some x /\ peer_selected sel q x0 x
             end
}.

Lemma peer_selected_other sel p q x0 x : q <> p -> peer_selected sel q x0 x -> peer_selected (sel ++ [p]) q x0 x.
Proof.
  intros Hne [H1 H2 H3 H4 H4' H5 H6 H7].
  assert (bool_decide (q ∈ sel ++ [p]) = bool_decide (q ∈ sel)) as E.
  { apply bool_decide_ext. rewrite elem_of_app, list_elem_of_singleton. tauto. }
  split; rewrite ?E; try done. intros Hq. apply H7. intros Hi. apply Hq, elem_of_app. by left.
Qed.

Definition step_selection (sel : list nat) (p : nat) : list nat :=
  if bool_decide (p ∈ sel) || negb (elig p) then sel else sel ++ [p].

Lemma ActivatePeerInternal_ok sel pm p n :
  selecting sel pm -> is_Some (pm_mem pm0 !! p) -> n = Z.of_nat (length sel) -> n < m_DesiredTotal cfg -> m_DesiredTotal cfg < 2 ^ 32 ->
  exists pm', ActivatePeerInternal cfg pm p nTicks now n = Some (pm', Z.of_nat (length (step_selection sel p))) /\
    selecting (step_selection sel p) pm'.
Proof.
  intros Hs [x0 Hp0] -> Hn Hn32. pose proof (sl_mem _ _ Hs p) as Hm. rewrite Hp0 in Hm. destruct Hm as (x & Hp & Hx).
  unfold ActivatePeerInternal. rewrite Hp. cbn [mbind option_bind]. unfold step_selection. destruct (bool_decide_reflect (p ∈ sel)) as [Hin|Hin]; cbn [orb].
  { pose proof (ps_now _ _ _ _ Hx) as En. pose proof (ps_next _ _ _ _ Hx) as Ex. rewrite bool_decide_eq_true_2, orb_true_r in En by done.
    rewrite En, Ex, bool_decide_eq_true_2 by done. cbn. by exists pm. }
  pose proof (ps_now _ _ _ _ Hx) as En. pose proof (ps_next _ _ _ _ Hx) as Ex. rewrite bool_decide_eq_false_2, orb_false_r in En by done.
  rewrite bool_decide_eq_false_2 in Ex by done. assert (pi_Now x && pi_Next x = false) as -> by (destruct (pi_Now x); [by apply Ex|done]).
  assert (elig p = is_eligible cfg nTicks x) as Ee.
  { unfold at_peer, is_eligible. rewrite Hp0. by rewrite (ps_addr _ _ _ _ Hx), (ps_raw _ _ _ _ Hx), (ps_last _ _ _ _ Hx Hin), En. }
  rewrite Ee. unfold is_eligible.
  destruct (Z.eqb_spec (pi_Addr x) 0) as [Ea|Ea]; cbn [negb andb]; [by exists pm|].
  destruct (Z.eqb_spec (pi_RawRating x) 0) as [Er|Er]; cbn [negb andb].
  { exists pm. split; [|done]. by destruct (negb (pi_Now x) && _). }
  destruct (negb (pi_Now x) && (u32 (nTicks - pi_LastActivity_ms x) <? m_TimeoutReconnect_ms cfg)) eqn:Et.
  { exists pm. apply andb_true_iff in Et as [Et1%negb_true_iff Et2]. rewrite Et1, Et2. done. }
  assert (pi_Now x || negb (u32 (nTicks - pi_LastActivity_ms x) <? m_TimeoutReconnect_ms cfg) = true) as ->.
  { destruct (pi_Now x), (_ <? _); done. }
  cbn [negb]. rewrite u32_small by lia.
  assert (Z.of_nat (length sel) + 1 = Z.of_nat (length (sel ++ [p]))) as -> by (rewrite length_app; cbn; lia).
  destruct (activate_ok pm p x (now p) (Z.of_nat (length (sel ++ [p]))) (sl_ok _ _ Hs) Hp Er) as (pm2 & -> & Hok2 & S1 & S2 & S3 & S4 & S5 & M2).
  exists pm2. split; [done|]. split; [done| | |].
  - destruct (sl_sets _ _ Hs) as (? & ? & ? & ? & ?). split_and!; congruence.
  - apply NoDup_app. split_and!; [apply Hs| |apply NoDup_singleton]. by intros q Hq ->%list_elem_of_singleton.
  - intros q. pose proof (sl_mem _ _ Hs q) as Hm. destruct (decide (q = p)) as [->|Hne].
    + rewrite Hp0, M2, lookup_insert_eq. eexists. split; [done|]. destruct Hx as [X1 X2 X3 X4 X4' X5 X6 X7].
      assert (p ∈ sel ++ [p]) as Hpin by (apply elem_of_app; right; by left).
      split; rewrite ?(bool_decide_eq_true_2 _ Hpin), ?orb_true_r; try done; destruct (pi_Now x) eqn:E'; try done.
    + destruct (pm_mem pm0 !! q) as [y0|]; [|by rewrite M2, lookup_insert_ne].
      destruct Hm as (y & Hy & Hsel). exists y. rewrite M2, lookup_insert_ne by done. split; [done|]. by apply peer_selected_other.
Qed.

Lemma Adjusted_loop_ok l sel pm :
  m_DesiredTotal cfg < 2 ^ 32 -> 0 <= m_DesiredTotal cfg -> (forall p, p ∈ l -> is_Some (pm_mem pm0 !! p)) -> selecting sel pm ->
  let sel' := greedy elig (Z.to_nat (m_DesiredTotal cfg)) l sel in
  exists pm', Adjusted_loop cfg nTicks now l pm (Z.of_nat (length sel)) = Some (pm', Z.of_nat (length sel')) /\ selecting sel' pm'.
Proof.
  intros H32 H0. revert sel pm. induction l as [|p l IH]; intros sel pm Hl Hs; cbn [Adjusted_loop greedy]; [by exists pm|].
  destruct (Z.ltb_spec (Z.of_nat (length sel)) (m_DesiredTotal cfg)) as [Hlt|Hge].
  - rewrite (proj2 (Nat.ltb_lt _ _)) by lia.
    destruct (ActivatePeerInternal_ok sel pm p _ Hs (Hl p ltac:(by left)) eq_refl Hlt H32) as (pm' & -> & Hs').
    cbn [mbind option_bind]. apply IH; [|done]. intros q Hq. apply Hl. by right.
  - rewrite (proj2 (Nat.ltb_ge _ _)) by lia. by exists pm.
Qed.

Lemma Highest_loop_ok l sel pm k :
  m_DesiredTotal cfg < 2 ^ 32 -> 0 <= m_DesiredTotal cfg -> 0 <= k <= m_DesiredHighest cfg -> m_DesiredHighest cfg < 2 ^ 32 ->
  (forall p, p ∈ l -> is_Some (pm_mem pm0 !! p)) -> selecting sel pm ->
  let sel' := greedy elig (Z.to_nat (m_DesiredTotal cfg)) (take (Z.to_nat (m_DesiredHighest cfg - k)) l) sel in
  exists pm', Highest_loop cfg nTicks now l pm k (Z.of_nat (length sel)) = Some (pm', Z.of_nat (length sel')) /\ selecting sel' pm'.
Proof.
  intros H32 H0 Hk Hh. revert sel pm k Hk. induction l as [|p l IH]; intros sel pm k Hk Hl Hs; cbn [Highest_loop].
  { rewrite take_nil. by exists pm. }
  destruct (Z.ltb_spec k (m_DesiredHighest cfg)) as [Hkl|Hkl]; cbn [andb].
  2: { replace (Z.to_nat (m_DesiredHighest cfg - k)) with 0%nat by lia. by exists pm. }
  replace (Z.to_nat (m_DesiredHighest cfg - k)) with (S (Z.to_nat (m_DesiredHighest cfg - (k + 1)))) by lia. cbn [take greedy].
  destruct (Z.ltb_spec (Z.of_nat (length sel)) (m_DesiredTotal cfg)) as [Hlt|Hge].
  - rewrite (proj2 (Nat.ltb_lt _ _)) by lia.
    destruct (ActivatePeerInternal_ok sel pm p _ Hs (Hl p ltac:(by left)) eq_refl Hlt H32) as (pm' & -> & Hs').
    cbn [mbind option_bind]. rewrite u32_small by lia. apply IH; [lia| |done]. intros q Hq. apply Hl. by right.
  - rewrite (proj2 (Nat.ltb_ge _ _)) by lia. by exists pm.
Qed.
End selection.

Definition early_peers (cfg : Cfg) (nTicks : Z) (pm : PeerManager) : list nat :=
  filter (fun p => at_peer (pm_mem pm) (is_early cfg nTicks) p = true) (pm_Active pm).

Lemma Early_loop_ok cfg nTicks l mem n :
  NoDup l -> (forall p, p ∈ l -> exists x, mem !! p = Some x /\ pi_Now x = true) -> 0 <= n -> n + Z.of_nat (length l) < 2 ^ 32 ->
  exists mem', Early_loop cfg nTicks l mem n
      = Some (mem', n + Z.of_nat (length (filter (fun p => at_peer mem (is_early cfg nTicks) p = true) l))) /\
    forall q, mem' !! q = (if decide (q ∈ l) then (fun x => set_Next x (is_early cfg nTicks x)) <$> mem !! q else mem !! q).
Proof.
  revert mem n. induction l as [|p l IH]; intros mem n Hd Hl Hn H32; cbn [Early_loop].
  { exists mem. split; [do 2 f_equal; cbn; lia|done]. }
  apply NoDup_cons in Hd as [Hpl Hd]. destruct (Hl p ltac:(by left)) as (x & Hp & En). rewrite Hp. cbn [mbind option_bind]. rewrite En. cbn [negb].
  fold (is_early cfg nTicks x). set (e := is_early cfg nTicks x). cbn [length] in H32.
  assert ((if e then u32 (n + 1) else n) = n + Z.b2z e) as -> by (destruct e; cbn; [rewrite u32_small by lia|]; lia).
  destruct (IH (<[p := set_Next x e]> mem) (n + Z.b2z e) Hd) as (mem' & -> & M); [| |destruct e; cbn; lia|].
  { intros q Hq. rewrite lookup_insert_ne by (by intros ->). apply Hl. by right. }
  { destruct e; cbn; lia. }
  exists mem'. split.
  - do 2 f_equal. assert (at_peer mem (is_early cfg nTicks) p = e) as Ee by (unfold at_peer; by rewrite Hp).
    assert (filter (fun q => at_peer (<[p := set_Next x e]> mem) (is_early cfg nTicks) q = true) l
            = filter (fun q => at_peer mem (is_early cfg nTicks) q = true) l) as ->.
    { apply list_filter_ext. intros q Hq. unfold at_peer. rewrite lookup_insert_ne; [done|]. by intros ->. }
    destruct e; [rewrite filter_cons_True by done|rewrite filter_cons_False by (by rewrite Ee)]; cbn [length Z.b2z]; lia.
  - intros q. rewrite M. destruct (decide (q = p)) as [->|Hne].
    + rewrite decide_False by done. rewrite decide_True by (by left). by rewrite lookup_insert_eq, Hp.
    + rewrite lookup_insert_ne by done. destruct (decide (q ∈ l)); [rewrite decide_True by (by right)|rewrite decide_False by (by intros [?|?]%elem_of_cons)]; done.
Qed.

(** The excess: who is not to stay is deactivated, and some of them ([dead]) are deleted. *)
Lemma Excess_loop_ok cfg now live ts l pm :
  peers_ok pm -> NoDup l -> (forall p, p ∈ l -> exists x, pm_mem pm !! p = Some x /\ pi_Now x = true) ->
  exists pm' dead, Excess_loop cfg now live ts l pm = Some pm' /\ peers_ok pm' /\
    (dead = [] \/ m_DesiredTotal cfg <= Z.of_nat (length (pm_Ratings pm'))) /\
    (forall q, q ∈ dead -> exists x, q ∈ l /\ pm_mem pm !! q = Some x /\ pi_Next x = false /\ live q = true /\ droppable cfg ts x) /\
    forall q, pm_mem pm' !! q
      = if decide (q ∈ dead) then None
        else (fun x => if bool_decide (q ∈ l) && negb (pi_Next x) then set_Now x false (now q) else x) <$> pm_mem pm !! q.
Proof.
  revert pm. induction l as [|p l IH]; intros pm Hok Hd Hl; cbn [Excess_loop].
  { exists pm, []. split_and!; try done; [by left|by intros q ?%not_elem_of_nil|].
    intros q. rewrite decide_False by apply not_elem_of_nil. rewrite bool_decide_eq_false_2 by apply not_elem_of_nil. cbn. by destruct (pm_mem pm !! q). }
  apply NoDup_cons in Hd as [Hpl Hd]. destruct (Hl p ltac:(by left)) as (x & Hp & En). rewrite Hp. cbn [mbind option_bind]. rewrite En. cbn [negb].
  set (y := if pi_Next x then x else set_Now x false (now p)).
  assert (exists pm1 (b : bool), (if negb (pi_Next x) then pm' ← OnActive pm p false (now p); pm' ← DeactivatePeer cfg live pm' p (now p) ts; Excess_loop cfg now live ts l pm'
        else Excess_loop cfg now live ts l pm) = Excess_loop cfg now live ts l pm1 /\ peers_ok pm1 /\
      pm_mem pm1 = (if b then delete p (pm_mem pm) else <[p := y]> (pm_mem pm)) /\
      (b = true -> pi_Next x = false /\ live p = true /\ droppable cfg ts x /\ m_DesiredTotal cfg <= Z.of_nat (length (pm_Ratings pm1))))
    as (pm1 & b & -> & Hok1 & M1 & Hb).
  { unfold y. destruct (pi_Next x); cbn [negb]; [exists pm, false; split_and!; try done; by rewrite insert_id|].
    destruct (OnActive_ok pm p x false (now p) Hok Hp) as (pm1 & -> & Hok1 & M1 & _); [done|]. rewrite En in M1. cbn [mbind option_bind Bool.eqb] in *.
    unfold DeactivatePeer. destruct (live p); cbn [negb]; [|by exists pm1, false].
    assert (pm_mem pm1 !! p = Some (set_Now x false (now p))) as Hp1 by (rewrite M1; apply lookup_insert_eq).
    destruct (DeleteSelf_ok cfg pm1 p _ false false (now p) ts Hok1 Hp1) as (pm2 & -> & Hok2 & x2 & _ & _ & _ & _ & E2 & [M2|(M2 & Hdr & Hsz)]); cbn [mbind option_bind].
    - exists pm2, false. split_and!; try done. rewrite M2, (E2 eq_refl), M1. cbn. by rewrite insert_insert_eq.
    - exists pm2, true. split_and!; try done; [by rewrite M2, M1, delete_insert_eq|]. intros _. split_and!; try done. by rewrite (E2 eq_refl) in Hdr. }
  destruct (IH pm1 Hok1 Hd) as (pm' & dead & E & Hok' & Hsz & Hdead & M).
  { intros q Hq. assert (q <> p) by (by intros ->). rewrite M1. destruct b; [rewrite lookup_delete_ne by done|rewrite lookup_insert_ne by done]; apply Hl; by right. }
  exists pm', (if b then p :: dead else dead). split; [done|]. split; [done|].
  assert (forall q, q <> p -> pm_mem pm1 !! q = pm_mem pm !! q) as Hoth by (intros q Hq; rewrite M1; destruct b; [by rewrite lookup_delete_ne|by rewrite lookup_insert_ne]).
  assert (p ∉ dead) as Hpd by (intros (? & ? & _)%Hdead; done).
  split_and!.
  - destruct b; [right|done]. destruct Hsz as [->|Hsz]; [|done]. destruct (Hb eq_refl) as (_ & _ & _ & Hs).
    rewrite ratings_size in * by done. replace (size (pm_mem pm')) with (size (pm_mem pm1)); [done|]. symmetry.
    rewrite <- (map_size_fmap (fun _ => ()) (pm_mem pm')), <- (map_size_fmap (fun _ => ()) (pm_mem pm1)). f_equal. apply map_eq. intros q.
    rewrite !lookup_fmap, M, decide_False by apply not_elem_of_nil. by destruct (pm_mem pm1 !! q).
  - intros q Hq. assert (q ∈ dead -> exists x0, q ∈ p :: l /\ pm_mem pm !! q = Some x0 /\ pi_Next x0 = false /\ live q = true /\ droppable cfg ts x0) as Hd2.
    { intros (z & Hz & Hm & Hrest)%Hdead. exists z. split; [by right|]. rewrite Hoth in Hm by (by intros ->). done. }
    destruct b; [|by apply Hd2]. apply elem_of_cons in Hq as [->|Hq]; [|by apply Hd2]. destruct (Hb eq_refl) as (? & ? & ? & _). exists x. split_and!; try done. by left.
  - intros q. rewrite M. destruct (decide (q = p)) as [->|Hne].
    + rewrite (decide_False (P := p ∈ dead)) by done. rewrite (bool_decide_eq_false_2 (p ∈ l)) by done. rewrite bool_decide_eq_true_2 by (by left). cbn [andb].
      rewrite M1. destruct b; [rewrite decide_True by (by left); by rewrite lookup_delete_eq|]. rewrite decide_False by done. rewrite lookup_insert_eq, Hp. cbn. unfold y. by destruct (pi_Next x).
    + rewrite Hoth by done. assert (bool_decide (q ∈ p :: l) = bool_decide (q ∈ l)) as -> by (apply bool_decide_ext; rewrite elem_of_cons; tauto).
      destruct b; [|done]. destruct (decide (q ∈ dead)); [by rewrite decide_True by (by right)|]. rewrite decide_False; [done|]. by intros [?|?]%elem_of_cons.
Qed.

(** What [Update] selects, [adj] being the order of the adjusted ratings. *)
Definition selection (cfg : Cfg) (nTicks : Z) (pm : PeerManager) (adj : list nat) : list nat :=
  let elig := at_peer (pm_mem pm) (is_eligible cfg nTicks) in
  let cap := Z.to_nat (m_DesiredTotal cfg) in
  greedy elig cap adj (greedy elig cap (take (Z.to_nat (m_DesiredHighest cfg)) (pm_Ratings pm)) (early_peers cfg nTicks pm)).

Lemma elem_of_early cfg nTicks pm q x : peers_ok pm -> pm_mem pm !! q = Some x ->
  q ∈ early_peers cfg nTicks pm <-> pi_Now x = true /\ is_early cfg nTicks x = true.
Proof.
  intros Hok Hq. unfold early_peers. rewrite list_elem_of_filter. unfold at_peer. rewrite Hq, (indexed_lookup _ _ _ _ _ _ _ (po_act _ Hok) Hq).
  unfold active. tauto.
Qed.

Lemma early_selected cfg nTicks pm q x : peers_ok pm -> pm_mem pm !! q = Some x ->
  peer_selected (early_peers cfg nTicks pm) q x (if decide (q ∈ pm_Active pm) then set_Next x (is_early cfg nTicks x) else x).
Proof.
  intros Hok Hq. pose proof (elem_of_early cfg nTicks pm q x Hok Hq) as He.
  pose proof (indexed_lookup _ _ _ _ _ _ _ (po_act _ Hok) Hq) as Ha. unfold active in Ha.
  destruct (pi_Now x) eqn:En.
  - rewrite decide_True by (by apply Ha). split; cbn; try done; [by rewrite En|]. intros _. symmetry.
    apply Bool.eq_iff_eq_true. rewrite bool_decide_eq_true, He. tauto.
  - rewrite decide_False by (rewrite Ha; done). split; try done; [|by rewrite En].
    rewrite En, bool_decide_eq_false_2; [done|]. rewrite He. by intros [? _].
Qed.

(** What becomes of a peer that was [x] with the ratings of the moment: it stays, with the same identity, ratings, address and last
    time it was seen, and is active if it was selected; or it has been dropped and deleted with its connection: it was seen never,
    or not for a while and has the lowest rating, and enough others are left. *)
Definition peer_outcome (cfg : Cfg) (live : nat -> bool) (ts : Z) (sel : list nat) (nPeers : Z) (q : nat) (x : PeerInfo) (res : option PeerInfo) : Prop :=
  match res with
  | Some x' => pi_ID x' = pi_ID x /\ pi_RawRating x' = pi_RawRating x /\ pi_Increment x' = pi_Increment x /\ pi_Addr x' = pi_Addr x /\
      pi_LastSeen x' = pi_LastSeen x /\ pi_Now x' = bool_decide (q ∈ sel)
  | None => (q ∉ sel) /\ pi_Now x = true /\ live q = true /\ droppable cfg ts x /\ m_DesiredTotal cfg <= nPeers
  end.

(** From the state with the ratings of the moment. *)
Lemma Select_ok cfg pm nTicks now live ts :
  cfg_ok cfg -> peers_ok pm -> Z.of_nat (length (pm_Active pm)) < 2 ^ 32 ->
  let sel := selection cfg nTicks pm (pm_AdjustedRatings pm) in
  exists pm', ('(mem, nSelected) ← Early_loop cfg nTicks (pm_Active pm) (pm_mem pm) 0;
    let pm := mkPM mem (pm_IDs pm) (pm_Ratings pm) (pm_AdjustedRatings pm) (pm_Addr pm) (pm_Active pm) nTicks in
    '(pm, nSelected) ← Highest_loop cfg nTicks now (pm_Ratings pm) pm 0 nSelected;
    '(pm, _) ← Adjusted_loop cfg nTicks now (pm_AdjustedRatings pm) pm nSelected;
    Excess_loop cfg now live ts (pm_Active pm) pm) = Some pm' /\
    peers_ok pm' /\
    forall q, match pm_mem pm !! q with
      | None => pm_mem pm' !! q = None
      | Some x => peer_outcome cfg live ts sel (Z.of_nat (length (pm_Ratings pm'))) q x (pm_mem pm' !! q)
      end.
Proof.
  intros [_ _ Ch Ct] Hok H32 sel. pose proof (po_act _ Hok) as Hact.
  destruct (Early_loop_ok cfg nTicks (pm_Active pm) (pm_mem pm) 0) as (mem1 & -> & M1); [apply Hact| |lia|lia|].
  { intros p Hp. by apply Hact in Hp. }
  cbn [mbind option_bind]. rewrite Z.add_0_l. fold (early_peers cfg nTicks pm). set (pm1 := mkPM mem1 _ _ _ _ _ _). set (sel0 := early_peers cfg nTicks pm).
  assert (selecting nTicks pm sel0 pm1) as Hs1.
  { split; [|done|by apply NoDup_filter, Hact|].
    - assert (peers_ok (mkPM (pm_mem pm) (pm_IDs pm) (pm_Ratings pm) (pm_AdjustedRatings pm) (pm_Addr pm) (pm_Active pm) nTicks)) as Ht by (by destruct Hok).
      apply (peers_ok_pointwise _ pm1 Ht); try done. intros q. cbn [pm1 pm_mem]. rewrite M1.
      destruct (pm_mem pm !! q) as [x|], (decide (q ∈ pm_Active pm)); try done; cbn; eexists; by split.
    - intros q. cbn [pm1 pm_mem]. rewrite M1. destruct (pm_mem pm !! q) as [x|] eqn:Eq; [|by destruct (decide _)].
      eexists. split; [|by apply early_selected]. by destruct (decide _). }
  assert (forall p, p ∈ pm_Ratings pm -> is_Some (pm_mem pm !! p)) as Hr by (intros p Hp; apply (po_rat _ Hok) in Hp as (x & -> & _); by eexists).
  assert (forall p, p ∈ pm_AdjustedRatings pm -> is_Some (pm_mem pm !! p)) as Ha by (intros p Hp; apply (po_adj _ Hok) in Hp as (x & -> & _); by eexists).
  destruct (Highest_loop_ok cfg nTicks now pm (pm_Ratings pm1) sel0 pm1 0) as (pm2 & -> & Hs2); [lia|lia|lia|lia|done|done|].
  rewrite Z.sub_0_r in *. cbn [mbind option_bind]. destruct (sl_sets _ _ _ _ Hs2) as (_ & _ & A2 & _). rewrite A2.
  destruct (Adjusted_loop_ok cfg nTicks now pm (pm_AdjustedRatings pm) _ pm2 ltac:(lia) ltac:(lia) Ha Hs2) as (pm3 & -> & Hs3).
  cbn [mbind option_bind]. change (selecting nTicks pm sel pm3) in Hs3.
  destruct Hs3 as [Hok3 (T1 & T2 & T3 & T4 & T5) Hd3 M3].
  destruct (Excess_loop_ok cfg now live ts (pm_Active pm3) pm3 Hok3) as (pm' & dead & -> & Hok' & Hsz & Hdead & M'); [apply (po_act _ Hok3)| |].
  { intros p Hp. by apply (po_act _ Hok3) in Hp. }
  exists pm'. split; [done|]. split; [done|]. intros q. specialize (M3 q). specialize (M' q).
  destruct (pm_mem pm !! q) as [x|]; [|rewrite M3 in M'; by destruct (decide _)].
  destruct M3 as (x3 & Hq3 & [X1 X2 X3 X4 X4' X5 X6 X7]). rewrite Hq3 in M'. cbn in M'.
  pose proof (indexed_lookup _ _ _ _ _ _ _ (po_act _ Hok3) Hq3) as Hin. unfold active in Hin. unfold peer_outcome.
  destruct (decide (q ∈ dead)) as [Hq|Hq]; rewrite M'.
  - destruct (Hdead q Hq) as (y & Hy1 & Hy2 & Hy3 & Hy4 & Hy5). rewrite Hq3 in Hy2. injection Hy2 as <-. apply Hin in Hy1. specialize (X6 Hy1). rewrite Hy3 in X6.
    symmetry in X6. rewrite X6, orb_false_r in X5. apply bool_decide_eq_false in X6. split_and!; [done|congruence|done| |].
    + unfold droppable, IsOutdated in *. by rewrite <- X2, <- X4'.
    + destruct Hsz as [->|]; [by apply not_elem_of_nil in Hq|done].
  - destruct (pi_Now x3) eqn:En3.
    + rewrite bool_decide_eq_true_2 by (by apply Hin). rewrite X6 by done. destruct (bool_decide (q ∈ sel)); cbn; split_and!; congruence.
    + rewrite bool_decide_eq_false_2 by (rewrite Hin; done). cbn. split_and!; try done. rewrite En3. symmetry in X5. apply orb_false_iff in X5. symmetry. apply X5.
Qed.

(** The ratings of the moment [Update] selects by. *)
Definition aged_mem (cfg : Cfg) (pm : PeerManager) (nTicks : Z) : gmap nat PeerInfo :=
  if pm_TicksLast_ms pm =? 0 then pm_mem pm
  else let dt := dt_seconds nTicks (pm_TicksLast_ms pm) in
       aged (dt * m_StarvationRatioInc cfg) (dt * m_StarvationRatioDec cfg) <$> pm_mem pm.

Lemma aged_fields rInc rDec x : pi_ID (aged rInc rDec x) = pi_ID x /\ pi_RawRating (aged rInc rDec x) = pi_RawRating x /\
  pi_Addr (aged rInc rDec x) = pi_Addr x /\ pi_Now (aged rInc rDec x) = pi_Now x /\
  pi_LastActivity_ms (aged rInc rDec x) = pi_LastActivity_ms x.
Proof. unfold aged. by destruct (_ =? _). Qed.

Lemma at_peer_aged (f : PeerInfo -> bool) rInc rDec mem p :
  (forall x, f (aged rInc rDec x) = f x) -> at_peer (aged rInc rDec <$> mem) f p = at_peer mem f p.
Proof. intros H. unfold at_peer. rewrite lookup_fmap. destruct (mem !! p); cbn; [apply H|done]. Qed.

Lemma greedy_ext elig elig' cap l sel : (forall p, elig p = elig' p) -> greedy elig cap l sel = greedy elig' cap l sel.
Proof. intros H. revert sel. induction l as [|p l IH]; intros sel; [done|]. cbn [greedy]. rewrite H. destruct (length sel <? cap)%nat; [apply IH|done]. Qed.

(** Ageing changes neither who may be selected nor who may not be dropped. *)
Lemma selection_aged cfg nTicks pm pm0 rInc rDec adj :
  pm_mem pm0 = aged rInc rDec <$> pm_mem pm -> pm_Ratings pm0 = pm_Ratings pm -> pm_Active pm0 = pm_Active pm ->
  selection cfg nTicks pm0 adj = selection cfg nTicks pm adj.
Proof.
  intros M R A. unfold selection, early_peers. rewrite M, R, A.
  assert (forall p, at_peer (aged rInc rDec <$> pm_mem pm) (is_eligible cfg nTicks) p = at_peer (pm_mem pm) (is_eligible cfg nTicks) p) as He.
  { intros p. apply at_peer_aged. intros x. destruct (aged_fields rInc rDec x) as (_ & E2 & E3 & E4 & E5). unfold is_eligible. by rewrite E2, E3, E4, E5. }
  rewrite (greedy_ext _ _ _ _ _ He). f_equal. rewrite (greedy_ext _ _ _ _ _ He). f_equal. apply list_filter_ext. intros p _.
  rewrite at_peer_aged; [done|]. intros x. destruct (aged_fields rInc rDec x) as (_ & _ & _ & _ & E5). unfold is_early. by rewrite E5.
Qed.

(** [adj] are the peers by their adjusted ratings of the moment. *)
Lemma Update_ok cfg pm nTicks now live ts :
  cfg_ok cfg -> peers_ok pm -> Z.of_nat (length (pm_Active pm)) < 2 ^ 32 ->
  exists pm' adj, Update cfg pm nTicks now live ts = Some pm' /\ peers_ok pm' /\
    indexed allowed adjusted rating_lt (aged_mem cfg pm nTicks) adj /\
    forall q, match aged_mem cfg pm nTicks !! q with
      | None => pm_mem pm' !! q = None
      | Some x => peer_outcome cfg live ts (selection cfg nTicks pm adj) (Z.of_nat (length (pm_Ratings pm'))) q x (pm_mem pm' !! q)
      end.
Proof.
  intros Hc Hok H32. unfold Update, aged_mem. destruct (Z.eqb_spec (pm_TicksLast_ms pm) 0) as [E|E]; cbn [negb].
  - cbn [mbind option_bind]. destruct (Select_ok cfg pm nTicks now live ts Hc Hok H32) as (pm' & E' & Hok' & M).
    exists pm', (pm_AdjustedRatings pm). split_and!; try done. apply Hok.
  - destruct (UpdateRatingsInternal_ok cfg pm nTicks Hc Hok) as (pm0 & -> & Hok0 & M0 & _ & R0 & _ & A0). cbn [mbind option_bind].
    destruct (Select_ok cfg pm0 nTicks now live ts Hc Hok0) as (pm' & E' & Hok' & M); [by rewrite A0|].
    exists pm', (pm_AdjustedRatings pm0). rewrite <- (selection_aged cfg nTicks pm pm0 _ _ _ M0 R0 A0), <- M0. split_and!; try done. apply Hok0.
Qed.

(** The three parts of a selection. *)
Lemma selection_split cfg nTicks pm adj : peers_ok pm ->
  let elig := at_peer (pm_mem pm) (is_eligible cfg nTicks) in
  let cap := Z.to_nat (m_DesiredTotal cfg) in
  let top := take (Z.to_nat (m_DesiredHighest cfg)) (pm_Ratings pm) in
  exists k1 k2, greedy elig cap top (early_peers cfg nTicks pm) = early_peers cfg nTicks pm ++ k1 /\
    selection cfg nTicks pm adj = early_peers cfg nTicks pm ++ k1 ++ k2 /\
    (forall p, p ∈ k1 -> p ∈ top /\ elig p = true) /\ (forall p, p ∈ k2 -> p ∈ adj /\ elig p = true) /\
    NoDup (selection cfg nTicks pm adj) /\
    (length (selection cfg nTicks pm adj) <= Nat.max (length (early_peers cfg nTicks pm)) cap)%nat.
Proof.
  intros Hok elig cap top. destruct (greedy_spec elig cap top (early_peers cfg nTicks pm)) as (k1 & E1 & K1 & D1 & L1).
  destruct (greedy_spec elig cap adj (early_peers cfg nTicks pm ++ k1)) as (k2 & E2 & K2 & D2 & L2).
  exists k1, k2. assert (selection cfg nTicks pm adj = (early_peers cfg nTicks pm ++ k1) ++ k2) as Es.
  { unfold selection. cbv zeta. fold elig cap top. by rewrite E1, E2. }
  rewrite Es. split_and!; [done|by rewrite app_assoc|done|done| |lia]. apply D2, D1, NoDup_filter, (po_act _ Hok).
Qed.

Lemma aged_lookup cfg pm nTicks q x : pm_mem pm !! q = Some x ->
  exists y, aged_mem cfg pm nTicks !! q = Some y /\ pi_RawRating y = pi_RawRating x.
Proof.
  intros Hq. unfold aged_mem. destruct (_ =? 0); [by exists x|]. rewrite lookup_fmap, Hq. cbn. eexists. split; [done|]. apply aged_fields.
Qed.

Lemma aged_none cfg pm nTicks q : aged_mem cfg pm nTicks !! q = None <-> pm_mem pm !! q = None.
Proof. unfold aged_mem. destruct (_ =? 0); [done|]. by rewrite lookup_fmap, fmap_None. Qed.

(** The active peers are the ones that were selected. *)
Lemma Update_active cfg pm pm' nTicks live ts n adj : peers_ok pm -> peers_ok pm' ->
  (forall q, match aged_mem cfg pm nTicks !! q with
    | None => pm_mem pm' !! q = None
    | Some x => peer_outcome cfg live ts (selection cfg nTicks pm adj) n q x (pm_mem pm' !! q)
    end) ->
  pm_Active pm' ≡ₚ selection cfg nTicks pm adj.
Proof.
  intros Hok Hok' M. destruct (selection_split cfg nTicks pm adj Hok) as (k1 & k2 & _ & Esel & K1 & K2 & D & _).
  set (sel := selection cfg nTicks pm adj) in *.
  assert (forall q, q ∈ sel -> is_Some (pm_mem pm !! q)) as Hin.
  { intros q Hq. rewrite Esel, !elem_of_app in Hq. destruct Hq as [Hq|[Hq|Hq]].
    - apply list_elem_of_filter in Hq as [_ Hq]. apply (po_act _ Hok) in Hq as (x & -> & _). by eexists.
    - apply K1 in Hq as [_ Hq]. unfold at_peer in Hq. destruct (pm_mem pm !! q); [by eexists|done].
    - apply K2 in Hq as [_ Hq]. unfold at_peer in Hq. destruct (pm_mem pm !! q); [by eexists|done]. }
  apply NoDup_Permutation; [apply (po_act _ Hok')|done|]. intros q. rewrite (ix_alive _ _ _ _ _ (po_act _ Hok')). unfold linked, active.
  specialize (M q). split.
  - intros (x' & Hx' & Hn). destruct (aged_mem cfg pm nTicks !! q) as [x|]; [|congruence]. rewrite Hx' in M. destruct M as (_ & _ & _ & _ & _ & Ey).
    rewrite Hn in Ey. symmetry in Ey. by apply bool_decide_eq_true in Ey.
  - intros Hq. destruct (Hin q Hq) as [x Hx]. destruct (aged_lookup cfg pm nTicks q x Hx) as (y & Hy & _). rewrite Hy in M.
    destruct (pm_mem pm' !! q) as [x'|]; [|by destruct M]. exists x'. split; [done|]. destruct M as (_ & _ & _ & _ & _ & ->). by apply bool_decide_eq_true.
Qed.

(** C27: The peer manager stays consistent. Start from a manager whose five
    containers hold exactly the peers they are for, each in its order, with
    identities and addresses that are not shared and banned peers inactive, and a peer of it.
    Then [OnSeen], [ModifyRating] (with deltas below [2^31] that do not leave the rating at zero), [RemoveAddr], [ModifyAddr], [Find], [OnPeer], [Delete],
    [Clear], [OnActive] for a peer that is not banned, and [Ban] and [OnRemoteError] for a peer that is
    not active never unlink what is not linked, and keep it that way; ratings stay between one
    and the maximum unless the peer is banned; an address that is given to a
    peer is taken from the one that had it.  The node keeps to these conditions: [OnActive] is called after the rating was
    looked at, and [Node::Peer::DeleteSelf], which deactivates the peer before it reports an error, keeps the
    manager consistent for every peer, whatever the reason. *)
Theorem peers_invariant cfg pm p x :
  peers_ok pm -> pm_mem pm !! p = Some x ->
  (forall b now, (b = true -> allowed x) -> exists pm', OnActive pm p b now = Some pm' /\ peers_ok pm' /\ (p ∈ pm_Active pm' <-> b = true)) /\
  (forall delta, 0 <= delta < 2 ^ 31 -> (0 < pi_RawRating x \/ 0 < delta) ->
     exists pm', ModifyRating pm p delta true = Some pm' /\ peers_ok pm' /\
       pm_mem pm' = <[p := set_Rating x (Z.min (pi_RawRating x + delta) Rating_Max) (pi_Increment x)]> (pm_mem pm)) /\
  (forall delta, 0 <= delta ->
     exists pm', ModifyRating pm p delta false = Some pm' /\ peers_ok pm' /\
       pm_mem pm' = <[p := set_Rating x (Z.max 1 (pi_RawRating x - delta)) (pi_Increment x)]> (pm_mem pm)) /\
  (pi_Now x = false -> exists pm', Ban pm p = Some pm' /\ peers_ok pm' /\ pm_mem pm' = <[p := set_Rating x 0 0]> (pm_mem pm)) /\
  (pi_Now x = false -> forall bBan now, exists pm', OnRemoteError cfg pm p bBan now = Some pm' /\ peers_ok pm') /\
  (forall addr, exists pm', ModifyAddr pm p addr = Some pm' /\ peers_ok pm' /\ forall q, pm_mem pm' !! q = moved p addr q <$> pm_mem pm !! q) /\
  (forall id addr bVer fresh ts, bytes_n 32 id -> pm_mem pm !! fresh = None ->
     exists pm' ret, OnPeer cfg pm id addr bVer fresh ts = Some (pm', ret) /\ peers_ok pm' /\
       match ret with
       | None => id = zero_id /\ bVer = false /\ pm' = pm
       | Some q => exists x', pm_mem pm' !! q = Some x' /\ (id <> zero_id -> pi_ID x' = id) /\ (bVer = true -> pi_Addr x' = addr)
       end) /\
  (forall now, exists pm', Delete pm p now = Some pm' /\ peers_ok pm' /\ pm_mem pm' = delete p (pm_mem pm)) /\
  (forall ts, exists pm', OnSeen pm p ts = Some pm' /\ peers_ok pm' /\ pm_mem pm' = <[p := set_LastSeen x ts]> (pm_mem pm)) /\
  (exists pm', RemoveAddr pm p = Some pm' /\ peers_ok pm' /\ pm_mem pm' = <[p := set_Addr x 0]> (pm_mem pm)) /\
  (forall id bCreate fresh, bytes_n 32 id -> pm_mem pm !! fresh = None ->
     exists pm' ret b, Find pm id bCreate fresh = (pm', ret, b) /\ peers_ok pm' /\
       match ret with
       | None => bCreate = false /\ pm' = pm
       | Some q => exists y, pm_mem pm' !! q = Some y /\ pi_ID y = id /\ pm_mem pm' = (if b then <[fresh := new_peer id]> (pm_mem pm) else pm_mem pm)
       end) /\
  (forall bErr bBan now ts, exists pm', DeleteSelf cfg pm p bErr bBan now ts = Some pm' /\ peers_ok pm' /\ (p ∉ pm_Active pm')) /\
  (forall now, exists pm', Clear (length (pm_Ratings pm)) pm now = Some pm' /\ peers_ok pm' /\ pm_mem pm' = ∅).
Proof.
  intros Hok Hp. pose proof (pk_raw _ (po_elm _ Hok p x Hp)) as Hr. assert (Rating_Max = 10240) as HM by done. split_and!.
  - intros b now Hb. destruct (OnActive_ok pm p x b now Hok Hp Hb) as (pm' & E & Hok' & M & _). exists pm'. split_and!; try done.
    rewrite (ix_alive _ _ _ _ _ (po_act _ Hok')), M. unfold linked, active. destruct (Bool.eqb (pi_Now x) b) eqn:Eb.
    + apply Bool.eqb_prop in Eb. rewrite Hp. split; [intros (y & [= <-] & Hy); congruence|intros ->; by exists x].
    + rewrite lookup_insert_eq. split; [by intros (y & [= <-] & Hy)|intros ->; by eexists].
  - intros delta Hd Hpos. destruct (ModifyRatingInternal_ok pm p x delta true false Hok Hp) as (pm' & E & Hok' & M & _); [done|lia|lia|]. by exists pm'.
  - intros delta Hd. destruct (ModifyRatingInternal_ok pm p x delta false false Hok Hp) as (pm' & E & Hok' & M & _); [done|lia|done|]. by exists pm'.
  - intros Hn. destruct (ModifyRatingInternal_ok pm p x 0 false true Hok Hp) as (pm' & E & Hok' & M & _); [done|lia|done|]. by exists pm'.
  - intros Hn bBan now. destruct (OnRemoteError_ok cfg pm p x bBan now Hok Hp Hn) as (pm' & E & Hok' & _). by exists pm'.
  - intros addr. destruct (ModifyAddr_ok pm p x addr Hok Hp) as (pm' & E & Hok' & M & _). by exists pm'.
  - intros. by apply OnPeer_ok.
  - intros now. by apply (Delete_ok pm p x).
  - intros ts. by apply OnSeen_ok.
  - destruct (RemoveAddr_ok pm p x Hok Hp) as (pm' & E & Hok' & M & _). by exists pm'.
  - intros id bCreate fresh Hid Hfr. pose proof (Find_ok pm id bCreate fresh Hok Hid Hfr) as Hf. destruct (Find pm id bCreate fresh) as [[pm' ret] b]. exists pm', ret, b. split; [done|].
    destruct Hf as [Hok' [(q & y & -> & -> & -> & Hq & Ei & _)|(_ & Hc)]]; (split; [done|]); [by exists y|].
    destruct bCreate; [destruct Hc as (M & -> & ->)|by destruct Hc as [-> ->]]. exists (new_peer id). by rewrite M, lookup_insert_eq.
  - intros bErr bBan now ts. destruct (DeleteSelf_ok cfg pm p x bErr bBan now ts Hok Hp) as (pm' & E & Hok' & x' & N & _ & _ & _ & _ & M). exists pm'. split_and!; try done.
    rewrite (ix_alive _ _ _ _ _ (po_act _ Hok')). intros (y & Hy & Hn). unfold active in Hn.
    destruct M as [M|[M _]]; rewrite M in Hy; [rewrite lookup_insert_eq in Hy; congruence|by rewrite lookup_delete_eq in Hy].
  - intros now. by apply Clear_ok.
Qed.

(** C26: Which peers [Update] connects to. It always finishes, with a consistent
    manager.  The peers that are active then are the greedy choice: the ones it is too
    early to disconnect, then among the best ratings, then by the ratings adjusted for the time that has passed,
    whoever is eligible (has an address, is not banned, was not connected just
    before). So: nobody is dropped too early; only eligible peers are
    activated; the desired total is exceeded by no more than those who cannot be
    dropped yet; if it is not reached, all eligible peers are active; and whoever
    is active beyond the best ratings has at least the adjusted rating
    of any eligible peer that is not.  Every peer keeps its identity, rating, address and the time it was last seen, and its
    adjustment is the one for the time that has passed; only a peer that is dropped may be
    deleted, by [DeleteSelf] of its connection: if it was never seen, or has the lowest rating and was not seen for a while, and as long as
    more peers than desired are known. *)
Theorem peer_update cfg pm nTicks now live ts :
  cfg_ok cfg -> peers_ok pm -> Z.of_nat (length (pm_Active pm)) < 2 ^ 32 ->
  exists pm' adj, Update cfg pm nTicks now live ts = Some pm' /\ peers_ok pm' /\
    indexed allowed adjusted rating_lt (aged_mem cfg pm nTicks) adj /\
    (pm_Active pm' ≡ₚ selection cfg nTicks pm adj) /\
    (forall q x, pm_mem pm !! q = Some x -> pi_Now x = true -> is_early cfg nTicks x = true -> q ∈ pm_Active pm') /\
    (forall q x, pm_mem pm !! q = Some x -> q ∈ pm_Active pm' ->
       pi_Now x = true /\ is_early cfg nTicks x = true \/ is_eligible cfg nTicks x = true) /\
    (length (pm_Active pm') <= Nat.max (length (early_peers cfg nTicks pm)) (Z.to_nat (m_DesiredTotal cfg)))%nat /\
    (forall q x, pm_mem pm !! q = Some x -> is_eligible cfg nTicks x = true -> q ∉ pm_Active pm' ->
       m_DesiredTotal cfg <= Z.of_nat (length (pm_Active pm')) /\
       forall p x' y', p ∈ pm_Active pm' -> aged_mem cfg pm nTicks !! p = Some x' -> aged_mem cfg pm nTicks !! q = Some y' ->
         p ∈ early_peers cfg nTicks pm \/ p ∈ take (Z.to_nat (m_DesiredHighest cfg)) (pm_Ratings pm) \/ adjusted y' <= adjusted x') /\
    (forall q, match aged_mem cfg pm nTicks !! q with
       | None => pm_mem pm' !! q = None
       | Some x => peer_outcome cfg live ts (pm_Active pm') (Z.of_nat (length (pm_Ratings pm'))) q x (pm_mem pm' !! q)
       end).
Proof.
  intros Hc Hok H32. destruct (Update_ok cfg pm nTicks now live ts Hc Hok H32) as (pm' & adj & E & Hok' & Hadj & M).
  pose proof (Update_active cfg pm pm' nTicks live ts _ adj Hok Hok' M) as HP. exists pm', adj. split; [done|]. split; [done|]. split; [done|].
  destruct (selection_split cfg nTicks pm adj Hok) as (k1 & k2 & E1 & Esel & K1 & K2 & _ & L).
  set (sel := selection cfg nTicks pm adj) in *.
  assert (forall q, q ∈ pm_Active pm' <-> q ∈ sel) as Hact by (intros q; by rewrite HP).
  split_and!; [done| | | | |].
  - intros q x Hq Hn He. apply Hact. rewrite Esel. apply elem_of_app. left. by apply (elem_of_early cfg nTicks pm q x).
  - intros q x Hq Ha. apply Hact in Ha. rewrite Esel, !elem_of_app in Ha. destruct Ha as [Ha|[Ha|Ha]].
    + left. by apply (elem_of_early cfg nTicks pm q x) in Ha.
    + right. apply K1 in Ha as [_ Ha]. unfold at_peer in Ha. by rewrite Hq in Ha.
    + right. apply K2 in Ha as [_ Ha]. unfold at_peer in Ha. by rewrite Hq in Ha.
  - by rewrite (Permutation_length HP).
  - intros q x Hq He Hnq. rewrite Hact in Hnq.
    assert (at_peer (pm_mem pm) (is_eligible cfg nTicks) q = true) as He' by (unfold at_peer; by rewrite Hq).
    destruct (aged_lookup cfg pm nTicks q x Hq) as (y & Hy & Ey).
    assert (q ∈ adj) as Hqa.
    { apply (indexed_lookup _ _ _ _ _ _ _ Hadj Hy). unfold allowed. rewrite Ey. unfold is_eligible in He.
      destruct (Z.eqb_spec (pi_RawRating x) 0); [|done]. by rewrite andb_false_r in He. }
    split.
    + destruct (Z_le_gt_dec (m_DesiredTotal cfg) (Z.of_nat (length (pm_Active pm')))) as [|Hgt]; [done|]. exfalso. apply Hnq.
      unfold sel, selection. cbv zeta. apply greedy_complete; [|done|done]. rewrite (Permutation_length HP) in Hgt. unfold sel, selection in Hgt. cbv zeta in Hgt. lia.
    + intros p x' y' Hp Hx' Hy'. apply Hact in Hp. destruct (decide (p ∈ early_peers cfg nTicks pm)) as [|Hpe]; [by left|right].
      destruct (decide (p ∈ k1)) as [Hpk|Hpk]; [left; by apply K1|right].
      pose proof (greedy_order _ _ (fun a b => AdjustedRating_lt (aged_mem cfg pm nTicks) b a = false) adj _ p q (ix_sorted _ _ _ _ _ Hadj) Hp) as Ho.
      specialize (Ho ltac:(rewrite E1, elem_of_app; tauto) Hqa He' Hnq). cbn in Ho. unfold AdjustedRating_lt, by_key, rating_lt in Ho.
      rewrite Hx', Hy' in Ho. apply Z.ltb_ge in Ho. done.
  - intros q. specialize (M q). destruct (aged_mem cfg pm nTicks !! q) as [x|]; [|done]. unfold peer_outcome in *.
    destruct (pm_mem pm' !! q); [|by rewrite Hact]. destruct M as (? & ? & ? & ? & ? & ->). split_and!; try done. by apply bool_decide_ext.
Qed.

(** ** Saving and restoring *)

(** A row that no other row and no peer gets in the way of. *)
Definition rows_apart (a b : PeerData) : Prop :=
  (d_ID a <> zero_id -> d_ID a <> d_ID b) /\ (d_Address a <> 0 -> d_Address a <> d_Address b).
Record row_ok (d : PeerData) : Prop := { rk_id : bytes_n 32 (d_ID d); rk_rating : 0 <= d_Rating d <= Rating_Max }.

Lemma OnFlush_insert pm pm' p x :
  peers_ok pm -> peers_ok pm' -> pm_mem pm !! p = None -> pm_mem pm' = <[p := x]> (pm_mem pm) ->
  OnFlush pm' ≡ₚ peer_row x :: OnFlush pm.
Proof.
  intros Hok Hok' Hp M. assert (p ∉ pm_Ratings pm) as Hn by (rewrite (ix_alive _ _ _ _ _ (po_rat _ Hok)); intros (y & Ey & _); congruence).
  assert (pm_Ratings pm' ≡ₚ p :: pm_Ratings pm) as HP.
  { apply NoDup_Permutation; [apply (po_rat _ Hok')|constructor; [done|apply (po_rat _ Hok)]|]. intros q.
    rewrite elem_of_cons, (ix_alive _ _ _ _ _ (po_rat _ Hok)), (ix_alive _ _ _ _ _ (po_rat _ Hok')), M. unfold linked, present.
    destruct (decide (q = p)) as [->|Hne]; [rewrite lookup_insert_eq; split; [by left|by eexists]|]. rewrite lookup_insert_ne by done. tauto. }
  unfold OnFlush. rewrite HP. cbn [omap list_omap]. rewrite M, lookup_insert_eq. cbn [fmap option_fmap option_map]. constructor.
  rewrite (list_omap_ext _ (fun q => peer_row <$> pm_mem pm !! q) (pm_Ratings pm) (pm_Ratings pm)); [done|].
  apply Forall_Forall2_diag, Forall_forall. intros q Hq. rewrite lookup_insert_ne; [done|]. by intros ->.
Qed.

Lemma Find_new pm id fresh : peers_ok pm -> bytes_n 32 id -> id <> zero_id -> pm_mem pm !! fresh = None ->
  (forall q y, pm_mem pm !! q = Some y -> pi_ID y <> id) ->
  exists pm1, Find pm id true fresh = (pm1, Some fresh, true) /\ peers_ok pm1 /\ pm_mem pm1 = <[fresh := new_peer id]> (pm_mem pm).
Proof.
  intros Hok Hid Hz Hfr Hno. pose proof (Find_ok pm id true fresh Hok Hid Hfr) as Hf. destruct (Find pm id true fresh) as [[pm1 ret] b].
  destruct Hf as [Hok1 [(q & y & _ & _ & _ & Hq & Hy & _)|(_ & M & -> & ->)]]; [by destruct (Hno q y Hq)|]. by exists pm1.
Qed.

(** A row is restored as it was saved. *)
Lemma Restore_ok cfg my_id pm d fresh ts :
  peers_ok pm -> bytes_n 32 my_id -> row_ok d -> d_ID d <> zero_id -> d_ID d <> my_id -> pm_mem pm !! fresh = None ->
  (forall q y, pm_mem pm !! q = Some y -> pi_ID y <> d_ID d /\ (d_Address d <> 0 -> pi_Addr y <> d_Address d)) ->
  exists pm' x, Restore cfg my_id pm d fresh ts = Some pm' /\ peers_ok pm' /\ pm_mem pm' = <[fresh := x]> (pm_mem pm) /\ peer_row x = d.
Proof.
  intros Hok Hmy [Hid Hrt] Hz Hne Hfr Hno. unfold Restore.
  destruct (_Cmp (d_ID d) my_id =? 0) eqn:Em; [by apply id_eq_spec in Em|]. unfold OnPeer.
  destruct (is_zero_id (d_ID d)) eqn:Ez; [by apply is_zero_id_spec in Ez|]. unfold OnPeer_find.
  destruct (Find_new pm (d_ID d) fresh Hok Hid Hz Hfr) as (pm1 & -> & Hok1 & M1); [intros q y Hq; by apply (Hno q)|].
  cbn [mbind option_bind]. assert (pm_mem pm1 !! fresh = Some (new_peer (d_ID d))) as Hp1 by (rewrite M1; apply lookup_insert_eq).
  rewrite Hp1. cbn [mbind option_bind new_peer pi_Addr]. cbn [Z.eqb orb].
  destruct (ModifyAddr_ok pm1 fresh _ (d_Address d) Hok1 Hp1) as (pm2 & -> & Hok2 & M2 & _). cbn [mbind option_bind].
  set (x2 := set_Addr (new_peer (d_ID d)) (d_Address d)).
  assert (pm_mem pm2 = <[fresh := x2]> (pm_mem pm)) as Em2.
  { apply map_eq. intros q. rewrite M2, M1. destruct (decide (q = fresh)) as [->|Hq].
    - rewrite !lookup_insert_eq. cbn. unfold moved. by rewrite decide_True.
    - rewrite !lookup_insert_ne by done. destruct (pm_mem pm !! q) as [y|] eqn:Eq; [|done]. cbn. unfold moved. rewrite decide_False by done.
      destruct (Hno q y Eq) as [_ Ha]. destruct (Z.eqb_spec (d_Address d) 0); [done|]. rewrite (proj2 (Z.eqb_neq _ _)) by (by apply Ha). done. }
  assert (pm_mem pm2 !! fresh = Some x2) as Hp2 by (rewrite Em2; apply lookup_insert_eq). rewrite Hp2. cbn [mbind option_bind].
  assert (Rating_Max = 10240 /\ pi_RawRating x2 = 1024) as [HM Hr2] by done. rewrite Hr2.
  assert (exists pm3, (if d_Rating d =? 0 then Ban pm2 fresh
      else if 1024 <? d_Rating d then ModifyRating pm2 fresh (u32 (d_Rating d - 1024)) true
      else ModifyRating pm2 fresh (u32 (1024 - d_Rating d)) false) = Some pm3 /\ peers_ok pm3 /\
    pm_mem pm3 = <[fresh := set_Rating x2 (d_Rating d) 0]> (pm_mem pm2)) as (pm3 & -> & Hok3 & M3).
  { destruct (Z.eqb_spec (d_Rating d) 0) as [->|E0].
    - destruct (ModifyRatingInternal_ok pm2 fresh x2 0 false true Hok2 Hp2) as (pm3 & E & Hok3 & M3 & _); [done|lia|done|by exists pm3].
    - destruct (Z.ltb_spec 1024 (d_Rating d)); rewrite u32_small by lia.
      + destruct (ModifyRatingInternal_ok pm2 fresh x2 (d_Rating d - 1024) true false Hok2 Hp2) as (pm3 & E & Hok3 & M3 & _); [done|lia|rewrite Hr2; lia|].
        exists pm3. split_and!; [done|done|]. rewrite M3, Hr2. do 2 f_equal. lia.
      + destruct (ModifyRatingInternal_ok pm2 fresh x2 (1024 - d_Rating d) false false Hok2 Hp2) as (pm3 & E & Hok3 & M3 & _); [done|lia|done|].
        exists pm3. split_and!; [done|done|]. rewrite M3, Hr2. do 2 f_equal. lia. }
  cbn [mbind option_bind]. set (x3 := set_Rating x2 (d_Rating d) 0) in *. assert (pm_mem pm3 !! fresh = Some x3) as Hp3 by (rewrite M3; apply lookup_insert_eq).
  rewrite Hp3. cbn [mbind option_bind]. exists (with_mem pm3 (<[fresh := set_LastSeen x3 (d_LastSeen d)]> (pm_mem pm3))), (set_LastSeen x3 (d_LastSeen d)).
  split; [done|]. split; [|split].
  - apply (peers_ok_update pm3 fresh x3); try done.
  - cbn [with_mem pm_mem]. by rewrite M3, Em2, !insert_insert_eq.
  - by destruct d.
Qed.

Lemma Initialize_ok cfg my_id ts l pm :
  peers_ok pm -> bytes_n 32 my_id -> NoDup l.*2 -> StronglySorted rows_apart l.*1 ->
  Forall (fun r => row_ok r.1 /\ r.1.(d_ID) <> my_id /\ pm_mem pm !! r.2 = None /\
    forall q y, pm_mem pm !! q = Some y -> (d_ID r.1 <> zero_id -> pi_ID y <> d_ID r.1) /\ (d_Address r.1 <> 0 -> pi_Addr y <> d_Address r.1)) l ->
  exists pm', Initialize cfg my_id pm l ts = Some pm' /\ peers_ok pm' /\
    (OnFlush pm' ≡ₚ filter (fun d => d_ID d <> zero_id) l.*1 ++ OnFlush pm).
Proof.
  intros Hok Hmy. revert pm Hok. induction l as [|[d fr] l IH]; intros pm Hok Hd Hs Hl; [by exists pm|].
  rewrite !fmap_cons in *. cbn [fst snd] in *. apply NoDup_cons in Hd as [Hfr Hd]. apply StronglySorted_inv in Hs as [Hs Hsd].
  apply Forall_cons in Hl as [(Hrow & Hne & Hfree & Hno) Hl]. cbn [fst snd Initialize] in *.
  destruct (decide (d_ID d = zero_id)) as [Ez|Ez].
  - assert (Restore cfg my_id pm d fr ts = Some pm) as ->.
    { unfold Restore. destruct (_Cmp (d_ID d) my_id =? 0); [done|]. unfold OnPeer.
      by rewrite (proj2 (is_zero_id_spec (d_ID d) (rk_id _ Hrow)) Ez). }
    cbn [mbind option_bind]. rewrite filter_cons_False by (by intros ?). by apply IH.
  - destruct (Restore_ok cfg my_id pm d fr ts Hok Hmy Hrow Ez Hne Hfree) as (pm1 & x & -> & Hok1 & M1 & Ex).
    { intros q y Hq. destruct (Hno q y Hq) as [H1 H2]. split; [by apply H1|done]. }
    cbn [mbind option_bind]. destruct (IH pm1 Hok1 Hd Hs) as (pm' & E & Hok' & HP).
    { apply Forall_forall. intros [d' fr'] Hin. pose proof (proj1 (Forall_forall _ _) Hl _ Hin) as (R1 & R2 & R3 & R4). cbn [fst snd] in *.
      split_and!; [done|done| |].
      - rewrite M1, lookup_insert_ne; [done|]. intros ->. apply Hfr. by apply (list_elem_of_fmap_2 snd l (d', fr')).
      - intros q y Hq. rewrite M1 in Hq. apply lookup_insert_Some in Hq as [[<- <-]|[_ Hq]]; [|by apply (R4 q)].
        assert (rows_apart d d') as [A1 A2]. { eapply Forall_forall in Hsd; [exact Hsd|]. by apply (list_elem_of_fmap_2 fst l (d', fr')). }
        rewrite <- Ex in A1, A2. cbn [peer_row d_ID d_Address] in A1, A2. split; [|intros Ha Hb; destruct (decide (pi_Addr x = 0)); [congruence|by apply A2]].
        intros _. apply A1. intros Hx. apply Ez. rewrite <- Ex. exact Hx. }
    exists pm'. split; [done|]. split; [done|]. rewrite HP, filter_cons_True by done. rewrite (OnFlush_insert pm pm1 fr x Hok Hok1 Hfree M1), Ex.
    cbn [app]. by rewrite Permutation_middle.
Qed.

Lemma OnFlush_rows pm : peers_ok pm ->
  StronglySorted rows_apart (OnFlush pm) /\ Forall row_ok (OnFlush pm) /\
  forall d, d ∈ OnFlush pm <-> exists p x, pm_mem pm !! p = Some x /\ peer_row x = d.
Proof.
  intros Hok. assert (forall d, d ∈ OnFlush pm <-> exists p x, pm_mem pm !! p = Some x /\ peer_row x = d) as Hin.
  { intros d. unfold OnFlush. rewrite list_elem_of_omap. split.
    - intros (p & _ & Hp). apply fmap_Some in Hp as (x & Hx & ->). by exists p, x.
    - intros (p & x & Hp & <-). exists p. rewrite Hp. split; [|done]. by apply (indexed_lookup _ _ _ _ _ _ _ (po_rat _ Hok) Hp). }
  split_and!; [| |done].
  - unfold OnFlush. pose proof (ix_dup _ _ _ _ _ (po_rat _ Hok)) as Hd. induction (pm_Ratings pm) as [|p l IH]; [constructor|].
    apply NoDup_cons in Hd as [Hp Hd]. cbn [omap list_omap]. destruct (pm_mem pm !! p) as [x|] eqn:Ep; cbn [fmap option_fmap option_map]; [|by apply IH].
    constructor; [by apply IH|]. apply Forall_forall. intros d (q & Hq & Eq)%list_elem_of_omap. apply fmap_Some in Eq as (y & Ey & ->).
    split; cbn; intros H E; apply Hp; [rewrite (po_id1 _ Hok p q x y Ep Ey H E)|rewrite (po_addr1 _ Hok p q x y Ep Ey H E)]; done.
  - apply Forall_forall. intros d (p & x & Hp & <-)%Hin. destruct (po_elm _ Hok p x Hp). by split.
Qed.

Definition empty_manager : PeerManager := mkPM ∅ [] [] [] [] [] 0.

Lemma empty_manager_ok : peers_ok empty_manager.
Proof.
  split; try apply indexed_empty; intros p; intros; cbn in *; by rewrite lookup_empty in *.
Qed.

(** Peers survive a restart. What [Node::PeerMan::OnFlush] writes of a
    consistent manager, [Node::PeerMan::Initialize] of a new one restores: the
    peers have the same identities, ratings (bans included), addresses and times
    last seen; only anonymous peers, which have no identity, are not restored.
    Saving again gives the same rows. *)
Theorem peers_flush_restore cfg my_id pm fresh ts :
  peers_ok pm -> bytes_n 32 my_id -> (forall p x, pm_mem pm !! p = Some x -> pi_ID x <> my_id) ->
  NoDup fresh -> length fresh = length (OnFlush pm) ->
  exists pm', Initialize cfg my_id empty_manager (zip (OnFlush pm) fresh) ts = Some pm' /\ peers_ok pm' /\
    OnFlush pm' ≡ₚ filter (fun d => d_ID d <> zero_id) (OnFlush pm).
Proof.
  intros Hok Hmy Hne Hd Hl. destruct (OnFlush_rows pm Hok) as (Hs & Hrows & Hin).
  assert ((zip (OnFlush pm) fresh).*1 = OnFlush pm) as E1 by (apply fst_zip; lia). assert ((zip (OnFlush pm) fresh).*2 = fresh) as E2 by (apply snd_zip; lia).
  destruct (Initialize_ok cfg my_id ts (zip (OnFlush pm) fresh) empty_manager empty_manager_ok Hmy) as (pm' & E & Hok' & HP);
    [by rewrite E2|by rewrite E1| |exists pm'; split_and!; [done|done|]; rewrite HP, E1; cbn; by rewrite app_nil_r].
  apply Forall_forall. intros [d fr] Hz. cbn [fst snd]. assert (d ∈ OnFlush pm) as Hd'.
  { rewrite <- E1. by apply (list_elem_of_fmap_2 fst _ (d, fr)). }
  split_and!; [by eapply Forall_forall in Hrows| |apply lookup_empty|intros q y Hq; cbn in Hq; by rewrite lookup_empty in Hq].
  apply Hin in Hd' as (p & x & Hp & <-). by eapply Hne.
Qed.

(** ** An example: two peers that are new *)
Module DemoPeers.
Definition id1 : list Z := be_bytes 32 7.
Definition id2 : list Z := be_bytes 32 9.
Definition pm1 : PeerManager :=
  match OnPeer default_Cfg empty_manager id1 21474836480000 true 1 1000 with Some (pm, _) => pm | None => empty_manager end.
Definition pm2 : PeerManager := match OnPeer default_Cfg pm1 id2 21474836480001 true 2 1000 with Some (pm, _) => pm | None => pm1 end.

Lemma id_ok x : bytes_n 32 (be_bytes 32 x).
Proof. split; [apply bytes_ok_be_bytes|apply length_be_bytes]. Qed.

Lemma pm1_ok : peers_ok pm1.
Proof.
  destruct (OnPeer_ok default_Cfg empty_manager id1 21474836480000 true 1 1000 empty_manager_ok (id_ok 7)) as (pm & ret & E & H & _); [apply lookup_empty|].
  unfold pm1. by rewrite E.
Qed.

Lemma pm2_ok : peers_ok pm2.
Proof.
  destruct (OnPeer_ok default_Cfg pm1 id2 21474836480001 true 2 1000 pm1_ok (id_ok 9)) as (pm & ret & E & H & _); [by vm_compute|].
  unfold pm2. by rewrite E.
Qed.

Definition peer1 : PeerInfo := mkPeer id1 1024 0 false false 21474836480000 0 0.
Lemma pm2_lookup : pm_mem pm2 !! 1%nat = Some peer1.
Proof. vm_compute. reflexivity. Qed.

Lemma default_Cfg_ok : cfg_ok default_Cfg.
Proof. by split; cbn. Qed.
End DemoPeers.
Import DemoPeers.

Lemma peers_invariant_witness :
  peers_ok pm2 /\ exists pm', Ban pm2 1 = Some pm' /\ peers_ok pm' /\ pm_mem pm' = <[1%nat := set_Rating peer1 0 0]> (pm_mem pm2).
Proof.
  split; [exact pm2_ok|].
  exact (proj1 (proj2 (proj2 (proj2 (peers_invariant default_Cfg pm2 1 peer1 pm2_ok pm2_lookup)))) eq_refl).
Defined.

Lemma peer_update_witness :
  exists pm' adj, Update default_Cfg pm2 5000 (fun _ => 5001) (fun _ => true) 9000 = Some pm' /\ peers_ok pm' /\
    (pm_Active pm' ≡ₚ selection default_Cfg 5000 pm2 adj) /\ pm_Active pm' = [1; 2]%nat.
Proof.
  destruct (peer_update default_Cfg pm2 5000 (fun _ => 5001) (fun _ => true) 9000 default_Cfg_ok pm2_ok) as (pm' & adj & E & Hok & _ & HP & _); [by vm_compute|].
  exists pm', adj. split; [exact E|]. split; [exact Hok|]. split; [exact HP|].
  apply (f_equal (fmap pm_Active)) in E. vm_compute in E. injection E as E. symmetry. exact E.
Defined.

(** Two peers, both connected; the one that was never seen is dropped and deleted when one is enough. *)
Definition small_Cfg : Cfg := mkCfg 0 1 100 100 1000 1000 1 2.
Example demo_drop :
  (pm ← OnActive pm2 1 true 10; pm ← OnActive pm 2 true 20; pm ← OnSeen pm 1 50; Update small_Cfg pm 5000 (fun _ => 5001) (fun _ => true) 60)
    ≫= (fun pm => Some (pm_Active pm, pm_Ratings pm)) = Some ([1]%nat, [1]%nat).
Proof. vm_compute. reflexivity. Qed.

Lemma peers_flush_restore_witness :
  exists pm', Initialize default_Cfg (be_bytes 32 5) empty_manager (zip (OnFlush pm2) [11; 12]%nat) 2000 = Some pm' /\ peers_ok pm' /\
    OnFlush pm' ≡ₚ filter (fun d => d_ID d <> zero_id) (OnFlush pm2).
Proof.
  apply (peers_flush_restore default_Cfg (be_bytes 32 5) pm2 [11; 12]%nat 2000 pm2_ok (id_ok 5)).
  - intros p x Hp E. assert (p ∈ pm_Ratings pm2) as Hin by (by apply (indexed_lookup _ _ _ _ _ _ _ (po_rat _ pm2_ok) Hp)).
    vm_compute in Hin. apply elem_of_cons in Hin as [->|Hin]; [vm_compute in Hp; injection Hp as <-; vm_compute in E; discriminate|].
    apply list_elem_of_singleton in Hin as ->. vm_compute in Hp. injection Hp as <-. vm_compute in E. discriminate.
  - apply (bool_decide_unpack _). vm_compute. exact I.
  - vm_compute. reflexivity.
Defined.
