(* ===== verification/CoinSelector.v ===== *)
(** The choice of coins for a payment: [CoinSelector3] of [wallet/wallet_db.cpp].

    [Partial] goes through the coins from the last one down.  It has sixteen slots for
    sums below the goal, each with the largest sum found in its sixteenth of the
    goal, and one more for the smallest sum that reaches the goal.  The coins of a sum
    are a list linked through indices into one vector; [Select] reverses it in
    place and takes a part of it before it tries again for the rest. *)

From stdpp Require Import sorting.
From S2P Require Import Prelude.

(** ** [CoinSelector3::Partial] *)
Definition s_Factor : nat := 16.

(** A link is [m_iNext] (counted from 1, so that 0 is no link) and [m_iElement]. *)
Record Link := mkLink { m_iNext : nat; m_iElement : nat }.
Record Slot := mkSlot { m_iTop : nat; m_Sum : Z }.
Record Partial := mkPartial { m_vLinks : list Link; m_pSlots : list Slot; m_Goal : Z }.

Definition slot0 : Slot := mkSlot 0 0.

#[global] Instance slot_inhabited : Inhabited Slot := populate slot0.

Definition Partial_Reset (p : Partial) : Partial := mkPartial [] (replicate (s_Factor + 1) slot0) (m_Goal p).

Definition get_Slot (p : Partial) (v : Z) : nat :=
  let i := u64 (v * Z.of_nat s_Factor) / m_Goal p in
  if Z.of_nat s_Factor <=? i then s_Factor else Z.to_nat i.

(** [Append] to the slot [iDst], whose content is [dst]. *)
Definition Slot_Append (p : Partial) (iDst : nat) (dst : Slot) (v : Z) (i0 : nat) : Partial :=
  let links := m_vLinks p ++ [mkLink (m_iTop dst) i0] in
  mkPartial links (<[iDst := mkSlot (length links) (u64 (m_Sum dst + v))]> (m_pSlots p)) (m_Goal p).

Definition IsBetter (p : Partial) (v : Z) (iDst : nat) : bool :=
  let s := m_Sum (m_pSlots p !!! iDst) in
  if (s_Factor =? iDst)%nat then (s =? 0) || (v <? s) else s <? v.

(** One round of the loop: the item is combined with the slot [iSrc]. *)
Definition AddItem_step (v : Z) (i0 iSrc : nat) (p : Partial) : Partial :=
  let src := m_pSlots p !!! iSrc in
  if m_Sum src =? 0 then p
  else
    let v2 := u64 (m_Sum src + v) in
    let iDst := get_Slot p v2 in
    if negb (IsBetter p v2 iDst) then p else Slot_Append p iDst src v i0.

Definition AddItem (p : Partial) (v : Z) (i0 : nat) : Partial :=
  let p := for_down s_Factor (AddItem_step v i0) p in
  let iDst := get_Slot p v in
  if IsBetter p v iDst then Slot_Append p iDst slot0 v i0 else p.

(** ** [CoinSelector3] *)
Section select.
Context (coins : list Z).

Definition SolveOnce (p : Partial) (goal : Z) (iEnd : nat) : option Partial :=
  if negb ((0 <? goal) && (iEnd <=? length coins)%nat) then None
  else
    let p := Partial_Reset p in
    Some (for_down iEnd (fun i p => AddItem p (coins !!! i) i) (mkPartial (m_vLinks p) (m_pSlots p) goal)).

(** The links in reverse direction, and the new top. *)
Fixpoint Reverse_loop (fuel : nat) (links : list Link) (i iPrev : nat) : option (list Link * nat) :=
  match i with
  | O => Some (links, iPrev)
  | S j =>
      match fuel with
      | O => None
      | S fuel =>
          link ← links !! j;
          Reverse_loop fuel (<[j := mkLink iPrev (m_iElement link)]> links) (m_iNext link) i
      end
  end.

(** All the elements of a list of links. *)
Fixpoint Collect_loop (fuel : nat) (links : list Link) (iLink iEnd : nat) (res : list nat) : option (list nat) :=
  match iLink with
  | O => Some res
  | S j =>
      match fuel with
      | O => None
      | S fuel =>
          link ← links !! j;
          if negb (m_iElement link <? iEnd)%nat then None
          else Collect_loop fuel links (m_iNext link) iEnd (res ++ [m_iElement link])
      end
  end.

(** The elements until little enough is missing: the sum, the indices and the
    new end. *)
Fixpoint Take_loop (fuel : nat) (links : list Link) (iLink iEnd : nat) (amount nOvershoot : Z) (bShouldRetry : bool)
    (first : Z) (res : list nat) : option (Z * list nat * nat) :=
  match iLink with
  | O => Some (first, res, iEnd)
  | S j =>
      match fuel with
      | O => None
      | S fuel =>
          link ← links !! j;
          if negb (m_iElement link <? iEnd)%nat then None
          else
            let res := res ++ [m_iElement link] in
            let iEnd := m_iElement link in
            v ← coins !! m_iElement link;
            let first := u64 (first + v) in
            if bShouldRetry && (amount <=? u64 (first + u64 (nOvershoot * 2))) then Some (first, res, iEnd)
            else Take_loop fuel links (m_iNext link) iEnd amount nOvershoot bShouldRetry first res
      end
  end.

(** The highest slot below [n] with a sum, or the lowest one. *)
Fixpoint MaxSlot_loop (n : nat) (p : Partial) : nat :=
  match n with
  | O => O
  | S n' => if negb (m_Sum (m_pSlots p !!! n) =? 0) then n else MaxSlot_loop n' p
  end.

Fixpoint Select_loop (fuel : nat) (part : Partial) (amount nOvershootPrev : Z) (iEnd : nat) (first : Z) (res : list nat)
    : option (Z * list nat) :=
  if negb ((first <? amount) && negb (iEnd =? 0)%nat) then Some (first, res)
  else
    match fuel with
    | O => None
    | S fuel =>
        let goal := u64 (amount - first) in
        part ← SolveOnce part goal iEnd;
        let r1 := m_pSlots part !!! s_Factor in
        '(links, iTop) ← Reverse_loop (length (m_vLinks part)) (m_vLinks part) (m_iTop r1) 0;
        if m_Sum r1 <? goal then
          if negb ((m_Sum r1 =? 0) && (first =? 0)) then None
          else
            let slot := m_pSlots part !!! MaxSlot_loop (s_Factor - 1) part in
            idx ← Collect_loop (length links) links (m_iTop slot) iEnd res;
            Some (m_Sum slot, idx)
        else
          let nOvershoot := u64 (m_Sum r1 - goal) in
          let bShouldRetry := nOvershoot <? nOvershootPrev in
          '(first, res, iEnd) ← Take_loop (length links) links iTop iEnd amount nOvershoot bShouldRetry first res;
          Select_loop fuel (mkPartial links (m_pSlots part) (m_Goal part)) amount nOvershoot iEnd first res
    end.

Definition Select (amount : Z) : option (Z * list nat) :=
  Select_loop (length coins) (mkPartial [] [] 0) amount (2 ^ 64 - 1) (length coins) 0 [].
End select.

Example select_exact : Select [3; 5; 9; 20] 14 = Some (14, [2; 1]%nat).
Proof. vm_compute. reflexivity. Qed.
Example select_all : Select [3; 5; 9] 100 = Some (17, [0; 1; 2]%nat).
Proof. vm_compute. reflexivity. Qed.

(** ** Lists of links *)
Inductive chain (links : list Link) : nat -> list nat -> Prop :=
| chain_nil : chain links 0 []
| chain_cons i n e l : links !! i = Some (mkLink n e) -> (n <= i)%nat -> chain links n l -> chain links (S i) (e :: l).

Lemma links_app links k i l : chain links i l -> chain (links ++ k) i l.
Proof. induction 1; econstructor; eauto. by apply lookup_app_l_Some. Qed.

Lemma chain_lt links i l : chain links i l -> (i <= length links)%nat.
Proof. destruct 1 as [|i n e l H _ _]; [lia|]. apply lookup_lt_Some in H. lia. Qed.

Lemma Collect_loop_spec links i l iEnd res fuel : chain links i l -> Forall (fun e => e < iEnd)%nat l -> (i <= fuel)%nat ->
  Collect_loop fuel links i iEnd res = Some (res ++ l).
Proof.
  intros Hc. revert fuel res. induction Hc as [|i n e l E Hn Hc IH]; intros fuel res Hl Hf.
  - destruct fuel; cbn; by rewrite app_nil_r.
  - destruct fuel as [|fuel]; [by apply Nat.nle_succ_0 in Hf|]. cbn [Collect_loop]. rewrite E. cbn [mbind option_bind m_iElement m_iNext].
    apply Forall_cons in Hl as [He Hl]. rewrite (proj2 (Nat.ltb_lt _ _) He). cbn [negb].
    rewrite IH by (done || lia). by rewrite <- app_assoc.
Qed.

(** Links that lead upwards, from [lo] on: a list that was reversed. *)
Inductive rchain (links : list Link) : nat -> nat -> list nat -> Prop :=
| rchain_nil lo : rchain links lo 0 []
| rchain_cons lo i n e l : (lo <= i)%nat -> links !! i = Some (mkLink n e) -> rchain links (S i) n l -> rchain links lo (S i) (e :: l).

Lemma rchain_insert links lo p l j x : rchain links lo p l -> (j < lo)%nat -> rchain (<[j := x]> links) lo p l.
Proof.
  induction 1 as [lo|lo i n e l Hi E H IH]; intros Hj; [constructor|]. econstructor; [done| |apply IH; lia].
  by rewrite list_lookup_insert_ne by lia.
Qed.

Lemma rchain_mono links lo lo' p l : rchain links lo p l -> (lo' <= lo)%nat -> rchain links lo' p l.
Proof. destruct 1; intros; econstructor; eauto; lia. Qed.

Lemma chain_insert links i l j x : chain links i l -> (i <= j)%nat -> chain (<[j := x]> links) i l.
Proof.
  induction 1 as [|i n e l E Hn H IH]; intros Hj; [constructor|]. econstructor; [|done|apply IH; lia].
  by rewrite list_lookup_insert_ne by lia.
Qed.

Lemma Reverse_loop_spec fuel links i l iPrev acc : chain links i l -> rchain links i iPrev acc -> (i <= fuel)%nat ->
  exists links' p, Reverse_loop fuel links i iPrev = Some (links', p) /\ rchain links' 0 p (reverse l ++ acc) /\ length links' = length links.
Proof.
  intros Hc. revert fuel links l iPrev acc Hc. induction i as [i IH] using lt_wf_ind. intros fuel links l iPrev acc Hc Hr Hf.
  destruct Hc as [|i n e l E Hn Hc].
  { exists links, iPrev. split_and!; [by destruct fuel|exact Hr|done]. }
  destruct fuel as [|fuel]; [lia|]. cbn [Reverse_loop]. rewrite E. cbn [mbind option_bind m_iNext m_iElement].
  pose proof (lookup_lt_Some _ _ _ E) as Hlt. set (links1 := <[i := _]> links).
  destruct (IH n ltac:(lia) fuel links1 l (S i) (e :: acc)) as (links' & p & -> & Hp & Hl).
  - apply chain_insert; [done|lia].
  - apply (rchain_cons _ _ _ iPrev); [lia|by apply list_lookup_insert_eq|]. apply rchain_insert; [done|lia].
  - lia.
  - exists links', p. split; [done|]. rewrite reverse_cons, <- app_assoc. split; [exact Hp|]. rewrite Hl. apply length_insert.
Qed.

Section spec.
Context (coins : list Z).
Context (coins_pos : Forall (Z.le 0) coins) (coins_small : 16 * zsum coins < 2 ^ 64).

Definition val (l : list nat) : Z := zsum ((fun i => coins !!! i) <$> l).

(** The coins from [k] up to [n]. *)
Definition avail (k n : nat) : Z := val (seq k (n - k)).

Lemma coin_nonneg i : 0 <= coins !!! i.
Proof.
  destruct (coins !! i) as [x|] eqn:E; [|by rewrite list_lookup_total_alt, E].
  rewrite (list_lookup_total_correct _ _ _ E). by apply (Forall_lookup_1 _ _ _ _ coins_pos E).
Qed.

Lemma val_nonneg l : 0 <= val l.
Proof. apply zsum_nonneg, Forall_fmap, Forall_forall. intros i _. apply coin_nonneg. Qed.

Lemma val_mono l k : l ⊆+ k -> val l <= val k.
Proof.
  intros Hl. apply zsum_submseteq; [|by apply fmap_submseteq]. apply Forall_fmap, Forall_forall. intros i _. apply coin_nonneg.
Qed.

Lemma val_cons i l : val (i :: l) = coins !!! i + val l.
Proof. done. Qed.

Lemma val_app l k : val (l ++ k) = val l + val k.
Proof. unfold val. by rewrite fmap_app, zsum_app. Qed.

Lemma avail_cons k n : (k < n)%nat -> avail k n = coins !!! k + avail (S k) n.
Proof. intros H. unfold avail. replace (n - k)%nat with (S (n - S k)) by lia. cbn [seq]. apply val_cons. Qed.

Lemma avail_all : avail 0 (length coins) = zsum coins.
Proof.
  unfold avail, val. rewrite Nat.sub_0_r. f_equal. apply list_eq. intros i. rewrite list_lookup_fmap.
  destruct (decide (i < length coins)%nat) as [Hi|Hi].
  - rewrite lookup_seq_lt by done. cbn. by rewrite list_lookup_lookup_total_lt.
  - rewrite lookup_seq_ge, lookup_ge_None_2 by lia. done.
Qed.

Lemma val_le_avail l k n : NoDup l -> Forall (fun i => k <= i < n)%nat l -> val l <= avail k n.
Proof.
  intros Hd Hl. apply val_mono, NoDup_submseteq; [done|]. intros i Hi. rewrite Forall_forall in Hl.
  specialize (Hl i Hi). apply elem_of_seq. lia.
Qed.

Lemma avail_small k n : (n <= length coins)%nat -> 0 <= avail k n <= zsum coins.
Proof.
  intros Hn. split; [apply val_nonneg|]. rewrite <- avail_all. apply val_le_avail; [apply NoDup_seq|].
  apply Forall_forall. intros i Hi%elem_of_seq. lia.
Qed.
(** ** The slots *)
Section solve.
Context (goal : Z) (goal_pos : 0 < goal) (n : nat) (n_le : (n <= length coins)%nat).

Lemma get_Slot_le p v : (get_Slot p v <= s_Factor)%nat.
Proof. unfold get_Slot. destruct (Z.leb_spec (Z.of_nat s_Factor) (u64 (v * Z.of_nat s_Factor) / m_Goal p)); unfold s_Factor in *; lia. Qed.

Lemma get_Slot_top p v : m_Goal p = goal -> 0 <= v <= zsum coins -> (s_Factor <= get_Slot p v)%nat <-> goal <= v.
Proof.
  intros Hg Hv. unfold get_Slot. rewrite Hg, wrap_small by (unfold in_width, s_Factor; lia). unfold s_Factor.
  change (Z.of_nat 16) with 16. pose proof (Z.div_le_mono (v * 16) (goal * 16 - 1) goal goal_pos) as Hlt.
  assert ((goal * 16 - 1) / goal = 15) as E.
  { symmetry. apply (Z.div_unique _ _ _ (goal - 1)); lia. }
  assert (16 <= v * 16 / goal <-> goal <= v) as H.
  { split; intros; [lia|]. apply Z.div_le_lower_bound; lia. }
  assert (0 <= v * 16 / goal) by (apply Z.div_pos; lia). destruct (Z.leb_spec 16 (v * 16 / goal)); lia.
Qed.

Lemma get_Slot_mono p v w : m_Goal p = goal -> 0 <= v -> v <= w -> w <= zsum coins -> (get_Slot p v <= get_Slot p w)%nat.
Proof.
  intros Hg Hv Hvw Hw. unfold get_Slot. rewrite Hg, !wrap_small by (unfold in_width, s_Factor; lia). unfold s_Factor.
  pose proof (Z.div_le_mono (v * Z.of_nat 16) (w * Z.of_nat 16) goal goal_pos ltac:(lia)).
  assert (0 <= v * Z.of_nat 16 / goal) by (apply Z.div_pos; lia).
  destruct (Z.leb_spec (Z.of_nat 16) (v * Z.of_nat 16 / goal)), (Z.leb_spec (Z.of_nat 16) (w * Z.of_nat 16 / goal)); lia.
Qed.

Lemma get_Slot_goal p q v : m_Goal p = m_Goal q -> get_Slot p v = get_Slot q v.
Proof. unfold get_Slot. by intros ->. Qed.

(** What a slot holds: coins from [k] on, if any, that add up to its sum. *)
Definition entry_ok (p : Partial) (k j : nat) (s : Slot) : Prop :=
  s = slot0 \/ exists l, chain (m_vLinks p) (m_iTop s) l /\ StronglySorted lt l /\ Forall (fun i => k <= i < n)%nat l /\
    m_Sum s = val l /\ 0 < m_Sum s /\ j = get_Slot p (m_Sum s).

Lemma sorted_nodup (l : list nat) : StronglySorted lt l -> NoDup l.
Proof.
  induction 1 as [|x l H IH Hx]; constructor; [|done]. intros Hin. rewrite Forall_forall in Hx. specialize (Hx x Hin). lia.
Qed.

Lemma entry_bound p k j s : entry_ok p k j s -> 0 <= m_Sum s <= avail k n.
Proof.
  intros [->|(l & _ & Hs & Hl & -> & _)]; [cbn; split; [lia|apply val_nonneg]|].
  split; [apply val_nonneg|]. apply val_le_avail; [by apply sorted_nodup|done].
Qed.

Lemma entry_weaken p q k k' j s : entry_ok p k j s -> (k' <= k)%nat -> m_Goal p = m_Goal q ->
  (exists x, m_vLinks q = m_vLinks p ++ x) -> entry_ok q k' j s.
Proof.
  intros [->|(l & Hc & Hs & Hl & E & Hp & Hj)] Hk Hg [x Ex]; [by left|right]. exists l. rewrite Ex.
  split; [by apply links_app|]. split; [done|]. split; [eapply Forall_impl; [exact Hl|]; cbn; lia|].
  split_and!; [done|done|]. by rewrite <- (get_Slot_goal p q).
Qed.

(** The slots while the item [k] is added: those below [t] do not have it yet. *)
Record slots_ok (p : Partial) (k t : nat) : Prop := {
  so_length : length (m_pSlots p) = S s_Factor;
  so_goal : m_Goal p = goal;
  so_entry j s : m_pSlots p !! j = Some s -> entry_ok p (if (j <? t)%nat then S k else k) j s
}.

(** The goal is reached, or nothing is there, or one slot has everything. *)
Definition reached (p : Partial) : Prop := m_Sum (m_pSlots p !!! s_Factor) <> 0.
Definition holds_from (p : Partial) (lo hi : nat) (v : Z) : Prop :=
  exists j, (lo <= j < hi)%nat /\ m_Sum (m_pSlots p !!! j) = v.

Lemma slots_entry p k t j : slots_ok p k t -> (j <= s_Factor)%nat -> entry_ok p (if (j <? t)%nat then S k else k) j (m_pSlots p !!! j).
Proof.
  intros H Hj. apply (so_entry _ _ _ H), list_lookup_lookup_total_lt. rewrite (so_length _ _ _ H). unfold s_Factor in *. lia.
Qed.

Lemma slots_bound p k t j : slots_ok p k t -> (k < n)%nat -> (j <= s_Factor)%nat ->
  0 <= m_Sum (m_pSlots p !!! j) <= coins !!! k + avail (S k) n.
Proof.
  intros H Hk Hj. pose proof (entry_bound _ _ _ _ (slots_entry p k t j H Hj)) as Hb. pose proof (coin_nonneg k). pose proof (avail_cons k n Hk).
  destruct (j <? t)%nat; lia.
Qed.

(** An entry that does not have the item [k] yet, with it. *)
Lemma Append_ok p k t iDst s : slots_ok p k t -> (k < n)%nat -> (t <= iDst <= s_Factor)%nat -> entry_ok p (S k) t s \/ s = slot0 ->
  0 < m_Sum s + coins !!! k -> iDst = get_Slot p (m_Sum s + coins !!! k) ->
  slots_ok (Slot_Append p iDst s (coins !!! k) k) k t /\ m_Sum (m_pSlots (Slot_Append p iDst s (coins !!! k) k) !!! iDst) = m_Sum s + coins !!! k /\
  forall j, j <> iDst -> m_pSlots (Slot_Append p iDst s (coins !!! k) k) !!! j = m_pSlots p !!! j.
Proof.
  intros H Hk Hi Hs Hpos Hd. pose proof H as [Hlen Hg He]. pose proof (coin_nonneg k) as Hc.
  assert (exists l, chain (m_vLinks p) (m_iTop s) l /\ StronglySorted lt l /\ Forall (fun i => S k <= i < n)%nat l /\ m_Sum s = val l) as (l & Hl & Hso & Hf & Es).
  { destruct Hs as [[->|(l & Hl & Hso & Hf & E & _)]| ->]; [exists []|by exists l|exists []]; split_and!; try constructor; done. }
  assert (val l <= avail (S k) n) as Hle by (apply val_le_avail; [by apply sorted_nodup|done]).
  pose proof (avail_cons k n Hk) as Ea. pose proof (avail_small k n n_le) as Hsm. pose proof (val_nonneg l) as Hv.
  assert (u64 (m_Sum s + coins !!! k) = m_Sum s + coins !!! k) as Eu by (apply wrap_small; unfold in_width; lia).
  unfold Slot_Append. cbn [m_pSlots]. rewrite Eu. split_and!.
  - constructor; cbn [m_pSlots m_Goal]; [by rewrite length_insert|done|]. intros j s' [(-> & <- & _)|[Hj Ej]]%list_lookup_insert_Some.
    + rewrite (proj2 (Nat.ltb_ge _ _)) by lia. right. exists (k :: l). cbn [m_Sum m_iTop m_vLinks]. split_and!; [| | | |done|done].
      * rewrite length_app, Nat.add_1_r. apply (chain_cons _ _ (m_iTop s)); [|by eapply chain_lt|by apply links_app].
        rewrite lookup_app_r by lia. by rewrite Nat.sub_diag.
      * constructor; [done|]. eapply Forall_impl; [exact Hf|]. cbn. lia.
      * constructor; [lia|]. eapply Forall_impl; [exact Hf|]. cbn. lia.
      * rewrite val_cons. lia.
    + eapply entry_weaken; [by apply He|lia|done|by eexists].
  - rewrite list_lookup_total_insert_eq by (rewrite Hlen; lia). done.
  - intros j Hj. by rewrite list_lookup_total_insert_ne.
Qed.

(** Something is put into a slot: the goal stays reached, and a slot with everything
    stays one. *)
Lemma better_reached p q i v : IsBetter p v i = true -> 0 < v -> m_Sum (m_pSlots q !!! i) = v ->
  (forall j, j <> i -> m_pSlots q !!! j = m_pSlots p !!! j) -> reached p -> reached q.
Proof.
  intros _ Hv Hi Ho Hr. unfold reached in *. destruct (decide (s_Factor = i)) as [->|Hne]; [lia|]. by rewrite Ho.
Qed.

Lemma better_holds p q i v lo w : IsBetter p v i = true -> v <= w -> m_Sum (m_pSlots q !!! i) = v ->
  (forall j, j <> i -> m_pSlots q !!! j = m_pSlots p !!! j) -> holds_from p lo s_Factor w -> holds_from q lo s_Factor w.
Proof.
  intros Hb Hv Hi Ho (j & Hj & E). exists j. split; [done|]. destruct (decide (j = i)) as [->|Hne]; [|by rewrite Ho].
  unfold IsBetter in Hb. rewrite (proj2 (Nat.eqb_neq _ _)) in Hb by lia. apply Z.ltb_lt in Hb. lia.
Qed.

(** Not better than everything: it is there already, or the goal is reached. *)
Lemma not_better p i v lo : IsBetter p v i = false -> m_Sum (m_pSlots p !!! i) <= v -> (lo <= i <= s_Factor)%nat ->
  reached p \/ holds_from p lo s_Factor v.
Proof.
  unfold IsBetter, reached. intros Hb Hle Hi. destruct (Nat.eqb_spec s_Factor i) as [<-|Hne].
  - left. apply orb_false_iff in Hb as [Hb _]. by apply Z.eqb_neq.
  - right. exists i. split; [lia|]. apply Z.ltb_ge in Hb. lia.
Qed.

Definition progress (p : Partial) (k t : nat) : Prop :=
  reached p \/ avail (S k) n = 0 \/ holds_from p 0 t (avail (S k) n) \/ holds_from p t s_Factor (coins !!! k + avail (S k) n).

Lemma entry_slot p k j s : entry_ok p k j s -> m_Sum s <> 0 -> j = get_Slot p (m_Sum s).
Proof. by intros [->|(l & _ & _ & _ & _ & _ & Hj)]. Qed.

Lemma AddItem_step_ok p k t : (k < n)%nat -> (t < s_Factor)%nat -> slots_ok p k (S t) -> progress p k (S t) ->
  let q := AddItem_step (coins !!! k) k t p in slots_ok q k t /\ progress q k t.
Proof.
  intros Hk Ht H Hpr. unfold AddItem_step. set (v := coins !!! k) in *. set (src := m_pSlots p !!! t).
  pose proof (coin_nonneg k) as Hv. fold v in Hv. pose proof (avail_cons k n Hk) as Ea. fold v in Ea. pose proof (avail_small k n n_le) as Hsm.
  assert (entry_ok p (S k) t src) as He by (pose proof (slots_entry p k (S t) t H ltac:(lia)) as He; by rewrite (proj2 (Nat.ltb_lt _ _)) in He by lia).
  pose proof (entry_bound _ _ _ _ He) as Hb. destruct H as [Hlen Hg Hen].
  assert (slots_ok p k t) as Hsp.
  { constructor; [done|done|]. intros j s Ej. eapply entry_weaken; [by apply Hen| |done|exists []; by rewrite app_nil_r].
    destruct (Nat.ltb_spec j t), (Nat.ltb_spec j (S t)); lia. }
  assert (forall w, holds_from p (S t) s_Factor w -> holds_from p t s_Factor w) as Hup by (intros w (j & Hj & E); exists j; split; [lia|done]).
  destruct (Z.eqb_spec (m_Sum src) 0) as [E0|E0].
  { split; [done|]. destruct Hpr as [|[|[(j & Hj & E)|]]]; [by left|by right; left| |right; right; right; by apply Hup].
    destruct (decide (j = t)) as [->|]; [right; left; unfold src in *; lia|]. right; right; left. exists j. split; [lia|done]. }
  assert (u64 (m_Sum src + v) = m_Sum src + v) as -> by (apply wrap_small; unfold in_width; lia).
  pose proof (entry_slot _ _ _ _ He E0) as Et.
  assert (t <= get_Slot p (m_Sum src + v))%nat as Hd by (rewrite Et at 1; apply get_Slot_mono; done || lia).
  pose proof (get_Slot_le p (m_Sum src + v)) as Hd'. set (iDst := get_Slot p (m_Sum src + v)) in *.
  destruct (IsBetter p (m_Sum src + v) iDst) eqn:Hbt; cbn [negb].
  - destruct (Append_ok p k t iDst src Hsp Hk ltac:(lia) ltac:(by left) ltac:(fold v; lia) eq_refl) as (Hq & Eq & Ho). fold v in Hq, Eq, Ho.
    split; [done|]. destruct Hpr as [Hr|[Hz|[(j & Hj & E)|Hh]]].
    + left. by eapply better_reached; [exact Hbt|lia|done..].
    + by right; left.
    + destruct (decide (j = t)) as [->|Hne].
      * fold src in E. destruct (decide (iDst = s_Factor)) as [Ed|Ed].
        -- left. unfold reached. rewrite <- Ed. lia.
        -- right; right; right. exists iDst. split; [lia|]. lia.
      * right; right; left. exists j. split; [lia|]. by rewrite Ho by lia.
    + right; right; right. eapply better_holds; [exact Hbt|lia|done|done|by apply Hup].
  - split; [done|]. destruct Hpr as [Hr|[Hz|[(j & Hj & E)|Hh]]]; [by left|by right; left| |right; right; right; by apply Hup].
    destruct (decide (j = t)) as [->|Hne]; [|right; right; left; exists j; split; [lia|done]].
    fold src in E. pose proof (slots_bound p k t iDst Hsp Hk Hd'). fold v in Hsm |- *.
    destruct (not_better p iDst _ t Hbt ltac:(lia) ltac:(lia)) as [|Hh]; [by left|].
    right; right; right. fold v. by replace (v + avail (S k) n) with (m_Sum src + v) by lia.
Qed.

Definition complete (p : Partial) (k : nat) : Prop := reached p \/ avail k n = 0 \/ holds_from p 0 s_Factor (avail k n).

Lemma AddItem_ok p k : (k < n)%nat -> slots_ok p (S k) 0 -> complete p (S k) ->
  let q := AddItem p (coins !!! k) k in slots_ok q k 0 /\ complete q k.
Proof.
  intros Hk H Hc. unfold AddItem. set (v := coins !!! k).
  pose proof (coin_nonneg k) as Hv. fold v in Hv. pose proof (avail_cons k n Hk) as Ea. fold v in Ea. pose proof (avail_small k n n_le) as Hsm.
  assert (slots_ok (for_down s_Factor (AddItem_step v k) p) k 0 /\ progress (for_down s_Factor (AddItem_step v k) p) k 0) as [Hq Hpr].
  { apply (for_down_ind (fun t q => slots_ok q k t /\ progress q k t)).
    - split.
      + destruct H as [Hl Hg He]. constructor; [done|done|]. intros j s Ej. eapply entry_weaken; [by apply (He j)| |done|exists []; by rewrite app_nil_r].
        destruct (j <? s_Factor)%nat; cbn; lia.
      + destruct Hc as [|[|]]; [by left|by right; left|by right; right; left].
    - intros t q Ht [Hq Hp]. by apply AddItem_step_ok. }
  set (q := for_down _ _ _) in *. pose proof (get_Slot_le q v) as Hd. set (iDst := get_Slot q v) in *.
  assert (reached q \/ avail (S k) n = 0 \/ holds_from q 0 s_Factor (avail k n)) as Hpr'.
  { destruct Hpr as [|[|[(j & Hj & _)|Hh]]]; [by left|by right; left|lia|]. right; right. by rewrite Ea. }
  pose proof (avail_small (S k) n n_le).
  destruct (IsBetter q v iDst) eqn:Hbt.
  - assert (0 < v) as Hpos.
    { unfold IsBetter in Hbt. pose proof (slots_bound q k 0 iDst Hq Hk Hd) as Hb. destruct (Nat.eqb_spec s_Factor iDst) as [E|]; [|apply Z.ltb_lt in Hbt; lia].
      pose proof (get_Slot_top q v (so_goal _ _ _ Hq) ltac:(lia)) as Ht. fold iDst in Ht. lia. }
    destruct (Append_ok q k 0 iDst slot0 Hq Hk ltac:(lia) ltac:(by right) ltac:(done) eq_refl) as (Hq' & Eq & Ho). fold v in Hq', Eq, Ho. cbn [m_Sum slot0] in Eq.
    split; [done|]. destruct Hpr' as [Hr|[Hz|Hh]].
    + left. by eapply better_reached; [exact Hbt|lia|done..].
    + destruct (decide (iDst = s_Factor)) as [Ed|Ed]; [left; unfold reached; rewrite <- Ed; lia|]. right; right. exists iDst. split; lia.
    + right; right. eapply better_holds; [exact Hbt| |done|done|done]. lia.
  - split; [done|]. destruct Hpr' as [Hr|[Hz|Hh]]; [by left| |by right; right].
    pose proof (slots_bound q k 0 iDst Hq Hk Hd) as Hb. fold v in Hb.
    destruct (not_better q iDst v 0 Hbt ltac:(lia) ltac:(lia)) as [|Hh]; [by left|]. right; right. by replace (avail k n) with v by lia.
Qed.

Lemma SolveOnce_ok p : exists q, SolveOnce coins p goal n = Some q /\ slots_ok q 0 0 /\ complete q 0.
Proof.
  unfold SolveOnce. rewrite (proj2 (Z.ltb_lt _ _)), (proj2 (Nat.leb_le _ _)) by done. cbn [negb andb]. eexists. split; [done|].
  apply (for_down_ind (fun k q => slots_ok q k 0 /\ complete q k)).
  - split.
    + constructor; [done|done|]. intros j s [-> _]%lookup_replicate. by left.
    + right; left. unfold avail. by rewrite Nat.sub_diag.
  - intros k q Hk [H Hc]. by apply AddItem_ok.
Qed.
End solve.

(** ** [Select] *)
Lemma Take_loop_spec links lo p l fuel iEnd amount nOvershoot b first res :
  rchain links lo p l -> StronglySorted gt l -> Forall (fun i => i < iEnd)%nat l -> (iEnd <= length coins)%nat ->
  0 <= first -> first + val l <= zsum coins -> 0 <= nOvershoot <= zsum coins -> (length links - lo <= fuel)%nat ->
  exists l1 l2, l = l1 ++ l2 /\ (l <> [] -> l1 <> []) /\ Forall (fun i => i < List.last l1 iEnd)%nat l2 /\
    Take_loop coins fuel links p iEnd amount nOvershoot b first res = Some (first + val l1, res ++ l1, List.last l1 iEnd).
Proof.
  intros Hr. revert fuel iEnd first res. induction Hr as [lo|lo i m e l Hi E Hr IH]; intros fuel iEnd first res Hs Hl He Hf Hsum Ho Hfu.
  - exists [], []. split_and!; [done|done|constructor|]. destruct fuel; cbn; by rewrite app_nil_r, Z.add_0_r.
  - pose proof (lookup_lt_Some _ _ _ E). destruct fuel as [|fuel]; [lia|]. cbn [Take_loop]. rewrite E. cbn [mbind option_bind m_iElement m_iNext].
    apply StronglySorted_inv in Hs as [Hs Hgt]. apply Forall_cons in Hl as [Hel Hl]. rewrite (proj2 (Nat.ltb_lt _ _) Hel). cbn [negb].
    rewrite (list_lookup_lookup_total_lt coins e) by lia. cbn [mbind option_bind]. rewrite val_cons in Hsum.
    pose proof (coin_nonneg e). pose proof (val_nonneg l). rewrite (wrap_small 64 (first + _)) by (unfold in_width; lia).
    destruct (b && _).
    + exists [e], l. split_and!; [done|done|exact Hgt|]. by rewrite val_cons, Z.add_0_r.
    + destruct (IH fuel e (first + coins !!! e) (res ++ [e])) as (l1 & l2 & -> & _ & H2 & E2); try lia; try done.
      exists (e :: l1), l2. assert (forall x, List.last (e :: l1) x = List.last l1 e) as EL.
      { clear. revert e. induction l1 as [|y l1 IH]; intros e x; [done|]. change (List.last (e :: y :: l1) x) with (List.last (y :: l1) x). by rewrite !IH. }
      split_and!; [done|done|by rewrite EL|]. rewrite E2, EL, val_cons, <- app_assoc. do 3 f_equal. lia.
Qed.

Lemma MaxSlot_loop_spec m p : let j := MaxSlot_loop m p in
  (j <= m)%nat /\ (forall i, (j < i <= m)%nat -> m_Sum (m_pSlots p !!! i) = 0) /\ ((0 < j)%nat -> m_Sum (m_pSlots p !!! j) <> 0).
Proof.
  induction m as [|m (H1 & H2 & H3)]; cbn [MaxSlot_loop]; [split_and!; intros; lia|].
  destruct (Z.eqb_spec (m_Sum (m_pSlots p !!! S m)) 0); cbn [negb].
  - split_and!; [lia| |done]. intros i Hi. destruct (decide (i = S m)) as [->|]; [done|]. apply H2. lia.
  - split_and!; [lia|intros; lia|done].
Qed.

(** When the goal is not reached, the highest slot has everything. *)
Lemma max_slot goal n q : 0 < goal -> (n <= length coins)%nat -> slots_ok goal n q 0 0 -> complete n q 0 -> ~ reached q ->
  exists l, chain (m_vLinks q) (m_iTop (m_pSlots q !!! MaxSlot_loop (s_Factor - 1) q)) l /\
    StronglySorted lt l /\ Forall (fun i => i < n)%nat l /\ val l = avail 0 n /\ m_Sum (m_pSlots q !!! MaxSlot_loop (s_Factor - 1) q) = avail 0 n.
Proof.
  intros Hg Hn Hq Hc Hr. destruct (MaxSlot_loop_spec (s_Factor - 1) q) as (H1 & H2 & H3). set (j := MaxSlot_loop _ _) in *. clearbody j.
  assert (forall i, (i <= s_Factor)%nat -> entry_ok n q 0 i (m_pSlots q !!! i)) as He by (intros i Hi; apply (slots_entry goal n Hn q 0 0 i Hq Hi)).
  assert (m_Sum (m_pSlots q !!! j) = avail 0 n) as Ej.
  { pose proof (entry_bound n Hn _ _ _ _ (He j ltac:(lia))) as Hb. destruct Hc as [|[Hz|(i & Hi & Ei)]]; [done|lia|].
    destruct (decide (i = j)) as [->|Hne]; [done|]. destruct (decide (avail 0 n = 0)) as [|Hnz]; [lia|].
    destruct (decide (j < i)%nat) as [Hlt|Hge]; [rewrite H2 in Ei by lia; lia|].
    pose proof (entry_slot n _ _ _ _ (He i ltac:(lia)) ltac:(lia)) as Ei'. pose proof (entry_slot n _ _ _ _ (He j ltac:(lia)) (H3 ltac:(lia))) as Ej'.
    pose proof (avail_small 0 n Hn). enough (j <= i)%nat by lia.
    rewrite Ei', Ej'. apply (get_Slot_mono goal Hg n Hn); [apply (so_goal _ _ _ _ _ Hq)|lia..]. }
  destruct (He j ltac:(lia)) as [Es|(l & Hl & Hs & Hf & El & _)].
  - rewrite Es in *. exists []. cbn in Ej. split_and!; try constructor; done.
  - exists l. split_and!; [done|done| |lia|done]. eapply Forall_impl; [exact Hf|]. cbn. lia.
Qed.

Record selecting (amount : Z) (iEnd : nat) (first : Z) (res : list nat) : Prop := {
  se_end : (iEnd <= length coins)%nat;
  se_sorted : NoDup res;
  se_range : Forall (fun i => iEnd <= i < length coins)%nat res;
  se_sum : first = val res;
  se_enough : amount <= zsum coins -> amount <= first + avail 0 iEnd;
  se_short : zsum coins < amount -> res = [] /\ iEnd = length coins
}.

Lemma selecting_bound amount iEnd first res : selecting amount iEnd first res -> 0 <= first /\ first + avail 0 iEnd <= zsum coins.
Proof.
  intros [He Hd Hr -> _ _]. split; [apply val_nonneg|]. unfold avail. rewrite <- val_app, <- avail_all.
  apply val_le_avail.
  - apply NoDup_app. split_and!; [done| |apply NoDup_seq]. intros i Hi Hi'%elem_of_seq. rewrite Forall_forall in Hr. specialize (Hr i Hi). lia.
  - apply Forall_app. split; [eapply Forall_impl; [exact Hr|]; cbn; lia|]. apply Forall_forall. intros i Hi%elem_of_seq. lia.
Qed.

Lemma sorted_reverse (l : list nat) : StronglySorted lt l -> StronglySorted gt (reverse l).
Proof.
  induction 1 as [|x l H IH Hx]; [constructor|]. rewrite reverse_cons.
  assert (forall k, StronglySorted gt k -> Forall (fun y => x < y)%nat k -> StronglySorted gt (k ++ [x])) as Happ.
  { clear. induction k as [|y k IH]; intros Hs Hf; [repeat constructor|]. apply StronglySorted_inv in Hs as [Hs Hy]. apply Forall_cons in Hf as [Hxy Hf].
    cbn. constructor; [by apply IH|]. apply Forall_app. split; [done|]. repeat constructor. lia. }
  apply Happ; [done|]. by apply Forall_reverse.
Qed.

Lemma last_elem {A} (l : list A) x : l <> [] -> List.last l x ∈ l.
Proof. induction l as [|y l IH]; [done|]. intros _. destruct l as [|z l]; [by left|]. right. by apply IH. Qed.

Lemma sorted_gt_nodup (l : list nat) : StronglySorted gt l -> NoDup l.
Proof.
  induction 1 as [|x l H IH Hx]; constructor; [|done]. intros Hin. rewrite Forall_forall in Hx. specialize (Hx x Hin). lia.
Qed.

Lemma sorted_gt_last (l1 l2 : list nat) x i : StronglySorted gt (l1 ++ l2) -> i ∈ l1 -> (List.last l1 x <= i)%nat.
Proof.
  intros Hs Hi. induction l1 as [|y l1 IH]; [by apply elem_of_nil in Hi|].
  cbn [app] in Hs. apply StronglySorted_inv in Hs as [Hs Hy]. destruct l1 as [|z l1]; [by apply list_elem_of_singleton in Hi as ->|].
  change (List.last (y :: z :: l1) x) with (List.last (z :: l1) x). apply elem_of_cons in Hi as [->|Hi]; [|by apply IH].
  rewrite Forall_forall in Hy. pose proof (Hy (List.last (z :: l1) x) ltac:(apply elem_of_app; left; by apply last_elem)). lia.
Qed.

(** A part of a list of links that reaches the goal is taken. *)
Lemma selecting_take amount iEnd first res l l1 l2 : selecting amount iEnd first res ->
  StronglySorted gt l -> Forall (fun i => i < iEnd)%nat l -> amount <= first + val l -> l = l1 ++ l2 -> l1 <> [] ->
  Forall (fun i => i < List.last l1 iEnd)%nat l2 -> selecting amount (List.last l1 iEnd) (first + val l1) (res ++ l1) /\ (List.last l1 iEnd < iEnd)%nat.
Proof.
  intros Hsel Hs Hl Hen -> Hne Hl2. pose proof (selecting_bound _ _ _ _ Hsel) as [Hf Hsum]. destruct Hsel as [He Hd Hr Hfi Hle Hsh].
  pose proof (sorted_gt_nodup _ Hs) as Hdl. apply NoDup_app in Hdl as Hd12. destruct Hd12 as (Hd1 & _ & Hd2).
  assert (val (l1 ++ l2) <= avail 0 iEnd) as Hall by (apply val_le_avail; [done|]; eapply Forall_impl; [exact Hl|]; cbn; lia).
  pose proof (last_elem l1 iEnd Hne) as Hlast. apply Forall_app in Hl as [Hl1 _]. rewrite Forall_forall in Hl1, Hr. pose proof (Hl1 _ Hlast) as Hlt'.
  split; [|done]. constructor.
  - lia.
  - apply NoDup_app. split_and!; [done| |done]. intros i Hi Hi1. specialize (Hr i Hi). specialize (Hl1 i Hi1). lia.
  - apply Forall_app. split; apply Forall_forall; intros i Hi; [specialize (Hr i Hi); lia|].
    pose proof (sorted_gt_last _ _ iEnd _ Hs Hi). specialize (Hl1 i Hi). lia.
  - rewrite val_app. lia.
  - intros _. rewrite val_app in Hen. enough (val l2 <= avail 0 (List.last l1 iEnd)) by lia. apply val_le_avail; [done|].
    eapply Forall_impl; [exact Hl2|]. cbn. lia.
  - intros Hshort. lia.
Qed.

(** The result: different coins with the sum; enough if there is enough. *)
Definition selected (amount : Z) (x : Z * list nat) : Prop :=
  NoDup x.2 /\ Forall (fun i => i < length coins)%nat x.2 /\ x.1 = val x.2 /\
  (amount <= zsum coins -> amount <= x.1) /\ (zsum coins < amount -> x.1 = zsum coins).

Lemma selecting_stop amount iEnd first res : selecting amount iEnd first res -> amount <= first \/ iEnd = 0%nat -> selected amount (first, res).
Proof.
  intros [He Hd Hr Hfi Hle Hsh] Hstop. unfold selected. cbn [fst snd]. split_and!; [done| |done| |].
  - eapply Forall_impl; [exact Hr|]. cbn. lia.
  - intros Hen. specialize (Hle Hen). destruct Hstop as [| ->]; [done|]. change (avail 0 0) with 0 in Hle. lia.
  - intros Hshort. destruct (Hsh Hshort) as [-> E]. change (val []) with 0 in Hfi. pose proof (zsum_nonneg _ coins_pos).
    destruct Hstop as [| ->]; [lia|]. symmetry in E. apply nil_length_inv in E. by rewrite E.
Qed.

Lemma Select_loop_ok fuel part amount ov iEnd first res : 0 <= amount < 2 ^ 64 -> selecting amount iEnd first res -> (iEnd <= fuel)%nat ->
  exists x, Select_loop coins fuel part amount ov iEnd first res = Some x /\ selected amount x.
Proof.
  intros Ha. revert part ov iEnd first res. induction fuel as [|fuel IH]; intros part ov iEnd first res Hsel Hf; cbn [Select_loop];
    (destruct (Z.ltb_spec first amount) as [Hlt|Hge]; cbn [andb negb]; [|exists (first, res); split; [done|]; eapply selecting_stop; eauto]);
    (destruct (Nat.eqb_spec iEnd 0) as [Ez|Ez]; cbn [negb]; [exists (first, res); split; [done|]; eapply selecting_stop; eauto|]); [lia|].
  pose proof (selecting_bound _ _ _ _ Hsel) as [Hf0 Hsum]. pose proof (se_end _ _ _ _ Hsel) as He.
  rewrite (wrap_small 64 (amount - first)) by (unfold in_width; lia). assert (0 < amount - first) as Hg by lia. set (goal := amount - first) in *. assert (goal = amount - first) as Egoal by done. clearbody goal.
  destruct (SolveOnce_ok goal Hg iEnd He part) as (q & -> & Hq & Hc). cbn [mbind option_bind].
  assert (entry_ok iEnd q 0 s_Factor (m_pSlots q !!! s_Factor)) as Hen by exact (slots_entry goal iEnd He q 0 0 s_Factor Hq (le_n _)).
  set (r1 := m_pSlots q !!! s_Factor) in *.
  pose proof (avail_small 0 iEnd He) as Hav. pose proof (entry_bound iEnd He _ _ _ _ Hen) as Hb.
  assert (goal <= m_Sum r1 <-> reached q) as Hreach.
  { unfold reached. fold r1. split; [lia|]. intros Hnz. pose proof (entry_slot _ _ _ _ _ Hen Hnz) as Es.
    apply (get_Slot_top goal Hg iEnd He q); [apply (so_goal _ _ _ _ _ Hq)|lia|lia]. }
  destruct (Z.ltb_spec (m_Sum r1) goal) as [Hno|Hyes].
  - assert (~ reached q) as Hnr by (rewrite <- Hreach; lia).
    assert (r1 = slot0) as E1 by (destruct Hen as [|(l & _ & _ & _ & _ & Hp & _)]; [done|]; unfold reached in Hnr; fold r1 in Hnr; lia).
    rewrite E1. cbn [m_iTop slot0 m_Sum]. assert (forall f L, Reverse_loop f L 0 0 = Some (L, 0%nat)) as -> by (intros f L; by destruct f).
    cbn [mbind option_bind]. destruct (max_slot goal iEnd q Hg He Hq Hc Hnr) as (l & Hl & Hs & Hlt' & Ev & Es).
    assert (zsum coins < amount) as Hshort.
    { destruct Hc as [Hr|[Hz|(j & Hj & Ej)]]; [done|..]; pose proof (se_enough _ _ _ _ Hsel); [lia|].
      destruct (decide (avail 0 iEnd = 0)) as [|Hnz]; [lia|]. rewrite <- Ej in Hnz.
      pose proof (entry_slot _ _ _ _ _ (slots_entry goal iEnd He q 0 0 j Hq ltac:(lia)) Hnz) as Esl.
      assert (~ goal <= m_Sum (m_pSlots q !!! j)); [|lia]. intros Hle%(get_Slot_top goal Hg iEnd He q); [lia|apply (so_goal _ _ _ _ _ Hq)|lia]. }
    destruct (se_short _ _ _ _ Hsel Hshort) as [-> Ei]. rewrite (se_sum _ _ _ _ Hsel). cbn [Z.eqb andb negb val zsum foldr fmap list_fmap].
    rewrite (Collect_loop_spec _ _ l) by (done || by eapply chain_lt). cbn [mbind option_bind app]. eexists. split; [done|]. subst iEnd.
    rewrite avail_all in *. unfold selected. cbn [fst snd]. split_and!; [by eapply sorted_nodup|done|lia|lia|done].
  - destruct Hen as [E|(l & Hl & Hs & Hlt' & Ev & Hpos & _)]; [rewrite E in Hyes; cbn in Hyes; lia|].
    destruct (Reverse_loop_spec (length (m_vLinks q)) (m_vLinks q) (m_iTop r1) l 0 [] Hl ltac:(constructor) ltac:(by eapply chain_lt)) as (links & p & -> & Hr & Elen).
    cbn [mbind option_bind]. rewrite app_nil_r in Hr.
    assert (val (reverse l) = val l) as Erev by (unfold val; by rewrite reverse_Permutation).
    assert (Forall (fun i => i < iEnd)%nat (reverse l)) as Hlr by (apply Forall_reverse; eapply Forall_impl; [exact Hlt'|]; cbn; lia).
    rewrite (wrap_small 64 (m_Sum r1 - goal)) by (unfold in_width; lia).
    destruct (Take_loop_spec links 0 p (reverse l) (length links) iEnd amount (m_Sum r1 - goal) (m_Sum r1 - goal <? ov) first res Hr
      (sorted_reverse _ Hs) Hlr He Hf0 ltac:(lia) ltac:(lia) ltac:(lia)) as (l1 & l2 & El & Hne & Hl2 & ->). cbn [mbind option_bind].
    destruct (selecting_take amount iEnd first res (reverse l) l1 l2 Hsel (sorted_reverse _ Hs) Hlr ltac:(lia) El) as [Hsel' Hless]; [|done|].
    { apply Hne. intros E0. rewrite E0 in Erev. change (val []) with 0 in Erev. lia. }
    apply IH; [done|lia].
Qed.
End spec.

Lemma CoinSelect_ok (coins : list Z) (amount : Z) :
  Forall (Z.le 0) coins -> 16 * zsum coins < 2 ^ 64 -> 0 <= amount < 2 ^ 64 -> exists x, Select coins amount = Some x /\ selected coins amount x.
Proof.
  intros Hp Hs Ha. apply (Select_loop_ok coins Hp Hs); [done| |lia].
  constructor; [done|constructor|constructor|done| |done]. intros. by rewrite avail_all.
Qed.

(** C18: [CoinSelector3::Select] always ends, with no access out of bounds and no
    failing assertion, whatever the coins are (as long as sixteen times their
    sum fits): the coins it selects are different, their sum is the one it
    reports, this sum reaches the amount if all the coins do, and otherwise it is the
    sum of all of them. *)
Theorem coin_selection (coins : list Z) (amount : Z) :
  Forall (Z.le 0) coins -> 16 * zsum coins < 2 ^ 64 -> 0 <= amount < 2 ^ 64 ->
  exists sum idx, Select coins amount = Some (sum, idx) /\
    NoDup idx /\ Forall (fun i => i < length coins)%nat idx /\ sum = zsum ((fun i => coins !!! i) <$> idx) /\
    (amount <= zsum coins -> amount <= sum) /\ (zsum coins < amount -> sum = zsum coins).
Proof.
  intros Hp Hs Ha. destruct (CoinSelect_ok coins amount Hp Hs Ha) as ([sum idx] & E & Hsel). by exists sum, idx.
Qed.

Lemma coin_selection_witness : zsum [3; 5; 9; 20] = 37 /\
  exists sum idx, Select [3; 5; 9; 20] 26 = Some (sum, idx) /\
    NoDup idx /\ Forall (fun i => i < 4)%nat idx /\ sum = zsum ((fun i => [3; 5; 9; 20] !!! i) <$> idx) /\
    (26 <= zsum [3; 5; 9; 20] -> 26 <= sum) /\ (zsum [3; 5; 9; 20] < 26 -> sum = zsum [3; 5; 9; 20]).
Proof.
  split; [reflexivity|]. refine (coin_selection [3; 5; 9; 20] 26 _ _ _); [repeat constructor; lia|reflexivity|split; [lia|reflexivity]].
Defined.
