(* ===== verification/WalletCoins.v ===== *)
(** The coins of a wallet: their table and status ([WalletDB], [storage] of
    [wallet/wallet_db.cpp]), how they are confirmed and spent ([wallet/wallet.cpp],
    [wallet/wallet_transaction.cpp]) and selected for a payment.

    A row of the table [storage] is a coin whose status is not set.  Heights are
    stored as signed integers, so that [MaxHeight], which stands for a height that
    is not known, compares as -1 in a query.  The statuses of the transactions are
    another table of the database and a parameter here. *)

From stdpp Require Import sorting.
From S2P Require Import Prelude Rules CoinSelector.

(** ** Data *)

(** [Key::IDV]. *)
Record CoinID := mkID { id_Idx : Z; id_Type : Z; id_SubIdx : Z; id_Value : Z }.

#[global] Instance CoinID_eq_dec : EqDecision CoinID.
Proof. solve_decision. Defined.

Inductive Status := Unavailable | Available | Maturing | Outgoing | Incoming | ChangeV0 | Spent.

#[global] Instance Status_eq_dec : EqDecision Status.
Proof. solve_decision. Defined.

Record Coin := mkCoin {
  c_ID : CoinID;
  c_status : Status;
  c_maturity : Z;
  c_confirmHeight : Z;
  c_spentHeight : Z;
  c_createTxId : option (list Z);
  c_spentTxId : option (list Z);
  c_assetID : list Z;
  c_sessionId : Z
}.

Definition zero_asset : list Z := replicate 32 0.

(** [Coin::Coin] with the ID and the asset that are set afterwards. *)
Definition Coin_new (id : CoinID) (aid : list Z) : Coin := mkCoin id Unavailable MaxHeight MaxHeight MaxHeight None None aid 0.

Inductive TxStatus := TxPending | TxInProgress | TxCancelled | TxCompleted | TxFailed | TxRegistering.

(** [Key::Type::Coinbase] and [Key::Type::Comission]: the four letters. *)
Definition Type_Coinbase : Z := 0x6d696e65.
Definition Type_Comission : Z := 0x66656573.

Definition set_status (c : Coin) (s : Status) : Coin :=
  mkCoin (c_ID c) s (c_maturity c) (c_confirmHeight c) (c_spentHeight c) (c_createTxId c) (c_spentTxId c) (c_assetID c) (c_sessionId c).
Definition set_heights (c : Coin) (maturity confirm spent : Z) : Coin :=
  mkCoin (c_ID c) (c_status c) maturity confirm spent (c_createTxId c) (c_spentTxId c) (c_assetID c) (c_sessionId c).
Definition set_spentTx (c : Coin) (s : Status) (tx : list Z) : Coin :=
  mkCoin (c_ID c) s (c_maturity c) (c_confirmHeight c) (c_spentHeight c) (c_createTxId c) (Some tx) (c_assetID c) (c_sessionId c).
Definition set_session (c : Coin) (n : Z) : Coin :=
  mkCoin (c_ID c) (c_status c) (c_maturity c) (c_confirmHeight c) (c_spentHeight c) (c_createTxId c) (c_spentTxId c) (c_assetID c) n.

(** What is stored of a coin. *)
Definition row_of (c : Coin) : Coin := set_status c Unavailable.

(** ** Status *)
Section db.
Context (txStatus : list Z -> option TxStatus) (hTop : Z).

Definition IsOngoingTx (txID : option (list Z)) : bool :=
  match txID with
  | None => false
  | Some id =>
      match txStatus id with
      | Some TxCancelled | Some TxFailed | Some TxCompleted => false
      | Some _ => true
      | None => false
      end
  end.

Definition GetCoinStatus (c : Coin) : Status :=
  if negb (c_spentHeight c =? MaxHeight) then Spent
  else if negb (c_confirmHeight c =? MaxHeight) then
    if hTop <? c_maturity c then Maturing
    else if IsOngoingTx (c_spentTxId c) then Outgoing
    else Available
  else if IsOngoingTx (c_createTxId c) then Incoming
  else Unavailable.

Definition DeduceStatus (c : Coin) : Coin := set_status c (GetCoinStatus c).

(** ** The table *)
Definition find_row (tbl : list Coin) (id : CoinID) : option Coin := snd <$> list_find (fun r => c_ID r = id) tbl.

(** [find]: the fields of the row; a transaction that is not set in the row stays as
    it was. *)
Definition find (tbl : list Coin) (c : Coin) : option Coin :=
  r ← find_row tbl (c_ID c);
  Some (DeduceStatus (mkCoin (c_ID c) (c_status c) (c_maturity r) (c_confirmHeight r) (c_spentHeight r)
    (match c_createTxId r with Some t => Some t | None => c_createTxId c end)
    (match c_spentTxId r with Some t => Some t | None => c_spentTxId c end)
    (c_assetID r) (c_sessionId r))).

(** The index of the table is unique: a second row with the same ID is an error. *)
Definition insertRaw (tbl : list Coin) (c : Coin) : option (list Coin) :=
  match find_row tbl (c_ID c) with Some _ => None | None => Some (tbl ++ [row_of c]) end.

Definition next_ID (id : CoinID) : CoinID := mkID (u64 (id_Idx id + 1)) (id_Type id) (id_SubIdx id) (id_Value id).

Fixpoint insertNew_loop (fuel : nat) (tbl : list Coin) (cDup : Coin) : option CoinID :=
  match fuel with
  | O => None
  | S fuel =>
      match find tbl cDup with
      | None => Some (c_ID cDup)
      | Some c => insertNew_loop fuel tbl (mkCoin (next_ID (c_ID c)) (c_status c) (c_maturity c) (c_confirmHeight c) (c_spentHeight c)
                    (c_createTxId c) (c_spentTxId c) (c_assetID c) (c_sessionId c))
      end
  end.

Definition set_Idx (c : Coin) (idx : Z) : Coin :=
  mkCoin (mkID idx (id_Type (c_ID c)) (id_SubIdx (c_ID c)) (id_Value (c_ID c))) (c_status c) (c_maturity c) (c_confirmHeight c) (c_spentHeight c)
    (c_createTxId c) (c_spentTxId c) (c_assetID c) (c_sessionId c).

(** The table and the coin with its index. *)
Definition insertNew (tbl : list Coin) (c : Coin) : option (list Coin * Coin) :=
  id ← insertNew_loop (S (length tbl)) tbl (Coin_new (c_ID c) zero_asset);
  let c := set_Idx c (id_Idx id) in
  tbl ← insertRaw tbl c;
  Some (tbl, c).

(** The table and whether there was a row. *)
Definition updateRaw (tbl : list Coin) (c : Coin) : list Coin * bool :=
  ((fun r => if decide (c_ID r = c_ID c) then row_of c else r) <$> tbl,
   match find_row tbl (c_ID c) with Some _ => true | None => false end).

Definition saveRaw (tbl : list Coin) (c : Coin) : option (list Coin) :=
  let '(tbl, ok) := updateRaw tbl c in if negb ok then insertRaw tbl c else Some tbl.

Fixpoint save_all (tbl : list Coin) (coins : list Coin) : option (list Coin) :=
  match coins with
  | [] => Some tbl
  | c :: coins => tbl ← saveRaw tbl c; save_all tbl coins
  end.

(** [store] with the index that [get_RandomID] has drawn. *)
Definition store (tbl : list Coin) (c : Coin) (random : Z) : option (list Coin * Coin) := insertNew tbl (set_Idx c random).

Fixpoint store_loop (tbl : list Coin) (coins : list Coin) (nKeyIndex : Z) : option (list Coin * list Coin) :=
  match coins with
  | [] => Some (tbl, [])
  | c :: coins =>
      '(tbl, c) ← insertNew tbl (set_Idx c nKeyIndex);
      '(tbl, coins) ← store_loop tbl coins (u64 (id_Idx (c_ID c) + 1));
      Some (tbl, c :: coins)
  end.

Definition removeImpl (tbl : list Coin) (cid : CoinID) : list Coin := filter (fun r => c_ID r <> cid) tbl.

Definition remove_all (tbl : list Coin) (l : list CoinID) : list Coin := foldl removeImpl tbl l.

Definition rollbackConfirmedUtxo (tbl : list Coin) (minHeight : Z) : list Coin :=
  let tbl := (fun r => if i64 minHeight <? i64 (c_confirmHeight r) then set_heights r (c_maturity r) MaxHeight (c_spentHeight r) else r) <$> tbl in
  (fun r => if i64 minHeight <? i64 (c_spentHeight r) then set_heights r (c_maturity r) (c_confirmHeight r) MaxHeight else r) <$> tbl.

Definition set_spentTxId (c : Coin) (tx : option (list Z)) : Coin :=
  mkCoin (c_ID c) (c_status c) (c_maturity c) (c_confirmHeight c) (c_spentHeight c) (c_createTxId c) tx (c_assetID c) (c_sessionId c).

(** The coins of a transaction that has failed. *)
Definition rollbackTx (tbl : list Coin) (txId : list Z) : list Coin :=
  let tbl := (fun r => if decide (c_spentTxId r = Some txId) then set_spentTxId r None else r) <$> tbl in
  filter (fun r => ~ (c_createTxId r = Some txId /\ i64 (c_confirmHeight r) = i64 MaxHeight)) tbl.

(** ** Queries *)
Fixpoint visit_rows {W} (func : W -> Coin -> W * bool) (w : W) (rows : list Coin) : W :=
  match rows with
  | [] => w
  | r :: rows => let '(w, ok) := func w (DeduceStatus r) in if ok then visit_rows func w rows else w
  end.

Definition visit {W} (func : W -> Coin -> W * bool) (w : W) (tbl : list Coin) (aid : list Z) : W :=
  visit_rows func w (filter (fun r => c_assetID r = aid) tbl).

Definition getCoinsByTx (tbl : list Coin) (txId : list Z) : list Coin :=
  filter (fun r => c_createTxId r = Some txId \/ c_spentTxId r = Some txId) tbl.

Fixpoint getCoinsByID (tbl : list Coin) (ids : list CoinID) : list Coin :=
  match ids with
  | [] => []
  | cid :: ids =>
      match find_row tbl cid with
      | Some r =>
          let c := DeduceStatus r in
          if decide (c_status c = Available) then c :: getCoinsByID tbl ids else getCoinsByID tbl ids
      | None => getCoinsByID tbl ids
      end
  end.

Definition lock (tbl : list Coin) (l : list CoinID) (session : Z) : option (list Coin * bool) :=
  let coins := getCoinsByID tbl l in
  if forallb (fun c => c_sessionId c =? 0) coins then
    tbl ← save_all tbl ((fun c => set_session c session) <$> coins);
    Some (tbl, match coins with [] => false | _ => true end)
  else Some (tbl, false).

Definition unlock (tbl : list Coin) (session : Z) : list Coin * bool :=
  ((fun r => if c_sessionId r =? session then set_session r 0 else r) <$> tbl,
   existsb (fun r => c_sessionId r =? session) tbl).

Definition getLocked (tbl : list Coin) (session : Z) : list CoinID := c_ID <$> filter (fun r => c_sessionId r = session) tbl.

(** ** [selectCoins] *)

(** The condition of its query. *)
Definition selectable (aid : list Z) (r : Coin) : Prop :=
  0 <= i64 (c_maturity r) /\ i64 (c_maturity r) <= i64 hTop /\ i64 (c_spentHeight r) < 0 /\ c_assetID r = aid.

#[global] Instance selectable_dec aid r : Decision (selectable aid r).
Proof. unfold selectable. apply _. Defined.

(** The rows of the query, in the order of their amounts. *)
Definition select_rows (rows tbl : list Coin) (aid : list Z) : Prop :=
  rows ≡ₚ filter (selectable aid) tbl /\ StronglySorted (fun a b => id_Value (c_ID a) <= id_Value (c_ID b)) rows.

Fixpoint Select_rows_loop (rows : list Coin) (amount : Z) : list Coin :=
  match rows with
  | [] => []
  | r :: rows =>
      let c := DeduceStatus r in
      if negb (bool_decide (c_status c = Available)) then Select_rows_loop rows amount
      else if amount <=? id_Value (c_ID c) then [c]
      else c :: Select_rows_loop rows amount
  end.

Definition selectCoins (rows : list Coin) (amount : Z) : option (list Coin) :=
  let coins := Select_rows_loop rows amount in
  '(first, second) ← Select ((fun c => id_Value (c_ID c)) <$> coins) amount;
  if amount <=? first then mapM (fun i => coins !! i) second else Some [].

(** ** [storage::Totals] *)
Record Totals := mkTotals {
  t_Avail : Z; t_Maturing : Z; t_Incoming : Z; t_Unavail : Z; t_Outgoing : Z;
  t_AvailCoinbase : Z; t_Coinbase : Z; t_AvailFee : Z; t_Fee : Z; t_Unspent : Z
}.

Definition Totals_add (t : Totals) (c : Coin) : Totals :=
  let v := id_Value (c_ID c) in
  let isCoinbase := id_Type (c_ID c) =? Type_Coinbase in
  let isFee := id_Type (c_ID c) =? Type_Comission in
  let t :=
    match c_status c with
    | Available =>
        mkTotals (u64 (t_Avail t + v)) (t_Maturing t) (t_Incoming t) (t_Unavail t) (t_Outgoing t)
          (if isCoinbase then u64 (t_AvailCoinbase t + v) else t_AvailCoinbase t) (t_Coinbase t)
          (if negb isCoinbase && isFee then u64 (t_AvailFee t + v) else t_AvailFee t) (t_Fee t) (u64 (t_Unspent t + v))
    | Maturing =>
        mkTotals (t_Avail t) (u64 (t_Maturing t + v)) (t_Incoming t) (t_Unavail t) (t_Outgoing t)
          (t_AvailCoinbase t) (t_Coinbase t) (t_AvailFee t) (t_Fee t) (u64 (t_Unspent t + v))
    | Incoming =>
        mkTotals (t_Avail t) (t_Maturing t) (u64 (t_Incoming t + v)) (t_Unavail t) (t_Outgoing t)
          (t_AvailCoinbase t) (t_Coinbase t) (t_AvailFee t) (t_Fee t) (t_Unspent t)
    | Outgoing =>
        mkTotals (t_Avail t) (t_Maturing t) (t_Incoming t) (t_Unavail t) (u64 (t_Outgoing t + v))
          (t_AvailCoinbase t) (t_Coinbase t) (t_AvailFee t) (t_Fee t) (t_Unspent t)
    | Unavailable =>
        mkTotals (t_Avail t) (t_Maturing t) (t_Incoming t) (u64 (t_Unavail t + v)) (t_Outgoing t)
          (t_AvailCoinbase t) (t_Coinbase t) (t_AvailFee t) (t_Fee t) (t_Unspent t)
    | _ => t
    end in
  mkTotals (t_Avail t) (t_Maturing t) (t_Incoming t) (t_Unavail t) (t_Outgoing t)
    (t_AvailCoinbase t) (if isCoinbase then u64 (t_Coinbase t + v) else t_Coinbase t)
    (t_AvailFee t) (if negb isCoinbase && isFee then u64 (t_Fee t + v) else t_Fee t) (t_Unspent t).

Definition Totals_Init (tbl : list Coin) (aid : list Z) : Totals :=
  visit (fun t c => (Totals_add t c, true)) (mkTotals 0 0 0 0 0 0 0 0 0 0) tbl aid.

(** ** Events *)

(** [proto::UtxoEvent]. *)
Record UtxoEvent := mkEvent { ev_Kidv : CoinID; ev_AssetID : list Z; ev_Height : Z; ev_Maturity : Z; ev_Added : bool }.

(** [Wallet::ProcessUtxoEvent]; [active] are the active transactions with their
    input coins. *)
Definition ProcessUtxoEvent (active : list (list Z * list CoinID)) (tbl : list Coin) (evt : UtxoEvent) : option (list Coin) :=
  let c := Coin_new (ev_Kidv evt) (ev_AssetID evt) in
  let '(c, bExists) := match find tbl c with Some c => (c, true) | None => (c, false) end in
  let c := set_heights c (ev_Maturity evt) (c_confirmHeight c) (c_spentHeight c) in
  if ev_Added evt then
    let c := set_heights c (c_maturity c) (Z.min (c_confirmHeight c) (ev_Height evt)) (c_spentHeight c) in
    let c := foldl (fun c x => if bool_decide (c_ID c ∈ x.2) then set_spentTx c Outgoing x.1 else c) c active in
    saveRaw tbl c
  else if negb bExists then Some tbl
  else saveRaw tbl (set_heights c (c_maturity c) (c_confirmHeight c) (Z.min (c_spentHeight c) (ev_Height evt))).

(** The coins of a transaction whose kernel was confirmed at [hProof]
    ([SimpleTransaction::UpdateImpl]); [std] is [Rules::Maturity.Std]. *)
Definition ConfirmTx (std : Z) (tbl : list Coin) (txId : list Z) (hProof : Z) : option (list Coin) :=
  save_all tbl ((fun c =>
    let bIn := bool_decide (c_createTxId c = Some txId) in
    let bOut := bool_decide (c_spentTxId c = Some txId) in
    let c := if bIn then set_heights c (u64 (hProof + std)) (Z.min (c_confirmHeight c) hProof) (c_spentHeight c) else c in
    if bOut then set_heights c (c_maturity c) (c_confirmHeight c) (Z.min (c_spentHeight c) hProof) else c) <$> getCoinsByTx tbl txId).
End db.

(** ** The table as a map *)
Definition uniq (tbl : list Coin) : Prop := NoDup (c_ID <$> tbl).

Lemma find_row_Some tbl id r : find_row tbl id = Some r -> r ∈ tbl /\ c_ID r = id.
Proof.
  unfold find_row. destruct (list_find _ tbl) as [[i r']|] eqn:E; [|done]. intros [= ->].
  apply list_find_Some in E as (E & Hid & _). split; [by eapply list_elem_of_lookup_2|done].
Qed.

Lemma find_row_None tbl id : find_row tbl id = None <-> id ∉ c_ID <$> tbl.
Proof.
  unfold find_row. destruct (list_find _ tbl) as [[i r']|] eqn:E; cbn.
  - split; [done|]. apply list_find_Some in E as (E & <- & _). intros []. apply list_elem_of_fmap. exists r'. split; [done|by eapply list_elem_of_lookup_2].
  - split; [|done]. intros _ (r & -> & Hr)%list_elem_of_fmap. apply list_find_None in E. rewrite Forall_forall in E. by apply (E r).
Qed.

Lemma find_row_cons r tbl id : find_row (r :: tbl) id = if decide (c_ID r = id) then Some r else find_row tbl id.
Proof. unfold find_row. cbn [list_find]. destruct (decide (c_ID r = id)); [done|]. by destruct (list_find _ tbl) as [[]|]. Qed.

Lemma find_row_app tbl k id : find_row (tbl ++ k) id = match find_row tbl id with Some r => Some r | None => find_row k id end.
Proof. induction tbl as [|r tbl IH]; [done|]. cbn [app]. rewrite !find_row_cons, IH. by destruct (decide _). Qed.

Lemma find_row_elem tbl r : uniq tbl -> r ∈ tbl -> find_row tbl (c_ID r) = Some r.
Proof.
  unfold uniq. induction tbl as [|r' tbl IH]; intros Hu Hr; [by apply elem_of_nil in Hr|]. rewrite find_row_cons. rewrite fmap_cons in Hu.
  apply NoDup_cons in Hu as [Hn Hu]. apply elem_of_cons in Hr as [->|Hr]; [by rewrite decide_True|].
  rewrite decide_False; [by apply IH|]. intros E. apply Hn. rewrite E. apply list_elem_of_fmap. by exists r.
Qed.

(** A change of the rows that keeps their IDs. *)
Lemma find_row_fmap (f : Coin -> Coin) tbl id : (forall r, c_ID (f r) = c_ID r) -> find_row (f <$> tbl) id = f <$> find_row tbl id.
Proof.
  intros Hf. induction tbl as [|r tbl IH]; [done|]. rewrite fmap_cons, !find_row_cons, Hf, IH. by destruct (decide _).
Qed.

Lemma uniq_fmap (f : Coin -> Coin) tbl : (forall r, c_ID (f r) = c_ID r) -> uniq tbl -> uniq (f <$> tbl).
Proof.
  intros Hf. unfold uniq. rewrite <- list_fmap_compose. by rewrite (list_fmap_ext (c_ID ∘ f) c_ID) by (intros; apply Hf).
Qed.

Lemma insertRaw_ok tbl c : uniq tbl -> find_row tbl (c_ID c) = None -> exists tbl', insertRaw tbl c = Some tbl' /\ uniq tbl' /\
  forall id, find_row tbl' id = if decide (c_ID c = id) then Some (row_of c) else find_row tbl id.
Proof.
  intros Hu Hn. unfold insertRaw. rewrite Hn. eexists. split; [done|]. split.
  - unfold uniq. rewrite fmap_app. apply NoDup_app. split_and!; [done| |apply NoDup_singleton].
    intros id Hid ->%list_elem_of_singleton. by apply find_row_None in Hn.
  - intros id. rewrite find_row_app, find_row_cons. cbn [c_ID row_of set_status]. destruct (decide (c_ID c = id)) as [<-|]; [by rewrite Hn|].
    by destruct (find_row tbl id).
Qed.

(** [saveRaw] is an insertion or an update. *)
Lemma saveRaw_ok tbl c : uniq tbl -> exists tbl', saveRaw tbl c = Some tbl' /\ uniq tbl' /\
  forall id, find_row tbl' id = if decide (c_ID c = id) then Some (row_of c) else find_row tbl id.
Proof.
  intros Hu. unfold saveRaw, updateRaw. set (f := fun r => if decide (c_ID r = c_ID c) then row_of c else r). assert (forall r, c_ID (f r) = c_ID r) as Hf by (intros r; unfold f; by destruct (decide _)).
  destruct (find_row tbl (c_ID c)) as [r|] eqn:E; cbn [negb].
  - eexists. split; [done|]. split; [by apply uniq_fmap|]. intros id. rewrite find_row_fmap by done. destruct (decide (c_ID c = id)) as [<-|Hne].
    + rewrite E. cbn. unfold f. apply find_row_Some in E as [_ E]. by rewrite decide_True.
    + destruct (find_row tbl id) as [r'|] eqn:E'; [|done]. apply find_row_Some in E' as [_ E']. cbn. unfold f. by rewrite decide_False by congruence.
  - assert (f <$> tbl = tbl) as ->; [|by apply insertRaw_ok]. clear Hu. induction tbl as [|r tbl IH]; [done|]. rewrite fmap_cons.
    rewrite find_row_cons in E. destruct (decide (c_ID r = c_ID c)) eqn:Ed; [done|]. unfold f at 1. rewrite Ed. f_equal. by apply IH.
Qed.

Lemma save_all_ok tbl l : uniq tbl -> exists tbl', save_all tbl l = Some tbl' /\ uniq tbl'.
Proof.
  revert tbl. induction l as [|c l IH]; intros tbl Hu; [by exists tbl|]. cbn [save_all].
  destruct (saveRaw_ok tbl c Hu) as (tbl1 & -> & Hu1 & _). by apply IH.
Qed.

Lemma removeImpl_ok tbl cid : uniq tbl -> uniq (removeImpl tbl cid) /\
  forall id, find_row (removeImpl tbl cid) id = if decide (id = cid) then None else find_row tbl id.
Proof.
  intros Hu. unfold removeImpl. split.
  - unfold uniq in *. eapply sublist_NoDup; [exact Hu|]. apply fmap_sublist, sublist_filter.
  - intros id. destruct (find_row (filter _ tbl) id) as [r|] eqn:E.
    + apply find_row_Some in E as [[Hne Hr]%list_elem_of_filter <-]. rewrite decide_False by done. by rewrite find_row_elem.
    + destruct (decide (id = cid)) as [|Hne]; [done|]. symmetry. apply find_row_None. apply find_row_None in E. intros (r & -> & Hr)%list_elem_of_fmap.
      apply E, list_elem_of_fmap. exists r. split; [done|]. by apply list_elem_of_filter.
Qed.

(** ** New coins *)
Section store.
Context (txStatus : list Z -> option TxStatus) (hTop : Z).

Definition id_at (id : CoinID) (i : Z) : CoinID := mkID (u64 (id_Idx id + i)) (id_Type id) (id_SubIdx id) (id_Value id).

Lemma next_id_at id i : next_ID (id_at id i) = id_at id (i + 1).
Proof. unfold next_ID, id_at. cbn. f_equal. unfold u64, wrap. rewrite Zplus_mod_idemp_l. f_equal. lia. Qed.

Lemma insertNew_loop_ok fuel tbl id c i : c_ID c = id_at id i ->
  match insertNew_loop txStatus hTop fuel tbl c with
  | Some id' => (exists j, id' = id_at id j) /\ find_row tbl id' = None
  | None => forall j, (j < fuel)%nat -> id_at id (i + Z.of_nat j) ∈ c_ID <$> tbl
  end.
Proof.
  revert c i. induction fuel as [|fuel IH]; intros c i Hc; cbn [insertNew_loop]; [intros; lia|]. unfold find at 1.
  destruct (find_row tbl (c_ID c)) as [r|] eqn:E; cbn [mbind option_bind]; [|split; [by exists i|done]].
  match goal with |- context [insertNew_loop _ _ fuel tbl ?x] => specialize (IH x (i + 1)); destruct (insertNew_loop txStatus hTop fuel tbl x) end.
  - apply IH. cbn. by rewrite Hc, next_id_at.
  - intros [|j] Hj.
    + rewrite Z.add_0_r, <- Hc. apply find_row_Some in E as [E <-]. apply list_elem_of_fmap. by exists r.
    + replace (i + Z.of_nat (S j)) with (i + 1 + Z.of_nat j) by lia. apply IH; [|lia]. cbn. by rewrite Hc, next_id_at.
Qed.

Lemma insertNew_ok tbl c : uniq tbl -> Z.of_nat (length tbl) < 2 ^ 64 - 1 -> in_width 64 (id_Idx (c_ID c)) ->
  exists tbl' idx, let c' := set_Idx c idx in
    insertNew txStatus hTop tbl c = Some (tbl', c') /\ in_width 64 idx /\ find_row tbl (c_ID c') = None /\ uniq tbl' /\
    forall id, find_row tbl' id = if decide (c_ID c' = id) then Some (row_of c') else find_row tbl id.
Proof.
  intros Hu Hlen Hw. unfold insertNew.
  assert (id_at (c_ID c) 0 = c_ID c) as E0 by (unfold id_at; rewrite Z.add_0_r, wrap_small by done; by destruct (c_ID c)).
  pose proof (insertNew_loop_ok (S (length tbl)) tbl (c_ID c) (Coin_new (c_ID c) zero_asset) 0 (eq_sym E0)) as H.
  destruct (insertNew_loop _ _ _ _ _) as [id'|]; cbn [mbind option_bind].
  - destruct H as [[j ->] Hn]. destruct (insertRaw_ok tbl (set_Idx c (u64 (id_Idx (c_ID c) + j))) Hu Hn) as (tbl' & E & Hu' & Hf).
    exists tbl', (u64 (id_Idx (c_ID c) + j)). cbn [id_at id_Idx]. rewrite E. split_and!; [done|apply wrap_bound; lia..|done|done|done].
  - exfalso. set (l := (fun j => id_at (c_ID c) (Z.of_nat j)) <$> seq 0 (S (length tbl))).
    assert (l ⊆+ c_ID <$> tbl) as Hsub.
    { apply NoDup_submseteq.
      - unfold l. apply NoDup_fmap_2_strong; [|apply NoDup_seq]. intros x y Hx%elem_of_seq Hy%elem_of_seq [= E]. unfold wrap in E.
        apply (f_equal (fun z => (z - id_Idx (c_ID c)) mod 2 ^ 64)) in E. rewrite !Zminus_mod_idemp_l in E.
        replace (id_Idx (c_ID c) + Z.of_nat x - id_Idx (c_ID c)) with (Z.of_nat x) in E by lia.
        replace (id_Idx (c_ID c) + Z.of_nat y - id_Idx (c_ID c)) with (Z.of_nat y) in E by lia. rewrite !Z.mod_small in E; lia.
      - intros x (j & -> & Hj%elem_of_seq)%list_elem_of_fmap. apply (H j). lia. }
    apply submseteq_length in Hsub. unfold l in Hsub. rewrite !length_fmap, length_seq in Hsub. lia.
Qed.
End store.

(** ** Confirmation and rollback *)

(** What changes the heights of coins: an event of the node, or the confirmation
    of a transaction. *)
Inductive Update :=
| UEvent (active : list (list Z * list CoinID)) (evt : UtxoEvent)
| UConfirm (txId : list Z) (hProof : Z).

Definition update_height (u : Update) : Z := match u with UEvent _ evt => ev_Height evt | UConfirm _ h => h end.

Section rollback.
Context (txStatus : list Z -> option TxStatus) (hTop std : Z).

Definition apply_update (tbl : list Coin) (u : Update) : option (list Coin) :=
  match u with
  | UEvent active evt => ProcessUtxoEvent txStatus hTop active tbl evt
  | UConfirm txId hProof => ConfirmTx std tbl txId hProof
  end.

Fixpoint apply_updates (tbl : list Coin) (us : list Update) : option (list Coin) :=
  match us with
  | [] => Some tbl
  | u :: us => tbl ← apply_update tbl u; apply_updates tbl us
  end.

Context (h : Z) (h_range : 0 <= h < 2 ^ 63).

(** A height that is known at [h], or not at all. *)
Definition height_ok (x : Z) : Prop := 0 <= x <= h \/ x = MaxHeight.

(** The same height, or one that became known above [h]. *)
Definition moved (x y : Z) : Prop := y = x \/ x = MaxHeight /\ h < y < 2 ^ 63.

Lemma moved_min x y z : height_ok x -> moved x y -> h < z < 2 ^ 63 -> moved x (Z.min y z).
Proof. unfold height_ok, moved, MaxHeight. lia. Qed.

Lemma moved_back x y : height_ok x -> moved x y -> (if i64 h <? i64 y then MaxHeight else y) = x.
Proof.
  intros Hx Hm. assert (i64 h = h) as -> by (apply swrap_small; lia).
  assert (i64 MaxHeight = -1) as Em by reflexivity.
  destruct Hm as [->|[-> Hy]].
  - destruct Hx as [Hx| ->]; [|by rewrite Em, (proj2 (Z.ltb_ge _ _)) by lia].
    by rewrite swrap_small, (proj2 (Z.ltb_ge _ _)) by lia.
  - by rewrite swrap_small, (proj2 (Z.ltb_lt _ _)) by lia.
Qed.

Context (tbl0 : list Coin) (tbl0_ok : Forall (fun r => height_ok (c_confirmHeight r) /\ height_ok (c_spentHeight r)) tbl0).

(** The coin as it was, or as it would have been. *)
Definition base (id : CoinID) : Coin := default (Coin_new id zero_asset) (find_row tbl0 id).

Definition derived (c : Coin) : Prop :=
  moved (c_confirmHeight (base (c_ID c))) (c_confirmHeight c) /\ moved (c_spentHeight (base (c_ID c))) (c_spentHeight c).

Lemma base_ok id : height_ok (c_confirmHeight (base id)) /\ height_ok (c_spentHeight (base id)).
Proof.
  unfold base. destruct (find_row tbl0 id) as [r|] eqn:E; [|by split; right]. apply find_row_Some in E as [E _].
  rewrite Forall_forall in tbl0_ok. by apply tbl0_ok.
Qed.

Record after (tbl : list Coin) : Prop := {
  af_uniq : uniq tbl;
  af_kept id : find_row tbl id = None -> find_row tbl0 id = None;
  af_derived id r : find_row tbl id = Some r -> derived r
}.

Lemma saveRaw_after tbl c : after tbl -> derived c -> exists tbl', saveRaw tbl c = Some tbl' /\ after tbl'.
Proof.
  intros [Hu Hk Hd] Hc. destruct (saveRaw_ok tbl c Hu) as (tbl' & -> & Hu' & Hf). exists tbl'. split; [done|].
  constructor; [done|..]; intros id; rewrite Hf; destruct (decide (c_ID c = id)); eauto; [done|]. by intros r [= <-].
Qed.

Lemma save_all_after tbl l : after tbl -> Forall derived l -> exists tbl', save_all tbl l = Some tbl' /\ after tbl'.
Proof.
  intros Ha Hl. revert tbl Ha. induction Hl as [|c l Hc Hl IH]; intros tbl Ha; [by exists tbl|]. cbn [save_all].
  destruct (saveRaw_after tbl c Ha Hc) as (tbl1 & -> & Ha1). by apply IH.
Qed.

(** The coin that [find] gives, or the new one. *)
Lemma find_derived tbl id aid : after tbl ->
  match find txStatus hTop tbl (Coin_new id aid) with
  | Some c => c_ID c = id /\ derived c
  | None => derived (Coin_new id aid)
  end.
Proof.
  intros [Hu Hk Hd]. unfold find. cbn [c_ID Coin_new]. destruct (find_row tbl id) as [r|] eqn:E; cbn [mbind option_bind].
  - split; [done|]. pose proof (Hd _ _ E) as H. apply find_row_Some in E as [_ <-]. exact H.
  - apply Hk in E. unfold derived, base. cbn [c_ID Coin_new]. rewrite E. by split; left.
Qed.

Lemma mark_active (active : list (list Z * list CoinID)) c : let c' := foldl (fun c x => if bool_decide (c_ID c ∈ x.2) then set_spentTx c Outgoing x.1 else c) c active in
  c_ID c' = c_ID c /\ c_confirmHeight c' = c_confirmHeight c /\ c_spentHeight c' = c_spentHeight c.
Proof.
  revert c. induction active as [|x active IH]; intros c; [done|]. cbn [foldl]. destruct (bool_decide _); [|apply IH].
  destruct (IH (set_spentTx c Outgoing x.1)) as (-> & -> & ->). done.
Qed.

Lemma update_after tbl u : after tbl -> h < update_height u < 2 ^ 63 -> exists tbl', apply_update tbl u = Some tbl' /\ after tbl'.
Proof.
  intros Ha Hh. destruct u as [active evt|txId hp]; cbn [apply_update update_height] in *.
  - unfold ProcessUtxoEvent. pose proof (find_derived tbl (ev_Kidv evt) (ev_AssetID evt) Ha) as Hfd.
    assert (exists c b, match find txStatus hTop tbl (Coin_new (ev_Kidv evt) (ev_AssetID evt)) with Some c => (c, true) | None => (Coin_new (ev_Kidv evt) (ev_AssetID evt), false) end = (c, b)
      /\ c_ID c = ev_Kidv evt /\ derived c) as (c & b & -> & Hid & Hc).
    { destruct (find _ _ _ _) as [c|]; [exists c, true|eexists _, false]; split; [done|exact Hfd|done|by split]. }
    clear Hfd. destruct (base_ok (c_ID c)) as [B1 B2]. destruct Hc as [D1 D2]. destruct (ev_Added evt).
    + match goal with |- context [foldl _ ?c0 active] => destruct (mark_active active c0) as (E1 & E2 & E3) end.
      apply saveRaw_after; [done|]. unfold derived. rewrite E1, E2, E3. cbn. split; [by apply moved_min|done].
    + destruct b; cbn [negb]; [|by exists tbl]. apply saveRaw_after; [done|]. split; [exact D1|]. by apply moved_min.
  - unfold ConfirmTx, getCoinsByTx. apply save_all_after; [done|]. apply Forall_fmap, Forall_forall. intros c [_ Hc]%list_elem_of_filter.
    pose proof (af_derived _ Ha _ _ (find_row_elem _ _ (af_uniq _ Ha) Hc)) as [D1 D2]. destruct (base_ok (c_ID c)) as [B1 B2].
    unfold compose. destruct (bool_decide (c_createTxId c = _)), (bool_decide (c_spentTxId c = _)); split; cbn; try done; by apply moved_min.
Qed.

Lemma updates_after us tbl : after tbl -> Forall (fun u => h < update_height u < 2 ^ 63) us ->
  exists tbl', apply_updates tbl us = Some tbl' /\ after tbl'.
Proof.
  intros Ha Hus. revert tbl Ha. induction Hus as [|u us Hu Hus IH]; intros tbl Ha; [by exists tbl|]. cbn [apply_updates].
  destruct (update_after tbl u Ha Hu) as (tbl1 & -> & Ha1). by apply IH.
Qed.

Definition rolled_back (r : Coin) : Coin :=
  set_heights r (c_maturity r) (if i64 h <? i64 (c_confirmHeight r) then MaxHeight else c_confirmHeight r)
    (if i64 h <? i64 (c_spentHeight r) then MaxHeight else c_spentHeight r).

Lemma rollback_fmap tbl : rollbackConfirmedUtxo tbl h = rolled_back <$> tbl.
Proof.
  unfold rollbackConfirmedUtxo. rewrite <- list_fmap_compose. apply list_fmap_ext. intros _ r _. unfold compose, rolled_back.
  destruct r as [id s m c sp ct st a n]. cbn. destruct (i64 h <? i64 c); cbn; destruct (i64 h <? i64 sp); reflexivity.
Qed.
End rollback.

(** C17: The rollback of a wallet.  A wallet that knows nothing above the height [h]
    goes through any events and confirmations above [h], and is rolled back to [h].
    Then every coin that it had is there with the heights of its
    confirmation and of its spending as they were, and every other coin is neither
    confirmed nor spent.  Nothing else is undone: a row is what the updates have left, the maturity and the
    transactions of the coin included, with only these two heights put back, and coins that the updates
    have brought stay in the table. *)
Theorem wallet_rollback txStatus hTop std h tbl us :
  0 <= h < 2 ^ 63 -> uniq tbl -> Forall (fun r => height_ok h (c_confirmHeight r) /\ height_ok h (c_spentHeight r)) tbl ->
  Forall (fun u => h < update_height u < 2 ^ 63) us ->
  exists tbl', apply_updates txStatus hTop std tbl us = Some tbl' /\ uniq (rollbackConfirmedUtxo tbl' h) /\
    (forall id, match find_row tbl id with
    | Some r => exists r', find_row (rollbackConfirmedUtxo tbl' h) id = Some r' /\ c_confirmHeight r' = c_confirmHeight r /\ c_spentHeight r' = c_spentHeight r
    | None => forall r', find_row (rollbackConfirmedUtxo tbl' h) id = Some r' -> c_confirmHeight r' = MaxHeight /\ c_spentHeight r' = MaxHeight
    end) /\
    forall id, find_row (rollbackConfirmedUtxo tbl' h) id
      = (fun r' => set_heights r' (c_maturity r') (c_confirmHeight (base tbl id)) (c_spentHeight (base tbl id))) <$> find_row tbl' id.
Proof.
  intros Hh Hu Hok Hus. destruct (updates_after txStatus hTop std h Hh tbl Hok us tbl) as (tbl' & E & Ha); [|done|].
  { constructor; [done|done|]. intros id r Er. unfold derived, base. pose proof (find_row_Some _ _ _ Er) as [_ ->]. rewrite Er. by split; left. }
  exists tbl'. split; [done|]. rewrite rollback_fmap. split; [by apply uniq_fmap, Ha|].
  assert (forall id r', find_row tbl' id = Some r' -> c_confirmHeight (rolled_back h r') = c_confirmHeight (base tbl id) /\ c_spentHeight (rolled_back h r') = c_spentHeight (base tbl id)) as Hback.
  { intros id r' Er. pose proof (af_derived _ _ _ Ha _ _ Er) as [D1 D2]. apply find_row_Some in Er as [_ Ei]. rewrite Ei in D1, D2. destruct (base_ok h tbl Hok id) as [B1 B2].
    cbn. split; by apply moved_back. }
  split; intros id; rewrite find_row_fmap by done; specialize (Hback id).
  2: { destruct (find_row tbl' id) as [r'|]; [|done]. destruct (Hback r' eq_refl) as [<- <-]. done. }
  unfold base in Hback. destruct (find_row tbl id) as [r|] eqn:Er; cbn in Hback.
  - destruct (find_row tbl' id) as [r'|] eqn:Er'; [|by rewrite (af_kept _ _ _ Ha _ Er') in Er]. exists (rolled_back h r'). by split; [|apply Hback].
  - destruct (find_row tbl' id) as [r'|]; [|done]. intros ? [= <-]. by apply Hback.
Qed.

(** ** Selection *)
#[global] Instance Coin_inhabited : Inhabited Coin := populate (Coin_new (mkID 0 0 0 0) zero_asset).

Definition value (c : Coin) : Z := id_Value (c_ID c).

Section selection.
Context (txStatus : list Z -> option TxStatus) (hTop : Z).
Abbreviation Deduce := (DeduceStatus txStatus hTop).

(** The coins of an asset that can be spent. *)
Definition available (tbl : list Coin) (aid : list Z) : list Coin :=
  filter (fun c => c_status c = Available) (Deduce <$> filter (fun r => c_assetID r = aid) tbl).

Lemma Deduce_available r : c_status (Deduce r) = Available ->
  c_spentHeight r = MaxHeight /\ c_confirmHeight r <> MaxHeight /\ c_maturity r <= hTop /\ IsOngoingTx txStatus (c_spentTxId r) = false.
Proof.
  cbn. unfold GetCoinStatus. destruct (Z.eqb_spec (c_spentHeight r) MaxHeight); cbn [negb]; [|done].
  destruct (Z.eqb_spec (c_confirmHeight r) MaxHeight); cbn [negb]; [by destruct (IsOngoingTx _ _)|].
  destruct (Z.ltb_spec hTop (c_maturity r)); [done|]. by destruct (IsOngoingTx _ _).
Qed.

Lemma visit_rows_all {W} (f : W -> Coin -> W) w rows :
  visit_rows txStatus hTop (fun w c => (f w c, true)) w rows = foldl f w (Deduce <$> rows).
Proof. revert w. induction rows as [|r rows IH]; intros w; [done|]. cbn [visit_rows]. by rewrite IH. Qed.

Lemma Totals_add_avail t c : t_Avail (Totals_add t c) = if decide (c_status c = Available) then u64 (t_Avail t + value c) else t_Avail t.
Proof. unfold Totals_add. by destruct (c_status c). Qed.

Lemma Totals_avail tbl aid : Forall (fun r => 0 <= value r) tbl -> zsum (value <$> available tbl aid) < 2 ^ 64 ->
  t_Avail (Totals_Init txStatus hTop tbl aid) = zsum (value <$> available tbl aid).
Proof.
  intros Hv. unfold Totals_Init, visit, available. rewrite visit_rows_all.
  assert (forall l t, Forall (fun r => 0 <= value r) l -> 0 <= t_Avail t -> t_Avail t + zsum (value <$> filter (fun c => c_status c = Available) l) < 2 ^ 64 ->
    t_Avail (foldl Totals_add t l) = t_Avail t + zsum (value <$> filter (fun c => c_status c = Available) l)) as Hfold.
  { clear. induction l as [|c l IH]; intros t Hl Ht Hs; [cbn; lia|]. apply Forall_cons in Hl as [Hc Hl]. cbn [foldl].
    pose proof (Totals_add_avail t c) as Ea. rewrite filter_cons in *. destruct (decide (c_status c = Available)).
    - rewrite fmap_cons in *. unfold zsum in *. cbn [foldr] in *.
      assert (0 <= foldr Z.add 0 (value <$> filter (fun c => c_status c = Available) l)).
      { apply zsum_nonneg, Forall_fmap, Forall_forall. intros x [_ Hx]%list_elem_of_filter. rewrite Forall_forall in Hl. by apply Hl. }
      rewrite wrap_small in Ea by (unfold in_width; lia). rewrite IH; [lia|done|lia|lia].
    - rewrite IH; [lia|done|lia|lia]. }
  intros Hs. rewrite Hfold; [done| |done|done]. apply Forall_fmap, Forall_forall. intros r [_ Hr]%list_elem_of_filter.
  rewrite Forall_forall in Hv. exact (Hv r Hr).
Qed.

(** What is read for a selection: everything that is available, or a part that is enough. *)
Lemma Select_rows_spec rows amount :
  let all := filter (fun c => c_status c = Available) (Deduce <$> rows) in let coins := Select_rows_loop txStatus hTop rows amount in
  coins `prefix_of` all /\ (coins = all \/ exists c, c ∈ coins /\ amount <= value c).
Proof.
  induction rows as [|r rows [Hp Hc]]; [by split; [|left]|]. cbn [Select_rows_loop]. rewrite fmap_cons, filter_cons.
  destruct (decide (c_status (Deduce r) = Available)) as [Ha|Ha].
  - rewrite bool_decide_eq_true_2 by done. cbn [negb]. destruct (Z.leb_spec amount (id_Value (c_ID (Deduce r)))) as [Hle|Hlt].
    + split; [apply prefix_cons, prefix_nil|]. right. exists (Deduce r). split; [by left|done].
    + split; [by apply prefix_cons|]. destruct Hc as [->|(c & Hc & Hle)]; [by left|right]. exists c. split; [by right|done].
  - rewrite bool_decide_eq_false_2 by done. done.
Qed.

Lemma rows_available rows tbl aid : 0 <= hTop < 2 ^ 63 -> Forall (fun r => 0 <= c_maturity r) tbl -> select_rows hTop rows tbl aid ->
  filter (fun c => c_status c = Available) (Deduce <$> rows) ≡ₚ available tbl aid.
Proof.
  intros Hh Hm [Hp _]. rewrite Hp. unfold available. clear Hp rows. induction Hm as [|r tbl Hr Hm IH]; [done|]. rewrite !filter_cons.
  destruct (decide (c_status (Deduce r) = Available)) as [Ha|Ha].
  - destruct (Deduce_available r Ha) as (Hs & _ & Hmat & _). destruct (decide (c_assetID r = aid)) as [Hasset|Hasset].
    + rewrite decide_True; [by rewrite !fmap_cons, !filter_cons_True, IH|]. unfold selectable. rewrite Hs.
      rewrite !(swrap_small 64) by lia. split_and!; [lia|lia|reflexivity|done].
    + rewrite decide_False; [done|]. by intros (_ & _ & _ & ?).
  - destruct (decide (selectable hTop aid r)), (decide (c_assetID r = aid)); rewrite ?fmap_cons, ?filter_cons_False by done; exact IH.
Qed.

Lemma mapM_indices (coins : list Coin) idx : Forall (fun i => i < length coins)%nat idx ->
  mapM (fun i => coins !! i) idx = Some ((fun i => coins !!! i) <$> idx).
Proof.
  induction 1 as [|i idx Hi H IH]; [done|]. cbn. rewrite IH, (list_lookup_lookup_total_lt coins i) by done. done.
Qed.

Lemma indices_submseteq (coins : list Coin) idx : NoDup idx -> Forall (fun i => i < length coins)%nat idx -> (fun i => coins !!! i) <$> idx ⊆+ coins.
Proof.
  intros Hd Hf. assert (coins = (fun i => coins !!! i) <$> seq 0 (length coins)) as E.
  { apply list_eq. intros i. rewrite list_lookup_fmap. destruct (decide (i < length coins)%nat).
    - rewrite lookup_seq_lt by done. cbn. by rewrite list_lookup_lookup_total_lt.
    - rewrite lookup_seq_ge, lookup_ge_None_2 by lia. done. }
  enough ((fun i => coins !!! i) <$> idx ⊆+ (fun i => coins !!! i) <$> seq 0 (length coins)) as H by (by rewrite <- E in H).
  apply fmap_submseteq, NoDup_submseteq; [done|]. intros i Hi. rewrite Forall_forall in Hf. apply elem_of_seq. specialize (Hf i Hi). lia.
Qed.

Lemma value_indices (coins : list Coin) idx : Forall (fun i => i < length coins)%nat idx ->
  value <$> ((fun i => coins !!! i) <$> idx) = (fun i => (value <$> coins) !!! i) <$> idx.
Proof.
  intros Hf. rewrite <- list_fmap_compose. apply list_fmap_ext. intros j i Hj. unfold compose.
  pose proof (Forall_lookup_1 _ _ _ _ Hf Hj). symmetry. by apply list_lookup_total_fmap.
Qed.
End selection.

Lemma select_coins_ok txStatus hTop tbl aid rows amount :
  0 <= hTop < 2 ^ 63 -> Forall (fun r => 0 <= value r /\ 0 <= c_maturity r) tbl ->
  16 * zsum (value <$> available txStatus hTop tbl aid) < 2 ^ 64 -> 0 < amount < 2 ^ 64 -> select_rows hTop rows tbl aid ->
  exists sel, selectCoins txStatus hTop rows amount = Some sel /\ sel ⊆+ available txStatus hTop tbl aid /\
    (amount <= t_Avail (Totals_Init txStatus hTop tbl aid) -> amount <= zsum (value <$> sel)) /\
    (t_Avail (Totals_Init txStatus hTop tbl aid) < amount -> sel = []).
Proof.
  intros Hh Hok Hsum Ha Hrows. set (av := available txStatus hTop tbl aid) in *.
  assert (Forall (Z.le 0) (value <$> av)) as Hpos.
  { apply Forall_fmap, Forall_forall. intros c [_ (r & -> & [_ Hr]%list_elem_of_filter)%list_elem_of_fmap]%list_elem_of_filter.
    rewrite Forall_forall in Hok. exact (proj1 (Hok r Hr)). }
  pose proof (zsum_nonneg _ Hpos) as Hnn. assert (Forall (fun r => 0 <= value r) tbl /\ Forall (fun r => 0 <= c_maturity r) tbl) as [Hv Hm] by (by apply Forall_and).
  rewrite Totals_avail by (done || (fold av; lia)). fold av.
  pose proof (rows_available txStatus hTop rows tbl aid Hh Hm Hrows) as Hperm. fold av in Hperm.
  destruct (Select_rows_spec txStatus hTop rows amount) as [Hpre Hcase]. unfold selectCoins. set (coins := Select_rows_loop _ _ _ _) in *.
  assert (coins ⊆+ av) as Hsub by (rewrite <- Hperm; destruct Hpre as [k Ek]; rewrite Ek; by apply submseteq_inserts_r).
  assert (value <$> coins ⊆+ value <$> av) as Hsubv by (by apply fmap_submseteq).
  assert (Forall (Z.le 0) (value <$> coins)) as Hposc by (rewrite Forall_forall in Hpos |- *; intros x Hx; apply Hpos; by eapply elem_of_submseteq).
  pose proof (zsum_submseteq _ _ Hpos Hsubv) as Hle. pose proof (zsum_nonneg _ Hposc).
  destruct (CoinSelect_ok (value <$> coins) amount Hposc ltac:(lia) ltac:(lia)) as ([first idx] & E & Hd & Hf & Es & Hen & Hsh).
  cbn [fst snd] in *. change (fun c => id_Value (c_ID c)) with value. rewrite E. cbn [mbind option_bind]. rewrite length_fmap in Hf.
  assert (zsum (value <$> coins) = zsum (value <$> av) \/ amount <= zsum (value <$> coins)) as Hall.
  { destruct Hcase as [->|(c & Hc & Hlec)]; [left; by rewrite Hperm|right]. etrans; [exact Hlec|].
    assert ([value c] ⊆+ value <$> coins) as Hone by (apply singleton_submseteq_l, list_elem_of_fmap; by exists c).
    apply zsum_submseteq in Hone; [|done]. unfold zsum in Hone at 1. cbn in Hone. lia. }
  destruct (Z.leb_spec amount first) as [Hge|Hlt].
  - rewrite mapM_indices by done. eexists. split; [done|]. split; [by etrans; [by apply indices_submseteq|]|].
    rewrite value_indices by done. unfold val in Es. split; [lia|]. intros Hshort. lia.
  - exists []. split; [done|]. split; [apply submseteq_nil_l|]. split; [|done]. intros Hav. exfalso. lia.
Qed.

(** C14: A wallet can pay what its totals show as available.  [selectCoins] always
    ends with different coins that are available; if the amount is not more than
    [Totals::Avail] they add up to it at least, and otherwise there are none. *)
Theorem wallet_select_coins txStatus hTop tbl aid rows amount :
  0 <= hTop < 2 ^ 63 -> Forall (fun r => 0 <= value r /\ 0 <= c_maturity r) tbl ->
  16 * zsum (value <$> available txStatus hTop tbl aid) < 2 ^ 64 -> 0 < amount < 2 ^ 64 -> select_rows hTop rows tbl aid ->
  exists sel, selectCoins txStatus hTop rows amount = Some sel /\ sel ⊆+ available txStatus hTop tbl aid /\
    (amount <= t_Avail (Totals_Init txStatus hTop tbl aid) -> amount <= zsum (value <$> sel)) /\
    (t_Avail (Totals_Init txStatus hTop tbl aid) < amount -> sel = []).
Proof. exact (select_coins_ok txStatus hTop tbl aid rows amount). Qed.

(** ** Sessions *)
Record table_ok (tbl : list Coin) : Prop := { tb_uniq : uniq tbl; tb_rows : Forall (fun r => row_of r = r) tbl }.

Lemma table_find tbl : uniq tbl -> (forall id r, find_row tbl id = Some r -> row_of r = r) -> table_ok tbl.
Proof. intros Hu Hf. constructor; [done|]. apply Forall_forall. intros r Hr. eapply Hf. by apply find_row_elem. Qed.

Lemma table_row tbl id r : table_ok tbl -> find_row tbl id = Some r -> row_of r = r.
Proof. intros [_ Hr] [E _]%find_row_Some. rewrite Forall_forall in Hr. by apply Hr. Qed.

Lemma save_all_find (f : CoinID -> Coin) l tbl tbl' : uniq tbl -> Forall (fun c => row_of c = f (c_ID c)) l -> save_all tbl l = Some tbl' ->
  forall id, find_row tbl' id = if decide (id ∈ c_ID <$> l) then Some (f id) else find_row tbl id.
Proof.
  intros Hu Hl. revert tbl Hu. induction Hl as [|c l Hc Hl IH]; intros tbl Hu E id; cbn [save_all] in E; [simplify_eq; done|].
  destruct (saveRaw_ok tbl c Hu) as (tbl1 & E1 & Hu1 & Hf). rewrite E1 in E. cbn [mbind option_bind] in E. rewrite (IH tbl1 Hu1 E id), fmap_cons.
  destruct (decide (id ∈ c_ID <$> l)) as [Hin|Hin]; [rewrite decide_True; [done|by right]|]. rewrite Hf. destruct (decide (c_ID c = id)) as [<-|Hne].
  - rewrite decide_True by (by left). by rewrite Hc.
  - rewrite decide_False; [done|]. intros [->|]%elem_of_cons; done.
Qed.

Section locking.
Context (txStatus : list Z -> option TxStatus) (hTop : Z).
Abbreviation Deduce := (DeduceStatus txStatus hTop).
Abbreviation byID := (getCoinsByID txStatus hTop).

Lemma getCoinsByID_elem tbl l c : c ∈ byID tbl l <-> c_ID c ∈ l /\ exists r, find_row tbl (c_ID c) = Some r /\ c = Deduce r /\ c_status c = Available.
Proof.
  induction l as [|id l IH]; cbn [getCoinsByID]; [split; [by intros ?%elem_of_nil|by intros [?%elem_of_nil _]]|].
  rewrite elem_of_cons. destruct (find_row tbl id) as [r|] eqn:E.
  - pose proof (find_row_Some _ _ _ E) as [_ Hid]. destruct (decide (c_status (Deduce r) = Available)) as [Ha|Ha].
    + rewrite elem_of_cons, IH. split.
      * intros [->|[H1 H2]]; [|by split; [right|]]. cbn [c_ID DeduceStatus set_status]. rewrite Hid. split; [by left|]. by exists r.
      * intros [[Hc|Hc] (r' & E' & H')]; [|right; split; [done|by exists r']]. left. destruct H' as [-> _]. rewrite Hc, E in E'. by simplify_eq.
    + rewrite IH. split; [intros [H1 H2]; by split; [right|]|]. intros [[Hc|Hc] (r' & E' & -> & Ha')]; [|by split; [|exists r']].
      rewrite Hc, E in E'. by simplify_eq.
  - rewrite IH. split; [intros [H1 H2]; by split; [right|]|]. intros [[Hc|Hc] (r' & E' & H')]; [|by split; [|exists r']]. by rewrite Hc, E in E'.
Qed.

Lemma lock_find tbl l session tbl' : table_ok tbl -> lock txStatus hTop tbl l session = Some (tbl', true) ->
  uniq tbl' /\ Forall (fun c => c_sessionId c = 0) (byID tbl l) /\ byID tbl l <> [] /\
  forall id, find_row tbl' id = if decide (id ∈ c_ID <$> byID tbl l) then (fun r => set_session r session) <$> find_row tbl id else find_row tbl id.
Proof.
  intros Hok. unfold lock. destruct (forallb _ (byID tbl l)) eqn:Ef; [|done].
  set (lk := (fun c => set_session c session) <$> byID tbl l).
  destruct (save_all_ok tbl lk (tb_uniq _ Hok)) as (tbl1 & E & Hu1). rewrite E. cbn [mbind option_bind]. intros [= <- Hne].
  split; [done|]. split; [|split; [by destruct (byID tbl l)|]].
  - apply Forall_forall. intros c Hc. rewrite forallb_forall in Ef. apply Z.eqb_eq, Ef. by apply list_elem_of_In.
  - assert (c_ID <$> lk = c_ID <$> byID tbl l) as Eid by (unfold lk; by rewrite <- list_fmap_compose).
    intros id. rewrite (save_all_find (fun id => set_session (default (Coin_new id zero_asset) (find_row tbl id)) session) lk tbl tbl1 (tb_uniq _ Hok)); [|..|done].
    + rewrite Eid. destruct (decide _) as [Hin|]; [|done]. apply list_elem_of_fmap in Hin as (c & -> & (_ & r & Er & _)%getCoinsByID_elem). by rewrite Er.
    + apply Forall_fmap, Forall_forall. intros c (_ & r & Er & Ec & _)%getCoinsByID_elem. unfold compose. cbn [c_ID set_session]. rewrite Er. cbn [default].
      pose proof (table_row _ _ _ Hok Er) as Hrow. rewrite Ec. rewrite <- Hrow. by destruct r.
Qed.

Lemma Deduce_session r n : GetCoinStatus txStatus hTop (set_session r n) = GetCoinStatus txStatus hTop r.
Proof. by destruct r. Qed.
End locking.

(** Locked coins.  When [lock] succeeds, exactly the available coins of the list have
    the session, they were free before, and nothing else has changed; another
    [lock] of one of them fails and changes nothing; and [unlock] brings back the
    table as it was. *)
Theorem coin_locking txStatus hTop tbl l session tbl' :
  table_ok tbl -> session <> 0 -> Forall (fun r => c_sessionId r <> session) tbl -> lock txStatus hTop tbl l session = Some (tbl', true) ->
  (forall id, find_row tbl' id = if decide (id ∈ c_ID <$> getCoinsByID txStatus hTop tbl l) then (fun r => set_session r session) <$> find_row tbl id else find_row tbl id) /\
  (forall c l2 session2, c ∈ getCoinsByID txStatus hTop tbl l -> c_ID c ∈ l2 -> lock txStatus hTop tbl' l2 session2 = Some (tbl', false)) /\
  (forall id, find_row (unlock tbl' session).1 id = find_row tbl id).
Proof.
  intros Hok Hs Hfree E. destruct (lock_find txStatus hTop tbl l session tbl' Hok E) as (Hu & H0 & Hne & Hf). split; [done|]. split.
  - intros c l2 s2 Hc Hin. unfold lock. destruct (forallb _ (getCoinsByID txStatus hTop tbl' l2)) eqn:Ef; [exfalso|done].
    pose proof Hc as (_ & r & Er & Ec & Ha)%getCoinsByID_elem. rewrite forallb_forall in Ef.
    assert (DeduceStatus txStatus hTop (set_session r session) ∈ getCoinsByID txStatus hTop tbl' l2) as Hl2.
    { apply getCoinsByID_elem. cbn [c_ID DeduceStatus set_status set_session c_status]. pose proof (find_row_Some _ _ _ Er) as [_ ->]. split; [done|].
      exists (set_session r session). rewrite Hf, decide_True, Er by (apply list_elem_of_fmap; by exists c). split_and!; [done|done|].
      rewrite Deduce_session. by rewrite Ec in Ha. }
    apply list_elem_of_In in Hl2. apply Ef in Hl2. cbn in Hl2. apply Z.eqb_eq in Hl2. done.
  - intros id. unfold unlock. cbn [fst]. rewrite find_row_fmap by (intros r; by destruct (_ =? _)). rewrite Hf.
    destruct (find_row tbl id) as [r|] eqn:Er; [|by destruct (decide _)].
    assert (c_sessionId r <> session) as Hns by (apply find_row_Some in Er as [Er _]; rewrite Forall_forall in Hfree; by apply Hfree).
    destruct (decide (id ∈ _)) as [Hin|]; cbn; [|by rewrite (proj2 (Z.eqb_neq _ _))].
    rewrite Z.eqb_refl. apply list_elem_of_fmap in Hin as (c & -> & Hc). rewrite Forall_forall in H0. pose proof (H0 c Hc) as Hc0.
    apply getCoinsByID_elem in Hc as (_ & r' & Er' & -> & _). cbn in Hc0. cbn in Er, Er'. rewrite Er in Er'. simplify_eq. f_equal. destruct r'. cbn in *. by subst.
Qed.

(** C37: The table of coins.  Its index stays unique; [store] gives a coin an index
    that makes its ID new and changes nothing else of it; [save] replaces or adds
    exactly the row of its coin, [find] then gives its fields back, and
    [remove] deletes exactly the row of its ID. *)
Theorem coin_table txStatus hTop tbl c random :
  uniq tbl -> Z.of_nat (length tbl) < 2 ^ 64 - 1 -> in_width 64 random ->
  (exists tbl' idx, store txStatus hTop tbl c random = Some (tbl', set_Idx c idx) /\ find_row tbl (c_ID (set_Idx c idx)) = None /\ uniq tbl' /\
    forall id, find_row tbl' id = if decide (c_ID (set_Idx c idx) = id) then Some (row_of (set_Idx c idx)) else find_row tbl id) /\
  (exists tbl', saveRaw tbl c = Some tbl' /\ uniq tbl' /\
    (forall id, find_row tbl' id = if decide (c_ID c = id) then Some (row_of c) else find_row tbl id) /\
    find txStatus hTop tbl' (Coin_new (c_ID c) zero_asset) = Some (DeduceStatus txStatus hTop c)) /\
  (forall cid, uniq (removeImpl tbl cid) /\ forall id, find_row (removeImpl tbl cid) id = if decide (id = cid) then None else find_row tbl id).
Proof.
  intros Hu Hlen Hw. split_and!.
  - destruct (insertNew_ok txStatus hTop tbl (set_Idx c random) Hu Hlen Hw) as (tbl' & idx & E & _ & Hn & Hu' & Hf). exists tbl', idx. by split_and!.
  - destruct (saveRaw_ok tbl c Hu) as (tbl' & E & Hu' & Hf). exists tbl'. split_and!; [done|done|done|].
    unfold find. cbn [c_ID Coin_new]. rewrite Hf, decide_True by done. cbn [mbind option_bind]. destruct c as [id s m cf sp ct st a n]. cbn. by destruct ct, st.
  - intros cid. by apply removeImpl_ok.
Qed.

(** ** A wallet with four coins

    Two are available, one waits for its maturity and one goes into a transaction
    that is not finished. *)
Module DemoWallet.
Definition tx1 : list Z := [1].
Definition status (id : list Z) : option TxStatus := if decide (id = tx1) then Some TxInProgress else None.
Definition coin (idx v maturity : Z) (spentTx : option (list Z)) : Coin :=
  mkCoin (mkID idx Type_Coinbase 0 v) Unavailable maturity 10 MaxHeight None spentTx zero_asset 0.
Definition c1 : Coin := coin 1 700 20 None.
Definition c2 : Coin := coin 2 300 20 None.
Definition c3 : Coin := coin 3 5000 100 None.
Definition c4 : Coin := coin 4 900 20 (Some tx1).
Definition tbl : list Coin := [c1; c2; c3; c4].

Lemma tbl_uniq : uniq tbl.
Proof. apply (bool_decide_unpack _). vm_compute. exact I. Qed.

Lemma tbl_ok : table_ok tbl.
Proof. constructor; [exact tbl_uniq|]. repeat constructor. Qed.

Lemma rows_ok : select_rows 50 [c2; c1; c4] tbl zero_asset.
Proof.
  split.
  - assert (filter (selectable 50 zero_asset) tbl = [c1; c2; c4]) as -> by (vm_compute; reflexivity). constructor.
  - repeat constructor; cbn; lia.
Qed.

Example selected_two : option_map (map value) (selectCoins status 50 [c2; c1; c4] 800) = Some [700; 300].
Proof. vm_compute. reflexivity. Qed.

(** Coin 1 is spent and a fifth coin appears above the height 30. *)
Definition updates : list Update :=
  [UEvent [] (mkEvent (c_ID c1) zero_asset 40 20 false); UEvent [(tx1, [mkID 5 Type_Coinbase 0 77])] (mkEvent (mkID 5 Type_Coinbase 0 77) zero_asset 41 60 true);
   UConfirm tx1 42].
End DemoWallet.

Lemma wallet_select_coins_witness :
  t_Avail (Totals_Init DemoWallet.status 50 DemoWallet.tbl zero_asset) = 1000 /\
  exists sel, selectCoins DemoWallet.status 50 [DemoWallet.c2; DemoWallet.c1; DemoWallet.c4] 800 = Some sel /\
    sel ⊆+ available DemoWallet.status 50 DemoWallet.tbl zero_asset /\
    (800 <= t_Avail (Totals_Init DemoWallet.status 50 DemoWallet.tbl zero_asset) -> 800 <= zsum (value <$> sel)) /\
    (t_Avail (Totals_Init DemoWallet.status 50 DemoWallet.tbl zero_asset) < 800 -> sel = []).
Proof.
  split; [vm_compute; reflexivity|].
  refine (wallet_select_coins DemoWallet.status 50 DemoWallet.tbl zero_asset [DemoWallet.c2; DemoWallet.c1; DemoWallet.c4] 800 _ _ _ _ DemoWallet.rows_ok).
  - lia.
  - repeat constructor; cbn; lia.
  - vm_compute. reflexivity.
  - lia.
Defined.

Lemma wallet_rollback_witness :
  uniq DemoWallet.tbl /\
  exists tbl', apply_updates DemoWallet.status 50 0 DemoWallet.tbl DemoWallet.updates = Some tbl' /\ uniq (rollbackConfirmedUtxo tbl' 30) /\
    forall id, match find_row DemoWallet.tbl id with
    | Some r => exists r', find_row (rollbackConfirmedUtxo tbl' 30) id = Some r' /\ c_confirmHeight r' = c_confirmHeight r /\ c_spentHeight r' = c_spentHeight r
    | None => forall r', find_row (rollbackConfirmedUtxo tbl' 30) id = Some r' -> c_confirmHeight r' = MaxHeight /\ c_spentHeight r' = MaxHeight
    end.
Proof.
  split; [exact DemoWallet.tbl_uniq|].
  destruct (wallet_rollback DemoWallet.status 50 0 30 DemoWallet.tbl DemoWallet.updates) as (tbl' & E & U & H & _).
  - lia.
  - exact DemoWallet.tbl_uniq.
  - repeat constructor; unfold height_ok; cbn; lia.
  - repeat constructor; cbn; lia.
  - exists tbl'. split; [exact E|]. split; [exact U|exact H].
Defined.

Lemma coin_locking_witness :
  exists tbl', lock DemoWallet.status 50 DemoWallet.tbl [c_ID DemoWallet.c1] 7 = Some (tbl', true) /\
  (forall c l2 session2, c ∈ getCoinsByID DemoWallet.status 50 DemoWallet.tbl [c_ID DemoWallet.c1] -> c_ID c ∈ l2 ->
     lock DemoWallet.status 50 tbl' l2 session2 = Some (tbl', false)) /\
  (forall id, find_row (unlock tbl' 7).1 id = find_row DemoWallet.tbl id).
Proof.
  eexists. split; [vm_compute; reflexivity|].
  refine (proj2 (coin_locking DemoWallet.status 50 DemoWallet.tbl [c_ID DemoWallet.c1] 7 _ DemoWallet.tbl_ok _ _ _)).
  - lia.
  - repeat constructor; cbn; lia.
  - vm_compute. reflexivity.
Defined.

Lemma coin_table_witness :
  uniq DemoWallet.tbl /\
  exists tbl' idx, store DemoWallet.status 50 DemoWallet.tbl DemoWallet.c1 1 = Some (tbl', set_Idx DemoWallet.c1 idx) /\
    find_row DemoWallet.tbl (c_ID (set_Idx DemoWallet.c1 idx)) = None /\ uniq tbl' /\
    forall id, find_row tbl' id = if decide (c_ID (set_Idx DemoWallet.c1 idx) = id) then Some (row_of (set_Idx DemoWallet.c1 idx)) else find_row DemoWallet.tbl id.
Proof.
  split; [exact DemoWallet.tbl_uniq|].
  refine (proj1 (coin_table DemoWallet.status 50 DemoWallet.tbl DemoWallet.c1 1 DemoWallet.tbl_uniq _ _)); [vm_compute; reflexivity|unfold in_width; lia].
Defined.
