(* ===== verification/WalletTx.v ===== *)
(** The coins of a transaction: [BaseTxBuilder] of [wallet/base_tx_builder.cpp] as far as it
    works on the table of coins, in the order in which [SimpleTransaction::UpdateImpl] of
    [wallet/wallet_transaction.cpp] calls it, and the rollback of a
    transaction that has failed.

    The rows of a query come in an order that SQLite chooses among equal amounts:
    [query] is a parameter.  [rnd n] is what [get_RandomID] draws for the [n]-th new
    coin. *)

From stdpp Require Import sorting.
From S2P Require Import Prelude Rules CoinSelector WalletCoins.

(** [Key::Type::Regular] and [Key::Type::Change]: the four letters. *)
Definition Type_Regular : Z := 0x6e6f726d.
Definition Type_Change : Z := 0x63686e67.

(** The table, and of the builder [m_Change], [m_InputCoins] and [m_OutputCoins]. *)
Record TxCoins := mkTxCoins {
  tc_Table : list Coin; tc_Change : Z; tc_Inputs : list (CoinID * list Z); tc_Outputs : list (CoinID * list Z)
}.

Definition sum64 (l : list Z) : Z := foldl (fun a v => u64 (a + v)) 0 l.

Section builder.
Context (txStatus : list Z -> option TxStatus) (hTop : Z) (query : list Coin -> list Coin) (rnd : nat -> Z) (txId : list Z).

(** [SelectInputs]: [false] is the exception [NoInputs]. *)
Definition SelectInputs (s : TxCoins) (preselected : list CoinID) (amount fee : Z) : option (TxCoins * bool) :=
  let coins := (fun c => set_spentTxId c (Some txId)) <$> getCoinsByID txStatus hTop (tc_Table s) preselected in
  let preselectedAmount := sum64 (value <$> coins) in
  tbl ← save_all (tc_Table s) coins;
  let amountWithFee := u64 (amount + fee) in
  coins ← (if preselectedAmount <? amountWithFee then
             sel ← selectCoins txStatus hTop (query tbl) (u64 (amountWithFee - preselectedAmount)); Some (coins ++ sel)
           else Some coins);
  match coins with
  | [] => Some (mkTxCoins tbl (tc_Change s) (tc_Inputs s) (tc_Outputs s), false)
  | _ :: _ =>
      let coins := (fun c => set_spentTxId c (Some txId)) <$> coins in
      let total := sum64 (value <$> coins) in
      let change := u64 (tc_Change s + (total - amountWithFee)) in
      tbl ← save_all tbl coins;
      Some (mkTxCoins tbl change (tc_Inputs s ++ ((fun c => (c_ID c, c_assetID c)) <$> coins)) (tc_Outputs s), true)
  end.

Definition GenerateNewCoin (s : TxCoins) (amount : Z) (bChange : bool) : option TxCoins :=
  let c := Coin_new (mkID 0 Type_Regular 0 amount) zero_asset in
  let c := mkCoin (c_ID c) (c_status c) (c_maturity c) (c_confirmHeight c) (c_spentHeight c) (Some txId) (c_spentTxId c) (c_assetID c) (c_sessionId c) in
  let c := if bChange then
             mkCoin (mkID (id_Idx (c_ID c)) Type_Change (id_SubIdx (c_ID c)) (id_Value (c_ID c))) (c_status c) (c_maturity c) (c_confirmHeight c)
               (c_spentHeight c) (c_createTxId c) (c_spentTxId c) (c_assetID c) (c_sessionId c)
           else c in
  '(tbl, c) ← store txStatus hTop (tc_Table s) c (rnd (length (tc_Outputs s)));
  Some (mkTxCoins tbl (tc_Change s) (tc_Inputs s) (tc_Outputs s ++ [(c_ID c, zero_asset)])).

Definition AddChange (s : TxCoins) : option TxCoins :=
  if tc_Change s =? 0 then Some s else GenerateNewCoin s (tc_Change s) true.

Fixpoint GenerateNewCoinList (s : TxCoins) (amounts : list Z) (bChange : bool) : option TxCoins :=
  match amounts with
  | [] => Some s
  | amount :: amounts => s ← GenerateNewCoin s amount bChange; GenerateNewCoinList s amounts bChange
  end.

(** The first step of [UpdateImpl]. *)
Definition PrepareCoins (tbl : list Coin) (preselected : list CoinID) (amounts : list Z) (fee : Z) (isSender isSelfTx : bool) : option (TxCoins * bool) :=
  let s := mkTxCoins tbl 0 [] [] in
  '(s, ok) ← (if isSender then
                '(s, ok) ← SelectInputs s preselected (sum64 amounts) fee;
                if ok : bool then s ← AddChange s; Some (s, true) else Some (s, false)
              else Some (s, true));
  if negb ok then Some (s, false)
  else if isSelfTx || negb isSender then s ← GenerateNewCoinList s amounts false; Some (s, true)
  else Some (s, true).
End builder.

(** ** Sums and IDs *)
Lemma sum64_small l : Forall (Z.le 0) l -> zsum l < 2 ^ 64 -> sum64 l = zsum l.
Proof.
  intros Hl Hs. unfold sum64. enough (forall a, 0 <= a -> a + zsum l < 2 ^ 64 -> foldl (fun a v => u64 (a + v)) a l = a + zsum l) as H by (by rewrite H by lia).
  clear Hs. induction Hl as [|v l Hv Hl IH]; intros a Ha Hs; [cbn; lia|]. unfold zsum in *. cbn [foldl foldr] in *.
  pose proof (zsum_nonneg _ Hl) as Hn. unfold zsum in Hn. rewrite wrap_small, IH by (unfold in_width; lia). lia.
Qed.

Lemma value_ids (l : list Coin) : value <$> l = id_Value <$> (c_ID <$> l).
Proof. by rewrite <- list_fmap_compose. Qed.

Lemma saveRaw_ids tbl c tbl' : c_ID c ∈ c_ID <$> tbl -> saveRaw tbl c = Some tbl' -> c_ID <$> tbl' = c_ID <$> tbl.
Proof.
  intros Hin. unfold saveRaw, updateRaw. destruct (find_row tbl (c_ID c)) as [r|] eqn:E; cbn [negb]; [|by apply find_row_None in E].
  intros [= <-]. rewrite <- list_fmap_compose. apply list_fmap_ext. intros _ r' _. unfold compose. by destruct (decide _).
Qed.

Lemma save_all_ids tbl l tbl' : Forall (fun c => c_ID c ∈ c_ID <$> tbl) l -> save_all tbl l = Some tbl' -> c_ID <$> tbl' = c_ID <$> tbl.
Proof.
  revert tbl. induction l as [|c l IH]; intros tbl Hl E; cbn [save_all] in E; [by simplify_eq|]. apply Forall_cons in Hl as [Hc Hl].
  destruct (saveRaw tbl c) as [tbl1|] eqn:E1; [|done]. cbn [mbind option_bind] in E. pose proof (saveRaw_ids _ _ _ Hc E1) as E2.
  rewrite <- E2. apply IH; [by rewrite E2|done].
Qed.

Lemma insertNew_app txStatus hTop tbl c tbl' c' : insertNew txStatus hTop tbl c = Some (tbl', c') -> tbl' = tbl ++ [row_of c'].
Proof.
  unfold insertNew. destruct (insertNew_loop _ _ _ _ _); [|done]. cbn [mbind option_bind]. unfold insertRaw. destruct (find_row _ _); [done|]. cbn [mbind option_bind].
  by intros [= <- <-].
Qed.

(** ** What a transaction does to the table *)
Section tx.
Context (txStatus : list Z -> option TxStatus) (hTop : Z) (txId : list Z).
Context (tbl0 : list Coin).
Abbreviation status := (GetCoinStatus txStatus hTop).
Abbreviation mark := (fun r : Coin => set_spentTxId r (Some txId)).

(** Coins that were available are marked, and coins that the transaction creates are
    added, with the IDs [outs]. *)
Record held (outs : list CoinID) (tbl : list Coin) : Prop := {
  hd_ids : c_ID <$> tbl = (c_ID <$> tbl0) ++ outs;
  hd_ok : table_ok tbl;
  hd_old id r : find_row tbl0 id = Some r -> find_row tbl id = Some r \/ status r = Available /\ find_row tbl id = Some (mark r);
  hd_new id r : find_row tbl0 id = None -> find_row tbl id = Some r -> c_createTxId r = Some txId /\ c_confirmHeight r = MaxHeight
}.

(** A coin that is to be saved for the transaction. *)
Definition to_mark (c : Coin) : Prop := exists r, find_row tbl0 (c_ID c) = Some r /\ status r = Available /\ row_of c = mark r.

Lemma held_saveRaw outs tbl c : held outs tbl -> to_mark c -> exists tbl', saveRaw tbl c = Some tbl' /\ held outs tbl' /\
  forall id, find_row tbl' id = if decide (c_ID c = id) then Some (row_of c) else find_row tbl id.
Proof.
  intros [Hi Hok Ho Hn] (r & Er & Ha & Em). destruct (saveRaw_ok tbl c (tb_uniq _ Hok)) as (tbl' & E & Hu & Hf). exists tbl'. split; [done|]. split; [|done].
  assert (c_ID <$> tbl' = c_ID <$> tbl) as Eid.
  { eapply saveRaw_ids; [|done]. rewrite Hi. apply elem_of_app. left. pose proof (find_row_Some _ _ _ Er) as [Hr <-]. apply list_elem_of_fmap. by exists r. }
  constructor; [by rewrite Eid| | |].
  - apply table_find; [done|]. intros id r'. rewrite Hf. destruct (decide _); [by intros [= <-]|by apply table_row].
  - intros id r' Er'. rewrite Hf. destruct (decide (c_ID c = id)) as [<-|]; [|by apply Ho]. right. rewrite Er in Er'. simplify_eq. by rewrite Em.
  - intros id r' Er'. rewrite Hf. destruct (decide (c_ID c = id)) as [<-|]; [by rewrite Er in Er'|by apply Hn].
Qed.

Lemma held_save_all outs l : forall tbl, held outs tbl -> Forall to_mark l -> exists tbl', save_all tbl l = Some tbl' /\ held outs tbl' /\
  forall id, id ∈ c_ID <$> l \/ (exists r, find_row tbl0 id = Some r /\ find_row tbl id = Some (mark r)) -> exists r, find_row tbl0 id = Some r /\ find_row tbl' id = Some (mark r).
Proof.
  induction l as [|c l IH]; intros tbl Hh Hl; cbn [save_all].
  { exists tbl. split_and!; [done|done|]. intros id [[]%elem_of_nil|H]; done. }
  apply Forall_cons in Hl as [Hc Hl]. destruct (held_saveRaw outs tbl c Hh Hc) as (tbl1 & -> & Hh1 & Hf). cbn [mbind option_bind].
  destruct (IH tbl1 Hh1 Hl) as (tbl' & E & Hh' & Hm). exists tbl'. split_and!; [done|done|]. destruct Hc as (r & Er & _ & Em). intros id Hid. apply Hm. rewrite fmap_cons, elem_of_cons in Hid.
  destruct (decide (c_ID c = id)) as [<-|Hne].
  - right. exists r. rewrite Hf, decide_True by done. by rewrite Em.
  - destruct Hid as [[->|Hid]|(r' & Er' & Hr')]; [done|by left|right]. exists r'. by rewrite Hf, decide_False.
Qed.

(** A coin of a query is one that was available. *)
Lemma available_mark outs tbl aid c : held outs tbl -> c ∈ available txStatus hTop tbl aid -> to_mark (mark c).
Proof.
  intros Hh [Ha (r & -> & [_ Hr]%list_elem_of_filter)%list_elem_of_fmap]%list_elem_of_filter.
  pose proof (find_row_elem _ _ (tb_uniq _ (hd_ok _ _ Hh)) Hr) as Er. unfold to_mark. cbn [c_ID DeduceStatus set_status set_spentTxId].
  destruct (find_row tbl0 (c_ID r)) as [r0|] eqn:E0.
  - exists r0. split; [done|]. pose proof (table_row _ _ _ (hd_ok _ _ Hh) Er) as Hrow. cbn in Ha. destruct (hd_old _ _ Hh _ _ E0) as [E|[Hav E]]; rewrite Er in E; simplify_eq.
    + split; [done|]. rewrite <- Hrow. by destruct r0.
    + split; [done|]. cbn in Hrow |- *. destruct r0 as [id s m cf sp ct st a n]. cbn in *. unfold row_of, set_status in Hrow. cbn in Hrow. injection Hrow as <-. done.
  - destruct (hd_new _ _ Hh _ _ E0 Er) as [_ Hc]. destruct (Deduce_available txStatus hTop r Ha) as (_ & Hn & _). done.
Qed.

Lemma byID_mark c l : table_ok tbl0 -> c ∈ getCoinsByID txStatus hTop tbl0 l -> to_mark (mark c).
Proof.
  intros Hok (_ & r & Er & Ec & Ha)%getCoinsByID_elem. exists r. cbn [c_ID set_spentTxId]. split; [done|]. rewrite Ec in Ha. cbn in Ha. split; [done|].
  pose proof (table_row _ _ _ Hok Er) as Hrow. rewrite Ec, <- Hrow. by destruct r.
Qed.

Lemma byID_nodup tbl l : NoDup l -> NoDup (c_ID <$> getCoinsByID txStatus hTop tbl l).
Proof.
  induction 1 as [|id l Hn Hd IH]; [constructor|]. cbn [getCoinsByID]. destruct (find_row tbl id) as [r|] eqn:E; [|done].
  destruct (decide _); [|done]. rewrite fmap_cons. constructor; [|done]. intros (c & Ec & (Hc & _)%getCoinsByID_elem)%list_elem_of_fmap.
  cbn in Ec. apply find_row_Some in E as [_ E]. rewrite E in Ec. by rewrite <- Ec in Hc.
Qed.

Lemma available_nodup tbl aid : uniq tbl -> NoDup (c_ID <$> available txStatus hTop tbl aid).
Proof.
  intros Hu. unfold available. eapply sublist_NoDup; [exact Hu|]. etrans; [apply fmap_sublist, sublist_filter|]. rewrite <- list_fmap_compose.
  apply (fmap_sublist c_ID), sublist_filter.
Qed.

(** While the transaction goes on, a marked coin is not available. *)
Lemma mark_not_available tbl aid c r : IsOngoingTx txStatus (Some txId) = true -> uniq tbl -> c ∈ available txStatus hTop tbl aid -> find_row tbl (c_ID c) = Some (mark r) -> False.
Proof.
  intros Hon Hu [Ha (r' & -> & [_ Hr]%list_elem_of_filter)%list_elem_of_fmap]%list_elem_of_filter E. cbn [c_ID DeduceStatus set_status] in E.
  rewrite (find_row_elem _ _ Hu Hr) in E. simplify_eq. destruct (Deduce_available txStatus hTop _ Ha) as (_ & _ & _ & Hof). cbn [c_spentTxId set_spentTxId] in Hof. by rewrite Hon in Hof.
Qed.

Lemma find_row_filter (P : Coin -> Prop) `{forall r, Decision (P r)} tbl id : uniq tbl ->
  find_row (filter P tbl) id = r ← find_row tbl id; if decide (P r) then Some r else None.
Proof.
  intros Hu. destruct (find_row (filter P tbl) id) as [r|] eqn:E.
  - apply find_row_Some in E as [[HP Hr]%list_elem_of_filter <-]. rewrite find_row_elem by done. cbn. by rewrite decide_True.
  - destruct (find_row tbl id) as [r|] eqn:E'; [|done]. cbn. destruct (decide (P r)) as [HP|]; [|done]. exfalso. apply find_row_None in E. apply E.
    apply find_row_Some in E' as [Hr <-]. apply list_elem_of_fmap. exists r. split; [done|]. by apply list_elem_of_filter.
Qed.

(** The rollback of whatever the transaction has done. *)
Lemma rollback_held outs tbl : held outs tbl -> Forall (fun r => c_createTxId r <> Some txId /\ c_spentTxId r <> Some txId) tbl0 ->
  forall id, match find_row tbl0 id with
  | Some r => exists r', find_row (rollbackTx tbl txId) id = Some r' /\ status r' = status r /\ (r' = r \/ status r = Available /\ r' = set_spentTxId r None)
  | None => find_row (rollbackTx tbl txId) id = None
  end.
Proof.
  intros Hh Hfresh id. unfold rollbackTx. set (f := fun r => if decide (c_spentTxId r = Some txId) then set_spentTxId r None else r).
  assert (forall r, c_ID (f r) = c_ID r) as Hf by (intros r; unfold f; by destruct (decide _)).
  rewrite find_row_filter by (apply uniq_fmap; [done|apply Hh]). rewrite find_row_fmap by done. destruct (find_row tbl0 id) as [r|] eqn:E0.
  - pose proof (find_row_Some _ _ _ E0) as [Hr _]. rewrite Forall_forall in Hfresh. destruct (Hfresh r Hr) as [Hc Hs]. destruct (hd_old _ _ Hh _ _ E0) as [E|[Ha E]]; rewrite E.
    + exists r. cbn [fmap option_fmap option_map mbind option_bind]. assert (f r = r) as -> by (unfold f; by rewrite decide_False). rewrite decide_True by tauto. split_and!; [done|done|by left].
    + exists (set_spentTxId r None). cbn [fmap option_fmap option_map mbind option_bind]. assert (f (mark r) = set_spentTxId r None) as -> by (unfold f; by rewrite decide_True).
      rewrite decide_True by (cbn; tauto). split_and!; [done| |by right].
      destruct (Deduce_available txStatus hTop r Ha) as (H1 & H2 & H3 & _). rewrite Ha. unfold GetCoinStatus. cbn. rewrite H1. cbn. rewrite (proj2 (Z.eqb_neq _ _) H2). cbn [negb].
      by rewrite (proj2 (Z.ltb_ge _ _) H3).
  - destruct (find_row tbl id) as [r|] eqn:E; [|done]. destruct (hd_new _ _ Hh _ _ E0 E) as [H1 H2]. cbn. rewrite decide_False; [done|]. intros Hn. apply Hn. unfold f. destruct (decide _); cbn; by rewrite H2.
Qed.

Context (query : list Coin -> list Coin) (query_ok : forall tbl, select_rows hTop (query tbl) tbl zero_asset) (hTop_ok : 0 <= hTop < 2 ^ 63).
Context (tbl0_ok : table_ok tbl0) (vals_ok : Forall (fun r => 0 <= value r /\ 0 <= c_maturity r) tbl0) (sum_ok : 16 * zsum (value <$> tbl0) < 2 ^ 64).
Context (ongoing : IsOngoingTx txStatus (Some txId) = true).
Abbreviation avail := (available txStatus hTop).
Abbreviation byID := (getCoinsByID txStatus hTop tbl0).

Lemma held_refl : held [] tbl0.
Proof. constructor; [by rewrite app_nil_r|done|by left|]. intros id r E. by rewrite E. Qed.

Lemma old_ids l : Forall (fun id => id ∈ c_ID <$> tbl0) l -> Forall (Z.le 0) (id_Value <$> l).
Proof.
  intros Hl. apply Forall_fmap, Forall_forall. intros id Hid. rewrite Forall_forall in Hl. destruct (proj1 (list_elem_of_fmap _ _ _) (Hl _ Hid)) as (r & -> & Hr).
  rewrite Forall_forall in vals_ok. exact (proj1 (vals_ok r Hr)).
Qed.

Lemma old_sum l : NoDup l -> Forall (fun id => id ∈ c_ID <$> tbl0) l -> zsum (id_Value <$> l) <= zsum (value <$> tbl0).
Proof.
  intros Hd Hl. apply zsum_submseteq.
  - rewrite value_ids. apply old_ids, Forall_forall. done.
  - rewrite value_ids. apply fmap_submseteq, NoDup_submseteq; [done|]. intros x Hx. rewrite Forall_forall in Hl. by apply Hl.
Qed.

Lemma to_mark_old l : Forall to_mark l -> Forall (fun id => id ∈ c_ID <$> tbl0) (c_ID <$> l).
Proof.
  intros Hl. apply Forall_fmap. eapply Forall_impl; [exact Hl|]. intros c (r & [Hr Ec]%find_row_Some & _). cbn. rewrite <- Ec. apply list_elem_of_fmap. by exists r.
Qed.

(** The rows of a table whose old coins are marked or not. *)
Lemma held_vals tbl : held [] tbl -> Forall (fun r => 0 <= value r /\ 0 <= c_maturity r) tbl.
Proof.
  intros Hh. apply Forall_forall. intros r Hr. pose proof (find_row_elem _ _ (tb_uniq _ (hd_ok _ _ Hh)) Hr) as Er.
  destruct (find_row tbl0 (c_ID r)) as [r0|] eqn:E0.
  - pose proof (find_row_Some _ _ _ E0) as [Hr0 _]. rewrite Forall_forall in vals_ok. specialize (vals_ok r0 Hr0).
    destruct (hd_old _ _ Hh _ _ E0) as [E|[_ E]]; rewrite Er in E; by simplify_eq.
  - exfalso. apply find_row_None in E0. apply E0. pose proof (hd_ids _ _ Hh) as Hi. rewrite app_nil_r in Hi. rewrite <- Hi. apply list_elem_of_fmap. by exists r.
Qed.

(** What is selected: the preselected coins, and others if they are not enough. *)
Record selection (pre : list CoinID) (total : Z) (mid : list Coin) (coins : list Coin) : Prop := {
  se_marked : Forall to_mark (mark <$> coins);
  se_nodup : NoDup (c_ID <$> coins);
  se_enough : total <= zsum (value <$> byID pre) + zsum (value <$> avail mid zero_asset) -> total <= zsum (value <$> coins);
  se_short : zsum (value <$> byID pre) + zsum (value <$> avail mid zero_asset) < total -> coins = mark <$> byID pre;
  se_all : zsum (value <$> byID pre) + zsum (value <$> avail mid zero_asset) <= zsum (value <$> tbl0);
  se_none : pre = [] -> mid = tbl0
}.

Lemma value_mark (l : list Coin) : value <$> (mark <$> l) = value <$> l.
Proof. by rewrite <- list_fmap_compose. Qed.

(** The coins of a sum that is saved. *)
Lemma marked_sum l : Forall to_mark (mark <$> l) -> NoDup (c_ID <$> l) -> 0 <= zsum (value <$> l) <= zsum (value <$> tbl0) /\ sum64 (value <$> l) = zsum (value <$> l).
Proof.
  intros Hl Hd. pose proof (to_mark_old _ Hl) as Ho. assert (c_ID <$> (mark <$> l) = c_ID <$> l) as E by (by rewrite <- list_fmap_compose). rewrite E in Ho.
  rewrite !(value_ids l). pose proof (old_ids _ Ho) as Hp. pose proof (old_sum _ Hd Ho) as Hs. pose proof (zsum_nonneg _ Hp). split; [done|]. apply sum64_small; [done|lia].
Qed.

Lemma mid_ok pre mid : NoDup pre -> held [] mid ->
  (forall id, id ∈ c_ID <$> byID pre -> exists r, find_row tbl0 id = Some r /\ find_row mid id = Some (mark r)) ->
  Forall to_mark (mark <$> (byID pre ++ avail mid zero_asset)) /\ NoDup (c_ID <$> (byID pre ++ avail mid zero_asset)).
Proof.
  intros Hd Hh Hm. split.
  - rewrite fmap_app. apply Forall_app. split; apply Forall_fmap, Forall_forall; intros c Hc; [by eapply byID_mark|by eapply available_mark].
  - rewrite fmap_app. apply NoDup_app. split_and!; [by apply byID_nodup| |apply available_nodup, Hh].
    intros id Hid (c & -> & Hc)%list_elem_of_fmap. destruct (Hm _ Hid) as (r & _ & Er). eapply mark_not_available; [done|apply Hh|done|done].
Qed.

Lemma SelectInputs_ok pre amount fee : NoDup pre -> 0 < amount + fee < 2 ^ 64 ->
  exists mid coins tbl, selection pre (amount + fee) mid coins /\ held [] tbl /\ (coins = [] -> tbl = mid) /\
    (forall c, c ∈ coins -> exists r, find_row tbl0 (c_ID c) = Some r /\ find_row tbl (c_ID c) = Some (mark r)) /\
    SelectInputs txStatus hTop query txId (mkTxCoins tbl0 0 [] []) pre amount fee =
      Some (mkTxCoins tbl (if bool_decide (coins = []) then 0 else u64 (zsum (value <$> coins) - (amount + fee))) ((fun c => (c_ID c, c_assetID c)) <$> coins) [], negb (bool_decide (coins = []))).
Proof.
  intros Hd Ht. unfold SelectInputs. cbn [tc_Table tc_Change tc_Inputs tc_Outputs]. set (P := mark <$> byID pre).
  assert (Forall to_mark P) as HP by (apply Forall_fmap, Forall_forall; intros c Hc; by eapply byID_mark).
  assert (c_ID <$> P = c_ID <$> byID pre) as EP by (unfold P; by rewrite <- list_fmap_compose).
  assert (mark <$> P = P) as EmP by (unfold P; by rewrite <- list_fmap_compose).
  destruct (held_save_all [] P tbl0 held_refl HP) as (mid & E & Hh & Hm). rewrite E. cbn [mbind option_bind].
  destruct (mid_ok pre mid Hd Hh) as [Hmk Hnd]; [intros id Hid; apply Hm; left; by rewrite EP|].
  destruct (marked_sum _ Hmk Hnd) as [Hall _]. rewrite fmap_app, zsum_app in Hall. rewrite fmap_app in Hmk. rewrite fmap_app in Hnd. apply Forall_app in Hmk as [_ Hmk]. apply NoDup_app in Hnd as (Hn1 & Hn2 & Hn3).
  destruct (marked_sum (byID pre) HP Hn1) as [Hp Ep]. destruct (marked_sum (avail mid zero_asset) Hmk Hn3) as [Ha _].
  assert (sum64 (value <$> P) = zsum (value <$> byID pre)) as -> by (unfold P; by rewrite value_mark). rewrite wrap_small by (unfold in_width; lia).
  assert (pre = [] -> mid = tbl0) as Hnone by (intros ->; by injection E as <-).
  assert (exists coins, (if zsum (value <$> byID pre) <? amount + fee then sel ← selectCoins txStatus hTop (query mid) (u64 (amount + fee - zsum (value <$> byID pre))); Some (P ++ sel) else Some P) = Some coins /\
    selection pre (amount + fee) mid coins) as (coins & -> & Hsel).
  { destruct (Z.ltb_spec (zsum (value <$> byID pre)) (amount + fee)) as [Hlt|Hge].
    - rewrite wrap_small by (unfold in_width; lia).
      destruct (select_coins_ok txStatus hTop mid zero_asset (query mid) (amount + fee - zsum (value <$> byID pre)) hTop_ok (held_vals _ Hh)) as (sel & -> & Hsub & Hen & Hsh); [lia|lia|apply query_ok|].
      assert (t_Avail (Totals_Init txStatus hTop mid zero_asset) = zsum (value <$> avail mid zero_asset)) as Et
        by (apply Totals_avail; [eapply Forall_impl; [exact (held_vals _ Hh)|]; by intros r []|lia]).
      rewrite Et in Hen, Hsh. cbn [mbind option_bind]. eexists. split; [done|].
      assert (value <$> (P ++ sel) = (value <$> byID pre) ++ (value <$> sel)) as Ev by (rewrite fmap_app; unfold P; by rewrite value_mark).
      constructor; [..|lia|done].
      + rewrite fmap_app. apply Forall_app. split; [by rewrite EmP|]. apply Forall_fmap, Forall_forall. intros c Hc.
        eapply available_mark; [done|]. by eapply elem_of_submseteq.
      + rewrite fmap_app, EP. apply NoDup_app. split_and!; [done| |].
        * intros id Hid Hin. eapply Hn2; [done|]. apply (fmap_submseteq c_ID) in Hsub. by eapply elem_of_submseteq.
        * apply (fmap_submseteq c_ID) in Hsub. destruct (submseteq_Permutation _ _ Hsub) as [k Hk]. rewrite Hk in Hn3. by apply NoDup_app in Hn3 as [? _].
      + intros Hle. rewrite Ev, zsum_app. specialize (Hen ltac:(lia)). lia.
      + intros Hs. rewrite Hsh by lia. by rewrite app_nil_r.
    - exists P. split; [done|]. constructor; [| |intros _; unfold P; rewrite value_mark; lia|done|lia|done].
      + by rewrite EmP.
      + by rewrite EP. }
  cbn [mbind option_bind]. exists mid, coins. destruct coins as [|c0 coins'] eqn:Ec.
  { exists mid. split_and!; [done|done|done|by intros c ?%elem_of_nil|done]. }
  rewrite <- Ec in *. assert (coins <> []) as Hne by (by rewrite Ec). rewrite bool_decide_false by done.
  destruct (held_save_all [] (mark <$> coins) mid Hh (se_marked _ _ _ _ Hsel)) as (tbl & E2 & Hh2 & Hm2). exists tbl.
  destruct (marked_sum coins (se_marked _ _ _ _ Hsel) (se_nodup _ _ _ _ Hsel)) as [Hs Es].
  assert (mark <$> coins = mark c0 :: (mark <$> coins')) as Ec2 by (by rewrite Ec). cbn [negb].
  split_and!; [done|done|done| |].
  - intros c Hc. apply Hm2. left. apply list_elem_of_fmap. exists (mark c). split; [done|]. apply list_elem_of_fmap. by exists c.
  - rewrite value_mark, Es, E2. cbn [mbind option_bind app]. do 3 f_equal. by rewrite <- list_fmap_compose.
Qed.

(** New coins. *)
Context (rnd : nat -> Z) (rnd_ok : forall n, in_width 64 (rnd n)).
Abbreviation grown := (fun tbl tbl' : list Coin => forall id r, find_row tbl id = Some r -> find_row tbl' id = Some r).

Lemma new_coin_ok s amount b : held (tc_Outputs s).*1 (tc_Table s) -> Z.of_nat (length tbl0 + length (tc_Outputs s)) < 2 ^ 64 - 1 ->
  exists tbl id, GenerateNewCoin txStatus hTop rnd txId s amount b = Some (mkTxCoins tbl (tc_Change s) (tc_Inputs s) (tc_Outputs s ++ [(id, zero_asset)])) /\
    id_Value id = amount /\ held (tc_Outputs s ++ [(id, zero_asset)]).*1 tbl /\ grown (tc_Table s) tbl.
Proof.
  intros Hh Hn. unfold GenerateNewCoin, store. set (c := if b then _ else _). set (c' := set_Idx c _). pose proof (f_equal length (hd_ids _ _ Hh)) as Hl.
  rewrite length_app, !length_fmap in Hl.
  destruct (insertNew_ok txStatus hTop (tc_Table s) c' (tb_uniq _ (hd_ok _ _ Hh))) as (tbl & idx & E & _ & Hnone & Hu & Hf); [lia|apply rnd_ok|].
  rewrite E. cbn [mbind option_bind]. pose proof (insertNew_app _ _ _ _ _ _ E) as Ea. set (cn := set_Idx c' idx) in *.
  assert (id_Value (c_ID cn) = amount /\ c_createTxId cn = Some txId /\ c_confirmHeight cn = MaxHeight) as (Hv & Hc1 & Hc2) by (unfold cn, c', c; by destruct b).
  exists tbl, (c_ID cn). split_and!; [done|done| |].
  - constructor.
    + rewrite Ea, !fmap_app, (hd_ids _ _ Hh), <- app_assoc. done.
    + apply table_find; [done|]. intros id r. rewrite Hf. destruct (decide _); [by intros [= <-]|apply table_row, Hh].
    + intros id r Er. rewrite Hf. destruct (decide (c_ID cn = id)) as [<-|]; [|by apply Hh]. destruct (hd_old _ _ Hh _ _ Er) as [E'|[_ E']]; by rewrite Hnone in E'.
    + intros id r Er. rewrite Hf. destruct (decide _); [by intros [= <-]|by apply Hh].
  - intros id r Er. rewrite Hf. destruct (decide (c_ID cn = id)) as [<-|]; [by rewrite Hnone in Er|done].
Qed.

Lemma coin_list_ok amounts b : forall s, held (tc_Outputs s).*1 (tc_Table s) -> Z.of_nat (length tbl0 + length (tc_Outputs s) + length amounts) < 2 ^ 64 - 1 ->
  exists tbl ids, GenerateNewCoinList txStatus hTop rnd txId s amounts b = Some (mkTxCoins tbl (tc_Change s) (tc_Inputs s) (tc_Outputs s ++ ((fun id => (id, zero_asset)) <$> ids))) /\
    id_Value <$> ids = amounts /\ held (tc_Outputs s ++ ((fun id => (id, zero_asset)) <$> ids)).*1 tbl /\ grown (tc_Table s) tbl.
Proof.
  induction amounts as [|v amounts IH]; intros s Hh Hn; cbn [GenerateNewCoinList].
  { exists (tc_Table s), []. destruct s. cbn in *. rewrite app_nil_r. by split_and!. }
  destruct (new_coin_ok s v b Hh) as (tbl & id & -> & Hv & Hh1 & Hg); [cbn in Hn; lia|]. cbn [mbind option_bind].
  match goal with |- context [GenerateNewCoinList _ _ _ _ ?x] => destruct (IH x Hh1) as (tbl' & ids & -> & Hvs & Hh2 & Hg2) end.
  { cbn [tc_Outputs]. rewrite length_app. cbn in *. lia. }
  cbn [tc_Change tc_Inputs tc_Outputs tc_Table] in *. exists tbl', (id :: ids). rewrite fmap_cons, <- app_assoc in *. split_and!; [done|cbn; by f_equal|done|].
  intros id' r Er. by apply Hg2, Hg.
Qed.

End tx.

(** ** The claims *)

(** A wallet in which the transaction [txId] begins: it goes on, and no coin knows of it. *)
Record wallet_ok (txStatus : list Z -> option TxStatus) (hTop : Z) (query : list Coin -> list Coin) (rnd : nat -> Z) (txId : list Z) (tbl : list Coin) : Prop := {
  wo_query t : select_rows hTop (query t) t zero_asset;
  wo_hTop : 0 <= hTop < 2 ^ 63;
  wo_table : table_ok tbl;
  wo_vals : Forall (fun r => 0 <= value r /\ 0 <= c_maturity r) tbl;
  wo_sum : 16 * zsum (value <$> tbl) < 2 ^ 64;
  wo_ongoing : IsOngoingTx txStatus (Some txId) = true;
  wo_rnd n : in_width 64 (rnd n);
  wo_fresh : Forall (fun r => c_createTxId r <> Some txId /\ c_spentTxId r <> Some txId) tbl
}.

Section claims.
Context (txStatus : list Z -> option TxStatus) (hTop : Z) (query : list Coin -> list Coin) (rnd : nat -> Z) (txId : list Z) (tbl : list Coin).
Context (W : wallet_ok txStatus hTop query rnd txId tbl).
Abbreviation held' := (held txStatus hTop txId tbl).

Lemma sender_ok pre amounts fee : NoDup pre -> 0 < sum64 amounts + fee < 2 ^ 64 -> Z.of_nat (length tbl) < 2 ^ 64 - 2 ->
  exists mid coins s ok, PrepareCoins txStatus hTop query rnd txId tbl pre amounts fee true false = Some (s, ok) /\
    selection txStatus hTop txId tbl pre (sum64 amounts + fee) mid coins /\ held' (tc_Outputs s).*1 (tc_Table s) /\ (coins = [] -> tc_Table s = mid) /\
    (forall c, c ∈ coins -> exists r, find_row tbl (c_ID c) = Some r /\ find_row (tc_Table s) (c_ID c) = Some (set_spentTxId r (Some txId))) /\ ok = negb (bool_decide (coins = [])) /\
    tc_Inputs s = (fun c => (c_ID c, c_assetID c)) <$> coins /\
    tc_Change s = (if ok then u64 (zsum (value <$> coins) - (sum64 amounts + fee)) else 0) /\
    (fun x => id_Value x.1) <$> tc_Outputs s = (if tc_Change s =? 0 then [] else [tc_Change s]).
Proof.
  intros Hd Ht Hl. destruct W as [Hq Hh Hok Hv Hs Hon Hr _]. unfold PrepareCoins.
  destruct (SelectInputs_ok txStatus hTop txId tbl query Hq Hh Hok Hv Hs Hon pre (sum64 amounts) fee Hd Ht) as (mid & coins & tbl1 & Hsel & Hheld & Hemp & Hm & E). rewrite E. cbn [mbind option_bind].
  destruct (bool_decide (coins = [])) eqn:Ec; cbn [negb mbind option_bind orb].
  { eexists mid, coins, _, false. split; [done|]. cbn [tc_Outputs tc_Table tc_Change tc_Inputs]. rewrite Ec. by split_and!. }
  unfold AddChange. cbn [tc_Change]. destruct (Z.eqb_spec (u64 (zsum (value <$> coins) - (sum64 amounts + fee))) 0) as [E0|E0]; cbn [mbind option_bind negb].
  { eexists mid, coins, _, true. split; [done|]. cbn [tc_Outputs tc_Table tc_Change tc_Inputs]. rewrite Ec, E0. by split_and!. }
  match goal with |- context [GenerateNewCoin _ _ _ _ ?s ?a ?b] => destruct (new_coin_ok txStatus hTop txId tbl rnd Hr s a b Hheld) as (tbl2 & id & -> & Hid & Hh2 & Hg) end.
  { cbn. lia. }
  cbn [mbind option_bind negb]. eexists mid, coins, _, true. split; [done|]. cbn [tc_Outputs tc_Table tc_Change tc_Inputs] in *. split_and!; try done; [by intros ->; rewrite bool_decide_true in Ec| |by rewrite Ec|].
  - intros c Hc. destruct (Hm c Hc) as (r & Er & Er'). exists r. split; [done|]. by apply Hg.
  - cbn [app fmap list_fmap fst]. rewrite Hid. by rewrite (proj2 (Z.eqb_neq _ _) E0).
Qed.
End claims.

(** C15: A transaction that fails gives its coins back.  Whatever the wallet does for a
    transaction, as the sender with any preselected coins, as the receiver, or both, and whether or not
    it finds the coins, it ends; and [rollbackTx] then leaves exactly the coins
    that were there before, each with the status that it had; a coin differs only
    in that the spending transaction, which is not going on, is forgotten. *)
Theorem tx_coins_rollback txStatus hTop query rnd txId tbl pre amounts fee isSender isSelfTx :
  wallet_ok txStatus hTop query rnd txId tbl -> NoDup pre -> 0 < sum64 amounts + fee < 2 ^ 64 -> Z.of_nat (length tbl + length amounts) < 2 ^ 64 - 2 ->
  exists s ok, PrepareCoins txStatus hTop query rnd txId tbl pre amounts fee isSender isSelfTx = Some (s, ok) /\
    forall id, match find_row tbl id with
    | Some r => exists r', find_row (rollbackTx (tc_Table s) txId) id = Some r' /\ GetCoinStatus txStatus hTop r' = GetCoinStatus txStatus hTop r /\
        (r' = r \/ GetCoinStatus txStatus hTop r = Available /\ r' = set_spentTxId r None)
    | None => find_row (rollbackTx (tc_Table s) txId) id = None
    end.
Proof.
  intros W Hd Ht Hl. enough (exists s ok, PrepareCoins txStatus hTop query rnd txId tbl pre amounts fee isSender isSelfTx = Some (s, ok) /\ held txStatus hTop txId tbl (tc_Outputs s).*1 (tc_Table s)) as (s & ok & E & Hh).
  { exists s, ok. split; [done|]. eapply rollback_held; [exact Hh|apply W]. }
  assert (forall s, held txStatus hTop txId tbl (tc_Outputs s).*1 (tc_Table s) -> (length (tc_Outputs s) <= 1)%nat ->
    exists s' ok, (if isSelfTx || negb isSender then s ← GenerateNewCoinList txStatus hTop rnd txId s amounts false; Some (s, true) else Some (s, true)) = Some (s', ok) /\
      held txStatus hTop txId tbl (tc_Outputs s').*1 (tc_Table s')) as Hend.
  { intros s Hh Ho. destruct (isSelfTx || negb isSender); [|by exists s, true].
    destruct (coin_list_ok txStatus hTop txId tbl rnd (wo_rnd _ _ _ _ _ _ W) amounts false s Hh) as (tbl' & ids & -> & _ & Hh' & _); [lia|]. by eexists _, true. }
  destruct isSender.
  - destruct (sender_ok txStatus hTop query rnd txId tbl W pre amounts fee Hd Ht) as (mid & coins & s & ok & E & _ & Hh & _ & _ & _ & _ & _ & Ho); [lia|].
    unfold PrepareCoins in *. destruct (SelectInputs _ _ _ _ _ _ _ _) as [[s0 ok0]|]; [|done]. cbn [mbind option_bind] in *. destruct ok0; cbn [negb mbind option_bind] in *.
    + destruct (AddChange _ _ _ _ s0) as [s1|]; [|done]. cbn [mbind option_bind negb orb] in *. injection E as -> <-. apply Hend; [done|].
      apply (f_equal length) in Ho. rewrite length_fmap in Ho. destruct (_ =? _) in Ho; cbn in Ho; lia.
    + injection E as -> <-. by exists s, false.
  - unfold PrepareCoins. cbn [mbind option_bind negb]. apply Hend; [|cbn; lia]. apply held_refl, W.
Qed.

(** C16: What a sender without preselected coins, who does not send to itself, takes.  If the fee and the amount are
    available according to [Totals], different coins that were available go into the
    transaction, now marked with it, and they are worth the amount, the fee and the
    change, which is the value of the only new coin, if it is not zero.  Otherwise
    the transaction fails with [NoInputs] and the table is as it was. *)
Theorem tx_coins_balance txStatus hTop query rnd txId tbl amounts fee :
  wallet_ok txStatus hTop query rnd txId tbl -> 0 < sum64 amounts + fee < 2 ^ 64 -> Z.of_nat (length tbl) < 2 ^ 64 - 2 ->
  exists s ok, PrepareCoins txStatus hTop query rnd txId tbl [] amounts fee true false = Some (s, ok) /\
  if sum64 amounts + fee <=? t_Avail (Totals_Init txStatus hTop tbl zero_asset) then
    ok = true /\ NoDup (tc_Inputs s).*1 /\ zsum (id_Value <$> (tc_Inputs s).*1) = sum64 amounts + fee + tc_Change s /\ 0 <= tc_Change s /\
    (fun x => id_Value x.1) <$> tc_Outputs s = (if tc_Change s =? 0 then [] else [tc_Change s]) /\
    Forall (fun x => exists r, find_row tbl x.1 = Some r /\ GetCoinStatus txStatus hTop r = Available /\
                               find_row (tc_Table s) x.1 = Some (set_spentTxId r (Some txId))) (tc_Inputs s)
  else ok = false /\ forall id, find_row (tc_Table s) id = find_row tbl id.
Proof.
  intros W Ht Hl. destruct (sender_ok txStatus hTop query rnd txId tbl W [] amounts fee (NoDup_nil_2) Ht Hl) as (mid & coins & s & ok & E & Hsel & Hh & Hemp & Hm & Eok & Ei & Ech & Eo).
  exists s, ok. split; [done|]. pose proof Hsel as [Hmk Hnd Hen Hsh Hall Hnone]. rewrite (Hnone eq_refl) in *. cbn [getCoinsByID fmap list_fmap] in *. change (zsum []) with 0 in *.
  destruct W as [Hq Hho Hok Hv Hs Hon Hr Hfr]. rewrite (Totals_avail txStatus hTop tbl zero_asset); [|eapply Forall_impl; [exact Hv|]; by intros r []|lia].
  assert ((tc_Inputs s).*1 = c_ID <$> coins) as E1 by (rewrite Ei, <- list_fmap_compose; done).
  destruct (Z.leb_spec (sum64 amounts + fee) (zsum (value <$> available txStatus hTop tbl zero_asset))) as [Hle|Hgt].
  - specialize (Hen ltac:(lia)). assert (coins <> []) as Hne by (intros ->; change (zsum (value <$> [])) with 0 in Hen; lia).
    rewrite bool_decide_false in Eok by done. subst ok. cbn [negb] in *. rewrite E1, <- value_ids.
    destruct (marked_sum txStatus hTop txId tbl Hv Hs coins Hmk Hnd) as [Hb _].
    rewrite wrap_small in Ech by (unfold in_width; lia). split_and!; [done|done|lia|lia|done|].
    rewrite Ei. apply Forall_fmap, Forall_forall. intros c Hc. cbn. destruct (Hm c Hc) as (r & Er & Er'). exists r. split_and!; [done| |done].
    rewrite Forall_fmap in Hmk. rewrite Forall_forall in Hmk. destruct (Hmk c Hc) as (r2 & Er2 & Ha & _). cbn in Er2. rewrite Er in Er2. by simplify_eq.
  - rewrite (Hsh ltac:(lia)) in *. subst ok. cbn [bool_decide negb] in *. split; [done|].
    intros id. by rewrite Hemp.
Qed.



(** ** The wallet of [DemoWallet] with a second transaction *)
Module DemoTx.
Definition tx2 : list Z := [2].
Definition status (id : list Z) : option TxStatus := if decide (id = tx2) then Some TxPending else DemoWallet.status id.
Definition by_value (a b : Coin) : Prop := id_Value (c_ID a) <= id_Value (c_ID b).
#[local] Instance by_value_dec a b : Decision (by_value a b).
Proof. unfold by_value. apply _. Defined.
#[local] Instance by_value_trans : Transitive by_value.
Proof. intros a b c. unfold by_value. lia. Qed.
#[local] Instance by_value_total : Total by_value.
Proof. intros a b. unfold by_value. lia. Qed.
Definition query (t : list Coin) : list Coin := merge_sort by_value (filter (selectable 50 zero_asset) t).

Lemma query_ok t : select_rows 50 (query t) t zero_asset.
Proof. split; [apply merge_sort_Permutation|apply (StronglySorted_merge_sort by_value)]. Qed.

Lemma demo_wallet_ok : wallet_ok status 50 query (fun _ => 4) tx2 DemoWallet.tbl.
Proof.
  split; [exact query_ok|lia|exact DemoWallet.tbl_ok|repeat constructor; cbn; lia|by vm_compute|reflexivity|intros _; unfold in_width; lia|].
  repeat constructor; cbn; discriminate.
Qed.
End DemoTx.

Lemma tx_coins_rollback_witness :
  exists s ok, PrepareCoins DemoTx.status 50 DemoTx.query (fun _ => 4) DemoTx.tx2 DemoWallet.tbl [c_ID DemoWallet.c2] [400; 500] 10 true true = Some (s, ok) /\
    find_row (rollbackTx (tc_Table s) DemoTx.tx2) (c_ID DemoWallet.c2) <> None.
Proof.
  destruct (tx_coins_rollback DemoTx.status 50 DemoTx.query (fun _ => 4) DemoTx.tx2 DemoWallet.tbl [c_ID DemoWallet.c2] [400; 500] 10 true true DemoTx.demo_wallet_ok) as (s & ok & E & H).
  - apply NoDup_singleton.
  - vm_compute. split; reflexivity.
  - vm_compute. reflexivity.
  - exists s, ok. split; [exact E|]. specialize (H (c_ID DemoWallet.c2)). change (find_row DemoWallet.tbl (c_ID DemoWallet.c2)) with (Some DemoWallet.c2) in H.
    cbn iota in H. destruct H as (r & -> & _). discriminate.
Defined.

Lemma tx_coins_balance_witness :
  exists s ok, PrepareCoins DemoTx.status 50 DemoTx.query (fun _ => 4) DemoTx.tx2 DemoWallet.tbl [] [400; 500] 10 true false = Some (s, ok) /\
    ok = true /\ zsum (id_Value <$> (tc_Inputs s).*1) = 900 + 10 + tc_Change s.
Proof.
  destruct (tx_coins_balance DemoTx.status 50 DemoTx.query (fun _ => 4) DemoTx.tx2 DemoWallet.tbl [400; 500] 10 DemoTx.demo_wallet_ok) as (s & ok & E & H).
  - vm_compute. split; reflexivity.
  - vm_compute. reflexivity.
  - exists s, ok. split; [exact E|]. change (sum64 [400; 500]) with 900 in H. change (t_Avail (Totals_Init DemoTx.status 50 DemoWallet.tbl zero_asset)) with 1000 in H.
    destruct H as (-> & _ & H & _). split; [reflexivity|exact H].
Defined.

